(* ===== verification/_CoqProject ===== *)
-Q . S2P
Prelude.v
JsText.v
SafeInt.v
EditDiff.v
EditSession.v
History.v
SessionModel.v
MutationQueue.v
Search.v
SessionApi.v
JsValue.v
ChangeLogCodec.v
ChangeLogDocument.v
ChangeLogRpc.v
ChangeLogStream.v
ChangeLogChunks.v
ChangeLogFiles.v
ChangeLogExportFile.v
ChangeLogReader.v
Subscriptions.v
ScopedSession.v
ActionJournal.v
WebviewProtocol.v
TextEncoding.v
RangeMap.v
TimelineManifest.v
TimelineStorage.v
TimelineLogic.v
TimelineQuota.v
TimelineInvariants.v
TimelineLock.v
AiToolkit.v
UnaryCalls.v
SessionCalls.v
ClientConnection.v
AiReplay.v
AiExport.v
AiTools.v
AiSchema.v
McpServer.v
ServerProcesses.v
ServerLauncher.v
ServerControl.v
AiServer.v
WebviewInspector.v
WebviewEditor.v
WebviewSearch.v
HostRecords.v
HostReplay.v
HostQueues.v
HostTimeline.v
HostHistory.v
HostSaves.v
HostServer.v
