(* ===== verification/Prelude.v ===== *)
(** * OmegaEdit: a verification of the TypeScript client and extension

    OmegaEdit edits large files through a native engine that a gRPC server
    hosts.  The TypeScript packages under [src/packages/client/src] are what
    editors program against: they plan and submit changes, keep the editor's
    history and session state, search and replace, serialise the mutations
    of a session, and read, write and stream change logs.  The extension under
    [src/vscode-extension/src] is a hex editor on top of it, and
    [src/packages/ai] gives an assistant the same sessions as tools.  This
    development models the client, the launcher of the server, the assistant's
    toolkit with its server, the parts of the extension that decide what data
    is taken, what is done with it and what is kept on disk, and the parts of
    its webview that turn keys and clicks into messages, and proves what they
    promise.

    ** The parts and how they interact

    - [change.ts] plans an edit as a list of inserts, deletes and overwrites
      and submits it through [protobuf_ts/change.ts], inside the transactions
      and viewport batches of [session.ts]; every number that crosses the wire
      goes through [safe_int.ts].
    - [editor_history.ts] records what was submitted and drives undo and redo
      through an executor; [editor_session_model.ts] follows the events of the
      session and lets callers wait for them; [editor_search.ts] searches and
      replaces on top of the calls of [session.ts].
    - [mutation_queue.ts] runs the mutations of a session one after another;
      [subscriptions.ts] delivers the events of sessions and viewports, and
      [editor_scoped_session.ts] owns a session with its viewport and
      subscriptions; [action_journal.ts] pages through the server's journal.
    - [changeLog/] is the exchange format of histories: [codec.ts] validates
      and normalises documents, [stream.ts] scans them as they arrive,
      [node/rpc.ts] receives an export as a stream of frames, and
      [node/index.ts] writes documents and exports to files and reads them.
    - In the extension, [webviewProtocol.ts] checks every message of the
      webview before [hexEditorProvider.ts] acts on it, [textEncoding.ts]
      shows and takes bytes as text, and [rangeMap.ts] loads the ranges that
      are highlighted, which go through the checks of the protocol too;
      [checkpointTimelineStorage.ts] keeps the content of checkpoints on disk.
      [hexEditorProvider.ts] itself replays change logs into a session, keeps
      their records in the editor's history, chains saves, commands and
      profiles that are asked for while others are under way, moves over the
      checkpoints of a session, edits, undoes and redoes, and saves.
    - In the webview, [App.svelte] keeps the caret, the selection, the search
      and what is visible, [PreviewGrid.svelte] takes the keys, and
      [ByteInspector.svelte] shows the bytes at the caret as values and writes
      them; what they post goes through [webviewProtocol.ts].
    - [server.ts] finds, starts and stops the native server, waits for its
      socket and keeps up its heartbeat; [packages/server] makes its command
      line.
    - In [packages/ai], [service.ts] is the toolkit: bounded reads, patches
      with a preview, change logs that are exported and replayed, a server that
      is started when there is none; [mcp.ts] answers the messages of an
      assistant with calls of the toolkit's tools, and [cli.ts] makes the same
      calls from a command line.

    ** Files

    - [Prelude]: strings, numbers, exceptions, the result type and the state
      monad with exceptions the other files are written in; their tactics and
      shared lemmas.  [JsText]: the string operations of the JavaScript
      runtime (trimming, decimals, UTF-8, lower case).  [JsValue]: values of
      type [unknown] and their properties.
    - [SafeInt] ([safe_int.ts]): the checks on numbers.
    - [EditDiff] ([change.ts]: [editOptimizer], [editOperations]): the planning
      of edits over byte lists.
    - [EditSession] ([change.ts], [protobuf_ts/change.ts], [session.ts]:
      [runSessionTransaction], [withViewportBatch]): submitting changes.  The
      server is the class [EditBackend]; [EditBackendLaws] says that an
      accepted change does to the buffer what its kind means.
    - [History] ([editor_history.ts]): [EditorHistoryController] as the record
      [history], an operation for each method.
    - [SessionModel] ([editor_session_model.ts]): [EditorSessionModel] with its
      waiters and timers, as a step relation.
    - [MutationQueue] ([mutation_queue.ts]): [enqueueSessionMutation] called by
      any number of concurrent tasks, which nest calls and fail; the
      promises are modelled by what they wait for, and the interleaving by a
      step relation.
    - [Search] ([editor_search.ts]): [EditorSearchController].  The server's
      search and replace are the class [SearchService] with its laws.
    - [SessionApi] ([session.ts]): search, replace, reading and checkpoint
      calls with their checks, against the class [SessionRpc].
    - [ChangeLogCodec], [ChangeLogDocument] ([changeLog/codec.ts], [types.ts]):
      limits, int64 values, entries, fingerprints, headers, sequences and
      documents.  [JSON.parse] and [JSON.stringify] are the class
      [JsonRuntime].
    - [ChangeLogRpc] ([changeLog/node/rpc.ts], [proto.ts]): the frames of an
      export, the bounded queue between the transport and the generator, and
      the generator's loop.
    - [ChangeLogStream], [ChangeLogChunks] ([changeLog/stream.ts]): the scanner
      of change logs that arrive in chunks, written against the interface
      [JsonCursor] with the streaming cursor and a reader of the whole text as
      its instances, and the agreement of the two.
    - [ChangeLogFiles], [ChangeLogExportFile], [ChangeLogReader]
      ([changeLog/node/index.ts]): the temporary file and its commit, over a
      file system each of whose calls may fail; writing documents; writing an
      export from the frames of [ChangeLogRpc]; reading a file in two passes.
    - [Subscriptions] ([subscriptions.ts]): the module [Events] for the chain
      of handlers of a subscription, the module [Manager] for the subscription
      that follows a viewport, both as step relations.
    - [ScopedSession] ([editor_scoped_session.ts]): the handle and its
      operations over servers whose calls may fail; the module [Starting] for
      starts and disposal that overlap.
    - [ActionJournal] ([action_journal.ts]): request, response and updates.
    - [WebviewProtocol] ([webviewProtocol.ts]), [TextEncoding]
      ([textEncoding.ts]), [RangeMap] ([rangeMap.ts]): the extension's
      messages and highlights, encodings and range maps.
    - [TimelineManifest], [TimelineStorage] ([checkpointTimelineStorage.ts]):
      what is kept on disk for the checkpoints of a session, and the manager
      and the session as computations over files whose calls may fail;
      [TimelineLogic] has the rules to reason about them, [TimelineQuota] the
      limits of the index, [TimelineInvariants] what a session keeps on disk,
      [TimelineLock] the lock between windows as a step relation.
    - [UnaryCalls] ([protobuf_ts/session.ts], [viewport.ts], [change.ts],
      [unary.ts]): every unary call as the request it sends and what it makes
      of the reply, cancellation and time-outs as step functions, and the
      interface of [SessionApi] discharged by requests on the wire.
      [SessionCalls] ([session.ts], [viewport.ts], [change.ts]): the rest of
      the public calls.  [ClientConnection] ([protobuf_ts/client.ts]): the
      targets and the shared connections, as an interleaving of calls,
      attempts and resets.
    - [AiToolkit] ([service.ts], [codec.ts], [constants.ts]): the limits,
      reads, profiles, searches, replacements, patches and saving of the
      toolkit.  [AiReplay]: previews and replays of change logs.  [AiExport]:
      the export of change logs, the descriptors of transforms, checkpoints
      and status.  [AiTools] ([mcp.ts], [cli.ts]): the tools with the
      one-shot tool, and the command line.  [AiSchema]: the schemas of the
      tools.  [McpServer] ([mcp.ts]): the JSON-RPC server, one step for each
      message and each answer of a tool.
    - [ServerProcesses] ([server.ts]): looking for processes and stopping
      them, as computations over a host whose calls may fail.
      [ServerLauncher] ([server.ts], [packages/server]): the free port, the
      start on a port and on a socket, the command line.  [ServerControl]: the
      requests to a running server, with the modules [FileWait] and
      [Heartbeats] as state machines.  [AiServer] ([service.ts]): the server
      of the toolkit.
    - [HostRecords] ([hexEditorProvider.ts]): the records of change logs, the
      descriptors of transforms, the module [ErrorChain] for searches in chains
      of causes.  [HostReplay]: the replay of a log in a session, its preview
      and its command.  [HostQueues]: the modules [Saves], [Commands] and
      [Analysis], as step relations.  [HostTimeline]: the checkpoint timeline
      of a session, over the history and classes for the storage and the
      server.  [HostHistory]: edits, undo and redo, and the moves of the action
      journal.  [HostSaves]: saving, guarded by what the file is known to be.
      [HostServer]: a storage and a server in memory, with which all of this
      is run.
    - [WebviewInspector] ([ByteInspector.svelte]): the fields of the byte
      inspector and their editing.  [WebviewEditor] ([App.svelte],
      [PreviewGrid.svelte]): the caret, the viewport, the keys and the
      clipboard, a function from the state to the state and the messages for
      each handler.  [WebviewSearch] ([App.svelte]): search and replace over
      the editor.

    ** What the theorems show

    - Editing: a plan is in range and turns the original segment into the
      edited one; [edit] and [editSimple] replace exactly the segment when the
      server accepts, return the serial, and close every transaction and
      viewport pause they open on every path, errors included; each call is
      counted once.
    - History: every operation of the controller does to an abstract timeline
      (the transactions with their changes, the current depth, the saved
      depth, the milestones) what is specified of that operation; its fields
      stay in range in every reachable state; redo after undo is the identity; a
      failing executor, snapshots and reconciliation behave as described; a
      case in which [isDirty] misses unsaved changes.
    - Session model: every waiter is pending or settled exactly once, enough
      updates resolve it, and [dispose] leaves none.
    - Mutation queue: mutual exclusion for every interleaving, the map of
      tails holds exactly the sessions with outstanding calls, tasks that
      nest sessions in one order finish, and the nesting that deadlocks.
    - Search: the filter is the greedy disjoint selection and a largest one;
      [search], [findAdjacent], [findViewportMatches] and [replaceAll] answer
      what a specification over the buffer says.
    - Change logs: the int64 and entry round trips, the normal form, the
      sequence rules stated without the validator's state and shown to be
      exactly what it enforces, the consistency of an accepted document; the
      frames of an export are accepted exactly when they form a well-formed
      stream; the queue is bounded, no wake-up is lost, what is handed out is
      valid and complete, and a complete stream is handed out in as many turns
      as there are frames left and one more.  Scanning a log in chunks gives
      what reading its text at once gives, whatever the chunks, and fails with
      errors of the codec only.
    - Files: whatever call fails and wherever, the path holds the complete
      document or what it held before, and a temporary file stays only when
      the call that removes it fails; on a working file system the document is written; an export is in the file
      completely or not at all; the header that is written is read again; a
      second pass over a file hands out the entries the first one summarised.
    - Subscriptions and scoped sessions: handlers run one at a time, in order,
      for every event; in every interleaving at most one viewport subscription
      is open and none after cancelling; opening, recreating the viewport and
      disposing release what they took when a step fails; the request and the
      start that get lost.
    - Journal: exactly which responses are accepted, and that every number of
      one is a canonical decimal in its range.
    - Extension: every accepted message of the webview is inside its limits
      and the file, and every message that is, is accepted unchanged;
      highlights likewise; encoding is the inverse of decoding; a range map
      that parses keeps its limits, parsing always ends, and exactly which
      maps that fit a file are shown.
    - Checkpoint timelines: whatever operations run and whichever of their
      calls fail, the manifest on disk is the one the session has, it is
      accepted when it is read, and every ready interval can be opened; the
      saved state is at a checkpoint with its content or marked as off the
      branch; the index never promises more bytes than the limits; the lock
      excludes while no lock is old, one that was lost before it was written
      is not recovered, and two windows can recover one lock.
    - Connections and calls: without resets and overlapping targets every
      open client is accounted for, and the reset that leaks one; searching
      and replacing mean the same over the wire.
    - Assistant: a preview shows what the patch then does; a change log that
      is reported as applied was read to its end, every entry was applied in
      order and the session answered the fingerprint of the log, and otherwise
      the session is as it was, unless its roll-back is reported to have
      failed; a log that fits is applied; a log exported without transforms
      turns an equal original into the same content on a server that computes
      the default digest alike;
      the one-shot tool always destroys its session and touches no other; the
      command line and the tool make the same patch; every request of an
      assistant is answered once until a line is [null], which ends the
      server; a cancellation stops the call it names and no other, and a tool takes exactly the arguments its schema describes.
    - Launcher: stopping a process always returns, says stopped only when the
      process is gone and signals no other; a start launches at most one
      process, on a socket it stops that process when it fails; the toolkit
      launches and signals nothing when it finds its port in use, and one
      server at most otherwise; waits for files end; the heartbeat's calls
      come in rounds, one at a time, and none after it is stopped.
    - Extension host: an entry of a change log is taken exactly when the client
      can address it, and a record that is exported is taken again; a log
      that is reported as applied has had all its entries applied in order
      and recorded, in batches of at most 1024, and one that fails is undone or
      reported as not undone; saves run one at a time in their order
      and all return; while requests are of one kind, every one is a command
      executed or waiting; a profile that is posted is that of the last
      request; the search for a cancellation ends in every chain of causes; the
      timeline stays in order whatever fails, and its cursor where the server
      is when an operation succeeds; an edit is recorded and announced or
      neither; undo and redo keep the timeline and follow the server; the move
      to a number of changes ends there, if undo and redo do not lead away
      from it; a save that nothing else comes between writes only over the
      file that is known.
    - Webview: a value of the inspector that is not changed keeps its bytes and
      an integer field takes exactly the integers of its width; the caret stays
      in the file as the webview knows it, and messages within the limits pass
      the checks of the host for that file; what is typed
      is inserted where the caret is, in the direction that is set; what is
      copied is what is pasted; of matches in ascending order the next is the
      neighbour, and replacing one of matches that do not overlap leaves the
      others matches.

    ** Conventions

    A JavaScript string is its list of UTF-16 code units, bytes are integers,
    a number is [number] (an integer, a dyadic fraction, an infinity or NaN),
    so that the checks for safe integers are real tests.  Code that throws
    returns [result]; code that changes state and throws is in [M], where the
    state survives the throw.  Exceptions are known by class and code.
    Asynchronous code is sequential where one caller waits for each call, and
    a step relation where the source interleaves (the session model, the
    queue, the export stream, subscriptions).  Recursion is structural; the loops of
    [editOperations] and of decimal printing take as fuel the number of
    positions left and the binary length of the number, and are shown to be
    done by then; the loops of the scanner take the number of characters that
    can still come, and are shown not to use it up; the parser of range maps
    takes the depth limit and one, its search for identifiers the number in
    use and one, with the same result.  Loops that poll until a time-out take
    one check for each interval and two more, and are shown to end by the
    clock; the search in a chain of causes takes one step for each error on
    the heap and one more; the binary search over checkpoints takes as many
    steps as there are checkpoints, the move of the action journal as many as
    changes lie between; the search is shown to be done by then, and so is
    the move unless an undo or a redo of its own leads the other way.  A handler of
    the webview is a function: the runtime calls one after another.

    ** What is not modelled

    Of [hexEditorProvider.ts], the forms, menus, status bar and messages to
    the webview, which are calls of the editor's API around the decisions
    modelled here, and of [extension.ts] everything.  The search for the server's
    binary in the installed package and the texts that tools and the command
    line print.  Generated protobuf code, the gRPC channel, logging, what
    the webview shows (the rendering of the grid, the panels of transforms,
    profiles, checkpoints and the journal, the state it keeps between sessions)
    and the native engine are outside the model: the engine's calls are the
    classes named above, with the behaviour the client relies on as their
    laws, and processes, ports and files are the class of the host. *)

From Stdlib Require Import Ascii String.
From stdpp Require Export base tactics list sets gmap option strings.
From Stdlib Require Export ZArith Lia.

Open Scope Z_scope.

(** ** Strings

    A JavaScript string is a sequence of UTF-16 code units.  [js] turns a
    literal of the source (ASCII) into one. *)
Abbreviation jsstring := (list Z).

Definition js (s : string) : jsstring :=
  map (fun a => Z.of_N (N_of_ascii a)) (list_ascii_of_string s).

(** ** Numbers

    A JavaScript number is a double.  Every finite double is an integer or
    an odd integer over a power of two, so the representation is unique;
    [-0] is identified with [0], which no modelled operation tells apart. *)
Inductive number :=
  | NInt (z : Z)
  | NFrac (n : Z) (k : positive)   (* n / 2^k, n odd *)
  | NInf (negative : bool)
  | NNaN.

Definition MAX_SAFE_INTEGER : Z := 9007199254740991.

Definition safeZ (z : Z) : bool := Z.abs z <=? MAX_SAFE_INTEGER.

(** [Number.isSafeInteger] *)
Definition isSafeInteger (n : number) : bool :=
  match n with NInt z => safeZ z | _ => false end.

(** ** Exceptions and results

    A thrown value is known by its class and, where the class carries one,
    its code; a plain [Error] is known by its message with the interpolated
    parts left out. *)
Record exn := Exn { exn_class : string; exn_code : string }.

Inductive result (A : Type) :=
  | Ok (a : A)
  | Throw (e : exn).
Arguments Ok {A} a.
Arguments Throw {A} e.

#[global] Instance result_ret : MRet result := @Ok.
#[global] Instance result_bind : MBind result := fun A B f r =>
  match r with Ok a => f a | Throw e => Throw e end.
#[global] Instance result_fmap : FMap result := fun A B f r =>
  match r with Ok a => Ok (f a) | Throw e => Throw e end.

(** [if (!b) throw e] *)
Definition require (b : bool) (e : exn) : result unit :=
  if b then Ok tt else Throw e.

Definition is_ok {A} (r : result A) : bool :=
  match r with Ok _ => true | Throw _ => false end.

Definition plain_error (msg : string) : exn := Exn "Error" msg.

(** [arr.map(f)] where [f] may throw: left to right, first error wins. *)
Fixpoint result_map {A B} (f : A -> result B) (l : list A) : result (list B) :=
  match l with
  | [] => Ok []
  | x :: l => y ← f x; ys ← result_map f l; Ok (y :: ys)
  end.

(** The same with the index as second argument, as [Array.prototype.map]
    passes it. *)
Fixpoint result_mapi {A B} (i : nat) (f : A -> nat -> result B) (l : list A)
  : result (list B) :=
  match l with
  | [] => Ok []
  | x :: l => y ← f x i; ys ← result_mapi (S i) f l; Ok (y :: ys)
  end.

(** A left fold whose step may throw: the [for] loops that update a local. *)
Fixpoint result_fold {A S} (f : S -> A -> result S) (s : S) (l : list A) : result S :=
  match l with
  | [] => Ok s
  | x :: l => s' ← f s x; result_fold f s' l
  end.

(** ** Stateful computations that may throw

    An assignment made before a [throw] stays made, so the state comes back
    with the error as well. *)
Definition M (S A : Type) : Type := S -> S * result A.

Definition retM {S A} (a : A) : M S A := fun s => (s, Ok a).
Definition throwM {S A} (e : exn) : M S A := fun s => (s, Throw e).
Definition bindM {S A B} (m : M S A) (f : A -> M S B) : M S B := fun s =>
  match m s with
  | (s', Ok a) => f a s'
  | (s', Throw e) => (s', Throw e)
  end.
Definition getM {S A} (f : S -> A) : M S A := fun s => (s, Ok (f s)).
Definition putM {S} (f : S -> S) : M S unit := fun s => (f s, Ok tt).
Definition liftM {S A} (r : result A) : M S A := fun s => (s, r).

(** [try { return await m } finally { fin }]: a throwing [fin] replaces the
    outcome of [m]. *)
Definition finallyM {S A} (m : M S A) (fin : M S unit) : M S A := fun s =>
  let '(s1, r) := m s in
  match fin s1 with
  | (s2, Ok _) => (s2, r)
  | (s2, Throw e) => (s2, Throw e)
  end.

Declare Scope jsm_scope.
Delimit Scope jsm_scope with jsm.
Notation "'let*' x := m 'in' k" := (bindM m (fun x => k))
  (at level 10, x name, m at level 100, k at level 200) : jsm_scope.
Notation "m ';;;' k" := (bindM m (fun _ => k))
  (at level 100, right associativity) : jsm_scope.

(** ** Automation *)

Create HintDb omega discriminated.
Create Rewrite HintDb omega.

(** ** Hoare triples

    From a state with [P], [m] ends in a state with [Q a] if it returns [a],
    and in one with [E] if it throws. *)
Definition triple {S A} (P : S -> Prop) (m : M S A) (Q : A -> S -> Prop) (E : S -> Prop) : Prop :=
  forall s, P s -> match m s with (s', Ok a) => Q a s' | (s', Throw _) => E s' end.

Section Triples.
Context {S : Type}.
Implicit Types P E : S -> Prop.

Lemma triple_bind {A B} P (m : M S A) (f : A -> M S B) Q R E :
  triple P m Q E -> (forall a, triple (Q a) (f a) R E) -> triple P (bindM m f) R E.
Proof.
  intros Hm Hf s Hs. specialize (Hm s Hs). unfold bindM. destruct (m s) as [s' [a|e]]; [|done].
  by apply Hf.
Qed.

Lemma triple_ret {A} P (a : A) (Q : A -> S -> Prop) E : (forall s, P s -> Q a s) -> triple P (retM a) Q E.
Proof. intros Hq s Hs. by apply Hq. Qed.

Lemma triple_throw {A} P e (Q : A -> S -> Prop) E : (forall s, P s -> E s) -> triple P (throwM e) Q E.
Proof. intros He s Hs. by apply He. Qed.

Lemma triple_lift {A} P (r : result A) E :
  (forall s, P s -> E s) -> triple P (liftM r) (fun x s => r = Ok x /\ P s) E.
Proof. intros He s Hs. unfold liftM. destruct r; [done|]. by apply He. Qed.

Lemma triple_put P f (Q : unit -> S -> Prop) E : (forall s, P s -> Q tt (f s)) -> triple P (putM f) Q E.
Proof. intros Hf s Hs. by apply Hf. Qed.

Lemma triple_pure {A} (F : Prop) P (m : M S A) Q E :
  (F -> triple P m Q E) -> triple (fun s => F /\ P s) m Q E.
Proof. intros Hm s [HF Hs]. by apply Hm. Qed.

Lemma triple_conseq {A} P P' (m : M S A) (Q Q' : A -> S -> Prop) E E' :
  triple P' m Q' E' -> (forall s, P s -> P' s) -> (forall a s, Q' a s -> Q a s) ->
  (forall s, E' s -> E s) -> triple P m Q E.
Proof.
  intros Hm HP HQ HE s Hs. specialize (Hm s (HP s Hs)). destruct (m s) as [s' [a|e]]; auto.
Qed.
End Triples.

(** Turn boolean tests of the source into propositions. *)
Ltac bool_prop :=
  repeat match goal with
  | H : (_ && _)%bool = true |- _ => apply andb_true_iff in H as [? ?]
  | H : (_ || _)%bool = false |- _ => apply orb_false_iff in H as [? ?]
  | H : negb _ = true |- _ => apply negb_true_iff in H
  | H : negb _ = false |- _ => apply negb_false_iff in H
  | H : (_ <=? _)%Z = true |- _ => apply Z.leb_le in H
  | H : (_ <=? _)%Z = false |- _ => apply Z.leb_gt in H
  | H : (_ <? _)%Z = true |- _ => apply Z.ltb_lt in H
  | H : (_ <? _)%Z = false |- _ => apply Z.ltb_ge in H
  | H : (_ =? _)%Z = true |- _ => apply Z.eqb_eq in H
  | H : (_ =? _)%Z = false |- _ => apply Z.eqb_neq in H
  | H : (_ <=? _)%nat = true |- _ => apply Nat.leb_le in H
  | H : (_ <=? _)%nat = false |- _ => apply Nat.leb_gt in H
  | H : (_ <? _)%nat = true |- _ => apply Nat.ltb_lt in H
  | H : (_ <? _)%nat = false |- _ => apply Nat.ltb_ge in H
  | H : (_ =? _)%nat = true |- _ => apply Nat.eqb_eq in H
  | H : (_ =? _)%nat = false |- _ => apply Nat.eqb_neq in H
  | H : bool_decide _ = true |- _ => apply bool_decide_eq_true in H
  | H : bool_decide _ = false |- _ => apply bool_decide_eq_false in H
  end.

Lemma Ok_inj {A} (x y : A) : Ok x = Ok y -> x = y.
Proof. congruence. Qed.

(** Run the binds of a hypothesis [_ = Ok _], one case split at a time. *)
Ltac ok_step :=
  match goal with
  | H : Ok _ = Ok _ |- _ => apply Ok_inj in H
  | H : Throw _ = Ok _ |- _ => discriminate H
  | H : Ok _ = Throw _ |- _ => discriminate H
  | H : mbind _ _ = _ |- _ => unfold mbind, result_bind in H
  | H : mret _ = _ |- _ => unfold mret, result_ret in H
  | H : require ?b _ = Ok _ |- _ =>
      let E := fresh "Hreq" in
      unfold require in H; destruct b eqn:E; [clear H | discriminate H]
  | H : match require ?b _ with _ => _ end = _ |- _ =>
      let E := fresh "Hreq" in
      unfold require in H; destruct b eqn:E; cbv iota beta in H
  | H : match ?r with Ok _ => _ | Throw _ => _ end = _ |- _ =>
      let E := fresh "Hr" in destruct r eqn:E; cbv iota beta in H
  end.
Ltac ok_inv := repeat (ok_step; try discriminate).

(** ** Lists *)

Section Lists.
Context {A : Type}.
Implicit Types l k : list A.

Lemma take_drop_middle_app l k m (i : nat) :
  i = length l -> take i (l ++ k ++ m) = l /\ drop i (l ++ k ++ m) = k ++ m.
Proof. intros ->. by rewrite take_app_length, drop_app_length. Qed.

(** [arr.at(-1)] *)
Definition at_last l : option A := last l.

Lemma last_Some_split l x : last l = Some x -> l = take (length l - 1) l ++ [x].
Proof.
  intros H. apply last_Some in H as [k ->].
  rewrite length_app. cbn [length].
  replace (length k + 1 - 1)%nat with (length k) by lia.
  by rewrite take_app_length.
Qed.

(** [arr.splice(i)]: the removed tail and what stays. *)
Definition splice_tail (i : nat) l : list A * list A := (drop i l, take i l).

Lemma drop_suffix_app l k : drop (length (l ++ k) - length k) (l ++ k) = k.
Proof.
  rewrite length_app.
  replace (length l + length k - length k)%nat with (length l) by lia.
  apply drop_app_length.
Qed.

Lemma take_suffix_app l k : take (length (l ++ k) - length k) (l ++ k) = l.
Proof.
  rewrite length_app.
  replace (length l + length k - length k)%nat with (length l) by lia.
  apply take_app_length.
Qed.
End Lists.

#[global] Instance list_filter_permutation {A} (f : A -> bool) :
  Proper (Permutation ==> Permutation) (List.filter f).
Proof.
  intros l k H. induction H as [|x l k _ IH|x y l|l k m _ IH1 _ IH2]; cbn.
  - constructor.
  - destruct (f x); [by constructor|done].
  - destruct (f x), (f y); try done. constructor.
  - by etransitivity.
Qed.

Lemma result_map_Forall2 {A B} (f : A -> result B) l ys :
  result_map f l = Ok ys -> Forall2 (fun x y => f x = Ok y) l ys.
Proof.
  revert ys; induction l as [|x l IH]; intros ys H; cbn in H.
  - ok_inv. subst. constructor.
  - ok_inv. subst. constructor; auto.
Qed.

Lemma result_mapi_length {A B} (f : A -> nat -> result B) l : forall i ys,
  result_mapi i f l = Ok ys -> length ys = length l.
Proof.
  induction l as [|x l IH]; intros i ys H; cbn in H; ok_inv; subst; cbn; [done|].
  f_equal. eauto.
Qed.

Lemma safeZ_spec z : safeZ z = true <-> - MAX_SAFE_INTEGER <= z <= MAX_SAFE_INTEGER.
Proof. unfold safeZ. rewrite Z.leb_le. lia. Qed.
