(* ===== verification/JsText.v ===== *)
(** * Text of the JavaScript runtime

    What the modelled code uses of the language's string functions and of
    Node's [Buffer]: [String.prototype.trim], decimal printing,
    [Buffer.from(s, 'hex')] and [Buffer.from(s, 'utf8')].  Strings are lists
    of UTF-16 code units, byte arrays lists of numbers below 256. *)

From S2P Require Import Prelude.

(** ** trim *)

Definition is_js_space (c : Z) : bool :=
  (9 <=? c) && (c <=? 13) || (c =? 32) || (c =? 160) || (c =? 5760)
  || (8192 <=? c) && (c <=? 8202) || (c =? 8232) || (c =? 8233) || (c =? 8239)
  || (c =? 8287) || (c =? 12288) || (c =? 65279).

Fixpoint drop_spaces (s : jsstring) : jsstring :=
  match s with
  | [] => []
  | c :: t => if is_js_space c then drop_spaces t else s
  end.

(** [s.trim()] *)
Definition trim (s : jsstring) : jsstring := rev (drop_spaces (rev (drop_spaces s))).

(** ** Decimal printing *)

(** [String(n)] for a non-negative integer, most significant digit first. *)
Fixpoint decimal_digits (fuel : nat) (n : Z) (acc : jsstring) : jsstring :=
  match fuel with
  | O => acc
  | S fuel =>
      let acc := (48 + n mod 10) :: acc in
      if n <? 10 then acc else decimal_digits fuel (n / 10) acc
  end.

Definition decimal_string (n : Z) : jsstring :=
  decimal_digits (S (Z.to_nat (Z.log2 n))) n [].

(** [String(n)] of any number.  A double beyond the safe integers prints the
    shortest digits that read back, which is left to [print_double]. *)
Definition number_string (print_double : number -> jsstring) (n : number) : jsstring :=
  match n with
  | NInt z =>
      if safeZ z then (if z <? 0 then js "-" else []) ++ decimal_string (Z.abs z)
      else print_double n
  | NFrac _ _ => print_double n
  | NInf negative => (if negative then js "-" else []) ++ js "Infinity"
  | NNaN => js "NaN"
  end.

(** ** Hexadecimal *)

Definition hex_value (c : Z) : option Z :=
  if (48 <=? c) && (c <=? 57) then Some (c - 48)
  else if (97 <=? c) && (c <=? 102) then Some (c - 87)
  else if (65 <=? c) && (c <=? 70) then Some (c - 55)
  else None.

(** [Buffer.from(s, 'hex')]: whole pairs, up to the first that is not
    hexadecimal. *)
Fixpoint hex_decode (s : jsstring) : list Z :=
  match s with
  | a :: b :: t =>
      match hex_value a, hex_value b with
      | Some x, Some y => (16 * x + y) :: hex_decode t
      | _, _ => []
      end
  | _ => []
  end.

(** ** UTF-8 *)

Definition high_surrogate (c : Z) : bool := (55296 <=? c) && (c <=? 56319).
Definition low_surrogate (c : Z) : bool := (56320 <=? c) && (c <=? 57343).

(** The code points of a string; an unpaired surrogate reads as U+FFFD. *)
Fixpoint code_points (s : jsstring) : list Z :=
  match s with
  | [] => []
  | c :: t =>
      if high_surrogate c then
        match t with
        | d :: t' =>
            if low_surrogate d
            then (65536 + 1024 * (c - 55296) + (d - 56320)) :: code_points t'
            else 65533 :: code_points t
        | [] => [65533]
        end
      else if low_surrogate c then 65533 :: code_points t
      else c :: code_points t
  end.

Definition utf8_point (p : Z) : list Z :=
  if p <? 128 then [p]
  else if p <? 2048 then [192 + p / 64; 128 + p mod 64]
  else if p <? 65536 then [224 + p / 4096; 128 + (p / 64) mod 64; 128 + p mod 64]
  else [240 + p / 262144; 128 + (p / 4096) mod 64; 128 + (p / 64) mod 64; 128 + p mod 64].

(** [Buffer.from(s, 'utf8')] *)
Definition utf8_encode (s : jsstring) : list Z := flat_map utf8_point (code_points s).

(** The code units of a code point. *)
Definition utf16_point (p : Z) : jsstring :=
  if p <? 65536 then [p]
  else [55296 + (p - 65536) / 1024; 56320 + (p - 65536) mod 1024].

Definition in_range (lo hi b : Z) : bool := (lo <=? b) && (b <=? hi).

(** Code points of well-formed UTF-8; [None] at the first byte sequence that
    is not (no overlong forms, surrogates or values above U+10FFFF). *)
Fixpoint utf8_points (bs : list Z) : option (list Z) :=
  match bs with
  | [] => Some []
  | a :: t1 =>
      if in_range 0 127 a then cons a <$> utf8_points t1
      else match t1 with
      | [] => None
      | b :: t2 =>
          if in_range 194 223 a then
            if in_range 128 191 b then cons (64 * (a - 192) + (b - 128)) <$> utf8_points t2
            else None
          else match t2 with
          | [] => None
          | c :: t3 =>
              if in_range 224 239 a then
                if in_range (if a =? 224 then 160 else 128) (if a =? 237 then 159 else 191) b
                   && in_range 128 191 c
                then cons (4096 * (a - 224) + 64 * (b - 128) + (c - 128)) <$> utf8_points t3
                else None
              else match t3 with
              | [] => None
              | d :: t4 =>
                  if in_range 240 244 a
                     && in_range (if a =? 240 then 144 else 128) (if a =? 244 then 143 else 191) b
                     && in_range 128 191 c && in_range 128 191 d
                  then cons (262144 * (a - 240) + 4096 * (b - 128) + 64 * (c - 128) + (d - 128))
                    <$> utf8_points t4
                  else None
              end
          end
      end
  end.

(** [new TextDecoder('utf-8', { fatal: true }).decode(bytes)]: a leading byte
    order mark is dropped. *)
Definition text_decode (bs : list Z) : option jsstring :=
  let body := match bs with 239 :: 187 :: 191 :: t => t | _ => bs end in
  flat_map utf16_point <$> utf8_points body.

(** ** Case *)

(** [s.toLowerCase()] as far as a comparison with ASCII text can tell: the
    letters of ASCII, and the two other characters whose lower case has
    ASCII in it (U+212A and U+0130).  Any other character stays outside
    ASCII. *)
Definition lower_unit (c : Z) : jsstring :=
  if in_range 65 90 c then [c + 32]
  else if c =? 8490 then [107]
  else if c =? 304 then [105; 775]
  else [c].

Definition toLowerCase (s : jsstring) : jsstring := flat_map lower_unit s.

(** ** Decimal parsing *)

Definition is_digit (c : Z) : bool := in_range 48 57 c.

(** The regular expression for canonical decimals: zero, or digits that do
    not start with zero. *)
Definition canonical_decimal (s : jsstring) : bool :=
  match s with
  | [] => false
  | c :: t => (c =? 48) && (length t =? 0)%nat || in_range 49 57 c && forallb is_digit t
  end.

(** [BigInt(s)] on such a string. *)
Definition decimal_value (s : jsstring) : Z := foldl (fun n c => 10 * n + (c - 48)) 0 s.

(** ** Order

    The order of [Array.prototype.sort] without a comparator: by code units. *)
Fixpoint js_leb (s t : jsstring) : bool :=
  match s, t with
  | [], _ => true
  | _ :: _, [] => false
  | a :: s, b :: t => (a <? b) || (a =? b) && js_leb s t
  end.

(** ** Lemmas *)

Lemma drop_spaces_suffix s : exists p, s = p ++ drop_spaces s.
Proof.
  induction s as [|c t [p E]]; [by exists []|]. cbn. destruct (is_js_space c).
  - exists (c :: p). cbn. by rewrite <- E.
  - by exists [].
Qed.

Lemma drop_spaces_head s c : head (drop_spaces s) = Some c -> is_js_space c = false.
Proof.
  induction s as [|d t IH]; [done|]. cbn. destruct (is_js_space d) eqn:E; [done|].
  cbn. congruence.
Qed.

(** *** Decimals: what is printed parses back *)

Lemma decimal_value_app s t :
  decimal_value (s ++ t) = foldl (fun n c => 10 * n + (c - 48)) (decimal_value s) t.
Proof. unfold decimal_value. by rewrite foldl_app. Qed.

Lemma decimal_digits_acc fuel : forall n acc,
  decimal_digits fuel n acc = decimal_digits fuel n [] ++ acc.
Proof.
  induction fuel as [|fuel IH]; intros n acc; [done|]. cbn [decimal_digits].
  destruct (n <? 10); [done|]. rewrite IH, (IH _ [_]), <- app_assoc. done.
Qed.

Lemma decimal_digits_step fuel n :
  10 <= n -> decimal_digits (S fuel) n [] = decimal_digits fuel (n / 10) [] ++ [48 + n mod 10].
Proof.
  intros Hn. cbn [decimal_digits]. destruct (Z.ltb_spec n 10); [lia|].
  by rewrite decimal_digits_acc.
Qed.

Lemma decimal_digits_spec fuel : forall n,
  0 <= n < 2 ^ Z.of_nat fuel -> (0 < fuel)%nat ->
  decimal_value (decimal_digits fuel n []) = n /\
  canonical_decimal (decimal_digits fuel n []) = true.
Proof.
  induction fuel as [|fuel IH]; intros n Hn Hf; [lia|].
  destruct (Z.lt_ge_cases n 10) as [Hlt|Hge].
  - cbn [decimal_digits]. destruct (Z.ltb_spec n 10); [|lia].
    rewrite Z.mod_small by lia. unfold decimal_value, canonical_decimal, in_range. cbn.
    split; [lia|]. destruct (Z.eqb_spec (48 + n) 48); [done|].
    rewrite (proj2 (Z.leb_le _ _)), (proj2 (Z.leb_le _ _)) by lia. done.
  - rewrite decimal_digits_step by done.
    assert (Hpow : 2 ^ Z.of_nat (S fuel) = 2 * 2 ^ Z.of_nat fuel)
      by (rewrite Nat2Z.inj_succ, Z.pow_succ_r by lia; lia).
    assert (Hdiv : 1 <= n / 10 /\ n / 10 < 2 ^ Z.of_nat fuel).
    { split; [apply Z.div_le_lower_bound; lia|]. apply Z.div_lt_upper_bound; lia. }
    assert (Hfuel : (0 < fuel)%nat).
    { destruct fuel; [|lia]. cbn in Hdiv. lia. }
    destruct (IH (n / 10)) as [Hv Hc]; [lia|done|].
    pose proof (Z.mod_pos_bound n 10 ltac:(lia)) as Hm.
    split.
    + rewrite decimal_value_app, Hv. cbn. pose proof (Z.div_mod n 10). lia.
    + set (s := decimal_digits fuel (n / 10) []) in *. unfold canonical_decimal in *.
      destruct s as [|c t]; [done|]. cbn [app]. apply orb_true_iff. right.
      apply orb_true_iff in Hc as [Hc|Hc].
      * apply andb_true_iff in Hc as [Hc Ht]. apply Z.eqb_eq in Hc as ->.
        apply Nat.eqb_eq, nil_length_inv in Ht as ->. cbn in Hv. lia.
      * apply andb_true_iff in Hc as [Hc Ht]. rewrite Hc, forallb_app, Ht. cbn.
        unfold is_digit, in_range. rewrite !(proj2 (Z.leb_le _ _)) by lia. done.
Qed.

Lemma decimal_string_spec n :
  0 <= n -> decimal_value (decimal_string n) = n /\ canonical_decimal (decimal_string n) = true.
Proof.
  intros Hn. apply decimal_digits_spec; [|lia]. split; [done|].
  rewrite Nat2Z.inj_succ, Z2Nat.id by apply Z.log2_nonneg.
  destruct (Z.eq_dec n 0) as [->|Hne]; [reflexivity|]. apply Z.log2_spec. lia.
Qed.
