(* ===== verification/SafeInt.v ===== *)
(** * Safe integers at the client boundary ([packages/client/src/safe_int.ts])

    Every offset, length, serial and count that crosses the client API is
    checked to be a safe integer; these are the four guards. *)

From S2P Require Import Prelude.

Definition SAFE_INTEGER_INPUT_MESSAGE : string :=
  "must be a safe integer in the OmegaEdit TypeScript client".
Definition SAFE_INTEGER_OUTPUT_MESSAGE : string :=
  "exceeds the OmegaEdit TypeScript client's safe integer range".

(** The value as an integer, once the guard has accepted it. *)
Definition safe_value (msg : string) (value : number) : result Z :=
  match value with
  | NInt z => if safeZ z then Ok z else Throw (plain_error msg)
  | _ => Throw (plain_error msg)
  end.

Definition requireSafeIntegerInput (value : number) : result Z :=
  safe_value SAFE_INTEGER_INPUT_MESSAGE value.

Definition requireSafeIntegerOutput (value : number) : result Z :=
  safe_value SAFE_INTEGER_OUTPUT_MESSAGE value.

Definition requireOptionalSafeIntegerOutput (value : option number) : result (option Z) :=
  match value with
  | None => Ok None
  | Some v => z ← requireSafeIntegerOutput v; Ok (Some z)
  end.

(** The loop stops at the first element that is not a safe integer; the
    array that comes back is the argument itself. *)
Definition requireSafeIntegerArrayOutput (values : list number) : result (list Z) :=
  result_map requireSafeIntegerOutput values.

#[global] Arguments requireSafeIntegerInput : simpl never.
#[global] Arguments requireSafeIntegerOutput : simpl never.

Lemma safe_value_ok msg v z :
  safe_value msg v = Ok z <-> v = NInt z /\ safeZ z = true.
Proof.
  unfold safe_value. split.
  - destruct v as [z'| | |]; try discriminate.
    destruct (safeZ z') eqn:E; intros H; [|discriminate]. by injection H as ->.
  - intros [-> ->]. done.
Qed.

Lemma safe_value_throws msg v :
  (forall z, v = NInt z -> safeZ z = false) ->
  safe_value msg v = Throw (plain_error msg).
Proof. intros H. destruct v as [z| | |]; cbn; try done. by rewrite (H z). Qed.

Lemma requireSafeIntegerOutput_int z :
  safeZ z = true -> requireSafeIntegerOutput (NInt z) = Ok z.
Proof. intros H. by apply safe_value_ok. Qed.

Lemma requireSafeIntegerInput_int z :
  safeZ z = true -> requireSafeIntegerInput (NInt z) = Ok z.
Proof. intros H. by apply safe_value_ok. Qed.

Lemma requireSafeIntegerOutput_inv v z :
  requireSafeIntegerOutput v = Ok z -> v = NInt z /\ safeZ z = true.
Proof. apply safe_value_ok. Qed.

Lemma requireSafeIntegerInput_inv v z :
  requireSafeIntegerInput v = Ok z -> v = NInt z /\ safeZ z = true.
Proof. apply safe_value_ok. Qed.

#[export] Hint Resolve requireSafeIntegerInput_int requireSafeIntegerOutput_int : omega.

(** The array guard succeeds exactly on arrays of safe integers, and then
    returns the array it was given. *)
Lemma requireSafeIntegerArrayOutput_spec values zs :
  requireSafeIntegerArrayOutput values = Ok zs <->
  values = map NInt zs /\ Forall (fun z => safeZ z = true) zs.
Proof.
  unfold requireSafeIntegerArrayOutput. revert zs.
  induction values as [|v vs IH]; intros zs; cbn.
  - split; [intros [= <-]; done|]. intros [H _]. by destruct zs.
  - split.
    + intros H. ok_inv. subst.
      destruct (requireSafeIntegerOutput_inv _ _ Hr) as [-> ?].
      destruct (proj1 (IH a0) eq_refl) as [-> ?]. split; [done|]. by constructor.
    + intros [H F]. destruct zs as [|z zs]; [done|]. injection H as -> ->.
      apply Forall_cons in F as [Hz F]. rewrite requireSafeIntegerOutput_int by done.
      cbn. rewrite (proj2 (IH zs)) by done. done.
Qed.
