(* ===== verification/EditDiff.v ===== *)
(** * Edit planning ([packages/client/src/change.ts])

    The two routines that turn "this segment became that segment" into
    primitive edits: [editOptimizer] (one replacement, common prefix and
    suffix trimmed) and [editOperations] (a run-by-run list of overwrites
    with one final insert or delete).  The meaning of a primitive edit on
    the bytes of a session is [apply_insert], [apply_delete] and
    [apply_overwrite]; the theorems say that carrying out the plan on the
    original bytes yields the edited bytes, wherever the segment lies. *)

From S2P Require Import Prelude SafeInt.

Abbreviation bytes := (list Z).

(** ** Primitive edits on a byte sequence *)

Definition apply_insert (off : Z) (data : bytes) (buf : bytes) : bytes :=
  take (Z.to_nat off) buf ++ data ++ drop (Z.to_nat off) buf.

Definition apply_delete (off len : Z) (buf : bytes) : bytes :=
  take (Z.to_nat off) buf ++ drop (Z.to_nat off + Z.to_nat len) buf.

Definition apply_overwrite (off : Z) (data : bytes) (buf : bytes) : bytes :=
  take (Z.to_nat off) buf ++ data ++ drop (Z.to_nat off + length data) buf.

(** ** Uint8Array helpers *)

(** [new Uint8Array(n1 + n2)], then [result.set(arr1)] and
    [result.set(arr2, arr1.length)]. *)
Definition typed_set (target data : bytes) (at_ : nat) : bytes :=
  take at_ target ++ data ++ drop (at_ + length data) target.

Definition concatUint8Arrays (arr1 arr2 : bytes) : bytes :=
  let result := replicate (length arr1 + length arr2) 0 in
  let result := typed_set result arr1 0 in
  typed_set result arr2 (length arr1).

(** [a[i] === b[j]] for indices known to be in range. *)
Definition same_byte (a : bytes) (i : nat) (b : bytes) (j : nat) : bool :=
  bool_decide (a !! i = b !! j).

(** [subarray(i, j)] and [slice(i, j)] for [i <= j] within range. *)
Definition subarray (a : bytes) (i j : nat) : bytes := drop i (take j a).

Fixpoint removeCommonSuffix_loop (fuel : nat) (arr1 arr2 : bytes) (i j : Z) : Z * Z :=
  match fuel with
  | O => (i, j)
  | S fuel =>
      if (0 <=? i) && (0 <=? j) && same_byte arr1 (Z.to_nat i) arr2 (Z.to_nat j)
      then removeCommonSuffix_loop fuel arr1 arr2 (i - 1) (j - 1)
      else (i, j)
  end.

Definition removeCommonSuffix (arr1 arr2 : bytes) : bytes * bytes :=
  let '(i, j) :=
    removeCommonSuffix_loop (S (length arr1)) arr1 arr2
      (Z.of_nat (length arr1) - 1) (Z.of_nat (length arr2) - 1) in
  (subarray arr1 0 (Z.to_nat (i + 1)), subarray arr2 0 (Z.to_nat (j + 1))).

(** ** editOptimizer *)

Fixpoint first_difference_loop (fuel : nat) (original edited : bytes) (i : nat) : nat :=
  match fuel with
  | O => i
  | S fuel =>
      if (i <? length original)%nat && (i <? length edited)%nat
         && same_byte original i edited i
      then first_difference_loop fuel original edited (S i)
      else i
  end.

Fixpoint last_difference_loop (fuel : nat) (original edited : bytes)
    (first last : nat) : nat :=
  match fuel with
  | O => last
  | S fuel =>
      if (last <? length original - first)%nat && (last <? length edited - first)%nat
         && same_byte original (length original - 1 - last) edited (length edited - 1 - last)
      then last_difference_loop fuel original edited first (S last)
      else last
  end.

Record Replacement := mkReplacement {
  r_offset : Z;
  remove_bytes_count : Z;
  replacement : bytes
}.

Definition editOptimizer (original_segment edited_segment : bytes) (offset : number)
  : result (option (list Replacement)) :=
  safeOffset ← requireSafeIntegerInput offset;
  let first_difference :=
    first_difference_loop (length original_segment) original_segment edited_segment 0 in
  if (first_difference =? length original_segment)%nat
     && (first_difference =? length edited_segment)%nat
  then Ok None
  else
    let last_difference :=
      last_difference_loop (length original_segment) original_segment edited_segment
        first_difference 0 in
    off ← requireSafeIntegerOutput (NInt (safeOffset + Z.of_nat first_difference));
    Ok (Some [mkReplacement off
      (Z.of_nat (length original_segment - first_difference - last_difference))
      (subarray edited_segment first_difference
         (length edited_segment - last_difference))]).

(** ** editOperations *)

Inductive EditOperationType := Delete | Insert | Overwrite.

Record EditOperation := mkOp {
  op_type : EditOperationType;
  op_start : Z;
  op_length : option Z;
  op_data : option bytes
}.

(** The closure [flushOverwriteRun]: it reads and clears
    [overwriteRunStart] and pushes on [operations]. *)
Definition flushOverwriteRun (editedSegment : bytes) (safeOffset : Z)
    (endExclusive : nat) (st : option nat * list EditOperation)
  : result (option nat * list EditOperation) :=
  match st with
  | (None, operations) => Ok (None, operations)
  | (Some run, operations) =>
      start ← requireSafeIntegerOutput (NInt (safeOffset + Z.of_nat run));
      Ok (None, operations ++
        [mkOp Overwrite start None (Some (subarray editedSegment run endExclusive))])
  end.

Fixpoint editOperations_loop (fuel : nat) (originalSegment editedSegment : bytes)
    (safeOffset : Z) (i : nat) (st : option nat * list EditOperation)
  : result (option nat * list EditOperation) :=
  let len1 := length originalSegment in
  let len2 := length editedSegment in
  match fuel with
  | O => Ok st
  | S fuel =>
      if negb (i <? Nat.max len1 len2)%nat then Ok st
      else if (i <? len1)%nat && (i <? len2)%nat then
        if negb (same_byte originalSegment i editedSegment i) then
          editOperations_loop fuel originalSegment editedSegment safeOffset (S i)
            (match st with (None, ops) => (Some i, ops) | _ => st end)
        else
          st ← flushOverwriteRun editedSegment safeOffset i st;
          editOperations_loop fuel originalSegment editedSegment safeOffset (S i) st
      else if (i <? len1)%nat then
        st ← flushOverwriteRun editedSegment safeOffset i st;
        start ← requireSafeIntegerOutput (NInt (safeOffset + Z.of_nat i));
        Ok (st.1, st.2 ++ [mkOp Delete start (Some (Z.of_nat (len1 - i))) None])
      else
        st ← flushOverwriteRun editedSegment safeOffset i st;
        start ← requireSafeIntegerOutput (NInt (safeOffset + Z.of_nat i));
        Ok (st.1, st.2 ++ [mkOp Insert start None (Some (drop i editedSegment))])
  end.

Definition editOperations (originalSegment editedSegment : bytes) (offset : number)
  : result (list EditOperation) :=
  safeOffset ← requireSafeIntegerInput offset;
  if (length originalSegment =? 0)%nat then
    if (length editedSegment =? 0)%nat then Ok []
    else
      start ← requireSafeIntegerOutput (NInt safeOffset);
      Ok [mkOp Insert start None (Some editedSegment)]
  else if (length editedSegment =? 0)%nat then
    start ← requireSafeIntegerOutput (NInt safeOffset);
    Ok [mkOp Delete start (Some (Z.of_nat (length originalSegment))) None]
  else
    let '(originalSegment, editedSegment) :=
      removeCommonSuffix originalSegment editedSegment in
    let maxLen := Nat.max (length originalSegment) (length editedSegment) in
    st ← editOperations_loop maxLen originalSegment editedSegment safeOffset 0 (None, []);
    st ← flushOverwriteRun editedSegment safeOffset maxLen st;
    Ok st.2.

(** What one planned operation does to the bytes of the session, and when
    the session accepts it. *)
Definition apply_op (buf : bytes) (op : EditOperation) : bytes :=
  match op_type op with
  | Delete => apply_delete (op_start op) (default 0 (op_length op)) buf
  | Insert => apply_insert (op_start op) (default [] (op_data op)) buf
  | Overwrite => apply_overwrite (op_start op) (default [] (op_data op)) buf
  end.

Definition apply_ops (ops : list EditOperation) (buf : bytes) : bytes :=
  foldl apply_op buf ops.

Definition valid_op (buf : bytes) (op : EditOperation) : Prop :=
  let size := Z.of_nat (length buf) in
  0 <= op_start op <= MAX_SAFE_INTEGER /\
  match op_type op with
  | Delete => exists n, op_length op = Some n /\ 0 < n <= MAX_SAFE_INTEGER /\
      op_start op + n <= size
  | Insert => exists d, op_data op = Some d /\ d <> [] /\ op_start op <= size
  | Overwrite => exists d, op_data op = Some d /\ d <> [] /\
      op_start op + Z.of_nat (length d) <= size
  end.

Fixpoint valid_ops (buf : bytes) (ops : list EditOperation) : Prop :=
  match ops with
  | [] => True
  | op :: ops => valid_op buf op /\ valid_ops (apply_op buf op) ops
  end.

Definition apply_replacement (buf : bytes) (r : Replacement) : bytes :=
  apply_insert (r_offset r) (replacement r)
    (apply_delete (r_offset r) (remove_bytes_count r) buf).

(** ** Splicing lemmas *)

Section Splice.
Context (pre post : bytes).

Lemma apply_insert_at mid1 mid2 data off :
  off = Z.of_nat (length pre + length mid1) ->
  apply_insert off data (pre ++ (mid1 ++ mid2) ++ post)
  = pre ++ (mid1 ++ data ++ mid2) ++ post.
Proof.
  intros ->. unfold apply_insert. rewrite Nat2Z.id, <- length_app.
  replace (pre ++ (mid1 ++ mid2) ++ post) with ((pre ++ mid1) ++ mid2 ++ post)
    by by rewrite <- !app_assoc.
  rewrite take_app_length, drop_app_length. by rewrite <- !app_assoc.
Qed.

Lemma apply_delete_at mid1 gone mid2 off len :
  off = Z.of_nat (length pre + length mid1) -> len = Z.of_nat (length gone) ->
  apply_delete off len (pre ++ (mid1 ++ gone ++ mid2) ++ post)
  = pre ++ (mid1 ++ mid2) ++ post.
Proof.
  intros -> ->. unfold apply_delete. rewrite !Nat2Z.id, <- length_app.
  replace (pre ++ (mid1 ++ gone ++ mid2) ++ post)
    with ((pre ++ mid1) ++ gone ++ mid2 ++ post) by by rewrite <- !app_assoc.
  rewrite take_app_length, <- drop_drop, drop_app_length, drop_app_length.
  by rewrite <- !app_assoc.
Qed.

Lemma apply_overwrite_at mid1 old data mid2 off :
  off = Z.of_nat (length pre + length mid1) -> length old = length data ->
  apply_overwrite off data (pre ++ (mid1 ++ old ++ mid2) ++ post)
  = pre ++ (mid1 ++ data ++ mid2) ++ post.
Proof.
  intros -> Hl. unfold apply_overwrite. rewrite Nat2Z.id, <- length_app, <- Hl.
  replace (pre ++ (mid1 ++ old ++ mid2) ++ post)
    with ((pre ++ mid1) ++ old ++ mid2 ++ post) by by rewrite <- !app_assoc.
  rewrite take_app_length, <- drop_drop, drop_app_length, drop_app_length.
  by rewrite <- !app_assoc.
Qed.
End Splice.

Lemma subarray_0 (a : bytes) n : subarray a 0 n = take n a.
Proof. done. Qed.

Lemma subarray_split (a : bytes) i j :
  (i <= j)%nat -> take j a = take i a ++ subarray a i j.
Proof.
  intros H. unfold subarray.
  rewrite <- (take_drop i (take j a)) at 1. by rewrite take_take, Nat.min_l.
Qed.

Lemma subarray_length (a : bytes) i j :
  (i <= j <= length a)%nat -> length (subarray a i j) = (j - i)%nat.
Proof. intros H. unfold subarray. rewrite length_drop, length_take. lia. Qed.

Lemma same_byte_spec a i b j : same_byte a i b j = true <-> a !! i = b !! j.
Proof. apply bool_decide_eq_true. Qed.

(** ** removeCommonSuffix *)

Lemma removeCommonSuffix_loop_spec fuel : forall p1 p2 s i j,
  (length p1 < fuel)%nat ->
  i = Z.of_nat (length p1) - 1 -> j = Z.of_nat (length p2) - 1 ->
  exists q1 q2 t,
    p1 ++ s = q1 ++ t /\ p2 ++ s = q2 ++ t /\
    removeCommonSuffix_loop fuel (p1 ++ s) (p2 ++ s) i j
      = (Z.of_nat (length q1) - 1, Z.of_nat (length q2) - 1) /\
    (q1 = [] \/ q2 = [] \/ last q1 <> last q2).
Proof.
  induction fuel as [|fuel IH]; intros p1 p2 s i j Hf Hi Hj; [lia|].
  destruct p1 as [|x p1 _] using rev_ind.
  { exists [], p2, s. cbn [app]. subst i j. repeat split; auto. }
  destruct p2 as [|y p2 _] using rev_ind.
  { exists (p1 ++ [x]), [], s. cbn [app removeCommonSuffix_loop]. subst i j.
    rewrite andb_false_r. repeat split; auto. }
  rewrite length_app in *. cbn [length] in *.
  assert (Hx : ((p1 ++ [x]) ++ s) !! Z.to_nat i = Some x).
  { subst i. replace (Z.to_nat _) with (length p1) by lia.
    rewrite <- app_assoc. by apply list_lookup_middle. }
  assert (Hy : ((p2 ++ [y]) ++ s) !! Z.to_nat j = Some y).
  { subst j. replace (Z.to_nat _) with (length p2) by lia.
    rewrite <- app_assoc. by apply list_lookup_middle. }
  cbn [removeCommonSuffix_loop].
  destruct (Z.leb_spec 0 i); [|lia]. destruct (Z.leb_spec 0 j); [|lia]. cbn [andb].
  unfold same_byte. rewrite Hx, Hy. case_bool_decide as E.
  - injection E as <-. rewrite <- !app_assoc.
    apply (IH p1 p2 ([x] ++ s)); lia.
  - exists (p1 ++ [x]), (p2 ++ [y]), s.
    rewrite !length_app. cbn [length]. rewrite Hi, Hj.
    repeat split; auto. right; right. rewrite !last_snoc. congruence.
Qed.

(** The two results are the arguments with a longest common suffix cut off. *)
Lemma removeCommonSuffix_spec a1 a2 :
  exists q1 q2 t, removeCommonSuffix a1 a2 = (q1, q2) /\
    a1 = q1 ++ t /\ a2 = q2 ++ t /\ (q1 = [] \/ q2 = [] \/ last q1 <> last q2).
Proof.
  unfold removeCommonSuffix.
  destruct (removeCommonSuffix_loop_spec (S (length a1)) a1 a2 []
    (Z.of_nat (length a1) - 1) (Z.of_nat (length a2) - 1)) as (q1 & q2 & t & H1 & H2 & H & Hm);
    [lia|done|done|].
  rewrite !app_nil_r in *. rewrite H.
  exists q1, q2, t. rewrite !subarray_0, !Z.sub_add, !Nat2Z.id.
  rewrite H1, H2 at 1. by rewrite !take_app_length.
Qed.

(** ** editOperations

    [patched s] is the segment after the first [s] bytes were edited: the
    loop keeps the session at [patched s] where [s] is the start of the
    pending overwrite run, or the loop index when there is none. *)

Lemma apply_ops_snoc ops op buf : apply_ops (ops ++ [op]) buf = apply_op (apply_ops ops buf) op.
Proof. unfold apply_ops. by rewrite foldl_snoc. Qed.

Lemma valid_ops_snoc ops op : forall buf,
  valid_ops buf (ops ++ [op]) <-> valid_ops buf ops /\ valid_op (apply_ops ops buf) op.
Proof.
  induction ops as [|o ops IH]; intros buf; cbn; [tauto|].
  rewrite IH. unfold apply_ops. cbn. tauto.
Qed.

(** A plan [ops] takes [buf] to [buf'] through operations the session accepts. *)
Definition carries (ops : list EditOperation) (buf buf' : bytes) : Prop :=
  valid_ops buf ops /\ apply_ops ops buf = buf'.

Lemma carries_nil buf : carries [] buf buf.
Proof. done. Qed.

Lemma carries_snoc ops op buf buf1 buf2 :
  carries ops buf buf1 -> valid_op buf1 op -> apply_op buf1 op = buf2 ->
  carries (ops ++ [op]) buf buf2.
Proof.
  intros [Hv <-] Ho <-. split; [by apply valid_ops_snoc|apply apply_ops_snoc].
Qed.

Section Operations.
Context (original edited pre post : bytes).
Context (Hsafe : Z.of_nat (length pre + Nat.max (length original) (length edited))
  <= MAX_SAFE_INTEGER).
Let off : Z := Z.of_nat (length pre).

Definition patched (s : nat) : bytes := take s edited ++ drop s original.

Lemma patched_full : length original = length edited -> patched (length edited) = edited.
Proof. intros E. unfold patched. by rewrite take_ge, <- E, drop_all, app_nil_r by lia. Qed.

Lemma patched_length s :
  (s <= Nat.min (length original) (length edited))%nat ->
  length (patched s) = length original.
Proof. intros H. unfold patched. rewrite length_app, length_take, length_drop. lia. Qed.

Definition at_stage (ops : list EditOperation) (s : nat) : Prop :=
  carries ops (pre ++ original ++ post) (pre ++ patched s ++ post).

Definition run_before (run : option nat) (i : nat) : Prop :=
  match run with Some s => (s < i)%nat | None => True end /\
  (i <= Nat.min (length original) (length edited))%nat.

Lemma stage_same ops i :
  at_stage ops i -> (i < length original)%nat -> (i < length edited)%nat ->
  same_byte original i edited i = true -> at_stage ops (S i).
Proof.
  unfold at_stage. intros Hst Ho He Hb. apply same_byte_spec in Hb.
  assert (E : patched i = patched (S i)); [|by rewrite <- E].
  destruct (lookup_lt_is_Some_2 edited i He) as [x Hx]. rewrite Hx in Hb.
  unfold patched. rewrite (take_S_r _ _ _ Hx), <- app_assoc, (drop_S _ _ _ Hb). done.
Qed.

Lemma patched_split s i :
  (s <= i <= Nat.min (length original) (length edited))%nat ->
  patched s = take s edited ++ subarray original s i ++ drop i original /\
  patched i = take s edited ++ subarray edited s i ++ drop i original.
Proof.
  intros Hi. split.
  - unfold patched. f_equal. rewrite <- (take_drop (i - s) (drop s original)) at 1.
    rewrite drop_drop. replace (s + (i - s))%nat with i by lia. f_equal.
    unfold subarray. by rewrite <- skipn_firstn_comm.
  - unfold patched. rewrite (subarray_split edited s i) by lia. by rewrite <- app_assoc.
Qed.

Lemma overwrite_stage ops s i :
  at_stage ops s -> (s < i)%nat ->
  (i <= Nat.min (length original) (length edited))%nat ->
  at_stage (ops ++ [mkOp Overwrite (off + Z.of_nat s) None
                      (Some (subarray edited s i))]) i.
Proof.
  intros Hst Hs Hi. assert (Hlen := subarray_length edited s i ltac:(lia)).
  destruct (patched_split s i ltac:(lia)) as [Es Ei].
  eapply carries_snoc; [exact Hst| |].
  - unfold valid_op, off; cbn. split; [lia|]. eexists; split; [done|].
    rewrite !length_app, patched_length by lia.
    split; [intros E; rewrite E in Hlen; cbn in Hlen; lia|lia].
  - unfold apply_op; cbn. rewrite Es, Ei. apply apply_overwrite_at.
    + rewrite length_take. unfold off. lia.
    + rewrite !subarray_length; lia.
Qed.

Lemma flush_stage run ops i run' ops' :
  at_stage ops (default i run) -> run_before run i ->
  flushOverwriteRun edited off i (run, ops) = Ok (run', ops') ->
  run' = None /\ at_stage ops' i.
Proof.
  intros Hst [Hs Hi] Hfl. destruct run as [s|]; cbn in *.
  2:{ injection Hfl as <- <-. done. }
  ok_inv. apply requireSafeIntegerOutput_inv in Hr as [[= <-] _].
  injection Hfl as <- <-. split; [done|]. by apply overwrite_stage.
Qed.

Lemma finish_stage i run ops run' ops' :
  at_stage ops (default i run) -> run_before run i ->
  (Nat.max (length original) (length edited) <= i)%nat ->
  flushOverwriteRun edited off (Nat.max (length original) (length edited)) (run, ops)
    = Ok (run', ops') ->
  carries ops' (pre ++ original ++ post) (pre ++ edited ++ post).
Proof.
  intros Hst [Hs Hi] Hm Hfl. assert (length original = length edited) as E by lia.
  replace (Nat.max _ _) with i in Hfl by lia.
  destruct (flush_stage _ _ _ _ _ Hst (conj Hs Hi) Hfl) as [_ Hc].
  replace i with (length edited) in Hc by lia.
  unfold at_stage in Hc. by rewrite patched_full in Hc.
Qed.

(** The operation that ends the plan when the segments differ in length. *)
Lemma tail_delete ops :
  at_stage ops (length edited) -> (length edited < length original)%nat ->
  carries (ops ++ [mkOp Delete (off + Z.of_nat (length edited))
    (Some (Z.of_nat (length original - length edited))) None])
    (pre ++ original ++ post) (pre ++ edited ++ post).
Proof.
  intros Hs Hlt. eapply carries_snoc; [exact Hs| |].
  - unfold valid_op, off; cbn. split; [lia|]. eexists; split; [done|].
    rewrite !length_app, patched_length by lia. lia.
  - unfold apply_op, patched; cbn. rewrite take_ge by lia.
    rewrite <- (app_nil_r (drop _ original)).
    rewrite apply_delete_at; [by rewrite app_nil_r|unfold off; lia|by rewrite length_drop].
Qed.

Lemma tail_insert ops :
  at_stage ops (length original) -> (length original < length edited)%nat ->
  carries (ops ++ [mkOp Insert (off + Z.of_nat (length original)) None
    (Some (drop (length original) edited))])
    (pre ++ original ++ post) (pre ++ edited ++ post).
Proof.
  intros Hs Hlt. eapply carries_snoc; [exact Hs| |].
  - unfold valid_op, off; cbn. split; [lia|]. eexists; split; [done|].
    rewrite !length_app, patched_length by lia. split; [|lia].
    intros E. apply (f_equal length) in E. rewrite length_drop in E. cbn in E. lia.
  - unfold apply_op, patched; cbn.
    rewrite apply_insert_at by (rewrite length_take; unfold off; lia).
    by rewrite drop_all, app_nil_r, take_drop.
Qed.

Lemma loop_stage fuel : forall i run ops st run' ops',
  at_stage ops (default i run) -> run_before run i ->
  (Nat.max (length original) (length edited) <= i + fuel)%nat ->
  editOperations_loop fuel original edited off i (run, ops) = Ok st ->
  flushOverwriteRun edited off (Nat.max (length original) (length edited)) st
    = Ok (run', ops') ->
  carries ops' (pre ++ original ++ post) (pre ++ edited ++ post).
Proof.
  induction fuel as [|fuel IH]; intros i run ops st run' ops' Hst Hi Hm Hl Hfl.
  { cbn in Hl. injection Hl as <-. eapply (finish_stage i); eauto. lia. }
  cbn [editOperations_loop] in Hl.
  destruct (Nat.ltb_spec i (Nat.max (length original) (length edited))); cbn [negb] in Hl.
  2:{ injection Hl as <-. eapply (finish_stage i); eauto. }
  destruct (Nat.ltb_spec i (length original)) as [H1|H1];
  destruct (Nat.ltb_spec i (length edited)) as [H2|H2]; cbn [andb] in Hl; [..|lia].
  - destruct (same_byte original i edited i) eqn:Hb; cbn [negb] in Hl.
    + ok_inv. destruct a as [r1 o1].
      destruct (flush_stage _ _ _ _ _ Hst Hi Hr) as [-> Hs].
      eapply (IH (S i) None); eauto; cbn; [by apply stage_same|unfold run_before; lia|lia].
    + destruct Hi as [Hs Hi].
      destruct run as [s|]; cbn in *; eapply (IH (S i)); eauto; cbn; auto;
        unfold run_before; lia.
  - ok_inv. destruct a as [r1 o1]. destruct (flush_stage _ _ _ _ _ Hst Hi Hr) as [-> Hs].
    apply requireSafeIntegerOutput_inv in Hr0 as [[= <-] _]. subst st. cbn in Hfl.
    injection Hfl as <- <-. destruct Hi. assert (i = length edited) as -> by lia.
    by apply tail_delete.
  - ok_inv. destruct a as [r1 o1]. destruct (flush_stage _ _ _ _ _ Hst Hi Hr) as [-> Hs].
    apply requireSafeIntegerOutput_inv in Hr0 as [[= <-] _]. subst st. cbn in Hfl.
    injection Hfl as <- <-. destruct Hi. assert (i = length original) as -> by lia.
    by apply tail_insert.
Qed.
End Operations.

(** The plan exists whenever its offsets stay in the safe range. *)
Section Totality.
Context (original edited : bytes) (off : Z).
Let maxLen := Nat.max (length original) (length edited).
Context (Hoff : 0 <= off) (Hmax : off + Z.of_nat maxLen <= MAX_SAFE_INTEGER).

Lemma start_ok n : (n <= maxLen)%nat ->
  requireSafeIntegerOutput (NInt (off + Z.of_nat n)) = Ok (off + Z.of_nat n).
Proof. intros H. apply requireSafeIntegerOutput_int, safeZ_spec. lia. Qed.

Lemma flush_total run ops i :
  (default 0 run <= maxLen)%nat ->
  exists ops', flushOverwriteRun edited off i (run, ops) = Ok (None, ops').
Proof.
  intros H. destruct run as [s|]; cbn in *; [|by eexists].
  rewrite start_ok by done. by eexists.
Qed.

Lemma loop_total fuel : forall i run ops,
  (default 0 run <= maxLen)%nat -> exists run' ops',
    editOperations_loop fuel original edited off i (run, ops) = Ok (run', ops') /\
    (default 0 run' <= maxLen)%nat.
Proof.
  induction fuel as [|fuel IH]; intros i run ops Hrun; cbn [editOperations_loop];
    [by eauto|].
  destruct (Nat.ltb_spec i maxLen) as [Hi|Hi]; fold maxLen;
    [rewrite (proj2 (Nat.ltb_lt i maxLen) Hi)|rewrite (proj2 (Nat.ltb_ge i maxLen) Hi)];
    cbn [negb]; [|by eauto].
  destruct (flush_total run ops i Hrun) as [ops' Hfl].
  destruct ((i <? length original)%nat && (i <? length edited)%nat).
  - destruct (same_byte original i edited i); cbn [negb].
    + rewrite Hfl. cbn. by apply IH; cbn; lia.
    + destruct run as [s|]; apply IH; cbn in *; lia.
  - destruct (i <? length original)%nat; rewrite Hfl; cbn; rewrite start_ok by lia; cbn;
      do 2 eexists; (split; [done|cbn; lia]).
Qed.
End Totality.

Lemma editOperations_unsafe original edited v :
  isSafeInteger v = false ->
  editOperations original edited v = Throw (plain_error SAFE_INTEGER_INPUT_MESSAGE).
Proof.
  intros H. unfold editOperations, requireSafeIntegerInput.
  rewrite safe_value_throws; [done|]. intros z ->. exact H.
Qed.

Lemma insert_whole pre post edited :
  Z.of_nat (length pre) <= MAX_SAFE_INTEGER -> edited <> [] ->
  carries [mkOp Insert (Z.of_nat (length pre)) None (Some edited)]
    (pre ++ [] ++ post) (pre ++ edited ++ post).
Proof.
  intros Hs H. eapply (carries_snoc []); [apply carries_nil| |].
  - split; cbn; [lia|]. eexists. rewrite !length_app. repeat split; auto. lia.
  - unfold apply_op; cbn.
    pose proof (apply_insert_at pre post [] [] edited (Z.of_nat (length pre))) as E.
    cbn in E. rewrite app_nil_r in E. apply E. lia.
Qed.

Lemma delete_whole pre post original :
  Z.of_nat (length pre + length original) <= MAX_SAFE_INTEGER -> original <> [] ->
  carries [mkOp Delete (Z.of_nat (length pre)) (Some (Z.of_nat (length original))) None]
    (pre ++ original ++ post) (pre ++ [] ++ post).
Proof.
  intros Hs H. eapply (carries_snoc []); [apply carries_nil| |].
  - split; cbn; [lia|]. eexists. split; [done|]. rewrite !length_app.
    destruct original; [done|]. cbn in *. lia.
  - unfold apply_op; cbn.
    pose proof (apply_delete_at pre post [] original [] (Z.of_nat (length pre))
      (Z.of_nat (length original))) as E.
    cbn in E. rewrite app_nil_r in E. apply E; lia.
Qed.

Lemma editOperations_carries (pre post original edited : bytes) :
  Z.of_nat (length pre + Nat.max (length original) (length edited)) <= MAX_SAFE_INTEGER ->
  exists ops,
    editOperations original edited (NInt (Z.of_nat (length pre))) = Ok ops /\
    carries ops (pre ++ original ++ post) (pre ++ edited ++ post).
Proof.
  intros Hmax.
  assert (Hsafe : safeZ (Z.of_nat (length pre)) = true) by (apply safeZ_spec; lia).
  unfold editOperations. rewrite requireSafeIntegerInput_int by done. cbn.
  destruct (Nat.eqb_spec (length original) 0) as [E1|E1];
  destruct (Nat.eqb_spec (length edited) 0) as [E2|E2]; 
    rewrite ?requireSafeIntegerOutput_int by done; cbn.
  - apply nil_length_inv in E1, E2. subst. eexists; split; [done|apply carries_nil].
  - apply nil_length_inv in E1. subst. eexists; split; [done|]. apply insert_whole; [lia|].
    by intros ->.
  - apply nil_length_inv in E2. subst. eexists; split; [done|]. apply delete_whole; [lia|].
    by intros ->.
  - destruct (removeCommonSuffix_spec original edited) as (q1 & q2 & t & -> & -> & -> & _).
    rewrite !length_app in Hmax.
    assert (Hm : Z.of_nat (length pre) + Z.of_nat (Nat.max (length q1) (length q2))
      <= MAX_SAFE_INTEGER) by lia.
    destruct (loop_total q1 q2 (Z.of_nat (length pre)) ltac:(lia) Hm
      (Nat.max (length q1) (length q2)) 0 None []) as (run & ops & Hl & Hrun); [cbn; lia|].
    destruct (flush_total q1 q2 (Z.of_nat (length pre)) ltac:(lia) Hm run ops
      (Nat.max (length q1) (length q2)) Hrun) as [ops' Hfl].
    unfold mbind, result_bind. rewrite Hl, Hfl. exists ops'. split; [done|].
    rewrite <- !app_assoc.
    eapply (loop_stage q1 q2 pre (t ++ post)); [..|exact Hl|exact Hfl];
      [lia|apply carries_nil|split; cbn; [done|lia]|lia].
Qed.

(** C2 The plan of [editOperations] exists whenever the offsets stay
    within the safe integers, every operation of it is in range of the bytes
    it meets, and carrying it out in order turns the original segment into
    the edited one and leaves what lies before and after it unchanged. *)
Theorem editOperations_correct (pre post original edited : bytes) :
  Z.of_nat (length pre + Nat.max (length original) (length edited)) <= MAX_SAFE_INTEGER ->
  exists ops,
    editOperations original edited (NInt (Z.of_nat (length pre))) = Ok ops /\
    valid_ops (pre ++ original ++ post) ops /\
    apply_ops ops (pre ++ original ++ post) = pre ++ edited ++ post.
Proof. exact (editOperations_carries pre post original edited). Qed.

Lemma editOperations_correct_witness :
  exists ops,
    editOperations [97; 98; 99; 100] [97; 120; 99] (NInt 1) = Ok ops /\
    apply_ops ops [7; 97; 98; 99; 100; 8] = [7; 97; 120; 99; 8].
Proof.
  destruct (editOperations_correct [7] [8] [97; 98; 99; 100] [97; 120; 99])
    as (ops & E & _ & Ha); [vm_compute; discriminate|].
  exists ops. split; [exact E|exact Ha].
Defined.

(** ** editOptimizer *)

Lemma first_difference_spec o e fuel : forall i,
  (i <= Nat.min (length o) (length e))%nat -> (length o <= i + fuel)%nat ->
  take i o = take i e ->
  let f := first_difference_loop fuel o e i in
  (f <= Nat.min (length o) (length e))%nat /\ take f o = take f e /\
  ((f < length o)%nat -> (f < length e)%nat -> o !! f <> e !! f).
Proof.
  induction fuel as [|fuel IH]; intros i Hi Hf Ht; cbn [first_difference_loop].
  { repeat split; auto. lia. }
  destruct (Nat.ltb_spec i (length o)); cbn [andb]; [|repeat split; auto; lia].
  destruct (Nat.ltb_spec i (length e)); cbn [andb]; [|repeat split; auto; lia].
  destruct (same_byte o i e i) eqn:E; [apply IH; [lia|lia|]|].
  - apply same_byte_spec in E. destruct (lookup_lt_is_Some_2 e i ltac:(lia)) as [x Hx].
    rewrite Hx in E. by rewrite (take_S_r _ _ _ E), (take_S_r _ _ _ Hx), Ht.
  - repeat split; auto. intros _ _. by apply bool_decide_eq_false in E.
Qed.

Lemma drop_suffix_step (l : bytes) n x :
  (n < length l)%nat -> l !! (length l - 1 - n)%nat = Some x ->
  drop (length l - S n) l = x :: drop (length l - n) l.
Proof.
  intros Hn Hx. replace (length l - S n)%nat with (length l - 1 - n)%nat by lia.
  rewrite (drop_S _ _ _ Hx). do 2 f_equal. lia.
Qed.

Lemma last_difference_spec o e f fuel : forall n,
  (f <= Nat.min (length o) (length e))%nat ->
  (n <= Nat.min (length o - f) (length e - f))%nat -> (length o <= n + fuel)%nat ->
  drop (length o - n) o = drop (length e - n) e ->
  let l := last_difference_loop fuel o e f n in
  (l <= Nat.min (length o - f) (length e - f))%nat /\
  drop (length o - l) o = drop (length e - l) e /\
  ((l < length o - f)%nat -> (l < length e - f)%nat ->
   o !! (length o - 1 - l)%nat <> e !! (length e - 1 - l)%nat).
Proof.
  induction fuel as [|fuel IH]; intros n Hf Hn Hfuel Hd; cbn [last_difference_loop].
  { repeat split; auto. lia. }
  destruct (Nat.ltb_spec n (length o - f)); cbn [andb]; [|repeat split; auto; lia].
  destruct (Nat.ltb_spec n (length e - f)); cbn [andb]; [|repeat split; auto; lia].
  destruct (same_byte o _ e _) eqn:E; [apply IH; [lia|lia|lia|]|].
  - apply same_byte_spec in E.
    destruct (lookup_lt_is_Some_2 e (length e - 1 - n)) as [x Hx]; [lia|].
    rewrite Hx in E.
    rewrite (drop_suffix_step o n x), (drop_suffix_step e n x) by (auto; lia).
    by rewrite Hd.
  - repeat split; auto. intros _ _. by apply bool_decide_eq_false in E.
Qed.

(** A segment cut at the trimmed prefix and suffix. *)
Lemma trim_split (s : bytes) f l :
  (f + l <= length s)%nat ->
  s = take f s ++ subarray s f (length s - l) ++ drop (length s - l) s.
Proof.
  intros H. rewrite app_assoc, <- subarray_split by lia. by rewrite take_drop.
Qed.

Definition trimmed (removed inserted : bytes) : Prop :=
  (removed <> [] -> inserted <> [] -> head removed <> head inserted) /\
  (removed <> [] -> inserted <> [] -> last removed <> last inserted).

Lemma subarray_head (s : bytes) f n : (f < n <= length s)%nat -> head (subarray s f n) = s !! f.
Proof.
  intros H. unfold subarray. rewrite head_lookup, lookup_drop, Nat.add_0_r.
  by rewrite lookup_take_lt by lia.
Qed.

Lemma subarray_last (s : bytes) f n :
  (f < n <= length s)%nat -> last (subarray s f n) = s !! (n - 1)%nat.
Proof.
  intros H. rewrite last_lookup, subarray_length by lia. unfold subarray.
  rewrite lookup_drop, lookup_take_lt by lia. f_equal. lia.
Qed.

Lemma apply_replacement_at pre post o e common removed inserted rest :
  o = common ++ removed ++ rest -> e = common ++ inserted ++ rest ->
  apply_replacement (pre ++ o ++ post)
    (mkReplacement (Z.of_nat (length pre + length common)) (Z.of_nat (length removed)) inserted)
  = pre ++ e ++ post.
Proof.
  intros -> ->. unfold apply_replacement; cbn. rewrite apply_delete_at by done.
  by rewrite apply_insert_at.
Qed.

Section Optimizer.
Context (o e : bytes).
Let f := first_difference_loop (length o) o e 0.
Let l := last_difference_loop (length o) o e f 0.

Lemma optimizer_cut :
  (f + l <= length o)%nat /\ (f + l <= length e)%nat /\
  take f o = take f e /\ drop (length o - l) o = drop (length e - l) e /\
  trimmed (subarray o f (length o - l)) (subarray e f (length e - l)).
Proof.
  destruct (first_difference_spec o e (length o) 0) as (Hf & Ht & Hne); [lia|lia|done|].
  fold f in Hf, Ht, Hne.
  destruct (last_difference_spec o e f (length o) 0) as (Hl & Hd & Hne');
    [lia|lia|lia|by rewrite !Nat.sub_0_r, !drop_all|].
  fold l in Hl, Hd, Hne'.
  repeat split; [lia|lia|done|done|..]; intros H1 H2;
    assert (length (subarray o f (length o - l)) <> 0%nat) as L1
      by (intros E; apply H1; by apply nil_length_inv);
    assert (length (subarray e f (length e - l)) <> 0%nat) as L2
      by (intros E; apply H2; by apply nil_length_inv);
    rewrite subarray_length in L1, L2 by lia.
  - rewrite !subarray_head by lia. apply Hne; lia.
  - rewrite !subarray_last by lia.
    replace (length o - l - 1)%nat with (length o - 1 - l)%nat by lia.
    replace (length e - l - 1)%nat with (length e - 1 - l)%nat by lia.
    apply Hne'; lia.
Qed.

Lemma optimizer_equal : f = length o -> f = length e -> o = e.
Proof.
  intros Ho He. destruct optimizer_cut as (_ & _ & Ht & _).
  by rewrite <- (take_ge o f), <- (take_ge e f) by lia.
Qed.

Lemma optimizer_equal_inv : o = e -> f = length o /\ f = length e.
Proof.
  intros E. destruct (first_difference_spec o e (length o) 0) as (Hf & _ & Hne);
    [lia|lia|done|]. fold f in Hf, Hne. rewrite <- E in *.
  destruct (decide (f < length o)%nat); [by destruct Hne|lia].
Qed.
End Optimizer.

(** What a plan of the optimizer must be. *)
Definition optimal_plan (pre post original edited : bytes)
    (plan : option (list Replacement)) : Prop :=
  match plan with
  | None => original = edited
  | Some rs => original <> edited /\
      exists common removed inserted rest,
        original = common ++ removed ++ rest /\ edited = common ++ inserted ++ rest /\
        rs = [mkReplacement (Z.of_nat (length pre + length common))
                (Z.of_nat (length removed)) inserted] /\
        trimmed removed inserted /\
        foldl apply_replacement (pre ++ original ++ post) rs = pre ++ edited ++ post
  end.

Lemma editOptimizer_plan (pre post original edited : bytes) :
  Z.of_nat (length pre + length original) <= MAX_SAFE_INTEGER ->
  exists plan,
    editOptimizer original edited (NInt (Z.of_nat (length pre))) = Ok plan /\
    optimal_plan pre post original edited plan.
Proof.
  intros Hmax. unfold editOptimizer.
  rewrite requireSafeIntegerInput_int by (apply safeZ_spec; lia).
  unfold mbind, result_bind.
  destruct (optimizer_cut original edited) as (H1 & H2 & Ht & Hd & Htr).
  pose proof (optimizer_equal original edited) as Heq.
  pose proof (optimizer_equal_inv original edited) as Hinv.
  set (f := first_difference_loop _ _ _ _) in *.
  set (l := last_difference_loop _ _ _ _ _) in *.
  destruct ((f =? length original)%nat && (f =? length edited)%nat) eqn:E.
  { bool_prop. eexists; split; [done|]. by apply Heq. }
  rewrite (requireSafeIntegerOutput_int (_ + _)) by (apply safeZ_spec; lia).
  eexists; split; [done|]. split.
  { intros Hoe. destruct (Hinv Hoe) as [E1 E2].
    by rewrite (proj2 (Nat.eqb_eq _ _) E1), (proj2 (Nat.eqb_eq _ _) E2) in E. }
  assert (Ho : original = take f original ++ subarray original f (length original - l)
    ++ drop (length original - l) original) by (apply trim_split; lia).
  assert (He : edited = take f original ++ subarray edited f (length edited - l)
    ++ drop (length original - l) original) by (rewrite Ht, Hd; apply trim_split; lia).
  assert (Hlen : length (take f original) = f) by (rewrite length_take; lia).
  assert (Hsub : length (subarray original f (length original - l))
    = (length original - f - l)%nat) by (rewrite subarray_length; lia).
  eexists _, _, _, _. split; [exact Ho|]. split; [exact He|].
  split; [by rewrite Hlen, Hsub, Nat2Z.inj_add|]. split; [done|]. cbn [foldl].
  pose proof (apply_replacement_at pre post _ _ _ _ _ _ Ho He) as Ha.
  by rewrite Hlen, Hsub, Nat2Z.inj_add in Ha.
Qed.

(** [editOptimizer] answers "no edit" exactly when the segments
    are equal; otherwise its single replacement turns the original segment
    into the edited one in place, and it is trimmed: the bytes it removes
    and the bytes it inserts share neither their first nor their last byte. *)
Theorem editOptimizer_correct (pre post original edited : bytes) :
  Z.of_nat (length pre + length original) <= MAX_SAFE_INTEGER ->
  exists plan,
    editOptimizer original edited (NInt (Z.of_nat (length pre))) = Ok plan /\
    optimal_plan pre post original edited plan.
Proof. exact (editOptimizer_plan pre post original edited). Qed.

Lemma editOptimizer_correct_witness :
  exists plan,
    editOptimizer [1; 2; 3; 4] [1; 9; 4] (NInt 1) = Ok plan /\
    optimal_plan [7] [8] [1; 2; 3; 4] [1; 9; 4] plan.
Proof.
  destruct (editOptimizer_correct [7] [8] [1; 2; 3; 4] [1; 9; 4]) as (plan & E & Hp);
    [vm_compute; discriminate|].
  exists plan. split; [exact E|exact Hp].
Defined.
