(* ===== verification/EditSession.v ===== *)
(** * Edits sent to a session ([packages/client/src/change.ts],
      [packages/client/src/protobuf_ts/change.ts],
      [packages/client/src/session.ts])

    The client functions that carry out edits: the RPC wrappers that count
    outcomes in an [EditStats] object, the primitive edits, [replace],
    [editSimple], [edit], and the transaction and viewport-batch brackets
    they use.  The server on the other side of the RPC is an interface: the
    class [EditBackend] has its calls and [EditBackendLaws] what its
    documentation promises; [BufferServer] is an instance, a server that
    keeps its bytes in a list.

    [enqueueSessionMutation] runs its task in the session's turn; in a run
    of one caller that is running the task, which is how it appears here.
    The queue itself is modelled in [MutationQueue]. *)

From S2P Require Import Prelude SafeInt EditDiff.

Open Scope jsm_scope.

(** ** The server *)

Inductive ChangeKind :=
  | CHANGE_UNSPECIFIED | CHANGE_DELETE | CHANGE_INSERT | CHANGE_OVERWRITE | CHANGE_TRANSFORM.

Record SubmitChangeRequest := mkRequest {
  rq_kind : ChangeKind;
  rq_offset : Z;
  rq_length : Z;
  rq_data : option bytes
}.

(** What the callback of a unary call receives: an error, no response, or a
    response. *)
Inductive rpc_outcome (A : Type) :=
  | RpcError
  | RpcEmpty
  | RpcReply (a : A).
Arguments RpcError {A}.
Arguments RpcEmpty {A}.
Arguments RpcReply {A} a.

Definition apply_request (rq : SubmitChangeRequest) (buf : bytes) : bytes :=
  match rq_kind rq with
  | CHANGE_DELETE => apply_delete (rq_offset rq) (rq_length rq) buf
  | CHANGE_INSERT => apply_insert (rq_offset rq) (default [] (rq_data rq)) buf
  | CHANGE_OVERWRITE => apply_overwrite (rq_offset rq) (default [] (rq_data rq)) buf
  | CHANGE_UNSPECIFIED | CHANGE_TRANSFORM => buf
  end.

Definition request_in_range (rq : SubmitChangeRequest) (buf : bytes) : Prop :=
  let size := Z.of_nat (length buf) in
  0 <= rq_offset rq /\
  match rq_kind rq with
  | CHANGE_DELETE => 0 < rq_length rq /\ rq_offset rq + rq_length rq <= size
  | CHANGE_INSERT => exists d, rq_data rq = Some d /\ d <> [] /\
      rq_length rq = Z.of_nat (length d) /\ rq_offset rq <= size
  | CHANGE_OVERWRITE => exists d, rq_data rq = Some d /\ d <> [] /\
      rq_length rq = Z.of_nat (length d) /\ rq_offset rq + Z.of_nat (length d) <= size
  | CHANGE_UNSPECIFIED | CHANGE_TRANSFORM => False
  end.

(** The calls that bracket a group of edits. *)
Inductive bracket_call :=
  | BeginSessionTransaction
  | EndSessionTransaction
  | PauseViewportEvents
  | ResumeViewportEvents
  | NotifyChangedViewports.

Class EditBackend (S : Type) := {
  content : S -> bytes;
  rpc_submitChange : SubmitChangeRequest -> S -> S * rpc_outcome Z;
  rpc_undo : S -> S * rpc_outcome Z;
  rpc_redo : S -> S * rpc_outcome Z;
  rpc_clear : S -> S * rpc_outcome jsstring;
  rpc_bracket : bracket_call -> S -> S * result unit
}.

(** An accepted change (non-zero serial) has edited the content as its
    request says; brackets leave the content alone.  [alive] tells the
    states in which the server answers: in-range changes are then accepted
    with a positive serial, brackets succeed, and the server stays alive. *)
Class EditBackendLaws (S : Type) `{EditBackend S} := {
  alive : S -> Prop;
  submit_sound rq s s' serial :
    request_in_range rq (content s) ->
    rpc_submitChange rq s = (s', RpcReply serial) -> serial <> 0 ->
    content s' = apply_request rq (content s);
  submit_live rq s :
    alive s -> request_in_range rq (content s) ->
    exists s' serial, rpc_submitChange rq s = (s', RpcReply serial) /\ alive s' /\
      0 < serial <= MAX_SAFE_INTEGER;
  bracket_content b s : content (rpc_bracket b s).1 = content s;
  bracket_live b s : alive s -> exists s', rpc_bracket b s = (s', Ok tt) /\ alive s'
}.

(** ** Edit statistics *)

Record EditStats := mkStats {
  delete_count : Z;
  insert_count : Z;
  overwrite_count : Z;
  undo_count : Z;
  redo_count : Z;
  clear_count : Z;
  error_count : Z
}.

Definition new_stats : EditStats := mkStats 0 0 0 0 0 0 0.

Definition stats_reset (s : EditStats) : EditStats := new_stats.

Definition count_error (s : EditStats) : EditStats :=
  mkStats (delete_count s) (insert_count s) (overwrite_count s) (undo_count s)
    (redo_count s) (clear_count s) (error_count s + 1).

Inductive stat_key := KeyDelete | KeyInsert | KeyOverwrite | KeyUndo | KeyRedo | KeyClear.

Definition count_key (k : stat_key) (s : EditStats) : EditStats :=
  mkStats
    (delete_count s + match k with KeyDelete => 1 | _ => 0 end)
    (insert_count s + match k with KeyInsert => 1 | _ => 0 end)
    (overwrite_count s + match k with KeyOverwrite => 1 | _ => 0 end)
    (undo_count s + match k with KeyUndo => 1 | _ => 0 end)
    (redo_count s + match k with KeyRedo => 1 | _ => 0 end)
    (clear_count s + match k with KeyClear => 1 | _ => 0 end)
    (error_count s).

Definition stats_total (s : EditStats) : Z :=
  delete_count s + insert_count s + overwrite_count s + undo_count s
  + redo_count s + clear_count s + error_count s.

(** ** The client *)

Section Client.
Context {S : Type} `{EditBackend S}.

(** The server, and the statistics object the caller passes or not. *)
Record world := mkWorld { server : S; stats : EditStats }.

Definition bump (with_stats : bool) (f : EditStats -> EditStats) : M world unit :=
  putM (fun w => mkWorld (server w) (if with_stats then f (stats w) else stats w)).

Definition call {A} (rpc : S -> S * A) : M world A := fun w =>
  let '(s', a) := rpc (server w) in (mkWorld s' (stats w), Ok a).

(** The callback shared by the change, undo and redo calls: a serial of
    zero is a refusal. *)
Definition serial_callback (fn : string) (key : stat_key) (with_stats : bool)
    (outcome : rpc_outcome Z) : M world Z :=
  match outcome with
  | RpcError => bump with_stats count_error ;;; throwM (plain_error (fn ++ " failed: "))
  | RpcEmpty =>
      bump with_stats count_error ;;; throwM (plain_error (fn ++ " failed: empty response"))
  | RpcReply serial =>
      if serial =? 0
      then bump with_stats count_error ;;; throwM (plain_error (fn ++ " failed"))
      else bump with_stats (count_key key) ;;; retM serial
  end.

Definition submitChange (request : SubmitChangeRequest) (fn : string) (key : stat_key)
    (with_stats : bool) : M world Z :=
  let* outcome := call (rpc_submitChange request) in
  serial_callback fn key with_stats outcome.

Definition rawDel (offset len : Z) (with_stats : bool) : M world Z :=
  submitChange (mkRequest CHANGE_DELETE offset len None) "del" KeyDelete with_stats.

Definition rawInsert (offset : Z) (data : bytes) (with_stats : bool) : M world Z :=
  submitChange (mkRequest CHANGE_INSERT offset (Z.of_nat (length data)) (Some data))
    "insert" KeyInsert with_stats.

Definition rawOverwrite (offset : Z) (data : bytes) (with_stats : bool) : M world Z :=
  submitChange (mkRequest CHANGE_OVERWRITE offset (Z.of_nat (length data)) (Some data))
    "overwrite" KeyOverwrite with_stats.

Definition rawUndo (with_stats : bool) : M world Z :=
  let* outcome := call rpc_undo in serial_callback "undo" KeyUndo with_stats outcome.

Definition rawRedo (with_stats : bool) : M world Z :=
  let* outcome := call rpc_redo in serial_callback "redo" KeyRedo with_stats outcome.

Definition rawClear (with_stats : bool) : M world jsstring :=
  let* outcome := call rpc_clear in
  match outcome with
  | RpcError => bump with_stats count_error ;;; throwM (plain_error "clear failed: ")
  | RpcEmpty =>
      bump with_stats count_error ;;; throwM (plain_error "clear failed: empty response")
  | RpcReply id => bump with_stats (count_key KeyClear) ;;; retM id
  end.

Definition checked (m : M world Z) : M world Z :=
  let* serial := m in liftM (requireSafeIntegerOutput (NInt serial)).

Definition del (offset len : number) (with_stats : bool) : M world Z :=
  let* o := liftM (requireSafeIntegerInput offset) in
  let* n := liftM (requireSafeIntegerInput len) in
  checked (rawDel o n with_stats).

Definition insert (offset : number) (data : bytes) (with_stats : bool) : M world Z :=
  let* o := liftM (requireSafeIntegerInput offset) in
  checked (rawInsert o data with_stats).

Definition overwrite (offset : number) (data : bytes) (with_stats : bool) : M world Z :=
  let* o := liftM (requireSafeIntegerInput offset) in
  checked (rawOverwrite o data with_stats).

Definition undo (with_stats : bool) : M world Z := checked (rawUndo with_stats).
Definition redo (with_stats : bool) : M world Z := checked (rawRedo with_stats).
Definition clear (with_stats : bool) : M world jsstring := rawClear with_stats.

Definition bracket (b : bracket_call) : M world unit :=
  let* r := call (rpc_bracket b) in liftM r.

Definition runSessionTransaction {A} (work : M world A) : M world A :=
  bracket BeginSessionTransaction ;;;
  finallyM work (bracket EndSessionTransaction).

Definition withViewportBatch {A} (work : M world A)
    (transactional notifyViewports : option bool) : M world A :=
  bracket PauseViewportEvents ;;;
  finallyM
    (if default true transactional then runSessionTransaction work else work)
    (bracket ResumeViewportEvents ;;;
     if default true notifyViewports then bracket NotifyChangedViewports else retM tt).

Definition replaceWithoutTransaction (offset remove_bytes_count : Z) (replacement : bytes)
    (with_stats : bool) : M world Z :=
  del (NInt offset) (NInt remove_bytes_count) with_stats ;;;
  insert (NInt offset) replacement with_stats.

Definition replaceWithTransaction (offset remove_bytes_count : Z) (replacement : bytes)
    (with_stats : bool) : M world Z :=
  runSessionTransaction
    (del (NInt offset) (NInt remove_bytes_count) with_stats ;;;
     insert (NInt offset) replacement with_stats).

Definition replaceInternal (offset remove_bytes_count : number) (replacement : bytes)
    (with_stats transactional : bool) : M world Z :=
  let* safeOffset := liftM (requireSafeIntegerInput offset) in
  let* safeRemove := liftM (requireSafeIntegerInput remove_bytes_count) in
  if safeRemove =? 0 then insert (NInt safeOffset) replacement with_stats
  else if (length replacement =? 0)%nat
    then del (NInt safeOffset) (NInt safeRemove) with_stats
  else if Z.of_nat (length replacement) =? safeRemove
    then overwrite (NInt safeOffset) replacement with_stats
  else if transactional
    then replaceWithTransaction safeOffset safeRemove replacement with_stats
    else replaceWithoutTransaction safeOffset safeRemove replacement with_stats.

Definition replace (offset remove_bytes_count : number) (replacement : bytes)
    (with_stats : bool) : M world Z :=
  replaceInternal offset remove_bytes_count replacement with_stats true.

(** A [for] loop whose body assigns [result]. *)
Fixpoint for_each {A} (body : A -> M world Z) (l : list A) (result : Z) : M world Z :=
  match l with
  | [] => retM result
  | x :: l => let* result := body x in for_each body l result
  end.

Definition editSimple (offset : number) (original_segment edited_segment : bytes)
    (with_stats transactional : bool) : M world Z :=
  let* optimized := liftM (editOptimizer original_segment edited_segment offset) in
  match optimized with
  | None => retM 0
  | Some replacements =>
      let useTransaction := transactional && (1 <? length replacements)%nat in
      let replaceTransactionally := transactional && negb useTransaction in
      let applyReplacements := for_each (fun r =>
        replaceInternal (NInt (r_offset r)) (NInt (remove_bytes_count r)) (replacement r)
          with_stats replaceTransactionally) replacements 0 in
      if useTransaction then runSessionTransaction applyReplacements
      else applyReplacements
  end.

Definition runOperation (with_stats : bool) (op : EditOperation) : M world Z :=
  match op_type op with
  | Insert => insert (NInt (op_start op)) (default [] (op_data op)) with_stats
  | Delete => del (NInt (op_start op)) (NInt (default 0 (op_length op))) with_stats
  | Overwrite => overwrite (NInt (op_start op)) (default [] (op_data op)) with_stats
  end.

Definition edit (offset : number) (original_segment edited_segment : bytes)
    (with_stats : bool) : M world Z :=
  let* optimized_edits := liftM (editOperations original_segment edited_segment offset) in
  let useTransaction := (1 <? length optimized_edits)%nat in
  let applyEdits := for_each (runOperation with_stats) optimized_edits 0 in
  if useTransaction then withViewportBatch applyEdits None None
  else applyEdits.
End Client.
Arguments world S : clear implicits.
Arguments mkWorld {S}.

(** ** Reasoning about client runs *)

Section Runs.
Context {S : Type} `{EditBackendLaws S}.

(** From content [b], a run of [m] that returns has content [b'] and a
    result satisfying [Q]; and when the server is alive, the run returns. *)
Definition performs {A} (m : M (world S) A) (b b' : bytes) (Q : A -> Prop) : Prop :=
  forall w, content (server w) = b ->
    (forall w' r, m w = (w', Ok r) -> content (server w') = b' /\ Q r) /\
    (alive (server w) -> exists w' r, m w = (w', Ok r) /\ alive (server w')).

Lemma performs_ret {A} (a : A) b (Q : A -> Prop) : Q a -> performs (retM a) b b Q.
Proof.
  intros HQ w Hb. split; [intros w' r [= <- <-]; done|]. intros Ha. by exists w, a.
Qed.

Lemma performs_bind {A B} (m : M (world S) A) (f : A -> M (world S) B) b1 b2 b3 P Q :
  performs m b1 b2 P -> (forall a, P a -> performs (f a) b2 b3 Q) ->
  performs (bindM m f) b1 b3 Q.
Proof.
  intros Hm Hf w Hb. destruct (Hm w Hb) as [Hs Hl]. unfold bindM. split.
  - intros w' r. destruct (m w) as [w1 [a|e]] eqn:E; [|discriminate].
    destruct (Hs _ _ eq_refl) as [Hc HP]. by apply Hf.
  - intros Ha. destruct (Hl Ha) as (w1 & a & E & Ha1). rewrite E.
    destruct (Hs _ _ E) as [Hc HP]. by apply (Hf a HP w1 Hc).
Qed.

Lemma performs_lift {A B} (a : A) (f : A -> M (world S) B) b b' Q :
  performs (f a) b b' Q -> performs (bindM (liftM (Ok a)) f) b b' Q.
Proof.
  intros Hf. eapply (performs_bind _ _ b b b' (fun x => x = a)); [|by intros ? ->].
  intros w Hb. split; [intros w' r [= <- <-]; done|]. intros Ha. by exists w, a.
Qed.

Lemma performs_finally {A} (m : M (world S) A) fin b b' Q :
  performs m b b' Q -> performs fin b' b' (fun _ => True) ->
  performs (finallyM m fin) b b' Q.
Proof.
  intros Hm Hf w Hb. destruct (Hm w Hb) as [Hs Hl]. unfold finallyM. split.
  - intros w' r. destruct (m w) as [w1 [a|e]] eqn:E;
      destruct (fin w1) as [w2 [[]|e2]] eqn:E2; try discriminate.
    intros [= <- <-]. destruct (Hs _ _ eq_refl) as [Hc HQ]. split; [|done].
    by apply (Hf w1 Hc) in E2 as [? _].
  - intros Ha. destruct (Hl Ha) as (w1 & a & E & Ha1). rewrite E.
    destruct (Hs _ _ E) as [Hc _]. destruct (Hf w1 Hc) as [_ Hfl].
    destruct (Hfl Ha1) as (w2 & [] & -> & Ha2). by exists w2, a.
Qed.

Lemma performs_bracket bc b : performs (bracket bc) b b (fun _ => True).
Proof.
  intros w Hb. unfold bracket, bindM, call, liftM.
  pose proof (bracket_content bc (server w)) as Hc.
  split.
  - intros w' r. destruct (rpc_bracket bc (server w)) as [s' [[]|e]]; [|discriminate].
    intros [= <- <-]. cbn in *. by rewrite Hc.
  - intros Ha. destruct (bracket_live bc (server w) Ha) as (s' & -> & Ha').
    by exists (mkWorld s' (stats w)), tt.
Qed.

Lemma performs_submit rq fn key ws b :
  request_in_range rq b ->
  performs (checked (submitChange rq fn key ws)) b (apply_request rq b) (fun r => r <> 0).
Proof.
  intros Hrg w Hb. subst b. unfold checked, submitChange, bindM, call, liftM. split.
  - intros w' r. destruct (rpc_submitChange rq (server w)) as [s' [| |serial]] eqn:E;
      cbn; try discriminate.
    destruct (serial =? 0) eqn:E0; cbn; [discriminate|]. bool_prop.
    intros [= <- Hr]. apply requireSafeIntegerOutput_inv in Hr as [[= <-] _]. cbn.
    split; [|done]. by eapply submit_sound.
  - intros Ha. destruct (submit_live rq (server w) Ha Hrg) as (s' & serial & E & Ha' & Hp).
    rewrite E. cbn. replace (serial =? 0) with false by (symmetry; apply Z.eqb_neq; lia).
    cbn. rewrite requireSafeIntegerOutput_int by (apply safeZ_spec; lia). eauto.
Qed.

Lemma performs_transaction {A} (m : M (world S) A) b b' Q :
  performs m b b' Q -> performs (runSessionTransaction m) b b' Q.
Proof.
  intros Hm. eapply performs_bind; [apply performs_bracket|]. intros _ _.
  apply performs_finally; [done|apply performs_bracket].
Qed.

Lemma performs_batch {A} (m : M (world S) A) t n b b' Q :
  performs m b b' Q -> performs (withViewportBatch m t n) b b' Q.
Proof.
  intros Hm. eapply performs_bind; [apply performs_bracket|]. intros _ _.
  apply performs_finally.
  - destruct (default true t); [by apply performs_transaction|done].
  - eapply performs_bind; [apply performs_bracket|]. intros _ _.
    destruct (default true n); [apply performs_bracket|by apply performs_ret].
Qed.

Lemma performs_del b off len ws :
  0 <= off <= MAX_SAFE_INTEGER -> 0 < len <= MAX_SAFE_INTEGER ->
  off + len <= Z.of_nat (length b) ->
  performs (del (NInt off) (NInt len) ws) b (apply_delete off len b) (fun r => r <> 0).
Proof.
  unfold del. intros Ho Hl Hr.
  rewrite !requireSafeIntegerInput_int by (apply safeZ_spec; lia).
  do 2 apply performs_lift. apply performs_submit; split; cbn; lia.
Qed.

Lemma performs_insert b off data ws :
  0 <= off <= MAX_SAFE_INTEGER -> off <= Z.of_nat (length b) -> data <> [] ->
  performs (insert (NInt off) data ws) b (apply_insert off data b) (fun r => r <> 0).
Proof.
  unfold insert. intros Ho Hb Hd.
  rewrite !requireSafeIntegerInput_int by (apply safeZ_spec; lia).
  apply performs_lift. apply performs_submit; split; cbn; [lia|].
  exists data. repeat split; auto; lia.
Qed.

Lemma performs_overwrite b off data ws :
  0 <= off <= MAX_SAFE_INTEGER -> off + Z.of_nat (length data) <= Z.of_nat (length b) ->
  data <> [] ->
  performs (overwrite (NInt off) data ws) b (apply_overwrite off data b) (fun r => r <> 0).
Proof.
  unfold overwrite. intros Ho Hr Hd.
  rewrite !requireSafeIntegerInput_int by (apply safeZ_spec; lia).
  apply performs_lift. apply performs_submit; split; cbn; [lia|].
  exists data. repeat split; auto.
Qed.

Lemma performs_weaken {A} (m : M (world S) A) b b' (P Q : A -> Prop) :
  performs m b b' P -> (forall a, P a -> Q a) -> performs m b b' Q.
Proof. intros Hm HPQ w Hb. destruct (Hm w Hb) as [Hs Hl].
  split; [|done]. intros w' r E. destruct (Hs w' r E). auto. Qed.

Lemma performs_operation b op ws :
  valid_op b op -> performs (runOperation ws op) b (apply_op b op) (fun r => r <> 0).
Proof.
  unfold valid_op, runOperation, apply_op. intros [Hs Ho].
  destruct (op_type op).
  - destruct Ho as (n & -> & Hn & Hr). by apply performs_del.
  - destruct Ho as (d & -> & Hd & Hr). by apply performs_insert.
  - destruct Ho as (d & -> & Hd & Hr). by apply performs_overwrite.
Qed.

Lemma performs_operations ops ws : forall b r0,
  valid_ops b ops ->
  performs (for_each (runOperation ws) ops r0) b (apply_ops ops b)
    (fun r => if ops is [] then r = r0 else r <> 0).
Proof.
  induction ops as [|op ops IH]; intros b r0 Hv; cbn [for_each].
  { by apply performs_ret. }
  destruct Hv as [Hv Hvs]. eapply performs_bind; [by apply performs_operation|].
  intros r Hr. eapply performs_weaken; [by apply IH|].
  intros a. destruct ops; [by intros ->|done].
Qed.

Lemma performs_edit pre post original edited ws :
  Z.of_nat (length pre + Nat.max (length original) (length edited)) <= MAX_SAFE_INTEGER ->
  performs (edit (NInt (Z.of_nat (length pre))) original edited ws)
    (pre ++ original ++ post) (pre ++ edited ++ post)
    (fun r => original <> edited -> r <> 0).
Proof.
  intros Hmax.
  destruct (editOperations_carries pre post original edited Hmax) as (ops & E & Hv & Ha).
  unfold edit. rewrite E. apply performs_lift.
  assert (Hops : performs (for_each (runOperation ws) ops 0) (pre ++ original ++ post)
    (pre ++ edited ++ post) (fun r => original <> edited -> r <> 0)).
  { rewrite <- Ha. eapply performs_weaken; [by apply performs_operations|].
    intros r. destruct ops as [|op ops]; [|done]. cbn in Ha.
    intros _ Hne. destruct Hne. by simplify_list_eq. }
  destruct (1 <? length ops)%nat; [by apply performs_batch|done].
Qed.

Lemma performs_replace pre post removed inserted ws t :
  Z.of_nat (length pre + length removed) <= MAX_SAFE_INTEGER ->
  (removed <> [] \/ inserted <> []) ->
  performs (replaceInternal (NInt (Z.of_nat (length pre)))
      (NInt (Z.of_nat (length removed))) inserted ws t)
    (pre ++ removed ++ post) (pre ++ inserted ++ post) (fun r => r <> 0).
Proof.
  intros Hmax Hne. unfold replaceInternal.
  rewrite !requireSafeIntegerInput_int by (apply safeZ_spec; lia).
  do 2 apply performs_lift.
  pose proof (apply_delete_at pre post [] removed [] (Z.of_nat (length pre))
    (Z.of_nat (length removed)) ltac:(cbn; lia) eq_refl) as Edel.
  pose proof (apply_insert_at pre post [] [] inserted (Z.of_nat (length pre))
    ltac:(cbn; lia)) as Eins.
  cbn [app] in Edel, Eins. rewrite !app_nil_r in Edel. rewrite app_nil_r in Eins.
  assert (Hins : inserted <> [] -> performs (insert (NInt (Z.of_nat (length pre))) inserted ws)
    (pre ++ post) (pre ++ inserted ++ post) (fun r => r <> 0)).
  { intros Hi. rewrite <- Eins.
    apply performs_insert; [lia|rewrite length_app; lia|done]. }
  assert (Hdel : removed <> [] -> performs (del (NInt (Z.of_nat (length pre)))
      (NInt (Z.of_nat (length removed))) ws)
    (pre ++ removed ++ post) (pre ++ post) (fun r => r <> 0)).
  { intros Hi. rewrite <- Edel. destruct removed; [done|].
    apply performs_del; [lia|cbn in *; lia|rewrite !length_app; lia]. }
  destruct (Z.eqb_spec (Z.of_nat (length removed)) 0) as [E0|E0].
  { assert (removed = []) as -> by (apply nil_length_inv; lia). apply Hins. tauto. }
  assert (removed <> []) as Hr by by intros ->.
  destruct (Nat.eqb_spec (length inserted) 0) as [E1|E1].
  { apply nil_length_inv in E1. subst. by apply Hdel. }
  assert (inserted <> []) as Hi by by intros ->.
  destruct (Z.eqb_spec (Z.of_nat (length inserted)) (Z.of_nat (length removed))) as [E2|E2].
  { pose proof (apply_overwrite_at pre post [] removed inserted [] (Z.of_nat (length pre))
      ltac:(cbn; lia) ltac:(lia)) as Eov.
    cbn [app] in Eov. rewrite !app_nil_r in Eov. rewrite <- Eov.
    apply performs_overwrite; [lia|rewrite !length_app; lia|done]. }
  assert (Hseq : performs (del (NInt (Z.of_nat (length pre)))
      (NInt (Z.of_nat (length removed))) ws ;;;
      insert (NInt (Z.of_nat (length pre))) inserted ws)
    (pre ++ removed ++ post) (pre ++ inserted ++ post) (fun r => r <> 0)).
  { eapply performs_bind; [by apply Hdel|]. intros _ _. by apply Hins. }
  destruct t; [by apply performs_transaction|done].
Qed.
End Runs.
#[export] Hint Resolve performs_del performs_insert performs_overwrite
  performs_transaction performs_batch : omega.

(** ** A server that keeps its bytes in a list

    It refuses the changes its fault plan marks, hands out positive serials
    and counts open transactions and viewport pauses. *)
Module BufferServer.

Record t := mk {
  buf : bytes;
  last_serial : Z;
  open_transactions : Z;
  viewport_pauses : Z;
  faults : list bool
}.

Definition in_range_b (rq : SubmitChangeRequest) (b : bytes) : bool :=
  let size := Z.of_nat (length b) in
  (0 <=? rq_offset rq) &&
  match rq_kind rq with
  | CHANGE_DELETE => (0 <? rq_length rq) && (rq_offset rq + rq_length rq <=? size)
  | CHANGE_INSERT => (rq_offset rq <=? size)
      && negb (length (default [] (rq_data rq)) =? 0)%nat
  | CHANGE_OVERWRITE =>
      (rq_offset rq + Z.of_nat (length (default [] (rq_data rq))) <=? size)
      && negb (length (default [] (rq_data rq)) =? 0)%nat
  | CHANGE_UNSPECIFIED | CHANGE_TRANSFORM => false
  end.

Definition next_serial (n : Z) : Z := if n <? MAX_SAFE_INTEGER then n + 1 else 1.

Definition submit (rq : SubmitChangeRequest) (s : t) : t * rpc_outcome Z :=
  let fault := if faults s is f :: _ then f else false in
  let rest := tail (faults s) in
  if fault || negb (in_range_b rq (buf s)) then
    (mk (buf s) (last_serial s) (open_transactions s) (viewport_pauses s) rest, RpcReply 0)
  else
    let serial := next_serial (last_serial s) in
    (mk (apply_request rq (buf s)) serial (open_transactions s) (viewport_pauses s) rest,
     RpcReply serial).

Definition bracket (b : bracket_call) (s : t) : t * result unit :=
  let dt := match b with
    BeginSessionTransaction => 1 | EndSessionTransaction => -1 | _ => 0 end in
  let dp := match b with
    PauseViewportEvents => 1 | ResumeViewportEvents => -1 | _ => 0 end in
  (mk (buf s) (last_serial s) (open_transactions s + dt) (viewport_pauses s + dp) (faults s),
   Ok tt).

#[global] Instance backend : EditBackend t := {
  content := buf;
  rpc_submitChange := submit;
  rpc_undo s := (s, RpcEmpty);
  rpc_redo s := (s, RpcEmpty);
  rpc_clear s := (s, RpcEmpty);
  rpc_bracket := bracket
}.

Definition healthy (s : t) : Prop :=
  Forall (fun f => f = false) (faults s) /\ 0 <= last_serial s <= MAX_SAFE_INTEGER.

Lemma in_range_b_spec rq b : request_in_range rq b -> in_range_b rq b = true.
Proof.
  unfold request_in_range, in_range_b. intros [H0 Hr].
  destruct (rq_kind rq); try done; rewrite (proj2 (Z.leb_le _ _) H0); cbn.
  - destruct Hr. apply andb_true_iff. rewrite Z.ltb_lt, Z.leb_le. lia.
  - destruct Hr as (d & -> & Hd & _ & Hr). cbn. rewrite (proj2 (Z.leb_le _ _) Hr).
    destruct d; done.
  - destruct Hr as (d & -> & Hd & _ & Hr). cbn. rewrite (proj2 (Z.leb_le _ _) Hr).
    destruct d; done.
Qed.

#[global] Instance backend_laws : EditBackendLaws t.
Proof.
  refine {| alive := healthy |}.
  - intros rq s s' serial Hr. cbn. unfold submit.
    destruct (_ || _); intros [= <- <-] Hne; done.
  - intros rq s [Hf Hs] Hr. cbn. unfold submit. rewrite in_range_b_spec by done.
    assert (Hser : 0 < next_serial (last_serial s) <= MAX_SAFE_INTEGER).
    { unfold next_serial. destruct (Z.ltb_spec (last_serial s) MAX_SAFE_INTEGER); [lia|].
      unfold MAX_SAFE_INTEGER. lia. }
    destruct (faults s) as [|f fs]; cbn.
    + do 2 eexists; split; [done|]. split; [|done]. split; cbn; [done|lia].
    + apply Forall_cons in Hf as [-> Hf]. cbn.
      do 2 eexists; split; [done|]. split; [|done]. split; cbn; [done|lia].
  - done.
  - intros b s [Hf Hs]. cbn. eexists; split; [done|]. done.
Defined.

Definition init (b : bytes) (plan : list bool) : world t :=
  mkWorld (mk b 0 0 0 plan) new_stats.

End BufferServer.

Lemma performs_editSimple {S} `{EditBackendLaws S} pre post original edited ws t :
  Z.of_nat (length pre + length original) <= MAX_SAFE_INTEGER ->
  performs (S := S) (editSimple (NInt (Z.of_nat (length pre))) original edited ws t)
    (pre ++ original ++ post) (pre ++ edited ++ post) (fun r => original <> edited -> r <> 0).
Proof.
  intros Hmax.
  destruct (editOptimizer_plan pre post original edited Hmax) as (plan & E & Hp).
  unfold editSimple. rewrite E. apply performs_lift. destruct plan as [rs|].
  2:{ cbn in Hp. subst. by apply performs_ret. }
  destruct Hp as [Hne (c & rm & ins & rest & Ho & He & -> & Htr & _)].
  cbn [length Nat.ltb Nat.leb]. rewrite andb_false_r. cbn [for_each].
  eapply performs_bind; [|intros a Ha; apply performs_ret; exact (fun _ => Ha)].
  rewrite Ho, He. cbn [r_offset remove_bytes_count replacement].
  rewrite <- length_app.
  replace (pre ++ (c ++ rm ++ rest) ++ post) with ((pre ++ c) ++ rm ++ rest ++ post)
    by by rewrite <- !app_assoc.
  replace (pre ++ (c ++ ins ++ rest) ++ post) with ((pre ++ c) ++ ins ++ rest ++ post)
    by by rewrite <- !app_assoc.
  apply performs_replace.
  - rewrite Ho, !length_app in Hmax. rewrite length_app. lia.
  - destruct rm; [|by left]. right. intros ->. by subst.
Qed.

(** ** Theorems *)

(** C14 [edit] on a session that holds the original segment at the
    offset: every run that returns has replaced exactly that segment by the
    edited one, and returned a non-zero serial if anything changed; and when
    the server answers, the run does return. *)
Theorem edit_correct {S} `{EditBackendLaws S} (w : world S) pre post original edited ws :
  Z.of_nat (length pre + Nat.max (length original) (length edited)) <= MAX_SAFE_INTEGER ->
  content (server w) = pre ++ original ++ post ->
  (forall w' r, edit (NInt (Z.of_nat (length pre))) original edited ws w = (w', Ok r) ->
     content (server w') = pre ++ edited ++ post /\ (original <> edited -> r <> 0)) /\
  (alive (server w) -> exists w' r,
     edit (NInt (Z.of_nat (length pre))) original edited ws w = (w', Ok r) /\
     alive (server w')).
Proof. intros Hmax Hc. by apply performs_edit. Qed.

Lemma edit_correct_witness :
  exists w' r,
    edit (NInt 1) [97; 98; 99] [97; 120; 99; 100] true
      (BufferServer.init [0; 97; 98; 99; 0] []) = (w', Ok r) /\
    content (server w') = [0; 97; 120; 99; 100; 0].
Proof.
  destruct (edit_correct (BufferServer.init [0; 97; 98; 99; 0] []) [0] [0]
    [97; 98; 99] [97; 120; 99; 100] true) as [Hs Hl];
    [vm_compute; discriminate|reflexivity|].
  destruct Hl as (w' & r & E & _).
  { split; cbn; [constructor|]. unfold MAX_SAFE_INTEGER. lia. }
  exists w', r. split; [exact E|]. exact (proj1 (Hs w' r E)).
Defined.

(** [editSimple] likewise, whether or not the replacement runs
    in a transaction. *)
Theorem editSimple_correct {S} `{EditBackendLaws S} (w : world S) pre post original edited ws t :
  Z.of_nat (length pre + length original) <= MAX_SAFE_INTEGER ->
  content (server w) = pre ++ original ++ post ->
  (forall w' r, editSimple (NInt (Z.of_nat (length pre))) original edited ws t w = (w', Ok r) ->
     content (server w') = pre ++ edited ++ post /\ (original <> edited -> r <> 0)) /\
  (alive (server w) -> exists w' r,
     editSimple (NInt (Z.of_nat (length pre))) original edited ws t w = (w', Ok r) /\
     alive (server w')).
Proof. intros Hmax Hc. by apply performs_editSimple. Qed.

Lemma editSimple_correct_witness :
  exists w' r,
    editSimple (NInt 0) [1; 2; 3] [1; 9; 9; 3] true true
      (BufferServer.init [1; 2; 3; 4] []) = (w', Ok r) /\
    content (server w') = [1; 9; 9; 3; 4].
Proof.
  destruct (editSimple_correct (BufferServer.init [1; 2; 3; 4] []) [] [4]
    [1; 2; 3] [1; 9; 9; 3] true true) as [Hs Hl];
    [vm_compute; discriminate|reflexivity|].
  destruct Hl as (w' & r & E & _).
  { split; cbn; [constructor|]. unfold MAX_SAFE_INTEGER. lia. }
  exists w', r. split; [exact E|]. exact (proj1 (Hs w' r E)).
Defined.

(** One RPC, one count: the four calls that keep statistics. *)
Definition counts_once {S A} (m : M (world S) A) : Prop := forall w,
  let '(w', r) := m w in
  stats_total (stats w') = stats_total (stats w) + 1 /\
  error_count (stats w') = error_count (stats w) + (if is_ok r then 0 else 1).

Lemma total_error s : stats_total (count_error s) = stats_total s + 1.
Proof. unfold stats_total, count_error; cbn. lia. Qed.

Lemma total_key k s : stats_total (count_key k s) = stats_total s + 1.
Proof. unfold stats_total, count_key; cbn. destruct k; lia. Qed.

#[export] Hint Rewrite total_error total_key : omega.

Lemma serial_callback_counts {S} (rpc : S -> S * rpc_outcome Z) fn key :
  counts_once (let* outcome := call rpc in serial_callback fn key true outcome).
Proof.
  intros w. unfold bindM, call. destruct (rpc (server w)) as [s' [| |serial]]; cbn.
  - autorewrite with omega; lia.
  - autorewrite with omega; lia.
  - destruct (serial =? 0); cbn; autorewrite with omega; lia.
Qed.

(** Every change, undo, redo and clear call made with a statistics
    object increases exactly one of its counters by one, and it is the error
    counter exactly when the call rejects. *)
Theorem calls_count_once {S} `{EditBackend S} :
  (forall rq fn key, counts_once (submitChange (S := S) rq fn key true)) /\
  counts_once (rawUndo (S := S) true) /\
  counts_once (rawRedo (S := S) true) /\
  counts_once (rawClear (S := S) true).
Proof.
  split; [intros; apply serial_callback_counts|].
  split; [apply serial_callback_counts|]. split; [apply serial_callback_counts|].
  intros w. unfold rawClear, bindM, call.
  destruct (rpc_clear (server w)) as [s' [| |id]]; cbn; autorewrite with omega; lia.
Qed.

(** Balance of brackets over runs that may fail part-way. *)
Definition depths (w : world BufferServer.t) : Z * Z :=
  (BufferServer.open_transactions (server w), BufferServer.viewport_pauses (server w)).

Definition balanced {A} (m : M (world BufferServer.t) A) : Prop :=
  forall w, depths (m w).1 = depths w.

Lemma balanced_bind {A B} (m : M (world BufferServer.t) A) (f : A -> M _ B) :
  balanced m -> (forall a, balanced (f a)) -> balanced (bindM m f).
Proof.
  intros Hm Hf w. unfold bindM. specialize (Hm w). destruct (m w) as [w1 [a|e]]; [|done].
  by rewrite Hf.
Qed.

Lemma balanced_lift {A} (r : result A) : balanced (liftM r).
Proof. done. Qed.

Lemma balanced_checked m : balanced m -> balanced (checked m).
Proof. intros H. apply balanced_bind; [done|]. intros. apply balanced_lift. Qed.

Lemma balanced_submit rq fn key ws : balanced (submitChange rq fn key ws).
Proof.
  intros w. unfold submitChange, bindM, call. cbn. unfold BufferServer.submit.
  destruct (_ || _); cbn; [done|].
  destruct (BufferServer.next_serial _ =? 0); done.
Qed.

Lemma balanced_operation ws op : balanced (runOperation ws op).
Proof.
  unfold runOperation, insert, del, overwrite.
  destruct (op_type op); repeat (apply balanced_bind; [apply balanced_lift|intros ?]);
    apply balanced_checked, balanced_submit.
Qed.

Lemma balanced_for_each {A} (body : A -> M (world BufferServer.t) Z) l : forall r0,
  (forall x, balanced (body x)) -> balanced (for_each body l r0).
Proof.
  induction l as [|x l IH]; intros r0 Hb; cbn; [by intros w|].
  apply balanced_bind; auto.
Qed.

Lemma balanced_transaction {A} (m : M (world BufferServer.t) A) :
  balanced m -> balanced (runSessionTransaction m).
Proof.
  intros Hm w. unfold runSessionTransaction, bindM, finallyM, bracket, call. cbn.
  specialize (Hm (mkWorld (BufferServer.bracket BeginSessionTransaction (server w)).1 (stats w))).
  destruct (m _) as [w1 r]. unfold bindM, depths in *. cbn in *.
  injection Hm as H1 H2. f_equal; lia.
Qed.

Lemma balanced_batch {A} (m : M (world BufferServer.t) A) :
  balanced m -> balanced (withViewportBatch m None None).
Proof.
  intros Hm%balanced_transaction w. unfold withViewportBatch. cbn [default].
  set (tx := runSessionTransaction m) in *. clearbody tx.
  unfold bindM, finallyM, bracket, call. cbn.
  specialize (Hm (mkWorld (BufferServer.bracket PauseViewportEvents (server w)).1 (stats w))).
  destruct (tx _) as [w1 r].
  unfold bindM, depths in *. cbn in *. injection Hm as H1 H2. f_equal; lia.
Qed.

(** Whatever the arguments and whichever changes the server
    refuses, [edit] leaves as many transactions open and viewport events
    paused as it found: no failure escapes its brackets. *)
Theorem edit_brackets_balanced offset original edited ws (w : world BufferServer.t) :
  depths (edit offset original edited ws w).1 = depths w.
Proof.
  revert w. change (balanced (edit offset original edited ws)). unfold edit.
  apply balanced_bind; [apply balanced_lift|]. intros ops.
  assert (balanced (for_each (runOperation ws) ops 0))
    by (apply balanced_for_each, balanced_operation).
  destruct (1 <? length ops)%nat; [by apply balanced_batch|done].
Qed.

(** The refused second overwrite: the run throws, the brackets are closed,
    and the first overwrite stays. *)
Example edit_refused :
  let '(w', r) := edit (NInt 0) [1; 2; 3; 4] [9; 2; 9; 4] true
    (BufferServer.init [1; 2; 3; 4] [false; true]) in
  is_ok r = false /\ depths w' = (0, 0) /\ content (server w') = [9; 2; 3; 4].
Proof. vm_compute. auto. Qed.
