(* ===== verification/History.v ===== *)
(** * Undo/redo history ([packages/client/src/editor_history.ts])

    [EditorHistoryController]: the transaction and change logs, saved depth
    and checkpoint milestones of one editor, with undo and redo carried out
    by an executor that may fail.  The abstract specification is a
    [timeline]: the transactions made so far and the undone ones, each with
    the changes it recorded; [represents] relates the controller's five
    arrays to it, and the refinement theorem says every operation does on
    the arrays what its one-line specification does on the timeline. *)

From S2P Require Import Prelude JsText.

Open Scope jsm_scope.

(** ** Data *)

Inductive EditorChangeRecordKind := RINSERT | RDELETE | ROVERWRITE | RREPLACE | RTRANSFORM.

Record EditorChangeRecord := mkChange {
  c_serial : Z;
  c_kind : EditorChangeRecordKind;
  c_offset : Z;
  c_length : Z;
  c_data : jsstring;
  c_groupId : option jsstring
}.

Record CheckpointReplaceAll := mkCheckpoint {
  k_query : jsstring;
  k_isHex : bool;
  k_caseFolding : Z;
  k_data : jsstring
}.

Inductive EditorTransactionRecord :=
  | LOCAL (changeCount : Z)
  | LOCAL_UNTRACKED
  | CHECKPOINT_REPLACE_ALL (transaction : CheckpointReplaceAll).

Record EditorEditState := mkEditState {
  canUndo : bool;
  canRedo : bool;
  undoCount : Z;
  redoCount : Z;
  isDirty : bool;
  es_savedChangeDepth : Z
}.

Record EditorHistorySnapshot := mkSnapshot {
  s_version : number;
  s_savedChangeDepth : number;
  s_changeLog : list EditorChangeRecord;
  s_undoneChangeLog : list EditorChangeRecord;
  s_transactionLog : list EditorTransactionRecord;
  s_undoneTransactionLog : list EditorTransactionRecord;
  s_nextSyntheticGroupId : number;
  s_milestoneDepths : list number
}.

(** The private fields of [EditorHistoryController]. *)
Record history := mkHistory {
  savedChangeDepth : Z;
  changeLog : list EditorChangeRecord;
  undoneChangeLog : list EditorChangeRecord;
  transactionLog : list EditorTransactionRecord;
  undoneTransactionLog : list EditorTransactionRecord;
  nextSyntheticGroupId : Z;
  milestoneDepths : list Z
}.

Definition new_history : history := mkHistory 0 [] [] [] [] 1 [].

(** [array.length] *)
Definition len {A} (l : list A) : Z := Z.of_nat (length l).

(** [array.includes] on numbers *)
Definition includes (l : list Z) (x : Z) : bool := existsb (Z.eqb x) l.

(** The two arrays after [moveLastChanges(source, target, count)]. *)
Definition moveLastChanges (source target : list EditorChangeRecord) (count : Z)
  : list EditorChangeRecord * list EditorChangeRecord :=
  if (len source =? 0) || (count <=? 0) then (source, target)
  else
    let startIndex := Z.max 0 (len source - count) in
    let '(removed, kept) := splice_tail (Z.to_nat startIndex) source in
    (kept, target ++ removed).

(** ** Queries *)

Definition getEditState (h : history) : EditorEditState :=
  let undoCount := len (transactionLog h) in
  let redoCount := len (undoneTransactionLog h) in
  mkEditState (0 <? undoCount) (0 <? redoCount) undoCount redoCount
    (negb (undoCount =? savedChangeDepth h)) (savedChangeDepth h).

Definition getChangeLog (h : history) : list EditorChangeRecord := changeLog h.

Definition willUndoCrossMilestone (h : history) : bool :=
  includes (milestoneDepths h) (len (transactionLog h)).

Definition willRedoCrossMilestone (h : history) : bool :=
  includes (milestoneDepths h) (len (transactionLog h) + 1).

Definition snapshot (h : history) : EditorHistorySnapshot :=
  mkSnapshot (NInt 1) (NInt (savedChangeDepth h)) (changeLog h) (undoneChangeLog h)
    (transactionLog h) (undoneTransactionLog h) (NInt (nextSyntheticGroupId h))
    (map NInt (milestoneDepths h)).

(** ** Recording *)

Definition discardRedoBranch (h : history) : history :=
  let branchDepth := len (transactionLog h) in
  mkHistory (Z.min (savedChangeDepth h) branchDepth) (changeLog h) [] (transactionLog h) []
    (nextSyntheticGroupId h)
    (* the downward splice loop removes the depths above the branch *)
    (List.filter (fun d => negb (branchDepth <? d)) (milestoneDepths h)).

Definition push_transaction (tx : EditorTransactionRecord) (h : history) : history :=
  mkHistory (savedChangeDepth h) (changeLog h) (undoneChangeLog h)
    (transactionLog h ++ [tx]) (undoneTransactionLog h) (nextSyntheticGroupId h)
    (milestoneDepths h).

Definition push_changes (cs : list EditorChangeRecord) (h : history) : history :=
  mkHistory (savedChangeDepth h) (changeLog h ++ cs) (undoneChangeLog h)
    (transactionLog h) (undoneTransactionLog h) (nextSyntheticGroupId h)
    (milestoneDepths h).

Definition recordMilestone (h : history) : history :=
  let depth := len (transactionLog h) in
  if (0 <? depth) && negb (bool_decide (at_last (milestoneDepths h) = Some depth)) then
    mkHistory (savedChangeDepth h) (changeLog h) (undoneChangeLog h) (transactionLog h)
      (undoneTransactionLog h) (nextSyntheticGroupId h) (milestoneDepths h ++ [depth])
  else h.

Definition recordLocalMutation (h : history) : history :=
  push_transaction LOCAL_UNTRACKED (discardRedoBranch h).

Definition recordLocalChanges (changes : list EditorChangeRecord) (h : history) : history :=
  if len changes =? 0 then h
  else push_transaction (LOCAL (len changes)) (push_changes changes (discardRedoBranch h)).

Definition recordLocalChange (change : EditorChangeRecord) (h : history) : history :=
  recordLocalChanges [change] h.

Definition replaceAllRecords (offsets : list Z) (length : Z) (data groupId : jsstring)
  : list EditorChangeRecord :=
  imap (fun index offset =>
    mkChange (Z.of_nat index + 1) RREPLACE offset length data (Some groupId)) offsets.

Definition recordLocalReplaceAll (offsets : list Z) (length : Z) (data : jsstring)
    (h : history) : history :=
  if len offsets =? 0 then h
  else
    let groupId := js "replace-all-" ++ decimal_string (nextSyntheticGroupId h) in
    let h := mkHistory (savedChangeDepth h) (changeLog h) (undoneChangeLog h)
      (transactionLog h) (undoneTransactionLog h) (nextSyntheticGroupId h + 1)
      (milestoneDepths h) in
    recordLocalChanges (replaceAllRecords offsets length data groupId) h.

Definition recordCheckpointReplaceAll (transaction : CheckpointReplaceAll) (h : history)
  : history :=
  push_transaction (CHECKPOINT_REPLACE_ALL transaction) (discardRedoBranch h).

Definition markSaved (h : history) : history :=
  mkHistory (len (transactionLog h)) (changeLog h) (undoneChangeLog h) (transactionLog h)
    (undoneTransactionLog h) (nextSyntheticGroupId h) (milestoneDepths h).

(** ** Undo and redo

    The executor talks to the session; [E] is the state it acts on. *)
Record EditorHistoryExecutor (E : Type) := mkExecutor {
  undoLocal : M E unit;
  redoLocal : M E unit;
  undoCheckpoint : CheckpointReplaceAll -> M E unit;
  redoCheckpoint : CheckpointReplaceAll -> M E unit;
  undoMilestone : option (M E unit);
  redoMilestone : option (M E unit)
}.
Arguments undoLocal {E} _.
Arguments redoLocal {E} _.
Arguments undoCheckpoint {E} _.
Arguments redoCheckpoint {E} _.
Arguments undoMilestone {E} _.
Arguments redoMilestone {E} _.

Section UndoRedo.
Context {E : Type} (executor : EditorHistoryExecutor E).

Definition on_executor {A} (m : M E A) : M (history * E) A := fun '(h, e) =>
  let '(e', r) := m e in ((h, e'), r).

Definition milestone_error : exn :=
  plain_error "History executor cannot cross a checkpoint milestone".

Definition cross (m : option (M E unit)) : M (history * E) unit :=
  match m with
  | None => throwM milestone_error
  | Some m => on_executor m
  end.

Definition move_undone (count : Z) (h : history) : history :=
  let '(src, tgt) := moveLastChanges (changeLog h) (undoneChangeLog h) count in
  mkHistory (savedChangeDepth h) src tgt (transactionLog h) (undoneTransactionLog h)
    (nextSyntheticGroupId h) (milestoneDepths h).

Definition move_redone (count : Z) (h : history) : history :=
  let '(src, tgt) := moveLastChanges (undoneChangeLog h) (changeLog h) count in
  mkHistory (savedChangeDepth h) tgt src (transactionLog h) (undoneTransactionLog h)
    (nextSyntheticGroupId h) (milestoneDepths h).

(** [transactionLog.pop()] pushed on [undoneTransactionLog], and back. *)
Definition shift_undo (h : history) : history :=
  match last (transactionLog h) with
  | None => h
  | Some tx => mkHistory (savedChangeDepth h) (changeLog h) (undoneChangeLog h)
      (take (length (transactionLog h) - 1) (transactionLog h))
      (undoneTransactionLog h ++ [tx]) (nextSyntheticGroupId h) (milestoneDepths h)
  end.

Definition shift_redo (h : history) : history :=
  match last (undoneTransactionLog h) with
  | None => h
  | Some tx => mkHistory (savedChangeDepth h) (changeLog h) (undoneChangeLog h)
      (transactionLog h ++ [tx])
      (take (length (undoneTransactionLog h) - 1) (undoneTransactionLog h))
      (nextSyntheticGroupId h) (milestoneDepths h)
  end.

Definition on_history (f : history -> history) : M (history * E) unit :=
  putM (fun '(h, e) => (f h, e)).

Definition undo : M (history * E) bool :=
  let* log := getM (fun st => transactionLog st.1) in
  match last log with
  | None => retM false
  | Some transaction =>
      let* crossesMilestone := getM (fun st => willUndoCrossMilestone st.1) in
      (if crossesMilestone then cross (undoMilestone executor) else retM tt) ;;;
      match transaction with
      | LOCAL changeCount =>
          on_executor (undoLocal executor) ;;; on_history (move_undone changeCount)
      | LOCAL_UNTRACKED => on_executor (undoLocal executor)
      | CHECKPOINT_REPLACE_ALL c => on_executor (undoCheckpoint executor c)
      end ;;;
      on_history shift_undo ;;;
      retM true
  end.

Definition redo : M (history * E) bool :=
  let* log := getM (fun st => undoneTransactionLog st.1) in
  match last log with
  | None => retM false
  | Some transaction =>
      match transaction with
      | LOCAL changeCount =>
          on_executor (redoLocal executor) ;;; on_history (move_redone changeCount)
      | LOCAL_UNTRACKED => on_executor (redoLocal executor)
      | CHECKPOINT_REPLACE_ALL c => on_executor (redoCheckpoint executor c)
      end ;;;
      on_history shift_redo ;;;
      let* crossesMilestone := getM (fun st => willUndoCrossMilestone st.1) in
      (if crossesMilestone then cross (redoMilestone executor) else retM tt) ;;;
      retM true
  end.
End UndoRedo.

(** ** Snapshots *)

Definition invalid_snapshot : exn := Exn "TypeError" "Invalid editor history snapshot".

Definition safe_in (lo hi : Z) (n : number) : bool :=
  match n with NInt z => safeZ z && (lo <=? z) && (z <=? hi) | _ => false end.

#[global] Arguments safe_in : simpl never.

(** The arrays of the record type are arrays; the milestones out of range
    are dropped from the snapshot itself. *)
Definition validateHistorySnapshot (s : EditorHistorySnapshot)
  : result EditorHistorySnapshot :=
  let totalDepth := len (s_transactionLog s) + len (s_undoneTransactionLog s) in
  if negb (match s_version s with NInt v => v =? 1 | _ => false end)
     || negb (safe_in 0 MAX_SAFE_INTEGER (s_savedChangeDepth s))
     || negb (safe_in 1 MAX_SAFE_INTEGER (s_nextSyntheticGroupId s))
     || negb (safe_in 0 totalDepth (s_savedChangeDepth s))
  then Throw invalid_snapshot
  else Ok (mkSnapshot (s_version s) (s_savedChangeDepth s) (s_changeLog s)
    (s_undoneChangeLog s) (s_transactionLog s) (s_undoneTransactionLog s)
    (s_nextSyntheticGroupId s)
    (List.filter (safe_in 0 totalDepth) (s_milestoneDepths s))).

(** A number already known to be an integer. *)
Definition int_value (n : number) : Z := match n with NInt z => z | _ => 0 end.

Definition fromSnapshot (s : EditorHistorySnapshot) : result history :=
  s ← validateHistorySnapshot s;
  Ok (mkHistory (int_value (s_savedChangeDepth s)) (s_changeLog s) (s_undoneChangeLog s)
    (s_transactionLog s) (s_undoneTransactionLog s)
    (int_value (s_nextSyntheticGroupId s)) (map int_value (s_milestoneDepths s))).

(** One iteration of each loop of [fromSnapshotAtDepth]. *)
Definition step_back (h : history) : history :=
  match last (transactionLog h) with
  | Some (LOCAL changeCount) => shift_undo (move_undone changeCount h)
  | _ => shift_undo h
  end.

Definition step_forward (h : history) : history :=
  match last (undoneTransactionLog h) with
  | Some (LOCAL changeCount) => shift_redo (move_redone changeCount h)
  | _ => shift_redo h
  end.

Fixpoint back_to (fuel : nat) (depth : Z) (h : history) : history :=
  match fuel with
  | O => h
  | S fuel => if depth <? len (transactionLog h) then back_to fuel depth (step_back h) else h
  end.

Fixpoint forward_to (fuel : nat) (depth : Z) (h : history) : history :=
  match fuel with
  | O => h
  | S fuel =>
      if len (transactionLog h) <? depth then forward_to fuel depth (step_forward h) else h
  end.

Definition fromSnapshotAtDepth (s : EditorHistorySnapshot) (transactionDepth : number)
  : result history :=
  h ← fromSnapshot s;
  let totalDepth := len (transactionLog h) + len (undoneTransactionLog h) in
  if safe_in 0 totalDepth transactionDepth then
    let d := int_value transactionDepth in
    let h := back_to (length (transactionLog h)) d h in
    Ok (forward_to (length (undoneTransactionLog h)) d h)
  else Throw (Exn "RangeError" "Editor history depth is outside the timeline").

(** ** Reconciliation with the native session *)

Definition is_checkpoint (tx : EditorTransactionRecord) : bool :=
  match tx with CHECKPOINT_REPLACE_ALL _ => true | _ => false end.

Definition native_backed (l : list EditorTransactionRecord) : Z :=
  len (List.filter (fun tx => negb (is_checkpoint tx)) l).

Definition reconcileNativeTransactionCounts (active undone : number)
    (currentStateIsSaved : bool) (h : history) : history * result bool :=
  if negb (safe_in 0 MAX_SAFE_INTEGER active) || negb (safe_in 0 MAX_SAFE_INTEGER undone) then
    (h, Throw (Exn "RangeError" "Native transaction counts must be non-negative safe integers"))
  else
    let a := int_value active in
    let u := int_value undone in
    let hasCheckpointReplaceAll :=
      existsb is_checkpoint (transactionLog h) || existsb is_checkpoint (undoneTransactionLog h) in
    if (native_backed (transactionLog h) =? a) && (native_backed (undoneTransactionLog h) =? u)
    then (h, Ok false)
    else if hasCheckpointReplaceAll then (h, Ok false)
    else (mkHistory (if currentStateIsSaved then a else 0) [] []
            (replicate (Z.to_nat a) LOCAL_UNTRACKED) (replicate (Z.to_nat u) LOCAL_UNTRACKED)
            (nextSyntheticGroupId h) [],
          Ok true).

(** ** The timeline specification *)

Record entry := mkEntry { e_tx : EditorTransactionRecord; e_changes : list EditorChangeRecord }.

Definition entry_ok (e : entry) : Prop :=
  match e_tx e with
  | LOCAL n => n = len (e_changes e) /\ 0 < n
  | _ => e_changes e = []
  end.

Definition untracked : entry := mkEntry LOCAL_UNTRACKED [].

(** [past] oldest first; [future] with the next transaction to redo first. *)
Record timeline := mkTimeline { past : list entry; future : list entry }.

Record represents (h : history) (t : timeline) : Prop := mkRep {
  rep_log : transactionLog h = map e_tx (past t);
  rep_undone : undoneTransactionLog h = rev (map e_tx (future t));
  rep_changes : changeLog h = concat (map e_changes (past t));
  rep_undone_changes : undoneChangeLog h = concat (rev (map e_changes (future t)));
  rep_past_ok : Forall entry_ok (past t);
  rep_future_ok : Forall entry_ok (future t)
}.

Module Course.

(** The operations of the controller, one for each method that changes it. *)
Inductive operation :=
  | Milestone
  | Mutation
  | Changes (changes : list EditorChangeRecord)
  | ReplaceAll (offsets : list Z) (length : Z) (data : jsstring)
  | CheckpointAll (transaction : CheckpointReplaceAll)
  | Saved
  | Undo
  | Redo
  | Reconcile (active undone : number) (currentStateIsSaved : bool).

(** What a method does to the controller and the executor's state and what
    it returns, [None] for a method without a result. *)
Definition perform {E} (ex : EditorHistoryExecutor E) (op : operation)
  : M (history * E) (option bool) :=
  match op with
  | Milestone => on_history recordMilestone ;;; retM None
  | Mutation => on_history recordLocalMutation ;;; retM None
  | Changes changes => on_history (recordLocalChanges changes) ;;; retM None
  | ReplaceAll offsets length data => on_history (recordLocalReplaceAll offsets length data) ;;; retM None
  | CheckpointAll transaction => on_history (recordCheckpointReplaceAll transaction) ;;; retM None
  | Saved => on_history markSaved ;;; retM None
  | Undo => let* done := undo ex in retM (Some done)
  | Redo => let* done := redo ex in retM (Some done)
  | Reconcile active undone saved => fun '(h, e) =>
      let '(h, r) := reconcileNativeTransactionCounts active undone saved h in ((h, e), Some <$> r)
  end.

(** The specification's state: the timeline, the depth that is saved, the
    depths of the checkpoints and the number of the next group. *)
Record course := mkCourse {
  c_timeline : timeline;
  c_saved : Z;
  c_marks : list Z;
  c_groups : Z
}.

Definition depth (c : course) : Z := len (past (c_timeline c)).

Definition with_timeline (t : timeline) (c : course) : course :=
  mkCourse t (c_saved c) (c_marks c) (c_groups c).

(** An entry is added where the cursor is; what was undone is gone, and with
    it the checkpoints and the saved state there. *)
Definition recorded (e : entry) (c : course) : course :=
  mkCourse (mkTimeline (past (c_timeline c) ++ [e]) []) (Z.min (c_saved c) (depth c))
    (List.filter (fun d => d <=? depth c) (c_marks c)) (c_groups c).

(** The changes of one replacement of all matches: numbered from one, in one
    group. *)
Definition replaced_group (offsets : list Z) (length : Z) (data : jsstring) (number : Z) : list EditorChangeRecord :=
  zip_with (fun serial offset =>
      mkChange serial RREPLACE offset length data (Some (js "replace-all-" ++ decimal_string number)))
    (seqZ 1 (len offsets)) offsets.

Section Specification.
Context {E : Type} (ex : EditorHistoryExecutor E).

Definition milestone_call (call : option (M E unit)) : M E unit :=
  match call with None => throwM milestone_error | Some call => call end.

(** The calls that undo and redo one transaction. *)
Definition undo_call (tx : EditorTransactionRecord) : M E unit :=
  match tx with CHECKPOINT_REPLACE_ALL c => undoCheckpoint ex c | _ => undoLocal ex end.
Definition redo_call (tx : EditorTransactionRecord) : M E unit :=
  match tx with CHECKPOINT_REPLACE_ALL c => redoCheckpoint ex c | _ => redoLocal ex end.

Definition marked (d : Z) (c : course) : bool := bool_decide (d ∈ c_marks c).

(** The number of entries the native session has a transaction for. *)
Definition native (l : list entry) : Z := len (List.filter (fun e => negb (is_checkpoint (e_tx e))) l).

Definition specified (op : operation) : M (course * E) (option bool) := fun '(c, e) =>
  let t := c_timeline c in
  match op with
  | Milestone =>
      let new := (0 <? depth c) && negb (bool_decide (last (c_marks c) = Some (depth c))) in
      ((mkCourse t (c_saved c) (if new then c_marks c ++ [depth c] else c_marks c) (c_groups c), e), Ok None)
  | Mutation => ((recorded untracked c, e), Ok None)
  | Changes [] => ((c, e), Ok None)
  | Changes changes => ((recorded (mkEntry (LOCAL (len changes)) changes) c, e), Ok None)
  | ReplaceAll [] _ _ => ((c, e), Ok None)
  | ReplaceAll offsets length data =>
      let c' := recorded (mkEntry (LOCAL (len offsets)) (replaced_group offsets length data (c_groups c))) c in
      ((mkCourse (c_timeline c') (c_saved c') (c_marks c') (c_groups c + 1), e), Ok None)
  | CheckpointAll transaction => ((recorded (mkEntry (CHECKPOINT_REPLACE_ALL transaction) []) c, e), Ok None)
  | Saved => ((mkCourse t (depth c) (c_marks c) (c_groups c), e), Ok None)
  | Undo =>
      match rev (past t) with
      | [] => ((c, e), Ok (Some false))
      | en :: before =>
          let '(e, r) := ((if marked (depth c) c then milestone_call (undoMilestone ex) else retM tt) ;;;
                          undo_call (e_tx en)) e in
          match r with
          | Ok _ => ((with_timeline (mkTimeline (rev before) (en :: future t)) c, e), Ok (Some true))
          | Throw x => ((c, e), Throw x)
          end
      end
  | Redo =>
      match future t with
      | [] => ((c, e), Ok (Some false))
      | en :: after =>
          match redo_call (e_tx en) e with
          | (e, Throw x) => ((c, e), Throw x)
          | (e, Ok _) =>
              let c := with_timeline (mkTimeline (past t ++ [en]) after) c in
              let '(e, r) := (if marked (depth c) c then milestone_call (redoMilestone ex) else retM tt) e in
              ((c, e), (fun _ => Some true) <$> r)
          end
      end
  | Reconcile active undone saved =>
      match active, undone with
      | NInt a, NInt b =>
          if negb ((0 <=? a) && (a <=? MAX_SAFE_INTEGER) && (0 <=? b) && (b <=? MAX_SAFE_INTEGER))
          then ((c, e), Throw (Exn "RangeError" "Native transaction counts must be non-negative safe integers"))
          else if (native (past t) =? a) && (native (future t) =? b) ||
             existsb (fun en => is_checkpoint (e_tx en)) (past t ++ future t)
          then ((c, e), Ok (Some false))
          else ((mkCourse (mkTimeline (replicate (Z.to_nat a) untracked) (replicate (Z.to_nat b) untracked))
                   (if saved then a else 0) [] (c_groups c), e), Ok (Some true))
      | _, _ => ((c, e), Throw (Exn "RangeError" "Native transaction counts must be non-negative safe integers"))
      end
  end.
End Specification.

Record follows (h : history) (c : course) : Prop := mkFollows {
  fo_timeline : represents h (c_timeline c);
  fo_saved : savedChangeDepth h = c_saved c;
  fo_marks : milestoneDepths h = c_marks c;
  fo_groups : nextSyntheticGroupId h = c_groups c
}.
End Course.

(** ** Bounds kept by every operation *)

Definition total_depth (h : history) : Z :=
  len (transactionLog h) + len (undoneTransactionLog h).

Definition bounds_ok (h : history) : Prop :=
  0 <= savedChangeDepth h <= total_depth h /\
  1 <= nextSyntheticGroupId h /\
  Forall (fun d => 0 <= d <= total_depth h) (milestoneDepths h).

(** ** Lemmas *)

Lemma len_app {A} (l k : list A) : len (l ++ k) = len l + len k.
Proof. unfold len. rewrite length_app. lia. Qed.

Lemma len_nonneg {A} (l : list A) : 0 <= len l.
Proof. unfold len. lia. Qed.

Lemma len_map {A B} (f : A -> B) l : len (map f l) = len l.
Proof. unfold len. by rewrite length_map. Qed.

Lemma len_rev {A} (l : list A) : len (rev l) = len l.
Proof. unfold len. by rewrite length_rev. Qed.

Lemma len_zero {A} (l : list A) : (len l =? 0) = true <-> l = [].
Proof. unfold len. rewrite Z.eqb_eq. destruct l; cbn; split; try done; lia. Qed.

#[export] Hint Rewrite @len_app @len_map @len_rev : omega.

Lemma moveLastChanges_app src chunk tgt :
  chunk <> [] -> moveLastChanges (src ++ chunk) tgt (len chunk) = (src, tgt ++ chunk).
Proof.
  intros Hc. unfold moveLastChanges, splice_tail.
  assert (0 < len chunk) by (destruct chunk; [done|unfold len; cbn; lia]).
  pose proof (len_nonneg src). rewrite len_app.
  destruct (Z.eqb_spec (len src + len chunk) 0); [lia|].
  destruct (Z.leb_spec (len chunk) 0); [lia|]. cbn.
  replace (Z.to_nat _) with (length src) by (unfold len in *; lia).
  by rewrite take_app_length, drop_app_length.
Qed.

Lemma take_but_last {A} (l : list A) x : take (length (l ++ [x]) - 1) (l ++ [x]) = l.
Proof.
  rewrite length_app. cbn. replace (length l + 1 - 1)%nat with (length l) by lia.
  apply take_app_length.
Qed.

(** The change logs around one entry: its changes go over as a block,
    whatever the entry's kind. *)
Definition undo_changes (tx : EditorTransactionRecord) (h : history) : history :=
  match tx with LOCAL n => move_undone n h | _ => h end.

Definition redo_changes (tx : EditorTransactionRecord) (h : history) : history :=
  match tx with LOCAL n => move_redone n h | _ => h end.

Lemma moveLastChanges_entry e src tgt n :
  entry_ok e -> e_tx e = LOCAL n ->
  moveLastChanges (src ++ e_changes e) tgt n = (src, tgt ++ e_changes e).
Proof.
  unfold entry_ok. intros He Hn. rewrite Hn in He. destruct He as [-> Hp].
  apply moveLastChanges_app. intros E. by rewrite E in Hp.
Qed.

Lemma undo_changes_entry e h src :
  entry_ok e -> changeLog h = src ++ e_changes e ->
  undo_changes (e_tx e) h = mkHistory (savedChangeDepth h) src
    (undoneChangeLog h ++ e_changes e) (transactionLog h) (undoneTransactionLog h)
    (nextSyntheticGroupId h) (milestoneDepths h).
Proof.
  intros He Hc. unfold undo_changes, move_undone. destruct (e_tx e) as [n| |c] eqn:Ee.
  - by rewrite Hc, (moveLastChanges_entry e).
  - unfold entry_ok in He. rewrite Ee in He. rewrite He, app_nil_r in *. subst. by destruct h.
  - unfold entry_ok in He. rewrite Ee in He. rewrite He, app_nil_r in *. subst. by destruct h.
Qed.

Lemma redo_changes_entry e h src :
  entry_ok e -> undoneChangeLog h = src ++ e_changes e ->
  redo_changes (e_tx e) h = mkHistory (savedChangeDepth h) (changeLog h ++ e_changes e) src
    (transactionLog h) (undoneTransactionLog h) (nextSyntheticGroupId h) (milestoneDepths h).
Proof.
  intros He Hc. unfold redo_changes, move_redone. destruct (e_tx e) as [n| |c] eqn:Ee.
  - by rewrite Hc, (moveLastChanges_entry e).
  - unfold entry_ok in He. rewrite Ee in He. rewrite He, app_nil_r in *. subst. by destruct h.
  - unfold entry_ok in He. rewrite Ee in He. rewrite He, app_nil_r in *. subst. by destruct h.
Qed.

Lemma step_back_last h tx :
  last (transactionLog h) = Some tx -> step_back h = shift_undo (undo_changes tx h).
Proof. intros E. unfold step_back. rewrite E. by destruct tx. Qed.

Lemma step_forward_last h tx :
  last (undoneTransactionLog h) = Some tx -> step_forward h = shift_redo (redo_changes tx h).
Proof. intros E. unfold step_forward. rewrite E. by destruct tx. Qed.

(** What a step back and a step forward do to a represented history, field
    by field. *)
Lemma step_back_fields h p e f :
  represents h (mkTimeline (p ++ [e]) f) ->
  step_back h = mkHistory (savedChangeDepth h) (concat (map e_changes p))
    (concat (rev (map e_changes (e :: f)))) (map e_tx p) (rev (map e_tx (e :: f)))
    (nextSyntheticGroupId h) (milestoneDepths h).
Proof.
  intros [H1 H2 H3 H4 H5 H6]; cbn in *.
  apply Forall_app in H5 as [H5 He]. apply Forall_cons_1 in He as [He _].
  rewrite map_app in H1, H3. rewrite concat_app in H3. cbn in H1, H3.
  rewrite app_nil_r in H3.
  rewrite (step_back_last h (e_tx e)) by by rewrite H1, last_snoc.
  rewrite (undo_changes_entry e h (concat (map e_changes p))) by done.
  unfold shift_undo; cbn. rewrite H1, last_snoc, take_but_last, H2, H4.
  by rewrite concat_app; cbn; rewrite app_nil_r.
Qed.

Lemma step_forward_fields h p e f :
  represents h (mkTimeline p (e :: f)) ->
  step_forward h = mkHistory (savedChangeDepth h) (concat (map e_changes (p ++ [e])))
    (concat (rev (map e_changes f))) (map e_tx (p ++ [e])) (rev (map e_tx f))
    (nextSyntheticGroupId h) (milestoneDepths h).
Proof.
  intros [H1 H2 H3 H4 H5 H6]; cbn in *.
  apply Forall_cons_1 in H6 as [He H6].
  rewrite concat_app in H4. cbn in H4. rewrite app_nil_r in H4.
  rewrite (step_forward_last h (e_tx e)) by by rewrite H2, last_snoc.
  rewrite (redo_changes_entry e h (concat (rev (map e_changes f)))) by done.
  unfold shift_redo; cbn. rewrite H2, last_snoc, take_but_last, H1, H3.
  rewrite !map_app, concat_app. cbn. by rewrite app_nil_r.
Qed.

Lemma represents_back h p e f :
  represents h (mkTimeline (p ++ [e]) f) -> represents (step_back h) (mkTimeline p (e :: f)).
Proof.
  intros H. rewrite (step_back_fields h p e f H). destruct H as [_ _ _ _ H5 H6].
  cbn in H5, H6. apply Forall_app in H5 as [H5 He]. apply Forall_cons_1 in He as [He _].
  constructor; cbn; auto.
Qed.

Lemma represents_forward h p e f :
  represents h (mkTimeline p (e :: f)) -> represents (step_forward h) (mkTimeline (p ++ [e]) f).
Proof.
  intros H. rewrite (step_forward_fields h p e f H). destruct H as [_ _ _ _ H5 H6].
  cbn in H5, H6. apply Forall_cons_1 in H6 as [He H6].
  constructor; cbn; auto. apply Forall_app; auto.
Qed.

(** A step back followed by a step forward is the identity on every field. *)
Lemma step_forward_back h p e f :
  represents h (mkTimeline (p ++ [e]) f) -> step_forward (step_back h) = h.
Proof.
  intros H. rewrite (step_forward_fields _ p e f) by by apply represents_back.
  rewrite (step_back_fields h p e f H). destruct H as [H1 H2 H3 H4 _ _]. cbn in *.
  destruct h; cbn in *. by subst.
Qed.

Lemma undo_outcome {E} (ex : EditorHistoryExecutor E) h e :
  let '((h', _), r) := undo ex (h, e) in
  match r with
  | Ok true => h' = step_back h /\ transactionLog h <> []
  | Ok false => h' = h /\ transactionLog h = []
  | Throw _ => h' = h
  end.
Proof.
  unfold undo, bindM, getM, retM, on_history, on_executor, putM; cbn.
  destruct (last (transactionLog h)) as [tx|] eqn:El.
  2:{ split; [done|]. by apply last_None in El. }
  assert (transactionLog h <> []) as Hne by (intros E0; by rewrite E0 in El).
  assert (Hc : forall e0, let '((h1, _), _) := (if willUndoCrossMilestone h
      then cross (undoMilestone ex) else fun s => (s, Ok tt)) (h, e0) in h1 = h).
  { intros e0. destruct (willUndoCrossMilestone h); [|done]. unfold cross, on_executor, throwM.
    destruct (undoMilestone ex) as [m|]; [|done]. by destruct (m e0). }
  specialize (Hc e). destruct (_ (h, e)) as [[h1 e1] [[]|x]]; subst h1; [|done].
  rewrite (step_back_last _ _ El).
  destruct tx as [n| |c]; cbn.
  - destruct (undoLocal ex e1) as [e2 [[]|x]]; done.
  - destruct (undoLocal ex e1) as [e2 [[]|x]]; done.
  - destruct (undoCheckpoint ex c e1) as [e2 [[]|x]]; done.
Qed.

Lemma step_forward_length h tx :
  last (undoneTransactionLog h) = Some tx ->
  len (transactionLog (step_forward h)) = len (transactionLog h) + 1 /\
  milestoneDepths (step_forward h) = milestoneDepths h.
Proof.
  intros El. rewrite (step_forward_last _ _ El). unfold shift_redo, redo_changes, move_redone.
  destruct tx as [n| |c]; cbn; rewrite ?El;
    try destruct (moveLastChanges _ _ _); cbn; rewrite ?El; cbn; rewrite len_app; done.
Qed.

Lemma redo_outcome {E} (ex : EditorHistoryExecutor E) h e :
  let '((h', _), r) := redo ex (h, e) in
  match r with
  | Ok true => h' = step_forward h /\ undoneTransactionLog h <> []
  | Ok false => h' = h /\ undoneTransactionLog h = []
  | Throw _ => h' = h \/ (h' = step_forward h /\ undoneTransactionLog h <> [] /\
      willRedoCrossMilestone h = true)
  end.
Proof.
  unfold redo, bindM, getM, retM, on_history, on_executor, putM; cbn.
  destruct (last (undoneTransactionLog h)) as [tx|] eqn:El.
  2:{ split; [done|]. by apply last_None in El. }
  assert (undoneTransactionLog h <> []) as Hne by (intros E0; by rewrite E0 in El).
  destruct (step_forward_length h tx El) as [Hlen Hms].
  assert (Hc : forall e0, let '((h1, _), r) := (if willUndoCrossMilestone (step_forward h)
      then cross (redoMilestone ex) else fun s => (s, Ok tt)) (step_forward h, e0) in
    h1 = step_forward h /\ (is_ok r = false -> willRedoCrossMilestone h = true)).
  { intros e0. unfold willUndoCrossMilestone, willRedoCrossMilestone. rewrite Hlen, Hms.
    destruct (includes _ _); [|done]. unfold cross, on_executor, throwM.
    destruct (redoMilestone ex) as [m|]; [|done]. by destruct (m e0). }
  assert (Hfin : forall e0, let '((h', _), r) :=
    (let (s', r) := (if willUndoCrossMilestone (step_forward h)
      then cross (redoMilestone ex) else fun s => (s, Ok tt)) (step_forward h, e0) in
     match r with Ok _ => (s', Ok true) | Throw x => (s', Throw x) end) in
    match r with
    | Ok true => h' = step_forward h /\ undoneTransactionLog h <> []
    | Ok false => h' = h /\ undoneTransactionLog h = []
    | Throw _ => h' = h \/ (h' = step_forward h /\ undoneTransactionLog h <> [] /\
        willRedoCrossMilestone h = true)
    end).
  { intros e0. specialize (Hc e0). destruct (_ (step_forward h, e0)) as [[h1 e1] [[]|x]];
      destruct Hc as [-> Hw]; auto. }
  rewrite (step_forward_last _ _ El) in *.
  destruct tx as [n| |c]; cbn.
  - destruct (redoLocal ex e) as [e2 [[]|x]]; cbn; auto. apply (Hfin e2).
  - destruct (redoLocal ex e) as [e2 [[]|x]]; cbn; auto. apply (Hfin e2).
  - destruct (redoCheckpoint ex c e) as [e2 [[]|x]]; cbn; auto. apply (Hfin e2).
Qed.

(** ** Recording on the timeline *)

Lemma represents_record h t tx cs :
  represents h t -> entry_ok (mkEntry tx cs) ->
  represents (push_transaction tx (push_changes cs (discardRedoBranch h)))
    (mkTimeline (past t ++ [mkEntry tx cs]) []).
Proof.
  intros [H1 H2 H3 H4 H5 H6] He. constructor; cbn; auto.
  - by rewrite H1, map_app.
  - rewrite H3, map_app, concat_app. cbn. by rewrite app_nil_r.
  - apply Forall_app. auto.
Qed.

Lemma push_changes_nil h : push_changes [] h = h.
Proof. destruct h. unfold push_changes; cbn. by rewrite app_nil_r. Qed.

Lemma represents_ext h h' t :
  transactionLog h = transactionLog h' -> undoneTransactionLog h = undoneTransactionLog h' ->
  changeLog h = changeLog h' -> undoneChangeLog h = undoneChangeLog h' ->
  represents h t -> represents h' t.
Proof. intros E1 E2 E3 E4 [H1 H2 H3 H4 H5 H6]. constructor; congruence || done. Qed.

Lemma recordLocalChanges_entry cs : cs <> [] -> entry_ok (mkEntry (LOCAL (len cs)) cs).
Proof. intros H. split; cbn; [done|]. destruct cs; [done|]. unfold len; cbn; lia. Qed.

Lemma concat_replicate_nil {A} n : concat (replicate n ([] : list A)) = [].
Proof. induction n; done. Qed.

Lemma rev_replicate {A} n (x : A) : rev (replicate n x) = replicate n x.
Proof. induction n as [|n IH]; [done|]. cbn. rewrite IH. by rewrite <- replicate_cons_app. Qed.

Lemma map_replicate {A B} (f : A -> B) n x : map f (replicate n x) = replicate n (f x).
Proof. induction n as [|n IH]; [done|]. cbn. by rewrite IH. Qed.

Lemma represents_replicate h t a b saved :
  represents (mkHistory saved [] [] (replicate a LOCAL_UNTRACKED) (replicate b LOCAL_UNTRACKED)
    h t) (mkTimeline (replicate a untracked) (replicate b untracked)).
Proof.
  constructor; cbn; rewrite ?map_replicate; unfold untracked; cbn;
    rewrite ?rev_replicate, ?concat_replicate_nil; try done; by apply Forall_replicate.
Qed.

Lemma represents_cases h t :
  represents h t ->
  (transactionLog h <> [] -> exists p e, t = mkTimeline (p ++ [e]) (future t)) /\
  (undoneTransactionLog h <> [] -> exists e f, t = mkTimeline (past t) (e :: f)).
Proof.
  intros [H1 H2 _ _ _ _]. split; intros Hne.
  - rewrite H1 in Hne. destruct t as [p f]; cbn in *.
    destruct p as [|e p _] using rev_ind; [done|]. by exists p, e.
  - rewrite H2 in Hne. destruct t as [p f]; cbn in *.
    destruct f as [|e f]; [done|]. by exists e, f.
Qed.

(** The simulation, one lemma per kind of operation. *)
Section Simulation.
Import Course.
Context {E : Type} (ex : EditorHistoryExecutor E).

Lemma marks_filter d l : List.filter (fun x => negb (d <? x)) l = List.filter (fun x => x <=? d) l.
Proof. apply List.filter_ext. intros x. rewrite Z.ltb_antisym. by rewrite negb_involutive. Qed.

Lemma depth_of h c : follows h c -> len (transactionLog h) = depth c.
Proof. intros [[H1 _ _ _ _ _] _ _ _]. unfold depth. by rewrite H1, len_map. Qed.

Lemma marked_includes h c d : follows h c -> includes (milestoneDepths h) d = marked d c.
Proof.
  intros [_ _ Hm _]. unfold includes, marked. rewrite Hm. apply eq_true_iff_eq.
  rewrite existsb_exists, bool_decide_eq_true. split.
  - intros (x & Hx & ->%Z.eqb_eq). by apply list_elem_of_In.
  - intros Hd. exists d. split; [by apply list_elem_of_In|apply Z.eqb_refl].
Qed.

Lemma follows_record h c tx cs : follows h c -> entry_ok (mkEntry tx cs) ->
  follows (push_transaction tx (push_changes cs (discardRedoBranch h))) (recorded (mkEntry tx cs) c).
Proof.
  intros Hf He. pose proof (depth_of h c Hf) as Hd. destruct Hf as [Ht Hs Hm Hg]. split; cbn.
  - by apply represents_record.
  - by rewrite Hs, Hd.
  - by rewrite marks_filter, Hm, Hd.
  - done.
Qed.

Lemma follows_push h c tx : follows h c -> entry_ok (mkEntry tx []) ->
  follows (push_transaction tx (discardRedoBranch h)) (recorded (mkEntry tx []) c).
Proof.
  intros Hf He. rewrite <- (push_changes_nil (discardRedoBranch h)). by apply follows_record.
Qed.

Lemma follows_changes h c cs : follows h c ->
  follows (recordLocalChanges cs h) match cs with [] => c | _ => recorded (mkEntry (LOCAL (len cs)) cs) c end.
Proof.
  intros Hf. unfold recordLocalChanges. destruct cs as [|x cs]; [done|].
  rewrite (proj2 (Z.eqb_neq _ _)) by (unfold len; cbn; lia). apply follows_record; [done|by apply recordLocalChanges_entry].
Qed.

Lemma replaced_group_records offs n d g :
  replaceAllRecords offs n d (js "replace-all-" ++ decimal_string g) = replaced_group offs n d g.
Proof.
  unfold replaceAllRecords, replaced_group. set (group := js "replace-all-" ++ decimal_string g). clearbody group.
  assert (H : forall k, imap (fun i o => mkChange (Z.of_nat (k + i) + 1) RREPLACE o n d (Some group)) offs =
    zip_with (fun serial o => mkChange serial RREPLACE o n d (Some group)) (seqZ (Z.of_nat k + 1) (len offs)) offs).
  { induction offs as [|o offs IH]; intros k; [done|]. rewrite imap_cons.
    assert (Hl : len (o :: offs) = Z.succ (len offs)) by (unfold len; cbn; lia).
    rewrite Hl, seqZ_cons by (pose proof (len_nonneg offs); lia). cbn [zip_with]. f_equal; [f_equal; lia|].
    replace (Z.pred (Z.succ (len offs))) with (len offs) by lia.
    replace (Z.succ (Z.of_nat k + 1)) with (Z.of_nat (S k) + 1) by lia. rewrite <- IH.
    apply imap_ext. intros i x _. cbn. f_equal. lia. }
  exact (H 0%nat).
Qed.

Lemma replaced_group_length offs n d g : len (replaced_group offs n d g) = len offs.
Proof.
  rewrite <- replaced_group_records. unfold replaceAllRecords, len. by rewrite length_imap.
Qed.

(** The executor's calls of an undo and of a redo, and where they leave the
    controller. *)
Lemma undo_calls h e p en f : represents h (mkTimeline (p ++ [en]) f) ->
  undo ex (h, e) =
    (let '(e', r) := ((if willUndoCrossMilestone h then milestone_call (undoMilestone ex) else retM tt) ;;;
                      undo_call ex (e_tx en)) e in
     match r with Ok _ => ((step_back h, e'), Ok true) | Throw x => ((h, e'), Throw x) end).
Proof.
  intros Hr. assert (El : last (transactionLog h) = Some (e_tx en)).
  { rewrite (rep_log _ _ Hr). cbn [past]. rewrite map_app. cbn [map]. by rewrite last_snoc. }
  pose proof (step_back_last h _ El) as Hb.
  unfold undo, bindM, getM, retM, on_history, on_executor, putM, cross, milestone_call, throwM; cbn. rewrite El. cbn [fst].
  destruct (willUndoCrossMilestone h); [destruct (undoMilestone ex) as [m|]; [|done]; cbn; destruct (m e) as [e1 [[]|x]]; cbn; [|done]|].
  all: rewrite Hb; destruct (e_tx en) as [n| |k]; cbn [undo_call undo_changes].
  all: match goal with |- context [undoLocal ex ?s] => destruct (undoLocal ex s) as [e2 [[]|y]]
       | |- context [undoCheckpoint ex ?k ?s] => destruct (undoCheckpoint ex k s) as [e2 [[]|y]] end; done.
Qed.

Lemma redo_calls h e p en f : represents h (mkTimeline p (en :: f)) ->
  redo ex (h, e) =
    match redo_call ex (e_tx en) e with
    | (e', Throw x) => ((h, e'), Throw x)
    | (e', Ok _) =>
        let '(e', r) := (if willUndoCrossMilestone (step_forward h) then milestone_call (redoMilestone ex) else retM tt) e' in
        ((step_forward h, e'), (fun _ => true) <$> r)
    end.
Proof.
  intros Hr. assert (El : last (undoneTransactionLog h) = Some (e_tx en)).
  { rewrite (rep_undone _ _ Hr). cbn [future map rev]. by rewrite last_snoc. }
  pose proof (step_forward_last h _ El) as Hb.
  unfold redo, bindM, getM, retM, on_history, on_executor, putM, cross, milestone_call, throwM; cbn. rewrite El. cbn [fst].
  rewrite Hb in *. destruct (e_tx en) as [n| |k]; cbn [redo_call redo_changes] in *.
  all: match goal with |- context [redoLocal ex ?s] => destruct (redoLocal ex s) as [e2 [[]|y]]
       | |- context [redoCheckpoint ex ?k ?s] => destruct (redoCheckpoint ex k s) as [e2 [[]|y]] end; [|done].
  all: cbn [fst]; match goal with |- context [if ?b then _ else _] => destruct b end; [|done];
    destruct (redoMilestone ex) as [m|]; [|done]; unfold on_executor; by destruct (m e2) as [e3 [[]|x]].
Qed.

Lemma follows_back h c p en f : follows h c -> c_timeline c = mkTimeline (p ++ [en]) f ->
  follows (step_back h) (with_timeline (mkTimeline p (en :: f)) c).
Proof.
  intros [Ht Hs Hm Hg] Hc. rewrite Hc in Ht. pose proof (represents_back h p en f Ht) as Hb.
  split; [done|..]; rewrite (step_back_fields h p en f Ht); done.
Qed.

Lemma follows_forward h c p en f : follows h c -> c_timeline c = mkTimeline p (en :: f) ->
  follows (step_forward h) (with_timeline (mkTimeline (p ++ [en]) f) c).
Proof.
  intros [Ht Hs Hm Hg] Hc. rewrite Hc in Ht. pose proof (represents_forward h p en f Ht) as Hb.
  split; [done|..]; rewrite (step_forward_fields h p en f Ht); done.
Qed.

(** One operation on both sides. *)
Definition simulates (op : operation) (h : history) (e : E) (c : course) : Prop :=
  let '((h', e'), r) := perform ex op (h, e) in
  exists c', specified ex op (c, e) = ((c', e'), r) /\ follows h' c'.

Lemma sim_undo h e c : follows h c -> simulates Undo h e c.
Proof.
  intros Hf. pose proof (fo_timeline h c Hf) as Ht. unfold simulates, perform, specified, bindM.
  destruct (rev (past (c_timeline c))) as [|en before] eqn:Er.
  - assert (Hn : past (c_timeline c) = []) by by rewrite <- (rev_involutive (past (c_timeline c))), Er.
    pose proof (rep_log _ _ Ht) as Hl. rewrite Hn in Hl. unfold undo, bindM, getM. cbn. rewrite Hl. by exists c.
  - assert (Hp : c_timeline c = mkTimeline (rev before ++ [en]) (future (c_timeline c))).
    { destruct (c_timeline c) as [p f]. cbn in *. by rewrite <- (rev_involutive p), Er. }
    pose proof Ht as Ht'. rewrite Hp in Ht'. rewrite (undo_calls h e _ _ _ Ht').
    unfold willUndoCrossMilestone. rewrite (depth_of h c Hf), (marked_includes h c _ Hf). unfold bindM.
    destruct ((if marked (depth c) c then milestone_call (undoMilestone ex) else retM tt) e) as [e1 [[]|x]]; [|by exists c].
    destruct (undo_call ex (e_tx en) e1) as [e2 [[]|x]]; [|by exists c].
    eexists. split; [reflexivity|]. by apply follows_back.
Qed.

Lemma sim_redo h e c : follows h c -> simulates Redo h e c.
Proof.
  intros Hf. pose proof (fo_timeline h c Hf) as Ht. unfold simulates, perform, specified, bindM.
  destruct (future (c_timeline c)) as [|en after] eqn:Er.
  - pose proof (rep_undone _ _ Ht) as Hl. rewrite Er in Hl. unfold redo, bindM, getM. cbn. rewrite Hl. by exists c.
  - assert (Hp : c_timeline c = mkTimeline (past (c_timeline c)) (en :: after)) by (destruct (c_timeline c); cbn in *; by rewrite Er).
    pose proof Ht as Ht'. rewrite Hp in Ht'. rewrite (redo_calls h e _ _ _ Ht').
    destruct (redo_call ex (e_tx en) e) as [e1 [[]|x]]; [|by exists c].
    pose proof (follows_forward h c _ _ _ Hf Hp) as Hf'.
    unfold willUndoCrossMilestone. rewrite (depth_of _ _ Hf'), (marked_includes _ _ _ Hf').
    set (c1 := with_timeline (mkTimeline (past (c_timeline c) ++ [en]) after) c) in *.
    destruct ((if marked (depth c1) c1 then milestone_call (redoMilestone ex) else retM tt) e1) as [e2 [[]|x]];
      exists c1; done.
Qed.

Lemma safe_in_number lo n : safe_in lo MAX_SAFE_INTEGER n =
  match n with NInt z => safeZ z && (lo <=? z) && (z <=? MAX_SAFE_INTEGER) | _ => false end.
Proof. by destruct n. Qed.

Lemma count_in_range z : safeZ z && (0 <=? z) && (z <=? MAX_SAFE_INTEGER) = (0 <=? z) && (z <=? MAX_SAFE_INTEGER).
Proof. unfold safeZ. destruct (0 <=? z) eqn:E1, (z <=? MAX_SAFE_INTEGER) eqn:E2; bool_prop; cbn; try lia; by rewrite ?andb_false_r. Qed.

Lemma native_log l : native_backed (map e_tx l) = native l.
Proof.
  unfold native_backed, native, len. f_equal. induction l as [|en l IH]; [done|]. cbn.
  destruct (negb (is_checkpoint (e_tx en))); cbn; lia.
Qed.

Lemma native_rev l : native_backed (rev l) = native_backed l.
Proof.
  unfold native_backed, len. f_equal. rewrite List.filter_rev, length_rev. done.
Qed.

Lemma sim_reconcile a b saved h e c : follows h c -> simulates (Reconcile a b saved) h e c.
Proof.
  intros Hf. pose proof (fo_timeline h c Hf) as [H1 H2 H3 H4 H5 H6].
  unfold simulates, perform, specified, reconcileNativeTransactionCounts. rewrite !safe_in_number.
  destruct a as [a| | |]; [|by exists c..]. destruct b as [b| | |]; [|by cbn; rewrite ?orb_true_r; exists c..].
  rewrite !count_in_range, <- negb_andb, !andb_assoc. destruct (negb _); [by exists c|]. cbn [int_value].
  rewrite H1, H2, native_rev, !native_log.
  assert (Hk : existsb is_checkpoint (map e_tx (past (c_timeline c))) || existsb is_checkpoint (rev (map e_tx (future (c_timeline c)))) =
    existsb (fun en => is_checkpoint (e_tx en)) (past (c_timeline c) ++ future (c_timeline c))).
  { rewrite existsb_app. f_equal; apply eq_true_iff_eq; rewrite !existsb_exists.
    - split; [intros (x & Hx & ?); apply in_map_iff in Hx as (y & <- & ?); by exists y|intros (x & ? & ?); exists (e_tx x); split; [by apply in_map|done]].
    - split; [intros (x & Hx & ?); apply in_rev, in_map_iff in Hx as (y & <- & ?); by exists y|intros (x & ? & ?); exists (e_tx x); split; [by rewrite <- in_rev; apply in_map|done]]. }
  rewrite Hk. destruct ((native (past (c_timeline c)) =? a) && (native (future (c_timeline c)) =? b)); [by exists c|]. cbn [orb].
  destruct (existsb (fun en => is_checkpoint (e_tx en)) (past (c_timeline c) ++ future (c_timeline c))); [by exists c|].
  eexists. split; [reflexivity|]. split; [apply represents_replicate|done..|]. apply (fo_groups h c Hf).
Qed.

Lemma sim_operation op h e c : follows h c -> simulates op h e c.
Proof.
  intros Hf. destruct op as [| |cs|offs n d|k| | | |a b saved]; [..|by apply sim_undo|by apply sim_redo|by apply sim_reconcile].
  - (* Milestone *)
    eexists. split; [reflexivity|]. pose proof (depth_of h c Hf) as Hd. destruct Hf as [Ht Hs Hm Hg].
    unfold recordMilestone. rewrite Hd. unfold at_last. rewrite Hm. split; cbn.
    + case_match; [|done]. revert Ht. by apply represents_ext.
    + by case_match.
    + case_match; cbn; congruence.
    + by case_match.
  - eexists. split; [reflexivity|]. by apply follows_push.
  - pose proof (follows_changes h c cs Hf). destruct cs; (eexists; split; [reflexivity|done]).
  - unfold simulates, perform, bindM, on_history, putM. cbn. unfold recordLocalReplaceAll. destruct offs as [|o offs]; [by exists c|].
    rewrite (proj2 (Z.eqb_neq _ _)) by (unfold len; cbn; lia). rewrite replaced_group_records.
    eexists. split; [reflexivity|]. rewrite (fo_groups h c Hf). set (cs := replaced_group (o :: offs) n d (c_groups c)).
    assert (Hl : len cs = len (o :: offs)) by apply replaced_group_length.
    set (h1 := mkHistory _ _ _ _ _ _ _).
    assert (Hf1 : follows h1 (mkCourse (c_timeline c) (c_saved c) (c_marks c) (c_groups c + 1))).
    { destruct Hf as [Ht Hs Hm Hg]. split; try done. revert Ht. by apply represents_ext. }
    pose proof (follows_changes h1 _ cs Hf1) as Hr. rewrite <- Hl. destruct cs as [|x cs']; [unfold len in Hl; cbn in Hl; lia|].
    destruct Hr as [Ht Hs Hm Hg]. by split.
  - eexists. split; [reflexivity|]. by apply follows_push.
  - eexists. split; [reflexivity|]. pose proof (depth_of h c Hf) as Hd. destruct Hf as [Ht Hs Hm Hg].
    split; cbn; [|done..]. revert Ht. by apply represents_ext.
Qed.
End Simulation.

(** C1 Every operation of the history controller does what its specification
    does on the timeline: the same outcome, the same calls of the executor,
    and a controller that keeps the timeline the specification gives.  To
    record adds one entry with exactly the changes given and drops what was
    undone; an undo runs the call of the last entry, after the one of the
    milestone it leaves, and takes the entry over to the undone ones; a redo
    is its counterpart; one that fails leaves the timeline as it was, but for
    a redo whose milestone call fails; reconciliation rebuilds the timeline
    from the native counts when they disagree. *)
Theorem history_refines_timeline {E} (ex : EditorHistoryExecutor E) op h e c :
  Course.follows h c ->
  let '((h', e'), r) := Course.perform ex op (h, e) in
  exists c', Course.specified ex op (c, e) = ((c', e'), r) /\ Course.follows h' c'.
Proof. apply sim_operation. Qed.

(** An executor that counts its calls and never fails, for the examples. *)
Definition counting_executor : EditorHistoryExecutor Z :=
  let tick : M Z unit := fun n => (n + 1, Ok tt) in
  mkExecutor Z tick tick (fun _ => tick) (fun _ => tick) (Some tick) (Some tick).

Definition sample_change (n : Z) : EditorChangeRecord := mkChange n RINSERT n 0 [] None.

Definition sample_history : history :=
  recordLocalMutation (recordLocalChanges [sample_change 1; sample_change 2] new_history).

Definition sample_timeline : timeline :=
  mkTimeline [mkEntry (LOCAL 2) [sample_change 1; sample_change 2]; untracked] [].

Lemma sample_represents : represents sample_history sample_timeline.
Proof.
  constructor; try reflexivity; cbn; repeat constructor; done.
Qed.

Definition sample_course : Course.course := Course.mkCourse sample_timeline 0 [] 1.

(** An undo of the last of two entries. *)
Lemma history_refines_timeline_witness :
  exists c', Course.specified counting_executor Course.Undo (sample_course, 0) = ((c', 1), Ok (Some true)) /\
    Course.follows (undo counting_executor (sample_history, 0)).1.1 c'.
Proof.
  apply (history_refines_timeline counting_executor Course.Undo sample_history 0 sample_course).
  split; [exact sample_represents|reflexivity..].
Defined.

(** ** Reachable histories *)

Inductive reachable {E} (ex : EditorHistoryExecutor E) : history * E -> Prop :=
  | reach_new e : reachable ex (new_history, e)
  | reach_step op st : reachable ex st -> reachable ex (Course.perform ex op st).1.

Lemma represents_total h t : represents h t -> total_depth h = len (past t) + len (future t).
Proof.
  intros [H1 H2 _ _ _ _]. unfold total_depth. rewrite H1, H2. by autorewrite with omega.
Qed.

Lemma bounds_discard h :
  bounds_ok h -> bounds_ok (discardRedoBranch h) /\
  total_depth (discardRedoBranch h) = len (transactionLog h).
Proof.
  intros ([Hs1 Hs2] & Hn & Hm). unfold bounds_ok, total_depth in *; cbn.
  change (len (@nil EditorTransactionRecord)) with 0.
  pose proof (len_nonneg (transactionLog h)). repeat split; try lia.
  rewrite Forall_forall in *. intros d Hd. apply list_elem_of_In, filter_In in Hd as [Hd Hb].
  bool_prop. apply list_elem_of_In in Hd. specialize (Hm d Hd). cbn in *. lia.
Qed.

Lemma bounds_push tx h : bounds_ok h -> bounds_ok (push_transaction tx h).
Proof.
  intros ([Hs1 Hs2] & Hn & Hm). unfold bounds_ok, total_depth in *; cbn.
  rewrite len_app. change (len [tx]) with 1. repeat split; try lia.
  eapply Forall_impl; [done|]. cbn. lia.
Qed.

(** Bounds depend on the two depths, not on the logs behind them. *)
Lemma bounds_move h h' :
  total_depth h' = total_depth h -> savedChangeDepth h' = savedChangeDepth h ->
  nextSyntheticGroupId h' = nextSyntheticGroupId h -> milestoneDepths h' = milestoneDepths h ->
  bounds_ok h -> bounds_ok h'.
Proof. intros E1 E2 E3 E4. unfold bounds_ok. by rewrite E1, E2, E3, E4. Qed.

Lemma bounds_record tx cs h :
  bounds_ok h -> bounds_ok (push_transaction tx (push_changes cs (discardRedoBranch h))).
Proof.
  intros H. apply bounds_push. eapply bounds_move; [..|apply (bounds_discard h H)]; done.
Qed.

Lemma bounds_changes cs h : bounds_ok h -> bounds_ok (recordLocalChanges cs h).
Proof. intros H. unfold recordLocalChanges. destruct (_ =? _); [done|by apply bounds_record]. Qed.

Lemma bounds_back h p e f :
  represents h (mkTimeline (p ++ [e]) f) -> bounds_ok h -> bounds_ok (step_back h).
Proof.
  intros H. pose proof (represents_total _ _ H) as T1.
  pose proof (represents_total _ _ (represents_back _ _ _ _ H)) as T2.
  apply bounds_move; try by rewrite (step_back_fields h p e f H).
  rewrite T1, T2. cbn. autorewrite with omega. unfold len; cbn; lia.
Qed.

Lemma bounds_forward h p e f :
  represents h (mkTimeline p (e :: f)) -> bounds_ok h -> bounds_ok (step_forward h).
Proof.
  intros H. pose proof (represents_total _ _ H) as T1.
  pose proof (represents_total _ _ (represents_forward _ _ _ _ H)) as T2.
  apply bounds_move; try by rewrite (step_forward_fields h p e f H).
  rewrite T1, T2. cbn. autorewrite with omega. unfold len; cbn; lia.
Qed.

Lemma bounds_reconcile a b saved h :
  bounds_ok h -> bounds_ok (reconcileNativeTransactionCounts a b saved h).1.
Proof.
  intros H. unfold reconcileNativeTransactionCounts.
  destruct (negb (safe_in 0 MAX_SAFE_INTEGER a) || negb (safe_in 0 MAX_SAFE_INTEGER b)) eqn:Eg;
    [done|].
  do 2 match goal with |- context [if ?c then (h, _) else _] => destruct c; [done|] end.
  destruct H as (_ & Hn & _). cbn [fst]. unfold bounds_ok, total_depth, len.
  cbn [savedChangeDepth transactionLog undoneTransactionLog nextSyntheticGroupId milestoneDepths].
  rewrite !length_replicate. bool_prop.
  unfold safe_in in *. destruct a as [a| | |]; try discriminate.
  destruct b as [b| | |]; try discriminate. bool_prop. cbn.
  repeat split; try done; destruct saved; lia.
Qed.

Lemma bounds_milestone h : bounds_ok h -> bounds_ok (recordMilestone h).
Proof.
  intros (Hs & Hn & Hm). unfold recordMilestone.
  destruct (_ && _) eqn:Ec; [|done].
  bool_prop. unfold bounds_ok, total_depth in *; cbn. repeat split; try lia.
  apply Forall_app. split; [done|]. constructor; [|done].
  pose proof (len_nonneg (undoneTransactionLog h)). lia.
Qed.

Lemma bounds_step {E} (ex : EditorHistoryExecutor E) op st t :
  represents st.1 t -> bounds_ok st.1 -> bounds_ok (Course.perform ex op st).1.1.
Proof.
  intros Hr Hb. destruct st as [h e], op; cbn [fst] in *.
  - by apply bounds_milestone.
  - apply bounds_push, bounds_discard, Hb.
  - by apply bounds_changes.
  - change (bounds_ok (recordLocalReplaceAll offsets length data h)). unfold recordLocalReplaceAll.
    destruct (_ =? _); [done|]. apply bounds_changes.
    destruct Hb as (Hsaved & ? & ?). repeat split; cbn; try apply Hsaved; try lia; done.
  - apply bounds_push, bounds_discard, Hb.
  - destruct Hb as (? & ? & ?). unfold bounds_ok, total_depth in *; cbn.
    pose proof (len_nonneg (transactionLog h)). pose proof (len_nonneg (undoneTransactionLog h)).
    repeat split; lia || done.
  - pose proof (undo_outcome ex h e) as Ho. cbn [Course.perform]. unfold bindM.
    destruct (undo ex (h, e)) as [[h' e'] [[]|x]]; cbn [fst] in *.
    + destruct Ho as [-> Hne]. destruct (proj1 (represents_cases h t Hr) Hne) as (p & en & Et).
      rewrite Et in Hr. by eapply bounds_back.
    + by destruct Ho as [-> _].
    + by subst.
  - pose proof (redo_outcome ex h e) as Ho. cbn [Course.perform]. unfold bindM.
    assert (Hf : undoneTransactionLog h <> [] -> bounds_ok (step_forward h)).
    { intros Hne. destruct (proj2 (represents_cases h t Hr) Hne) as (en & f & Et).
      rewrite Et in Hr. by eapply bounds_forward. }
    destruct (redo ex (h, e)) as [[h' e'] [[]|x]]; cbn [fst] in *.
    + destruct Ho as [-> Hne]. auto.
    + by destruct Ho as [-> _].
    + destruct Ho as [->|(-> & Hne & _)]; auto.
  - cbn [Course.perform]. pose proof (bounds_reconcile active undone currentStateIsSaved h Hb).
    by destruct (reconcileNativeTransactionCounts active undone currentStateIsSaved h).
Qed.

(** In every reachable history the saved depth and all milestones lie
    within the timeline, the next group number is positive, and the five
    logs represent a timeline: in particular the changes of the log are
    exactly the changes of the transactions not undone, in order. *)
Theorem history_invariant {E} (ex : EditorHistoryExecutor E) h e :
  reachable ex (h, e) ->
  bounds_ok h /\
  exists t, represents h t /\
    getChangeLog h = concat (map e_changes (past t)) /\
    undoCount (getEditState h) = len (past t) /\
    redoCount (getEditState h) = len (future t).
Proof.
  intros Hr.
  assert (Hi : forall st, reachable ex st -> bounds_ok st.1 /\ exists c, Course.follows st.1 c).
  { clear. induction 1 as [e|op st Hst [Hb [c Hc]]].
    - cbn. split; [repeat split; cbn; lia || done|]. exists (Course.mkCourse (mkTimeline [] []) 0 [] 1).
      split; done.
    - split; [eapply bounds_step; [apply Hc|done]|]. destruct st as [h0 e0].
      pose proof (sim_operation ex op h0 e0 c Hc) as Hs. unfold simulates in Hs.
      destruct (Course.perform ex op (h0, e0)) as [[h' e'] r]. destruct Hs as (c' & _ & ?). by exists c'. }
  destruct (Hi _ Hr) as [Hb [c [Ht _ _ _]]]. set (t := Course.c_timeline c) in *. cbn [fst] in *. split; [done|]. exists t. split; [done|].
  destruct Ht as [H1 H2 H3 _ _ _]. cbn. rewrite H1, H2.
  by autorewrite with omega.
Qed.

Lemma history_invariant_witness :
  exists t, represents sample_history t /\
    getChangeLog sample_history = concat (map e_changes (past t)) /\
    undoCount (getEditState sample_history) = len (past t) /\
    redoCount (getEditState sample_history) = len (future t).
Proof.
  apply (history_invariant counting_executor sample_history 0).
  apply (reach_step _ Course.Mutation (recordLocalChanges [sample_change 1; sample_change 2] new_history, 0)).
  apply (reach_step _ (Course.Changes [sample_change 1; sample_change 2]) (new_history, 0)), reach_new.
Defined.

(** A successful undo followed by a successful redo gives back
    the very same history: both logs, both change logs, saved depth,
    milestones and group counter. *)
Theorem redo_undo_identity {E} (ex : EditorHistoryExecutor E) h e h1 e1 h2 e2 t :
  represents h t ->
  undo ex (h, e) = ((h1, e1), Ok true) ->
  redo ex (h1, e1) = ((h2, e2), Ok true) ->
  h2 = h.
Proof.
  intros Ht Hu Hr.
  pose proof (undo_outcome ex h e) as Ho. rewrite Hu in Ho. destruct Ho as [-> Hne].
  pose proof (redo_outcome ex (step_back h) e1) as Ho. rewrite Hr in Ho. destruct Ho as [-> _].
  destruct (proj1 (represents_cases h t Ht) Hne) as (p & en & Et). rewrite Et in Ht.
  by eapply step_forward_back.
Qed.

Lemma redo_undo_identity_witness :
  (redo counting_executor (undo counting_executor (sample_history, 0)).1).1.1 = sample_history.
Proof.
  apply (redo_undo_identity counting_executor sample_history 0
    (undo counting_executor (sample_history, 0)).1.1 1 _ 2 sample_timeline);
    [exact sample_represents|reflexivity|reflexivity].
Defined.

(** A rejected undo leaves the history as it was.  A rejected redo
    does too, except when the transaction itself was redone and only
    crossing its checkpoint milestone failed: then the history has moved
    forward by one. *)
Theorem undo_redo_failure {E} (ex : EditorHistoryExecutor E) h e :
  (is_ok (undo ex (h, e)).2 = false -> (undo ex (h, e)).1.1 = h) /\
  (is_ok (redo ex (h, e)).2 = false ->
     (redo ex (h, e)).1.1 = h \/
     ((redo ex (h, e)).1.1 = step_forward h /\ willRedoCrossMilestone h = true)).
Proof.
  split; intros Hf.
  - pose proof (undo_outcome ex h e) as Ho.
    destruct (undo ex (h, e)) as [[h' e'] [b|x]]; [discriminate|done].
  - pose proof (redo_outcome ex h e) as Ho.
    destruct (redo ex (h, e)) as [[h' e'] [b|x]]; [discriminate|]. cbn.
    destruct Ho as [?|(? & _ & ?)]; auto.
Qed.

(** An executor without milestone support: undoing a transaction that was
    marked as a milestone throws and changes nothing. *)
Definition plain_executor : EditorHistoryExecutor Z :=
  let tick : M Z unit := fun n => (n + 1, Ok tt) in
  mkExecutor Z tick tick (fun _ => tick) (fun _ => tick) None None.

Lemma undo_redo_failure_witness :
  (undo plain_executor (recordMilestone sample_history, 0)).1.1 = recordMilestone sample_history.
Proof.
  apply (undo_redo_failure plain_executor (recordMilestone sample_history) 0). reflexivity.
Defined.

(** ** Snapshots and depths *)

Lemma filter_all {A} (f : A -> bool) l : Forall (fun x => f x = true) l -> List.filter f l = l.
Proof. induction 1 as [|x l Hx _ IH]; cbn; [done|]. by rewrite Hx, IH. Qed.

Definition safe_sizes (h : history) : Prop :=
  total_depth h <= MAX_SAFE_INTEGER /\ nextSyntheticGroupId h <= MAX_SAFE_INTEGER.

Lemma safe_in_int lo hi z :
  lo <= z <= hi -> - MAX_SAFE_INTEGER <= z <= MAX_SAFE_INTEGER -> safe_in lo hi (NInt z) = true.
Proof.
  intros H1 H2. unfold safe_in. rewrite (proj2 (safeZ_spec z) H2).
  rewrite (proj2 (Z.leb_le lo z)), (proj2 (Z.leb_le z hi)) by lia. done.
Qed.

Lemma fromSnapshot_snapshot h :
  bounds_ok h -> safe_sizes h -> fromSnapshot (snapshot h) = Ok h.
Proof.
  intros (Hs & Hn & Hm) [Ht Hg]. unfold fromSnapshot, validateHistorySnapshot, snapshot; cbn.
  fold (total_depth h).
  rewrite !safe_in_int by lia. cbn. do 2 f_equal.
  rewrite filter_all.
  2:{ apply Forall_map. eapply Forall_impl; [done|]. intros d Hd. cbn beta in Hd.
      apply safe_in_int; lia. }
  rewrite map_map. cbn. rewrite map_id. by destruct h.
Qed.

Lemma back_to_represents fuel : forall d h p f,
  represents h (mkTimeline p f) -> (length p <= fuel + Z.to_nat d)%nat -> 0 <= d <= len p ->
  represents (back_to fuel d h)
    (mkTimeline (take (Z.to_nat d) p) (drop (Z.to_nat d) p ++ f)).
Proof.
  induction fuel as [|fuel IH]; intros d h p f H Hf Hd; unfold len in Hd; cbn.
  { rewrite take_ge, drop_ge by lia. done. }
  rewrite (rep_log _ _ H), len_map. unfold len. cbn.
  destruct (Z.ltb_spec d (Z.of_nat (length p))) as [Hlt|Hge].
  2:{ rewrite take_ge, drop_ge by lia. done. }
  destruct p as [|e p _] using rev_ind; [cbn in *; lia|].
  rewrite length_app in *; cbn [length] in *.
  rewrite take_app_le, drop_app_le by lia. rewrite <- app_assoc. cbn.
  apply IH; [by apply represents_back|lia|unfold len; lia].
Qed.

Lemma forward_to_represents fuel : forall d h p f,
  represents h (mkTimeline p f) -> len p <= d <= len p + len f ->
  (Z.to_nat d <= fuel + length p)%nat ->
  represents (forward_to fuel d h)
    (mkTimeline (p ++ take (Z.to_nat d - length p) f) (drop (Z.to_nat d - length p) f)).
Proof.
  induction fuel as [|fuel IH]; intros d h p f H Hd Hf; unfold len in Hd; cbn.
  { replace (Z.to_nat d - length p)%nat with 0%nat by lia. by rewrite take_0, drop_0, app_nil_r. }
  rewrite (rep_log _ _ H), len_map. unfold len. cbn.
  destruct (Z.ltb_spec (Z.of_nat (length p)) d) as [Hlt|Hge].
  2:{ replace (Z.to_nat d - length p)%nat with 0%nat by lia.
      by rewrite take_0, drop_0, app_nil_r. }
  destruct f as [|e f]; [cbn in *; lia|].
  pose proof (IH d (step_forward h) (p ++ [e]) f (represents_forward _ _ _ _ H)) as Hi.
  rewrite length_app in Hi. cbn [length] in *.
  replace (Z.to_nat d - length p)%nat with (S (Z.to_nat d - (length p + 1))) by lia.
  rewrite <- app_assoc in Hi. cbn in *. apply Hi; unfold len; rewrite ?length_app; cbn; lia.
Qed.

Lemma back_to_noop fuel d h : len (transactionLog h) <= d -> back_to fuel d h = h.
Proof.
  intros H. destruct fuel; cbn; [done|].
  by rewrite (proj2 (Z.ltb_ge d (len (transactionLog h))) H).
Qed.

Lemma goto_depth h t d :
  represents h t -> 0 <= d <= total_depth h ->
  let h1 := back_to (length (transactionLog h)) d h in
  let all := past t ++ future t in
  represents (forward_to (length (undoneTransactionLog h1)) d h1)
    (mkTimeline (take (Z.to_nat d) all) (drop (Z.to_nat d) all)).
Proof.
  intros H Hd h1 all. rewrite (represents_total h t H) in Hd. destruct t as [p f]; cbn in *.
  pose proof (rep_log _ _ H) as Hlog; cbn in Hlog.
  destruct (Z.le_gt_cases d (len p)) as [Hle|Hgt].
  - assert (H1 : represents h1 (mkTimeline (take (Z.to_nat d) p) (drop (Z.to_nat d) p ++ f))).
    { apply back_to_represents; [done| |lia]. rewrite Hlog, length_map. lia. }
    pose proof (forward_to_represents (length (undoneTransactionLog h1)) d h1 _ _ H1) as Hf.
    unfold len in *. rewrite !length_take in Hf. rewrite Nat.min_l in Hf by lia.
    rewrite Nat.sub_diag, take_0, drop_0, app_nil_r in Hf.
    subst all. rewrite take_app_le, drop_app_le by lia.
    apply Hf; [rewrite length_app; lia|lia].
  - assert (Heq : h1 = h) by (subst h1; apply back_to_noop; rewrite Hlog, len_map; lia).
    rewrite Heq.
    pose proof (forward_to_represents (length (undoneTransactionLog h)) d h p f H) as Hf.
    unfold len in *. subst all. rewrite take_app_ge, drop_app_ge by lia.
    apply Hf; [lia|]. rewrite (rep_undone _ _ H). cbn. rewrite length_rev, length_map. lia.
Qed.

(** Restoring a snapshot of a history gives the history back, and
    restoring it at a depth inside the timeline gives the history of the
    same timeline with its cursor at that depth; any other depth is
    refused. *)
Theorem snapshot_restore h t (depth : number) :
  represents h t -> bounds_ok h -> safe_sizes h ->
  fromSnapshot (snapshot h) = Ok h /\
  (if safe_in 0 (total_depth h) depth then
     exists h', fromSnapshotAtDepth (snapshot h) depth = Ok h' /\
       represents h' (mkTimeline (take (Z.to_nat (int_value depth)) (past t ++ future t))
                                 (drop (Z.to_nat (int_value depth)) (past t ++ future t)))
   else fromSnapshotAtDepth (snapshot h) depth
     = Throw (Exn "RangeError" "Editor history depth is outside the timeline")).
Proof.
  intros Ht Hb Hs. pose proof (fromSnapshot_snapshot h Hb Hs) as Hf. split; [done|].
  unfold fromSnapshotAtDepth. rewrite Hf. unfold mbind, result_bind.
  change (len (transactionLog h) + len (undoneTransactionLog h)) with (total_depth h).
  destruct (safe_in 0 (total_depth h) depth) eqn:Ed; [|done].
  eexists; split; [done|]. apply (goto_depth h t); [done|].
  unfold safe_in in Ed. destruct depth as [z| | |]; try discriminate. bool_prop. cbn. lia.
Qed.

Lemma snapshot_restore_witness :
  exists h', fromSnapshotAtDepth (snapshot sample_history) (NInt 1) = Ok h' /\
    represents h' (mkTimeline [mkEntry (LOCAL 2) [sample_change 1; sample_change 2]] [untracked]).
Proof.
  refine (proj2 (snapshot_restore sample_history sample_timeline (NInt 1) sample_represents _ _));
    vm_compute; repeat split; try discriminate; constructor.
Defined.

(** ** The saved state *)

(** Undo and redo steps only, failed ones included. *)
Inductive moves {E} (ex : EditorHistoryExecutor E) : history * E -> history * E -> Prop :=
  | mv_refl st : moves ex st st
  | mv_undo st st' : moves ex st st' -> moves ex st (undo ex st').1
  | mv_redo st st' : moves ex st st' -> moves ex st (redo ex st').1.

(** Moving keeps the timeline as a whole and the saved depth. *)
Definition same_course (h h' : history) (t t' : timeline) : Prop :=
  past t' ++ future t' = past t ++ future t /\ savedChangeDepth h' = savedChangeDepth h.

Lemma course_back h t :
  represents h t -> transactionLog h <> [] ->
  exists t', represents (step_back h) t' /\ same_course h (step_back h) t t'.
Proof.
  intros Ht Hne. destruct (proj1 (represents_cases h t Ht) Hne) as (p & en & Et).
  rewrite Et in *. eexists; split; [by apply represents_back|]. unfold same_course; cbn.
  rewrite <- app_assoc. by rewrite (step_back_fields h p en _ Ht).
Qed.

Lemma course_forward h t :
  represents h t -> undoneTransactionLog h <> [] ->
  exists t', represents (step_forward h) t' /\ same_course h (step_forward h) t t'.
Proof.
  intros Ht Hne. destruct (proj2 (represents_cases h t Ht) Hne) as (en & f & Et).
  rewrite Et in *. eexists; split; [by apply represents_forward|]. unfold same_course; cbn.
  rewrite <- app_assoc. by rewrite (step_forward_fields h _ en f Ht).
Qed.

Lemma moves_course {E} (ex : EditorHistoryExecutor E) st st' t :
  moves ex st st' -> represents st.1 t ->
  exists t', represents st'.1 t' /\ same_course st.1 st'.1 t t'.
Proof.
  intros Hm Ht. induction Hm as [st|st [h e] Hm IH|st [h e] Hm IH]; [by exists t|..];
    destruct (IH Ht) as (t1 & H1 & [Hc Hs]); cbn [fst] in *.
  - pose proof (undo_outcome ex h e) as Ho.
    destruct (undo ex (h, e)) as [[h' e'] [[]|x]]; cbn [fst] in *.
    + destruct Ho as [-> Hne]. destruct (course_back h t1 H1 Hne) as (t2 & H2 & [Hc2 Hs2]).
      exists t2. unfold same_course. by rewrite Hc2, Hs2.
    + destruct Ho as [-> _]. by exists t1.
    + subst. by exists t1.
  - pose proof (redo_outcome ex h e) as Ho.
    assert (Hf : undoneTransactionLog h <> [] -> exists t', represents (step_forward h) t' /\
      same_course st.1 (step_forward h) t t').
    { intros Hne. destruct (course_forward h t1 H1 Hne) as (t2 & H2 & [Hc2 Hs2]).
      exists t2. unfold same_course. by rewrite Hc2, Hs2. }
    destruct (redo ex (h, e)) as [[h' e'] [[]|x]]; cbn [fst] in *.
    + destruct Ho as [-> Hne]. auto.
    + destruct Ho as [-> _]. by exists t1.
    + destruct Ho as [->|(-> & Hne & _)]; [by exists t1|auto].
Qed.

(** After saving, as long as the user only undoes and redoes, the
    history reports "dirty" exactly when the transactions in effect differ
    from those in effect at the save. *)
Theorem isDirty_after_moves {E} (ex : EditorHistoryExecutor E) h e st' t :
  represents h t -> moves ex (markSaved h, e) st' ->
  exists t', represents st'.1 t' /\
    (isDirty (getEditState st'.1) = false <-> past t' = past t).
Proof.
  intros Ht Hm.
  assert (Ht0 : represents (markSaved h) t) by by revert Ht; apply represents_ext.
  destruct (moves_course ex _ _ t Hm Ht0) as (t' & Ht' & [Hc Hs]).
  exists t'. split; [done|]. cbn in *. rewrite Hs.
  rewrite (rep_log _ _ Ht), (rep_log _ _ Ht'), !len_map. rewrite negb_false_iff, Z.eqb_eq.
  split; [|by intros ->]. unfold len. intros Hl.
  assert (length (past t') = length (past t)) as Hl' by lia.
  by apply (app_inj_1 _ _ _ _ Hl') in Hc as [? _].
Qed.

Lemma isDirty_after_moves_witness :
  exists t', represents (undo counting_executor (markSaved sample_history, 0)).1.1 t' /\
    (isDirty (getEditState (undo counting_executor (markSaved sample_history, 0)).1.1) = false
       <-> past t' = past sample_timeline).
Proof.
  apply (isDirty_after_moves counting_executor sample_history 0 _ sample_timeline
    sample_represents).
  apply mv_undo, mv_refl.
Defined.

(** The saved depth is clamped when the redo branch that holds the
    saved state is discarded, so the history can report "clean" for a state
    that was never saved: save with one change, undo it, make another
    change, undo that: the saved change is gone from the log and the history
    says there is nothing to save. *)
Theorem isDirty_misses_discarded_save :
  let ex := counting_executor in
  let saved := markSaved (recordLocalChange (sample_change 1) new_history) in
  let undone := (undo ex (saved, 0)).1.1 in
  let edited := recordLocalChange (sample_change 2) undone in
  let final := (undo ex (edited, 0)).1.1 in
  getChangeLog saved = [sample_change 1] /\ isDirty (getEditState saved) = false /\
  isDirty (getEditState undone) = true /\ isDirty (getEditState edited) = true /\
  getChangeLog final = [] /\ isDirty (getEditState final) = false.
Proof. vm_compute. repeat split. Qed.

(** ** Reconciliation *)

Lemma native_backed_untracked n : native_backed (replicate n LOCAL_UNTRACKED) = Z.of_nat n.
Proof.
  unfold native_backed, len. f_equal. induction n as [|n IH]; [done|]. cbn. by rewrite IH.
Qed.

(** When reconciliation rebuilds the history, the two stacks
    have exactly the native depths, no typed record survives, and
    reconciling again with the same counts changes nothing.  When it leaves
    the history alone, the counts agree or a checkpoint transaction is
    present. *)
Theorem reconcile_correct a b saved h :
  0 <= a <= MAX_SAFE_INTEGER -> 0 <= b <= MAX_SAFE_INTEGER ->
  let '(h', r) := reconcileNativeTransactionCounts (NInt a) (NInt b) saved h in
  match r with
  | Ok true =>
      native_backed (transactionLog h') = a /\ native_backed (undoneTransactionLog h') = b /\
      changeLog h' = [] /\ undoneChangeLog h' = [] /\
      (isDirty (getEditState h') = false <-> saved = true \/ a = 0) /\
      reconcileNativeTransactionCounts (NInt a) (NInt b) saved h' = (h', Ok false)
  | Ok false => h' = h /\
      ((native_backed (transactionLog h) = a /\ native_backed (undoneTransactionLog h) = b) \/
       existsb is_checkpoint (transactionLog h ++ undoneTransactionLog h) = true)
  | Throw _ => False
  end.
Proof.
  intros Ha Hb. unfold reconcileNativeTransactionCounts.
  rewrite !safe_in_int by lia. cbn [negb orb int_value].
  destruct (_ && _) eqn:Ec.
  { bool_prop. auto. }
  destruct (existsb is_checkpoint (transactionLog h) || _) eqn:Ek.
  { split; [done|]. right. by rewrite existsb_app. }
  cbn [transactionLog undoneTransactionLog changeLog undoneChangeLog].
  rewrite !native_backed_untracked, !Z2Nat.id by lia. rewrite !Z.eqb_refl. cbn [andb].
  repeat split; auto; unfold getEditState, len; cbn; rewrite length_replicate, Z2Nat.id by lia.
  - rewrite negb_false_iff, Z.eqb_eq. destruct saved; auto.
  - rewrite negb_false_iff, Z.eqb_eq. intros [->| ->]; [done|]. by destruct saved.
Qed.

Lemma reconcile_correct_witness :
  native_backed (transactionLog
    (reconcileNativeTransactionCounts (NInt 3) (NInt 1) true sample_history).1) = 3.
Proof.
  exact (proj1 (reconcile_correct 3 1 true sample_history
    ltac:(vm_compute; split; discriminate) ltac:(vm_compute; split; discriminate))).
Defined.
