(* ===== verification/SessionModel.v ===== *)
(** * Session state and sync waiters ([packages/client/src/editor_session_model.ts])

    [EditorSessionModel]: the file size, change count and sync version last
    heard of from the session, and the callers that wait for the version to
    pass a minimum.  A waiter is a promise with a timer; the event loop may
    run the timer at any turn until it is cleared, so the class is a state
    machine whose steps are the public methods and the firing of a timer.
    The main theorem accounts for every waiter in every reachable state. *)

From S2P Require Import Prelude.

(** [SessionEventKind] of [session.ts]. *)
Inductive SessionEventKind :=
  | SE_UNSPECIFIED | SE_CREATE | SE_EDIT | SE_UNDO | SE_CLEAR | SE_TRANSFORM
  | SE_CREATE_CHECKPOINT | SE_DESTROY_CHECKPOINT | SE_SAVE | SE_CHANGES_PAUSED
  | SE_CHANGES_RESUMED | SE_CREATE_VIEWPORT | SE_DESTROY_VIEWPORT
  | SE_TRANSACTION_STARTED | SE_TRANSACTION_ENDED | SE_TRANSFORM_STARTED
  | SE_TRANSFORM_PROGRESS | SE_TRANSFORM_COMPLETED | SE_TRANSFORM_FAILED
  | SE_RESTORE_CHECKPOINT.

(** ** State

    A promise is known by a number, handed out in order; its waiter object
    and its timer carry the same number. *)
Record SessionSyncWaiter := mkWaiter { w_id : nat; minimumVersion : Z }.

Inductive settlement := Resolved | Rejected (e : exn).

Record EditorSessionModelOptions := mkOptions {
  o_sessionId : jsstring;
  o_viewportId : jsstring;
  o_fileSize : Z;
  o_changeCount : option Z
}.

Record EditorSessionStateSnapshot := mkStateSnapshot {
  ss_sessionId : jsstring;
  ss_viewportId : jsstring;
  ss_fileSize : Z;
  ss_changeCount : Z;
  ss_syncVersion : Z
}.

Record EditorSessionEventLike := mkEvent {
  ev_kind : SessionEventKind;
  ev_computedFileSize : Z;
  ev_changeCount : Z
}.

(** The fields of the class, and what the runtime keeps for it: the timers
    that are set, the promises handed out so far, and every call of a
    [resolve] or [reject] with the version at that moment. *)
Record model := mkModel {
  sessionId : jsstring;
  viewportId : jsstring;
  fileSize : Z;
  changeCount : Z;
  syncVersion : Z;
  waiters : list SessionSyncWaiter;
  timers : list nat;
  promises : list Z;
  settled : list (nat * settlement * Z)
}.

Definition new_model (o : EditorSessionModelOptions) : model :=
  mkModel (o_sessionId o) (o_viewportId o) (o_fileSize o) (default 0 (o_changeCount o))
    0 [] [] [] [].

Definition getSnapshot (m : model) : EditorSessionStateSnapshot :=
  mkStateSnapshot (sessionId m) (viewportId m) (fileSize m) (changeCount m) (syncVersion m).

Definition set_state (size count version : Z) (m : model) : model :=
  mkModel (sessionId m) (viewportId m) size count version (waiters m) (timers m)
    (promises m) (settled m).

Definition set_waiters (ws : list SessionSyncWaiter) (m : model) : model :=
  mkModel (sessionId m) (viewportId m) (fileSize m) (changeCount m) (syncVersion m) ws
    (timers m) (promises m) (settled m).

Definition clearTimeout (id : nat) (m : model) : model :=
  mkModel (sessionId m) (viewportId m) (fileSize m) (changeCount m) (syncVersion m)
    (waiters m) (List.filter (fun t => negb (t =? id)%nat) (timers m)) (promises m) (settled m).

Definition removeWaiter (id : nat) (m : model) : model :=
  set_waiters (List.filter (fun w => negb (w_id w =? id)%nat) (waiters m)) m.

Definition settle (id : nat) (s : settlement) (m : model) : model :=
  mkModel (sessionId m) (viewportId m) (fileSize m) (changeCount m) (syncVersion m)
    (waiters m) (timers m) (promises m) (settled m ++ [(id, s, syncVersion m)]).

(** The waiter's two methods. *)
Definition waiter_resolve (id : nat) (m : model) : model :=
  settle id Resolved (removeWaiter id m).
Definition waiter_reject (id : nat) (e : exn) (m : model) : model :=
  settle id (Rejected e) (removeWaiter id m).

(** ** Operations *)

Definition updateViewportId (v : jsstring) (m : model) : model :=
  mkModel (sessionId m) v (fileSize m) (changeCount m) (syncVersion m) (waiters m)
    (timers m) (promises m) (settled m).

(** The loop runs over the array as it was when the loop began. *)
Fixpoint resolve_loop (ws remaining : list SessionSyncWaiter) (m : model)
  : list SessionSyncWaiter * model :=
  match ws with
  | [] => (remaining, m)
  | w :: ws =>
      if minimumVersion w <? syncVersion m
      then resolve_loop ws remaining (waiter_resolve (w_id w) (clearTimeout (w_id w) m))
      else resolve_loop ws (remaining ++ [w]) m
  end.

Definition resolveSyncWaiters (m : model) : model :=
  let '(remainingWaiters, m') := resolve_loop (waiters m) [] m in
  set_waiters remainingWaiters m'.

Definition applySessionStateUpdate (nextFileSize nextChangeCount : Z) (m : model) : model :=
  resolveSyncWaiters (set_state nextFileSize nextChangeCount (syncVersion m + 1) m).

Definition tracked_kind (k : SessionEventKind) : bool :=
  match k with
  | SE_EDIT | SE_UNDO | SE_CLEAR | SE_TRANSFORM | SE_CREATE_CHECKPOINT
  | SE_RESTORE_CHECKPOINT => true
  | _ => false
  end.

Definition trackSessionEvent (ev : EditorSessionEventLike) (m : model) : model * bool :=
  if tracked_kind (ev_kind ev)
  then (applySessionStateUpdate (ev_computedFileSize ev) (ev_changeCount ev) m, true)
  else (m, false).

(** [None]: returned at once; [Some id]: the caller awaits promise [id]. *)
Definition waitForSync (minimum : Z) (m : model) : model * option nat :=
  if minimum <? syncVersion m then (m, None)
  else
    let id := length (promises m) in
    (mkModel (sessionId m) (viewportId m) (fileSize m) (changeCount m) (syncVersion m)
       (waiters m ++ [mkWaiter id minimum]) (timers m ++ [id]) (promises m ++ [minimum])
       (settled m), Some id).

Definition timeout_error : exn := plain_error "Timed out waiting for session sync".

(** The timer of [id] runs: it is no longer set, and its callback rejects
    the waiter. *)
Definition fire_timer (id : nat) (m : model) : model :=
  waiter_reject id timeout_error (clearTimeout id m).

Fixpoint reject_loop (ws : list SessionSyncWaiter) (e : exn) (m : model) : model :=
  match ws with
  | [] => m
  | w :: ws => reject_loop ws e (waiter_reject (w_id w) e (clearTimeout (w_id w) m))
  end.

Definition rejectSyncWaiters (e : exn) (m : model) : model :=
  reject_loop (waiters m) e (set_waiters [] m).

Definition disposed_error : exn := plain_error "Session disposed before sync completed".

Definition dispose (error : option exn) (m : model) : model :=
  rejectSyncWaiters (default disposed_error error) m.

(** ** Runs *)

Inductive step : model -> model -> Prop :=
  | s_viewport v m : step m (updateViewportId v m)
  | s_update size count m : step m (applySessionStateUpdate size count m)
  | s_event ev m : step m (trackSessionEvent ev m).1
  | s_wait minimum m : step m (waitForSync minimum m).1
  | s_timer id m : id ∈ timers m -> step m (fire_timer id m)
  | s_reject e m : step m (rejectSyncWaiters e m)
  | s_dispose e m : step m (dispose e m).

Definition reachable (o : EditorSessionModelOptions) : model -> Prop :=
  rtc step (new_model o).

(** ** The account of the promises *)

Definition settled_ids (m : model) : list nat := map (fun x => x.1.1) (settled m).
Definition pending_ids (m : model) : list nat := map w_id (waiters m).

Record accounted (m : model) : Prop := mkAccounted {
  (* every promise is pending or settled, not both, and settled once *)
  ac_partition : pending_ids m ++ settled_ids m ≡ₚ seq 0 (length (promises m));
  (* exactly the pending ones have a timer set *)
  ac_timers : timers m ≡ₚ pending_ids m;
  (* a pending waiter's minimum is the one asked for, and not yet passed *)
  ac_pending w : w ∈ waiters m ->
    promises m !! w_id w = Some (minimumVersion w) /\ syncVersion m <= minimumVersion w;
  (* a promise was resolved only once the version had passed its minimum *)
  ac_settled id s v : (id, s, v) ∈ settled m -> v <= syncVersion m /\
    exists minimum, promises m !! id = Some minimum /\
      match s with Resolved => minimum < v | Rejected _ => v <= minimum end
}.

(** ** Settling a group of waiters *)

(** What both loops do with each waiter they settle. *)
Definition finish (s : settlement) (ws : list SessionSyncWaiter) (m : model) : model :=
  foldl (fun m w => settle (w_id w) s (removeWaiter (w_id w) (clearTimeout (w_id w) m))) m ws.

Definition away_from (ids : list nat) (i : nat) : bool := negb (existsb (Nat.eqb i) ids).

Lemma away_from_spec ids i : away_from ids i = true <-> i ∉ ids.
Proof.
  unfold away_from. rewrite negb_true_iff, <- not_true_iff_false, existsb_exists.
  split; intros H Hi; apply H.
  - exists i. split; [by apply list_elem_of_In|apply Nat.eqb_refl].
  - destruct Hi as (j & Hj & E). apply Nat.eqb_eq in E as ->. by apply list_elem_of_In.
Qed.

Lemma filter_away_cons {A} (f : A -> nat) i ids (l : list A) :
  List.filter (fun x => away_from ids (f x)) (List.filter (fun x => negb (f x =? i)%nat) l)
  = List.filter (fun x => away_from (i :: ids) (f x)) l.
Proof.
  induction l as [|x l IH]; [done|]. cbn.
  unfold away_from at 2. cbn. destruct (f x =? i)%nat; cbn; [done|].
  fold (away_from ids (f x)). destruct (away_from ids (f x)); by rewrite IH.
Qed.

Lemma finish_fields s ws m :
  finish s ws m = mkModel (sessionId m) (viewportId m) (fileSize m) (changeCount m)
    (syncVersion m) (List.filter (fun w => away_from (map w_id ws) (w_id w)) (waiters m))
    (List.filter (fun t => away_from (map w_id ws) t) (timers m)) (promises m)
    (settled m ++ map (fun w => (w_id w, s, syncVersion m)) ws).
Proof.
  revert m; induction ws as [|w ws IH]; intros m.
  - cbn. assert (Hf : forall A (l : list A), List.filter (fun _ => true) l = l)
      by (intros A l; induction l; cbn; congruence).
    unfold away_from. cbn. rewrite !Hf, app_nil_r. by destruct m.
  - transitivity (finish s ws (settle (w_id w) s
      (removeWaiter (w_id w) (clearTimeout (w_id w) m)))); [done|]. rewrite IH. cbn.
    rewrite (filter_away_cons w_id), (filter_away_cons (fun t => t)), <- app_assoc. done.
Qed.

Definition passed (v : Z) (w : SessionSyncWaiter) : bool := minimumVersion w <? v.

Lemma resolve_loop_finish ws : forall remaining m,
  resolve_loop ws remaining m =
  (remaining ++ List.filter (fun w => negb (passed (syncVersion m) w)) ws,
   finish Resolved (List.filter (passed (syncVersion m)) ws) m).
Proof.
  induction ws as [|w ws IH]; intros remaining m; cbn [resolve_loop]; [cbn; by rewrite app_nil_r|].
  cbn [List.filter]. change (minimumVersion w <? syncVersion m) with (passed (syncVersion m) w).
  destruct (passed (syncVersion m) w); cbn [negb]; rewrite IH; [done|].
  by rewrite <- app_assoc.
Qed.

Lemma reject_loop_finish ws e m : reject_loop ws e m = finish (Rejected e) ws m.
Proof. revert m; induction ws as [|w ws IH]; intros m; [done|]. apply IH. Qed.

Lemma filter_away_app (g k l : list nat) :
  NoDup (g ++ k) -> l ≡ₚ g ++ k -> List.filter (away_from g) l ≡ₚ k.
Proof.
  intros Hnd ->. apply NoDup_app in Hnd as (_ & Hd & _). rewrite List.filter_app.
  assert (E1 : forall h, (forall x, x ∈ h -> x ∈ g) -> List.filter (away_from g) h = []).
  { induction h as [|x h IH]; intros Hh; [done|]. cbn.
    destruct (away_from g x) eqn:E.
    - apply away_from_spec in E. destruct E. apply Hh. by left.
    - apply IH. intros y Hy. apply Hh. by right. }
  assert (E2 : forall h, (forall x, x ∈ h -> x ∉ g) -> List.filter (away_from g) h = h).
  { induction h as [|x h IH]; intros Hh; [done|]. cbn.
    rewrite (proj2 (away_from_spec g x)) by (apply Hh; by left).
    f_equal. apply IH. intros y Hy. apply Hh. by right. }
  rewrite E1 by done. rewrite E2; [done|]. intros x Hx Hg. by apply (Hd x).
Qed.

Lemma accounted_nodup m : accounted m -> NoDup (pending_ids m).
Proof.
  intros H. pose proof (NoDup_seq 0 (length (promises m))) as Hs.
  rewrite <- (ac_partition m H) in Hs. by apply NoDup_app in Hs as (? & _ & _).
Qed.

(** The waiters [gone] are settled the same way while the others stay. *)
Lemma finish_accounted m size count v s gone kept :
  accounted m -> waiters m ≡ₚ gone ++ kept -> syncVersion m <= v ->
  (forall w, w ∈ gone ->
     match s with Resolved => minimumVersion w < v | Rejected _ => v <= minimumVersion w end) ->
  (forall w, w ∈ kept -> v <= minimumVersion w) ->
  accounted (set_waiters kept (finish s gone (set_state size count v m))).
Proof.
  intros Ha Hw Hv Hg Hk. pose proof (accounted_nodup m Ha) as Hnd.
  destruct Ha as [Hp Ht Hpend Hset].
  assert (Hids : pending_ids m ≡ₚ map w_id gone ++ map w_id kept)
    by (unfold pending_ids; by rewrite Hw, map_app).
  rewrite finish_fields. constructor; unfold pending_ids, settled_ids in *; cbn.
  - rewrite map_app, map_map. cbn. rewrite <- Hp, Hids. solve_Permutation.
  - rewrite Hids in Hnd. apply (filter_away_app _ _ _ Hnd). by rewrite Ht, Hids.
  - intros w Hin. split; [|by apply Hk]. apply Hpend. rewrite Hw. apply elem_of_app. by right.
  - intros id s' v' Hin. apply elem_of_app in Hin as [Hin|Hin].
    + destruct (Hset _ _ _ Hin) as [? ?]. split; [lia|done].
    + apply list_elem_of_In, in_map_iff in Hin as (w & [= <- <- <-] & Hin).
      apply list_elem_of_In in Hin. split; [lia|]. exists (minimumVersion w).
      split; [|by apply Hg]. apply Hpend. rewrite Hw. apply elem_of_app. by left.
Qed.

Lemma filter_split {A} (f : A -> bool) l :
  l ≡ₚ List.filter f l ++ List.filter (fun x => negb (f x)) l.
Proof.
  induction l as [|x l IH]; [done|]. cbn. destruct (f x); cbn; rewrite IH at 1; solve_Permutation.
Qed.

Lemma set_state_id m : set_state (fileSize m) (changeCount m) (syncVersion m) m = m.
Proof. by destruct m. Qed.

Lemma accounted_update size count m :
  accounted m -> accounted (applySessionStateUpdate size count m).
Proof.
  intros Ha. unfold applySessionStateUpdate, resolveSyncWaiters.
  rewrite resolve_loop_finish. cbn [app].
  apply finish_accounted; try done.
  - apply filter_split.
  - lia.
  - intros w Hw. apply list_elem_of_In, filter_In in Hw as [_ Hw]. unfold passed in Hw.
    cbn in Hw. by bool_prop.
  - intros w Hw. apply list_elem_of_In, filter_In in Hw as [_ Hw]. unfold passed in Hw.
    cbn in Hw. by bool_prop.
Qed.

Lemma accounted_reject e m : accounted m -> accounted (rejectSyncWaiters e m).
Proof.
  intros Ha. unfold rejectSyncWaiters. rewrite reject_loop_finish.
  replace (finish _ _ _) with (set_waiters [] (finish (Rejected e) (waiters m)
    (set_state (fileSize m) (changeCount m) (syncVersion m) m)))
    by (rewrite set_state_id, !finish_fields; done).
  apply finish_accounted; try done.
  - by rewrite app_nil_r.
  - intros w Hw. by apply (ac_pending m Ha).
  - intros w Hw. by apply not_elem_of_nil in Hw.
Qed.

Lemma accounted_wait minimum m : accounted m -> accounted (waitForSync minimum m).1.
Proof.
  intros Ha. unfold waitForSync. destruct (Z.ltb_spec minimum (syncVersion m)); [done|].
  destruct Ha as [Hp Ht Hpend Hset].
  constructor; unfold pending_ids, settled_ids in *; cbn.
  - rewrite map_app, length_app, seq_app. cbn. rewrite <- Hp. solve_Permutation.
  - rewrite map_app, Ht. done.
  - intros w Hw. apply elem_of_app in Hw as [Hw|Hw].
    + destruct (Hpend w Hw) as [Hl ?]. split; [|done]. by apply lookup_app_l_Some.
    + apply list_elem_of_singleton in Hw as ->. cbn. split; [|done].
      rewrite lookup_app_r, Nat.sub_diag; done.
  - intros id s v Hin. destruct (Hset _ _ _ Hin) as [? (mv & Hl & Hs)].
    split; [done|]. exists mv. split; [|done]. by apply lookup_app_l_Some.
Qed.

Lemma accounted_timer id m : accounted m -> id ∈ timers m -> accounted (fire_timer id m).
Proof.
  intros Ha Hid. rewrite (ac_timers m Ha) in Hid.
  apply list_elem_of_In, in_map_iff in Hid as (w & Hw & Hin).
  pose proof (accounted_nodup m Ha) as Hnd.
  set (kept := List.filter (fun w => negb (w_id w =? id)%nat) (waiters m)).
  change (fire_timer id m) with (finish (Rejected timeout_error) [mkWaiter id (minimumVersion w)] m).
  replace (finish _ _ m) with (set_waiters kept (finish (Rejected timeout_error) [w]
    (set_state (fileSize m) (changeCount m) (syncVersion m) m))).
  2:{ rewrite set_state_id. unfold finish; cbn. rewrite Hw. done. }
  apply finish_accounted; try done.
  - rewrite (filter_split (fun w => w_id w =? id)%nat (waiters m)) at 1.
    fold kept. f_equiv. subst kept. unfold pending_ids in Hnd.
    clear -Hw Hin Hnd. induction (waiters m) as [|x l IH]; [done|]. cbn in *.
    apply NoDup_cons in Hnd as [Hx Hnd]. destruct Hin as [->|Hin].
    + rewrite (proj2 (Nat.eqb_eq _ _) Hw).
      assert (E : List.filter (fun w => w_id w =? id)%nat l = []); [|by rewrite E].
      clear IH. induction l as [|y l IH]; [done|]. cbn in *.
      apply not_elem_of_cons in Hx as [Hxy Hx]. apply NoDup_cons in Hnd as [_ Hnd].
      rewrite (proj2 (Nat.eqb_neq _ _)) by congruence. by apply IH.
    + rewrite (proj2 (Nat.eqb_neq _ _)); [by apply IH|].
      intros E. apply Hx. rewrite E, <- Hw. by apply list_elem_of_In, in_map.
  - intros x Hx. apply list_elem_of_singleton in Hx as ->.
    apply (ac_pending m Ha). by apply list_elem_of_In.
  - intros x Hx. apply list_elem_of_In, filter_In in Hx as [Hx _].
    apply (ac_pending m Ha). by apply list_elem_of_In.
Qed.

Lemma accounted_step m m' : accounted m -> step m m' -> accounted m'.
Proof.
  intros Ha Hs. destruct Hs.
  - by destruct Ha; constructor.
  - by apply accounted_update.
  - unfold trackSessionEvent. destruct (tracked_kind _); [by apply accounted_update|done].
  - by apply accounted_wait.
  - by apply accounted_timer.
  - by apply accounted_reject.
  - by apply accounted_reject.
Qed.

Lemma reachable_accounted o m : reachable o m -> accounted m.
Proof.
  intros Hr. assert (H0 : accounted (new_model o)) by (constructor; cbn; try done; set_solver).
  unfold reachable in Hr. induction Hr; eauto using accounted_step.
Qed.

(** ** Theorems *)

(** In every reachable state each promise handed out by
    [waitForSync] is either pending or was settled exactly once; the pending
    ones, and no others, have a timer set and ask for a version not yet
    passed; a promise was resolved only after the version had passed its
    minimum, and rejected only before. *)
Theorem sync_waiters_accounted o m : reachable o m -> accounted m.
Proof. apply reachable_accounted. Qed.

Definition sample_options : EditorSessionModelOptions := mkOptions [] [] 10 None.

Lemma sync_waiters_accounted_witness :
  accounted (fire_timer 1 (waitForSync 3 (applySessionStateUpdate 11 1
    (waitForSync 0 (new_model sample_options)).1)).1).
Proof.
  apply (sync_waiters_accounted sample_options).
  eapply rtc_l; [apply (s_wait 0)|]. eapply rtc_l; [apply (s_update 11 1)|].
  eapply rtc_l; [apply (s_wait 3)|]. eapply rtc_once, s_timer. vm_compute. left.
Defined.

Lemma update_fields size count m :
  let m' := applySessionStateUpdate size count m in
  let v := syncVersion m + 1 in
  fileSize m' = size /\ changeCount m' = count /\ syncVersion m' = v /\
  promises m' = promises m /\
  waiters m' = List.filter (fun w => negb (passed v w)) (waiters m) /\
  settled m' = settled m ++
    map (fun w => (w_id w, Resolved, v)) (List.filter (passed v) (waiters m)).
Proof.
  cbv zeta. unfold applySessionStateUpdate, resolveSyncWaiters.
  rewrite resolve_loop_finish, finish_fields. done.
Qed.

Definition updates (us : list (Z * Z)) (m : model) : model :=
  foldl (fun m u => applySessionStateUpdate u.1 u.2 m) m us.

Lemma updates_settled us m x : x ∈ settled m -> x ∈ settled (updates us m).
Proof.
  revert m; induction us as [|[size count] us IH]; intros m Hx; [done|].
  apply IH. cbn. destruct (update_fields size count m) as (_ & _ & _ & _ & _ & ->).
  apply elem_of_app. by left.
Qed.

(** A pending waiter is resolved by session updates: as many as
    its minimum is ahead of the version, plus one, whatever sizes and counts
    they report; and it is resolved exactly when the version passes the
    minimum, not at a later update. *)
Theorem waiter_resolved_by_updates o m w us :
  reachable o m -> w ∈ waiters m ->
  minimumVersion w - syncVersion m < Z.of_nat (length us) ->
  (w_id w, Resolved, minimumVersion w + 1) ∈ settled (updates us m).
Proof.
  intros Hr Hw. apply reachable_accounted in Hr as Ha. clear Hr.
  revert m Ha Hw; induction us as [|[size count] us IH]; intros m Ha Hw Hn.
  { apply (ac_pending m Ha) in Hw. cbn in Hn. lia. }
  change (updates ((size, count) :: us) m)
    with (updates us (applySessionStateUpdate size count m)).
  destruct (update_fields size count m) as (_ & _ & Hv & _ & Hws & Hset).
  destruct (passed (syncVersion m + 1) w) eqn:E.
  - apply updates_settled. rewrite Hset. apply elem_of_app. right.
    destruct (ac_pending m Ha w Hw) as [_ Hle]. unfold passed in E. bool_prop.
    replace (minimumVersion w + 1) with (syncVersion m + 1) by lia.
    apply list_elem_of_In, in_map_iff. exists w. split; [done|].
    apply filter_In. split; [by apply list_elem_of_In|]. apply Z.ltb_lt. lia.
  - apply IH; [by apply accounted_update|..].
    + rewrite Hws. apply list_elem_of_In, filter_In. rewrite E.
      split; [by apply list_elem_of_In|done].
    + rewrite Hv. cbn [length] in Hn. lia.
Qed.

Lemma waiter_resolved_by_updates_witness :
  (0%nat, Resolved, 2) ∈ settled (updates [(5, 1); (6, 2)]
    (waitForSync 1 (new_model sample_options)).1).
Proof.
  apply (waiter_resolved_by_updates sample_options _ (mkWaiter 0 1) [(5, 1); (6, 2)]).
  - apply rtc_once, (s_wait 1).
  - apply list_elem_of_singleton. reflexivity.
  - reflexivity.
Defined.

(** After [dispose] nothing waits and no timer is set: every
    waiter that was pending has been rejected with the given error (or the
    default one), in the order of arrival, and nothing else was settled. *)
Theorem dispose_rejects_all o m error :
  reachable o m ->
  let m' := dispose error m in
  waiters m' = [] /\ timers m' = [] /\
  settled m' = settled m ++ map (fun w =>
    (w_id w, Rejected (default disposed_error error), syncVersion m)) (waiters m).
Proof.
  intros Hr. apply reachable_accounted in Hr as Ha. cbv zeta.
  pose proof (accounted_reject (default disposed_error error) m Ha) as Ha'.
  unfold dispose. unfold rejectSyncWaiters in *. rewrite reject_loop_finish in *.
  rewrite finish_fields in *. cbn in *. split; [done|]. split; [|done].
  pose proof (ac_timers _ Ha') as Ht. cbn in Ht. by apply Permutation_nil_r in Ht.
Qed.

Lemma dispose_rejects_all_witness :
  settled (dispose None (waitForSync 1 (new_model sample_options)).1)
  = [(0%nat, Rejected disposed_error, 0)].
Proof.
  destruct (dispose_rejects_all sample_options (waitForSync 1 (new_model sample_options)).1 None)
    as (_ & _ & E); [apply rtc_once, (s_wait 1)|]. exact E.
Defined.
