(* ===== verification/MutationQueue.v ===== *)
(** * The per-session mutation queue ([packages/client/src/mutation_queue.ts])

    [enqueueSessionMutation] runs a task in its session's turn: it chains
    the task behind the session's tail promise, and runs it at once when the
    caller is already inside a task of the same session, which
    [AsyncLocalStorage] tells it.  The interleaving of asynchronous code is
    a step relation: a configuration is a set of threads (asynchronous call
    chains), each a stack of task bodies, and a step lets one thread run to
    its next [await].

    Shown: tasks of one session never overlap and run in order of arrival,
    the map of tails holds exactly the sessions with outstanding tasks, and
    every run ends with all tasks finished as long as nested calls follow an
    order on the sessions.  Without such an order they can deadlock. *)

From S2P Require Import Prelude.

(** ** Tasks

    A task does some work, calls [await enqueueSessionMutation(s, body)] and
    goes on with the outcome ([true]: returned, [false]: threw), or ends. *)
Abbreviation sid := jsstring.

Inductive task :=
  | Return (ok : bool)
  | Work (tag : Z) (k : task)
  | Mutate (s : sid) (body : task) (k : bool -> task).

(** ** The queue *)

Inductive call_status := Waiting | Running | Released.

#[global] Instance call_status_eq_dec : EqDecision call_status.
Proof. solve_decision. Defined.

(** One entry per call that queued.  [c_prior] is its [priorTail] ([None]:
    the resolved promise); its own [nextTail] is known by its index. *)
Record call := mkCall { c_session : sid; c_prior : option nat; c_status : call_status }.

Record queue := mkQueue { calls : list call; sessionMutationTails : gmap sid nat }.

(** [nextTail] of call [n]: resolved once the prior tail is and the call has
    released its own signal. *)
Fixpoint tail_settled (fuel : nat) (cs : list call) (n : nat) : bool :=
  match fuel with
  | O => false
  | S fuel =>
      match cs !! n with
      | None => false
      | Some c => bool_decide (c_status c = Released) &&
          match c_prior c with None => true | Some p => tail_settled fuel cs p end
      end
  end.

(** Up to the first [await]. *)
Definition enqueue (s : sid) (q : queue) : queue * nat :=
  let n := length (calls q) in
  (mkQueue (calls q ++ [mkCall s (sessionMutationTails q !! s) Waiting])
     (<[s := n]> (sessionMutationTails q)), n).

(** [await priorTail] may go on. *)
Definition may_start (n : nat) (q : queue) : bool :=
  match calls q !! n with
  | None => false
  | Some c => match c_prior c with None => true | Some p => tail_settled (S p) (calls q) p end
  end.

Definition set_status (st : call_status) (c : call) : call :=
  mkCall (c_session c) (c_prior c) st.

Definition start (n : nat) (q : queue) : queue :=
  mkQueue (alter (set_status Running) n (calls q)) (sessionMutationTails q).

(** The [finally] block. *)
Definition release (n : nat) (q : queue) : queue :=
  let cs := alter (set_status Released) n (calls q) in
  match calls q !! n with
  | None => q
  | Some c => mkQueue cs
      (if bool_decide (sessionMutationTails q !! c_session c = Some n)
       then delete (c_session c) (sessionMutationTails q) else sessionMutationTails q)
  end.

(** ** Threads

    A frame is a task body with the value of [activeSessionMutation] it
    runs under (with the call that set it) and the call it must release at
    its end, if it queued. *)
Record frame := mkFrame {
  f_store : option (sid * nat);
  f_held : option nat;
  f_task : task
}.

(** A frame that awaits a nested call. *)
Record suspended := mkSuspended {
  p_store : option (sid * nat);
  p_held : option nat;
  p_next : bool -> task
}.

Inductive thread :=
  | Active (top : frame) (below : list suspended)
  | Finished (ok : bool).

Record config := mkConfig {
  cq : queue;
  threads : list thread;
  work_log : list (option (sid * nat) * Z)
}.

Definition in_session (s : sid) (store : option (sid * nat)) : bool :=
  match store with Some (s', _) => bool_decide (s' = s) | None => false end.

Definition set_thread (i : nat) (t : thread) (q : queue) (c : config) : config :=
  mkConfig q (<[i := t]> (threads c)) (work_log c).

(** The waiting call a frame must get past before it runs. *)
Definition blocked_on (q : queue) (f : frame) : option nat :=
  match f_held f with
  | Some n => match calls q !! n with
      | Some c => if bool_decide (c_status c = Waiting) then Some n else None
      | None => None
      end
  | None => None
  end.

(** [enqueueSessionMutation(s, body)] called under [store]. *)
Definition enqueueSessionMutation (s : sid) (body : task) (store : option (sid * nat))
    (q : queue) : queue * frame :=
  if in_session s store then (q, mkFrame store None body)
  else let '(q', n) := enqueue s q in (q', mkFrame (Some (s, n)) (Some n) body).

Definition step_thread (i : nat) (c : config) : option config :=
  let q := cq c in
  match threads c !! i with
  | Some (Active top below) =>
      match blocked_on q top with
      | Some n =>
          if may_start n q then Some (set_thread i (Active top below) (start n q) c) else None
      | None =>
          match f_task top with
          | Work tag k =>
              Some (mkConfig q (<[i := Active (mkFrame (f_store top) (f_held top) k) below]>
                (threads c)) (work_log c ++ [(f_store top, tag)]))
          | Mutate s body k =>
              let '(q', f) := enqueueSessionMutation s body (f_store top) q in
              Some (set_thread i (Active f (mkSuspended (f_store top) (f_held top) k :: below)) q' c)
          | Return ok =>
              let q' := match f_held top with Some n => release n q | None => q end in
              let t := match below with
                | [] => Finished ok
                | p :: below =>
                    Active (mkFrame (p_store p) (p_held p) (p_next p ok)) below
                end in
              Some (set_thread i t q' c)
          end
      end
  | _ => None
  end.

Definition step (c c' : config) : Prop := exists i, step_thread i c = Some c'.

(** Top-level callers, under no session. *)
Definition initial (tasks : list task) : config :=
  mkConfig (mkQueue [] ∅) (map (fun t => Active (mkFrame None None t) []) tasks) [].

(** ** The queue's invariant *)

Definition released_before (cs : list call) (s : sid) (n : nat) : Prop :=
  forall m c, (m < n)%nat -> cs !! m = Some c -> c_session c = s -> c_status c = Released.

Record queue_ok (q : queue) : Prop := mkQueueOk {
  (* the tail of a session is its last call, not yet released *)
  qi_tail s n : sessionMutationTails q !! s = Some n ->
    (exists c, calls q !! n = Some c /\ c_session c = s /\ c_status c <> Released) /\
    forall m c, (n < m)%nat -> calls q !! m = Some c -> c_session c <> s;
  (* a session with no tail has no outstanding call *)
  qi_none s : sessionMutationTails q !! s = None -> released_before (calls q) s (length (calls q));
  (* the prior tail of a call is the session's previous call *)
  qi_prior n c p : calls q !! n = Some c -> c_prior c = Some p ->
    (p < n)%nat /\ (exists cp, calls q !! p = Some cp /\ c_session cp = c_session c) /\
    forall m c', (p < m < n)%nat -> calls q !! m = Some c' -> c_session c' <> c_session c;
  qi_noprior n c : calls q !! n = Some c -> c_prior c = None ->
    released_before (calls q) (c_session c) n;
  (* a call that has started comes after all earlier ones of its session *)
  qi_order n c : calls q !! n = Some c -> c_status c <> Waiting ->
    released_before (calls q) (c_session c) n
}.

Lemma alter_status_inv st (n : nat) (cs : list call) m c' :
  alter (set_status st) n cs !! m = Some c' ->
  exists c, cs !! m = Some c /\ c_session c' = c_session c /\ c_prior c' = c_prior c /\
    (m = n /\ c_status c' = st \/ m <> n /\ c' = c).
Proof.
  destruct (decide (m = n)) as [->|Hne].
  - rewrite list_lookup_alter_eq. destruct (cs !! n) as [c|]; [|done]. intros [= <-].
    exists c. cbn. auto 10.
  - rewrite list_lookup_alter_ne by done. intros E. exists c'. auto 10.
Qed.

Lemma alter_status st (n : nat) (cs : list call) m c :
  cs !! m = Some c -> exists c', alter (set_status st) n cs !! m = Some c' /\
    c_session c' = c_session c /\ c_prior c' = c_prior c /\
    (m = n /\ c_status c' = st \/ m <> n /\ c' = c).
Proof.
  intros E. destruct (decide (m = n)) as [->|Hne].
  - rewrite list_lookup_alter_eq, E. eexists; split; [done|]. cbn. auto 10.
  - rewrite list_lookup_alter_ne by done. exists c. auto 10.
Qed.

Lemma snoc_lookup_inv {A} (l : list A) x m y :
  (l ++ [x]) !! m = Some y -> l !! m = Some y \/ m = length l /\ y = x.
Proof.
  intros E. apply lookup_snoc_Some in E as [[? ?]|[? ?]]; [by left|]. right. by subst.
Qed.

Lemma released_before_alter st (n : nat) (cs : list call) s k :
  (st <> Released -> forall c, cs !! n = Some c -> c_status c <> Released) ->
  released_before cs s k -> released_before (alter (set_status st) n cs) s k.
Proof.
  intros Hst Hb m c Hm E Hs. apply alter_status_inv in E as (c0 & E & Es & _ & Hc).
  rewrite Es in Hs. pose proof (Hb m c0 Hm E Hs) as Hr.
  destruct Hc as [[-> Hst']|[_ ->]]; [|done].
  destruct (decide (st = Released)); [congruence|]. by edestruct Hst.
Qed.

Lemma released_before_snoc cs x s k :
  (k <= length cs)%nat -> released_before cs s k -> released_before (cs ++ [x]) s k.
Proof.
  intros Hk Hb m c Hm E. rewrite lookup_app_l in E by lia. by apply (Hb m).
Qed.

(** *** Entering the queue *)

Lemma enqueue_ok s q : queue_ok q -> queue_ok (enqueue s q).1.
Proof.
  intros [Htail Hnone Hprior Hnoprior Horder]. constructor; cbn.
  - intros s' n E. destruct (decide (s' = s)) as [->|Hne].
    + rewrite lookup_insert_eq in E. injection E as <-. split.
      * rewrite lookup_app_r, Nat.sub_diag by done. eexists; split; [done|]. done.
      * intros m c Hm Em. apply lookup_lt_Some in Em. rewrite length_app in Em. cbn in Em. lia.
    + rewrite lookup_insert_ne in E by done. destruct (Htail s' n E) as [(c & Ec & Hc) Hl].
      split; [exists c; split; [by apply lookup_app_l_Some|done]|].
      intros m c' Hm Em. apply snoc_lookup_inv in Em as [Em|[_ ->]]; [by eapply Hl|]. done.
  - intros s' E. destruct (decide (s' = s)) as [->|Hne].
    { by rewrite lookup_insert_eq in E. }
    rewrite lookup_insert_ne in E by done. intros m c Hm Em Hs.
    apply snoc_lookup_inv in Em as [Em|[_ ->]]; [|by subst].
    apply (Hnone s' E m); [by apply lookup_lt_Some in Em|done..].
  - intros n c p En Ep. apply snoc_lookup_inv in En as [En|[-> ->]].
    + destruct (Hprior n c p En Ep) as (Hp & (cp & Ecp & Hcp) & Hb).
      split; [done|]. split; [exists cp; split; [by apply lookup_app_l_Some|done]|].
      intros m c' Hm Em. apply lookup_lt_Some in En.
      rewrite lookup_app_l in Em by lia. by apply (Hb m).
    + cbn in Ep |- *. destruct (Htail s p Ep) as [(cp & Ecp & Hcp & _) Hl].
      split; [by apply lookup_lt_Some in Ecp|].
      split; [exists cp; split; [by apply lookup_app_l_Some|done]|].
      intros m c' Hm Em. rewrite lookup_app_l in Em by lia. apply (Hl m); [lia|done].
  - intros n c En Ep. apply snoc_lookup_inv in En as [En|[-> ->]].
    + apply released_before_snoc; [apply lookup_lt_Some in En; lia|]. by apply Hnoprior.
    + apply released_before_snoc; [done|]. by apply Hnone.
  - intros n c En Ep. apply snoc_lookup_inv in En as [En|[-> ->]]; [|done].
    apply released_before_snoc; [apply lookup_lt_Some in En; lia|]. by apply Horder.
Qed.

(** *** Starting *)

Lemma tail_settled_released fuel cs n :
  tail_settled fuel cs n = true -> exists c, cs !! n = Some c /\ c_status c = Released.
Proof.
  destruct fuel; [done|]. cbn. destruct (cs !! n) as [c|]; [|done]. intros H.
  bool_prop. eauto.
Qed.

Lemma may_start_order q n c :
  queue_ok q -> calls q !! n = Some c -> may_start n q = true ->
  released_before (calls q) (c_session c) n.
Proof.
  intros Hq En Hm. unfold may_start in Hm. rewrite En in Hm.
  destruct (c_prior c) as [p|] eqn:Ep; [|by apply (qi_noprior q Hq)].
  apply tail_settled_released in Hm as (cp & Ecp & Hr).
  destruct (qi_prior q Hq n c p En Ep) as (Hp & (cp' & Ecp' & Hs) & Hb). simplify_eq.
  intros m c' Hlt Em Hc. destruct (Nat.lt_trichotomy m p) as [Hmp|[->|Hmp]].
  - eapply (qi_order q Hq p); [exact Ecp|by rewrite Hr|exact Hmp|exact Em|congruence].
  - congruence.
  - exfalso. apply (Hb m c'); [lia|done..].
Qed.

Lemma call_start_ok q n c :
  queue_ok q -> calls q !! n = Some c -> c_status c = Waiting -> may_start n q = true ->
  queue_ok (start n q).
Proof.
  intros Hq En Hw Hm. pose proof (may_start_order q n c Hq En Hm) as Hord.
  assert (Hkeep : forall s k, released_before (calls q) s k ->
    released_before (alter (set_status Running) n (calls q)) s k).
  { intros s k. apply released_before_alter. intros _ c' E. congruence. }
  destruct Hq as [Htail Hnone Hprior Hnoprior Horder]. constructor; cbn.
  - intros s k E. destruct (Htail s k E) as [(ck & Eck & Hs & Hr) Hl]. split.
    + destruct (alter_status Running n _ _ _ Eck) as (c' & Ec' & Es & _ & Hc).
      exists c'. split; [done|]. split; [congruence|]. destruct Hc as [[_ ->]|[_ ->]]; done.
    + intros m c' Hm' Em. apply alter_status_inv in Em as (c0 & E0 & -> & _).
      by apply (Hl m).
  - intros s E. rewrite length_alter. auto.
  - intros k ck p Ek Ep. apply alter_status_inv in Ek as (c0 & E0 & Es & Epr & _).
    rewrite Epr in Ep. destruct (Hprior k c0 p E0 Ep) as (Hp & (cp & Ecp & Hs) & Hb).
    split; [done|]. rewrite Es. split.
    + destruct (alter_status Running n _ _ _ Ecp) as (c' & Ec' & Es' & _).
      exists c'. split; [done|congruence].
    + intros m c' Hm' Em. apply alter_status_inv in Em as (c1 & E1 & -> & _). by apply (Hb m).
  - intros k ck Ek Ep. apply alter_status_inv in Ek as (c0 & E0 & -> & Epr & _).
    apply Hkeep, Hnoprior; congruence.
  - intros k ck Ek Hst. apply alter_status_inv in Ek as (c0 & E0 & -> & _ & Hc).
    apply Hkeep. destruct Hc as [[-> _]|[_ ->]]; [|by apply Horder].
    simplify_eq. done.
Qed.

(** *** Leaving *)

Lemma release_ok q n c :
  queue_ok q -> calls q !! n = Some c -> c_status c = Running -> queue_ok (release n q).
Proof.
  intros Hq En Hrun. pose proof (qi_order q Hq n c En ltac:(by rewrite Hrun)) as Hord.
  unfold release. rewrite En.
  set (cs := alter (set_status Released) n (calls q)).
  assert (Hkeep : forall s k, released_before (calls q) s k -> released_before cs s k).
  { intros s k. by apply released_before_alter. }
  assert (Hother : forall s k, sessionMutationTails q !! s = Some k -> k <> n ->
    (exists c', cs !! k = Some c' /\ c_session c' = s /\ c_status c' <> Released) /\
    forall m c', (k < m)%nat -> cs !! m = Some c' -> c_session c' <> s).
  { intros s k E Hne. destruct (qi_tail q Hq s k E) as [(ck & Eck & Hs & Hr) Hl]. split.
    - exists ck. subst cs. by rewrite list_lookup_alter_ne.
    - intros m c' Hm' Em. apply alter_status_inv in Em as (c0 & E0 & -> & _). by apply (Hl m). }
  destruct Hq as [Htail Hnone Hprior Hnoprior Horder]. constructor; cbn.
  - intros s k E. destruct (decide (sessionMutationTails q !! c_session c = Some n)) as [Ht|Ht].
    + rewrite bool_decide_true in E by done.
      apply lookup_delete_Some in E as [Hne E]. apply Hother; [done|]. intros ->.
      destruct (Htail s n E) as [(ck & Eck & Hs & _) _]. congruence.
    + rewrite bool_decide_false in E by done. apply Hother; [done|]. intros ->.
      destruct (Htail s n E) as [(ck & Eck & Hs & _) _]. simplify_eq.
  - intros s E. subst cs. rewrite length_alter.
    destruct (decide (sessionMutationTails q !! c_session c = Some n)) as [Ht|Ht].
    + rewrite bool_decide_true in E by done.
      destruct (decide (s = c_session c)) as [->|Hne].
      * intros m c' _ Em Hs. apply alter_status_inv in Em as (c0 & E0 & Es & _ & Hc).
        destruct Hc as [[_ Hr]|[Hmn ->]]; [done|].
        destruct (Nat.lt_trichotomy m n) as [Hmp|[->|Hmp]]; [|done|].
        -- by apply (Hord m).
        -- exfalso. by apply (proj2 (Htail _ _ Ht) m c0).
      * rewrite lookup_delete_ne in E by done. apply Hkeep, Hnone, E.
    + rewrite bool_decide_false in E by done. apply Hkeep, Hnone, E.
  - intros k ck p Ek Ep. apply alter_status_inv in Ek as (c0 & E0 & Es & Epr & _).
    rewrite Epr in Ep. destruct (Hprior k c0 p E0 Ep) as (Hp & (cp & Ecp & Hs) & Hb).
    split; [done|]. rewrite Es. split.
    + destruct (alter_status Released n _ _ _ Ecp) as (c' & Ec' & Es' & _).
      exists c'. split; [done|congruence].
    + intros m c' Hm' Em. apply alter_status_inv in Em as (c1 & E1 & -> & _). by apply (Hb m).
  - intros k ck Ek Ep. apply alter_status_inv in Ek as (c0 & E0 & -> & Epr & _).
    apply Hkeep, Hnoprior; congruence.
  - intros k ck Ek Hst. apply alter_status_inv in Ek as (c0 & E0 & -> & _ & Hc).
    apply Hkeep. destruct Hc as [[-> _]|[_ ->]]; [|by apply Horder].
    simplify_eq. done.
Qed.

(** ** The threads' invariant *)

Definition session_of (cs : list call) (n : nat) : option sid := c_session <$> cs !! n.
Definition status_of (cs : list call) (n : nat) : option call_status := c_status <$> cs !! n.
Definition outstanding (cs : list call) (n : nat) : Prop :=
  status_of cs n = Some Waiting \/ status_of cs n = Some Running.

Definition slot : Type := option (sid * nat) * option nat.
Definition stack (top : frame) (below : list suspended) : list slot :=
  (f_store top, f_held top) :: map (fun p => (p_store p, p_held p)) below.
Definition stack_store (st : list slot) : option (sid * nat) :=
  match st with (s, _) :: _ => s | [] => None end.

(** A frame that queued runs under its own call; one that did not runs under
    whatever its caller runs under. *)
Fixpoint stack_ok (cs : list call) (st : list slot) : Prop :=
  match st with
  | [] => True
  | (store, held) :: rest =>
      match held with
      | Some n => exists s, session_of cs n = Some s /\ store = Some (s, n)
      | None => store = stack_store rest
      end /\ stack_ok cs rest
  end.

Definition held_ids (st : list slot) : list nat := omap snd st.

Definition thread_holds (t : thread) : list nat :=
  match t with Active top below => held_ids (stack top below) | Finished _ => [] end.

Definition thread_ok (cs : list call) (t : thread) : Prop :=
  match t with
  | Active top below => stack_ok cs (stack top below) /\
      forall n, n ∈ omap p_held below -> status_of cs n = Some Running
  | Finished _ => True
  end.

Definition holds (ts : list thread) : list nat := flat_map thread_holds ts.

Record config_ok (c : config) : Prop := mkConfigOk {
  ci_queue : queue_ok (cq c);
  ci_threads : Forall (thread_ok (calls (cq c))) (threads c);
  (* each outstanding call is held by exactly one frame *)
  ci_nodup : NoDup (holds (threads c));
  ci_holds n : n ∈ holds (threads c) <-> outstanding (calls (cq c)) n
}.

Definition opt_list (o : option nat) : list nat :=
  match o with Some n => [n] | None => [] end.

Lemma held_ids_stack top below :
  held_ids (stack top below) = opt_list (f_held top) ++ omap p_held below.
Proof.
  unfold held_ids, stack. cbn.
  assert (E : omap snd (map (fun p => (p_store p, p_held p)) below) = omap p_held below).
  { induction below as [|p below IH]; [done|]. cbn. rewrite IH. done. }
  rewrite E. by destruct (f_held top).
Qed.

Lemma stack_ok_mono cs cs' st :
  (forall n s, session_of cs n = Some s -> session_of cs' n = Some s) ->
  stack_ok cs st -> stack_ok cs' st.
Proof.
  intros Hm. induction st as [|[store [n|]] st IH]; [done|..]; cbn; intros [H1 H2]; split; auto.
  destruct H1 as (s & Hs & ->). eauto.
Qed.

(** What a step of thread [i] must establish. *)
Lemma holds_split ts i t :
  ts !! i = Some t -> holds ts ≡ₚ thread_holds t ++ holds (delete i ts).
Proof. intros E. unfold holds. rewrite (delete_Permutation _ _ _ E) at 1. done. Qed.

Lemma delete_insert_list {A} (l : list A) i x : delete i (<[i := x]> l) = delete i l.
Proof. revert i; induction l as [|y l IH]; intros [|i]; cbn; [done..|]. f_equal. apply IH. Qed.

Lemma holds_insert ts i t t' :
  ts !! i = Some t -> holds (<[i := t']> ts) ≡ₚ thread_holds t' ++ holds (delete i ts).
Proof.
  intros E. rewrite (holds_split _ i t'), delete_insert_list; [done|].
  apply list_lookup_insert_eq. by apply lookup_lt_Some in E.
Qed.

Lemma lookup_other {A} (l : list A) i j x : l !! j = Some x -> j <> i -> x ∈ delete i l.
Proof.
  intros E Hne. apply list_elem_of_lookup. destruct (decide (j < i)%nat).
  - exists j. by rewrite list_lookup_delete_lt.
  - exists (pred j). rewrite list_lookup_delete_ge by lia. by replace (S (pred j)) with j by lia.
Qed.

Lemma config_ok_step c i t t' q' log' :
  config_ok c -> threads c !! i = Some t ->
  queue_ok q' -> thread_ok (calls q') t' ->
  (forall n s, session_of (calls (cq c)) n = Some s -> session_of (calls q') n = Some s) ->
  (forall n, n ∈ holds (delete i (threads c)) ->
     status_of (calls (cq c)) n = Some Running -> status_of (calls q') n = Some Running) ->
  NoDup (thread_holds t' ++ holds (delete i (threads c))) ->
  (forall n, n ∈ thread_holds t' ++ holds (delete i (threads c)) <-> outstanding (calls q') n) ->
  config_ok (mkConfig q' (<[i := t']> (threads c)) log').
Proof.
  intros [Hq Ht Hnd Hh] Ei Hq' Ht' Hses Hrun Hnd' Hh'. constructor; cbn; [done|..].
  - apply Forall_lookup. intros j tj Ej. destruct (decide (j = i)) as [->|Hne].
    { rewrite list_lookup_insert_eq in Ej by (by apply lookup_lt_Some in Ei). by simplify_eq. }
    rewrite list_lookup_insert_ne in Ej by done.
    pose proof (proj1 (Forall_lookup _ _) Ht j tj Ej) as Hj. destruct tj as [top below|]; [|done].
    destruct Hj as [Hs Hb]. split; [by eapply stack_ok_mono|]. intros n Hn.
    apply Hrun; [|by apply Hb]. apply list_elem_of_In, in_flat_map.
    exists (Active top below). split; [by apply list_elem_of_In, (lookup_other _ i j)|].
    apply list_elem_of_In. cbn [thread_holds]. rewrite held_ids_stack.
    apply elem_of_app. by right.
  - by rewrite (holds_insert _ _ _ _ Ei).
  - intros n. rewrite (holds_insert _ _ _ _ Ei). apply Hh'.
Qed.

Lemma session_alter st n cs m :
  session_of (alter (set_status st) n cs) m = session_of cs m.
Proof.
  unfold session_of. destruct (decide (m = n)) as [->|Hne].
  - rewrite list_lookup_alter_eq. by destruct (cs !! n).
  - by rewrite list_lookup_alter_ne.
Qed.

Lemma status_alter_ne st n cs m :
  m <> n -> status_of (alter (set_status st) n cs) m = status_of cs m.
Proof. intros Hne. unfold status_of. by rewrite list_lookup_alter_ne. Qed.

Lemma status_alter_eq st n cs x :
  status_of cs n = Some x -> status_of (alter (set_status st) n cs) n = Some st.
Proof. unfold status_of. rewrite list_lookup_alter_eq. by destruct (cs !! n). Qed.

Lemma release_calls n q :
  calls (release n q) = alter (set_status Released) n (calls q).
Proof.
  unfold release. destruct (calls q !! n) as [c|] eqn:E; [done|].
  apply list_eq. intros m. destruct (decide (m = n)) as [->|Hne].
  - by rewrite list_lookup_alter_eq, E.
  - by rewrite list_lookup_alter_ne.
Qed.

Lemma blocked_status q f n :
  blocked_on q f = Some n -> f_held f = Some n /\ status_of (calls q) n = Some Waiting.
Proof.
  unfold blocked_on, status_of. destruct (f_held f) as [m|]; [|done].
  destruct (calls q !! m) as [c|] eqn:E; [|done]. case_bool_decide; [|done].
  intros Hn. injection Hn as <-. split; [done|]. rewrite E. cbn. congruence.
Qed.

Lemma unblocked_status q f n :
  blocked_on q f = None -> f_held f = Some n -> outstanding (calls q) n ->
  status_of (calls q) n = Some Running.
Proof.
  unfold blocked_on, outstanding, status_of. intros Hb Hf [Ho|Ho]; [|done].
  rewrite Hf in Hb. destruct (calls q !! n) as [c|]; [|done]. cbn in Ho. injection Ho as Ho.
  by rewrite bool_decide_true in Hb.
Qed.

(** *** The steps, one at a time *)

Section Steps.
Context (c : config) (i : nat) (top : frame) (below : list suspended).
Context (Hok : config_ok c) (Ei : threads c !! i = Some (Active top below)).
Let q := cq c.
Let others := holds (delete i (threads c)).

Lemma own_split : holds (threads c) ≡ₚ opt_list (f_held top) ++ omap p_held below ++ others.
Proof. rewrite (holds_split _ _ _ Ei). cbn [thread_holds]. by rewrite held_ids_stack, <- app_assoc. Qed.

Lemma own_nodup : NoDup (opt_list (f_held top) ++ omap p_held below ++ others).
Proof. rewrite <- own_split. apply (ci_nodup c Hok). Qed.

Lemma own_outstanding n :
  n ∈ opt_list (f_held top) ++ omap p_held below ++ others <-> outstanding (calls q) n.
Proof. rewrite <- own_split. apply (ci_holds c Hok). Qed.

Lemma own_thread : stack_ok (calls q) (stack top below) /\
  forall n, n ∈ omap p_held below -> status_of (calls q) n = Some Running.
Proof. exact (proj1 (Forall_lookup _ _) (ci_threads c Hok) i _ Ei). Qed.

Lemma top_outstanding n : f_held top = Some n -> outstanding (calls q) n.
Proof. intros E. apply own_outstanding. rewrite E. cbn. by left. Qed.

Lemma lookup_status cs n st :
  status_of cs n = Some st -> exists k, cs !! n = Some k /\ c_status k = st.
Proof.
  unfold status_of. destruct (cs !! n) as [k|]; [|done]. cbn. intros [= <-]. eauto.
Qed.

Lemma step_start n log :
  blocked_on q top = Some n -> may_start n q = true ->
  config_ok (mkConfig (start n q) (<[i := Active top below]> (threads c)) log).
Proof.
  intros Hb Hm. destruct (blocked_status _ _ _ Hb) as [Hf Hw].
  destruct (lookup_status _ _ _ Hw) as (k & Ek & Hk).
  assert (Hst : forall m, outstanding (calls q) m <-> outstanding (calls (start n q)) m).
  { intros m. unfold outstanding; cbn. destruct (decide (m = n)) as [->|Hne].
    - rewrite (status_alter_eq _ _ _ _ Hw), Hw. split; intros _; auto.
    - by rewrite status_alter_ne. }
  assert (Hrun : forall m, status_of (calls q) m = Some Running ->
    status_of (calls (start n q)) m = Some Running).
  { intros m Hr. destruct (decide (m = n)) as [->|Hne]; [congruence|]. cbn.
    by rewrite status_alter_ne. }
  assert (Hses : forall m s, session_of (calls q) m = Some s ->
    session_of (calls (start n q)) m = Some s) by (intros m s; cbn; by rewrite session_alter).
  destruct own_thread as [Hs Hbel].
  eapply config_ok_step; [exact Hok|exact Ei|..]; try done.
  - by eapply call_start_ok; [apply (ci_queue c Hok)|..].
  - split; [by eapply stack_ok_mono|]. auto.
  - auto.
  - cbn [thread_holds]. rewrite held_ids_stack, <- app_assoc. apply own_nodup.
  - intros m. cbn [thread_holds]. rewrite held_ids_stack, <- app_assoc, <- Hst.
    apply own_outstanding.
Qed.

Lemma step_work k log :
  config_ok (mkConfig q
    (<[i := Active (mkFrame (f_store top) (f_held top) k) below]> (threads c)) log).
Proof.
  destruct own_thread as [Hs Hbel].
  eapply config_ok_step; [exact Hok|exact Ei|..]; try done.
  - apply (ci_queue c Hok).
  - cbn [thread_holds]. rewrite held_ids_stack, <- app_assoc. apply own_nodup.
  - intros m. cbn [thread_holds]. rewrite held_ids_stack, <- app_assoc. apply own_outstanding.
Qed.

Lemma suspended_running k n :
  blocked_on q top = None ->
  n ∈ omap p_held (mkSuspended (f_store top) (f_held top) k :: below) ->
  status_of (calls q) n = Some Running.
Proof.
  intros Hb Hn. cbn in Hn. destruct (f_held top) as [m|] eqn:Ef.
  - apply elem_of_cons in Hn as [->|Hn]; [|by apply own_thread].
    by apply (unblocked_status q top); [..|apply top_outstanding].
  - by apply own_thread.
Qed.

Lemma omap_suspended k :
  omap p_held (mkSuspended (f_store top) (f_held top) k :: below)
  = opt_list (f_held top) ++ omap p_held below.
Proof. cbn. by destruct (f_held top). Qed.

Lemma step_mutate s body k log :
  blocked_on q top = None ->
  let '(q', f) := enqueueSessionMutation s body (f_store top) q in
  config_ok (mkConfig q' (<[i := Active f
    (mkSuspended (f_store top) (f_held top) k :: below)]> (threads c)) log).
Proof.
  intros Hb. pose proof (suspended_running k) as Hsus.
  destruct own_thread as [Hs Hbel]. unfold enqueueSessionMutation.
  destruct (in_session s (f_store top)).
  - eapply config_ok_step; [exact Hok|exact Ei|..]; try done.
    + apply (ci_queue c Hok).
    + split; [cbn; split; [done|exact Hs]|]. intros n Hn. by apply Hsus.
    + cbn [thread_holds]. rewrite held_ids_stack, omap_suspended, <- !app_assoc. apply own_nodup.
    + intros n. cbn [thread_holds]. rewrite held_ids_stack, omap_suspended, <- !app_assoc.
      apply own_outstanding.
  - cbn [enqueue]. set (n := length (calls q)).
    set (cs := calls q ++ [mkCall s (sessionMutationTails q !! s) Waiting]).
    assert (Hses : forall m s', session_of (calls q) m = Some s' -> session_of cs m = Some s').
    { intros m s' E. unfold session_of in *. destruct (calls q !! m) as [x|] eqn:Em; [|done].
      subst cs. by rewrite (lookup_app_l_Some _ _ _ _ Em). }
    assert (Hst : forall m st, status_of (calls q) m = Some st -> status_of cs m = Some st).
    { intros m st E. unfold status_of in *. destruct (calls q !! m) as [x|] eqn:Em; [|done].
      subst cs. by rewrite (lookup_app_l_Some _ _ _ _ Em). }
    assert (Hout : forall m, outstanding cs m <-> m = n \/ outstanding (calls q) m).
    { intros m. split.
      - intros Ho. destruct (decide (m = n)) as [->|Hne]; [by left|]. right.
        unfold outstanding, status_of, cs in *.
        assert ((calls q ++ [mkCall s (sessionMutationTails q !! s) Waiting]) !! m
          = calls q !! m) as <-; [|done].
        destruct (decide (m < n)%nat); [by rewrite lookup_app_l|].
        rewrite lookup_app_r, (lookup_ge_None_2 (calls q)) by lia.
        apply lookup_ge_None_2. cbn. lia.
      - intros [->|[Ho|Ho]]; [left|left|right]; [|by apply Hst..].
        unfold status_of, cs, n. by rewrite lookup_app_r, Nat.sub_diag. }
    eapply config_ok_step; [exact Hok|exact Ei|..]; try done.
    + apply (enqueue_ok s), (ci_queue c Hok).
    + split.
      * refine (conj _ (stack_ok_mono _ _ _ Hses Hs)). exists s. split; [|done].
        unfold session_of. cbn [calls]. unfold cs, n. rewrite lookup_app_r, Nat.sub_diag; done.
      * intros m Hm. by apply Hst, Hsus.
    + intros m _. apply Hst.
    + cbn [thread_holds]. rewrite held_ids_stack, omap_suspended, <- !app_assoc.
      cbn. apply NoDup_cons. split; [|apply own_nodup].
      intros Hin. apply own_outstanding in Hin. unfold outstanding, status_of in Hin.
      rewrite lookup_ge_None_2 in Hin by done. by destruct Hin.
    + intros m. cbn [thread_holds]. rewrite held_ids_stack, omap_suspended, <- !app_assoc.
      cbn [f_held opt_list app]. rewrite elem_of_cons. fold others.
      rewrite own_outstanding, <- Hout. done.
Qed.

Definition after_return (ok : bool) : thread :=
  match below with
  | [] => Finished ok
  | p :: below => Active (mkFrame (p_store p) (p_held p) (p_next p ok)) below
  end.

Lemma after_return_holds ok : thread_holds (after_return ok) = omap p_held below.
Proof.
  unfold after_return. destruct below as [|p b]; [done|].
  cbn [thread_holds]. rewrite held_ids_stack. cbn. by destruct (p_held p).
Qed.

Lemma after_return_ok ok cs :
  stack_ok cs (stack top below) ->
  (forall n, n ∈ omap p_held below -> status_of cs n = Some Running) ->
  thread_ok cs (after_return ok).
Proof.
  unfold after_return. destruct below as [|p b]; [done|]. intros [_ Hs] Hb.
  split; [exact Hs|]. intros n Hn. apply Hb. cbn. destruct (p_held p); [by right|done].
Qed.

Lemma step_return ok log :
  blocked_on q top = None ->
  config_ok (mkConfig (match f_held top with Some n => release n q | None => q end)
    (<[i := after_return ok]> (threads c)) log).
Proof.
  intros Hb. destruct own_thread as [Hs Hbel].
  pose proof own_nodup as Hnd. pose proof own_outstanding as Hout.
  destruct (f_held top) as [n|] eqn:Ef.
  - assert (Hrun : status_of (calls q) n = Some Running)
      by (by apply (unblocked_status q top); [..|apply top_outstanding]).
    destruct (lookup_status _ _ _ Hrun) as (k & Ek & Hk).
    cbn in Hnd. apply NoDup_cons in Hnd as [Hfresh Hnd].
    assert (Hst : forall m, m ∈ omap p_held below ++ others ->
      status_of (calls (release n q)) m = status_of (calls q) m).
    { intros m Hm. rewrite release_calls, status_alter_ne; [done|]. by intros ->. }
    eapply config_ok_step; [exact Hok|exact Ei|..].
    + by eapply release_ok; [apply (ci_queue c Hok)|..].
    + apply after_return_ok.
      * eapply stack_ok_mono; [|exact Hs]. intros m s. by rewrite release_calls, session_alter.
      * intros m Hm. rewrite Hst; [by apply Hbel|]. apply elem_of_app. by left.
    + intros m s. by rewrite release_calls, session_alter.
    + intros m Hm Hr. rewrite Hst; [done|]. apply elem_of_app. by right.
    + by rewrite after_return_holds.
    + intros m. rewrite after_return_holds. unfold outstanding. rewrite release_calls.
      destruct (decide (m = n)) as [->|Hne].
      * rewrite (status_alter_eq _ _ _ _ Hrun). split; [done|]. by intros [?|?].
      * rewrite status_alter_ne by done. fold (outstanding (calls q) m). rewrite <- Hout.
        cbn [opt_list app]. rewrite elem_of_cons. split; [by right|]. by intros [?|?].
  - eapply config_ok_step; [exact Hok|exact Ei|..]; try done.
    + apply (ci_queue c Hok).
    + by apply after_return_ok.
    + by rewrite after_return_holds.
    + intros m. rewrite after_return_holds. apply Hout.
Qed.
End Steps.

Lemma step_ok c c' : config_ok c -> step c c' -> config_ok c'.
Proof.
  intros Hok [i Hs]. unfold step_thread in Hs.
  destruct (threads c !! i) as [[top below|]|] eqn:Ei; [|done..].
  destruct (blocked_on (cq c) top) as [n|] eqn:Hb.
  - destruct (may_start n (cq c)) eqn:Hm; [|done]. injection Hs as <-. by apply step_start.
  - destruct (f_task top) as [ok|tag k|s body k].
    + injection Hs as <-. by apply (step_return c i top below Hok Ei ok).
    + injection Hs as <-. by apply step_work.
    + pose proof (step_mutate c i top below Hok Ei s body k (work_log c) Hb) as Hq.
      destruct (enqueueSessionMutation _ _ _ _) as [q' f]. injection Hs as <-. exact Hq.
Qed.

Lemma initial_ok tasks : config_ok (initial tasks).
Proof.
  assert (Hh : holds (threads (initial tasks)) = [])
    by (cbn; induction tasks; done).
  constructor.
  - constructor; cbn; try (intros; set_solver); intros ??; done.
  - apply Forall_lookup. intros i t Ei. cbn in Ei.
    rewrite list_lookup_fmap in Ei. destruct (tasks !! i); [|done]. injection Ei as <-.
    split; [done|]. intros n Hn. by apply not_elem_of_nil in Hn.
  - rewrite Hh. constructor.
  - intros n. rewrite Hh. unfold outstanding, status_of. cbn. set_solver.
Qed.

Lemma reachable_ok tasks c : rtc step (initial tasks) c -> config_ok c.
Proof.
  intros Hr. pose proof (initial_ok tasks) as H0. induction Hr; eauto using step_ok.
Qed.

(** ** Exclusion, order and the map of tails *)

(** Thread [t] is inside a task of session [s]. *)
Definition inside (cs : list call) (s : sid) (t : thread) : Prop :=
  exists n, n ∈ thread_holds t /\ session_of cs n = Some s /\ status_of cs n = Some Running.

Lemma store_held cs st s n :
  stack_ok cs st -> stack_store st = Some (s, n) -> n ∈ held_ids st /\ session_of cs n = Some s.
Proof.
  induction st as [|[store [k|]] st IH]; [done|..]; cbn; intros [H1 H2] E; subst.
  - destruct H1 as (s' & Hs & [= -> ->]). split; [by left|done].
  - by apply IH.
Qed.

(** A frame about to run under [activeSessionMutation] = [s] is inside [s]. *)
Lemma runs_inside c i top below s n :
  config_ok c -> threads c !! i = Some (Active top below) ->
  blocked_on (cq c) top = None -> f_store top = Some (s, n) ->
  inside (calls (cq c)) s (Active top below).
Proof.
  intros Hok Ei Hb Hs. destruct (own_thread c i top below Hok Ei) as [Hst Hbel].
  destruct (store_held _ _ s n Hst Hs) as [Hin Hses]. exists n. cbn [thread_holds].
  rewrite held_ids_stack in *. split; [done|]. split; [done|].
  apply elem_of_app in Hin as [Hin|Hin]; [|by apply Hbel].
  destruct (f_held top) as [m|] eqn:Ef; [|by apply not_elem_of_nil in Hin].
  apply list_elem_of_singleton in Hin as ->.
  eapply unblocked_status; [exact Hb|exact Ef|]. by eapply top_outstanding.
Qed.

Lemma running_unique q m n cm cn :
  queue_ok q -> calls q !! m = Some cm -> calls q !! n = Some cn ->
  c_session cm = c_session cn -> c_status cm = Running -> c_status cn = Running -> m = n.
Proof.
  intros Hq Em En Hs Hm Hn. destruct (Nat.lt_trichotomy m n) as [H|[H|H]]; [|done|].
  - pose proof (qi_order q Hq n cn En ltac:(by rewrite Hn) m cm H Em Hs). congruence.
  - pose proof (qi_order q Hq m cm Em ltac:(by rewrite Hm) n cn H En ltac:(done)). congruence.
Qed.

Lemma inside_unique c s i j ti tj :
  config_ok c -> threads c !! i = Some ti -> threads c !! j = Some tj ->
  inside (calls (cq c)) s ti -> inside (calls (cq c)) s tj -> i = j.
Proof.
  intros Hok Ei Ej (m & Hm & Sm & Rm) (n & Hn & Sn & Rn).
  destruct (decide (i = j)) as [->|Hne]; [done|exfalso].
  destruct (lookup_status _ _ _ Rm) as (cm & Em & Tm).
  destruct (lookup_status _ _ _ Rn) as (cn & En & Tn).
  unfold session_of in Sm, Sn. rewrite Em in Sm. rewrite En in Sn. cbn in Sm, Sn.
  assert (m = n) as -> by (eapply running_unique; [apply (ci_queue c Hok)|..]; try done; congruence).
  pose proof (ci_nodup c Hok) as Hnd. rewrite (holds_split _ _ _ Ei) in Hnd.
  apply NoDup_app in Hnd as (_ & Hd & _). apply (Hd n); [done|].
  apply list_elem_of_In, in_flat_map. exists tj. split; [|by apply list_elem_of_In].
  by apply list_elem_of_In, (lookup_other _ i j).
Qed.

(** C33 In every interleaving, tasks of one session never overlap: two
    threads are never both inside a task of the same session, and a frame
    runs under a session only inside one of its tasks.  They run in order of
    arrival: a call of a session has started only if all earlier calls of
    that session have finished, successfully or not. *)
Theorem session_mutual_exclusion tasks c :
  rtc step (initial tasks) c ->
  (forall s i j ti tj, threads c !! i = Some ti -> threads c !! j = Some tj ->
     inside (calls (cq c)) s ti -> inside (calls (cq c)) s tj -> i = j) /\
  (forall i top below s n, threads c !! i = Some (Active top below) ->
     blocked_on (cq c) top = None -> f_store top = Some (s, n) ->
     inside (calls (cq c)) s (Active top below)) /\
  (forall m n cm cn, (m < n)%nat -> calls (cq c) !! m = Some cm -> calls (cq c) !! n = Some cn ->
     c_session cm = c_session cn -> c_status cn <> Waiting -> c_status cm = Released).
Proof.
  intros Hr. apply reachable_ok in Hr as Hok. split; [|split].
  - intros s i j ti tj. by apply inside_unique.
  - intros i top below s n. by apply runs_inside.
  - intros m n cm cn Hlt Em En Hs Hw. by apply (qi_order _ (ci_queue c Hok) n cn En Hw m).
Qed.

(** The map of tails holds a session exactly while one of its calls
    is waiting or running, so it does not grow with the sessions of the past. *)
Theorem tails_hold_outstanding tasks c s :
  rtc step (initial tasks) c ->
  is_Some (sessionMutationTails (cq c) !! s) <->
  exists n, session_of (calls (cq c)) n = Some s /\ outstanding (calls (cq c)) n.
Proof.
  intros Hr. apply reachable_ok in Hr as Hok. pose proof (ci_queue c Hok) as Hq.
  unfold outstanding, status_of, session_of. split.
  - intros [n E]. destruct (qi_tail _ Hq s n E) as [(k & Ek & Hs & Hst) _].
    exists n. rewrite Ek. cbn. split; [congruence|]. by destruct (c_status k); [left|right|].
  - intros (n & Hs & Ho). destruct (calls (cq c) !! n) as [k|] eqn:Ek; [|done]. cbn in *.
    destruct (sessionMutationTails (cq c) !! s) as [m|] eqn:E; [by eexists|].
    pose proof (qi_none _ Hq s E n k (lookup_lt_Some _ _ _ Ek) Ek ltac:(congruence)).
    destruct Ho; congruence.
Qed.

(** ** Completion *)

Section Order.
Context (rank : sid -> nat).

(** Under a task of session [cur], nested calls are for [cur] itself or for
    a session of higher rank. *)
Fixpoint ranked (cur : option sid) (t : task) : Prop :=
  match t with
  | Return _ => True
  | Work _ k => ranked cur k
  | Mutate s body k =>
      match cur with Some s' => s' = s \/ (rank s' < rank s)%nat | None => True end /\
      ranked (Some s) body /\ forall ok, ranked cur (k ok)
  end.

Fixpoint stack_ranked (st : list slot) : Prop :=
  match st with
  | [] => True
  | (store, held) :: rest =>
      match held, store, stack_store rest with
      | Some _, Some (s, _), Some (s', _) => (rank s' < rank s)%nat
      | _, _, _ => True
      end /\ stack_ranked rest
  end.

Definition thread_ranked (t : thread) : Prop :=
  match t with
  | Active top below =>
      ranked (fst <$> f_store top) (f_task top) /\
      Forall (fun p => forall ok, ranked (fst <$> p_store p) (p_next p ok)) below /\
      stack_ranked (stack top below)
  | Finished _ => True
  end.

Lemma step_ranked c c' :
  Forall thread_ranked (threads c) -> step c c' -> Forall thread_ranked (threads c').
Proof.
  intros Hr [i Hs]. unfold step_thread in Hs.
  destruct (threads c !! i) as [[top below|]|] eqn:Ei; [|done..].
  pose proof (proj1 (Forall_lookup _ _) Hr i _ Ei) as (Ht & Hb & Hst).
  destruct (blocked_on (cq c) top) as [n|].
  { destruct (may_start n (cq c)); [|done]. injection Hs as <-.
    apply Forall_insert; [done|]. done. }
  destruct (f_task top) as [ok|tag k|s body k].
  - injection Hs as <-. apply Forall_insert; [done|]. destruct below as [|p b]; [done|].
    apply Forall_cons in Hb as [Hp Hb]. destruct Hst as [_ Hst].
    exact (conj (Hp ok) (conj Hb Hst)).
  - injection Hs as <-. apply Forall_insert; [done|]. exact (conj Ht (conj Hb Hst)).
  - destruct Ht as (Hs' & Hbody & Hk). unfold enqueueSessionMutation in Hs.
    destruct (in_session s (f_store top)) eqn:Ein.
    + injection Hs as <-. apply Forall_insert; [done|].
      split; [|split; [by constructor|by split]]. cbn.
      unfold in_session in Ein. destruct (f_store top) as [[s' m]|]; [|done].
      bool_prop. by subst.
    + cbn [enqueue] in Hs. injection Hs as <-. apply Forall_insert; [done|].
      split; [done|]. split; [by constructor|]. split; [|done]. cbn.
      unfold in_session in Ein. destruct (f_store top) as [[s' m]|]; [|done]. cbn in Hs'.
      bool_prop. by destruct Hs' as [?|?].
Qed.

(** The session a frame runs under ranks highest among those held by the
    frame and the ones below it. *)
Lemma store_rank_max cs st m :
  stack_ok cs st -> stack_ranked st -> m ∈ held_ids st ->
  exists s n sm, stack_store st = Some (s, n) /\ session_of cs m = Some sm /\
    (rank sm <= rank s)%nat.
Proof.
  induction st as [|[store [k|]] st IH]; intros Hok Hr Hm.
  - by apply not_elem_of_nil in Hm.
  - destruct Hok as [(s & Hs & ->) Hok]. destruct Hr as [Hr Hrs]. cbn in Hm.
    apply elem_of_cons in Hm as [->|Hm]; [by eauto 10|].
    destruct (IH Hok Hrs Hm) as (s' & n' & sm & E & Hsm & Hle).
    exists s, k, sm. split; [done|]. split; [done|]. rewrite E in Hr. lia.
  - destruct Hok as [-> Hok]. destruct Hr as [_ Hrs]. by apply IH.
Qed.

Lemma blocked_above c i top below n m :
  config_ok c -> threads c !! i = Some (Active top below) ->
  thread_ranked (Active top below) -> f_held top = Some n -> m ∈ omap p_held below ->
  exists s sm, session_of (calls (cq c)) n = Some s /\
    session_of (calls (cq c)) m = Some sm /\ (rank sm < rank s)%nat.
Proof.
  intros Hok Ei (_ & _ & Hr) Hf Hm. destruct (own_thread c i top below Hok Ei) as [Hs _].
  unfold stack in *. rewrite Hf in *. destruct Hs as [(s & Hses & Est) Hs]. destruct Hr as [Hr Hrs].
  assert (Hm' : m ∈ held_ids (map (fun p => (p_store p, p_held p)) below)).
  { apply list_elem_of_omap in Hm as (p & Hp & Ep). apply list_elem_of_omap.
    exists (p_store p, p_held p). split; [|done].
    apply list_elem_of_In, (in_map (fun p => (p_store p, p_held p))). by apply list_elem_of_In. }
  destruct (store_rank_max _ _ m Hs Hrs Hm') as (s' & n' & sm & E & Hsm & Hle).
  exists s, sm. split; [done|]. split; [done|]. rewrite Est, E in Hr. lia.
Qed.

Lemma tail_settled_complete q : queue_ok q -> forall fuel p cp,
  (p < fuel)%nat -> calls q !! p = Some cp -> c_status cp = Released ->
  released_before (calls q) (c_session cp) p -> tail_settled fuel (calls q) p = true.
Proof.
  intros Hq. induction fuel as [|fuel IH]; intros p cp Hp Ep Hr Hb; [lia|]. cbn.
  rewrite Ep, bool_decide_true by done. cbn. destruct (c_prior cp) as [p'|] eqn:Epr; [|done].
  destruct (qi_prior q Hq p cp p' Ep Epr) as (Hlt & (cp' & Ecp' & Hs) & _).
  apply (IH p' cp'); [lia|done|by apply (Hb p')|].
  rewrite Hs. intros m c' Hm. apply Hb. lia.
Qed.

Lemma may_start_complete q n c :
  queue_ok q -> calls q !! n = Some c -> released_before (calls q) (c_session c) n ->
  may_start n q = true.
Proof.
  intros Hq En Hb. unfold may_start. rewrite En.
  destruct (c_prior c) as [p|] eqn:Ep; [|done].
  destruct (qi_prior q Hq n c p En Ep) as (Hlt & (cp & Ecp & Hs) & _).
  apply (tail_settled_complete q Hq _ p cp); [lia|done|by apply (Hb p)|].
  rewrite Hs. intros m c' Hm. apply Hb. lia.
Qed.

(** Either all earlier calls of a session are finished, or there is a first
    one that is not. *)
Lemma first_outstanding cs s n :
  released_before cs s n \/
  exists m c, (m < n)%nat /\ cs !! m = Some c /\ c_session c = s /\ c_status c <> Released /\
    released_before cs s m.
Proof.
  induction n as [|n IH]; [left; intros m c Hm; lia|].
  destruct IH as [Hb|(m & c & Hm & H)]; [|right; exists m, c; split; [lia|done]].
  destruct (cs !! n) as [c|] eqn:En.
  - destruct (decide (c_session c = s)) as [Hs|Hs];
      [destruct (decide (c_status c = Released)) as [Hr|Hr]|].
    2:{ right. exists n, c. split; [lia|]. done. }
    all: left; intros m c' Hm Em Hs'; destruct (decide (m = n)) as [->|]; [congruence|];
      apply (Hb m c'); [lia|done..].
  - left. intros m c' Hm Em Hs'. destruct (decide (m = n)) as [->|]; [congruence|].
    apply (Hb m c'); [lia|done..].
Qed.

Definition stuck (c : config) : Prop := forall i, step_thread i c = None.

Lemma stuck_blocked c i top below :
  stuck c -> threads c !! i = Some (Active top below) ->
  exists n, blocked_on (cq c) top = Some n /\ may_start n (cq c) = false.
Proof.
  intros Hst Ei. specialize (Hst i). unfold step_thread in Hst. rewrite Ei in Hst.
  destruct (blocked_on (cq c) top) as [n|].
  - exists n. split; [done|]. by destruct (may_start n (cq c)).
  - destruct (f_task top) as [ok|tag k|s body k]; [done..|].
    by destruct (enqueueSessionMutation _ _ _ _).
Qed.

(** A blocked thread of a stuck configuration waits for one that is blocked
    on a session of higher rank. *)
Lemma blocked_chain c i top below n s :
  config_ok c -> Forall thread_ranked (threads c) -> stuck c ->
  threads c !! i = Some (Active top below) -> blocked_on (cq c) top = Some n ->
  session_of (calls (cq c)) n = Some s ->
  exists j top' below' n' s', threads c !! j = Some (Active top' below') /\
    blocked_on (cq c) top' = Some n' /\ session_of (calls (cq c)) n' = Some s' /\
    (rank s < rank s')%nat.
Proof.
  intros Hok Hrk Hst Ei Hb Hs. pose proof (ci_queue c Hok) as Hq.
  destruct (stuck_blocked c i top below Hst Ei) as (n0 & Hb0 & Hms).
  assert (n0 = n) as -> by congruence.
  unfold session_of in Hs. destruct (calls (cq c) !! n) as [cn|] eqn:En; [|done].
  injection Hs as Hs.
  destruct (first_outstanding (calls (cq c)) (c_session cn) n) as
    [Hbef|(m & cm & Hm & Em & Hsm & Hrm & Hbef)].
  { by rewrite (may_start_complete _ n cn Hq En Hbef) in Hms. }
  assert (Ho : outstanding (calls (cq c)) m).
  { unfold outstanding, status_of. rewrite Em. cbn. by destruct (c_status cm); [left|right|]. }
  apply (ci_holds c Hok), list_elem_of_In, in_flat_map in Ho as (tj & Hj & Hin).
  apply list_elem_of_In, list_elem_of_lookup in Hj as [j Ej]. apply list_elem_of_In in Hin.
  destruct tj as [top' below'|]; [|by apply not_elem_of_nil in Hin].
  destruct (stuck_blocked c j top' below' Hst Ej) as (n' & Hb' & Hms').
  destruct (blocked_status _ _ _ Hb') as [Hf' Hw'].
  cbn [thread_holds] in Hin. rewrite held_ids_stack, Hf' in Hin. cbn in Hin.
  apply elem_of_cons in Hin as [->|Hin].
  { rewrite <- Hsm in Hbef. by rewrite (may_start_complete _ n' cm Hq Em Hbef) in Hms'. }
  destruct (blocked_above c j top' below' n' m Hok Ej
    (proj1 (Forall_lookup _ _) Hrk j _ Ej) Hf' Hin) as (s' & sm & Hs' & Hsm' & Hlt).
  exists j, top', below', n', s'. split; [done|]. split; [done|]. split; [done|].
  unfold session_of in Hsm'. rewrite Em in Hsm'. cbn in Hsm'. simplify_eq. congruence.
Qed.

Definition rank_bound (cs : list call) : nat := list_max (map (fun k => rank (c_session k)) cs).

Lemma rank_bound_spec cs n s : session_of cs n = Some s -> (rank s <= rank_bound cs)%nat.
Proof.
  unfold session_of. destruct (cs !! n) as [k|] eqn:E; [|done]. cbn. intros [= <-].
  pose proof (proj1 (list_max_le (map (fun k => rank (c_session k)) cs) _) (le_n _)) as Hm.
  rewrite Forall_forall in Hm. apply Hm, list_elem_of_In, (in_map (fun k => rank (c_session k))).
  apply list_elem_of_In. by eapply list_elem_of_lookup_2.
Qed.

Lemma stuck_finished c :
  config_ok c -> Forall thread_ranked (threads c) -> stuck c ->
  Forall (fun t => exists ok, t = Finished ok) (threads c).
Proof.
  intros Hok Hrk Hst.
  assert (Hno : forall d i top below n s, threads c !! i = Some (Active top below) ->
    blocked_on (cq c) top = Some n -> session_of (calls (cq c)) n = Some s ->
    (rank_bound (calls (cq c)) - rank s < d)%nat -> False).
  { induction d as [|d IH]; intros i top below n s Ei Hb Hs Hd; [lia|].
    destruct (blocked_chain c i top below n s Hok Hrk Hst Ei Hb Hs)
      as (j & top' & below' & n' & s' & Ej & Hb' & Hs' & Hlt).
    apply (IH j top' below' n' s' Ej Hb' Hs').
    pose proof (rank_bound_spec _ _ _ Hs'). lia. }
  apply Forall_lookup. intros i [top below|ok] Ei; [exfalso|by eexists].
  destruct (stuck_blocked c i top below Hst Ei) as (n & Hb & _).
  destruct (blocked_status _ _ _ Hb) as [_ Hw].
  unfold status_of in Hw. destruct (calls (cq c) !! n) as [k|] eqn:Ek; [|done].
  eapply (Hno _ i top below n (c_session k) Ei Hb); [by unfold session_of; rewrite Ek|].
  apply Nat.lt_succ_diag_r.
Qed.
End Order.

(** *** Runs are finite *)

Fixpoint task_size (t : task) : nat :=
  match t with
  | Return _ => 1
  | Work _ k => 1 + task_size k
  | Mutate _ body k => 3 + task_size body + Nat.max (task_size (k true)) (task_size (k false))
  end.

Definition suspended_size (p : suspended) : nat :=
  1 + Nat.max (task_size (p_next p true)) (task_size (p_next p false)).

Definition thread_size (t : thread) : nat :=
  match t with
  | Active top below => task_size (f_task top) + sum_list (map suspended_size below)
  | Finished _ => 0
  end.

Definition waiting_calls (cs : list call) : nat :=
  length (List.filter (fun k => bool_decide (c_status k = Waiting)) cs).

(** Every step makes it smaller. *)
Definition remaining (c : config) : nat :=
  sum_list (map thread_size (threads c)) + waiting_calls (calls (cq c)).

Lemma sum_insert ts i t t' :
  ts !! i = Some t ->
  (sum_list (map thread_size (<[i := t']> ts)) + thread_size t
   = sum_list (map thread_size ts) + thread_size t')%nat.
Proof.
  revert i; induction ts as [|x ts IH]; intros [|i] E; [done..| |].
  - injection E as ->. cbn. unfold id. lia.
  - specialize (IH i E). change (<[S i := t']> (x :: ts)) with (x :: <[i := t']> ts).
    cbn [map sum_list_with] in *. unfold id in *. lia.
Qed.

Lemma waiting_alter st n cs k :
  cs !! n = Some k -> st <> Waiting ->
  (waiting_calls (alter (set_status st) n cs)
   + (if bool_decide (c_status k = Waiting) then 1 else 0) = waiting_calls cs)%nat.
Proof.
  unfold waiting_calls. revert n; induction cs as [|x cs IH]; intros [|n] E Hst; [done..| |].
  - injection E as ->. cbn. rewrite (bool_decide_false (st = Waiting)) by done.
    case_bool_decide; cbn; lia.
  - specialize (IH n E Hst).
    change (alter (set_status st) (S n) (x :: cs)) with (x :: alter (set_status st) n cs).
    cbn [List.filter]. destruct (bool_decide (c_status x = Waiting)); cbn [length]; lia.
Qed.

Lemma waiting_snoc cs k :
  c_status k = Waiting -> waiting_calls (cs ++ [k]) = S (waiting_calls cs).
Proof.
  intros Hk. unfold waiting_calls. rewrite List.filter_app, length_app. cbn.
  rewrite bool_decide_true by done. cbn. lia.
Qed.

Lemma waiting_release n q : (waiting_calls (calls (release n q)) <= waiting_calls (calls q))%nat.
Proof.
  rewrite release_calls. destruct (calls q !! n) as [k|] eqn:E.
  - pose proof (waiting_alter Released n _ k E ltac:(done)). lia.
  - rewrite <- release_calls. unfold release. by rewrite E.
Qed.

Lemma step_remaining c c' : step c c' -> (remaining c' < remaining c)%nat.
Proof.
  intros [i Hs]. unfold step_thread in Hs.
  destruct (threads c !! i) as [[top below|]|] eqn:Ei; [|done..].
  unfold remaining. destruct (blocked_on (cq c) top) as [n|] eqn:Hb.
  - destruct (may_start n (cq c)); [|done]. injection Hs as <-.
    cbn [cq set_thread threads start calls].
    destruct (blocked_status _ _ _ Hb) as [_ Hw].
    destruct (lookup_status _ _ _ Hw) as (k & Ek & Hk).
    pose proof (waiting_alter Running n _ k Ek ltac:(done)) as Hwa.
    rewrite bool_decide_true in Hwa by done.
    pose proof (sum_insert _ _ _ (Active top below) Ei). lia.
  - destruct (f_task top) as [ok|tag k|s body k] eqn:Et.
    + injection Hs as <-. cbn [cq set_thread threads].
      set (t' := match below with [] => _ | _ => _ end).
      pose proof (sum_insert _ _ _ t' Ei) as Hsum.
      assert (Ht' : (thread_size t' < thread_size (Active top below))%nat).
      { subst t'. cbn. rewrite Et. destruct below as [|p b]; cbn; [lia|].
        unfold suspended_size. destruct ok; lia. }
      destruct (f_held top) as [n|]; [pose proof (waiting_release n (cq c))|]; lia.
    + injection Hs as <-. cbn [cq threads].
      pose proof (sum_insert _ _ _ (Active (mkFrame (f_store top) (f_held top) k) below) Ei) as Hsum.
      cbn in Hsum. rewrite Et in Hsum. cbn in Hsum. lia.
    + unfold enqueueSessionMutation in Hs.
      destruct (in_session s (f_store top)); cbn [enqueue] in Hs; injection Hs as <-;
        cbn [cq set_thread threads calls]; rewrite ?waiting_snoc by done;
        (match goal with |- context [<[i := ?t]> _] =>
          pose proof (sum_insert _ _ _ t Ei) as Hsum end);
        cbn in Hsum; unfold suspended_size in Hsum; rewrite Et in Hsum; cbn in Hsum; lia.
Qed.

Lemma nsteps_remaining k : forall c c', nsteps step k c c' -> (k + remaining c' <= remaining c)%nat.
Proof.
  induction k as [|k IH]; intros c c' H; inversion H; subst; [lia|].
  pose proof (step_remaining _ _ H1). specialize (IH _ _ H2). lia.
Qed.

(** Where nested calls follow an order on the sessions (a task
    calls for its own session or a higher one), every schedule completes:
    the number of steps is bounded by a number read off the tasks, and a
    configuration from which no step is possible has all its threads
    finished and an empty map of tails. *)
Theorem queue_completes (rank : sid -> nat) tasks c k :
  Forall (ranked rank None) tasks ->
  nsteps step k (initial tasks) c ->
  (k <= sum_list (map task_size tasks))%nat /\
  (stuck c -> Forall (fun t => exists ok, t = Finished ok) (threads c) /\
              sessionMutationTails (cq c) = ∅).
Proof.
  intros Ht Hn. split.
  - pose proof (nsteps_remaining k _ _ Hn) as Hk.
    assert (E : remaining (initial tasks) = sum_list (map task_size tasks)); [|lia].
    unfold remaining. cbn [cq initial calls threads]. unfold waiting_calls. cbn [List.filter length].
    rewrite Nat.add_0_r, map_map. clear. induction tasks as [|t ts IH]; [done|].
    cbn [map sum_list_with] in *. rewrite IH. unfold id. cbn. lia.
  - intros Hst. assert (Hr : rtc step (initial tasks) c) by (by eapply rtc_nsteps_2).
    pose proof (reachable_ok _ _ Hr) as Hok.
    assert (Hrk : Forall (thread_ranked rank) (threads c)).
    { assert (H0 : Forall (thread_ranked rank) (threads (initial tasks))).
      { apply Forall_map. eapply Forall_impl; [exact Ht|]. intros t H. repeat split; done. }
      clear -H0 Hr. induction Hr; eauto using step_ranked. }
    pose proof (stuck_finished rank c Hok Hrk Hst) as Hfin. split; [done|].
    apply map_empty. intros s. destruct (sessionMutationTails (cq c) !! s) as [n|] eqn:E; [|done].
    destruct (qi_tail _ (ci_queue c Hok) s n E) as [(x & Ex & Hs & Hx) _].
    assert (Ho : outstanding (calls (cq c)) n).
    { unfold outstanding, status_of. rewrite Ex. cbn. by destruct (c_status x); [left|right|]. }
    apply (ci_holds c Hok), list_elem_of_In, in_flat_map in Ho as (t & Hin & Hnt).
    rewrite Forall_forall in Hfin. apply list_elem_of_In, Hfin in Hin as [ok ->]. done.
Qed.

(** *** Schedules as lists of thread numbers *)

Fixpoint run (schedule : list nat) (c : config) : option config :=
  match schedule with
  | [] => Some c
  | i :: schedule => match step_thread i c with Some c' => run schedule c' | None => None end
  end.

Lemma run_nsteps schedule : forall c c',
  run schedule c = Some c' -> nsteps step (length schedule) c c'.
Proof.
  induction schedule as [|i schedule IH]; intros c c' H; cbn in H.
  - injection H as ->. constructor.
  - destruct (step_thread i c) as [c1|] eqn:E; [|done].
    econstructor; [by exists i|by apply IH].
Qed.

Lemma stuck_check c :
  forallb (fun i => negb (bool_decide (is_Some (step_thread i c)))) (seq 0 (length (threads c)))
  = true -> stuck c.
Proof.
  intros H i. rewrite forallb_forall in H.
  destruct (decide (i < length (threads c))%nat) as [Hi|Hi].
  - specialize (H i ltac:(apply in_seq; lia)). bool_prop. by apply eq_None_not_Some.
  - unfold step_thread. by rewrite lookup_ge_None_2 by lia.
Qed.

Definition session_a : sid := js "a".
Definition session_b : sid := js "b".

(** Two callers on session a, the first with a nested call for a and one for b. *)
Definition sample_tasks : list task :=
  [Mutate session_a (Work 1 (Mutate session_a (Work 2 (Return true))
     (fun _ => Mutate session_b (Return false) Return))) Return;
   Mutate session_a (Work 3 (Return true)) Return].

Definition sample_schedule : list nat := [0; 1; 0; 0; 0; 0; 0; 0; 0; 0; 0; 0; 1; 1; 1; 1]%nat.

Definition b_above_a (s : sid) : nat := if bool_decide (s = session_b) then 1 else 0.

Lemma sample_ranked : Forall (ranked b_above_a None) sample_tasks.
Proof.
  repeat (constructor; try done); cbn; intros; try done;
  right; vm_compute; lia.
Qed.

Lemma queue_completes_witness :
  exists c, run sample_schedule (initial sample_tasks) = Some c /\
    Forall (fun t => exists ok, t = Finished ok) (threads c) /\
    sessionMutationTails (cq c) = ∅.
Proof.
  destruct (run sample_schedule (initial sample_tasks)) as [c|] eqn:E;
    [|vm_compute in E; discriminate E].
  exists c. split; [reflexivity|].
  apply (queue_completes b_above_a sample_tasks c (length sample_schedule) sample_ranked).
  - apply run_nsteps. exact E.
  - apply stuck_check. vm_compute in E. injection E as <-. vm_compute. reflexivity.
Defined.

Lemma session_mutual_exclusion_witness :
  exists c, run [0; 1; 0]%nat (initial sample_tasks) = Some c /\
    forall s i j ti tj, threads c !! i = Some ti -> threads c !! j = Some tj ->
      inside (calls (cq c)) s ti -> inside (calls (cq c)) s tj -> i = j.
Proof.
  destruct (run [0; 1; 0]%nat (initial sample_tasks)) as [c|] eqn:E;
    [|vm_compute in E; discriminate E].
  exists c. split; [reflexivity|].
  apply (session_mutual_exclusion sample_tasks c).
  apply run_nsteps, rtc_nsteps_2 in E. exact E.
Defined.

Lemma tails_hold_outstanding_witness :
  exists c, run [0; 1; 0]%nat (initial sample_tasks) = Some c /\
    (is_Some (sessionMutationTails (cq c) !! session_a) <->
     exists n, session_of (calls (cq c)) n = Some session_a /\ outstanding (calls (cq c)) n).
Proof.
  destruct (run [0; 1; 0]%nat (initial sample_tasks)) as [c|] eqn:E;
    [|vm_compute in E; discriminate E].
  exists c. split; [reflexivity|].
  apply (tails_hold_outstanding sample_tasks c).
  apply run_nsteps, rtc_nsteps_2 in E. exact E.
Defined.

(** Re-entry is recognised only for the innermost session: a task
    of session a that calls for b, whose task calls for a again, waits for
    itself for ever.  One caller is enough. *)
Theorem nested_reentry_deadlocks :
  exists c, rtc step (initial [Mutate session_a (Mutate session_b
      (Mutate session_a (Return true) Return) Return) Return]) c /\
    stuck c /\ ~ Forall (fun t => exists ok, t = Finished ok) (threads c).
Proof.
  destruct (run [0; 0; 0; 0; 0]%nat (initial [Mutate session_a (Mutate session_b
    (Mutate session_a (Return true) Return) Return) Return])) as [c|] eqn:E;
    [|vm_compute in E; discriminate E].
  exists c. split; [by apply run_nsteps, rtc_nsteps_2 in E|].
  vm_compute in E. injection E as <-. split.
  - apply stuck_check. by vm_compute.
  - intros H. apply Forall_cons in H as [[ok Hf] _]. discriminate Hf.
Qed.
