(* ===== verification/Search.v ===== *)
(** * The search controller ([packages/client/src/editor_search.ts])

    [EditorSearchController]: search with a bounded window, next and previous
    match with wrap-around, the matches visible in a viewport, and replace
    all.  The controller reaches the session through three functions it is
    given; [SearchService] is that interface and [SearchServiceLaws] what the
    protocol documents of it: a search answers the matches of the pattern in
    the range, in order of the direction, overlapping ones included, at most
    [limit] of them (zero: all); a length of zero means "to the end". *)

From stdpp Require Import sorting.
From S2P Require Import Prelude JsText EditDiff History.

Open Scope jsm_scope.

(** ** Data *)

Inductive SearchCaseFolding :=
  | FOLD_NONE | FOLD_ASCII | FOLD_WINDOWS_1252 | FOLD_CP437 | FOLD_EBCDIC_037 | FOLD_MAC_ROMAN.

(** The wire value, which the history records. *)
Definition folding_code (f : SearchCaseFolding) : Z :=
  match f with
  | FOLD_NONE => 0 | FOLD_ASCII => 1 | FOLD_WINDOWS_1252 => 2 | FOLD_CP437 => 3
  | FOLD_EBCDIC_037 => 4 | FOLD_MAC_ROMAN => 5
  end.

Inductive EditorSearchMode := bounded | large.

Record EditorSearchResults := mkResults {
  sr_mode : EditorSearchMode;
  sr_matches : list Z;
  sr_currentOffset : Z;
  sr_firstOffset : Z;
  sr_patternLength : Z;
  sr_windowLimit : Z
}.

Record EditorSearchRequest := mkSearchRequest {
  query : jsstring;
  isHex : bool;
  caseFolding : option SearchCaseFolding;
  isReverse : option bool
}.

Inductive direction := forward | backward.

Record EditorFindAdjacentRequest := mkAdjacent {
  fa_search : EditorSearchRequest;
  fa_direction : direction;
  fa_anchorOffset : number;
  fa_fileSize : Z;
  fa_viewportOffset : option number;
  fa_viewportLength : option number;
  fa_viewportLimit : option number
}.

Record EditorViewportMatchWindow := mkWindow {
  vw_offset : Z;
  vw_length : Z;
  vw_matches : list Z;
  vw_hasMore : bool
}.

Record EditorFindAdjacentResult := mkAdjacentResult {
  ar_offset : Z;
  ar_patternLength : Z;
  ar_viewport : option EditorViewportMatchWindow
}.

Record EditorViewportMatchesRequest := mkViewportRequest {
  vm_search : EditorSearchRequest;
  vm_fileSize : Z;
  vm_viewportOffset : option number;
  vm_viewportLength : option number;
  vm_viewportLimit : option number;
  vm_focusedOffset : option Z
}.

Record EditorReplaceAllRequest := mkReplaceRequest {
  ra_search : EditorSearchRequest;
  ra_length : Z;
  ra_replacement : bytes;
  ra_replacementData : option jsstring
}.

Inductive replace_strategy := bounded_strategy | checkpointed_strategy.

Record EditorReplaceAllResult := mkReplaceResult {
  rr_strategy : replace_strategy;
  rr_replacedCount : Z;
  rr_selectionOffset : Z;
  rr_orderedOffsets : list Z;
  rr_checkpointTransaction : option CheckpointReplaceAll
}.

Record ActiveSearchState := mkActive {
  as_query : jsstring;
  as_isHex : bool;
  as_caseFolding : SearchCaseFolding;
  as_patternLength : Z;
  as_mode : EditorSearchMode
}.

(** The controller's own fields. *)
Record controller := mkController {
  windowLimit : Z;
  preserveDepth : Z;
  activeSearch : option ActiveSearchState
}.

Definition new_controller (limit : option Z) : controller :=
  mkController (default 1000 limit) 0 None.

(** ** Helper functions *)

Definition toPatternBytes (query : jsstring) (isHex : bool) : bytes :=
  if isHex then hex_decode query else utf8_encode query.

(** [[...a].sort((x, y) => x - y)] and its opposite. *)
Definition sort_asc : list Z -> list Z := merge_sort Z.le.
Definition sort_desc : list Z -> list Z := merge_sort Z.ge.

Fixpoint filter_loop (patternLength : Z) (isReverse : bool) (sorted : list Z)
    (result : list Z) (lastAccepted : Z) : list Z :=
  match sorted with
  | [] => result
  | offset :: sorted =>
      let overlaps := (0 <=? lastAccepted) &&
        (if isReverse then lastAccepted <? offset + patternLength
         else offset <? lastAccepted + patternLength) in
      if negb overlaps then filter_loop patternLength isReverse sorted (result ++ [offset]) offset
      else filter_loop patternLength isReverse sorted result lastAccepted
  end.

Definition filterNonOverlapping (offsets : list Z) (patternLength : Z) (isReverse : bool)
  : list Z :=
  if (length offsets =? 0)%nat || (patternLength <=? 0) then offsets
  else
    let sorted := if isReverse then sort_desc offsets else sort_asc offsets in
    filter_loop patternLength isReverse sorted [] (-1).

(** The value, where it is usable. *)
Definition isUsableNonNegativeInteger (value : option number) : option Z :=
  match value with
  | Some (NInt z) => if safeZ z && (0 <=? z) then Some z else None
  | _ => None
  end.

Definition matchOverlapsRange (matchOffset patternLength rangeOffset rangeLength : Z) : bool :=
  (0 <? patternLength) && (0 <? rangeLength) && (matchOffset <? rangeOffset + rangeLength)
  && (rangeOffset <? matchOffset + patternLength).

(** [a.slice(0, n)]: a negative [n] counts from the end. *)
Definition slice_to (n : Z) (l : list Z) : list Z :=
  take (Z.to_nat (if n <? 0 then len l + n else n)) l.

(** [Array.from(new Set(a))]: first occurrences, in order. *)
Fixpoint distinct (l : list Z) : list Z :=
  match l with
  | [] => []
  | x :: l => x :: List.filter (fun y => negb (y =? x)) (distinct l)
  end.

(** ** The session, as the controller sees it *)

Class SearchService (S : Type) := {
  searchSession : bytes -> SearchCaseFolding -> bool -> Z -> Z -> Z -> M S (list Z);
  (* pattern, replacement, folding, reverse, offset, length, limit, front to
     back, overwrite only *)
  replaceSession : bytes -> bytes -> SearchCaseFolding -> bool -> Z -> Z -> Z -> bool -> bool ->
    M S Z;
  replaceSessionCheckpointed : bytes -> bytes -> SearchCaseFolding -> Z -> Z -> M S Z
}.

(** ** The controller *)

Section Controller.
Context {S : Type} `{SearchService S}.

Definition on_session {A} (m : M S A) : M (controller * S) A := fun '(c, s) =>
  let '(s', r) := m s in ((c, s'), r).

Definition set_active (a : option ActiveSearchState) : M (controller * S) unit :=
  putM (fun '(c, s) => (mkController (windowLimit c) (preserveDepth c) a, s)).

Definition clear : M (controller * S) bool :=
  let* hadSearch := getM (fun st => bool_decide (is_Some (activeSearch st.1))) in
  set_active None ;;; retM hadSearch.

Definition shouldClearAfterExternalEdit (c : controller) : bool :=
  (preserveDepth c =? 0) && bool_decide (is_Some (activeSearch c)).

Definition add_depth (d : Z) : M (controller * S) unit :=
  putM (fun '(c, s) => (mkController (windowLimit c) (preserveDepth c + d) (activeSearch c), s)).

Definition preserveState {A} (work : M (controller * S) A) : M (controller * S) A :=
  add_depth 1 ;;; finallyM work (add_depth (-1)).

Definition search (request : EditorSearchRequest) : M (controller * S) EditorSearchResults :=
  let normalizedQuery := trim (query request) in
  let pattern := toPatternBytes normalizedQuery (isHex request) in
  let folding := default FOLD_NONE (caseFolding request) in
  let reverse := default false (isReverse request) in
  let* limit := getM (fun st => windowLimit st.1) in
  if (length normalizedQuery =? 0)%nat || (length pattern =? 0)%nat then
    set_active None ;;; retM (mkResults bounded [] (-1) (-1) 0 limit)
  else
    let* matches := on_session (searchSession pattern folding reverse 0 0 (limit + 1)) in
    let mode := if limit <? len matches then large else bounded in
    let firstOffset := default (-1) (head matches) in
    set_active (Some (mkActive normalizedQuery (isHex request) folding (len pattern) mode)) ;;;
    retM (mkResults mode (match mode with large => [] | bounded => matches end)
      (match mode with large => firstOffset | bounded => -1 end) firstOffset (len pattern) limit).

Definition collectViewportMatches (pattern : bytes) (folding : SearchCaseFolding)
    (fileSize : Z) (viewportOffset viewportLength viewportLimit : option number)
    (focusedOffset : Z) : M S (option EditorViewportMatchWindow) :=
  match isUsableNonNegativeInteger viewportOffset, isUsableNonNegativeInteger viewportLength with
  | Some vOffset, Some vLength =>
      if (length pattern =? 0)%nat || (fileSize <=? 0) || (vLength =? 0) || (fileSize <=? vOffset)
      then retM None
      else
        let visibleOffset := Z.min vOffset fileSize in
        let visibleLength := Z.min vLength (fileSize - visibleOffset) in
        if visibleLength <=? 0 then retM None
        else
          let boundaryPadding := Z.max 0 (len pattern - 1) in
          let viewportSizedLimit := visibleLength + boundaryPadding + 1 in
          let limit := match isUsableNonNegativeInteger viewportLimit with
            | Some l => if 0 <? l then l else viewportSizedLimit
            | None => viewportSizedLimit
            end in
          let boundedLimit := Z.max 1 limit in
          let searchOffset := Z.max 0 (visibleOffset - boundaryPadding) in
          let searchEnd := Z.min fileSize (visibleOffset + visibleLength + boundaryPadding) in
          let* rawMatches := searchSession pattern folding false searchOffset
            (searchEnd - searchOffset) (boundedLimit + 1) in
          let visibleMatches := sort_asc (List.filter (fun matchOffset =>
            matchOverlapsRange matchOffset (len pattern) visibleOffset visibleLength) rawMatches) in
          let matches := slice_to (boundedLimit + 1) visibleMatches in
          let hasMore := boundedLimit <? len visibleMatches in
          if (0 <=? focusedOffset)
             && matchOverlapsRange focusedOffset (len pattern) visibleOffset visibleLength
             && negb (includes matches focusedOffset)
          then retM (Some (mkWindow visibleOffset visibleLength
            (sort_asc (distinct (slice_to boundedLimit matches ++ [focusedOffset]))) true))
          else retM (Some (mkWindow visibleOffset visibleLength matches hasMore))
  | _, _ => retM None
  end.

(** The anchor of [findAdjacent], [-1] where the request has none. *)
Definition clamped_anchor (request : EditorFindAdjacentRequest) : Z :=
  match fa_anchorOffset request with
  | NInt a => if safeZ a && (0 <=? a) then Z.min a (Z.max 0 (fa_fileSize request - 1)) else -1
  | _ => -1
  end.

Definition buildResult (request : EditorFindAdjacentRequest) (pattern : bytes) (offset : Z)
  : M S EditorFindAdjacentResult :=
  let* viewport :=
    if 0 <=? offset then
      collectViewportMatches pattern (default FOLD_NONE (caseFolding (fa_search request)))
        (fa_fileSize request) (fa_viewportOffset request) (fa_viewportLength request)
        (fa_viewportLimit request) offset
    else retM None in
  retM (mkAdjacentResult offset (len pattern) viewport).

Definition findAdjacent (request : EditorFindAdjacentRequest) : M S EditorFindAdjacentResult :=
  let normalizedQuery := trim (query (fa_search request)) in
  let pattern := toPatternBytes normalizedQuery (isHex (fa_search request)) in
  let folding := default FOLD_NONE (caseFolding (fa_search request)) in
  let fileSize := fa_fileSize request in
  if (length normalizedQuery =? 0)%nat || (length pattern =? 0)%nat || (fileSize <=? 0)
  then retM (mkAdjacentResult (-1) (len pattern) None)
  else
    let clampedAnchor := clamped_anchor request in
    match fa_direction request with
    | forward =>
        let nextOffset := if 0 <=? clampedAnchor then clampedAnchor + 1 else 0 in
        let* matches := if nextOffset <? fileSize
          then searchSession pattern folding false nextOffset 0 1 else retM [] in
        match matches with
        | m :: _ => buildResult request pattern m
        | [] =>
            let wrapLength := if 0 <=? clampedAnchor
              then Z.min fileSize (clampedAnchor + len pattern - 1) else 0 in
            let* wrappedMatches := searchSession pattern folding false 0 wrapLength 1 in
            buildResult request pattern (default (-1) (head wrappedMatches))
        end
    | backward =>
        let reverseLength := if 0 <=? clampedAnchor
          then Z.min fileSize (clampedAnchor + len pattern - 1) else fileSize in
        let* matches := if 0 <? reverseLength
          then searchSession pattern folding true 0 reverseLength 1 else retM [] in
        match matches with
        | m :: _ => buildResult request pattern m
        | [] =>
            let wrapOffset := if 0 <=? clampedAnchor then clampedAnchor + 1 else 0 in
            let* wrappedMatches := searchSession pattern folding true wrapOffset 0 1 in
            buildResult request pattern (default (-1) (head wrappedMatches))
        end
    end.

Definition findViewportMatches (request : EditorViewportMatchesRequest)
  : M S (option EditorViewportMatchWindow) :=
  let normalizedQuery := trim (query (vm_search request)) in
  let pattern := toPatternBytes normalizedQuery (isHex (vm_search request)) in
  if (length normalizedQuery =? 0)%nat || (length pattern =? 0)%nat || (vm_fileSize request <=? 0)
  then retM None
  else collectViewportMatches pattern (default FOLD_NONE (caseFolding (vm_search request)))
    (vm_fileSize request) (vm_viewportOffset request) (vm_viewportLength request)
    (vm_viewportLimit request) (default (-1) (vm_focusedOffset request)).

(** Runs in the session's mutation queue, here the turn of the one caller. *)
Definition replaceAll (request : EditorReplaceAllRequest)
  : M (controller * S) EditorReplaceAllResult :=
  let rq := ra_search request in
  let normalizedQuery := trim (query rq) in
  let pattern := toPatternBytes normalizedQuery (isHex rq) in
  let folding := default FOLD_NONE (caseFolding rq) in
  let reverse := default false (isReverse rq) in
  if (length normalizedQuery =? 0)%nat || (length pattern =? 0)%nat
  then retM (mkReplaceResult bounded_strategy 0 (-1) [] None)
  else
    let* limit := getM (fun st => windowLimit st.1) in
    let* searchProbe := on_session (searchSession pattern folding reverse 0 0 (limit + 1)) in
    let nonOverlappingOffsets := filterNonOverlapping searchProbe (len pattern) reverse in
    let orderedOffsets := sort_asc nonOverlappingOffsets in
    let firstOffset := default (-1) (head orderedOffsets) in
    let selection replacedCount :=
      if (0 <? replacedCount) && negb (length (ra_replacement request) =? 0)%nat
      then firstOffset else -1 in
    if limit <? len searchProbe then
      let* replacedCount := on_session
        (replaceSessionCheckpointed pattern (ra_replacement request) folding 0 0) in
      retM (mkReplaceResult checkpointed_strategy replacedCount (selection replacedCount) []
        (match ra_replacementData request with
         | Some data => if 0 <? replacedCount
             then Some (mkCheckpoint normalizedQuery (isHex rq) (folding_code folding) data)
             else None
         | None => None
         end))
    else
      let* replacedCount := on_session (replaceSession pattern (ra_replacement request) folding
        reverse 0 0 (len nonOverlappingOffsets) true false) in
      retM (mkReplaceResult bounded_strategy replacedCount (selection replacedCount)
        (slice_to replacedCount orderedOffsets) None).
End Controller.

(** ** What a search answers *)

Definition match_at (fold : Z -> Z) (pattern buf : bytes) (o : nat) : bool :=
  bool_decide (map fold (take (length pattern) (drop o buf)) = map fold pattern).

(** The offsets of all matches, ascending. *)
Definition all_matches (fold : Z -> Z) (pattern buf : bytes) : list Z :=
  map Z.of_nat (List.filter (match_at fold pattern buf) (seq 0 (S (length buf)))).

(** Those that lie in [[lo, hi)]. *)
Definition window (lo hi size : Z) (ms : list Z) : list Z :=
  List.filter (fun o => (lo <=? o) && (o + size <=? hi)) ms.

Definition limited (limit : Z) (ms : list Z) : list Z :=
  if limit =? 0 then ms else take (Z.to_nat limit) ms.

Definition search_spec (fold : Z -> Z) (pattern buf : bytes) (reverse : bool)
    (offset length limit : Z) : list Z :=
  let hi := if length =? 0 then len buf else Z.min (len buf) (offset + length) in
  let ms := window offset hi (len pattern) (all_matches fold pattern buf) in
  limited limit (if reverse then rev ms else ms).

(** Matches taken in order of the direction, each clear of the one before. *)
Fixpoint select (reverse : bool) (size : Z) (prev : option Z) (ms : list Z) : list Z :=
  match ms with
  | [] => []
  | o :: ms =>
      let clear := match prev with
        | None => true
        | Some p => if reverse then o + size <=? p else p + size <=? o
        end in
      if clear then o :: select reverse size (Some o) ms else select reverse size prev ms
  end.

(** The buffer with [replacement] put in place of the [size] bytes at each
    of the ascending offsets. *)
Definition substitute (size : Z) (replacement : bytes) (offsets : list Z) (buf : bytes) : bytes :=
  foldr (fun o b => take (Z.to_nat o) b ++ replacement ++ drop (Z.to_nat (o + size)) b) buf offsets.

Definition replaced_offsets (fold : Z -> Z) (pattern buf : bytes) (reverse : bool) (limit : Z)
  : list Z :=
  limited limit (select reverse (len pattern) None
    (search_spec fold pattern buf reverse 0 0 0)).

Class SearchServiceLaws (S : Type) `{SearchService S} := {
  service_content : S -> bytes;
  fold_byte : SearchCaseFolding -> Z -> Z;
  search_law pattern folding reverse offset length limit s :
    pattern <> [] -> 0 <= offset -> 0 <= length -> 0 <= limit ->
    searchSession pattern folding reverse offset length limit s =
    (s, Ok (search_spec (fold_byte folding) pattern (service_content s) reverse offset length
       limit));
  replace_law pattern replacement folding reverse limit s :
    pattern <> [] -> 0 <= limit ->
    let offsets := replaced_offsets (fold_byte folding) pattern (service_content s) reverse limit in
    exists s',
      replaceSession pattern replacement folding reverse 0 0 limit true false s
      = (s', Ok (len offsets)) /\
      service_content s' = substitute (len pattern) replacement
        (if reverse then rev offsets else offsets) (service_content s);
  replace_checkpointed_law pattern replacement folding s :
    pattern <> [] ->
    let offsets := replaced_offsets (fold_byte folding) pattern (service_content s) false 0 in
    exists s',
      replaceSessionCheckpointed pattern replacement folding 0 0 s = (s', Ok (len offsets)) /\
      service_content s' = substitute (len pattern) replacement offsets (service_content s)
}.

(** A session that keeps its bytes in a list and searches them directly;
    its only case folding is ASCII's. *)
Module ListService.

Definition fold (f : SearchCaseFolding) (b : Z) : Z :=
  match f with FOLD_ASCII => if (65 <=? b) && (b <=? 90) then b + 32 else b | _ => b end.

#[global] Instance service : SearchService bytes := {
  searchSession pattern folding reverse offset length limit buf :=
    (buf, Ok (search_spec (fold folding) pattern buf reverse offset length limit));
  replaceSession pattern replacement folding reverse _ _ limit _ _ buf :=
    let offsets := replaced_offsets (fold folding) pattern buf reverse limit in
    (substitute (len pattern) replacement (if reverse then rev offsets else offsets) buf,
     Ok (len offsets));
  replaceSessionCheckpointed pattern replacement folding _ _ buf :=
    let offsets := replaced_offsets (fold folding) pattern buf false 0 in
    (substitute (len pattern) replacement offsets buf, Ok (len offsets))
}.

#[global] Instance service_laws : SearchServiceLaws bytes.
Proof.
  refine {| service_content := fun b => b; fold_byte := fold |}.
  - done.
  - intros. eexists. split; reflexivity.
  - intros. eexists. split; reflexivity.
Defined.

End ListService.

(** ** Selection of non-overlapping matches *)

(** Position along the direction of the search. *)
Definition key (reverse : bool) (o : Z) : Z := if reverse then - o else o.

Definition spaced (reverse : bool) (size : Z) : list Z -> Prop :=
  StronglySorted (fun a b => key reverse a + size <= key reverse b).

Definition in_order (reverse : bool) : list Z -> Prop :=
  StronglySorted (fun a b => key reverse a <= key reverse b).

Definition prev_of (last : Z) : option Z := if 0 <=? last then Some last else None.

Lemma filter_loop_select size reverse ms : forall result last,
  Forall (fun o => 0 <= o) ms ->
  filter_loop size reverse ms result last = result ++ select reverse size (prev_of last) ms.
Proof.
  induction ms as [|o ms IH]; intros result last Hp; [cbn; by rewrite app_nil_r|].
  apply Forall_cons in Hp as [Ho Hp]. cbn [filter_loop select].
  assert (Eo : prev_of o = Some o) by (unfold prev_of; by rewrite (proj2 (Z.leb_le _ _) Ho)).
  assert (El : prev_of last = if 0 <=? last then Some last else None) by done.
  destruct (0 <=? last); cbn [andb negb]; rewrite El.
  - assert (Ec : (if reverse then o + size <=? last else last + size <=? o)
      = negb (if reverse then last <? o + size else o <? last + size))
      by (destruct reverse; by rewrite Z.leb_antisym).
    rewrite Ec. clear Ec.
    destruct (if reverse then last <? o + size else o <? last + size); cbn [negb];
      rewrite IH by done.
    + by rewrite El.
    + by rewrite Eo, <- app_assoc.
  - by rewrite IH, Eo, <- app_assoc by done.
Qed.

Definition clear_of (reverse : bool) (size : Z) (prev : option Z) (o : Z) : Prop :=
  match prev with None => True | Some p => key reverse p + size <= key reverse o end.

Lemma select_cons reverse size prev o ms :
  (clear_of reverse size prev o /\
   select reverse size prev (o :: ms) = o :: select reverse size (Some o) ms) \/
  (~ clear_of reverse size prev o /\
   select reverse size prev (o :: ms) = select reverse size prev ms).
Proof.
  cbn [select]. unfold clear_of, key. destruct prev as [p|]; [|by left].
  destruct reverse.
  - destruct (Z.leb_spec (o + size) p); [left|right]; split; try done; lia.
  - destruct (Z.leb_spec (p + size) o); [left|right]; split; try done; lia.
Qed.

Lemma select_elem reverse size o ms : forall prev, o ∈ select reverse size prev ms -> o ∈ ms.
Proof.
  induction ms as [|x ms IH]; intros prev H; [done|].
  destruct (select_cons reverse size prev x ms) as [[_ E]|[_ E]]; rewrite E in H.
  - apply elem_of_cons in H as [->|H]; [by left|right; by eapply IH].
  - right. by eapply IH.
Qed.

Lemma select_spaced reverse size ms : 0 < size -> in_order reverse ms -> forall prev,
  spaced reverse size (select reverse size prev ms) /\
  Forall (clear_of reverse size prev) (select reverse size prev ms).
Proof.
  intros Hs. induction ms as [|o ms IH]; intros Ho prev; [split; constructor|].
  inversion Ho as [|?? Ho' Hf]; subst.
  destruct (select_cons reverse size prev o ms) as [[Hc E]|[Hc E]]; rewrite E; [|by apply IH].
  destruct (IH Ho' (Some o)) as [H1 H2]. split; [by constructor|].
  constructor; [done|]. eapply Forall_impl; [exact H2|]. intros x Hx.
  unfold clear_of in *. destruct prev; [lia|done].
Qed.

(** Whatever is left out overlaps a match that was taken. *)
Lemma select_maximal reverse size ms : 0 < size -> in_order reverse ms -> forall prev o,
  o ∈ ms ->
  (exists p, prev = Some p /\ key reverse o < key reverse p + size) \/
  exists a, a ∈ select reverse size prev ms /\
    key reverse a <= key reverse o < key reverse a + size.
Proof.
  intros Hs. induction ms as [|x ms IH]; intros Ho prev o Hin; [by apply not_elem_of_nil in Hin|].
  inversion Ho as [|?? Ho' Hf]; subst.
  destruct (select_cons reverse size prev x ms) as [[Hc E]|[Hc E]]; rewrite E.
  - right. apply elem_of_cons in Hin as [->|Hin]; [exists x; split; [by left|lia]|].
    rewrite Forall_forall in Hf. specialize (Hf o Hin).
    destruct (IH Ho' (Some x) o Hin) as [(p & [= <-] & Hlt)|(a & Ha & Hr)].
    + exists x. split; [by left|lia].
    + exists a. split; [by right|lia].
  - apply elem_of_cons in Hin as [->|Hin]; [|by apply IH].
    left. unfold clear_of in Hc. destruct prev as [p|]; [|done]. exists p. split; [done|lia].
Qed.

(** No choice of non-overlapping matches has more of them. *)
Lemma select_maximum reverse size ms : 0 < size -> in_order reverse ms -> forall prev t,
  spaced reverse size t -> (forall o, o ∈ t -> o ∈ ms) ->
  Forall (clear_of reverse size prev) t ->
  (length t <= length (select reverse size prev ms))%nat.
Proof.
  intros Hs. induction ms as [|x ms IH]; intros Ho prev t Ht Hsub Hcl.
  { destruct t as [|o t]; [done|]. exfalso. apply (not_elem_of_nil o), Hsub. by left. }
  inversion Ho as [|?? Ho' Hf]; subst. rewrite Forall_forall in Hf.
  destruct (select_cons reverse size prev x ms) as [[Hc E]|[Hc E]]; rewrite E.
  - destruct t as [|e t]; [cbn; lia|]. inversion Ht as [|?? Ht' Hft]; subst.
    rewrite Forall_forall in Hft. cbn [length]. apply le_n_S, IH; [done|done|..].
    + intros o Hin. assert (Ho2 : o ∈ x :: ms) by (apply Hsub; by right).
      apply elem_of_cons in Ho2 as [->|?]; [|done]. exfalso.
      specialize (Hft x Hin). assert (He : e ∈ x :: ms) by (apply Hsub; by left).
      apply elem_of_cons in He as [->|He]; [lia|]. specialize (Hf e He). lia.
    + apply Forall_forall. intros o Hin. cbn. specialize (Hft o Hin).
      assert (He : e ∈ x :: ms) by (apply Hsub; by left).
      apply elem_of_cons in He as [->|He]; [lia|]. specialize (Hf e He). lia.
  - apply IH; [done|done| |done]. intros o Hin. rewrite Forall_forall in Hcl.
    specialize (Hsub o Hin). apply elem_of_cons in Hsub as [->|?]; [|done].
    by specialize (Hcl x Hin).
Qed.

#[local] Instance Z_le_total : Total Z.le.
Proof. intros x y. lia. Qed.
#[local] Instance Z_ge_total : Total Z.ge.
Proof. intros x y. lia. Qed.

#[local] Instance Z_ge_antisymm : AntiSymm eq Z.ge.
Proof. intros x y. lia. Qed.

Lemma sort_asc_sorted l : in_order false (sort_asc l).
Proof. apply Sorted_StronglySorted; [intros ???; cbn; lia|]. apply (Sorted_merge_sort Z.le). Qed.

Lemma sort_desc_sorted l : in_order true (sort_desc l).
Proof.
  assert (H : StronglySorted Z.ge (sort_desc l)).
  { apply Sorted_StronglySorted; [intros ???; lia|]. apply (Sorted_merge_sort Z.ge). }
  unfold in_order. induction H as [|x k _ IH Hf]; constructor; [done|].
  eapply Forall_impl; [exact Hf|]. cbn. lia.
Qed.

Definition ordered (reverse : bool) (l : list Z) : list Z :=
  if reverse then sort_desc l else sort_asc l.

Lemma ordered_spec reverse l : in_order reverse (ordered reverse l) /\ ordered reverse l ≡ₚ l.
Proof.
  destruct reverse; (split; [apply sort_desc_sorted || apply sort_asc_sorted|]);
    apply merge_sort_Permutation.
Qed.

Lemma filterNonOverlapping_select offsets size reverse :
  0 < size -> Forall (fun o => 0 <= o) offsets ->
  filterNonOverlapping offsets size reverse = select reverse size None (ordered reverse offsets).
Proof.
  intros Hs Hp. unfold filterNonOverlapping. destruct (Nat.eqb_spec (length offsets) 0) as [E|E].
  - apply nil_length_inv in E as ->. by destruct reverse.
  - destruct (Z.leb_spec size 0); [lia|]. cbn [orb]. fold (ordered reverse offsets).
    rewrite filter_loop_select; [done|].
    by rewrite (proj2 (ordered_spec reverse offsets)).
Qed.

(** Among any non-negative offsets of matches, [filterNonOverlapping]
    picks ones that do not overlap, in order of the direction; everything it
    leaves out overlaps something it picked; and no set of non-overlapping
    matches has more members. *)
Theorem filterNonOverlapping_correct offsets size reverse :
  0 < size -> Forall (fun o => 0 <= o) offsets ->
  let picked := filterNonOverlapping offsets size reverse in
  (forall o, o ∈ picked -> o ∈ offsets) /\
  spaced reverse size picked /\
  (forall o, o ∈ offsets -> exists a, a ∈ picked /\ Z.abs (o - a) < size) /\
  (forall t, spaced reverse size t -> (forall o, o ∈ t -> o ∈ offsets) ->
     (length t <= length picked)%nat).
Proof.
  intros Hs Hp picked. subst picked. rewrite filterNonOverlapping_select by done.
  destruct (ordered_spec reverse offsets) as [Ho Hperm]. split; [|split; [|split]].
  - intros o H. apply select_elem in H. by rewrite Hperm in H.
  - by apply select_spaced.
  - intros o Hin. rewrite <- Hperm in Hin.
    destruct (select_maximal reverse size _ Hs Ho None o Hin) as [(p & [=] & _)|(a & Ha & Hr)].
    exists a. split; [done|]. unfold key in Hr. destruct reverse; lia.
  - intros t Ht Hsub. apply select_maximum; [done..| |by apply Forall_forall].
    intros o Hin. rewrite Hperm. by apply Hsub.
Qed.

Lemma filterNonOverlapping_correct_witness :
  filterNonOverlapping [0; 2; 1; 5] 2 false = [0; 2; 5] /\
  (forall o, o ∈ [0; 2; 1; 5] ->
     exists a, a ∈ filterNonOverlapping [0; 2; 1; 5] 2 false /\ Z.abs (o - a) < 2).
Proof.
  split; [vm_compute; reflexivity|].
  apply (filterNonOverlapping_correct [0; 2; 1; 5] 2 false); [lia|].
  repeat (apply Forall_cons; split; [lia|]). apply Forall_nil. exact I.
Defined.

(** ** Facts about the matches *)

Lemma match_at_length fold pattern buf o :
  match_at fold pattern buf o = true -> (length pattern <= length buf - o)%nat.
Proof.
  unfold match_at. intros H. apply bool_decide_eq_true in H.
  apply (f_equal length) in H. rewrite !length_map, length_take, length_drop in H. lia.
Qed.

Lemma all_matches_spec fold pattern buf o : pattern <> [] ->
  o ∈ all_matches fold pattern buf <->
  0 <= o /\ o + len pattern <= len buf /\ match_at fold pattern buf (Z.to_nat o) = true.
Proof.
  intros Hp. assert (0 < length pattern)%nat by (destruct pattern; [done|cbn; lia]).
  unfold all_matches. rewrite list_elem_of_In, in_map_iff. split.
  - intros (n & <- & Hn). apply filter_In in Hn as [Hn Hm]. apply match_at_length in Hm as Hl.
    rewrite Nat2Z.id. apply in_seq in Hn. unfold len. split; [lia|]. split; [lia|done].
  - intros (H0 & Hl & Hm). exists (Z.to_nat o). split; [lia|]. apply filter_In. split; [|done].
    apply in_seq. unfold len in Hl. lia.
Qed.

Lemma sorted_filter {A} (R : A -> A -> Prop) f l :
  StronglySorted R l -> StronglySorted R (List.filter f l).
Proof.
  induction 1 as [|x l _ IH Hf]; [constructor|]. cbn. destruct (f x); [|done].
  constructor; [done|]. apply Forall_forall. intros y Hy.
  apply list_elem_of_In, filter_In in Hy as [Hy _]. rewrite Forall_forall in Hf.
  by apply Hf, list_elem_of_In.
Qed.

Lemma all_matches_sorted fold pattern buf : StronglySorted Z.lt (all_matches fold pattern buf).
Proof.
  unfold all_matches.
  assert (H : forall k n, StronglySorted lt (seq k n)).
  { intros k n; revert k; induction n as [|n IH]; intros k; constructor; [apply IH|].
    apply Forall_forall. intros x Hx. apply elem_of_seq in Hx. lia. }
  specialize (H 0%nat (S (length buf))). apply (sorted_filter _ (match_at fold pattern buf)) in H.
  induction H as [|x l _ IH Hf]; constructor; [done|]. apply Forall_map.
  eapply Forall_impl; [exact Hf|]. cbn. lia.
Qed.

Lemma filter_ext_elem {A} (f g : A -> bool) l :
  (forall x, x ∈ l -> f x = g x) -> List.filter f l = List.filter g l.
Proof. intros H. apply filter_ext_in. intros x Hx. by apply H, list_elem_of_In. Qed.

Lemma window_all fold pattern buf :
  pattern <> [] -> window 0 (len buf) (len pattern) (all_matches fold pattern buf)
  = all_matches fold pattern buf.
Proof.
  intros Hp. unfold window. rewrite (filter_ext_elem _ (fun _ => true)).
  - induction (all_matches _ _ _) as [|x l IH]; cbn; congruence.
  - intros o Ho. apply all_matches_spec in Ho as (? & ? & _); [|done].
    rewrite (proj2 (Z.leb_le _ _)), (proj2 (Z.leb_le _ _)); done.
Qed.

Lemma len_pos {A} (l : list A) : l <> [] -> 0 < len l.
Proof. unfold len. destruct l; [done|cbn; lia]. Qed.

(** ** The adjacent match *)

(** The nearest match in the direction, else the farthest on the other
    side; an anchor of [-1] stands before the first byte. *)
Definition adjacent (dir : direction) (anchor : Z) (ms : list Z) : Z :=
  let after := List.filter (fun o => anchor <? o) ms in
  let before := List.filter (fun o => o <? anchor) ms in
  match dir with
  | forward => default (default (-1) (head before)) (head after)
  | backward => default (default (-1) (head (rev after))) (head (rev before))
  end.

Section Adjacent.
Context {S : Type} `{SearchServiceLaws S}.
Context (s : S) (pattern : bytes) (folding : SearchCaseFolding) (Hp : pattern <> []).
Let buf := service_content s.
Let ms := all_matches (fold_byte folding) pattern buf.

Lemma search_after anchor (reverse : bool) :
  -1 <= anchor ->
  searchSession pattern folding reverse (anchor + 1) 0 1 s =
  (s, Ok (let after := List.filter (fun o => anchor <? o) ms in
          take 1 (if reverse then rev after else after))).
Proof.
  intros Ha. rewrite search_law by (done || lia). unfold search_spec. cbn [Z.eqb limited].
  assert (E : window (anchor + 1) (len buf) (len pattern) ms
    = List.filter (fun o => anchor <? o) ms).
  { apply filter_ext_elem. intros o Ho. apply all_matches_spec in Ho as (? & ? & _); [|done].
    rewrite (proj2 (Z.leb_le (o + _) _)), andb_true_r by done.
    destruct (Z.leb_spec (anchor + 1) o), (Z.ltb_spec anchor o); lia. }
  fold buf ms. by rewrite E.
Qed.

Lemma search_before anchor (reverse : bool) :
  0 <= anchor -> 0 < anchor + len pattern - 1 ->
  searchSession pattern folding reverse 0 (Z.min (len buf) (anchor + len pattern - 1)) 1 s =
  (s, Ok (let before := List.filter (fun o => o <? anchor) ms in
          take 1 (if reverse then rev before else before))).
Proof.
  intros Ha Hpos. pose proof (len_nonneg buf) as Hn. rewrite search_law by (done || lia).
  unfold search_spec. fold buf ms.
  assert (E : window 0 (if Z.min (len buf) (anchor + len pattern - 1) =? 0 then len buf
      else Z.min (len buf) (0 + Z.min (len buf) (anchor + len pattern - 1))) (len pattern) ms
    = List.filter (fun o => o <? anchor) ms); [|by rewrite E].
  apply filter_ext_elem. intros o Ho. apply all_matches_spec in Ho as (? & ? & _); [|done].
  rewrite (proj2 (Z.leb_le 0 o)) by done. cbn [andb].
  pose proof (len_pos pattern Hp).
  destruct (Z.eqb_spec (Z.min (len buf) (anchor + len pattern - 1)) 0); [lia|].
  destruct (Z.leb_spec (o + len pattern)
    (Z.min (len buf) (0 + Z.min (len buf) (anchor + len pattern - 1)))),
    (Z.ltb_spec o anchor); lia.
Qed.
End Adjacent.

Lemma usable_nonneg v z : isUsableNonNegativeInteger v = Some z -> 0 <= z.
Proof.
  unfold isUsableNonNegativeInteger. destruct v as [[x| | |]|]; try done.
  destruct (safeZ x && (0 <=? x)) eqn:E; [|done]. intros [= <-]. by bool_prop.
Qed.

Section Totality.
Context {S : Type} `{SearchServiceLaws S}.

Lemma collect_total pattern folding fileSize vo vl vlim focused (s : S) :
  exists v, collectViewportMatches pattern folding fileSize vo vl vlim focused s = (s, Ok v).
Proof.
  unfold collectViewportMatches.
  destruct (isUsableNonNegativeInteger vo) as [o|] eqn:Eo; [|by eexists].
  destruct (isUsableNonNegativeInteger vl) as [l|] eqn:El; [|by eexists].
  apply usable_nonneg in Eo, El.
  destruct (Nat.eqb_spec (length pattern) 0) as [Hp|Hp]; [by eexists|].
  destruct (Z.leb_spec fileSize 0); [by eexists|]. destruct (Z.eqb_spec l 0); [by eexists|].
  destruct (Z.leb_spec fileSize o); [by eexists|]. cbn [orb].
  destruct (Z.leb_spec (Z.min l (fileSize - Z.min o fileSize)) 0); [by eexists|].
  unfold bindM. rewrite search_law by (try lia; by intros ->).
  destruct (_ && _ && _); by eexists.
Qed.

Lemma build_total request pattern offset (s : S) :
  exists r, buildResult request pattern offset s = (s, Ok r) /\
    ar_offset r = offset /\ ar_patternLength r = len pattern.
Proof.
  unfold buildResult, bindM. destruct (0 <=? offset).
  - destruct (collect_total pattern (default FOLD_NONE (caseFolding (fa_search request)))
      (fa_fileSize request) (fa_viewportOffset request) (fa_viewportLength request)
      (fa_viewportLimit request) offset s) as [v ->]. by eexists.
  - by eexists.
Qed.
End Totality.

Definition pattern_of (rq : EditorSearchRequest) : bytes :=
  toPatternBytes (trim (query rq)) (isHex rq).

Definition matches_of {S} `{SearchServiceLaws S} (rq : EditorSearchRequest) (s : S) : list Z :=
  all_matches (fold_byte (default FOLD_NONE (caseFolding rq))) (pattern_of rq) (service_content s).

Lemma clamped_anchor_range request :
  0 < fa_fileSize request -> -1 <= clamped_anchor request < fa_fileSize request.
Proof.
  intros Hs. unfold clamped_anchor. destruct (fa_anchorOffset request) as [a| | |]; try lia.
  destruct (safeZ a && (0 <=? a)) eqn:E; bool_prop; lia.
Qed.

Lemma toPatternBytes_query q h : toPatternBytes q h <> [] -> q <> [].
Proof. intros Hp ->. by destruct h. Qed.

Lemma filter_none_before (ms : list Z) a :
  a < 0 -> Forall (fun o => 0 <= o) ms -> List.filter (fun o => o <? a) ms = [].
Proof.
  intros Ha Hf. induction Hf as [|x l Hx Hl IH]; [done|]. cbn.
  destruct (Z.ltb_spec x a); [lia|done].
Qed.

Lemma filter_all_after (ms : list Z) a :
  a < 0 -> Forall (fun o => 0 <= o) ms -> List.filter (fun o => a <? o) ms = ms.
Proof.
  intros Ha Hf. induction Hf as [|x l Hx Hl IH]; [done|]. cbn.
  destruct (Z.ltb_spec a x); [by rewrite IH|lia].
Qed.

Section FindAdjacent.
Context {S : Type} `{SearchServiceLaws S}.
Context (s : S) (rq : EditorFindAdjacentRequest).
Let pattern := pattern_of (fa_search rq).
Let a := clamped_anchor rq.
Let ms := matches_of (fa_search rq) s.
Context (Hp : pattern <> []) (Hsize : fa_fileSize rq = len (service_content s)).
Context (Hpos : 0 < fa_fileSize rq).

Lemma adjacent_guard :
  (length (trim (query (fa_search rq))) =? 0)%nat || (length pattern =? 0)%nat
  || (fa_fileSize rq <=? 0) = false.
Proof.
  apply toPatternBytes_query in Hp as Hq.
  destruct (trim (query (fa_search rq))); [done|]. destruct pattern; [done|].
  destruct (Z.leb_spec (fa_fileSize rq) 0); [lia|done].
Qed.

Lemma matches_nonneg : Forall (fun o => 0 <= o) ms.
Proof.
  apply Forall_forall. intros o Ho. by apply all_matches_spec in Ho as (? & _ & _).
Qed.

Lemma nothing_after : fa_fileSize rq <= a + 1 -> List.filter (fun o => a <? o) ms = [].
Proof.
  intros Ha. rewrite (filter_ext_elem _ (fun _ => false)).
  - clear. induction ms; done.
  - intros o Ho. apply all_matches_spec in Ho as (? & ? & _); [|done].
    pose proof (len_pos pattern Hp). unfold pattern in *. destruct (Z.ltb_spec a o); lia.
Qed.

Lemma first_search (reverse : bool) :
  (if a + 1 <? fa_fileSize rq
   then searchSession pattern (default FOLD_NONE (caseFolding (fa_search rq))) reverse (a + 1) 0 1
   else retM []) s
  = (s, Ok (let after := List.filter (fun o => a <? o) ms in
            take 1 (if reverse then rev after else after))).
Proof.
  pose proof (clamped_anchor_range rq Hpos) as Ha. destruct (Z.ltb_spec (a + 1) (fa_fileSize rq)).
  - apply (search_after s pattern (default FOLD_NONE (caseFolding (fa_search rq))) Hp). lia.
  - rewrite nothing_after by done. by destruct reverse.
Qed.

Lemma next_offset : (if 0 <=? a then a + 1 else 0) = a + 1.
Proof. pose proof (clamped_anchor_range rq Hpos). destruct (Z.leb_spec 0 a); lia. Qed.

Lemma wrap_forward :
  (a <> 0 \/ 1 < len pattern) -> List.filter (fun o => a <? o) ms = [] ->
  searchSession pattern (default FOLD_NONE (caseFolding (fa_search rq))) false 0
    (if 0 <=? a then Z.min (fa_fileSize rq) (a + len pattern - 1) else 0) 1 s
  = (s, Ok (take 1 (List.filter (fun o => o <? a) ms))).
Proof.
  intros Hne Hnone. pose proof (clamped_anchor_range rq Hpos) as Ha.
  pose proof (len_pos pattern Hp). destruct (Z.leb_spec 0 a).
  - rewrite Hsize. by apply (search_before s pattern _ Hp a false); lia.
  - assert (a = -1) as -> by lia.
    rewrite filter_all_after in Hnone by (apply matches_nonneg || lia).
    rewrite filter_none_before by (apply matches_nonneg || lia).
    pose proof (search_after s pattern (default FOLD_NONE (caseFolding (fa_search rq))) Hp
      (-1) false ltac:(lia)) as E.
    cbv zeta in E. change (all_matches _ pattern (service_content s)) with ms in E.
    rewrite filter_all_after in E by (apply matches_nonneg || lia). by rewrite Hnone in E.
Qed.

(** The backward search proper: before the anchor, or, without one, all. *)
Lemma reverse_search :
  (let reverseLength := if 0 <=? a then Z.min (fa_fileSize rq) (a + len pattern - 1)
     else fa_fileSize rq in
   if 0 <? reverseLength
   then searchSession pattern (default FOLD_NONE (caseFolding (fa_search rq))) true 0
     reverseLength 1
   else retM []) s
  = (s, Ok (take 1 (rev (if 0 <=? a then List.filter (fun o => o <? a) ms else ms)))).
Proof.
  cbv zeta. pose proof (clamped_anchor_range rq Hpos) as Ha. pose proof (len_pos pattern Hp).
  destruct (Z.leb_spec 0 a).
  - rewrite Hsize. destruct (Z.ltb_spec 0 (Z.min (len (service_content s)) (a + len pattern - 1))).
    + apply (search_before s pattern (default FOLD_NONE (caseFolding (fa_search rq))) Hp a true); lia.
    + assert (a = 0) as -> by lia. rewrite (filter_ext_elem _ (fun _ => false)).
      * clear. by induction ms.
      * intros o Ho. assert (0 <= o) by (by apply (proj1 (Forall_forall _ _) matches_nonneg o)).
        destruct (Z.ltb_spec o 0); [lia|done].
  - destruct (Z.ltb_spec 0 (fa_fileSize rq)); [|lia]. rewrite search_law by (done || lia).
    unfold search_spec. destruct (Z.eqb_spec (fa_fileSize rq) 0); [lia|].
    replace (Z.min (len (service_content s)) (0 + fa_fileSize rq))
      with (len (service_content s)) by lia.
    rewrite window_all by done. done.
Qed.

Lemma wrap_backward (ms_before := if 0 <=? a then List.filter (fun o => o <? a) ms else ms) :
  ms_before = [] ->
  searchSession pattern (default FOLD_NONE (caseFolding (fa_search rq))) true
    (if 0 <=? a then a + 1 else 0) 0 1 s
  = (s, Ok (take 1 (rev (List.filter (fun o => a <? o) ms)))).
Proof.
  intros _. rewrite next_offset. pose proof (clamped_anchor_range rq Hpos) as Ha.
  apply (search_after s pattern (default FOLD_NONE (caseFolding (fa_search rq))) Hp a true). lia.
Qed.

Lemma findAdjacent_forward :
  fa_direction rq = forward -> (a <> 0 \/ 1 < len pattern) ->
  exists r, findAdjacent rq s = (s, Ok r) /\
    ar_offset r = adjacent forward a ms /\ ar_patternLength r = len pattern.
Proof.
  intros Hd Hne. unfold findAdjacent. fold (pattern_of (fa_search rq)) pattern.
  rewrite adjacent_guard, Hd. fold a. cbv zeta. rewrite next_offset.
  unfold bindM at 1. rewrite (first_search false). unfold adjacent.
  destruct (List.filter (fun o => a <? o) ms) as [|m after] eqn:E; cbn [take head default].
  - unfold bindM at 1. rewrite wrap_forward by done.
    destruct (List.filter (fun o => o <? a) ms) as [|m before]; apply build_total.
  - apply build_total.
Qed.

Lemma findAdjacent_backward :
  fa_direction rq = backward ->
  exists r, findAdjacent rq s = (s, Ok r) /\
    ar_offset r = adjacent backward a ms /\ ar_patternLength r = len pattern.
Proof.
  intros Hd. unfold findAdjacent. fold (pattern_of (fa_search rq)) pattern.
  rewrite adjacent_guard, Hd. fold a. cbv zeta.
  unfold bindM at 1. pose proof reverse_search as E. cbv zeta in E. rewrite E. clear E.
  pose proof wrap_backward as Ew. cbv zeta in Ew. unfold adjacent.
  destruct (Z.leb_spec 0 a) as [Ha|Ha].
  - destruct (rev (List.filter (fun o => o <? a) ms)) as [|m before] eqn:Eb;
      cbn [take head default]; [|apply build_total].
    unfold bindM at 1. rewrite Ew.
    + destruct (rev (List.filter (fun o => a <? o) ms)) as [|m after]; apply build_total.
    + rewrite <- (rev_involutive (List.filter _ _)), Eb. done.
  - pose proof matches_nonneg as Hn. rewrite filter_none_before, filter_all_after in * by done.
    cbn [rev head default].
    destruct (rev ms) as [|m before] eqn:Eb; cbn [take head default]; [|apply build_total].
    unfold bindM at 1. rewrite Ew; [|by rewrite <- (rev_involutive ms), Eb].
    apply build_total.
Qed.
End FindAdjacent.

(** On a session of the size the request states, [findAdjacent]
    answers the nearest match strictly beyond the anchor in the direction of
    the search, else wraps around to the farthest match on the other side of
    the anchor, and [-1] when there is no other match; the anchor's own match
    is never the answer.  The one case left out is a forward search from
    offset 0 for a single byte. *)
Theorem findAdjacent_correct {S} `{SearchServiceLaws S} (s : S) rq :
  pattern_of (fa_search rq) <> [] ->
  fa_fileSize rq = len (service_content s) -> 0 < fa_fileSize rq ->
  (fa_direction rq = backward \/ clamped_anchor rq <> 0 \/ 1 < len (pattern_of (fa_search rq))) ->
  exists r, findAdjacent rq s = (s, Ok r) /\
    ar_offset r = adjacent (fa_direction rq) (clamped_anchor rq) (matches_of (fa_search rq) s) /\
    ar_patternLength r = len (pattern_of (fa_search rq)).
Proof.
  intros Hp Hsize Hpos Hcase. destruct (fa_direction rq) eqn:Hd.
  - apply findAdjacent_forward; [done..|]. by destruct Hcase as [?|?].
  - by apply findAdjacent_backward.
Qed.

Definition sample_request (q : string) (dir : direction) (anchor size : Z)
  : EditorFindAdjacentRequest :=
  mkAdjacent (mkSearchRequest (js q) false None None) dir (NInt anchor) size None None None.

Lemma findAdjacent_correct_witness :
  exists r, findAdjacent (sample_request "ab" forward 3 6) [97; 98; 32; 97; 98; 99] =
    ([97; 98; 32; 97; 98; 99], Ok r) /\ ar_offset r = 0.
Proof.
  destruct (findAdjacent_correct [97; 98; 32; 97; 98; 99] (sample_request "ab" forward 3 6))
    as (r & E & Ho & _).
  - vm_compute. discriminate.
  - reflexivity.
  - reflexivity.
  - right. left. vm_compute. discriminate.
  - exists r. split; [exact E|]. rewrite Ho. vm_compute. reflexivity.
Defined.

(** The case left out behaves differently: searching forward from
    offset 0 for one byte, with no other match, the wrapped search is asked
    for zero bytes, which means the whole session, and the anchor's own
    match comes back; the same search for two bytes answers [-1]. *)
Theorem findAdjacent_returns_anchor :
  (exists r, findAdjacent (sample_request "a" forward 0 3) [97; 98; 99] = ([97; 98; 99], Ok r) /\
     ar_offset r = 0) /\
  adjacent forward 0 (matches_of (fa_search (sample_request "a" forward 0 3)) [97; 98; 99]) = -1 /\
  (exists r, findAdjacent (sample_request "ab" forward 0 3) [97; 98; 99] = ([97; 98; 99], Ok r) /\
     ar_offset r = -1).
Proof.
  split; [eexists; split; vm_compute; reflexivity|]. split; [vm_compute; reflexivity|].
  eexists; split; vm_compute; reflexivity.
Qed.

(** ** The matches in view *)

Definition visible (size lo hi : Z) (ms : list Z) : list Z :=
  List.filter (fun o => (o <? hi) && (lo <? o + size)) ms.

Lemma sorted_lt_le l : StronglySorted Z.lt l -> in_order false l.
Proof.
  unfold in_order. induction 1 as [|x l _ IH Hf]; constructor; [done|].
  eapply Forall_impl; [exact Hf|]. cbn. lia.
Qed.

Lemma sorted_take {A} (R : A -> A -> Prop) n l : StronglySorted R l -> StronglySorted R (take n l).
Proof.
  intros H. revert n. induction H as [|x l _ IH Hf]; intros [|n]; try constructor; [apply IH|].
  by apply Forall_take.
Qed.

Lemma sort_asc_id l : in_order false l -> sort_asc l = l.
Proof.
  intros Hs. eapply (StronglySorted_unique Z.le); [|exact Hs|apply merge_sort_Permutation].
  apply (sort_asc_sorted l).
Qed.

Lemma distinct_perm l : NoDup l -> distinct l = l.
Proof.
  induction 1 as [|x l Hx _ IH]; [done|]. cbn. rewrite IH. f_equal. clear IH.
  induction l as [|y l IH]; [done|]. apply not_elem_of_cons in Hx as [Hxy Hx]. cbn.
  destruct (Z.eqb_spec y x); [congruence|]. cbn. f_equal. by apply IH.
Qed.

Lemma sorted_lt_nodup l : StronglySorted Z.lt l -> NoDup l.
Proof.
  induction 1 as [|x l _ IH Hf]; constructor; [|done]. intros Hx.
  rewrite Forall_forall in Hf. specialize (Hf x Hx). lia.
Qed.

Lemma sort_asc_strict l : NoDup l -> StronglySorted Z.lt (sort_asc l).
Proof.
  intros Hnd. pose proof (sort_asc_sorted l) as Hs.
  assert (Hn : NoDup (sort_asc l)) by (unfold sort_asc; by rewrite (merge_sort_Permutation Z.le l)).
  unfold in_order in Hs. cbn in Hs. induction Hs as [|x k _ IH Hf]; [constructor|].
  apply NoDup_cons in Hn as [Hx Hn]. constructor; [by apply IH|].
  apply Forall_forall. intros y Hy. rewrite Forall_forall in Hf. specialize (Hf y Hy).
  cbn in Hf. assert (x <> y) by (by intros ->). lia.
Qed.

Lemma take_elem {A} n (l : list A) x : x ∈ take n l -> x ∈ l.
Proof. intros Hx. rewrite <- (take_drop n l). apply elem_of_app. by left. Qed.

Lemma head_take {A} n (l : list A) : (0 < n)%nat -> head (take n l) = head l.
Proof. intros Hn. destruct n, l; done || lia. Qed.

Lemma slice_to_pos n l : 0 <= n -> slice_to n l = take (Z.to_nat n) l.
Proof. intros Hn. unfold slice_to. destruct (Z.ltb_spec n 0); [lia|done]. Qed.

Section Viewport.
Context {S : Type} `{SearchServiceLaws S}.
Context (s : S) (pattern : bytes) (folding : SearchCaseFolding) (Hp : pattern <> []).
Context (vo vl : Z) (Hvo : 0 <= vo < len (service_content s)) (Hvl : 0 < vl).
Let size := len (service_content s).
Let ms := all_matches (fold_byte folding) pattern (service_content s).
Let hi := Z.min (vo + vl) size.
Let vis := visible (len pattern) vo hi ms.

(** The padded range of the search holds exactly the matches in view. *)
Lemma padded_search limit :
  0 < limit ->
  let pad := Z.max 0 (len pattern - 1) in
  let lo' := Z.max 0 (vo - pad) in
  let hi' := Z.min size (vo + Z.min vl (size - vo) + pad) in
  searchSession pattern folding false lo' (hi' - lo') limit s
  = (s, Ok (take (Z.to_nat limit) vis)).
Proof.
  intros Hl pad lo' hi'. pose proof (len_pos pattern Hp).
  assert (Hlo : 0 <= lo' < hi') by (subst lo' hi' pad size; lia).
  rewrite search_law by (done || lia). unfold search_spec. fold ms.
  destruct (Z.eqb_spec (hi' - lo') 0); [lia|]. unfold limited.
  destruct (Z.eqb_spec limit 0); [lia|].
  assert (E : window lo' (Z.min (len (service_content s)) (lo' + (hi' - lo'))) (len pattern) ms = vis);
    [|by rewrite E].
  apply filter_ext_elem. intros o Ho. apply all_matches_spec in Ho as (? & ? & _); [|done].
  fold size. apply Bool.eq_iff_eq_true.
  rewrite !andb_true_iff, !Z.leb_le, !Z.ltb_lt. subst lo' hi' pad hi size. lia.
Qed.

Lemma overlaps_visible o :
  matchOverlapsRange o (len pattern) vo (Z.min vl (size - vo)) = (o <? hi) && (vo <? o + len pattern).
Proof.
  pose proof (len_pos pattern Hp). unfold matchOverlapsRange.
  rewrite (proj2 (Z.ltb_lt 0 (len pattern))) by done.
  rewrite (proj2 (Z.ltb_lt 0 (Z.min vl (size - vo)))) by (subst size; lia). cbn [andb].
  replace (vo + Z.min vl (size - vo)) with hi by (subst hi; lia). done.
Qed.

Lemma vis_sorted : StronglySorted Z.lt vis.
Proof. apply sorted_filter, all_matches_sorted. Qed.

Lemma vis_filter n :
  List.filter (fun o => matchOverlapsRange o (len pattern) vo (Z.min vl (size - vo))) (take n vis)
  = take n vis.
Proof.
  rewrite (filter_ext_elem _ (fun _ => true)).
  - induction (take n vis) as [|x l IH]; cbn; congruence.
  - intros o Ho. rewrite overlaps_visible. apply take_elem in Ho.
    apply list_elem_of_In, filter_In in Ho as [_ Ho]. done.
Qed.

(** What [collectViewportMatches] answers for a usable viewport. *)
Definition viewport_answer (B focused : Z) : EditorViewportMatchWindow :=
  let matches := take (Z.to_nat (B + 1)) vis in
  if (0 <=? focused) && ((focused <? hi) && (vo <? focused + len pattern))
     && negb (includes matches focused)
  then mkWindow vo (Z.min vl (size - vo))
    (sort_asc (take (Z.to_nat B) vis ++ [focused])) true
  else mkWindow vo (Z.min vl (size - vo)) matches (B <? len vis).

Definition effective_limit (viewportLimit : option number) : Z :=
  match isUsableNonNegativeInteger viewportLimit with
  | Some l => if 0 <? l then l else Z.min vl (size - vo) + Z.max 0 (len pattern - 1) + 1
  | None => Z.min vl (size - vo) + Z.max 0 (len pattern - 1) + 1
  end.

Lemma effective_limit_pos vlim : 0 < effective_limit vlim.
Proof.
  unfold effective_limit. pose proof (len_pos pattern Hp).
  destruct (isUsableNonNegativeInteger vlim) as [l|]; [destruct (Z.ltb_spec 0 l)|];
    subst size; lia.
Qed.

Lemma includes_elem l x : includes l x = true <-> x ∈ l.
Proof.
  unfold includes. rewrite existsb_exists, list_elem_of_In. split.
  - intros (y & Hy & E). apply Z.eqb_eq in E. by subst.
  - intros Hx. exists x. split; [done|apply Z.eqb_refl].
Qed.

Lemma collect_answer vlim focused :
  safeZ vo = true -> safeZ vl = true ->
  collectViewportMatches pattern folding size (Some (NInt vo)) (Some (NInt vl)) vlim focused s
  = (s, Ok (Some (viewport_answer (effective_limit vlim) focused))).
Proof.
  intros Sv Sl. unfold collectViewportMatches, isUsableNonNegativeInteger at 1 2.
  rewrite Sv, Sl, (proj2 (Z.leb_le 0 vo)), (proj2 (Z.leb_le 0 vl)) by lia. cbn [andb].
  destruct (Nat.eqb_spec (length pattern) 0) as [E|_]; [by apply nil_length_inv in E|].
  destruct (Z.leb_spec size 0); [unfold size in *; lia|]. destruct (Z.eqb_spec vl 0); [lia|].
  destruct (Z.leb_spec size vo); [unfold size in *; lia|]. cbn [orb].
  replace (Z.min vo size) with vo by (unfold size in *; lia).
  destruct (Z.leb_spec (Z.min vl (size - vo)) 0); [unfold size in *; lia|].
  fold (effective_limit vlim). pose proof (effective_limit_pos vlim) as HB.
  set (B := effective_limit vlim) in *. replace (Z.max 1 B) with B by lia.
  unfold bindM. rewrite (padded_search (B + 1)) by lia.
  rewrite vis_filter.
  rewrite (sort_asc_id (take _ vis)) by (apply sorted_lt_le, sorted_take, vis_sorted).
  rewrite overlaps_visible, !slice_to_pos by lia.
  rewrite !take_take, Nat.min_id. replace (Nat.min _ _) with (Z.to_nat B) by lia.
  assert (Hmore : (B <? len (take (Z.to_nat (B + 1)) vis)) = (B <? len vis)).
  { unfold len. rewrite length_take.
    destruct (Z.ltb_spec B (Z.of_nat (Nat.min (Z.to_nat (B + 1)) (length vis)))),
      (Z.ltb_spec B (Z.of_nat (length vis))); lia. }
  rewrite Hmore. unfold viewport_answer.
  destruct (_ && negb (includes _ _)) eqn:E; [|done].
  rewrite distinct_perm; [done|]. apply andb_true_iff in E as [_ E].
  apply negb_true_iff, not_true_iff_false in E. rewrite includes_elem in E.
  apply NoDup_app. split; [apply sorted_lt_nodup, sorted_take, vis_sorted|].
  split; [|apply NoDup_singleton]. intros x Hx Hf. apply list_elem_of_singleton in Hf as ->.
  apply E. replace (Z.to_nat (B + 1)) with (Z.to_nat B + 1)%nat by lia.
  rewrite <- (take_take_drop vis). apply elem_of_app. by left.
Qed.
End Viewport.

(** What a window of matches promises of a view [[vo, hi)]. *)
Record window_ok (size vo hi limit focused : Z) (ms : list Z) (w : EditorViewportMatchWindow)
  : Prop := mkWindowOk {
  wk_sorted : StronglySorted Z.lt (vw_matches w);
  wk_sound o : o ∈ vw_matches w -> o ∈ visible size vo hi ms \/ o = focused;
  wk_limit : len (vw_matches w) <= limit + 1;
  wk_complete : vw_hasMore w = false -> vw_matches w = visible size vo hi ms;
  wk_focused : 0 <= focused -> focused < hi -> vo < focused + size -> focused ∈ vw_matches w
}.

Lemma viewport_answer_ok {S} `{SearchServiceLaws S} (s : S) pattern folding vo vl B focused :
  0 < B ->
  window_ok (len pattern) vo (Z.min (vo + vl) (len (service_content s))) B focused
    (all_matches (fold_byte folding) pattern (service_content s))
    (viewport_answer s pattern folding vo vl B focused).
Proof.
  intros HB. unfold viewport_answer.
  pose proof (vis_sorted s pattern folding vo vl) as Hs.
  set (hi := Z.min (vo + vl) (len (service_content s))) in *.
  set (vis := visible (len pattern) vo hi _) in *.
  destruct ((0 <=? focused) && ((focused <? hi) && (vo <? focused + len pattern))) eqn:Ein;
    [destruct (includes (take (Z.to_nat (B + 1)) vis) focused) eqn:Einc|]; cbn [negb andb].
  1,3: constructor; cbn [vw_matches vw_hasMore];
    [by apply sorted_take|intros o Ho; left; by apply take_elem in Ho
    |unfold len; rewrite length_take; lia
    |intros Hm%Z.ltb_ge; apply take_ge; unfold len in Hm; fold vis; lia|].
  - intros _ _ _. by apply includes_elem.
  - intros H1 H2 H3. apply Z.leb_le in H1. apply Z.ltb_lt in H2, H3. by rewrite H1, H2, H3 in Ein.
  - apply not_true_iff_false in Einc. rewrite includes_elem in Einc.
    assert (Hnd : NoDup (take (Z.to_nat B) vis ++ [focused])).
    { apply NoDup_app. split; [by apply sorted_lt_nodup, sorted_take|].
      split; [|apply NoDup_singleton]. intros x Hx Hf. apply list_elem_of_singleton in Hf as ->.
      apply Einc. replace (Z.to_nat (B + 1)) with (Z.to_nat B + 1)%nat by lia.
      rewrite <- (take_take_drop vis). apply elem_of_app. by left. }
    assert (Hperm : sort_asc (take (Z.to_nat B) vis ++ [focused])
      ≡ₚ take (Z.to_nat B) vis ++ [focused]) by apply merge_sort_Permutation.
    constructor; cbn [vw_matches vw_hasMore]; [by apply sort_asc_strict|..].
    + intros o Ho. rewrite Hperm in Ho. apply elem_of_app in Ho as [Ho|Ho].
      * left. by apply take_elem in Ho.
      * right. by apply list_elem_of_singleton in Ho.
    + unfold len. rewrite Hperm, length_app, length_take. cbn. lia.
    + done.
    + intros _ _ _. rewrite Hperm. apply elem_of_app. right. by apply list_elem_of_singleton.
Qed.

(** For a viewport that starts inside the session, the answered
    matches are in order and lie in view (the focused offset apart), there
    are at most one more than the limit, "no more" is said only when they
    are all the matches in view, and the focused match is among them
    whenever it is in view, wherever it comes in the order. *)
Theorem findViewportMatches_correct {S} `{SearchServiceLaws S} (s : S) rq vo vl :
  pattern_of (vm_search rq) <> [] -> vm_fileSize rq = len (service_content s) ->
  vm_viewportOffset rq = Some (NInt vo) -> vm_viewportLength rq = Some (NInt vl) ->
  0 <= vo < vm_fileSize rq -> 0 < vl -> safeZ vo = true -> safeZ vl = true ->
  let limit := effective_limit s (pattern_of (vm_search rq)) vo vl (vm_viewportLimit rq) in
  exists w, findViewportMatches rq s = (s, Ok (Some w)) /\
    vw_offset w = vo /\ vw_length w = Z.min vl (vm_fileSize rq - vo) /\
    window_ok (len (pattern_of (vm_search rq))) vo (Z.min (vo + vl) (vm_fileSize rq)) limit
      (default (-1) (vm_focusedOffset rq)) (matches_of (vm_search rq) s) w.
Proof.
  intros Hp Hsize Eo El Hvo Hvl So Sl limit. rewrite Hsize in *.
  assert (HB : 0 < limit) by (by apply effective_limit_pos).
  exists (viewport_answer s (pattern_of (vm_search rq))
    (default FOLD_NONE (caseFolding (vm_search rq))) vo vl limit
    (default (-1) (vm_focusedOffset rq))).
  split; [|split; [|split]].
  - unfold findViewportMatches. fold (pattern_of (vm_search rq)).
    apply toPatternBytes_query in Hp as Hq.
    destruct (Nat.eqb_spec (length (trim (query (vm_search rq)))) 0) as [E|_];
      [by apply nil_length_inv in E|].
    destruct (Nat.eqb_spec (length (pattern_of (vm_search rq))) 0) as [E|_];
      [by apply nil_length_inv in E|].
    rewrite Eo, El, Hsize. destruct (Z.leb_spec (len (service_content s)) 0); [lia|].
    cbn [orb]. by apply collect_answer.
  - unfold viewport_answer. by destruct (_ && _).
  - unfold viewport_answer. by destruct (_ && _).
  - by apply viewport_answer_ok.
Qed.

Lemma findViewportMatches_correct_witness :
  exists w, findViewportMatches (mkViewportRequest (mkSearchRequest (js "aa") false None None) 6
      (Some (NInt 1)) (Some (NInt 3)) (Some (NInt 2)) (Some 3)) [97; 97; 97; 97; 97; 97]
    = ([97; 97; 97; 97; 97; 97], Ok (Some w)) /\ 3 ∈ vw_matches w /\ StronglySorted Z.lt (vw_matches w).
Proof.
  destruct (findViewportMatches_correct [97; 97; 97; 97; 97; 97]
    (mkViewportRequest (mkSearchRequest (js "aa") false None None) 6
      (Some (NInt 1)) (Some (NInt 3)) (Some (NInt 2)) (Some 3)) 1 3)
    as (w & E & _ & _ & Hw); try reflexivity.
  - vm_compute. discriminate.
  - vm_compute. split; [discriminate|reflexivity].
  - exists w. split; [exact E|]. destruct Hw as [Hs _ _ _ Hf]. split; [|exact Hs].
    apply Hf; vm_compute; [discriminate|reflexivity|reflexivity].
Defined.

(** ** Search and replace all *)

Section ReplaceAll.
Context {S : Type} `{SearchServiceLaws S}.

Lemma search_all pattern folding (reverse : bool) limit (s : S) :
  pattern <> [] -> 0 <= limit ->
  let ms := all_matches (fold_byte folding) pattern (service_content s) in
  searchSession pattern folding reverse 0 0 (limit + 1) s
  = (s, Ok (take (Z.to_nat (limit + 1)) (if reverse then rev ms else ms))).
Proof.
  intros Hp Hl ms. rewrite search_law by (done || lia). unfold search_spec, limited. cbn [Z.eqb].
  destruct (Z.eqb_spec (limit + 1) 0); [lia|]. rewrite window_all by done. done.
Qed.
End ReplaceAll.

(** [search] lists all matches while there are no more than the
    window limit, and otherwise reports the first one and "large" mode; it
    remembers the search either way and leaves the session as it was. *)
Theorem search_correct {S} `{SearchServiceLaws S} (c : controller) (s : S) rq :
  pattern_of rq <> [] -> 0 <= windowLimit c ->
  let ms := if default false (isReverse rq) then rev (matches_of rq s) else matches_of rq s in
  exists active r, search rq (c, s)
      = ((mkController (windowLimit c) (preserveDepth c) (Some active), s), Ok r) /\
    as_mode active = sr_mode r /\ as_patternLength active = len (pattern_of rq) /\
    sr_firstOffset r = default (-1) (head ms) /\
    match sr_mode r with
    | bounded => len ms <= windowLimit c /\ sr_matches r = ms /\ sr_currentOffset r = -1
    | large => windowLimit c < len ms /\ sr_matches r = [] /\ sr_currentOffset r = sr_firstOffset r
    end.
Proof.
  intros Hp Hl ms. unfold search. fold (pattern_of rq).
  apply toPatternBytes_query in Hp as Hq.
  destruct (Nat.eqb_spec (length (trim (query rq))) 0) as [E|_]; [by apply nil_length_inv in E|].
  destruct (Nat.eqb_spec (length (pattern_of rq)) 0) as [E|_]; [by apply nil_length_inv in E|].
  unfold bindM, getM. cbn [orb fst]. unfold on_session. rewrite search_all by done.
  fold (matches_of rq s) ms. unfold set_active, putM.
  set (n := Z.to_nat (windowLimit c + 1)).
  eexists _, _. split; [reflexivity|]. cbn [sr_mode sr_matches sr_firstOffset sr_currentOffset
    as_mode as_patternLength]. split; [done|]. split; [done|].
  assert (Hh : head (take n ms) = head ms) by (apply head_take; lia).
  assert (Hlen : len (take n ms) = Z.of_nat (Nat.min n (length ms)))
    by (unfold len; by rewrite length_take).
  rewrite Hh, Hlen. split; [done|].
  destruct (Z.ltb_spec (windowLimit c) (Z.of_nat (Nat.min n (length ms)))).
  - unfold len. split; [lia|done].
  - unfold len. split; [lia|]. split; [|done]. apply take_ge. lia.
Qed.

Lemma search_correct_witness :
  exists active r, search (mkSearchRequest (js "a") false None (Some true))
      (new_controller (Some 2), [97; 98; 97])
    = ((mkController 2 0 (Some active), [97; 98; 97]), Ok r) /\ sr_firstOffset r = 2.
Proof.
  destruct (search_correct (new_controller (Some 2)) [97; 98; 97]
    (mkSearchRequest (js "a") false None (Some true))) as (active & r & E & _ & _ & Hf & _).
  - vm_compute. discriminate.
  - vm_compute. discriminate.
  - exists active, r. split; [exact E|]. rewrite Hf. vm_compute. reflexivity.
Defined.

Lemma sorted_rev {A} (R : A -> A -> Prop) l :
  StronglySorted R l -> StronglySorted (fun a b => R b a) (rev l).
Proof.
  assert (Hsnoc : forall (Q : A -> A -> Prop) k x, StronglySorted Q k ->
    Forall (fun y => Q y x) k -> StronglySorted Q (k ++ [x])).
  { intros Q k x Hk Hf. induction Hk as [|y k _ IH Hy]; [repeat constructor|].
    apply Forall_cons in Hf as [Hyx Hf]. cbn. constructor; [by apply IH|].
    apply Forall_app. split; [done|]. by repeat constructor. }
  induction 1 as [|x l _ IH Hf]; [constructor|]. cbn. apply Hsnoc; [done|].
  apply Forall_rev. done.
Qed.

Lemma sorted_impl {A} (R Q : A -> A -> Prop) l :
  (forall a b, R a b -> Q a b) -> StronglySorted R l -> StronglySorted Q l.
Proof.
  intros HRQ. induction 1 as [|x l _ IH Hf]; constructor; [done|].
  eapply Forall_impl; [exact Hf|]. auto.
Qed.

Lemma sort_desc_id l : in_order true l -> sort_desc l = l.
Proof.
  intros Hs. apply (StronglySorted_unique Z.ge).
  - eapply sorted_impl; [|apply (sort_desc_sorted l)]. cbn. lia.
  - eapply sorted_impl; [|exact Hs]. cbn. lia.
  - apply merge_sort_Permutation.
Qed.

Lemma ordered_matches (reverse : bool) ms :
  StronglySorted Z.lt ms ->
  ordered reverse (if reverse then rev ms else ms) = (if reverse then rev ms else ms).
Proof.
  intros Hs. destruct reverse.
  - apply sort_desc_id. eapply sorted_impl; [|apply sorted_rev, Hs]. cbn. lia.
  - by apply sort_asc_id, sorted_lt_le.
Qed.

(** A spaced selection, put in ascending order. *)
Lemma sort_spaced reverse size l :
  0 < size -> spaced reverse size l -> sort_asc l = if reverse then rev l else l.
Proof.
  intros Hs Hl. destruct reverse.
  - rewrite <- (sort_asc_id (rev l)).
    + apply (StronglySorted_unique Z.le); [apply (sort_asc_sorted l)|apply (sort_asc_sorted (rev l))|].
      unfold sort_asc. rewrite !merge_sort_Permutation. apply Permutation_rev.
    + eapply sorted_impl; [|apply sorted_rev, Hl]. cbn. lia.
  - apply sort_asc_id. eapply sorted_impl; [|exact Hl]. cbn. lia.
Qed.

Lemma replace_guard rq :
  pattern_of rq <> [] ->
  (length (trim (query rq)) =? 0)%nat || (length (pattern_of rq) =? 0)%nat = false.
Proof.
  intros Hp. apply toPatternBytes_query in Hp as Hq.
  destruct (trim (query rq)); [done|]. by destruct (pattern_of rq).
Qed.

Section Replacing.
Context {S : Type} `{SearchServiceLaws S}.
Context (c : controller) (s : S) (request : EditorReplaceAllRequest).
Let rq := ra_search request.
Let reverse := default false (isReverse rq).
Let pattern := pattern_of rq.
Let ms := matches_of rq s.
Let selected := select reverse (len pattern) None (if reverse then rev ms else ms).
Context (Hp : pattern <> []).

Lemma ms_sorted : StronglySorted Z.lt ms.
Proof. apply all_matches_sorted. Qed.

Lemma ms_nonneg : Forall (fun o => 0 <= o) (if reverse then rev ms else ms).
Proof.
  assert (Hn : Forall (fun o => 0 <= o) ms).
  { apply Forall_forall. intros o Ho. by apply all_matches_spec in Ho as (? & _ & _). }
  destruct reverse; [by apply Forall_rev|done].
Qed.

Lemma selected_spaced : spaced reverse (len pattern) selected.
Proof.
  apply select_spaced; [by apply len_pos|].
  rewrite <- (ordered_matches reverse ms ms_sorted). apply ordered_spec.
Qed.

Lemma filter_selected :
  filterNonOverlapping (if reverse then rev ms else ms) (len pattern) reverse = selected.
Proof.
  rewrite filterNonOverlapping_select by (by apply len_pos || apply ms_nonneg).
  by rewrite ordered_matches by apply ms_sorted.
Qed.

Lemma server_selection limit :
  limit = len selected ->
  replaced_offsets (fold_byte (default FOLD_NONE (caseFolding rq))) pattern
    (service_content s) reverse limit = selected.
Proof.
  intros ->. unfold replaced_offsets, search_spec. cbn [Z.eqb limited].
  rewrite window_all by done. fold (matches_of rq s) ms selected.
  unfold limited. destruct (len selected =? 0); [done|]. apply take_ge. unfold len. lia.
Qed.

End Replacing.

(** With no more matches than the window limit, [replaceAll]
    replaces in the session exactly the offsets it reports: the matches
    selected without overlap in the direction of the search, listed in
    ascending order, and the count it returns is their number. *)
Theorem replaceAll_bounded {S} `{SearchServiceLaws S} (c : controller) (s : S) request :
  let rq := ra_search request in
  let reverse := default false (isReverse rq) in
  let ms := matches_of rq s in
  let selected := select reverse (len (pattern_of rq)) None (if reverse then rev ms else ms) in
  pattern_of rq <> [] -> len ms <= windowLimit c ->
  exists s' r, replaceAll request (c, s) = ((c, s'), Ok r) /\
    rr_strategy r = bounded_strategy /\
    rr_replacedCount r = len selected /\
    rr_orderedOffsets r = (if reverse then rev selected else selected) /\
    rr_checkpointTransaction r = None /\
    service_content s' = substitute (len (pattern_of rq)) (ra_replacement request)
      (rr_orderedOffsets r) (service_content s).
Proof.
  intros rq reverse ms selected Hp Hlim. pose proof (len_nonneg ms) as Hn.
  subst rq. set (rq := ra_search request) in *.
  pose proof (replace_guard rq Hp) as Hg.
  unfold replaceAll. fold rq. fold (pattern_of rq). rewrite Hg.
  unfold bindM, getM. cbn [fst]. unfold on_session. rewrite search_all by (done || lia).
  fold (matches_of rq s) ms reverse.
  assert (Hlen : length (if reverse then rev ms else ms) = length ms)
    by (destruct reverse; [apply length_rev|done]).
  rewrite take_ge by (unfold len in *; lia).
  assert (Hnot : (windowLimit c <? len (if reverse then rev ms else ms)) = false)
    by (unfold len in *; rewrite Hlen; apply Z.ltb_ge; lia).
  rewrite Hnot. pose proof (filter_selected s request Hp) as Hsel.
  cbv zeta in Hsel. fold rq in Hsel. fold reverse ms in Hsel. fold selected in Hsel. rewrite Hsel.
  destruct (replace_law (pattern_of rq) (ra_replacement request)
    (default FOLD_NONE (caseFolding rq)) reverse (len selected) s Hp (len_nonneg _)) as (s' & E & Ec).
  pose proof (server_selection s request Hp (len selected) eq_refl) as Hoff.
  fold rq in Hoff. fold reverse in Hoff. rewrite Hoff in E, Ec.
  change (select _ _ _ _) with selected in E, Ec. rewrite E.
  assert (Hsort : sort_asc selected = if reverse then rev selected else selected).
  { apply (sort_spaced reverse (len (pattern_of rq))); [by apply len_pos|].
    exact (selected_spaced s request Hp). }
  rewrite Hsort. eexists _, _. split; [reflexivity|].
  cbn [rr_strategy rr_replacedCount rr_orderedOffsets rr_checkpointTransaction].
  split; [done|]. split; [done|].
  assert (Hsl : slice_to (len selected) (if reverse then rev selected else selected)
    = if reverse then rev selected else selected).
  { rewrite slice_to_pos by apply len_nonneg. apply take_ge. unfold len.
    destruct reverse; rewrite ?length_rev; lia. }
  rewrite Hsl. split; [done|]. split; [done|]. done.
Qed.

Lemma replaceAll_bounded_witness :
  exists s' r, replaceAll (mkReplaceRequest (mkSearchRequest (js "aa") false None None) 2 [98] None)
      (new_controller None, [97; 97; 97; 99; 97; 97]) = ((new_controller None, s'), Ok r) /\
    rr_orderedOffsets r = [0; 4] /\ s' = [98; 97; 99; 98].
Proof.
  destruct (replaceAll_bounded (new_controller None) [97; 97; 97; 99; 97; 97]
    (mkReplaceRequest (mkSearchRequest (js "aa") false None None) 2 [98] None))
    as (s' & r & E & _ & _ & Ho & _ & Hc).
  - vm_compute. discriminate.
  - vm_compute. discriminate.
  - exists s', r. split; [exact E|]. rewrite Ho in *. split; [vm_compute; reflexivity|].
    cbn in Hc. rewrite Hc. vm_compute. reflexivity.
Defined.

Lemma select_pos reverse size ms : ms <> [] -> 0 < len (select reverse size None ms).
Proof. intros Hne. destruct ms; [done|]. unfold len. cbn. lia. Qed.

(** With more matches than the window limit, [replaceAll]
    hands the whole session to the checkpointed replace, reports no offsets,
    and records a transaction for the history exactly when something was
    replaced and the request carries the replacement text. *)
Theorem replaceAll_checkpointed {S} `{SearchServiceLaws S} (c : controller) (s : S) request :
  let rq := ra_search request in
  let ms := matches_of rq s in
  let selected := select false (len (pattern_of rq)) None ms in
  pattern_of rq <> [] -> 0 <= windowLimit c < len ms ->
  exists s' r, replaceAll request (c, s) = ((c, s'), Ok r) /\
    rr_strategy r = checkpointed_strategy /\
    rr_replacedCount r = len selected /\ rr_orderedOffsets r = [] /\
    rr_checkpointTransaction r = (data ← ra_replacementData request;
      Some (mkCheckpoint (trim (query rq)) (isHex rq)
        (folding_code (default FOLD_NONE (caseFolding rq))) data)) /\
    service_content s' = substitute (len (pattern_of rq)) (ra_replacement request) selected
      (service_content s).
Proof.
  intros rq ms selected Hp [Hl Hlim]. pose proof (replace_guard rq Hp) as Hg.
  unfold replaceAll. fold rq. fold (pattern_of rq). rewrite Hg.
  unfold bindM, getM. cbn [fst]. unfold on_session. rewrite search_all by done.
  fold (matches_of rq s) ms. set (found := if default false (isReverse rq) then rev ms else ms).
  assert (Hlen : length found = length ms)
    by (subst found; destruct (default false (isReverse rq)); [apply length_rev|done]).
  assert (Hgt : (windowLimit c <? len (take (Z.to_nat (windowLimit c + 1)) found)) = true)
    by (unfold len in *; rewrite length_take, Hlen; apply Z.ltb_lt; lia).
  rewrite Hgt.
  destruct (replace_checkpointed_law (pattern_of rq) (ra_replacement request)
    (default FOLD_NONE (caseFolding rq)) s Hp) as (s' & E & Ec).
  unfold replaced_offsets, search_spec in E, Ec. cbn [Z.eqb limited] in E, Ec.
  rewrite window_all in E, Ec by done. fold (matches_of rq s) ms selected in E, Ec.
  change (limited 0 selected) with selected in E, Ec. rewrite E.
  assert (Hpos : 0 < len selected).
  { apply select_pos. intros E'. rewrite E' in Hlim. unfold len in Hlim. cbn in Hlim. lia. }
  eexists _, _. split; [reflexivity|].
  cbn [rr_strategy rr_replacedCount rr_orderedOffsets rr_checkpointTransaction].
  do 3 (split; [done|]). split; [|done]. rewrite (proj2 (Z.ltb_lt _ _) Hpos).
  by destruct (ra_replacementData request).
Qed.

Lemma replaceAll_checkpointed_witness :
  exists s' r, replaceAll (mkReplaceRequest (mkSearchRequest (js "a") false None None) 1 [98]
      (Some (js "b"))) (new_controller (Some 1), [97; 97; 99]) = ((new_controller (Some 1), s'), Ok r) /\
    rr_replacedCount r = 2 /\ is_Some (rr_checkpointTransaction r).
Proof.
  destruct (replaceAll_checkpointed (new_controller (Some 1)) [97; 97; 99]
    (mkReplaceRequest (mkSearchRequest (js "a") false None None) 1 [98] (Some (js "b"))))
    as (s' & r & E & _ & Hn & _ & Ht & _).
  - vm_compute. discriminate.
  - vm_compute. split; [discriminate|reflexivity].
  - exists s', r. split; [exact E|]. split; [rewrite Hn; vm_compute; reflexivity|].
    rewrite Ht. vm_compute. eexists. reflexivity.
Defined.

(** [preserveState] suspends the clearing of the search for the
    whole of its work and restores the depth it found, whether the work
    returns or throws, provided the work itself leaves the depth as it found
    it; so nested uses do too. *)
Theorem preserveState_restores {S A} (work : M (controller * S) A) st :
  0 <= preserveDepth st.1 ->
  (forall st', preserveDepth (work st').1.1 = preserveDepth st'.1) ->
  preserveDepth (preserveState work st).1.1 = preserveDepth st.1 /\
  (preserveState work st).2 = (work ((add_depth 1 st).1)).2 /\
  shouldClearAfterExternalEdit (add_depth 1 st).1.1 = false.
Proof.
  intros Hd Hw. destruct st as [c s]. cbn in Hd |- *. unfold preserveState, bindM, add_depth, putM.
  set (st1 := (mkController (windowLimit c) (preserveDepth c + 1) (activeSearch c), s)).
  specialize (Hw st1). unfold finallyM. destruct (work st1) as [[c2 s2] r] eqn:E. cbn in *.
  split; [lia|]. split; [done|]. unfold shouldClearAfterExternalEdit. cbn.
  destruct (Z.eqb_spec (preserveDepth c + 1) 0); [lia|done].
Qed.

Lemma preserveState_restores_witness :
  preserveDepth (preserveState (preserveState (throwM (plain_error "x")) : M (controller * unit) unit)
    (new_controller None, tt)).1.1 = 0.
Proof.
  apply (preserveState_restores (preserveState (throwM (plain_error "x")))
    (new_controller None, tt)).
  - vm_compute. discriminate.
  - intros [c []]. unfold preserveState, bindM, add_depth, putM, finallyM, throwM. cbn.
    apply Z.add_simpl_r.
Defined.
