(* ===== verification/SessionApi.v ===== *)
(** * Session calls ([packages/client/src/session.ts])

    The client's functions on a session other than the edits of
    [EditSession]: search and replace, reading segments, and checkpoints.
    Each checks the numbers it is given before they go out and the numbers
    it gets back before the caller sees them.  The calls of the server that
    stand behind them are the class [SessionRpc]. *)

From S2P Require Import Prelude SafeInt JsText EditDiff EditSession History Search.

Open Scope jsm_scope.

(** ** The server's calls *)

Record ReplaceSessionResponse := mkReplaceResponse {
  rp_deleteCount : number;
  rp_insertCount : number;
  rp_overwriteCount : number;
  rp_replacementCount : number
}.

Record RestoreLastCheckpointResponse := mkRestoreLast {
  rl_checkpointCount : number;
  rl_changeCount : number;
  rl_discardedChangeCount : number
}.

Record CheckoutCheckpointResponse := mkCheckout {
  co_checkpointCount : number;
  co_futureCheckpointCount : number;
  co_changeCount : number
}.

Record DiscardCheckpointFutureResponse := mkDiscard {
  dc_discardedCheckpointCount : number;
  dc_checkpointCount : number
}.

Record RestoreToChangeCountResponse := mkRestoreTo {
  rt_changeCount : number;
  rt_discardedChangeCount : number;
  rt_discardedUndoCount : number;
  rt_remainingCheckpointCount : number
}.

Class SessionRpc (S : Type) := {
  rpc_searchSession : bytes -> SearchCaseFolding -> bool -> Z -> Z -> Z ->
    S -> S * result (list number);
  rpc_replaceSession : bytes -> bytes -> SearchCaseFolding -> bool -> Z -> Z -> Z -> bool -> bool ->
    S -> S * result ReplaceSessionResponse;
  rpc_replaceSessionCheckpointed : bytes -> bytes -> SearchCaseFolding -> Z -> Z ->
    S -> S * result number;
  rpc_getSegment : Z -> Z -> S -> S * result bytes;
  rpc_getComputedFileSize : S -> S * result number;
  rpc_createCheckpoint : S -> S * result number;
  rpc_destroyLastCheckpoint : S -> S * result number;
  rpc_restoreLastCheckpoint : S -> S * result RestoreLastCheckpointResponse;
  rpc_checkoutCheckpoint : Z -> S -> S * result CheckoutCheckpointResponse;
  rpc_discardCheckpointFuture : S -> S * result DiscardCheckpointFutureResponse;
  rpc_restoreToChangeCount : Z -> S -> S * result RestoreToChangeCountResponse
}.

(** ** The client's functions *)

Section Client.
Context {S : Type} `{EditBackend S} `{SessionRpc S}.

Definition request {A} (rpc : S -> S * result A) : M (world S) A :=
  let* r := call rpc in liftM r.

Definition input (v : number) : M (world S) Z := liftM (requireSafeIntegerInput v).
Definition output (v : number) : M (world S) Z := liftM (requireSafeIntegerOutput v).

(** A pattern or replacement is a string or bytes. *)
Definition to_bytes (p : jsstring + bytes) : bytes :=
  match p with inl s => utf8_encode s | inr b => b end.

Definition searchSession (pattern : bytes) (case_folding : SearchCaseFolding)
    (is_reverse : bool) (offset length limit : number) : M (world S) (list Z) :=
  let* o := input offset in
  let* n := input length in
  let* l := input limit in
  let* matches := request (rpc_searchSession pattern case_folding is_reverse o n l) in
  liftM (requireSafeIntegerArrayOutput matches).

Definition add_counts (d i o : Z) (s : EditStats) : EditStats :=
  mkStats (delete_count s + d) (insert_count s + i) (overwrite_count s + o) (undo_count s)
    (redo_count s) (clear_count s) (error_count s).

(** The checks and additions to [stats] go field by field, so an unsafe
    count leaves the earlier ones added. *)
Definition replaceSession (pattern replacement : bytes) (case_folding : SearchCaseFolding)
    (is_reverse : bool) (offset length limit : number) (front_to_back overwrite_only : bool)
    (with_stats : bool) : M (world S) Z :=
  withViewportBatch
    (let* o := input offset in
     let* n := input length in
     let* l := input limit in
     let* response := request (rpc_replaceSession pattern replacement case_folding is_reverse
       o n l front_to_back overwrite_only) in
     (if with_stats then
        let* d := output (rp_deleteCount response) in
        bump true (add_counts d 0 0) ;;;
        let* i := output (rp_insertCount response) in
        bump true (add_counts 0 i 0) ;;;
        let* w := output (rp_overwriteCount response) in
        bump true (add_counts 0 0 w)
      else retM tt) ;;;
     output (rp_replacementCount response))
    (Some false) None.

Definition replaceSessionCheckpointed (pattern replacement : bytes)
    (case_folding : SearchCaseFolding) (offset length : number) : M (world S) Z :=
  let* o := input offset in
  let* n := input length in
  let* count := request (rpc_replaceSessionCheckpointed pattern replacement case_folding o n) in
  output count.

Definition replaceOneSession (pattern replacement : jsstring + bytes)
    (case_folding : SearchCaseFolding) (is_reverse : bool) (offset length : number)
    (overwrite_only with_stats : bool) : M (world S) Z :=
  let* safeOffset := input offset in
  let* safeLength := input length in
  let patternArray := to_bytes pattern in
  let replacementArray := to_bytes replacement in
  let* foundLocations := searchSession patternArray case_folding is_reverse
    (NInt safeOffset) (NInt safeLength) (NInt 1) in
  match foundLocations with
  | found :: _ =>
      (if overwrite_only then overwrite (NInt found) replacementArray with_stats
       else editSimple (NInt found) patternArray replacementArray with_stats true) ;;;
      output (NInt (found + len replacementArray))
  | [] => retM (-1)
  end.

Definition getSegment (offset length : number) : M (world S) bytes :=
  let* o := input offset in
  let* n := input length in
  request (rpc_getSegment o n).

Definition getComputedFileSize : M (world S) Z :=
  let* size := request rpc_getComputedFileSize in output size.

Definition getSessionBytes (offset length : number) : M (world S) bytes :=
  let* safeOffset := input offset in
  let* safeLength := input length in
  let* computedSize := getComputedFileSize in
  let remaining := Z.max 0 (computedSize - safeOffset) in
  let effectiveLength := if 0 <? safeLength then Z.min safeLength remaining else remaining in
  request (rpc_getSegment safeOffset effectiveLength).

Definition createCheckpoint : M (world S) Z :=
  let* count := request rpc_createCheckpoint in output count.

Definition destroyLastCheckpoint : M (world S) Z :=
  let* remaining := request rpc_destroyLastCheckpoint in output remaining.

Definition restoreLastCheckpoint : M (world S) RestoreLastCheckpointResponse :=
  let* response := request rpc_restoreLastCheckpoint in
  output (rl_checkpointCount response) ;;;
  output (rl_changeCount response) ;;;
  output (rl_discardedChangeCount response) ;;;
  retM response.

Definition checkoutCheckpoint (checkpoint_count : number)
  : M (world S) CheckoutCheckpointResponse :=
  let* n := input checkpoint_count in
  let* response := request (rpc_checkoutCheckpoint n) in
  output (co_checkpointCount response) ;;;
  output (co_futureCheckpointCount response) ;;;
  output (co_changeCount response) ;;;
  retM response.

Definition discardCheckpointFuture : M (world S) DiscardCheckpointFutureResponse :=
  let* response := request rpc_discardCheckpointFuture in
  output (dc_discardedCheckpointCount response) ;;;
  output (dc_checkpointCount response) ;;;
  retM response.

Definition restoreToChangeCount (change_count : number)
  : M (world S) RestoreToChangeCountResponse :=
  let* n := input change_count in
  let* response := request (rpc_restoreToChangeCount n) in
  output (rt_changeCount response) ;;;
  output (rt_discardedChangeCount response) ;;;
  output (rt_discardedUndoCount response) ;;;
  output (rt_remainingCheckpointCount response) ;;;
  retM response.
End Client.

(** ** What the server promises *)

(** A search answers what [search_spec] says and changes nothing; a segment
    holds the bytes asked for, as far as there are any. *)
Class SessionRpcLaws (S : Type) `{EditBackendLaws S} `{SessionRpc S} := {
  rpc_fold : SearchCaseFolding -> Z -> Z;
  rpc_fold_none b : rpc_fold FOLD_NONE b = b;
  rpc_search_sound pattern folding reverse o n l s s' ms :
    pattern <> [] -> 0 <= o -> 0 <= n -> 0 <= l ->
    rpc_searchSession pattern folding reverse o n l s = (s', Ok ms) ->
    content s' = content s /\
    ms = map NInt (search_spec (rpc_fold folding) pattern (content s) reverse o n l);
  rpc_search_live pattern folding reverse o n l s :
    alive s -> pattern <> [] -> 0 <= o -> 0 <= n -> 0 <= l ->
    exists s' ms, rpc_searchSession pattern folding reverse o n l s = (s', Ok ms) /\ alive s';
  rpc_size_law s : alive s ->
    rpc_getComputedFileSize s = (s, Ok (NInt (len (content s))));
  rpc_segment_law o n s : alive s -> 0 <= o -> 0 <= n -> o + n <= len (content s) ->
    rpc_getSegment o n s = (s, Ok (take (Z.to_nat n) (drop (Z.to_nat o) (content s))))
}.

(** [BufferServer] with these calls. *)
Module BufferRpc.

#[global] Instance rpc : SessionRpc BufferServer.t := {
  rpc_searchSession pattern folding reverse o n l s :=
    (s, Ok (map NInt (search_spec (ListService.fold folding) pattern (BufferServer.buf s)
       reverse o n l)));
  rpc_replaceSession _ _ _ _ _ _ _ _ _ s := (s, Throw (plain_error "unsupported"));
  rpc_replaceSessionCheckpointed _ _ _ _ _ s := (s, Throw (plain_error "unsupported"));
  rpc_getSegment o n s :=
    (s, Ok (take (Z.to_nat n) (drop (Z.to_nat o) (BufferServer.buf s))));
  rpc_getComputedFileSize s := (s, Ok (NInt (len (BufferServer.buf s))));
  rpc_createCheckpoint s := (s, Ok (NInt 1));
  rpc_destroyLastCheckpoint s := (s, Ok (NInt 0));
  rpc_restoreLastCheckpoint s := (s, Ok (mkRestoreLast (NInt 1) (NInt 0) NNaN));
  rpc_checkoutCheckpoint n s := (s, Ok (mkCheckout (NInt n) (NInt 0) (NInt 0)));
  rpc_discardCheckpointFuture s := (s, Ok (mkDiscard (NInt 0) (NInt 1)));
  rpc_restoreToChangeCount n s := (s, Ok (mkRestoreTo (NInt n) (NInt 0) (NInt 0) (NInt 1)))
}.

#[global] Instance rpc_laws : SessionRpcLaws BufferServer.t.
Proof.
  refine {| rpc_fold := ListService.fold |}.
  - done.
  - intros * _ _ _ _. cbn. intros [= <- <-]. done.
  - intros * Ha _ _ _ _. eexists _, _. split; [reflexivity|done].
  - done.
  - done.
Defined.

End BufferRpc.

(** ** Lemmas *)

Section Runs.
Context {S : Type} `{SessionRpcLaws S}.

Lemma search_spec_elem fold pattern buf reverse o n l m :
  pattern <> [] -> m ∈ search_spec fold pattern buf reverse o n l ->
  m ∈ all_matches fold pattern buf.
Proof.
  intros Hp Hm. unfold search_spec, limited in Hm.
  set (ms := window _ _ _ _) in Hm.
  assert (Hin : m ∈ (if reverse then rev ms else ms)).
  { destruct (l =? 0); [done|]. by apply take_elem in Hm. }
  assert (Hms : m ∈ ms).
  { destruct reverse; [|done]. apply list_elem_of_In. apply list_elem_of_In in Hin.
    by apply in_rev. }
  apply list_elem_of_In, filter_In in Hms as [Hms _]. by apply list_elem_of_In.
Qed.

Lemma performs_search pattern folding reverse o n l b :
  pattern <> [] -> 0 <= o <= MAX_SAFE_INTEGER -> 0 <= n <= MAX_SAFE_INTEGER ->
  0 <= l <= MAX_SAFE_INTEGER -> len b <= MAX_SAFE_INTEGER ->
  performs (searchSession pattern folding reverse (NInt o) (NInt n) (NInt l)) b b
    (fun ms => ms = search_spec (rpc_fold folding) pattern b reverse o n l).
Proof.
  intros Hp Ho Hn Hl Hb. unfold searchSession, input.
  rewrite !requireSafeIntegerInput_int by (apply safeZ_spec; lia).
  do 3 apply performs_lift. set (spec := search_spec _ _ _ _ _ _ _).
  assert (Hsafe : requireSafeIntegerArrayOutput (map NInt spec) = Ok spec).
  { apply requireSafeIntegerArrayOutput_spec. split; [done|]. apply Forall_forall.
    intros m Hm. apply search_spec_elem in Hm; [|done].
    apply all_matches_spec in Hm as (? & ? & _); [|done].
    pose proof (len_nonneg pattern). apply safeZ_spec. lia. }
  intros w Hw. unfold request, bindM, call, liftM. subst b. split.
  - intros w' r. destruct (rpc_searchSession _ _ _ _ _ _ _) as [s' [ms|e]] eqn:E; [|discriminate].
    apply rpc_search_sound in E as [Hc ->]; [|done|lia..]. fold spec. rewrite Hsafe.
    intros [= <- <-]. done.
  - intros Ha. destruct (rpc_search_live pattern folding reverse o n l (server w) Ha Hp
      ltac:(lia) ltac:(lia) ltac:(lia)) as (s' & ms & E & Ha'). rewrite E.
    apply rpc_search_sound in E as [Hc ->]; [|done|lia..]. fold spec. rewrite Hsafe.
    by eexists _, _.
Qed.

(** A match without folding is the pattern itself. *)
Lemma exact_match pattern buf m :
  pattern <> [] -> m ∈ all_matches (rpc_fold FOLD_NONE) pattern buf ->
  buf = take (Z.to_nat m) buf ++ pattern ++ drop (Z.to_nat (m + len pattern)) buf /\
  length (take (Z.to_nat m) buf) = Z.to_nat m /\ 0 <= m.
Proof.
  intros Hp Hm. apply all_matches_spec in Hm as (Hpos & Hlen & Hm); [|done].
  unfold match_at in Hm. apply bool_decide_eq_true in Hm.
  rewrite !(map_ext (rpc_fold FOLD_NONE) (fun b => b) rpc_fold_none), !map_id in Hm.
  unfold len in *. split; [|split; [rewrite length_take; lia|done]].
  replace (Z.to_nat (m + Z.of_nat (length pattern))) with (Z.to_nat m + length pattern)%nat by lia.
  rewrite <- drop_drop, <- Hm at 1. by rewrite take_drop, take_drop.
Qed.

Lemma search_spec_exact pattern buf reverse o n l :
  search_spec (rpc_fold FOLD_NONE) pattern buf reverse o n l
  = search_spec (fun b => b) pattern buf reverse o n l.
Proof.
  unfold search_spec. assert (E : all_matches (rpc_fold FOLD_NONE) pattern buf
    = all_matches (fun b => b) pattern buf); [|by rewrite E].
  unfold all_matches. f_equal. apply filter_ext_elem. intros k _. unfold match_at.
  by rewrite !(map_ext (rpc_fold FOLD_NONE) (fun b => b)) by apply rpc_fold_none.
Qed.

Lemma performs_replaceOne pattern replacement reverse o n ws b :
  pattern <> [] -> 0 <= o <= MAX_SAFE_INTEGER -> 0 <= n <= MAX_SAFE_INTEGER ->
  len b + len replacement <= MAX_SAFE_INTEGER ->
  let found := search_spec (fun b => b) pattern b reverse o n 1 in
  performs (S := S) (replaceOneSession (inr pattern) (inr replacement) FOLD_NONE reverse
      (NInt o) (NInt n) false ws)
    b (match found with [] => b | m :: _ => substitute (len pattern) replacement [m] b end)
    (fun r => r = match found with [] => -1 | m :: _ => m + len replacement end).
Proof.
  intros Hp Ho Hn Hmax found. pose proof (len_nonneg b). pose proof (len_nonneg replacement).
  pose proof (len_pos pattern Hp).
  unfold replaceOneSession, input. rewrite !requireSafeIntegerInput_int by (apply safeZ_spec; lia).
  do 2 apply performs_lift. cbn [to_bytes].
  eapply performs_bind; [apply performs_search; try done; unfold MAX_SAFE_INTEGER in *; lia|].
  intros ms ->. rewrite search_spec_exact. fold found.
  destruct found as [|m rest] eqn:E; [by apply performs_ret|].
  assert (Hm : m ∈ all_matches (rpc_fold FOLD_NONE) pattern b).
  { apply (search_spec_elem _ _ _ reverse o n 1); [done|].
    rewrite search_spec_exact. fold found. rewrite E. by left. }
  destruct (exact_match pattern b m Hp Hm) as (Hb & Hpre & Hpos).
  apply all_matches_spec in Hm as (_ & Hlen & _); [|done].
  eapply performs_bind.
  - rewrite Hb at 1. unfold substitute. cbn [foldr]. cbn [to_bytes].
    replace (NInt m) with (NInt (Z.of_nat (length (take (Z.to_nat m) b))))
      by (rewrite Hpre; f_equal; lia).
    apply performs_editSimple. rewrite Hpre. unfold len in *. lia.
  - intros r _. unfold output. cbn [to_bytes].
    rewrite requireSafeIntegerOutput_int by (apply safeZ_spec; lia).
    intros w Hw. split; [intros w' r' [= <- <-]; done|]. intros Ha. by eexists _, _.
Qed.
End Runs.

(** ** Theorems *)

(** Without case folding, [replaceOneSession] replaces the
    first match in the direction of the search and nothing else, and returns
    the offset just behind the replacement; with no match it returns [-1] and
    leaves the session alone.  When the server answers, the call returns. *)
Theorem replaceOne_exact {S} `{SessionRpcLaws S} (w : world S) pattern replacement reverse o n ws :
  let buf := content (server w) in
  let found := search_spec (fun b => b) pattern buf reverse o n 1 in
  pattern <> [] -> 0 <= o <= MAX_SAFE_INTEGER -> 0 <= n <= MAX_SAFE_INTEGER ->
  len buf + len replacement <= MAX_SAFE_INTEGER ->
  let run := replaceOneSession (inr pattern) (inr replacement) FOLD_NONE reverse
    (NInt o) (NInt n) false ws w in
  (forall w' r, run = (w', Ok r) ->
     content (server w') = match found with
       | [] => buf
       | m :: _ => substitute (len pattern) replacement [m] buf
       end /\
     r = match found with [] => -1 | m :: _ => m + len replacement end) /\
  (alive (server w) -> exists w' r, run = (w', Ok r) /\ alive (server w')).
Proof. intros buf found Hp Ho Hn Hmax run. by apply performs_replaceOne. Qed.

Lemma replaceOne_exact_witness :
  exists w' r, replaceOneSession (inr [2; 3]) (inr [9]) FOLD_NONE false (NInt 0) (NInt 0) false true
      (BufferServer.init [1; 2; 3; 4; 2; 3] []) = (w', Ok r) /\
    content (server w') = [1; 9; 4; 2; 3] /\ r = 2.
Proof.
  destruct (replaceOne_exact (BufferServer.init [1; 2; 3; 4; 2; 3] []) [2; 3] [9] false 0 0 true)
    as [Hs Hl]; [discriminate|split; vm_compute; discriminate..|vm_compute; discriminate|].
  destruct Hl as (w' & r & E & _).
  { split; cbn; [constructor|]. unfold MAX_SAFE_INTEGER. lia. }
  exists w', r. split; [exact E|]. destruct (Hs w' r E) as [Hc Hr].
  split; [rewrite Hc; vm_compute; reflexivity|rewrite Hr; vm_compute; reflexivity].
Defined.

(** With case folding the match need not be the pattern, but
    [replaceOneSession] passes the pattern to [editSimple] as the original
    segment, which skips the bytes the pattern shares with the replacement.
    Replacing the match "ABC" of "abc" by "abX" leaves "ABX", and replacing
    it by "abc" changes nothing, while both calls return as if done. *)
Theorem replaceOne_folding_keeps_case :
  (exists w', replaceOneSession (inl (js "abc")) (inl (js "abX")) FOLD_ASCII false (NInt 0) (NInt 0)
      false true (BufferServer.init (utf8_encode (js "ABC")) []) = (w', Ok 3) /\
     content (server w') = utf8_encode (js "ABX")) /\
  (exists w', replaceOneSession (inl (js "abc")) (inl (js "abc")) FOLD_ASCII false (NInt 0) (NInt 0)
      false true (BufferServer.init (utf8_encode (js "ABC")) []) = (w', Ok 3) /\
     content (server w') = utf8_encode (js "ABC")).
Proof. split; eexists; split; vm_compute; reflexivity. Qed.

(** On a session nobody else writes to, [getSessionBytes] returns the
    bytes from the offset on, at most [length] of them (zero: all), and no
    bytes for an offset at the end. *)
Theorem getSessionBytes_correct {S} `{SessionRpcLaws S} (w : world S) o n :
  alive (server w) -> 0 <= o <= len (content (server w)) -> 0 <= n <= MAX_SAFE_INTEGER ->
  len (content (server w)) <= MAX_SAFE_INTEGER ->
  let rest := drop (Z.to_nat o) (content (server w)) in
  getSessionBytes (NInt o) (NInt n) w
  = (w, Ok (if n =? 0 then rest else take (Z.to_nat n) rest)).
Proof.
  intros Ha Ho Hn Hmax rest. unfold getSessionBytes, input.
  rewrite !requireSafeIntegerInput_int by (apply safeZ_spec; lia).
  unfold getComputedFileSize, request, output, bindM, liftM, call.
  rewrite rpc_size_law by done. cbv iota beta.
  rewrite requireSafeIntegerOutput_int by (apply safeZ_spec; pose proof (len_nonneg (content (server w))); lia).
  cbn [server stats].
  set (size := len (content (server w))) in *.
  set (eff := if 0 <? n then Z.min n (Z.max 0 (size - o)) else Z.max 0 (size - o)).
  assert (Heff : 0 <= eff /\ o + eff <= size)
    by (subst eff; destruct (Z.ltb_spec 0 n); lia).
  rewrite rpc_segment_law by (try done; subst size; lia).
  assert (E : take (Z.to_nat eff) rest = if n =? 0 then rest else take (Z.to_nat n) rest).
  { assert (Hr : length rest = Z.to_nat (size - o))
      by (subst rest size; rewrite length_drop; unfold len; lia).
    subst eff. destruct (Z.eqb_spec n 0) as [->|Hne]; cbn [Z.ltb Z.compare].
    - apply take_ge. lia.
    - destruct (Z.ltb_spec 0 n); [|lia]. destruct (Z.le_gt_cases n (size - o)).
      + f_equal. lia.
      + rewrite !take_ge; [done|lia..]. }
  fold rest. rewrite E. by destruct w.
Qed.

Lemma getSessionBytes_correct_witness :
  getSessionBytes (NInt 1) (NInt 9) (BufferServer.init [1; 2; 3] [])
  = (BufferServer.init [1; 2; 3] [], Ok [2; 3]).
Proof.
  rewrite (getSessionBytes_correct (BufferServer.init [1; 2; 3] []) 1 9).
  - vm_compute. reflexivity.
  - split; cbn; [constructor|]. unfold MAX_SAFE_INTEGER. lia.
  - split; vm_compute; discriminate.
  - split; vm_compute; discriminate.
  - vm_compute. discriminate.
Defined.

(** ** Numbers that reach the caller *)

Definition returns {S A} (m : M (world S) A) (P : A -> Prop) : Prop :=
  forall w w' a, m w = (w', Ok a) -> P a.

Lemma returns_bind {S A B} (m : M (world S) A) (f : A -> M (world S) B) (P : A -> Prop) Q :
  returns m P -> (forall a, P a -> returns (f a) Q) -> returns (bindM m f) Q.
Proof.
  intros Hm Hf w w' b. unfold bindM. destruct (m w) as [w1 [a|e]] eqn:E; [|discriminate].
  by apply Hf, (Hm _ _ _ E).
Qed.

Lemma returns_any {S A} (m : M (world S) A) : returns m (fun _ => True).
Proof. done. Qed.

Lemma returns_output {S} v : returns (output v : M (world S) Z) (fun _ => isSafeInteger v = true).
Proof.
  intros w w' z [= _ H]. by apply requireSafeIntegerOutput_inv in H as [-> H].
Qed.

Lemma returns_ret {S A} (a : A) (P : A -> Prop) : P a -> returns (retM a : M (world S) A) P.
Proof. intros H w w' b [= _ <-]. done. Qed.

(** Whatever numbers the server answers, the counts of a checkpoint
    response that reaches the caller are safe integers: any other value makes
    the call throw. *)
Theorem checkpoint_counts_safe {S} `{SessionRpc S} n :
  returns (S := S) restoreLastCheckpoint (fun r => isSafeInteger (rl_checkpointCount r) = true /\
    isSafeInteger (rl_changeCount r) = true /\ isSafeInteger (rl_discardedChangeCount r) = true) /\
  returns (S := S) (checkoutCheckpoint n) (fun r => isSafeInteger (co_checkpointCount r) = true /\
    isSafeInteger (co_futureCheckpointCount r) = true /\ isSafeInteger (co_changeCount r) = true) /\
  returns (S := S) discardCheckpointFuture (fun r =>
    isSafeInteger (dc_discardedCheckpointCount r) = true /\
    isSafeInteger (dc_checkpointCount r) = true) /\
  returns (S := S) (restoreToChangeCount n) (fun r => isSafeInteger (rt_changeCount r) = true /\
    isSafeInteger (rt_discardedChangeCount r) = true /\
    isSafeInteger (rt_discardedUndoCount r) = true /\
    isSafeInteger (rt_remainingCheckpointCount r) = true) /\
  returns (S := S) createCheckpoint (fun z => safeZ z = true) /\
  returns (S := S) destroyLastCheckpoint (fun z => safeZ z = true).
Proof.
  unfold restoreLastCheckpoint, checkoutCheckpoint, discardCheckpointFuture, restoreToChangeCount,
    createCheckpoint, destroyLastCheckpoint.
  refine (conj _ (conj _ (conj _ (conj _ (conj _ _))))).
  1-4: repeat first
    [ eapply returns_bind; [apply returns_output|intros ? ?]
    | apply returns_ret; done
    | eapply returns_bind; [apply returns_any|intros ? _] ].
  all: eapply returns_bind; [apply returns_any|intros ? _]; intros w w' z Hz;
    injection Hz as _ Hz; by apply requireSafeIntegerOutput_inv in Hz as [_ ?].
Qed.

(** The sample server's restore answers a count that is no number. *)
Example restore_refused :
  (restoreLastCheckpoint (BufferServer.init [] [])).2
  = Throw (plain_error SAFE_INTEGER_OUTPUT_MESSAGE).
Proof. reflexivity. Qed.
