(* ===== verification/JsValue.v ===== *)
(** * Untyped JavaScript values

    What a parameter of type [unknown] can hold: the primitive values, arrays
    and plain objects, an object being the list of its own properties.  An
    array's holes read as [undefined]. *)

From S2P Require Import Prelude.

Inductive jsval :=
  | JUndefined
  | JNull
  | JBool (b : bool)
  | JNumber (n : number)
  | JBigInt (z : Z)
  | JString (s : jsstring)
  | JArray (l : list jsval)
  | JObject (props : list (jsstring * jsval)).

#[global] Instance number_eq_dec : EqDecision number.
Proof. solve_decision. Defined.

Definition jsobject : Type := list (jsstring * jsval).

(** [object[key]] *)
Fixpoint get (key : jsstring) (o : jsobject) : jsval :=
  match o with
  | [] => JUndefined
  | (k, v) :: o => if bool_decide (k = key) then v else get key o
  end.

(** [Object.prototype.hasOwnProperty.call(object, key)] *)
Definition has_own (key : jsstring) (o : jsobject) : bool :=
  existsb (fun p => bool_decide (p.1 = key)) o.

(** [typeof value === 'object' && value !== null && !Array.isArray(value)] *)
Definition as_record (v : jsval) : option jsobject :=
  match v with JObject o => Some o | _ => None end.

Definition as_string (v : jsval) : option jsstring :=
  match v with JString s => Some s | _ => None end.

Definition as_array (v : jsval) : option (list jsval) :=
  match v with JArray l => Some l | _ => None end.

Definition is_undefined (v : jsval) : bool := match v with JUndefined => true | _ => false end.

(** An optional property written with [...(x ? { key: x } : {})]. *)
Definition opt_prop (key : string) (v : option jsval) : jsobject :=
  match v with Some x => [(js key, x)] | None => [] end.
