(* ===== verification/ChangeLogCodec.v ===== *)
(** * The change-log codec ([packages/client/src/changeLog/codec.ts])

    Validation and normalisation of change-log documents: int64 values,
    hexadecimal payloads, entries, fingerprints, the header, the sequence
    rules on serials and groups, and the whole document.  Every rejection is
    a [ChangeLogCodecError] with its code.

    [JSON.parse] and [JSON.stringify] are the class [JsonRuntime]; the codec
    hands them the text of a transform descriptor and takes what they give
    back, and no theorem here depends on how they read or write it. *)

From stdpp Require Import sorting.
From S2P Require Import Prelude JsText JsValue.

(** ** Limits and errors ([types.ts], [codec.ts]) *)

Definition CHANGE_LOG_FORMAT : jsstring := js "omega-edit.change-log".
Definition CHANGE_LOG_VERSION : Z := 2.
Definition CHANGE_LOG_DEFAULT_DIGEST_PLUGIN_ID : jsstring := js "omega.example.openssl_digests".
Definition CHANGE_LOG_DIGEST_PLUGIN_ID_MAX_LENGTH : Z := 4096.
Definition CHANGE_LOG_DIGEST_ALGORITHM_MAX_LENGTH : Z := 128.
Definition CHANGE_LOG_DIGEST_VALUE_MAX_LENGTH : Z := 4096.
Definition MAX_INT64 : Z := 9223372036854775807.

Inductive limit_name :=
  | maxNesting | maxEntryCount | maxEntryChars | maxHeaderValueChars | maxStringChars
  | maxGroupIdChars | maxGroupCount | maxTransformCount | maxTransformIdBytes
  | maxTransformOptionsBytes | maxRequiredPluginCount | maxUnavailableSerialCount.

Definition limit_names : list limit_name :=
  [maxNesting; maxEntryCount; maxEntryChars; maxHeaderValueChars; maxStringChars;
   maxGroupIdChars; maxGroupCount; maxTransformCount; maxTransformIdBytes;
   maxTransformOptionsBytes; maxRequiredPluginCount; maxUnavailableSerialCount].

Definition ChangeLogCodecLimits : Type := limit_name -> Z.

Definition DEFAULT_CHANGE_LOG_CODEC_LIMITS : ChangeLogCodecLimits := fun n =>
  match n with
  | maxNesting => 256
  | maxEntryCount => 1000000
  | maxEntryChars => 134221824
  | maxHeaderValueChars => 16777216
  | maxStringChars => 134217728
  | maxGroupIdChars => 256
  | maxGroupCount => 65536
  | maxTransformCount => 65536
  | maxTransformIdBytes => 4096
  | maxTransformOptionsBytes => 1048576
  | maxRequiredPluginCount => 4096
  | maxUnavailableSerialCount => 65536
  end.

Definition codec_error (code : string) : exn := Exn "ChangeLogCodecError" code.
Definition cancelled_error : exn := Exn "ChangeLogCancelledError" "CHANGE_LOG_CANCELLED".

(** The merged limits as they are before the check; [None] is a property the
    overrides do not have. *)
Definition merged_limit (overrides : limit_name -> option number) (n : limit_name) : number :=
  default (NInt (DEFAULT_CHANGE_LOG_CODEC_LIMITS n)) (overrides n).

Definition positive_safe (v : number) : option Z :=
  match v with NInt z => if safeZ z && (0 <? z) then Some z else None | _ => None end.

Definition resolveChangeLogCodecLimits (overrides : limit_name -> option number)
  : result ChangeLogCodecLimits :=
  if forallb (fun n => bool_decide (is_Some (positive_safe (merged_limit overrides n)))) limit_names
  then Ok (fun n => default 0 (positive_safe (merged_limit overrides n)))
  else Throw (codec_error "CHANGE_LOG_INVALID_LIMIT").

Definition throwIfChangeLogCancelled (aborted : bool) : result unit :=
  require (negb aborted) cancelled_error.

(** ** Integers *)

Definition parseChangeLogNonNegativeInt64 (value : jsval) : result Z :=
  parsed ← match value with
    | JBigInt z => Ok z
    | JNumber (NInt z) =>
        if safeZ z then Ok z else Throw (codec_error "CHANGE_LOG_INVALID_INT64")
    | JNumber _ => Throw (codec_error "CHANGE_LOG_INVALID_INT64")
    | JString s =>
        if canonical_decimal s then Ok (decimal_value s)
        else Throw (codec_error "CHANGE_LOG_INVALID_INT64")
    | _ => Throw (codec_error "CHANGE_LOG_INVALID_INT64")
    end;
  if (parsed <? 0) || (MAX_INT64 <? parsed) then Throw (codec_error "CHANGE_LOG_INVALID_INT64")
  else Ok parsed.

Definition parseChangeLogPositiveInt64 (value : jsval) : result Z :=
  parsed ← parseChangeLogNonNegativeInt64 value;
  if parsed =? 0 then Throw (codec_error "CHANGE_LOG_INVALID_INT64") else Ok parsed.

Definition changeLogInt64ToDecimal (value : jsval) : result jsstring :=
  parsed ← parseChangeLogNonNegativeInt64 value; Ok (decimal_string parsed).

(** ** Strings and nested values *)

Fixpoint assertValidUnicodeString (s : jsstring) : result unit :=
  match s with
  | [] => Ok tt
  | c :: t =>
      if high_surrogate c then
        match t with
        | d :: t' =>
            if low_surrogate d then assertValidUnicodeString t'
            else Throw (codec_error "CHANGE_LOG_INVALID_UNICODE")
        | [] => Throw (codec_error "CHANGE_LOG_INVALID_UNICODE")
        end
      else if low_surrogate c then Throw (codec_error "CHANGE_LOG_INVALID_UNICODE")
      else assertValidUnicodeString t
  end.

Definition slen (s : jsstring) : Z := Z.of_nat (length s).

Fixpoint validateChangeLogJsonValue (limits : ChangeLogCodecLimits) (depth : Z) (value : jsval)
  : result unit :=
  if limits maxNesting <? depth then Throw (codec_error "CHANGE_LOG_NESTING_LIMIT")
  else match value with
  | JString s =>
      if limits maxStringChars <? slen s then Throw (codec_error "CHANGE_LOG_STRING_LIMIT")
      else assertValidUnicodeString s
  | JArray l =>
      (fix elements (l : list jsval) : result unit :=
         match l with
         | [] => Ok tt
         | v :: l => _ ← validateChangeLogJsonValue limits (depth + 1) v; elements l
         end) l
  | JObject o =>
      (fix entries (o : list (jsstring * jsval)) : result unit :=
         match o with
         | [] => Ok tt
         | (k, v) :: o =>
             _ ← assertValidUnicodeString k;
             _ ← validateChangeLogJsonValue limits (depth + 1) v;
             entries o
         end) o
  | _ => Ok tt
  end.

Definition is_hex_digit (c : Z) : bool :=
  in_range 48 57 c || in_range 97 102 c || in_range 65 70 c.

Definition normalizeHex (value : jsval) : result jsstring :=
  match value with
  | JString s =>
      if Nat.even (length s) && forallb is_hex_digit s then Ok (toLowerCase s)
      else Throw (codec_error "CHANGE_LOG_INVALID_HEX")
  | _ => Throw (codec_error "CHANGE_LOG_INVALID_HEX")
  end.

Definition hexCodeUnitToNibble (codeUnit : Z) : Z :=
  if codeUnit <=? 57 then codeUnit - 48 else Z.land codeUnit 223 - 55.

(** The byte array of an even-length string; an element of a [Uint8Array]
    keeps the low eight bits. *)
Fixpoint hex_bytes (s : jsstring) : list Z :=
  match s with
  | a :: b :: t =>
      Z.land (Z.lor (Z.shiftl (hexCodeUnitToNibble a) 4) (hexCodeUnitToNibble b)) 255
      :: hex_bytes t
  | _ => []
  end.

Definition decodeHexUtf8 (value : jsstring) : result jsstring :=
  match text_decode (hex_bytes value) with
  | Some text => Ok text
  | None => Throw (codec_error "CHANGE_LOG_INVALID_UNICODE")
  end.

(** ** Entries *)

Inductive ChangeLogEntryKind := KINSERT | KDELETE | KOVERWRITE | KREPLACE | KTRANSFORM.

#[global] Instance entry_kind_eq_dec : EqDecision ChangeLogEntryKind.
Proof. solve_decision. Defined.

Definition kind_name (k : ChangeLogEntryKind) : jsstring :=
  match k with
  | KINSERT => js "INSERT" | KDELETE => js "DELETE" | KOVERWRITE => js "OVERWRITE"
  | KREPLACE => js "REPLACE" | KTRANSFORM => js "TRANSFORM"
  end.

Definition kinds : list ChangeLogEntryKind := [KINSERT; KDELETE; KOVERWRITE; KREPLACE; KTRANSFORM].

Definition kind_of (v : jsval) : option ChangeLogEntryKind :=
  match v with
  | JString s => List.find (fun k => bool_decide (kind_name k = s)) kinds
  | _ => None
  end.

Record ChangeLogTransformDescriptor := mkDescriptor {
  transformId : jsstring;
  optionsJson : option jsstring
}.

Record NormalizedChangeLogEntry := mkEntryN {
  n_serial : option jsstring;
  n_kind : ChangeLogEntryKind;
  n_offset : jsstring;
  n_length : jsstring;
  n_data : jsstring;
  n_groupId : option jsstring;
  n_transformDescriptor : option ChangeLogTransformDescriptor
}.

Class JsonRuntime := {
  JSON_parse : jsstring -> option jsval;   (* None: SyntaxError *)
  JSON_stringify : jsobject -> jsstring
}.

Section Codec.
Context `{JsonRuntime}.

Definition parseTransformDescriptor (data : jsstring) (limits : ChangeLogCodecLimits)
  : result ChangeLogTransformDescriptor :=
  if (length data =? 0)%nat then Throw (codec_error "CHANGE_LOG_INVALID_TRANSFORM")
  else
    text ← decodeHexUtf8 data;
    match JSON_parse text with
    | None => Throw (codec_error "CHANGE_LOG_INVALID_TRANSFORM")
    | Some descriptor =>
        _ ← validateChangeLogJsonValue limits 0 descriptor;
        match as_record descriptor with
        | None => Throw (codec_error "CHANGE_LOG_INVALID_TRANSFORM")
        | Some d =>
            match as_string (get (js "transformId") d) with
            | None => Throw (codec_error "CHANGE_LOG_INVALID_TRANSFORM")
            | Some tid =>
                if (length (trim tid) =? 0)%nat
                then Throw (codec_error "CHANGE_LOG_INVALID_TRANSFORM")
                else
                  let args := get (js "args") d in
                  let args := if is_undefined args then JObject [] else args in
                  match as_record args with
                  | None => Throw (codec_error "CHANGE_LOG_INVALID_TRANSFORM")
                  | Some a =>
                      let options :=
                        if (0 <? length a)%nat then Some (JSON_stringify a) else None in
                      if limits maxTransformIdBytes <? slen (utf8_encode (trim tid))
                      then Throw (codec_error "CHANGE_LOG_TRANSFORM_METADATA_LIMIT")
                      else if match options with
                        | Some o => negb (length o =? 0)%nat &&
                            (limits maxTransformOptionsBytes <? slen (utf8_encode o))
                        | None => false
                        end
                      then Throw (codec_error "CHANGE_LOG_TRANSFORM_METADATA_LIMIT")
                      else Ok (mkDescriptor (trim tid)
                        (o ← options; if (length o =? 0)%nat then None else Some o))
                  end
            end
        end
    end.

Definition needs_data (k : ChangeLogEntryKind) : bool :=
  match k with KINSERT | KDELETE | KOVERWRITE => true | _ => false end.

Definition legacy_fields : list string :=
  ["transformId"; "optionsJson"; "replacementLength"; "computedFileSizeBefore";
   "computedFileSizeAfter"]%string.

Definition normalize_group (limits : ChangeLogCodecLimits) (groupId : jsval)
  : result (option jsstring) :=
  if is_undefined groupId then Ok None
  else match as_string groupId with
  | None => Throw (codec_error "CHANGE_LOG_INVALID_ENTRY")
  | Some g =>
      if (length (trim g) =? 0)%nat then Throw (codec_error "CHANGE_LOG_INVALID_ENTRY")
      else if limits maxGroupIdChars <? slen (trim g)
        then Throw (codec_error "CHANGE_LOG_GROUP_LIMIT")
      else Ok (Some (trim g))
  end.

Definition normalize_serial (serial : jsval) : result (option jsstring) :=
  if is_undefined serial then Ok None
  else n ← parseChangeLogPositiveInt64 serial; Ok (Some (decimal_string n)).

Definition normalizeChangeLogEntry (value : jsval) (limits : ChangeLogCodecLimits)
  : result NormalizedChangeLogEntry :=
  _ ← validateChangeLogJsonValue limits 0 value;
  match as_record value with
  | None => Throw (codec_error "CHANGE_LOG_INVALID_ENTRY")
  | Some o =>
      match kind_of (get (js "kind") o) with
      | None => Throw (codec_error "CHANGE_LOG_INVALID_ENTRY")
      | Some kind =>
          offset ← parseChangeLogNonNegativeInt64 (get (js "offset") o);
          len ← parseChangeLogNonNegativeInt64 (get (js "length") o);
          data ← normalizeHex (get (js "data") o);
          let dataLength := slen data / 2 in
          _ ← require (negb (needs_data kind && (dataLength =? 0)))
            (codec_error "CHANGE_LOG_INVALID_ENTRY");
          _ ← require (negb (bool_decide (kind = KDELETE) && negb (dataLength =? len)))
            (codec_error "CHANGE_LOG_INVALID_ENTRY");
          serial ← normalize_serial (get (js "serial") o);
          groupId ← normalize_group limits (get (js "groupId") o);
          descriptor ← (if bool_decide (kind = KTRANSFORM) then
              _ ← require (negb (existsb (fun f => has_own (js f) o) legacy_fields))
                (codec_error "CHANGE_LOG_INVALID_TRANSFORM");
              d ← parseTransformDescriptor data limits;
              Ok (Some d)
            else Ok None);
          Ok (mkEntryN serial kind (decimal_string offset) (decimal_string len) data groupId
            descriptor)
      end
  end.
End Codec.

(** ** Fingerprints *)

Record ChangeLogDigest := mkDigest {
  d_pluginId : jsstring;
  d_algorithm : jsstring;
  d_value : jsstring
}.

Record NormalizedChangeLogFingerprint := mkFingerprint {
  fp_byteLength : jsstring;
  fp_digest : ChangeLogDigest
}.

Definition is_plugin_char (c : Z) : bool :=
  in_range 65 90 c || in_range 97 122 c || in_range 48 57 c || (c =? 46) || (c =? 95) || (c =? 45).
Definition is_algorithm_char (c : Z) : bool := in_range 97 122 c || in_range 48 57 c || (c =? 45).
Definition is_lower_hex (c : Z) : bool := in_range 48 57 c || in_range 97 102 c.

(** [/^[...]+$/] and a length of at most [max]. *)
Definition matches_all (f : Z -> bool) (max : Z) (s : jsstring) : bool :=
  negb (length s =? 0)%nat && forallb f s && (slen s <=? max).

Definition string_or_empty (v : jsval) : jsstring := default [] (as_string v).

(** [value ?? fallback] *)
Definition nullish (v fallback : jsval) : jsval :=
  match v with JUndefined | JNull => fallback | _ => v end.

Definition normalizeChangeLogFingerprint (value : jsval) : result NormalizedChangeLogFingerprint :=
  match as_record value with
  | None => Throw (codec_error "CHANGE_LOG_INVALID_FINGERPRINT")
  | Some o =>
      byteLength ← parseChangeLogNonNegativeInt64 (get (js "byteLength") o);
      match as_record (get (js "digest") o) with
      | None => Throw (codec_error "CHANGE_LOG_INVALID_FINGERPRINT")
      | Some d =>
          let pluginId := nullish (get (js "pluginId") d)
            (JString CHANGE_LOG_DEFAULT_DIGEST_PLUGIN_ID) in
          let normalizedPluginId := trim (string_or_empty pluginId) in
          let normalizedAlgorithm :=
            toLowerCase (trim (string_or_empty (get (js "algorithm") d))) in
          let normalizedDigestValue :=
            toLowerCase (trim (string_or_empty (get (js "value") d))) in
          _ ← require (matches_all is_plugin_char CHANGE_LOG_DIGEST_PLUGIN_ID_MAX_LENGTH
            normalizedPluginId) (codec_error "CHANGE_LOG_INVALID_FINGERPRINT");
          _ ← require (matches_all is_algorithm_char CHANGE_LOG_DIGEST_ALGORITHM_MAX_LENGTH
            normalizedAlgorithm) (codec_error "CHANGE_LOG_INVALID_FINGERPRINT");
          _ ← require (matches_all is_lower_hex CHANGE_LOG_DIGEST_VALUE_MAX_LENGTH
            normalizedDigestValue) (codec_error "CHANGE_LOG_INVALID_FINGERPRINT");
          Ok (mkFingerprint (decimal_string byteLength)
            (mkDigest normalizedPluginId normalizedAlgorithm normalizedDigestValue))
      end
  end.

(** ** The header

    The fields [format] and [version] of a normalised header are the
    constants. *)

Record ChangeLogHeader := mkHeader {
  h_complete : bool;
  h_before : NormalizedChangeLogFingerprint;
  h_after : NormalizedChangeLogFingerprint;
  h_changeCount : jsstring;
  h_sourceChangeCount : jsstring;
  h_unavailableChangeCount : jsstring;
  h_unavailableChangeSerials : list jsstring
}.

(** The [map] over the serials, with the set of those seen. *)
Fixpoint unavailable_loop (sourceChangeCount : Z) (seen : list jsstring) (l : list jsval)
  : result (list jsstring) :=
  match l with
  | [] => Ok []
  | serial :: l =>
      parsed ← parseChangeLogPositiveInt64 serial;
      _ ← require (parsed <=? sourceChangeCount) (codec_error "CHANGE_LOG_INVALID_METADATA");
      let decimal := decimal_string parsed in
      _ ← require (negb (bool_decide (decimal ∈ seen))) (codec_error "CHANGE_LOG_INVALID_METADATA");
      rest ← unavailable_loop sourceChangeCount (decimal :: seen) l;
      Ok (decimal :: rest)
  end.

Definition normalizeUnavailableChangeSerials (value : jsval) (sourceChangeCount : Z)
    (limits : ChangeLogCodecLimits) : result (list jsstring) :=
  match as_array value with
  | None => Throw (codec_error "CHANGE_LOG_INVALID_METADATA")
  | Some l =>
      if limits maxUnavailableSerialCount <? Z.of_nat (length l)
      then Throw (codec_error "CHANGE_LOG_UNAVAILABLE_SERIAL_LIMIT")
      else unavailable_loop sourceChangeCount [] l
  end.

Definition is_version (v : jsval) : bool :=
  match v with JNumber (NInt z) => z =? CHANGE_LOG_VERSION | _ => false end.

Definition normalizeChangeLogHeader (document : jsobject) (actualEntryCount : Z)
    (limits : ChangeLogCodecLimits) : result ChangeLogHeader :=
  _ ← require (bool_decide (as_string (get (js "format") document) = Some CHANGE_LOG_FORMAT))
    (codec_error "CHANGE_LOG_UNSUPPORTED_FORMAT");
  _ ← require (is_version (get (js "version") document))
    (codec_error "CHANGE_LOG_UNSUPPORTED_VERSION");
  match get (js "complete") document with
  | JBool complete =>
      changeCount ← parseChangeLogNonNegativeInt64 (get (js "changeCount") document);
      sourceChangeCount ← parseChangeLogNonNegativeInt64 (get (js "sourceChangeCount") document);
      unavailableChangeCount ←
        parseChangeLogNonNegativeInt64 (get (js "unavailableChangeCount") document);
      _ ← require (changeCount =? actualEntryCount) (codec_error "CHANGE_LOG_INVALID_METADATA");
      _ ← require (changeCount <=? sourceChangeCount) (codec_error "CHANGE_LOG_INVALID_METADATA");
      serials ← normalizeUnavailableChangeSerials (get (js "unavailableChangeSerials") document)
        sourceChangeCount limits;
      _ ← require (unavailableChangeCount =? Z.of_nat (length serials))
        (codec_error "CHANGE_LOG_INVALID_METADATA");
      _ ← require (Bool.eqb complete (unavailableChangeCount =? 0))
        (codec_error "CHANGE_LOG_INVALID_METADATA");
      before ← normalizeChangeLogFingerprint (get (js "before") document);
      after ← normalizeChangeLogFingerprint (get (js "after") document);
      Ok (mkHeader complete before after (decimal_string changeCount)
        (decimal_string sourceChangeCount) (decimal_string unavailableChangeCount) serials)
  | _ => Throw (codec_error "CHANGE_LOG_INVALID_METADATA")
  end.

(** ** The sequence of entries *)

(** The fields of [ChangeLogEntrySequenceValidator]. *)
Record sequence := mkSequence {
  serialMode : option bool;
  activeGroup : option jsstring;
  closedGroups : list jsstring
}.

Definition new_sequence : sequence := mkSequence None None [].

(** A string that is [undefined] or empty is falsy. *)
Definition truthy (s : option jsstring) : option jsstring :=
  match s with Some [] => None | _ => s end.

(** [closedGroups] is a set, but the group being closed is never in it. *)
Definition closeActiveGroup (limits : ChangeLogCodecLimits) (s : sequence) : result sequence :=
  match truthy (activeGroup s) with
  | None => Ok s
  | Some g =>
      _ ← require (Z.of_nat (length (closedGroups s)) <? limits maxGroupCount)
        (codec_error "CHANGE_LOG_GROUP_LIMIT");
      Ok (mkSequence (serialMode s) None
        (if bool_decide (g ∈ closedGroups s) then closedGroups s else g :: closedGroups s))
  end.

Definition accept_serial (entry : NormalizedChangeLogEntry) (index : Z) (s : sequence)
  : result sequence :=
  let hasSerial := bool_decide (is_Some (n_serial entry)) in
  s ← match serialMode s with
    | None => Ok (mkSequence (Some hasSerial) (activeGroup s) (closedGroups s))
    | Some mode =>
        _ ← require (Bool.eqb mode hasSerial) (codec_error "CHANGE_LOG_INVALID_SERIALS"); Ok s
    end;
  _ ← match n_serial entry with
    | Some serial => require (decimal_value serial =? index + 1)
        (codec_error "CHANGE_LOG_INVALID_SERIALS")
    | None => Ok tt
    end;
  Ok s.

Definition accept_group (limits : ChangeLogCodecLimits) (entry : NormalizedChangeLogEntry)
    (s : sequence) : result sequence :=
  match truthy (n_groupId entry) with
  | None => closeActiveGroup limits s
  | Some g =>
      if bool_decide (activeGroup s = Some g) then Ok s
      else
        _ ← require (negb (bool_decide (g ∈ closedGroups s)))
          (codec_error "CHANGE_LOG_INVALID_GROUPS");
        s ← closeActiveGroup limits s;
        Ok (mkSequence (serialMode s) (Some g) (closedGroups s))
  end.

Definition sequence_accept (limits : ChangeLogCodecLimits) (entry : NormalizedChangeLogEntry)
    (index : Z) (s : sequence) : result sequence :=
  s ← accept_serial entry index s; accept_group limits entry s.

(** ** The accumulator *)

Record ChangeLogPrimitiveCounts := mkCounts {
  c_total : Z; c_insert : Z; c_delete : Z; c_overwrite : Z; c_replace : Z; c_transform : Z
}.

Definition emptyPrimitiveCounts : ChangeLogPrimitiveCounts := mkCounts 0 0 0 0 0 0.

Definition count_kind (k : ChangeLogEntryKind) (c : ChangeLogPrimitiveCounts)
  : ChangeLogPrimitiveCounts :=
  let one x := if bool_decide (k = x) then 1 else 0 in
  mkCounts (c_total c + 1) (c_insert c + one KINSERT) (c_delete c + one KDELETE)
    (c_overwrite c + one KOVERWRITE) (c_replace c + one KREPLACE) (c_transform c + one KTRANSFORM).

Record ChangeLogTransformDescriptorSummary := mkSummary {
  ts_index : Z;
  ts_serial : option jsstring;
  ts_offset : jsstring;
  ts_length : jsstring;
  ts_transformId : jsstring;
  ts_optionsJson : option jsstring
}.

Record accumulator := mkAccumulator {
  primitiveCounts : ChangeLogPrimitiveCounts;
  transformDescriptors : list ChangeLogTransformDescriptorSummary;
  requiredPluginIds : list jsstring;   (* a set, in order of insertion *)
  a_sequence : sequence
}.

Definition new_accumulator : accumulator := mkAccumulator emptyPrimitiveCounts [] [] new_sequence.

(** [set.add(x)] *)
Definition set_add (x : jsstring) (l : list jsstring) : list jsstring :=
  if bool_decide (x ∈ l) then l else l ++ [x].

Definition accumulator_accept (limits : ChangeLogCodecLimits) (entry : NormalizedChangeLogEntry)
    (index : Z) (a : accumulator) : result accumulator :=
  _ ← require (index <? limits maxEntryCount) (codec_error "CHANGE_LOG_ENTRY_LIMIT");
  s ← sequence_accept limits entry index (a_sequence a);
  let counts := count_kind (n_kind entry) (primitiveCounts a) in
  match n_transformDescriptor entry with
  | Some d =>
      if bool_decide (n_kind entry = KTRANSFORM) then
        _ ← require (Z.of_nat (length (transformDescriptors a)) <? limits maxTransformCount)
          (codec_error "CHANGE_LOG_TRANSFORM_LIMIT");
        let summary := mkSummary index (truthy (n_serial entry)) (n_offset entry)
          (n_length entry) (transformId d) (truthy (optionsJson d)) in
        let ids := set_add (transformId d) (requiredPluginIds a) in
        _ ← require (Z.of_nat (length ids) <=? limits maxRequiredPluginCount)
          (codec_error "CHANGE_LOG_PLUGIN_LIMIT");
        Ok (mkAccumulator counts (transformDescriptors a ++ [summary]) ids s)
      else Ok (mkAccumulator counts (transformDescriptors a) (requiredPluginIds a) s)
  | None => Ok (mkAccumulator counts (transformDescriptors a) (requiredPluginIds a) s)
  end.

Record ChangeLogScanResult := mkScan {
  sc_header : ChangeLogHeader;
  sc_entryCount : Z;
  sc_primitiveCounts : ChangeLogPrimitiveCounts;
  sc_transformDescriptors : list ChangeLogTransformDescriptorSummary;
  sc_requiredPlugins : list jsstring
}.

Definition js_le (s t : jsstring) : Prop := js_leb s t = true.
#[global] Instance js_le_dec s t : Decision (js_le s t).
Proof. unfold js_le. apply _. Defined.

Definition accumulator_finish (limits : ChangeLogCodecLimits) (document : jsobject)
    (a : accumulator) : result ChangeLogScanResult :=
  header ← normalizeChangeLogHeader document (c_total (primitiveCounts a)) limits;
  Ok (mkScan header (c_total (primitiveCounts a)) (primitiveCounts a) (transformDescriptors a)
    (merge_sort js_le (requiredPluginIds a))).

(** ** Documents *)

Section Document.
Context `{JsonRuntime}.

(** The loop over the changes; a signal that aborts stops it at the entry it
    has reached, [aborted] saying whether it has by then. *)
Fixpoint document_loop (limits : ChangeLogCodecLimits) (aborted : nat -> bool) (index : nat)
    (l : list jsval) (a : accumulator) : result (list NormalizedChangeLogEntry * accumulator) :=
  match l with
  | [] => Ok ([], a)
  | v :: l =>
      _ ← throwIfChangeLogCancelled (aborted (S index));
      entry ← normalizeChangeLogEntry v limits;
      a ← accumulator_accept limits entry (Z.of_nat index) a;
      '(entries, a) ← document_loop limits aborted (S index) l a;
      Ok (entry :: entries, a)
  end.

(** The prepared log: the scan result and the entries it iterates over. *)
Definition normalizeChangeLogDocument (value : jsval) (overrides : limit_name -> option number)
    (aborted : nat -> bool) : result (ChangeLogScanResult * list NormalizedChangeLogEntry) :=
  _ ← throwIfChangeLogCancelled (aborted O);
  limits ← resolveChangeLogCodecLimits overrides;
  _ ← validateChangeLogJsonValue limits 0 value;
  match as_record value with
  | None => Throw (codec_error "CHANGE_LOG_INVALID_DOCUMENT")
  | Some o =>
      match as_array (get (js "changes") o) with
      | None => Throw (codec_error "CHANGE_LOG_INVALID_DOCUMENT")
      | Some changes =>
          '(entries, a) ← document_loop limits aborted O changes new_accumulator;
          scan ← accumulator_finish limits o a;
          Ok (scan, entries)
      end
  end.

(** An entry given by the caller: typed, its integers numbers, strings or
    bigints. *)
Inductive ChangeLogInt64 := I64Number (n : number) | I64String (s : jsstring) | I64BigInt (z : Z).

Definition int64_value (v : ChangeLogInt64) : jsval :=
  match v with I64Number n => JNumber n | I64String s => JString s | I64BigInt z => JBigInt z end.

Record ChangeLogEntry := mkLogEntry {
  l_serial : option ChangeLogInt64;
  l_kind : ChangeLogEntryKind;
  l_offset : ChangeLogInt64;
  l_length : ChangeLogInt64;
  l_data : jsstring;
  l_groupId : option jsstring
}.

Definition serializeChangeLogEntry (entry : ChangeLogEntry) : result ChangeLogEntry :=
  offset ← changeLogInt64ToDecimal (int64_value (l_offset entry));
  len ← changeLogInt64ToDecimal (int64_value (l_length entry));
  data ← normalizeHex (JString (l_data entry));
  serial ← match l_serial entry with
    | None => Ok None
    | Some v =>
        n ← parseChangeLogPositiveInt64 (int64_value v); Ok (Some (I64String (decimal_string n)))
    end;
  groupId ← match l_groupId entry with
    | None => Ok None
    | Some g =>
        _ ← require (negb (length (trim g) =? 0)%nat) (codec_error "CHANGE_LOG_INVALID_ENTRY");
        Ok (Some (trim g))
    end;
  Ok (mkLogEntry serial (l_kind entry) (I64String offset) (I64String len) data groupId).

(** The object such an entry is. *)
Definition entry_object (e : ChangeLogEntry) : jsval :=
  JObject ([(js "kind", JString (kind_name (l_kind e))); (js "offset", int64_value (l_offset e));
    (js "length", int64_value (l_length e)); (js "data", JString (l_data e))]
    ++ opt_prop "serial" (int64_value <$> l_serial e) ++ opt_prop "groupId" (JString <$> l_groupId e)).

(** [header] has the properties of a document but [changes]. *)
Definition createChangeLogDocument (header : jsobject) (changes : list ChangeLogEntry)
  : result jsobject :=
  serialized ← result_map serializeChangeLogEntry changes;
  let document := header ++ [(js "changes", JArray (map entry_object serialized))] in
  _ ← normalizeChangeLogDocument (JObject document) (fun _ => None) (fun _ => false);
  Ok document.
End Document.

(** ** Lemmas: integers and strings *)

#[global] Arguments parseChangeLogNonNegativeInt64 : simpl never.
#[global] Arguments parseChangeLogPositiveInt64 : simpl never.
#[global] Arguments normalizeHex : simpl never.
#[global] Arguments decimal_string : simpl never.

Lemma parse_int64_range v n : parseChangeLogNonNegativeInt64 v = Ok n -> 0 <= n <= MAX_INT64.
Proof.
  unfold parseChangeLogNonNegativeInt64. intros H. ok_step. ok_step; [|done].
  destruct ((a <? 0) || (MAX_INT64 <? a)) eqn:E; ok_inv. subst. bool_prop. lia.
Qed.

Lemma parse_int64_decimal n :
  0 <= n <= MAX_INT64 -> parseChangeLogNonNegativeInt64 (JString (decimal_string n)) = Ok n.
Proof.
  intros Hn. destruct (decimal_string_spec n ltac:(lia)) as [Hv Hc].
  unfold parseChangeLogNonNegativeInt64. rewrite Hc, Hv. unfold mbind, result_bind.
  destruct (Z.ltb_spec n 0); [lia|]. destruct (Z.ltb_spec MAX_INT64 n); [lia|done].
Qed.

Lemma parse_positive_inv v n :
  parseChangeLogPositiveInt64 v = Ok n -> parseChangeLogNonNegativeInt64 v = Ok n /\ 0 < n.
Proof.
  unfold parseChangeLogPositiveInt64. intros H. ok_step. ok_step; [|done].
  destruct (a =? 0) eqn:E; ok_inv. subst. apply parse_int64_range in Hr as ?.
  bool_prop. split; [done|lia].
Qed.

Lemma parse_positive_decimal n :
  0 < n <= MAX_INT64 -> parseChangeLogPositiveInt64 (JString (decimal_string n)) = Ok n.
Proof.
  intros Hn. unfold parseChangeLogPositiveInt64. rewrite parse_int64_decimal by lia.
  unfold mbind, result_bind. destruct (Z.eqb_spec n 0); [lia|done].
Qed.

Lemma is_lower_hex_digit c : is_lower_hex c = true -> is_hex_digit c = true.
Proof. unfold is_lower_hex, is_hex_digit. intros H. by rewrite H. Qed.

Lemma lower_hex c : is_hex_digit c = true -> exists d, lower_unit c = [d] /\ is_lower_hex d = true.
Proof.
  unfold is_hex_digit, is_lower_hex, lower_unit, in_range. intros H.
  destruct ((65 <=? c) && (c <=? 90)) eqn:E.
  - exists (c + 32). split; [done|]. bool_prop. rewrite !orb_true_iff, !andb_true_iff, !Z.leb_le in *. lia.
  - exists c. rewrite !orb_true_iff, !andb_true_iff, !Z.leb_le in H.
    destruct (Z.eqb_spec c 8490); [lia|]. destruct (Z.eqb_spec c 304); [lia|].
    split; [done|]. rewrite !orb_true_iff, !andb_true_iff, !Z.leb_le.
    apply andb_false_iff in E. rewrite !Z.leb_gt in E. lia.
Qed.

Lemma lower_hex_id c : is_lower_hex c = true -> lower_unit c = [c].
Proof.
  unfold is_lower_hex, lower_unit, in_range. rewrite !orb_true_iff, !andb_true_iff, !Z.leb_le.
  intros H. destruct (Z.leb_spec 65 c), (Z.leb_spec c 90); cbn [andb]; try lia;
    destruct (Z.eqb_spec c 8490), (Z.eqb_spec c 304); lia || done.
Qed.

Lemma toLowerCase_hex s :
  forallb is_hex_digit s = true ->
  length (toLowerCase s) = length s /\ forallb is_lower_hex (toLowerCase s) = true.
Proof.
  induction s as [|c s IH]; [done|]. cbn. intros H. apply andb_true_iff in H as [Hc Hs].
  destruct (lower_hex c Hc) as (d & Ed & Hd). destruct (IH Hs) as [Hl Hf].
  fold (toLowerCase s). rewrite Ed. cbn. by rewrite Hl, Hd, Hf.
Qed.

Lemma toLowerCase_id s : forallb is_lower_hex s = true -> toLowerCase s = s.
Proof.
  induction s as [|c s IH]; [done|]. cbn. intros H. apply andb_true_iff in H as [Hc Hs].
  fold (toLowerCase s). by rewrite (lower_hex_id c Hc), IH.
Qed.

Lemma normalizeHex_inv v data :
  normalizeHex v = Ok data ->
  exists s, v = JString s /\ length data = length s /\ Nat.even (length data) = true /\
    forallb is_lower_hex data = true.
Proof.
  unfold normalizeHex. destruct v as [| | | | |s| |]; try done.
  destruct (Nat.even (length s) && forallb is_hex_digit s) eqn:E; [|done].
  apply andb_true_iff in E as [He Hh]. intros H. ok_inv. subst.
  destruct (toLowerCase_hex s Hh) as [Hl Hf]. exists s. by rewrite Hl.
Qed.

Lemma normalizeHex_id data :
  Nat.even (length data) = true -> forallb is_lower_hex data = true ->
  normalizeHex (JString data) = Ok data.
Proof.
  intros He Hf. unfold normalizeHex. rewrite He.
  assert (Hd : forallb is_hex_digit data = true).
  { rewrite forallb_forall in *. intros c Hc. by apply is_lower_hex_digit, Hf. }
  by rewrite Hd, toLowerCase_id.
Qed.

(** *** trim *)

Lemma drop_spaces_id s : (forall c, head s = Some c -> is_js_space c = false) -> drop_spaces s = s.
Proof. destruct s as [|c s]; [done|]. cbn. intros H. by rewrite (H c eq_refl). Qed.

Lemma trim_idem s : trim (trim s) = trim s.
Proof.
  unfold trim. set (t := drop_spaces s).
  destruct (drop_spaces_suffix (rev t)) as [p Hp].
  set (u := drop_spaces (rev t)) in *.
  assert (Ht : t = rev u ++ rev p) by (rewrite <- rev_app_distr, <- Hp; by rewrite rev_involutive).
  rewrite (drop_spaces_id (rev u)).
  - rewrite rev_involutive, (drop_spaces_id u); [done|].
    intros c Hc. by apply (drop_spaces_head (rev t)).
  - intros c Hc. apply (drop_spaces_head s). fold t. rewrite Ht. by destruct (rev u).
Qed.

Lemma trim_id s : (forall c, In c s -> is_js_space c = false) -> trim s = s.
Proof.
  intros Hs. unfold trim.
  assert (Hid : forall t, (forall c, In c t -> is_js_space c = false) -> drop_spaces t = t).
  { intros t Ht. apply drop_spaces_id. intros c Hc. apply Ht. destruct t; [done|].
    injection Hc as ->. by left. }
  rewrite (Hid s Hs), Hid, rev_involutive; [done|]. intros c Hc. by apply Hs, in_rev.
Qed.

(** ** What a normalised entry is *)

Record normal_entry (limits : ChangeLogCodecLimits) (e : NormalizedChangeLogEntry) : Prop := {
  ne_offset : exists n, n_offset e = decimal_string n /\ 0 <= n <= MAX_INT64;
  ne_length : exists n, n_length e = decimal_string n /\ 0 <= n <= MAX_INT64 /\
    (n_kind e = KDELETE -> n = slen (n_data e) / 2);
  ne_data : Nat.even (length (n_data e)) = true /\ forallb is_lower_hex (n_data e) = true;
  ne_needs_data : needs_data (n_kind e) = true -> n_data e <> [];
  ne_serial s : n_serial e = Some s -> exists n, s = decimal_string n /\ 0 < n <= MAX_INT64;
  ne_group g : n_groupId e = Some g ->
    g <> [] /\ trim g = g /\ slen g <= limits maxGroupIdChars;
  ne_transform : is_Some (n_transformDescriptor e) <-> n_kind e = KTRANSFORM
}.

Section Entries.
Context `{JsonRuntime} (limits : ChangeLogCodecLimits).

Lemma normalize_serial_inv v r :
  normalize_serial v = Ok r ->
  (v = JUndefined /\ r = None) \/
  exists n, parseChangeLogPositiveInt64 v = Ok n /\ r = Some (decimal_string n) /\ 0 < n <= MAX_INT64.
Proof.
  unfold normalize_serial. intros Hs. destruct (is_undefined v) eqn:E.
  - ok_inv. left. by destruct v.
  - ok_inv. subst. right. exists a. pose proof (parse_positive_inv _ _ Hr) as [Hp ?].
    apply parse_int64_range in Hp as ?. split; [done|]. split; [done|lia].
Qed.

Lemma normalize_group_inv v r :
  normalize_group limits v = Ok r ->
  (v = JUndefined /\ r = None) \/
  exists g, v = JString g /\ r = Some (trim g) /\ trim g <> [] /\
    slen (trim g) <= limits maxGroupIdChars.
Proof.
  unfold normalize_group. intros Hs. destruct (is_undefined v) eqn:E.
  - ok_inv. left. by destruct v.
  - right. destruct v as [| | | | |g| |]; try done. cbn in Hs. exists g.
    destruct (length (trim g) =? 0)%nat eqn:E1; [done|].
    destruct (limits maxGroupIdChars <? slen (trim g)) eqn:E2; [done|]. ok_inv. subst.
    bool_prop. split; [done|]. split; [done|]. split; [|lia].
    intros Hn. by rewrite Hn in E1.
Qed.

(** The steps of a successful normalisation. *)
Lemma normalize_entry_inv v e :
  normalizeChangeLogEntry v limits = Ok e ->
  exists o offset len, v = JObject o /\
    validateChangeLogJsonValue limits 0 v = Ok tt /\
    kind_of (get (js "kind") o) = Some (n_kind e) /\
    parseChangeLogNonNegativeInt64 (get (js "offset") o) = Ok offset /\
    parseChangeLogNonNegativeInt64 (get (js "length") o) = Ok len /\
    n_offset e = decimal_string offset /\ n_length e = decimal_string len /\
    normalizeHex (get (js "data") o) = Ok (n_data e) /\
    (needs_data (n_kind e) = true -> slen (n_data e) / 2 <> 0) /\
    (n_kind e = KDELETE -> slen (n_data e) / 2 = len) /\
    normalize_serial (get (js "serial") o) = Ok (n_serial e) /\
    normalize_group limits (get (js "groupId") o) = Ok (n_groupId e) /\
    match n_kind e with
    | KTRANSFORM => exists d, n_transformDescriptor e = Some d /\
        parseTransformDescriptor (n_data e) limits = Ok d
    | _ => n_transformDescriptor e = None
    end.
Proof.
  unfold normalizeChangeLogEntry. intros Hn.
  destruct (validateChangeLogJsonValue limits 0 v) as [[]|] eqn:Ev; [|done].
  unfold mbind, result_bind in Hn. destruct (as_record v) as [o|] eqn:Eo; [|done].
  assert (v = JObject o) as -> by (destruct v; cbn in Eo; congruence).
  destruct (kind_of (get (js "kind") o)) as [k|] eqn:Ek; [|done].
  destruct (parseChangeLogNonNegativeInt64 (get (js "offset") o)) as [offset|] eqn:E1; [|done].
  destruct (parseChangeLogNonNegativeInt64 (get (js "length") o)) as [len|] eqn:E2; [|done].
  destruct (normalizeHex (get (js "data") o)) as [data|] eqn:E3; [|done].
  unfold require at 1 in Hn. destruct (needs_data k && _) eqn:E4; [done|]. cbn [negb] in Hn.
  unfold require at 1 in Hn. destruct (bool_decide (k = KDELETE) && _) eqn:E5; [done|].
  cbn [negb] in Hn.
  destruct (normalize_serial (get (js "serial") o)) as [serial|] eqn:E6; [|done].
  destruct (normalize_group limits (get (js "groupId") o)) as [group|] eqn:E7; [|done].
  exists o, offset, len.
  assert (H4 : needs_data k = true -> slen data / 2 <> 0)
    by (intros Hk; rewrite Hk in E4; cbn [andb] in E4; by bool_prop).
  assert (H5 : k = KDELETE -> slen data / 2 = len)
    by (intros Hk; rewrite bool_decide_true in E5 by done; cbn [andb] in E5; by bool_prop).
  destruct (bool_decide (k = KTRANSFORM)) eqn:E8.
  - bool_prop. subst k. unfold require in Hn.
    destruct (existsb (fun f => has_own (js f) o) legacy_fields); cbn [negb] in Hn;
      cbv iota beta in Hn; [discriminate Hn|].
    destruct (parseTransformDescriptor data limits) as [d|] eqn:E9; [|done].
    apply Ok_inj in Hn as <-. cbn [n_kind n_offset n_length n_data n_serial n_groupId
      n_transformDescriptor]. eauto 20.
  - apply Ok_inj in Hn as <-. cbn [n_kind n_offset n_length n_data n_serial n_groupId
      n_transformDescriptor]. split_and!; try done. bool_prop. by destruct k.
Qed.
End Entries.

Lemma normalize_entry_normal `{JsonRuntime} limits v e :
  normalizeChangeLogEntry v limits = Ok e -> normal_entry limits e.
Proof.
  intros Hn. apply normalize_entry_inv in Hn as (o & off & len & -> & _ & _ & Ho & Hl & Eo & El &
    Hd & Hneed & Hdel & Hs & Hg & Ht).
  apply parse_int64_range in Ho, Hl. apply normalizeHex_inv in Hd as (s & _ & _ & He & Hf).
  constructor.
  - eauto.
  - exists len. split_and!; try done; [lia..|]. intros Hk. by rewrite Hdel.
  - done.
  - intros Hk Hnil. apply (Hneed Hk). by rewrite Hnil.
  - intros x Hx. rewrite Hx in Hs. apply normalize_serial_inv in Hs as [[_ ?]|(n & _ & E & ?)]; [done|].
    injection E as ->. eauto.
  - intros g Hx. rewrite Hx in Hg.
    apply normalize_group_inv in Hg as [[_ ?]|(g0 & _ & E & Hne & Hlen)]; [done|].
    injection E as ->. by rewrite trim_idem.
  - destruct (n_kind e); try (rewrite Ht; split; [by intros [? ?]|done]).
    destruct Ht as (d & -> & _). split; [done|eauto].
Qed.

(** ** Validation of nested values *)

Fixpoint validate_props (limits : ChangeLogCodecLimits) (depth : Z) (o : jsobject) : result unit :=
  match o with
  | [] => Ok tt
  | (k, v) :: o =>
      _ ← assertValidUnicodeString k;
      _ ← validateChangeLogJsonValue limits depth v;
      validate_props limits depth o
  end.

Lemma validate_object_props limits depth o :
  validateChangeLogJsonValue limits depth (JObject o) =
  if limits maxNesting <? depth then Throw (codec_error "CHANGE_LOG_NESTING_LIMIT")
  else validate_props limits (depth + 1) o.
Proof.
  cbn. destruct (limits maxNesting <? depth); [done|].
  induction o as [|[k v] o IH]; [done|]. cbn. by rewrite IH.
Qed.

Lemma validate_string limits depth s :
  validateChangeLogJsonValue limits depth (JString s) = Ok tt <->
  depth <= limits maxNesting /\ slen s <= limits maxStringChars /\
  assertValidUnicodeString s = Ok tt.
Proof.
  cbn. destruct (Z.ltb_spec (limits maxNesting) depth); [split; [done|lia]|].
  destruct (Z.ltb_spec (limits maxStringChars) (slen s)); [split; [done|lia]|].
  split; [done|]. by intros (_ & _ & ?).
Qed.

#[global] Arguments validateChangeLogJsonValue : simpl never.

Lemma validate_object limits o :
  validateChangeLogJsonValue limits 0 (JObject o) = Ok tt ->
  forall k s, get k o = JString s ->
  slen s <= limits maxStringChars /\ assertValidUnicodeString s = Ok tt.
Proof.
  rewrite validate_object_props. destruct (limits maxNesting <? 0); [done|].
  induction o as [|[k' v] o IH]; [done|]. cbn [validate_props get]. intros Hv k s Hg. ok_inv.
  destruct (bool_decide (k' = k)); [|by apply (IH Hv k)]. subst v. destruct a0.
  by apply validate_string in Hr0 as (_ & ? & ?).
Qed.

Lemma validate_object_intro limits o :
  1 <= limits maxNesting ->
  Forall (fun p => assertValidUnicodeString p.1 = Ok tt /\
    exists s, p.2 = JString s /\ slen s <= limits maxStringChars /\
      assertValidUnicodeString s = Ok tt) o ->
  validateChangeLogJsonValue limits 0 (JObject o) = Ok tt.
Proof.
  intros Hn Hf. rewrite validate_object_props.
  destruct (Z.ltb_spec (limits maxNesting) 0); [lia|].
  induction Hf as [|[k v] o [Hk (s & Hv & Hl & Hs)] _ IH]; [done|].
  cbn [fst snd validate_props] in *. subst v. rewrite Hk. unfold mbind, result_bind.
  by rewrite (proj2 (validate_string limits _ s)).
Qed.

Definition plain_unit (c : Z) : bool := negb (high_surrogate c) && negb (low_surrogate c).

Lemma valid_plain_cons c s :
  plain_unit c = true -> assertValidUnicodeString (c :: s) = assertValidUnicodeString s.
Proof.
  unfold plain_unit. intros Hp. apply andb_true_iff in Hp as [H1 H2].
  apply negb_true_iff in H1, H2. cbn. by rewrite H1, H2.
Qed.

Lemma valid_plain s : forallb plain_unit s = true -> assertValidUnicodeString s = Ok tt.
Proof.
  induction s as [|c s IH]; [done|]. cbn [forallb]. intros Hp. apply andb_true_iff in Hp as [Hc Hs].
  rewrite valid_plain_cons by done. auto.
Qed.

Lemma valid_plain_snoc s c :
  plain_unit c = true -> assertValidUnicodeString (s ++ [c]) = Ok tt ->
  assertValidUnicodeString s = Ok tt.
Proof.
  intros Hc. revert s. fix IH 1. intros [|a s] Hv; [done|]. cbn in Hv |- *.
  destruct (high_surrogate a).
  - destruct s as [|b s]; cbn in Hv.
    + unfold plain_unit in Hc. apply andb_true_iff in Hc as [_ Hc]. apply negb_true_iff in Hc.
      by rewrite Hc in Hv.
    + destruct (low_surrogate b); [|done]. by apply IH.
  - destruct (low_surrogate a); [done|]. by apply IH.
Qed.

Lemma space_plain c : is_js_space c = true -> plain_unit c = true.
Proof.
  unfold is_js_space, plain_unit, high_surrogate, low_surrogate. intros H.
  rewrite !orb_true_iff, !andb_true_iff, !Z.leb_le, !Z.eqb_eq in H.
  destruct (Z.leb_spec 55296 c), (Z.leb_spec c 56319), (Z.leb_spec 56320 c), (Z.leb_spec c 57343);
    cbn; lia || done.
Qed.

Lemma valid_drop_spaces s :
  assertValidUnicodeString s = Ok tt -> assertValidUnicodeString (drop_spaces s) = Ok tt.
Proof.
  induction s as [|c s IH]; [done|]. cbn [drop_spaces]. destruct (is_js_space c) eqn:E; [|done].
  rewrite valid_plain_cons by (by apply space_plain). auto.
Qed.

Lemma valid_rev_drop s :
  assertValidUnicodeString (rev s) = Ok tt -> assertValidUnicodeString (rev (drop_spaces s)) = Ok tt.
Proof.
  induction s as [|c s IH]; [done|]. cbn [drop_spaces]. destruct (is_js_space c) eqn:E; [|done].
  cbn [rev]. intros Hv. apply IH. by apply (valid_plain_snoc _ c); [apply space_plain|].
Qed.

Lemma valid_trim s : assertValidUnicodeString s = Ok tt -> assertValidUnicodeString (trim s) = Ok tt.
Proof. intros Hv. unfold trim. apply valid_rev_drop. rewrite rev_involutive. by apply valid_drop_spaces. Qed.

Lemma trim_length s : (length (trim s) <= length s)%nat.
Proof.
  unfold trim. rewrite length_rev.
  assert (H : forall t, (length (drop_spaces t) <= length t)%nat).
  { induction t as [|c t IH]; [done|]. cbn. destruct (is_js_space c); cbn; lia. }
  etrans; [apply H|]. rewrite length_rev. apply H.
Qed.

(** *** Decimals of an int64 *)

Lemma decimal_value_lower s : canonical_decimal s = true -> (1 < length s)%nat ->
  10 ^ (Z.of_nat (length s) - 1) <= decimal_value s.
Proof.
  intros Hc Hl. destruct s as [|c t]; [done|]. cbn in Hc.
  apply orb_true_iff in Hc as [Hc|Hc]; apply andb_true_iff in Hc as [Hc Ht].
  { apply Nat.eqb_eq in Ht. cbn in Hl. lia. }
  unfold in_range in Hc. bool_prop. unfold decimal_value. cbn [foldl length].
  replace (Z.of_nat (S (length t)) - 1) with (Z.of_nat (length t)) by lia.
  assert (Hgen : forall m, 1 <= m -> 10 ^ Z.of_nat (length t) * m
    <= foldl (fun n c => 10 * n + (c - 48)) m t).
  { clear -Ht. induction t as [|d t IH]; intros m Hm; [cbn; lia|].
    cbn in Ht. apply andb_true_iff in Ht as [Hd Ht]. unfold is_digit, in_range in Hd. bool_prop.
    cbn [foldl length]. rewrite Nat2Z.inj_succ, Z.pow_succ_r by lia.
    specialize (IH Ht (10 * m + (d - 48)) ltac:(lia)).
    assert (0 <= 10 ^ Z.of_nat (length t)) by (apply Z.pow_nonneg; lia). nia. }
  specialize (Hgen (10 * 0 + (c - 48)) ltac:(lia)).
  assert (0 <= 10 ^ Z.of_nat (length t)) by (apply Z.pow_nonneg; lia). nia.
Qed.

Lemma decimal_string_length n : 0 <= n <= MAX_INT64 -> (length (decimal_string n) <= 19)%nat.
Proof.
  intros Hn. destruct (decimal_string_spec n ltac:(lia)) as [Hv Hc].
  destruct (Nat.le_gt_cases (length (decimal_string n)) 19) as [|Hgt]; [done|exfalso].
  pose proof (decimal_value_lower _ Hc ltac:(lia)) as Hlow. rewrite Hv in Hlow.
  assert (10 ^ 19 <= 10 ^ (Z.of_nat (length (decimal_string n)) - 1))
    by (apply Z.pow_le_mono_r; lia).
  unfold MAX_INT64 in Hn. lia.
Qed.

Lemma canonical_plain s : canonical_decimal s = true -> forallb plain_unit s = true.
Proof.
  assert (Hd : forall c, is_digit c = true -> plain_unit c = true).
  { unfold is_digit, in_range, plain_unit, high_surrogate, low_surrogate. intros c Hc. bool_prop.
    destruct (Z.leb_spec 55296 c), (Z.leb_spec 56320 c); cbn; lia || done. }
  destruct s as [|c t]; [done|]. cbn [canonical_decimal forallb]. intros H.
  apply orb_true_iff in H as [H|H]; apply andb_true_iff in H as [Hc Ht].
  - apply Z.eqb_eq in Hc as ->. by apply Nat.eqb_eq, nil_length_inv in Ht as ->.
  - apply andb_true_iff. split.
    + apply Hd. unfold is_digit, in_range in *. bool_prop. rewrite !(proj2 (Z.leb_le _ _)) by lia. done.
    + rewrite forallb_forall in *. auto.
Qed.

(** ** Writing and reading back *)

Definition to_log_entry (n : NormalizedChangeLogEntry) : ChangeLogEntry :=
  mkLogEntry (I64String <$> n_serial n) (n_kind n) (I64String (n_offset n))
    (I64String (n_length n)) (n_data n) (n_groupId n).

Lemma kind_of_name k : kind_of (JString (kind_name k)) = Some k.
Proof. by destruct k. Qed.

(** The properties of an entry object, as the reader looks them up. *)
Lemma entry_object_get e :
  exists o, entry_object e = JObject o /\
    get (js "kind") o = JString (kind_name (l_kind e)) /\
    get (js "offset") o = int64_value (l_offset e) /\
    get (js "length") o = int64_value (l_length e) /\
    get (js "data") o = JString (l_data e) /\
    get (js "serial") o = from_option int64_value JUndefined (l_serial e) /\
    get (js "groupId") o = from_option JString JUndefined (l_groupId e) /\
    existsb (fun f => has_own (js f) o) legacy_fields = false.
Proof.
  unfold entry_object. eexists. split; [reflexivity|].
  destruct (l_serial e), (l_groupId e); vm_compute; repeat split; reflexivity.
Qed.

Lemma int64_decimal_ok limits n :
  19 <= limits maxStringChars -> 0 <= n <= MAX_INT64 ->
  slen (decimal_string n) <= limits maxStringChars /\
  assertValidUnicodeString (decimal_string n) = Ok tt.
Proof.
  intros Hl Hn. pose proof (decimal_string_length n Hn). split; [unfold slen; lia|].
  apply valid_plain, canonical_plain, decimal_string_spec. lia.
Qed.

Lemma lower_hex_plain s : forallb is_lower_hex s = true -> forallb plain_unit s = true.
Proof.
  rewrite !forallb_forall. intros Hf c Hc. specialize (Hf c Hc).
  unfold is_lower_hex, in_range, plain_unit, high_surrogate, low_surrogate in *.
  rewrite !orb_true_iff, !andb_true_iff, !Z.leb_le in Hf.
  destruct (Z.leb_spec 55296 c), (Z.leb_spec 56320 c); cbn; lia || done.
Qed.

(** The object of a normalised entry passes the check of nested values. *)
Lemma normalized_object_valid `{JsonRuntime} limits v n :
  1 <= limits maxNesting -> 19 <= limits maxStringChars ->
  normalizeChangeLogEntry v limits = Ok n ->
  validateChangeLogJsonValue limits 0 (entry_object (to_log_entry n)) = Ok tt.
Proof.
  intros Hn Hl Hv. pose proof (normalize_entry_normal limits v n Hv) as Hnorm.
  apply normalize_entry_inv in Hv as (o & off & len & -> & Hval & Hk & _ & _ & _ & _ & Hd & _ & _ &
    _ & Hg & _).
  destruct Hnorm as [(a & Ea & Ha) (b & Eb & Hb & _) [He Hf] _ Hs Hgr _].
  apply validate_object_intro; [done|]. cbn [to_log_entry l_kind l_offset l_length l_data l_serial
    l_groupId int64_value]. rewrite Ea, Eb.
  apply Forall_app. split; [|apply Forall_app; split].
  - repeat (apply Forall_cons; split); [..|by apply Forall_nil]; cbn [fst snd];
      (split; [vm_compute; reflexivity|]); eexists; (split; [reflexivity|]).
    + split; [destruct (n_kind n); unfold slen; cbn; lia|by destruct (n_kind n)].
    + by apply int64_decimal_ok.
    + by apply int64_decimal_ok.
    + apply normalizeHex_inv in Hd as (s & Es & Hlen & _).
      destruct (validate_object limits o Hval _ _ Es) as [Hsl _]. unfold slen in *.
      split; [lia|]. by apply valid_plain, lower_hex_plain.
  - destruct (n_serial n) as [x|] eqn:E; [|constructor]. cbn.
    destruct (Hs x eq_refl) as (k & -> & Hk'). constructor; [|constructor].
    split; [vm_compute; reflexivity|]. eexists. split; [reflexivity|].
    apply int64_decimal_ok; [done|lia].
  - destruct (n_groupId n) as [g|] eqn:E; [|constructor]. cbn. constructor; [|constructor].
    split; [vm_compute; reflexivity|]. eexists. split; [reflexivity|].
    apply normalize_group_inv in Hg as [[_ ?]|(g0 & Eg & [= ->] & _ & _)]; [done|].
    destruct (validate_object limits o Hval _ _ Eg) as [Hsl Hu].
    split; [pose proof (trim_length g0); unfold slen in *; lia|by apply valid_trim].
Qed.

Lemma normalize_idem `{JsonRuntime} limits v n :
  1 <= limits maxNesting -> 19 <= limits maxStringChars ->
  normalizeChangeLogEntry v limits = Ok n ->
  normalizeChangeLogEntry (entry_object (to_log_entry n)) limits = Ok n.
Proof.
  intros Hn Hl Hv. pose proof (normalized_object_valid limits v n Hn Hl Hv) as Hval.
  pose proof (normalize_entry_normal limits v n Hv) as Hnorm.
  apply normalize_entry_inv in Hv as (o & off & len & _ & _ & _ & Ho & Hle & Eo & El & _ &
    Hneed & Hdel & _ & _ & Ht).
  destruct Hnorm as [_ _ [He Hf] _ Hs Hg _]. apply parse_int64_range in Ho, Hle.
  destruct (entry_object_get (to_log_entry n)) as (p & Ep & G1 & G2 & G3 & G4 & G5 & G6 & G7).
  rewrite Ep in *.
  unfold normalizeChangeLogEntry. rewrite Hval. unfold mbind, result_bind. cbn [as_record].
  rewrite G1, kind_of_name, G2, G3, G4, G5, G6.
  cbn [to_log_entry l_kind l_offset l_length l_data l_serial l_groupId int64_value].
  rewrite Eo, El, !parse_int64_decimal, normalizeHex_id by done. unfold require.
  assert (Hneed' : needs_data (n_kind n) && (slen (n_data n) / 2 =? 0) = false).
  { destruct (needs_data (n_kind n)) eqn:E; [|done]. cbn. apply Z.eqb_neq. by apply Hneed. }
  assert (Hdel' : bool_decide (n_kind n = KDELETE) && negb (slen (n_data n) / 2 =? len) = false).
  { case_bool_decide as E; [|done]. cbn. apply negb_false_iff, Z.eqb_eq. by apply Hdel. }
  rewrite Hneed', Hdel'. cbn [negb].
  assert (Hser : normalize_serial (from_option int64_value JUndefined (I64String <$> n_serial n))
    = Ok (n_serial n)).
  { destruct (n_serial n) as [x|]; [|done]. destruct (Hs x eq_refl) as (k & -> & Hk).
    unfold normalize_serial. cbn. by rewrite parse_positive_decimal. }
  assert (Hgrp : normalize_group limits (from_option JString JUndefined (n_groupId n))
    = Ok (n_groupId n)).
  { destruct (n_groupId n) as [g|]; [|done]. destruct (Hg g eq_refl) as (Hne & Htr & Hlen).
    unfold normalize_group. cbn. rewrite Htr. destruct (Nat.eqb_spec (length g) 0) as [E|_].
    - by apply nil_length_inv in E.
    - by destruct (Z.ltb_spec (limits maxGroupIdChars) (slen g)); [lia|]. }
  rewrite Hser, Hgrp. destruct (bool_decide (n_kind n = KTRANSFORM)) eqn:E; bool_prop.
  - rewrite G7. cbn [negb]. rewrite E in Ht. destruct Ht as (d & Ed & ->). rewrite <- Eo, <- El, <- Ed.
    by destruct n.
  - rewrite <- Eo, <- El. destruct n as [? k ? ? ? ? ?]; cbn in *. by destruct k; subst.
Qed.

Lemma serialize_normalized `{JsonRuntime} limits e n :
  normalizeChangeLogEntry (entry_object e) limits = Ok n ->
  serializeChangeLogEntry e = Ok (to_log_entry n).
Proof.
  intros Hn. destruct (entry_object_get e) as (p & Ep & G1 & G2 & G3 & G4 & G5 & G6 & _).
  rewrite Ep in Hn.
  apply normalize_entry_inv in Hn as (o & off & len & [= <-] & _ & Hk & Ho & Hl & Eo & El & Hd & _ &
    _ & Hs & Hg & _).
  rewrite G1, kind_of_name in Hk. injection Hk as Hk. rewrite G2 in Ho. rewrite G3 in Hl.
  rewrite G4 in Hd. rewrite G5 in Hs. rewrite G6 in Hg.
  unfold serializeChangeLogEntry, changeLogInt64ToDecimal, mbind, result_bind.
  rewrite Ho, Hl, Hd.
  assert (Hser : match l_serial e with
    | None => Ok None
    | Some v => match parseChangeLogPositiveInt64 (int64_value v) with
        | Ok n => Ok (Some (I64String (decimal_string n))) | Throw e => Throw e end
    end = Ok (I64String <$> n_serial n)).
  { destruct (l_serial e) as [v|]; cbn [from_option] in Hs.
    - apply normalize_serial_inv in Hs as [[E _]|(k & -> & -> & _)]; [by destruct v|done].
    - unfold normalize_serial in Hs. cbn in Hs. apply Ok_inj in Hs as <-. done. }
  rewrite Hser. unfold to_log_entry. rewrite Eo, El, <- Hk.
  destruct (l_groupId e) as [g|]; cbn [from_option] in Hg.
  - apply normalize_group_inv in Hg as [[E _]|(g' & [= <-] & -> & Hne & _)]; [done|].
    unfold require. destruct (Nat.eqb_spec (length (trim g)) 0) as [E|_]; [|done].
    by apply nil_length_inv in E.
  - unfold normalize_group in Hg. cbn in Hg. by apply Ok_inj in Hg as <-.
Qed.

(** ** Theorems on integers and entries *)

(** The int64 reader accepts only values from 0 to 2^63 - 1, and the
    decimal text it is written back as is canonical: it is read as the same
    integer again, and writing that gives the same text. *)
Theorem int64_decimal_roundtrip v n :
  parseChangeLogNonNegativeInt64 v = Ok n ->
  0 <= n <= MAX_INT64 /\
  exists s, changeLogInt64ToDecimal v = Ok s /\ canonical_decimal s = true /\
    parseChangeLogNonNegativeInt64 (JString s) = Ok n /\
    changeLogInt64ToDecimal (JString s) = Ok s.
Proof.
  intros Hv. pose proof (parse_int64_range v n Hv) as Hn. split; [done|].
  exists (decimal_string n). unfold changeLogInt64ToDecimal.
  rewrite Hv, parse_int64_decimal by done. unfold mbind, result_bind.
  split; [done|]. split; [apply decimal_string_spec; lia|]. done.
Qed.

Lemma int64_decimal_roundtrip_witness :
  parseChangeLogNonNegativeInt64 (JString (js "9223372036854775807")) = Ok MAX_INT64 /\
  0 <= MAX_INT64 <= MAX_INT64.
Proof.
  split; [vm_compute; reflexivity|].
  apply (int64_decimal_roundtrip (JString (js "9223372036854775807")) MAX_INT64).
  vm_compute. reflexivity.
Defined.

(** An entry that passes normalisation is in normal form: canonical
    int64 decimals, lower-case whole-byte hexadecimal data, data present
    where its kind needs it and as long as a DELETE says, a positive serial,
    a trimmed non-empty group id within its limit, and a transform
    descriptor exactly for a TRANSFORM. *)
Theorem normalized_entry_normal `{JsonRuntime} limits v e :
  normalizeChangeLogEntry v limits = Ok e -> normal_entry limits e.
Proof. apply normalize_entry_normal. Qed.

(** A runtime that reads and writes nothing, for entries without transforms. *)
Definition no_json : JsonRuntime := {| JSON_parse := fun _ => None; JSON_stringify := fun _ => [] |}.

Definition sample_entry : ChangeLogEntry :=
  mkLogEntry (Some (I64BigInt 1)) KDELETE (I64Number (NInt 5)) (I64String (js "2")) (js "0AfF")
    (Some (js " g ")).

Definition sample_normal : NormalizedChangeLogEntry :=
  mkEntryN (Some (js "1")) KDELETE (js "5") (js "2") (js "0aff") (Some (js "g")) None.

Lemma normalized_entry_normal_witness :
  normal_entry DEFAULT_CHANGE_LOG_CODEC_LIMITS sample_normal.
Proof.
  apply (@normalized_entry_normal no_json _ (entry_object sample_entry)).
  vm_compute. reflexivity.
Defined.

(** What the writer makes of an entry is the normal form the
    reader makes of it: if reading an entry succeeds, serialising it
    succeeds, gives the normal form, and reading that gives the normal form
    again. *)
Theorem entry_roundtrip `{JsonRuntime} limits e n :
  1 <= limits maxNesting -> 19 <= limits maxStringChars ->
  normalizeChangeLogEntry (entry_object e) limits = Ok n ->
  serializeChangeLogEntry e = Ok (to_log_entry n) /\
  normalizeChangeLogEntry (entry_object (to_log_entry n)) limits = Ok n /\
  serializeChangeLogEntry (to_log_entry n) = Ok (to_log_entry n).
Proof.
  intros H1 H2 Hn. pose proof (normalize_idem limits _ n H1 H2 Hn) as Hidem.
  split; [by eapply serialize_normalized|]. split; [done|]. by eapply serialize_normalized.
Qed.

Lemma entry_roundtrip_witness :
  serializeChangeLogEntry sample_entry = Ok (to_log_entry sample_normal).
Proof.
  apply (@entry_roundtrip no_json DEFAULT_CHANGE_LOG_CODEC_LIMITS sample_entry sample_normal).
  - vm_compute. discriminate.
  - vm_compute. discriminate.
  - vm_compute. reflexivity.
Defined.
