(* ===== verification/ChangeLogDocument.v ===== *)
(** * Change-log documents as a whole ([packages/client/src/changeLog/codec.ts])

    What it means that a sequence of entries and a document were accepted:
    the two rules on sequences are stated without the validator's state and
    shown to be exactly what it enforces, and an accepted document is shown
    to be consistent from its header down to its entries. *)

From stdpp Require Import sorting.
From S2P Require Import Prelude JsText JsValue ChangeLogCodec.

(** ** The rules on a sequence of entries *)

(** All entries carry their position as serial, or none has one. *)
Definition serial_at (mode : bool) (i : nat) (e : NormalizedChangeLogEntry) : Prop :=
  if mode then exists s, n_serial e = Some s /\ decimal_value s = Z.of_nat i + 1
  else n_serial e = None.

Definition serials_ok (es : list NormalizedChangeLogEntry) : Prop :=
  exists mode, forall i e, es !! i = Some e -> serial_at mode i e.

Definition group_of (e : NormalizedChangeLogEntry) : option jsstring := truthy (n_groupId e).

(** The entries of a group are next to each other. *)
Definition groups_ok (es : list NormalizedChangeLogEntry) : Prop :=
  forall i j k ei ej ek g, (i < j < k)%nat ->
    es !! i = Some ei -> es !! j = Some ej -> es !! k = Some ek ->
    group_of ei = Some g -> group_of ek = Some g -> group_of ej = Some g.

Fixpoint accept_all (limits : ChangeLogCodecLimits) (i : nat) (es : list NormalizedChangeLogEntry)
    (s : sequence) : result sequence :=
  match es with
  | [] => Ok s
  | e :: es => s ← sequence_accept limits e (Z.of_nat i) s; accept_all limits (S i) es s
  end.

(** ** The validator's state after a prefix *)

Record seq_inv (p : list NormalizedChangeLogEntry) (s : sequence) : Prop := mkSeqInv {
  si_serials : match serialMode s with
    | None => p = []
    | Some mode => p <> [] /\ forall i e, p !! i = Some e -> serial_at mode i e
    end;
  si_active : activeGroup s = last p ≫= group_of;
  si_closed g : g ∈ closedGroups s <->
    (exists e, e ∈ p /\ group_of e = Some g) /\ activeGroup s <> Some g;
  si_size : (length (closedGroups s) + (if activeGroup s is Some _ then 1 else 0) <= length p)%nat;
  si_groups : groups_ok p
}.

Lemma truthy_idem s : truthy (truthy s) = truthy s.
Proof. by destruct s as [[|]|]. Qed.

Lemma group_truthy e : truthy (group_of e) = group_of e.
Proof. apply truthy_idem. Qed.

Lemma active_truthy p s : seq_inv p s -> truthy (activeGroup s) = activeGroup s.
Proof.
  intros Hi. rewrite (si_active p s Hi). destruct (last p); [apply group_truthy|done].
Qed.

Lemma snoc_lookup {A} (p : list A) x i y :
  (p ++ [x]) !! i = Some y <-> p !! i = Some y \/ (i = length p /\ y = x).
Proof.
  rewrite lookup_snoc_Some. split.
  - intros [[_ ?]|[? ?]]; [by left|by right].
  - intros [E|[-> ->]]; [left; split; [by apply lookup_lt_Some in E|done]|by right].
Qed.

(** *** Serials *)

Lemma serial_snoc p s e :
  seq_inv p s ->
  (forall s', accept_serial e (Z.of_nat (length p)) s = Ok s' ->
     serials_ok (p ++ [e]) /\ activeGroup s' = activeGroup s /\ closedGroups s' = closedGroups s /\
     exists mode, serialMode s' = Some mode /\
       forall i x, (p ++ [e]) !! i = Some x -> serial_at mode i x) /\
  (serials_ok (p ++ [e]) -> exists s', accept_serial e (Z.of_nat (length p)) s = Ok s').
Proof.
  intros Hi. pose proof (si_serials p s Hi) as Hser.
  set (mode := match serialMode s with Some m => m | None => bool_decide (is_Some (n_serial e)) end).
  assert (Hp : forall i x, p !! i = Some x -> serial_at mode i x).
  { subst mode. destruct (serialMode s); [by destruct Hser|]. subst p. by intros i x ?. }
  assert (Hnew : serial_at mode (length p) e <-> bool_decide (is_Some (n_serial e)) = mode /\
    match n_serial e with Some x => decimal_value x = Z.of_nat (length p) + 1 | None => True end).
  { unfold serial_at. destruct mode, (n_serial e) as [x|]; cbn; split; try done.
    - intros (y & [= <-] & ?). done.
    - intros [_ ?]. by exists x.
    - by intros (y & ? & _).
    - by intros [? _].
    - by intros [? _]. }
  split.
  - intros s' Ha.
    assert (Hs' : serial_at mode (length p) e /\
      s' = mkSequence (Some mode) (activeGroup s) (closedGroups s)).
    { rewrite Hnew. unfold accept_serial in Ha. subst mode. destruct s as [m a c]; cbn in *.
      destruct m as [m|]; unfold require in Ha; cbn in Ha.
      - destruct (Bool.eqb m (bool_decide (is_Some (n_serial e)))) eqn:Em; cbn in Ha; [|done].
        apply eqb_prop in Em. destruct (n_serial e) as [x|].
        + destruct (decimal_value x =? Z.of_nat (length p) + 1) eqn:Ed; cbn in Ha; [|done].
          apply Ok_inj in Ha as <-. bool_prop. by rewrite Em.
        + apply Ok_inj in Ha as <-. by rewrite Em.
      - destruct (n_serial e) as [x|].
        + destruct (decimal_value x =? Z.of_nat (length p) + 1) eqn:Ed; cbn in Ha; [|done].
          apply Ok_inj in Ha as <-. by bool_prop.
        + by apply Ok_inj in Ha as <-. }
    destruct Hs' as [Hat ->]. cbn.
    assert (Hall : forall i x, (p ++ [e]) !! i = Some x -> serial_at mode i x).
    { intros i x Hx. apply snoc_lookup in Hx as [Hx|[-> ->]]; [by apply Hp|done]. }
    split; [by exists mode|]. split; [done|]. split; [done|]. by exists mode.
  - intros [m Hm].
    assert (Hat : serial_at m (length p) e) by (apply Hm, snoc_lookup; by right).
    assert (Em : bool_decide (is_Some (n_serial e)) = m).
    { unfold serial_at in Hat. destruct m; [destruct Hat as (x & -> & _)|rewrite Hat]; done. }
    assert (Hmode : mode = m).
    { subst mode. destruct (serialMode s) as [m'|]; [|done]. destruct Hser as [Hne Hser].
      destruct p as [|x p]; [done|].
      pose proof (Hm 0%nat x eq_refl) as H1. pose proof (Hser 0%nat x eq_refl) as H2.
      unfold serial_at in H1, H2. destruct m, m'; try done.
      - destruct H1 as (y & Hy & _). congruence.
      - destruct H2 as (y & Hy & _). congruence. }
    subst mode. unfold accept_serial. destruct s as [sm a c]; cbn in *.
    assert (Hd : match n_serial e with
      | Some x => require (decimal_value x =? Z.of_nat (length p) + 1)
          (codec_error "CHANGE_LOG_INVALID_SERIALS")
      | None => Ok tt end = Ok tt).
    { unfold serial_at in Hat. destruct m; [destruct Hat as (x & -> & ->)|by rewrite Hat].
      unfold require. by rewrite Z.eqb_refl. }
    destruct sm as [m'|].
    + subst m'. rewrite Em. unfold mbind, result_bind. rewrite Hd. unfold require.
      rewrite eqb_reflx. by eexists.
    + unfold mbind, result_bind. rewrite Hd. by eexists.
Qed.

(** *** Groups *)

Lemma last_lookup_group p g :
  last p ≫= group_of = Some g ->
  exists k e, p !! k = Some e /\ S k = length p /\ group_of e = Some g.
Proof.
  destruct (last p) as [e|] eqn:E; [|done]. cbn. intros Hg.
  rewrite last_lookup in E. apply lookup_lt_Some in E as Hl.
  exists (pred (length p)), e. split; [done|]. split; [lia|done].
Qed.

Lemma groups_ok_app p q : groups_ok (p ++ q) -> groups_ok p.
Proof.
  intros Hg i j k ei ej ek g Hlt Ei Ej Ek.
  apply (Hg i j k); [done|by apply lookup_app_l_Some..].
Qed.

(** A group may go on where it was, or begin. *)
Lemma groups_snoc p e :
  groups_ok (p ++ [e]) <-> groups_ok p /\
  (forall g, group_of e = Some g -> (exists x, x ∈ p /\ group_of x = Some g) ->
     last p ≫= group_of = Some g).
Proof.
  split.
  - intros Hg. split; [by eapply groups_ok_app|]. intros g He (x & Hx & Hxg).
    apply list_elem_of_lookup in Hx as [i Hi]. apply lookup_lt_Some in Hi as Hlt.
    rewrite last_lookup. destruct (p !! pred (length p)) as [y|] eqn:Ey;
      [|apply lookup_ge_None in Ey; lia]. cbn.
    destruct (decide (i = pred (length p))) as [->|Hne]; [congruence|].
    apply (Hg i (pred (length p)) (length p) x y e); [lia| | | |done|done].
    + by apply lookup_app_l_Some.
    + by apply lookup_app_l_Some.
    + apply snoc_lookup. by right.
  - intros [Hp Hnew] i j k ei ej ek g Hlt Ei Ej Ek Hgi Hgk.
    apply snoc_lookup in Ek as [Ek|[-> ->]].
    + apply lookup_lt_Some in Ek as Hk. rewrite lookup_app_l in Ei, Ej by lia. by apply (Hp i j k ei ej ek).
    + rewrite lookup_app_l in Ei, Ej by lia.
      assert (Hl : last p ≫= group_of = Some g).
      { apply Hnew; [done|]. exists ei. split; [by eapply list_elem_of_lookup_2|done]. }
      apply last_lookup_group in Hl as (m & y & Em & Hm & Hy).
      destruct (decide (j = m)) as [->|Hne]; [congruence|].
      apply (Hp i j m ei ej y); [lia|done..].
Qed.

(** Closing the active group succeeds where there is room for it. *)
Lemma close_room limits p s :
  seq_inv p s -> (length p <= Z.to_nat (limits maxGroupCount))%nat ->
  exists s', closeActiveGroup limits s = Ok s'.
Proof.
  intros Hi Hlim. unfold closeActiveGroup. rewrite (active_truthy p s Hi).
  pose proof (si_size p s Hi) as Hs. destruct (activeGroup s) as [a|]; [|by eexists].
  unfold require. destruct (Z.ltb_spec (Z.of_nat (length (closedGroups s))) (limits maxGroupCount));
    [by eexists|lia].
Qed.

Lemma close_spec limits p s s' :
  seq_inv p s -> closeActiveGroup limits s = Ok s' ->
  serialMode s' = serialMode s /\ activeGroup s' = None /\
  (forall g, g ∈ closedGroups s' <-> exists e, e ∈ p /\ group_of e = Some g) /\
  (length (closedGroups s') <= length p)%nat.
Proof.
  intros Hi Hok. unfold closeActiveGroup in Hok. rewrite (active_truthy p s Hi) in Hok.
  pose proof (si_closed p s Hi) as Hc. pose proof (si_size p s Hi) as Hs.
  destruct (activeGroup s) as [a|] eqn:Ea.
  - unfold require in Hok. destruct (_ <? _); [|done]. cbn in Hok.
    assert (Hnot : a ∉ closedGroups s) by (rewrite Hc; by intros [_ []]).
    rewrite bool_decide_false in Hok by done. apply Ok_inj in Hok as <-. cbn.
    split; [done|]. split; [done|]. split; [|lia].
    intros g. rewrite elem_of_cons, Hc.
    rewrite (si_active p s Hi) in Ea. apply last_lookup_group in Ea as (k & e & Ek & _ & He).
    apply list_elem_of_lookup_2 in Ek. split.
    + intros [->|[? _]]; [by exists e|done].
    + intros Hg. destruct (decide (g = a)) as [->|Hne]; [by left|right]. split; [done|congruence].
  - apply Ok_inj in Hok as <-. split; [done|]. split; [done|]. split; [|lia].
    intros g. rewrite Hc. split; [by intros [? _]|done].
Qed.

Lemma group_members p e g :
  (exists x, x ∈ p ++ [e] /\ group_of x = Some g) <->
  (exists x, x ∈ p /\ group_of x = Some g) \/ group_of e = Some g.
Proof.
  split.
  - intros (x & Hx & Hg). apply elem_of_app in Hx as [Hx|Hx]; [left; by exists x|right].
    by apply list_elem_of_singleton in Hx as ->.
  - intros [(x & Hx & Hg)|Hg]; [exists x|exists e]; (split; [|done]); apply elem_of_app;
      [by left|right; by apply list_elem_of_singleton].
Qed.

(** An accepted entry leaves the groups as the invariant says. *)
Lemma group_sound limits p s e s' :
  seq_inv p s -> accept_group limits e s = Ok s' ->
  groups_ok (p ++ [e]) /\ activeGroup s' = group_of e /\
  (forall g, g ∈ closedGroups s' <->
     (exists x, x ∈ p ++ [e] /\ group_of x = Some g) /\ activeGroup s' <> Some g) /\
  (length (closedGroups s') + (if activeGroup s' is Some _ then 1 else 0) <= length (p ++ [e]))%nat.
Proof.
  intros Hi Hacc. pose proof (si_closed p s Hi) as Hcl. pose proof (si_size p s Hi) as Hs.
  pose proof (groups_snoc p e) as Hgs. pose proof (group_members p e) as Hmem.
  rewrite length_app. cbn [length]. unfold accept_group in Hacc.
  change (truthy (n_groupId e)) with (group_of e) in Hacc.
  destruct (group_of e) as [g|] eqn:Eg.
  - destruct (decide (activeGroup s = Some g)) as [Eact|Eact].
    + rewrite bool_decide_true in Hacc by done. apply Ok_inj in Hacc as <-. split_and!; try done.
      * apply Hgs. split; [apply (si_groups p s Hi)|].
        intros h [= <-] _. by rewrite <- (si_active p s Hi).
      * intros h. rewrite Hcl, Hmem. split; [intros [? ?]; split; [by left|done]|].
        intros [[?|[= <-]] ?]; done.
      * lia.
    + rewrite bool_decide_false in Hacc by done. unfold require in Hacc.
      destruct (decide (g ∈ closedGroups s)) as [Hin|Hin];
        [by rewrite (bool_decide_true (g ∈ _)) in Hacc|].
      rewrite (bool_decide_false (g ∈ _)) in Hacc by done. unfold mbind, result_bind in Hacc.
      cbn [negb] in Hacc. destruct (closeActiveGroup limits s) as [sc|] eqn:Ec; [|done].
      destruct (close_spec limits p s sc Hi Ec) as (Hm & Ha & Hc & Hsz).
      apply Ok_inj in Hacc as <-. cbn.
      assert (Hnone : ~ exists x, x ∈ p /\ group_of x = Some g).
      { intros Hex. apply Hin, Hcl. done. }
      split_and!; try done.
      * apply Hgs. split; [apply (si_groups p s Hi)|]. by intros h [= <-] Hex.
      * intros h. rewrite Hc, Hmem. split.
        -- intros Hex. split; [by left|]. by intros [= ->].
        -- intros [[?|[= ->]] ?]; done.
      * lia.
  - destruct (close_spec limits p s s' Hi Hacc) as (Hm & Ha & Hc & Hsz). rewrite Ha.
    split_and!; try done.
    + apply Hgs. split; [apply (si_groups p s Hi)|]. done.
    + intros h. rewrite Hc, Hmem. split; [intros ?; split; [by left|done]|]. by intros [[?|?] ?].
    + lia.
Qed.

Lemma group_complete limits p s e :
  seq_inv p s -> (length p <= Z.to_nat (limits maxGroupCount))%nat ->
  groups_ok (p ++ [e]) -> exists s', accept_group limits e s = Ok s'.
Proof.
  intros Hi Hlim [_ Hnew]%groups_snoc. destruct (close_room limits p s Hi Hlim) as [sc Ec].
  unfold accept_group. rewrite Ec. change (truthy (n_groupId e)) with (group_of e).
  destruct (group_of e) as [g|]; [|by eexists].
  destruct (decide (activeGroup s = Some g)) as [Eact|Eact];
    [rewrite bool_decide_true by done; by eexists|].
  rewrite bool_decide_false by done. unfold require.
  destruct (decide (g ∈ closedGroups s)) as [Hin|Hin].
  - apply (si_closed p s Hi) in Hin as [Hex _]. destruct Eact.
    rewrite (si_active p s Hi). by apply Hnew.
  - rewrite (bool_decide_false (g ∈ _)) by done. by eexists.
Qed.

(** The groups are handled without looking at the serial mode. *)
Definition set_mode (m : option bool) (s : sequence) : sequence :=
  mkSequence m (activeGroup s) (closedGroups s).

Lemma close_set_mode limits m s :
  closeActiveGroup limits (set_mode m s) = set_mode m <$> closeActiveGroup limits s.
Proof.
  unfold closeActiveGroup, set_mode. cbn. destruct (truthy (activeGroup s)); [|done].
  unfold require. by destruct (_ <? _).
Qed.

Lemma accept_group_set_mode limits e m s :
  accept_group limits e (set_mode m s) = set_mode m <$> accept_group limits e s.
Proof.
  unfold accept_group. rewrite close_set_mode. cbn.
  destruct (truthy (n_groupId e)) as [g|]; [|done].
  destruct (bool_decide (activeGroup s = Some g)); [done|].
  unfold require. destruct (negb _); [|done]. unfold mbind, result_bind.
  by destruct (closeActiveGroup limits s).
Qed.

Lemma accept_split limits p s e s1 :
  seq_inv p s -> accept_serial e (Z.of_nat (length p)) s = Ok s1 ->
  accept_group limits e s1 = set_mode (serialMode s1) <$> accept_group limits e s.
Proof.
  intros Hi E. destruct (proj1 (serial_snoc p s e Hi) s1 E) as (_ & Ha & Hc & _).
  rewrite <- accept_group_set_mode. f_equal. unfold set_mode. rewrite <- Ha, <- Hc. by destruct s1.
Qed.

Lemma accept_sound limits p s e s' :
  seq_inv p s -> sequence_accept limits e (Z.of_nat (length p)) s = Ok s' ->
  seq_inv (p ++ [e]) s' /\ serials_ok (p ++ [e]).
Proof.
  intros Hi Hacc. unfold sequence_accept, mbind, result_bind in Hacc.
  destruct (accept_serial e (Z.of_nat (length p)) s) as [s1|] eqn:E; [|done].
  rewrite (accept_split limits p s e s1 Hi E) in Hacc.
  destruct (proj1 (serial_snoc p s e Hi) s1 E) as (Hser & _ & _ & mode & Hmode & Hall).
  destruct (accept_group limits e s) as [s2|] eqn:E2; [|done]. apply Ok_inj in Hacc as <-.
  destruct (group_sound limits p s e s2 Hi E2) as (Hgr & Hact & Hcl & Hsz).
  split; [|done]. constructor; cbn; try done.
  - rewrite Hmode. split; [by destruct p|done].
  - by rewrite Hact, last_snoc.
Qed.

Lemma accept_complete limits p s e :
  seq_inv p s -> (length p <= Z.to_nat (limits maxGroupCount))%nat ->
  serials_ok (p ++ [e]) -> groups_ok (p ++ [e]) ->
  exists s', sequence_accept limits e (Z.of_nat (length p)) s = Ok s'.
Proof.
  intros Hi Hlim Hser Hgr. destruct (proj2 (serial_snoc p s e Hi) Hser) as [s1 E].
  destruct (group_complete limits p s e Hi Hlim Hgr) as [s2 E2].
  unfold sequence_accept, mbind, result_bind. rewrite E, (accept_split limits p s e s1 Hi E), E2.
  by eexists.
Qed.

Lemma accept_all_sound limits es : forall p s s',
  seq_inv p s -> serials_ok p -> accept_all limits (length p) es s = Ok s' ->
  serials_ok (p ++ es) /\ groups_ok (p ++ es).
Proof.
  induction es as [|e es IH]; intros p s s' Hi Hser Hacc.
  - rewrite app_nil_r. split; [done|apply (si_groups p s Hi)].
  - cbn [accept_all] in Hacc. unfold mbind, result_bind in Hacc.
    destruct (sequence_accept limits e (Z.of_nat (length p)) s) as [s1|] eqn:E; [|done].
    destruct (accept_sound limits p s e s1 Hi E) as [Hi1 Hser1].
    replace (p ++ e :: es) with ((p ++ [e]) ++ es) by by rewrite <- app_assoc.
    apply (IH (p ++ [e]) s1 s'); [done..|]. by rewrite length_app, Nat.add_comm.
Qed.

Lemma accept_all_complete limits es : forall p s,
  seq_inv p s -> (length (p ++ es) <= Z.to_nat (limits maxGroupCount))%nat ->
  serials_ok (p ++ es) -> groups_ok (p ++ es) ->
  exists s', accept_all limits (length p) es s = Ok s'.
Proof.
  induction es as [|e es IH]; intros p s Hi Hlim Hs Hg; [by eexists|].
  assert (Hlp : (length p <= Z.to_nat (limits maxGroupCount))%nat)
    by (rewrite length_app in Hlim; lia).
  replace (p ++ e :: es) with ((p ++ [e]) ++ es) in * by by rewrite <- app_assoc.
  assert (Hs1 : serials_ok (p ++ [e])).
  { destruct Hs as [mode Hm]. exists mode. intros i x Hx. apply Hm. by apply lookup_app_l_Some. }
  destruct (accept_complete limits p s e Hi Hlp Hs1 (groups_ok_app _ _ Hg)) as [s1 E].
  destruct (accept_sound limits p s e s1 Hi E) as [Hi1 _].
  cbn [accept_all]. rewrite E. unfold mbind, result_bind.
  replace (S (length p)) with (length (p ++ [e])) by (rewrite length_app; cbn; lia).
  by apply (IH (p ++ [e]) s1).
Qed.

Lemma new_sequence_inv : seq_inv [] new_sequence.
Proof.
  constructor; cbn; try done.
  - intros g. split; [by intros ?%not_elem_of_nil|]. by intros [(e & ?%not_elem_of_nil & _) _].
Qed.

Lemma sequence_sound limits es s :
  accept_all limits 0 es new_sequence = Ok s -> serials_ok es /\ groups_ok es.
Proof.
  intros H. by apply (accept_all_sound limits es [] new_sequence s); [apply new_sequence_inv|exists true|].
Qed.

(** ** What an accepted document promises *)

(** The summary of a transform at an index. *)
Definition summary_of (i : nat) (e : NormalizedChangeLogEntry)
  : option ChangeLogTransformDescriptorSummary :=
  d ← n_transformDescriptor e;
  if bool_decide (n_kind e = KTRANSFORM)
  then Some (mkSummary (Z.of_nat i) (truthy (n_serial e)) (n_offset e) (n_length e) (transformId d)
    (truthy (optionsJson d)))
  else None.

Fixpoint summaries (i : nat) (es : list NormalizedChangeLogEntry)
  : list ChangeLogTransformDescriptorSummary :=
  match es with
  | [] => []
  | e :: es => option_list (summary_of i e) ++ summaries (S i) es
  end.

Definition kind_total (k : ChangeLogEntryKind) (c : ChangeLogPrimitiveCounts) : Z :=
  match k with
  | KINSERT => c_insert c | KDELETE => c_delete c | KOVERWRITE => c_overwrite c
  | KREPLACE => c_replace c | KTRANSFORM => c_transform c
  end.

Definition of_kind (k : ChangeLogEntryKind) (es : list NormalizedChangeLogEntry)
  : list NormalizedChangeLogEntry :=
  filter (fun e => n_kind e = k) es.

Record consistent_header (count : Z) (h : ChangeLogHeader) : Prop := mkConsistentHeader {
  ch_count : h_changeCount h = decimal_string count;
  ch_source : exists n, h_sourceChangeCount h = decimal_string n /\ count <= n <= MAX_INT64 /\
    Forall (fun s => exists k, s = decimal_string k /\ 0 < k <= n) (h_unavailableChangeSerials h);
  ch_distinct : NoDup (h_unavailableChangeSerials h);
  ch_unavailable : h_unavailableChangeCount h
    = decimal_string (Z.of_nat (length (h_unavailableChangeSerials h)));
  ch_complete : h_complete h = true <-> h_unavailableChangeSerials h = []
}.

Record consistent (limits : ChangeLogCodecLimits) (es : list NormalizedChangeLogEntry)
    (scan : ChangeLogScanResult) : Prop := mkConsistent {
  cs_entries : Forall (normal_entry limits) es;
  cs_sequence : serials_ok es /\ groups_ok es;
  cs_count : sc_entryCount scan = Z.of_nat (length es);
  cs_total : c_total (sc_primitiveCounts scan) = Z.of_nat (length es);
  cs_kinds k : kind_total k (sc_primitiveCounts scan) = Z.of_nat (length (of_kind k es));
  cs_transforms : sc_transformDescriptors scan = summaries 0 es;
  cs_sorted : Sorted js_le (sc_requiredPlugins scan);
  cs_unique : NoDup (sc_requiredPlugins scan);
  cs_plugins p : p ∈ sc_requiredPlugins scan <->
    exists t, t ∈ sc_transformDescriptors scan /\ ts_transformId t = p;
  cs_header : consistent_header (Z.of_nat (length es)) (sc_header scan)
}.

(** *** The header *)

Lemma unavailable_loop_sound source l : forall seen r,
  unavailable_loop source seen l = Ok r ->
  NoDup r /\ (forall x, x ∈ r -> x ∉ seen) /\
  Forall (fun s => exists k, s = decimal_string k /\ 0 < k <= source) r /\ length r = length l.
Proof.
  induction l as [|v l IH]; intros seen r Hr; cbn in Hr.
  - apply Ok_inj in Hr as <-. split_and!; [constructor|by intros x ?%not_elem_of_nil|constructor|done].
  - unfold mbind, result_bind, require in Hr.
    destruct (parseChangeLogPositiveInt64 v) as [n|] eqn:E; [|done].
    destruct (Z.leb_spec n source) as [Hle|]; [|done].
    destruct (decide (decimal_string n ∈ seen)) as [Hin|Hin];
      [by rewrite bool_decide_true in Hr|rewrite bool_decide_false in Hr by done]. cbn [negb] in Hr.
    destruct (unavailable_loop source (decimal_string n :: seen) l) as [rest|] eqn:E2; [|done].
    apply Ok_inj in Hr as <-. destruct (IH _ _ E2) as (Hnd & Hns & Hall & Hlen).
    apply parse_positive_inv in E as [_ Hn]. split_and!.
    + constructor; [|done]. intros Hx. apply (Hns _ Hx). by left.
    + intros x [->|Hx]%elem_of_cons; [done|]. intros Hs. apply (Hns _ Hx). by right.
    + constructor; [|done]. exists n. split; [done|lia].
    + cbn. by rewrite Hlen.
Qed.

Lemma header_consistent o count limits h :
  normalizeChangeLogHeader o count limits = Ok h -> consistent_header count h.
Proof.
  unfold normalizeChangeLogHeader, mbind, result_bind, require. intros Hh.
  destruct (bool_decide _); [|done]. destruct (is_version _); [|done].
  destruct (get (js "complete") o) as [| |b| | | | |]; try done.
  destruct (parseChangeLogNonNegativeInt64 (get (js "changeCount") o)) as [c|] eqn:E1; [|done].
  destruct (parseChangeLogNonNegativeInt64 (get (js "sourceChangeCount") o)) as [n|] eqn:E2; [|done].
  destruct (parseChangeLogNonNegativeInt64 (get (js "unavailableChangeCount") o)) as [u|] eqn:E3;
    [|done].
  destruct (Z.eqb_spec c count) as [->|]; [|done]. destruct (Z.leb_spec count n); [|done].
  destruct (normalizeUnavailableChangeSerials _ _ _) as [serials|] eqn:E4; [|done].
  destruct (Z.eqb_spec u (Z.of_nat (length serials))) as [->|]; [|done].
  destruct (Bool.eqb b _) eqn:E5; [|done]. apply eqb_prop in E5.
  destruct (normalizeChangeLogFingerprint _) as [before|]; [|done].
  destruct (normalizeChangeLogFingerprint (get (js "after") o)) as [after|]; [|done].
  apply Ok_inj in Hh as <-. unfold normalizeUnavailableChangeSerials in E4.
  destruct (as_array _) as [l|]; [|done]. destruct (_ <? _); [done|].
  apply unavailable_loop_sound in E4 as (Hnd & _ & Hall & _). apply parse_int64_range in E2.
  constructor; cbn; [done| |done|done|].
  - exists n. split; [done|]. split; [lia|done].
  - subst b. rewrite Z.eqb_eq. destruct serials; cbn; split; done || lia.
Qed.

(** *** The accumulator *)

Record acc_inv (p : list NormalizedChangeLogEntry) (a : accumulator) : Prop := mkAccInv {
  ai_total : c_total (primitiveCounts a) = Z.of_nat (length p);
  ai_kinds k : kind_total k (primitiveCounts a) = Z.of_nat (length (of_kind k p));
  ai_transforms : transformDescriptors a = summaries 0 p;
  ai_unique : NoDup (requiredPluginIds a);
  ai_plugins x : x ∈ requiredPluginIds a <->
    exists t, t ∈ transformDescriptors a /\ ts_transformId t = x
}.

Lemma summaries_snoc p e : forall i,
  summaries i (p ++ [e]) = summaries i p ++ option_list (summary_of (i + length p) e).
Proof.
  induction p as [|x p IH]; intros i; cbn; [by rewrite app_nil_r, Nat.add_0_r|].
  by rewrite IH, <- app_assoc, Nat.add_succ_r.
Qed.

Lemma set_add_elem x l y : y ∈ set_add x l <-> y = x \/ y ∈ l.
Proof.
  unfold set_add. case_bool_decide as H.
  - split; [by right|]. by intros [->|].
  - rewrite elem_of_app, list_elem_of_singleton. tauto.
Qed.

Lemma set_add_nodup x l : NoDup l -> NoDup (set_add x l).
Proof.
  unfold set_add. case_bool_decide as H; [done|]. intros Hl. apply NoDup_app.
  split; [done|]. split; [|apply NoDup_singleton]. by intros y Hy ->%list_elem_of_singleton.
Qed.

Lemma count_kind_spec k x c :
  kind_total k (count_kind x c) = kind_total k c + (if bool_decide (x = k) then 1 else 0).
Proof. by destruct k. Qed.

Lemma of_kind_snoc k p e :
  Z.of_nat (length (of_kind k (p ++ [e])))
  = Z.of_nat (length (of_kind k p)) + (if bool_decide (n_kind e = k) then 1 else 0).
Proof.
  unfold of_kind. rewrite filter_app, length_app. cbn.
  unfold filter, list_filter. case_bool_decide; destruct (decide (n_kind e = k)); cbn; done || lia.
Qed.

Lemma accumulator_step limits p e a a' :
  acc_inv p a -> accumulator_accept limits e (Z.of_nat (length p)) a = Ok a' ->
  acc_inv (p ++ [e]) a' /\
  sequence_accept limits e (Z.of_nat (length p)) (a_sequence a) = Ok (a_sequence a').
Proof.
  intros [Ht Hk Hs Hn Hp] Ha. unfold accumulator_accept, mbind, result_bind, require in Ha.
  destruct (_ <? limits maxEntryCount); [|done].
  destruct (sequence_accept limits e _ _) as [s|]; [|done].
  pose proof (summaries_snoc p e 0) as Hsum. cbn in Hsum. unfold summary_of in Hsum.
  assert (Hcounts : c_total (count_kind (n_kind e) (primitiveCounts a)) = Z.of_nat (length (p ++ [e]))
    /\ forall k, kind_total k (count_kind (n_kind e) (primitiveCounts a))
         = Z.of_nat (length (of_kind k (p ++ [e])))).
  { split; [rewrite length_app; cbn; lia|]. intros k. by rewrite count_kind_spec, of_kind_snoc, Hk. }
  destruct Hcounts as [Hct Hck].
  assert (Hsame : summaries 0 (p ++ [e]) = summaries 0 p ->
    acc_inv (p ++ [e]) (mkAccumulator (count_kind (n_kind e) (primitiveCounts a))
      (transformDescriptors a) (requiredPluginIds a) s)).
  { intros E. constructor; cbn; [done..|by rewrite E|done|done]. }
  destruct (n_transformDescriptor e) as [d|]; [destruct (bool_decide (n_kind e = KTRANSFORM))|];
    cbn [mbind option_bind option_list] in Hsum.
  - destruct (_ <? limits maxTransformCount); [|done].
    destruct (_ <=? limits maxRequiredPluginCount); [|done]. apply Ok_inj in Ha as <-.
    split; [|done]. constructor; cbn; [done|done|by rewrite Hsum, Hs|by apply set_add_nodup|].
    intros x. rewrite set_add_elem, Hp. setoid_rewrite elem_of_app. split.
    + intros [->|(t & Hin & Hx)]; [|by exists t; auto].
      eexists. split; [right; by apply list_elem_of_singleton|done].
    + intros (t & [Hin| ->%list_elem_of_singleton] & Hx); [right; by exists t|by left].
  - apply Ok_inj in Ha as <-. split; [|done]. apply Hsame. by rewrite Hsum, app_nil_r.
  - apply Ok_inj in Ha as <-. split; [|done]. apply Hsame. by rewrite Hsum, app_nil_r.
Qed.

Lemma new_accumulator_inv : acc_inv [] new_accumulator.
Proof.
  constructor; cbn; [done|by intros []|done|constructor|].
  intros x. split; [by intros ?%not_elem_of_nil|]. by intros (t & ?%not_elem_of_nil & _).
Qed.

Lemma document_loop_sound `{JsonRuntime} limits aborted l : forall p a es a',
  acc_inv p a -> document_loop limits aborted (length p) l a = Ok (es, a') ->
  acc_inv (p ++ es) a' /\ Forall2 (fun v e => normalizeChangeLogEntry v limits = Ok e) l es /\
  accept_all limits (length p) es (a_sequence a) = Ok (a_sequence a').
Proof.
  induction l as [|v l IH]; intros p a es a' Hi Hl; cbn [document_loop] in Hl.
  - apply Ok_inj in Hl as [= <- <-]. rewrite app_nil_r. split; [done|]. by split; [constructor|].
  - unfold mbind, result_bind in Hl. destruct (throwIfChangeLogCancelled _); [|done].
    destruct (normalizeChangeLogEntry v limits) as [e|] eqn:E; [|done].
    destruct (accumulator_accept limits e _ a) as [a1|] eqn:E1; [|done].
    destruct (accumulator_step _ _ _ _ _ Hi E1) as [Hi1 Hs1].
    destruct (document_loop limits aborted (S (length p)) l a1) as [[es1 a2]|] eqn:E2; [|done].
    apply Ok_inj in Hl as [= <- <-].
    replace (S (length p)) with (length (p ++ [e])) in E2 by (rewrite length_app; cbn; lia).
    destruct (IH _ _ _ _ Hi1 E2) as (Hi2 & Hf & Hacc).
    rewrite <- app_assoc in Hi2. split; [done|]. split; [by constructor|].
    cbn [accept_all]. unfold mbind, result_bind. rewrite Hs1.
    replace (S (length p)) with (length (p ++ [e])) by (rewrite length_app; cbn; lia). done.
Qed.

#[global] Instance js_le_total : Total js_le.
Proof.
  intros s t. unfold js_le. revert t. induction s as [|a s IH]; intros [|b t]; cbn; auto.
  destruct (Z.lt_trichotomy a b) as [E|[->|E]].
  - left. by rewrite (proj2 (Z.ltb_lt _ _) E).
  - rewrite Z.ltb_irrefl, Z.eqb_refl. apply IH.
  - right. by rewrite (proj2 (Z.ltb_lt _ _) E).
Qed.

Lemma finish_consistent limits o es a scan :
  Forall (normal_entry limits) es -> serials_ok es /\ groups_ok es -> acc_inv es a ->
  accumulator_finish limits o a = Ok scan -> consistent limits es scan.
Proof.
  intros Hes Hseq [Ht Hk Hs Hn Hp] Hf. unfold accumulator_finish, mbind, result_bind in Hf.
  destruct (normalizeChangeLogHeader o _ limits) as [h|] eqn:Eh; [|done].
  apply Ok_inj in Hf as <-. rewrite Ht in Eh. apply header_consistent in Eh.
  constructor; cbn; try done.
  - apply Sorted_merge_sort, _.
  - by rewrite merge_sort_Permutation.
  - intros x. by rewrite merge_sort_Permutation.
Qed.

Lemma document_sound `{JsonRuntime} v overrides aborted scan es :
  normalizeChangeLogDocument v overrides aborted = Ok (scan, es) ->
  exists limits o changes,
    resolveChangeLogCodecLimits overrides = Ok limits /\
    v = JObject o /\ get (js "changes") o = JArray changes /\
    Forall2 (fun v e => normalizeChangeLogEntry v limits = Ok e) changes es /\
    consistent limits es scan.
Proof.
  unfold normalizeChangeLogDocument, mbind, result_bind. intros Hd.
  destruct (throwIfChangeLogCancelled _); [|done].
  destruct (resolveChangeLogCodecLimits overrides) as [limits|]; [|done].
  destruct (validateChangeLogJsonValue limits 0 v); [|done].
  destruct v as [| | | | | | |o]; try done. cbn [as_record] in Hd.
  destruct (get (js "changes") o) as [| | | | | |changes|] eqn:Ec; try done. cbn [as_array] in Hd.
  destruct (document_loop limits aborted 0 changes new_accumulator) as [[es' acc]|] eqn:El; [|done].
  destruct (accumulator_finish limits o acc) as [scan'|] eqn:Ef; [|done].
  apply Ok_inj in Hd as [= <- <-].
  destruct (document_loop_sound limits aborted changes [] _ _ _ new_accumulator_inv El)
    as (Hi & Hf & Hacc).
  exists limits, o, changes. split_and!; [done..|].
  apply (finish_consistent limits o es' acc); [|by eapply sequence_sound|done|done].
  apply Forall_forall. intros e [i Hi']%list_elem_of_lookup.
  destruct (Forall2_lookup_r _ _ _ _ _ Hf Hi') as (x & _ & Hx). by eapply normalize_entry_normal.
Qed.

(** ** Theorems *)

(** C35 A document that is accepted is consistent from its header to
    its entries: the entries are those of its [changes] array, one for one
    and all in normal form; serials are the positions and groups contiguous;
    the counts, in total and for each kind, are those of the entries and the
    header's; the transform summaries are those of the transforms in order;
    the required plugins are exactly their ids, sorted and without
    duplicates; and the unavailable serials are distinct, between 1 and the
    number of source changes, and empty exactly for a complete log. *)
Theorem document_accepted_consistent `{JsonRuntime} v overrides aborted scan es :
  normalizeChangeLogDocument v overrides aborted = Ok (scan, es) ->
  exists limits o changes,
    resolveChangeLogCodecLimits overrides = Ok limits /\
    v = JObject o /\ get (js "changes") o = JArray changes /\
    Forall2 (fun v e => normalizeChangeLogEntry v limits = Ok e) changes es /\
    consistent limits es scan.
Proof. apply document_sound. Qed.

Definition sample_fingerprint : jsval :=
  JObject [(js "byteLength", JString (js "10"));
    (js "digest", JObject [(js "algorithm", JString (js "SHA256")); (js "value", JString (js "AB"))])].

Definition sample_document : jsval :=
  JObject [(js "format", JString CHANGE_LOG_FORMAT); (js "version", JNumber (NInt 2));
    (js "complete", JBool false); (js "changeCount", JNumber (NInt 2));
    (js "sourceChangeCount", JString (js "3")); (js "unavailableChangeCount", JNumber (NInt 1));
    (js "unavailableChangeSerials", JArray [JNumber (NInt 2)]);
    (js "before", sample_fingerprint); (js "after", sample_fingerprint);
    (js "changes", JArray [entry_object sample_entry;
       entry_object (mkLogEntry (Some (I64Number (NInt 2))) KREPLACE (I64Number (NInt 0))
         (I64Number (NInt 4)) [] None)])].

Definition sample_entries : list NormalizedChangeLogEntry :=
  [sample_normal; mkEntryN (Some (js "2")) KREPLACE (js "0") (js "4") [] None None].

Definition sample_scan : ChangeLogScanResult :=
  mkScan (mkHeader false
      (mkFingerprint (js "10") (mkDigest CHANGE_LOG_DEFAULT_DIGEST_PLUGIN_ID (js "sha256") (js "ab")))
      (mkFingerprint (js "10") (mkDigest CHANGE_LOG_DEFAULT_DIGEST_PLUGIN_ID (js "sha256") (js "ab")))
      (js "2") (js "3") (js "1") [js "2"])
    2 (mkCounts 2 0 1 0 1 0) [] [].

Lemma document_accepted_consistent_witness :
  exists limits, consistent limits sample_entries sample_scan.
Proof.
  destruct (@document_accepted_consistent no_json sample_document (fun _ => None) (fun _ => false)
    sample_scan sample_entries) as (limits & _ & _ & _ & _ & _ & _ & Hc).
  - vm_compute. reflexivity.
  - exists limits. exact Hc.
Defined.

(** The sequence validator accepts exactly the sequences in which
    every entry has its position as serial or none has a serial, and in
    which the entries of each group are contiguous (for sequences no longer
    than the limit on groups). *)
Theorem sequence_validator_correct limits es :
  Z.of_nat (length es) <= limits maxGroupCount ->
  (exists s, accept_all limits 0 es new_sequence = Ok s) <-> serials_ok es /\ groups_ok es.
Proof.
  intros Hl. split; [intros [s Hs]; by apply sequence_sound in Hs|]. intros [Hs Hg].
  apply (accept_all_complete limits es [] new_sequence); [apply new_sequence_inv|cbn; lia|done..].
Qed.

Definition grouped (g : string) : NormalizedChangeLogEntry :=
  mkEntryN None KREPLACE (js "0") (js "0") [] (Some (js g)) None.

Lemma sequence_validator_correct_witness :
  serials_ok [grouped "a"; grouped "a"; grouped "b"] /\
  groups_ok [grouped "a"; grouped "a"; grouped "b"].
Proof.
  apply (sequence_validator_correct DEFAULT_CHANGE_LOG_CODEC_LIMITS
    [grouped "a"; grouped "a"; grouped "b"]).
  - vm_compute. discriminate.
  - eexists. vm_compute. reflexivity.
Defined.

Example split_group_refused :
  accept_all DEFAULT_CHANGE_LOG_CODEC_LIMITS 0 [grouped "a"; grouped "b"; grouped "a"] new_sequence
  = Throw (codec_error "CHANGE_LOG_INVALID_GROUPS").
Proof. vm_compute. reflexivity. Qed.
