(* ===== verification/ChangeLogRpc.v ===== *)
(** * The change-log export stream ([packages/client/src/changeLog/node/rpc.ts])

    The frames of an export arrive from the transport through callbacks and
    are handed out, validated one at a time, by an asynchronous generator.
    The model has the validation of frames, the queue between the transport
    and the generator with its pausing, and the generator's loop, whose turns
    interleave with the transport's events in any order.  The enumeration of
    entry kinds comes from [changeLog/proto.ts]. *)

From S2P Require Import Prelude JsText JsValue ChangeLogCodec.

(** ** Kinds on the wire ([proto.ts]) *)

(** The values of the generated enumeration. *)
Definition PROTO_DELETE : Z := 1.
Definition PROTO_INSERT : Z := 2.
Definition PROTO_OVERWRITE : Z := 3.
Definition PROTO_REPLACE : Z := 4.
Definition PROTO_TRANSFORM : Z := 5.

Definition CHANGE_LOG_KIND_TO_PROTO (k : ChangeLogEntryKind) : Z :=
  match k with
  | KDELETE => PROTO_DELETE
  | KINSERT => PROTO_INSERT
  | KOVERWRITE => PROTO_OVERWRITE
  | KREPLACE => PROTO_REPLACE
  | KTRANSFORM => PROTO_TRANSFORM
  end.

Definition changeLogKindFromProto (kind : Z) : option ChangeLogEntryKind :=
  if kind =? PROTO_DELETE then Some KDELETE
  else if kind =? PROTO_INSERT then Some KINSERT
  else if kind =? PROTO_OVERWRITE then Some KOVERWRITE
  else if kind =? PROTO_REPLACE then Some KREPLACE
  else if kind =? PROTO_TRANSFORM then Some KTRANSFORM
  else None.

(** ** Messages *)

Record ChangeLogStreamFingerprint := mkStreamFingerprint {
  byteLengthDecimal : jsstring;
  digestPluginId : jsstring;
  digestAlgorithm : jsstring;
  digestValue : jsstring
}.

Record ChangeLogStreamHeader := mkStreamHeader {
  formatVersion : Z;
  resolvedFirstSerialDecimal : jsstring;
  resolvedLastSerialDecimal : jsstring;
  sourceChangeCountDecimal : jsstring;
  before : option ChangeLogStreamFingerprint;
  after : option ChangeLogStreamFingerprint;
  optimized : bool
}.

Record ChangeLogStreamTransform := mkStreamTransform {
  st_transformId : jsstring;
  st_optionsJson : jsstring;
  replacementLengthDecimal : jsstring;
  computedFileSizeBeforeDecimal : jsstring;
  computedFileSizeAfterDecimal : jsstring
}.

Record ChangeLogEntryHeader := mkEntryHeader {
  entryIndexDecimal : jsstring;
  e_kind : Z;
  offsetDecimal : jsstring;
  lengthDecimal : jsstring;
  payloadLengthDecimal : jsstring;
  transform : option ChangeLogStreamTransform
}.

Record ChangeLogPayloadChunk := mkChunk {
  p_entryIndexDecimal : jsstring;
  chunkOffsetDecimal : jsstring;
  p_data : list Z;
  finalChunk : bool
}.

Record ChangeLogStreamComplete := mkComplete {
  emittedChangeCountDecimal : jsstring;
  payloadByteCountDecimal : jsstring
}.

(** The [oneof] of a response; [FEmpty] has none of the cases set. *)
Inductive frame :=
  | FHeader (h : ChangeLogStreamHeader)
  | FEntry (e : ChangeLogEntryHeader)
  | FPayload (p : ChangeLogPayloadChunk)
  | FComplete (c : ChangeLogStreamComplete)
  | FEmpty.

(** ** The request *)

Record ChangeLogRpcExportOptions := mkExportOptions {
  o_sessionId : jsstring;
  o_optimize : option bool;
  firstChangeSerial : option ChangeLogInt64;
  lastChangeSerial : option ChangeLogInt64;
  maxSpanBytes : option ChangeLogInt64;
  maxEntries : option ChangeLogInt64;
  maxOutputBytes : option ChangeLogInt64;
  o_digestPluginId : option jsstring;
  o_digestAlgorithm : option jsstring
}.

Record ExportChangeLogRequest := mkExportRequest {
  r_sessionId : jsstring;
  r_optimize : bool;
  firstChangeSerialDecimal : option jsstring;
  lastChangeSerialDecimal : option jsstring;
  maxSpanBytesDecimal : option jsstring;
  maxEntriesDecimal : option jsstring;
  maxOutputBytesDecimal : option jsstring;
  r_digestPluginId : option jsstring;
  r_digestAlgorithm : option jsstring
}.

Definition decimal (value : option ChangeLogInt64) : result (option jsstring) :=
  match value with
  | None => Ok None
  | Some v => n ← parseChangeLogNonNegativeInt64 (int64_value v); Ok (Some (decimal_string n))
  end.

Definition export_request (aborted : bool) (o : ChangeLogRpcExportOptions)
  : result ExportChangeLogRequest :=
  _ ← throwIfChangeLogCancelled aborted;
  first ← decimal (firstChangeSerial o);
  lst ← decimal (lastChangeSerial o);
  span ← decimal (maxSpanBytes o);
  entries ← decimal (maxEntries o);
  output ← decimal (maxOutputBytes o);
  Ok (mkExportRequest (o_sessionId o) (default false (o_optimize o)) first lst span entries output
    (o_digestPluginId o) (o_digestAlgorithm o)).

(** ** Validation of the parts of a frame *)

Definition MAX_FRAME_QUEUE : nat := 4.
Definition RESUME_FRAME_QUEUE : nat := 2.
Definition MAX_PAYLOAD_CHUNK : Z := 262144.

Definition parseDecimal (value : jsstring) : result Z :=
  parseChangeLogNonNegativeInt64 (JString value).

Definition framing_error : exn := codec_error "CHANGE_LOG_RPC_FRAMING".
Definition limit_error : exn := codec_error "CHANGE_LOG_RPC_LIMIT".

Definition validateFingerprint (fingerprint : option ChangeLogStreamFingerprint) : result unit :=
  match fingerprint with
  | None => Throw framing_error
  | Some f =>
      _ ← parseDecimal (byteLengthDecimal f);
      _ ← require (matches_all is_plugin_char CHANGE_LOG_DIGEST_PLUGIN_ID_MAX_LENGTH
        (digestPluginId f)) framing_error;
      _ ← require (matches_all is_algorithm_char CHANGE_LOG_DIGEST_ALGORITHM_MAX_LENGTH
        (digestAlgorithm f)) framing_error;
      require (matches_all is_lower_hex CHANGE_LOG_DIGEST_VALUE_MAX_LENGTH (digestValue f))
        framing_error
  end.

Definition validateTransform (t : ChangeLogStreamTransform) : result unit :=
  _ ← require (slen (utf8_encode (st_transformId t)) <=? 4096) limit_error;
  _ ← require (slen (utf8_encode (st_optionsJson t)) <=? 1048576) limit_error;
  _ ← parseDecimal (replacementLengthDecimal t);
  _ ← parseDecimal (computedFileSizeBeforeDecimal t);
  _ ← parseDecimal (computedFileSizeAfterDecimal t);
  Ok tt.

Definition validateEntry (entry : ChangeLogEntryHeader) (expectedIndex : Z) : result Z :=
  index ← parseDecimal (entryIndexDecimal entry);
  _ ← require (index =? expectedIndex) framing_error;
  _ ← parseDecimal (offsetDecimal entry);
  _ ← parseDecimal (lengthDecimal entry);
  payloadLength ← parseDecimal (payloadLengthDecimal entry);
  _ ← require (negb ((e_kind entry <? PROTO_DELETE) || (PROTO_TRANSFORM <? e_kind entry)))
    framing_error;
  _ ← (if e_kind entry =? PROTO_TRANSFORM then
      match transform entry with
      | None => Throw framing_error
      | Some t => _ ← require (payloadLength =? 0) framing_error; validateTransform t
      end
    else match transform entry with Some _ => Throw framing_error | None => Ok tt end);
  Ok payloadLength.

(** ** The generator's locals about the frames it has seen *)

Record payload_state := mkPayload { entryIndex : Z; declared : Z; received : Z }.

Record framing := mkFraming {
  sawHeader : bool;
  sawComplete : bool;
  expectedEntry : Z;
  currentPayload : option payload_state;
  payloadBytes : Z
}.

Definition new_framing : framing := mkFraming false false 0 None 0.

Definition accept_header (h : ChangeLogStreamHeader) (s : framing) : result framing :=
  _ ← require (negb (sawHeader s || negb (expectedEntry s =? 0) ||
    bool_decide (is_Some (currentPayload s)))) framing_error;
  _ ← require (formatVersion h =? 3) framing_error;
  _ ← parseDecimal (resolvedFirstSerialDecimal h);
  _ ← parseDecimal (resolvedLastSerialDecimal h);
  _ ← parseDecimal (sourceChangeCountDecimal h);
  _ ← validateFingerprint (before h);
  _ ← validateFingerprint (after h);
  Ok (mkFraming true (sawComplete s) (expectedEntry s) (currentPayload s) (payloadBytes s)).

Definition accept_entry (e : ChangeLogEntryHeader) (s : framing) : result framing :=
  _ ← require (sawHeader s && negb (bool_decide (is_Some (currentPayload s)))) framing_error;
  declared ← validateEntry e (expectedEntry s);
  Ok (if declared =? 0
    then mkFraming (sawHeader s) (sawComplete s) (expectedEntry s + 1) (currentPayload s)
      (payloadBytes s)
    else mkFraming (sawHeader s) (sawComplete s) (expectedEntry s)
      (Some (mkPayload (expectedEntry s) declared 0)) (payloadBytes s)).

Definition accept_payload (p : ChangeLogPayloadChunk) (s : framing) : result framing :=
  match currentPayload s with
  | Some c =>
      _ ← require (sawHeader s) framing_error;
      index ← parseDecimal (p_entryIndexDecimal p);
      offset ← parseDecimal (chunkOffsetDecimal p);
      let size := Z.of_nat (length (p_data p)) in
      _ ← require (negb (negb (index =? entryIndex c) || negb (offset =? received c) ||
        (size =? 0) || (MAX_PAYLOAD_CHUNK <? size))) framing_error;
      let received := received c + size in
      _ ← require (received <=? declared c) framing_error;
      let atEnd := received =? declared c in
      _ ← require (Bool.eqb (finalChunk p) atEnd) framing_error;
      Ok (if atEnd
        then mkFraming (sawHeader s) (sawComplete s) (expectedEntry s + 1) None
          (payloadBytes s + size)
        else mkFraming (sawHeader s) (sawComplete s) (expectedEntry s)
          (Some (mkPayload (entryIndex c) (declared c) received)) (payloadBytes s + size))
  | None => Throw framing_error
  end.

Definition accept_complete (c : ChangeLogStreamComplete) (s : framing) : result framing :=
  _ ← require (sawHeader s && negb (bool_decide (is_Some (currentPayload s)))) framing_error;
  emitted ← parseDecimal (emittedChangeCountDecimal c);
  _ ← require (emitted =? expectedEntry s) framing_error;
  bytes ← parseDecimal (payloadByteCountDecimal c);
  _ ← require (bytes =? payloadBytes s) framing_error;
  Ok (mkFraming (sawHeader s) true (expectedEntry s) (currentPayload s) (payloadBytes s)).

(** The [switch] on a frame; the assignments after a [yield] are made when
    the generator goes on, and nothing else reads these locals. *)
Definition accept_frame (f : frame) (s : framing) : result framing :=
  _ ← require (negb (sawComplete s)) framing_error;
  match f with
  | FHeader h => accept_header h s
  | FEntry e => accept_entry e s
  | FPayload p => accept_payload p s
  | FComplete c => accept_complete c s
  | FEmpty => Throw framing_error
  end.

(** ** The queue and the generator's loop

    [waiting] says that the generator is suspended at the promise [wake]
    resolves, [at_yield] that it is suspended at a [yield]; [outcome] that it
    has ended, by returning, by throwing, or because its consumer left the
    [for await] loop at a [yield].  [yielded] and [delivered] record the
    frames handed out and the frames received. *)
Inductive generator_end := Returned | Threw (e : exn) | Abandoned.

Record stream := mkStream {
  queue : list frame;
  streamError : option exn;
  ended : bool;
  paused : bool;
  waiting : bool;
  at_yield : bool;
  locals : framing;
  aborted : bool;
  cancelled : bool;
  outcome : option generator_end;
  yielded : list frame;
  delivered : list frame
}.

(** The state when the generator enters its loop; the signal may have been
    aborted while the stream was being opened. *)
Definition new_stream (already_aborted : bool) : stream :=
  mkStream [] None false false false false new_framing already_aborted false None [] [].

(** The callbacks. *)
Definition on_data (f : frame) (s : stream) : stream :=
  let queue := queue s ++ [f] in
  mkStream queue (streamError s) (ended s)
    (paused s || (MAX_FRAME_QUEUE <=? length queue)%nat) false (at_yield s) (locals s) (aborted s)
    (cancelled s) (outcome s) (yielded s) (delivered s ++ [f]).

Definition on_error (e : exn) (s : stream) : stream :=
  mkStream (queue s) (Some e) true (paused s) false (at_yield s) (locals s) (aborted s)
    (cancelled s) (outcome s) (yielded s) (delivered s).

Definition on_end (s : stream) : stream :=
  mkStream (queue s) (streamError s) true (paused s) false (at_yield s) (locals s) (aborted s)
    (cancelled s) (outcome s) (yielded s) (delivered s).

(** The signal is aborted; the listener, which the generator removes when it
    ends, cancels the call and wakes the generator.  (A signal object without
    [addEventListener], which the types allow, would not call it.) *)
Definition on_abort (s : stream) : stream :=
  let listening := negb (bool_decide (is_Some (outcome s))) in
  mkStream (queue s) (streamError s) (ended s) (paused s) (waiting s && negb listening) (at_yield s)
    (locals s) true (cancelled s || listening) (outcome s) (yielded s) (delivered s).

Definition ended_with (o : generator_end) (cancel : bool) (s : stream) : stream :=
  mkStream (queue s) (streamError s) (ended s) (paused s) false false (locals s) (aborted s)
    (cancelled s || cancel) (Some o) (yielded s) (delivered s).

(** The [catch]: cancel, and report a cancellation if there was one. *)
Definition fail_with (e : exn) (s : stream) : stream :=
  ended_with (Threw (if aborted s then cancelled_error else e)) true s.

Definition return_ok (s : stream) : stream := ended_with Returned false s.

(** [return()] at a [yield]: the [finally] runs and the [catch] does not. *)
Definition abandon (s : stream) : stream := ended_with Abandoned false s.

Definition suspend (s : stream) : stream :=
  mkStream (queue s) (streamError s) (ended s) (paused s) true false (locals s) (aborted s)
    (cancelled s) (outcome s) (yielded s) (delivered s).

(** The frame is shifted off the queue and the stream resumed if that leaves
    few enough. *)
Definition shifted (rest : list frame) (s : stream) : stream :=
  mkStream rest (streamError s) (ended s)
    (paused s && negb (length rest <=? RESUME_FRAME_QUEUE)%nat) (waiting s) (at_yield s) (locals s)
    (aborted s) (cancelled s) (outcome s) (yielded s) (delivered s).

Definition yield_frame (f : frame) (l : framing) (s : stream) : stream :=
  mkStream (queue s) (streamError s) (ended s) (paused s) false true l (aborted s) (cancelled s)
    (outcome s) (yielded s ++ [f]) (delivered s).

(** One turn of the loop, from its condition to the next one or to the end
    of the function. *)
Definition turn (s : stream) : stream :=
  match queue s with
  | [] =>
      if ended s then
        match streamError s with
        | Some e => fail_with e s
        | None =>
            if sawHeader (locals s) && sawComplete (locals s) then return_ok s
            else fail_with framing_error s
        end
      else if aborted s then fail_with cancelled_error s
      else suspend s
  | f :: rest =>
      if aborted s then fail_with cancelled_error s
      else
        let s := shifted rest s in
        match accept_frame f (locals s) with
        | Ok l => yield_frame f l s
        | Throw e => fail_with e s
        end
  end.

(** What can happen next.  A stream that is paused or has ended emits no
    data, and it ends once. *)
Inductive step : stream -> stream -> Prop :=
  | step_data f s : paused s = false -> ended s = false -> step s (on_data f s)
  | step_error e s : ended s = false -> step s (on_error e s)
  | step_end s : ended s = false -> step s (on_end s)
  | step_abort s : aborted s = false -> step s (on_abort s)
  | step_turn s : waiting s = false -> outcome s = None -> step s (turn s)
  | step_leave s : at_yield s = true -> outcome s = None -> step s (abandon s).

Definition reachable (s : stream) : Prop := exists a, rtc step (new_stream a) s.

(** ** What a well-formed stream is

    A header, the entries in order, each followed by the chunks of its
    payload, and the completion with the counts. *)

Definition is_int64 (s : jsstring) (n : Z) : Prop := s = decimal_string n /\ 0 <= n <= MAX_INT64.
Definition some_int64 (s : jsstring) : Prop := exists n, is_int64 s n.

Definition text_of (f : Z -> bool) (max : Z) (s : jsstring) : Prop :=
  s <> [] /\ Forall (fun c => f c = true) s /\ slen s <= max.

Definition fingerprint_ok (f : option ChangeLogStreamFingerprint) : Prop :=
  exists fp, f = Some fp /\ some_int64 (byteLengthDecimal fp) /\
    text_of is_plugin_char 4096 (digestPluginId fp) /\
    text_of is_algorithm_char 128 (digestAlgorithm fp) /\
    text_of is_lower_hex 4096 (digestValue fp).

Record header_ok (h : ChangeLogStreamHeader) : Prop := mkHeaderOk {
  ho_version : formatVersion h = 3;
  ho_first : some_int64 (resolvedFirstSerialDecimal h);
  ho_last : some_int64 (resolvedLastSerialDecimal h);
  ho_source : some_int64 (sourceChangeCountDecimal h);
  ho_before : fingerprint_ok (before h);
  ho_after : fingerprint_ok (after h)
}.

Record transform_ok (t : ChangeLogStreamTransform) : Prop := mkTransformOk {
  to_id : slen (utf8_encode (st_transformId t)) <= 4096;
  to_options : slen (utf8_encode (st_optionsJson t)) <= 1048576;
  to_replacement : some_int64 (replacementLengthDecimal t);
  to_before : some_int64 (computedFileSizeBeforeDecimal t);
  to_after : some_int64 (computedFileSizeAfterDecimal t)
}.

(** An entry at an index, with the length of its payload. *)
Record entry_ok (i : Z) (e : ChangeLogEntryHeader) (n : Z) : Prop := mkEntryOk {
  eo_index : is_int64 (entryIndexDecimal e) i;
  eo_offset : some_int64 (offsetDecimal e);
  eo_length : some_int64 (lengthDecimal e);
  eo_payload : is_int64 (payloadLengthDecimal e) n;
  eo_kind : exists k, changeLogKindFromProto (e_kind e) = Some k /\
    (if bool_decide (k = KTRANSFORM)
     then n = 0 /\ exists t, transform e = Some t /\ transform_ok t
     else transform e = None)
}.

Definition chunk_at (i off : Z) (c : ChangeLogPayloadChunk) : Prop :=
  is_int64 (p_entryIndexDecimal c) i /\ is_int64 (chunkOffsetDecimal c) off /\
  0 < Z.of_nat (length (p_data c)) <= MAX_PAYLOAD_CHUNK.

Fixpoint chunks_at (i off : Z) (cs : list ChangeLogPayloadChunk) : Prop :=
  match cs with
  | [] => True
  | c :: cs => chunk_at i off c /\ chunks_at i (off + Z.of_nat (length (p_data c))) cs
  end.

Definition payload (cs : list ChangeLogPayloadChunk) : list Z := concat (map p_data cs).
Definition payload_size (cs : list ChangeLogPayloadChunk) : Z := Z.of_nat (length (payload cs)).

(** An entry with its chunks. *)
Definition block : Type := ChangeLogEntryHeader * list ChangeLogPayloadChunk.

Record block_ok (i : Z) (b : block) : Prop := mkBlockOk {
  bo_entry : entry_ok i b.1 (payload_size b.2);
  bo_chunks : chunks_at i 0 b.2;
  bo_final k c : b.2 !! k = Some c -> finalChunk c = (S k =? length b.2)%nat
}.

Definition block_frames (b : block) : list frame := FEntry b.1 :: map FPayload b.2.
Definition blocks_frames (bs : list block) : list frame := concat (map block_frames bs).
Definition blocks_ok (bs : list block) : Prop :=
  forall i b, bs !! i = Some b -> block_ok (Z.of_nat i) b.
Definition total_size (bs : list block) : Z := payload_size (concat (map snd bs)).

Definition stream_ok (fs : list frame) : Prop :=
  exists h bs c, fs = FHeader h :: blocks_frames bs ++ [FComplete c] /\ header_ok h /\ blocks_ok bs /\
    is_int64 (emittedChangeCountDecimal c) (Z.of_nat (length bs)) /\
    is_int64 (payloadByteCountDecimal c) (total_size bs).

Definition accept_frames (fs : list frame) (s : framing) : result framing :=
  result_fold (fun s f => accept_frame f s) s fs.

(** ** Decimals are read in one way *)

Lemma canonical_snoc s c :
  canonical_decimal (s ++ [c]) = true -> 48 <= c <= 57 /\
  (s <> [] -> canonical_decimal s = true /\ 1 <= decimal_value s).
Proof.
  intros Hc. assert (Hd : 48 <= c <= 57).
  { destruct s as [|a s]; cbn [canonical_decimal app] in Hc; apply orb_true_iff in Hc as [Hc|Hc];
      apply andb_true_iff in Hc as [H1 H2]; unfold in_range, is_digit in *; bool_prop; try lia.
    - rewrite length_app in H2. cbn in H2. lia.
    - rewrite forallb_app in H2. cbn in H2. bool_prop. unfold in_range in *. bool_prop. lia. }
  split; [done|]. intros Hs.
  assert (Hl : (1 < length (s ++ [c]))%nat) by (rewrite length_app; destruct s; [done|cbn; lia]).
  pose proof (decimal_value_lower _ Hc Hl) as Hlow. rewrite decimal_value_app in Hlow. cbn in Hlow.
  split.
  - destruct s as [|a s]; [done|]. cbn [canonical_decimal app] in *.
    apply orb_true_iff in Hc as [Hc|Hc]; apply andb_true_iff in Hc as [H1 H2].
    + rewrite length_app in H2. cbn in H2. bool_prop. lia.
    + rewrite forallb_app in H2. apply andb_true_iff in H2 as [H2 _]. by rewrite H1, H2, orb_true_r.
  - assert (10 ^ 1 <= 10 ^ (Z.of_nat (length (s ++ [c])) - 1)) by (apply Z.pow_le_mono_r; lia). lia.
Qed.

Lemma canonical_inj s : forall t,
  canonical_decimal s = true -> canonical_decimal t = true -> decimal_value s = decimal_value t ->
  s = t.
Proof.
  induction s as [|c s IH] using rev_ind; [done|]. intros t Hs Ht Hv.
  destruct t as [|d t _] using rev_ind; [done|].
  apply canonical_snoc in Hs as [Hc Hs]. apply canonical_snoc in Ht as [Hd Ht].
  rewrite !decimal_value_app in Hv. cbn in Hv.
  assert (Hcd : c = d /\ decimal_value s = decimal_value t) by lia. destruct Hcd as [-> Hst]. f_equal.
  destruct s as [|a s], t as [|b t]; try done.
  - destruct (Ht ltac:(done)) as [_ H1]. change (decimal_value []) with 0 in Hst. lia.
  - destruct (Hs ltac:(done)) as [_ H1]. change (decimal_value []) with 0 in Hst. lia.
  - by apply IH; [apply Hs|apply Ht|].
Qed.

Lemma parseDecimal_spec s n : parseDecimal s = Ok n <-> is_int64 s n.
Proof.
  unfold parseDecimal, is_int64. split.
  - intros Hp. pose proof (parse_int64_range _ _ Hp) as Hn. split; [|done].
    unfold parseChangeLogNonNegativeInt64 in Hp. unfold mbind, result_bind in Hp.
    destruct (canonical_decimal s) eqn:Hc; [|done]. destruct (_ || _); [done|].
    apply Ok_inj in Hp. destruct (decimal_string_spec n ltac:(lia)) as [Hv Hcn].
    apply canonical_inj; congruence.
  - intros [-> Hn]. by apply parse_int64_decimal.
Qed.

Lemma parseDecimal_some s : (exists n, parseDecimal s = Ok n) <-> some_int64 s.
Proof. unfold some_int64. by setoid_rewrite parseDecimal_spec. Qed.

(** ** The parts of a frame *)

#[local] Arguments accept_frame : simpl never.
#[local] Arguments Nat.leb : simpl never.

Lemma bind_ok {A B} (m : result A) (f : A -> result B) b :
  (x ← m; f x) = Ok b <-> exists a, m = Ok a /\ f a = Ok b.
Proof.
  destruct m as [a|e]; cbn; split.
  - intros Hf. by exists a.
  - by intros (x & [= <-] & Hf).
  - done.
  - by intros (x & ? & _).
Qed.

Lemma require_ok b e u : require b e = Ok u <-> b = true.
Proof. unfold require. destruct b, u; done. Qed.

Lemma bind_require {B} b e (k : result B) x :
  (_ ← require b e; k) = Ok x <-> b = true /\ k = Ok x.
Proof. rewrite bind_ok. setoid_rewrite require_ok. split; [by intros (_ & ? & ?)|by exists tt]. Qed.

Lemma bind_parse {B} s (k : Z -> result B) x :
  (n ← parseDecimal s; k n) = Ok x <-> exists n, is_int64 s n /\ k n = Ok x.
Proof. rewrite bind_ok. by setoid_rewrite parseDecimal_spec. Qed.

Lemma bind_parse_ignored {B} s (k : result B) x :
  (_ ← parseDecimal s; k) = Ok x <-> some_int64 s /\ k = Ok x.
Proof.
  rewrite bind_parse. unfold some_int64. split.
  - intros (n & ? & ?). split; [by exists n|done].
  - intros [[n ?] ?]. by exists n.
Qed.

Lemma matches_all_spec f max s : matches_all f max s = true <-> text_of f max s.
Proof.
  unfold matches_all, text_of. rewrite !andb_true_iff, negb_true_iff, Nat.eqb_neq, Z.leb_le,
    forallb_forall, Forall_forall, length_zero_iff_nil. setoid_rewrite list_elem_of_In. tauto.
Qed.

Lemma validateFingerprint_spec f u : validateFingerprint f = Ok u <-> fingerprint_ok f.
Proof.
  destruct f as [fp|]; cbn [validateFingerprint].
  - rewrite bind_parse_ignored, !bind_require, require_ok, !matches_all_spec. unfold fingerprint_ok.
    split; [intros; by exists fp|]. by intros (x & [= <-] & ?).
  - split; [done|]. by intros (x & ? & _).
Qed.

Lemma validateTransform_spec t u : validateTransform t = Ok u <-> transform_ok t.
Proof.
  unfold validateTransform. rewrite !bind_require, !bind_parse_ignored, !Z.leb_le. destruct u.
  split; [by intros (? & ? & ? & ? & ? & _)|]. by intros [].
Qed.

Lemma kind_transform k x :
  changeLogKindFromProto k = Some x -> (k =? PROTO_TRANSFORM) = bool_decide (x = KTRANSFORM).
Proof.
  unfold changeLogKindFromProto. intros Hk.
  repeat case_match; try done; injection Hk as <-; bool_prop; by subst k.
Qed.

Lemma kind_spec k :
  negb ((k <? PROTO_DELETE) || (PROTO_TRANSFORM <? k)) = true <->
  exists x, changeLogKindFromProto k = Some x /\ (k =? PROTO_TRANSFORM) = bool_decide (x = KTRANSFORM).
Proof.
  rewrite negb_true_iff, orb_false_iff, !Z.ltb_ge. unfold changeLogKindFromProto.
  unfold PROTO_DELETE, PROTO_INSERT, PROTO_OVERWRITE, PROTO_REPLACE, PROTO_TRANSFORM. split.
  - intros Hk. assert (Hc : k = 1 \/ k = 2 \/ k = 3 \/ k = 4 \/ k = 5) by lia.
    destruct Hc as [->|[->|[->|[->| ->]]]]; eexists; split; reflexivity.
  - intros (x & Hx & _). repeat case_match; bool_prop; lia || done.
Qed.

Lemma validateEntry_spec e i n : validateEntry e i = Ok n <-> entry_ok i e n.
Proof.
  unfold validateEntry. rewrite bind_parse. setoid_rewrite bind_require.
  setoid_rewrite bind_parse_ignored. setoid_rewrite bind_parse_ignored. setoid_rewrite bind_parse.
  setoid_rewrite bind_require. setoid_rewrite kind_spec. setoid_rewrite bind_ok. split.
  - intros (j & Hj & Eij & Ho & Hl & m & Hm & (k & Hk & Et) & u & Hu & [= ->]).
    apply Z.eqb_eq in Eij as ->. constructor; [done..|]. exists k. split; [done|].
    rewrite Et in Hu. destruct (bool_decide (k = KTRANSFORM)), (transform e) as [t|]; try done.
    apply bind_require in Hu as [Hz%Z.eqb_eq Ht%validateTransform_spec]. split; [done|by exists t].
  - intros [Hi Ho Hl Hp (k & Hk & Hkind)]. exists i. split; [done|]. split; [apply Z.eqb_refl|].
    split; [done|]. split; [done|]. exists n. split; [done|].
    pose proof (kind_transform _ _ Hk) as Et.
    split; [by exists k|]. exists tt. split; [|done]. rewrite Et.
    destruct (bool_decide (k = KTRANSFORM)); [|by rewrite Hkind].
    destruct Hkind as [-> (t & -> & Ht)]. apply bind_require. split; [done|].
    by apply validateTransform_spec.
Qed.

Lemma accept_header_spec h s s' :
  accept_header h s = Ok s' <->
  sawHeader s = false /\ expectedEntry s = 0 /\ currentPayload s = None /\ header_ok h /\
  s' = mkFraming true (sawComplete s) 0 None (payloadBytes s).
Proof.
  unfold accept_header. rewrite !bind_require, !bind_parse_ignored, !bind_ok.
  setoid_rewrite bind_ok. setoid_rewrite validateFingerprint_spec.
  rewrite negb_true_iff, !orb_false_iff, negb_false_iff, !Z.eqb_eq. split.
  - intros ([[? He] Hc] & Hv & ? & ? & ? & _ & ? & _ & ? & [= <-]).
    destruct (currentPayload s); [done|]. rewrite He. split_and!; done.
  - intros (-> & -> & -> & [] & ->). split_and!; try done.
Qed.

Lemma accept_entry_spec e s s' :
  accept_entry e s = Ok s' <->
  sawHeader s = true /\ currentPayload s = None /\
  exists n, entry_ok (expectedEntry s) e n /\
    s' = if n =? 0
      then mkFraming true (sawComplete s) (expectedEntry s + 1) None (payloadBytes s)
      else mkFraming true (sawComplete s) (expectedEntry s)
        (Some (mkPayload (expectedEntry s) n 0)) (payloadBytes s).
Proof.
  unfold accept_entry. rewrite bind_require, bind_ok. setoid_rewrite validateEntry_spec.
  rewrite andb_true_iff, negb_true_iff. destruct s as [h c ex cp pb]; cbn. split.
  - intros ([-> Hc] & n & Hn & [= <-]). destruct cp; [done|]. split; [done|]. split; [done|]. by exists n.
  - intros (-> & -> & n & Hn & ->). split; [done|]. by exists n.
Qed.

Lemma accept_payload_spec p s s' :
  accept_payload p s = Ok s' <->
  sawHeader s = true /\ exists c, currentPayload s = Some c /\
    chunk_at (entryIndex c) (received c) p /\
    let r := received c + Z.of_nat (length (p_data p)) in
    r <= declared c /\ finalChunk p = (r =? declared c) /\
    s' = if r =? declared c
      then mkFraming true (sawComplete s) (expectedEntry s + 1) None
        (payloadBytes s + Z.of_nat (length (p_data p)))
      else mkFraming true (sawComplete s) (expectedEntry s)
        (Some (mkPayload (entryIndex c) (declared c) r))
        (payloadBytes s + Z.of_nat (length (p_data p))).
Proof.
  unfold accept_payload, chunk_at. destruct s as [h sc ex cp pb]; cbn.
  destruct cp as [c|]; [|split; [done|]; by intros (_ & c & ? & _)].
  rewrite bind_require, bind_parse. setoid_rewrite bind_parse. setoid_rewrite bind_require.
  setoid_rewrite bind_require. setoid_rewrite bind_require.
  setoid_rewrite Z.leb_le. setoid_rewrite eqb_true_iff. split.
  - intros (-> & i & Hi & o & Ho & Hc & Hle & Hf & [= <-]). bool_prop. subst.
    split; [done|]. exists c. split_and!; try done. lia.
  - intros (-> & x & [= <-] & (Hi & Ho & Hsz) & Hle & Hf & ->). split; [done|].
    eexists. split; [done|]. eexists. split; [done|]. split_and!; try done.
    rewrite !Z.eqb_refl. destruct (Z.eqb_spec (Z.of_nat (length (p_data p))) 0); [lia|].
    by destruct (Z.ltb_spec MAX_PAYLOAD_CHUNK (Z.of_nat (length (p_data p)))); [lia|].
Qed.

Lemma accept_complete_spec c s s' :
  accept_complete c s = Ok s' <->
  sawHeader s = true /\ currentPayload s = None /\
  is_int64 (emittedChangeCountDecimal c) (expectedEntry s) /\
  is_int64 (payloadByteCountDecimal c) (payloadBytes s) /\
  s' = mkFraming true true (expectedEntry s) None (payloadBytes s).
Proof.
  unfold accept_complete. rewrite bind_require, bind_parse. setoid_rewrite bind_require.
  setoid_rewrite bind_parse. setoid_rewrite bind_require. setoid_rewrite Z.eqb_eq.
  rewrite andb_true_iff, negb_true_iff. destruct s as [h sc ex cp pb]; cbn. split.
  - intros ([-> Hc] & n & Hn & -> & m & Hm & -> & [= <-]). by destruct cp.
  - intros (-> & -> & ? & ? & ->). split; [done|]. eexists. split; [done|]. split; [done|].
    by eexists.
Qed.

(** ** Well-formed streams are accepted, and only they *)

Lemma payload_size_app a b : payload_size (a ++ b) = payload_size a + payload_size b.
Proof. unfold payload_size, payload. rewrite map_app, concat_app, length_app. lia. Qed.

Lemma payload_size_one c : payload_size [c] = Z.of_nat (length (p_data c)).
Proof. unfold payload_size, payload. cbn. by rewrite app_nil_r. Qed.

Lemma payload_size_cons c cs : payload_size (c :: cs) = Z.of_nat (length (p_data c)) + payload_size cs.
Proof. rewrite <- payload_size_one. apply (payload_size_app [c]). Qed.

Lemma payload_size_pos cs : 0 <= payload_size cs.
Proof. unfold payload_size. lia. Qed.

Lemma total_size_snoc bs b : total_size (bs ++ [b]) = total_size bs + payload_size b.2.
Proof.
  unfold total_size. rewrite map_app, concat_app, payload_size_app. cbn. by rewrite app_nil_r.
Qed.

Lemma blocks_frames_snoc bs b : blocks_frames (bs ++ [b]) = blocks_frames bs ++ block_frames b.
Proof. unfold blocks_frames. rewrite map_app, concat_app. cbn. by rewrite app_nil_r. Qed.

Lemma blocks_ok_snoc bs b : blocks_ok bs -> block_ok (Z.of_nat (length bs)) b -> blocks_ok (bs ++ [b]).
Proof.
  intros Hbs Hb i x Hx. apply lookup_snoc_Some in Hx as [[_ Hx]|[-> ->]]; [by apply Hbs|done].
Qed.

Lemma chunks_at_snoc i cs c : forall off,
  chunks_at i off (cs ++ [c]) <-> chunks_at i off cs /\ chunk_at i (off + payload_size cs) c.
Proof.
  induction cs as [|x cs IH]; intros off; cbn [chunks_at app].
  - change (payload_size []) with 0. rewrite Z.add_0_r. tauto.
  - rewrite IH, payload_size_cons, Z.add_assoc. tauto.
Qed.

(** What the locals say about the frames accepted so far. *)
Inductive phase (p : list frame) : framing -> Prop :=
  | phase_start : p = [] -> phase p new_framing
  | phase_between h bs :
      p = FHeader h :: blocks_frames bs -> header_ok h -> blocks_ok bs ->
      phase p (mkFraming true false (Z.of_nat (length bs)) None (total_size bs))
  | phase_inside h bs e cs n :
      p = FHeader h :: blocks_frames bs ++ block_frames (e, cs) -> header_ok h -> blocks_ok bs ->
      entry_ok (Z.of_nat (length bs)) e n -> chunks_at (Z.of_nat (length bs)) 0 cs ->
      Forall (fun c => finalChunk c = false) cs -> payload_size cs < n ->
      phase p (mkFraming true false (Z.of_nat (length bs))
        (Some (mkPayload (Z.of_nat (length bs)) n (payload_size cs))) (total_size bs + payload_size cs))
  | phase_done ex cp pb : stream_ok p -> phase p (mkFraming true true ex cp pb).

Lemma phase_header h p s s' :
  phase p s -> sawComplete s = false -> accept_header h s = Ok s' -> phase (p ++ [FHeader h]) s'.
Proof.
  intros Hp Hc (Hs & He & Hcp & Hh & ->)%accept_header_spec.
  destruct Hp as [-> | | |]; try done. by apply (phase_between _ h []).
Qed.

Lemma single_block_ok i e : entry_ok i e 0 -> block_ok i (e, []).
Proof. intros He. by constructor. Qed.

Lemma phase_entry e p s s' :
  phase p s -> sawComplete s = false -> accept_entry e s = Ok s' -> phase (p ++ [FEntry e]) s'.
Proof.
  intros Hp Hc (Hs & Hcp & n & He & ->)%accept_entry_spec.
  destruct Hp as [|h bs -> Hh Hbs| |]; try done. cbn in *.
  destruct (Z.eqb_spec n 0) as [->|Hn].
  - replace (Z.of_nat (length bs) + 1) with (Z.of_nat (length (bs ++ [(e, [])])))
      by (rewrite length_app; cbn; lia).
    replace (total_size bs) with (total_size (bs ++ [(e, [])]))
      by (rewrite total_size_snoc; unfold payload_size; cbn; lia).
    apply (phase_between _ h); [by rewrite blocks_frames_snoc|done|].
    apply blocks_ok_snoc; [done|by apply single_block_ok].
  - assert (0 <= n) by (destruct He as [_ _ _ [_ ?] _]; lia).
    replace (total_size bs) with (total_size bs + payload_size []) by (unfold payload_size; cbn; lia).
    apply (phase_inside _ h bs e [] n); try done. unfold payload_size; cbn; lia.
Qed.

(** The last chunk closes its block. *)
Lemma last_chunk_ok i e cs p :
  entry_ok i e (payload_size (cs ++ [p])) -> chunks_at i 0 (cs ++ [p]) ->
  Forall (fun c => finalChunk c = false) cs -> finalChunk p = true -> block_ok i (e, cs ++ [p]).
Proof.
  intros He Hc Hf Hp. constructor; [done|done|]. cbn [snd]. intros k c Hk. rewrite length_app.
  cbn [length]. rewrite Nat.add_1_r. cbn [Nat.eqb]. apply lookup_snoc_Some in Hk as [[Hl Hk]|[-> ->]].
  - rewrite (proj1 (Forall_lookup _ _) Hf k c Hk). symmetry. apply Nat.eqb_neq. lia.
  - rewrite Hp. symmetry. apply Nat.eqb_eq. lia.
Qed.

Lemma phase_payload q p s s' :
  phase p s -> sawComplete s = false -> accept_payload q s = Ok s' -> phase (p ++ [FPayload q]) s'.
Proof.
  intros Hp Hc (Hs & c & Hcp & Hat & Hle & Hf & ->)%accept_payload_spec.
  destruct Hp as [| |h bs e cs n -> Hh Hbs He Hcs Hfs Hlt|]; try done. cbn in *.
  injection Hcp as <-. cbn in *.
  assert (Hcs' : chunks_at (Z.of_nat (length bs)) 0 (cs ++ [q])) by by apply chunks_at_snoc.
  assert (Hsz : payload_size (cs ++ [q]) = payload_size cs + Z.of_nat (length (p_data q)))
    by by rewrite payload_size_app, payload_size_one.
  assert (Hfr : (blocks_frames bs ++ FEntry e :: map FPayload cs) ++ [FPayload q]
    = blocks_frames bs ++ block_frames (e, cs ++ [q])).
  { unfold block_frames. cbn. by rewrite map_app, <- app_assoc. }
  destruct (Z.eqb_spec (payload_size cs + Z.of_nat (length (p_data q))) n) as [En|Hn].
  - replace (Z.of_nat (length bs) + 1) with (Z.of_nat (length (bs ++ [(e, cs ++ [q])])))
      by (rewrite length_app; cbn; lia).
    replace (total_size bs + payload_size cs + Z.of_nat (length (p_data q)))
      with (total_size (bs ++ [(e, cs ++ [q])])) by (rewrite total_size_snoc; cbn; lia).
    apply (phase_between _ h); [by rewrite blocks_frames_snoc, <- Hfr|done|].
    apply blocks_ok_snoc; [done|]. apply last_chunk_ok; try done. by rewrite Hsz, En.
  - rewrite <- Z.add_assoc, <- Hsz. apply (phase_inside _ h bs e (cs ++ [q]) n); try done.
    + by rewrite <- Hfr.
    + apply Forall_app. split; [done|]. by constructor.
    + lia.
Qed.

Lemma phase_complete c p s s' :
  phase p s -> sawComplete s = false -> accept_complete c s = Ok s' -> phase (p ++ [FComplete c]) s'.
Proof.
  intros Hp Hc (Hs & Hcp & Hn & Hm & ->)%accept_complete_spec.
  destruct Hp as [|h bs -> Hh Hbs| |]; try done. apply phase_done. by exists h, bs, c.
Qed.

Lemma phase_step f p s s' :
  phase p s -> accept_frame f s = Ok s' -> phase (p ++ [f]) s'.
Proof.
  intros Hp Hf. unfold accept_frame in Hf. apply bind_require in Hf as [Hc%negb_true_iff Hf].
  destruct f; [by eapply phase_header|by eapply phase_entry|by eapply phase_payload
    |by eapply phase_complete|done].
Qed.

Lemma phase_sawComplete p s : phase p s -> sawComplete s = true -> stream_ok p.
Proof. by intros []. Qed.

Lemma accept_frames_app fs gs s :
  accept_frames (fs ++ gs) s = (s' ← accept_frames fs s; accept_frames gs s').
Proof.
  unfold accept_frames. revert s. induction fs as [|f fs IH]; intros s; [done|]. cbn.
  destruct (accept_frame f s); [apply IH|done].
Qed.

Lemma accept_frames_phase fs : forall p s s',
  phase p s -> accept_frames fs s = Ok s' -> phase (p ++ fs) s'.
Proof.
  induction fs as [|f fs IH]; intros p s s' Hp Ha.
  - injection Ha as <-. by rewrite app_nil_r.
  - cbn in Ha. apply bind_ok in Ha as (s1 & H1 & H2).
    replace (p ++ f :: fs) with ((p ++ [f]) ++ fs) by by rewrite <- app_assoc.
    apply (IH _ s1); [by eapply phase_step|done].
Qed.

(** *** Acceptance *)

Lemma accept_chunks cs : forall ex n r pb,
  cs <> [] -> chunks_at ex r cs -> r + payload_size cs = n ->
  (forall k c, cs !! k = Some c -> finalChunk c = (S k =? length cs)%nat) ->
  accept_frames (map FPayload cs) (mkFraming true false ex (Some (mkPayload ex n r)) pb)
  = Ok (mkFraming true false (ex + 1) None (pb + payload_size cs)).
Proof.
  induction cs as [|c cs IH]; intros ex n r pb Hne Hat Hsz Hf; [done|].
  destruct Hat as [Hc Hcs]. rewrite payload_size_cons in Hsz |- *.
  pose proof (payload_size_pos cs) as Hpos. pose proof (Hf 0%nat c eq_refl) as Hfc. cbn in Hfc.
  assert (Hlast : (r + Z.of_nat (length (p_data c)) =? n) = (0 =? length cs)%nat).
  { destruct cs as [|d cs]; cbn [length].
    - apply Z.eqb_eq. unfold payload_size in Hsz. cbn in Hsz. lia.
    - destruct Hcs as [(_ & _ & Hd) _]. rewrite payload_size_cons in Hsz.
      pose proof (payload_size_pos cs). apply Z.eqb_neq. lia. }
  cbn [map accept_frames result_fold]. apply bind_ok. eexists. split.
  { unfold accept_frame. apply bind_require. split; [done|]. apply accept_payload_spec.
    split; [done|]. eexists. split; [done|]. cbn. split; [done|]. split; [lia|].
    split; [by rewrite Hlast|reflexivity]. }
  cbn. rewrite Hlast. destruct cs as [|d cs].
  - cbn. unfold payload_size. cbn. by rewrite Z.add_0_r.
  - cbn [length Nat.eqb]. change (result_fold _ ?s ?l) with (accept_frames l s).
    rewrite (IH ex n); [by rewrite Z.add_assoc|done|done|lia|].
    intros k x Hk. by apply (Hf (S k)).
Qed.

Lemma accept_block i pb b :
  block_ok i b ->
  accept_frames (block_frames b) (mkFraming true false i None pb)
  = Ok (mkFraming true false (i + 1) None (pb + payload_size b.2)).
Proof.
  destruct b as [e cs]. intros [He Hc Hf]. cbn [fst snd] in *.
  apply bind_ok. eexists. split.
  { unfold accept_frame. apply bind_require. split; [done|]. apply accept_entry_spec.
    split; [done|]. split; [done|]. exists (payload_size cs). split; [done|reflexivity]. }
  cbn. destruct cs as [|c cs].
  - cbn. unfold payload_size. cbn. by rewrite Z.add_0_r.
  - assert (Hne : (payload_size (c :: cs) =? 0) = false).
    { destruct Hc as [(_ & _ & Hd) _]. rewrite payload_size_cons.
      pose proof (payload_size_pos cs). apply Z.eqb_neq. lia. }
    rewrite Hne. by apply (accept_chunks (c :: cs)).
Qed.

Lemma accept_blocks bs :
  blocks_ok bs ->
  accept_frames (blocks_frames bs) (mkFraming true false 0 None 0)
  = Ok (mkFraming true false (Z.of_nat (length bs)) None (total_size bs)).
Proof.
  induction bs as [|b bs IH] using rev_ind; [done|]. intros Hb.
  rewrite blocks_frames_snoc, accept_frames_app, IH.
  - cbn. rewrite total_size_snoc, length_app, Nat2Z.inj_add. cbn. apply accept_block.
    apply Hb. by rewrite lookup_app_r, Nat.sub_diag by lia.
  - intros i x Hx. apply Hb. by apply lookup_app_l_Some.
Qed.

Lemma stream_ok_accepted fs :
  stream_ok fs -> exists ex pb, accept_frames fs new_framing = Ok (mkFraming true true ex None pb).
Proof.
  intros (h & bs & c & -> & Hh & Hbs & Hn & Hm). eexists _, _.
  cbn [accept_frames result_fold]. apply bind_ok. eexists. split.
  { unfold accept_frame. apply bind_require. split; [done|]. apply accept_header_spec.
    split_and!; try done. }
  change (result_fold _ ?s ?l) with (accept_frames l s). cbn.
  rewrite accept_frames_app, accept_blocks by done. apply bind_ok. eexists. split; [reflexivity|].
  apply bind_ok. eexists. split; [|reflexivity].
  unfold accept_frame. apply bind_require. split; [done|]. apply accept_complete_spec. split_and!; done.
Qed.

Lemma accept_frames_iff fs :
  (exists s, accept_frames fs new_framing = Ok s /\ sawComplete s = true) <-> stream_ok fs.
Proof.
  split.
  - intros (s & Ha & Hs). apply (phase_sawComplete _ s); [|done].
    by apply (accept_frames_phase fs [] new_framing); [apply phase_start|].
  - intros (ex & pb & Ha)%stream_ok_accepted. by eexists.
Qed.

(** ** The generator and the transport together *)

#[local] Arguments accept_frames : simpl never.

Record stream_inv (s : stream) : Prop := mkStreamInv {
  si_flowing : paused s = false -> (length (queue s) < MAX_FRAME_QUEUE)%nat;
  si_paused : paused s = true -> (RESUME_FRAME_QUEUE < length (queue s) <= MAX_FRAME_QUEUE)%nat;
  si_waiting : waiting s = true ->
    queue s = [] /\ ended s = false /\ aborted s = false /\ outcome s = None;
  si_error : ended s = false -> streamError s = None;
  si_locals : accept_frames (yielded s) new_framing = Ok (locals s);
  si_order : match outcome s with
    | Some (Threw _) => exists r, (length r <= 1)%nat /\ delivered s = yielded s ++ r ++ queue s
    | _ => delivered s = yielded s ++ queue s
    end;
  si_returned : outcome s = Some Returned ->
    queue s = [] /\ ended s = true /\ streamError s = None /\ sawComplete (locals s) = true;
  si_threw e : outcome s = Some (Threw e) -> cancelled s = true
}.

Lemma new_stream_inv a : stream_inv (new_stream a).
Proof. constructor; cbn; try done. unfold MAX_FRAME_QUEUE. lia. Qed.

Lemma on_data_inv f s : paused s = false -> ended s = false -> stream_inv s -> stream_inv (on_data f s).
Proof.
  intros Hp He [H1 H2 H3 H4 H5 H6 H7 H8]. specialize (H1 Hp).
  constructor; cbn; try done.
  - rewrite Hp, length_app. cbn. intros H. bool_prop. unfold MAX_FRAME_QUEUE in *. lia.
  - rewrite Hp, length_app. cbn. intros H. bool_prop. unfold MAX_FRAME_QUEUE, RESUME_FRAME_QUEUE in *. lia.
  - destruct (outcome s) as [[| |]|]; rewrite ?H6, ?app_assoc; try done.
    destruct H6 as (r & Hr & ->). exists r. split; [done|]. by rewrite <- !app_assoc.
  - intros Ho. destruct (H7 Ho) as (_ & ? & _). congruence.
Qed.

Lemma on_end_inv s : ended s = false -> stream_inv s -> stream_inv (on_end s).
Proof.
  intros He [H1 H2 H3 H4 H5 H6 H7 H8]. constructor; cbn; try done.
  intros Ho. destruct (H7 Ho) as (_ & ? & _). congruence.
Qed.

Lemma on_error_inv e s : ended s = false -> stream_inv s -> stream_inv (on_error e s).
Proof.
  intros He [H1 H2 H3 H4 H5 H6 H7 H8]. constructor; cbn; try done.
  intros Ho. destruct (H7 Ho) as (_ & ? & _). congruence.
Qed.

Lemma on_abort_inv s : stream_inv s -> stream_inv (on_abort s).
Proof.
  intros [H1 H2 H3 H4 H5 H6 H7 H8]. constructor; cbn; try done.
  - intros Hw. apply andb_true_iff in Hw as [Hw Hl]. destruct (H3 Hw) as (_ & _ & _ & Ho).
    by rewrite Ho in Hl.
  - intros e Ho. by rewrite (H8 e Ho).
Qed.

(** Ending without taking a frame. *)
Lemma ended_with_inv o c s :
  stream_inv s -> outcome s = None ->
  (o = Returned -> queue s = [] /\ ended s = true /\ streamError s = None /\
     sawComplete (locals s) = true) ->
  (forall e, o = Threw e -> c = true) -> stream_inv (ended_with o c s).
Proof.
  intros [H1 H2 H3 H4 H5 H6 H7 H8] Ho Hret Hthrow. rewrite Ho in H6.
  constructor; cbn; try done.
  - destruct o; try done. exists []. split; [cbn; lia|done].
  - intros [= ->]. by apply Hret.
  - intros e [= ->]. by rewrite (Hthrow e eq_refl), orb_true_r.
Qed.

Lemma fail_with_inv e s : stream_inv s -> outcome s = None -> stream_inv (fail_with e s).
Proof. intros Hi Ho. by apply ended_with_inv. Qed.

Lemma turn_inv s : stream_inv s -> outcome s = None -> stream_inv (turn s).
Proof.
  intros Hi Ho. unfold turn. destruct (queue s) as [|f rest] eqn:Eq.
  - destruct (ended s) eqn:Ee.
    + destruct (streamError s) eqn:Es; [by apply fail_with_inv|].
      destruct (sawHeader (locals s) && sawComplete (locals s)) eqn:El; [|by apply fail_with_inv].
      apply andb_true_iff in El as [_ El]. by apply ended_with_inv.
    + destruct (aborted s) eqn:Ea; [by apply fail_with_inv|].
      destruct Hi as [H1 H2 H3 H4 H5 H6 H7 H8]. constructor; cbn; done.
  - destruct (aborted s) eqn:Ea; [by apply fail_with_inv|].
    destruct Hi as [H1 H2 H3 H4 H5 H6 H7 H8]. rewrite Ho, Eq in H6. rewrite Eq in H1, H2. cbn in H1, H2.
    assert (Hf : paused s && negb (length rest <=? RESUME_FRAME_QUEUE)%nat = false ->
      (length rest < MAX_FRAME_QUEUE)%nat).
    { intros Hb. unfold MAX_FRAME_QUEUE, RESUME_FRAME_QUEUE in *. destruct (paused s); cbn in Hb.
      - bool_prop. lia.
      - specialize (H1 eq_refl). lia. }
    assert (Hp : paused s && negb (length rest <=? RESUME_FRAME_QUEUE)%nat = true ->
      (RESUME_FRAME_QUEUE < length rest <= MAX_FRAME_QUEUE)%nat).
    { intros Hb. apply andb_true_iff in Hb as [Hb1 Hb2]. specialize (H2 Hb1). bool_prop. lia. }
    cbn [locals shifted]. destruct (accept_frame f (locals s)) as [l|e] eqn:Ef.
    + constructor; cbn; try done; rewrite ?Ho; try done.
      * rewrite accept_frames_app, H5. cbn. unfold accept_frames. cbn. by rewrite Ef.
      * by rewrite H6, <- app_assoc.
    + constructor; cbn; try done; rewrite ?orb_true_r; try done.
      exists [f]. by split.
Qed.

Lemma stream_step_inv s s' : step s s' -> stream_inv s -> stream_inv s'.
Proof.
  intros [f s0 ? ?|e s0 ?|s0 ?|s0 ?|s0 ? Ho|s0 Hy Ho] Hi.
  - by apply on_data_inv.
  - by apply on_error_inv.
  - by apply on_end_inv.
  - by apply on_abort_inv.
  - by apply turn_inv.
  - by apply ended_with_inv.
Qed.

Lemma reachable_inv s : reachable s -> stream_inv s.
Proof.
  intros [a Hs]. revert Hs. generalize (new_stream_inv a). generalize (new_stream a).
  intros t Ht Hs. induction Hs as [|x y z Hxy _ IH]; [done|]. apply IH. by eapply stream_step_inv.
Qed.

(** *** The last turns of a stream that has ended *)

Lemma accept_prefix fs f gs s :
  accept_frames fs new_framing = Ok s -> stream_ok (fs ++ f :: gs) ->
  exists s', accept_frame f s = Ok s'.
Proof.
  intros Ha (ex & pb & Hs)%stream_ok_accepted. rewrite accept_frames_app, Ha in Hs. cbn in Hs.
  apply bind_ok in Hs as (s' & Hs' & _). by exists s'.
Qed.

Lemma drain n : forall s,
  n = length (queue s) -> stream_inv s -> outcome s = None -> ended s = true -> aborted s = false ->
  streamError s = None -> stream_ok (delivered s) ->
  outcome (Nat.iter (S n) turn s) = Some Returned /\
  yielded (Nat.iter (S n) turn s) = delivered s.
Proof.
  induction n as [|n IH]; intros s En Hi Ho He Ha Hse Hok.
  - symmetry in En. apply nil_length_inv in En. pose proof (si_order s Hi) as Hord.
    pose proof (si_locals s Hi) as Hl. rewrite Ho, En, app_nil_r in Hord. rewrite Hord in Hok.
    destruct (stream_ok_accepted _ Hok) as (ex & pb & Hacc). rewrite Hl in Hacc.
    apply Ok_inj in Hacc. cbn. unfold turn. rewrite En, He, Hse, Hacc. cbn. done.
  - destruct (queue s) as [|f rest] eqn:Eq; [done|]. cbn in En. injection En as En.
    pose proof (si_order s Hi) as Hord. rewrite Ho, Eq in Hord. rewrite Hord in Hok.
    destruct (accept_prefix _ _ _ _ (si_locals s Hi) Hok) as [l Hl].
    assert (Ht : turn s = yield_frame f l (shifted rest s)).
    { unfold turn. rewrite Eq, Ha. cbn. by rewrite Hl. }
    rewrite Nat.iter_succ_r.
    assert (Hd : delivered (turn s) = delivered s) by by rewrite Ht.
    rewrite <- Hd. apply IH; try (rewrite Ht; done); [by apply turn_inv|].
    by rewrite Hd, Hord.
Qed.

(** *** Running a schedule *)

Inductive action := AData (f : frame) | AError (e : exn) | AEnd | AAbort | ATurn | ALeave.

Definition perform (a : action) (s : stream) : option stream :=
  match a with
  | AData f => if negb (paused s) && negb (ended s) then Some (on_data f s) else None
  | AError e => if negb (ended s) then Some (on_error e s) else None
  | AEnd => if negb (ended s) then Some (on_end s) else None
  | AAbort => if negb (aborted s) then Some (on_abort s) else None
  | ATurn => if negb (waiting s) && negb (bool_decide (is_Some (outcome s))) then Some (turn s) else None
  | ALeave => if at_yield s && negb (bool_decide (is_Some (outcome s))) then Some (abandon s) else None
  end.

Fixpoint perform_all (l : list action) (s : stream) : option stream :=
  match l with [] => Some s | a :: l => perform a s ≫= perform_all l end.

Lemma no_outcome s : bool_decide (is_Some (outcome s)) = false -> outcome s = None.
Proof. by destruct (outcome s). Qed.

Lemma perform_step a s s' : perform a s = Some s' -> step s s'.
Proof.
  intros Hp. destruct a; unfold perform in Hp;
    match type of Hp with (if ?b then _ else _) = _ => destruct b eqn:E end;
    try discriminate Hp; injection Hp as <-; bool_prop.
  - by apply step_data.
  - by apply step_error.
  - by apply step_end.
  - by apply step_abort.
  - apply step_turn; [done|by apply no_outcome; apply bool_decide_eq_false].
  - apply step_leave; [done|by apply no_outcome; apply bool_decide_eq_false].
Qed.

Lemma perform_all_reachable l s : perform_all l (new_stream false) = Some s -> reachable s.
Proof.
  intros Hl. exists false. revert Hl. generalize (new_stream false).
  induction l as [|a l IH]; intros t Ht; cbn in Ht; [by injection Ht as ->|].
  destruct (perform a t) as [t1|] eqn:E; [|done]. cbn in Ht.
  eapply rtc_l; [by eapply perform_step|by apply IH].
Qed.

(** ** Theorems *)

(** The kinds of an entry on the wire and in a document correspond
    one to one. *)
Theorem kind_proto_roundtrip :
  (forall k, changeLogKindFromProto (CHANGE_LOG_KIND_TO_PROTO k) = Some k) /\
  (forall n k, changeLogKindFromProto n = Some k -> CHANGE_LOG_KIND_TO_PROTO k = n).
Proof.
  split; [by intros []|]. intros n k Hk. unfold changeLogKindFromProto in Hk.
  repeat case_match; try done; injection Hk as <-; bool_prop; by subst n.
Qed.

(** C3 The frames of an export are accepted up to a completion exactly
    when they are a well-formed stream: one header, then the entries with
    indices 0, 1, ... in order, each followed by the chunks of its payload,
    which are contiguous, non-empty, of bounded size, add up to the declared
    length and have the marker on the last one only, then one completion with
    the number of entries and of payload bytes, and nothing after it. *)
Theorem frames_accepted_exactly fs :
  (exists s, accept_frames fs new_framing = Ok s /\ sawComplete s = true) <-> stream_ok fs.
Proof. apply accept_frames_iff. Qed.

(** However the transport and the consumer interleave, at most
    four frames are queued, the generator sleeps only when there is nothing
    for it to do (no frame, no end, no cancellation: no wake-up is lost), and
    the stream is paused only while the generator has frames to take, so the
    two never wait for each other. *)
Theorem export_flow_control s :
  reachable s ->
  (length (queue s) <= MAX_FRAME_QUEUE)%nat /\
  (waiting s = true -> queue s = [] /\ ended s = false /\ aborted s = false /\ paused s = false) /\
  (paused s = true -> waiting s = false /\ queue s <> []).
Proof.
  intros Hi%reachable_inv. pose proof (si_flowing s Hi) as Hf. pose proof (si_paused s Hi) as Hp.
  pose proof (si_waiting s Hi) as Hw. split_and!.
  - destruct (paused s); [destruct (Hp eq_refl)|specialize (Hf eq_refl)]; lia.
  - intros (Eq & ? & ? & ?)%Hw. split_and!; try done.
    destruct (paused s); [|done]. destruct (Hp eq_refl) as [Hl _]. rewrite Eq in Hl. cbn in Hl. lia.
  - intros Ep. destruct (Hp Ep) as [Hl _].
    assert (Hne : queue s <> []) by (intros E; rewrite E in Hl; cbn in Hl; lia).
    split; [|done]. destruct (waiting s) eqn:E; [|done]. by destruct (Hw eq_refl).
Qed.

(** C37 Whatever is handed out has passed the checks, in the order it was
    received.  If the generator returns, the transport ended without an
    error, every frame received was handed out, and they form a complete
    well-formed stream; if it throws, the call has been cancelled. *)
Theorem export_yields_valid_stream s :
  reachable s ->
  accept_frames (yielded s) new_framing = Ok (locals s) /\
  yielded s `prefix_of` delivered s /\
  (outcome s = Some Returned ->
     stream_ok (delivered s) /\ yielded s = delivered s /\ streamError s = None) /\
  (forall e, outcome s = Some (Threw e) -> cancelled s = true).
Proof.
  intros Hi%reachable_inv. pose proof (si_order s Hi) as Ho. pose proof (si_locals s Hi) as Hl.
  split_and!; [done| | |apply (si_threw s Hi)].
  - destruct (outcome s) as [[|e|]|]; rewrite ?Ho; try by eexists.
    destruct Ho as (r & _ & ->). by eexists.
  - intros Hr. destruct (si_returned s Hi Hr) as (Eq & _ & Es & Hc).
    rewrite Hr, Eq, app_nil_r in Ho. rewrite Ho. split_and!; try done.
    apply accept_frames_iff. by eexists.
Qed.

(** C38 When the transport has delivered a well-formed stream and
    ended, the generator hands out all of it and returns: one turn for each
    frame still queued and one more. *)
Theorem export_completes s :
  reachable s -> outcome s = None -> ended s = true -> aborted s = false -> streamError s = None ->
  stream_ok (delivered s) ->
  outcome (Nat.iter (S (length (queue s))) turn s) = Some Returned /\
  yielded (Nat.iter (S (length (queue s))) turn s) = delivered s.
Proof. intros Hi%reachable_inv. by apply drain. Qed.

(** *** A sample stream *)

Definition sample_stream_fingerprint : option ChangeLogStreamFingerprint :=
  Some (mkStreamFingerprint (js "10") (js "omega.example.openssl_digests") (js "sha256") (js "ab")).

Definition sample_frames : list frame :=
  [FHeader (mkStreamHeader 3 (js "1") (js "2") (js "2") sample_stream_fingerprint
     sample_stream_fingerprint false);
   FEntry (mkEntryHeader (js "0") 2 (js "5") (js "3") (js "3") None);
   FPayload (mkChunk (js "0") (js "0") [1; 2] false);
   FPayload (mkChunk (js "0") (js "2") [3] true);
   FEntry (mkEntryHeader (js "1") 4 (js "0") (js "4") (js "0") None);
   FComplete (mkComplete (js "2") (js "3"))].

Definition sample_schedule : list action :=
  [ATurn] ++ map AData (take 4 sample_frames) ++ [ATurn; ATurn] ++ map AData (drop 4 sample_frames)
  ++ [ATurn; ATurn; ATurn; AEnd].

Definition sample_stream : stream :=
  default (new_stream false) (perform_all sample_schedule (new_stream false)).

Lemma export_flow_control_witness : (length (queue sample_stream) <= MAX_FRAME_QUEUE)%nat.
Proof.
  apply (export_flow_control sample_stream).
  apply (perform_all_reachable sample_schedule). vm_compute. reflexivity.
Defined.

Lemma export_yields_valid_stream_witness :
  stream_ok (delivered (turn (turn sample_stream))).
Proof.
  apply (export_yields_valid_stream (turn (turn sample_stream))).
  - apply (perform_all_reachable (sample_schedule ++ [ATurn; ATurn])). vm_compute. reflexivity.
  - vm_compute. reflexivity.
Defined.

Lemma export_completes_witness :
  outcome (Nat.iter (S (length (queue sample_stream))) turn sample_stream) = Some Returned.
Proof.
  apply (export_completes sample_stream).
  - apply (perform_all_reachable sample_schedule). vm_compute. reflexivity.
  - vm_compute. reflexivity.
  - vm_compute. reflexivity.
  - vm_compute. reflexivity.
  - vm_compute. reflexivity.
  - apply accept_frames_iff. eexists. split; vm_compute; reflexivity.
Defined.

(** *** A consumer that leaves *)

Lemma abandoned_forever s s' :
  outcome s = Some Abandoned -> cancelled s = false -> paused s = true -> rtc step s s' ->
  cancelled s' = false /\ paused s' = true.
Proof.
  intros Ho Hc Hp Hs. revert Ho Hc Hp.
  induction Hs as [|x y z Hxy _ IH]; intros Ho Hc Hp; [done|]. apply IH.
  all: destruct Hxy; cbn; try done; try congruence; by rewrite Ho, Hc.
Qed.

Definition abandoned_schedule : list action :=
  AData (hd FEmpty sample_frames) :: ATurn :: map AData (take 4 (drop 1 sample_frames)) ++ [ALeave].

Definition abandoned_sample : stream :=
  default (new_stream false) (perform_all abandoned_schedule (new_stream false)).

(** A consumer that leaves the loop over the frames at a [yield],
    as an output limit makes the file writer do, does not cancel the call:
    the [catch] that cancels is not run, and a stream that was paused stays
    paused and open for good. *)
Theorem abandoned_export_never_cancelled :
  exists s, reachable s /\ outcome s = Some Abandoned /\ ended s = false /\
    forall s', rtc step s s' -> cancelled s' = false /\ paused s' = true.
Proof.
  exists abandoned_sample. split.
  { apply (perform_all_reachable abandoned_schedule). vm_compute. reflexivity. }
  split; [vm_compute; reflexivity|]. split; [vm_compute; reflexivity|].
  intros s'. apply abandoned_forever; vm_compute; reflexivity.
Qed.
