(* ===== verification/ChangeLogStream.v ===== *)
(** * The change-log scanner ([packages/client/src/changeLog/stream.ts])

    A change log is read in chunks as they arrive: a cursor decodes them and
    hands out characters and the raw text of values, the scanner on top of it
    reads the document property by property and its entries one at a time.

    The scanner is written against the interface [JsonCursor].  One instance
    is the streaming cursor of the source; the other reads a text that is all
    there, and serves as its specification.  [ChangeLogChunks] shows that the
    two agree. *)

From S2P Require Import Prelude JsText JsValue ChangeLogCodec.

Open Scope jsm_scope.

(** ** Decoding in pieces

    [TextDecoder] with [fatal] and [stream]: a sequence that is not finished
    at the end of a chunk is kept; a byte order mark at the start is dropped. *)

Record partial_point := mkPartial {
  pp_value : Z;      (* the bits so far *)
  pp_needed : nat;   (* bytes still needed *)
  pp_lower : Z;      (* the range of the next byte *)
  pp_upper : Z
}.

Record decoder := mkDecoder { d_partial : option partial_point; d_started : bool }.

Definition new_decoder : decoder := mkDecoder None false.

Definition emit_point (p : Z) (d : decoder) : jsstring * decoder :=
  (if negb (d_started d) && (p =? 65279) then [] else utf16_point p, mkDecoder None true).

Definition decode_byte (b : Z) (d : decoder) : option (jsstring * decoder) :=
  match d_partial d with
  | None =>
      if in_range 0 127 b then Some (emit_point b d)
      else if in_range 194 223 b then
        Some ([], mkDecoder (Some (mkPartial (b - 192) 1 128 191)) (d_started d))
      else if in_range 224 239 b then
        Some ([], mkDecoder (Some (mkPartial (b - 224) 2 (if b =? 224 then 160 else 128)
          (if b =? 237 then 159 else 191))) (d_started d))
      else if in_range 240 244 b then
        Some ([], mkDecoder (Some (mkPartial (b - 240) 3 (if b =? 240 then 144 else 128)
          (if b =? 244 then 143 else 191))) (d_started d))
      else None
  | Some p =>
      if in_range (pp_lower p) (pp_upper p) b then
        let value := 64 * pp_value p + (b - 128) in
        if (pp_needed p =? 1)%nat then Some (emit_point value d)
        else Some ([], mkDecoder (Some (mkPartial value (pred (pp_needed p)) 128 191)) (d_started d))
      else None
  end.

(** [decoder.decode(bytes, { stream: true })]; [None] is a [TypeError]. *)
Fixpoint decode_bytes (bs : list Z) (d : decoder) : option (jsstring * decoder) :=
  match bs with
  | [] => Some ([], d)
  | b :: bs =>
      '(s, d) ← decode_byte b d;
      '(t, d) ← decode_bytes bs d;
      Some (s ++ t, d)
  end.

(** [decoder.decode()] *)
Definition decode_flush (d : decoder) : option jsstring :=
  match d_partial d with None => Some [] | Some _ => None end.

(** What the source yields: strings are taken as they are. *)
Inductive chunk := TextChunk (s : jsstring) | ByteChunk (bs : list Z).

Definition chunk_size (c : chunk) : Z :=
  match c with TextChunk s => slen (utf8_encode s) | ByteChunk bs => Z.of_nat (length bs) end.

Definition decode_chunk (c : chunk) (d : decoder) : option (jsstring * decoder) :=
  match c with TextChunk s => Some (s, d) | ByteChunk bs => decode_bytes bs d end.

(** ** The interface between the scanner and a cursor *)

Class JsonCursor (C : Type) := {
  poll : M C unit;                            (* throwIfChangeLogCancelled *)
  peek : M C (option Z);
  take_char : M C (option Z);
  skipWhitespace : M C unit;
  readRawValue : Z -> Z -> M C jsstring
}.

Definition invalid_json : exn := codec_error "CHANGE_LOG_INVALID_JSON".
Definition invalid_unicode : exn := codec_error "CHANGE_LOG_INVALID_UNICODE".

(** A loop that has used up its fuel; no loop below does. *)
Definition out_of_fuel : exn := Exn "OutOfFuel" "".

Definition is_json_space (c : Z) : bool := (c =? 32) || (c =? 10) || (c =? 13) || (c =? 9).

(** ** The characters of a value *)

Inductive value_mode := ModeString | ModeContainer | ModePrimitive.

#[global] Instance value_mode_eq_dec : EqDecision value_mode.
Proof. solve_decision. Defined.

Record scan_state := mkScanState { inString : bool; escaped : bool; nesting : Z }.

Definition new_scan_state : scan_state := mkScanState false false 0.

Definition mode_of (first : Z) : value_mode :=
  if first =? 34 then ModeString
  else if (first =? 123) || (first =? 91) then ModeContainer
  else ModePrimitive.

Definition ends_primitive (c : Z) : bool :=
  (c =? 44) || (c =? 125) || (c =? 93) || is_json_space c.

(** One turn of the inner loop: the value ended before this character, it
    ends with it, or it goes on. *)
Inductive char_step := Before | Last | More (st : scan_state) | Bad (e : exn).

Definition scan_char (mode : value_mode) (maxNesting : Z) (c : Z) (st : scan_state) : char_step :=
  if bool_decide (mode = ModePrimitive) && negb (inString st) && (nesting st =? 0)
     && ends_primitive c
  then Before
  else if inString st then
    if escaped st then More (mkScanState true false (nesting st))
    else if c =? 92 then More (mkScanState true true (nesting st))
    else if c =? 34 then
      if bool_decide (mode = ModeString) && (nesting st =? 0) then Last
      else More (mkScanState false (escaped st) (nesting st))
    else More st
  else if c =? 34 then More (mkScanState true (escaped st) (nesting st))
  else if (c =? 123) || (c =? 91) then
    if maxNesting <? nesting st + 1 then Bad (codec_error "CHANGE_LOG_NESTING_LIMIT")
    else More (mkScanState false (escaped st) (nesting st + 1))
  else if (c =? 125) || (c =? 93) then
    if nesting st - 1 <? 0 then Bad invalid_json
    else if bool_decide (mode = ModeContainer) && (nesting st - 1 =? 0) then Last
    else More (mkScanState false (escaped st) (nesting st - 1))
  else More st.

(** ** The streaming cursor *)

Record cursor := mkCursor {
  c_source : list chunk;     (* what the iterator has not yielded yet *)
  c_decoder : decoder;
  c_buffer : jsstring;
  c_position : nat;
  c_ended : bool;
  c_decoderFlushed : bool;
  c_bytesRead : Z;
  c_maxBufferedChars : Z;
  c_maxValueChars : Z;
  c_polls : nat              (* how often the signal has been looked at *)
}.

Definition new_cursor (source : list chunk) : cursor :=
  mkCursor source new_decoder [] 0 false false 0 0 0 0.

Record ChangeLogScanDiagnostics := mkDiagnostics {
  bytesRead : Z; maxBufferedChars : Z; maxValueChars : Z
}.

Definition diagnostics (c : cursor) : ChangeLogScanDiagnostics :=
  mkDiagnostics (c_bytesRead c) (c_maxBufferedChars c) (c_maxValueChars c).

Definition remaining (c : cursor) : jsstring := drop (c_position c) (c_buffer c).

Section Streaming.
(** Whether the signal is found aborted at a look at it. *)
Variable aborted : nat -> bool.

Definition polled (c : cursor) : cursor :=
  mkCursor (c_source c) (c_decoder c) (c_buffer c) (c_position c) (c_ended c) (c_decoderFlushed c)
    (c_bytesRead c) (c_maxBufferedChars c) (c_maxValueChars c) (S (c_polls c)).

Definition poll_cursor : M cursor unit := fun c =>
  (polled c, throwIfChangeLogCancelled (aborted (c_polls c))).

(** The state after [next] was done: the decoder is flushed once. *)
Definition at_end (c : cursor) : cursor * result bool :=
  let c := mkCursor [] (c_decoder c) (c_buffer c) (c_position c) true (c_decoderFlushed c)
    (c_bytesRead c) (c_maxBufferedChars c) (c_maxValueChars c) (c_polls c) in
  if c_decoderFlushed c then (c, Ok false)
  else
    match decode_flush (c_decoder c) with
    | None => (mkCursor [] (c_decoder c) (c_buffer c) (c_position c) true true
        (c_bytesRead c) (c_maxBufferedChars c) (c_maxValueChars c) (c_polls c),
        Throw invalid_unicode)
    | Some text =>
        (mkCursor [] (c_decoder c) text 0 true true (c_bytesRead c)
          (Z.max (c_maxBufferedChars c) (slen text)) (c_maxValueChars c) (c_polls c),
         Ok (0 <? slen text))
    end.

Definition load (rest : list chunk) (size : Z) (text : jsstring) (d : decoder) (c : cursor) : cursor :=
  mkCursor rest d text 0 (c_ended c) (c_decoderFlushed c) (c_bytesRead c + size)
    (Z.max (c_maxBufferedChars c) (slen text)) (c_maxValueChars c) (c_polls c).

(** The loop of [fill], on what the iterator has left. *)
Fixpoint fill_loop (source : list chunk) (c : cursor) : cursor * result bool :=
  if (length (c_buffer c) <=? c_position c)%nat && negb (c_ended c) then
    match poll_cursor c with
    | (c, Throw e) => (c, Throw e)
    | (c, Ok _) =>
        match source with
        | [] => at_end c
        | ch :: rest =>
            match decode_chunk ch (c_decoder c) with
            | None => (c, Throw invalid_unicode)
            | Some (text, d) => fill_loop rest (load rest (chunk_size ch) text d c)
            end
        end
    end
  else (c, Ok (c_position c <? length (c_buffer c))%nat).

Definition fill : M cursor bool := fun c => fill_loop (c_source c) c.

Definition move (n : nat) (c : cursor) : cursor :=
  mkCursor (c_source c) (c_decoder c) (c_buffer c) (c_position c + n) (c_ended c)
    (c_decoderFlushed c) (c_bytesRead c) (c_maxBufferedChars c) (c_maxValueChars c) (c_polls c).

Definition cursor_peek : M cursor (option Z) :=
  let* more := fill in
  if more then getM (fun c => c_buffer c !! c_position c) else retM None.

Definition cursor_take : M cursor (option Z) :=
  let* more := fill in
  if more then
    let* char := getM (fun c => c_buffer c !! c_position c) in
    putM (move 1) ;;; retM char
  else retM None.

(** The most characters the cursor can still hand out: a byte gives two code
    units at most.  The fuel of the loops. *)
Definition chunk_chars (ch : chunk) : nat :=
  match ch with TextChunk s => length s | ByteChunk bs => 2 * length bs end.

Definition chars_left (c : cursor) : nat :=
  (length (remaining c) + sum_list_with chunk_chars (c_source c))%nat.

Fixpoint skip_loop (fuel : nat) : M cursor unit :=
  match fuel with
  | O => throwM out_of_fuel
  | S fuel =>
      let* char := cursor_peek in
      if match char with Some c => is_json_space c | None => false end
      then putM (move 1) ;;; skip_loop fuel
      else retM tt
  end.

Definition cursor_skipWhitespace : M cursor unit := fun c => skip_loop (S (chars_left c)) c.

(** The inner loop of [readRawValue]: the characters taken from the buffer,
    and whether the value is complete. *)
Fixpoint scan_piece (mode : value_mode) (maxNesting : Z) (rest : jsstring) (st : scan_state)
    (taken : nat) : result (nat * scan_state * bool) :=
  match rest with
  | [] => Ok (taken, st, false)
  | c :: rest =>
      match scan_char mode maxNesting c st with
      | Before => Ok (taken, st, true)
      | Last => Ok (S taken, st, true)
      | More st => scan_piece mode maxNesting rest st (S taken)
      | Bad e => Throw e
      end
  end.

(** The statistics after a piece has been added to a value of length [total]. *)
Definition note_value (total : Z) (c : cursor) : cursor :=
  mkCursor (c_source c) (c_decoder c) (c_buffer c) (c_position c) (c_ended c) (c_decoderFlushed c)
    (c_bytesRead c) (Z.max (c_maxBufferedChars c) (total + slen (remaining c)))
    (Z.max (c_maxValueChars c) total) (c_polls c).

(** Add a piece of [n] characters to the value. *)
Definition add_piece (n : nat) (maxChars : Z) (raw : jsstring) : M cursor jsstring := fun c =>
  let raw := raw ++ take n (remaining c) in
  let c := move n c in
  if (n =? 0)%nat then (c, Ok raw)
  else (note_value (slen raw) c,
    if maxChars <? slen raw then Throw (codec_error "CHANGE_LOG_VALUE_LIMIT") else Ok raw).

Fixpoint raw_loop (fuel : nat) (mode : value_mode) (maxChars maxNesting : Z) (st : scan_state)
    (raw : jsstring) : M cursor jsstring :=
  match fuel with
  | O => throwM out_of_fuel
  | S fuel =>
      poll_cursor ;;;
      let* more := fill in
      if more then
        let* rest := getM remaining in
        let* piece := liftM (scan_piece mode maxNesting rest st 0) in
        let* raw := add_piece piece.1.1 maxChars raw in
        if (piece.2 : bool) then retM raw
        else raw_loop fuel mode maxChars maxNesting piece.1.2 raw
      else if bool_decide (mode = ModePrimitive) && (0 <? slen raw) then retM raw
      else throwM invalid_json
  end.

Definition non_empty {C} (raw : jsstring) : M C jsstring :=
  if (length raw =? 0)%nat then throwM invalid_json else retM raw.

Definition cursor_readRawValue (maxChars maxNesting : Z) : M cursor jsstring :=
  cursor_skipWhitespace ;;;
  let* first := cursor_peek in
  match first with
  | None => throwM invalid_json
  | Some first =>
      let* fuel := getM (fun c => S (chars_left c)) in
      let* raw := raw_loop fuel (mode_of first) maxChars maxNesting new_scan_state [] in
      non_empty raw
  end.

Definition StreamingJsonCursor : JsonCursor cursor := {|
  poll := poll_cursor;
  peek := cursor_peek;
  take_char := cursor_take;
  skipWhitespace := cursor_skipWhitespace;
  readRawValue := cursor_readRawValue
|}.
End Streaming.

(** ** Reading a text that is all there *)

(** The text that is left, and whether it ends well or with bytes that are
    not UTF-8. *)
Record text := mkText { t_rest : jsstring; t_valid : bool }.

Definition text_end {A} (a : A) : M text A := fun t =>
  (t, if t_valid t then Ok a else Throw invalid_unicode).

Definition text_peek : M text (option Z) := fun t =>
  match t_rest t with [] => text_end None t | c :: _ => (t, Ok (Some c)) end.

Definition text_take : M text (option Z) := fun t =>
  match t_rest t with
  | [] => text_end None t
  | c :: rest => (mkText rest (t_valid t), Ok (Some c))
  end.

Fixpoint drop_json_spaces (s : jsstring) : jsstring :=
  match s with c :: t => if is_json_space c then drop_json_spaces t else s | [] => [] end.

Definition text_skip : M text unit := fun t =>
  let t := mkText (drop_json_spaces (t_rest t)) (t_valid t) in
  match t_rest t with [] => text_end tt t | _ :: _ => (t, Ok tt) end.

Fixpoint raw_text (mode : value_mode) (maxNesting : Z) (valid : bool) (s : jsstring)
    (st : scan_state) (raw : jsstring) : result (jsstring * jsstring) :=
  match s with
  | [] =>
      if negb valid then Throw invalid_unicode
      else if bool_decide (mode = ModePrimitive) && (0 <? slen raw) then Ok (raw, [])
      else Throw invalid_json
  | c :: rest =>
      match scan_char mode maxNesting c st with
      | Before => Ok (raw, s)
      | Last => Ok (raw ++ [c], rest)
      | More st => raw_text mode maxNesting valid rest st (raw ++ [c])
      | Bad e => Throw e
      end
  end.

Definition text_raw (maxChars maxNesting : Z) : M text jsstring :=
  text_skip ;;;
  let* first := text_peek in
  match first with
  | None => throwM invalid_json
  | Some first => fun t =>
      match raw_text (mode_of first) maxNesting (t_valid t) (t_rest t) new_scan_state [] with
      | Ok (raw, rest) =>
          if maxChars <? slen raw then (t, Throw (codec_error "CHANGE_LOG_VALUE_LIMIT"))
          else non_empty raw (mkText rest (t_valid t))
      | Throw e => (t, Throw e)
      end
  end.

Definition TextCursor : JsonCursor text := {|
  poll := retM tt;
  peek := text_peek;
  take_char := text_take;
  skipWhitespace := text_skip;
  readRawValue := text_raw
|}.

(** ** Values *)

(** A container on the stack of [assertNoDuplicateJsonProperties]: the keys
    seen in an object, or an array. *)
Definition container : Type := option (list jsstring).

Definition followed_by_colon (s : jsstring) : bool :=
  match drop_json_spaces s with c :: _ => c =? 58 | [] => false end.

Section Scanner.
Context `{JsonRuntime}.

(** A string literal has ended; if it is a key, it must be new.  A text in
    quotes that [JSON.parse] reads is a string. *)
Definition note_literal (literal after : jsstring) (stack : list container)
  : result (list container) :=
  match stack with
  | Some keys :: below =>
      if followed_by_colon after then
        match JSON_parse literal ≫= as_string with
        | Some key =>
            if bool_decide (key ∈ keys) then Throw (codec_error "CHANGE_LOG_DUPLICATE_PROPERTY")
            else Ok (Some (key :: keys) :: below)
        | None => Ok stack
        end
      else Ok stack
  | _ => Ok stack
  end.

(** The loop over the raw text: [literal] is the string literal being read,
    from its opening quote, and whether the last character escapes the next. *)
Fixpoint duplicates_loop (raw : jsstring) (literal : option (jsstring * bool))
    (stack : list container) : result unit :=
  match raw with
  | [] => Ok tt
  | c :: rest =>
      match literal with
      | None =>
          if c =? 123 then duplicates_loop rest None (Some [] :: stack)
          else if c =? 91 then duplicates_loop rest None (None :: stack)
          else if (c =? 125) || (c =? 93) then duplicates_loop rest None (tail stack)
          else if c =? 34 then duplicates_loop rest (Some ([c], false)) stack
          else duplicates_loop rest None stack
      | Some (l, true) => duplicates_loop rest (Some (l ++ [c], false)) stack
      | Some (l, false) =>
          if c =? 92 then duplicates_loop rest (Some (l ++ [c], true)) stack
          else if c =? 34 then
            stack ← note_literal (l ++ [c]) rest stack; duplicates_loop rest None stack
          else duplicates_loop rest (Some (l ++ [c], false)) stack
      end
  end.

Definition assertNoDuplicateJsonProperties (raw : jsstring) : result unit :=
  duplicates_loop raw None [].

Definition parseRawJson (raw : jsstring) : result jsval :=
  _ ← assertNoDuplicateJsonProperties raw;
  match JSON_parse raw with Some v => Ok v | None => Throw invalid_json end.

(** ** The scanner *)

(** The object the header is collected in.  Assigning to [__proto__] does not
    make a property but sets the prototype, if it is given an object. *)
Record scan_document := mkScanDocument { own : jsobject; prototype : jsobject }.

Definition assign (property : jsstring) (value : jsval) (d : scan_document) : scan_document :=
  if bool_decide (property = js "__proto__")
  then match as_record value with Some o => mkScanDocument (own d) o | None => d end
  else mkScanDocument (own d ++ [(property, value)]) (prototype d).

(** A property is looked up in the object and then in its prototype. *)
Definition visible_properties (d : scan_document) : jsobject := own d ++ prototype d.

Context {C : Type} `{JsonCursor C}.

(** The entries yielded so far are part of the state: they stay yielded if
    the scan fails. *)
Definition scanning : Type := C * list NormalizedChangeLogEntry.

Definition on_cursor {A} (m : M C A) : M scanning A := fun '(c, ys) =>
  let '(c, r) := m c in ((c, ys), r).

Definition yield_entry (e : NormalizedChangeLogEntry) : M scanning unit :=
  putM (fun '(c, ys) => (c, ys ++ [e])).

Definition expect (expected : Z) : M C unit :=
  skipWhitespace ;;;
  let* actual := take_char in
  if bool_decide (actual = Some expected) then retM tt else throwM invalid_json.

Definition readPropertyName (limits : ChangeLogCodecLimits) : M C jsstring :=
  let* raw := readRawValue (Z.min (limits maxHeaderValueChars) 65536) (limits maxNesting) in
  let* value := liftM (parseRawJson raw) in
  match as_string value with Some s => retM s | None => throwM invalid_json end.

(** The delimiter after an element: [true] if it closes, [false] if another
    element follows; a comma before the closing one is refused. *)
Definition delimiter (closing : Z) : M C bool :=
  skipWhitespace ;;;
  let* d := take_char in
  if bool_decide (d = Some closing) then retM true
  else if bool_decide (d = Some 44) then
    skipWhitespace ;;;
    let* next := peek in
    if bool_decide (next = Some closing) then throwM invalid_json else retM false
  else throwM invalid_json.

Fixpoint entries_loop (fuel : nat) (limits : ChangeLogCodecLimits) (index : nat) (a : accumulator)
  : M scanning accumulator :=
  match fuel with
  | O => throwM out_of_fuel
  | S fuel =>
      let* raw := on_cursor (readRawValue (limits maxEntryChars) (limits maxNesting)) in
      let* value := liftM (parseRawJson raw) in
      liftM (validateChangeLogJsonValue limits 0 value) ;;;
      let* entry := liftM (normalizeChangeLogEntry value limits) in
      let* a := liftM (accumulator_accept limits entry (Z.of_nat index) a) in
      yield_entry entry ;;;
      let* closed := on_cursor (delimiter 93) in
      if (closed : bool) then retM a else entries_loop fuel limits (S index) a
  end.

Definition read_changes (fuel : nat) (limits : ChangeLogCodecLimits) (a : accumulator)
  : M scanning accumulator :=
  on_cursor (expect 91) ;;;
  on_cursor skipWhitespace ;;;
  let* next := on_cursor peek in
  if bool_decide (next = Some 93) then on_cursor take_char ;;; retM a
  else entries_loop fuel limits 0 a.

(** The locals of the document's loop. *)
Record scan_locals := mkScanLocals {
  l_accumulator : accumulator;
  l_document : scan_document;
  seenProperties : list jsstring;
  sawChanges : bool
}.

Definition new_locals : scan_locals :=
  mkScanLocals new_accumulator (mkScanDocument [] []) [] false.

Definition read_property (fuel : nat) (limits : ChangeLogCodecLimits) (l : scan_locals)
  : M scanning scan_locals :=
  on_cursor poll ;;;
  let* property := on_cursor (readPropertyName limits) in
  if bool_decide (property ∈ seenProperties l)
  then throwM (codec_error "CHANGE_LOG_DUPLICATE_PROPERTY")
  else
    let seen := property :: seenProperties l in
    on_cursor (expect 58) ;;;
    if bool_decide (property = js "changes") then
      let* a := read_changes fuel limits (l_accumulator l) in
      retM (mkScanLocals a (l_document l) seen true)
    else
      let* raw := on_cursor (readRawValue (limits maxHeaderValueChars) (limits maxNesting)) in
      let* value := liftM (parseRawJson raw) in
      liftM (validateChangeLogJsonValue limits 0 value) ;;;
      retM (mkScanLocals (l_accumulator l) (assign property value (l_document l)) seen (sawChanges l)).

Fixpoint properties_loop (fuel : nat) (limits : ChangeLogCodecLimits) (l : scan_locals)
  : M scanning scan_locals :=
  match fuel with
  | O => throwM out_of_fuel
  | S fuel' =>
      let* l := read_property fuel limits l in
      let* closed := on_cursor (delimiter 125) in
      if (closed : bool) then retM l else properties_loop fuel' limits l
  end.

Definition read_document (fuel : nat) (limits : ChangeLogCodecLimits) : M scanning scan_locals :=
  on_cursor (expect 123) ;;;
  on_cursor skipWhitespace ;;;
  let* next := on_cursor peek in
  if bool_decide (next = Some 125) then on_cursor take_char ;;; retM new_locals
  else properties_loop fuel limits new_locals.

Definition scan (fuel : nat) (overrides : limit_name -> option number)
  : M scanning ChangeLogScanResult :=
  let* limits := liftM (resolveChangeLogCodecLimits overrides) in
  let* l := read_document fuel limits in
  if negb (sawChanges l) then throwM (codec_error "CHANGE_LOG_INVALID_DOCUMENT")
  else
    on_cursor skipWhitespace ;;;
    let* next := on_cursor peek in
    if bool_decide (is_Some next) then throwM (codec_error "CHANGE_LOG_TRAILING_DATA")
    else liftM (accumulator_finish limits (visible_properties (l_document l)) (l_accumulator l)).
End Scanner.

(** [scanChangeLogJson]: the entries yielded, and the result with the
    diagnostics, or the error. *)
Definition scanChangeLogJson `{JsonRuntime} (source : list chunk)
    (overrides : limit_name -> option number) (aborted : nat -> bool)
  : list NormalizedChangeLogEntry * result (ChangeLogScanResult * ChangeLogScanDiagnostics) :=
  let c := new_cursor source in
  let '((c, ys), r) :=
    @scan _ _ (StreamingJsonCursor aborted) (S (chars_left c)) overrides (c, []) in
  (ys, match r with Ok s => Ok (s, diagnostics c) | Throw e => Throw e end).

Definition scanChangeLogJsonToResult `{JsonRuntime} (source : list chunk)
    (overrides : limit_name -> option number) (aborted : nat -> bool)
  : result (ChangeLogScanResult * ChangeLogScanDiagnostics) :=
  (scanChangeLogJson source overrides aborted).2.

(** The same on a text that is all there. *)
Definition scan_text `{JsonRuntime} (t : text) (overrides : limit_name -> option number)
  : list NormalizedChangeLogEntry * result ChangeLogScanResult :=
  let '((_, ys), r) := @scan _ _ TextCursor (S (length (t_rest t))) overrides (t, []) in (ys, r).
