(* ===== verification/ChangeLogChunks.v ===== *)
(** * The scanner does not depend on the chunks ([changeLog/stream.ts])

    How a change log is cut into chunks makes no difference: the streaming
    cursor agrees with the reading of the whole text on every operation, and
    so the scanner on top of it does, which is the same for both.  The loops
    of the scanner never run out of fuel, and every error is one of the
    codec's. *)

From S2P Require Import Prelude JsText JsValue ChangeLogCodec ChangeLogStream.

Open Scope jsm_scope.

(** ** Decoding *)

Lemma decode_bytes_app a b : forall d,
  decode_bytes (a ++ b) d
  = ('(s, d) ← decode_bytes a d; '(t, d) ← decode_bytes b d; Some (s ++ t, d)).
Proof.
  induction a as [|x a IH]; intros d; cbn.
  - by destruct (decode_bytes b d) as [[t d']|].
  - destruct (decode_byte x d) as [[s d1]|]; cbn; [|done]. rewrite IH.
    destruct (decode_bytes a d1) as [[t d2]|]; cbn; [|done].
    destruct (decode_bytes b d2) as [[u d3]|]; cbn; [|done]. by rewrite app_assoc.
Qed.

Lemma emit_point_length p d : (length (emit_point p d).1 <= 2)%nat.
Proof. cbn. destruct (_ && _); [cbn; lia|]. unfold utf16_point. destruct (_ <? _); cbn; lia. Qed.

Lemma decode_byte_length b d s d' : decode_byte b d = Some (s, d') -> (length s <= 2)%nat.
Proof.
  pose proof (emit_point_length b d) as H1. unfold decode_byte. intros Hd.
  destruct (d_partial d) as [p|].
  - pose proof (emit_point_length (64 * pp_value p + (b - 128)) d) as H2.
    destruct (in_range _ _ _); [|done]. destruct (_ =? _)%nat.
    + injection Hd as <- _. exact H2.
    + injection Hd as <- _. cbn. lia.
  - destruct (in_range 0 127 b); [injection Hd as <- _; exact H1|].
    repeat (destruct (in_range _ _ _); [injection Hd as <- _; cbn; lia|]). done.
Qed.

Lemma decode_bytes_length bs : forall d s d',
  decode_bytes bs d = Some (s, d') -> (length s <= 2 * length bs)%nat.
Proof.
  induction bs as [|b bs IH]; intros d s d' Hd; cbn in Hd; [by injection Hd as <- _|].
  destruct (decode_byte b d) as [[s1 d1]|] eqn:E1; [|done]. cbn in Hd.
  destruct (decode_bytes bs d1) as [[s2 d2]|] eqn:E2; [|done]. cbn in Hd. injection Hd as <- _.
  apply decode_byte_length in E1. apply IH in E2. rewrite length_app. cbn [length]. lia.
Qed.

Lemma decode_chunk_length ch d s d' :
  decode_chunk ch d = Some (s, d') -> (length s <= chunk_chars ch)%nat.
Proof.
  destruct ch as [x|bs]; cbn [decode_chunk chunk_chars].
  - by intros [= -> _].
  - apply decode_bytes_length.
Qed.

(** ** The text of a source *)

Fixpoint source_text (src : list chunk) (d : decoder) : text :=
  match src with
  | [] => mkText [] (bool_decide (is_Some (decode_flush d)))
  | ch :: src =>
      match decode_chunk ch d with
      | None => mkText [] false
      | Some (s, d) => let t := source_text src d in mkText (s ++ t_rest t) (t_valid t)
      end
  end.

Lemma source_text_length src : forall d,
  (length (t_rest (source_text src d)) <= sum_list_with chunk_chars src)%nat.
Proof.
  induction src as [|ch src IH]; intros d; cbn [source_text sum_list_with]; [done|].
  destruct (decode_chunk ch d) as [[s d']|] eqn:E; cbn [t_rest length]; [|lia].
  rewrite length_app. apply decode_chunk_length in E. specialize (IH d'). lia.
Qed.

(** The whole of the bytes of a source decide its text. *)
Lemma bytes_text src : forall d,
  source_text (map ByteChunk src) d
  = match decode_bytes (concat src) d ≫= (fun '(s, d) => (fun t => s ++ t) <$> decode_flush d) with
    | Some s => mkText s true
    | None => source_text (map ByteChunk src) d
    end.
Proof.
  induction src as [|bs src IH]; intros d; cbn [concat map source_text decode_chunk].
  - cbn. unfold decode_flush. by destruct (d_partial d).
  - rewrite decode_bytes_app. destruct (decode_bytes bs d) as [[s d1]|]; cbn; [|done].
    rewrite (IH d1). destruct (decode_bytes (concat src) d1) as [[t d2]|]; cbn; [|done].
    unfold decode_flush. destruct (d_partial d2); cbn; [done|]. by rewrite !app_nil_r.
Qed.

Lemma bytes_valid src : forall d,
  t_valid (source_text (map ByteChunk src) d) = true ->
  is_Some (decode_bytes (concat src) d ≫= (fun '(s, d) => (fun t => s ++ t) <$> decode_flush d)).
Proof.
  induction src as [|bs src IH]; intros d; cbn [concat map source_text decode_chunk].
  - cbn. unfold decode_flush. by destruct (d_partial d).
  - rewrite decode_bytes_app. destruct (decode_bytes bs d) as [[s d1]|]; cbn; [|done].
    intros [x Hx]%IH. destruct (decode_bytes (concat src) d1) as [[t d2]|]; [|done].
    cbn in *. unfold decode_flush in *. by destruct (d_partial d2).
Qed.

Lemma same_bytes_same_text src src' :
  concat src = concat src' -> t_valid (source_text (map ByteChunk src) new_decoder) = true ->
  source_text (map ByteChunk src') new_decoder = source_text (map ByteChunk src) new_decoder.
Proof.
  intros E Hv. rewrite (bytes_text src), (bytes_text src'), <- E.
  apply bytes_valid in Hv as [s Hs]. by rewrite Hs.
Qed.

(** ** Errors are the codec's *)

Definition codec_class (e : exn) : Prop :=
  exn_class e = "ChangeLogCodecError"%string \/ exn_class e = "ChangeLogCancelledError"%string.

Definition coded {A} (r : result A) : Prop :=
  match r with Ok _ => True | Throw e => codec_class e end.

Lemma coded_bind {A B} (m : result A) (f : A -> result B) :
  coded m -> (forall a, coded (f a)) -> coded (x ← m; f x).
Proof. destruct m; cbn; auto. Qed.

Lemma coded_codec {A} code : @coded A (Throw (codec_error code)).
Proof. by left. Qed.

Lemma coded_require b code : coded (require b (codec_error code)).
Proof. destruct b; [done|by left]. Qed.

Ltac coded :=
  repeat first
    [ exact I | intros ? | apply coded_codec | apply coded_require
    | apply coded_bind; [|intros ?] | eassumption | case_match | progress cbn [coded] ].

Lemma coded_parse_int64 v : coded (parseChangeLogNonNegativeInt64 v).
Proof. unfold parseChangeLogNonNegativeInt64. coded. Qed.

Lemma coded_parse_positive v : coded (parseChangeLogPositiveInt64 v).
Proof. unfold parseChangeLogPositiveInt64. apply coded_bind; [apply coded_parse_int64|]. coded. Qed.

Lemma coded_unicode s : coded (assertValidUnicodeString s).
Proof.
  assert (H : forall n s, (length s <= n)%nat -> coded (assertValidUnicodeString s)).
  { intros n. induction n as [|n IH]; intros [|c t] Hl; cbn; try done; cbn in Hl; [lia|].
    destruct (high_surrogate c).
    - destruct t as [|d t]; [coded|]. destruct (low_surrogate d); [|coded]. apply IH. cbn in Hl. lia.
    - destruct (low_surrogate c); [coded|]. apply IH. lia. }
  by apply (H (length s)).
Qed.

(** Values are nested: the list cases need the induction hypothesis. *)
Lemma coded_validate limits : forall v depth, coded (validateChangeLogJsonValue limits depth v).
Proof.
  fix IH 1. intros v depth. destruct v as [| |b|n|z|s|l|o]; unfold validateChangeLogJsonValue;
    (destruct (limits maxNesting <? depth); [apply coded_codec|]); try exact I.
  - destruct (_ <? _); [apply coded_codec|apply coded_unicode].
  - induction l as [|v l IHl]; [exact I|]. apply coded_bind; [apply IH|intros _; apply IHl].
  - induction o as [|[k v] o IHo]; [exact I|]. apply coded_bind; [apply coded_unicode|intros _].
    apply coded_bind; [apply IH|intros _; apply IHo].
Qed.

Lemma coded_hex v : coded (normalizeHex v).
Proof. unfold normalizeHex. coded. Qed.

Lemma coded_transform `{JsonRuntime} data limits : coded (parseTransformDescriptor data limits).
Proof.
  unfold parseTransformDescriptor, decodeHexUtf8. destruct (_ =? _)%nat; [coded|].
  apply coded_bind; [coded|intros s]. destruct (JSON_parse s); [|coded].
  apply coded_bind; [apply coded_validate|intros _]. coded.
Qed.

Lemma coded_entry `{JsonRuntime} v limits : coded (normalizeChangeLogEntry v limits).
Proof.
  unfold normalizeChangeLogEntry, normalize_serial, normalize_group.
  apply coded_bind; [apply coded_validate|intros _]. destruct (as_record v) as [o|]; [|coded].
  destruct (kind_of _) as [k|]; [|coded].
  do 2 (apply coded_bind; [apply coded_parse_int64|intros ?]).
  apply coded_bind; [apply coded_hex|intros ?]. do 2 (apply coded_bind; [coded|intros ?]).
  apply coded_bind; [destruct (is_undefined _); [coded|]|intros ?].
  { apply coded_bind; [apply coded_parse_positive|coded]. }
  apply coded_bind; [coded|intros ?]. apply coded_bind; [|coded].
  destruct (bool_decide _); [|coded]. apply coded_bind; [coded|intros _].
  apply coded_bind; [apply coded_transform|coded].
Qed.

Lemma coded_fingerprint v : coded (normalizeChangeLogFingerprint v).
Proof.
  unfold normalizeChangeLogFingerprint. destruct (as_record v); [|coded].
  apply coded_bind; [apply coded_parse_int64|intros ?]. coded.
Qed.

Lemma coded_unavailable source l : forall seen, coded (unavailable_loop source seen l).
Proof.
  induction l as [|v l IH]; intros seen; cbn; [done|].
  apply coded_bind; [apply coded_parse_positive|intros n]. do 2 (apply coded_bind; [coded|intros _]).
  apply coded_bind; [apply IH|coded].
Qed.

Lemma coded_header o n limits : coded (normalizeChangeLogHeader o n limits).
Proof.
  unfold normalizeChangeLogHeader, normalizeUnavailableChangeSerials.
  do 2 (apply coded_bind; [coded|intros _]). destruct (get (js "complete") o); try by coded.
  do 3 (apply coded_bind; [apply coded_parse_int64|intros ?]). do 2 (apply coded_bind; [coded|intros _]).
  apply coded_bind; [|intros ?].
  { destruct (as_array _); [|coded]. destruct (_ <? _); [coded|]. apply coded_unavailable. }
  do 2 (apply coded_bind; [coded|intros _]).
  do 2 (apply coded_bind; [apply coded_fingerprint|intros ?]). coded.
Qed.

Lemma coded_accept limits e i a : coded (accumulator_accept limits e i a).
Proof.
  unfold accumulator_accept, sequence_accept, accept_serial, accept_group, closeActiveGroup. coded.
Qed.

Lemma coded_finish limits o a : coded (accumulator_finish limits o a).
Proof. unfold accumulator_finish. apply coded_bind; [apply coded_header|coded]. Qed.

Lemma coded_limits o : coded (resolveChangeLogCodecLimits o).
Proof. unfold resolveChangeLogCodecLimits. coded. Qed.

Lemma coded_duplicates `{JsonRuntime} raw : forall l stack, coded (duplicates_loop raw l stack).
Proof.
  induction raw as [|c raw IH]; intros l stack; cbn [duplicates_loop]; [done|].
  destruct l as [[l [|]]|]; [apply IH| |].
  - destruct (_ =? 92); [apply IH|]. destruct (_ =? 34); [|apply IH].
    apply coded_bind; [|intros ?; apply IH]. unfold note_literal. coded.
  - repeat (match goal with |- coded (if ?b then _ else _) => destruct b end; [apply IH|]). apply IH.
Qed.

Lemma coded_parse `{JsonRuntime} raw : coded (parseRawJson raw).
Proof. unfold parseRawJson. apply coded_bind; [apply coded_duplicates|coded]. Qed.

(** ** Agreement of two readers

    [agree_at K m1 m2 s1 s2]: from [s1] and [s2] the two computations give the
    same answer and related states, the second one shorter by [K] of the
    answer, or both throw an error of the codec (so not for want of fuel). *)
Section Agreement.
Context {S1 S2 : Type} (R : S1 -> S2 -> Prop) (size : S2 -> nat).

Definition agree_at {A} (K : A -> nat) (m1 : M S1 A) (m2 : M S2 A) (s1 : S1) (s2 : S2) : Prop :=
  match m1 s1, m2 s2 with
  | (s1', Ok a), (s2', Ok b) => a = b /\ R s1' s2' /\ (size s2' + K a <= size s2)%nat
  | (_, Throw e), (_, Throw e') => codec_class e /\ codec_class e'
  | _, _ => False
  end.

Definition agree {A} (K : A -> nat) (m1 : M S1 A) (m2 : M S2 A) : Prop :=
  forall s1 s2, R s1 s2 -> agree_at K m1 m2 s1 s2.

Lemma agree_bind_at {A B} (K1 : A -> nat) (K : B -> nat) m1 m2 (f1 : A -> M S1 B) f2 s1 s2 :
  agree_at K1 m1 m2 s1 s2 ->
  (forall a t1 t2, R t1 t2 -> (size t2 + K1 a <= size s2)%nat ->
     agree_at (fun b => (K b - K1 a)%nat) (f1 a) (f2 a) t1 t2) ->
  agree_at K (bindM m1 f1) (bindM m2 f2) s1 s2.
Proof.
  unfold agree_at, bindM. intros Hm Hf.
  destruct (m1 s1) as [t1 [a|e]], (m2 s2) as [t2 [a'|e']]; try done.
  destruct Hm as (-> & HR & Hs). specialize (Hf a' t1 t2 HR Hs).
  destruct (f1 a' t1) as [u1 [b|e]], (f2 a' t2) as [u2 [b'|e']]; try done.
  destruct Hf as (-> & HR' & Hs'). split; [done|]. split; [done|]. lia.
Qed.

Lemma agree_bind {A B} (K1 : A -> nat) (K : B -> nat) m1 m2 (f1 : A -> M S1 B) f2 :
  agree K1 m1 m2 -> (forall a, agree (fun b => (K b - K1 a)%nat) (f1 a) (f2 a)) ->
  agree K (bindM m1 f1) (bindM m2 f2).
Proof.
  intros Hm Hf s1 s2 HR. apply (agree_bind_at K1); [by apply Hm|]. intros a t1 t2 HR' _. by apply Hf.
Qed.

Lemma agree_weaken_at {A} (K K' : A -> nat) m1 m2 s1 s2 :
  agree_at K' m1 m2 s1 s2 -> (forall a, (K a <= K' a)%nat) -> agree_at K m1 m2 s1 s2.
Proof.
  unfold agree_at. intros Hm HK. destruct (m1 s1) as [? [a|]], (m2 s2) as [? [a'|]]; try done.
  destruct Hm as (-> & ? & ?). split; [done|]. split; [done|]. specialize (HK a'). lia.
Qed.

Lemma agree_weaken {A} (K K' : A -> nat) m1 m2 :
  agree K' m1 m2 -> (forall a, (K a <= K' a)%nat) -> agree K m1 m2.
Proof. intros Hm HK s1 s2 HR. by apply (agree_weaken_at K K'); [apply Hm|]. Qed.

Lemma agree_ret {A} (K : A -> nat) a : K a = 0%nat -> agree K (retM a) (retM a).
Proof. intros HK s1 s2 HR. cbn. rewrite HK. split; [done|]. split; [done|lia]. Qed.

Lemma agree_throw {A} (K : A -> nat) e : codec_class e -> agree K (throwM e) (throwM e).
Proof. intros He s1 s2 HR. done. Qed.

Lemma agree_lift {A} (K : A -> nat) (r : result A) :
  coded r -> (forall a, K a = 0%nat) -> agree K (liftM r) (liftM r).
Proof.
  intros Hc HK s1 s2 HR. unfold agree_at, liftM. destruct r as [a|e].
  - rewrite HK. split; [done|]. split; [done|lia].
  - by split.
Qed.
End Agreement.

Lemma agree_lift_ok {S1 S2 A B} (R : S1 -> S2 -> Prop) size (K : B -> nat) (a : A)
    (f1 : A -> M S1 B) f2 s1 s2 :
  agree_at R size K (f1 a) (f2 a) s1 s2 ->
  agree_at R size K (bindM (liftM (Ok a)) f1) (bindM (liftM (Ok a)) f2) s1 s2.
Proof. done. Qed.

(** ** The streaming cursor and the text *)

Definition size (t : text) : nat := length (t_rest t).

Record represents (c : cursor) (t : text) : Prop := mkRepresents {
  rp_position : (c_position c <= length (c_buffer c))%nat;
  rp_text : t = let later := if c_ended c then mkText [] true
      else source_text (c_source c) (c_decoder c) in
    mkText (remaining c ++ t_rest later) (t_valid later);
  rp_flushed : c_ended c = false -> c_decoderFlushed c = false
}.

Definition nothing {A} (_ : A) : nat := 0.
Definition one_if {A} (o : option A) : nat := match o with Some _ => 1 | None => 0 end.
Definition one {A} (_ : A) : nat := 1.

Section Cursor.
Variable aborted : nat -> bool.
Hypothesis quiet : forall n, aborted n = false.

Abbreviation agreed := (agree represents size).
Abbreviation agreed_at := (agree_at represents size).

Lemma represents_polled c t : represents c t -> represents (polled c) t.
Proof. by intros [H1 H2 H3]. Qed.

Lemma poll_quiet c : poll_cursor aborted c = (polled c, Ok tt).
Proof. unfold poll_cursor. by rewrite quiet. Qed.

Lemma poll_agree : agreed nothing (poll_cursor aborted) (retM tt).
Proof.
  intros c t HR. unfold agree_at. rewrite poll_quiet. cbn. split; [done|].
  split; [by apply represents_polled|unfold nothing; lia].
Qed.

Lemma remaining_nil c :
  (length (c_buffer c) <= c_position c)%nat -> remaining c = [].
Proof. intros Hl. apply drop_ge. done. Qed.

Lemma fill_loop_spec src : forall c t,
  c_source c = src -> represents c t ->
  match fill_loop aborted src c with
  | (c', Ok true) => represents c' t /\ remaining c' <> []
  | (c', Ok false) => represents c' t /\ t = mkText [] true
  | (_, Throw e) => e = invalid_unicode /\ t = mkText [] false
  end.
Proof.
  induction src as [|ch src IH]; intros c t Hsrc HR; cbn [fill_loop];
    destruct (Nat.leb_spec (length (c_buffer c)) (c_position c)) as [Hle|Hgt].
  2, 4: cbn [andb]; destruct (Nat.ltb_spec (c_position c) (length (c_buffer c))); [|lia];
    (split; [done|]); unfold remaining; intros E; apply (f_equal length) in E;
    rewrite length_drop in E; cbn in E; lia.
  - destruct HR as [H1 H2 H3]. rewrite (remaining_nil c Hle), Hsrc in H2. cbn [app] in H2.
    destruct (c_ended c) eqn:Ee; cbn [negb andb].
    + destruct (Nat.ltb_spec (c_position c) (length (c_buffer c))); [lia|].
      split; [|done]. constructor; rewrite ?Ee; try done. by rewrite (remaining_nil c Hle).
    + rewrite poll_quiet. specialize (H3 eq_refl). unfold at_end. cbn. rewrite H3.
      cbn in H2. destruct (decode_flush (c_decoder c)) as [s|] eqn:Ef; [|done].
      assert (s = []) as -> by (unfold decode_flush in Ef; destruct (d_partial _); congruence).
      cbn. split; [|done]. by constructor.
  - destruct (c_ended c) eqn:Ee; cbn [negb andb].
    + destruct (Nat.ltb_spec (c_position c) (length (c_buffer c))); [lia|]. split; [done|].
      destruct HR as [_ -> _]. by rewrite Ee, (remaining_nil c Hle).
    + rewrite poll_quiet. destruct HR as [H1 H2 H3].
      rewrite Ee, Hsrc, (remaining_nil c Hle) in H2. cbn [app source_text] in H2.
      cbn [polled c_decoder]. destruct (decode_chunk ch (c_decoder c)) as [[s d]|]; [|done].
      apply IH; [done|]. constructor; cbn; [lia| |by rewrite Ee; auto]. by rewrite Ee, H2.
Qed.

Lemma fill_spec c t : represents c t ->
  match fill aborted c with
  | (c', Ok true) => represents c' t /\ remaining c' <> []
  | (c', Ok false) => represents c' t /\ t = mkText [] true
  | (_, Throw e) => e = invalid_unicode /\ t = mkText [] false
  end.
Proof. by apply fill_loop_spec. Qed.

Lemma remaining_cons c x s :
  remaining c = x :: s -> c_buffer c !! c_position c = Some x /\ remaining (move 1 c) = s /\
  (c_position c < length (c_buffer c))%nat.
Proof.
  unfold remaining. intros Hr. split_and!.
  - rewrite <- (Nat.add_0_r (c_position c)), <- lookup_drop. by rewrite Hr.
  - cbn. rewrite <- drop_drop, Hr. done.
  - apply (f_equal length) in Hr. rewrite length_drop in Hr. cbn in Hr. lia.
Qed.

(** A character is there: the text begins with it and moving on drops it. *)
Lemma represents_head c t : represents c t -> remaining c <> [] ->
  exists x s, t_rest t = x :: s /\ c_buffer c !! c_position c = Some x /\
    represents (move 1 c) (mkText s (t_valid t)).
Proof.
  intros [H1 H2 H3] Hne. destruct (remaining c) as [|x s] eqn:Er; [done|].
  destruct (remaining_cons c x s Er) as (Hx & Hs & Hl). eexists x, _. subst t. cbn.
  split; [done|]. split; [done|]. constructor; [cbn; lia| |done].
  cbn [move c_ended c_source c_decoder]. by rewrite Hs.
Qed.

Lemma peek_agree : agreed nothing (cursor_peek aborted) text_peek.
Proof.
  intros c t HR. unfold agree_at, cursor_peek, bindM, nothing.
  pose proof (fill_spec c t HR) as Hf. destruct (fill aborted c) as [c' [[|]|e]].
  - destruct Hf as [HR' Hne]. destruct (represents_head c' t HR' Hne) as (x & s & Et & Hx & _).
    unfold getM, text_peek. rewrite Et, Hx. split; [done|]. split; [done|lia].
  - destruct Hf as [HR' ->]. cbn. split; [done|]. split; [done|lia].
  - destruct Hf as [-> ->]. split; by left.
Qed.

Lemma take_agree : agreed one_if (cursor_take aborted) text_take.
Proof.
  intros c t HR. unfold agree_at, cursor_take, bindM.
  pose proof (fill_spec c t HR) as Hf. destruct (fill aborted c) as [c' [[|]|e]].
  - destruct Hf as [HR' Hne]. destruct (represents_head c' t HR' Hne) as (x & s & Et & Hx & HR2).
    unfold getM, text_take, putM. rewrite Et, Hx. split; [done|]. split; [done|].
    unfold size. rewrite Et. cbn. lia.
  - destruct Hf as [HR' ->]. cbn. split; [done|]. split; [done|lia].
  - destruct Hf as [-> ->]. split; by left.
Qed.

Lemma skip_loop_agree n : forall c t,
  represents c t -> (size t < n)%nat -> agreed_at nothing (skip_loop aborted n) text_skip c t.
Proof.
  induction n as [|n IH]; intros c t HR Hn; [lia|].
  unfold agree_at, nothing. cbn [skip_loop]. unfold bindM, cursor_peek, bindM.
  pose proof (fill_spec c t HR) as Hf. destruct (fill aborted c) as [c' [[|]|e]].
  - destruct Hf as [HR' Hne]. destruct (represents_head c' t HR' Hne) as (x & s & Et & Hx & HR2).
    unfold getM. rewrite Hx. cbn. destruct (is_json_space x) eqn:Ex.
    + assert (Hs : (size (mkText s (t_valid t)) < n)%nat)
        by (unfold size in *; rewrite Et in Hn; cbn in *; lia).
      specialize (IH _ _ HR2 Hs). unfold agree_at in IH. unfold putM.
      assert (E : text_skip t = text_skip (mkText s (t_valid t))).
      { unfold text_skip. rewrite Et. cbn. by rewrite Ex. }
      rewrite E. destruct (skip_loop aborted n (move 1 c')) as [c2 [[]|e]],
        (text_skip (mkText s (t_valid t))) as [t2 [[]|e']]; try done.
      destruct IH as (_ & ? & Hle). split; [done|]. split; [done|].
      unfold size, nothing in *. rewrite Et. cbn in *. lia.
    + destruct t as [r v]. cbn in Et. subst r. unfold retM, text_skip. cbn. rewrite Ex. cbn.
      split; [done|]. split; [done|]. unfold size. cbn. lia.
  - destruct Hf as [HR' ->]. cbn. split; [done|]. split; [done|lia].
  - destruct Hf as [-> ->]. split; by left.
Qed.

(** The fuel of a cursor is enough for its text. *)
Lemma chars_left_enough c t : represents c t -> (size t <= chars_left c)%nat.
Proof.
  intros [_ -> _]. unfold size, chars_left. cbn. rewrite length_app.
  destruct (c_ended c); cbn; [lia|]. pose proof (source_text_length (c_source c) (c_decoder c)). lia.
Qed.

Lemma skip_agree : agreed nothing (cursor_skipWhitespace aborted) text_skip.
Proof.
  intros c t HR. unfold agree_at, cursor_skipWhitespace.
  apply (skip_loop_agree (S (chars_left c)) c t HR). pose proof (chars_left_enough c t HR). lia.
Qed.

(** *** Raw values *)

(** A piece of the buffer, seen in the text it is the start of. *)
Lemma scan_piece_spec mode maxNesting valid more : forall rest st raw k,
  match scan_piece mode maxNesting rest st k with
  | Ok (n, st', complete) => exists m, n = (k + m)%nat /\ (m <= length rest)%nat /\
      if complete
      then raw_text mode maxNesting valid (rest ++ more) st raw
        = Ok (raw ++ take m rest, drop m rest ++ more)
      else m = length rest /\
        raw_text mode maxNesting valid (rest ++ more) st raw
        = raw_text mode maxNesting valid more st' (raw ++ rest)
  | Throw e => raw_text mode maxNesting valid (rest ++ more) st raw = Throw e /\ codec_class e
  end.
Proof.
  intros rest. induction rest as [|c rest IH]; intros st raw k; cbn [scan_piece raw_text app].
  - exists 0%nat. split; [lia|]. split; [done|]. by rewrite app_nil_r.
  - destruct (scan_char mode maxNesting c st) as [| |st'|e] eqn:Ec.
    + exists 0%nat. cbn. split; [lia|]. split; [lia|]. by rewrite app_nil_r.
    + exists 1%nat. cbn. split; [lia|]. split; [lia|]. by rewrite drop_0.
    + specialize (IH st' (raw ++ [c]) (S k)). rewrite <- app_assoc in IH. cbn [app] in IH.
      destruct (scan_piece mode maxNesting rest st' (S k)) as [[[n st2] [|]]|e]; [| |done].
      * destruct IH as (m & -> & Hm & ->). exists (S m). cbn. split; [lia|]. split; [lia|].
        by rewrite <- app_assoc.
      * destruct IH as (m & -> & Hm & -> & ->). exists (S (length rest)). cbn.
        split; [lia|]. split; [lia|]. done.
    + split; [done|]. unfold scan_char in Ec. repeat case_match; try done;
        injection Ec as <-; by left.
Qed.

(** What is left after a complete value is the end of what there was. *)
Lemma raw_text_rest mode maxNesting valid s : forall st raw r rest,
  raw_text mode maxNesting valid s st raw = Ok (r, rest) ->
  exists p, r = raw ++ p /\ s = p ++ rest.
Proof.
  induction s as [|c s IH]; intros st raw r rest Hr; cbn in Hr.
  - repeat case_match; try done. injection Hr as <- <-. exists []. by rewrite app_nil_r.
  - destruct (scan_char mode maxNesting c st) as [| |st'|e]; try done.
    + injection Hr as <- <-. exists []. by rewrite app_nil_r.
    + injection Hr as <- <-. by exists [c].
    + apply IH in Hr as (p & -> & ->). exists (c :: p). by rewrite <- app_assoc.
Qed.

Lemma raw_text_error mode maxNesting valid s : forall st raw e,
  raw_text mode maxNesting valid s st raw = Throw e -> codec_class e.
Proof.
  induction s as [|c s IH]; intros st raw e Hr; cbn in Hr.
  - repeat case_match; try done; injection Hr as <-; by left.
  - destruct (scan_char mode maxNesting c st) as [| |st'|e'] eqn:Ec; try done.
    + by eapply IH.
    + injection Hr as <-. pose proof (scan_piece_spec mode maxNesting true [] [c] st [] 0) as Hs.
      cbn in Hs. rewrite Ec in Hs. by destruct Hs.
Qed.

Lemma represents_move c t n :
  represents c t -> (n <= length (remaining c))%nat ->
  represents (move n c) (mkText (drop n (t_rest t)) (t_valid t)).
Proof.
  intros [H1 H2 H3] Hn. unfold remaining in Hn. rewrite length_drop in Hn.
  constructor; [cbn; lia| |done]. cbn [move c_ended c_source c_decoder]. subst t. cbn [t_rest t_valid].
  f_equal. unfold remaining. cbn [move c_position c_buffer].
  rewrite drop_app_le by (rewrite length_drop; lia). by rewrite drop_drop.
Qed.

Lemma represents_note total c t : represents c t -> represents (note_value total c) t.
Proof. by intros [H1 H2 H3]. Qed.

(** The outcome of the loop against the outcome on the text: the limit is
    checked after each piece there and at the end here. *)
Definition raw_outcome (maxChars : Z) (valid : bool) (r : cursor * result jsstring)
    (spec : result (jsstring * jsstring)) : Prop :=
  match r, spec with
  | (c, Ok raw), Ok (raw', rest) =>
      raw = raw' /\ slen raw <= maxChars /\ represents c (mkText rest valid)
  | (_, Throw e), Ok (raw', _) => maxChars < slen raw' /\ codec_class e
  | (_, Throw e), Throw e' => codec_class e /\ codec_class e'
  | (_, Ok _), Throw _ => False
  end.

Lemma raw_outcome_limit maxChars valid c mode maxNesting s st raw :
  maxChars < slen raw ->
  raw_outcome maxChars valid (c, Throw (codec_error "CHANGE_LOG_VALUE_LIMIT"))
    (raw_text mode maxNesting valid s st raw).
Proof.
  intros Hl. unfold raw_outcome. destruct (raw_text mode maxNesting valid s st raw) as [[r rest]|e] eqn:E.
  - apply raw_text_rest in E as (p & -> & _). unfold slen in *. rewrite length_app. split; [lia|by left].
  - apply raw_text_error in E. split; [by left|done].
Qed.

Lemma add_piece_spec n maxChars raw c t :
  represents c t -> (n <= length (remaining c))%nat -> slen raw <= maxChars ->
  match add_piece n maxChars raw c with
  | (c', Ok raw') => raw' = raw ++ take n (remaining c) /\ slen raw' <= maxChars /\
      represents c' (mkText (drop n (t_rest t)) (t_valid t))
  | (_, Throw e) => e = codec_error "CHANGE_LOG_VALUE_LIMIT" /\
      maxChars < slen (raw ++ take n (remaining c))
  end.
Proof.
  intros HR Hn Hraw. pose proof (represents_move c t n HR Hn) as HR'. unfold add_piece.
  destruct (Nat.eqb_spec n 0) as [->|Hn0].
  - split; [done|]. cbn. by rewrite app_nil_r.
  - destruct (Z.ltb_spec maxChars (slen (raw ++ take n (remaining c)))); [done|].
    split; [done|]. split; [done|]. by apply represents_note.
Qed.

Lemma raw_loop_agree mode maxChars maxNesting n : forall c t st raw,
  represents c t -> (size t < n)%nat -> slen raw <= maxChars ->
  raw_outcome maxChars (t_valid t) (raw_loop aborted n mode maxChars maxNesting st raw c)
    (raw_text mode maxNesting (t_valid t) (t_rest t) st raw).
Proof.
  induction n as [|n IH]; intros c t st raw HR Hn Hraw; [lia|].
  cbn [raw_loop]. unfold bindM at 1. rewrite poll_quiet. unfold bindM at 1.
  pose proof (fill_spec (polled c) t (represents_polled c t HR)) as Hf.
  destruct (fill aborted (polled c)) as [c' [[|]|e]].
  - destruct Hf as [HR' Hne]. unfold bindM at 1, getM. unfold bindM at 1, liftM.
    pose proof HR' as [Hp Ht _]. set (later := if c_ended c' then _ else _) in Ht. cbn zeta in Ht.
    pose proof (scan_piece_spec mode maxNesting (t_valid t) (t_rest later) (remaining c') st raw 0) as Hs.
    replace (remaining c' ++ t_rest later) with (t_rest t) in Hs by by rewrite Ht.
    destruct (scan_piece mode maxNesting (remaining c') st 0) as [[[m st'] complete]|e].
    + destruct Hs as (k & -> & Hk & Hs). cbn [fst snd Nat.add]. unfold bindM at 1.
      pose proof (add_piece_spec k maxChars raw c' t HR' Hk Hraw) as Ha.
      assert (Hdrop : drop k (t_rest t) = drop k (remaining c') ++ t_rest later)
        by (rewrite Ht; cbn; by rewrite drop_app_le).
      destruct complete.
      * rewrite Hs. destruct (add_piece k maxChars raw c') as [c2 [raw'|e]]; cbn.
        -- destruct Ha as (-> & ? & HR2). rewrite Hdrop in HR2. done.
        -- destruct Ha as (-> & ?). split; [done|by left].
      * destruct Hs as [-> Hs]. rewrite Hs. rewrite (firstn_all (remaining c')) in Ha.
        rewrite (drop_ge (remaining c')) in Hdrop by done. cbn [app] in Hdrop.
        destruct (add_piece (length (remaining c')) maxChars raw c') as [c2 [raw'|e]].
        -- destruct Ha as (-> & Hl & HR2). rewrite Hdrop in HR2. cbn.
           apply (IH c2 _ st' (raw ++ remaining c') HR2); [|done].
           assert (length (remaining c') <> 0)%nat by (by destruct (remaining c')).
           unfold size in *. rewrite Ht in Hn. cbn in *. rewrite length_app in Hn. lia.
        -- destruct Ha as (-> & Hl). by apply raw_outcome_limit.
    + destruct Hs as [-> He]. done.
  - destruct Hf as [HR' ->]. cbn [t_rest t_valid raw_text negb].
    destruct (bool_decide _ && _); [by split_and!|]. split; by left.
  - destruct Hf as [-> ->]. split; by left.
Qed.

Lemma raw_agree maxChars maxNesting :
  0 <= maxChars -> agreed one (cursor_readRawValue aborted maxChars maxNesting) (text_raw maxChars maxNesting).
Proof.
  intros Hmax. unfold cursor_readRawValue, text_raw.
  apply (agree_bind _ _ nothing); [apply skip_agree|intros u].
  apply (agree_bind _ _ nothing); [apply peek_agree|]. intros [first|]; [|by apply agree_throw; left].
  intros c t HR. unfold agree_at, bindM, getM.
  assert (Hfuel : (size t < S (chars_left c))%nat) by (pose proof (chars_left_enough c t HR); lia).
  pose proof (raw_loop_agree (mode_of first) maxChars maxNesting _ c t new_scan_state [] HR Hfuel Hmax)
    as Hr. unfold raw_outcome in Hr.
  destruct (raw_loop aborted _ (mode_of first) maxChars maxNesting new_scan_state [] c) as [c' [raw|e]],
    (raw_text (mode_of first) maxNesting (t_valid t) (t_rest t) new_scan_state []) as [[raw' rest]|e'] eqn:E;
    try done.
  - destruct Hr as (-> & Hle & HR'). destruct (Z.ltb_spec maxChars (slen raw')); [lia|].
    apply raw_text_rest in E as (p & -> & Hsplit). cbn [app] in *. unfold non_empty.
    destruct (Nat.eqb_spec (length p) 0) as [|Hne].
    + cbn. split; by left.
    + cbn. split; [done|]. split; [done|]. unfold size, one. cbn. rewrite Hsplit, length_app. lia.
  - destruct Hr as [Hlt He]. destruct (Z.ltb_spec maxChars (slen raw')); [|lia].
    split; [done|by left].
Qed.
End Cursor.

(** ** The scanner *)

(** Two cursors agree if they do on every operation of the interface. *)
Record cursors_agree {C1 C2} (I1 : JsonCursor C1) (I2 : JsonCursor C2) (R : C1 -> C2 -> Prop)
    (size : C2 -> nat) : Prop := mkCursorsAgree {
  ca_poll : agree R size nothing poll poll;
  ca_peek : agree R size nothing peek peek;
  ca_take : agree R size one_if take_char take_char;
  ca_skip : agree R size nothing skipWhitespace skipWhitespace;
  ca_raw maxChars maxNesting : 0 <= maxChars ->
    agree R size one (readRawValue maxChars maxNesting) (readRawValue maxChars maxNesting)
}.

Definition scanning_related {C1 C2} (R : C1 -> C2 -> Prop)
    (s1 : C1 * list NormalizedChangeLogEntry) (s2 : C2 * list NormalizedChangeLogEntry) : Prop :=
  R s1.1 s2.1 /\ s1.2 = s2.2.

Definition scanning_size {C2} (size : C2 -> nat) (s : C2 * list NormalizedChangeLogEntry) : nat :=
  size s.1.

Section Scan.
Context `{JsonRuntime} {C1 C2 : Type} (I1 : JsonCursor C1) (I2 : JsonCursor C2).
Context (R : C1 -> C2 -> Prop) (size : C2 -> nat) (cursors : cursors_agree I1 I2 R size).
Context (limits : ChangeLogCodecLimits) (positive : forall n, 0 < limits n).

Abbreviation agreed := (agree R size).
Abbreviation related := (scanning_related R).
Abbreviation left_size := (scanning_size size).
Abbreviation both := (agree related left_size).
Abbreviation both_at := (agree_at related left_size).

Lemma on_cursor_agree {A} (K : A -> nat) m1 m2 :
  agreed K m1 m2 -> both K (on_cursor m1) (on_cursor m2).
Proof.
  intros Hm [c ys] [t ys'] [HR Hy]. cbn in HR, Hy. subst ys'. specialize (Hm c t HR).
  unfold agree_at, on_cursor in *. destruct (m1 c) as [c' [a|e]], (m2 t) as [t' [b|e']]; try done.
  destruct Hm as (-> & ? & ?). done.
Qed.

Lemma yield_agree e : both nothing (yield_entry e) (yield_entry e).
Proof.
  intros [c ys] [t ys'] [HR Hy]. cbn in HR, Hy. subst ys'.
  unfold agree_at, yield_entry, putM, nothing, scanning_size. cbn [fst snd]. split; [done|]. split; [done|lia].
Qed.

Lemma expect_agree x : agreed one (expect x) (expect x).
Proof.
  unfold expect. apply (agree_bind _ _ nothing); [apply (ca_skip _ _ _ _ cursors)|intros u].
  apply (agree_bind _ _ one_if); [apply (ca_take _ _ _ _ cursors)|]. intros o.
  destruct (bool_decide (o = Some x)) eqn:E; [|by apply agree_throw; left].
  apply bool_decide_eq_true in E as ->. by apply agree_ret.
Qed.

Lemma raw_value_agree n k : agreed one (readRawValue (limits n) k) (readRawValue (limits n) k).
Proof. apply (ca_raw _ _ _ _ cursors). specialize (positive n). lia. Qed.

Lemma property_name_agree : agreed one (readPropertyName limits) (readPropertyName limits).
Proof.
  unfold readPropertyName. apply (agree_bind _ _ one).
  { apply (ca_raw _ _ _ _ cursors). specialize (positive maxHeaderValueChars). lia. }
  intros raw. apply (agree_bind _ _ nothing); [by apply agree_lift; [apply coded_parse|]|].
  intros v. destruct (as_string v); [by apply agree_ret|by apply agree_throw; left].
Qed.

Lemma delimiter_agree x : agreed one (delimiter x) (delimiter x).
Proof.
  unfold delimiter. apply (agree_bind _ _ nothing); [apply (ca_skip _ _ _ _ cursors)|intros u].
  apply (agree_bind _ _ one_if); [apply (ca_take _ _ _ _ cursors)|]. intros o.
  destruct (bool_decide (o = Some x)) eqn:E1;
    [apply bool_decide_eq_true in E1 as ->; by apply agree_ret|].
  destruct (bool_decide (o = Some 44)) eqn:E2; [|by apply agree_throw; left].
  apply bool_decide_eq_true in E2 as ->.
  apply (agree_bind _ _ nothing); [apply (ca_skip _ _ _ _ cursors)|intros u'].
  apply (agree_bind _ _ nothing); [apply (ca_peek _ _ _ _ cursors)|]. intros next.
  destruct (bool_decide (next = Some x)); [by apply agree_throw; left|by apply agree_ret].
Qed.

(** Reading an element takes characters, so the fuel of a loop is enough if
    it is more than the characters left. *)
Lemma entries_loop_agree n1 : forall n2 i a s1 s2,
  related s1 s2 -> (left_size s2 < n1)%nat -> (left_size s2 < n2)%nat ->
  both_at nothing (entries_loop n1 limits i a) (entries_loop n2 limits i a) s1 s2.
Proof.
  induction n1 as [|n1 IH]; intros [|n2] i a s1 s2 HR H1 H2; try lia. cbn [entries_loop].
  apply (agree_bind_at _ _ one); [by apply on_cursor_agree; [apply raw_value_agree|]|].
  intros raw t1 t2 HR1 Hs1. unfold one in Hs1.
  apply (agree_bind_at _ _ nothing); [by apply agree_lift; [apply coded_parse|..]|].
  intros v u1 u2 HR2 Hs2. unfold nothing in Hs2.
  apply (agree_bind_at _ _ nothing); [by apply agree_lift; [apply coded_validate|..]|].
  intros [] v1 v2 HR3 Hs3. unfold nothing in Hs3.
  apply (agree_bind_at _ _ nothing); [by apply agree_lift; [apply coded_entry|..]|].
  intros e w1 w2 HR4 Hs4. unfold nothing in Hs4.
  apply (agree_bind_at _ _ nothing); [by apply agree_lift; [apply coded_accept|..]|].
  intros a' x1 x2 HR5 Hs5. unfold nothing in Hs5.
  apply (agree_bind_at _ _ nothing); [by apply yield_agree|].
  intros [] y1 y2 HR6 Hs6. unfold nothing in Hs6.
  apply (agree_bind_at _ _ one); [by apply on_cursor_agree; [apply delimiter_agree|]|].
  intros [|] z1 z2 HR7 Hs7; unfold one in Hs7; [by apply agree_ret|].
  apply (agree_weaken_at _ _ _ nothing); [apply IH; [done|lia|lia]|]. intros ?. unfold nothing. lia.
Qed.

Lemma read_changes_agree n1 n2 a s1 s2 :
  related s1 s2 -> (left_size s2 < n1)%nat -> (left_size s2 < n2)%nat ->
  both_at nothing (read_changes n1 limits a) (read_changes n2 limits a) s1 s2.
Proof.
  intros HR H1 H2. unfold read_changes.
  apply (agree_bind_at _ _ one); [by apply on_cursor_agree; [apply expect_agree|]|].
  intros [] t1 t2 HR1 Hs1. apply (agree_bind_at _ _ nothing);
    [by apply on_cursor_agree; [apply (ca_skip _ _ _ _ cursors)|]|].
  intros [] u1 u2 HR2 Hs2. apply (agree_bind_at _ _ nothing);
    [by apply on_cursor_agree; [apply (ca_peek _ _ _ _ cursors)|]|].
  intros next v1 v2 HR3 Hs3. unfold nothing, one in *.
  destruct (bool_decide (next = Some 93)).
  - apply (agree_bind_at _ _ one_if); [by apply on_cursor_agree; [apply (ca_take _ _ _ _ cursors)|]|].
    intros o w1 w2 HR4 _. by apply agree_ret.
  - apply (agree_weaken_at _ _ _ nothing); [apply entries_loop_agree; [done|lia|lia]|].
    intros ?. unfold nothing. lia.
Qed.

Lemma read_property_agree n1 n2 l s1 s2 :
  related s1 s2 -> (left_size s2 < n1)%nat -> (left_size s2 < n2)%nat ->
  both_at one (read_property n1 limits l) (read_property n2 limits l) s1 s2.
Proof.
  intros HR H1 H2. unfold read_property.
  apply (agree_bind_at _ _ nothing); [by apply on_cursor_agree; [apply (ca_poll _ _ _ _ cursors)|]|].
  intros [] t1 t2 HR1 Hs1.
  apply (agree_bind_at _ _ one); [by apply on_cursor_agree; [apply property_name_agree|]|].
  intros property u1 u2 HR2 Hs2. destruct (bool_decide (property ∈ _)); [by apply agree_throw; [left|]|].
  apply (agree_bind_at _ _ one); [by apply on_cursor_agree; [apply expect_agree|]|].
  intros [] v1 v2 HR3 Hs3. unfold nothing, one in *.
  destruct (bool_decide (property = js "changes")).
  - apply (agree_bind_at _ _ nothing); [apply read_changes_agree; [done|lia|lia]|].
    intros a w1 w2 HR4 _. by apply agree_ret.
  - apply (agree_bind_at _ _ one); [by apply on_cursor_agree; [apply raw_value_agree|]|].
    intros raw w1 w2 HR4 _.
    apply (agree_bind_at _ _ nothing); [by apply agree_lift; [apply coded_parse|..]|].
    intros v x1 x2 HR5 _.
    apply (agree_bind_at _ _ nothing); [by apply agree_lift; [apply coded_validate|..]|].
    intros [] y1 y2 HR6 _. by apply agree_ret.
Qed.

Lemma properties_loop_agree n1 : forall n2 l s1 s2,
  related s1 s2 -> (left_size s2 < n1)%nat -> (left_size s2 < n2)%nat ->
  both_at nothing (properties_loop n1 limits l) (properties_loop n2 limits l) s1 s2.
Proof.
  induction n1 as [|n1 IH]; intros [|n2] l s1 s2 HR H1 H2; try lia. cbn [properties_loop].
  apply (agree_bind_at _ _ one); [by apply read_property_agree|]. intros l' t1 t2 HR1 Hs1.
  apply (agree_bind_at _ _ one); [by apply on_cursor_agree; [apply delimiter_agree|]|].
  intros [|] u1 u2 HR2 Hs2; [by apply agree_ret|]. unfold one in *.
  apply (agree_weaken_at _ _ _ nothing); [apply IH; [done|lia|lia]|]. intros ?. unfold nothing. lia.
Qed.

Lemma read_document_agree n1 n2 s1 s2 :
  related s1 s2 -> (left_size s2 < n1)%nat -> (left_size s2 < n2)%nat ->
  both_at nothing (read_document n1 limits) (read_document n2 limits) s1 s2.
Proof.
  intros HR H1 H2. unfold read_document.
  apply (agree_bind_at _ _ one); [by apply on_cursor_agree; [apply expect_agree|]|].
  intros [] t1 t2 HR1 Hs1. apply (agree_bind_at _ _ nothing);
    [by apply on_cursor_agree; [apply (ca_skip _ _ _ _ cursors)|]|].
  intros [] u1 u2 HR2 Hs2. apply (agree_bind_at _ _ nothing);
    [by apply on_cursor_agree; [apply (ca_peek _ _ _ _ cursors)|]|].
  intros next v1 v2 HR3 Hs3. unfold nothing, one in *.
  destruct (bool_decide (next = Some 125)).
  - apply (agree_bind_at _ _ one_if); [by apply on_cursor_agree; [apply (ca_take _ _ _ _ cursors)|]|].
    intros o w1 w2 HR4 _. by apply agree_ret.
  - apply (agree_weaken_at _ _ _ nothing); [apply properties_loop_agree; [done|lia|lia]|].
    intros ?. unfold nothing. lia.
Qed.
End Scan.

Lemma limits_positive o limits :
  resolveChangeLogCodecLimits o = Ok limits -> forall n, 0 < limits n.
Proof.
  unfold resolveChangeLogCodecLimits. intros Hl n. destruct (forallb _ _) eqn:E; [|done].
  apply Ok_inj in Hl as <-. rewrite forallb_forall in E.
  assert (Hn : In n limit_names) by (destruct n; cbn; tauto).
  specialize (E n Hn). apply bool_decide_eq_true in E as [z Hz]. rewrite Hz. cbn.
  unfold positive_safe in Hz. destruct (merged_limit o n) as [k| | |]; try done.
  destruct (safeZ k && (0 <? k)) eqn:Ek; [|done]. injection Hz as <-. bool_prop. lia.
Qed.

Lemma scan_agree `{JsonRuntime} {C1 C2} (I1 : JsonCursor C1) (I2 : JsonCursor C2) R size
    overrides n1 n2 s1 s2 :
  cursors_agree I1 I2 R size -> scanning_related R s1 s2 ->
  (scanning_size size s2 < n1)%nat -> (scanning_size size s2 < n2)%nat ->
  agree_at (scanning_related R) (scanning_size size) nothing
    (@scan _ _ I1 n1 overrides) (@scan _ _ I2 n2 overrides) s1 s2.
Proof.
  intros Hca HR H1 H2. unfold scan.
  destruct (resolveChangeLogCodecLimits overrides) as [limits|e] eqn:El.
  2:{ unfold agree_at, bindM, liftM. split;
      pose proof (coded_limits overrides) as Hc; by rewrite El in Hc. }
  pose proof (limits_positive _ _ El) as Hpos.
  apply agree_lift_ok. apply (agree_bind_at _ _ nothing); [by apply read_document_agree|].
  intros l t1 t2 HR1 Hs1. destruct (negb (sawChanges l)); [by apply agree_throw; [left|]|].
  apply (agree_bind_at _ _ nothing); [by apply on_cursor_agree; [apply (ca_skip _ _ _ _ Hca)|]|].
  intros [] u1 u2 HR2 Hs2.
  apply (agree_bind_at _ _ nothing); [by apply on_cursor_agree; [apply (ca_peek _ _ _ _ Hca)|]|].
  intros next v1 v2 HR3 Hs3. destruct (bool_decide (is_Some next)); [by apply agree_throw; [left|]|].
  by apply agree_lift; [apply coded_finish|..].
Qed.

Lemma streaming_agrees aborted :
  (forall n, aborted n = false) ->
  cursors_agree (StreamingJsonCursor aborted) TextCursor represents size.
Proof.
  intros Hq. constructor; intros; [by apply poll_agree|by apply peek_agree|by apply take_agree
    |by apply skip_agree|by apply raw_agree].
Qed.

Lemma new_cursor_represents src : represents (new_cursor src) (source_text src new_decoder).
Proof. constructor; cbn; [done| |done]. by destruct (source_text src new_decoder). Qed.

Lemma scan_source `{JsonRuntime} src overrides aborted :
  (forall n, aborted n = false) ->
  match scanChangeLogJson src overrides aborted, scan_text (source_text src new_decoder) overrides with
  | (ys, Ok (r, _)), (ys', Ok r') => ys = ys' /\ r = r'
  | (_, Throw e), (_, Throw e') => codec_class e /\ codec_class e'
  | _, _ => False
  end.
Proof.
  intros Hq. pose proof (new_cursor_represents src) as HR.
  pose proof (chars_left_enough _ _ HR) as Hc. unfold scanChangeLogJson, scan_text.
  pose proof (scan_agree _ _ _ _ overrides (S (chars_left (new_cursor src)))
    (S (length (t_rest (source_text src new_decoder)))) (new_cursor src, [])
    (source_text src new_decoder, []) (streaming_agrees aborted Hq)) as Ha.
  specialize (Ha ltac:(done)). unfold scanning_size, size in *. cbn [fst] in *.
  specialize (Ha ltac:(lia) ltac:(lia)). unfold agree_at in Ha.
  destruct (scan _ _ (new_cursor src, [])) as [[c ys] [r|e]],
    (scan _ _ (source_text src new_decoder, [])) as [[t ys'] [r'|e']]; try done.
  destruct Ha as (-> & [_ Hy] & _). done.
Qed.

(** ** Reading the text twice: what is not valid is never accepted *)

Definition same_text (v : bool) (t t' : text) : Prop := t = t' /\ t_valid t = v.

Lemma text_end_self {A} v (a : A) t :
  t_valid t = v -> agree_at (same_text v) size nothing (text_end a) (text_end a) t t.
Proof.
  intros Hv. unfold agree_at, text_end. destruct (t_valid t) eqn:E.
  - split; [done|]. split; [split; congruence|unfold nothing; lia].
  - split; by left.
Qed.

Lemma text_skip_self v : agree (same_text v) size nothing text_skip text_skip.
Proof.
  intros t t' [<- Hv]. unfold agree_at, text_skip. cbn zeta.
  assert (Hl : forall s, (length (drop_json_spaces s) <= length s)%nat).
  { induction s as [|c s IH]; [done|]. cbn. destruct (is_json_space c); cbn; lia. }
  cbn [t_rest]. destruct (drop_json_spaces (t_rest t)) as [|c s] eqn:E.
  - unfold text_end. cbn. destruct (t_valid t); [|split; by left].
    split; [done|]. split; [done|]. unfold size, nothing. cbn. lia.
  - split; [done|]. split; [done|]. unfold size, nothing. cbn [t_rest]. specialize (Hl (t_rest t)).
    rewrite E in Hl. lia.
Qed.

Lemma text_peek_self v : agree (same_text v) size nothing text_peek text_peek.
Proof.
  intros t t' [<- Hv]. unfold agree_at, text_peek. destruct (t_rest t) as [|c s].
  - by apply text_end_self.
  - split; [done|]. split; [done|unfold nothing; lia].
Qed.

Lemma text_take_self v : agree (same_text v) size one_if text_take text_take.
Proof.
  intros t t' [<- Hv]. unfold agree_at, text_take. destruct (t_rest t) as [|c s] eqn:E.
  - unfold text_end. destruct (t_valid t) eqn:Et; [|split; by left].
    split; [done|]. split; [split; congruence|]. cbn. lia.
  - split; [done|]. split; [done|]. unfold size. rewrite E. cbn. lia.
Qed.

Lemma text_raw_self v maxChars maxNesting :
  agree (same_text v) size one (text_raw maxChars maxNesting) (text_raw maxChars maxNesting).
Proof.
  unfold text_raw. apply (agree_bind _ _ nothing); [apply text_skip_self|intros u].
  apply (agree_bind _ _ nothing); [apply text_peek_self|]. intros [c|]; [|by apply agree_throw; left].
  intros t t' [<- Hv]. unfold agree_at.
  destruct (raw_text _ _ _ _ _ _) as [[raw rest]|e] eqn:E.
  - apply raw_text_rest in E as (p & -> & Hp). cbn [app].
    destruct (maxChars <? slen p); [split; by left|]. unfold non_empty.
    destruct (Nat.eqb_spec (length p) 0); [split; by left|]. cbn.
    split; [done|]. split; [done|]. unfold size, one. cbn. rewrite Hp, length_app. lia.
  - apply raw_text_error in E. done.
Qed.

Lemma text_agrees v : cursors_agree TextCursor TextCursor (same_text v) size.
Proof.
  constructor; intros; [by apply agree_ret|apply text_peek_self|apply text_take_self
    |apply text_skip_self|apply text_raw_self].
Qed.

Lemma text_scan_valid `{JsonRuntime} t overrides ys r :
  scan_text t overrides = (ys, Ok r) -> t_valid t = true.
Proof.
  unfold scan_text, scan. intros Hs.
  destruct (resolveChangeLogCodecLimits overrides) as [limits|e] eqn:El; [|done].
  pose proof (limits_positive _ _ El) as Hpos. unfold bindM at 1, liftM at 1 in Hs.
  pose proof (read_document_agree TextCursor TextCursor (same_text (t_valid t)) size
    (text_agrees (t_valid t)) limits Hpos (S (length (t_rest t))) (S (length (t_rest t))) (t, []) (t, []))
    as Hd. specialize (Hd ltac:(done)). unfold scanning_size, size in Hd. cbn [fst] in Hd.
  specialize (Hd ltac:(lia) ltac:(lia)). unfold agree_at in Hd. unfold bindM at 1 in Hs.
  destruct (read_document _ limits (t, [])) as [[t1 ys1] [l|e]]; [|done].
  destruct Hd as (_ & [[_ Hv] _] & _). cbn in Hv.
  destruct (negb (sawChanges l)); [done|]. unfold bindM at 1, on_cursor at 1 in Hs.
  cbn [skipWhitespace TextCursor] in Hs.
  pose proof (text_skip_self (t_valid t) t1 t1 (conj eq_refl Hv)) as Hk. unfold agree_at in Hk.
  destruct (text_skip t1) as [t2 [[]|e]]; [|done]. destruct Hk as (_ & [_ Hv2] & _).
  unfold bindM at 1, on_cursor at 1 in Hs. cbn [peek TextCursor] in Hs. unfold text_peek, text_end in Hs.
  destruct (t_rest t2) as [|c s]; [|done]. rewrite Hv2 in Hs. by destruct (t_valid t).
Qed.

Lemma scan_same_bytes `{JsonRuntime} src src' overrides aborted aborted' ys r d :
  (forall n, aborted n = false) -> (forall n, aborted' n = false) -> concat src = concat src' ->
  scanChangeLogJson (map ByteChunk src) overrides aborted = (ys, Ok (r, d)) ->
  exists d', scanChangeLogJson (map ByteChunk src') overrides aborted' = (ys, Ok (r, d')).
Proof.
  intros Hq Hq' E Hs. pose proof (scan_source (map ByteChunk src) overrides aborted Hq) as H1.
  pose proof (scan_source (map ByteChunk src') overrides aborted' Hq') as H2. rewrite Hs in H1.
  destruct (scan_text (source_text (map ByteChunk src) new_decoder) overrides) as [ys1 [r1|e]] eqn:Et;
    [|done]. destruct H1 as [<- <-].
  rewrite (same_bytes_same_text src src' E (text_scan_valid _ _ _ _ Et)), Et in H2.
  destruct (scanChangeLogJson (map ByteChunk src') overrides aborted') as [ys2 [[r2 d2]|e]]; [|done].
  destruct H2 as [-> ->]. by exists d2.
Qed.

(** ** Theorems *)

(** Scanning a source in chunks gives what reading its whole text
    at once gives: the same entries and the same result, or an error in both
    cases.  The errors are the codec's, so no loop runs out of fuel.  (Bytes
    that are not UTF-8 end the text, and the reading of it with an error.) *)
Theorem scan_of_chunks_is_scan_of_text `{JsonRuntime} src overrides aborted :
  (forall n, aborted n = false) ->
  match scanChangeLogJson src overrides aborted, scan_text (source_text src new_decoder) overrides with
  | (ys, Ok (r, _)), (ys', Ok r') => ys = ys' /\ r = r'
  | (_, Throw e), (_, Throw e') => codec_class e /\ codec_class e'
  | _, _ => False
  end.
Proof. apply scan_source. Qed.

(** C10 Chunk boundaries do not matter: bytes that are accepted in one
    way of cutting them into chunks, inside a character or a token or with
    empty chunks, are accepted in every other way, with the same entries and
    the same result up to the diagnostics. *)
Theorem scan_independent_of_chunks `{JsonRuntime} src src' overrides aborted ys r d :
  (forall n, aborted n = false) -> concat src = concat src' ->
  scanChangeLogJson (map ByteChunk src) overrides aborted = (ys, Ok (r, d)) ->
  exists d', scanChangeLogJson (map ByteChunk src') overrides aborted = (ys, Ok (r, d')).
Proof. intros Hq. by apply scan_same_bytes. Qed.

(** *** A sample source *)

(** JSON text, written with single quotes. *)
Definition json (s : string) : jsstring := map (fun c => if c =? 39 then 34 else c) (js s).

Definition sample_values : list (jsstring * jsval) :=
  let fp := JObject [(js "byteLength", JString (js "10"));
    (js "digest", JObject [(js "algorithm", JString (js "sha256")); (js "value", JString (js "ab"))])] in
  map (fun p => (json ("'" ++ p ++ "'"), JString (js p)))
    ["format"; "version"; "complete"; "changeCount"; "sourceChangeCount"; "unavailableChangeCount";
     "unavailableChangeSerials"; "before"; "after"; "changes"; "omega-edit.change-log"; "kind";
     "offset"; "length"; "data"; "byteLength"; "digest"; "algorithm"; "value"]%string ++
  [(json "2", JNumber (NInt 2)); (json "1", JNumber (NInt 1)); (json "0", JNumber (NInt 0));
   (json "true", JBool true); (json "[]", JArray []);
   (json "{'byteLength':'10','digest':{'algorithm':'sha256','value':'ab'}}", fp);
   (json "{'kind':'REPLACE','offset':'0','length':'4','data':''}",
    entry_object (mkLogEntry None KREPLACE (I64String (js "0")) (I64String (js "4")) [] None))].

(** A runtime that reads the texts of the sample. *)
Definition sample_json : JsonRuntime := {|
  JSON_parse := fun s => snd <$> List.find (fun p => bool_decide (p.1 = s)) sample_values;
  JSON_stringify := fun _ => []
|}.

Definition sample_text : jsstring :=
  json "{'format':'omega-edit.change-log','version':2, 'complete':true,'changeCount':1,"
  ++ json "'sourceChangeCount':1,'unavailableChangeCount':0,'unavailableChangeSerials':[],"
  ++ json "'before':{'byteLength':'10','digest':{'algorithm':'sha256','value':'ab'}},"
  ++ json "'after':{'byteLength':'10','digest':{'algorithm':'sha256','value':'ab'}},"
  ++ json "'changes':[{'kind':'REPLACE','offset':'0','length':'4','data':''}]}".

(** The bytes with a byte order mark, cut inside the mark and inside tokens. *)
Definition sample_bytes : list Z := [239; 187; 191] ++ sample_text.
Definition sample_pieces : list (list Z) :=
  [take 2 sample_bytes; []; take 40 (drop 2 sample_bytes); drop 42 sample_bytes].

Definition sample_scanned : list NormalizedChangeLogEntry :=
  [mkEntryN None KREPLACE (js "0") (js "4") [] None None].

Definition sample_result : ChangeLogScanResult :=
  let fp := mkFingerprint (js "10")
    (mkDigest CHANGE_LOG_DEFAULT_DIGEST_PLUGIN_ID (js "sha256") (js "ab")) in
  mkScan (mkHeader true fp fp (js "1") (js "1") (js "0") []) 1 (mkCounts 1 0 0 0 1 0) [] [].

Definition never (_ : nat) : bool := false.

Definition sample_diagnostics : ChangeLogScanDiagnostics :=
  match (@scanChangeLogJson sample_json (map ByteChunk sample_pieces) (fun _ => None) never).2 with
  | Ok (_, d) => d | Throw _ => mkDiagnostics 0 0 0
  end.

Lemma scan_independent_of_chunks_witness :
  exists d, @scanChangeLogJson sample_json [ByteChunk sample_bytes] (fun _ => None) never
  = (sample_scanned, Ok (sample_result, d)).
Proof.
  apply (@scan_independent_of_chunks sample_json sample_pieces [sample_bytes] (fun _ => None) never
    sample_scanned sample_result sample_diagnostics).
  - intros n. reflexivity.
  - vm_compute. reflexivity.
  - vm_compute. reflexivity.
Defined.

Lemma scan_of_chunks_is_scan_of_text_witness :
  match @scanChangeLogJson sample_json (map ByteChunk sample_pieces) (fun _ => None) never,
    @scan_text sample_json (mkText sample_text true) (fun _ => None) with
  | (ys, Ok (r, _)), (ys', Ok r') => ys = ys' /\ r = r'
  | _, _ => False
  end.
Proof.
  pose proof (@scan_of_chunks_is_scan_of_text sample_json (map ByteChunk sample_pieces) (fun _ => None)
    never (fun n => eq_refl)) as Hs.
  vm_compute in Hs. vm_compute. exact Hs.
Defined.

(** *** A header in the prototype *)

Definition header_text : jsstring :=
  json "{'format':'omega-edit.change-log','version':2,'complete':true,'changeCount':0,"
  ++ json "'sourceChangeCount':0,'unavailableChangeCount':0,'unavailableChangeSerials':[],"
  ++ json "'before':{'byteLength':'10','digest':{'algorithm':'sha256','value':'ab'}},"
  ++ json "'after':{'byteLength':'10','digest':{'algorithm':'sha256','value':'ab'}}}".

Definition header_value : jsval :=
  let fp := JObject [(js "byteLength", JString (js "10"));
    (js "digest", JObject [(js "algorithm", JString (js "sha256")); (js "value", JString (js "ab"))])] in
  JObject [(js "format", JString CHANGE_LOG_FORMAT); (js "version", JNumber (NInt 2));
    (js "complete", JBool true); (js "changeCount", JNumber (NInt 0));
    (js "sourceChangeCount", JNumber (NInt 0)); (js "unavailableChangeCount", JNumber (NInt 0));
    (js "unavailableChangeSerials", JArray []); (js "before", fp); (js "after", fp)].

Definition proto_json : JsonRuntime := {|
  JSON_parse := fun s => snd <$> List.find (fun p => bool_decide (p.1 = s))
    ((json "'__proto__'", JString (js "__proto__")) :: (header_text, header_value) :: sample_values);
  JSON_stringify := fun _ => []
|}.

(** The scanner collects the header in an ordinary object, where assigning
    to [__proto__] sets the prototype: it accepts a document whose only
    header is the value of that property, which the codec refuses when it is
    given the parsed document. *)
Theorem prototype_header_accepted :
  is_ok (@scanChangeLogJson proto_json
    [TextChunk (json "{'__proto__':" ++ header_text ++ json ",'changes':[]}")] (fun _ => None) never).2
  = true /\
  @normalizeChangeLogDocument proto_json
    (JObject [(js "__proto__", header_value); (js "changes", JArray [])]) (fun _ => None) never
  = Throw (codec_error "CHANGE_LOG_UNSUPPORTED_FORMAT").
Proof. split; vm_compute; reflexivity. Qed.
