(* ===== verification/ChangeLogFiles.v ===== *)
(** * Change-log files ([packages/client/src/changeLog/node/index.ts])

    Writing a change log so that a reader of its path sees the old file or
    the whole new one, and reading one in two passes: the first validates the
    whole file, the second replays the entries of the same file.

    The file system is a map from paths to contents, on which every call may
    fail; every state it goes through is recorded, so that a crash at any
    point is covered.  [JSON.stringify] and the hash are parameters. *)

From S2P Require Import Prelude JsText JsValue ChangeLogCodec ChangeLogDocument ChangeLogRpc ChangeLogStream.
From S2P Require Import ChangeLogChunks.

Open Scope jsm_scope.

(** ** The file system *)

Abbreviation path := jsstring.
Abbreviation disk := (gmap jsstring (list Z)).

(** What is outside of the program: which calls fail and how, when the signal
    is aborted, when a write has to wait, the caller's hooks, and the parts of
    the runtime. *)
Class Environment := {
  fault : nat -> option exn;                (* the failure of the n-th call *)
  signal : nat -> bool;                     (* whether the signal is aborted by then *)
  must_drain : nat -> bool;                 (* whether write() returns false *)
  onBytesWritten : Z -> result unit;
  beforeCommit : result unit;
  sha256 : list Z -> jsstring;
  stringify_indented : jsval -> jsstring;   (* JSON.stringify(value, null, 2) *)
  stringify : jsval -> jsstring             (* JSON.stringify(value) *)
}.

Record AtomicChangeLogWriteOptions := mkWriteOptions {
  wo_limits : limit_name -> option number;
  wo_overwrite : bool;
  wo_maxBytes : option number
}.

(** The fields of [AtomicChangeLogOutput] and the world it works in. *)
Record output := mkOutput {
  files : disk;
  seen : list disk;            (* every state of the file system so far *)
  calls : nat;
  streamError : option exn;    (* an error of the stream nobody has seen yet *)
  hashed : list Z;             (* what the hash has been fed *)
  byteCount : Z;
  committed : bool;
  streamEnded : bool
}.

Definition EEXIST : exn := Exn "Error" "EEXIST".
Definition ENOENT : exn := Exn "Error" "ENOENT".
Definition output_limit : exn := codec_error "CHANGE_LOG_OUTPUT_LIMIT".
Definition entry_limit : exn := codec_error "CHANGE_LOG_ENTRY_LIMIT".
Definition invalid_metadata : exn := codec_error "CHANGE_LOG_INVALID_METADATA".

Section Output.
Context `{Environment}.

Definition set_files (d : disk) (o : output) : output :=
  mkOutput d (d :: seen o) (calls o) (streamError o) (hashed o) (byteCount o) (committed o)
    (streamEnded o).

Definition counted (o : output) : output :=
  mkOutput (files o) (seen o) (S (calls o)) (streamError o) (hashed o) (byteCount o) (committed o)
    (streamEnded o).

(** A call of the file system: it fails without effect, or does its work. *)
Definition fs_call (work : disk -> result disk) : M output unit := fun o =>
  match fault (calls o) with
  | Some e => (counted o, Throw e)
  | None =>
      match work (files o) with
      | Ok d => (set_files d (counted o), Ok tt)
      | Throw e => (counted o, Throw e)
      end
  end.

Definition fs_create (p : path) (d : disk) : result disk :=
  match d !! p with Some _ => Throw EEXIST | None => Ok (<[p := []]> d) end.

Definition fs_append (p : path) (bytes : list Z) (d : disk) : result disk :=
  match d !! p with Some c => Ok (<[p := c ++ bytes]> d) | None => Throw ENOENT end.

Definition fs_sync (p : path) (d : disk) : result disk :=
  match d !! p with Some _ => Ok d | None => Throw ENOENT end.

Definition fs_rename (p q : path) (d : disk) : result disk :=
  match d !! p with Some c => Ok (<[q := c]> (delete p d)) | None => Throw ENOENT end.

Definition fs_link (p q : path) (d : disk) : result disk :=
  match d !! p, d !! q with
  | Some c, None => Ok (<[q := c]> d)
  | Some _, Some _ => Throw EEXIST
  | None, _ => Throw ENOENT
  end.

(** [fs.rm(path, { force: true })] *)
Definition fs_remove (p : path) (d : disk) : result disk := Ok (delete p d).

(** [.catch(() => undefined)] *)
Definition ignore (m : M output unit) : M output unit := fun o => ((m o).1, Ok tt).

Definition set_streamError (e : option exn) (o : output) : output :=
  mkOutput (files o) (seen o) (calls o) e (hashed o) (byteCount o) (committed o) (streamEnded o).

(** What the stream does on its own: an error is kept until someone waits for
    the stream, and nothing is written after it. *)
Definition stream_call (work : disk -> result disk) : M output unit := fun o =>
  match streamError o with
  | Some _ => (o, Ok tt)
  | None =>
      match fs_call work o with
      | (o, Ok _) => (o, Ok tt)
      | (o, Throw e) => (set_streamError (Some e) o, Ok tt)
      end
  end.

(** [await finished(stream)], [await once(stream, 'drain')] *)
Definition stream_settled : M output unit := fun o =>
  match streamError o with Some e => (o, Throw e) | None => (o, Ok tt) end.

Definition check_signal : M output unit := fun o =>
  (o, throwIfChangeLogCancelled (signal (calls o))).

Context (tempPath outputPath : path) (options : AtomicChangeLogWriteOptions).

(** The constructor opens the stream with the flags [wx]. *)
Definition open_output : M output unit := stream_call (fs_create tempPath).

Definition validateAtomicWriteOptions : result unit :=
  match wo_maxBytes options with
  | None => Ok tt
  | Some v => require (bool_decide (is_Some (positive_safe v)))
      (codec_error "CHANGE_LOG_INVALID_LIMIT")
  end.

Definition over_limit (total : Z) : bool :=
  match wo_maxBytes options with Some (NInt max) => max <? total | _ => false end.

Definition note_written (bytes : list Z) (o : output) : output :=
  mkOutput (files o) (seen o) (calls o) (streamError o) (hashed o ++ bytes)
    (byteCount o + Z.of_nat (length bytes)) (committed o) (streamEnded o).

Definition writeText (text : jsstring) : M output unit :=
  check_signal ;;;
  let bytes := utf8_encode text in
  let* total := getM (fun o => byteCount o + Z.of_nat (length bytes)) in
  if over_limit total then throwM output_limit
  else
    liftM (onBytesWritten total) ;;;
    putM (note_written bytes) ;;;
    stream_call (fs_append tempPath bytes) ;;;
    let* full := getM (fun o => must_drain (calls o)) in
    if (full : bool) then stream_settled else retM tt.

Definition set_ended (o : output) : output :=
  mkOutput (files o) (seen o) (calls o) (streamError o) (hashed o) (byteCount o) (committed o) true.

Definition set_committed (o : output) : output :=
  mkOutput (files o) (seen o) (calls o) (streamError o) (hashed o) (byteCount o) true
    (streamEnded o).

(** Directories that cannot be synced are left alone, so this never throws. *)
Definition syncParentDirectory : M output unit := ignore (fs_call Ok).

Definition commit : M output (Z * jsstring) :=
  putM set_ended ;;;
  stream_settled ;;;
  fs_call (fs_sync tempPath) ;;;
  liftM beforeCommit ;;;
  check_signal ;;;
  (if wo_overwrite options then
     fs_call (fs_rename tempPath outputPath) ;;; putM set_committed
   else
     fs_call (fs_link tempPath outputPath) ;;; putM set_committed ;;;
     ignore (fs_call (fs_remove tempPath))) ;;;
  syncParentDirectory ;;;
  getM (fun o => (byteCount o, sha256 (hashed o))).

Definition cleanup : M output unit :=
  let* done := getM committed in
  if (done : bool) then retM tt else ignore (fs_call (fs_remove tempPath)).

(** ** Writing a document *)

Definition fingerprint_object (f : NormalizedChangeLogFingerprint) : jsval :=
  JObject [(js "byteLength", JString (fp_byteLength f));
    (js "digest", JObject [(js "pluginId", JString (d_pluginId (fp_digest f)));
      (js "algorithm", JString (d_algorithm (fp_digest f)));
      (js "value", JString (d_value (fp_digest f)))])].

Definition normalizedHeaderObject (h : ChangeLogHeader) : jsobject :=
  [(js "format", JString CHANGE_LOG_FORMAT); (js "version", JNumber (NInt CHANGE_LOG_VERSION));
   (js "complete", JBool (h_complete h)); (js "before", fingerprint_object (h_before h));
   (js "after", fingerprint_object (h_after h)); (js "changeCount", JString (h_changeCount h));
   (js "sourceChangeCount", JString (h_sourceChangeCount h));
   (js "unavailableChangeCount", JString (h_unavailableChangeCount h));
   (js "unavailableChangeSerials", JArray (map JString (h_unavailableChangeSerials h)))].

Definition newline : Z := 10.

(** [s.replace(re, by)] for a pattern that is a literal suffix. *)
Definition replace_suffix (suffix by_ s : jsstring) : jsstring :=
  let n := (length s - length suffix)%nat in
  if bool_decide (drop n s = suffix) && (length suffix <=? length s)%nat then take n s ++ by_ else s.

(** A string with the quote character written as an apostrophe. *)
Definition quoted (s : string) : jsstring := map (fun c => if c =? 39 then 34 else c) (js s).

Definition document_prefix (h : ChangeLogHeader) : jsstring :=
  replace_suffix [newline; 125] (js "," ++ [newline] ++ quoted "  'changes': [")
    (stringify_indented (JObject (normalizedHeaderObject h))) ++ [newline].

(** [s.split('\n').map((line) => `    ${line}`).join('\n')] *)
Definition indent_lines (s : jsstring) : jsstring :=
  js "    " ++ flat_map (fun c => if c =? newline then newline :: js "    " else [c]) s.

Definition document_suffix : jsstring := [newline] ++ js "  ]" ++ [newline] ++ js "}" ++ [newline].

Definition entry_text (first : bool) (n : NormalizedChangeLogEntry) : result jsstring :=
  e ← serializeChangeLogEntry (to_log_entry n);
  Ok ((if first then [] else js "," ++ [newline]) ++ indent_lines (stringify_indented (entry_object e))).

Context `{JsonRuntime}.

(** [writeEntry] for each entry the caller has, up to the first failure. *)
Fixpoint write_entries (limits : ChangeLogCodecLimits) (entries : list jsval) (count : nat)
    (s : sequence) : M output nat :=
  match entries with
  | [] => retM count
  | entry :: entries =>
      if limits maxEntryCount <=? Z.of_nat count then throwM entry_limit
      else
        let* normalized := liftM (normalizeChangeLogEntry entry limits) in
        let* s := liftM (sequence_accept limits normalized (Z.of_nat count) s) in
        let* text := liftM (entry_text (count =? 0)%nat normalized) in
        writeText text ;;;
        write_entries limits entries (S count) s
  end.

Record ChangeLogWriteResult := mkWriteResult {
  wr_path : path; wr_byteLength : Z; wr_sha256 : jsstring; wr_entryCount : Z
}.

(** The [try] block; the caller's callback may fail after its entries. *)
Definition write_document (limits : ChangeLogCodecLimits) (expectedCount : Z) (h : ChangeLogHeader)
    (entries : list jsval) (callback : result unit) : M output ChangeLogWriteResult :=
  writeText (document_prefix h) ;;;
  let* count := write_entries limits entries 0 new_sequence in
  liftM callback ;;;
  if negb (Z.of_nat count =? expectedCount) then throwM invalid_metadata
  else
    liftM (normalizeChangeLogHeader (normalizedHeaderObject h) (Z.of_nat count) limits) ;;;
    writeText document_suffix ;;;
    let* done := commit in
    retM (mkWriteResult outputPath done.1 done.2 (Z.of_nat count)).

Definition writeChangeLogFileAtomic (header : ChangeLogHeader) (entries : list jsval)
    (callback : result unit) : M output ChangeLogWriteResult :=
  let* limits := liftM (resolveChangeLogCodecLimits (wo_limits options)) in
  let* expectedCount := liftM (parseChangeLogNonNegativeInt64 (JString (h_changeCount header))) in
  if negb (safeZ expectedCount) || (limits maxEntryCount <? expectedCount) then throwM entry_limit
  else
    liftM validateAtomicWriteOptions ;;;
    let* h := liftM (normalizeChangeLogHeader (normalizedHeaderObject header) expectedCount limits) in
    open_output ;;;
    finallyM (write_document limits expectedCount h entries callback) cleanup.
End Output.

(** A fresh output in a file system. *)
Definition on_disk (d : disk) : output := mkOutput d [d] 0 None [] 0 false false.

(** ** What is written *)

Section Contents.
Context `{Environment}.

Definition entry_bytes (first : bool) (n : NormalizedChangeLogEntry) : list Z :=
  utf8_encode ((if first then [] else js "," ++ [newline])
    ++ indent_lines (stringify_indented (entry_object (to_log_entry n)))).

Fixpoint entries_bytes (count : nat) (ns : list NormalizedChangeLogEntry) : list Z :=
  match ns with
  | [] => []
  | n :: ns => entry_bytes (count =? 0)%nat n ++ entries_bytes (S count) ns
  end.

Definition document_bytes (h : ChangeLogHeader) (ns : list NormalizedChangeLogEntry) : list Z :=
  utf8_encode (document_prefix h) ++ entries_bytes 0 ns ++ utf8_encode document_suffix.
End Contents.

(** An entry in normal form is written as it is. *)
Lemma serialize_normal limits n :
  normal_entry limits n -> serializeChangeLogEntry (to_log_entry n) = Ok (to_log_entry n).
Proof.
  intros [(a & Ea & Ha) (b & Eb & Hb & _) [He Hf] _ Hs Hg _].
  unfold serializeChangeLogEntry, changeLogInt64ToDecimal, to_log_entry.
  cbn [l_offset l_length l_data l_serial l_groupId l_kind int64_value].
  rewrite Ea, Eb, !parse_int64_decimal, normalizeHex_id by done. unfold mbind, result_bind.
  destruct (n_serial n) as [s|]; cbn [fmap option_fmap option_map int64_value].
  - destruct (Hs s eq_refl) as (k & -> & Hk). rewrite parse_positive_decimal by done.
    destruct (n_groupId n) as [g|]; [|done]. destruct (Hg g eq_refl) as (Hne & Htr & _).
    rewrite Htr. unfold require. by destruct g.
  - destruct (n_groupId n) as [g|]; [|done]. destruct (Hg g eq_refl) as (Hne & Htr & _).
    rewrite Htr. unfold require. by destruct g.
Qed.

(** ** The state of an output while a document is written *)

Section Atomic.
Context `{Environment} `{JsonRuntime}.
Context (tempPath outputPath : path) (options : AtomicChangeLogWriteOptions).
Context (initial : disk).
Hypothesis temp_differs : tempPath <> outputPath.

(** Nothing but the temporary file has been touched. *)
Definition only_temp (d : disk) : Prop := forall q, q <> tempPath -> d !! q = initial !! q.

Record untouched (o : output) : Prop := mkUntouched {
  ut_files : only_temp (files o);
  ut_seen : Forall only_temp (seen o);
  ut_committed : committed o = false
}.

(** [written] has been handed to the stream, and is in the temporary file
    unless the stream has failed. *)
Record writing (written : list Z) (o : output) : Prop := mkWriting {
  wt_untouched : untouched o;
  wt_hashed : hashed o = written;
  wt_count : byteCount o = Z.of_nat (length written);
  wt_temp : streamError o = None -> files o !! tempPath = Some written
}.

Lemma only_temp_insert d c : only_temp d -> only_temp (<[tempPath := c]> d).
Proof. intros Hd q Hq. rewrite lookup_insert_ne by done. by apply Hd. Qed.

Lemma only_temp_delete d : only_temp d -> only_temp (delete tempPath d).
Proof. intros Hd q Hq. rewrite lookup_delete_ne by done. by apply Hd. Qed.

Lemma untouched_call work o :
  untouched o -> (forall d d', only_temp d -> work d = Ok d' -> only_temp d') ->
  match fs_call work o with
  | (o', Ok _) => untouched o' /\ work (files o) = Ok (files o') /\ hashed o' = hashed o /\
      byteCount o' = byteCount o /\ streamError o' = streamError o
  | (o', Throw _) => untouched o' /\ files o' = files o /\ hashed o' = hashed o /\
      byteCount o' = byteCount o /\ streamError o' = streamError o
  end.
Proof.
  intros [H1 H2 H3] Hw. unfold fs_call. destruct (fault (calls o)) as [e|]; [done|].
  destruct (work (files o)) as [d|e] eqn:E; [|done]. pose proof (Hw _ _ H1 E) as Hd.
  split; [|done]. constructor; [done| |done]. by constructor.
Qed.

Lemma append_writing bytes written o :
  writing written o ->
  match stream_call (fs_append tempPath bytes) (note_written bytes o) with
  | (o', Ok _) => writing (written ++ bytes) o'
  | (_, Throw _) => False
  end.
Proof.
  intros [Hu Hh Hc Ht]. unfold stream_call. cbn [note_written streamError].
  destruct (streamError o) as [e|] eqn:Ee.
  - destruct Hu as [H1 H2 H3]. constructor; cbn; [done|by rewrite Hh| |by rewrite Ee].
    rewrite Hc, length_app. lia.
  - specialize (Ht eq_refl).
    pose proof (untouched_call (fs_append tempPath bytes) (note_written bytes o)) as Hf.
    destruct (fs_call (fs_append tempPath bytes) (note_written bytes o)) as [o' [u|e]].
    + destruct Hf as (Hu' & Hw & Eh & Eb & Es).
      { destruct Hu as [H1 H2 H3]. by constructor. }
      { intros d d' Hd. unfold fs_append. destruct (d !! tempPath); [|done].
        intros Hok. apply Ok_inj in Hok as <-. by apply only_temp_insert. }
      cbn in Hw, Eh, Eb. unfold fs_append in Hw. rewrite Ht in Hw. apply Ok_inj in Hw.
      constructor; [done|by rewrite Eh, Hh|rewrite Eb, Hc, length_app; lia|].
      intros _. rewrite <- Hw. by rewrite lookup_insert_eq.
    + destruct Hf as (Hu' & Hw & Eh & Eb & Es).
      { destruct Hu as [H1 H2 H3]. by constructor. }
      { intros d d' Hd. unfold fs_append. destruct (d !! tempPath); [|done].
        intros Hok. apply Ok_inj in Hok as <-. by apply only_temp_insert. }
      cbn in Hw, Eh, Eb. destruct Hu' as [G1 G2 G3].
      constructor; cbn; [by constructor|by rewrite Eh, Hh|rewrite Eb, Hc, length_app; lia|done].
Qed.

Lemma writing_untouched b o : writing b o -> untouched o.
Proof. by intros []. Qed.

Lemma writeText_triple text b :
  triple (writing b) (writeText tempPath options text)
    (fun _ => writing (b ++ utf8_encode text)) untouched.
Proof.
  unfold writeText. intros o Ho. pose proof (writing_untouched b o Ho) as Hu.
  unfold bindM at 1, check_signal. destruct (throwIfChangeLogCancelled _); [|done].
  unfold bindM at 1, getM. destruct (over_limit _ _); [done|].
  unfold bindM at 1, liftM. destruct (onBytesWritten _); [|done].
  unfold bindM at 1, putM. unfold bindM at 1.
  pose proof (append_writing (utf8_encode text) b o Ho) as Ha.
  destruct (stream_call _ _) as [o' [u|e]]; [|done]. unfold bindM.
  destruct (must_drain (calls o')); [|done]. unfold stream_settled.
  destruct (streamError o'); [|done]. by apply writing_untouched in Ha.
Qed.

Lemma write_entries_triple limits entries : forall b count s,
  triple (writing b) (write_entries tempPath options limits entries count s)
    (fun n o => exists ns s', Forall2 (fun v e => normalizeChangeLogEntry v limits = Ok e) entries ns /\
       n = (count + length ns)%nat /\ accept_all limits count ns s = Ok s' /\
       writing (b ++ entries_bytes count ns) o)
    untouched.
Proof.
  induction entries as [|v entries IH]; intros b count s o Ho; cbn [write_entries].
  - exists [], s. cbn. rewrite app_nil_r. split_and!; [constructor|lia|done|done].
  - pose proof (writing_untouched b o Ho) as Hu.
    destruct (limits maxEntryCount <=? Z.of_nat count); [done|].
    unfold bindM at 1, liftM at 1. destruct (normalizeChangeLogEntry v limits) as [n|] eqn:En; [|done].
    unfold bindM at 1, liftM at 1.
    destruct (sequence_accept limits n (Z.of_nat count) s) as [s1|] eqn:Es; [|done].
    unfold bindM at 1, liftM at 1. unfold entry_text, mbind, result_bind.
    rewrite (serialize_normal limits n) by by eapply normalize_entry_normal.
    unfold bindM at 1. pose proof (writeText_triple ((if (count =? 0)%nat then [] else js "," ++ [newline])
      ++ indent_lines (stringify_indented (entry_object (to_log_entry n)))) b o Ho) as Hw.
    destruct (writeText _ _ _ o) as [o1 [u|e]]; [|done].
    pose proof (IH _ (S count) s1 o1 Hw) as Hr.
    destruct (write_entries _ _ limits entries (S count) s1 o1) as [o2 [k|e]]; [|done].
    destruct Hr as (ns & s' & Hf & -> & Ha & Hwr). exists (n :: ns), s'.
    split; [by constructor|]. split; [cbn; lia|]. split.
    + cbn [accept_all]. unfold mbind, result_bind. by rewrite Es.
    + cbn [entries_bytes]. unfold entry_bytes. by rewrite app_assoc.
Qed.

(** *** Committing *)

Definition elsewhere (d : disk) : Prop :=
  forall q, q <> tempPath -> q <> outputPath -> d !! q = initial !! q.

(** The new contents are there; [back] calls ago is the one that removes the
    temporary file. *)
Record replaced (back : nat) (b : list Z) (o : output) : Prop := mkReplaced {
  rd_committed : committed o = true;
  rd_output : files o !! outputPath = Some b;
  rd_files : elsewhere (files o);
  rd_seen : Forall (fun d => elsewhere d /\
    (d !! outputPath = initial !! outputPath \/ d !! outputPath = Some b)) (seen o);
  rd_exclusive : wo_overwrite options = false -> initial !! outputPath = None;
  rd_temp : files o !! tempPath = None \/ wo_overwrite options = false /\ is_Some (fault (calls o - back)%nat)
}.

Lemma untouched_elsewhere b d : only_temp d ->
  elsewhere d /\ (d !! outputPath = initial !! outputPath \/ d !! outputPath = Some b).
Proof. intros Hd. split; [intros q Hq _; by apply Hd|]. left. by apply Hd. Qed.

Lemma commit_rename b o :
  writing b o -> streamError o = None -> wo_overwrite options = true ->
  match fs_call (fs_rename tempPath outputPath) o with
  | (o', Ok _) => replaced 1 b (set_committed o') /\ hashed o' = b /\ byteCount o' = Z.of_nat (length b)
  | (o', Throw _) => untouched o'
  end.
Proof.
  intros [[H1 H2 H3] Hh Hc Ht] Hs Hov. specialize (Ht Hs). unfold fs_call.
  destruct (fault (calls o)); [done|]. unfold fs_rename. rewrite Ht.
  assert (Hout : (<[outputPath:=b]> (delete tempPath (files o))) !! outputPath = Some b)
    by by rewrite lookup_insert_eq.
  assert (Hel : elsewhere (<[outputPath:=b]> (delete tempPath (files o)))).
  { intros q Hq1 Hq2. rewrite lookup_insert_ne, lookup_delete_ne by done. by apply H1. }
  split; [|done]. constructor; cbn; [done|done|done| |congruence|].
  - constructor.
    + split; [done|by right].
    + eapply Forall_impl; [done|]. intros d. apply untouched_elsewhere.
  - left. rewrite lookup_insert_ne by done. by rewrite lookup_delete_eq.
Qed.

Lemma commit_link b o :
  writing b o -> streamError o = None -> wo_overwrite options = false ->
  match fs_call (fs_link tempPath outputPath) o with
  | (o', Ok _) =>
      replaced 1 b ((ignore (fs_call (fs_remove tempPath)) (set_committed o')).1) /\
      hashed (ignore (fs_call (fs_remove tempPath)) (set_committed o')).1 = b /\
      byteCount (ignore (fs_call (fs_remove tempPath)) (set_committed o')).1 = Z.of_nat (length b)
  | (o', Throw _) => untouched o'
  end.
Proof.
  intros [[H1 H2 H3] Hh Hc Ht] Hs Hov. specialize (Ht Hs). unfold fs_call at 1.
  destruct (fault (calls o)) eqn:Ef; [done|]. unfold fs_link. rewrite Ht.
  destruct (files o !! outputPath) as [c|] eqn:Eo; [done|].
  assert (Hin : initial !! outputPath = None) by (rewrite <- (H1 outputPath); [done|congruence]).
  assert (Hel : Forall (fun d => elsewhere d /\
      (d !! outputPath = initial !! outputPath \/ d !! outputPath = Some b))
    (<[outputPath:=b]> (files o) :: seen o)).
  { constructor; [|eapply Forall_impl; [done|]; intros d; apply untouched_elsewhere].
    split; [|right; by rewrite lookup_insert_eq]. intros q Hq1 Hq2.
    rewrite lookup_insert_ne by done. by apply H1. }
  unfold ignore, fs_call. cbn. destruct (fault (S (calls o))) as [e|] eqn:Ef2; cbn.
  - split; [|done].
    constructor; cbn; [done|by rewrite lookup_insert_eq|by inversion Hel as [|?? []]|done|done|].
    right. split; [done|]. rewrite Ef2. by exists e.
  - assert (Hel2 : elsewhere (delete tempPath (<[outputPath:=b]> (files o)))).
    { intros q Hq1 Hq2. rewrite lookup_delete_ne, lookup_insert_ne by done. by apply H1. }
    assert (Hb : delete tempPath (<[outputPath:=b]> (files o)) !! outputPath = Some b)
      by (rewrite lookup_delete_ne by done; by rewrite lookup_insert_eq).
    split; [|done]. constructor; cbn; [done|done|done| |done|].
    + constructor; [|done]. split; [done|by right].
    + left. by rewrite lookup_delete_eq.
Qed.

Lemma sync_parent o b :
  replaced 1 b o -> replaced 2 b (syncParentDirectory o).1 /\
  hashed (syncParentDirectory o).1 = hashed o /\ byteCount (syncParentDirectory o).1 = byteCount o.
Proof.
  intros [G1 G2 G3 G4 G5 G6]. unfold syncParentDirectory, ignore, fs_call.
  destruct (fault (calls o)); cbn; (split; [|done]); constructor; cbn; try done.
  constructor; [|done]. split; [done|by right].
Qed.

Lemma sync_temp b o :
  writing b o -> streamError o = None ->
  match fs_call (fs_sync tempPath) o with
  | (o', Ok _) => writing b o' /\ streamError o' = None
  | (o', Throw _) => untouched o'
  end.
Proof.
  intros [Hu Hh Hc Ht] Hs.
  pose proof (untouched_call (fs_sync tempPath) o Hu) as Hf.
  destruct (fs_call (fs_sync tempPath) o) as [o' [u|e]].
  - destruct Hf as (Hu' & Hw & Eh & Eb & Es).
    { intros d d' Hd. unfold fs_sync. destruct (d !! tempPath); [|done].
      intros Hok. by apply Ok_inj in Hok as <-. }
    unfold fs_sync in Hw. rewrite (Ht Hs) in Hw. apply Ok_inj in Hw.
    split; [|congruence]. constructor; [done|congruence|congruence|]. rewrite <- Hw. auto.
  - destruct Hf as (Hu' & _); [|done].
    intros d d' Hd. unfold fs_sync. destruct (d !! tempPath); [|done].
    intros Hok. by apply Ok_inj in Hok as <-.
Qed.

Lemma commit_triple b :
  triple (writing b) (commit tempPath outputPath options)
    (fun r o => r = (Z.of_nat (length b), sha256 b) /\ replaced 2 b o) untouched.
Proof.
  intros o Ho. unfold commit.
  assert (Hend : writing b (set_ended o)).
  { destruct Ho as [[H1 H2 H3] Hh Hc Ht]. constructor; [by constructor|done..]. }
  unfold bindM at 1, putM. set (o0 := set_ended o) in *. clearbody o0. clear o Ho. rename o0 into o.
  pose proof (writing_untouched b o Hend) as Hu. unfold bindM at 1, stream_settled.
  destruct (streamError o) eqn:Es; [done|]. unfold bindM at 1.
  pose proof (sync_temp b o Hend Es) as Hsync.
  destruct (fs_call (fs_sync tempPath) o) as [o1 [u|e]]; [|done]. destruct Hsync as [Hw Es1].
  pose proof (writing_untouched b o1 Hw) as Hu1.
  unfold bindM at 1, liftM. destruct beforeCommit; [|done].
  unfold bindM at 1, check_signal. destruct (throwIfChangeLogCancelled _); [|done].
  unfold bindM at 1. destruct (wo_overwrite options) eqn:Ew.
  - unfold bindM at 1. pose proof (commit_rename b o1 Hw Es1 Ew) as Hr.
    destruct (fs_call (fs_rename tempPath outputPath) o1) as [o2 [v|e]]; [|done].
    destruct Hr as (Hr & Eh & Eb). unfold bindM, putM.
    destruct (sync_parent _ _ Hr) as (Hp & Eh' & Eb'). unfold syncParentDirectory, ignore in *.
    cbn [fst] in *. unfold getM. split; [|done]. cbn in Eh', Eb'. congruence.
  - unfold bindM at 1. pose proof (commit_link b o1 Hw Es1 Ew) as Hr.
    destruct (fs_call (fs_link tempPath outputPath) o1) as [o2 [v|e]]; [|done].
    destruct Hr as (Hr & Eh & Eb). unfold bindM, putM.
    destruct (sync_parent _ _ Hr) as (Hp & Eh' & Eb'). unfold syncParentDirectory, ignore in *.
    cbn [fst] in *. unfold getM. split; [|done]. congruence.
Qed.

Lemma write_document_triple limits expectedCount h entries callback :
  triple (writing []) (write_document tempPath outputPath options limits expectedCount h entries callback)
    (fun r o => exists ns s',
       Forall2 (fun v e => normalizeChangeLogEntry v limits = Ok e) entries ns /\
       accept_all limits 0 ns new_sequence = Ok s' /\ expectedCount = Z.of_nat (length ns) /\
       let b := document_bytes h ns in
       r = mkWriteResult outputPath (Z.of_nat (length b)) (sha256 b) expectedCount /\ replaced 2 b o)
    untouched.
Proof.
  unfold write_document. eapply triple_bind; [apply writeText_triple|intros u].
  eapply triple_bind; [apply write_entries_triple|intros count].
  intros o (ns & s' & Hf & -> & Ha & Hw). cbn [Nat.add] in *. rewrite app_nil_l in Hw.
  pose proof (writing_untouched _ o Hw) as Hu.
  unfold bindM at 1, liftM. destruct callback; [|done].
  destruct (Z.eqb_spec (Z.of_nat (length ns)) expectedCount) as [He|]; cbn [negb]; [|done].
  unfold bindM at 1, liftM. destruct (normalizeChangeLogHeader _ _ _); [|done].
  unfold bindM at 1. pose proof (writeText_triple document_suffix _ o Hw) as Hs.
  destruct (writeText _ _ _ o) as [o1 [v|e]]; [|done]. unfold bindM at 1.
  pose proof (commit_triple _ o1 Hs) as Hc. destruct (commit _ _ _ o1) as [o2 [r|e]]; [|done].
  destruct Hc as [-> Hr]. unfold retM. exists ns, s'. rewrite <- app_assoc in *.
  split_and!; try done. cbn. by rewrite He.
Qed.

Lemma cleanup_replaced back b o :
  replaced back b o -> cleanup tempPath o = (o, Ok tt).
Proof. intros [G1 _ _ _ _ _]. unfold cleanup, bindM, getM. by rewrite G1. Qed.

Lemma cleanup_untouched o :
  untouched o -> exists o', cleanup tempPath o = (o', Ok tt) /\ untouched o' /\
    (files o' !! tempPath = None \/ is_Some (fault (calls o' - 1)%nat)).
Proof.
  intros Hu. pose proof (ut_committed o Hu) as Hc. unfold cleanup, bindM, getM. rewrite Hc.
  unfold ignore. eexists. split; [done|]. cbn.
  pose proof (untouched_call (fs_remove tempPath) o Hu) as Hf. unfold fs_call in *.
  destruct (fault (calls o)) as [e|] eqn:Ef; cbn.
  - destruct Hf as (Hu' & _).
    { intros d d' Hd Hok. apply Ok_inj in Hok as <-. by apply only_temp_delete. }
    split; [done|]. right. rewrite Nat.sub_0_r, Ef. by exists e.
  - cbn in Hf. destruct Hf as (Hu' & _).
    { intros d d' Hd Hok. apply Ok_inj in Hok as <-. by apply only_temp_delete. }
    split; [done|]. left. cbn. by rewrite lookup_delete_eq.
Qed.
End Atomic.

Lemma open_writing `{Environment} tempPath initial :
  initial !! tempPath = None ->
  exists o, open_output tempPath (on_disk initial) = (o, Ok tt) /\ writing tempPath initial [] o.
Proof.
  intros Hno. unfold open_output, stream_call. cbn.
  pose proof (untouched_call tempPath initial (fs_create tempPath) (on_disk initial)) as Hf.
  assert (Hu : untouched tempPath initial (on_disk initial)).
  { constructor; [done| |done]. by constructor. }
  assert (Hw : forall d d', only_temp tempPath initial d -> fs_create tempPath d = Ok d' ->
    only_temp tempPath initial d').
  { intros d d' Hd. unfold fs_create. destruct (d !! tempPath); [done|].
    intros Hok. apply Ok_inj in Hok as <-. by apply only_temp_insert. }
  specialize (Hf Hu Hw). destruct (fs_call (fs_create tempPath) (on_disk initial)) as [o [u|e]].
  - destruct Hf as (Hu' & Hd & Eh & Eb & Es). exists o. split; [done|]. constructor; [done..|].
    intros _. cbn in Hd. unfold fs_create in Hd. rewrite Hno in Hd. apply Ok_inj in Hd as <-.
    by rewrite lookup_insert_eq.
  - destruct Hf as ([H1 H2 H3] & _ & Eh & Eb & _). eexists. split; [done|].
    constructor; cbn; [by constructor|done|done|done].
Qed.

(** What is true of a write whatever happens: in every state the file system
    went through, no path but the temporary one and the output has changed,
    and the output has its old contents or all the new ones; a write that
    throws has not replaced it; the temporary file is gone, or the call that
    removes it has failed: the last call of a write that throws, the one before
    the last of a write that succeeds (a rename takes it away).  [P] tells what
    the contents are. *)
Definition atomic_outcome `{Environment} {A : Type} (tempPath outputPath : path)
    (options : AtomicChangeLogWriteOptions) (initial : disk) (P : A -> list Z -> Prop)
    (o : output) (r : result A) : Prop :=
  Forall (elsewhere tempPath outputPath initial) (seen o) /\
  (files o !! tempPath = None \/
   match r with
   | Throw _ => is_Some (fault (calls o - 1)%nat)
   | Ok _ => wo_overwrite options = false /\ is_Some (fault (calls o - 2)%nat)
   end) /\
  match r with
  | Throw _ => Forall (fun d => d !! outputPath = initial !! outputPath) (seen o)
  | Ok res => exists b, P res b /\ files o !! outputPath = Some b /\
      Forall (fun d => d !! outputPath = initial !! outputPath \/ d !! outputPath = Some b) (seen o) /\
      (wo_overwrite options = false -> initial !! outputPath = None)
  end.

Lemma untouched_outcome `{Environment} {A : Type} tempPath outputPath options initial (P : A -> list Z -> Prop) o e :
  tempPath <> outputPath -> untouched tempPath initial o ->
  files o !! tempPath = None \/ is_Some (fault (calls o - 1)%nat) ->
  atomic_outcome tempPath outputPath options initial P o (Throw e).
Proof.
  intros Hne [H1 H2 H3] Ht. split; [|split; [done|]]; eapply Forall_impl; try done; intros d Hd.
  - intros q Hq _. by apply Hd.
  - by apply Hd.
Qed.

Lemma fresh_outcome `{Environment} {A : Type} tempPath outputPath options initial (P : A -> list Z -> Prop) e :
  tempPath <> outputPath -> initial !! tempPath = None ->
  atomic_outcome tempPath outputPath options initial P (on_disk initial) (Throw e).
Proof.
  intros Hne Hno. apply untouched_outcome; [done| |by left]. constructor; [done| |done]. by constructor.
Qed.

(** Any body that writes through the output is atomic. *)
Lemma body_atomic `{Environment} {A : Type} tempPath outputPath options initial (P : A -> list Z -> Prop)
    (body : M output A) :
  tempPath <> outputPath -> initial !! tempPath = None ->
  triple (writing tempPath initial []) body
    (fun r o => exists b, P r b /\ replaced tempPath outputPath options initial 2 b o)
    (untouched tempPath initial) ->
  let '(o, r) := (open_output tempPath ;;; finallyM body (cleanup tempPath)) (on_disk initial) in
  atomic_outcome tempPath outputPath options initial P o r.
Proof.
  intros Hne Hno Hb. unfold bindM. destruct (open_writing tempPath initial Hno) as (o & -> & Hw).
  unfold finallyM. specialize (Hb o Hw). destruct (body o) as [o1 [r|e]].
  - destruct Hb as (b & HP & Hr). rewrite (cleanup_replaced _ _ _ _ _ _ _ Hr).
    destruct Hr as [G1 G2 G3 G4 G5 G6].
    split; [eapply Forall_impl; [done|]; by intros d [? _]|]. split; [done|].
    exists b. split; [done|]. split; [done|]. split; [|done].
    eapply Forall_impl; [done|]. by intros d [_ ?].
  - destruct (cleanup_untouched tempPath initial o1 Hb) as (o2 & -> & Hu & Ht).
    by apply untouched_outcome.
Qed.

(** The contents are the document of a header and the normalised entries,
    which fit together, and the result describes it. *)
Definition document_written `{Environment} `{JsonRuntime} (outputPath : path)
    (options : AtomicChangeLogWriteOptions) (entries : list jsval) (res : ChangeLogWriteResult)
    (b : list Z) : Prop :=
  exists limits h ns,
    resolveChangeLogCodecLimits (wo_limits options) = Ok limits /\
    Forall2 (fun v e => normalizeChangeLogEntry v limits = Ok e) entries ns /\
    serials_ok ns /\ groups_ok ns /\ consistent_header (Z.of_nat (length ns)) h /\
    b = document_bytes h ns /\
    res = mkWriteResult outputPath (Z.of_nat (length b)) (sha256 b) (Z.of_nat (length ns)).

Lemma write_atomic `{Environment} `{JsonRuntime} tempPath outputPath options header entries callback
    initial :
  tempPath <> outputPath -> initial !! tempPath = None ->
  let '(o, r) := writeChangeLogFileAtomic tempPath outputPath options header entries callback
    (on_disk initial) in
  atomic_outcome tempPath outputPath options initial (document_written outputPath options entries) o r.
Proof.
  intros Hne Hno. unfold writeChangeLogFileAtomic.
  pose proof (fun e => fresh_outcome tempPath outputPath options initial
    (document_written outputPath options entries) e Hne Hno) as Hfail.
  unfold bindM at 1, liftM at 1. destruct (resolveChangeLogCodecLimits _) as [limits|e] eqn:El; [|apply Hfail].
  unfold bindM at 1, liftM at 1. destruct (parseChangeLogNonNegativeInt64 _) as [n|e]; [|apply Hfail].
  destruct (_ || _); [apply Hfail|].
  unfold bindM at 1, liftM at 1. destruct (validateAtomicWriteOptions options); [|apply Hfail].
  unfold bindM at 1, liftM at 1.
  destruct (normalizeChangeLogHeader _ n limits) as [h|e] eqn:Eh; [|apply Hfail].
  apply body_atomic; [done|done|].
  eapply triple_conseq; [by apply (write_document_triple tempPath outputPath options)|done| |done].
  intros r o (ns & s' & Hf & Ha & -> & -> & Hr). eexists. split; [|done].
  exists limits, h, ns. apply sequence_sound in Ha as [Hser Hgr].
  split_and!; try done. by eapply header_consistent.
Qed.

(** ** A header that is written is accepted again *)

Lemma lower_id s : (forall c, In c s -> lower_unit c = [c]) -> toLowerCase s = s.
Proof.
  induction s as [|c s IH]; [done|]. intros Hs. cbn. fold (toLowerCase s).
  rewrite (Hs c (or_introl eq_refl)), IH; [done|]. intros d Hd. apply Hs. by right.
Qed.

Lemma plugin_char_plain c : is_plugin_char c = true -> is_js_space c = false.
Proof.
  unfold is_plugin_char, is_js_space, in_range. rewrite !orb_true_iff, !andb_true_iff, !Z.leb_le, !Z.eqb_eq.
  intros Hc. apply not_true_iff_false.
  rewrite !orb_true_iff, !andb_true_iff, !Z.leb_le, !Z.eqb_eq. lia.
Qed.

Lemma algorithm_char_plain c :
  is_algorithm_char c = true -> is_plugin_char c = true /\ lower_unit c = [c].
Proof.
  unfold is_algorithm_char, is_plugin_char, lower_unit, in_range.
  rewrite !orb_true_iff, !andb_true_iff, !Z.leb_le, !Z.eqb_eq. intros Hc. split; [lia|].
  destruct (Z.leb_spec 65 c), (Z.leb_spec c 90); cbn [andb]; try lia;
    destruct (Z.eqb_spec c 8490), (Z.eqb_spec c 304); lia || done.
Qed.

Lemma matches_chars f max s c : matches_all f max s = true -> In c s -> f c = true.
Proof.
  unfold matches_all. rewrite !andb_true_iff, forallb_forall. intros [[_ Hf] _] Hc. by apply Hf.
Qed.

Lemma fingerprint_idempotent v f :
  normalizeChangeLogFingerprint v = Ok f ->
  normalizeChangeLogFingerprint (fingerprint_object f) = Ok f.
Proof.
  unfold normalizeChangeLogFingerprint at 1, mbind, result_bind, require. intros Hf.
  destruct (as_record v) as [o|]; [|done].
  destruct (parseChangeLogNonNegativeInt64 _) as [n|] eqn:En; [|done].
  destruct (as_record _) as [d|]; [|done].
  destruct (matches_all is_plugin_char _ _) eqn:E1; [|done].
  destruct (matches_all is_algorithm_char _ _) eqn:E2; [|done].
  destruct (matches_all is_lower_hex _ _) eqn:E3; [|done]. apply Ok_inj in Hf as <-.
  set (pid := trim _) in *. set (alg := toLowerCase _) in *.
  set (val := toLowerCase (trim (string_or_empty (get (js "value") d)))) in *.
  clearbody pid alg val. apply parse_int64_range in En.
  assert (Hp : trim pid = pid).
  { apply trim_id. intros c Hc. by eapply plugin_char_plain, matches_chars. }
  assert (Ha : toLowerCase (trim alg) = alg).
  { rewrite trim_id; [apply lower_id|]; intros c Hc; apply (matches_chars _ _ _ _ E2) in Hc;
      apply algorithm_char_plain in Hc as [? ?]; [done|]. by apply plugin_char_plain. }
  assert (Hv : toLowerCase (trim val) = val).
  { assert (Hx : forall c, In c val -> is_algorithm_char c = true).
    { intros c Hc. apply (matches_chars _ _ _ _ E3) in Hc. unfold is_lower_hex, is_algorithm_char, in_range in *.
      rewrite !orb_true_iff, !andb_true_iff, !Z.leb_le in *. lia. }
    rewrite trim_id; [apply lower_id|]; intros c Hc; apply Hx in Hc;
      apply algorithm_char_plain in Hc as [? ?]; [done|]. by apply plugin_char_plain. }
  unfold normalizeChangeLogFingerprint, fingerprint_object, mbind, result_bind, require.
  cbn [as_record]. change (get (js "byteLength") _) with (JString (decimal_string n)).
  rewrite parse_int64_decimal by done.
  change (get (js "digest") _) with (JObject [(js "pluginId", JString pid);
    (js "algorithm", JString alg); (js "value", JString val)]). cbn [as_record].
  change (get (js "pluginId") _) with (JString pid). change (get (js "algorithm") _) with (JString alg).
  change (get (js "value") _) with (JString val). cbn [nullish].
  unfold string_or_empty. cbn [as_string from_option id]. by rewrite Hp, Ha, Hv, E1, E2, E3.
Qed.

Lemma unavailable_again source r : source <= MAX_INT64 -> forall seen,
  NoDup r -> (forall x, x ∈ r -> x ∉ seen) ->
  Forall (fun s => exists k, s = decimal_string k /\ 0 < k <= source) r ->
  unavailable_loop source seen (map JString r) = Ok r.
Proof.
  intros Hmax. induction r as [|x r IH]; intros seen Hnd Hns Hall; [done|].
  inversion Hall as [|?? (k & -> & Hk) Hr]; inversion Hnd as [|?? Hx Hnd']; subst.
  cbn [map unavailable_loop]. rewrite parse_positive_decimal by lia.
  unfold mbind, result_bind, require. destruct (Z.leb_spec k source); [|lia].
  rewrite bool_decide_false by (apply Hns; left). cbn [negb].
  rewrite IH; [done|done| |done]. intros y Hy. apply not_elem_of_cons.
  split; [by intros ->|]. apply Hns. by right.
Qed.

(** A header is accepted in its written form as soon as it is consistent,
    its fingerprints are in normal form and it has room for its serials. *)
Lemma consistent_accepted h n limits :
  0 <= n -> consistent_header n h ->
  normalizeChangeLogFingerprint (fingerprint_object (h_before h)) = Ok (h_before h) ->
  normalizeChangeLogFingerprint (fingerprint_object (h_after h)) = Ok (h_after h) ->
  Z.of_nat (length (h_unavailableChangeSerials h)) <= limits maxUnavailableSerialCount ->
  Z.of_nat (length (h_unavailableChangeSerials h)) <= MAX_INT64 ->
  normalizeChangeLogHeader (normalizedHeaderObject h) n limits = Ok h.
Proof.
  destruct h as [b before after cc sc uc serials]. cbn [h_before h_after h_unavailableChangeSerials].
  intros Hn [Cc (m & Cs & Hm & Call) Cnd Cu Cb] Eb Ea Hl Hmax. cbn in Cc, Cs, Call, Cnd, Cu, Cb. subst cc sc uc.
  unfold normalizeChangeLogHeader, mbind, result_bind, require, normalizedHeaderObject.
  cbn [h_complete h_before h_after h_changeCount h_sourceChangeCount h_unavailableChangeCount
    h_unavailableChangeSerials get].
  repeat match goal with |- context [bool_decide (js ?a = js ?b)] =>
    let v := eval vm_compute in (bool_decide (js a = js b)) in change (bool_decide (js a = js b)) with v
  end.
  cbn [as_string is_version]. rewrite bool_decide_true by done. cbn [Z.eqb].
  rewrite !parse_int64_decimal by lia. rewrite !Z.eqb_refl. destruct (Z.leb_spec n m); [|lia].
  unfold normalizeUnavailableChangeSerials. cbn [as_array]. rewrite length_map.
  destruct (Z.ltb_spec (limits maxUnavailableSerialCount) (Z.of_nat (length serials))); [lia|].
  rewrite unavailable_again; [|lia|done|by intros x _ ?%not_elem_of_nil|done].
  rewrite Z.eqb_refl, Eb, Ea.
  replace (Bool.eqb b (Z.of_nat (length serials) =? 0)) with true; [done|].
  symmetry. apply eqb_true_iff, eq_true_iff_eq. rewrite Cb, Z.eqb_eq.
  destruct serials; cbn; split; done || lia.
Qed.

(** What the writer puts before the entries normalises to itself. *)
Lemma header_idempotent o count limits h :
  normalizeChangeLogHeader o count limits = Ok h ->
  normalizeChangeLogHeader (normalizedHeaderObject h) count limits = Ok h.
Proof.
  intros Hh. pose proof (header_consistent o count limits h Hh) as Hc.
  unfold normalizeChangeLogHeader at 1, mbind, result_bind, require in Hh.
  destruct (bool_decide _); [|done]. destruct (is_version _); [|done].
  destruct (get (js "complete") o) as [| |b| | | | |]; try done.
  destruct (parseChangeLogNonNegativeInt64 (get (js "changeCount") o)) as [c|] eqn:E1; [|done].
  destruct (parseChangeLogNonNegativeInt64 (get (js "sourceChangeCount") o)) as [m|] eqn:E2; [|done].
  destruct (parseChangeLogNonNegativeInt64 (get (js "unavailableChangeCount") o)) as [u|] eqn:E3;
    [|done].
  destruct (Z.eqb_spec c count) as [->|]; [|done]. destruct (Z.leb_spec count m) as [Hcm|]; [|done].
  destruct (normalizeUnavailableChangeSerials _ _ _) as [serials|] eqn:E4; [|done].
  destruct (Z.eqb_spec u (Z.of_nat (length serials))) as [->|]; [|done].
  destruct (Bool.eqb b _) eqn:E5; [|done].
  destruct (normalizeChangeLogFingerprint (get (js "before") o)) as [before|] eqn:Eb; [|done].
  destruct (normalizeChangeLogFingerprint (get (js "after") o)) as [after|] eqn:Ea; [|done].
  apply Ok_inj in Hh as <-. unfold normalizeUnavailableChangeSerials in E4.
  destruct (as_array _) as [l|]; [|done]. destruct (Z.ltb_spec (limits maxUnavailableSerialCount)
    (Z.of_nat (length l))) as [|El]; [done|].
  apply unavailable_loop_sound in E4 as (_ & _ & _ & Hlen). apply parse_int64_range in E1, E3.
  apply fingerprint_idempotent in Eb, Ea. apply consistent_accepted; cbn; try done; [lia|by rewrite Hlen|lia].
Qed.

(** ** Headers for exports *)

Definition changeLogHeaderForExport (complete : bool) (before after : NormalizedChangeLogFingerprint)
    (changeCount sourceChangeCount : ChangeLogInt64) (unavailableChangeSerials : list ChangeLogInt64)
  : result ChangeLogHeader :=
  let decimal := fun v => changeLogInt64ToDecimal (int64_value v) in
  unavailable ← result_map decimal unavailableChangeSerials;
  count ← decimal changeCount;
  source ← decimal sourceChangeCount;
  Ok (mkHeader complete before after count source (decimal_string (Z.of_nat (length unavailable)))
    unavailable).

Lemma decimals_spec l : forall ds,
  result_map (fun v => changeLogInt64ToDecimal (int64_value v)) l = Ok ds ->
  Forall2 (fun v s => exists k, parseChangeLogNonNegativeInt64 (int64_value v) = Ok k /\
    s = decimal_string k) l ds.
Proof.
  intros ds Hd. apply result_map_Forall2 in Hd. eapply Forall2_impl; [done|]. intros v s Hv.
  unfold changeLogInt64ToDecimal, mbind, result_bind in Hv.
  destruct (parseChangeLogNonNegativeInt64 _) as [k|]; [|done]. apply Ok_inj in Hv as <-. by exists k.
Qed.

(** A header made for an export is one the writer accepts, when the counts
    and the serials the caller gives fit together. *)
Lemma export_header_accepted complete before after changeCount sourceChangeCount serials h n m limits :
  changeLogHeaderForExport complete before after changeCount sourceChangeCount serials = Ok h ->
  parseChangeLogNonNegativeInt64 (int64_value changeCount) = Ok n ->
  parseChangeLogNonNegativeInt64 (int64_value sourceChangeCount) = Ok m -> n <= m ->
  Forall (fun v => exists k, parseChangeLogNonNegativeInt64 (int64_value v) = Ok k /\ 0 < k <= m) serials ->
  NoDup (h_unavailableChangeSerials h) -> (complete = true <-> serials = []) ->
  normalizeChangeLogFingerprint (fingerprint_object before) = Ok before ->
  normalizeChangeLogFingerprint (fingerprint_object after) = Ok after ->
  Z.of_nat (length serials) <= Z.min MAX_INT64 (limits maxUnavailableSerialCount) ->
  normalizeChangeLogHeader (normalizedHeaderObject h) n limits = Ok h.
Proof.
  unfold changeLogHeaderForExport, mbind, result_bind. intros Hh Hn Hm Hle Hs Hnd Hc Hb Ha Hl.
  destruct (result_map _ serials) as [ds|] eqn:Ed; [|done]. apply decimals_spec in Ed.
  unfold changeLogInt64ToDecimal, mbind, result_bind in Hh. rewrite Hn, Hm in Hh. apply Ok_inj in Hh as <-.
  pose proof (Forall2_length _ _ _ Ed) as Hlen. cbn in Hnd.
  apply parse_int64_range in Hn as Hn', Hm as Hm'. apply consistent_accepted; cbn; try done; [lia| |lia|lia].
  constructor; cbn; [done| |done|done|].
  - exists m. split; [done|]. split; [lia|]. apply Forall_forall. intros s [i Hi]%list_elem_of_lookup.
    destruct (Forall2_lookup_r _ _ _ _ _ Ed Hi) as (v & Hv & k & Hk & ->).
    rewrite Forall_lookup in Hs. destruct (Hs i v Hv) as (k' & Hk' & ?). exists k. split; [done|].
    rewrite Hk in Hk'. apply Ok_inj in Hk'. lia.
  - rewrite Hc. destruct serials, ds; done.
Qed.

(** ** A write that nothing disturbs *)

Section Succeeds.
Context `{Environment} `{JsonRuntime}.
Hypothesis no_fault : forall n, fault n = None.
Hypothesis no_abort : forall n, signal n = false.
Hypothesis hooks : (forall n, onBytesWritten n = Ok tt) /\ beforeCommit = Ok tt.
Context (tempPath outputPath : path) (options : AtomicChangeLogWriteOptions) (initial : disk).
Hypothesis unlimited : wo_maxBytes options = None.
Hypothesis temp_differs : tempPath <> outputPath.

Definition healthy (b : list Z) (o : output) : Prop :=
  writing tempPath initial b o /\ streamError o = None.

Lemma writeText_ok text b o :
  healthy b o -> exists o', writeText tempPath options text o = (o', Ok tt) /\
    healthy (b ++ utf8_encode text) o'.
Proof.
  intros [Hw Hs]. unfold writeText, bindM at 1, check_signal. rewrite no_abort. cbn [throwIfChangeLogCancelled].
  unfold bindM at 1, getM, over_limit. rewrite unlimited.
  unfold bindM at 1, liftM. rewrite (proj1 hooks). unfold bindM at 1, putM. unfold bindM at 1.
  pose proof (append_writing tempPath initial (utf8_encode text) b o Hw) as Ha.
  assert (Hso : exists o', stream_call (fs_append tempPath (utf8_encode text))
    (note_written (utf8_encode text) o) = (o', Ok tt) /\ streamError o' = None).
  { unfold stream_call. cbn. rewrite Hs. unfold fs_call. rewrite no_fault. unfold fs_append. cbn.
    destruct Hw as [_ _ _ Ht]. rewrite (Ht Hs). by eexists. }
  destruct Hso as (o' & E & Hs'). rewrite E in Ha |- *. exists o'. unfold bindM.
  destruct (must_drain (calls o')); [|done]. unfold stream_settled. by rewrite Hs'.
Qed.

Lemma write_entries_ok limits entries : forall ns b count s s' o,
  Forall2 (fun v e => normalizeChangeLogEntry v limits = Ok e) entries ns ->
  accept_all limits count ns s = Ok s' -> Z.of_nat (count + length ns) <= limits maxEntryCount ->
  healthy b o ->
  exists o', write_entries tempPath options limits entries count s o
    = (o', Ok (count + length ns)%nat) /\ healthy (b ++ entries_bytes count ns) o'.
Proof.
  induction entries as [|v entries IH]; intros ns b count s s' o Hf Ha Hl Hh;
    inversion Hf as [|? n ? ns' Hn Hf' E1 E2]; subst; cbn [write_entries].
  - exists o. cbn. by rewrite Nat.add_0_r, app_nil_r.
  - cbn [length] in Hl. destruct (Z.leb_spec (limits maxEntryCount) (Z.of_nat count)); [lia|].
    unfold bindM at 1, liftM at 1. rewrite Hn. cbn [accept_all] in Ha.
    unfold mbind, result_bind in Ha. unfold bindM at 1, liftM at 1.
    destruct (sequence_accept limits n (Z.of_nat count) s) as [s1|]; [|done].
    unfold bindM at 1, liftM at 1. unfold entry_text, mbind, result_bind.
    rewrite (serialize_normal limits n) by by eapply normalize_entry_normal.
    unfold bindM at 1.
    destruct (writeText_ok ((if (count =? 0)%nat then [] else js "," ++ [newline])
      ++ indent_lines (stringify_indented (entry_object (to_log_entry n)))) b o Hh) as (o1 & -> & Hh1).
    destruct (IH ns' _ (S count) s1 s' o1 Hf' Ha ltac:(cbn; lia) Hh1) as (o2 & -> & Hh2).
    exists o2. cbn [length entries_bytes]. rewrite Nat.add_succ_r. split; [done|].
    unfold entry_bytes. by rewrite app_assoc.
Qed.

Lemma commit_ok b o :
  healthy b o -> (wo_overwrite options = false -> initial !! outputPath = None) ->
  is_ok (commit tempPath outputPath options o).2 = true.
Proof.
  intros [[[H1 H2 H3] Hh Hc Ht] Hs] Hex. specialize (Ht Hs).
  assert (Ho : wo_overwrite options = false -> files o !! outputPath = None).
  { intros Hov. rewrite (H1 outputPath) by done. auto. }
  unfold commit, bindM, putM, stream_settled, syncParentDirectory, ignore, fs_call, liftM, check_signal,
    fs_sync, fs_rename, fs_link, fs_remove. cbn. rewrite Hs. cbn. rewrite !no_fault, Ht. cbn.
  rewrite (proj2 hooks), no_abort. cbn. destruct (wo_overwrite options); rewrite !no_fault; cbn;
    rewrite Ht; cbn; [|rewrite Ho by done; cbn]; by rewrite ?no_fault.
Qed.

Lemma open_ok : initial !! tempPath = None ->
  exists o, open_output tempPath (on_disk initial) = (o, Ok tt) /\ healthy [] o.
Proof.
  intros Hno. destruct (open_writing tempPath initial Hno) as (o & E & Hw). exists o. split; [done|].
  split; [done|]. unfold open_output, stream_call, fs_call, fs_create in E. cbn in E.
  rewrite no_fault, Hno in E. by injection E as <-.
Qed.

(** Everything is in order: the options, the header, the entries, and the
    output is free unless it may be replaced. *)
Record writable (header : ChangeLogHeader) (entries : list jsval) (limits : ChangeLogCodecLimits)
    (ns : list NormalizedChangeLogEntry) : Prop := mkWritable {
  wb_limits : resolveChangeLogCodecLimits (wo_limits options) = Ok limits;
  wb_count : parseChangeLogNonNegativeInt64 (JString (h_changeCount header))
    = Ok (Z.of_nat (length ns));
  wb_safe : Z.of_nat (length ns) <= MAX_SAFE_INTEGER;
  wb_room : Z.of_nat (length ns) <= limits maxEntryCount;
  wb_header : is_ok (normalizeChangeLogHeader (normalizedHeaderObject header)
    (Z.of_nat (length ns)) limits) = true;
  wb_entries : Forall2 (fun v e => normalizeChangeLogEntry v limits = Ok e) entries ns;
  wb_sequence : is_ok (accept_all limits 0 ns new_sequence) = true;
  wb_free : wo_overwrite options = false -> initial !! outputPath = None;
  wb_temp : initial !! tempPath = None
}.

Lemma write_ok header entries limits ns :
  writable header entries limits ns ->
  is_ok (writeChangeLogFileAtomic tempPath outputPath options header entries (Ok tt)
    (on_disk initial)).2 = true.
Proof.
  intros [Wl Wc Wsafe Wr Wh We Ws Wf Wt]. unfold writeChangeLogFileAtomic.
  unfold bindM at 1, liftM at 1. rewrite Wl. unfold bindM at 1, liftM at 1. rewrite Wc.
  assert (Hsafe : safeZ (Z.of_nat (length ns)) = true) by (apply safeZ_spec; unfold MAX_SAFE_INTEGER in *; lia).
  rewrite Hsafe. destruct (Z.ltb_spec (limits maxEntryCount) (Z.of_nat (length ns))); [lia|]. cbn [negb orb].
  unfold bindM at 1, liftM at 1, validateAtomicWriteOptions. rewrite unlimited.
  unfold bindM at 1, liftM at 1.
  destruct (normalizeChangeLogHeader _ _ limits) as [h|] eqn:Eh; [|done].
  unfold bindM at 1. destruct (open_ok Wt) as (o & -> & Ho). unfold finallyM.
  assert (Hd : is_ok (write_document tempPath outputPath options limits (Z.of_nat (length ns)) h entries
    (Ok tt) o).2 = true).
  { unfold write_document, bindM at 1.
    destruct (writeText_ok (document_prefix h) [] o Ho) as (o1 & -> & Ho1). unfold bindM at 1.
    destruct (accept_all limits 0 ns new_sequence) as [s'|] eqn:Es; [|done].
    destruct (write_entries_ok limits entries ns _ 0 new_sequence s' o1 We Es ltac:(cbn; lia) Ho1)
      as (o2 & -> & Ho2). unfold bindM at 1, liftM at 1. cbn [Nat.add]. rewrite Z.eqb_refl. cbn [negb].
    unfold bindM at 1, liftM at 1. rewrite (header_idempotent _ _ _ _ Eh). unfold bindM at 1.
    destruct (writeText_ok document_suffix _ o2 Ho2) as (o3 & -> & Ho3). unfold bindM at 1.
    pose proof (commit_ok _ o3 Ho3 Wf) as Hc. by destruct (commit _ _ _ o3) as [o4 [r|e]]. }
  destruct (write_document _ _ _ _ _ _ _ _ o) as [o4 [r|e]]; [|done].
  unfold cleanup, bindM, getM. by destruct (committed o4).
Qed.
End Succeeds.

(** ** The properties *)


(** A change log that is in order is written: with a valid header,
    valid entries in a valid sequence whose number is the header's, a free
    output path (or [overwrite]), and an environment that does not fail, the
    call returns a result. *)
Theorem write_file_succeeds `{Environment} `{JsonRuntime} tempPath outputPath options header entries
    limits ns initial :
  (forall n, fault n = None) -> (forall n, signal n = false) ->
  (forall n, onBytesWritten n = Ok tt) /\ beforeCommit = Ok tt ->
  wo_maxBytes options = None -> tempPath <> outputPath ->
  writable tempPath outputPath options initial header entries limits ns ->
  is_ok (writeChangeLogFileAtomic tempPath outputPath options header entries (Ok tt)
    (on_disk initial)).2 = true.
Proof. intros Hf Hs Hh Hm Hne Hw. by eapply write_ok. Qed.

(** A header that was accepted is accepted again in the form
    in which it is written to a file, and reads back as the same header. *)
Theorem written_header_accepted o count limits h :
  normalizeChangeLogHeader o count limits = Ok h ->
  normalizeChangeLogHeader (normalizedHeaderObject h) count limits = Ok h.
Proof. apply header_idempotent. Qed.

(** *** A concrete write *)

Definition calm : Environment := {|
  fault := fun _ => None; signal := fun _ => false; must_drain := fun _ => true;
  onBytesWritten := fun _ => Ok tt; beforeCommit := Ok tt; sha256 := fun _ => js "hash";
  stringify_indented := fun v => match v with JObject _ => js "{" ++ [newline; 125] | _ => js "0" end;
  stringify := fun _ => js "{}"
|}.

(** The sixth call, which syncs the temporary file, fails. *)
Definition failing : Environment := {|
  fault := fun n => if (n =? 5)%nat then Some (Exn "Error" "EIO") else None;
  signal := fun _ => false; must_drain := fun _ => false;
  onBytesWritten := fun _ => Ok tt; beforeCommit := Ok tt; sha256 := fun _ => js "hash";
  stringify_indented := fun v => match v with JObject _ => js "{" ++ [newline; 125] | _ => js "0" end;
  stringify := fun _ => js "{}"
|}.

Definition temp_file : path := js ".log.1.tmp".
Definition log_file : path := js "log".
Definition replacing : AtomicChangeLogWriteOptions := mkWriteOptions (fun _ => None) true None.
Definition old_disk : disk := {[ log_file := [1; 2; 3] ]}.
Definition sample_changes : list jsval :=
  match sample_document with
  | JObject o => match get (js "changes") o with JArray l => l | _ => [] end
  | _ => []
  end.


Definition default_limits : ChangeLogCodecLimits :=
  match resolveChangeLogCodecLimits (fun _ => None) with
  | Ok limits => limits
  | Throw _ => DEFAULT_CHANGE_LOG_CODEC_LIMITS
  end.

Lemma write_file_succeeds_witness :
  is_ok (@writeChangeLogFileAtomic calm temp_file log_file replacing no_json (sc_header sample_scan)
    sample_changes (Ok tt) (on_disk old_disk)).2 = true.
Proof.
  apply (@write_file_succeeds calm no_json temp_file log_file replacing (sc_header sample_scan)
    sample_changes default_limits sample_entries old_disk).
  - intros n. reflexivity.
  - intros n. reflexivity.
  - split; [intros n|]; reflexivity.
  - reflexivity.
  - vm_compute. discriminate.
  - constructor.
    + reflexivity.
    + vm_compute. reflexivity.
    + vm_compute. discriminate.
    + vm_compute. discriminate.
    + vm_compute. reflexivity.
    + unfold sample_changes, sample_entries. cbn [sample_document get].
      repeat (constructor; [vm_compute; reflexivity|]). constructor.
    + vm_compute. reflexivity.
    + discriminate.
    + vm_compute. reflexivity.
Defined.

Lemma written_header_accepted_witness :
  normalizeChangeLogHeader (normalizedHeaderObject (sc_header sample_scan)) 2
    DEFAULT_CHANGE_LOG_CODEC_LIMITS = Ok (sc_header sample_scan).
Proof.
  apply (written_header_accepted (match sample_document with JObject o => o | _ => [] end)).
  vm_compute. reflexivity.
Defined.
