(* ===== verification/ChangeLogExportFile.v ===== *)
(** * Exports written to files ([packages/client/src/changeLog/node/index.ts])

    [writeChangeLogRpcExportAtomic] writes the frames of an export stream,
    as they come, into a JSON document, through the same atomic output as
    [writeChangeLogFileAtomic].  The frames and the way the generator ends
    are those of the export stream's model. *)

From S2P Require Import Prelude JsText JsValue ChangeLogCodec ChangeLogDocument ChangeLogRpc ChangeLogFiles.

Open Scope jsm_scope.

(** ** The writer *)

(** [Buffer.from(data).toString('hex')] *)
Definition hex_digit (n : Z) : Z := if n <? 10 then 48 + n else 87 + n.
Definition hex_encode (bytes : list Z) : jsstring :=
  flat_map (fun b => [hex_digit (Z.land (Z.shiftr b 4) 15); hex_digit (Z.land b 15)]) bytes.

(** The locals of the function. *)
Record export_locals := mkExportLocals {
  xl_header : option ChangeLogStreamHeader;
  xl_entryOpen : bool;
  xl_firstEntry : bool;
  xl_entryCount : Z
}.

Definition new_export_locals : export_locals := mkExportLocals None false true 0.

(** [object?.field] *)
Definition optional_field {A} (o : option A) (field : A -> jsstring) : jsval :=
  match o with Some x => JString (field x) | None => JUndefined end.

Definition stream_fingerprint_object (f : option ChangeLogStreamFingerprint) : jsval :=
  JObject [(js "byteLength", optional_field f byteLengthDecimal);
    (js "digest", JObject [(js "pluginId", optional_field f digestPluginId);
      (js "algorithm", optional_field f digestAlgorithm);
      (js "value", optional_field f digestValue)])].

Definition export_metadata (h : ChangeLogStreamHeader) : jsval :=
  JObject [(js "format", JString CHANGE_LOG_FORMAT); (js "version", JNumber (NInt 2));
    (js "complete", JBool true); (js "before", stream_fingerprint_object (before h));
    (js "after", stream_fingerprint_object (after h));
    (js "sourceChangeCount", JString (sourceChangeCountDecimal h));
    (js "unavailableChangeCount", JString (js "0")); (js "unavailableChangeSerials", JArray [])].

Section Writer.
Context `{Environment} `{JsonRuntime}.

Definition export_header_text (h : ChangeLogStreamHeader) : jsstring :=
  replace_suffix [125] (quoted ",'changes':[") (stringify (export_metadata h)).

Definition transform_args (t : ChangeLogStreamTransform) : result jsval :=
  match st_optionsJson t with
  | [] => Ok (JObject [])
  | text =>
      match JSON_parse text with
      | Some v => Ok v
      | None => Throw (codec_error "CHANGE_LOG_INVALID_TRANSFORM")
      end
  end.

Definition transform_text (prefix : jsstring) (e : ChangeLogEntryHeader) (t : ChangeLogStreamTransform)
    (args : jsval) : jsstring :=
  let descriptor := hex_encode (utf8_encode (stringify (JObject
    [(js "transformId", JString (st_transformId t)); (js "args", args)]))) in
  prefix ++ stringify (JObject [(js "kind", JString (kind_name KTRANSFORM));
    (js "offset", JString (offsetDecimal e)); (js "length", JString (lengthDecimal e));
    (js "data", JString descriptor)]).

Definition entry_opening (prefix : jsstring) (k : ChangeLogEntryKind) (e : ChangeLogEntryHeader)
  : jsstring :=
  prefix ++ quoted "{'kind':" ++ stringify (JString (kind_name k)) ++ quoted ",'offset':"
  ++ stringify (JString (offsetDecimal e)) ++ quoted ",'length':"
  ++ stringify (JString (lengthDecimal e)) ++ quoted ",'data':'".

Definition entry_closing : jsstring := quoted "'}".

Definition complete_text (c : ChangeLogStreamComplete) : jsstring :=
  quoted "],'changeCount':" ++ stringify (JString (emittedChangeCountDecimal c)) ++ js "}" ++ [newline].

Definition entry_prefix (l : export_locals) : jsstring := if xl_firstEntry l then [] else js ",".

(** The entry is closed: [entryOpen = false; entryCount += 1]. *)
Definition entry_done (l : export_locals) : export_locals :=
  mkExportLocals (xl_header l) false (xl_firstEntry l) (xl_entryCount l + 1).

Definition not_first (l : export_locals) : export_locals :=
  mkExportLocals (xl_header l) (xl_entryOpen l) false (xl_entryCount l).

Definition entry_opened (l : export_locals) : export_locals :=
  mkExportLocals (xl_header l) true (xl_firstEntry l) (xl_entryCount l).

Context (tempPath outputPath : path) (options : AtomicChangeLogWriteOptions).

Definition write_entry_frame (e : ChangeLogEntryHeader) (l : export_locals) : M output export_locals :=
  match changeLogKindFromProto (e_kind e) with
  | None => throwM framing_error
  | Some k =>
      let prefix := entry_prefix l in
      let l := not_first l in
      if bool_decide (k = KTRANSFORM) then
        match transform e with
        | None => throwM framing_error
        | Some t =>
            let* args := liftM (transform_args t) in
            writeText tempPath options (transform_text prefix e t args) ;;;
            retM (mkExportLocals (xl_header l) (xl_entryOpen l) (xl_firstEntry l) (xl_entryCount l + 1))
        end
      else
        writeText tempPath options (entry_opening prefix k e) ;;;
        if bool_decide (payloadLengthDecimal e = js "0") then
          writeText tempPath options entry_closing ;;; retM (entry_done l)
        else retM (entry_opened l)
  end.

Definition write_payload_frame (p : ChangeLogPayloadChunk) (l : export_locals) : M output export_locals :=
  if negb (xl_entryOpen l) then throwM framing_error
  else
    writeText tempPath options (hex_encode (p_data p)) ;;;
    if finalChunk p then writeText tempPath options entry_closing ;;; retM (entry_done l)
    else retM l.

Definition write_complete_frame (c : ChangeLogStreamComplete) (l : export_locals)
  : M output export_locals :=
  if negb (bool_decide (is_Some (xl_header l))) || xl_entryOpen l then throwM framing_error
  else if negb (bool_decide (emittedChangeCountDecimal c = decimal_string (xl_entryCount l)))
  then throwM framing_error
  else writeText tempPath options (complete_text c) ;;; retM l.

(** The body of the loop; a frame without a case is never handed out. *)
Definition write_frame (f : frame) (l : export_locals) : M output export_locals :=
  match f with
  | FHeader h =>
      writeText tempPath options (export_header_text h) ;;;
      retM (mkExportLocals (Some h) (xl_entryOpen l) (xl_firstEntry l) (xl_entryCount l))
  | FEntry e => write_entry_frame e l
  | FPayload p => write_payload_frame p l
  | FComplete c => write_complete_frame c l
  | FEmpty => throwM framing_error
  end.

Fixpoint write_frames (fs : list frame) (l : export_locals) : M output export_locals :=
  match fs with
  | [] => retM l
  | f :: fs => let* l := write_frame f l in write_frames fs l
  end.

Record ChangeLogRpcFileResult := mkRpcResult {
  rr_path : path;
  rr_byteLength : Z;
  rr_sha256 : jsstring;
  rr_entryCount : Z;
  rr_sourceChangeCount : jsstring;
  rr_before : NormalizedChangeLogFingerprint;
  rr_after : NormalizedChangeLogFingerprint;
  rr_optimized : bool
}.

(** The object the result has for [header.before!] and [header.after!]. *)
Definition result_fingerprint (f : option ChangeLogStreamFingerprint)
  : result NormalizedChangeLogFingerprint :=
  match f with
  | Some f => Ok (mkFingerprint (byteLengthDecimal f)
      (mkDigest (digestPluginId f) (digestAlgorithm f) (digestValue f)))
  | None => Throw (Exn "TypeError" "")
  end.

(** The [try] block, over the frames the generator hands out and the way it
    ends; when the block throws in the loop, the generator is abandoned. *)
Definition write_export (fs : list frame) (ending : result unit) : M output ChangeLogRpcFileResult :=
  let* l := write_frames fs new_export_locals in
  liftM ending ;;;
  match xl_header l with
  | None => throwM framing_error
  | Some h =>
      let* done := commit tempPath outputPath options in
      let* b := liftM (result_fingerprint (before h)) in
      let* a := liftM (result_fingerprint (after h)) in
      retM (mkRpcResult outputPath done.1 done.2 (xl_entryCount l) (sourceChangeCountDecimal h) b a
        (optimized h))
  end.

Definition writeChangeLogRpcExportAtomic (fs : list frame) (ending : result unit)
  : M output ChangeLogRpcFileResult :=
  liftM (validateAtomicWriteOptions options) ;;;
  open_output tempPath ;;;
  finallyM (write_export fs ending) (cleanup tempPath).

(** ** What the frames amount to

    The texts a frame is written as, without the writing. *)
Definition frame_texts (f : frame) (l : export_locals) : result (list jsstring * export_locals) :=
  match f with
  | FHeader h =>
      Ok ([export_header_text h], mkExportLocals (Some h) (xl_entryOpen l) (xl_firstEntry l) (xl_entryCount l))
  | FEntry e =>
      match changeLogKindFromProto (e_kind e) with
      | None => Throw framing_error
      | Some k =>
          if bool_decide (k = KTRANSFORM) then
            match transform e with
            | None => Throw framing_error
            | Some t =>
                args ← transform_args t;
                Ok ([transform_text (entry_prefix l) e t args],
                  mkExportLocals (xl_header l) (xl_entryOpen l) false (xl_entryCount l + 1))
            end
          else if bool_decide (payloadLengthDecimal e = js "0")
          then Ok ([entry_opening (entry_prefix l) k e; entry_closing], entry_done (not_first l))
          else Ok ([entry_opening (entry_prefix l) k e], entry_opened (not_first l))
      end
  | FPayload p =>
      if negb (xl_entryOpen l) then Throw framing_error
      else if finalChunk p then Ok ([hex_encode (p_data p); entry_closing], entry_done l)
      else Ok ([hex_encode (p_data p)], l)
  | FComplete c =>
      if negb (bool_decide (is_Some (xl_header l))) || xl_entryOpen l then Throw framing_error
      else if negb (bool_decide (emittedChangeCountDecimal c = decimal_string (xl_entryCount l)))
      then Throw framing_error
      else Ok ([complete_text c], l)
  | FEmpty => Throw framing_error
  end.

Fixpoint frames_texts (fs : list frame) (l : export_locals) : result (list jsstring * export_locals) :=
  match fs with
  | [] => Ok ([], l)
  | f :: fs =>
      '(ts, l) ← frame_texts f l;
      '(us, l) ← frames_texts fs l;
      Ok (ts ++ us, l)
  end.

Fixpoint write_texts (ts : list jsstring) : M output unit :=
  match ts with
  | [] => retM tt
  | t :: ts => writeText tempPath options t ;;; write_texts ts
  end.
End Writer.

(** The bytes of a block: the entry with its whole payload. *)
Section Bytes.
Context `{Environment} `{JsonRuntime}.

Definition args_ok (b : block) : bool :=
  match transform b.1 with Some t => is_ok (transform_args t) | None => true end.

Definition block_bytes (first : bool) (b : block) : list Z :=
  let prefix := if first then [] else js "," in
  match changeLogKindFromProto (e_kind b.1), transform b.1 with
  | Some _, Some t =>
      match transform_args t with
      | Ok args => utf8_encode (transform_text prefix b.1 t args)
      | Throw _ => []
      end
  | Some k, None =>
      utf8_encode (entry_opening prefix k b.1) ++ hex_encode (payload b.2) ++ utf8_encode entry_closing
  | None, _ => []
  end.

Fixpoint blocks_bytes (first : bool) (bs : list block) : list Z :=
  match bs with
  | [] => []
  | b :: bs => block_bytes first b ++ blocks_bytes false bs
  end.

Definition export_bytes (h : ChangeLogStreamHeader) (bs : list block) : list Z :=
  utf8_encode (export_header_text h) ++ blocks_bytes true bs
  ++ utf8_encode (quoted "],'changeCount':"
       ++ stringify (JString (decimal_string (Z.of_nat (length bs)))) ++ js "}" ++ [newline]).

Definition texts_bytes (ts : list jsstring) : list Z := flat_map utf8_encode ts.

Lemma texts_bytes_app ts us : texts_bytes (ts ++ us) = texts_bytes ts ++ texts_bytes us.
Proof. apply flat_map_app. Qed.

Lemma texts_bytes_cons t us : texts_bytes (t :: us) = utf8_encode t ++ texts_bytes us.
Proof. done. Qed.

Lemma hex_digit_ascii n : 0 <= n < 16 -> 0 <= hex_digit n < 128.
Proof. unfold hex_digit. destruct (Z.ltb_spec n 10); lia. Qed.

Lemma ascii_encode s : (forall c, In c s -> 0 <= c < 128) -> utf8_encode s = s.
Proof.
  unfold utf8_encode. induction s as [|c s IH]; [done|]. intros Hs.
  pose proof (Hs c (or_introl eq_refl)) as Hc. cbn [code_points].
  unfold high_surrogate, low_surrogate.
  destruct (Z.leb_spec 55296 c); [lia|]. destruct (Z.leb_spec 56320 c); [lia|]. cbn [andb flat_map].
  rewrite IH by (intros d Hd; apply Hs; by right). unfold utf8_point. by destruct (Z.ltb_spec c 128); [|lia].
Qed.

Lemma hex_encode_bytes d : utf8_encode (hex_encode d) = hex_encode d.
Proof.
  apply ascii_encode. intros c Hc. unfold hex_encode in Hc. apply in_flat_map in Hc as (x & _ & Hc).
  assert (Hn : forall z, 0 <= Z.land z 15 < 16).
  { intros z. change 15 with (Z.ones 4). rewrite Z.land_ones by lia. apply Z.mod_pos_bound. lia. }
  destruct Hc as [<-|[<-|[]]]; by apply hex_digit_ascii.
Qed.

Lemma hex_encode_app a b : hex_encode (a ++ b) = hex_encode a ++ hex_encode b.
Proof. apply flat_map_app. Qed.

Lemma frames_texts_app fs gs : forall l,
  frames_texts (fs ++ gs) l =
  ('(ts, l) ← frames_texts fs l; '(us, l) ← frames_texts gs l; Ok (ts ++ us, l)).
Proof.
  induction fs as [|f fs IH]; intros l; cbn [app frames_texts].
  - unfold mbind, result_bind. cbn. by destruct (frames_texts gs l) as [[us l']|].
  - unfold mbind, result_bind in *. destruct (frame_texts f l) as [[ts l1]|]; [|done].
    rewrite IH. destruct (frames_texts fs l1) as [[us l2]|]; [|done].
    destruct (frames_texts gs l2) as [[vs l3]|]; [|done]. by rewrite app_assoc.
Qed.

Lemma chunk_texts cs : forall hd fst n,
  cs <> [] ->
  (forall k c, cs !! k = Some c -> finalChunk c = (S k =? length cs)%nat) ->
  exists ts, frames_texts (map FPayload cs) (mkExportLocals hd true fst n)
    = Ok (ts, mkExportLocals hd false fst (n + 1)) /\
  texts_bytes ts = hex_encode (payload cs) ++ utf8_encode entry_closing.
Proof.
  induction cs as [|c cs IH]; intros hd fst n Hne Hf; [done|].
  pose proof (Hf 0%nat c eq_refl) as Hc. cbn [map frames_texts frame_texts xl_entryOpen negb].
  rewrite Hc. cbn [length]. destruct cs as [|d cs].
  - cbn. eexists. split; [done|]. unfold texts_bytes. cbn [flat_map].
    rewrite hex_encode_bytes. unfold payload. cbn. by rewrite !app_nil_r.
  - change (1 =? S (length (d :: cs)))%nat with false. unfold mbind, result_bind.
    destruct (IH hd fst n) as (ts & -> & Ht); [done| |].
    { intros k x Hk. by apply (Hf (S k)). }
    eexists. split; [done|]. rewrite texts_bytes_app, Ht. unfold texts_bytes. cbn [flat_map].
    rewrite app_nil_r, hex_encode_bytes. unfold payload. cbn [map concat].
    by rewrite (hex_encode_app (p_data c)), <- app_assoc.
Qed.

Definition after_block (l : export_locals) : export_locals :=
  mkExportLocals (xl_header l) false false (xl_entryCount l + 1).

Lemma is_int64_zero s n : is_int64 s n -> bool_decide (s = js "0") = (n =? 0).
Proof.
  intros [-> Hn]. destruct (Z.eqb_spec n 0) as [->|Hne].
  - by apply bool_decide_eq_true.
  - apply bool_decide_eq_false. intros E. apply Hne.
    destruct (decimal_string_spec n ltac:(lia)) as [Hv _]. rewrite E in Hv. by vm_compute in Hv.
Qed.

Lemma block_texts i b l :
  block_ok i b -> xl_entryOpen l = false ->
  if args_ok b then
    exists ts, frames_texts (block_frames b) l = Ok (ts, after_block l) /\
      texts_bytes ts = block_bytes (xl_firstEntry l) b
  else exists e, frames_texts (block_frames b) l = Throw e.
Proof.
  destruct b as [e cs]. intros [[_ _ _ Hpay (k & Hk & Hkind)] Hc Hf] Ho. cbn [fst snd] in *.
  unfold args_ok, block_bytes, block_frames. cbn [fst snd frames_texts frame_texts].
  unfold entry_prefix. rewrite Hk, (is_int64_zero _ _ Hpay).
  case_bool_decide as Et.
  - destruct Hkind as (Hz & t & Ht & _). rewrite Ht. destruct cs as [|c cs].
    + cbn. destruct (transform_args t) as [args|err]; cbn; [|by eexists].
      rewrite Ho. eexists. split; [done|]. unfold texts_bytes. cbn. by rewrite !app_nil_r.
    + destruct Hc as [(_ & _ & Hd) _]. rewrite payload_size_cons in Hz.
      pose proof (payload_size_pos cs). lia.
  - rewrite Hkind. destruct cs as [|c cs].
    + cbn. eexists. split; [done|]. unfold texts_bytes. cbn [flat_map]. unfold payload. cbn.
      by rewrite !app_nil_r.
    + assert (Hne : (payload_size (c :: cs) =? 0) = false).
      { destruct Hc as [(_ & _ & Hd) _]. rewrite payload_size_cons.
        pose proof (payload_size_pos cs). apply Z.eqb_neq. lia. }
      rewrite Hne. unfold mbind, result_bind.
      destruct (chunk_texts (c :: cs) (xl_header l) false (xl_entryCount l)) as (ts & E & Ht); [done|done|].
      unfold entry_opened, not_first. cbn [xl_header xl_entryOpen xl_firstEntry xl_entryCount].
      rewrite E. eexists. split; [done|]. by rewrite texts_bytes_app, texts_bytes_cons, Ht, app_nil_r.
Qed.

Lemma blocks_ok_cons i b bs :
  (forall j x, (b :: bs) !! j = Some x -> block_ok (i + Z.of_nat j) x) ->
  block_ok i b /\ (forall j x, bs !! j = Some x -> block_ok (i + 1 + Z.of_nat j) x).
Proof.
  intros Hb. split.
  - specialize (Hb 0%nat b eq_refl). by rewrite Z.add_0_r in Hb.
  - intros j x Hx. specialize (Hb (S j) x Hx). by replace (i + 1 + Z.of_nat j) with (i + Z.of_nat (S j)) by lia.
Qed.

Lemma blocks_texts bs : forall i l,
  (forall j x, bs !! j = Some x -> block_ok (i + Z.of_nat j) x) -> xl_entryOpen l = false ->
  if forallb args_ok bs then
    exists ts, frames_texts (blocks_frames bs) l
      = Ok (ts, mkExportLocals (xl_header l) false (xl_firstEntry l && (length bs =? 0)%nat)
          (xl_entryCount l + Z.of_nat (length bs))) /\
      texts_bytes ts = blocks_bytes (xl_firstEntry l) bs
  else exists e, frames_texts (blocks_frames bs) l = Throw e.
Proof.
  induction bs as [|b bs IH]; intros i l Hb Ho; cbn [forallb].
  - exists []. destruct l as [h o f n]. cbn in *. subst o. by rewrite andb_true_r, Z.add_0_r.
  - apply blocks_ok_cons in Hb as [Hb Hbs]. pose proof (block_texts i b l Hb Ho) as Ht.
    unfold blocks_frames. cbn [map concat]. rewrite frames_texts_app. unfold mbind, result_bind.
    destruct (args_ok b); cbn [andb]; [|destruct Ht as [e ->]; by exists e].
    destruct Ht as (ts & -> & Ht). specialize (IH (i + 1) (after_block l) Hbs eq_refl).
    fold (blocks_frames bs). destruct (forallb args_ok bs); [|destruct IH as [e ->]; by exists e].
    destruct IH as (us & -> & Hu). eexists. split.
    + f_equal. f_equal. unfold after_block. cbn. f_equal; [by rewrite andb_false_r|lia].
    + by rewrite texts_bytes_app, Ht, Hu.
Qed.

(** A well-formed stream becomes the document of its header and blocks. *)
Lemma stream_texts h bs c :
  blocks_ok bs -> is_int64 (emittedChangeCountDecimal c) (Z.of_nat (length bs)) ->
  let r := frames_texts (FHeader h :: blocks_frames bs ++ [FComplete c]) new_export_locals in
  if forallb args_ok bs then
    exists ts, r = Ok (ts, mkExportLocals (Some h) false (length bs =? 0)%nat (Z.of_nat (length bs))) /\
      texts_bytes ts = export_bytes h bs
  else exists e, r = Throw e.
Proof.
  intros Hb [Hc _]. cbv zeta. cbn [frames_texts frame_texts].
  unfold mbind, result_bind. cbv beta iota. rewrite frames_texts_app.
  pose proof (blocks_texts bs 0 (mkExportLocals (Some h) false true 0) Hb eq_refl) as Hbs.
  unfold mbind, result_bind. cbv beta iota. unfold new_export_locals.
  cbn [xl_entryOpen xl_firstEntry xl_entryCount].
  destruct (forallb args_ok bs); [|destruct Hbs as [e ->]; by exists e].
  destruct Hbs as (ts & -> & Ht). cbn [xl_header xl_firstEntry xl_entryCount andb] in *.
  cbn [frames_texts frame_texts xl_header xl_entryOpen xl_entryCount]. unfold mbind, result_bind.
  rewrite Hc, Z.add_0_l, (bool_decide_true (is_Some (Some h))) by by eexists.
  rewrite bool_decide_true by done. cbn [negb orb].
  eexists. split; [done|]. rewrite texts_bytes_app, texts_bytes_cons, texts_bytes_app, Ht.
  unfold export_bytes, complete_text. rewrite Hc. rewrite app_nil_r. unfold texts_bytes. cbn [flat_map app]. by rewrite ?app_nil_r.
Qed.
End Bytes.

(** ** Writing the frames *)

Section Runs.
Context `{Environment} `{JsonRuntime}.
Context (tempPath outputPath : path) (options : AtomicChangeLogWriteOptions).

Lemma write_texts_app ts us o :
  write_texts tempPath options (ts ++ us) o
  = (write_texts tempPath options ts ;;; write_texts tempPath options us) o.
Proof.
  revert o. induction ts as [|t ts IH]; intros o; [done|]. cbn [app write_texts]. unfold bindM in *.
  destruct (writeText tempPath options t o) as [o1 [u|e]]; [apply IH|done].
Qed.

(** A frame is checked before anything of it is written. *)
Lemma write_frame_texts f l o :
  write_frame tempPath options f l o =
  match frame_texts f l with
  | Ok (ts, l') => (write_texts tempPath options ts ;;; retM l') o
  | Throw e => (o, Throw e)
  end.
Proof.
  destruct f as [h|e|p|c|]; cbn [write_frame frame_texts]; [|unfold write_entry_frame|
    unfold write_payload_frame|unfold write_complete_frame|done].
  - cbn [write_texts]. unfold bindM, retM. by destruct (writeText _ _ _ o) as [? [?|?]].
  - destruct (changeLogKindFromProto (e_kind e)) as [k|]; [|done]. case_bool_decide.
    + destruct (transform e) as [t|]; [|done]. unfold bindM, liftM, mbind, result_bind.
      destruct (transform_args t) as [args|]; [|done]. cbn [write_texts]. unfold bindM, retM.
      by destruct (writeText _ _ _ o) as [? [?|?]].
    + case_bool_decide; cbn [write_texts]; unfold bindM, retM; destruct (writeText _ _ _ o) as [o1 [?|?]];
        try done. by destruct (writeText _ _ _ o1) as [? [?|?]].
  - destruct (xl_entryOpen l); [|done]. cbn [negb]. destruct (finalChunk p); cbn [write_texts]; unfold bindM, retM;
      destruct (writeText _ _ _ o) as [o1 [?|?]]; try done. by destruct (writeText _ _ _ o1) as [? [?|?]].
  - destruct (_ || _); [done|]. destruct (negb _); [done|]. cbn [write_texts]; unfold bindM, retM.
    by destruct (writeText _ _ _ o) as [? [?|?]].
Qed.

Lemma write_frames_texts fs : forall l ts l' o,
  frames_texts fs l = Ok (ts, l') ->
  write_frames tempPath options fs l o = (write_texts tempPath options ts ;;; retM l') o.
Proof.
  induction fs as [|f fs IH]; intros l ts l' o Hf; cbn [frames_texts write_frames] in *.
  - by apply Ok_inj in Hf as [= <- <-].
  - unfold mbind, result_bind in Hf. destruct (frame_texts f l) as [[ts1 l1]|] eqn:E1; [|done].
    destruct (frames_texts fs l1) as [[us l2]|] eqn:E2; [|done]. apply Ok_inj in Hf as [= <- <-].
    unfold bindM at 1. rewrite write_frame_texts, E1. unfold bindM at 2. rewrite write_texts_app.
    unfold bindM. destruct (write_texts tempPath options ts1 o) as [o1 [u|e]]; [|done]. cbn.
    by rewrite (IH _ _ _ _ E2).
Qed.

Context (initial : disk).

Lemma write_texts_triple ts : forall b,
  triple (writing tempPath initial b) (write_texts tempPath options ts)
    (fun _ => writing tempPath initial (b ++ texts_bytes ts)) (untouched tempPath initial).
Proof.
  induction ts as [|t ts IH]; intros b; cbn [write_texts].
  - intros o Ho. cbn. by rewrite app_nil_r.
  - eapply triple_bind; [apply writeText_triple|]. intros u.
    rewrite texts_bytes_cons, app_assoc. apply IH.
Qed.

Lemma write_frames_triple fs : forall l b,
  triple (writing tempPath initial b) (write_frames tempPath options fs l)
    (fun l' o => exists ts, frames_texts fs l = Ok (ts, l') /\
      writing tempPath initial (b ++ texts_bytes ts) o)
    (untouched tempPath initial).
Proof.
  induction fs as [|f fs IH]; intros l b o Ho; cbn [write_frames frames_texts].
  - exists []. by rewrite app_nil_r.
  - unfold bindM. rewrite write_frame_texts. unfold mbind, result_bind.
    destruct (frame_texts f l) as [[ts l1]|e]; [|by eapply writing_untouched].
    unfold bindM. pose proof (write_texts_triple ts b o Ho) as Hw.
    destruct (write_texts tempPath options ts o) as [o1 [u|e]]; [|done]. cbn.
    pose proof (IH l1 _ o1 Hw) as Hr. destruct (write_frames tempPath options fs l1 o1) as [o2 [l2|e]]; [|done].
    destruct Hr as (us & -> & Hr). exists (ts ++ us). by rewrite texts_bytes_app, app_assoc.
Qed.

(** Every header among the frames that were accepted is complete. *)
Definition headers_ok (fs : list frame) : Prop :=
  Forall (fun f => match f with FHeader h => header_ok h | _ => True end) fs.

Lemma accepted_headers fs : forall s s', accept_frames fs s = Ok s' -> headers_ok fs.
Proof.
  induction fs as [|f fs IH]; intros s s' Ha; [constructor|].
  cbn in Ha. apply bind_ok in Ha as (s1 & H1 & H2). constructor; [|by eapply IH].
  destruct f as [h| | | |]; try done. unfold accept_frame in H1. apply bind_require in H1 as [_ H1].
  apply accept_header_spec in H1. tauto.
Qed.

Lemma texts_header fs : forall l ts l',
  headers_ok fs -> frames_texts fs l = Ok (ts, l') ->
  (forall h, xl_header l = Some h -> header_ok h) -> forall h, xl_header l' = Some h -> header_ok h.
Proof.
  induction fs as [|f fs IH]; intros l ts l' Hok Hf Hl; cbn [frames_texts] in Hf.
  - by apply Ok_inj in Hf as [= <- <-].
  - inversion Hok as [|? ? Hf1 Hfs]; subst. unfold mbind, result_bind in Hf.
    destruct (frame_texts f l) as [[ts1 l1]|] eqn:E1; [|done].
    destruct (frames_texts fs l1) as [[us l2]|] eqn:E2; [|done]. apply Ok_inj in Hf as [= <- <-].
    apply (IH _ _ _ Hfs E2). destruct f as [h|e|p|c|]; cbn [frame_texts] in E1.
    + apply Ok_inj in E1 as [= <- <-]. cbn. congruence.
    + destruct (changeLogKindFromProto _); [|done]. case_bool_decide.
      * destruct (transform e); [|done]. unfold mbind, result_bind in E1.
        destruct (transform_args _); [|done]. by apply Ok_inj in E1 as [= <- <-].
      * case_bool_decide; by apply Ok_inj in E1 as [= <- <-].
    + destruct (negb _); [done|]. destruct (finalChunk p); by apply Ok_inj in E1 as [= <- <-].
    + destruct (_ || _); [done|]. destruct (negb _); [done|]. by apply Ok_inj in E1 as [= <- <-].
    + done.
Qed.
End Runs.

(** ** Results *)

(** What is in the file, and what the result says of it. *)
Definition export_written `{Environment} `{JsonRuntime} (outputPath : path) (fs : list frame)
    (res : ChangeLogRpcFileResult) (b : list Z) : Prop :=
  exists h bs c before_ after_,
    fs = FHeader h :: blocks_frames bs ++ [FComplete c] /\ blocks_ok bs /\ forallb args_ok bs = true /\
    b = export_bytes h bs /\
    result_fingerprint (before h) = Ok before_ /\ result_fingerprint (after h) = Ok after_ /\
    res = mkRpcResult outputPath (Z.of_nat (length b)) (sha256 b) (Z.of_nat (length bs))
      (sourceChangeCountDecimal h) before_ after_ (optimized h).

Lemma fingerprint_given f : fingerprint_ok f -> exists x, result_fingerprint f = Ok x.
Proof. intros (fp & -> & _). by eexists. Qed.

Lemma write_export_triple `{Environment} `{JsonRuntime} tempPath outputPath options initial fs ending :
  tempPath <> outputPath -> headers_ok fs -> (ending = Ok tt -> stream_ok fs) ->
  triple (writing tempPath initial []) (write_export tempPath outputPath options fs ending)
    (fun r o => exists b, export_written outputPath fs r b /\ replaced tempPath outputPath options initial 2 b o)
    (untouched tempPath initial).
Proof.
  intros Hne Hh Hend. unfold write_export. eapply triple_bind; [apply write_frames_triple|].
  intros l o (ts & Ht & Hw). rewrite app_nil_l in Hw.
  unfold bindM at 1, liftM at 1. destruct ending as [u|e]; [|by eapply writing_untouched]. destruct u.
  destruct (Hend eq_refl) as (h & bs & c & -> & Hok & Hbs & Hn & _).
  pose proof (stream_texts h bs c Hbs Hn) as Hs. cbv zeta in Hs.
  destruct (forallb args_ok bs) eqn:Ea; [|destruct Hs as [e Hs]; by rewrite Hs in Ht].
  destruct Hs as (us & Hs & Hb). rewrite Hs in Ht. apply Ok_inj in Ht as [= <- <-].
  cbn [xl_header xl_entryCount]. rewrite Hb in Hw. unfold bindM at 1.
  pose proof (commit_triple tempPath outputPath options initial Hne _ o Hw) as Hc.
  destruct (commit _ _ _ o) as [o1 [r|e]]; [|done]. destruct Hc as [-> Hr].
  destruct Hok as [_ _ _ _ (x & Hx)%fingerprint_given (y & Hy)%fingerprint_given].
  unfold bindM, liftM. rewrite Hx, Hy. exists (export_bytes h bs). split; [|done].
  by exists h, bs, c, x, y.
Qed.

(** The way the generator of the export stream ended, for a consumer that
    took everything. *)
Definition generator_result (s : stream) : option (result unit) :=
  match outcome s with
  | Some Returned => Some (Ok tt)
  | Some (Threw e) => Some (Throw e)
  | Some Abandoned | None => None
  end.

Lemma generator_frames s ending :
  reachable s -> generator_result s = Some ending ->
  headers_ok (yielded s) /\ (ending = Ok tt -> stream_ok (yielded s)).
Proof.
  intros Hi%reachable_inv Hg. split; [eapply accepted_headers, (si_locals s Hi)|]. intros ->.
  unfold generator_result in Hg. destruct (outcome s) as [[|e|]|] eqn:Eo; try done.
  destruct (si_returned s Hi Eo) as (_ & _ & _ & Hc). apply accept_frames_iff.
  exists (locals s). split; [apply (si_locals s Hi)|done].
Qed.

Section Quiet.
Context `{Environment} `{JsonRuntime}.
Hypothesis no_fault : forall n, fault n = None.
Hypothesis no_abort : forall n, signal n = false.
Hypothesis hooks : (forall n, onBytesWritten n = Ok tt) /\ beforeCommit = Ok tt.
Context (tempPath outputPath : path) (options : AtomicChangeLogWriteOptions) (initial : disk).
Hypothesis unlimited : wo_maxBytes options = None.
Hypothesis temp_differs : tempPath <> outputPath.

Lemma write_texts_ok ts : forall b o,
  healthy tempPath initial b o -> exists o', write_texts tempPath options ts o = (o', Ok tt) /\
    healthy tempPath initial (b ++ texts_bytes ts) o'.
Proof.
  induction ts as [|t ts IH]; intros b o Ho; cbn [write_texts].
  - exists o. by rewrite app_nil_r.
  - unfold bindM. destruct (writeText_ok no_fault no_abort hooks tempPath options initial unlimited t b o Ho)
      as (o1 & -> & Ho1). destruct (IH _ o1 Ho1) as (o2 & -> & Ho2). exists o2. split; [done|].
    by rewrite texts_bytes_cons, app_assoc.
Qed.

Lemma write_export_ok fs h bs c :
  fs = FHeader h :: blocks_frames bs ++ [FComplete c] -> header_ok h -> blocks_ok bs ->
  is_int64 (emittedChangeCountDecimal c) (Z.of_nat (length bs)) -> forallb args_ok bs = true ->
  initial !! tempPath = None -> (wo_overwrite options = false -> initial !! outputPath = None) ->
  is_ok (writeChangeLogRpcExportAtomic tempPath outputPath options fs (Ok tt) (on_disk initial)).2 = true.
Proof.
  intros -> [_ _ _ _ (x & Hx)%fingerprint_given (y & Hy)%fingerprint_given] Hb Hc Ha Hno Hfree.
  unfold writeChangeLogRpcExportAtomic. unfold bindM at 1, liftM, validateAtomicWriteOptions.
  rewrite unlimited. unfold bindM at 1.
  destruct (open_ok no_fault tempPath initial Hno) as (o & -> & Ho). unfold finallyM.
  pose proof (stream_texts h bs c Hb Hc) as Hs. cbv zeta in Hs. rewrite Ha in Hs.
  destruct Hs as (ts & Hs & _).
  assert (Hw : is_ok (write_export tempPath outputPath options
    (FHeader h :: blocks_frames bs ++ [FComplete c]) (Ok tt) o).2 = true).
  { unfold write_export, bindM at 1. rewrite (write_frames_texts _ _ _ _ _ _ _ Hs). unfold bindM at 1.
    destruct (write_texts_ok ts [] o Ho) as (o1 & -> & Ho1). unfold retM at 1. unfold bindM at 1, liftM at 1.
    cbn [xl_header]. unfold bindM at 1.
    pose proof (commit_ok no_fault no_abort hooks tempPath outputPath options initial temp_differs _ o1 Ho1
      Hfree) as Hcm.
    destruct (commit _ _ _ o1) as [o2 [r|e]]; [|done]. unfold bindM, liftM. by rewrite Hx, Hy. }
  destruct (write_export _ _ _ _ _ o) as [o4 [r|e]]; [|done].
  unfold cleanup, bindM, getM. by destruct (committed o4).
Qed.
End Quiet.

(** An export is written all or nothing, end to end: for every
    run of the transport and the export generator, and whatever fails on the
    way (the file system, the signal, the hooks, the stream itself), the
    output path has at every moment its old contents or a whole document;
    when the call throws it has the old ones.  When it returns, the document
    is the one of the stream's header and entries, each entry with all of its
    payload, and the result has its length, hash and number of entries. *)
Theorem write_export_atomic `{Environment} `{JsonRuntime} tempPath outputPath options initial s ending :
  tempPath <> outputPath -> initial !! tempPath = None ->
  reachable s -> generator_result s = Some ending ->
  let '(o, r) := writeChangeLogRpcExportAtomic tempPath outputPath options (yielded s) ending
    (on_disk initial) in
  atomic_outcome tempPath outputPath options initial (export_written outputPath (yielded s)) o r.
Proof.
  intros Hne Hno Hr Hg. destruct (generator_frames s ending Hr Hg) as [Hh Hend].
  unfold writeChangeLogRpcExportAtomic. unfold bindM at 1, liftM.
  destruct (validateAtomicWriteOptions options) as [u|e]; [|by apply fresh_outcome].
  by apply body_atomic, write_export_triple.
Qed.

(** The options of a transform frame are empty or JSON. *)
Definition options_parse `{JsonRuntime} (f : frame) : bool :=
  match f with FEntry e => args_ok (e, []) | _ => true end.

Lemma blocks_parse `{JsonRuntime} bs :
  forallb options_parse (blocks_frames bs) = true -> forallb args_ok bs = true.
Proof.
  induction bs as [|[e cs] bs IH]; [done|]. unfold blocks_frames. cbn [map concat].
  rewrite forallb_app. unfold block_frames at 1. cbn. rewrite !andb_true_iff.
  intros [[He _] Hbs]. split; [done|]. by apply IH.
Qed.

(** C-EXPORT-FILE-OK A complete export whose transform options are JSON is
    written when nothing fails: no frame that passed the validation of the
    stream is refused by the writer. *)
Theorem write_export_succeeds `{Environment} `{JsonRuntime} tempPath outputPath options initial fs :
  (forall n, fault n = None) -> (forall n, signal n = false) ->
  (forall n, onBytesWritten n = Ok tt) /\ beforeCommit = Ok tt ->
  wo_maxBytes options = None -> tempPath <> outputPath -> initial !! tempPath = None ->
  (wo_overwrite options = false -> initial !! outputPath = None) ->
  stream_ok fs -> forallb options_parse fs = true ->
  is_ok (writeChangeLogRpcExportAtomic tempPath outputPath options fs (Ok tt) (on_disk initial)).2 = true.
Proof.
  intros Hf Hs Hh Hm Hne Hno Hfree (h & bs & c & -> & Hok & Hbs & Hc & _) Hp. cbn in Hp.
  rewrite forallb_app, andb_true_iff in Hp. destruct Hp as [Hp _]. apply blocks_parse in Hp.
  by eapply write_export_ok.
Qed.

(** *** The sample stream in a file *)

Lemma write_export_atomic_witness :
  let s := turn (turn sample_stream) in
  let '(o, r) := @writeChangeLogRpcExportAtomic calm no_json temp_file log_file replacing (yielded s)
    (Ok tt) (on_disk old_disk) in
  is_ok r = true /\
  exists h bs, files o !! log_file = Some (@export_bytes calm no_json h bs) /\ length bs = 2%nat.
Proof.
  cbv zeta.
  assert (Hr : reachable (turn (turn sample_stream)))
    by (apply (perform_all_reachable (sample_schedule ++ [ATurn; ATurn])); vm_compute; reflexivity).
  pose proof (@write_export_atomic calm no_json temp_file log_file replacing old_disk
    (turn (turn sample_stream)) (Ok tt)) as Hw.
  assert (Hok : match (@writeChangeLogRpcExportAtomic calm no_json temp_file log_file replacing
    (yielded (turn (turn sample_stream))) (Ok tt) (on_disk old_disk)).2 with
    | Ok res => rr_entryCount res = 2 | Throw _ => False end) by (vm_compute; reflexivity).
  destruct (writeChangeLogRpcExportAtomic _ _ _ _ _ _) as [o r]. cbn [snd] in Hok.
  destruct r as [res|e]; [|destruct Hok]. split; [reflexivity|].
  destruct Hw as (_ & _ & b & (h & bs & c & x & y & _ & _ & _ & -> & _ & _ & He) & Hb & _).
  - vm_compute. discriminate.
  - vm_compute. reflexivity.
  - exact Hr.
  - vm_compute. reflexivity.
  - exists h, bs. split; [exact Hb|]. rewrite He in Hok. cbn in Hok. lia.
Defined.

Lemma write_export_succeeds_witness :
  is_ok (@writeChangeLogRpcExportAtomic calm no_json temp_file log_file replacing sample_frames (Ok tt)
    (on_disk old_disk)).2 = true.
Proof.
  apply (@write_export_succeeds calm no_json temp_file log_file replacing old_disk sample_frames).
  - intros n. reflexivity.
  - intros n. reflexivity.
  - split; [intros n|]; reflexivity.
  - reflexivity.
  - vm_compute. discriminate.
  - vm_compute. reflexivity.
  - discriminate.
  - apply accept_frames_iff. eexists. split; vm_compute; reflexivity.
  - vm_compute. reflexivity.
Defined.
