(* ===== verification/ChangeLogReader.v ===== *)
(** * Reading change-log files ([packages/client/src/changeLog/node/index.ts])

    [openChangeLogFile] scans a file once to validate it, and its [entries]
    scan it again and hand out the entries, refusing a file that is not the
    one that was validated.  The scanner is shown to accept consistent
    documents only, whatever the cursor under it, and the two passes to agree
    on the entries. *)

From S2P Require Import Prelude JsText JsValue ChangeLogCodec ChangeLogDocument ChangeLogStream.
From S2P Require Import ChangeLogChunks.

Open Scope jsm_scope.

(** ** What a scan accepts is consistent *)

Section Sound.
Context `{JsonRuntime} {C : Type} `{JsonCursor C}.
Context (limits : ChangeLogCodecLimits).

(** The entries yielded so far are those the accumulator has seen. *)
Record collected (a : accumulator) (s : @scanning C) : Prop := mkCollected {
  cd_normal : Forall (normal_entry limits) s.2;
  cd_accumulator : acc_inv s.2 a;
  cd_sequence : accept_all limits 0 s.2 new_sequence = Ok (a_sequence a)
}.

Lemma on_cursor_yielded {A} (P : list NormalizedChangeLogEntry -> Prop) (m : M C A) E :
  (forall s, P s.2 -> E s) ->
  triple (fun s : @scanning C => P s.2) (on_cursor m) (fun _ s => P s.2) E.
Proof.
  intros He [c ys] Hs. unfold on_cursor. destruct (m c) as [c' [a|e]]; [done|]. by apply He.
Qed.

Lemma accept_all_snoc es : forall i e s,
  accept_all limits i (es ++ [e]) s
  = (s1 ← accept_all limits i es s; sequence_accept limits e (Z.of_nat (i + length es)) s1).
Proof.
  induction es as [|x es IH]; intros i e s; cbn [app accept_all length].
  - unfold mbind, result_bind. rewrite Nat.add_0_r. by destruct (sequence_accept _ _ _ _).
  - unfold mbind, result_bind in *. destruct (sequence_accept limits x (Z.of_nat i) s); [|done].
    rewrite IH. by rewrite Nat.add_succ_r.
Qed.

Lemma collected_snoc v e a a' c ys :
  collected a (c, ys) -> normalizeChangeLogEntry v limits = Ok e ->
  accumulator_accept limits e (Z.of_nat (length ys)) a = Ok a' -> collected a' (c, ys ++ [e]).
Proof.
  intros [Hn Ha Hs] He Hacc. cbn in *. destruct (accumulator_step _ _ _ _ _ Ha Hacc) as [Ha' Hs'].
  constructor; cbn; [|done|].
  - apply Forall_app. split; [done|]. constructor; [by eapply normalize_entry_normal|done].
  - rewrite accept_all_snoc. unfold mbind, result_bind. by rewrite Hs.
Qed.

Definition anything (s : @scanning C) : Prop := True.

Lemma entries_loop_collected n : forall i a,
  triple (fun s => length s.2 = i /\ collected a s) (entries_loop n limits i a)
    (fun a' s => collected a' s) anything.
Proof.
  induction n as [|n IH]; intros i a; cbn [entries_loop]; [by apply triple_throw|].
  assert (Hcur : forall (a : accumulator) i {A} (m : M C A),
    triple (fun s => length s.2 = i /\ collected a s) (on_cursor m)
      (fun _ s => length s.2 = i /\ collected a s) anything).
  { intros b j A m [c ys] [Hl [? ? ?]]. unfold on_cursor. by destruct (m c) as [c' [x|e]]. }
  eapply triple_bind; [apply Hcur|intros raw].
  eapply triple_bind; [by apply triple_lift|intros value]. apply triple_pure. intros _.
  eapply triple_bind; [by apply triple_lift|intros u]. apply triple_pure. intros _.
  eapply triple_bind; [by apply triple_lift|intros e]. apply triple_pure. intros He.
  eapply triple_bind; [by apply triple_lift|intros a']. apply triple_pure. intros Ha'.
  eapply triple_bind with (Q := fun _ s => length s.2 = S i /\ collected a' s).
  { apply triple_put. intros [c ys] [Hl Hc]. cbn in Hl. subst i. split; [cbn; rewrite length_app; cbn; lia|].
    by eapply collected_snoc. }
  intros _. eapply triple_bind; [apply Hcur|intros []]; [|apply IH].
  apply triple_ret. by intros s [_ Hs].
Qed.

Lemma collected_cursor a {A} (m : M C A) :
  triple (collected a) (on_cursor m) (fun _ => collected a) anything.
Proof. intros [c ys] [? ? ?]. unfold on_cursor. by destruct (m c) as [c' [x|e]]. Qed.

(** Before [changes] nothing has been collected; there is only one. *)
Definition document_state (l : scan_locals) (s : @scanning C) : Prop :=
  collected (l_accumulator l) s /\
  (if sawChanges l then js "changes" ∈ seenProperties l
   else l_accumulator l = new_accumulator /\ s.2 = []).

Lemma document_cursor l {A} (m : M C A) :
  triple (document_state l) (on_cursor m) (fun _ => document_state l) anything.
Proof. intros [c ys] [[? ? ?] ?]. unfold on_cursor. by destruct (m c) as [c' [x|e]]. Qed.

Lemma read_changes_collected n :
  triple (fun s => s.2 = [] /\ collected new_accumulator s) (read_changes n limits new_accumulator)
    (fun a s => collected a s) anything.
Proof.
  unfold read_changes.
  assert (Hcur : forall {A} (m : M C A),
    triple (fun s => s.2 = [] /\ collected new_accumulator s) (on_cursor m)
      (fun _ s => s.2 = [] /\ collected new_accumulator s) anything).
  { intros A m [c ys] [? [? ? ?]]. unfold on_cursor. by destruct (m c) as [c' [x|e]]. }
  do 2 (eapply triple_bind; [apply Hcur|intros ?]). eapply triple_bind; [apply Hcur|intros next].
  case_bool_decide.
  - eapply triple_bind; [apply Hcur|intros ?]. apply triple_ret. by intros s [_ Hs].
  - eapply triple_conseq; [apply entries_loop_collected| |done|done]. intros s [-> Hs]. done.
Qed.

Lemma read_property_state n l :
  triple (document_state l) (read_property n limits l) document_state anything.
Proof.
  unfold read_property. do 2 (eapply triple_bind; [apply document_cursor|intros ?]).
  rename a0 into property. case_bool_decide as Hin; [by apply triple_throw|].
  eapply triple_bind; [apply document_cursor|intros ?]. case_bool_decide as Hp.
  - subst property. eapply triple_bind with (Q := fun a s => collected a s).
    + destruct l as [acc doc seen [|]]; cbn in *.
      * intros s [_ Hs]. cbn in Hs. done.
      * intros s [Hc [Ha Hs]]. cbn in *. subst acc. by apply read_changes_collected.
    + intros acc. apply triple_ret. intros s Hs. split; [done|]. cbn. left.
  - eapply triple_bind; [apply document_cursor|intros raw].
    eapply triple_bind; [by apply triple_lift|intros value]. apply triple_pure. intros _.
    eapply triple_bind; [by apply triple_lift|intros u]. apply triple_pure. intros _.
    apply triple_ret. intros s [Hc Hs]. split; [done|]. cbn in *.
    destruct (sawChanges l); [by right|done].
Qed.

Lemma properties_loop_state n : forall l,
  triple (document_state l) (properties_loop n limits l) document_state anything.
Proof.
  induction n as [|n IH]; intros l; cbn [properties_loop]; [by apply triple_throw|].
  eapply triple_bind; [apply read_property_state|intros l'].
  eapply triple_bind; [apply document_cursor|intros []]; [|apply IH]. by apply triple_ret.
Qed.

Lemma read_document_state n :
  triple (fun s => s.2 = []) (read_document n limits) document_state anything.
Proof.
  unfold read_document. eapply triple_conseq with (P' := document_state new_locals) (Q' := document_state)
    (E' := anything); [|intros [c ys] Hs|done|done].
  - do 2 (eapply triple_bind; [apply document_cursor|intros ?]).
    eapply triple_bind; [apply document_cursor|intros next]. case_bool_decide.
    + eapply triple_bind; [apply document_cursor|intros ?]. by apply triple_ret.
    + apply properties_loop_state.
  - cbn in Hs. subst ys. split; [|done]. constructor; cbn; [constructor|apply new_accumulator_inv|done].
Qed.
End Sound.

Lemma scan_sound `{JsonRuntime} {C} `{JsonCursor C} n overrides c s ys r :
  scan n overrides (c, []) = ((s, ys), Ok r) ->
  exists limits, resolveChangeLogCodecLimits overrides = Ok limits /\ consistent limits ys r.
Proof.
  unfold scan. unfold bindM at 1, liftM at 1.
  destruct (resolveChangeLogCodecLimits overrides) as [limits|]; [|done]. unfold bindM at 1.
  pose proof (read_document_state limits n (c, []) eq_refl) as Hd.
  destruct (read_document n limits (c, [])) as [[c1 ys1] [l|e]]; [|done].
  destruct (negb (sawChanges l)); [done|]. unfold bindM at 1, on_cursor at 1.
  destruct (skipWhitespace c1) as [c2 [u|e]]; [|done]. unfold bindM at 1, on_cursor at 1.
  destruct (peek c2) as [c3 [next|e]]; [|done]. destruct (bool_decide (is_Some next)); [done|].
  unfold liftM. intros [= <- <- Hf]. destruct Hd as [[Hn Ha Hs] _]. cbn in *. exists limits.
  split; [done|]. apply (finish_consistent _ _ _ _ _ Hn) in Hf; [done| |done].
  by eapply sequence_sound.
Qed.

(** ** Files *)

(** What [fs.stat(path, { bigint: true })] tells of a file. *)
Record BigIntStats := mkStats { st_dev : Z; st_ino : Z; st_size : Z; st_mtimeNs : Z }.

Record FileIdentity := mkIdentity { dev : Z; ino : Z; size : Z; mtimeNs : Z }.

(** With [bigint] the stats have [mtimeNs]. *)
Definition fileIdentity (s : BigIntStats) : FileIdentity :=
  mkIdentity (st_dev s) (st_ino s) (st_size s) (st_mtimeNs s).

Definition sameIdentity (l r : FileIdentity) : bool :=
  (dev l =? dev r) && (ino l =? ino r) && (size l =? size r) && (mtimeNs l =? mtimeNs r).

(** What the file and the signal are found to be over time: the [n]-th
    [stat], the chunks of the [n]-th read stream, whether the signal is
    aborted at a look during that pass.  A read stream that fails does so
    before its first chunk. *)
Class ReadEnvironment := {
  stat : nat -> result BigIntStats;
  read : nat -> result (list (list Z));
  aborted_in : nat -> nat -> bool;
  digest : list Z -> jsstring
}.

(** The fields of [ChangeLogFileReadResult]; [path] is the caller's. *)
Record ChangeLogFileReadResult := mkReadResult {
  fr_scan : ChangeLogScanResult;
  fr_diagnostics : ChangeLogScanDiagnostics;
  fr_byteLength : jsstring;
  fr_sha256 : jsstring
}.

Definition file_changed : exn := codec_error "CHANGE_LOG_FILE_CHANGED".

#[global] Instance fingerprint_eq_dec : EqDecision NormalizedChangeLogFingerprint.
Proof.
  assert (EqDecision ChangeLogDigest) by solve_decision. solve_decision.
Defined.

Section Reader.
Context `{ReadEnvironment} `{JsonRuntime} (overrides : limit_name -> option number).

(** A pass over the file: the entries, and the result with all the bytes.
    A scan that succeeds has taken every chunk, so all of them are hashed. *)
Definition pass (n : nat)
  : list NormalizedChangeLogEntry * result (ChangeLogScanResult * ChangeLogScanDiagnostics * jsstring) :=
  match read n with
  | Throw e => ([], Throw e)
  | Ok chunks =>
      let '(entries, r) := scanChangeLogJson (map ByteChunk chunks) overrides (aborted_in n) in
      (entries, '(scan, diag) ← r; Ok (scan, diag, digest (concat chunks)))
  end.

(** [scanFile] without a callback; the first look at the signal is before
    everything else. *)
Definition scanFile (cancelled : bool) : result (ChangeLogFileReadResult * FileIdentity) :=
  _ ← throwIfChangeLogCancelled cancelled;
  s ← stat 0;
  let before := fileIdentity s in
  '(scan, diag, sha) ← (pass 0).2;
  s ← stat 1;
  let after := fileIdentity s in
  _ ← require (sameIdentity before after) file_changed;
  Ok (mkReadResult scan diag (decimal_string (size before)) sha, before).

(** [JSON.stringify] on arrays of strings and on fingerprints tells their
    values apart. *)
Definition summariesMatch (l r : ChangeLogFileReadResult) : bool :=
  let hl := sc_header (fr_scan l) in
  let hr := sc_header (fr_scan r) in
  bool_decide (fr_sha256 l = fr_sha256 r) && bool_decide (fr_byteLength l = fr_byteLength r)
  && Bool.eqb (h_complete hl) (h_complete hr)
  && bool_decide (h_changeCount hl = h_changeCount hr)
  && bool_decide (h_sourceChangeCount hl = h_sourceChangeCount hr)
  && bool_decide (h_unavailableChangeCount hl = h_unavailableChangeCount hr)
  && bool_decide (h_unavailableChangeSerials hl = h_unavailableChangeSerials hr)
  && bool_decide (h_before hl = h_before hr)
  && bool_decide (h_after hl = h_after hr).

Definition openChangeLogFile (cancelled : bool) : result (ChangeLogFileReadResult * FileIdentity) :=
  scanFile cancelled.

(** The [k]-th call of [entries] on what was prepared: what it yields and how
    it ends. *)
Definition entries (first : ChangeLogFileReadResult * FileIdentity) (k : nat)
  : list NormalizedChangeLogEntry * result unit :=
  match stat (2 + 2 * k) with
  | Throw e => ([], Throw e)
  | Ok s =>
      if negb (sameIdentity first.2 (fileIdentity s)) then ([], Throw file_changed)
      else
        let '(ys, r) := pass (S k) in
        (ys,
          '(scan, diag, sha) ← r;
          s ← stat (3 + 2 * k);
          let after := fileIdentity s in
          let second := mkReadResult scan diag (decimal_string (size after)) sha in
          require (sameIdentity first.2 after && summariesMatch first.1 second) file_changed)
  end.
End Reader.

Lemma sameIdentity_eq l r : sameIdentity l r = true <-> l = r.
Proof.
  destruct l as [a b c d], r as [a' b' c' d']. unfold sameIdentity. cbn.
  rewrite !andb_true_iff, !Z.eqb_eq. split; [intros [[[-> ->] ->] ->]; done|]. by intros [= -> -> -> ->].
Qed.

Section Passes.
Context `{ReadEnvironment} `{JsonRuntime} (overrides : limit_name -> option number).
Hypothesis quiet : forall n m, aborted_in n m = false.

Lemma pass_bytes n m cs cs' ys scan d sha :
  read n = Ok cs -> read m = Ok cs' -> concat cs = concat cs' ->
  pass overrides n = (ys, Ok (scan, d, sha)) ->
  exists d', pass overrides m = (ys, Ok (scan, d', sha)).
Proof.
  unfold pass. intros -> -> E Hp.
  destruct (scanChangeLogJson (map ByteChunk cs) overrides (aborted_in n)) as [ys' [[s d']|e]] eqn:Es; [|done].
  unfold mbind, result_bind in Hp. injection Hp as <- <- <- <-.
  destruct (scan_same_bytes cs cs' overrides _ (aborted_in m) _ _ _ (quiet n) (quiet m) E Es) as (d2 & ->).
  unfold mbind, result_bind. exists d2. by rewrite E.
Qed.

Lemma pass_ok n ys x :
  pass overrides n = (ys, Ok x) -> exists cs limits, read n = Ok cs /\ x.2 = digest (concat cs) /\
    resolveChangeLogCodecLimits overrides = Ok limits /\ consistent limits ys x.1.1.
Proof.
  unfold pass. intros Hp. destruct (read n) as [cs|]; [|done].
  destruct (scanChangeLogJson _ _ _) as [ys' [[s d]|e]] eqn:Es; [|done].
  injection Hp as <- <-. unfold scanChangeLogJson in Es.
  destruct (scan _ _ _) as [[c ys1] [r|e]] eqn:Er; [|done]. injection Es as <- <- <-.
  apply scan_sound in Er as (limits & Hl & Hc). by exists cs, limits.
Qed.

Lemma open_inv cancelled first :
  openChangeLogFile overrides cancelled = Ok first ->
  exists ys, pass overrides 0 = (ys, Ok (fr_scan first.1, fr_diagnostics first.1, fr_sha256 first.1)) /\
    fr_byteLength first.1 = decimal_string (size first.2).
Proof.
  unfold openChangeLogFile, scanFile, mbind, result_bind, require. intros Ho.
  destruct (throwIfChangeLogCancelled cancelled); [|done]. destruct (stat 0) as [s|]; [|done].
  destruct (pass overrides 0) as [ys [[[scan d] sha]|e]] eqn:Ep; [|done].
  destruct (stat 1) as [s'|]; [|done]. destruct (sameIdentity _ _); [|done].
  injection Ho as <-. cbn. by exists ys.
Qed.

Lemma replay_same cancelled first k ys :
  (forall n m cs cs', read n = Ok cs -> read m = Ok cs' -> digest (concat cs) = digest (concat cs') ->
     concat cs = concat cs') ->
  openChangeLogFile overrides cancelled = Ok first ->
  entries overrides first k = (ys, Ok tt) ->
  exists limits, ys = (pass overrides 0).1 /\
    resolveChangeLogCodecLimits overrides = Ok limits /\ consistent limits ys (fr_scan first.1).
Proof.
  intros Hinj Ho Hk. apply open_inv in Ho as (ys0 & Hp & _). unfold entries in Hk.
  destruct (stat (2 + 2 * k)) as [s|]; [|done]. destruct (negb _); [done|].
  destruct (pass overrides (S k)) as [ys1 r] eqn:E1. unfold mbind, result_bind, require in Hk.
  apply pair_equal_spec in Hk as [-> Hk]. destruct r as [[[scan d] sha]|]; [|done].
  destruct (stat (3 + 2 * k)) as [s'|]; [|done].
  destruct (sameIdentity first.2 (fileIdentity s') && summariesMatch _ _) eqn:Em; [|done].
  apply andb_true_iff in Em as [_ Em]. unfold summariesMatch in Em. bool_prop. cbn in *.
  destruct (pass_ok _ _ _ Hp) as (cs & limits & Hcs & Hd & Hl & Hc). cbn in *.
  destruct (pass_ok _ _ _ E1) as (cs' & limits' & Hcs' & Hd' & _ & _). cbn in *.
  destruct (pass_bytes 0 (S k) cs cs' _ _ _ _ Hcs Hcs' ltac:(eapply Hinj; [done|done|congruence]) Hp)
    as (d2 & E2).
  rewrite E1 in E2. injection E2 as <- -> _ _. rewrite Hp. by exists limits.
Qed.

Lemma replay_complete cancelled first k cs cs' s s' :
  openChangeLogFile overrides cancelled = Ok first ->
  read 0 = Ok cs -> read (S k) = Ok cs' -> concat cs = concat cs' ->
  stat (2 + 2 * k) = Ok s -> fileIdentity s = first.2 ->
  stat (3 + 2 * k) = Ok s' -> fileIdentity s' = first.2 ->
  entries overrides first k = ((pass overrides 0).1, Ok tt).
Proof.
  intros Ho Hr Hr' E Hs Hi Hs' Hi'. apply open_inv in Ho as (ys0 & Hp & Hb).
  destruct (pass_bytes 0 (S k) cs cs' _ _ _ _ Hr Hr' E Hp) as (d2 & E2).
  unfold entries. rewrite Hs, Hi. destruct (sameIdentity_eq first.2 first.2) as [_ Hself].
  rewrite (Hself eq_refl). cbn [negb]. rewrite E2, Hp. unfold mbind, result_bind. rewrite Hs', Hi'.
  rewrite (Hself eq_refl). unfold summariesMatch. cbn. rewrite Hb, !bool_decide_true, eqb_reflx by done. done.
Qed.
End Passes.

(** ** Theorems *)

(** C-SCAN-SOUND What the streaming scanner accepts is consistent: when a
    scan of any chunks ends without an error, the entries it has yielded are
    in normal form, have their positions as serials or none, contiguous
    groups, and the result's header, counts, transform summaries and required
    plugins are those of the entries. *)
Theorem scanned_document_consistent `{JsonRuntime} src overrides aborted ys r d :
  scanChangeLogJson src overrides aborted = (ys, Ok (r, d)) ->
  exists limits, resolveChangeLogCodecLimits overrides = Ok limits /\ consistent limits ys r.
Proof.
  unfold scanChangeLogJson. intros Hs. destruct (scan _ _ _) as [[c ys1] [r1|e]] eqn:Er; [|done].
  injection Hs as <- <- _. by eapply scan_sound.
Qed.

(** The two passes over a file agree.  A replay of an opened file
    that completes has handed out exactly the entries the first pass
    validated, which are consistent with the result the file was opened with
    (as long as the hash tells the contents that were read apart); and a
    replay of a file that has the same identity and contents, in whatever
    chunks they are read, does complete. *)
Theorem file_replay_correct `{ReadEnvironment} `{JsonRuntime} overrides cancelled first k :
  (forall n m, aborted_in n m = false) ->
  openChangeLogFile overrides cancelled = Ok first ->
  (forall ys,
     (forall n m cs cs', read n = Ok cs -> read m = Ok cs' -> digest (concat cs) = digest (concat cs') ->
        concat cs = concat cs') ->
     entries overrides first k = (ys, Ok tt) ->
     exists limits, ys = (pass overrides 0).1 /\
       resolveChangeLogCodecLimits overrides = Ok limits /\ consistent limits ys (fr_scan first.1)) /\
  (forall cs cs' s s', read 0 = Ok cs -> read (S k) = Ok cs' -> concat cs = concat cs' ->
     stat (2 + 2 * k) = Ok s -> fileIdentity s = first.2 ->
     stat (3 + 2 * k) = Ok s' -> fileIdentity s' = first.2 ->
     entries overrides first k = ((pass overrides 0).1, Ok tt)).
Proof.
  intros Hq Ho. split; [intros ys Hd; by eapply replay_same|]. intros cs cs' s s'. by eapply replay_complete.
Qed.

(** *** A sample file *)

Definition sample_stats : BigIntStats := mkStats 1 2 400 3.

(** The same bytes, in pieces the first time and at once afterwards. *)
Definition sample_reads : ReadEnvironment := {|
  stat := fun _ => Ok sample_stats;
  read := fun n => Ok (if (n =? 0)%nat then sample_pieces else [sample_bytes]);
  aborted_in := fun _ _ => false;
  digest := fun bytes => bytes
|}.

Definition sample_opened : ChangeLogFileReadResult * FileIdentity :=
  match @openChangeLogFile sample_reads sample_json (fun _ => None) false with
  | Ok first => first
  | Throw _ => (mkReadResult sample_result sample_diagnostics [] [], fileIdentity sample_stats)
  end.

Lemma file_replay_correct_witness :
  @entries sample_reads sample_json (fun _ => None) sample_opened 0 = (sample_scanned, Ok tt) /\
  exists limits, consistent limits sample_scanned (fr_scan sample_opened.1).
Proof.
  destruct (@file_replay_correct sample_reads sample_json (fun _ => None) false sample_opened 0)
    as [Hsame Hdone].
  - intros n m. reflexivity.
  - vm_compute. reflexivity.
  - assert (He : @entries sample_reads sample_json (fun _ => None) sample_opened 0
      = (sample_scanned, Ok tt)).
    { rewrite (Hdone sample_pieces [sample_bytes] sample_stats sample_stats);
        [vm_compute; reflexivity|reflexivity|reflexivity|vm_compute; reflexivity|reflexivity
        |vm_compute; reflexivity|reflexivity|vm_compute; reflexivity]. }
    split; [exact He|]. destruct (Hsame sample_scanned) as (limits & _ & _ & Hc).
    + intros n m cs cs' _ _ E. exact E.
    + exact He.
    + exists limits. exact Hc.
Defined.

Lemma scanned_document_consistent_witness :
  exists limits, consistent limits sample_scanned sample_result.
Proof.
  destruct (@scanned_document_consistent sample_json (map ByteChunk sample_pieces) (fun _ => None) never
    sample_scanned sample_result sample_diagnostics) as (limits & _ & Hc).
  - vm_compute. reflexivity.
  - exists limits. exact Hc.
Defined.
