(* ===== verification/Subscriptions.v ===== *)
(** * Event subscriptions ([packages/client/src/subscriptions.ts])

    [subscribeToEvents] chains the events of a stream so that the handler
    sees them one at a time, and [manageSessionViewportSubscriptions] keeps a
    session subscription and one viewport subscription, which it exchanges
    when the viewport changes.  Both are step relations: the stream, the
    handlers, the server's answers and the caller interleave in any order. *)

From stdpp Require Import relations.
From S2P Require Import Prelude.

(** ** One subscription *)

Module Events.

Section Events.
Context {event : Type}.

(** What an error's message has in it. *)
Record stream_error := mkStreamError { callCancelled : bool; econnreset : bool; error_id : Z }.

Definition isBenignSubscriptionError (e : stream_error) : bool := callCancelled e || econnreset e.

(** The link of the chain of promises that is running: the handler, or the
    error handler after the handler failed. *)
Inductive link := Handling (e : event) | Reporting (e : event).

(** [cancelled] and the chain [eventTask] as the links that have not started
    and the one that has; [received], [started] and [reported] record the
    events the stream delivered while the subscription was live, those the
    handler was called with, and the errors the error handler was called
    with; [stream_cancels] the calls of [stream.cancel()]. *)
Record subscription := mkSubscription {
  cancelled : bool;
  pending : list event;
  running : option link;
  received : list event;
  started : list event;
  reported : list stream_error;
  stream_cancels : nat
}.

Definition new_subscription : subscription := mkSubscription false [] None [] [] [] 0.

(** [stream.on('data', ...)] *)
Definition on_event (e : event) (s : subscription) : subscription :=
  if cancelled s then s
  else mkSubscription (cancelled s) (pending s ++ [e]) (running s) (received s ++ [e]) (started s)
    (reported s) (stream_cancels s).

(** The next link of the chain runs: the handler is called unless the
    subscription has been cancelled. *)
Definition next_link (s : subscription) : option subscription :=
  match running s, pending s with
  | None, e :: rest =>
      Some (if cancelled s
        then mkSubscription (cancelled s) rest None (received s) (started s) (reported s)
          (stream_cancels s)
        else mkSubscription (cancelled s) rest (Some (Handling e)) (received s) (started s ++ [e])
          (reported s) (stream_cancels s))
  | _, _ => None
  end.

Definition set_running (r : option link) (s : subscription) : subscription :=
  mkSubscription (cancelled s) (pending s) r (received s) (started s) (reported s) (stream_cancels s).

(** [invokeSubscriptionErrorHandler]: the handler is called if there is one;
    what it throws is logged. *)
Definition invokeSubscriptionErrorHandler (err : stream_error) (s : subscription) : subscription :=
  mkSubscription (cancelled s) (pending s) (running s) (received s) (started s) (reported s ++ [err])
    (stream_cancels s).

(** The handler returns or throws; after a throw the error handler runs in
    the same link, and the chain goes on whatever it does. *)
Definition handler_settles (failure : option stream_error) (s : subscription) : option subscription :=
  match running s with
  | Some (Handling e) =>
      Some (match failure with
        | None => set_running None s
        | Some err => invokeSubscriptionErrorHandler err (set_running (Some (Reporting e)) s)
        end)
  | _ => None
  end.

Definition report_settles (s : subscription) : option subscription :=
  match running s with Some (Reporting _) => Some (set_running None s) | _ => None end.

(** [stream.on('error', ...)] *)
Definition on_stream_error (err : stream_error) (s : subscription) : subscription :=
  if cancelled s || isBenignSubscriptionError err then s else invokeSubscriptionErrorHandler err s.

Definition cancel (s : subscription) : subscription :=
  if cancelled s then s
  else mkSubscription true (pending s) (running s) (received s) (started s) (reported s)
    (S (stream_cancels s)).

Inductive step : subscription -> subscription -> Prop :=
  | StepData e s : step s (on_event e s)
  | StepNext s s' : next_link s = Some s' -> step s s'
  | StepHandler f s s' : handler_settles f s = Some s' -> step s s'
  | StepReport s s' : report_settles s = Some s' -> step s s'
  | StepError err s : step s (on_stream_error err s)
  | StepCancel s : step s (cancel s).

Definition reachable (s : subscription) : Prop := rtc step new_subscription s.

(** *** The handler's view *)

Record events_inv (s : subscription) : Prop := mkEventsInv {
  ei_order : started s ++ pending s = received s \/
    (cancelled s = true /\ exists skipped, started s ++ skipped ++ pending s = received s);
  ei_running e : running s = Some (Handling e) -> last (started s) = Some e;
  ei_cancels : stream_cancels s = if cancelled s then 1%nat else 0%nat
}.

Lemma new_events_inv : events_inv new_subscription.
Proof. by constructor; [left| |]. Qed.

Lemma step_events_inv s s' : step s s' -> events_inv s -> events_inv s'.
Proof.
  intros Hs [Ho Hr Hc]. destruct Hs as [e s|s s' Hn|f s s' Hh|s s' Hp|err s|s].
  - unfold on_event. destruct (cancelled s) eqn:Ec; [by constructor; rewrite ?Ec|].
    constructor; cbn; [|done|done]. left. destruct Ho as [<-|[? _]]; [|congruence].
    by rewrite app_assoc.
  - unfold next_link in Hn. destruct (running s) eqn:Er; [done|]. destruct (pending s) as [|e rest] eqn:Ep; [done|].
    injection Hn as <-. destruct (cancelled s) eqn:Ec; constructor; cbn; try done.
    + right. split; [done|]. destruct Ho as [<-|(_ & k & <-)].
      * exists [e]. done.
      * exists (k ++ [e]). by rewrite <- !app_assoc.
    + left. destruct Ho as [<-|[? _]]; [|done]. by rewrite <- app_assoc.
    + intros x [= ->]. apply last_snoc.
  - unfold handler_settles in Hh. destruct (running s) as [[e|e]|]; try done. injection Hh as <-.
    by destruct f; constructor; cbn.
  - unfold report_settles in Hp. destruct (running s) as [[e|e]|]; try done. injection Hp as <-.
    by constructor; cbn.
  - unfold on_stream_error. destruct (_ || _); [by constructor|]. by constructor; cbn.
  - unfold cancel. destruct (cancelled s) eqn:Ec; [by constructor; rewrite ?Ec|].
    constructor; cbn; [|done|by rewrite Hc]. left. by destruct Ho as [?|[? _]].
Qed.

Lemma reachable_events_inv s : reachable s -> events_inv s.
Proof.
  intros Hr. unfold reachable in Hr. pose proof new_events_inv as Hi.
  induction Hr as [|s s1 s' Hs _ IH]; [done|]. by apply IH, (step_events_inv s).
Qed.

(** *** Progress: the chain goes on after every link *)

(** Run the links that are waiting, the handler settling as [outcome] says. *)
Definition run_link (outcome : event -> option stream_error) (s : subscription) : subscription :=
  match next_link s with
  | None => s
  | Some s =>
      match running s with
      | Some (Handling e) =>
          match handler_settles (outcome e) s with
          | Some s => match report_settles s with Some s => s | None => s end
          | None => s
          end
      | _ => s
      end
  end.

Lemma run_link_steps outcome s : rtc step s (run_link outcome s).
Proof.
  unfold run_link. destruct (next_link s) as [s1|] eqn:E1; [|done].
  eapply rtc_l; [by apply StepNext|]. destruct (running s1) as [[e|e]|]; [|done|done].
  destruct (handler_settles (outcome e) s1) as [s2|] eqn:E2; [|done].
  eapply rtc_l; [by eapply StepHandler|]. destruct (report_settles s2) as [s3|] eqn:E3; [|done].
  eapply rtc_l; [by apply StepReport|done].
Qed.

Lemma run_link_one outcome s e rest :
  cancelled s = false -> running s = None -> pending s = e :: rest ->
  let s' := run_link outcome s in
  cancelled s' = false /\ running s' = None /\ pending s' = rest /\ started s' = started s ++ [e].
Proof.
  intros Hc Hr Hp. unfold run_link, next_link. rewrite Hr, Hp, Hc. cbn.
  by destruct (outcome e); cbn.
Qed.

Lemma run_links outcome n : forall s,
  cancelled s = false -> running s = None -> length (pending s) = n ->
  started (Nat.iter n (run_link outcome) s) = started s ++ pending s.
Proof.
  induction n as [|n IH]; intros s Hc Hr Hl.
  - destruct (pending s) eqn:Hp; [|done]. cbn. by rewrite app_nil_r.
  - destruct (pending s) as [|e rest] eqn:Hp; [done|]. cbn in Hl.
    destruct (run_link_one outcome s e rest Hc Hr Hp) as (Hc' & Hr' & Hp' & Hs').
    rewrite Nat.iter_succ_r, IH; [|done|done|rewrite Hp'; lia]. by rewrite Hs', Hp', <- app_assoc.
Qed.

Lemma run_links_steps outcome n : forall s, rtc step s (Nat.iter n (run_link outcome) s).
Proof.
  induction n as [|n IH]; intros s; [done|]. rewrite Nat.iter_succ_r.
  etransitivity; [apply run_link_steps|apply IH].
Qed.

Lemma cancelled_step s s' :
  step s s' -> cancelled s = true -> cancelled s' = true /\ started s' = started s.
Proof.
  intros Hs Hc. destruct Hs as [e s|s s' Hn|f s s' Hh|s s' Hp|err s|s].
  - unfold on_event. by rewrite Hc.
  - unfold next_link in Hn. destruct (running s); [done|]. destruct (pending s); [done|].
    rewrite Hc in Hn. by injection Hn as <-.
  - unfold handler_settles in Hh. destruct (running s) as [[e|e]|]; try done. injection Hh as <-.
    by destruct f.
  - unfold report_settles in Hp. destruct (running s) as [[e|e]|]; try done. by injection Hp as <-.
  - unfold on_stream_error. by rewrite Hc.
  - unfold cancel. by rewrite Hc.
Qed.

Lemma cancelled_starts_none s s' :
  rtc step s s' -> cancelled s = true -> started s' = started s.
Proof.
  induction 1 as [|s s1 s' Hs _ IH]; [done|]. intros Hc.
  destruct (cancelled_step s s1 Hs Hc) as [Hc1 Hs1]. rewrite <- Hs1. by apply IH.
Qed.
End Events.
End Events.

(** ** A session subscription and the viewport's *)

Module Manager.

Abbreviation viewport_id := jsstring.

(** [applyViewportId] at its [await]: the viewport asked for, the
    subscription found at the start, and the new one once the stream is
    open. *)
Record update := mkUpdate {
  target : viewport_id;
  previous : option nat;
  opened : option nat
}.

(** [Opening] until the first subscription is there; only then has the caller
    something to call. *)
Inductive phase := Opening | Ready | Failed.

#[global] Instance phase_eq_dec : EqDecision phase.
Proof. solve_decision. Defined.

(** The locals, and the chain [viewportUpdateTask] as the updates that have
    not started and the one that has.  [live] are the viewport subscriptions
    that are open.  [requests] records the viewports asked for, [updates]
    those that were chained, [settled] how these ended. *)
Record manager := mkManager {
  stage : phase;
  cancelled : bool;
  activeViewportId : viewport_id;
  viewportSubscription : option nat;
  queued : list viewport_id;
  current : option update;
  session_live : bool;
  live : list nat;
  fresh : nat;
  requests : list viewport_id;
  updates : list viewport_id;
  settled : list (viewport_id * bool)
}.

(** The session subscription is there, and the first update is chained. *)
Definition new_manager (v : viewport_id) : manager :=
  mkManager Opening false [] None [v] None true [] 0 [v] [v] [].

Definition close (id : option nat) (ids : list nat) : list nat :=
  match id with Some i => filter (fun j => j <> i) ids | None => ids end.

(** The test in [queueViewportUpdate] for a viewport that is active. *)
Definition already_active (v : viewport_id) (s : manager) : bool :=
  negb (cancelled s) && bool_decide (is_Some (viewportSubscription s)) &&
  bool_decide (activeViewportId s = v).

Definition queueViewportUpdate (v : viewport_id) (s : manager) : manager :=
  if already_active v s
  then mkManager (stage s) (cancelled s) (activeViewportId s) (viewportSubscription s) (queued s)
    (current s) (session_live s) (live s) (fresh s) (requests s ++ [v]) (updates s) (settled s)
  else mkManager (stage s) (cancelled s) (activeViewportId s) (viewportSubscription s)
    (queued s ++ [v]) (current s) (session_live s) (live s) (fresh s) (requests s ++ [v])
    (updates s ++ [v]) (settled s).

(** [applyViewportId] up to its [await]; a failed update does not stop the
    next one. *)
Definition start_update (s : manager) : option manager :=
  match current s, queued s with
  | None, v :: rest =>
      Some (if cancelled s
        then mkManager (stage s) (cancelled s) (activeViewportId s) (viewportSubscription s) rest None
          (session_live s) (live s) (fresh s) (requests s) (updates s) (settled s ++ [(v, false)])
        else mkManager (stage s) (cancelled s) (activeViewportId s) (viewportSubscription s) rest
          (Some (mkUpdate v (viewportSubscription s) None)) (session_live s) (live s) (fresh s)
          (requests s) (updates s) (settled s))
  | _, _ => None
  end.

(** The stream of the new subscription is open. *)
Definition subscribed (s : manager) : option manager :=
  match current s with
  | Some (mkUpdate v prev None) =>
      Some (mkManager (stage s) (cancelled s) (activeViewportId s) (viewportSubscription s) (queued s)
        (Some (mkUpdate v prev (Some (fresh s)))) (session_live s) (live s ++ [fresh s]) (S (fresh s))
        (requests s) (updates s) (settled s))
  | _ => None
  end.

(** It cannot be opened: the update fails; the first one takes the session
    subscription with it. *)
Definition refused (s : manager) : option manager :=
  match current s with
  | Some (mkUpdate v prev None) =>
      Some (mkManager (match stage s with Ready => Ready | _ => Failed end) (cancelled s)
        (activeViewportId s) (viewportSubscription s) (queued s) None
        (match stage s with Ready => session_live s | _ => false end) (live s) (fresh s) (requests s)
        (updates s) (settled s ++ [(v, false)]))
  | _ => None
  end.

(** [applyViewportId] after its [await]. *)
Definition resume (s : manager) : option manager :=
  match current s with
  | Some (mkUpdate v prev (Some id)) =>
      Some (if cancelled s
        then mkManager (stage s) (cancelled s) (activeViewportId s) (viewportSubscription s) (queued s)
          None (session_live s) (close (Some id) (live s)) (fresh s) (requests s) (updates s)
          (settled s ++ [(v, false)])
        else mkManager Ready (cancelled s) v (Some id) (queued s) None (session_live s)
          (close prev (live s)) (fresh s) (requests s) (updates s) (settled s ++ [(v, true)]))
  | _ => None
  end.

Definition cancel_manager (s : manager) : manager :=
  if cancelled s then s
  else mkManager (stage s) true (activeViewportId s) (viewportSubscription s) (queued s) (current s)
    false (close (viewportSubscription s) (live s)) (fresh s) (requests s) (updates s) (settled s).

Inductive step : manager -> manager -> Prop :=
  | StepSet v s : stage s = Ready -> step s (queueViewportUpdate v s)
  | StepStart s s' : start_update s = Some s' -> step s s'
  | StepSubscribed s s' : subscribed s = Some s' -> step s s'
  | StepRefused s s' : refused s = Some s' -> step s s'
  | StepResume s s' : resume s = Some s' -> step s s'
  | StepCancel s : stage s = Ready -> step s (cancel_manager s).

Definition reachable (v : viewport_id) (s : manager) : Prop := rtc step (new_manager v) s.

(** *** What is open *)

Definition opened_of (s : manager) : list nat :=
  match current s with Some u => option_list (opened u) | None => [] end.

Definition kept (s : manager) : list nat :=
  if cancelled s then [] else option_list (viewportSubscription s).

Definition target_of (s : manager) : list viewport_id :=
  match current s with Some u => [target u] | None => [] end.

Definition last_success (l : list (viewport_id * bool)) : option viewport_id :=
  fst <$> last (filter (fun p => p.2 = true) l).

#[global] Arguments last_success : simpl never.
#[global] Arguments close : simpl never.

Record manager_inv (s : manager) : Prop := mkManagerInv {
  mi_live : live s = kept s ++ opened_of s;
  mi_nodup : NoDup (live s);
  mi_fresh i : i ∈ live s \/ viewportSubscription s = Some i -> (i < fresh s)%nat;
  mi_previous u : current s = Some u -> previous u = viewportSubscription s;
  mi_session : session_live s = negb (cancelled s) && negb (bool_decide (stage s = Failed));
  mi_order : map fst (settled s) ++ target_of s ++ queued s = updates s;
  mi_active : match viewportSubscription s with
    | Some _ => last_success (settled s) = Some (activeViewportId s)
    | None => last_success (settled s) = None
    end;
  mi_stage : match stage s with
    | Opening => cancelled s = false /\ viewportSubscription s = None
    | Ready => is_Some (viewportSubscription s)
    | Failed => cancelled s = false /\ viewportSubscription s = None /\ current s = None /\ queued s = []
    end;
  mi_opening : stage s = Opening -> (length (queued s) + length (target_of s) = 1)%nat
}.

Lemma filter_others (i : nat) (l : list nat) : i ∉ l -> filter (fun j => j <> i) l = l.
Proof.
  induction l as [|x l IH]; [done|]. intros [Hx Hl]%not_elem_of_cons.
  rewrite filter_cons_True by done. by rewrite IH.
Qed.

Lemma close_first id o : NoDup (option_list id ++ o) -> close id (option_list id ++ o) = o.
Proof.
  destruct id as [i|]; [|done]. change (option_list (Some i) ++ o) with (i :: o).
  intros [Hi _]%NoDup_cons. unfold close. rewrite filter_cons_False by tauto. by apply filter_others.
Qed.

Lemma close_last id l : NoDup (l ++ [id]) -> close (Some id) (l ++ [id]) = l.
Proof.
  intros Hnd. apply NoDup_app in Hnd as (_ & Hd & _). unfold close. rewrite filter_app, filter_others.
  - rewrite filter_cons_False by tauto. by rewrite app_nil_r.
  - intros Hin. apply (Hd id Hin). by apply list_elem_of_singleton.
Qed.

Lemma last_success_snoc l v b :
  last_success (l ++ [(v, b)]) = if b then Some v else last_success l.
Proof.
  unfold last_success. rewrite filter_app. destruct b.
  - rewrite filter_cons_True by done. by rewrite filter_nil, last_snoc.
  - rewrite filter_cons_False by done. by rewrite filter_nil, app_nil_r.
Qed.

Lemma new_manager_inv v : manager_inv (new_manager v).
Proof.
  constructor; cbn; try done; [constructor|]. by intros i [Hi%not_elem_of_nil|?].
Qed.

Ltac manager_cases := repeat match goal with
  | |- context [cancelled ?s] => let E := fresh "Ec" in destruct (cancelled s) eqn:E; cbn in *
  end.

Lemma set_inv v s : stage s = Ready -> manager_inv s -> manager_inv (queueViewportUpdate v s).
Proof.
  intros Hst [H1 H2 H3 H4 H5 H6 H7 H8 H9]. unfold queueViewportUpdate. rewrite Hst in *.
  destruct (already_active v s); constructor; cbn; try done; try by rewrite Hst.
  by rewrite <- H6, <- !app_assoc.
Qed.

Lemma start_inv s s' : start_update s = Some s' -> manager_inv s -> manager_inv s'.
Proof.
  unfold start_update. destruct (current s) as [u|] eqn:Eu; [done|].
  destruct (queued s) as [|v rest] eqn:Eq; [done|]. intros [= <-] [H1 H2 H3 H4 H5 H6 H7 H8 H9].
  unfold opened_of, target_of, kept in *. rewrite Eu, Eq in *. cbn in H6, H9.
  destruct (cancelled s) eqn:Ec.
  - assert (Hst : stage s = Ready) by (destruct (stage s); [by destruct H8|done|by destruct H8]).
    rewrite Hst in *. constructor; cbn; try done; unfold opened_of, target_of, kept; cbn; try done.
    + by rewrite map_app, <- app_assoc.
    + rewrite last_success_snoc. done.
  - constructor; cbn; try done; unfold opened_of, target_of, kept; cbn; try done.
    + by intros u [= <-].
    + destruct (stage s); try done. by destruct H8 as (_ & _ & _ & ?).
    + intros Hst. specialize (H9 Hst). lia.
Qed.

Lemma subscribed_inv s s' : subscribed s = Some s' -> manager_inv s -> manager_inv s'.
Proof.
  unfold subscribed. destruct (current s) as [[v prev [id|]]|] eqn:Eu; try done.
  intros [= <-] [H1 H2 H3 H4 H5 H6 H7 H8 H9].
  unfold opened_of, target_of in *. rewrite Eu in *. cbn in *. rewrite app_nil_r in H1.
  constructor; cbn; try done; unfold opened_of, target_of, kept in *; cbn; try done.
  - by rewrite H1.
  - apply NoDup_app. split; [done|]. split; [|apply NoDup_singleton].
    intros i Hi ->%list_elem_of_singleton. specialize (H3 (fresh s) (or_introl Hi)). lia.
  - intros i [[Hi| ->%list_elem_of_singleton]%elem_of_app|Hi]; [|lia|].
    + specialize (H3 i (or_introl Hi)). lia.
    + specialize (H3 i (or_intror Hi)). lia.
  - intros u [= <-]. cbn. by apply (H4 _ eq_refl).
  - destruct (stage s); try done. by destruct H8 as (_ & _ & ? & _).
Qed.

Lemma refused_inv s s' : refused s = Some s' -> manager_inv s -> manager_inv s'.
Proof.
  unfold refused. destruct (current s) as [[v prev [id|]]|] eqn:Eu; try done.
  intros [= <-] [H1 H2 H3 H4 H5 H6 H7 H8 H9].
  unfold opened_of, target_of in *. rewrite Eu in *. cbn in *. rewrite app_nil_r in H1.
  destruct (stage s) eqn:Es; [| |by destruct H8 as (_ & _ & ? & _)].
  - destruct H8 as [Hc Hv]. constructor; cbn; try done; unfold opened_of, target_of, kept in *; cbn; try done.
    + by rewrite app_nil_r.
    + by rewrite Hc.
    + by rewrite map_app, <- app_assoc.
    + by rewrite last_success_snoc.
    + specialize (H9 eq_refl). destruct (queued s); [done|]. cbn in H9. lia.
  - constructor; cbn; try done; unfold opened_of, target_of, kept in *; cbn; try done.
    + by rewrite app_nil_r.
    + by rewrite map_app, <- app_assoc.
    + by rewrite last_success_snoc.
Qed.

Lemma resume_inv s s' : resume s = Some s' -> manager_inv s -> manager_inv s'.
Proof.
  unfold resume. destruct (current s) as [[v prev [id|]]|] eqn:Eu; try done.
  intros [= <-] [H1 H2 H3 H4 H5 H6 H7 H8 H9].
  unfold opened_of, target_of, kept in *. rewrite Eu in *. cbn in *. specialize (H4 _ eq_refl). cbn in H4. subst prev.
  assert (Hfresh : (id < fresh s)%nat) by (apply H3; left; rewrite H1; apply elem_of_app; right; left).
  destruct (cancelled s) eqn:Ec; cbn in H1.
  - assert (Hst : stage s = Ready) by (destruct (stage s); [by destruct H8|done|by destruct H8]).
    assert (Hl : close (Some id) (live s) = []) by (rewrite H1 in H2 |- *; by apply (close_last id [])).
    rewrite Hst in *. constructor; cbn; try done; unfold opened_of, target_of, kept; cbn; try done.
    + rewrite Hl. constructor.
    + intros i [Hi|Hi]; [rewrite Hl in Hi; by apply not_elem_of_nil in Hi|auto].
    + by rewrite map_app, <- app_assoc.
    + by rewrite last_success_snoc.
  - assert (Hl : close (viewportSubscription s) (live s) = [id])
      by (rewrite H1 in H2 |- *; by apply close_first).
    constructor; cbn; try done; unfold opened_of, target_of, kept; cbn; try done.
    + rewrite Hl. apply NoDup_singleton.
    + intros i [Hi|[= <-]]; [|done]. rewrite Hl in Hi. by apply list_elem_of_singleton in Hi as ->.
    + destruct (stage s); [done|done|by destruct H8 as (_ & _ & ? & _)].
    + by rewrite map_app, <- app_assoc.
    + by rewrite last_success_snoc.
Qed.

Lemma cancel_inv s : stage s = Ready -> manager_inv s -> manager_inv (cancel_manager s).
Proof.
  intros Hst [H1 H2 H3 H4 H5 H6 H7 H8 H9]. unfold cancel_manager. destruct (cancelled s) eqn:Ec.
  - constructor; rewrite ?Ec; done.
  - unfold kept in *. rewrite Ec in H1.
    assert (Hl : close (viewportSubscription s) (live s) = opened_of s)
      by (rewrite H1 in H2 |- *; by apply close_first).
    constructor; cbn; try done; unfold kept; cbn; try done.
    + rewrite Hl. rewrite H1 in H2. by apply NoDup_app in H2 as (_ & _ & ?).
    + intros i [Hi|Hi]; [|auto]. apply H3. left. rewrite H1. apply elem_of_app. right. by rewrite Hl in Hi.
    + rewrite Hst in H8 |- *. done.
Qed.

Lemma step_manager_inv s s' : step s s' -> manager_inv s -> manager_inv s'.
Proof.
  destruct 1; [by apply set_inv|by eapply start_inv|by eapply subscribed_inv|by eapply refused_inv
    |by eapply resume_inv|by apply cancel_inv].
Qed.

Lemma reachable_manager_inv v s : reachable v s -> manager_inv s.
Proof.
  intros Hr. unfold reachable in Hr. pose proof (new_manager_inv v) as Hi.
  induction Hr as [|s s1 s' Hs _ IH]; [done|]. by apply IH, (step_manager_inv s).
Qed.

(** *** Runs *)

Inductive action := ASet (v : viewport_id) | AStart | ASubscribed | ARefused | AResume | ACancel.

Definition run_action (a : action) (s : manager) : option manager :=
  match a with
  | ASet v => if bool_decide (stage s = Ready) then Some (queueViewportUpdate v s) else None
  | AStart => start_update s
  | ASubscribed => subscribed s
  | ARefused => refused s
  | AResume => resume s
  | ACancel => if bool_decide (stage s = Ready) then Some (cancel_manager s) else None
  end.

Fixpoint run_actions (l : list action) (s : manager) : option manager :=
  match l with [] => Some s | a :: l => s ← run_action a s; run_actions l s end.

Lemma manager_perform_step a s s' : run_action a s = Some s' -> step s s'.
Proof.
  destruct a; cbn; [case_bool_decide|..|case_bool_decide]; try (intros [= <-]); try done.
  - by apply StepSet.
  - apply StepStart.
  - apply StepSubscribed.
  - apply StepRefused.
  - apply StepResume.
  - by apply StepCancel.
Qed.

Lemma manager_perform_steps l : forall s s', run_actions l s = Some s' -> rtc step s s'.
Proof.
  induction l as [|a l IH]; intros s s'; cbn; [by intros [= <-]|].
  destruct (run_action a s) as [s1|] eqn:E; [|done]. cbn. intros Hl.
  eapply rtc_l; [by eapply manager_perform_step|by apply IH].
Qed.
End Manager.

(** ** Theorems *)

(** The handler of a subscription sees the events of the stream in
    order, each at most once and one at a time; while the subscription is
    live every event received has been handled or waits its turn.  After
    [cancel] no handler starts, whatever still arrives, and the stream is
    cancelled once however often [cancel] is called.  A handler that throws,
    or an error handler that does, does not stop the events after it: the
    waiting events are all handled, whatever the handlers do. *)
Theorem events_in_order {event : Type} (s : @Events.subscription event) :
  Events.reachable s ->
  Events.started s `prefix_of` Events.received s /\
  (Events.cancelled s = false -> Events.started s ++ Events.pending s = Events.received s) /\
  (Events.cancelled s = true ->
     forall s', rtc Events.step s s' -> Events.started s' = Events.started s) /\
  (Events.stream_cancels s <= 1)%nat /\
  (forall outcome, Events.cancelled s = false -> Events.running s = None ->
     let s' := Nat.iter (length (Events.pending s)) (Events.run_link outcome) s in
     rtc Events.step s s' /\ Events.started s' = Events.received s).
Proof.
  intros Hr. destruct (Events.reachable_events_inv s Hr) as [Ho _ Hc]. split_and!.
  - destruct Ho as [<-|(_ & k & <-)]; by eexists.
  - intros Ec. destruct Ho as [?|[? _]]; congruence.
  - intros Ec s' Hs. apply (Events.cancelled_starts_none s); done.
  - rewrite Hc. destruct (Events.cancelled s); lia.
  - intros outcome Ec Hrun s'. split; [apply Events.run_links_steps|].
    unfold s'. rewrite Events.run_links by done. destruct Ho as [?|[? _]]; congruence.
Qed.

(** The manager leaks no subscription: in every interleaving of
    the caller's requests, the server's answers and [cancel], at most two
    viewport subscriptions are open at a time, the old one and the one about
    to replace it; when no update is under way exactly the current one is, or
    none after [cancel], which also ends the session subscription; and so it
    is when the first subscription fails.  Updates are applied in the order
    they were queued, and when all are done and the last one succeeded, its
    viewport is the active one. *)
Theorem manager_no_leak v s :
  Manager.reachable v s ->
  (length (Manager.live s) <= 2)%nat /\
  (Manager.current s = None ->
     Manager.live s = if Manager.cancelled s then [] else option_list (Manager.viewportSubscription s)) /\
  (Manager.cancelled s = true -> Manager.session_live s = false) /\
  (Manager.stage s = Manager.Failed -> Manager.live s = [] /\ Manager.session_live s = false) /\
  (Manager.current s = None -> Manager.queued s = [] ->
     map fst (Manager.settled s) = Manager.updates s /\
     forall w, last (Manager.settled s) = Some (w, true) -> Manager.activeViewportId s = w /\
       (Manager.cancelled s = false -> length (Manager.live s) = 1%nat)).
Proof.
  intros [H1 H2 H3 H4 H5 H6 H7 H8 H9]%Manager.reachable_manager_inv.
  unfold Manager.opened_of, Manager.kept, Manager.target_of in *. split_and!.
  - rewrite H1, length_app. destruct (Manager.current s) as [[? ? []]|], (Manager.cancelled s),
      (Manager.viewportSubscription s); cbn; lia.
  - intros E. rewrite E, app_nil_r in H1. done.
  - intros E. by rewrite H5, E.
  - intros E. rewrite E in H8. destruct H8 as (Ec & Ev & Eu & _). rewrite H1, H5, Ec, Ev, Eu, E. done.
  - intros Eu Eq. rewrite Eu, Eq, app_nil_r in *. split; [done|].
    intros w Hw. apply last_Some in Hw as [l El]. rewrite El, Manager.last_success_snoc in H7.
    destruct (Manager.viewportSubscription s); [|done]. injection H7 as <-. split; [done|].
    intros Ec. by rewrite H1, Ec.
Qed.

(** A request for the viewport that is active is taken for done while
    an update to another viewport is still under way: the last request was
    for the first viewport, every update succeeded, and the other viewport
    stays active. *)
Theorem viewport_request_lost :
  exists s, Manager.reachable (js "A") s /\ Manager.current s = None /\ Manager.queued s = [] /\
    Manager.cancelled s = false /\ forallb snd (Manager.settled s) = true /\
    last (Manager.requests s) = Some (js "A") /\ Manager.activeViewportId s = js "B".
Proof.
  set (run := [Manager.AStart; Manager.ASubscribed; Manager.AResume; Manager.ASet (js "B");
    Manager.AStart; Manager.ASet (js "A"); Manager.ASubscribed; Manager.AResume]).
  destruct (Manager.run_actions run (Manager.new_manager (js "A"))) as [s|] eqn:E;
    [|vm_compute in E; discriminate E].
  exists s. split; [by apply (Manager.manager_perform_steps run)|].
  vm_compute in E. injection E as <-. vm_compute. split_and!; reflexivity.
Qed.

(** *** Sample runs *)

Definition handled : @Events.subscription Z :=
  Events.on_event 3 (Events.run_link (fun _ => Some (Events.mkStreamError false false 7))
    (Events.on_event 2 (Events.on_event 1 Events.new_subscription))).

Lemma events_in_order_witness :
  Events.started (Nat.iter 2 (Events.run_link (fun _ => None)) handled) = [1; 2; 3].
Proof.
  destruct (events_in_order handled) as (_ & _ & _ & _ & Hrun).
  - unfold handled, Events.reachable. etransitivity; [|apply rtc_once, Events.StepData].
    etransitivity; [|apply Events.run_link_steps].
    eapply rtc_l; [apply Events.StepData|apply rtc_once, Events.StepData].
  - apply (Hrun (fun _ => None)); reflexivity.
Defined.

Definition two_viewports : list Manager.action :=
  [Manager.AStart; Manager.ASubscribed; Manager.AResume; Manager.ASet (js "B"); Manager.AStart;
   Manager.ASubscribed; Manager.ACancel; Manager.AResume].

Lemma manager_no_leak_witness :
  exists s, Manager.run_actions two_viewports (Manager.new_manager (js "A")) = Some s /\
    Manager.live s = [] /\ Manager.session_live s = false.
Proof.
  destruct (Manager.run_actions two_viewports (Manager.new_manager (js "A"))) as [s|] eqn:E;
    [|vm_compute in E; discriminate E].
  exists s. split; [reflexivity|].
  destruct (manager_no_leak (js "A") s) as (_ & Hl & Hs & _).
  - apply (Manager.manager_perform_steps two_viewports). exact E.
  - vm_compute in E. injection E as <-. split; [apply Hl|apply Hs]; reflexivity.
Defined.
