(* ===== verification/ScopedSession.v ===== *)
(** * Scoped sessions ([packages/client/src/editor_scoped_session.ts])

    A handle owns a session, one viewport of it, the session model and the
    subscriptions, and is meant to give all of them back: when opening
    fails, when the viewport is exchanged, and when it is disposed.  The
    calls of a handle are sequences of calls of the server, each of which may
    be refused; [startSubscriptions] against [dispose] is a step relation,
    since the second may come while the first waits. *)

From stdpp Require Import relations.
From S2P Require Import Prelude SessionModel Subscriptions.

Open Scope jsm_scope.

(** ** The server's side *)

Record server := mkServer {
  sessions : list jsstring;
  viewports : list jsstring;
  served : nat                  (* calls so far *)
}.

(** What the server answers: which calls it refuses, the names it gives out,
    the size of the file. *)
Class ScopedServer := {
  refuses : nat -> option exn;
  session_name : nat -> jsstring;
  viewport_name : nat -> jsstring;
  computed_size : Z;
  session_name_inj n m : session_name n = session_name m -> n = m;
  viewport_name_inj n m : viewport_name n = viewport_name m -> n = m;
  viewport_name_nonempty n : viewport_name n <> []
}.

Section Scoped.
Context `{ScopedServer}.

Definition call {A} (work : server -> server * A) : M server A := fun sv =>
  let next := mkServer (sessions sv) (viewports sv) (S (served sv)) in
  match refuses (served sv) with
  | Some e => (next, Throw e)
  | None => let '(sv', a) := work sv in (mkServer (sessions sv') (viewports sv') (S (served sv)), Ok a)
  end.

Definition without (x : jsstring) (l : list jsstring) : list jsstring := filter (fun y => y <> x) l.

Definition createSession : M server jsstring := call (fun sv =>
  (mkServer (sessions sv ++ [session_name (served sv)]) (viewports sv) (served sv),
   session_name (served sv))).

Definition createViewport (session : jsstring) (offset capacity : Z) : M server jsstring := call (fun sv =>
  (mkServer (sessions sv) (viewports sv ++ [viewport_name (served sv)]) (served sv),
   viewport_name (served sv))).

Definition computedFileSize (session : jsstring) : M server Z := call (fun sv => (sv, computed_size)).

Definition destroySession (session : jsstring) : M server unit := call (fun sv =>
  (mkServer (without session (sessions sv)) (viewports sv) (served sv), tt)).

Definition destroyViewport (viewport : jsstring) : M server unit := call (fun sv =>
  (mkServer (sessions sv) (without viewport (viewports sv)) (served sv), tt)).

(** A subscription is opened by the server or refused. *)
Definition openStream : M server unit := call (fun sv => (sv, tt)).

(** [.catch(() => {})], and [try { ... } catch {}] *)
Definition ignoring {S} (m : M S unit) : M S unit := fun s => ((m s).1, Ok tt).

(** [try { m } catch (error) { h; throw error }] *)
Definition on_failure {S A} (m : M S A) (h : M S unit) : M S A := fun s =>
  match m s with
  | (s', Ok a) => (s', Ok a)
  | (s', Throw e) => match h s' with (s'', Ok _) => (s'', Throw e) | (s'', Throw e') => (s'', Throw e') end
  end.

(** ** The handle *)

(** The fields; the model's [sessionId] and [viewportId] are the handle's.
    [retired] records the managers the handle no longer refers to. *)
Record handle := mkHandle {
  h_model : model;
  subscriptions : option Manager.manager;
  disposed : bool;
  retired : list Manager.manager
}.

Definition on_server {S A} (m : M server A) : M (server * S) A := fun '(sv, x) =>
  let '(sv', r) := m sv in ((sv', x), r).

(** [openFile], with its local [viewportId] in the state. *)
Definition openFile (initialOffset : option Z) (capacity : Z) : M server handle := fun sv =>
  let body :=
    let* sessionId := on_server createSession in
    on_failure
      (let* fileSize := on_server (computedFileSize sessionId) in
       let* viewport := on_server (createViewport sessionId (default 0 initialOffset) capacity) in
       putM (fun '(sv, _) => (sv, viewport)) ;;;
       retM (mkHandle (new_model (mkOptions sessionId viewport fileSize (Some 0))) None false []))
      (let* viewport := getM snd in
       (if negb (length (viewport : jsstring) =? 0)%nat
        then on_server (ignoring (destroyViewport viewport)) else retM tt) ;;;
       on_server (ignoring (destroySession sessionId))) in
  let '((sv, _), r) := body (sv, []) in (sv, r).

Abbreviation world := (server * handle)%type.

Definition set_model (f : model -> model) : M world unit :=
  putM (fun '(sv, h) => (sv, mkHandle (f (h_model h)) (subscriptions h) (disposed h) (retired h))).

(** An update of a manager that nothing else is waiting for, to its end. *)
Definition run_update : M (server * Manager.manager) unit := fun '(sv, m) =>
  match Manager.start_update m with
  | None => ((sv, m), Ok tt)
  | Some m =>
      match Manager.current m with
      | None => ((sv, m), Ok tt)
      | Some _ =>
          match openStream sv with
          | (sv, Ok _) => ((sv, default m (m ← Manager.subscribed m; Manager.resume m)), Ok tt)
          | (sv, Throw e) => ((sv, default m (Manager.refused m)), Throw e)
          end
      end
  end.

(** [subscriptions?.setViewportId(viewportId)] *)
Definition setViewportId (v : jsstring) : M world unit := fun '(sv, h) =>
  match subscriptions h with
  | None => ((sv, h), Ok tt)
  | Some m =>
      let '((sv, m), r) := run_update (sv, Manager.queueViewportUpdate v m) in
      ((sv, mkHandle (h_model h) (Some m) (disposed h) (retired h)), r)
  end.

(** [manageSessionViewportSubscriptions], to its end: the manager if it is
    there, and the one that failed if it is not. *)
Definition manageSubscriptions (v : jsstring) : M (server * list Manager.manager) Manager.manager :=
  fun '(sv, failed) =>
  match openStream sv with
  | (sv, Throw e) => ((sv, failed), Throw e)
  | (sv, Ok _) =>
      match run_update (sv, Manager.new_manager v) with
      | ((sv, m), Ok _) => ((sv, failed), Ok m)
      | ((sv, m), Throw e) => ((sv, failed ++ [m]), Throw e)
      end
  end.

(** [startSubscriptions], for a time in which nothing else is called: the
    old manager is cancelled, and let go once the new one is there. *)
Definition startSubscriptions : M world unit := fun '(sv, h) =>
  if disposed h then ((sv, h), Throw (plain_error "Cannot subscribe a disposed scoped session"))
  else
    let old := Manager.cancel_manager <$> subscriptions h in
    match manageSubscriptions (viewportId (h_model h)) (sv, retired h) with
    | ((sv, gone), Ok m) => ((sv, mkHandle (h_model h) (Some m) false (gone ++ option_list old)), Ok tt)
    | ((sv, gone), Throw e) => ((sv, mkHandle (h_model h) old false gone), Throw e)
    end.

(** The handlers [startSubscriptions] installs, before the caller's. *)
Definition onSessionEvent (ev : EditorSessionEventLike) (h : handle) : handle * bool :=
  let '(m, stateChanged) := trackSessionEvent ev (h_model h) in
  (mkHandle m (subscriptions h) (disposed h) (retired h), stateChanged).

Definition onSessionError (h : handle) : handle :=
  if disposed h then h
  else mkHandle (rejectSyncWaiters (plain_error "Session event stream closed before sync completed")
    (h_model h)) (subscriptions h) (disposed h) (retired h).

Definition recreateViewport (offset capacity : Z) : M world jsstring :=
  let* gone := getM (fun '(_, h) => disposed h) in
  let* previousViewportId := getM (fun '(_, h) => viewportId (h_model h)) in
  if (gone : bool) then retM previousViewportId
  else
    let* session := getM (fun '(_, h) => sessionId (h_model h)) in
    let* nextViewportId := on_server (createViewport session offset capacity) in
    on_failure (setViewportId nextViewportId)
      (on_server (ignoring (destroyViewport nextViewportId))) ;;;
    set_model (updateViewportId nextViewportId) ;;;
    ignoring (on_server (destroyViewport previousViewportId)) ;;;
    retM nextViewportId.

Definition dispose_handle : M world unit :=
  let* gone := getM (fun '(_, h) => disposed h) in
  if (gone : bool) then retM tt
  else
    putM (fun '(sv, h) => (sv, mkHandle (dispose None (h_model h)) None true
      (retired h ++ option_list (Manager.cancel_manager <$> subscriptions h)))) ;;;
    let* viewport := getM (fun '(_, h) => viewportId (h_model h)) in
    ignoring (on_server (destroyViewport viewport)) ;;;
    let* session := getM (fun '(_, h) => sessionId (h_model h)) in
    ignoring (on_server (destroySession session)).
End Scoped.

(** ** What a handle owns *)

Abbreviation world := (server * handle)%type.

#[global] Arguments run_update : simpl never.
#[global] Arguments setViewportId : simpl never.
#[global] Arguments destroyViewport : simpl never.
#[global] Arguments without : simpl never.

Section Owns.
Context `{ScopedServer}.

(** The server gives every viewport a name of its own. *)
Definition server_ok (sv : server) : Prop :=
  Forall (fun v => exists k, (k < served sv)%nat /\ v = viewport_name k) (viewports sv).

Record quiet (m : Manager.manager) : Prop := mkQuiet {
  qt_inv : Manager.manager_inv m;
  qt_ready : Manager.stage m = Manager.Ready;
  qt_current : Manager.current m = None;
  qt_queued : Manager.queued m = []
}.

Record owned (w : world) : Prop := mkOwned {
  ow_server : server_ok w.1;
  ow_name : exists k, (k < served w.1)%nat /\ viewportId (h_model w.2) = viewport_name k;
  ow_manager m : subscriptions w.2 = Some m -> quiet m /\ disposed w.2 = false /\
    (Manager.cancelled m = false -> Manager.activeViewportId m = viewportId (h_model w.2));
  ow_retired : Forall (fun m => Manager.live m = [] /\ Manager.session_live m = false) (retired w.2)
}.

Lemma quiet_live m : quiet m -> Manager.live m = Manager.kept m.
Proof.
  intros [[Hl _ _ _ _ _ _ _ _] _ Hc _]. unfold Manager.opened_of in Hl. by rewrite Hc, app_nil_r in Hl.
Qed.

Lemma quiet_streams m : quiet m -> Manager.cancelled m = false ->
  exists id, Manager.live m = [id] /\ Manager.session_live m = true.
Proof.
  intros Hq Hc. pose proof (quiet_live m Hq) as Hl. destruct Hq as [[_ _ _ _ Hs _ _ Hst _] Hr _ _].
  rewrite Hr in Hst. destruct Hst as [id Hid]. unfold Manager.kept in Hl. rewrite Hc, Hid in Hl.
  exists id. split; [done|]. by rewrite Hs, Hc, Hr.
Qed.

Lemma cancel_quiet m : quiet m -> quiet (Manager.cancel_manager m) /\
  Manager.live (Manager.cancel_manager m) = [] /\ Manager.session_live (Manager.cancel_manager m) = false /\
  Manager.cancelled (Manager.cancel_manager m) = true.
Proof.
  intros [Hi Hr Hc Hq].
  assert (Hcan : Manager.cancelled (Manager.cancel_manager m) = true).
  { unfold Manager.cancel_manager. by destruct (Manager.cancelled m) eqn:E. }
  assert (Hqt : quiet (Manager.cancel_manager m)).
  { constructor; [by apply Manager.cancel_inv|..]; unfold Manager.cancel_manager;
      by destruct (Manager.cancelled m). }
  split; [done|]. split; [by rewrite (quiet_live _ Hqt); unfold Manager.kept; rewrite Hcan|].
  split; [|done]. destruct Hqt as [[_ _ _ _ Hs _ _ _ _] _ _ _]. by rewrite Hs, Hcan.
Qed.

(** An update of a quiet manager to a viewport that is not active. *)
Lemma run_update_spec sv m v :
  quiet m -> Manager.already_active v m = false ->
  let '((sv', m'), r) := run_update (sv, Manager.queueViewportUpdate v m) in
  quiet m' /\ sessions sv' = sessions sv /\ viewports sv' = viewports sv /\
  (served sv <= served sv' <= S (served sv))%nat /\ Manager.cancelled m' = Manager.cancelled m /\
  match r with
  | Ok _ => Manager.cancelled m = false -> Manager.activeViewportId m' = v
  | Throw _ => Manager.cancelled m = false /\
      Manager.activeViewportId m' = Manager.activeViewportId m /\ Manager.live m' = Manager.live m
  end.
Proof.
  intros [Hi Hr Hc Hq] Ha. pose proof (Manager.set_inv v m Hr Hi) as Hi1.
  assert (Hm1 : Manager.stage (Manager.queueViewportUpdate v m) = Manager.Ready /\
    Manager.current (Manager.queueViewportUpdate v m) = None /\
    Manager.queued (Manager.queueViewportUpdate v m) = [v] /\
    Manager.cancelled (Manager.queueViewportUpdate v m) = Manager.cancelled m /\
    Manager.activeViewportId (Manager.queueViewportUpdate v m) = Manager.activeViewportId m /\
    Manager.live (Manager.queueViewportUpdate v m) = Manager.live m).
  { unfold Manager.queueViewportUpdate. rewrite Ha. cbn. by rewrite Hq. }
  set (m1 := Manager.queueViewportUpdate v m) in *. clearbody m1.
  destruct Hm1 as (Hr1 & Hc1 & Hq1 & Hx1 & Ha1 & Hl1).
  pose proof (Manager.start_inv m1) as Hs. unfold run_update, Manager.start_update in *.
  rewrite Hc1, Hq1 in *. destruct (Manager.cancelled m1) eqn:Ex.
  - specialize (Hs _ eq_refl Hi1). cbn. rewrite <- Hx1. split; [by constructor|]. split_and!; try done; lia.
  - specialize (Hs _ eq_refl Hi1). cbn [Manager.current]. unfold openStream, call.
    set (m2 := Manager.mkManager _ _ _ _ _ _ _ _ _ _ _ _) in *.
    destruct (refuses (served sv)) as [e|].
    + pose proof (Manager.refused_inv m2 _ eq_refl Hs) as Hf. unfold Manager.refused in *. cbn in Hf |- *.
      rewrite Hr1 in *. cbn in Hf |- *. split; [by constructor|]. split_and!; try done; try lia; congruence.
    + pose proof (Manager.subscribed_inv m2 _ eq_refl Hs) as Hb.
      pose proof (fun s' E => Manager.resume_inv _ s' E Hb) as Hf. specialize (Hf _ eq_refl).
      unfold Manager.subscribed, Manager.resume in *. cbn in Hf |- *.
      split; [by constructor|]. split_and!; try done; try lia; congruence.
Qed.

Lemma server_ok_later sv sv' :
  viewports sv' = viewports sv -> (served sv <= served sv')%nat -> server_ok sv -> server_ok sv'.
Proof.
  unfold server_ok. intros -> Hs Hok. eapply Forall_impl; [done|]. intros v (k & Hk & ->). exists k.
  split; [lia|done].
Qed.

Lemma server_ok_without v sv sv' :
  viewports sv' = without v (viewports sv) -> (served sv <= served sv')%nat -> server_ok sv -> server_ok sv'.
Proof.
  unfold server_ok. intros -> Hs Hok. apply Forall_forall. intros x [_ Hx]%list_elem_of_filter.
  rewrite Forall_forall in Hok. destruct (Hok x Hx) as (k & Hk & ->). exists k. split; [lia|done].
Qed.

Lemma server_ok_created sv :
  server_ok sv -> server_ok (mkServer (sessions sv) (viewports sv ++ [viewport_name (served sv)]) (S (served sv))).
Proof.
  intros Hok. apply Forall_app. split; cbn.
  - eapply Forall_impl; [done|]. intros v (k & Hk & ->). exists k. split; [lia|done].
  - constructor; [|done]. exists (served sv). split; [lia|done].
Qed.

Lemma fresh_name sv : server_ok sv -> viewport_name (served sv) ∉ viewports sv.
Proof.
  unfold server_ok. rewrite Forall_forall. intros Hok Hin.
  destruct (Hok _ Hin) as (k & Hk & E). apply viewport_name_inj in E. lia.
Qed.

Lemma without_new v l : v ∉ l -> without v (l ++ [v]) = l.
Proof.
  intros Hv. unfold without. rewrite filter_app, (filter_cons_False _ v []) by tauto.
  rewrite filter_nil, app_nil_r. induction l as [|x l IH]; [done|].
  apply not_elem_of_cons in Hv as [Hx Hv]. rewrite filter_cons_True by done. by rewrite IH.
Qed.

(** A call on the server, whose failure is ignored. *)
Lemma destroy_viewport_spec v sv :
  let '(sv', r) := destroyViewport v sv in
  served sv' = S (served sv) /\ sessions sv' = sessions sv /\
  viewports sv' = match refuses (served sv) with None => without v (viewports sv) | _ => viewports sv end.
Proof. unfold destroyViewport, call. by destruct (refuses (served sv)). Qed.

(** What [recreateViewport] does to a handle that is in use. *)
Definition swapped (w w' : world) (r : result jsstring) : Prop :=
  let old := viewportId (h_model w.2) in
  match r with
  | Ok v =>
      viewportId (h_model w'.2) = v /\ (v ∉ viewports w.1) /\ v ∈ viewports w'.1 /\
      (refuses (pred (served w'.1)) = None ->
         viewports w'.1 = without old (viewports w.1 ++ [v])) /\
      (forall m m', subscriptions w.2 = Some m -> subscriptions w'.2 = Some m' ->
         Manager.cancelled m = false -> Manager.activeViewportId m' = v)
  | Throw _ =>
      viewportId (h_model w'.2) = old /\
      (viewports w'.1 = viewports w.1 \/ refuses (pred (served w'.1)) <> None) /\
      (forall m m', subscriptions w.2 = Some m -> subscriptions w'.2 = Some m' ->
         Manager.cancelled m' = Manager.cancelled m /\
         Manager.activeViewportId m' = Manager.activeViewportId m /\ Manager.live m' = Manager.live m)
  end.

Lemma set_viewport_spec sv h k :
  owned (sv, h) -> (forall j, viewportId (h_model h) = viewport_name j -> j <> k) ->
  let '((sv', h'), r) := setViewportId (viewport_name k) (sv, h) in
  sessions sv' = sessions sv /\ viewports sv' = viewports sv /\ (served sv <= served sv')%nat /\
  h_model h' = h_model h /\ disposed h' = disposed h /\ retired h' = retired h /\
  match subscriptions h with
  | None => subscriptions h' = None /\ r = Ok tt
  | Some m => exists m', subscriptions h' = Some m' /\ quiet m' /\
      Manager.cancelled m' = Manager.cancelled m /\
      match r with
      | Ok _ => Manager.cancelled m = false -> Manager.activeViewportId m' = viewport_name k
      | Throw _ => Manager.activeViewportId m' = Manager.activeViewportId m /\
          Manager.live m' = Manager.live m
      end
  end.
Proof.
  intros [Hs Hn Hm Hr] Hk. cbn [fst snd] in *. unfold setViewportId.
  destruct (subscriptions h) as [m|] eqn:Es; [|by rewrite Es].
  destruct (Hm m eq_refl) as (Hq & Hd & Ha).
  assert (Hact : Manager.already_active (viewport_name k) m = false).
  { unfold Manager.already_active. destruct (Manager.cancelled m); [done|]. specialize (Ha eq_refl).
    cbn. apply andb_false_iff. right. apply bool_decide_eq_false. intros E. rewrite E in Ha.
    by apply (Hk k). }
  pose proof (run_update_spec sv m _ Hq Hact) as Hu.
  destruct (run_update _) as [[sv' m'] r]. destruct Hu as (Hq' & ? & ? & ? & Hc & Ho). cbn.
  do 2 (split; [done|]). split; [lia|]. do 3 (split; [done|]). exists m'. do 3 (split; [done|]).
  destruct r; [done|]. by destruct Ho as (_ & ? & ?).
Qed.

Definition created (sv : server) : server :=
  mkServer (sessions sv) (viewports sv ++ [viewport_name (served sv)]) (S (served sv)).

Lemma create_spec session offset capacity sv :
  createViewport session offset capacity sv =
  match refuses (served sv) with
  | Some e => (mkServer (sessions sv) (viewports sv) (S (served sv)), Throw e)
  | None => (created sv, Ok (viewport_name (served sv)))
  end.
Proof. unfold createViewport, call. by destruct (refuses (served sv)). Qed.

Lemma destroyed_ok v sv sv' r : destroyViewport v sv = (sv', r) -> server_ok sv -> server_ok sv'.
Proof.
  intros E Hok. pose proof (destroy_viewport_spec v sv) as Hd. rewrite E in Hd.
  destruct Hd as (Hn & _ & Hv). destruct (refuses (served sv));
    [apply (server_ok_later sv)|apply (server_ok_without v sv)]; done || lia.
Qed.

(** The two ends of [recreateViewport], after the new viewport was made. *)
Lemma recreate_done sv h k sv2 h2 :
  owned (sv, h) -> refuses (served sv) = None ->
  viewportId (h_model h) = viewport_name k -> (k < served sv)%nat ->
  setViewportId (viewport_name (served sv)) (created sv, h) = ((sv2, h2), Ok tt) ->
  let sv3 := (destroyViewport (viewportId (h_model h)) sv2).1 in
  let w' := (sv3, mkHandle (updateViewportId (viewport_name (served sv)) (h_model h2)) (subscriptions h2)
    (disposed h2) (retired h2)) in
  owned w' /\ disposed w'.2 = disposed h /\ swapped (sv, h) w' (Ok (viewport_name (served sv))).
Proof.
  intros Ho Er Hname Hk Hset. pose proof (fresh_name sv (ow_server _ Ho)) as Hfresh.
  set (v := viewport_name (served sv)) in *.
  assert (Hne : forall j, viewportId (h_model h) = viewport_name j -> j <> served sv).
  { intros j Hj ->. rewrite Hname in Hj. apply viewport_name_inj in Hj. lia. }
  destruct Ho as [Hs _ Hm Hr]. cbn [fst snd] in *.
  assert (Ho1 : owned (created sv, h)).
  { constructor; cbn; [by apply server_ok_created|exists k; split; [lia|done]|done|done]. }
  pose proof (set_viewport_spec (created sv) h (served sv) Ho1 Hne) as Hsp. fold v in Hsp.
  rewrite Hset in Hsp. destruct Hsp as (_ & Hv2 & Hn2 & Hmod & Hdis & Hret & Hsub). cbn in Hn2, Hv2. fold v in Hv2.
  pose proof (destroy_viewport_spec (viewportId (h_model h)) sv2) as Hdv.
  destruct (destroyViewport (viewportId (h_model h)) sv2) as [sv3 r3] eqn:Ed.
  destruct Hdv as (Hn3 & _ & Hv3). cbn [fst].
  assert (Hok3 : server_ok sv3).
  { eapply destroyed_ok; [done|]. apply (server_ok_later (created sv)); [done|cbn; lia|apply (ow_server _ Ho1)]. }
  split; [|split; [done|]].
  - constructor; cbn; [done|exists (served sv); split; [lia|done]| |by rewrite Hret].
    intros m Em. destruct (subscriptions h) as [m0|] eqn:E0; [|destruct Hsub as [Hsub _]; congruence].
    destruct Hsub as (m' & Em' & Hq' & Hc' & Ha'). rewrite Em in Em'. injection Em' as <-.
    destruct (Hm m0 eq_refl) as (_ & Hd & _). split; [done|]. split; [congruence|]. intros Hcan.
    apply Ha'. congruence.
  - unfold swapped. cbn. split_and!; [done|done| | |].
    + rewrite Hv3. destruct (refuses (served sv2)); [rewrite Hv2; apply elem_of_app; right; left|].
      apply list_elem_of_filter. split; [intros E; symmetry in E; by apply Hne in E|].
      rewrite Hv2. apply elem_of_app. right. left.
    + rewrite Hn3. cbn. intros Hno. by rewrite Hno, Hv2 in Hv3.
    + intros m m' Em Em' Hcan. rewrite Em in Hsub. destruct Hsub as (m2 & Em2 & _ & _ & Ha').
      rewrite Em' in Em2. injection Em2 as <-. by apply Ha'.
Qed.

Lemma recreate_failed sv h k sv2 h2 e :
  owned (sv, h) -> refuses (served sv) = None ->
  viewportId (h_model h) = viewport_name k -> (k < served sv)%nat ->
  setViewportId (viewport_name (served sv)) (created sv, h) = ((sv2, h2), Throw e) ->
  let w' := ((destroyViewport (viewport_name (served sv)) sv2).1, h2) in
  owned w' /\ disposed w'.2 = disposed h /\ swapped (sv, h) w' (Throw e).
Proof.
  intros Ho Er Hname Hk Hset. pose proof (fresh_name sv (ow_server _ Ho)) as Hfresh.
  set (v := viewport_name (served sv)) in *.
  assert (Hne : forall j, viewportId (h_model h) = viewport_name j -> j <> served sv).
  { intros j Hj ->. rewrite Hname in Hj. apply viewport_name_inj in Hj. lia. }
  destruct Ho as [Hs _ Hm Hr]. cbn [fst snd] in *.
  assert (Ho1 : owned (created sv, h)).
  { constructor; cbn; [by apply server_ok_created|exists k; split; [lia|done]|done|done]. }
  pose proof (set_viewport_spec (created sv) h (served sv) Ho1 Hne) as Hsp. fold v in Hsp.
  rewrite Hset in Hsp. destruct Hsp as (_ & Hv2 & Hn2 & Hmod & Hdis & Hret & Hsub). cbn in Hn2, Hv2. fold v in Hv2.
  pose proof (destroy_viewport_spec v sv2) as Hdv.
  destruct (destroyViewport v sv2) as [sv3 r3] eqn:Ed. destruct Hdv as (Hn3 & _ & Hv3). cbn [fst].
  assert (Hok3 : server_ok sv3).
  { eapply destroyed_ok; [done|]. apply (server_ok_later (created sv)); [done|cbn; lia|apply (ow_server _ Ho1)]. }
  destruct (subscriptions h) as [m0|] eqn:E0; [|by destruct Hsub].
  destruct Hsub as (m' & Em' & Hq' & Hc' & Ha' & Hl'). destruct (Hm m0 eq_refl) as (_ & Hd & Hact).
  split; [|split; [done|]].
  - constructor; cbn; [done|exists k; split; [lia|by rewrite Hmod]| |by rewrite Hret].
    intros m Em. rewrite Em in Em'. injection Em' as <-. split; [done|]. split; [congruence|].
    intros Hcan. rewrite Ha', Hmod. apply Hact. congruence.
  - unfold swapped. cbn. rewrite Hmod, Hn3. cbn. split_and!; [done| |].
    + destruct (refuses (served sv2)); [by right|]. left. rewrite Hv3, Hv2. by apply without_new.
    + intros m m1 Em Em1. rewrite E0 in Em. injection Em as <-. rewrite Em1 in Em'. by injection Em' as <-.
Qed.

Lemma recreate_spec offset capacity sv h :
  owned (sv, h) -> disposed h = false ->
  let '(w', r) := recreateViewport offset capacity (sv, h) in
  owned w' /\ disposed w'.2 = false /\ swapped (sv, h) w' r.
Proof.
  intros Ho Hd. unfold recreateViewport. unfold bindM at 1, getM at 1. rewrite Hd.
  unfold bindM at 1, getM at 1. unfold bindM at 1, getM at 1. unfold bindM at 1, on_server at 1.
  rewrite create_spec. destruct (ow_name _ Ho) as (k & Hk & Hname). cbn [fst snd] in *.
  destruct (refuses (served sv)) as [e|] eqn:Er.
  - destruct Ho as [Hs _ Hm Hr]. split; [|split; [done|]].
    + constructor; cbn; [by apply (server_ok_later sv); cbn; [|lia|]|exists k; split; [lia|done]|done|done].
    + cbn. split_and!; [done|by left|]. intros m m' -> [= ->]. done.
  - unfold bindM at 1, on_failure at 1.
    destruct (setViewportId (viewport_name (served sv)) (created sv, h)) as [[sv2 h2] [[]|e]] eqn:Eset.
    + pose proof (recreate_done sv h k sv2 h2 Ho Er Hname Hk Eset) as Hdone. cbv zeta in Hdone. rewrite Hd in Hdone.
      unfold bindM at 1, set_model at 1, putM at 1. unfold bindM at 1, ignoring at 1, on_server at 1.
      by destruct (destroyViewport (viewportId (h_model h)) sv2) as [sv3 r3].
    + pose proof (recreate_failed sv h k sv2 h2 e Ho Er Hname Hk Eset) as Hdone. cbv zeta in Hdone. rewrite Hd in Hdone.
      unfold on_server at 1, ignoring.
      by destruct (destroyViewport (viewport_name (served sv)) sv2) as [sv3 r3].
Qed.

(** *** Opening *)

Definition sessions_ok (sv : server) : Prop :=
  Forall (fun s => exists k, (k < served sv)%nat /\ s = session_name k) (sessions sv).

Lemma fresh_session sv : sessions_ok sv -> session_name (served sv) ∉ sessions sv.
Proof.
  unfold sessions_ok. rewrite Forall_forall. intros Hok Hin.
  destruct (Hok _ Hin) as (k & Hk & E). apply session_name_inj in E. lia.
Qed.

(** A handle on one new session and one new viewport, or nothing that is
    left behind unless the server refused to destroy it. *)
Definition opened_or_nothing (sv sv' : server) (r : result handle) : Prop :=
  match r with
  | Ok h =>
      sessions sv' = sessions sv ++ [sessionId (h_model h)] /\
      viewports sv' = viewports sv ++ [viewportId (h_model h)] /\
      fileSize (h_model h) = computed_size /\ disposed h = false /\ subscriptions h = None /\ owned (sv', h)
  | Throw _ =>
      viewports sv' = viewports sv /\
      (sessions sv' = sessions sv \/ refuses (pred (served sv')) <> None)
  end.

Lemma open_spec offset capacity sv :
  server_ok sv -> sessions_ok sv ->
  let '(sv', r) := openFile offset capacity sv in opened_or_nothing sv sv' r.
Proof.
  intros Hs Hss. pose proof (fresh_session sv Hss) as Hf. unfold openFile, bindM at 1, on_server at 1, createSession, call.
  destruct (refuses (served sv)) as [e|] eqn:E0; [by split; [|left]|].
  unfold on_failure, bindM at 1, on_server at 1, computedFileSize, call. cbn [served].
  assert (Hclean : forall sv2, viewports sv2 = viewports sv ->
    sessions sv2 = sessions sv ++ [session_name (served sv)] -> forall e,
    opened_or_nothing sv (destroySession (session_name (served sv)) sv2).1 (Throw e)).
  { intros sv2 Ev Es e. unfold destroySession, call. destruct (refuses (served sv2)) as [e'|] eqn:E2; cbn.
    - split; [done|]. right. by rewrite E2.
    - split; [done|]. left. rewrite Es. by apply without_new. }
  destruct (refuses (S (served sv))) as [e|] eqn:E1.
  - unfold bindM, getM, retM. cbn [snd length Nat.eqb negb].
    specialize (Hclean (mkServer (sessions sv ++ [session_name (served sv)]) (viewports sv)
      (S (S (served sv)))) eq_refl eq_refl e).
    unfold on_server, ignoring. cbn [sessions viewports] in *.
    by destruct (destroySession _ _) as [sv3 r3].
  - unfold bindM at 1, on_server at 1. rewrite create_spec. cbn [sessions viewports served].
    destruct (refuses (S (S (served sv)))) as [e|] eqn:E2.
    + unfold bindM, getM, retM. cbn [snd length Nat.eqb negb].
      specialize (Hclean (mkServer (sessions sv ++ [session_name (served sv)]) (viewports sv)
        (S (S (S (served sv))))) eq_refl eq_refl e).
      unfold on_server, ignoring. cbn [sessions viewports] in *.
      by destruct (destroySession _ _) as [sv3 r3].
    + unfold bindM, putM, retM. cbn. split_and!; try done. constructor; cbn; [|eexists; split; [|done]; lia|done|done].
      apply Forall_app. split; [|constructor; [eexists; split; [|done]; cbn; lia|done]].
      eapply Forall_impl; [exact Hs|]. cbn. intros v (k & Hk & ->). exists k. split; [lia|done].
Qed.

(** *** Subscribing *)

Lemma first_update sv v :
  let '((sv', m'), r) := run_update (sv, Manager.new_manager v) in
  sessions sv' = sessions sv /\ viewports sv' = viewports sv /\ (served sv <= served sv')%nat /\
  match r with
  | Ok _ => quiet m' /\ Manager.cancelled m' = false /\ Manager.activeViewportId m' = v
  | Throw _ => Manager.live m' = [] /\ Manager.session_live m' = false
  end.
Proof.
  unfold run_update, openStream, call. cbn. destruct (refuses (served sv)) as [e|]; cbn.
  - split_and!; try done; lia.
  - split_and!; try done; try lia. constructor; try done.
    pose proof (Manager.start_inv (Manager.new_manager v) _ eq_refl (Manager.new_manager_inv v)) as H1.
    pose proof (fun s' E => Manager.subscribed_inv _ s' E H1) as H2. specialize (H2 _ eq_refl).
    pose proof (fun s' E => Manager.resume_inv _ s' E H2) as H3. by specialize (H3 _ eq_refl).
Qed.

Lemma start_spec sv h :
  owned (sv, h) -> disposed h = false ->
  let '((sv', h'), r) := startSubscriptions (sv, h) in
  owned (sv', h') /\ h_model h' = h_model h /\
  sessions sv' = sessions sv /\ viewports sv' = viewports sv /\
  match r with
  | Ok _ => exists m id, subscriptions h' = Some m /\ Manager.live m = [id] /\
      Manager.session_live m = true /\ Manager.activeViewportId m = viewportId (h_model h)
  | Throw _ => forall m, subscriptions h' = Some m -> Manager.live m = [] /\ Manager.session_live m = false
  end.
Proof.
  intros [Hs (k & Hk & Hname) Hm Hr] Hd. cbn [fst snd] in *. unfold startSubscriptions. rewrite Hd.
  assert (Hold : forall m, Manager.cancel_manager <$> subscriptions h = Some m ->
    quiet m /\ Manager.live m = [] /\ Manager.session_live m = false /\ Manager.cancelled m = true).
  { intros m Em. apply fmap_Some in Em as (m0 & E0 & ->). destruct (Hm m0 E0) as (Hq & _). by apply cancel_quiet. }
  assert (Hopen : sessions (openStream sv).1 = sessions sv /\ viewports (openStream sv).1 = viewports sv /\
    served (openStream sv).1 = S (served sv)).
  { unfold openStream, call. by destruct (refuses (served sv)). }
  unfold manageSubscriptions. destruct (openStream sv) as [sv1 [u|e]]; cbn [fst] in Hopen;
    destruct Hopen as (Hss & Hvs & Hn).
  - pose proof (first_update sv1 (viewportId (h_model h))) as Hf.
    destruct (run_update _) as [[sv2 m] [u'|e]]; destruct Hf as (Hs2 & Hv2 & Hn2 & Hr2).
    + destruct Hr2 as (Hq & Hc & Ha). destruct (quiet_streams m Hq Hc) as (id & Hl & Hsl).
      split; [|split_and!; [done|congruence|congruence|by exists m, id]].
      constructor; cbn; [apply (server_ok_later sv); [congruence|lia|done]|exists k; split; [lia|done]| |].
      * intros m' [= <-]. done.
      * apply Forall_app. split; [done|]. destruct (Manager.cancel_manager <$> subscriptions h) as [m0|] eqn:E0;
          [|constructor]. constructor; [|constructor]. destruct (Hold m0 eq_refl) as (_ & ? & ? & _). done.
    + split; [|split_and!; [done|congruence|congruence|]].
      * constructor; cbn; [apply (server_ok_later sv); [congruence|lia|done]|exists k; split; [lia|done]| |].
        -- intros m' Em. destruct (Hold m' Em) as (? & _ & _ & ?). split_and!; try done. congruence.
        -- apply Forall_app. split; [done|]. by constructor.
      * intros m' Em. destruct (Hold m' Em) as (_ & ? & ? & _). done.
  - split; [|split_and!; [done|congruence|congruence|]].
    + constructor; cbn; [apply (server_ok_later sv); [congruence|lia|done]|exists k; split; [lia|done]| |done].
      intros m' Em. destruct (Hold m' Em) as (? & _ & _ & ?). split_and!; try done. congruence.
    + intros m' Em. destruct (Hold m' Em) as (_ & ? & ? & _). done.
Qed.

(** *** Disposing *)

Lemma dispose_fields m :
  viewportId (dispose None m) = viewportId m /\ sessionId (dispose None m) = sessionId m /\
  waiters (dispose None m) = [].
Proof. unfold dispose, rejectSyncWaiters. by rewrite reject_loop_finish, finish_fields. Qed.

Lemma dispose_spec sv h :
  owned (sv, h) -> disposed h = false ->
  let '((sv', h'), r) := dispose_handle (sv, h) in
  r = Ok tt /\ disposed h' = true /\ subscriptions h' = None /\ waiters (h_model h') = [] /\
  Forall (fun m => Manager.live m = [] /\ Manager.session_live m = false) (retired h') /\
  (refuses (served sv) = None -> viewports sv' = without (viewportId (h_model h)) (viewports sv)) /\
  (refuses (S (served sv)) = None -> sessions sv' = without (sessionId (h_model h)) (sessions sv)) /\
  dispose_handle (sv', h') = ((sv', h'), Ok tt).
Proof.
  intros [Hs _ Hm Hr] Hd. cbn [fst snd] in *. destruct (dispose_fields (h_model h)) as (Hv & Hsid & Hw).
  assert (Hagain : forall sv' h', disposed h' = true -> dispose_handle (sv', h') = ((sv', h'), Ok tt)).
  { intros sv' h' E. unfold dispose_handle, bindM, getM. by rewrite E. }
  unfold dispose_handle at 1. unfold bindM, getM, putM, ignoring, on_server. rewrite Hd. cbn [h_model].
  rewrite Hv. pose proof (destroy_viewport_spec (viewportId (h_model h)) sv) as Hdv.
  destruct (destroyViewport (viewportId (h_model h)) sv) as [sv1 r1]. destruct Hdv as (Hn1 & Hs1 & Hv1).
  cbn [fst snd h_model]. rewrite Hsid. unfold destroySession, call. rewrite Hn1.
  assert (Hret : Forall (fun m => Manager.live m = [] /\ Manager.session_live m = false)
    (retired h ++ option_list (Manager.cancel_manager <$> subscriptions h))).
  { apply Forall_app. split; [done|]. destruct (subscriptions h) as [m|]; [|constructor].
    constructor; [|constructor]. destruct (Hm m eq_refl) as (Hq & _). apply cancel_quiet in Hq. tauto. }
  destruct (refuses (S (served sv))) as [e|]; cbn; split_and!; try done;
    intros E; rewrite ?E in Hv1; by rewrite ?Hv1, ?Hs1.
Qed.
End Owns.

(** ** [startSubscriptions] while something else is called

    The part of the handle that matters, with the calls of
    [startSubscriptions] that wait for their manager in [starting] and the
    managers that are not cancelled in [open_managers]. *)

Module Starting.
Record state := mkState {
  gone : bool;                  (* disposed *)
  manager : option nat;         (* subscriptions *)
  starting : list nat;
  open_managers : list nat;
  next_id : nat
}.

Definition new_state : state := mkState false None [] [] 0.

Definition cancelling (id : option nat) (ids : list nat) : list nat :=
  match id with Some i => filter (fun j => j <> i) ids | None => ids end.

(** Up to the [await]. *)
Definition begin_start (s : state) : option state :=
  if gone s then None
  else Some (mkState false (manager s) (starting s ++ [next_id s])
    (cancelling (manager s) (open_managers s)) (S (next_id s))).

(** The manager is there: it is assigned, whatever has happened since. *)
Definition finish_start (id : nat) (s : state) : option state :=
  if bool_decide (id ∈ starting s)
  then Some (mkState (gone s) (Some id) (filter (fun j => j <> id) (starting s)) (open_managers s ++ [id])
    (next_id s))
  else None.

Definition fail_start (id : nat) (s : state) : option state :=
  if bool_decide (id ∈ starting s)
  then Some (mkState (gone s) (manager s) (filter (fun j => j <> id) (starting s)) (open_managers s)
    (next_id s))
  else None.

Definition dispose_start (s : state) : state :=
  if gone s then s
  else mkState true None (starting s) (cancelling (manager s) (open_managers s)) (next_id s).

Inductive step : state -> state -> Prop :=
  | StepBegin s s' : begin_start s = Some s' -> step s s'
  | StepFinish id s s' : finish_start id s = Some s' -> step s s'
  | StepFail id s s' : fail_start id s = Some s' -> step s s'
  | StepDispose s : step s (dispose_start s).

(** When every call of [startSubscriptions] is waited for before the next
    call, nothing leaks. *)
Inductive sequential : state -> Prop :=
  | SeqNew : sequential new_state
  | SeqStart s s1 s2 : sequential s -> begin_start s = Some s1 ->
      finish_start (next_id s) s1 = Some s2 -> sequential s2
  | SeqFail s s1 s2 : sequential s -> begin_start s = Some s1 ->
      fail_start (next_id s) s1 = Some s2 -> sequential s2
  | SeqDispose s : sequential s -> sequential (dispose_start s).

(** At most the assigned manager is open. *)
Record tidy (s : state) : Prop := mkTidy {
  td_starting : starting s = [];
  td_open : open_managers s = [] \/ (gone s = false /\ open_managers s = option_list (manager s))
}.

Lemma filter_one (i : nat) : filter (fun j => j <> i) [i] = [].
Proof. rewrite filter_cons_False by tauto. done. Qed.

Lemma cancelling_own id l : l = [] \/ l = option_list id -> cancelling id l = [].
Proof. intros [E|E]; subst l; destruct id as [i|]; try done. apply (filter_one i). Qed.

Lemma sequential_tidy s : sequential s -> tidy s.
Proof.
  induction 1 as [|s s1 s2 _ [Hs Ho] Hb Hf|s s1 s2 _ [Hs Ho] Hb Hf|s _ [Hs Ho]].
  - by constructor; [|left].
  - unfold begin_start in Hb. destruct (gone s) eqn:Eg; [done|]. injection Hb as <-.
    unfold finish_start in Hf. cbn in Hf. rewrite Hs in Hf. cbn [app] in Hf. rewrite filter_one in Hf.
    rewrite cancelling_own in Hf by (destruct Ho as [?|[_ ?]]; auto).
    case_bool_decide; [|done]. injection Hf as <-. constructor; cbn; [done|by right].
  - unfold begin_start in Hb. destruct (gone s) eqn:Eg; [done|]. injection Hb as <-.
    unfold fail_start in Hf. cbn in Hf. rewrite Hs in Hf. cbn [app] in Hf. rewrite filter_one in Hf.
    rewrite cancelling_own in Hf by (destruct Ho as [?|[_ ?]]; auto).
    case_bool_decide; [|done]. injection Hf as <-. constructor; cbn; [done|by left].
  - unfold dispose_start. destruct (gone s) eqn:Eg.
    + constructor; [done|]. destruct Ho as [?|[? _]]; [by left|congruence].
    + constructor; cbn; [done|]. left. apply cancelling_own. destruct Ho as [?|[_ ?]]; auto.
Qed.

Lemma disposed_stays s s' :
  rtc step s s' -> gone s = true -> starting s = [] -> open_managers s' = open_managers s.
Proof.
  induction 1 as [|s s1 s' Hs _ IH]; [done|]. intros Hg Hn.
  destruct Hs as [s s1 Hb|id s s1 Hf|id s s1 Hf|s].
  - unfold begin_start in Hb. by rewrite Hg in Hb.
  - unfold finish_start in Hf. rewrite bool_decide_false in Hf; [done|]. rewrite Hn. apply not_elem_of_nil.
  - unfold fail_start in Hf. rewrite bool_decide_false in Hf; [done|]. rewrite Hn. apply not_elem_of_nil.
  - unfold dispose_start in *. rewrite Hg in *. by apply IH.
Qed.
End Starting.

(** ** Theorems *)

(** Opening a file gives a handle on one new session with one new
    viewport, or nothing: when any of the calls is refused, no viewport is
    left, and no session unless the server refused to destroy it. *)
Theorem open_file_all_or_nothing `{ScopedServer} offset capacity sv :
  server_ok sv -> sessions_ok sv ->
  let '(sv', r) := openFile offset capacity sv in opened_or_nothing sv sv' r.
Proof. apply open_spec. Qed.

(** Exchanging the viewport of a handle is a swap or changes nothing.
    When it succeeds the handle, its model and its live subscription are on
    the new viewport and the old one is destroyed (if the server does not
    refuse that).  When it throws, the handle keeps its viewport and its
    subscription, which is still open and on the same viewport, and the new
    viewport is destroyed.  Either way the handle owns what it did before:
    at most one subscription, and none that it has let go is open. *)
Theorem recreate_viewport_swaps `{ScopedServer} offset capacity sv h :
  owned (sv, h) -> disposed h = false ->
  let '(w', r) := recreateViewport offset capacity (sv, h) in
  owned w' /\ disposed w'.2 = false /\ swapped (sv, h) w' r.
Proof. apply recreate_spec. Qed.

(** Subscribing again replaces the subscriptions: the old ones are
    cancelled, whether the new ones can be opened or not, and the new ones
    are on the handle's viewport. *)
Theorem start_subscriptions_replaces `{ScopedServer} sv h :
  owned (sv, h) -> disposed h = false ->
  let '((sv', h'), r) := startSubscriptions (sv, h) in
  owned (sv', h') /\ h_model h' = h_model h /\
  sessions sv' = sessions sv /\ viewports sv' = viewports sv /\
  match r with
  | Ok _ => exists m id, subscriptions h' = Some m /\ Manager.live m = [id] /\
      Manager.session_live m = true /\ Manager.activeViewportId m = viewportId (h_model h)
  | Throw _ => forall m, subscriptions h' = Some m -> Manager.live m = [] /\ Manager.session_live m = false
  end.
Proof. apply start_spec. Qed.

(** Disposing of a handle never throws and leaves nothing: every
    subscription it ever had is cancelled, no waiter of its model waits, the
    viewport and the session are destroyed as far as the server lets it, and
    a second call does nothing. *)
Theorem dispose_releases `{ScopedServer} sv h :
  owned (sv, h) -> disposed h = false ->
  let '((sv', h'), r) := dispose_handle (sv, h) in
  r = Ok tt /\ disposed h' = true /\ subscriptions h' = None /\ waiters (h_model h') = [] /\
  Forall (fun m => Manager.live m = [] /\ Manager.session_live m = false) (retired h') /\
  (refuses (served sv) = None -> viewports sv' = without (viewportId (h_model h)) (viewports sv)) /\
  (refuses (S (served sv)) = None -> sessions sv' = without (sessionId (h_model h)) (sessions sv)) /\
  dispose_handle (sv', h') = ((sv', h'), Ok tt).
Proof. apply dispose_spec. Qed.

(** Subscriptions that are opened while the handle is disposed of
    stay open for good: the handle is disposed, no call is under way, and in
    every state that can follow the manager is still open.  (When every call
    of [startSubscriptions] is waited for first, at most the assigned manager
    is open, and none after [dispose].) *)
Theorem start_during_dispose_leaks :
  (exists s id, rtc Starting.step Starting.new_state s /\ Starting.gone s = true /\
     Starting.starting s = [] /\
     forall s', rtc Starting.step s s' -> id ∈ Starting.open_managers s') /\
  (forall s, Starting.sequential s -> Starting.starting s = [] /\
     (length (Starting.open_managers s) <= 1)%nat /\
     (Starting.gone s = true -> Starting.open_managers s = [])).
Proof.
  split.
  - exists (Starting.mkState true (Some 0%nat) [] [0%nat] 1), 0%nat. split_and!; [|done|done|].
    + eapply rtc_l; [by apply (Starting.StepBegin Starting.new_state)|].
      eapply rtc_l; [apply Starting.StepDispose|].
      eapply rtc_l; [by apply (Starting.StepFinish 0)|]. done.
    + intros s' Hs. rewrite (Starting.disposed_stays _ _ Hs) by done. cbn. left.
  - intros s [Hs Ho]%Starting.sequential_tidy. split; [done|].
    destruct Ho as [Hopen|[Hg Hopen]]; [by rewrite Hopen; split; [cbn; lia|]|]. rewrite Hopen, Hg.
    split; [|done]. destruct (Starting.manager s); cbn; lia.
Qed.

(** *** A sample server *)

(** A server that names things by the number of the call, and refuses the
    call with number 4 if asked to. *)
Definition number_name (n : nat) : jsstring := [Z.of_nat n].

Lemma number_name_inj n m : number_name n = number_name m -> n = m.
Proof. unfold number_name. intros [= E]. lia. Qed.

Lemma number_name_nonempty n : number_name n <> [].
Proof. done. Qed.

Definition sample_server (refusing : bool) : ScopedServer := {|
  refuses := fun n => if refusing && (n =? 4)%nat then Some (plain_error "refused") else None;
  session_name := number_name;
  viewport_name := number_name;
  computed_size := 100;
  session_name_inj := number_name_inj;
  viewport_name_inj := number_name_inj;
  viewport_name_nonempty := number_name_nonempty
|}.

Definition empty_server : server := mkServer [] [] 0.

Definition opened_handle : handle :=
  match (@openFile (sample_server false) None 64 empty_server).2 with
  | Ok h => h
  | Throw _ => mkHandle (new_model (mkOptions [] [] 0 None)) None true []
  end.

Definition opened_server : server := (@openFile (sample_server false) None 64 empty_server).1.

Lemma open_file_all_or_nothing_witness :
  sessions opened_server = [[0]] /\ viewports opened_server = [[2]] /\
  @owned (sample_server false) (opened_server, opened_handle).
Proof.
  pose proof (@open_file_all_or_nothing (sample_server false) None 64 empty_server) as Ho.
  assert (Hs : @server_ok (sample_server false) empty_server) by constructor.
  assert (Hss : @sessions_ok (sample_server false) empty_server) by constructor.
  specialize (Ho Hs Hss). unfold opened_server, opened_handle.
  assert (Hok : is_ok (@openFile (sample_server false) None 64 empty_server).2 = true)
    by (vm_compute; reflexivity).
  assert (E1 : sessions (@openFile (sample_server false) None 64 empty_server).1 = [[0]])
    by (vm_compute; reflexivity).
  assert (E2 : viewports (@openFile (sample_server false) None 64 empty_server).1 = [[2]])
    by (vm_compute; reflexivity).
  destruct (openFile None 64 empty_server) as [sv' [h|e]]; [|discriminate Hok].
  split; [exact E1|]. split; [exact E2|]. destruct Ho as (_ & _ & _ & _ & _ & Hown). exact Hown.
Defined.

(** The handle of the sample, also for a server that refuses a call. *)
Lemma opened_owned refusing : @owned (sample_server refusing) (opened_server, opened_handle).
Proof.
  constructor.
  - constructor; [|constructor]. exists 2%nat. split; [cbn; lia|reflexivity].
  - exists 2%nat. split; [cbn; lia|reflexivity].
  - intros m E. discriminate E.
  - constructor.
Qed.

Lemma start_subscriptions_replaces_witness :
  exists m id, subscriptions
    (@startSubscriptions (sample_server false) (opened_server, opened_handle)).1.2 = Some m /\
    Manager.live m = [id].
Proof.
  pose proof (@start_subscriptions_replaces (sample_server false) opened_server opened_handle
    (opened_owned false) eq_refl) as Hs.
  assert (Hok : is_ok (@startSubscriptions (sample_server false) (opened_server, opened_handle)).2 = true)
    by (vm_compute; reflexivity).
  destruct (startSubscriptions _) as [[sv' h'] [u|e]]; [|discriminate Hok].
  destruct Hs as (_ & _ & _ & _ & m & id & Hm & Hl & _). exists m, id. split; [exact Hm|exact Hl].
Defined.

Lemma recreate_viewport_swaps_witness :
  viewportId (h_model (@recreateViewport (sample_server true) 8 64
    (opened_server, opened_handle)).1.2) = [3] /\
  viewports (@recreateViewport (sample_server true) 8 64 (opened_server, opened_handle)).1.1 = [[2]; [3]].
Proof.
  pose proof (@recreate_viewport_swaps (sample_server true) 8 64 opened_server opened_handle
    (opened_owned true) eq_refl) as Hs.
  assert (E : (@recreateViewport (sample_server true) 8 64 (opened_server, opened_handle)).2 = Ok [3])
    by (vm_compute; reflexivity).
  assert (Ev : viewports (@recreateViewport (sample_server true) 8 64 (opened_server, opened_handle)).1.1
    = [[2]; [3]]) by (vm_compute; reflexivity).
  destruct (recreateViewport _ _ _) as [[sv' h'] r]. cbn [snd fst] in E, Ev |- *. subst r.
  destruct Hs as (_ & _ & Hv & _). split; [exact Hv|exact Ev].
Defined.

Lemma dispose_releases_witness :
  sessions (@dispose_handle (sample_server false) (opened_server, opened_handle)).1.1 = [] /\
  viewports (@dispose_handle (sample_server false) (opened_server, opened_handle)).1.1 = [].
Proof.
  pose proof (@dispose_releases (sample_server false) opened_server opened_handle
    (opened_owned false) eq_refl) as Hd.
  destruct (dispose_handle _) as [[sv' h'] r]. destruct Hd as (_ & _ & _ & _ & _ & Hv & Hs & _).
  cbn [fst]. rewrite (Hv eq_refl), (Hs eq_refl). split; vm_compute; reflexivity.
Defined.
