(* ===== verification/ActionJournal.v ===== *)
(** * The action journal ([packages/client/src/action_journal.ts])

    A window over the history of a session: the request is checked before it
    is sent, and everything of the response before it is handed on.  The
    server's answer is a parameter, [fetch]; the theorems say exactly which
    answers are accepted and that no number leaves its range. *)

From S2P Require Import Prelude JsText JsValue ChangeLogCodec ChangeLogRpc SessionModel.

Definition ACTION_JOURNAL_DEFAULT_CAPACITY : Z := 256.
Definition ACTION_JOURNAL_MAX_CAPACITY : Z := 1000.

Inductive ActionJournalPayloadHint := HintNone | HintInline | HintFileBacked | HintCheckpointBacked.

Record ActionJournalTransformDescriptor := mkJournalTransform {
  jt_transformId : jsstring;
  jt_optionsJson : option jsstring;
  jt_replacementLength : jsstring;
  jt_computedFileSizeBefore : jsstring;
  jt_computedFileSizeAfter : jsstring
}.

Record ActionJournalEntry := mkJournalEntry {
  je_index : jsstring;
  je_firstSerial : jsstring;
  je_lastSerial : jsstring;
  je_kind : ChangeLogEntryKind;
  je_offset : jsstring;
  je_length : jsstring;
  je_dataLength : jsstring;
  je_sizeDelta : jsstring;
  je_changeCountBefore : jsstring;
  je_changeCountAfter : jsstring;
  je_checkpointBefore : option jsstring;
  je_checkpointAfter : option jsstring;
  je_transactionId : option jsstring;
  je_payloadHint : ActionJournalPayloadHint;
  je_transform : option ActionJournalTransformDescriptor
}.

Inductive ActionJournalViewportDirection := Older | Newer.

#[global] Instance direction_eq_dec : EqDecision ActionJournalViewportDirection.
Proof. solve_decision. Defined.

(** What the caller gives; [direction] and the kinds may be any strings. *)
Record ActionJournalViewportOptions := mkJournalOptions {
  jo_sessionId : jsstring;
  jo_anchorSerial : option ChangeLogInt64;
  jo_capacity : option number;
  jo_direction : option jsstring;
  jo_kinds : option (list jsstring);
  jo_transactionId : option jsstring
}.

Record ActionJournalViewport := mkJournalViewport {
  jv_sessionId : jsstring;
  jv_activeTipSerial : jsstring;
  jv_changeCount : jsstring;
  jv_undoCount : jsstring;
  jv_checkpointCount : jsstring;
  jv_anchorSerial : jsstring;
  jv_capacity : Z;
  jv_direction : ActionJournalViewportDirection;
  jv_entries : list ActionJournalEntry;
  jv_hasMore : bool;
  jv_nextAnchorSerial : option jsstring
}.

(** ** Messages *)

Definition DIRECTION_OLDER : Z := 1.
Definition DIRECTION_NEWER : Z := 2.

Record GetActionJournalViewportRequest := mkJournalRequest {
  jq_sessionId : jsstring;
  jq_anchorSerialDecimal : option jsstring;
  jq_capacity : Z;
  jq_direction : Z;
  jq_kinds : list Z;
  jq_transactionId : option jsstring
}.

Record ProtoActionJournalEntry := mkProtoEntry {
  pe_entryIndexDecimal : jsstring;
  pe_firstSerialDecimal : jsstring;
  pe_lastSerialDecimal : jsstring;
  pe_kind : Z;
  pe_offsetDecimal : jsstring;
  pe_lengthDecimal : jsstring;
  pe_dataLengthDecimal : jsstring;
  pe_sizeDeltaDecimal : jsstring;
  pe_transactionId : option jsstring;
  pe_payloadStorage : Z;
  pe_transform : option ChangeLogStreamTransform;
  pe_changeCountBeforeDecimal : jsstring;
  pe_changeCountAfterDecimal : jsstring;
  pe_checkpointBeforeDecimal : option jsstring;
  pe_checkpointAfterDecimal : option jsstring
}.

Record GetActionJournalViewportResponse := mkJournalResponse {
  jr_formatVersion : Z;
  jr_sessionId : jsstring;
  jr_activeTipSerialDecimal : jsstring;
  jr_changeCountDecimal : jsstring;
  jr_undoCountDecimal : jsstring;
  jr_resolvedAnchorSerialDecimal : jsstring;
  jr_direction : Z;
  jr_capacity : Z;
  jr_entries : list ProtoActionJournalEntry;
  jr_hasMore : bool;
  jr_nextAnchorSerialDecimal : option jsstring;
  jr_checkpointCountDecimal : jsstring
}.

(** ** Checks *)

Definition journal_error : exn := codec_error "ACTION_JOURNAL_FRAMING".

(** [fail] *)
Definition fail {A} : result A := Throw journal_error.

Definition MIN_INT64 : Z := -9223372036854775808.

Definition nonNegativeDecimal (value : jsstring) : result jsstring :=
  n ← parseChangeLogNonNegativeInt64 (JString value); Ok (decimal_string n).

(** The regular expression: a canonical decimal with an optional minus sign;
    and the value of a string that matches. *)
Definition canonical_signed (s : jsstring) : bool :=
  match s with 45 :: t => canonical_decimal t | _ => canonical_decimal s end.

Definition signed_value (s : jsstring) : Z :=
  match s with 45 :: t => - decimal_value t | _ => decimal_value s end.

(** [bigint.toString()] *)
Definition signed_string (n : Z) : jsstring :=
  if n <? 0 then 45 :: decimal_string (- n) else decimal_string n.

Definition signedDecimal (value : jsstring) : result jsstring :=
  if (20 <? slen value) || negb (canonical_signed value) || bool_decide (value = js "-0") then fail
  else
    let parsed := signed_value value in
    if (parsed <? MIN_INT64) || (MAX_INT64 <? parsed) then fail else Ok (signed_string parsed).

Definition requestDecimal (value : option ChangeLogInt64) : result (option jsstring) :=
  match value with
  | None => Ok None
  | Some v => n ← parseChangeLogNonNegativeInt64 (int64_value v); Ok (Some (decimal_string n))
  end.

Definition journalKind (kind : Z) : result ChangeLogEntryKind :=
  match changeLogKindFromProto kind with Some k => Ok k | None => fail end.

Definition payloadHint (storage : Z) : result ActionJournalPayloadHint :=
  if storage =? 1 then Ok HintNone
  else if storage =? 2 then Ok HintInline
  else if storage =? 3 then Ok HintFileBacked
  else if storage =? 4 then Ok HintCheckpointBacked
  else fail.

(** [...(value ? { key: nonNegativeDecimal(value) } : {})] *)
Definition optional_decimal (value : option jsstring) : result (option jsstring) :=
  match value with
  | None | Some [] => Ok None
  | Some s => d ← nonNegativeDecimal s; Ok (Some d)
  end.

Definition truthy_text (value : option jsstring) : option jsstring :=
  match value with None | Some [] => None | Some s => Some s end.

Definition normalizeTransform (t : ChangeLogStreamTransform) : result ActionJournalTransformDescriptor :=
  replacement ← nonNegativeDecimal (replacementLengthDecimal t);
  before ← nonNegativeDecimal (computedFileSizeBeforeDecimal t);
  after ← nonNegativeDecimal (computedFileSizeAfterDecimal t);
  Ok (mkJournalTransform (st_transformId t) (truthy_text (Some (st_optionsJson t))) replacement before after).

Definition normalizeEntry (entry : ProtoActionJournalEntry) : result ActionJournalEntry :=
  kind ← journalKind (pe_kind entry);
  _ ← require (Bool.eqb (bool_decide (kind = KTRANSFORM)) (bool_decide (is_Some (pe_transform entry))))
    journal_error;
  index ← nonNegativeDecimal (pe_entryIndexDecimal entry);
  first ← nonNegativeDecimal (pe_firstSerialDecimal entry);
  lst ← nonNegativeDecimal (pe_lastSerialDecimal entry);
  offset ← nonNegativeDecimal (pe_offsetDecimal entry);
  len ← nonNegativeDecimal (pe_lengthDecimal entry);
  dataLength ← nonNegativeDecimal (pe_dataLengthDecimal entry);
  sizeDelta ← signedDecimal (pe_sizeDeltaDecimal entry);
  countBefore ← nonNegativeDecimal (pe_changeCountBeforeDecimal entry);
  countAfter ← nonNegativeDecimal (pe_changeCountAfterDecimal entry);
  checkpointBefore ← optional_decimal (pe_checkpointBeforeDecimal entry);
  checkpointAfter ← optional_decimal (pe_checkpointAfterDecimal entry);
  hint ← payloadHint (pe_payloadStorage entry);
  transform ← match pe_transform entry with
    | None => Ok None
    | Some t => t ← normalizeTransform t; Ok (Some t)
    end;
  Ok (mkJournalEntry index first lst kind offset len dataLength sizeDelta countBefore countAfter
    checkpointBefore checkpointAfter (truthy_text (pe_transactionId entry)) hint transform).

(** ** The call *)

Definition range_error : exn := Exn "RangeError" "".
Definition type_error : exn := Exn "TypeError" "".

Definition journal_capacity (capacity : option number) : result Z :=
  match default (NInt ACTION_JOURNAL_DEFAULT_CAPACITY) capacity with
  | NInt n => if safeZ n && (1 <=? n) && (n <=? ACTION_JOURNAL_MAX_CAPACITY) then Ok n else Throw range_error
  | _ => Throw range_error
  end.

Definition journal_direction (direction : option jsstring) : result ActionJournalViewportDirection :=
  let direction := default (js "older") direction in
  if bool_decide (direction = js "older") then Ok Older
  else if bool_decide (direction = js "newer") then Ok Newer
  else Throw type_error.

(** [CHANGE_LOG_KIND_TO_PROTO[kind]], for the keys of the table. *)
Definition kind_to_proto (name : jsstring) : option Z := CHANGE_LOG_KIND_TO_PROTO <$> kind_of (JString name).

Definition journal_kinds (names : list jsstring) : result (list Z) :=
  result_map (fun name => match kind_to_proto name with Some k => Ok k | None => Throw type_error end) names.

Definition direction_to_proto (d : ActionJournalViewportDirection) : Z :=
  match d with Older => DIRECTION_OLDER | Newer => DIRECTION_NEWER end.

Definition direction_from_proto (d : Z) : result ActionJournalViewportDirection :=
  if d =? DIRECTION_OLDER then Ok Older else if d =? DIRECTION_NEWER then Ok Newer else fail.

Definition journal_request (options : ActionJournalViewportOptions)
  : result (GetActionJournalViewportRequest * ActionJournalViewportDirection) :=
  capacity ← journal_capacity (jo_capacity options);
  direction ← journal_direction (jo_direction options);
  kinds ← journal_kinds (default [] (jo_kinds options));
  anchor ← requestDecimal (jo_anchorSerial options);
  Ok (mkJournalRequest (jo_sessionId options) anchor capacity (direction_to_proto direction) kinds
    (truthy_text (trim <$> jo_transactionId options)), direction).

Definition journal_response (sessionId : jsstring) (capacity : Z) (direction : ActionJournalViewportDirection)
    (response : GetActionJournalViewportResponse) : result ActionJournalViewport :=
  _ ← require (jr_formatVersion response =? 1) journal_error;
  _ ← require (bool_decide (jr_sessionId response = sessionId)) journal_error;
  _ ← require (negb (negb (jr_capacity response =? capacity)
      || (capacity <? Z.of_nat (length (jr_entries response))))) journal_error;
  responseDirection ← direction_from_proto (jr_direction response);
  _ ← require (bool_decide (responseDirection = direction)) journal_error;
  _ ← require (Bool.eqb (jr_hasMore response)
      (bool_decide (is_Some (jr_nextAnchorSerialDecimal response)))) journal_error;
  tip ← nonNegativeDecimal (jr_activeTipSerialDecimal response);
  count ← nonNegativeDecimal (jr_changeCountDecimal response);
  undo ← nonNegativeDecimal (jr_undoCountDecimal response);
  checkpoints ← nonNegativeDecimal (jr_checkpointCountDecimal response);
  anchor ← nonNegativeDecimal (jr_resolvedAnchorSerialDecimal response);
  entries ← result_map normalizeEntry (jr_entries response);
  next ← match jr_nextAnchorSerialDecimal response with
    | None => Ok None
    | Some s => d ← nonNegativeDecimal s; Ok (Some d)
    end;
  Ok (mkJournalViewport (jr_sessionId response) tip count undo checkpoints anchor (jr_capacity response)
    responseDirection entries (jr_hasMore response) next).

Definition getActionJournalViewport
    (fetch : GetActionJournalViewportRequest -> result GetActionJournalViewportResponse)
    (options : ActionJournalViewportOptions) : result ActionJournalViewport :=
  '(request, direction) ← journal_request options;
  response ← fetch request;
  journal_response (jo_sessionId options) (jq_capacity request) direction response.

(** ** Updates *)

(** The bits of the generated enumeration. *)
Definition event_bit (k : SessionEventKind) : Z :=
  match k with
  | SE_UNSPECIFIED => 0 | SE_CREATE => 1 | SE_EDIT => 2 | SE_UNDO => 4 | SE_CLEAR => 8
  | SE_TRANSFORM => 16 | SE_CREATE_CHECKPOINT => 32 | SE_DESTROY_CHECKPOINT => 64 | SE_SAVE => 128
  | SE_CHANGES_PAUSED => 256 | SE_CHANGES_RESUMED => 512 | SE_CREATE_VIEWPORT => 1024
  | SE_DESTROY_VIEWPORT => 2048 | SE_TRANSACTION_STARTED => 4096 | SE_TRANSACTION_ENDED => 8192
  | SE_TRANSFORM_STARTED => 16384 | SE_TRANSFORM_PROGRESS => 32768 | SE_TRANSFORM_COMPLETED => 65536
  | SE_TRANSFORM_FAILED => 131072 | SE_RESTORE_CHECKPOINT => 262144
  end.

(** The mask [subscribeActionJournalUpdates] subscribes with. *)
Definition journal_interest : Z :=
  Z.lor (Z.lor (Z.lor (Z.lor (Z.lor (Z.lor (event_bit SE_EDIT) (event_bit SE_UNDO))
    (event_bit SE_CLEAR)) (event_bit SE_TRANSFORM)) (event_bit SE_CREATE_CHECKPOINT))
    (event_bit SE_DESTROY_CHECKPOINT)) (event_bit SE_RESTORE_CHECKPOINT).

Record ActionJournalLiveUpdate := mkLiveUpdate { lu_sessionId : jsstring; lu_eventKind : SessionEventKind }.

(** What the handler passes on. *)
Definition journal_update (sessionId : jsstring) (kind : SessionEventKind) : ActionJournalLiveUpdate :=
  mkLiveUpdate sessionId kind.

(** ** Decimals are passed on unchanged *)

Lemma nonNegativeDecimal_spec s d : nonNegativeDecimal s = Ok d <-> some_int64 s /\ d = s.
Proof.
  unfold nonNegativeDecimal. change (parseChangeLogNonNegativeInt64 (JString s)) with (parseDecimal s).
  split.
  - intros Hd. apply bind_ok in Hd as (n & Hn & Hd). apply Ok_inj in Hd as <-.
    apply parseDecimal_spec in Hn as Hi. split; [by exists n|]. by destruct Hi as [-> _].
  - intros [(n & Hn) ->]. apply bind_ok. exists n. split; [by apply parseDecimal_spec|].
    by destruct Hn as [-> _].
Qed.

Definition some_signed (s : jsstring) : Prop :=
  exists n, s = signed_string n /\ MIN_INT64 <= n <= MAX_INT64.

Lemma minus_not_decimal t : canonical_decimal (45 :: t) = false.
Proof. by destruct t. Qed.

Lemma signed_positive s : (forall t, s <> 45 :: t) ->
  canonical_signed s = canonical_decimal s /\ signed_value s = decimal_value s.
Proof.
  intros Hs. destruct s as [|c t]; [done|]. unfold canonical_signed, signed_value.
  destruct (Z.eq_dec c 45) as [->|Hc]; [by destruct (Hs t)|].
  destruct c as [|p|p]; try done. do 6 (destruct p as [p|p|]; try done).
Qed.

Lemma decimal_value_nonneg s : canonical_decimal s = true -> 0 <= decimal_value s.
Proof.
  intros Hc. destruct (decide (1 < length s)%nat) as [Hl|Hl].
  - pose proof (decimal_value_lower s Hc Hl).
    assert (0 <= 10 ^ (Z.of_nat (length s) - 1)) by (apply Z.pow_nonneg; lia). lia.
  - destruct s as [|c [|d t]]; [done| |cbn in Hl; lia]. unfold decimal_value. cbn in *.
    apply orb_true_iff in Hc as [Hc|Hc]; unfold in_range in Hc; bool_prop; lia.
Qed.

Lemma canonical_value s : canonical_decimal s = true -> s = decimal_string (decimal_value s).
Proof.
  intros Hc. pose proof (decimal_value_nonneg s Hc) as Hn.
  destruct (decimal_string_spec _ Hn) as [Hv Hc']. by apply canonical_inj.
Qed.

Lemma decimal_length n k : 0 <= n < 10 ^ k -> 1 <= k -> Z.of_nat (length (decimal_string n)) <= k.
Proof.
  intros Hn Hk. destruct (decimal_string_spec n ltac:(lia)) as [Hv Hc].
  destruct (Z.le_gt_cases (Z.of_nat (length (decimal_string n))) k) as [|Hgt]; [done|exfalso].
  pose proof (decimal_value_lower _ Hc ltac:(lia)) as Hlow. rewrite Hv in Hlow.
  assert (10 ^ k <= 10 ^ (Z.of_nat (length (decimal_string n)) - 1)) by (apply Z.pow_le_mono_r; lia). lia.
Qed.

Lemma decimal_not_minus n t : 0 <= n -> decimal_string n <> 45 :: t.
Proof.
  intros Hn E. destruct (decimal_string_spec n Hn) as [_ Hc]. by rewrite E, minus_not_decimal in Hc.
Qed.

(** A string is accepted exactly when it is how an int64 is written. *)
Lemma signedDecimal_spec s d : signedDecimal s = Ok d <-> some_signed s /\ d = s.
Proof.
  unfold signedDecimal. split.
  - intros Hd. destruct (20 <? slen s); [done|]. destruct (canonical_signed s) eqn:Hc; [|done].
    destruct (bool_decide (s = js "-0")) eqn:Hz; [done|]. cbn [orb negb] in Hd. bool_prop.
    destruct ((signed_value s <? MIN_INT64) || (MAX_INT64 <? signed_value s)) eqn:Hr; [done|].
    apply Ok_inj in Hd as <-. bool_prop.
    assert (Hs : s = signed_string (signed_value s)); [|by split; [exists (signed_value s)|]].
    destruct (decide (take 1 s = [45])) as [Em|Em].
    + destruct s as [|c t]; [done|]. cbn in Em. injection Em as ->. cbn in Hc |- *.
      rewrite (canonical_value t Hc) at 1. unfold signed_string.
      pose proof (decimal_value_nonneg t Hc) as Hn.
      destruct (Z.ltb_spec (- decimal_value t) 0) as [|Hge]; [by rewrite Z.opp_involutive|].
      exfalso. apply Hz. rewrite (canonical_value t Hc). replace (decimal_value t) with 0 by lia. done.
    + destruct (signed_positive s) as [H1 H2]; [intros t ->; by apply Em|]. rewrite H1 in Hc. rewrite H2.
      unfold signed_string. pose proof (decimal_value_nonneg s Hc).
      destruct (Z.ltb_spec (decimal_value s) 0); [lia|]. by apply canonical_value.
  - intros [(n & -> & Hn) ->]. unfold signed_string, MIN_INT64, MAX_INT64 in *.
    destruct (Z.ltb_spec n 0) as [Hneg|Hpos].
    + destruct (decimal_string_spec (- n) ltac:(lia)) as [Hv Hc].
      pose proof (decimal_length (- n) 19 ltac:(lia) ltac:(lia)) as Hl.
      unfold canonical_signed, signed_value. rewrite Hc, Hv. unfold slen. cbn [length].
      destruct (Z.ltb_spec 20 (Z.of_nat (S (length (decimal_string (- n)))))); [lia|].
      rewrite bool_decide_false; [|intros [= E]; rewrite E in Hv; cbn in Hv; lia].
      cbn [orb negb]. rewrite Z.opp_involutive. unfold MIN_INT64, MAX_INT64.
      destruct (Z.ltb_spec n (-9223372036854775808)); [lia|].
      destruct (Z.ltb_spec 9223372036854775807 n); [lia|]. cbn [orb].
      by destruct (Z.ltb_spec n 0); [|lia].
    + destruct (decimal_string_spec n Hpos) as [Hv Hc].
      destruct (signed_positive (decimal_string n)) as [H1 H2]; [intros t; by apply decimal_not_minus|].
      pose proof (decimal_length n 19 ltac:(lia) ltac:(lia)) as Hl. rewrite H1, H2, Hc, Hv. unfold slen.
      destruct (Z.ltb_spec 20 (Z.of_nat (length (decimal_string n)))); [lia|].
      rewrite bool_decide_false by by apply decimal_not_minus.
      cbn [orb negb]. unfold MIN_INT64, MAX_INT64.
      destruct (Z.ltb_spec n (-9223372036854775808)); [lia|].
      destruct (Z.ltb_spec 9223372036854775807 n); [lia|]. cbn [orb].
      by destruct (Z.ltb_spec n 0); [lia|].
Qed.

(** ** What is accepted *)

Lemma bind_nonneg {B} s (k : jsstring -> result B) x :
  (d ← nonNegativeDecimal s; k d) = Ok x <-> some_int64 s /\ k s = Ok x.
Proof.
  rewrite bind_ok. split.
  - intros (d & [Hs ->]%nonNegativeDecimal_spec & Hk). done.
  - intros [Hs Hk]. exists s. split; [by apply nonNegativeDecimal_spec|done].
Qed.

Lemma bind_signed {B} s (k : jsstring -> result B) x :
  (d ← signedDecimal s; k d) = Ok x <-> some_signed s /\ k s = Ok x.
Proof.
  rewrite bind_ok. split.
  - intros (d & [Hs ->]%signedDecimal_spec & Hk). done.
  - intros [Hs Hk]. exists s. split; [by apply signedDecimal_spec|done].
Qed.

(** An optional decimal that is there and not empty. *)
Definition optional_ok (value : option jsstring) : Prop :=
  forall s, truthy_text value = Some s -> some_int64 s.

Lemma bind_optional {B} v (k : option jsstring -> result B) x :
  (d ← optional_decimal v; k d) = Ok x <-> optional_ok v /\ k (truthy_text v) = Ok x.
Proof.
  unfold optional_ok. destruct v as [[|c s]|]; cbn [optional_decimal truthy_text].
  - unfold mbind, result_bind. split; [done|]. by intros [_ ?].
  - rewrite bind_ok. setoid_rewrite bind_nonneg. split.
    + intros (d & [Hs [= <-]] & Hk). split; [by intros ? [= <-]|done].
    + intros [Hs Hk]. exists (Some (c :: s)). split; [|done]. split; [by apply Hs|done].
  - unfold mbind, result_bind. split; [done|]. by intros [_ ?].
Qed.

Definition hint_of (storage : Z) : option ActionJournalPayloadHint :=
  match payloadHint storage with Ok h => Some h | Throw _ => None end.

Definition transform_of (t : ChangeLogStreamTransform) : ActionJournalTransformDescriptor :=
  mkJournalTransform (st_transformId t) (truthy_text (Some (st_optionsJson t)))
    (replacementLengthDecimal t) (computedFileSizeBeforeDecimal t) (computedFileSizeAfterDecimal t).

(** An entry that may be handed on, and what it is handed on as. *)
Record journal_entry_ok (e : ProtoActionJournalEntry) (k : ChangeLogEntryKind)
    (h : ActionJournalPayloadHint) : Prop := mkJournalEntryOk {
  jk_kind : changeLogKindFromProto (pe_kind e) = Some k;
  jk_transform : k = KTRANSFORM <-> is_Some (pe_transform e);
  jk_decimals : Forall some_int64 [pe_entryIndexDecimal e; pe_firstSerialDecimal e; pe_lastSerialDecimal e;
    pe_offsetDecimal e; pe_lengthDecimal e; pe_dataLengthDecimal e; pe_changeCountBeforeDecimal e;
    pe_changeCountAfterDecimal e];
  jk_delta : some_signed (pe_sizeDeltaDecimal e);
  jk_checkpoints : optional_ok (pe_checkpointBeforeDecimal e) /\ optional_ok (pe_checkpointAfterDecimal e);
  jk_hint : payloadHint (pe_payloadStorage e) = Ok h;
  jk_sizes t : pe_transform e = Some t -> Forall some_int64
    [replacementLengthDecimal t; computedFileSizeBeforeDecimal t; computedFileSizeAfterDecimal t]
}.

Definition entry_of (e : ProtoActionJournalEntry) (k : ChangeLogEntryKind) (h : ActionJournalPayloadHint)
  : ActionJournalEntry :=
  mkJournalEntry (pe_entryIndexDecimal e) (pe_firstSerialDecimal e) (pe_lastSerialDecimal e) k
    (pe_offsetDecimal e) (pe_lengthDecimal e) (pe_dataLengthDecimal e) (pe_sizeDeltaDecimal e)
    (pe_changeCountBeforeDecimal e) (pe_changeCountAfterDecimal e)
    (truthy_text (pe_checkpointBeforeDecimal e)) (truthy_text (pe_checkpointAfterDecimal e))
    (truthy_text (pe_transactionId e)) h (transform_of <$> pe_transform e).

Lemma transform_spec t x : normalizeTransform t = Ok x <-> Forall some_int64
    [replacementLengthDecimal t; computedFileSizeBeforeDecimal t; computedFileSizeAfterDecimal t] /\
  x = transform_of t.
Proof.
  unfold normalizeTransform. rewrite !bind_nonneg, !Forall_cons, Forall_nil. unfold transform_of.
  split; [intros (? & ? & ? & [= <-]); tauto|]. intros ((? & ? & ? & _) & ->). tauto.
Qed.

Lemma normalizeEntry_spec e x :
  normalizeEntry e = Ok x <-> exists k h, journal_entry_ok e k h /\ x = entry_of e k h.
Proof.
  unfold normalizeEntry. rewrite bind_ok. split.
  - intros (k & Hk & Hx). unfold journalKind in Hk. destruct (changeLogKindFromProto _) as [k'|] eqn:Ek; [|done].
    apply Ok_inj in Hk as ->. rewrite bind_require, !bind_nonneg, bind_signed, !bind_nonneg, !bind_optional, bind_ok in Hx.
    destruct Hx as (Ht & ? & ? & ? & ? & ? & ? & ? & ? & ? & ? & ? & h & Hh & Hx).
    apply bind_ok in Hx as (t & Htr & Hx). apply Ok_inj in Hx as <-. apply eqb_prop in Ht.
    exists k, h.
    assert (Htt : t = transform_of <$> pe_transform e /\ forall t0, pe_transform e = Some t0 -> Forall some_int64
      [replacementLengthDecimal t0; computedFileSizeBeforeDecimal t0; computedFileSizeAfterDecimal t0]).
    { destruct (pe_transform e) as [t0|]; [|by apply Ok_inj in Htr as <-].
      apply bind_ok in Htr as (t1 & [Hs ->]%transform_spec & [= <-]). split; [done|]. by intros ? [= <-]. }
    destruct Htt as [-> Hsz]. split; [|done].
    constructor; try done; [|by repeat constructor].
    by case_bool_decide; case_bool_decide.
  - intros (k & h & [Hk Ht Hd Hs [H1 H2] Hh Hsz] & ->). exists k. unfold journalKind. rewrite Hk.
    split; [done|]. rewrite !Forall_cons in Hd. destruct Hd as (? & ? & ? & ? & ? & ? & ? & ? & _).
    rewrite bind_require, !bind_nonneg, bind_signed, !bind_nonneg, !bind_optional, bind_ok.
    split; [apply eqb_true_iff, bool_decide_ext; done|]. do 11 (split; [done|]).
    exists h. split; [done|]. apply bind_ok. exists (transform_of <$> pe_transform e). split; [|done].
    destruct (pe_transform e) as [t|]; [|done]. apply bind_ok. exists (transform_of t).
    split; [|done]. apply transform_spec. auto.
Qed.

Lemma result_map_iff {A B} (f : A -> result B) l ys :
  result_map f l = Ok ys <-> Forall2 (fun x y => f x = Ok y) l ys.
Proof.
  split; [apply result_map_Forall2|]. induction 1 as [|x y l ys Hx _ IH]; [done|].
  cbn. unfold mbind, result_bind in *. by rewrite Hx, IH.
Qed.

(** A response that may be handed on. *)
Record journal_response_ok (sessionId : jsstring) (capacity : Z) (direction : ActionJournalViewportDirection)
    (r : GetActionJournalViewportResponse) : Prop := mkJournalResponseOk {
  js_version : jr_formatVersion r = 1;
  js_session : jr_sessionId r = sessionId;
  js_capacity : jr_capacity r = capacity;
  js_room : Z.of_nat (length (jr_entries r)) <= capacity;
  js_direction : jr_direction r = direction_to_proto direction;
  js_more : jr_hasMore r = true <-> is_Some (jr_nextAnchorSerialDecimal r);
  js_decimals : Forall some_int64 ([jr_activeTipSerialDecimal r; jr_changeCountDecimal r;
    jr_undoCountDecimal r; jr_checkpointCountDecimal r; jr_resolvedAnchorSerialDecimal r]
    ++ option_list (jr_nextAnchorSerialDecimal r))
}.

(** The viewport with the response's own strings. *)
Definition viewport_of (direction : ActionJournalViewportDirection) (r : GetActionJournalViewportResponse)
    (entries : list ActionJournalEntry) : ActionJournalViewport :=
  mkJournalViewport (jr_sessionId r) (jr_activeTipSerialDecimal r) (jr_changeCountDecimal r)
    (jr_undoCountDecimal r) (jr_checkpointCountDecimal r) (jr_resolvedAnchorSerialDecimal r)
    (jr_capacity r) direction entries (jr_hasMore r) (jr_nextAnchorSerialDecimal r).

Definition entry_accepted (e : ProtoActionJournalEntry) (x : ActionJournalEntry) : Prop :=
  exists k h, journal_entry_ok e k h /\ x = entry_of e k h.

Lemma direction_spec d x : direction_from_proto d = Ok x <-> d = direction_to_proto x.
Proof.
  unfold direction_from_proto, direction_to_proto, DIRECTION_OLDER, DIRECTION_NEWER.
  destruct (Z.eqb_spec d 1), (Z.eqb_spec d 2), x; split; intros E; done || lia || congruence.
Qed.

Lemma bind_next {B} v (k : option jsstring -> result B) x :
  (next ← match v with
    | None => Ok None
    | Some s => d ← nonNegativeDecimal s; Ok (Some d)
    end; k next) = Ok x <->
  Forall some_int64 (option_list v) /\ k v = Ok x.
Proof.
  destruct v as [s|]; [change (option_list (Some s)) with [s]|change (@option_list jsstring None) with (@nil jsstring)].
  - rewrite bind_ok. setoid_rewrite bind_nonneg. rewrite Forall_singleton. split.
    + by intros (d & [Hs [= <-]] & Hk).
    + intros [Hs Hk]. by exists (Some s).
  - rewrite Forall_nil. split; [done|]. by intros [_ ?].
Qed.

Lemma journal_response_spec sessionId capacity direction r v :
  journal_response sessionId capacity direction r = Ok v <->
  journal_response_ok sessionId capacity direction r /\
  exists entries, Forall2 entry_accepted (jr_entries r) entries /\ v = viewport_of direction r entries.
Proof.
  unfold journal_response. rewrite !bind_require, bind_ok. setoid_rewrite bind_require.
  setoid_rewrite bind_require. setoid_rewrite bind_nonneg. setoid_rewrite bind_nonneg.
  setoid_rewrite bind_nonneg. setoid_rewrite bind_nonneg. setoid_rewrite bind_nonneg.
  setoid_rewrite bind_ok. setoid_rewrite bind_next. setoid_rewrite result_map_iff.
  rewrite Z.eqb_eq, bool_decide_eq_true, negb_true_iff, orb_false_iff, negb_false_iff, Z.eqb_eq, Z.ltb_ge.
  assert (Hent : forall es, Forall2 (fun x y => normalizeEntry x = Ok y) (jr_entries r) es <->
    Forall2 entry_accepted (jr_entries r) es).
  { intros es. split; intros Hf; (eapply Forall2_impl; [exact Hf|]); intros e x; apply normalizeEntry_spec. }
  split.
  - intros (H1 & H2 & [H3 H4] & d & Hd & Hdd & Hm & ? & ? & ? & ? & ? & es & Hes & Hn & [= <-]).
    apply direction_spec in Hd. apply bool_decide_eq_true in Hdd as ->. apply eqb_prop in Hm.
    split; [|exists es; split; [by apply Hent|done]].
    constructor; try done; [by rewrite Hm, bool_decide_eq_true|by repeat constructor].
  - intros [[H1 H2 H3 H4 Hd Hm Hdec] (es & Hes & ->)]. do 2 (split; [done|]). split; [done|].
    exists direction. split; [by apply direction_spec|]. split; [by apply bool_decide_eq_true|].
    split; [apply eqb_true_iff, eq_true_iff_eq; by rewrite bool_decide_eq_true|].
    rewrite Forall_app, !Forall_cons in Hdec. destruct Hdec as [(? & ? & ? & ? & ? & _) Hn].
    do 5 (split; [done|]). exists es. split; [by apply Hent|]. done.
Qed.

Lemma capacity_range c n : journal_capacity c = Ok n -> 1 <= n <= ACTION_JOURNAL_MAX_CAPACITY.
Proof.
  unfold journal_capacity. destruct (default _ c) as [z| | |]; try done.
  destruct (safeZ z && (1 <=? z) && (z <=? ACTION_JOURNAL_MAX_CAPACITY)) eqn:E; [|done].
  intros Hn. apply Ok_inj in Hn as <-. bool_prop. done.
Qed.

Lemma request_inv options request direction :
  journal_request options = Ok (request, direction) ->
  jq_sessionId request = jo_sessionId options /\ 1 <= jq_capacity request <= ACTION_JOURNAL_MAX_CAPACITY /\
  jq_direction request = direction_to_proto direction /\
  (forall a, jq_anchorSerialDecimal request = Some a -> some_int64 a).
Proof.
  unfold journal_request. intros (c & Hc & H1)%bind_ok. apply bind_ok in H1 as (d & Hd & H1).
  apply bind_ok in H1 as (ks & _ & H1). apply bind_ok in H1 as (a & Ha & [= <- <-]). cbn.
  split; [done|]. split; [by eapply capacity_range|]. split; [done|]. intros x ->.
  unfold requestDecimal in Ha. destruct (jo_anchorSerial options) as [i|]; [|done].
  apply bind_ok in Ha as (n & Hn & [= <-]). apply parse_int64_range in Hn. by exists n.
Qed.

(** ** Theorems *)

(** A journal window is handed on exactly when the response is in
    order: of the version, session, capacity and direction that were asked
    for, no longer than the capacity, with a next anchor exactly when there
    is more, every count and serial a canonical int64 and every size change a
    canonical signed int64, every kind and storage known, and transform
    metadata on exactly the transforms.  What is handed on is the response
    with its own strings. *)
Theorem journal_accepted_exactly fetch options request direction response v :
  journal_request options = Ok (request, direction) -> fetch request = Ok response ->
  getActionJournalViewport fetch options = Ok v <->
  journal_response_ok (jo_sessionId options) (jq_capacity request) direction response /\
  exists entries, Forall2 entry_accepted (jr_entries response) entries /\
    v = viewport_of direction response entries.
Proof.
  intros Hr Hf. unfold getActionJournalViewport, mbind, result_bind. rewrite Hr, Hf.
  apply journal_response_spec.
Qed.

(** An entry whose numbers are in range. *)
Definition entry_in_range (x : ActionJournalEntry) : Prop :=
  Forall some_int64 [je_index x; je_firstSerial x; je_lastSerial x; je_offset x; je_length x;
    je_dataLength x; je_changeCountBefore x; je_changeCountAfter x] /\
  some_signed (je_sizeDelta x) /\
  Forall some_int64 (option_list (je_checkpointBefore x) ++ option_list (je_checkpointAfter x)) /\
  (je_kind x = KTRANSFORM <-> is_Some (je_transform x)) /\
  forall t, je_transform x = Some t -> Forall some_int64
    [jt_replacementLength t; jt_computedFileSizeBefore t; jt_computedFileSizeAfter t].

Lemma optional_range v : optional_ok v -> Forall some_int64 (option_list (truthy_text v)).
Proof. unfold optional_ok. destruct (truthy_text v); cbn; [|done]. intros Hv. constructor; auto. Qed.

Lemma accepted_in_range e x : entry_accepted e x -> entry_in_range x.
Proof.
  intros (k & h & [Hk Ht Hd Hs [H1 H2] Hh Hsz] & ->). unfold entry_in_range, entry_of. cbn.
  split; [done|]. split; [done|]. split; [apply Forall_app; split; by apply optional_range|].
  split; [by rewrite fmap_is_Some|]. intros t Et. apply fmap_Some in Et as (t0 & E0 & ->). by apply Hsz.
Qed.

(** Whatever the server answers, a window that is handed on
    is within bounds: the capacity is between 1 and 1000, there are no more
    entries than that, the serials and counts are canonical decimals of
    non-negative int64 values and the size changes of signed ones, and the
    window continues exactly when it has an anchor to continue from. *)
Theorem journal_viewport_bounds fetch options v :
  getActionJournalViewport fetch options = Ok v ->
  1 <= jv_capacity v <= ACTION_JOURNAL_MAX_CAPACITY /\
  Z.of_nat (length (jv_entries v)) <= jv_capacity v /\
  Forall some_int64 ([jv_activeTipSerial v; jv_changeCount v; jv_undoCount v; jv_checkpointCount v;
    jv_anchorSerial v] ++ option_list (jv_nextAnchorSerial v)) /\
  Forall entry_in_range (jv_entries v) /\
  (jv_hasMore v = true <-> is_Some (jv_nextAnchorSerial v)).
Proof.
  unfold getActionJournalViewport. intros ([request direction] & Hr & Hv)%bind_ok.
  apply bind_ok in Hv as (response & _ & Hv). apply request_inv in Hr as (_ & Hc & _ & _).
  apply journal_response_spec in Hv as [[H1 H2 H3 H4 Hd Hm Hdec] (es & Hes & ->)]. cbn.
  rewrite H3, <- (Forall2_length _ _ _ Hes). split_and!; try done; try lia.
  apply Forall_forall. intros x [i Hi]%list_elem_of_lookup.
  destruct (Forall2_lookup_r _ _ _ _ _ Hes Hi) as (e & _ & He). by eapply accepted_in_range.
Qed.

(** The journal's subscription is told of every event after which
    the session model counts a change, and of the destruction of checkpoints,
    and of nothing else. *)
Theorem journal_interest_covers k :
  Z.land journal_interest (event_bit k) <> 0 <->
  tracked_kind k = true \/ k = SE_DESTROY_CHECKPOINT.
Proof. destruct k; vm_compute; split; try done; try (by left); try (by right); by intros [|]. Qed.

(** *** A sample window *)

Definition sample_journal_entry : ProtoActionJournalEntry :=
  mkProtoEntry (js "0") (js "1") (js "1") 2 (js "10") (js "3") (js "3") (js "-9223372036854775808") None 2
    None (js "0") (js "1") (Some []) None.

Definition sample_journal_response : GetActionJournalViewportResponse :=
  mkJournalResponse 1 (js "s") (js "1") (js "1") (js "0") (js "1") 1 256 [sample_journal_entry] true
    (Some (js "1")) (js "0").

Definition sample_journal_options : ActionJournalViewportOptions :=
  mkJournalOptions (js "s") None None None None None.

Definition sample_journal_request : GetActionJournalViewportRequest :=
  mkJournalRequest (js "s") None 256 1 [] None.

Definition sample_journal_viewport : ActionJournalViewport :=
  viewport_of Older sample_journal_response [entry_of sample_journal_entry KINSERT HintInline].

Lemma journal_accepted_exactly_witness :
  journal_response_ok (js "s") 256 Older sample_journal_response.
Proof.
  apply (journal_accepted_exactly (fun _ => Ok sample_journal_response) sample_journal_options
    sample_journal_request Older sample_journal_response sample_journal_viewport).
  - vm_compute. reflexivity.
  - reflexivity.
  - vm_compute. reflexivity.
Defined.

Lemma journal_viewport_bounds_witness : Forall entry_in_range (jv_entries sample_journal_viewport).
Proof.
  apply (journal_viewport_bounds (fun _ => Ok sample_journal_response) sample_journal_options
    sample_journal_viewport). vm_compute. reflexivity.
Defined.
