(* ===== verification/WebviewProtocol.v ===== *)
(** * Messages of the webview ([vscode-extension/src/webviewProtocol.ts])

    What the extension host takes from its webview: every message is an
    untyped value, and [normalizeWebviewMessage] either drops it or turns it
    into a typed message whose offsets and lengths fit the open file.  The
    same file holds [normalizeExternalHighlights], the check on highlights
    given by other extensions, and [checkpointTimelineMetadataWindow].

    The enumerations of the source are inductive types with their names; a
    typed message is rendered back to the object literal the source returns
    by [message_value], so that accepting can be stated in both directions:
    an accepted message satisfies [message_ok], and every message with
    [message_ok] is accepted unchanged. *)

From stdpp Require Import sorting.
From S2P Require Import Prelude JsText JsValue ChangeLogCodec.

(** ** Limits *)

Definition MAX_WEBVIEW_HEX_BYTES : Z := 16 * 1024 * 1024.
Definition MAX_SEARCH_QUERY_LENGTH : Z := 1024 * 1024.
Definition MAX_TRANSFORM_OPTIONS_LENGTH : Z := 256 * 1024.
Definition MAX_ANALYSIS_PROFILE_BYTES : Z := 64 * 1024.
Definition MAX_LABEL_LENGTH : Z := 128.
Definition MAX_EXTERNAL_HIGHLIGHTS : Z := 512.
Definition MIN_BYTES_PER_ROW : Z := 8.
Definition MAX_BYTES_PER_ROW : Z := 64.
Definition DEFAULT_BYTES_PER_ROW : Z := 16.

(** ** Enumerations *)

(** [value === 'name'] *)
Definition is_str (v : jsval) (name : string) : bool :=
  match v with JString s => bool_decide (s = js name) | _ => false end.

(** The member of an enumeration a value names. *)
Definition one_of {A} (name : A -> string) (options : list A) (v : jsval) : option A :=
  find (fun a => is_str v (name a)) options.

Inductive TextEncoding := ascii | windows_1252 | cp437 | ebcdic_037 | macroman.
Definition encoding_name (e : TextEncoding) : string :=
  match e with
  | ascii => "ascii" | windows_1252 => "windows-1252" | cp437 => "cp437"
  | ebcdic_037 => "ebcdic-037" | macroman => "macroman"
  end.
Definition TEXT_ENCODING_OPTIONS : list TextEncoding :=
  [ascii; windows_1252; cp437; ebcdic_037; macroman].
Definition DEFAULT_TEXT_ENCODING : TextEncoding := ascii.

Inductive OffsetRadix := RadixHex | RadixDec.
Definition radix_name (r : OffsetRadix) : string :=
  match r with RadixHex => "hex" | RadixDec => "dec" end.

Inductive GridEditPane := PaneHex | PaneAscii.
Definition pane_name (p : GridEditPane) : string :=
  match p with PaneHex => "hex" | PaneAscii => "ascii" end.

Inductive WebviewEditMode := ModeInsert | ModeOverwrite.
Definition edit_mode_name (m : WebviewEditMode) : string :=
  match m with ModeInsert => "insert" | ModeOverwrite => "overwrite" end.

Inductive InsertDirection := Forward | Backward.
Definition direction_name (d : InsertDirection) : string :=
  match d with Forward => "forward" | Backward => "backward" end.

Inductive ExternalHighlightKind := Current | Parsed | KindError | Warning | Breakpoint | Secondary.
Definition highlight_kind_name (k : ExternalHighlightKind) : string :=
  match k with
  | Current => "current" | Parsed => "parsed" | KindError => "error"
  | Warning => "warning" | Breakpoint => "breakpoint" | Secondary => "secondary"
  end.
Definition highlight_kinds : list ExternalHighlightKind :=
  [Current; Parsed; KindError; Warning; Breakpoint; Secondary].

Inductive WebviewSessionContentSource := Original | Computed | LatestCheckpoint.
Definition content_name (c : WebviewSessionContentSource) : string :=
  match c with
  | Original => "original" | Computed => "computed" | LatestCheckpoint => "latestCheckpoint"
  end.

Inductive scroll_direction := Up | Down.
Definition scroll_name (d : scroll_direction) : string :=
  match d with Up => "up" | Down => "down" end.

Inductive copy_format := FormatHex | FormatUtf8.
Definition format_name (f : copy_format) : string :=
  match f with FormatHex => "hex" | FormatUtf8 => "utf8" end.

Inductive JournalDirection := JournalOlder | JournalNewer.
Definition journal_direction_name (d : JournalDirection) : string :=
  match d with JournalOlder => "older" | JournalNewer => "newer" end.

#[global] Instance encoding_eq_dec : EqDecision TextEncoding.
Proof. solve_decision. Defined.
#[global] Instance kind_eq_dec : EqDecision ExternalHighlightKind.
Proof. solve_decision. Defined.
#[global] Instance content_eq_dec : EqDecision WebviewSessionContentSource.
Proof. solve_decision. Defined.

(** ** The host's view of the file *)

Record WebviewSessionContentInfo := mkContentInfo {
  ci_content : WebviewSessionContentSource;
  ci_available : bool;
  ci_byteLength : Z
}.

Record WebviewProtocolContext := mkContext {
  fileSize : Z;
  contentSources : option (list WebviewSessionContentInfo)
}.

(** ** Checks on single values *)

Definition int_between (lo hi : Z) (v : jsval) : option Z :=
  match v with
  | JNumber (NInt z) => if safeZ z && (lo <=? z) && (z <=? hi) then Some z else None
  | _ => None
  end.

Definition normalizeBytesPerRow (value : jsval) : Z :=
  default DEFAULT_BYTES_PER_ROW (int_between MIN_BYTES_PER_ROW MAX_BYTES_PER_ROW value).

Definition normalizeTextEncoding (value : jsval) : TextEncoding :=
  default DEFAULT_TEXT_ENCODING (one_of encoding_name TEXT_ENCODING_OPTIONS value).

(** [typeof value === 'object' && value !== null]: an array is one too; the
    only named property of an array that is read is its length. *)
Definition isRecord (v : jsval) : option jsobject :=
  match v with
  | JObject o => Some o
  | JArray l => Some [(js "length", JNumber (NInt (Z.of_nat (length l))))]
  | _ => None
  end.

Definition safeNonNegativeInteger (value : jsval) (max : Z) : option Z := int_between 0 max value.

Definition safeIntegerAtLeast (value : jsval) (min max : Z) : option Z := int_between min max value.

Definition safeBoolean (value : jsval) (fallback : bool) : bool :=
  match value with JBool b => b | _ => fallback end.

Definition safeString (value : jsval) (maxLength : Z) (allowEmpty : bool) : option jsstring :=
  match value with
  | JString s =>
      let text := trim s in
      if negb allowEmpty && (slen text =? 0) || (maxLength <? slen text) then None else Some text
  | _ => None
  end.

Definition is_hex_unit (c : Z) : bool := bool_decide (is_Some (hex_value c)).

(** [value.replace(/\s/g, '')] *)
Definition remove_spaces (s : jsstring) : jsstring := List.filter (fun c => negb (is_js_space c)) s.

Definition safeHexString (value : jsval) (maxBytes : Z) (allowEmpty : bool) : option jsstring :=
  match value with
  | JString s =>
      let text := remove_spaces s in
      if negb allowEmpty && (slen text =? 0) || (maxBytes * 2 <? slen text) then None
      else if negb (slen text mod 2 =? 0) || negb (forallb is_hex_unit text) then None
      else Some text
  | _ => None
  end.

Definition safeFileLengthRange (context : WebviewProtocolContext) (offsetValue lengthValue : jsval)
  (allowZeroLength : bool) (maxLength : Z) : option (Z * Z) :=
  offset ← safeNonNegativeInteger offsetValue MAX_SAFE_INTEGER;
  len ← safeNonNegativeInteger lengthValue maxLength;
  if negb allowZeroLength && (len =? 0) || (fileSize context <? offset) then None
  else if Z.max 0 (fileSize context - offset) <? len then None
  else Some (offset, len).

Definition safeSessionContentSource (value : jsval) : option WebviewSessionContentSource :=
  one_of content_name [Original; Computed; LatestCheckpoint] value.

Definition sessionContentByteLength (context : WebviewProtocolContext)
  (contentSource : WebviewSessionContentSource) : option Z :=
  if bool_decide (contentSource = Computed) then Some (fileSize context)
  else
    entries ← contentSources context;
    ci_byteLength <$>
      find (fun c => bool_decide (ci_content c = contentSource) && ci_available c) entries.

Definition safeContentLengthRange (context : WebviewProtocolContext)
  (contentSource : WebviewSessionContentSource) (offsetValue lengthValue : jsval)
  (allowZeroLength : bool) (maxLength : Z) : option (Z * Z) :=
  byteLength ← sessionContentByteLength context contentSource;
  safeFileLengthRange (mkContext byteLength None) offsetValue lengthValue allowZeroLength maxLength.

Definition safeFileOffset (context : WebviewProtocolContext) (value : jsval) (allowEnd : bool)
  : option Z :=
  let maxOffset := if allowEnd then fileSize context else Z.max 0 (fileSize context - 1) in
  safeNonNegativeInteger value maxOffset.

(** [value === true] *)
Definition is_true (v : jsval) : bool := match v with JBool true => true | _ => false end.

Definition safeSearchQuery (message : jsobject) : option jsstring :=
  if is_true (get (js "isHex") message)
  then safeHexString (get (js "query") message) MAX_SEARCH_QUERY_LENGTH false
  else safeString (get (js "query") message) MAX_SEARCH_QUERY_LENGTH false.

Definition safeOffsetRadix : jsval -> option OffsetRadix := one_of radix_name [RadixHex; RadixDec].

Definition safeTextEncoding (value : jsval) : option TextEncoding :=
  let textEncoding := normalizeTextEncoding value in
  if is_str value (encoding_name textEncoding) then Some textEncoding else None.

Definition safeGridEditPane : jsval -> option GridEditPane := one_of pane_name [PaneHex; PaneAscii].

Definition safeWebviewEditMode : jsval -> option WebviewEditMode :=
  one_of edit_mode_name [ModeInsert; ModeOverwrite].

Definition safeInsertDirection : jsval -> option InsertDirection :=
  one_of direction_name [Forward; Backward].

Definition safeExternalHighlightKind : jsval -> option ExternalHighlightKind :=
  one_of highlight_kind_name highlight_kinds.

(** The regular expression allows zero, or at most nineteen digits of which
    the first is not zero. *)
Definition safeActionJournalDecimal (value : jsval) : option jsstring :=
  match value with
  | JString s => if canonical_decimal s && (slen s <=? 19) then Some s else None
  | _ => None
  end.

(** An optional property: absent stays absent, a value that fails its check
    rejects the message. *)
Definition opt_field {A} (check : jsval -> option A) (v : jsval) : option (option A) :=
  match v with JUndefined => Some None | _ => Some <$> check v end.

(** [value === n] for a number [n]. *)
Definition is_int (v : jsval) (z : Z) : bool :=
  match v with JNumber (NInt n) => n =? z | _ => false end.

Definition bool_value (v : jsval) : option bool := match v with JBool b => Some b | _ => None end.

(** ** Messages *)

Record WebviewEditorUiState := mkUiState {
  ui_visibleOffset : Z;
  ui_visibleByteCount : Z;
  ui_selectedOffset : Z;
  ui_selectionStart : Z;
  ui_selectionEnd : Z;
  ui_selectionLength : Z;
  ui_bytesPerRow : Z;
  ui_offsetRadix : OffsetRadix;
  ui_textEncoding : TextEncoding;
  ui_activePane : GridEditPane;
  ui_editMode : WebviewEditMode;
  ui_insertDirection : InsertDirection
}.

(** The messages that are only their type. *)
Inductive plain_command :=
  | Cmd_requestTransformPlugins | Cmd_cancelTransform | Cmd_createCheckpoint | Cmd_rollbackCheckpoint
  | Cmd_restoreCheckpoint | Cmd_exportChangeLog | Cmd_applyChangeLog | Cmd_loadRangeMap | Cmd_unloadRangeMap
  | Cmd_undo | Cmd_redo | Cmd_save | Cmd_saveAs | Cmd_revert | Cmd_hideActionJournal | Cmd_toggleEditMode.

(** What the four search messages share. *)
Record search_terms := mkTerms {
  st_query : jsstring;
  st_isHex : bool;
  st_caseInsensitive : bool;
  st_textEncoding : option TextEncoding
}.

Inductive WebviewToHostMessage :=
  | EditorStateChanged (state : WebviewEditorUiState)
  | Scroll (direction : scroll_direction)
  | ScrollTo (offset : Z)
  | SetViewportMetrics (visibleRows : Z)
  | SetBytesPerRow (bytesPerRow : Z) (persist : option bool)
  | SetBytesPerRowMode   (* mode: 'fixed' *)
  | SetTextEncoding (textEncoding : TextEncoding)
  | RequestAnalysisProfile (offset len : Z) (requestKey scopeLabel : jsstring)
      (requestedLength : Z) (isCapped : bool)
  | Plain (command : plain_command)
  | RequestActionJournalViewport (anchorSerial : option jsstring) (capacity : option Z)
      (direction : option JournalDirection) (append : option bool)
  | NavigateActionJournal (changeCount : jsstring)
  | CopySelection (offset len : Z) (format : copy_format)
  | CutSelection (offset len : Z) (format : copy_format)
  | Insert (offset : Z) (data : jsstring)
  | Delete (offset len : Z)
  | Overwrite (offset : Z) (data : jsstring)
  | Replace (offset len : Z) (data : jsstring)
  | ExportRange (offset len : Z)
  | InsertFile (offset : Z)
  | ReplaceRangeWithFile (offset len : Z)
  | SetInsertDirection (insertDirection : InsertDirection)
  | ReplaceAllMatches (terms : search_terms) (isReverse : bool) (len : Z) (data : jsstring)
  | ApplyTransform (pluginId : jsstring) (contentSource : WebviewSessionContentSource)
      (offset len : Z) (optionsJson : option jsstring)
  | Search (terms : search_terms) (isReverse : bool)
  | GoToMatch (offset : Z)
  | FindAdjacentMatch (terms : search_terms) (direction : InsertDirection) (offset : Z)
  | SearchViewportMatches (terms : search_terms) (viewportOffset viewportLength : Z).

(** The values of [raw.type] the switch knows. *)
Inductive message_type :=
  | T_editorStateChanged | T_scroll | T_scrollTo | T_setViewportMetrics | T_setBytesPerRow
  | T_setBytesPerRowMode | T_setTextEncoding | T_requestAnalysisProfile | T_plain (c : plain_command)
  | T_requestActionJournalViewport | T_navigateActionJournal | T_copySelection | T_cutSelection
  | T_insert | T_delete | T_overwrite | T_replace | T_exportRange | T_insertFile
  | T_replaceRangeWithFile | T_setInsertDirection | T_replaceAllMatches | T_applyTransform
  | T_search | T_goToMatch | T_findAdjacentMatch | T_searchViewportMatches.

Definition command_name (c : plain_command) : string :=
  match c with
  | Cmd_requestTransformPlugins => "requestTransformPlugins" | Cmd_cancelTransform => "cancelTransform"
  | Cmd_createCheckpoint => "createCheckpoint" | Cmd_rollbackCheckpoint => "rollbackCheckpoint"
  | Cmd_restoreCheckpoint => "restoreCheckpoint" | Cmd_exportChangeLog => "exportChangeLog"
  | Cmd_applyChangeLog => "applyChangeLog" | Cmd_loadRangeMap => "loadRangeMap"
  | Cmd_unloadRangeMap => "unloadRangeMap" | Cmd_undo => "undo" | Cmd_redo => "redo" | Cmd_save => "save"
  | Cmd_saveAs => "saveAs" | Cmd_revert => "revert" | Cmd_hideActionJournal => "hideActionJournal"
  | Cmd_toggleEditMode => "toggleEditMode"
  end.

Definition type_name (t : message_type) : string :=
  match t with
  | T_editorStateChanged => "editorStateChanged" | T_scroll => "scroll" | T_scrollTo => "scrollTo"
  | T_setViewportMetrics => "setViewportMetrics" | T_setBytesPerRow => "setBytesPerRow"
  | T_setBytesPerRowMode => "setBytesPerRowMode" | T_setTextEncoding => "setTextEncoding"
  | T_requestAnalysisProfile => "requestAnalysisProfile" | T_plain c => command_name c
  | T_requestActionJournalViewport => "requestActionJournalViewport"
  | T_navigateActionJournal => "navigateActionJournal" | T_copySelection => "copySelection"
  | T_cutSelection => "cutSelection" | T_insert => "insert" | T_delete => "delete"
  | T_overwrite => "overwrite" | T_replace => "replace" | T_exportRange => "exportRange"
  | T_insertFile => "insertFile" | T_replaceRangeWithFile => "replaceRangeWithFile"
  | T_setInsertDirection => "setInsertDirection" | T_replaceAllMatches => "replaceAllMatches"
  | T_applyTransform => "applyTransform" | T_search => "search" | T_goToMatch => "goToMatch"
  | T_findAdjacentMatch => "findAdjacentMatch" | T_searchViewportMatches => "searchViewportMatches"
  end.

Definition plain_commands : list plain_command :=
  [Cmd_requestTransformPlugins; Cmd_cancelTransform; Cmd_createCheckpoint; Cmd_rollbackCheckpoint;
   Cmd_restoreCheckpoint; Cmd_exportChangeLog; Cmd_applyChangeLog; Cmd_loadRangeMap; Cmd_unloadRangeMap;
   Cmd_undo; Cmd_redo; Cmd_save; Cmd_saveAs; Cmd_revert; Cmd_hideActionJournal; Cmd_toggleEditMode].

Definition message_types : list message_type :=
  [T_editorStateChanged; T_scroll; T_scrollTo; T_setViewportMetrics; T_setBytesPerRow;
   T_setBytesPerRowMode; T_setTextEncoding; T_requestAnalysisProfile]
  ++ map T_plain plain_commands ++
  [T_requestActionJournalViewport; T_navigateActionJournal; T_copySelection; T_cutSelection;
   T_insert; T_delete; T_overwrite; T_replace; T_exportRange; T_insertFile;
   T_replaceRangeWithFile; T_setInsertDirection; T_replaceAllMatches; T_applyTransform;
   T_search; T_goToMatch; T_findAdjacentMatch; T_searchViewportMatches].

(** ** The editor's state *)

Definition normalizeEditorUiState (context : WebviewProtocolContext) (raw : jsobject)
  : option WebviewEditorUiState :=
  let field k := get (js k) raw in
  let bytesPerRow := normalizeBytesPerRow (field "bytesPerRow") in
  let insertDirection := default Forward (safeInsertDirection (field "insertDirection")) in
  visibleOffset ← safeNonNegativeInteger (field "visibleOffset") MAX_SAFE_INTEGER;
  visibleByteCount ← safeNonNegativeInteger (field "visibleByteCount") MAX_WEBVIEW_HEX_BYTES;
  selectedOffset ← safeIntegerAtLeast (field "selectedOffset") (-1) MAX_SAFE_INTEGER;
  selectionStart ← safeIntegerAtLeast (field "selectionStart") (-1) MAX_SAFE_INTEGER;
  selectionEnd ← safeIntegerAtLeast (field "selectionEnd") (-1) MAX_SAFE_INTEGER;
  selectionLength ← safeNonNegativeInteger (field "selectionLength") MAX_WEBVIEW_HEX_BYTES;
  offsetRadix ← safeOffsetRadix (field "offsetRadix");
  textEncoding ← safeTextEncoding (field "textEncoding");
  activePane ← safeGridEditPane (field "activePane");
  editMode ← safeWebviewEditMode (field "editMode");
  if negb (is_int (field "bytesPerRow") bytesPerRow) then None
  else if (fileSize context <? visibleOffset)
          || (Z.max 0 (fileSize context - visibleOffset) <? visibleByteCount) then None
  else if fileSize context <? selectedOffset then None
  else
    let hasSelection := (0 <=? selectionStart) || (0 <=? selectionEnd) in
    if hasSelection && ((selectionStart <? 0) || (selectionEnd <? selectionStart)
         || (fileSize context <=? selectionEnd)
         || negb (selectionLength =? selectionEnd - selectionStart + 1)) then None
    else if negb hasSelection && negb (selectionLength =? 0) then None
    else Some (mkUiState visibleOffset visibleByteCount selectedOffset selectionStart selectionEnd
           selectionLength bytesPerRow offsetRadix textEncoding activePane editMode insertDirection).

(** ** External highlights *)

Record WebviewExternalHighlight := mkHighlight {
  hl_id : jsstring;
  hl_offset : Z;
  hl_length : Z;
  hl_kind : ExternalHighlightKind;
  hl_label : jsstring;
  hl_source : option jsstring;
  hl_stale : bool
}.

(** One round of the loop: the highlight of a raw value, given the
    identifiers so far. *)
Definition normalize_highlight (context : WebviewProtocolContext) (ids : list jsstring) (raw : jsval)
  : option WebviewExternalHighlight :=
  o ← isRecord raw;
  let field k := get (js k) o in
  id ← safeString (field "id") MAX_LABEL_LENGTH false;
  offset ← safeNonNegativeInteger (field "offset") MAX_SAFE_INTEGER;
  len ← safeNonNegativeInteger (field "length") MAX_WEBVIEW_HEX_BYTES;
  kind ← safeExternalHighlightKind (field "kind");
  source ← opt_field (fun v => safeString v MAX_LABEL_LENGTH false) (field "source");
  let label := default (js (highlight_kind_name kind)) (safeString (field "label") MAX_LABEL_LENGTH true) in
  if bool_decide (id ∈ ids) || (len =? 0) || (fileSize context <=? offset)
     || (Z.max 0 (fileSize context - offset) <? len) then None
  else Some (mkHighlight id offset len kind
         (if slen label =? 0 then js (highlight_kind_name kind) else label)
         source (is_true (field "stale"))).

Fixpoint highlights_loop (context : WebviewProtocolContext) (ids : list jsstring) (raws : list jsval)
  : option (list WebviewExternalHighlight) :=
  match raws with
  | [] => Some []
  | raw :: raws =>
      h ← normalize_highlight context ids raw;
      hs ← highlights_loop context (hl_id h :: ids) raws;
      Some (h :: hs)
  end.

Definition normalizeExternalHighlights (context : WebviewProtocolContext) (rawHighlights : jsval)
  : option (list WebviewExternalHighlight) :=
  raws ← as_array rawHighlights;
  if MAX_EXTERNAL_HIGHLIGHTS <? Z.of_nat (length raws) then None
  else highlights_loop context [] raws.

(** ** The cases of [normalizeWebviewMessage]

    [context] is the host's view of the file and [raw] the object whose
    [type] selected the case. *)

Section Cases.
Context `{JsonRuntime} (context : WebviewProtocolContext) (raw : jsobject).

Let field (k : string) : jsval := get (js k) raw.

Definition safeJsonString (value : jsval) (maxLength : Z) : option jsstring :=
  match value with
  | JString s =>
      let text := trim s in
      if slen text =? 0 then None
      else if maxLength <? slen text then None
      else match JSON_parse text with Some _ => Some text | None => None end
  | _ => None
  end.

Definition case_scroll : option WebviewToHostMessage :=
  Scroll <$> one_of scroll_name [Up; Down] (field "direction").

Definition case_scrollTo : option WebviewToHostMessage :=
  ScrollTo <$> safeFileOffset context (field "offset") false.

Definition case_setViewportMetrics : option WebviewToHostMessage :=
  SetViewportMetrics <$> safeNonNegativeInteger (field "visibleRows") 100000.

Definition case_setBytesPerRow : option WebviewToHostMessage :=
  let bytesPerRow := normalizeBytesPerRow (field "bytesPerRow") in
  persist ← opt_field bool_value (field "persist");
  if is_int (field "bytesPerRow") bytesPerRow then Some (SetBytesPerRow bytesPerRow persist) else None.

Definition case_setBytesPerRowMode : option WebviewToHostMessage :=
  if is_str (field "mode") "fixed" then Some SetBytesPerRowMode else None.

Definition case_setTextEncoding : option WebviewToHostMessage :=
  SetTextEncoding <$> safeTextEncoding (field "textEncoding").

Definition case_requestAnalysisProfile : option WebviewToHostMessage :=
  '(offset, len) ← safeFileLengthRange context (field "offset") (field "length") false MAX_SAFE_INTEGER;
  requestedLength ← safeNonNegativeInteger (field "requestedLength") MAX_SAFE_INTEGER;
  requestKey ← safeString (field "requestKey") MAX_LABEL_LENGTH false;
  scopeLabel ← safeString (field "scopeLabel") MAX_LABEL_LENGTH false;
  Some (RequestAnalysisProfile offset (Z.min len MAX_ANALYSIS_PROFILE_BYTES) requestKey scopeLabel
    requestedLength (safeBoolean (field "isCapped") false)).

Definition case_requestActionJournalViewport : option WebviewToHostMessage :=
  anchorSerial ← opt_field safeActionJournalDecimal (field "anchorSerial");
  capacity ← opt_field (fun v => safeNonNegativeInteger v 1000) (field "capacity");
  direction ← opt_field (one_of journal_direction_name [JournalOlder; JournalNewer])
    (field "direction");
  append ← opt_field bool_value (field "append");
  if bool_decide (capacity = Some 0) then None
  else Some (RequestActionJournalViewport anchorSerial capacity direction append).

Definition case_navigateActionJournal : option WebviewToHostMessage :=
  NavigateActionJournal <$> safeActionJournalDecimal (field "changeCount").

Definition case_selection (cut : bool) : option WebviewToHostMessage :=
  '(offset, len) ←
    safeFileLengthRange context (field "offset") (field "length") false MAX_WEBVIEW_HEX_BYTES;
  format ← one_of format_name [FormatHex; FormatUtf8] (field "format");
  Some ((if cut then CutSelection else CopySelection) offset len format).

Definition case_insert : option WebviewToHostMessage :=
  offset ← safeNonNegativeInteger (field "offset") MAX_SAFE_INTEGER;
  data ← safeHexString (field "data") MAX_WEBVIEW_HEX_BYTES false;
  if fileSize context <? offset then None else Some (Insert offset data).

(** [data.length / 2] is exact: the length of a checked hexadecimal text is
    even. *)
Definition case_overwrite : option WebviewToHostMessage :=
  offset ← safeNonNegativeInteger (field "offset") MAX_SAFE_INTEGER;
  data ← safeHexString (field "data") MAX_WEBVIEW_HEX_BYTES false;
  if (fileSize context <=? offset) || (Z.max 0 (fileSize context - offset) <? slen data / 2)
  then None else Some (Overwrite offset data).

Definition case_replace : option WebviewToHostMessage :=
  '(offset, len) ← safeFileLengthRange context (field "offset") (field "length") true MAX_SAFE_INTEGER;
  data ← safeHexString (field "data") MAX_WEBVIEW_HEX_BYTES true;
  Some (Replace offset len data).

(** ['delete'], ['exportRange'] and ['replaceRangeWithFile'] *)
Definition case_range (build : Z -> Z -> WebviewToHostMessage) : option WebviewToHostMessage :=
  '(offset, len) ← safeFileLengthRange context (field "offset") (field "length") false MAX_SAFE_INTEGER;
  Some (build offset len).

Definition case_insertFile : option WebviewToHostMessage :=
  InsertFile <$> safeFileOffset context (field "offset") true.

Definition case_setInsertDirection : option WebviewToHostMessage :=
  SetInsertDirection <$> safeInsertDirection (field "insertDirection").

(** [query], [isHex], [caseInsensitive] and [textEncoding] of the search
    messages. *)
Definition safe_terms : option search_terms :=
  query ← safeSearchQuery raw;
  textEncoding ← opt_field safeTextEncoding (field "textEncoding");
  Some (mkTerms query (is_true (field "isHex")) (safeBoolean (field "caseInsensitive") false)
    textEncoding).

Definition case_replaceAllMatches : option WebviewToHostMessage :=
  terms ← safe_terms;
  data ← safeHexString (field "data") MAX_WEBVIEW_HEX_BYTES true;
  len ← safeNonNegativeInteger (field "length") MAX_SAFE_INTEGER;
  if len =? 0 then None
  else Some (ReplaceAllMatches terms (safeBoolean (field "isReverse") false) len data).

Definition case_applyTransform : option WebviewToHostMessage :=
  pluginId ← safeString (field "pluginId") MAX_LABEL_LENGTH false;
  contentSource ← (if is_undefined (field "contentSource") then Some Computed
                   else safeSessionContentSource (field "contentSource"));
  '(offset, len) ←
    safeContentLengthRange context contentSource (field "offset") (field "length") true MAX_SAFE_INTEGER;
  optionsJson ← opt_field (fun v => safeJsonString v MAX_TRANSFORM_OPTIONS_LENGTH)
    (field "optionsJson");
  Some (ApplyTransform pluginId contentSource offset len optionsJson).

Definition case_search : option WebviewToHostMessage :=
  terms ← safe_terms; Some (Search terms (safeBoolean (field "isReverse") false)).

Definition case_goToMatch : option WebviewToHostMessage :=
  GoToMatch <$> safeFileOffset context (field "offset") false.

Definition case_findAdjacentMatch : option WebviewToHostMessage :=
  terms ← safe_terms;
  offset ← safeFileOffset context (field "offset") false;
  direction ← one_of direction_name [Forward; Backward] (field "direction");
  Some (FindAdjacentMatch terms direction offset).

Definition case_searchViewportMatches : option WebviewToHostMessage :=
  terms ← safe_terms;
  viewportOffset ← safeFileOffset context (field "viewportOffset") false;
  viewportLength ← safeIntegerAtLeast (field "viewportLength") 1 MAX_SAFE_INTEGER;
  if viewportLength <=? 0 then None
  else Some (SearchViewportMatches terms viewportOffset viewportLength).

Definition message_case (t : message_type) : option WebviewToHostMessage :=
  match t with
  | T_editorStateChanged => EditorStateChanged <$> normalizeEditorUiState context raw
  | T_scroll => case_scroll
  | T_scrollTo => case_scrollTo
  | T_setViewportMetrics => case_setViewportMetrics
  | T_setBytesPerRow => case_setBytesPerRow
  | T_setBytesPerRowMode => case_setBytesPerRowMode
  | T_setTextEncoding => case_setTextEncoding
  | T_requestAnalysisProfile => case_requestAnalysisProfile
  | T_plain c => Some (Plain c)
  | T_requestActionJournalViewport => case_requestActionJournalViewport
  | T_navigateActionJournal => case_navigateActionJournal
  | T_copySelection => case_selection false
  | T_cutSelection => case_selection true
  | T_insert => case_insert
  | T_delete => case_range Delete
  | T_overwrite => case_overwrite
  | T_replace => case_replace
  | T_exportRange => case_range ExportRange
  | T_insertFile => case_insertFile
  | T_replaceRangeWithFile => case_range ReplaceRangeWithFile
  | T_setInsertDirection => case_setInsertDirection
  | T_replaceAllMatches => case_replaceAllMatches
  | T_applyTransform => case_applyTransform
  | T_search => case_search
  | T_goToMatch => case_goToMatch
  | T_findAdjacentMatch => case_findAdjacentMatch
  | T_searchViewportMatches => case_searchViewportMatches
  end.
End Cases.

Definition normalizeWebviewMessage `{JsonRuntime} (context : WebviewProtocolContext) (raw : jsval)
  : option WebviewToHostMessage :=
  o ← isRecord raw;
  t ← one_of type_name message_types (get (js "type") o);
  message_case context o t.

(** ** Which messages are in order

    [message_ok] says of a typed message that every number is in its range
    and every text in its form; nothing here mentions the checks above. *)

Definition safe_nat (z : Z) : Prop := 0 <= z <= MAX_SAFE_INTEGER.

(** [len] bytes at [offset] lie in a content of [size] bytes. *)
Definition range_in (size offset len : Z) : Prop :=
  safe_nat offset /\ safe_nat len /\ offset + len <= size.

(** An offset of a byte; the empty content has offset zero. *)
Definition byte_offset (size offset : Z) : Prop :=
  safe_nat offset /\ (offset < size \/ offset = 0).

Definition text_ok (max : Z) (s : jsstring) : Prop := trim s = s /\ s <> [] /\ slen s <= max.

(** The hexadecimal form of at most [max] bytes. *)
Definition hex_ok (max : Z) (s : jsstring) : Prop :=
  Forall (fun c => is_Some (hex_value c)) s /\ slen s mod 2 = 0 /\ slen s <= 2 * max.

Definition decimal_ok (s : jsstring) : Prop := canonical_decimal s = true /\ slen s <= 19.

Definition option_ok {A} (P : A -> Prop) (o : option A) : Prop :=
  match o with Some a => P a | None => True end.

Definition terms_ok (t : search_terms) : Prop :=
  if st_isHex t then hex_ok MAX_SEARCH_QUERY_LENGTH (st_query t) /\ st_query t <> []
  else text_ok MAX_SEARCH_QUERY_LENGTH (st_query t).

(** No selection has both ends at -1 and length 0; a selection has its two
    ends inclusive and inside the file. *)
Definition selection_ok (size start stop len : Z) : Prop :=
  start = -1 /\ stop = -1 /\ len = 0 \/
  0 <= start <= stop /\ stop < size /\ len = stop - start + 1.

Definition ui_state_ok (size : Z) (st : WebviewEditorUiState) : Prop :=
  range_in size (ui_visibleOffset st) (ui_visibleByteCount st) /\
  ui_visibleByteCount st <= MAX_WEBVIEW_HEX_BYTES /\
  -1 <= ui_selectedOffset st <= Z.min size MAX_SAFE_INTEGER /\
  selection_ok size (ui_selectionStart st) (ui_selectionEnd st) (ui_selectionLength st) /\
  ui_selectionEnd st <= MAX_SAFE_INTEGER /\ ui_selectionLength st <= MAX_WEBVIEW_HEX_BYTES /\
  MIN_BYTES_PER_ROW <= ui_bytesPerRow st <= MAX_BYTES_PER_ROW.

Definition message_ok `{JsonRuntime} (context : WebviewProtocolContext) (m : WebviewToHostMessage)
  : Prop :=
  let size := fileSize context in
  match m with
  | EditorStateChanged st => ui_state_ok size st
  | ScrollTo offset | GoToMatch offset => byte_offset size offset
  | SetViewportMetrics rows => 0 <= rows <= 100000
  | SetBytesPerRow n _ => MIN_BYTES_PER_ROW <= n <= MAX_BYTES_PER_ROW
  | RequestAnalysisProfile offset len key label requested _ =>
      range_in size offset len /\ 0 < len <= MAX_ANALYSIS_PROFILE_BYTES /\
      text_ok MAX_LABEL_LENGTH key /\ text_ok MAX_LABEL_LENGTH label /\ safe_nat requested
  | RequestActionJournalViewport anchor capacity _ _ =>
      option_ok decimal_ok anchor /\ option_ok (fun n => 1 <= n <= 1000) capacity
  | NavigateActionJournal changeCount => decimal_ok changeCount
  | CopySelection offset len _ | CutSelection offset len _ =>
      range_in size offset len /\ 0 < len <= MAX_WEBVIEW_HEX_BYTES
  | Insert offset data =>
      safe_nat offset /\ offset <= size /\ hex_ok MAX_WEBVIEW_HEX_BYTES data /\ data <> []
  | Delete offset len | ExportRange offset len | ReplaceRangeWithFile offset len =>
      range_in size offset len /\ 0 < len
  | Overwrite offset data =>
      hex_ok MAX_WEBVIEW_HEX_BYTES data /\ data <> [] /\ range_in size offset (slen data / 2)
  | Replace offset len data => range_in size offset len /\ hex_ok MAX_WEBVIEW_HEX_BYTES data
  | InsertFile offset => safe_nat offset /\ offset <= size
  | ReplaceAllMatches terms _ len data =>
      terms_ok terms /\ safe_nat len /\ 0 < len /\ hex_ok MAX_WEBVIEW_HEX_BYTES data
  | ApplyTransform pluginId source offset len options =>
      text_ok MAX_LABEL_LENGTH pluginId /\
      (exists byteLength, sessionContentByteLength context source = Some byteLength /\
         range_in byteLength offset len) /\
      option_ok (fun s => text_ok MAX_TRANSFORM_OPTIONS_LENGTH s /\ is_Some (JSON_parse s)) options
  | Search terms _ => terms_ok terms
  | FindAdjacentMatch terms _ offset => terms_ok terms /\ byte_offset size offset
  | SearchViewportMatches terms offset len =>
      terms_ok terms /\ byte_offset size offset /\ safe_nat len /\ 0 < len
  | Scroll _ | SetBytesPerRowMode | SetTextEncoding _ | Plain _ | SetInsertDirection _ => True
  end.

(** ** Typed messages as the objects they are *)

Definition num (z : Z) : jsval := JNumber (NInt z).
Definition name_value (s : string) : jsval := JString (js s).

Definition ui_state_value (st : WebviewEditorUiState) : jsobject :=
  [(js "visibleOffset", num (ui_visibleOffset st));
   (js "visibleByteCount", num (ui_visibleByteCount st));
   (js "selectedOffset", num (ui_selectedOffset st));
   (js "selectionStart", num (ui_selectionStart st));
   (js "selectionEnd", num (ui_selectionEnd st));
   (js "selectionLength", num (ui_selectionLength st));
   (js "bytesPerRow", num (ui_bytesPerRow st));
   (js "offsetRadix", name_value (radix_name (ui_offsetRadix st)));
   (js "textEncoding", name_value (encoding_name (ui_textEncoding st)));
   (js "activePane", name_value (pane_name (ui_activePane st)));
   (js "editMode", name_value (edit_mode_name (ui_editMode st)));
   (js "insertDirection", name_value (direction_name (ui_insertDirection st)))].

Definition terms_value (t : search_terms) : jsobject :=
  [(js "query", JString (st_query t)); (js "isHex", JBool (st_isHex t));
   (js "caseInsensitive", JBool (st_caseInsensitive t))]
  ++ opt_prop "textEncoding" (name_value ∘ encoding_name <$> st_textEncoding t).

Definition range_value (offset len : Z) : jsobject :=
  [(js "offset", num offset); (js "length", num len)].

(** The type and the other properties of a message. *)
Definition message_fields (m : WebviewToHostMessage) : message_type * jsobject :=
  match m with
  | EditorStateChanged st => (T_editorStateChanged, ui_state_value st)
  | Scroll d => (T_scroll, [(js "direction", name_value (scroll_name d))])
  | ScrollTo offset => (T_scrollTo, [(js "offset", num offset)])
  | SetViewportMetrics rows => (T_setViewportMetrics, [(js "visibleRows", num rows)])
  | SetBytesPerRow n persist =>
      (T_setBytesPerRow, (js "bytesPerRow", num n) :: opt_prop "persist" (JBool <$> persist))
  | SetBytesPerRowMode => (T_setBytesPerRowMode, [(js "mode", name_value "fixed")])
  | SetTextEncoding e => (T_setTextEncoding, [(js "textEncoding", name_value (encoding_name e))])
  | RequestAnalysisProfile offset len key label requested capped =>
      (T_requestAnalysisProfile, range_value offset len ++
        [(js "requestKey", JString key); (js "scopeLabel", JString label);
         (js "requestedLength", num requested); (js "isCapped", JBool capped)])
  | Plain c => (T_plain c, [])
  | RequestActionJournalViewport anchor capacity direction append =>
      (T_requestActionJournalViewport,
       opt_prop "anchorSerial" (JString <$> anchor) ++ opt_prop "capacity" (num <$> capacity) ++
       opt_prop "direction" (name_value ∘ journal_direction_name <$> direction) ++
       opt_prop "append" (JBool <$> append))
  | NavigateActionJournal n => (T_navigateActionJournal, [(js "changeCount", JString n)])
  | CopySelection offset len f =>
      (T_copySelection, range_value offset len ++ [(js "format", name_value (format_name f))])
  | CutSelection offset len f =>
      (T_cutSelection, range_value offset len ++ [(js "format", name_value (format_name f))])
  | Insert offset data => (T_insert, [(js "offset", num offset); (js "data", JString data)])
  | Delete offset len => (T_delete, range_value offset len)
  | Overwrite offset data => (T_overwrite, [(js "offset", num offset); (js "data", JString data)])
  | Replace offset len data => (T_replace, range_value offset len ++ [(js "data", JString data)])
  | ExportRange offset len => (T_exportRange, range_value offset len)
  | InsertFile offset => (T_insertFile, [(js "offset", num offset)])
  | ReplaceRangeWithFile offset len => (T_replaceRangeWithFile, range_value offset len)
  | SetInsertDirection d =>
      (T_setInsertDirection, [(js "insertDirection", name_value (direction_name d))])
  | ReplaceAllMatches terms isReverse len data =>
      (T_replaceAllMatches, terms_value terms ++
        [(js "isReverse", JBool isReverse); (js "length", num len); (js "data", JString data)])
  | ApplyTransform pluginId source offset len options =>
      (T_applyTransform, [(js "pluginId", JString pluginId);
        (js "contentSource", name_value (content_name source))] ++ range_value offset len ++
        [(js "optionsJson", default JUndefined (JString <$> options))])
  | Search terms isReverse => (T_search, terms_value terms ++ [(js "isReverse", JBool isReverse)])
  | GoToMatch offset => (T_goToMatch, [(js "offset", num offset)])
  | FindAdjacentMatch terms direction offset =>
      (T_findAdjacentMatch, terms_value terms ++
        [(js "direction", name_value (direction_name direction)); (js "offset", num offset)])
  | SearchViewportMatches terms offset len =>
      (T_searchViewportMatches, terms_value terms ++
        [(js "viewportOffset", num offset); (js "viewportLength", num len)])
  end.

Definition message_value (m : WebviewToHostMessage) : jsval :=
  let '(t, fields) := message_fields m in JObject ((js "type", name_value (type_name t)) :: fields).

(** ** Lemmas on the checks

    For each check, what it says of a value it accepts and that it accepts
    every value in order. *)

Ltac some_step :=
  match goal with
  | H : mbind _ _ = Some _ |- _ => apply bind_Some in H as (? & ? & H)
  | H : fmap _ _ = Some _ |- _ => apply fmap_Some in H as (? & ? & H)
  | H : (let '(_, _) := ?p in _) = Some _ |- _ => destruct p
  | H : (if ?b then _ else _) = Some _ |- _ =>
      let E := fresh "Hif" in destruct b eqn:E; cbv beta iota in H
  | H : Some _ = Some _ |- _ => injection H as H
  | H : None = Some _ |- _ => discriminate H
  end.
Ltac some_inv := repeat some_step.

Lemma int_between_spec lo hi v z :
  int_between lo hi v = Some z <-> v = num z /\ lo <= z <= hi /\ Z.abs z <= MAX_SAFE_INTEGER.
Proof.
  unfold int_between, num, safeZ. split.
  - destruct v as [| | |[n| | |]| | | |]; try discriminate. intros H. some_inv. subst. bool_prop.
    repeat split; lia.
  - intros (-> & Hz & Hs). rewrite !(proj2 (Z.leb_le _ _)) by lia. done.
Qed.

Lemma int_between_num lo hi z :
  lo <= z <= hi -> Z.abs z <= MAX_SAFE_INTEGER -> int_between lo hi (num z) = Some z.
Proof. intros Hz Hs. by apply int_between_spec. Qed.

Lemma is_str_spec v name : is_str v name = true <-> v = name_value name.
Proof.
  unfold is_str, name_value. destruct v; try done. rewrite bool_decide_eq_true.
  split; [by intros ->|]. by intros [= ->].
Qed.

Lemma one_of_sound {A} (name : A -> string) l v a :
  one_of name l v = Some a -> v = name_value (name a).
Proof. intros H. apply find_some in H as [_ H]. by apply is_str_spec. Qed.

Lemma safe_encoding_spec v e : safeTextEncoding v = Some e <-> v = name_value (encoding_name e).
Proof.
  unfold safeTextEncoding. split.
  - intros H. some_inv. subst. by apply is_str_spec.
  - intros ->. by destruct e.
Qed.

Lemma is_int_spec v z : is_int v z = true <-> v = num z.
Proof.
  unfold is_int, num. destruct v as [| | |[n| | |]| | | |]; try done. rewrite Z.eqb_eq.
  split; [by intros ->|]. by intros [= ->].
Qed.

Lemma bytes_per_row_spec v z :
  normalizeBytesPerRow v = z /\ is_int v z = true <->
  v = num z /\ MIN_BYTES_PER_ROW <= z <= MAX_BYTES_PER_ROW.
Proof.
  unfold normalizeBytesPerRow. rewrite is_int_spec. split.
  - intros [H ->]. split; [done|]. destruct (int_between _ _ _) eqn:E; cbn in H.
    + apply int_between_spec in E as (_ & E & _). lia.
    + subst z. unfold DEFAULT_BYTES_PER_ROW, MIN_BYTES_PER_ROW, MAX_BYTES_PER_ROW. lia.
  - intros [-> Hz]. split; [|done].
    rewrite (proj2 (int_between_spec _ _ _ z)); [done|]. split; [done|]. split; [done|].
    unfold MIN_BYTES_PER_ROW, MAX_BYTES_PER_ROW, MAX_SAFE_INTEGER in *. lia.
Qed.

Lemma slen_zero s : slen s = 0 <-> s = [].
Proof. unfold slen. destruct s; cbn; split; (done || lia). Qed.

Lemma slen_nonneg s : 0 <= slen s.
Proof. unfold slen. lia. Qed.

Lemma safe_string_sound v max empty s :
  safeString v max empty = Some s -> trim s = s /\ slen s <= max /\ (empty = false -> s <> []).
Proof.
  unfold safeString. destruct v; try discriminate. intros H. some_inv. subst. bool_prop.
  split; [apply trim_idem|]. split; [done|]. intros ->. rewrite <- slen_zero.
  cbn in *. by apply Z.eqb_neq.
Qed.

Lemma safe_string_complete s max empty :
  trim s = s -> slen s <= max -> (empty = false -> s <> []) ->
  safeString (JString s) max empty = Some s.
Proof.
  intros Ht Hl He. unfold safeString. rewrite Ht, (proj2 (Z.ltb_ge _ _)) by done.
  destruct empty; cbn; [done|]. by rewrite (proj2 (Z.eqb_neq _ _)) by (rewrite slen_zero; auto).
Qed.

Lemma hex_not_space c : is_Some (hex_value c) -> is_js_space c = false.
Proof.
  intros [x H]. unfold hex_value, is_js_space in *. some_inv; bool_prop;
    rewrite !orb_false_iff, !andb_false_iff, !Z.leb_gt, !Z.eqb_neq; lia.
Qed.

Lemma remove_spaces_hex s :
  Forall (fun c => is_Some (hex_value c)) s -> remove_spaces s = s.
Proof.
  unfold remove_spaces. induction 1 as [|c s Hc _ IH]; [done|]. cbn.
  by rewrite (hex_not_space c Hc), IH.
Qed.

Lemma hex_digits_spec s :
  forallb is_hex_unit s = true <-> Forall (fun c => is_Some (hex_value c)) s.
Proof.
  rewrite forallb_forall, List.Forall_forall. unfold is_hex_unit.
  split; intros H c Hc; [exact (proj1 (bool_decide_eq_true _) (H c Hc))|].
  exact (proj2 (bool_decide_eq_true _) (H c Hc)).
Qed.

Lemma safe_hex_sound v max empty s :
  safeHexString v max empty = Some s -> hex_ok max s /\ (empty = false -> s <> []).
Proof.
  unfold safeHexString. destruct v; try discriminate. intros H. some_inv. subst. bool_prop.
  split.
  - split; [by apply hex_digits_spec|]. split; [done|lia].
  - intros ->. rewrite <- slen_zero. cbn in *. by apply Z.eqb_neq.
Qed.

Lemma safe_hex_complete s max empty :
  hex_ok max s -> (empty = false -> s <> []) -> safeHexString (JString s) max empty = Some s.
Proof.
  intros (Hh & Hm & Hl) He. unfold safeHexString. rewrite (remove_spaces_hex s Hh).
  rewrite (proj2 (Z.ltb_ge _ _)) by lia. rewrite Hm, (proj2 (hex_digits_spec s)) by done.
  destruct empty; cbn; [done|]. by rewrite (proj2 (Z.eqb_neq _ _)) by (rewrite slen_zero; auto).
Qed.

Lemma safe_range_sound context a b zero max offset len :
  safeFileLengthRange context a b zero max = Some (offset, len) ->
  range_in (fileSize context) offset len /\ len <= max /\ (zero = false -> 0 < len).
Proof.
  unfold safeFileLengthRange, safeNonNegativeInteger. intros H. some_inv. subst.
  repeat match goal with H : int_between _ _ _ = _ |- _ => apply int_between_spec in H as (_ & ? & ?) end.
  bool_prop. unfold range_in, safe_nat. repeat split; try lia.
  intros ->. cbn in *. bool_prop. lia.
Qed.

Lemma safe_range_complete context zero max offset len :
  range_in (fileSize context) offset len -> len <= max -> (zero = false -> 0 < len) ->
  safeFileLengthRange context (num offset) (num len) zero max = Some (offset, len).
Proof.
  unfold range_in, safe_nat. intros (Ho & Hl & Hs) Hm Hz. unfold safeFileLengthRange, safeNonNegativeInteger.
  rewrite (int_between_num _ _ offset), (int_between_num _ _ len) by lia. cbn [mbind option_bind].
  rewrite (proj2 (Z.ltb_ge (fileSize context) offset)), (proj2 (Z.ltb_ge _ len)) by lia.
  destruct zero; cbn; [done|]. by rewrite (proj2 (Z.eqb_neq _ _)) by (specialize (Hz eq_refl); lia).
Qed.

Lemma file_offset_spec context v (atEnd : bool) offset :
  safeFileOffset context v atEnd = Some offset <->
  v = num offset /\
  (if atEnd then safe_nat offset /\ offset <= fileSize context else byte_offset (fileSize context) offset).
Proof.
  unfold safeFileOffset, safeNonNegativeInteger, byte_offset, safe_nat.
  rewrite int_between_spec. destruct atEnd; split; intros [-> H]; repeat split; lia.
Qed.

Lemma journal_decimal_spec v s :
  safeActionJournalDecimal v = Some s <-> v = JString s /\ decimal_ok s.
Proof.
  unfold safeActionJournalDecimal, decimal_ok. split.
  - destruct v; try discriminate. intros H. some_inv. subst. by bool_prop.
  - intros (-> & -> & Hl). by rewrite (proj2 (Z.leb_le _ _)) by done.
Qed.

Lemma opt_field_sound {A} (f : jsval -> option A) v o :
  opt_field f v = Some o ->
  match o with None => v = JUndefined | Some a => f v = Some a end.
Proof. unfold opt_field. destruct v; intros H; some_inv; subst; done. Qed.

Lemma opt_field_some {A} (f : jsval -> option A) v a :
  f v = Some a -> v <> JUndefined -> opt_field f v = Some (Some a).
Proof. intros Hf Hv. unfold opt_field. destruct v; try done; by rewrite Hf. Qed.

Lemma get_hit k v o : get k ((k, v) :: o) = v.
Proof. cbn. by rewrite bool_decide_eq_true_2. Qed.

Lemma get_miss k k' v o : bool_decide (k' = k) = false -> get k ((k', v) :: o) = get k o.
Proof. cbn. by intros ->. Qed.

Lemma get_nil k : get k [] = JUndefined.
Proof. done. Qed.

(** Read the properties of a literal object. *)
Ltac look := repeat first
  [ rewrite get_hit | rewrite get_miss by (vm_compute; reflexivity) | rewrite get_nil ].

Lemma type_found t : one_of type_name message_types (name_value (type_name t)) = Some t.
Proof. destruct t as [| | | | | | | |[]| | | | | | | | | | | | | | | | | |]; reflexivity. Qed.

Ltac ui_fields :=
  cbn [ui_visibleOffset ui_visibleByteCount ui_selectedOffset ui_selectionStart ui_selectionEnd
       ui_selectionLength ui_bytesPerRow ui_offsetRadix ui_textEncoding ui_activePane ui_editMode
       ui_insertDirection].

Lemma ui_state_sound context raw st :
  normalizeEditorUiState context raw = Some st -> ui_state_ok (fileSize context) st.
Proof.
  unfold normalizeEditorUiState, safeNonNegativeInteger, safeIntegerAtLeast. intros H. some_inv. subst.
  repeat match goal with H : int_between _ _ _ = _ |- _ => apply int_between_spec in H as (_ & ? & ?) end.
  match goal with H : negb (is_int ?v _) = false |- _ => apply negb_false_iff in H;
    destruct (proj1 (bytes_per_row_spec v _) (conj eq_refl H)) as [_ ?] end.
  bool_prop. unfold ui_state_ok, range_in, safe_nat, selection_ok. ui_fields.
  split; [lia|]. split; [lia|]. split; [lia|]. split; [|lia].
  destruct (Z.leb_spec 0 x2), (Z.leb_spec 0 x3); cbn in *; bool_prop;
    repeat match goal with H : _ |- _ => rewrite ?andb_false_iff, ?orb_false_iff, ?negb_false_iff in H end;
    bool_prop; lia.
Qed.

Lemma ui_state_complete context o st :
  ui_state_ok (fileSize context) st ->
  (forall k, is_undefined (get k (ui_state_value st)) = false -> get k o = get k (ui_state_value st)) ->
  normalizeEditorUiState context o = Some st.
Proof.
  destruct st as [vo vc so ss se sl bpr radix enc pane mode dir]. unfold ui_state_ok, range_in, safe_nat.
  ui_fields.
  intros ((Hvo & Hvc & Hv) & Hvm & Hso & Hsel & Hse & Hsl & Hbpr) Hget.
  unfold normalizeEditorUiState, safeNonNegativeInteger, safeIntegerAtLeast.
  rewrite !Hget by (vm_compute; reflexivity).
  unfold ui_state_value. ui_fields. look.
  destruct (proj2 (bytes_per_row_spec (num bpr) bpr) (conj eq_refl Hbpr)) as [-> ->].
  unfold selection_ok in Hsel.
  rewrite !int_between_num by (unfold MAX_SAFE_INTEGER, MAX_WEBVIEW_HEX_BYTES in *; lia).
  rewrite (proj2 (safe_encoding_spec _ enc) eq_refl).
  replace (safeOffsetRadix (name_value (radix_name radix))) with (Some radix) by (by destruct radix).
  replace (safeGridEditPane (name_value (pane_name pane))) with (Some pane) by (by destruct pane).
  replace (safeWebviewEditMode (name_value (edit_mode_name mode))) with (Some mode) by (by destruct mode).
  replace (safeInsertDirection (name_value (direction_name dir))) with (Some dir) by (by destruct dir).
  cbn [mbind option_bind default negb].
  rewrite (proj2 (Z.ltb_ge (fileSize context) vo)), (proj2 (Z.ltb_ge _ vc)),
    (proj2 (Z.ltb_ge (fileSize context) so)) by lia. cbn [orb].
  destruct Hsel as [(-> & -> & ->)|(Hs1 & Hs2 & ->)]; [reflexivity|].
  rewrite (proj2 (Z.leb_le 0 ss)), (proj2 (Z.ltb_ge ss 0)), (proj2 (Z.ltb_ge se ss)),
    (proj2 (Z.leb_gt (fileSize context) se)), Z.eqb_refl by lia. reflexivity.
Qed.

Lemma terms_sound raw t : safe_terms raw = Some t -> terms_ok t.
Proof.
  unfold safe_terms, safeSearchQuery, terms_ok. intros H. some_inv; subst; cbn [st_isHex st_query];
    rewrite ?Hif; cbv iota.
  all: match goal with
    | H : safeHexString _ _ _ = _ |- _ => apply safe_hex_sound in H as [? ?]
    | H : safeString _ _ _ = _ |- _ => apply safe_string_sound in H as (? & ? & ?)
    end; unfold text_ok; auto.
Qed.

Lemma terms_complete v t rest :
  terms_ok t -> is_undefined (get (js "textEncoding") rest) = true ->
  safe_terms ((js "type", v) :: terms_value t ++ rest) = Some t.
Proof.
  intros Ht Hrest. destruct t as [query isHex ci enc].
  unfold safe_terms, safeSearchQuery, terms_value. cbv zeta.
  cbn [st_query st_isHex st_caseInsensitive st_textEncoding app]. look.
  unfold terms_ok in Ht. cbn [st_query st_isHex] in Ht.
  assert (Hterm : (if is_true (JBool isHex)
    then safeHexString (JString query) MAX_SEARCH_QUERY_LENGTH false
    else safeString (JString query) MAX_SEARCH_QUERY_LENGTH false) = Some query).
  { destruct isHex; cbn [is_true].
    - destruct Ht. by apply safe_hex_complete.
    - destruct Ht as (? & ? & ?). by apply safe_string_complete. }
  rewrite Hterm. cbn [mbind option_bind safeBoolean].
  replace (is_true (JBool isHex)) with isHex by (by destruct isHex).
  destruct enc as [e|]; cbn [fmap option_fmap option_map opt_prop app compose]; look.
  - by rewrite (opt_field_some _ _ e) by (done || by apply safe_encoding_spec).
  - destruct (get (js "textEncoding") rest); done.
Qed.

Ltac sound_step :=
  match goal with
  | H : int_between _ _ _ = Some _ |- _ => apply int_between_spec in H as (_ & ? & ?)
  | H : safeFileLengthRange _ _ _ _ _ = Some _ |- _ => apply safe_range_sound in H as (? & ? & ?)
  | H : safeString _ _ _ = Some _ |- _ => apply safe_string_sound in H as (? & ? & ?)
  | H : safeHexString _ _ _ = Some _ |- _ => apply safe_hex_sound in H as (? & ?)
  | H : safeFileOffset _ _ _ = Some _ |- _ => apply file_offset_spec in H as (_ & ?)
  | H : safe_terms _ = Some _ |- _ => apply terms_sound in H
  | H : safeActionJournalDecimal _ = Some _ |- _ => apply journal_decimal_spec in H as (_ & ?)
  | H : normalizeEditorUiState _ _ = Some _ |- _ => apply ui_state_sound in H
  end.

Ltac range_lia :=
  intros; unfold range_in, safe_nat, MAX_SAFE_INTEGER, MAX_WEBVIEW_HEX_BYTES,
    MAX_ANALYSIS_PROFILE_BYTES in *; lia.

Section Messages.
Context `{JsonRuntime} (context : WebviewProtocolContext).

Lemma json_sound v max s :
  safeJsonString v max = Some s -> text_ok max s /\ is_Some (JSON_parse s).
Proof.
  unfold safeJsonString, text_ok. destruct v as [| | | | |r| |]; try discriminate. intros Hs.
  destruct (JSON_parse (trim r)) eqn:E; some_inv; subst s. bool_prop.
  rewrite E, trim_idem, <- slen_zero. repeat split; eauto; lia.
Qed.

Lemma json_complete max s :
  text_ok max s -> is_Some (JSON_parse s) -> safeJsonString (JString s) max = Some s.
Proof.
  unfold safeJsonString, text_ok. intros (Ht & Hn & Hl) [x Hx]. rewrite Ht, Hx.
  rewrite (proj2 (Z.eqb_neq _ _)) by (by rewrite slen_zero). by rewrite (proj2 (Z.ltb_ge _ _)) by done.
Qed.

Lemma message_sound raw m : normalizeWebviewMessage context raw = Some m -> message_ok context m.
Proof.
  unfold normalizeWebviewMessage. intros Hm. some_inv.
  match goal with H : message_case _ _ ?t = Some _ |- _ => rename t into mt end.
  destruct mt; cbn [message_case] in Hm;
    unfold case_scroll, case_scrollTo, case_setViewportMetrics, case_setBytesPerRow,
      case_setBytesPerRowMode, case_setTextEncoding, case_requestAnalysisProfile,
      case_requestActionJournalViewport, case_navigateActionJournal, case_selection, case_insert,
      case_overwrite, case_replace, case_range, case_insertFile, case_setInsertDirection,
      case_replaceAllMatches, case_applyTransform, case_search, case_goToMatch,
      case_findAdjacentMatch, case_searchViewportMatches, safeContentLengthRange,
      safeNonNegativeInteger, safeIntegerAtLeast in Hm; cbv zeta in Hm; some_inv; subst m;
    repeat sound_step; bool_prop; unfold message_ok, range_in, safe_nat, text_ok in *;
    try (destruct_and?; split_and?; solve [assumption | auto | lia]).
  - (* bytes per row *)
    match goal with H : is_int ?v _ = true |- _ =>
      destruct (proj1 (bytes_per_row_spec v _) (conj eq_refl H)) as [_ ?] end. done.
  - (* analysis profile *)
    unfold MAX_ANALYSIS_PROFILE_BYTES in *. destruct_and?. split_and?; auto; lia.
  - (* journal viewport *)
    repeat match goal with H : opt_field _ _ = Some _ |- _ => apply opt_field_sound in H end.
    split; [destruct x0|destruct x1 as [n|]]; cbn [option_ok]; repeat sound_step; auto.
    assert (n <> 0) by (intros ->; done). lia.
  - (* overwrite *)
    pose proof (slen_nonneg x1).
    assert (0 <= slen x1 / 2 <= MAX_SAFE_INTEGER).
    { destruct H3 as (_ & _ & Hmax). split; [apply Z.div_pos; lia|].
      apply Z.div_le_upper_bound; [lia|]. unfold MAX_SAFE_INTEGER, MAX_WEBVIEW_HEX_BYTES in *. lia. }
    split_and?; auto; lia.
  - (* transform *)
    repeat match goal with H : opt_field _ _ = Some _ |- _ => apply opt_field_sound in H end.
    split_and?; eauto 10. destruct x2; [|done]. by eapply json_sound.
  - repeat match goal with H : opt_field _ _ = Some _ |- _ => apply opt_field_sound in H end.
    split_and?; eauto 10. destruct x2; [|done]. by eapply json_sound.
Qed.

Lemma get_terms k t rest :
  bool_decide (k ∈ [js "query"; js "isHex"; js "caseInsensitive"; js "textEncoding"]) = false ->
  get k (terms_value t ++ rest) = get k rest.
Proof.
  intros Hk. apply bool_decide_eq_false in Hk. unfold terms_value.
  destruct (st_textEncoding t); cbn [fmap option_fmap option_map opt_prop app];
    rewrite !get_miss; try done; apply bool_decide_eq_false; set_solver.
Qed.

(** The completeness proof reads the fields of [message_value m]. *)
Ltac complete_step :=
  match goal with
  | |- context [int_between _ _ (num ?z)] => rewrite (int_between_num _ _ z) by range_lia
  | |- context [safeFileLengthRange _ (num ?o) (num ?l) _ _] =>
      rewrite (safe_range_complete _ _ _ o l) by (done || range_lia)
  | |- context [safeString (JString ?s) _ _] => rewrite (safe_string_complete s) by done
  | |- context [safeHexString (JString ?s) _ _] => rewrite (safe_hex_complete s) by done
  | |- context [safeFileOffset _ (num ?o) _] =>
      rewrite (proj2 (file_offset_spec _ _ _ o)) by (split; done)
  | |- context [safeActionJournalDecimal (JString ?s)] =>
      rewrite (proj2 (journal_decimal_spec _ s)) by (split; done)
  | |- context [safeTextEncoding (name_value (encoding_name ?e))] =>
      rewrite (proj2 (safe_encoding_spec _ e) eq_refl)
  | |- context [safe_terms _] => rewrite terms_complete by done
  | |- context [name_value (_ ?d)] => is_var d; destruct d
  | |- context [?a <? ?b] => rewrite (proj2 (Z.ltb_ge a b)) by range_lia
  | |- context [?a <=? ?b] => rewrite (proj2 (Z.leb_gt a b)) by range_lia
  | |- context [?a =? ?b] => rewrite (proj2 (Z.eqb_neq a b)) by range_lia
  end.

Lemma journal_viewport_complete anchor capacity direction append :
  message_ok context (RequestActionJournalViewport anchor capacity direction append) ->
  normalizeWebviewMessage context
    (message_value (RequestActionJournalViewport anchor capacity direction append)) =
  Some (RequestActionJournalViewport anchor capacity direction append).
Proof.
  cbn [message_ok]. intros [Ha Hc]. unfold normalizeWebviewMessage, message_value.
  cbn [message_fields isRecord mbind option_bind]. rewrite get_hit, type_found.
  cbn [mbind option_bind message_case].
  unfold case_requestActionJournalViewport, safeNonNegativeInteger. cbv zeta.
  destruct anchor as [a|], capacity as [c|], direction as [[]|], append as [b|];
    cbn [fmap option_fmap option_map opt_prop app option_ok compose] in *; look;
    rewrite ?(opt_field_some safeActionJournalDecimal _ a)
      by (done || by apply journal_decimal_spec);
    rewrite ?(opt_field_some (int_between 0 1000) _ c)
      by (done || (apply int_between_num; range_lia));
    cbn [mbind option_bind opt_field fmap option_fmap option_map bool_value];
    rewrite ?bool_decide_eq_false_2 by (intros [= ->]; lia); reflexivity.
Qed.

Lemma message_complete m :
  message_ok context m -> normalizeWebviewMessage context (message_value m) = Some m.
Proof.
  intros Hm. destruct m;
  try match goal with |- _ = Some (RequestActionJournalViewport _ _ _ _) =>
    exact (journal_viewport_complete _ _ _ _ Hm) end;
  unfold normalizeWebviewMessage, message_value;
  cbn [message_fields isRecord mbind option_bind]; rewrite get_hit, type_found;
  cbn [mbind option_bind message_case];
    unfold case_scroll, case_scrollTo, case_setViewportMetrics, case_setBytesPerRow,
      case_setBytesPerRowMode, case_setTextEncoding, case_requestAnalysisProfile,
      case_navigateActionJournal, case_selection, case_insert,
      case_overwrite, case_replace, case_range, case_insertFile, case_setInsertDirection,
      case_replaceAllMatches, case_applyTransform, case_search, case_goToMatch,
      case_findAdjacentMatch, case_searchViewportMatches, safeContentLengthRange,
      safeNonNegativeInteger, safeIntegerAtLeast, range_value; cbv zeta; cbn [app];
    cbn [message_ok] in Hm; unfold text_ok in Hm;
    try (look; rewrite ?get_terms by (vm_compute; reflexivity); look;
         destruct_and?; repeat complete_step; cbn; repeat complete_step; reflexivity).
  - rewrite (ui_state_complete _ _ state Hm); [done|]. intros k Hk. apply get_miss.
    apply bool_decide_eq_false. intros <-. done.
  - look. destruct (proj2 (bytes_per_row_spec (num bytesPerRow) bytesPerRow) (conj eq_refl Hm)) as [-> ->].
    destruct persist as [b|]; reflexivity.
  - look. destruct_and?. repeat complete_step. cbn [mbind option_bind safeBoolean].
    by rewrite Z.min_l by done.
  - look. destruct Hm as (Hh & Hn & Hr & Hs & Hb). pose proof Hh as (_ & Hev & _).
    repeat complete_step. cbn [mbind option_bind].
    assert (slen data / 2 <> 0).
    { intros E. pose proof (Z.div_mod (slen data) 2). apply Hn, slen_zero. lia. }
    repeat complete_step. reflexivity.
  - look. destruct Hm as ((Ht & Hn & Hl) & (size & Hsize & Hr) & Ho).
    rewrite (safe_string_complete pluginId) by done.
    replace (is_undefined (name_value (content_name contentSource))) with false by done.
    replace (safeSessionContentSource (name_value (content_name contentSource)))
      with (Some contentSource) by (by destruct contentSource).
    cbn [mbind option_bind]. rewrite Hsize. cbn [mbind option_bind].
    rewrite (safe_range_complete (mkContext size None)) by (done || range_lia).
    destruct optionsJson as [o|]; [|done]. cbn [option_ok] in Ho. destruct Ho as [Ho1 Ho2].
    cbn [default fmap option_fmap option_map mbind option_bind].
    rewrite (opt_field_some _ _ o) by (done || by apply json_complete). done.
Qed.
End Messages.

(** *** Highlights *)

Definition highlight_ok (size : Z) (h : WebviewExternalHighlight) : Prop :=
  text_ok MAX_LABEL_LENGTH (hl_id h) /\
  range_in size (hl_offset h) (hl_length h) /\ 0 < hl_length h <= MAX_WEBVIEW_HEX_BYTES /\
  text_ok MAX_LABEL_LENGTH (hl_label h) /\ option_ok (text_ok MAX_LABEL_LENGTH) (hl_source h).

(** A highlight as the object it is. *)
Definition highlight_value (h : WebviewExternalHighlight) : jsval :=
  JObject ([(js "id", JString (hl_id h)); (js "offset", num (hl_offset h));
    (js "length", num (hl_length h)); (js "kind", name_value (highlight_kind_name (hl_kind h)));
    (js "label", JString (hl_label h));
    (js "source", default JUndefined (JString <$> hl_source h))]
    ++ (if hl_stale h then [(js "stale", JBool true)] else [])).

Lemma kind_label_ok k : text_ok MAX_LABEL_LENGTH (js (highlight_kind_name k)).
Proof. unfold text_ok. by destruct k. Qed.

Lemma highlight_sound context ids raw h :
  normalize_highlight context ids raw = Some h ->
  highlight_ok (fileSize context) h /\ ~ hl_id h ∈ ids.
Proof.
  unfold normalize_highlight, safeNonNegativeInteger. intros Hh. some_inv. subst h. cbn [hl_id].
  repeat match goal with H : (_ || _)%bool = false |- _ => apply orb_false_iff in H as [? ?] end.
  bool_prop. split; [|done].
  match goal with H : opt_field _ _ = Some _ |- _ => apply opt_field_sound in H end.
  unfold highlight_ok, text_ok, range_in, safe_nat.
  cbn [hl_id hl_offset hl_length hl_label hl_source].
  repeat match goal with
  | H : safeString (get (js "id") _) _ _ = Some _ |- _ => apply safe_string_sound in H as (? & ? & ?)
  | H : int_between _ _ _ = Some _ |- _ => apply int_between_spec in H as (_ & ? & ?)
  end.
  split; [auto|]. split; [lia|]. split; [lia|]. split.
  - destruct (safeString (get (js "label") _) _ _) as [l|] eqn:El; cbn [default from_option id].
    + apply safe_string_sound in El as (? & ? & _).
      destruct (slen l =? 0) eqn:E0; [apply kind_label_ok|]. bool_prop. by rewrite <- slen_zero.
    + destruct (slen _ =? 0); apply kind_label_ok.
  - destruct x4 as [s|]; cbn [option_ok]; [|done].
    match goal with H : safeString _ _ _ = Some s |- _ => apply safe_string_sound in H as (? & ? & ?) end. auto.
Qed.

(** The label of a raw highlight is trimmed, and the kind stands in for an
    empty one. *)
Definition label_or_kind (kind : ExternalHighlightKind) (label : jsstring) : jsstring :=
  if slen (trim label) =? 0 then js (highlight_kind_name kind) else trim label.

Lemma highlight_complete context ids h label :
  highlight_ok (fileSize context) h -> ~ hl_id h ∈ ids ->
  slen (trim label) <= MAX_LABEL_LENGTH -> label_or_kind (hl_kind h) label = hl_label h ->
  normalize_highlight context ids
    (highlight_value (mkHighlight (hl_id h) (hl_offset h) (hl_length h) (hl_kind h) label
       (hl_source h) (hl_stale h))) = Some h.
Proof.
  destruct h as [id offset len kind lab source stale]. unfold highlight_ok.
  cbn [hl_id hl_offset hl_length hl_kind hl_label hl_source hl_stale].
  intros ((Ht & Hn & Hl) & Hr & Hlen & _ & Hsrc) Hid Hlabel <-.
  unfold normalize_highlight, highlight_value.
  cbn [hl_id hl_offset hl_length hl_kind hl_label hl_source hl_stale isRecord mbind option_bind app].
  look. rewrite (safe_string_complete id) by done. unfold safeNonNegativeInteger.
  rewrite (int_between_num _ _ offset), (int_between_num _ _ len) by range_lia.
  replace (safeExternalHighlightKind (name_value (highlight_kind_name kind))) with (Some kind)
    by (by destruct kind).
  cbn [mbind option_bind].
  replace (opt_field _ (default JUndefined _)) with (Some source).
  2:{ destruct source as [s|]; [|done]. destruct Hsrc as (? & ? & ?). symmetry.
      apply opt_field_some; [|done]. by apply safe_string_complete. }
  cbn [mbind option_bind].
  replace (safeString (JString label) MAX_LABEL_LENGTH true) with (Some (trim label)).
  2:{ unfold safeString. cbn [negb andb]. by rewrite orb_false_l, (proj2 (Z.ltb_ge _ _)) by done. }
  rewrite bool_decide_eq_false_2 by done.
  rewrite (proj2 (Z.eqb_neq len 0)), (proj2 (Z.leb_gt _ offset)), (proj2 (Z.ltb_ge _ len)) by range_lia.
  unfold label_or_kind. cbn [orb default from_option]. destruct stale; look; done.
Qed.

Lemma highlights_loop_sound context raws : forall ids hs,
  highlights_loop context ids raws = Some hs ->
  length hs = length raws /\ Forall (highlight_ok (fileSize context)) hs /\
  NoDup (map hl_id hs) /\ Forall (fun h => ~ hl_id h ∈ ids) hs.
Proof.
  induction raws as [|raw raws IH]; intros ids hs Hl; cbn [highlights_loop] in Hl; some_inv; subst hs.
  - split_and?; try constructor.
  - match goal with H : normalize_highlight _ _ _ = Some ?x |- _ =>
      apply highlight_sound in H as [Hok Hid] end.
    match goal with H : highlights_loop _ _ _ = Some _ |- _ =>
      apply IH in H as (Hlen & Hall & Hnd & Hids) end.
    cbn [map length]. split_and?; [by f_equal|by constructor| |].
    + constructor; [|done]. rewrite list_elem_of_In, in_map_iff. intros (h & Eh & Hh).
      apply list_elem_of_In in Hh. rewrite Forall_forall in Hids. specialize (Hids h Hh). set_solver.
    + constructor; [done|]. eapply Forall_impl; [exact Hids|]. cbn. set_solver.
Qed.

Lemma highlights_loop_complete context hs : forall ids,
  Forall (highlight_ok (fileSize context)) hs -> NoDup (map hl_id hs) ->
  Forall (fun h => ~ hl_id h ∈ ids) hs ->
  highlights_loop context ids (map highlight_value hs) = Some hs.
Proof.
  induction hs as [|h hs IH]; intros ids Hok Hnd Hids; [done|]. cbn [map highlights_loop].
  apply Forall_cons in Hok as [Hh Hoks]. apply NoDup_cons in Hnd as [Hni Hnds].
  apply Forall_cons in Hids as [Hi His].
  pose proof Hh as (_ & _ & _ & (Hlt & Hln & Hll) & _).
  replace (highlight_value h) with (highlight_value (mkHighlight (hl_id h) (hl_offset h) (hl_length h)
    (hl_kind h) (hl_label h) (hl_source h) (hl_stale h))) by (by destruct h).
  rewrite (highlight_complete context ids h (hl_label h)); [|done|done|by rewrite Hlt|].
  2:{ unfold label_or_kind. rewrite Hlt. by rewrite (proj2 (Z.eqb_neq _ _)) by (by rewrite slen_zero). }
  cbn [mbind option_bind]. rewrite IH; [done|done|done|].
  rewrite Forall_forall in His |- *. intros g Hg. rewrite elem_of_cons. intros [E|E].
  - apply Hni. rewrite <- E. apply list_elem_of_In, in_map, list_elem_of_In, Hg.
  - by apply (His g).
Qed.

(** ** Which checkpoints of a timeline are described

    [checkpointTimelineMetadataWindow]: a JavaScript set keeps the order of
    first insertion; its members are then sorted as numbers. *)
Module Timeline.

Definition TIMELINE_METADATA_EDGE_COUNT : Z := 8.
Definition TIMELINE_METADATA_CONTEXT_RADIUS : Z := 12.
Definition TIMELINE_METADATA_SAVED_RADIUS : Z := 4.
Definition TIMELINE_METADATA_SAMPLE_COUNT : Z := 24.

Definition add (checkpointCount : Z) (checkpoints : list Z) (checkpoint : Z) : list Z :=
  if (1 <=? checkpoint) && (checkpoint <=? checkpointCount) then
    if bool_decide (checkpoint ∈ checkpoints) then checkpoints else checkpoints ++ [checkpoint]
  else checkpoints.

Definition addRange (checkpointCount : Z) (checkpoints : list Z) (first last : Z) : list Z :=
  foldl (add checkpointCount) checkpoints (seqZ first (last - first + 1)).

(** [Math.round(a / b)] for integers.  For the odd divisor used here a
    quotient is never halfway between two integers, so the rounding of the
    division itself does not show (for counts below 2^45). *)
Definition round_div (a b : Z) : Z := (2 * a + b) / (2 * b).

Definition sample (checkpointCount index : Z) : Z :=
  1 + round_div ((checkpointCount - 1) * index) (TIMELINE_METADATA_SAMPLE_COUNT - 1).

Definition checkpointTimelineMetadataWindow (checkpointCount cursor : Z) (savedCheckpoint : option Z)
  : list Z :=
  let s := addRange checkpointCount [] 1 TIMELINE_METADATA_EDGE_COUNT in
  let s := addRange checkpointCount s (checkpointCount - TIMELINE_METADATA_EDGE_COUNT + 1)
             checkpointCount in
  let s := addRange checkpointCount s (cursor - TIMELINE_METADATA_CONTEXT_RADIUS)
             (cursor + TIMELINE_METADATA_CONTEXT_RADIUS) in
  let s := match savedCheckpoint with
           | Some saved => addRange checkpointCount s (saved - TIMELINE_METADATA_SAVED_RADIUS)
                             (saved + TIMELINE_METADATA_SAVED_RADIUS)
           | None => s
           end in
  let s := if 1 <? checkpointCount then
             foldl (add checkpointCount) s
               (sample checkpointCount <$> seqZ 0 TIMELINE_METADATA_SAMPLE_COUNT)
           else s in
  merge_sort Z.le s.

(** The checkpoints of interest, by what they are rather than by the loops. *)
Definition of_interest (count cursor : Z) (saved : option Z) (c : Z) : Prop :=
  1 <= c <= count /\
  (c <= 8 \/ count - 8 < c \/ Z.abs (c - cursor) <= 12 \/
   (exists s, saved = Some s /\ Z.abs (c - s) <= 4) \/
   (1 < count /\ exists i, 0 <= i < 24 /\ c = sample count i)).

Lemma add_elem count s c x : x ∈ add count s c <-> x ∈ s \/ x = c /\ 1 <= c <= count.
Proof.
  unfold add. destruct ((1 <=? c) && (c <=? count)) eqn:E; bool_prop.
  - case_bool_decide; [set_solver by lia|]. rewrite elem_of_app, list_elem_of_singleton. intuition lia.
  - apply andb_false_iff in E. rewrite !Z.leb_gt in E. intuition lia.
Qed.

Lemma fold_add_elem count l : forall s x,
  x ∈ foldl (add count) s l <-> x ∈ s \/ x ∈ l /\ 1 <= x <= count.
Proof.
  induction l as [|c l IH]; intros s x; cbn [foldl]; [set_solver|].
  rewrite IH, add_elem, elem_of_cons. intuition (subst; auto).
Qed.

Lemma fold_add_nodup count l : forall s, NoDup s -> NoDup (foldl (add count) s l).
Proof.
  induction l as [|c l IH]; intros s Hs; cbn [foldl]; [done|]. apply IH. unfold add.
  destruct (_ && _); [|done]. case_bool_decide; [done|]. apply NoDup_app. split; [done|].
  split; [set_solver|]. apply NoDup_singleton.
Qed.

Lemma fold_add_length count l : forall s,
  (length (foldl (add count) s l) <= length s + length l)%nat.
Proof.
  induction l as [|c l IH]; intros s; cbn [foldl length]; [lia|]. etrans; [apply IH|].
  unfold add. destruct (_ && _); [|lia]. case_bool_decide; [lia|]. rewrite length_app. cbn. lia.
Qed.

Lemma sorted_nodup_lt l : Sorted Z.le l -> NoDup l -> StronglySorted Z.lt l.
Proof.
  intros Hs. apply Sorted_StronglySorted in Hs; [|intros ? ? ?; lia].
  induction Hs as [|a l Hl IH Ha]; intros Hnd; [constructor|].
  apply NoDup_cons in Hnd as [Hni Hnd]. constructor; [auto|].
  rewrite Forall_forall in Ha |- *. intros x Hx. specialize (Ha x Hx).
  assert (a <> x) by (intros ->; done). lia.
Qed.

Definition window_set (count cursor : Z) (saved : option Z) : list Z :=
  seqZ 1 8 ++ seqZ (count - 8 + 1) 8 ++ seqZ (cursor - 12) 25 ++
  match saved with Some s => seqZ (s - 4) 9 | None => [] end ++
  (if 1 <? count then sample count <$> seqZ 0 24 else []).

Lemma window_fold count cursor saved :
  checkpointTimelineMetadataWindow count cursor saved =
  merge_sort Z.le (foldl (add count) [] (window_set count cursor saved)).
Proof.
  unfold checkpointTimelineMetadataWindow, window_set, addRange, TIMELINE_METADATA_EDGE_COUNT,
    TIMELINE_METADATA_CONTEXT_RADIUS, TIMELINE_METADATA_SAVED_RADIUS. rewrite !foldl_app.
  replace (8 - 1 + 1) with 8 by lia. replace (count - (count - 8 + 1) + 1) with 8 by lia.
  replace (cursor + 12 - (cursor - 12) + 1) with 25 by lia.
  change TIMELINE_METADATA_SAMPLE_COUNT with 24.
  assert (Hnil : forall s, foldl (add count) s [] = s) by done.
  destruct saved as [s|]; [replace (s + 4 - (s - 4) + 1) with 9 by lia|];
    destruct (1 <? count); rewrite ?Hnil; reflexivity.
Qed.

Lemma window_set_elem count cursor saved c :
  1 <= c <= count -> c ∈ window_set count cursor saved <-> of_interest count cursor saved c.
Proof.
  intros Hc. unfold window_set, of_interest. rewrite !elem_of_app, !elem_of_seqZ.
  assert (Hsaved : c ∈ match saved with Some s => seqZ (s - 4) 9 | None => [] end <->
    exists s, saved = Some s /\ Z.abs (c - s) <= 4).
  { destruct saved as [s|]; [|set_solver]. rewrite elem_of_seqZ. split.
    - intros H. exists s. split; [done|lia].
    - intros (? & [= <-] & H). lia. }
  assert (Hsample : c ∈ (if 1 <? count then sample count <$> seqZ 0 24 else []) <->
    1 < count /\ exists i, 0 <= i < 24 /\ c = sample count i).
  { destruct (Z.ltb_spec 1 count); [|set_solver by lia]. rewrite list_elem_of_fmap. split.
    - intros (i & -> & Hi). apply elem_of_seqZ in Hi. split; [done|]. exists i. split; [lia|done].
    - intros (_ & i & Hi & ->). exists i. split; [done|]. apply elem_of_seqZ. lia. }
  rewrite Hsaved, Hsample.
  split; [intros H; split; [done|]|intros [_ H]];
    (destruct H as [H|[H|[H|H]]]; [left; lia|right; left; lia|do 2 right; left; lia|by do 3 right]).
Qed.

Lemma window_set_length count cursor saved : (length (window_set count cursor saved) <= 74)%nat.
Proof.
  unfold window_set. rewrite !length_app, !length_seqZ.
  destruct saved, (1 <? count); rewrite ?length_fmap, ?length_seqZ; cbn; lia.
Qed.
End Timeline.

(** ** Properties *)

(** C17 Every message the host takes from the webview is in order: each offset,
    length, count and text is inside its limits and inside the file (or the
    content) it is about, whatever value the webview sent; and taking the
    typed message again gives the same message. *)
Theorem webview_messages_checked `{JsonRuntime} context raw m :
  normalizeWebviewMessage context raw = Some m ->
  message_ok context m /\ normalizeWebviewMessage context (message_value m) = Some m.
Proof. intros Hm. apply message_sound in Hm. split; [done|]. by apply message_complete. Qed.

(** The host drops no message that is in order: the object of every typed
    message with [message_ok] is accepted as that message. *)
Theorem webview_messages_accepted `{JsonRuntime} context m :
  message_ok context m -> normalizeWebviewMessage context (message_value m) = Some m.
Proof. apply message_complete. Qed.

(** Highlights given by other extensions come through only all together: at
    most 512, with different identifiers, each one a range of at least one
    byte inside the file with a label; and what came through comes through
    again unchanged. *)
Theorem external_highlights_checked context raw hs :
  normalizeExternalHighlights context raw = Some hs ->
  Z.of_nat (length hs) <= MAX_EXTERNAL_HIGHLIGHTS /\ NoDup (map hl_id hs) /\
  Forall (highlight_ok (fileSize context)) hs /\
  normalizeExternalHighlights context (JArray (map highlight_value hs)) = Some hs.
Proof.
  unfold normalizeExternalHighlights. intros Hh. some_inv.
  apply highlights_loop_sound in Hh as (Hlen & Hok & Hnd & Hids). bool_prop.
  split; [lia|]. split; [done|]. split; [done|]. cbn [as_array mbind option_bind].
  rewrite length_map, (proj2 (Z.ltb_ge _ _)) by lia. by apply highlights_loop_complete.
Qed.

(** The checkpoints a timeline describes in detail are exactly the first and
    the last eight, those within twelve of the cursor, those within four of
    the saved one and twenty-four samples over the whole, in increasing
    order without repetition and never more than 74 of them, however long
    the timeline is. *)
Theorem metadata_window_bounded count cursor saved :
  let w := Timeline.checkpointTimelineMetadataWindow count cursor saved in
  StronglySorted Z.lt w /\ (length w <= 74)%nat /\
  forall c, c ∈ w <-> Timeline.of_interest count cursor saved c.
Proof.
  cbv zeta. rewrite Timeline.window_fold.
  set (s := foldl (Timeline.add count) [] (Timeline.window_set count cursor saved)).
  assert (Hp : merge_sort Z.le s ≡ₚ s) by apply merge_sort_Permutation. split; [|split].
  - apply Timeline.sorted_nodup_lt.
    + apply Sorted_merge_sort. intros x y. lia.
    + rewrite Hp. apply Timeline.fold_add_nodup. constructor.
  - rewrite Hp. etrans; [apply Timeline.fold_add_length|]. cbn [length].
    apply (Timeline.window_set_length count cursor saved).
  - intros c. rewrite Hp. unfold s. rewrite Timeline.fold_add_elem. split.
    + intros [H|[H Hc]]; [set_solver|]. by apply Timeline.window_set_elem.
    + intros H. right. pose proof H as [Hc _]. split; [|done]. by apply Timeline.window_set_elem.
Qed.

(** *** Concrete inputs *)

Definition sample_context : WebviewProtocolContext :=
  mkContext 100 (Some [mkContentInfo Original true 40]).

Definition sample_transform : WebviewToHostMessage :=
  ApplyTransform (js "omega.case") Original 30 10 None.

Lemma webview_messages_checked_witness :
  normalizeWebviewMessage (H := no_json) sample_context
    (JObject [(js "type", name_value "overwrite"); (js "offset", num 98);
              (js "data", JString (js "0a FF"))]) = Some (Overwrite 98 (js "0aFF")) /\
  message_ok (H := no_json) sample_context (Overwrite 98 (js "0aFF")) /\
  normalizeWebviewMessage (H := no_json) sample_context (message_value (Overwrite 98 (js "0aFF")))
    = Some (Overwrite 98 (js "0aFF")).
Proof.
  split; [vm_compute; reflexivity|].
  apply (@webview_messages_checked no_json sample_context
    (JObject [(js "type", name_value "overwrite"); (js "offset", num 98);
              (js "data", JString (js "0a FF"))])).
  vm_compute. reflexivity.
Defined.

Lemma webview_messages_accepted_witness :
  normalizeWebviewMessage (H := no_json) sample_context (message_value sample_transform)
    = Some sample_transform.
Proof.
  apply (@webview_messages_accepted no_json sample_context sample_transform).
  cbn [message_ok sample_transform]. split; [|split; [|exact I]].
  - split; [vm_compute; reflexivity|]. split; [discriminate|]. vm_compute. discriminate.
  - exists 40. split; [reflexivity|]. unfold range_in, safe_nat, MAX_SAFE_INTEGER. lia.
Defined.

Lemma external_highlights_checked_witness :
  let raw := JArray [JObject [(js "id", JString (js " a ")); (js "offset", num 1);
    (js "length", num 4); (js "kind", name_value "parsed")]] in
  let hs := [mkHighlight (js "a") 1 4 Parsed (js "parsed") None false] in
  normalizeExternalHighlights sample_context raw = Some hs /\
  Forall (highlight_ok 100) hs.
Proof.
  cbv zeta. split; [vm_compute; reflexivity|].
  apply (external_highlights_checked sample_context (JArray [JObject [(js "id", JString (js " a "));
    (js "offset", num 1); (js "length", num 4); (js "kind", name_value "parsed")]])).
  vm_compute. reflexivity.
Defined.
