(* ===== verification/TextEncoding.v ===== *)
(** * Text encodings of the hex editor ([vscode-extension/src/textEncoding.ts])

    The single-byte encodings of the text column: the tables, decoding a
    byte, classifying and showing it, and encoding text back to bytes through
    a reverse table that is built once per encoding and kept
    ([reverseMaps], here the state of the operations that use it).

    [Array.from(text)] splits a string at code points; [byte >> 4] and
    [byte & 0xf] work on 32-bit integers. *)

From S2P Require Import Prelude JsText JsValue WebviewProtocol.

(** ** Tables *)

Definition WINDOWS_1252_EXTENSION : list (option Z) :=
  [Some 0x20ac; None; Some 0x201a; Some 0x0192; Some 0x201e; Some 0x2026; Some 0x2020; Some 0x2021;
   Some 0x02c6; Some 0x2030; Some 0x0160; Some 0x2039; Some 0x0152; None; Some 0x017d; None;
   None; Some 0x2018; Some 0x2019; Some 0x201c; Some 0x201d; Some 0x2022; Some 0x2013; Some 0x2014;
   Some 0x02dc; Some 0x2122; Some 0x0161; Some 0x203a; Some 0x0153; None; Some 0x017e; Some 0x0178].

Definition CP437_HIGH : list Z :=
  [0x00c7; 0x00fc; 0x00e9; 0x00e2; 0x00e4; 0x00e0; 0x00e5; 0x00e7; 0x00ea; 0x00eb; 0x00e8; 0x00ef;
   0x00ee; 0x00ec; 0x00c4; 0x00c5; 0x00c9; 0x00e6; 0x00c6; 0x00f4; 0x00f6; 0x00f2; 0x00fb; 0x00f9;
   0x00ff; 0x00d6; 0x00dc; 0x00a2; 0x00a3; 0x00a5; 0x20a7; 0x0192; 0x00e1; 0x00ed; 0x00f3; 0x00fa;
   0x00f1; 0x00d1; 0x00aa; 0x00ba; 0x00bf; 0x2310; 0x00ac; 0x00bd; 0x00bc; 0x00a1; 0x00ab; 0x00bb;
   0x2591; 0x2592; 0x2593; 0x2502; 0x2524; 0x2561; 0x2562; 0x2556; 0x2555; 0x2563; 0x2551; 0x2557;
   0x255d; 0x255c; 0x255b; 0x2510; 0x2514; 0x2534; 0x252c; 0x251c; 0x2500; 0x253c; 0x255e; 0x255f;
   0x255a; 0x2554; 0x2569; 0x2566; 0x2560; 0x2550; 0x256c; 0x2567; 0x2568; 0x2564; 0x2565; 0x2559;
   0x2558; 0x2552; 0x2553; 0x256b; 0x256a; 0x2518; 0x250c; 0x2588; 0x2584; 0x258c; 0x2590; 0x2580;
   0x03b1; 0x00df; 0x0393; 0x03c0; 0x03a3; 0x03c3; 0x00b5; 0x03c4; 0x03a6; 0x0398; 0x03a9; 0x03b4;
   0x221e; 0x03c6; 0x03b5; 0x2229; 0x2261; 0x00b1; 0x2265; 0x2264; 0x2320; 0x2321; 0x00f7; 0x2248;
   0x00b0; 0x2219; 0x00b7; 0x221a; 0x207f; 0x00b2; 0x25a0; 0x00a0].

Definition MAC_ROMAN_HIGH : list Z :=
  [0x00c4; 0x00c5; 0x00c7; 0x00c9; 0x00d1; 0x00d6; 0x00dc; 0x00e1; 0x00e0; 0x00e2; 0x00e4; 0x00e3;
   0x00e5; 0x00e7; 0x00e9; 0x00e8; 0x00ea; 0x00eb; 0x00ed; 0x00ec; 0x00ee; 0x00ef; 0x00f1; 0x00f3;
   0x00f2; 0x00f4; 0x00f6; 0x00f5; 0x00fa; 0x00f9; 0x00fb; 0x00fc; 0x2020; 0x00b0; 0x00a2; 0x00a3;
   0x00a7; 0x2022; 0x00b6; 0x00df; 0x00ae; 0x00a9; 0x2122; 0x00b4; 0x00a8; 0x2260; 0x00c6; 0x00d8;
   0x221e; 0x00b1; 0x2264; 0x2265; 0x00a5; 0x00b5; 0x2202; 0x2211; 0x220f; 0x03c0; 0x222b; 0x00aa;
   0x00ba; 0x03a9; 0x00e6; 0x00f8; 0x00bf; 0x00a1; 0x00ac; 0x221a; 0x0192; 0x2248; 0x2206; 0x00ab;
   0x00bb; 0x2026; 0x00a0; 0x00c0; 0x00c3; 0x00d5; 0x0152; 0x0153; 0x2013; 0x2014; 0x201c; 0x201d;
   0x2018; 0x2019; 0x00f7; 0x25ca; 0x00ff; 0x0178; 0x2044; 0x20ac; 0x2039; 0x203a; 0xfb01; 0xfb02;
   0x2021; 0x00b7; 0x201a; 0x201e; 0x2030; 0x00c2; 0x00ca; 0x00c1; 0x00cb; 0x00c8; 0x00cd; 0x00ce;
   0x00cf; 0x00cc; 0x00d3; 0x00d4; 0xf8ff; 0x00d2; 0x00da; 0x00db; 0x00d9; 0x0131; 0x02c6; 0x02dc;
   0x00af; 0x02d8; 0x02d9; 0x02da; 0x00b8; 0x02dd; 0x02db; 0x02c7].

Definition EBCDIC_037 : list Z :=
  [0x0000; 0x0001; 0x0002; 0x0003; 0x009c; 0x0009; 0x0086; 0x007f; 0x0097; 0x008d; 0x008e; 0x000b;
   0x000c; 0x000d; 0x000e; 0x000f; 0x0010; 0x0011; 0x0012; 0x0013; 0x009d; 0x0085; 0x0008; 0x0087;
   0x0018; 0x0019; 0x0092; 0x008f; 0x001c; 0x001d; 0x001e; 0x001f; 0x0080; 0x0081; 0x0082; 0x0083;
   0x0084; 0x000a; 0x0017; 0x001b; 0x0088; 0x0089; 0x008a; 0x008b; 0x008c; 0x0005; 0x0006; 0x0007;
   0x0090; 0x0091; 0x0016; 0x0093; 0x0094; 0x0095; 0x0096; 0x0004; 0x0098; 0x0099; 0x009a; 0x009b;
   0x0014; 0x0015; 0x009e; 0x001a; 0x0020; 0x00a0; 0x00e2; 0x00e4; 0x00e0; 0x00e1; 0x00e3; 0x00e5;
   0x00e7; 0x00f1; 0x00a2; 0x002e; 0x003c; 0x0028; 0x002b; 0x007c; 0x0026; 0x00e9; 0x00ea; 0x00eb;
   0x00e8; 0x00ed; 0x00ee; 0x00ef; 0x00ec; 0x00df; 0x0021; 0x0024; 0x002a; 0x0029; 0x003b; 0x00ac;
   0x002d; 0x002f; 0x00c2; 0x00c4; 0x00c0; 0x00c1; 0x00c3; 0x00c5; 0x00c7; 0x00d1; 0x00a6; 0x002c;
   0x0025; 0x005f; 0x003e; 0x003f; 0x00f8; 0x00c9; 0x00ca; 0x00cb; 0x00c8; 0x00cd; 0x00ce; 0x00cf;
   0x00cc; 0x0060; 0x003a; 0x0023; 0x0040; 0x0027; 0x003d; 0x0022; 0x00d8; 0x0061; 0x0062; 0x0063;
   0x0064; 0x0065; 0x0066; 0x0067; 0x0068; 0x0069; 0x00ab; 0x00bb; 0x00f0; 0x00fd; 0x00fe; 0x00b1;
   0x00b0; 0x006a; 0x006b; 0x006c; 0x006d; 0x006e; 0x006f; 0x0070; 0x0071; 0x0072; 0x00aa; 0x00ba;
   0x00e6; 0x00b8; 0x00c6; 0x00a4; 0x00b5; 0x007e; 0x0073; 0x0074; 0x0075; 0x0076; 0x0077; 0x0078;
   0x0079; 0x007a; 0x00a1; 0x00bf; 0x00d0; 0x00dd; 0x00de; 0x00ae; 0x005e; 0x00a3; 0x00a5; 0x00b7;
   0x00a9; 0x00a7; 0x00b6; 0x00bc; 0x00bd; 0x00be; 0x005b; 0x005d; 0x00af; 0x00a8; 0x00b4; 0x00d7;
   0x007b; 0x0041; 0x0042; 0x0043; 0x0044; 0x0045; 0x0046; 0x0047; 0x0048; 0x0049; 0x00ad; 0x00f4;
   0x00f6; 0x00f2; 0x00f3; 0x00f5; 0x007d; 0x004a; 0x004b; 0x004c; 0x004d; 0x004e; 0x004f; 0x0050;
   0x0051; 0x0052; 0x00b9; 0x00fb; 0x00fc; 0x00f9; 0x00fa; 0x00ff; 0x005c; 0x00f7; 0x0053; 0x0054;
   0x0055; 0x0056; 0x0057; 0x0058; 0x0059; 0x005a; 0x00b2; 0x00d4; 0x00d6; 0x00d2; 0x00d3; 0x00d5;
   0x0030; 0x0031; 0x0032; 0x0033; 0x0034; 0x0035; 0x0036; 0x0037; 0x0038; 0x0039; 0x00b3; 0x00db;
   0x00dc; 0x00d9; 0x00da; 0x009f].

(** ** Bytes to code points *)

Definition codePointForByte (byte : Z) (encoding : TextEncoding) : option Z :=
  if (byte <? 0) || (255 <? byte) then None
  else match encoding with
  | ascii => if byte <=? 127 then Some byte else None
  | windows_1252 =>
      if (128 <=? byte) && (byte <=? 159)
      then mjoin (WINDOWS_1252_EXTENSION !! Z.to_nat (byte - 128))
      else Some byte
  | cp437 => if byte <? 128 then Some byte else CP437_HIGH !! Z.to_nat (byte - 128)
  | ebcdic_037 => EBCDIC_037 !! Z.to_nat byte
  | macroman => if byte <? 128 then Some byte else MAC_ROMAN_HIGH !! Z.to_nat (byte - 128)
  end.

Definition isControlCodePoint (codePoint : Z) : bool :=
  (0 <=? codePoint) && (codePoint <=? 31) || (127 <=? codePoint) && (codePoint <=? 159).

(** [String.fromCodePoint] is [utf16_point]. *)
Definition decodeTextByte (byte : Z) (encoding : TextEncoding) : option jsstring :=
  utf16_point <$> codePointForByte byte encoding.

(** ** Hexadecimal *)

Definition HEX2 : jsstring := js "0123456789ABCDEF".

Definition int32 (z : Z) : Z :=
  let m := z mod 2 ^ 32 in if 2 ^ 31 <=? m then m - 2 ^ 32 else m.

(** [HEX2[i]]: an index outside reads [undefined], which the concatenation
    prints. *)
Definition hex2_char (i : Z) : jsstring :=
  if i <? 0 then js "undefined"
  else match HEX2 !! Z.to_nat i with Some c => [c] | None => js "undefined" end.

Definition byteToHex2 (byte : Z) : jsstring :=
  hex2_char (Z.shiftr (int32 byte) 4) ++ hex2_char (Z.land (int32 byte) 15).

Definition bytesToHex (bytes : list Z) : jsstring :=
  foldl (fun out byte => out ++ byteToHex2 byte) [] bytes.

(** [n.toString(16)] for a non-negative integer. *)
Fixpoint hex_digits (fuel : nat) (n : Z) (acc : jsstring) : jsstring :=
  match fuel with
  | O => acc
  | S fuel =>
      let d := n mod 16 in
      let acc := (if d <? 10 then 48 + d else 87 + d) :: acc in
      if n <? 16 then acc else hex_digits fuel (n / 16) acc
  end.

Definition to_string_16 (n : Z) : jsstring := hex_digits (S (Z.to_nat (Z.log2 n))) n [].

(** [s.toUpperCase()] on such a string. *)
Definition upper_hex (s : jsstring) : jsstring :=
  map (fun c => if in_range 97 122 c then c - 32 else c) s.

(** [s.padStart(n, '0')] *)
Definition pad_start_zero (n : nat) (s : jsstring) : jsstring := repeat 48 (n - length s) ++ s.

Definition byte_hex (byte : Z) : jsstring := pad_start_zero 2 (upper_hex (to_string_16 byte)).

(** ** Printable bytes *)

Definition isPrintableAscii (byte : Z) : bool := (32 <=? byte) && (byte <=? 126).

Definition isPrintableTextByte (byte : Z) (encoding : TextEncoding) : bool :=
  match codePointForByte byte encoding with
  | Some codePoint => negb (isControlCodePoint codePoint)
  | None => false
  end.

Inductive ByteClass := Printable | Control | HighBit | Null | FF.

Definition classifyTextByte (byte : Z) (encoding : TextEncoding) : ByteClass :=
  if byte =? 0 then Null
  else if isPrintableTextByte byte encoding then Printable
  else if byte =? 255 then FF
  else if (byte <? 32) || (byte =? 127)
          || bool_decide (is_Some (codePointForByte byte encoding)) then Control
  else HighBit.

Definition formatTextByte (byte : Z) (encoding : TextEncoding) (fallback : jsstring) : jsstring :=
  if isPrintableTextByte byte encoding then default fallback (decodeTextByte byte encoding)
  else fallback.

Fixpoint decodeTextBytes (bytes : list Z) (encoding : TextEncoding) : option jsstring :=
  match bytes with
  | [] => Some []
  | byte :: bytes =>
      char ← decodeTextByte byte encoding;
      if negb (isPrintableTextByte byte encoding) then None
      else chars ← decodeTextBytes bytes encoding; Some (char ++ chars)
  end.

(** ** Text to bytes *)

(** The characters of [Array.from(text)]: a surrogate pair is one. *)
Fixpoint array_from (text : jsstring) : list jsstring :=
  match text with
  | [] => []
  | c :: t =>
      match t with
      | d :: t' => if high_surrogate c && low_surrogate d then [c; d] :: array_from t'
                   else [c] :: array_from t
      | [] => [[c]]
      end
  end.

Abbreviation reverse_map := (gmap jsstring Z).

(** [reverseMaps] *)
Definition maps_state : Type := list (TextEncoding * reverse_map).

Definition maps_get (encoding : TextEncoding) (s : maps_state) : option reverse_map :=
  snd <$> find (fun p => bool_decide (p.1 = encoding)) s.

Definition reverse_step (encoding : TextEncoding) (m : reverse_map) (byte : Z) : reverse_map :=
  match decodeTextByte byte encoding with
  | None => m
  | Some char => match m !! char with Some _ => m | None => <[char := byte]> m end
  end.

Definition build_reverse (encoding : TextEncoding) : reverse_map :=
  foldl (reverse_step encoding) ∅ (seqZ 0 256).

Definition reverseMapForEncoding (encoding : TextEncoding) : M maps_state reverse_map := fun s =>
  match maps_get encoding s with
  | Some existing => (s, Ok existing)
  | None => let m := build_reverse encoding in ((encoding, m) :: s, Ok m)
  end.

Open Scope jsm_scope.

Definition encodeTextToBytes (text : jsstring) (encoding : TextEncoding)
  : M maps_state (option (list Z)) :=
  let* map := reverseMapForEncoding encoding in
  retM (mapM (fun char => map !! char) (array_from text)).

Definition encodeTextToHex (text : jsstring) (encoding : TextEncoding)
  : M maps_state (option jsstring) :=
  let* bytes := encodeTextToBytes text encoding in
  retM (flat_map byte_hex <$> bytes).

Definition printableTextToHex (text : jsstring) (encoding : TextEncoding)
  : M maps_state (option jsstring) :=
  let* bytes := encodeTextToBytes text encoding in
  retM (match bytes with
        | None => None
        | Some bytes =>
            if existsb (fun byte => negb (isPrintableTextByte byte encoding)) bytes then None
            else Some (flat_map byte_hex bytes)
        end).

(** ** Lemmas

    Facts about all 256 bytes of a table are decided by computation. *)

Definition encodings_bytes (f : TextEncoding -> Z -> bool) : bool :=
  forallb (fun e => forallb (f e) (seqZ 0 256)) TEXT_ENCODING_OPTIONS.

Lemma every_byte f e b : encodings_bytes f = true -> 0 <= b < 256 -> f e b = true.
Proof.
  unfold encodings_bytes. rewrite forallb_forall. intros Hf Hb.
  assert (He : In e TEXT_ENCODING_OPTIONS) by (destruct e; cbn; tauto).
  apply Hf in He. rewrite forallb_forall in He. apply He, list_elem_of_In, elem_of_seqZ. lia.
Qed.

Lemma decode_in_range b e ch : decodeTextByte b e = Some ch -> 0 <= b < 256.
Proof.
  unfold decodeTextByte, codePointForByte. intros H. apply fmap_Some in H as (cp & H & _).
  destruct ((b <? 0) || (255 <? b)) eqn:E; [done|]. apply orb_false_iff in E as [? ?]. bool_prop. lia.
Qed.

(** Every character of a table is one code unit and no surrogate. *)
Definition plain_char (ch : jsstring) : bool :=
  match ch with [c] => negb (high_surrogate c) && negb (low_surrogate c) | _ => false end.

Lemma decoded_plain b e ch : decodeTextByte b e = Some ch -> plain_char ch = true.
Proof.
  intros H. pose proof (decode_in_range _ _ _ H) as Hb.
  pose proof (every_byte (fun e b => match decodeTextByte b e with
    | Some ch => plain_char ch | None => true end) e b) as Hall.
  cbv beta in Hall. rewrite H in Hall. apply Hall; [vm_compute; reflexivity|done].
Qed.

(** The tables are injective: the reverse table finds each byte again. *)
Lemma reverse_finds b e ch : decodeTextByte b e = Some ch -> build_reverse e !! ch = Some b.
Proof.
  intros H. pose proof (decode_in_range _ _ _ H) as Hb.
  assert (Hall : forallb (fun e => let m := build_reverse e in forallb (fun b =>
      match decodeTextByte b e with
      | Some ch => bool_decide (m !! ch = Some b) | None => true end) (seqZ 0 256))
    TEXT_ENCODING_OPTIONS = true) by (vm_compute; reflexivity).
  rewrite forallb_forall in Hall.
  assert (He : In e TEXT_ENCODING_OPTIONS) by (destruct e; cbn; tauto).
  apply Hall in He. cbv zeta in He. rewrite forallb_forall in He.
  specialize (He b). rewrite H in He. eapply bool_decide_eq_true, He.
  apply list_elem_of_In, elem_of_seqZ. lia.
Qed.

(** What the reverse table holds decodes to its key. *)
Lemma reverse_sound e l : forall m,
  (forall ch b, m !! ch = Some b -> decodeTextByte b e = Some ch) ->
  forall ch b, foldl (reverse_step e) m l !! ch = Some b -> decodeTextByte b e = Some ch.
Proof.
  induction l as [|x l IH]; intros m Hm ch b; cbn [foldl]; [apply Hm|]. apply IH. clear ch b.
  intros ch b. unfold reverse_step. destruct (decodeTextByte x e) as [c|] eqn:E; [|apply Hm].
  destruct (m !! c) eqn:Em; [apply Hm|]. rewrite lookup_insert_Some.
  intros [[<- <-]|[_ H]]; [done|by apply Hm].
Qed.

Lemma reverse_spec e ch b : build_reverse e !! ch = Some b <-> decodeTextByte b e = Some ch.
Proof.
  split; [|apply reverse_finds]. apply (reverse_sound e (seqZ 0 256) ∅).
  intros c x H. by rewrite lookup_empty in H.
Qed.

Lemma array_from_concat text : concat (array_from text) = text.
Proof.
  enough (H : forall n text, (length text <= n)%nat -> concat (array_from text) = text)
    by (by apply (H (length text))).
  clear text. induction n as [|n IH]; intros [|c [|d t]] Hn; cbn in Hn; try done; try lia.
  cbn [array_from]. destruct (high_surrogate c && low_surrogate d).
  - cbn [concat app]. rewrite IH by lia. done.
  - change (concat ([c] :: array_from (d :: t)) = c :: d :: t). cbn [concat app].
    rewrite IH by (cbn; lia). done.
Qed.

Lemma array_from_plain chars :
  Forall (fun ch => plain_char ch = true) chars -> array_from (concat chars) = chars.
Proof.
  induction 1 as [|ch chars Hc _ IH]; [done|]. destruct ch as [|c [|? ?]]; try done. cbn [concat app].
  rewrite <- IH at 2. cbn [plain_char] in Hc. bool_prop. destruct (concat chars) as [|d t]; [done|].
  cbn [array_from]. by replace (high_surrogate c) with false.
Qed.

Lemma mapM_plain e bytes chars :
  mapM (fun b => decodeTextByte b e) bytes = Some chars -> Forall (fun ch => plain_char ch = true) chars.
Proof.
  rewrite mapM_Some. induction 1 as [|b ch bytes chars Hb _ IH]; constructor; [|done].
  by eapply decoded_plain.
Qed.

(** Encoding, on the characters: the inverse of decoding byte by byte. *)
Lemma mapM_inverse e chars bytes :
  mapM (fun ch => build_reverse e !! ch) chars = Some bytes <->
  mapM (fun b => decodeTextByte b e) bytes = Some chars.
Proof.
  rewrite !mapM_Some. split.
  - intros H. apply Forall2_flip. eapply Forall2_impl; [exact H|]. intros ch b. apply reverse_spec.
  - intros H. apply Forall2_flip. eapply Forall2_impl; [exact H|]. intros b ch. apply reverse_spec.
Qed.

(** The kept tables are the tables a fresh build would give. *)
Definition maps_ok (s : maps_state) : Prop :=
  forall e m, maps_get e s = Some m -> m = build_reverse e.

Lemma reverse_map_cached s e :
  maps_ok s -> exists s', reverseMapForEncoding e s = (s', Ok (build_reverse e)) /\ maps_ok s'.
Proof.
  intros Hs. unfold reverseMapForEncoding. destruct (maps_get e s) as [m|] eqn:E.
  - exists s. by rewrite (Hs e m E).
  - eexists. split; [done|]. intros e' m. unfold maps_get. cbn [find fst].
    case_bool_decide as He; [|apply Hs]. subst e'. cbn. congruence.
Qed.

Lemma encode_cached s text e :
  maps_ok s -> exists s', maps_ok s' /\
    encodeTextToBytes text e s =
    (s', Ok (mapM (fun ch => build_reverse e !! ch) (array_from text))).
Proof.
  intros Hs. destruct (reverse_map_cached s e Hs) as (s' & Hr & Hs'). exists s'. split; [done|].
  unfold encodeTextToBytes, bindM. by rewrite Hr.
Qed.

Lemma decode_bytes_spec e bytes text :
  decodeTextBytes bytes e = Some text <->
  exists chars, mapM (fun b => decodeTextByte b e) bytes = Some chars /\ concat chars = text /\
    Forall (fun b => isPrintableTextByte b e = true) bytes.
Proof.
  revert text. induction bytes as [|b bytes IH]; intros text; cbn [decodeTextBytes].
  - split; [intros [= <-]; by exists []|]. intros (chars & H & <- & _). by injection H as <-.
  - rewrite bind_Some. split.
    + intros (ch & Hch & H). destruct (isPrintableTextByte b e) eqn:Hp; [|done]. cbn [negb] in H.
      apply bind_Some in H as (rest & Hr & H). injection H as <-.
      apply IH in Hr as (chars & Hm & <- & Hall). exists (ch :: chars).
      split; [|split; [done|by constructor]]. cbn. by rewrite Hch; cbn; rewrite Hm.
    + intros (chars & Hm & <- & Hall). apply Forall_cons in Hall as [Hp Hall].
      cbn in Hm. apply bind_Some in Hm as (ch & Hch & Hm). apply bind_Some in Hm as (cs & Hcs & Hm).
      injection Hm as <-. exists ch. split; [done|]. rewrite Hp. cbn [negb].
      rewrite (proj2 (IH (concat cs))); [done|]. by exists cs.
Qed.

(** *** Hexadecimal forms *)

Definition hex_pair_ok (b : Z) : bool :=
  bool_decide (byte_hex b = byteToHex2 b) &&
  match byteToHex2 b with
  | [x; y] => match hex_value x, hex_value y with
              | Some h, Some l => 16 * h + l =? b | _, _ => false end
  | _ => false
  end.

Lemma hex_pair b :
  0 <= b < 256 -> byte_hex b = byteToHex2 b /\ forall t, hex_decode (byteToHex2 b ++ t) = b :: hex_decode t.
Proof.
  intros Hb. assert (H : hex_pair_ok b = true).
  { apply (every_byte (fun _ => hex_pair_ok) ascii b); [vm_compute; reflexivity|done]. }
  unfold hex_pair_ok in H. bool_prop. split; [done|]. intros t.
  destruct (byteToHex2 b) as [|x [|y [|? ?]]]; try done. cbn [app hex_decode].
  destruct (hex_value x), (hex_value y); try done. bool_prop. by subst b.
Qed.

Lemma bytes_to_hex_flat bytes : bytesToHex bytes = flat_map byteToHex2 bytes.
Proof.
  unfold bytesToHex. enough (H : forall acc,
    foldl (fun out byte => out ++ byteToHex2 byte) acc bytes = acc ++ flat_map byteToHex2 bytes)
    by apply H.
  induction bytes as [|b bytes IH]; intros acc; cbn [foldl flat_map]; [by rewrite app_nil_r|].
  by rewrite IH, <- app_assoc.
Qed.

Lemma hex_forms_agree bytes :
  Forall (fun b => 0 <= b < 256) bytes ->
  flat_map byte_hex bytes = bytesToHex bytes /\ hex_decode (bytesToHex bytes) = bytes.
Proof.
  rewrite bytes_to_hex_flat. induction 1 as [|b bytes Hb _ [IH1 IH2]]; [done|]. cbn [flat_map].
  destruct (hex_pair b Hb) as [-> Hd]. by rewrite IH1, Hd, IH2.
Qed.

Lemma mapM_in_range e bytes chars :
  mapM (fun b => decodeTextByte b e) bytes = Some chars -> Forall (fun b => 0 <= b < 256) bytes.
Proof.
  rewrite mapM_Some. induction 1 as [|b ch bytes chars Hb _ IH]; constructor; [|done].
  by eapply decode_in_range.
Qed.

Lemma not_printable_existsb e bytes :
  existsb (fun b => negb (isPrintableTextByte b e)) bytes = false <->
  Forall (fun b => isPrintableTextByte b e = true) bytes.
Proof.
  induction bytes as [|b bytes IH]; cbn; [split; auto|].
  rewrite orb_false_iff, negb_false_iff, Forall_cons, IH. done.
Qed.

(** ** Properties *)

(** Encoding is the inverse of decoding, in every encoding and whatever has
    been encoded before: [encodeTextToBytes] gives [bytes] exactly when
    decoding [bytes] one by one and joining the characters gives the text,
    so it fails only for a text that no bytes decode to; the tables that are
    kept between calls never change an answer. *)
Theorem text_encode_inverse s text e bytes :
  maps_ok s ->
  (exists s', maps_ok s' /\ encodeTextToBytes text e s = (s', Ok (Some bytes))) <->
  (exists chars, mapM (fun b => decodeTextByte b e) bytes = Some chars /\ concat chars = text).
Proof.
  intros Hs. destruct (encode_cached s text e Hs) as (s' & Hs' & Henc). split.
  - intros (s'' & _ & H). rewrite Henc in H. injection H as _ H.
    exists (array_from text). split; [by apply mapM_inverse|apply array_from_concat].
  - intros (chars & Hm & <-). exists s'. split; [done|]. rewrite Henc.
    rewrite array_from_plain by (by eapply mapM_plain). by rewrite (proj2 (mapM_inverse e _ _) Hm).
Qed.

(** The text the editor takes as input and the hexadecimal it sends agree:
    [printableTextToHex] gives [hex] exactly when [hex] is the upper-case
    form of bytes that [decodeTextBytes] shows as that text. *)
Theorem printable_hex_roundtrip s text e hex :
  maps_ok s ->
  (printableTextToHex text e s).2 = Ok (Some hex) <->
  decodeTextBytes (hex_decode hex) e = Some text /\ hex = bytesToHex (hex_decode hex).
Proof.
  intros Hs. destruct (encode_cached s text e Hs) as (s' & _ & Henc).
  unfold printableTextToHex, bindM. rewrite Henc. cbn [snd retM]. rewrite decode_bytes_spec. split.
  - destruct (mapM _ (array_from text)) as [bytes|] eqn:Em; [|done].
    destruct (existsb _ bytes) eqn:Ex; [done|]. intros [= <-].
    apply mapM_inverse in Em. apply not_printable_existsb in Ex.
    destruct (hex_forms_agree bytes) as [Hf Hd]; [by eapply mapM_in_range|].
    rewrite Hf, Hd. split; [|done]. exists (array_from text). by rewrite array_from_concat.
  - intros ((chars & Hm & <- & Hall) & Hhex).
    rewrite array_from_plain by (by eapply mapM_plain).
    rewrite (proj2 (mapM_inverse e _ _) Hm), (proj2 (not_printable_existsb e _) Hall).
    destruct (hex_forms_agree (hex_decode hex)) as [Hf _]; [by eapply mapM_in_range|].
    by rewrite Hf, <- Hhex.
Qed.

(** *** Concrete inputs *)

(** The cent sign in EBCDIC, with the table built by an earlier call. *)
Definition warm_maps : maps_state := fst (encodeTextToBytes (js "A") ebcdic_037 []).

Lemma warm_maps_ok : maps_ok warm_maps.
Proof.
  assert (H : maps_ok []) by (intros e m H; discriminate H).
  destruct (encode_cached [] (js "A") ebcdic_037 H) as (s' & Hs & E).
  unfold warm_maps. by rewrite E.
Qed.

Lemma text_encode_inverse_witness :
  exists chars, mapM (fun b => decodeTextByte b ebcdic_037) [193; 74] = Some chars /\
    concat chars = [65; 162].
Proof.
  apply (text_encode_inverse warm_maps [65; 162] ebcdic_037 [193; 74] warm_maps_ok).
  destruct (encode_cached warm_maps [65; 162] ebcdic_037 warm_maps_ok) as (s' & Hs & E).
  exists s'. split; [exact Hs|]. rewrite E. apply (f_equal (fun r => (s', Ok r))).
  vm_compute. reflexivity.
Defined.

Lemma printable_hex_roundtrip_witness :
  decodeTextBytes (hex_decode (js "C14A")) ebcdic_037 = Some [65; 162] /\
  js "C14A" = bytesToHex (hex_decode (js "C14A")).
Proof.
  apply (printable_hex_roundtrip warm_maps [65; 162] ebcdic_037 (js "C14A") warm_maps_ok).
  vm_compute. reflexivity.
Defined.
