(* ===== verification/RangeMap.v ===== *)
(** * Range maps ([vscode-extension/src/rangeMap.ts])

    A range map is a JSON file that names byte ranges of the open file as a
    tree of nodes.  The parser walks it depth first, counting nodes and
    remembering paths; the nodes are then flattened children first, given
    identifiers, and turned into highlights and into the tree the webview
    shows.

    The count and the paths are the state of the parser ([parse_context]).
    The map from nodes to identifiers of the source is keyed by object
    identity, so a node carries the number of its allocation, [nd_ref].
    [JSON.parse] is [JsonRuntime]; [String(n)] of a number that is no
    safe integer is [print_double].  The recursion of the parser is
    bounded by the depth limit and the search for a free identifier by the
    number of identifiers in use; both are run with that fuel and shown
    never to use it up. *)

From S2P Require Import Prelude JsText JsValue ChangeLogCodec WebviewProtocol.

Definition RANGE_MAP_FORMAT : string := "omega-edit.range-map".
Definition RANGE_MAP_VERSION : Z := 1.
Definition MAX_RANGE_MAP_NODES : Z := 512.
Definition MAX_RANGE_MAP_DEPTH : Z := 64.
Definition MAX_RANGE_MAP_LABEL_LENGTH : Z := 128.
Definition MAX_RANGE_MAP_ID_LENGTH : Z := MAX_LABEL_LENGTH.
Definition MAX_RANGE_MAP_PATH_LENGTH : Z := 512.
Definition MAX_RANGE_MAP_VALUE_LENGTH : Z := 128.

(** ** Decoding bytes

    [new TextDecoder().decode(bytes)]: malformed input gives U+FFFD.  The
    decoder keeps the continuation bytes still needed, the value so far and
    the bounds of the next byte. *)
Module Utf8Lossy.

Record state := mkState { needed : nat; value : Z; lower : Z; upper : Z }.

Definition idle : state := mkState 0 0 128 191.

(** A byte at the start of a character: the code points out and the state. *)
Definition start (b : Z) : list Z * state :=
  if in_range 0 127 b then ([b], idle)
  else if in_range 194 223 b then ([], mkState 1 (b - 192) 128 191)
  else if in_range 224 239 b then
    ([], mkState 2 (b - 224) (if b =? 224 then 160 else 128) (if b =? 237 then 159 else 191))
  else if in_range 240 244 b then
    ([], mkState 3 (b - 240) (if b =? 240 then 144 else 128) (if b =? 244 then 143 else 191))
  else ([65533], idle).

(** A byte inside a character; one that does not belong there ends the
    character and is read again as a start. *)
Definition step (st : state) (b : Z) : list Z * state :=
  match needed st with
  | O => start b
  | S rest =>
      if in_range (lower st) (upper st) b then
        let v := 64 * value st + (b - 128) in
        match rest with O => ([v], idle) | _ => ([], mkState rest v 128 191) end
      else let '(out, st') := start b in (65533 :: out, st')
  end.

Fixpoint points (st : state) (bs : list Z) : list Z :=
  match bs with
  | [] => match needed st with O => [] | _ => [65533] end
  | b :: bs => let '(out, st') := step st b in out ++ points st' bs
  end.

Definition decode (bs : list Z) : jsstring :=
  let body := match bs with 239 :: 187 :: 191 :: t => t | _ => bs end in
  flat_map utf16_point (points idle body).
End Utf8Lossy.

(** ** Data *)

Record node_data := mkNodeData {
  nd_ref : nat;
  nd_path : jsstring;
  nd_label : jsstring;
  nd_offset : Z;
  nd_length : Z;
  nd_kind : ExternalHighlightKind;
  nd_source : option jsstring;
  nd_type : option jsstring;
  nd_value : option jsstring
}.

Inductive RangeMapNode := Node (data : node_data) (children : list RangeMapNode).

Definition node_of (n : RangeMapNode) : node_data := match n with Node d _ => d end.
Definition children_of (n : RangeMapNode) : list RangeMapNode := match n with Node _ cs => cs end.

Record RangeMapDocument := mkDocument {
  rd_source : option jsstring;
  rd_sourceFileSize : option Z;
  rd_selectedPath : option jsstring;
  rd_nodes : list RangeMapNode
}.

(** A node of the tree that is sent to the webview. *)
Record tree_data := mkTreeData {
  td_id : jsstring;
  td_path : jsstring;
  td_label : jsstring;
  td_offset : Z;
  td_length : Z;
  td_kind : ExternalHighlightKind;
  td_source : option jsstring;
  td_type : option jsstring;
  td_value : option jsstring
}.

Inductive WebviewRangeMapNode := Tree (data : tree_data) (children : list WebviewRangeMapNode).

Record ParsedRangeMap := mkParsed {
  pm_document : RangeMapDocument;
  pm_highlights : list WebviewExternalHighlight;
  pm_tree : list WebviewRangeMapNode;
  pm_selectedHighlight : option WebviewExternalHighlight;
  pm_nodeCount : Z
}.

(** ** Checks on single values *)

Definition safeString (value : jsval) (what : string) (allowEmpty : bool) (maxLength : Z)
  : result (option jsstring) :=
  match value with
  | JString s =>
      let text := trim s in
      if negb allowEmpty && (slen text =? 0) then Ok None
      else if maxLength <? slen text then Throw (plain_error (what +:+ " must be at most characters"))
      else Ok (Some text)
  | _ => Ok None
  end.

Definition safeNonNegativeInteger (value : jsval) : option Z :=
  match value with
  | JNumber (NInt z) => if safeZ z && (0 <=? z) then Some z else None
  | _ => None
  end.

Definition safeHighlightKind (value : jsval) : option ExternalHighlightKind :=
  one_of highlight_kind_name highlight_kinds value.

(** [`${text.slice(0, max - 3)}...`] unless the text is short enough. *)
Definition shorten (max : Z) (text : jsstring) : jsstring :=
  if slen text <=? max then text else take (Z.to_nat (max - 3)) text ++ js "...".

Section Values.
Context (print_double : number -> jsstring).

Definition safeValueText (value : jsval) : option jsstring :=
  match value with
  | JUndefined => None
  | JNull => Some (js "null")
  | JString s => Some (shorten MAX_RANGE_MAP_VALUE_LENGTH s)
  | JNumber n => Some (shorten MAX_RANGE_MAP_VALUE_LENGTH (number_string print_double n))
  | JBool b => Some (js (if b then "true" else "false"))
  | JArray _ => Some (js "[array]")
  | JBigInt _ | JObject _ => Some (js "[object]")
  end.
End Values.

(** ** Parsing nodes *)

Record parse_context := mkParse { nodeCount : Z; seenPaths : list jsstring; next_ref : nat }.

Definition count_node (c : parse_context) : parse_context :=
  mkParse (nodeCount c + 1) (seenPaths c) (next_ref c).
Definition see_path (path : jsstring) (c : parse_context) : parse_context :=
  mkParse (nodeCount c) (path :: seenPaths c) (next_ref c).
Definition alloc (c : parse_context) : parse_context :=
  mkParse (nodeCount c) (seenPaths c) (S (next_ref c)).

Definition out_of_fuel : exn := Exn "OutOfFuel" "".

(** [arr.map(f)] where [f] has effects. *)
Fixpoint map_effects {S A B} (f : A -> M S B) (l : list A) : M S (list B) :=
  match l with
  | [] => retM []
  | x :: l => bindM (f x) (fun y => bindM (map_effects f l) (fun ys => retM (y :: ys)))
  end.

Section Parser.
Context (print_double : number -> jsstring).

Open Scope jsm_scope.

(** The properties of a node before its children, with every check that
    comes before the recursion. *)
Definition parse_fields (raw : jsval) : M parse_context (jsobject * node_data) :=
  match as_record raw with
  | None => throwM (plain_error "Range map node must be an object")
  | Some o =>
      let field k := get (js k) o in
      let* pathText := liftM (safeString (field "path") "Range map node path" false
                                MAX_RANGE_MAP_PATH_LENGTH) in
      let* labelText := liftM (safeString (field "label") "Range map node label" true
                                 MAX_RANGE_MAP_LABEL_LENGTH) in
      let kind := default Parsed (safeHighlightKind (field "kind")) in
      let* source := (if is_undefined (field "source") then retM None
        else liftM (safeString (field "source") "Range map node source" false
                      MAX_RANGE_MAP_LABEL_LENGTH)) in
      let* type := (if is_undefined (field "type") then retM None
        else liftM (safeString (field "type") "Range map node type" false
                      MAX_RANGE_MAP_LABEL_LENGTH)) in
      match pathText with
      | None => throwM (plain_error "Range map node requires path")
      | Some path =>
          let* seen := getM seenPaths in
          if bool_decide (path ∈ seen) then throwM (plain_error "Range map path is duplicated")
          else
            putM (see_path path) ;;;
            match safeNonNegativeInteger (field "offset"), safeNonNegativeInteger (field "length") with
            | None, _ => throwM (plain_error "Range map node requires offset")
            | Some _, None => throwM (plain_error "Range map node requires positive length")
            | Some offset, Some len =>
                if len =? 0 then throwM (plain_error "Range map node requires positive length")
                else
                  let label := default path labelText in
                  retM (o, mkNodeData 0 path (if slen label =? 0 then path else label) offset len
                             kind source type (safeValueText print_double (field "value")))
            end
      end
  end.

(** The object literal that is returned, with its identity. *)
Definition new_node (d : node_data) (children : list RangeMapNode) : M parse_context RangeMapNode :=
  let* ref := getM next_ref in
  putM alloc ;;;
  retM (Node (mkNodeData ref (nd_path d) (nd_label d) (nd_offset d) (nd_length d) (nd_kind d)
                (nd_source d) (nd_type d) (nd_value d)) children).

Fixpoint parseRangeMapNode (fuel : nat) (depth : Z) (raw : jsval) : M parse_context RangeMapNode :=
  match fuel with
  | O => throwM out_of_fuel
  | S fuel =>
      if MAX_RANGE_MAP_DEPTH <? depth
      then throwM (plain_error "Range map node exceeds maximum depth")
      else
        putM count_node ;;;
        let* n := getM nodeCount in
        if MAX_RANGE_MAP_NODES <? n
        then throwM (plain_error "Range map cannot contain more than nodes")
        else
          let* fields := parse_fields raw in
          let '(o, d) := fields in
          let* children :=
            match as_array (get (js "children") o) with
            | Some l => map_effects (parseRangeMapNode fuel (depth + 1)) l
            | None => retM []
            end in
          new_node d children
  end.
End Parser.

(** ** Flattening *)

Fixpoint visit (n : RangeMapNode) : list RangeMapNode :=
  match n with Node _ children => flat_map visit children ++ [n] end.

Definition flattenRangeMapNodes (nodes : list RangeMapNode) : list RangeMapNode :=
  flat_map visit nodes.

(** ** Identifiers *)

Definition range_id (index : nat) : jsstring := js "range." ++ decimal_string (Z.of_nat index).

Definition suffix_id (index : nat) (suffix : Z) : jsstring :=
  range_id index ++ js "." ++ decimal_string suffix.

(** The [while] loop from a given suffix. *)
Fixpoint suffix_loop (fuel : nat) (index : nat) (suffix : Z) (usedIds : list jsstring)
  : option jsstring :=
  match fuel with
  | O => None
  | S fuel =>
      let generatedId := suffix_id index suffix in
      if bool_decide (generatedId ∈ usedIds) then suffix_loop fuel index (suffix + 1) usedIds
      else Some generatedId
  end.

Definition makeRangeMapHighlightId (node : node_data) (index : nat) (usedIds : list jsstring)
  : result (jsstring * list jsstring) :=
  let preferredId :=
    if slen (nd_path node) <=? MAX_RANGE_MAP_ID_LENGTH then nd_path node else range_id index in
  if negb (bool_decide (preferredId ∈ usedIds)) then Ok (preferredId, preferredId :: usedIds)
  else match suffix_loop (S (length usedIds)) index 1 usedIds with
  | Some generatedId => Ok (generatedId, generatedId :: usedIds)
  | None => Throw out_of_fuel
  end.

(** [flattened.forEach(...)]: the map from nodes to identifiers. *)
Fixpoint assign_ids (nodes : list RangeMapNode) (index : nat) (usedIds : list jsstring)
  (idByNode : gmap nat jsstring) : result (gmap nat jsstring) :=
  match nodes with
  | [] => Ok idByNode
  | n :: nodes =>
      '(id, usedIds) ← makeRangeMapHighlightId (node_of n) index usedIds;
      assign_ids nodes (S index) usedIds (<[nd_ref (node_of n) := id]> idByNode)
  end.

(** ** Highlights and the tree *)

Definition is_selected (selectedPath : option jsstring) (d : node_data) : bool :=
  bool_decide (selectedPath = Some (nd_path d)).

(** [text ? `${before}${text}${after}` : ''] *)
Definition label_part (before : string) (text : option jsstring) (after : string) : jsstring :=
  match text with
  | Some s => if slen s =? 0 then [] else js before ++ s ++ js after
  | None => []
  end.

Definition rangeMapNodeToHighlight (d : node_data) (id : jsstring)
  (defaultSource selectedPath : option jsstring) : WebviewExternalHighlight :=
  let label := nd_label d ++ label_part " (" (nd_type d) ")" ++ label_part " = " (nd_value d) "" in
  mkHighlight id (nd_offset d) (nd_length d)
    (if is_selected selectedPath d then Current else nd_kind d)
    (shorten MAX_RANGE_MAP_LABEL_LENGTH label)
    (match nd_source d with Some s => Some s | None => defaultSource end) false.

Definition node_id (idByNode : gmap nat jsstring) (d : node_data) : jsstring :=
  default (nd_path d) (idByNode !! nd_ref d).

Fixpoint rangeMapNodeToWebviewNode (idByNode : gmap nat jsstring)
  (defaultSource selectedPath : option jsstring) (n : RangeMapNode) : WebviewRangeMapNode :=
  match n with
  | Node d children =>
      Tree (mkTreeData (node_id idByNode d) (nd_path d) (nd_label d) (nd_offset d) (nd_length d)
              (if is_selected selectedPath d then Current else nd_kind d)
              (match nd_source d with Some s => Some s | None => defaultSource end)
              (nd_type d) (nd_value d))
        (map (rangeMapNodeToWebviewNode idByNode defaultSource selectedPath) children)
  end.

(** ** The whole file *)

(** [list.findIndex((node) => node.path === selectedPath)] and the highlight
    there. *)
Definition selected_highlight (selectedPath : option jsstring) (flattened : list RangeMapNode)
  (highlights : list WebviewExternalHighlight) : option WebviewExternalHighlight :=
  match selectedPath with
  | None => None
  | Some _ =>
      '(i, _) ← list_find (fun n => is_selected selectedPath (node_of n) = true) flattened;
      highlights !! i
  end.

Section Content.
Context `{JsonRuntime} (print_double : number -> jsstring).

(** The header of the parsed object: source, size of the source file and
    selected path. *)
Definition parse_header (o : jsobject) : result (option jsstring * option Z * option jsstring) :=
  let field k := get (js k) o in
  source ← (if is_undefined (field "source") then Ok None
            else safeString (field "source") "Range map source" false MAX_RANGE_MAP_LABEL_LENGTH);
  let sourceFileSize := safeNonNegativeInteger (field "sourceFileSize") in
  if negb (is_undefined (field "sourceFileSize")) && negb (bool_decide (is_Some sourceFileSize))
  then Throw (plain_error "Range map sourceFileSize must be a non-negative safe integer")
  else
    selectedPath ← (if is_undefined (field "selectedPath") then Ok None
      else safeString (field "selectedPath") "Range map selectedPath" false MAX_RANGE_MAP_PATH_LENGTH);
    Ok (source, sourceFileSize, selectedPath).

(** What is built from the parsed nodes. *)
Definition build_parsed (document : RangeMapDocument) : result ParsedRangeMap :=
  let nodes := rd_nodes document in
  let selectedPath := rd_selectedPath document in
  let flattened := flattenRangeMapNodes nodes in
  let defaultSource := Some (default (js "Range map") (rd_source document)) in
  idByNode ← assign_ids flattened 0 [] ∅;
  let highlights := map (fun n => rangeMapNodeToHighlight (node_of n) (node_id idByNode (node_of n))
                                    defaultSource selectedPath) flattened in
  let tree := map (rangeMapNodeToWebviewNode idByNode defaultSource selectedPath) nodes in
  Ok (mkParsed document highlights tree (selected_highlight selectedPath flattened highlights)
        (Z.of_nat (length flattened))).

(** The fuel of the parser: one more than the levels that are allowed. *)
Definition parse_fuel : nat := S (Z.to_nat MAX_RANGE_MAP_DEPTH).

Definition parseRangeMapContent (content : list Z) : result ParsedRangeMap :=
  match JSON_parse (Utf8Lossy.decode content) with
  | None => Throw (plain_error "Invalid range map JSON: ")
  | Some parsed =>
      match as_record parsed with
      | None => Throw (plain_error "Range map must be an object")
      | Some o =>
          if negb (is_str (get (js "format") o) RANGE_MAP_FORMAT)
          then Throw (plain_error "Unsupported range map format")
          else if negb (is_int (get (js "version") o) RANGE_MAP_VERSION)
          then Throw (plain_error "Unsupported range map version")
          else match as_array (get (js "nodes") o) with
          | None => Throw (plain_error "Range map nodes must be an array")
          | Some raws =>
              '(source, sourceFileSize, selectedPath) ← parse_header o;
              let '(context, parsedNodes) :=
                map_effects (parseRangeMapNode print_double parse_fuel 1) raws (mkParse 0 [] 0) in
              nodes ← parsedNodes;
              if (match selectedPath with
                  | Some path => negb (bool_decide (path ∈ seenPaths context))
                  | None => false
                  end)
              then Throw (plain_error "Range map selectedPath was not found")
              else build_parsed (mkDocument source sourceFileSize selectedPath nodes)
          end
      end
  end.
End Content.

(** ** Fitting the open file *)

Definition node_outside (fileSize : Z) (d : node_data) : bool :=
  let remaining := Z.max 0 (fileSize - nd_offset d) in
  (fileSize <=? nd_offset d) || (remaining <? nd_length d).

Definition assertRangeMapFitsFile (parsed : ParsedRangeMap) (fileSize : number) : result unit :=
  match fileSize with
  | NInt size =>
      if negb (safeZ size) || (size <? 0)
      then Throw (plain_error "Range map file size must be a non-negative safe integer")
      else if (match rd_sourceFileSize (pm_document parsed) with
               | Some expected => negb (expected =? size) | None => false end)
      then Throw (plain_error "Range map source file size does not match open file size")
      else
        result_fold (fun _ n =>
            if node_outside size (node_of n)
            then Throw (plain_error "Range map node is outside file bounds") else Ok tt)
          tt (flattenRangeMapNodes (rd_nodes (pm_document parsed)))
  | _ => Throw (plain_error "Range map file size must be a non-negative safe integer")
  end.

(** ** What the parser gives *)

Fixpoint height (n : RangeMapNode) : nat :=
  match n with Node _ children => S (foldr (fun c m => Nat.max (height c) m) 0%nat children) end.

Definition path_of (n : RangeMapNode) : jsstring := nd_path (node_of n).
Definition ref_of (n : RangeMapNode) : nat := nd_ref (node_of n).

Definition node_ok (n : RangeMapNode) : Prop :=
  let d := node_of n in
  text_ok MAX_RANGE_MAP_PATH_LENGTH (nd_path d) /\
  (text_ok MAX_RANGE_MAP_LABEL_LENGTH (nd_label d) \/ nd_label d = nd_path d) /\
  safe_nat (nd_offset d) /\ safe_nat (nd_length d) /\ 0 < nd_length d /\
  option_ok (text_ok MAX_RANGE_MAP_LABEL_LENGTH) (nd_source d) /\
  option_ok (text_ok MAX_RANGE_MAP_LABEL_LENGTH) (nd_type d).

(** From [c] to [c'] the parser made the nodes [l], children first. *)
Record parsed_from (c c' : parse_context) (l : list RangeMapNode) : Prop := {
  pf_paths : seenPaths c' ≡ₚ map path_of l ++ seenPaths c;
  pf_count : nodeCount c' = nodeCount c + Z.of_nat (length l);
  pf_refs : map ref_of l = seq (next_ref c) (length l);
  pf_next : next_ref c' = (next_ref c + length l)%nat;
  pf_nodup : NoDup (seenPaths c) -> NoDup (seenPaths c');
  pf_max : nodeCount c <= MAX_RANGE_MAP_NODES -> nodeCount c' <= MAX_RANGE_MAP_NODES;
  pf_ok : Forall node_ok l
}.

Lemma parsed_from_nil c : parsed_from c c [].
Proof. split; try done; cbn; try lia. Qed.

Lemma parsed_from_app c1 c2 c3 l k :
  parsed_from c1 c2 l -> parsed_from c2 c3 k -> parsed_from c1 c3 (l ++ k).
Proof.
  intros [P1 C1 R1 N1 D1 M1 O1] [P2 C2 R2 N2 D2 M2 O2]. split.
  - rewrite P2, P1, map_app, app_assoc. f_equiv. apply Permutation_app_comm.
  - rewrite length_app. lia.
  - by rewrite map_app, R1, R2, length_app, seq_app, N1.
  - rewrite length_app. lia.
  - auto.
  - auto.
  - by apply Forall_app.
Qed.

(** One node: counted and seen before its children, allocated after them. *)
Lemma parsed_from_node c c' l d children :
  parsed_from (see_path (nd_path d) (count_node c)) c' l ->
  ~ nd_path d ∈ seenPaths c -> nodeCount c + 1 <= MAX_RANGE_MAP_NODES -> nd_ref d = next_ref c' ->
  node_ok (Node d children) ->
  parsed_from c (alloc c') (l ++ [Node d children]).
Proof.
  intros [P C R N D Mx O] Hni Hn Href Hok. cbn in *. split; cbn.
  - rewrite P, map_app. cbn. by rewrite <- app_assoc.
  - rewrite length_app. cbn. lia.
  - rewrite map_app, R, length_app, seq_app. cbn. do 2 f_equal. unfold ref_of. cbn. lia.
  - rewrite length_app. cbn. lia.
  - intros Hnd. apply D. by constructor.
  - auto.
  - apply Forall_app. split; [done|]. by constructor.
Qed.

Lemma safe_string_result v what empty max s :
  safeString v what empty max = Ok (Some s) -> trim s = s /\ slen s <= max /\ (empty = false -> s <> []).
Proof.
  unfold safeString. destruct v; try discriminate.
  destruct (negb empty && (slen (trim s0) =? 0)) eqn:E1; [discriminate|].
  destruct (max <? slen (trim s0)) eqn:E2; [discriminate|]. intros [= <-]. bool_prop.
  split; [apply trim_idem|]. split; [done|]. intros ->. rewrite <- slen_zero.
  cbn in E1. by apply Z.eqb_neq.
Qed.

Lemma safe_string_error v what empty max e :
  safeString v what empty max = Throw e -> exn_class e = "Error".
Proof. unfold safeString. destruct v; try discriminate. by repeat case_match; intros [= <-]. Qed.

Lemma safe_integer_spec v z : safeNonNegativeInteger v = Some z -> safe_nat z.
Proof.
  unfold safeNonNegativeInteger, safe_nat, safeZ. destruct v as [| | |[]| | | |]; try discriminate.
  intros H. some_inv. subst. bool_prop. lia.
Qed.

Section ParserProofs.
Context (print_double : number -> jsstring).

Definition fields_outcome (c : parse_context) (r : parse_context * result (jsobject * node_data)) : Prop :=
  match r with
  | (c', Ok (_, d)) =>
      c' = see_path (nd_path d) c /\ ~ nd_path d ∈ seenPaths c /\
      forall ref children, node_ok (Node (mkNodeData ref (nd_path d) (nd_label d) (nd_offset d)
        (nd_length d) (nd_kind d) (nd_source d) (nd_type d) (nd_value d)) children)
  | (_, Throw e) => exn_class e = "Error"
  end.

Lemma parse_fields_outcome raw c : fields_outcome c (parse_fields print_double raw c).
Proof.
  unfold parse_fields. destruct (as_record raw) as [o|]; [|done].
  assert (Hopt : forall key what (s1 : parse_context), exists r,
    (if is_undefined (get (js key) o) then retM None
     else liftM (safeString (get (js key) o) what false MAX_RANGE_MAP_LABEL_LENGTH)) s1 = (s1, r) /\
    match r with Ok t => option_ok (text_ok MAX_RANGE_MAP_LABEL_LENGTH) t
               | Throw e => exn_class e = "Error" end).
  { intros key what s1. destruct (is_undefined _); [by exists (Ok None)|]. eexists. split; [done|].
    destruct (safeString _ _ _ _) as [[s|]|e] eqn:E; [|done|by eapply safe_string_error].
    apply safe_string_result in E as (? & ? & ?). by repeat split; auto. }
  unfold bindM at 1, liftM at 1.
  destruct (safeString (get (js "path") o) _ _ _) as [path|e] eqn:Ep; [|by eapply safe_string_error].
  unfold bindM at 1, liftM at 1.
  destruct (safeString (get (js "label") o) _ _ _) as [label|e] eqn:El; [|by eapply safe_string_error].
  unfold bindM at 1. destruct (Hopt "source" "Range map node source" c) as (source & -> & Hsource).
  destruct source as [source|e]; [|done].
  unfold bindM at 1. destruct (Hopt "type" "Range map node type" c) as (type & -> & Htype).
  destruct type as [type|e]; [|done].
  destruct path as [path|]; [|done]. unfold bindM, getM, putM, throwM, retM.
  case_bool_decide as Hin; [done|].
  destruct (safeNonNegativeInteger (get (js "offset") o)) as [offset|] eqn:Eo; [|done].
  destruct (safeNonNegativeInteger (get (js "length") o)) as [len|] eqn:En; [|done].
  destruct (len =? 0) eqn:E0; [done|]. bool_prop.
  apply safe_string_result in Ep as (Hp1 & Hp2 & Hp3).
  apply safe_integer_spec in Eo, En. cbn [fields_outcome nd_path]. split; [done|]. split; [done|].
  intros ref children. unfold node_ok, text_ok. cbn.
  repeat split; auto; try (unfold safe_nat in *; lia).
  destruct label as [l|]; cbn; [|by destruct (slen path =? 0); right].
  apply safe_string_result in El as (? & ? & _).
  destruct (slen l =? 0) eqn:Ez; [by right|]. bool_prop. rewrite <- slen_zero. auto.
Qed.

(** Outcomes: with enough fuel the parser throws only its own errors. *)
Definition node_outcome (fuel : nat) (depth : Z) (c : parse_context)
  (r : parse_context * result RangeMapNode) : Prop :=
  match r with
  | (c', Ok n) => parsed_from c c' (visit n) /\ Z.of_nat (height n) + depth <= MAX_RANGE_MAP_DEPTH + 1
  | (_, Throw e) =>
      depth <= MAX_RANGE_MAP_DEPTH + 1 < depth + Z.of_nat fuel -> exn_class e = "Error"
  end.

Definition nodes_outcome (fuel : nat) (depth : Z) (c : parse_context)
  (r : parse_context * result (list RangeMapNode)) : Prop :=
  match r with
  | (c', Ok ns) =>
      parsed_from c c' (flattenRangeMapNodes ns) /\
      Forall (fun n => Z.of_nat (height n) + depth <= MAX_RANGE_MAP_DEPTH + 1) ns
  | (_, Throw e) =>
      depth <= MAX_RANGE_MAP_DEPTH + 1 < depth + Z.of_nat fuel -> exn_class e = "Error"
  end.

Lemma map_effects_outcome fuel depth (f : jsval -> M parse_context RangeMapNode) :
  (forall raw c, node_outcome fuel depth c (f raw c)) ->
  forall raws c, nodes_outcome fuel depth c (map_effects f raws c).
Proof.
  intros Hf raws. induction raws as [|raw raws IH]; intros c; cbn [map_effects].
  - split; [apply parsed_from_nil|constructor].
  - unfold bindM at 1. specialize (Hf raw c). destruct (f raw c) as [c1 [n|e]]; [|done].
    destruct Hf as [Hn Hh]. unfold bindM at 1. specialize (IH c1).
    destruct (map_effects f raws c1) as [c2 [ns|e]]; [|done]. destruct IH as [Hns Hhs].
    unfold retM. split; [|by constructor]. unfold flattenRangeMapNodes. cbn [flat_map].
    by eapply parsed_from_app.
Qed.

Lemma height_bound d children depth :
  depth <= MAX_RANGE_MAP_DEPTH ->
  Forall (fun n => Z.of_nat (height n) + (depth + 1) <= MAX_RANGE_MAP_DEPTH + 1) children ->
  Z.of_nat (height (Node d children)) + depth <= MAX_RANGE_MAP_DEPTH + 1.
Proof.
  intros Hd H. cbn [height].
  enough (Z.of_nat (foldr (fun c m => Nat.max (height c) m) 0%nat children) + (depth + 1)
          <= MAX_RANGE_MAP_DEPTH + 1) by lia.
  induction H as [|n ns Hn _ IH]; cbn [foldr]; lia.
Qed.

Lemma parse_node_outcome fuel : forall depth raw c,
  node_outcome fuel depth c (parseRangeMapNode print_double fuel depth raw c).
Proof.
  induction fuel as [|fuel IH]; intros depth raw c; cbn [parseRangeMapNode].
  { cbn. lia. }
  destruct (Z.ltb_spec MAX_RANGE_MAP_DEPTH depth) as [Hd|Hd]; [done|].
  unfold bindM at 1, putM at 1. unfold bindM at 1, getM at 1.
  destruct (Z.ltb_spec MAX_RANGE_MAP_NODES (nodeCount (count_node c))) as [Hn|Hn]; [done|].
  unfold bindM at 1. pose proof (parse_fields_outcome raw (count_node c)) as Hf.
  destruct (parse_fields _ raw (count_node c)) as [c1 [[o d]|e]]; [|by intros _].
  destruct Hf as (-> & Hni & Hok). unfold bindM at 1.
  set (c1 := see_path (nd_path d) (count_node c)).
  assert (Hch : nodes_outcome fuel (depth + 1) c1
    (match as_array (get (js "children") o) with
     | Some l => map_effects (parseRangeMapNode print_double fuel (depth + 1)) l
     | None => retM [] end c1)).
  { destruct (as_array _) as [l|]; [by apply map_effects_outcome|].
    split; [apply parsed_from_nil|constructor]. }
  match type of Hch with nodes_outcome _ _ _ ?r => destruct r as [c2 [children|e]] end.
  2:{ intros Hfuel. apply Hch. lia. }
  destruct Hch as [Hp Hh]. unfold new_node, bindM, getM, putM, retM. split; [|by apply height_bound].
  cbn [visit]. apply parsed_from_node; try done.
Qed.

(** The whole list of nodes, from the empty context. *)
Lemma parse_nodes_outcome raws :
  match map_effects (parseRangeMapNode print_double parse_fuel 1) raws (mkParse 0 [] 0) with
  | (c, Ok ns) =>
      parsed_from (mkParse 0 [] 0) c (flattenRangeMapNodes ns) /\
      Forall (fun n => Z.of_nat (height n) <= MAX_RANGE_MAP_DEPTH) ns
  | (_, Throw e) => exn_class e = "Error"
  end.
Proof.
  pose proof (map_effects_outcome parse_fuel 1 _ (fun raw c => parse_node_outcome parse_fuel 1 raw c)
    raws (mkParse 0 [] 0)) as H.
  destruct (map_effects _ raws _) as [c [ns|e]].
  - destruct H as [Hp Hh]. split; [done|]. eapply Forall_impl; [exact Hh|]. cbn. lia.
  - apply H. unfold parse_fuel, MAX_RANGE_MAP_DEPTH. lia.
Qed.
End ParserProofs.

(** ** Identifiers: the search ends *)

Lemma decimal_string_inj a b : 0 <= a -> 0 <= b -> decimal_string a = decimal_string b -> a = b.
Proof.
  intros Ha Hb H. destruct (decimal_string_spec a Ha) as [<- _].
  destruct (decimal_string_spec b Hb) as [<- _]. by rewrite H.
Qed.

Lemma suffix_id_inj index a b : 0 <= a -> 0 <= b -> suffix_id index a = suffix_id index b -> a = b.
Proof. unfold suffix_id. intros Ha Hb H. do 2 apply app_inv_head in H. by apply decimal_string_inj. Qed.

(** A search that runs out of fuel has met as many different used
    identifiers as it had fuel. *)
Lemma suffix_loop_none fuel index used : forall k,
  0 <= k -> suffix_loop fuel index k used = None ->
  map (suffix_id index) (seqZ k (Z.of_nat fuel)) ⊆ used.
Proof.
  induction fuel as [|fuel IH]; intros k Hk H; [set_solver|].
  rewrite Nat2Z.inj_succ, seqZ_cons by lia. rewrite Z.pred_succ. cbn [map suffix_loop] in *.
  case_bool_decide as Hin; [|done]. intros x Hx. apply elem_of_cons in Hx as [->|Hx]; [done|].
  eapply IH; [|exact H|exact Hx]. lia.
Qed.

Lemma suffix_loop_sound fuel index used : forall k id,
  suffix_loop fuel index k used = Some id ->
  ~ id ∈ used /\ exists j, k <= j < k + Z.of_nat fuel /\ id = suffix_id index j.
Proof.
  induction fuel as [|fuel IH]; intros k id H; [done|]. cbn [suffix_loop] in H.
  case_bool_decide as Hin.
  - apply IH in H as (Hni & j & Hj & ->). split; [done|]. exists j. split; [lia|done].
  - injection H as <-. split; [done|]. exists k. split; [lia|done].
Qed.

Lemma suffix_loop_total index used : is_Some (suffix_loop (S (length used)) index 1 used).
Proof.
  destruct (suffix_loop (S (length used)) index 1 used) eqn:E; [eauto|exfalso].
  apply suffix_loop_none in E; [|lia].
  assert (Hnd : NoDup (map (suffix_id index) (seqZ 1 (Z.of_nat (S (length used)))))).
  { apply NoDup_fmap_2_strong; [|apply NoDup_seqZ]. intros a b Ha Hb.
    apply elem_of_seqZ in Ha, Hb. apply suffix_id_inj; lia. }
  pose proof (NoDup_submseteq _ _ Hnd E) as H.
  apply submseteq_length in H. rewrite length_map, length_seqZ in H. lia.
Qed.

Lemma decimal_digits_length fuel : forall n acc,
  (length (decimal_digits fuel n acc) <= fuel + length acc)%nat.
Proof.
  induction fuel as [|fuel IH]; intros n acc; cbn [decimal_digits]; [lia|].
  destruct (n <? 10); cbn [length]; [lia|]. etrans; [apply IH|]. cbn [length]. lia.
Qed.

Lemma decimal_string_short n : 0 <= n < 2 ^ 20 -> slen (decimal_string n) <= 20.
Proof.
  intros Hn. unfold slen, decimal_string. etrans; [apply inj_le, decimal_digits_length|]. cbn [length].
  destruct (Z.eq_dec n 0) as [->|Hne]; [done|].
  assert (Z.log2 n < 20) by (apply Z.log2_lt_pow2; lia). pose proof (Z.log2_nonneg n). lia.
Qed.

Lemma decimal_chars n c : 0 <= n -> In c (decimal_string n) -> 48 <= c <= 57.
Proof.
  intros Hn Hc. destruct (decimal_string_spec n Hn) as [_ H]. unfold canonical_decimal in H.
  destruct (decimal_string n) as [|d t]; [done|]. apply orb_true_iff in H as [H|H].
  - bool_prop. destruct t; [|done]. destruct Hc as [<-|[]]. lia.
  - bool_prop. unfold in_range in *. bool_prop. rewrite forallb_forall in *.
    destruct Hc as [<-|Hc]; [lia|].
    match goal with H : forall x, In x t -> _ |- _ => specialize (H c Hc); unfold is_digit, in_range in H end.
    bool_prop. lia.
Qed.

Lemma decimal_not_space n c : 0 <= n -> In c (decimal_string n) -> is_js_space c = false.
Proof.
  intros Hn Hc. apply decimal_chars in Hc; [|done]. unfold is_js_space.
  rewrite !orb_false_iff, !andb_false_iff, !Z.leb_gt, !Z.eqb_neq. lia.
Qed.

Lemma slen_app s t : slen (s ++ t) = slen s + slen t.
Proof. unfold slen. rewrite length_app. lia. Qed.

(** The identifiers that are made up are within the protocol's limit. *)
Lemma range_id_ok index : Z.of_nat index < 2 ^ 20 -> text_ok MAX_RANGE_MAP_ID_LENGTH (range_id index).
Proof.
  intros Hi. unfold text_ok, range_id. split; [|split; [done|]].
  - apply trim_id. intros c Hc. apply in_app_iff in Hc as [Hc|Hc].
    + cbn in Hc. by repeat destruct Hc as [<-|Hc].
    + by eapply decimal_not_space; [|exact Hc]; lia.
  - rewrite slen_app. change (slen (js "range.")) with 6. change MAX_RANGE_MAP_ID_LENGTH with 128.
    pose proof (decimal_string_short (Z.of_nat index)). lia.
Qed.

Lemma suffix_id_ok index k :
  Z.of_nat index < 2 ^ 20 -> 0 <= k < 2 ^ 20 -> text_ok MAX_RANGE_MAP_ID_LENGTH (suffix_id index k).
Proof.
  intros Hi Hk. unfold text_ok, suffix_id, range_id. split; [|split; [done|]].
  - apply trim_id. intros c Hc. rewrite !in_app_iff in Hc.
    destruct Hc as [[Hc|Hc]|[Hc|Hc]];
      try (by eapply decimal_not_space; [|exact Hc]; lia);
      cbn in Hc; by repeat destruct Hc as [<-|Hc].
  - rewrite !slen_app. change (slen (js "range.")) with 6. change (slen (js ".")) with 1.
    change MAX_RANGE_MAP_ID_LENGTH with 128.
    pose proof (decimal_string_short (Z.of_nat index)). pose proof (decimal_string_short k). lia.
Qed.

(** An identifier is always found: it is new, in order, and the preferred
    one if that is free. *)
Lemma make_id_spec n index used :
  node_ok n -> Z.of_nat index < 2 ^ 19 -> Z.of_nat (length used) < 2 ^ 19 ->
  exists id, makeRangeMapHighlightId (node_of n) index used = Ok (id, id :: used) /\
    ~ id ∈ used /\ text_ok MAX_RANGE_MAP_ID_LENGTH id.
Proof.
  intros (Hp & _) Hi Hu. unfold makeRangeMapHighlightId.
  set (preferred := if slen (nd_path (node_of n)) <=? MAX_RANGE_MAP_ID_LENGTH
                    then nd_path (node_of n) else range_id index).
  case_bool_decide as Hin; cbn [negb].
  - destruct (suffix_loop_total index used) as [id E]. rewrite E. exists id. split; [done|].
    apply suffix_loop_sound in E as (Hni & j & Hj & ->). split; [done|]. apply suffix_id_ok; lia.
  - exists preferred. split; [done|]. split; [done|]. subst preferred.
    destruct (Z.leb_spec (slen (nd_path (node_of n))) MAX_RANGE_MAP_ID_LENGTH) as [Hle|_].
    + destruct Hp as (? & ? & _). by repeat split.
    + apply range_id_ok. lia.
Qed.

Lemma assign_ids_spec nodes : forall index used m,
  Forall node_ok nodes -> NoDup (map ref_of nodes) ->
  Z.of_nat (index + length nodes) < 2 ^ 19 -> Z.of_nat (length used + length nodes) < 2 ^ 19 ->
  exists ids m', assign_ids nodes index used m = Ok m' /\
    Forall2 (fun n id => m' !! ref_of n = Some id) nodes ids /\
    NoDup ids /\ Forall (fun id => ~ id ∈ used) ids /\
    Forall (text_ok MAX_RANGE_MAP_ID_LENGTH) ids /\
    (forall r, ~ r ∈ map ref_of nodes -> m' !! r = m !! r).
Proof.
  induction nodes as [|n nodes IH]; intros index used m Hok Hnd Hi Hu; cbn [assign_ids map length] in *.
  - exists [], m. by split_and!; try constructor.
  - apply Forall_cons in Hok as [Hn Hok]. apply NoDup_cons in Hnd as [Hr Hnd].
    destruct (make_id_spec n index used) as (id & Hid & Hni & Hidok); [done|lia|lia|].
    rewrite Hid. cbn [mbind result_bind].
    destruct (IH (S index) (id :: used) (<[nd_ref (node_of n) := id]> m)) as
      (ids & m' & Ha & Hall & Hids & Hnew & Hoks & Hrest); [done|done|lia|cbn [length]; lia|].
    exists (id :: ids), m'. split; [done|]. split; [|split; [|split; [|split]]].
    + constructor; [|done]. rewrite Hrest by done. apply lookup_insert_eq.
    + constructor; [|done]. intros Hin. rewrite Forall_forall in Hnew. apply (Hnew id Hin). set_solver.
    + constructor; [done|]. eapply Forall_impl; [exact Hnew|]. cbn. set_solver.
    + by constructor.
    + intros r Hrn. rewrite Hrest by set_solver. apply lookup_insert_ne. set_solver.
Qed.

(** ** The parsed file as a whole *)

Lemma node_nested_ind (P : RangeMapNode -> Prop) :
  (forall d children, Forall P children -> P (Node d children)) -> forall n, P n.
Proof.
  intros H. fix IH 1. intros [d children]. apply H. induction children as [|c cs IHcs]; constructor.
  - apply IH.
  - exact IHcs.
Qed.

Fixpoint visit_tree (t : WebviewRangeMapNode) : list WebviewRangeMapNode :=
  match t with Tree _ children => flat_map visit_tree children ++ [t] end.

Definition tree_of (t : WebviewRangeMapNode) : tree_data := match t with Tree d _ => d end.

Lemma visit_tree_node m source sel n :
  visit_tree (rangeMapNodeToWebviewNode m source sel n) =
  map (rangeMapNodeToWebviewNode m source sel) (visit n).
Proof.
  induction n as [d children IH] using node_nested_ind. cbn [rangeMapNodeToWebviewNode visit visit_tree].
  rewrite map_app. cbn [map rangeMapNodeToWebviewNode]. f_equal.
  induction IH as [|c cs Hc _ IHcs]; [done|]. cbn [map flat_map]. by rewrite map_app, Hc, IHcs.
Qed.

Lemma visit_tree_nodes m source sel nodes :
  flat_map visit_tree (map (rangeMapNodeToWebviewNode m source sel) nodes) =
  map (rangeMapNodeToWebviewNode m source sel) (flattenRangeMapNodes nodes).
Proof.
  unfold flattenRangeMapNodes. induction nodes as [|n nodes IH]; [done|]. cbn [map flat_map].
  by rewrite map_app, visit_tree_node, IH.
Qed.

Lemma trim_length_z s : slen (trim s) <= slen s.
Proof. unfold slen. pose proof (trim_length s). lia. Qed.

Lemma shorten_length max text : 3 <= max -> slen (shorten max text) <= max.
Proof.
  intros Hm. unfold shorten. destruct (Z.leb_spec (slen text) max) as [H|H]; [done|].
  rewrite slen_app. change (slen (js "...")) with 3. unfold slen. rewrite length_take. lia.
Qed.

Section ContentProofs.
Context `{JsonRuntime} (print_double : number -> jsstring).

(** What a range map that parses is made of. *)
Record well_parsed (p : ParsedRangeMap) (flat : list RangeMapNode) (ids : gmap nat jsstring) : Prop := {
  wp_flat : flat = flattenRangeMapNodes (rd_nodes (pm_document p));
  wp_count : Z.of_nat (length flat) <= MAX_RANGE_MAP_NODES;
  wp_height : Forall (fun n => Z.of_nat (height n) <= MAX_RANGE_MAP_DEPTH) (rd_nodes (pm_document p));
  wp_paths : NoDup (map path_of flat);
  wp_ok : Forall node_ok flat;
  wp_selected : option_ok (fun path => path ∈ map path_of flat) (rd_selectedPath (pm_document p));
  wp_source : option_ok (text_ok MAX_RANGE_MAP_LABEL_LENGTH) (rd_source (pm_document p));
  wp_ids : NoDup (map (fun n => node_id ids (node_of n)) flat);
  wp_ids_ok : Forall (fun n => text_ok MAX_RANGE_MAP_ID_LENGTH (node_id ids (node_of n))) flat;
  wp_highlights : pm_highlights p = map (fun n => rangeMapNodeToHighlight (node_of n)
    (node_id ids (node_of n)) (Some (default (js "Range map") (rd_source (pm_document p))))
    (rd_selectedPath (pm_document p))) flat;
  wp_tree : pm_tree p = map (rangeMapNodeToWebviewNode ids
    (Some (default (js "Range map") (rd_source (pm_document p)))) (rd_selectedPath (pm_document p)))
    (rd_nodes (pm_document p));
  wp_selection : pm_selectedHighlight p =
    selected_highlight (rd_selectedPath (pm_document p)) flat (pm_highlights p);
  wp_nodeCount : pm_nodeCount p = Z.of_nat (length flat)
}.

Definition content_outcome (r : result ParsedRangeMap) : Prop :=
  match r with
  | Ok p => exists flat ids, well_parsed p flat ids
  | Throw e => exn_class e = "Error"
  end.

Lemma parse_header_outcome o :
  match parse_header o with
  | Ok (source, _, _) => option_ok (text_ok MAX_RANGE_MAP_LABEL_LENGTH) source
  | Throw e => exn_class e = "Error"
  end.
Proof.
  unfold parse_header, mbind, result_bind.
  assert (Hs : match (if is_undefined (get (js "source") o) then Ok None
      else safeString (get (js "source") o) "Range map source" false MAX_RANGE_MAP_LABEL_LENGTH) with
    | Ok s => option_ok (text_ok MAX_RANGE_MAP_LABEL_LENGTH) s
    | Throw e => exn_class e = "Error" end).
  { destruct (is_undefined _); [done|]. destruct (safeString _ _ _ _) as [[s|]|e] eqn:E; [|done|].
    - apply safe_string_result in E as (? & ? & ?). unfold option_ok, text_ok. auto.
    - by eapply safe_string_error. }
  match type of Hs with match ?r with _ => _ end => destruct r as [s|e] end; [|done].
  destruct (_ && _); [done|].
  destruct (is_undefined (get (js "selectedPath") o)); [done|].
  destruct (safeString _ _ _ _) as [t|e] eqn:E; [done|by eapply safe_string_error].
Qed.

Lemma Forall2_node_ids ids m nodes :
  Forall2 (fun n id => m !! ref_of n = Some id) nodes ids ->
  map (fun n => node_id m (node_of n)) nodes = ids.
Proof.
  induction 1 as [|n id ns ks Hn _ IH]; [done|]. cbn [map]. rewrite IH. f_equal.
  unfold node_id, ref_of in *. by rewrite Hn.
Qed.

Lemma build_outcome c source size sel nodes :
  parsed_from (mkParse 0 [] 0) c (flattenRangeMapNodes nodes) ->
  Forall (fun n => Z.of_nat (height n) <= MAX_RANGE_MAP_DEPTH) nodes ->
  option_ok (text_ok MAX_RANGE_MAP_LABEL_LENGTH) source ->
  (match sel with Some path => negb (bool_decide (path ∈ seenPaths c)) | None => false end) = false ->
  content_outcome (build_parsed (mkDocument source size sel nodes)).
Proof.
  intros [P C R _ D Mx O] Hh Hsource Hsel. cbn in P, C, R, D, Mx.
  assert (Hmax : Z.of_nat (length (flattenRangeMapNodes nodes)) <= MAX_RANGE_MAP_NODES).
  { unfold MAX_RANGE_MAP_NODES in *. lia. }
  assert (Hlt : Z.of_nat (length (flattenRangeMapNodes nodes)) < 2 ^ 19)
    by (unfold MAX_RANGE_MAP_NODES in *; lia).
  unfold build_parsed. cbn [rd_nodes rd_selectedPath rd_source].
  destruct (assign_ids_spec (flattenRangeMapNodes nodes) 0 [] ∅) as
    (ids & m & Ha & Hall & Hnd & _ & Hok & _); [done| |cbn; lia|cbn; lia|].
  { rewrite R. apply NoDup_ListNoDup, seq_NoDup. }
  rewrite Ha. cbn [mbind result_bind content_outcome].
  exists (flattenRangeMapNodes nodes), m. apply Forall2_node_ids in Hall.
  split; cbn [pm_document rd_nodes rd_selectedPath rd_source pm_highlights pm_tree pm_nodeCount
    pm_selectedHighlight]; try done.
  - rewrite app_nil_r in P. rewrite <- P. by apply D; constructor.
  - destruct sel as [path|]; [|done]. cbn. bool_prop. rewrite app_nil_r in P. by rewrite <- P.
  - by rewrite Hall.
  - rewrite <- Hall in Hok. exact (proj1 (List.Forall_map _ _ _) Hok).
Qed.

Lemma parse_content_outcome content : content_outcome (parseRangeMapContent print_double content).
Proof.
  unfold parseRangeMapContent. destruct (JSON_parse _) as [parsed|]; [|done].
  destruct (as_record parsed) as [o|]; [|done]. destruct (negb _); [done|]. destruct (negb _); [done|].
  destruct (as_array _) as [raws|]; [|done]. unfold mbind, result_bind.
  pose proof (parse_header_outcome o) as Hh.
  destruct (parse_header o) as [[[source size] sel]|e]; [|done].
  pose proof (parse_nodes_outcome print_double raws) as Hn.
  destruct (map_effects _ raws _) as [c [nodes|e]]; [|done]. destruct Hn as [Hp Hheight].
  match goal with |- content_outcome (if ?b then _ else _) => destruct b eqn:Hsel end; [done|].
  by eapply build_outcome.
Qed.

Lemma parsed_well content p :
  parseRangeMapContent print_double content = Ok p -> exists flat ids, well_parsed p flat ids.
Proof. intros Hp. pose proof (parse_content_outcome content) as H1. by rewrite Hp in H1. Qed.

(** ** Properties *)

(** C39 A range map that parses keeps every limit: at most 512 nodes nested at
    most 64 deep, paths that are all different, in every node a positive
    length and safe numbers and texts within their limits, and a selected
    path only if a node has it. *)
Theorem range_map_wellformed content p :
  parseRangeMapContent print_double content = Ok p ->
  let flat := flattenRangeMapNodes (rd_nodes (pm_document p)) in
  pm_nodeCount p = Z.of_nat (length flat) /\ pm_nodeCount p <= MAX_RANGE_MAP_NODES /\
  Forall (fun n => Z.of_nat (height n) <= MAX_RANGE_MAP_DEPTH) (rd_nodes (pm_document p)) /\
  NoDup (map path_of flat) /\ Forall node_ok flat /\
  option_ok (fun path => path ∈ map path_of flat) (rd_selectedPath (pm_document p)).
Proof.
  intros Hp. apply parsed_well in Hp as (flat & ids & W). cbv zeta. rewrite <- (wp_flat _ _ _ W).
  rewrite (wp_nodeCount _ _ _ W). destruct W. by split_and!.
Qed.

(** C31 Parsing ends in a range map or in one of its own errors: neither the
    depth bound of the recursion nor the number of tries for a free
    identifier is ever used up. *)
Theorem range_map_parse_terminates content :
  match parseRangeMapContent print_double content with
  | Ok _ => True
  | Throw e => exn_class e = "Error"
  end.
Proof.
  pose proof (parse_content_outcome content) as Hc. unfold content_outcome in Hc.
  destruct (parseRangeMapContent print_double content); done.
Qed.

(** Highlight [h] shows node [n]. *)
Definition shows (selectedPath : option jsstring) (n : RangeMapNode) (h : WebviewExternalHighlight) : Prop :=
  hl_offset h = nd_offset (node_of n) /\ hl_length h = nd_length (node_of n) /\
  (hl_kind h = if bool_decide (selectedPath = Some (path_of n)) then Current else nd_kind (node_of n)) /\
  slen (hl_label h) <= MAX_RANGE_MAP_LABEL_LENGTH.

(** Highlights and tree describe the same nodes: one highlight per node,
    children before parents, each with an identifier of its own within the
    limit of 128 characters, which the node has in the tree as well. *)
Theorem range_map_highlights_match content p :
  parseRangeMapContent print_double content = Ok p ->
  let flat := flattenRangeMapNodes (rd_nodes (pm_document p)) in
  Forall2 (shows (rd_selectedPath (pm_document p))) flat (pm_highlights p) /\
  NoDup (map hl_id (pm_highlights p)) /\
  Forall (fun h => text_ok MAX_LABEL_LENGTH (hl_id h)) (pm_highlights p) /\
  map (fun t => (td_id (tree_of t), td_path (tree_of t))) (flat_map visit_tree (pm_tree p)) =
  zip (map hl_id (pm_highlights p)) (map path_of flat).
Proof.
  intros Hp. apply parsed_well in Hp as (flat & ids & W). cbv zeta.
  rewrite <- (wp_flat _ _ _ W), (wp_highlights _ _ _ W). split_and!.
  - apply Forall2_fmap_r, Forall_Forall2_diag, Forall_true. intros n. repeat split.
    by apply shorten_length.
  - rewrite map_map. apply (wp_ids _ _ _ W).
  - apply List.Forall_map. apply (wp_ids_ok _ _ _ W).
  - rewrite (wp_tree _ _ _ W), visit_tree_nodes, <- (wp_flat _ _ _ W). rewrite !map_map.
    clear W. induction flat as [|[d cs] flat IH]; [done|]. cbn [map zip zip_with]. by rewrite IH.
Qed.

(** *** The open file *)

Lemma node_outside_spec size n :
  node_ok n -> node_outside size (node_of n) = false <->
  range_in size (nd_offset (node_of n)) (nd_length (node_of n)).
Proof.
  intros (_ & _ & Ho & Hl & Hpos & _). unfold node_outside, range_in, safe_nat in *.
  rewrite orb_false_iff, Z.leb_gt, Z.ltb_ge. split; [intros [? ?]|intros (_ & _ & ?)]; lia.
Qed.

Lemma fold_outside size l :
  result_fold (fun (_ : unit) n => if node_outside size (node_of n)
    then Throw (plain_error "Range map node is outside file bounds") else Ok tt) tt l = Ok tt <->
  Forall (fun n => node_outside size (node_of n) = false) l.
Proof.
  induction l as [|n l IH]; cbn [result_fold]; [split; auto|]. rewrite Forall_cons.
  destruct (node_outside size (node_of n)); cbn [mbind result_bind]; [|by rewrite IH; naive_solver].
  split; [done|]. by intros [? _].
Qed.

Lemma fits_spec content p size :
  parseRangeMapContent print_double content = Ok p ->
  assertRangeMapFitsFile p (NInt size) = Ok tt <->
  safe_nat size /\ option_ok (fun expected => expected = size) (rd_sourceFileSize (pm_document p)) /\
  Forall (fun n => range_in size (nd_offset (node_of n)) (nd_length (node_of n)))
    (flattenRangeMapNodes (rd_nodes (pm_document p))).
Proof.
  intros Hp. apply parsed_well in Hp as (flat & ids & W).
  pose proof (wp_ok _ _ _ W) as Hok. rewrite (wp_flat _ _ _ W) in Hok. clear W.
  unfold assertRangeMapFitsFile.
  assert (Hsize : negb (safeZ size) || (size <? 0) = false <-> safe_nat size).
  { unfold safe_nat, safeZ. rewrite orb_false_iff, negb_false_iff, Z.leb_le, Z.ltb_ge. lia. }
  destruct (negb (safeZ size) || (size <? 0)).
  { split; [done|]. intros [Hs _]. by apply Hsize in Hs. }
  assert (Hexp : (match rd_sourceFileSize (pm_document p) with
      | Some expected => negb (expected =? size) | None => false end) = false <->
    option_ok (fun expected => expected = size) (rd_sourceFileSize (pm_document p))).
  { destruct (rd_sourceFileSize _); cbn; [|done]. by rewrite negb_false_iff, Z.eqb_eq. }
  destruct (match rd_sourceFileSize (pm_document p) with Some _ => _ | None => _ end).
  { split; [done|]. intros (_ & Hs & _). by apply Hexp in Hs. }
  rewrite fold_outside. rewrite <- Hsize, <- Hexp.
  assert (Hall : Forall (fun n => node_outside size (node_of n) = false)
      (flattenRangeMapNodes (rd_nodes (pm_document p))) <->
    Forall (fun n => range_in size (nd_offset (node_of n)) (nd_length (node_of n)))
      (flattenRangeMapNodes (rd_nodes (pm_document p)))).
  { rewrite !Forall_forall in *. split; intros H0 n Hn; apply (node_outside_spec size n); auto. }
  rewrite Hall. tauto.
Qed.

(** A range map is taken for the open file exactly when the size is a proper
    one, the size written in the map (if any) is that size, and every node
    lies inside the file. *)
Theorem range_map_fits_iff content p size :
  parseRangeMapContent print_double content = Ok p ->
  assertRangeMapFitsFile p (NInt size) = Ok tt <->
  safe_nat size /\ option_ok (fun expected => expected = size) (rd_sourceFileSize (pm_document p)) /\
  Forall (fun n => range_in size (nd_offset (node_of n)) (nd_length (node_of n)))
    (flattenRangeMapNodes (rd_nodes (pm_document p))).
Proof. apply fits_spec. Qed.

(** *** Through the protocol's check

    The host hands the highlights of a range map that fits the file to
    [normalizeExternalHighlights]. *)

Lemma label_or_kind_ok kind label :
  slen (trim label) <= MAX_LABEL_LENGTH -> text_ok MAX_LABEL_LENGTH (label_or_kind kind label).
Proof.
  intros Hl. unfold label_or_kind. destruct (slen (trim label) =? 0) eqn:E; [apply kind_label_ok|].
  bool_prop. split; [apply trim_idem|]. by rewrite <- slen_zero.
Qed.

Lemma accepted_length context raws : forall ids hs,
  highlights_loop context ids (map highlight_value raws) = Some hs ->
  Forall (fun h => hl_length h <= MAX_WEBVIEW_HEX_BYTES) raws.
Proof.
  induction raws as [|h raws IH]; intros ids hs Hl; [constructor|]. cbn [map highlights_loop] in Hl.
  apply bind_Some in Hl as (h' & Hh & Hl). apply bind_Some in Hl as (hs' & Hl & _).
  constructor; [|by eapply IH]. unfold normalize_highlight, highlight_value in Hh.
  cbn [isRecord mbind option_bind app] in Hh. apply bind_Some in Hh as (id & _ & Hh).
  apply bind_Some in Hh as (offset & _ & Hh). apply bind_Some in Hh as (len & Hlen & _).
  rewrite !get_miss, get_hit in Hlen by (vm_compute; reflexivity).
  apply int_between_spec in Hlen as (E & ? & _). injection E as ->. lia.
Qed.

(** The highlight the host keeps for one of a range map. *)
Definition kept (h : WebviewExternalHighlight) : WebviewExternalHighlight :=
  mkHighlight (hl_id h) (hl_offset h) (hl_length h) (hl_kind h) (label_or_kind (hl_kind h) (hl_label h))
    (hl_source h) false.

Lemma loop_kept context raws : forall ids,
  Forall (fun h => highlight_ok (fileSize context) (kept h) /\ hl_stale h = false /\
                   slen (trim (hl_label h)) <= MAX_LABEL_LENGTH) raws ->
  NoDup (map hl_id raws) -> Forall (fun h => ~ hl_id h ∈ ids) raws ->
  highlights_loop context ids (map highlight_value raws) = Some (map kept raws).
Proof.
  induction raws as [|h raws IH]; intros ids Hok Hnd Hids; [done|]. cbn [map highlights_loop] in *.
  apply Forall_cons in Hok as [(Hh & Hst & Hl) Hok]. apply NoDup_cons in Hnd as [Hni Hnd].
  apply Forall_cons in Hids as [Hi Hids].
  pose proof (highlight_complete context ids (kept h) (hl_label h) Hh Hi Hl eq_refl) as Hc.
  assert (E : mkHighlight (hl_id (kept h)) (hl_offset (kept h)) (hl_length (kept h)) (hl_kind (kept h))
    (hl_label h) (hl_source (kept h)) (hl_stale (kept h)) = h) by (destruct h; cbn in *; by subst).
  rewrite E in Hc. rewrite Hc. cbn [mbind option_bind]. rewrite IH; [done|done|done|].
  rewrite Forall_forall in Hids |- *. intros g Hg. rewrite elem_of_cons. intros [Eg|Eg].
  - apply Hni. change (hl_id (kept h)) with (hl_id h) in Eg. rewrite <- Eg.
    apply list_elem_of_In, in_map, list_elem_of_In, Hg.
  - by apply (Hids g).
Qed.

Lemma highlight_of_node size n id source sel :
  node_ok n -> text_ok MAX_RANGE_MAP_ID_LENGTH id -> option_ok (text_ok MAX_RANGE_MAP_LABEL_LENGTH) source ->
  range_in size (nd_offset (node_of n)) (nd_length (node_of n)) ->
  nd_length (node_of n) <= MAX_WEBVIEW_HEX_BYTES ->
  let h := rangeMapNodeToHighlight (node_of n) id (Some (default (js "Range map") source)) sel in
  highlight_ok size (kept h) /\ hl_stale h = false /\ slen (trim (hl_label h)) <= MAX_LABEL_LENGTH.
Proof.
  intros (_ & _ & Ho & Hl & Hpos & Hsrc & _) Hid Hsource Hr Hmax h.
  assert (Hlabel : slen (trim (hl_label h)) <= MAX_LABEL_LENGTH).
  { etrans; [apply trim_length_z|]. by apply shorten_length. }
  split; [|by split]. unfold highlight_ok, kept. cbn [hl_id hl_offset hl_length hl_label hl_source h rangeMapNodeToHighlight].
  split; [done|]. split; [done|]. split; [done|]. split; [by apply label_or_kind_ok|].
  destruct (nd_source (node_of n)) as [s|]; [done|]. destruct source as [s|]; [done|]. by vm_compute.
Qed.

(** A range map that parses and fits is shown exactly when no node is longer
    than 16 MiB; then every highlight is kept with its identifier, range and
    kind.  One longer node makes the host refuse the whole map, although it
    fits the file. *)
Theorem range_map_shown_iff content p size :
  parseRangeMapContent print_double content = Ok p ->
  assertRangeMapFitsFile p (NInt size) = Ok tt ->
  let shown := normalizeExternalHighlights (mkContext size None)
                 (JArray (map highlight_value (pm_highlights p))) in
  (Forall (fun n => nd_length (node_of n) <= MAX_WEBVIEW_HEX_BYTES)
     (flattenRangeMapNodes (rd_nodes (pm_document p))) -> shown = Some (map kept (pm_highlights p))) /\
  (~ Forall (fun n => nd_length (node_of n) <= MAX_WEBVIEW_HEX_BYTES)
       (flattenRangeMapNodes (rd_nodes (pm_document p))) -> shown = None).
Proof.
  intros Hp Hfit. pose proof (proj1 (fits_spec _ _ _ Hp) Hfit) as (_ & _ & Hin).
  apply parsed_well in Hp as (flat & ids & W). cbv zeta.
  rewrite <- (wp_flat _ _ _ W) in Hin |- *. unfold normalizeExternalHighlights.
  cbn [as_array mbind option_bind]. rewrite length_map, (wp_highlights _ _ _ W), length_map.
  rewrite (proj2 (Z.ltb_ge MAX_EXTERNAL_HIGHLIGHTS _)) by apply (wp_count _ _ _ W). split.
  - intros Hlen. apply loop_kept; [| |by apply Forall_true; intros; apply not_elem_of_nil].
    + apply List.Forall_map. rewrite !Forall_forall in *. intros n Hn.
      apply highlight_of_node; auto.
      * by apply (proj1 (Forall_forall _ _) (wp_ok _ _ _ W)).
      * by apply (proj1 (Forall_forall _ _) (wp_ids_ok _ _ _ W)).
      * apply (wp_source _ _ _ W).
    + rewrite map_map. apply (wp_ids _ _ _ W).
  - intros Hlen. destruct (highlights_loop _ _ _) as [hs|] eqn:E; [|done]. destruct Hlen.
    apply accepted_length in E. exact (proj1 (List.Forall_map _ _ _) E).
Qed.
End ContentProofs.

(** ** Concrete inputs

    A map with a record of two fields, one of which is selected and has a
    path too long for an identifier; the text [m] stands for its JSON. *)

Definition sample_node (path : jsstring) (offset len : Z) (children : list jsval) : jsval :=
  JObject [(js "path", JString path); (js "offset", num offset); (js "length", num len);
           (js "value", num 7); (js "children", JArray children)].

Definition long_path : jsstring := repeat 97 200.

Definition sample_map (len : Z) : jsval :=
  JObject [(js "format", name_value RANGE_MAP_FORMAT); (js "version", num 1);
    (js "selectedPath", JString long_path); (js "nodes", JArray
      [sample_node (js "range.0") 0 len [sample_node long_path 0 4 []; sample_node (js "b") 4 4 []]])].

Definition map_json (len : Z) : JsonRuntime := {|
  JSON_parse := fun s => if bool_decide (s = js "m") then Some (sample_map len) else None;
  JSON_stringify := fun _ => []
|}.

Definition no_print : number -> jsstring := fun _ => [].

Definition parsed_sample (len : Z) : ParsedRangeMap :=
  match parseRangeMapContent (H := map_json len) no_print [109] with
  | Ok p => p
  | Throw _ => mkParsed (mkDocument None None None []) [] [] None 0
  end.

(** The long path gets the made-up identifier, and the parent whose path is
    that identifier another one. *)
Example sample_ids :
  map hl_id (pm_highlights (parsed_sample 8)) = [js "range.0"; js "b"; js "range.2.1"].
Proof. vm_compute. reflexivity. Qed.

(** Malformed bytes decode to replacement characters, one per maximal part. *)
Example lossy_decoding :
  Utf8Lossy.decode [239; 187; 191; 65; 226; 130; 172; 226; 130; 66; 255; 240; 159; 152; 128; 195]
  = [65; 8364; 65533; 66; 65533; 55357; 56832; 65533].
Proof. vm_compute. reflexivity. Qed.

Lemma range_map_wellformed_witness :
  parseRangeMapContent (H := map_json 8) no_print [109] = Ok (parsed_sample 8) /\
  pm_nodeCount (parsed_sample 8) = 3 /\ pm_nodeCount (parsed_sample 8) <= MAX_RANGE_MAP_NODES.
Proof.
  split; [vm_compute; reflexivity|]. split; [vm_compute; reflexivity|].
  assert (Hp : parseRangeMapContent (H := map_json 8) no_print [109] = Ok (parsed_sample 8))
    by (vm_compute; reflexivity).
  destruct (@range_map_wellformed (map_json 8) no_print [109] (parsed_sample 8) Hp) as (_ & Hn & _).
  exact Hn.
Defined.

Lemma range_map_highlights_match_witness :
  NoDup (map hl_id (pm_highlights (parsed_sample 8))).
Proof.
  assert (Hp : parseRangeMapContent (H := map_json 8) no_print [109] = Ok (parsed_sample 8))
    by (vm_compute; reflexivity).
  destruct (@range_map_highlights_match (map_json 8) no_print [109] (parsed_sample 8) Hp)
    as (_ & Hn & _). exact Hn.
Defined.

Lemma range_map_fits_iff_witness :
  assertRangeMapFitsFile (parsed_sample 8) (NInt 8) = Ok tt /\
  Forall (fun n => range_in 8 (nd_offset (node_of n)) (nd_length (node_of n)))
    (flattenRangeMapNodes (rd_nodes (pm_document (parsed_sample 8)))).
Proof.
  assert (Hp : parseRangeMapContent (H := map_json 8) no_print [109] = Ok (parsed_sample 8))
    by (vm_compute; reflexivity).
  assert (Hf : assertRangeMapFitsFile (parsed_sample 8) (NInt 8) = Ok tt)
    by (vm_compute; reflexivity).
  split; [exact Hf|].
  destruct (@range_map_fits_iff (map_json 8) no_print [109] (parsed_sample 8) 8 Hp) as [Hfit _].
  destruct (Hfit Hf) as (_ & _ & Hall). exact Hall.
Defined.

(** A file of 16 MiB and one byte whose root node covers it: the map fits and
    is not shown. *)
Lemma range_map_shown_iff_witness :
  assertRangeMapFitsFile (parsed_sample 16777217) (NInt 16777217) = Ok tt /\
  normalizeExternalHighlights (mkContext 16777217 None)
    (JArray (map highlight_value (pm_highlights (parsed_sample 16777217)))) = None.
Proof.
  assert (Hp : parseRangeMapContent (H := map_json 16777217) no_print [109] =
    Ok (parsed_sample 16777217)) by (vm_compute; reflexivity).
  assert (Hf : assertRangeMapFitsFile (parsed_sample 16777217) (NInt 16777217) = Ok tt)
    by (vm_compute; reflexivity).
  assert (Hb : forallb (fun n => nd_length (node_of n) <=? MAX_WEBVIEW_HEX_BYTES)
    (flattenRangeMapNodes (rd_nodes (pm_document (parsed_sample 16777217)))) = false)
    by (vm_compute; reflexivity).
  split; [exact Hf|].
  destruct (@range_map_shown_iff (map_json 16777217) no_print [109] (parsed_sample 16777217)
    16777217 Hp Hf) as [_ Hnone].
  apply Hnone. intros Hall. apply (eq_true_false_abs _ (proj2 (forallb_forall _ _)
    (fun n Hn => proj2 (Z.leb_le _ _) (proj1 (List.Forall_forall _ _) Hall n Hn))) Hb).
Defined.
