(* ===== verification/TimelineManifest.v ===== *)
(** * The manifest of a checkpoint timeline
    ([vscode-extension/src/checkpointTimelineStorage.ts])

    The data the extension keeps on disk for the checkpoints of a session,
    and the checks it passes before it is written: fingerprints, limits, the
    index of sessions and the manifest with its chain of intervals.

    A manifest is checked as the typed object it is when it is committed;
    what a file with other contents does is [ENOENT] or a rejection, see
    [TimelineStorage].  Times are the texts [toISOString] gives. *)

From stdpp Require Import sorting.
From S2P Require Import Prelude JsText JsValue ChangeLogCodec History.

Definition RESERVATION_CHUNK_BYTES : Z := 16 * 1024 * 1024.
Definition DIGEST_PLUGIN_ID_MAX_LENGTH : Z := 4096.
Definition DIGEST_ALGORITHM_MAX_LENGTH : Z := 128.
Definition DIGEST_VALUE_MAX_LENGTH : Z := 4096.

Definition timeline_error (code : string) : exn := Exn "TimelineStorageError" code.

(** ** Limits *)

Record CheckpointHistoryLimits := mkLimits {
  maxBytesPerSession : Z;
  maxBytesTotal : Z;
  maxCheckpoints : Z;
  staleRetentionDays : Z
}.

Definition CHECKPOINT_HISTORY_DEFAULTS : CheckpointHistoryLimits :=
  mkLimits 1073741824 5368709120 1000 7.

(** The settings that are given; [None] is a property that is absent. *)
Record limit_settings := mkSettings {
  ls_maxBytesPerSession : option number;
  ls_maxBytesTotal : option number;
  ls_maxCheckpoints : option number;
  ls_staleRetentionDays : option number
}.

Definition setting (given : option number) (fallback : Z) : number := default (NInt fallback) given.

Definition validBytes (v : number) : option Z :=
  match v with NInt z => if safeZ z && (1024 * 1024 <=? z) then Some z else None | _ => None end.

Definition integer_in (lo hi : Z) (v : number) : option Z :=
  match v with NInt z => if (lo <=? z) && (z <=? hi) then Some z else None | _ => None end.

Definition validateLimits (input : limit_settings) : result CheckpointHistoryLimits :=
  let d := CHECKPOINT_HISTORY_DEFAULTS in
  let invalid := timeline_error "TIMELINE_INVALID_SETTINGS" in
  match validBytes (setting (ls_maxBytesPerSession input) (maxBytesPerSession d)) with
  | None => Throw invalid
  | Some perSession =>
      match validBytes (setting (ls_maxBytesTotal input) (maxBytesTotal d)) with
      | None => Throw invalid
      | Some total =>
          if total <? perSession then Throw invalid
          else
            match integer_in 1 1000000 (setting (ls_maxCheckpoints input) (maxCheckpoints d)) with
            | None => Throw invalid
            | Some checkpoints =>
                match integer_in 1 365 (setting (ls_staleRetentionDays input) (staleRetentionDays d)) with
                | None => Throw invalid
                | Some days => Ok (mkLimits perSession total checkpoints days)
                end
            end
      end
  end.

(** ** Fingerprints *)

Section Text.
Context (print_double : number -> jsstring).

Definition int64_text (value : ChangeLogInt64) : jsstring :=
  match value with
  | I64BigInt z => (if z <? 0 then js "-" else []) ++ decimal_string (Z.abs z)
  | I64Number n => number_string print_double n
  | I64String s => s
  end.

Definition decimal (value : ChangeLogInt64) : result jsstring :=
  let text := int64_text value in
  if negb (canonical_decimal text) then Throw (timeline_error "TIMELINE_INVALID_METADATA")
  else if MAX_INT64 <? decimal_value text then Throw (timeline_error "TIMELINE_INVALID_METADATA")
  else Ok text.

(** A fingerprint as a caller gives it. *)
Record raw_fingerprint := mkRawFingerprint {
  rf_byteLength : ChangeLogInt64;
  rf_pluginId : option jsstring;
  rf_algorithm : jsstring;
  rf_value : jsstring
}.

Record NormalizedTimelineFingerprint := mkFingerprint {
  tf_byteLength : jsstring;
  tf_pluginId : option jsstring;
  tf_algorithm : jsstring;
  tf_value : jsstring
}.

#[global] Instance fingerprint_eq_dec : EqDecision NormalizedTimelineFingerprint.
Proof. solve_decision. Defined.

(** A normalised fingerprint is a fingerprint. *)
Definition as_raw (f : NormalizedTimelineFingerprint) : raw_fingerprint :=
  mkRawFingerprint (I64String (tf_byteLength f)) (tf_pluginId f) (tf_algorithm f) (tf_value f).

Definition is_upper (c : Z) : bool := in_range 65 90 c.
Definition is_lower (c : Z) : bool := in_range 97 122 c.

(** The character classes of the three regular expressions, each of which
    asks for one character or more. *)
Definition plugin_unit (c : Z) : bool :=
  is_upper c || is_lower c || is_digit c || (c =? 46) || (c =? 95) || (c =? 45).
Definition algorithm_unit (c : Z) : bool := is_lower c || is_digit c || (c =? 45).
Definition digest_unit (c : Z) : bool := is_digit c || in_range 97 102 c.
Definition some_of (f : Z -> bool) (max : Z) (s : jsstring) : bool :=
  negb (length s =? 0)%nat && forallb f s && (slen s <=? max).

Definition normalizeFingerprint (value : raw_fingerprint) : result NormalizedTimelineFingerprint :=
  byteLength ← decimal (rf_byteLength value);
  let pluginId := default CHANGE_LOG_DEFAULT_DIGEST_PLUGIN_ID (rf_pluginId value) in
  if some_of plugin_unit DIGEST_PLUGIN_ID_MAX_LENGTH pluginId
     && some_of algorithm_unit DIGEST_ALGORITHM_MAX_LENGTH (rf_algorithm value)
     && some_of digest_unit DIGEST_VALUE_MAX_LENGTH (rf_value value)
  then Ok (mkFingerprint byteLength (Some pluginId) (rf_algorithm value) (rf_value value))
  else Throw (timeline_error "TIMELINE_INVALID_FINGERPRINT").

Definition plugin_or_default (f : NormalizedTimelineFingerprint) : jsstring :=
  default CHANGE_LOG_DEFAULT_DIGEST_PLUGIN_ID (tf_pluginId f).

Definition fingerprintsEqual (left right : NormalizedTimelineFingerprint) : bool :=
  bool_decide (tf_byteLength left = tf_byteLength right)
  && bool_decide (plugin_or_default left = plugin_or_default right)
  && bool_decide (tf_algorithm left = tf_algorithm right)
  && bool_decide (tf_value left = tf_value right).

(** ** Intervals and manifests *)

Inductive CheckpointBoundaryKind := BoundaryPlain | BoundaryTransform | BoundaryTip.

Record archive_info := mkArchive {
  ar_file : jsstring;
  ar_byteLength : jsstring;
  ar_sha256 : jsstring;
  ar_emittedChangeCount : jsstring;
  ar_optimized : bool
}.

Record error_info := mkErrorInfo { er_code : jsstring; er_message : jsstring }.

Inductive interval_state := Ready | Unavailable.

Record CheckpointIntervalManifestEntryV1 := mkInterval {
  iv_checkpoint : Z;
  iv_generation : Z;
  iv_before : NormalizedTimelineFingerprint;
  iv_after : NormalizedTimelineFingerprint;
  iv_sourceChangeCount : jsstring;
  iv_createdAt : jsstring;
  iv_boundaryKind : CheckpointBoundaryKind;
  iv_transformPluginIds : list jsstring;
  iv_history : option EditorHistorySnapshot;
  iv_state : interval_state;
  iv_archive : option archive_info;
  iv_error : option error_info
}.

Record saved_state := mkSaved {
  sv_fingerprint : NormalizedTimelineFingerprint;
  sv_checkpoint : option Z;
  sv_offBranch : bool
}.

Record CheckpointTimelineManifestV1 := mkManifest {
  mf_sessionKey : jsstring;
  mf_uriSha256 : jsstring;
  mf_displayName : option jsstring;
  mf_openedAt : jsstring;
  mf_updatedAt : jsstring;
  mf_original : NormalizedTimelineFingerprint;
  mf_saved : saved_state;
  mf_cursor : Z;
  mf_tip : Z;
  mf_nextGeneration : Z;
  mf_intervals : list CheckpointIntervalManifestEntryV1
}.

Definition invalid_manifest : exn := timeline_error "TIMELINE_INVALID_MANIFEST".

(** [INTERVAL_FILE_PATTERN]: eight digits and [.json]. *)
Definition interval_file (s : jsstring) : bool :=
  (length s =? 13)%nat && forallb is_digit (take 8 s) && bool_decide (drop 8 s = js ".json").

Definition sha256_text (s : jsstring) : bool := (length s =? 64)%nat && forallb digest_unit s.

(** [[...new Set(ids)].sort()] *)
Definition sort_unique (ids : list jsstring) : list jsstring :=
  merge_sort js_le (foldl (fun s id => set_add id s) [] ids).

(** The check of an entry's state with its archive or its error. *)
Definition check_state (entry : CheckpointIntervalManifestEntryV1) : result unit :=
  match iv_state entry with
  | Ready =>
      match iv_archive entry, iv_error entry with
      | Some archive, None =>
          if negb (interval_file (ar_file archive)) then Throw invalid_manifest
          else
            _ ← decimal (I64String (ar_byteLength archive));
            _ ← decimal (I64String (ar_emittedChangeCount archive));
            require (sha256_text (ar_sha256 archive)) invalid_manifest
      | _, _ => Throw invalid_manifest
      end
  | Unavailable =>
      match iv_error entry, iv_archive entry with
      | Some _, None => Ok tt
      | _, _ => Throw invalid_manifest
      end
  end.

(** One round of the loop over the intervals. *)
Definition check_interval (previous : NormalizedTimelineFingerprint) (index : nat)
  (entry : CheckpointIntervalManifestEntryV1)
  : result (NormalizedTimelineFingerprint * CheckpointIntervalManifestEntryV1) :=
  if negb (iv_checkpoint entry =? Z.of_nat index + 1) || (iv_generation entry <? 1)
  then Throw invalid_manifest
  else
    before ← normalizeFingerprint (as_raw (iv_before entry));
    after ← normalizeFingerprint (as_raw (iv_after entry));
    history ← (match iv_history entry with
               | Some s => h ← fromSnapshot s; Ok (Some (snapshot h))
               | None => Ok None
               end);
    if negb (fingerprintsEqual previous before) then Throw invalid_manifest
    else
      let plugins := iv_transformPluginIds entry in
      if negb (bool_decide (plugins = sort_unique plugins)) then Throw invalid_manifest
      else
        _ ← check_state entry;
        sourceChangeCount ← decimal (I64String (iv_sourceChangeCount entry));
        Ok (after, mkInterval (iv_checkpoint entry) (iv_generation entry) before after
              sourceChangeCount (iv_createdAt entry) (iv_boundaryKind entry) plugins
              (match history with Some h => Some h | None => iv_history entry end)
              (iv_state entry) (iv_archive entry) (iv_error entry)).

Fixpoint check_intervals (previous : NormalizedTimelineFingerprint) (index : nat)
  (entries : list CheckpointIntervalManifestEntryV1)
  : result (list CheckpointIntervalManifestEntryV1) :=
  match entries with
  | [] => Ok []
  | entry :: entries =>
      '(previous, parsed) ← check_interval previous index entry;
      rest ← check_intervals previous (S index) entries;
      Ok (parsed :: rest)
  end.

Definition parseManifest (input : CheckpointTimelineManifestV1) (expectedKey : jsstring)
  : result CheckpointTimelineManifestV1 :=
  if negb (bool_decide (mf_sessionKey input = expectedKey)) then Throw invalid_manifest
  else if (mf_cursor input <? 0) || (mf_tip input <? mf_cursor input)
          || negb (mf_tip input =? Z.of_nat (length (mf_intervals input)))
          || (mf_nextGeneration input <? 1)
  then Throw invalid_manifest
  else
    previous ← normalizeFingerprint (as_raw (mf_original input));
    intervals ← check_intervals previous 0 (mf_intervals input);
    savedFingerprint ← normalizeFingerprint (as_raw (sv_fingerprint (mf_saved input)));
    Ok (mkManifest (mf_sessionKey input) (mf_uriSha256 input) (mf_displayName input)
          (mf_openedAt input) (mf_updatedAt input) previous
          (mkSaved savedFingerprint (sv_checkpoint (mf_saved input)) (sv_offBranch (mf_saved input)))
          (mf_cursor input) (mf_tip input) (mf_nextGeneration input) intervals).
End Text.
