(* ===== verification/TimelineStorage.v ===== *)
(** * Storage of checkpoint timelines
    ([vscode-extension/src/checkpointTimelineStorage.ts])

    [CheckpointTimelineStorageManager] keeps the index of all sessions and its
    quotas, [CheckpointTimelineStorageSession] the manifest and the archives
    of one session.  Both classes work on one [state]: the files under the
    history root and the fields of the session.  Every call of the file
    system and every fault point may fail ([fault]); an operation that throws
    has done what it did before.  Operations of a session are awaited one
    after another, as its caller does; the lock that orders the processes is
    in [TimelineLock], here taking it is a call that may fail.

    A file of JSON is the value it holds, or garbage; reading an archive is
    [open_log], the interface to [openChangeLogFile]. *)

From S2P Require Import Prelude JsText JsValue ChangeLogCodec History TimelineManifest.

Open Scope jsm_scope.

(** ** The world *)

(** What [openChangeLogFile] tells of a file. *)
Record log_summary := mkLogSummary {
  lg_complete : bool;
  lg_unavailableChangeCount : jsstring;
  lg_before : NormalizedTimelineFingerprint;
  lg_after : NormalizedTimelineFingerprint;
  lg_sourceChangeCount : jsstring;
  lg_changeCount : jsstring;
  lg_requiredPlugins : list jsstring;
  lg_byteLength : Z;
  lg_sha256 : jsstring
}.

Inductive record_state := Active | PendingDelete.

(** A record of the index; the two lengths are the numbers of their decimal
    texts. *)
Record index_record := mkIndexRecord {
  ir_instanceId : jsstring;
  ir_lastHeartbeatAt : jsstring;
  ir_state : record_state;
  ir_byteLength : Z;
  ir_reservedBytes : Z
}.

Record CheckpointTimelineIndexV1 := mkIndex {
  ix_updatedAt : jsstring;
  ix_sessions : gmap jsstring index_record
}.

(** The file [index.json]. *)
Inductive index_file := IndexMissing | IndexGarbage | IndexFile (i : CheckpointTimelineIndexV1).

(** The file [manifest.json]. *)
Inductive manifest_file :=
  | ManifestMissing | ManifestGarbage | ManifestFile (m : CheckpointTimelineManifestV1).

(** The directory of a session: its manifest, its archives, its temporary
    files, and the bytes of files that a failed removal left behind. *)
Record session_dir := mkDir {
  dir_manifest : manifest_file;
  dir_intervals : gmap jsstring (list Z);
  dir_temp : gmap jsstring (list Z);
  dir_debris : Z
}.

Record state := mkState {
  st_index : index_file;
  st_dirs : gmap jsstring session_dir;
  st_quarantine : list (Z * Z); (* the directories set aside: when, and their bytes *)
  st_other : Z;                 (* bytes of the other files of the root *)
  st_calls : nat;
  st_value : CheckpointTimelineManifestV1;
  st_closed : bool;
  st_lastHeartbeat : Z
}.

Class Environment := {
  fault : nat -> option exn;                (* the failure of the n-th call *)
  clock : nat -> Z;                         (* Date.now() *)
  iso_text : Z -> jsstring;                 (* new Date(t).toISOString() *)
  open_log : list Z -> result log_summary;
  manifest_size : CheckpointTimelineManifestV1 -> Z;
  index_size : CheckpointTimelineIndexV1 -> Z;
  operation_name : nat -> jsstring;         (* randomKey() *)
  print_double : number -> jsstring
}.

Definition ENOENT : exn := Exn "Error" "ENOENT".

Definition set_index (f : index_file) (s : state) : state :=
  mkState f (st_dirs s) (st_quarantine s) (st_other s) (st_calls s) (st_value s) (st_closed s) (st_lastHeartbeat s).
Definition set_dirs (d : gmap jsstring session_dir) (s : state) : state :=
  mkState (st_index s) d (st_quarantine s) (st_other s) (st_calls s) (st_value s) (st_closed s) (st_lastHeartbeat s).
Definition set_value (m : CheckpointTimelineManifestV1) (s : state) : state :=
  mkState (st_index s) (st_dirs s) (st_quarantine s) (st_other s) (st_calls s) m (st_closed s) (st_lastHeartbeat s).
Definition set_closed (s : state) : state :=
  mkState (st_index s) (st_dirs s) (st_quarantine s) (st_other s) (st_calls s) (st_value s) true (st_lastHeartbeat s).
Definition set_heartbeat (t : Z) (s : state) : state :=
  mkState (st_index s) (st_dirs s) (st_quarantine s) (st_other s) (st_calls s) (st_value s) (st_closed s) t.
Definition counted (s : state) : state :=
  mkState (st_index s) (st_dirs s) (st_quarantine s) (st_other s) (S (st_calls s)) (st_value s) (st_closed s)
    (st_lastHeartbeat s).
Definition set_quarantine (q : list (Z * Z)) (s : state) : state :=
  mkState (st_index s) (st_dirs s) q (st_other s) (st_calls s) (st_value s) (st_closed s)
    (st_lastHeartbeat s).
Definition add_other (n : Z) (s : state) : state :=
  mkState (st_index s) (st_dirs s) (st_quarantine s) (st_other s + n) (st_calls s) (st_value s) (st_closed s)
    (st_lastHeartbeat s).

Definition set_manifest (m : manifest_file) (d : session_dir) : session_dir :=
  mkDir m (dir_intervals d) (dir_temp d) (dir_debris d).
Definition set_intervals (i : gmap jsstring (list Z)) (d : session_dir) : session_dir :=
  mkDir (dir_manifest d) i (dir_temp d) (dir_debris d).
Definition set_temp (t : gmap jsstring (list Z)) (d : session_dir) : session_dir :=
  mkDir (dir_manifest d) (dir_intervals d) t (dir_debris d).
Definition add_debris (n : Z) (d : session_dir) : session_dir :=
  mkDir (dir_manifest d) (dir_intervals d) (dir_temp d) (dir_debris d + n).

Section Storage.
Context `{Environment} (limits : CheckpointHistoryLimits) (instanceId : jsstring).

(** ** Calls *)

(** A call that changes nothing that is kept: a fault point, an fsync. *)
Definition call : M state unit := fun s =>
  match fault (st_calls s) with
  | Some e => (counted s, Throw e)
  | None => (counted s, Ok tt)
  end.

(** A call that works on the directory of a session. *)
Definition dir_call (key : jsstring) (work : session_dir -> result session_dir) : M state unit :=
  call ;;;
  (fun s => match st_dirs s !! key with
            | None => (s, Throw ENOENT)
            | Some d => match work d with
                        | Ok d' => (set_dirs (<[key := d']> (st_dirs s)) s, Ok tt)
                        | Throw e => (s, Throw e)
                        end
            end).

(** [.catch(() => undefined)] *)
Definition ignore (m : M state unit) : M state unit := fun s => ((m s).1, Ok tt).

Definition attempt {A} (m : M state A) : M state (result A) := fun s => ((m s).1, Ok (m s).2).

Definition now : M state Z := getM (fun s => clock (st_calls s)).
Definition timestamp : M state jsstring := getM (fun s => iso_text (clock (st_calls s))).

(** ** Sizes *)

Definition files_bytes (files : gmap jsstring (list Z)) : Z :=
  map_fold (fun _ content total => total + Z.of_nat (length content)) 0 files.

Definition dir_bytes (d : session_dir) : Z :=
  (match dir_manifest d with ManifestFile m => manifest_size m | _ => 0 end)
  + files_bytes (dir_intervals d) + files_bytes (dir_temp d) + dir_debris d.

(** [ownedTreeBytes(sessionRoot)]: a missing directory has no bytes. *)
Definition session_bytes (key : jsstring) : M state Z :=
  call ;;; getM (fun s => match st_dirs s !! key with Some d => dir_bytes d | None => 0 end).

(** [ownedTreeBytes(this.historyRoot)] *)
Definition root_bytes : M state Z :=
  call ;;;
  getM (fun s => st_other s + (match st_index s with IndexFile i => index_size i | _ => 0 end)
                 + map_fold (fun _ d total => total + dir_bytes d) 0 (st_dirs s)
                 + foldr (fun e total => e.2 + total) 0 (st_quarantine s)).

(** ** Writing JSON

    [atomicJson]: a temporary file beside the target, which is removed on
    every path; what cannot be removed stays as debris. *)
Definition atomic_manifest (key : jsstring) (m : CheckpointTimelineManifestV1) : M state unit :=
  call ;;;                                     (* the fault point and the open *)
  (fun s =>
     match (call ;;; call ;;;                  (* write and sync, the fault point *)
            dir_call key (fun d => Ok (set_manifest (ManifestFile m) d))) s with
     | (s1, Ok _) => ((ignore call s1).1, Ok tt)   (* the directory is synced if it can be *)
     | (s1, Throw e) =>
         match call s1 with
         | (s2, Ok _) => (s2, Throw e)
         | (s2, Throw _) =>
             ((ignore (dir_call key (fun d => Ok (add_debris (manifest_size m) d))) s2).1, Throw e)
         end
     end).

Definition atomic_index (i : CheckpointTimelineIndexV1) : M state unit :=
  call ;;;
  (fun s =>
     match (call ;;; call ;;; putM (set_index (IndexFile i))) s with
     | (s1, Ok _) => ((ignore call s1).1, Ok tt)
     | (s1, Throw e) =>
         match call s1 with
         | (s2, Ok _) => (s2, Throw e)
         | (s2, Throw _) => (add_other (index_size i) s2, Throw e)
         end
     end).

(** ** The index

    [readSmallJson] refuses a file that is too large. *)

Definition MAX_METADATA_BYTES : Z := 4 * 1024 * 1024.
Definition oversized_metadata : exn := timeline_error "TIMELINE_INVALID_METADATA".

Definition emptyIndex (updatedAt : jsstring) : CheckpointTimelineIndexV1 := mkIndex updatedAt ∅.

Definition readIndex : M state CheckpointTimelineIndexV1 :=
  call ;;;
  let* file := getM st_index in
  let* t := timestamp in
  match file with
  | IndexMissing => retM (emptyIndex t)
  | IndexGarbage => throwM (timeline_error "TIMELINE_INVALID_INDEX")
  | IndexFile i =>
      if MAX_METADATA_BYTES <? index_size i then throwM oversized_metadata else retM i
  end.

(** Taking the lock, working on the index that is read, writing it if the
    work succeeded, and giving the lock back.  A failure to give it back is
    an error only if there was none, unless the lock is gone already. *)
Definition withIndexLock {A}
  (operation : CheckpointTimelineIndexV1 -> M state (A * CheckpointTimelineIndexV1)) : M state A :=
  call ;;; call ;;;                            (* mkdir, creating the lock *)
  let* outcome := attempt (
    call ;;;                                   (* lockAcquired *)
    let* index := readIndex in
    let* done := operation index in
    let '(value, index) := done in
    let* t := timestamp in
    atomic_index (mkIndex t (ix_sessions index)) ;;;
    retM value) in
  let* released := attempt (call ;;; call) in  (* lockRelease, reading and removing *)
  match outcome with
  | Throw e => throwM e
  | Ok value =>
      match released with
      | Throw e => if bool_decide (exn_code e = "ENOENT") then retM value else throwM e
      | Ok _ => retM value
      end
  end.

(** The bytes the other sessions have and have reserved. *)
Definition others_total (sessions : gmap jsstring index_record) (key : jsstring) : Z :=
  map_fold (fun _ r total => total + (ir_byteLength r + ir_reservedBytes r)) 0 (delete key sessions).

Definition others_reserved (sessions : gmap jsstring index_record) (key : jsstring) : Z :=
  map_fold (fun _ r total => total + ir_reservedBytes r) 0 (delete key sessions).

Definition quota_exceeded : exn := timeline_error "TIMELINE_QUOTA_EXCEEDED".
Definition session_closed : exn := timeline_error "TIMELINE_SESSION_CLOSED".

Definition assertQuota (sessions : gmap jsstring index_record) (key : jsstring)
  (actual reservation : Z) : result unit :=
  let sessionTotal := actual + reservation in
  let all := others_total sessions key + sessionTotal in
  require (negb ((maxBytesPerSession limits <? sessionTotal) || (maxBytesTotal limits <? all)))
    quota_exceeded.

(** The index with the record of [key] brought up to date. *)
Definition with_lengths (index : CheckpointTimelineIndexV1) (key : jsstring) (r : index_record)
  (t : jsstring) (byteLength reservedBytes : Z) : CheckpointTimelineIndexV1 :=
  mkIndex (ix_updatedAt index)
    (<[key := mkIndexRecord (ir_instanceId r) t (ir_state r) byteLength reservedBytes]>
       (ix_sessions index)).

Definition reserve (key : jsstring) (requested : Z) : M state Z :=
  withIndexLock (fun index =>
    match ix_sessions index !! key with
    | None => throwM session_closed
    | Some r =>
        if negb (bool_decide (ir_instanceId r = instanceId))
           || negb (match ir_state r with Active => true | PendingDelete => false end)
        then throwM session_closed
        else
          let* actual := session_bytes key in
          let* rootActual := root_bytes in
          let sessionHeadroom := maxBytesPerSession limits - actual in
          let totalHeadroom :=
            maxBytesTotal limits - rootActual - others_reserved (ix_sessions index) key in
          let available := Z.min (Z.min requested sessionHeadroom) totalHeadroom in
          if available <=? 0 then throwM quota_exceeded
          else
            let granted := Z.min available RESERVATION_CHUNK_BYTES in
            liftM (assertQuota (ix_sessions index) key actual granted) ;;;
            let* t := timestamp in
            call ;;;                           (* quotaReserved *)
            retM (available, with_lengths index key r t actual granted)
    end).

(** [Math.ceil(bytes / chunk) * chunk] *)
Definition round_up (bytes chunk : Z) : Z := - (- bytes / chunk) * chunk.

Definition extendReservation (key : jsstring) (baselineBytes : Z) (operationBytes : number)
  : M state unit :=
  match operationBytes with
  | NInt bytes =>
      if negb (safeZ bytes) || (bytes <? 0) then throwM (timeline_error "TIMELINE_INVALID_METADATA")
      else
        withIndexLock (fun index =>
          match ix_sessions index !! key with
          | None => throwM session_closed
          | Some r =>
              if negb (bool_decide (ir_instanceId r = instanceId)) then throwM session_closed
              else
                let* actual := session_bytes key in
                let operationActual := Z.max 0 (actual - baselineBytes) in
                let rounded := round_up bytes RESERVATION_CHUNK_BYTES in
                let reservation := Z.max 0 (rounded - operationActual) in
                let* rootActual := root_bytes in
                if maxBytesTotal limits
                   <? rootActual + reservation + others_reserved (ix_sessions index) key
                then throwM quota_exceeded
                else
                  liftM (assertQuota (ix_sessions index) key actual reservation) ;;;
                  let* t := timestamp in
                  call ;;;
                  retM (tt, with_lengths index key r t actual reservation)
          end)
  | _ => throwM (timeline_error "TIMELINE_INVALID_METADATA")
  end.

Definition reconcile (key : jsstring) (reservation : Z) : M state unit :=
  withIndexLock (fun index =>
    match ix_sessions index !! key with
    | None => retM (tt, index)
    | Some r =>
        let* actual := session_bytes key in
        liftM (assertQuota (ix_sessions index) key actual reservation) ;;;
        let* t := timestamp in
        retM (tt, with_lengths index key r t actual reservation)
    end).

Definition commitManifest (m : CheckpointTimelineManifestV1) : M state unit :=
  liftM (parseManifest print_double m (mf_sessionKey m)) ;;;
  atomic_manifest (mf_sessionKey m) m.

(** [removeOwnedTree]: the whole directory goes. *)
Definition removeOwnedTree (key : jsstring) : M state unit :=
  call ;;;
  let* dirs := getM st_dirs in
  match dirs !! key with
  | None => throwM ENOENT
  | Some _ => call ;;; putM (fun s => set_dirs (delete key (st_dirs s)) s)
  end.

(** ** Sessions: opening and closing *)

Definition new_manifest (key uriSha256 : jsstring) (displayName : option jsstring) (t : jsstring)
  (f : NormalizedTimelineFingerprint) : CheckpointTimelineManifestV1 :=
  mkManifest key uriSha256 displayName t t f (mkSaved f (Some 0) false) 0 0 1 [].

Definition empty_dir : session_dir := mkDir ManifestMissing ∅ ∅ 0.

(** [createSession] for a key that was drawn at random; the session is the
    state's [st_value] from then on. *)
Definition createSession (key uriSha256 : jsstring) (displayName : option jsstring)
  (original : raw_fingerprint) : M state unit :=
  call ;;; call ;;; putM (fun s => set_dirs (<[key := empty_dir]> (st_dirs s)) s) ;;; call ;;;
  let* t := timestamp in
  let* f := liftM (normalizeFingerprint print_double original) in
  let m := new_manifest key uriSha256 displayName t f in
  (fun s =>
     match (commitManifest m ;;;
            withIndexLock (fun index =>
              let* byteLength := session_bytes key in
              liftM (assertQuota (ix_sessions index) key byteLength 0) ;;;
              retM (tt, mkIndex (ix_updatedAt index)
                (<[key := mkIndexRecord instanceId t Active byteLength 0]> (ix_sessions index))))) s with
     | (s1, Ok _) =>
         (mkState (st_index s1) (st_dirs s1) (st_quarantine s1) (st_other s1) (st_calls s1) m false 0, Ok tt)
     | (s1, Throw e) =>
         ((ignore (call ;;; putM (fun s => set_dirs (delete key (st_dirs s)) s)) s1).1, Throw e)
     end).

(** [close]: the directory goes, and with it the record; if it cannot be
    removed the record waits for the next cleaning. *)
Definition forget_session (key : jsstring) (deleted : bool) : M state unit :=
  withIndexLock (fun index =>
    match ix_sessions index !! key with
    | None => retM (tt, index)
    | Some r =>
        if deleted
        then retM (tt, mkIndex (ix_updatedAt index) (delete key (ix_sessions index)))
        else
          let* t := timestamp in
          retM (tt, mkIndex (ix_updatedAt index)
            (<[key := mkIndexRecord (ir_instanceId r) t PendingDelete (ir_byteLength r) 0]>
               (ix_sessions index)))
    end).

Definition close_session (key : jsstring) : M state unit := fun s =>
  match (call ;;; removeOwnedTree key) s with
  | (s1, Ok _) => forget_session key true s1
  | (s1, Throw e) =>
      match forget_session key false s1 with
      | (s2, Ok _) => (s2, Throw e)
      | (s2, Throw e') => (s2, Throw e')
      end
  end.

Definition close : M state unit :=
  let* closed := getM st_closed in
  if (closed : bool) then retM tt
  else
    putM set_closed ;;;
    let* m := getM st_value in
    close_session (mf_sessionKey m).

Definition assertOpen : M state unit :=
  let* closed := getM st_closed in
  if (closed : bool) then throwM session_closed else retM tt.

(** ** Cleaning

    [parse_time] is [Date.parse]; one record of the loop of
    [cleanupExpired].  A directory whose manifest does not parse is set
    aside. *)
Record TimelineCleanupReport := mkReport {
  rp_scanned : Z; rp_removed : Z; rp_quarantined : Z; rp_failed : Z; rp_reclaimed : Z
}.

Definition expired (parse_time : jsstring -> option Z) (cutoff : Z) (r : index_record) : bool :=
  negb (match parse_time (ir_lastHeartbeatAt r) with
        | Some heartbeat => (cutoff <=? heartbeat)
                            && (match ir_state r with Active => true | PendingDelete => false end)
        | None => false
        end).

(** What reading and parsing the manifest of a directory gives. *)
Definition manifest_readable (key : jsstring) : M state unit :=
  call ;;;
  let* dirs := getM st_dirs in
  match dir_manifest <$> dirs !! key with
  | None | Some ManifestMissing => throwM ENOENT
  | Some ManifestGarbage => throwM (timeline_error "TIMELINE_INVALID_MANIFEST")
  | Some (ManifestFile m) =>
      if MAX_METADATA_BYTES <? manifest_size m then throwM oversized_metadata
      else liftM (parseManifest print_double m key ≫= fun _ => Ok tt)
  end.

(** The rename to [<key>.quarantine.<now>]. *)
Definition quarantine (key : jsstring) : M state unit :=
  let* t := now in
  call ;;;
  let* dirs := getM st_dirs in
  match dirs !! key with
  | None => throwM ENOENT
  | Some d => putM (fun s => set_quarantine ((t, dir_bytes d) :: st_quarantine s)
                               (set_dirs (delete key (st_dirs s)) s))
  end.

Inductive clean_outcome := Kept | Removed (bytes : Z) | Quarantined | Gone | Failed.

Definition clean_record (key : jsstring) : M state clean_outcome := fun s =>
  let removal : M state clean_outcome :=
    let* bytes := session_bytes key in
    (fun s =>
       match manifest_readable key s with
       | (s1, Ok _) => (call ;;; removeOwnedTree key ;;; retM (Removed bytes)) s1
       | (s1, Throw e) =>
           if bool_decide (exn_code e = "ENOENT") then (s1, Throw e)
           else (quarantine key ;;; retM Quarantined) s1
       end) in
  match removal s with
  | (s1, Ok outcome) => (s1, Ok outcome)
  | (s1, Throw e) => (s1, Ok (if bool_decide (exn_code e = "ENOENT") then Gone else Failed))
  end.

Definition note_outcome (outcome : clean_outcome) (r : TimelineCleanupReport) : TimelineCleanupReport :=
  let r := mkReport (rp_scanned r + 1) (rp_removed r) (rp_quarantined r) (rp_failed r) (rp_reclaimed r) in
  match outcome with
  | Kept | Gone => r
  | Removed bytes => mkReport (rp_scanned r) (rp_removed r + 1) (rp_quarantined r) (rp_failed r)
                       (rp_reclaimed r + bytes)
  | Quarantined => mkReport (rp_scanned r) (rp_removed r) (rp_quarantined r + 1) (rp_failed r)
                     (rp_reclaimed r)
  | Failed => mkReport (rp_scanned r) (rp_removed r) (rp_quarantined r) (rp_failed r + 1)
                (rp_reclaimed r)
  end.

Definition stays (outcome : clean_outcome) : bool :=
  match outcome with Kept | Failed => true | _ => false end.

Fixpoint clean_records (parse_time : jsstring -> option Z) (cutoff : Z)
  (records : list (jsstring * index_record)) (sessions : gmap jsstring index_record)
  (report : TimelineCleanupReport) : M state (gmap jsstring index_record * TimelineCleanupReport) :=
  match records with
  | [] => retM (sessions, report)
  | (key, r) :: records =>
      let* outcome := (if expired parse_time cutoff r then clean_record key else retM Kept) in
      clean_records parse_time cutoff records
        (if stays outcome then sessions else delete key sessions) (note_outcome outcome report)
  end.

(** The directories that were set aside before [cutoff]: their bytes are
    counted and they are removed, what fails stays. *)
Fixpoint clean_quarantine (cutoff : Z) (entries : list (Z * Z)) (report : TimelineCleanupReport)
  : M state (list (Z * Z) * TimelineCleanupReport) :=
  match entries with
  | [] => retM ([], report)
  | (t, bytes) :: entries =>
      if cutoff <=? t then
        let* rest := clean_quarantine cutoff entries report in
        retM ((t, bytes) :: rest.1, rest.2)
      else
        let* outcome := attempt (call ;;; call ;;; call) in   (* ownedTreeBytes, lstat, rm *)
        match outcome with
        | Ok _ => clean_quarantine cutoff entries
                    (mkReport (rp_scanned report) (rp_removed report + 1) (rp_quarantined report)
                       (rp_failed report) (rp_reclaimed report + bytes))
        | Throw _ =>
            let* rest := clean_quarantine cutoff entries
                    (mkReport (rp_scanned report) (rp_removed report) (rp_quarantined report)
                       (rp_failed report + 1) (rp_reclaimed report)) in
            retM ((t, bytes) :: rest.1, rest.2)
        end
  end.

(** The sessions of the index, then the directories set aside. *)
Definition cleanupExpired (parse_time : jsstring -> option Z) : M state TimelineCleanupReport :=
  withIndexLock (fun index =>
    let* t := now in
    let cutoff := t - staleRetentionDays limits * 86400000 in
    let* cleaned := clean_records parse_time cutoff (map_to_list (ix_sessions index))
                   (ix_sessions index) (mkReport 0 0 0 0 0) in
    let '(sessions, report) := cleaned in
    call ;;;                                   (* readdir *)
    let* entries := getM st_quarantine in
    let* rest := clean_quarantine cutoff entries report in
    putM (set_quarantine rest.1) ;;;
    retM (rest.2, mkIndex (ix_updatedAt index) sessions)).

(** [initialize]: the history root is made, and what has expired goes. *)
Definition initialize (parse_time : jsstring -> option Z) : M state TimelineCleanupReport :=
  call ;;; cleanupExpired parse_time.

(** ** Capturing an interval *)

(** A writer of archives: what it reports while it writes, what it writes
    and how it ends. *)
Record archive_writer := mkWriter {
  wr_reports : list number;
  wr_content : list Z;
  wr_outcome : result unit
}.

Record capture_options := mkCapture {
  co_checkpoint : Z;
  co_expectedGeneration : Z;
  co_sourceChangeCount : ChangeLogInt64;
  co_before : raw_fingerprint;
  co_after : raw_fingerprint;
  co_boundaryKind : CheckpointBoundaryKind;
  co_transformPluginIds : option (list jsstring);
  co_history : option EditorHistorySnapshot;
  co_writeRaw : Z -> archive_writer;                   (* from the bytes it may use *)
  co_writeOptimized : option (Z -> archive_writer)
}.

Definition stale_generation : exn := timeline_error "TIMELINE_STALE_GENERATION".
Definition fingerprint_mismatch : exn := timeline_error "TIMELINE_FINGERPRINT_MISMATCH".

(** The fingerprint the next interval starts from. *)
Definition tip_fingerprint (m : CheckpointTimelineManifestV1) : NormalizedTimelineFingerprint :=
  match last (mf_intervals m) with Some e => iv_after e | None => mf_original m end.

(** [`${String(checkpoint).padStart(8, '0')}.json`] *)
Definition interval_name (checkpoint : Z) : jsstring :=
  let digits := decimal_string checkpoint in
  repeat 48 (8 - length digits) ++ digits ++ js ".json".

Fixpoint for_reports (f : number -> M state unit) (reports : list number) : M state unit :=
  match reports with
  | [] => retM tt
  | r :: reports => f r ;;; for_reports f reports
  end.

Definition run_writer (key name : jsstring) (w : archive_writer) (baseline : Z) : M state unit :=
  dir_call key (fun d => Ok (set_temp (<[name := wr_content w]> (dir_temp d)) d)) ;;;
  for_reports (extendReservation key baseline) (wr_reports w) ;;;
  liftM (wr_outcome w).

Definition invalid_archive : exn := timeline_error "TIMELINE_INVALID_ARCHIVE".

Definition validateCandidate (key name : jsstring) (before after : NormalizedTimelineFingerprint)
  (sourceChangeCount : ChangeLogInt64) : M state log_summary :=
  call ;;;
  let* dirs := getM st_dirs in
  match (d ← dirs !! key; dir_temp d !! name) with
  | None => throwM ENOENT
  | Some content =>
      let* opened := liftM (open_log content) in
      if negb (lg_complete opened)
         || negb (bool_decide (lg_unavailableChangeCount opened = js "0"))
         || negb (fingerprintsEqual (lg_before opened) before)
         || negb (fingerprintsEqual (lg_after opened) after)
      then throwM invalid_archive
      else
        let* expected := liftM (decimal print_double sourceChangeCount) in
        if negb (bool_decide (lg_sourceChangeCount opened = expected)) then throwM invalid_archive
        else retM opened
  end.

(** [fs.rename] from the temporary directory to the archives. *)
Definition move_winner (from to : jsstring) (d : session_dir) : result session_dir :=
  match dir_temp d !! from with
  | None => Throw ENOENT
  | Some content =>
      Ok (set_intervals (<[to := content]> (dir_intervals d))
            (set_temp (delete from (dir_temp d)) d))
  end.

Definition remove_temp (name : jsstring) (d : session_dir) : result session_dir :=
  Ok (set_temp (delete name (dir_temp d)) d).
Definition remove_interval (name : jsstring) (d : session_dir) : result session_dir :=
  Ok (set_intervals (delete name (dir_intervals d)) d).

(** The optimised archive, if it is asked for, fits, validates and is
    smaller; any failure on the way means there is none. *)
Definition try_optimized (key name : jsstring) (o : capture_options)
  (before after : NormalizedTimelineFingerprint) (raw : log_summary) : M state (option log_summary) :=
  match co_writeOptimized o with
  | None => retM None
  | Some writeOptimized =>
      if negb (1 <? lg_byteLength raw) then retM None
      else
        let* outcome := attempt (
          let* baseline := session_bytes key in
          let* maxBytes := reserve key (lg_byteLength raw - 1) in
          call ;;;
          run_writer key name (writeOptimized maxBytes) baseline ;;;
          call ;;;
          let* opened := validateCandidate key name before after (co_sourceChangeCount o) in
          call ;;;
          retM (if lg_byteLength raw <=? lg_byteLength opened then None else Some opened)) in
        retM (match outcome with Ok r => r | Throw _ => None end)
  end.

Definition parse_history (h : option EditorHistorySnapshot) : result (option EditorHistorySnapshot) :=
  match h with
  | Some s => restored ← fromSnapshot s; Ok (Some (snapshot restored))
  | None => Ok None
  end.

(** The manifest with one more interval; the saved state is found again if
    the interval ends in it. *)
Definition append_interval (m : CheckpointTimelineManifestV1) (t : jsstring)
  (entry : CheckpointIntervalManifestEntryV1) : CheckpointTimelineManifestV1 :=
  mkManifest (mf_sessionKey m) (mf_uriSha256 m) (mf_displayName m) (mf_openedAt m) t (mf_original m)
    (if fingerprintsEqual (iv_after entry) (sv_fingerprint (mf_saved m))
     then mkSaved (sv_fingerprint (mf_saved m)) (Some (iv_checkpoint entry)) false
     else mf_saved m)
    (iv_checkpoint entry) (iv_checkpoint entry) (mf_nextGeneration m + 1)
    (mf_intervals m ++ [entry]).

(** From the writing of the archive to the commit. *)
Definition capture_body (key rawName optimizedName : jsstring) (o : capture_options)
  (before after : NormalizedTimelineFingerprint) (currentBytes maxRawBytes : Z)
  : M state CheckpointIntervalManifestEntryV1 :=
  let finalName := interval_name (co_checkpoint o) in
  call ;;; call ;;; call ;;;
  run_writer key rawName (co_writeRaw o maxRawBytes) currentBytes ;;;
  call ;;;
  let* raw := validateCandidate key rawName before after (co_sourceChangeCount o) in
  call ;;;
  let* optimized := try_optimized key optimizedName o before after raw in
  let winner := default raw optimized in
  let '(winnerName, loserName) :=
    match optimized with Some _ => (optimizedName, rawName) | None => (rawName, optimizedName) end in
  let* m := getM st_value in
  if negb (co_expectedGeneration o =? mf_nextGeneration m) then throwM stale_generation
  else
    call ;;;
    dir_call key (move_winner winnerName finalName) ;;;
    ignore call ;;;                            (* syncDirectory *)
    call ;;;
    dir_call key (remove_temp loserName) ;;;
    let* sourceChangeCount := liftM (decimal print_double (co_sourceChangeCount o)) in
    let* createdAt := timestamp in
    let* history := liftM (parse_history (co_history o)) in
    let entry := mkInterval (co_checkpoint o) (co_expectedGeneration o) before after sourceChangeCount
      createdAt (co_boundaryKind o)
      (sort_unique (default (lg_requiredPlugins winner) (co_transformPluginIds o))) history Ready
      (Some (mkArchive finalName (decimal_string (lg_byteLength winner)) (lg_sha256 winner)
               (lg_changeCount winner) (bool_decide (is_Some optimized)))) None in
    let* t := timestamp in
    let candidate := append_interval m t entry in
    commitManifest candidate ;;;
    putM (set_value candidate) ;;;
    retM entry.

(** The [finally] block. *)
Definition capture_cleanup (key rawName optimizedName finalName : jsstring) (committed : bool)
  : M state unit :=
  ignore (dir_call key (remove_temp rawName)) ;;;
  ignore (dir_call key (remove_temp optimizedName)) ;;;
  (if committed then retM tt else ignore (dir_call key (remove_interval finalName))) ;;;
  ignore (reconcile key 0).

(** What is checked before an interval is added. *)
Definition next_interval (before : NormalizedTimelineFingerprint) : M state unit :=
  let* m := getM st_value in
  if fingerprintsEqual before (tip_fingerprint m) then retM tt else throwM fingerprint_mismatch.

Definition captureInterval (o : capture_options) : M state CheckpointIntervalManifestEntryV1 :=
  assertOpen ;;;
  let* m := getM st_value in
  let key := mf_sessionKey m in
  if negb (co_checkpoint o =? mf_tip m + 1) || (maxCheckpoints limits <? co_checkpoint o)
  then throwM (timeline_error "TIMELINE_CHECKPOINT_LIMIT")
  else if negb (co_expectedGeneration o =? mf_nextGeneration m) then throwM stale_generation
  else
    let* before := liftM (normalizeFingerprint print_double (co_before o)) in
    let* after := liftM (normalizeFingerprint print_double (co_after o)) in
    next_interval before ;;;
    let* operationId := getM (fun s => operation_name (st_calls s)) in
    let rawName := operationId ++ js ".raw.tmp" in
    let optimizedName := operationId ++ js ".optimized.tmp" in
    let* currentBytes := session_bytes key in
    let reserveBytes := Z.min (maxBytesPerSession limits - currentBytes) MAX_SAFE_INTEGER in
    if reserveBytes <=? 0 then throwM quota_exceeded
    else
      let* maxRawBytes := reserve key reserveBytes in
      fun s =>
        let cleanup := capture_cleanup key rawName optimizedName (interval_name (co_checkpoint o)) in
        match capture_body key rawName optimizedName o before after currentBytes maxRawBytes s with
        | (s1, Throw e) => ((cleanup false s1).1, Throw e)
        | (s1, Ok entry) =>
            let '(s2, r) := reconcile key 0 s1 in
            ((cleanup true s2).1, r ≫= fun _ => Ok entry)
        end.

(** ** The other operations of a session *)

Definition recordUnavailable (o : capture_options) (code message : jsstring)
  : M state CheckpointIntervalManifestEntryV1 :=
  assertOpen ;;;
  let* m := getM st_value in
  if negb (co_checkpoint o =? mf_tip m + 1) || negb (co_expectedGeneration o =? mf_nextGeneration m)
  then throwM stale_generation
  else
    let* before := liftM (normalizeFingerprint print_double (co_before o)) in
    let* after := liftM (normalizeFingerprint print_double (co_after o)) in
    next_interval before ;;;
    let* sourceChangeCount := liftM (decimal print_double (co_sourceChangeCount o)) in
    let* createdAt := timestamp in
    let* history := liftM (parse_history (co_history o)) in
    let entry := mkInterval (co_checkpoint o) (co_expectedGeneration o) before after sourceChangeCount
      createdAt (co_boundaryKind o) (sort_unique (default [] (co_transformPluginIds o))) history
      Unavailable None (Some (mkErrorInfo code message)) in
    let* t := timestamp in
    let candidate := append_interval m t entry in
    commitManifest candidate ;;;
    putM (set_value candidate) ;;;
    reconcile (mf_sessionKey m) 0 ;;;
    retM entry.

(** [this.value.intervals[checkpoint - 1]] *)
Definition interval_at (m : CheckpointTimelineManifestV1) (checkpoint : Z)
  : option CheckpointIntervalManifestEntryV1 :=
  if checkpoint - 1 <? 0 then None else mf_intervals m !! Z.to_nat (checkpoint - 1).

Definition archive_changed : exn := timeline_error "TIMELINE_ARCHIVE_CHANGED".
Definition interval_unavailable : exn := timeline_error "TIMELINE_INTERVAL_UNAVAILABLE".

Definition openInterval (checkpoint : Z) : M state log_summary :=
  assertOpen ;;;
  let* m := getM st_value in
  match interval_at m checkpoint with
  | Some (mkInterval _ _ before after _ _ _ _ _ Ready (Some archive) _) =>
      if negb (interval_file (ar_file archive)) then throwM (timeline_error "TIMELINE_UNSAFE_PATH")
      else
        call ;;;
        let* dirs := getM st_dirs in
        match (d ← dirs !! mf_sessionKey m; dir_intervals d !! ar_file archive) with
        | None => throwM ENOENT
        | Some content =>
            if negb (bool_decide (decimal_string (Z.of_nat (length content)) = ar_byteLength archive))
            then throwM archive_changed
            else
              call ;;;
              let* opened := liftM (open_log content) in
              if negb (bool_decide (lg_sha256 opened = ar_sha256 archive))
                 || negb (fingerprintsEqual (lg_before opened) before)
                 || negb (fingerprintsEqual (lg_after opened) after)
              then throwM archive_changed
              else retM opened
        end
  | _ => throwM interval_unavailable
  end.

Definition with_updated (m : CheckpointTimelineManifestV1) (t : jsstring)
  (saved : saved_state) (cursor tip nextGeneration : Z)
  (intervals : list CheckpointIntervalManifestEntryV1) : CheckpointTimelineManifestV1 :=
  mkManifest (mf_sessionKey m) (mf_uriSha256 m) (mf_displayName m) (mf_openedAt m) t (mf_original m)
    saved cursor tip nextGeneration intervals.

Definition mark_unavailable (code message : jsstring) (e : CheckpointIntervalManifestEntryV1)
  : CheckpointIntervalManifestEntryV1 :=
  mkInterval (iv_checkpoint e) (iv_generation e) (iv_before e) (iv_after e) (iv_sourceChangeCount e)
    (iv_createdAt e) (iv_boundaryKind e) (iv_transformPluginIds e) (iv_history e) Unavailable None
    (Some (mkErrorInfo code message)).

Definition markIntervalUnavailable (checkpoint : Z) (code message : jsstring)
  : M state CheckpointIntervalManifestEntryV1 :=
  assertOpen ;;;
  let* m := getM st_value in
  match interval_at m checkpoint with
  | None => throwM interval_unavailable
  | Some entry =>
      if negb (iv_checkpoint entry =? checkpoint) then throwM interval_unavailable
      else
        let* t := timestamp in
        let unavailable := mark_unavailable code message entry in
        let candidate := with_updated m t (mf_saved m) (mf_cursor m) (mf_tip m) (mf_nextGeneration m)
          (map (fun e => if iv_checkpoint e =? checkpoint then unavailable else e) (mf_intervals m)) in
        call ;;;
        commitManifest candidate ;;;
        putM (set_value candidate) ;;;
        retM unavailable
  end.

(** The integer of a cursor that is inside the timeline. *)
Definition valid_cursor (m : CheckpointTimelineManifestV1) (cursor : number) : option Z :=
  match cursor with
  | NInt z => if (z <? 0) || (mf_tip m <? z) then None else Some z
  | _ => None
  end.

(** The saved state after the future of [cursor] is cut off. *)
Definition saved_before (cursor : Z) (s : saved_state) : saved_state :=
  match sv_checkpoint s with
  | Some c => if c <=? cursor then mkSaved (sv_fingerprint s) (Some c) (sv_offBranch s)
              else mkSaved (sv_fingerprint s) None true
  | None => mkSaved (sv_fingerprint s) None (sv_offBranch s)
  end.

Fixpoint remove_files (key : jsstring) (files : list jsstring) : M state unit :=
  match files with
  | [] => retM tt
  | file :: files => ignore (dir_call key (remove_interval file)) ;;; remove_files key files
  end.

Definition invalid_cursor : exn := timeline_error "TIMELINE_INVALID_CURSOR".

Definition truncateFuture (cursor : number) : M state (list jsstring) :=
  assertOpen ;;;
  let* m := getM st_value in
  match valid_cursor m cursor with
  | None => throwM invalid_cursor
  | Some c =>
      let* t := timestamp in
      let removed := drop (Z.to_nat c) (mf_intervals m) in
      let candidate := with_updated m t (saved_before c (mf_saved m)) c c (mf_nextGeneration m + 1)
        (take (Z.to_nat c) (mf_intervals m)) in
      call ;;;
      commitManifest candidate ;;;
      putM (set_value candidate) ;;;
      let removedFiles := omap (fun e => ar_file <$> iv_archive e) removed in
      remove_files (mf_sessionKey m) removedFiles ;;;
      reconcile (mf_sessionKey m) 0 ;;;
      retM removedFiles
  end.

Definition setCursor (cursor : number) : M state unit :=
  assertOpen ;;;
  let* m := getM st_value in
  match valid_cursor m cursor with
  | None => throwM invalid_cursor
  | Some c =>
      let* t := timestamp in
      let candidate := with_updated m t (mf_saved m) c (mf_tip m) (mf_nextGeneration m)
        (mf_intervals m) in
      call ;;;
      commitManifest candidate ;;;
      putM (set_value candidate)
  end.

(** The checkpoint whose content a fingerprint is: the original is
    checkpoint zero. *)
Definition find_checkpoint (m : CheckpointTimelineManifestV1) (f : NormalizedTimelineFingerprint)
  : option Z :=
  if fingerprintsEqual f (mf_original m) then Some 0
  else iv_checkpoint <$> find (fun e => fingerprintsEqual f (iv_after e)) (mf_intervals m).

Definition setSavedFingerprint (fingerprint : raw_fingerprint) : M state unit :=
  assertOpen ;;;
  let* m := getM st_value in
  let* normalized := liftM (normalizeFingerprint print_double fingerprint) in
  let checkpoint := find_checkpoint m normalized in
  let* t := timestamp in
  let candidate := with_updated m t
    (mkSaved normalized checkpoint (match checkpoint with None => true | Some _ => false end))
    (mf_cursor m) (mf_tip m) (mf_nextGeneration m) (mf_intervals m) in
  call ;;;
  commitManifest candidate ;;;
  putM (set_value candidate).

Definition HEARTBEAT_INTERVAL_MS : Z := 60 * 1000.

Definition heartbeat (force : bool) : M state unit :=
  assertOpen ;;;
  let* t := now in
  let* m := getM st_value in
  let* lastBeat := getM st_lastHeartbeat in
  if negb force && (t - lastBeat <? HEARTBEAT_INTERVAL_MS) then retM tt
  else
    call ;;;
    reconcile (mf_sessionKey m) 0 ;;;
    putM (set_heartbeat t).

(** ** The operations of a session, as its caller chooses them *)

Inductive operation :=
  | Capture (o : capture_options)
  | RecordUnavailable (o : capture_options) (code message : jsstring)
  | OpenInterval (checkpoint : Z)
  | MarkIntervalUnavailable (checkpoint : Z) (code message : jsstring)
  | TruncateFuture (cursor : number)
  | SetCursor (cursor : number)
  | SetSavedFingerprint (fingerprint : raw_fingerprint)
  | Heartbeat (force : bool).

Definition run (op : operation) : M state unit :=
  match op with
  | Capture o => captureInterval o ;;; retM tt
  | RecordUnavailable o code message => recordUnavailable o code message ;;; retM tt
  | OpenInterval c => openInterval c ;;; retM tt
  | MarkIntervalUnavailable c code message => markIntervalUnavailable c code message ;;; retM tt
  | TruncateFuture c => truncateFuture c ;;; retM tt
  | SetCursor c => setCursor c
  | SetSavedFingerprint f => setSavedFingerprint f
  | Heartbeat force => heartbeat force
  end.

(** The caller goes on after an error. *)
Fixpoint run_all (ops : list operation) (s : state) : state :=
  match ops with [] => s | op :: ops => run_all ops (run op s).1 end.
End Storage.

(** ** An environment for examples

    Nothing fails, except the calls that are named. *)
Definition example_environment (fault : nat -> option exn) (open_log : list Z -> result log_summary)
  : Environment :=
  {| TimelineStorage.fault := fault; clock := fun n => 1000 * Z.of_nat n; iso_text := decimal_string;
     TimelineStorage.open_log := open_log;
     manifest_size := fun m => 100 + Z.of_nat (length (mf_intervals m));
     index_size := fun _ => 100; operation_name := fun n => decimal_string (Z.of_nat n);
     print_double := fun _ => [] |}.

Definition example_fingerprint (value : string) : raw_fingerprint :=
  mkRawFingerprint (I64BigInt 3) None (js "sha256") (js value).

(** The state of a manager that has no sessions. *)
Definition example_start : state :=
  mkState IndexMissing ∅ [] 0 0
    (new_manifest [] [] None [] (mkFingerprint [] None [] [])) true 0.
