(* ===== verification/TimelineLogic.v ===== *)
(** * Reasoning about the operations on timelines

    [keeps P m]: every outcome of [m], errors included, keeps [P].
    [triple P m Q E]: from [P], [m] ends in [Q] or throws in [E].  Both come
    with the rules for the calls that [TimelineStorage] is made of. *)

From S2P Require Import Prelude JsText JsValue ChangeLogCodec History TimelineManifest TimelineStorage.

Open Scope jsm_scope.

(** ** Properties that every outcome keeps *)

Definition keeps {A} (P : state -> Prop) (m : M state A) : Prop := forall s, P s -> P (m s).1.

Create HintDb keeps discriminated.

Section Keeps.
Context (P : state -> Prop).

Lemma keeps_bind {A B} (m : M state A) (f : A -> M state B) :
  keeps P m -> (forall a, keeps P (f a)) -> keeps P (bindM m f).
Proof.
  intros Hm Hf s Hs. specialize (Hm s Hs). unfold bindM. destruct (m s) as [s' [a|e]]; [|done].
  by apply Hf.
Qed.

Lemma keeps_ret {A} (a : A) : keeps P (retM a).
Proof. by intros s. Qed.

Lemma keeps_throw {A} e : keeps P (throwM e : M state A).
Proof. by intros s. Qed.

Lemma keeps_lift {A} (r : result A) : keeps P (liftM r).
Proof. by intros s. Qed.

Lemma keeps_get {A} (f : state -> A) : keeps P (getM f).
Proof. by intros s. Qed.

Lemma keeps_put f : (forall s, P s -> P (f s)) -> keeps P (putM f).
Proof. intros Hf s. apply Hf. Qed.

Lemma keeps_ignore m : keeps P m -> keeps P (ignore m).
Proof. intros Hm s. apply Hm. Qed.

Lemma keeps_attempt {A} (m : M state A) : keeps P m -> keeps P (attempt m).
Proof. intros Hm s. apply Hm. Qed.

Lemma keeps_if {A} (b : bool) (m k : M state A) : keeps P m -> keeps P k -> keeps P (if b then m else k).
Proof. by destruct b. Qed.

Lemma keeps_option {A B} (o : option A) (f : A -> M state B) (m : M state B) :
  (forall a, keeps P (f a)) -> keeps P m -> keeps P (match o with Some a => f a | None => m end).
Proof. destruct o; auto. Qed.
End Keeps.

#[export] Hint Resolve keeps_ret keeps_throw keeps_lift keeps_get keeps_ignore keeps_attempt keeps_if
  keeps_option : keeps.

(** Walk down a computation; what is left are the calls that matter. *)
Ltac keeps_step :=
  match goal with
  | |- keeps _ (bindM _ _) => apply keeps_bind; [|intros ?]
  | |- keeps _ (if _ then _ else _) => apply keeps_if
  | |- keeps _ (match ?x with _ => _ end) => destruct x
  | |- keeps _ _ => solve [auto with keeps]
  end.
Ltac keeps_auto := repeat keeps_step.

(** ** Triples and [keeps] *)

Lemma triple_keeps {A} P (E : state -> Prop) (m : M state A) :
  keeps P m -> (forall s, P s -> E s) -> triple P m (fun _ => P) E.
Proof. intros Hm HE s Hs. specialize (Hm s Hs). destruct (m s) as [s' [a|e]]; [done|by apply HE]. Qed.

Lemma triple_keeps_end {A} (P : state -> Prop) (m : M state A) Q E :
  triple P m Q E -> (forall a s, Q a s -> P s) -> (forall s, E s -> P s) -> keeps P m.
Proof.
  intros Hm HQ HE s Hs. specialize (Hm s Hs). destruct (m s) as [s' [a|e]]; [by apply (HQ a)|by apply HE].
Qed.

(** ** The calls *)

(** A property of the files of the sessions and of the fields of the open
    one; the index and its lock do not matter to it. *)
Definition about_files (P : state -> Prop) : Prop :=
  forall s s', st_dirs s' = st_dirs s -> st_value s' = st_value s -> st_closed s' = st_closed s ->
    P s -> P s'.

Section Calls.
Context `{Environment} (limits : CheckpointHistoryLimits) (instanceId : jsstring).
Context (P : state -> Prop) (HP : about_files P).

Lemma files_call : keeps P call.
Proof. intros s Hs. unfold call. destruct (fault _); apply (HP s); done. Qed.

Lemma files_session_bytes key : keeps P (session_bytes key).
Proof. apply keeps_bind; [apply files_call|intros _; apply keeps_get]. Qed.

Lemma files_root_bytes : keeps P root_bytes.
Proof. apply keeps_bind; [apply files_call|intros _; apply keeps_get]. Qed.

Lemma files_atomic_index i : keeps P (atomic_index i).
Proof.
  unfold atomic_index. apply keeps_bind; [apply files_call|]. intros _ s Hs.
  assert (Hw : keeps P (call ;;; call ;;; putM (set_index (IndexFile i)))).
  { apply keeps_bind; [apply files_call|intros _]. apply keeps_bind; [apply files_call|intros _].
    apply keeps_put. intros x. by apply HP. }
  specialize (Hw s Hs). destruct ((call ;;; call ;;; _) s) as [s1 [u|e]].
  - by apply keeps_ignore; [apply files_call|].
  - pose proof (files_call s1 Hw) as Hc. destruct (call s1) as [s2 [u|e']]; [done|]. by apply (HP s2).
Qed.

Lemma files_with_lock {A}
  (operation : CheckpointTimelineIndexV1 -> M state (A * CheckpointTimelineIndexV1)) :
  (forall i, keeps P (operation i)) -> keeps P (withIndexLock operation).
Proof.
  intros Hop. pose proof files_call. pose proof files_atomic_index.
  unfold withIndexLock, readIndex, timestamp. do 2 (apply keeps_bind; [auto|intros _]).
  apply keeps_bind; [|intros o; apply keeps_bind; [|intros r]].
  - apply keeps_attempt. keeps_auto.
  - apply keeps_attempt. keeps_auto.
  - keeps_auto.
Qed.

Lemma files_reserve key requested : keeps P (reserve limits instanceId key requested).
Proof.
  pose proof files_call. pose proof files_session_bytes. pose proof files_root_bytes.
  apply files_with_lock. intros i. unfold timestamp. cbv zeta. keeps_auto.
Qed.

Lemma files_extend key baseline bytes : keeps P (extendReservation limits instanceId key baseline bytes).
Proof.
  pose proof files_call. pose proof files_session_bytes. pose proof files_root_bytes.
  unfold extendReservation. destruct bytes as [b| | |]; try apply keeps_throw.
  apply keeps_if; [apply keeps_throw|]. apply files_with_lock. intros i. unfold timestamp. cbv zeta.
  keeps_auto.
Qed.

Lemma files_reconcile key reservation : keeps P (reconcile limits key reservation).
Proof.
  pose proof files_call. pose proof files_session_bytes. apply files_with_lock. intros i.
  unfold timestamp. keeps_auto.
Qed.

Lemma files_for_reports f reports : (forall r, keeps P (f r)) -> keeps P (for_reports f reports).
Proof.
  intros Hf. induction reports as [|r rs IH]; [apply keeps_ret|]. cbn [for_reports].
  by apply keeps_bind; [|].
Qed.
End Calls.
