(* ===== verification/TimelineQuota.v ===== *)
(** * Quotas of checkpoint timelines

    The index of sessions never promises more than the configured limits,
    whatever the operations of the manager and of its sessions do and
    whatever calls fail on the way. *)

From S2P Require Import Prelude JsText JsValue ChangeLogCodec History TimelineManifest TimelineStorage TimelineLogic.

Open Scope jsm_scope.

(** ** What the index promises *)

Definition promised (r : index_record) : Z := ir_byteLength r + ir_reservedBytes r.

Definition total (sessions : gmap jsstring index_record) : Z :=
  map_fold (fun _ r t => t + (ir_byteLength r + ir_reservedBytes r)) 0 sessions.

Definition lengths_ok (r : index_record) : Prop := 0 <= ir_byteLength r /\ 0 <= ir_reservedBytes r.

Record index_ok (limits : CheckpointHistoryLimits) (sessions : gmap jsstring index_record) : Prop := {
  io_lengths : map_Forall (fun _ r => lengths_ok r) sessions;
  io_session : map_Forall (fun _ r => promised r <= maxBytesPerSession limits) sessions;
  io_total : total sessions <= maxBytesTotal limits
}.

Lemma total_insert_new k r m : m !! k = None -> total (<[k := r]> m) = total m + promised r.
Proof. intros Hk. unfold total. rewrite map_fold_insert_L; [done| |done]. intros. lia. Qed.

Lemma total_insert k r m : total (<[k := r]> m) = others_total m k + promised r.
Proof.
  rewrite <- insert_delete_eq. rewrite total_insert_new by apply lookup_delete_eq. done.
Qed.

Lemma total_delete k m : map_Forall (fun _ r => lengths_ok r) m -> total (delete k m) <= total m.
Proof.
  intros Hm. destruct (m !! k) as [r|] eqn:E; [|by rewrite delete_id].
  rewrite <- (insert_delete_id m k r E) at 2. rewrite total_insert_new by apply lookup_delete_eq.
  destruct (Hm k r E). unfold promised. lia.
Qed.

Lemma index_ok_delete limits k m : index_ok limits m -> index_ok limits (delete k m).
Proof.
  intros [Hl Hs Ht]. split; [by apply map_Forall_delete|by apply map_Forall_delete|].
  pose proof (total_delete k m Hl). lia.
Qed.

Lemma index_ok_insert limits k r m :
  index_ok limits m -> lengths_ok r -> promised r <= maxBytesPerSession limits ->
  others_total m k + promised r <= maxBytesTotal limits -> index_ok limits (<[k := r]> m).
Proof.
  intros [Hl Hs Ht] Hr Hp Ho. split; [by apply map_Forall_insert_2|by apply map_Forall_insert_2|].
  by rewrite total_insert.
Qed.

(** A record that only shrinks. *)
Lemma index_ok_shrink limits k r r' m :
  index_ok limits m -> m !! k = Some r -> lengths_ok r' -> promised r' <= promised r ->
  index_ok limits (<[k := r']> m).
Proof.
  intros Hm Hk Hr Hp. pose proof Hm as [Hl Hs Ht]. specialize (Hs k r Hk). cbv beta in Hs.
  apply index_ok_insert; [done|done|lia|].
  rewrite <- (insert_id m k r Hk), total_insert in Ht. lia.
Qed.

Lemma quota_asserted limits sessions key actual reservation :
  assertQuota limits sessions key actual reservation = Ok tt ->
  actual + reservation <= maxBytesPerSession limits /\
  others_total sessions key + (actual + reservation) <= maxBytesTotal limits.
Proof.
  unfold assertQuota, require. destruct (negb _) eqn:E; [|done]. intros _. bool_prop. lia.
Qed.

Section Quota.
Context `{Environment} (limits : CheckpointHistoryLimits) (instanceId : jsstring).
Context (Hmanifest : forall m, 0 <= manifest_size m).
Context (Hlimits : 0 <= maxBytesPerSession limits <= maxBytesTotal limits).

Definition dirs_ok (s : state) : Prop := map_Forall (fun _ d => 0 <= dir_debris d) (st_dirs s).

Definition quota_ok (s : state) : Prop :=
  dirs_ok s /\ match st_index s with IndexFile i => index_ok limits (ix_sessions i) | _ => True end.

Lemma keeps_call : keeps quota_ok call.
Proof. intros s Hs. unfold call. by destruct (fault _). Qed.

Lemma keeps_dir_call key work :
  (forall d d', work d = Ok d' -> 0 <= dir_debris d -> 0 <= dir_debris d') ->
  keeps quota_ok (dir_call key work).
Proof.
  intros Hw. unfold dir_call. apply keeps_bind; [apply keeps_call|]. intros _ s [Hd Hi].
  destruct (st_dirs s !! key) as [d|] eqn:Ed; [|by split].
  destruct (work d) as [d'|e] eqn:Ew; [|by split]. split; [|done]. cbn.
  apply map_Forall_insert_2; [|done]. apply (Hw d d' Ew), (Hd key d Ed).
Qed.

Lemma files_bytes_nonneg files : 0 <= files_bytes files.
Proof.
  unfold files_bytes. apply (map_fold_weak_ind (fun t _ => 0 <= t)); [lia|]. intros. lia.
Qed.

Lemma dir_bytes_nonneg d : 0 <= dir_debris d -> 0 <= dir_bytes d.
Proof.
  intros Hd. unfold dir_bytes. pose proof (files_bytes_nonneg (dir_intervals d)).
  pose proof (files_bytes_nonneg (dir_temp d)).
  destruct (dir_manifest d) as [| |m]; [lia|lia|]. specialize (Hmanifest m). lia.
Qed.

(** The bytes of a directory are counted without changing it. *)
Lemma session_bytes_spec key s :
  quota_ok s -> match session_bytes key s with
                | (s', Ok n) => quota_ok s' /\ 0 <= n
                | (s', Throw _) => quota_ok s'
                end.
Proof.
  intros [Hd Hi]. unfold session_bytes, bindM, call. destruct (fault _); [by split|]. split; [by split|].
  cbn. destruct (st_dirs s !! key) as [d|] eqn:Ed; [|lia]. apply dir_bytes_nonneg, (Hd key d Ed).
Qed.

Lemma keeps_session_bytes key : keeps quota_ok (session_bytes key).
Proof.
  intros s Hs. pose proof (session_bytes_spec key s Hs) as Hb.
  destruct (session_bytes key s) as [s' [n|e]]; [by destruct Hb|done].
Qed.

Lemma keeps_root_bytes : keeps quota_ok root_bytes.
Proof. unfold root_bytes. apply keeps_bind; [apply keeps_call|intros _; apply keeps_get]. Qed.

Lemma keeps_atomic_manifest key m : keeps quota_ok (atomic_manifest key m).
Proof.
  unfold atomic_manifest. apply keeps_bind; [apply keeps_call|]. intros _ s Hs.
  assert (Hw : keeps quota_ok (call ;;; call ;;;
    dir_call key (fun d => Ok (set_manifest (ManifestFile m) d)))).
  { apply keeps_bind; [apply keeps_call|intros _]. apply keeps_bind; [apply keeps_call|intros _].
    apply keeps_dir_call. intros d d' [= <-]. done. }
  specialize (Hw s Hs). destruct ((call ;;; call ;;; _) s) as [s1 [u|e]].
  - by apply keeps_ignore; [apply keeps_call|].
  - pose proof (keeps_call s1 Hw) as Hc. destruct (call s1) as [s2 [u|e']]; [done|].
    apply keeps_ignore; [|done]. apply keeps_dir_call. intros d d' [= <-]. cbn.
    specialize (Hmanifest m). lia.
Qed.

Lemma keeps_atomic_index i : index_ok limits (ix_sessions i) -> keeps quota_ok (atomic_index i).
Proof.
  intros Hi. unfold atomic_index. apply keeps_bind; [apply keeps_call|]. intros _ s Hs.
  assert (Hw : keeps quota_ok (call ;;; call ;;; putM (set_index (IndexFile i)))).
  { apply keeps_bind; [apply keeps_call|intros _]. apply keeps_bind; [apply keeps_call|intros _].
    apply keeps_put. intros x [Hd _]. by split. }
  specialize (Hw s Hs). destruct ((call ;;; call ;;; _) s) as [s1 [u|e]].
  - by apply keeps_ignore; [apply keeps_call|].
  - pose proof (keeps_call s1 Hw) as Hc. by destruct (call s1) as [s2 [u|e']].
Qed.

(** Work on the index under the lock is good if it turns a good index into a
    good one. *)
Definition index_work {A}
  (operation : CheckpointTimelineIndexV1 -> M state (A * CheckpointTimelineIndexV1)) : Prop :=
  forall i s, index_ok limits (ix_sessions i) -> quota_ok s ->
    match operation i s with
    | (s', Ok (_, i')) => quota_ok s' /\ index_ok limits (ix_sessions i')
    | (s', Throw _) => quota_ok s'
    end.

Lemma read_index_spec s :
  quota_ok s -> match readIndex s with
                | (s', Ok i) => quota_ok s' /\ index_ok limits (ix_sessions i)
                | (s', Throw _) => quota_ok s'
                end.
Proof.
  intros [Hd Hi]. unfold readIndex, bindM, call. destruct (fault _); [by split|].
  unfold getM, timestamp, retM, throwM. cbn. destruct (st_index s) as [| |i] eqn:Ei.
  - split; [split; [done|cbn; by rewrite Ei]|].
    split; [apply map_Forall_empty|apply map_Forall_empty|]. unfold total, emptyIndex. cbn [ix_sessions].
    rewrite map_fold_empty. lia.
  - split; [done|cbn; by rewrite Ei].
  - destruct (_ <? _); [split; [done|cbn; by rewrite Ei]|].
    split; [split; [done|cbn; by rewrite Ei]|done].
Qed.

Lemma keeps_with_lock {A}
  (operation : CheckpointTimelineIndexV1 -> M state (A * CheckpointTimelineIndexV1)) :
  index_work operation -> keeps quota_ok (withIndexLock operation).
Proof.
  intros Hop. unfold withIndexLock. apply keeps_bind; [apply keeps_call|intros _].
  apply keeps_bind; [apply keeps_call|intros _]. apply keeps_bind.
  - apply keeps_attempt. apply keeps_bind; [apply keeps_call|intros _]. intros s Hs.
    unfold bindM at 1. pose proof (read_index_spec s Hs) as Hr.
    destruct (readIndex s) as [s1 [i|e]]; [|done]. destruct Hr as [Hs1 Hi].
    unfold bindM at 1. specialize (Hop i s1 Hi Hs1). destruct (operation i s1) as [s2 [[a i']|e]]; [|done].
    destruct Hop as [Hs2 Hi']. unfold bindM at 1, timestamp, getM. unfold bindM at 1.
    pose proof (keeps_atomic_index (mkIndex (iso_text (clock (st_calls s2))) (ix_sessions i')) Hi' s2 Hs2) as Ha.
    by destruct (atomic_index _ s2) as [s3 [u|e]].
  - intros outcome. apply keeps_bind; [|intros released; keeps_auto].
    apply keeps_attempt, keeps_bind; [apply keeps_call|intros _; apply keeps_call].
Qed.

(** Counting the bytes of the session and asserting the quota for them. *)
Lemma updated_ok i key r t actual reservation :
  index_ok limits (ix_sessions i) -> 0 <= actual -> 0 <= reservation ->
  assertQuota limits (ix_sessions i) key actual reservation = Ok tt ->
  index_ok limits (ix_sessions (with_lengths i key r t actual reservation)).
Proof.
  intros Hi Ha Hr Hq. apply quota_asserted in Hq as [Hq1 Hq2]. cbn.
  by apply index_ok_insert.
Qed.

Lemma call_spec s : quota_ok s -> match call s with (s', _) => quota_ok s' end.
Proof. intros Hs. pose proof (keeps_call s Hs). by destruct (call s). Qed.

Lemma root_bytes_spec s : quota_ok s -> match root_bytes s with (s', _) => quota_ok s' end.
Proof. intros Hs. pose proof (keeps_root_bytes s Hs). by destruct (root_bytes s). Qed.

Lemma keeps_reconcile key : keeps quota_ok (reconcile limits key 0).
Proof.
  apply keeps_with_lock. intros i s Hi Hs. destruct (ix_sessions i !! key) as [r|]; [|done].
  unfold bindM at 1. pose proof (session_bytes_spec key s Hs) as Hb.
  destruct (session_bytes key s) as [s1 [n|e]]; [|done]. destruct Hb as [Hs1 Hn].
  unfold bindM, liftM. destruct (assertQuota _ _ _ _ _) as [[]|e] eqn:Eq; [|done].
  cbn [timestamp getM retM]. split; [done|]. by apply updated_ok.
Qed.

Lemma keeps_reserve key requested : keeps quota_ok (reserve limits instanceId key requested).
Proof.
  apply keeps_with_lock. intros i s Hi Hs. destruct (ix_sessions i !! key) as [r|]; [|done].
  destruct (_ || _); [done|].
  unfold bindM at 1. pose proof (session_bytes_spec key s Hs) as Hb.
  destruct (session_bytes key s) as [s1 [n|e]]; [|done]. destruct Hb as [Hs1 Hn].
  unfold bindM at 1. pose proof (root_bytes_spec s1 Hs1) as Hr.
  destruct (root_bytes s1) as [s2 [root|e]]; [|done]. cbv zeta.
  destruct (Z.leb_spec (Z.min (Z.min requested (maxBytesPerSession limits - n))
    (maxBytesTotal limits - root - others_reserved (ix_sessions i) key)) 0) as [Hle|Hgt]; [done|].
  unfold bindM at 1, liftM at 1. destruct (assertQuota _ _ _ _ _) as [[]|e] eqn:Eq; [|done].
  unfold bindM at 1, timestamp, getM. unfold bindM at 1. pose proof (call_spec s2 Hr) as Hc.
  destruct (call s2) as [s3 [u|e]]; [|done]. cbn [retM]. split; [done|].
  apply updated_ok; try done. unfold RESERVATION_CHUNK_BYTES. lia.
Qed.

Lemma keeps_extend key baseline bytes : keeps quota_ok (extendReservation limits instanceId key baseline bytes).
Proof.
  unfold extendReservation. destruct bytes as [b| | |]; try apply keeps_throw.
  apply keeps_if; [apply keeps_throw|]. apply keeps_with_lock. intros i s Hi Hs.
  destruct (ix_sessions i !! key) as [r|]; [|done]. destruct (negb _); [done|].
  unfold bindM at 1. pose proof (session_bytes_spec key s Hs) as Hb.
  destruct (session_bytes key s) as [s1 [n|e]]; [|done]. destruct Hb as [Hs1 Hn]. cbv zeta.
  unfold bindM at 1. pose proof (root_bytes_spec s1 Hs1) as Hr.
  destruct (root_bytes s1) as [s2 [root|e]]; [|done]. destruct (_ <? _); [done|].
  unfold bindM at 1, liftM at 1. destruct (assertQuota _ _ _ _ _) as [[]|e] eqn:Eq; [|done].
  unfold bindM at 1, timestamp, getM. unfold bindM at 1. pose proof (call_spec s2 Hr) as Hc.
  destruct (call s2) as [s3 [u|e]]; [|done]. cbn [retM]. split; [done|].
  apply updated_ok; try done. lia.
Qed.

Lemma keeps_commit m : keeps quota_ok (commitManifest m).
Proof. unfold commitManifest. apply keeps_bind; [apply keeps_lift|intros _; apply keeps_atomic_manifest]. Qed.

Lemma keeps_remove_tree key : keeps quota_ok (removeOwnedTree key).
Proof.
  unfold removeOwnedTree. apply keeps_bind; [apply keeps_call|intros _].
  apply keeps_bind; [apply keeps_get|intros dirs]. destruct (dirs !! key) as [d|]; [|apply keeps_throw].
  apply keeps_bind; [apply keeps_call|intros _]. apply keeps_put. intros s [Hd Hi]. split; [|done].
  by apply map_Forall_delete.
Qed.

Lemma keeps_remove key name :
  keeps quota_ok (dir_call key (remove_temp name)) /\ keeps quota_ok (dir_call key (remove_interval name)).
Proof. split; apply keeps_dir_call; by intros d d' [= <-]. Qed.

Lemma keeps_remove_files key files : keeps quota_ok (remove_files key files).
Proof.
  induction files as [|f files IH]; [apply keeps_ret|]. cbn [remove_files].
  apply keeps_bind; [|done]. apply keeps_ignore, keeps_remove.
Qed.

Lemma keeps_forget key deleted : keeps quota_ok (forget_session key deleted).
Proof.
  apply keeps_with_lock. intros i s Hi Hs. destruct (ix_sessions i !! key) as [r|] eqn:Er; [|done].
  destruct deleted; [split; [done|]; by apply index_ok_delete|].
  unfold bindM, timestamp, getM, retM. split; [done|]. cbn.
  destruct (io_lengths _ _ Hi key r Er). apply (index_ok_shrink limits key r); [done|done| |].
  - by split.
  - unfold promised. cbn. lia.
Qed.

Lemma keeps_writer key name w baseline :
  keeps quota_ok (run_writer limits instanceId key name w baseline).
Proof.
  unfold run_writer. apply keeps_bind; [apply keeps_dir_call; by intros d d' [= <-]|intros _].
  apply keeps_bind; [|intros _; apply keeps_lift].
  induction (wr_reports w) as [|r rs IH]; [apply keeps_ret|]. cbn [for_reports].
  apply keeps_bind; [apply keeps_extend|done].
Qed.

Lemma keeps_validate key name before after count :
  keeps quota_ok (validateCandidate key name before after count).
Proof.
  unfold validateCandidate. apply keeps_bind; [apply keeps_call|intros _]. keeps_auto.
Qed.

Hint Resolve keeps_call keeps_session_bytes keeps_root_bytes keeps_commit keeps_reconcile keeps_reserve
  keeps_extend keeps_remove_tree keeps_remove_files keeps_forget keeps_writer keeps_validate : keeps.

Lemma keeps_set_value m : keeps quota_ok (putM (set_value m)).
Proof. by apply keeps_put. Qed.

Lemma keeps_now : keeps quota_ok now /\ keeps quota_ok timestamp.
Proof. split; apply keeps_get. Qed.

Lemma keeps_optimized key name o before after raw :
  keeps quota_ok (try_optimized limits instanceId key name o before after raw).
Proof.
  unfold try_optimized. destruct (co_writeOptimized o); [|apply keeps_ret].
  apply keeps_if; [apply keeps_ret|]. apply keeps_bind; [|intros ?; apply keeps_ret].
  apply keeps_attempt. keeps_auto.
Qed.

Lemma keeps_body key raw opt o before after current max :
  keeps quota_ok (capture_body limits instanceId key raw opt o before after current max).
Proof.
  unfold capture_body. cbv zeta. do 3 (apply keeps_bind; [apply keeps_call|intros _]).
  apply keeps_bind; [apply keeps_writer|intros _]. apply keeps_bind; [apply keeps_call|intros _].
  apply keeps_bind; [apply keeps_validate|intros r]. apply keeps_bind; [apply keeps_call|intros _].
  apply keeps_bind; [apply keeps_optimized|intros best].
  destruct (match best with Some _ => _ | None => _ end) as [winner loser].
  apply keeps_bind; [apply keeps_get|intros m]. apply keeps_if; [apply keeps_throw|].
  apply keeps_bind; [apply keeps_call|intros _]. apply keeps_bind; [|intros _].
  { apply keeps_dir_call. intros d d'. unfold move_winner.
    destruct (dir_temp d !! winner); [|done]. by intros [= <-]. }
  apply keeps_bind; [apply keeps_ignore, keeps_call|intros _].
  apply keeps_bind; [apply keeps_call|intros _]. apply keeps_bind; [apply keeps_remove|intros _].
  apply keeps_bind; [apply keeps_lift|intros count]. apply keeps_bind; [apply keeps_get|intros t].
  apply keeps_bind; [apply keeps_lift|intros h]. apply keeps_bind; [apply keeps_get|intros t'].
  apply keeps_bind; [apply keeps_commit|intros _].
  apply keeps_bind; [apply keeps_set_value|intros _; apply keeps_ret].
Qed.

Lemma keeps_cleanup key raw opt final committed :
  keeps quota_ok (capture_cleanup limits key raw opt final committed).
Proof.
  unfold capture_cleanup. apply keeps_bind; [apply keeps_ignore, keeps_remove|intros _].
  apply keeps_bind; [apply keeps_ignore, keeps_remove|intros _]. apply keeps_bind.
  - destruct committed; [apply keeps_ret|]. apply keeps_ignore, keeps_remove.
  - intros _. apply keeps_ignore, keeps_reconcile.
Qed.

Lemma keeps_assert_open : keeps quota_ok assertOpen.
Proof. unfold assertOpen. keeps_auto. Qed.

Lemma keeps_capture o : keeps quota_ok (captureInterval limits instanceId o).
Proof.
  unfold captureInterval. apply keeps_bind; [apply keeps_assert_open|intros _].
  apply keeps_bind; [apply keeps_get|intros m]. cbv zeta. do 2 (apply keeps_if; [apply keeps_throw|]).
  do 2 (apply keeps_bind; [apply keeps_lift|intros ?]).
  apply keeps_bind; [unfold next_interval; keeps_auto|intros _].
  apply keeps_bind; [apply keeps_get|intros name]. apply keeps_bind; [apply keeps_session_bytes|intros n].
  apply keeps_if; [apply keeps_throw|]. apply keeps_bind; [apply keeps_reserve|intros max].
  intros s Hs. match goal with |- context [capture_body ?a ?b ?k ?r ?p ?x ?y ?z ?c ?d s] =>
    pose proof (keeps_body k r p x y z c d s Hs) as Hb; destruct (capture_body a b k r p x y z c d s)
      as [s1 [entry|e]] end.
  - pose proof (keeps_reconcile (mf_sessionKey m) s1 Hb) as Hr.
    destruct (reconcile limits (mf_sessionKey m) 0 s1) as [s2 r]. by apply keeps_cleanup.
  - by apply keeps_cleanup.
Qed.

Lemma keeps_run op : keeps quota_ok (run limits instanceId op).
Proof.
  destruct op; cbn [run].
  - apply keeps_bind; [apply keeps_capture|intros _; apply keeps_ret].
  - unfold recordUnavailable, next_interval, timestamp. pose proof keeps_assert_open.
    pose proof keeps_set_value. keeps_auto.
  - unfold openInterval. pose proof keeps_assert_open. keeps_auto.
  - unfold markIntervalUnavailable, timestamp. pose proof keeps_assert_open. pose proof keeps_set_value.
    keeps_auto.
  - unfold truncateFuture, timestamp. pose proof keeps_assert_open. pose proof keeps_set_value.
    keeps_auto.
  - unfold setCursor, timestamp. pose proof keeps_assert_open. pose proof keeps_set_value. keeps_auto.
  - unfold setSavedFingerprint, timestamp. pose proof keeps_assert_open. pose proof keeps_set_value.
    keeps_auto.
  - unfold heartbeat, now. pose proof keeps_assert_open.
    repeat (keeps_step || (apply keeps_put; by intros ? [? ?])).
Qed.

Lemma keeps_create key uri name original :
  keeps quota_ok (createSession limits instanceId key uri name original).
Proof.
  unfold createSession. do 2 (apply keeps_bind; [apply keeps_call|intros _]).
  apply keeps_bind.
  { apply keeps_put. intros s [Hd Hi]. split; [|done]. by apply map_Forall_insert_2. }
  intros _. apply keeps_bind; [apply keeps_call|intros _]. apply keeps_bind; [apply keeps_get|intros t].
  apply keeps_bind; [apply keeps_lift|intros f]. cbv zeta.
  set (m := new_manifest key uri name t f). intros s Hs.
  match goal with |- context [bindM (commitManifest m) ?k s] =>
    assert (Hw : keeps quota_ok (bindM (commitManifest m) k)) end.
  { apply keeps_bind; [apply keeps_commit|intros _]. apply keeps_with_lock. intros i s0 Hi Hs0.
    unfold bindM at 1. pose proof (session_bytes_spec key s0 Hs0) as Hb.
    destruct (session_bytes key s0) as [s1 [n|e]]; [|done]. destruct Hb as [Hs1 Hn].
    unfold bindM, liftM. destruct (assertQuota _ _ _ _ _) as [[]|e] eqn:Eq; [|done].
    cbn [retM]. split; [done|]. apply quota_asserted in Eq as [Hq1 Hq2]. cbn.
    apply index_ok_insert; try done. }
  specialize (Hw s Hs). match goal with |- context [bindM (commitManifest m) ?k s] =>
    destruct (bindM (commitManifest m) k s) as [s1 [u|e]] end; [exact Hw|].
  apply keeps_ignore; [|exact Hw]. apply keeps_bind; [apply keeps_call|intros _]. apply keeps_put.
  intros x [Hd Hi]. split; [|done]. by apply map_Forall_delete.
Qed.

Lemma keeps_close : keeps quota_ok close.
Proof.
  unfold close. apply keeps_bind; [apply keeps_get|intros c]. apply keeps_if; [apply keeps_ret|].
  apply keeps_bind; [apply keeps_put; by intros s [? ?]|intros _].
  apply keeps_bind; [apply keeps_get|intros m]. intros s Hs. unfold close_session.
  assert (Hr : keeps quota_ok (call ;;; removeOwnedTree (mf_sessionKey m))) by keeps_auto.
  specialize (Hr s Hs). destruct ((call ;;; removeOwnedTree _) s) as [s1 [u|e]]; [by apply keeps_forget|].
  pose proof (keeps_forget (mf_sessionKey m) false s1 Hr) as Hf.
  by destruct (forget_session _ false s1) as [s2 [u|e']].
Qed.

Lemma keeps_quarantine key : keeps quota_ok (quarantine key).
Proof.
  unfold quarantine. apply keeps_bind; [apply keeps_get|intros t].
  apply keeps_bind; [apply keeps_call|intros _]. apply keeps_bind; [apply keeps_get|intros dirs].
  destruct (dirs !! key) as [d|]; [|apply keeps_throw]. apply keeps_put.
  intros s [Hd Hi]. split; [|done]. by apply map_Forall_delete.
Qed.

Lemma keeps_clean_quarantine cutoff entries : forall report,
  keeps quota_ok (clean_quarantine cutoff entries report).
Proof.
  induction entries as [|[t bytes] entries IH]; intros report; cbn [clean_quarantine]; [apply keeps_ret|].
  apply keeps_if; [apply keeps_bind; [apply IH|intros ?; apply keeps_ret]|].
  apply keeps_bind; [apply keeps_attempt; keeps_auto|intros [u|e]]; [apply IH|].
  apply keeps_bind; [apply IH|intros ?; apply keeps_ret].
Qed.

Lemma keeps_clean_record key : keeps quota_ok (clean_record key).
Proof.
  intros s Hs. unfold clean_record.
  match goal with |- context [bindM (session_bytes key) ?k s] =>
    assert (Hw : keeps quota_ok (bindM (session_bytes key) k)) end.
  { apply keeps_bind; [apply keeps_session_bytes|]. intros n x Hx.
    assert (Hr : keeps quota_ok (manifest_readable key)) by (unfold manifest_readable; keeps_auto).
    specialize (Hr x Hx). destruct (manifest_readable key x) as [x1 [u|e]].
    - assert (Hm : keeps quota_ok (call ;;; removeOwnedTree key ;;; retM (Removed n))) by keeps_auto.
      by apply Hm.
    - case_bool_decide; [done|].
      assert (Hq : keeps quota_ok (quarantine key ;;; retM Quarantined))
        by (apply keeps_bind; [apply keeps_quarantine|intros _; apply keeps_ret]).
      by apply Hq. }
  specialize (Hw s Hs). cbv zeta. by destruct (bindM (session_bytes key) _ s) as [s1 [o|e]].
Qed.

Lemma clean_records_spec parse_time cutoff records : forall sessions report s,
  index_ok limits sessions -> quota_ok s ->
  match clean_records parse_time cutoff records sessions report s with
  | (s', Ok (sessions', _)) => quota_ok s' /\ index_ok limits sessions'
  | (s', Throw _) => quota_ok s'
  end.
Proof.
  induction records as [|[key r] records IH]; intros sessions report s Hi Hs; [done|].
  cbn [clean_records]. unfold bindM.
  assert (Hc : keeps quota_ok (if expired parse_time cutoff r then clean_record key else retM Kept))
    by (apply keeps_if; [apply keeps_clean_record|apply keeps_ret]).
  specialize (Hc s Hs).
  match type of Hc with quota_ok (?m s).1 => destruct (m s) as [s1 [o|e]] end; [|done].
  apply IH; [|done]. destruct (stays o); [done|]. by apply index_ok_delete.
Qed.

Lemma keeps_cleanup_expired parse_time : keeps quota_ok (cleanupExpired limits parse_time).
Proof.
  apply keeps_with_lock. intros i s Hi Hs. unfold bindM at 1, now, getM. cbv zeta. unfold bindM at 1.
  pose proof (clean_records_spec parse_time (clock (st_calls s) - staleRetentionDays limits * 86400000)
    (map_to_list (ix_sessions i)) (ix_sessions i) (mkReport 0 0 0 0 0) s Hi Hs) as Hc.
  destruct (clean_records _ _ _ _ _ s) as [s1 [[ss rep]|e]]; [|done]. destruct Hc as [Hs1 Hss].
  unfold bindM at 1. pose proof (call_spec s1 Hs1) as Hs2. destruct (call s1) as [s2 [u|e]]; [|done].
  unfold bindM at 1, getM. unfold bindM at 1.
  pose proof (keeps_clean_quarantine (clock (st_calls s) - staleRetentionDays limits * 86400000)
    (st_quarantine s2) rep s2 Hs2) as Hq.
  destruct (clean_quarantine _ _ _ s2) as [s3 [[q rep']|e]]; [|done].
  split; [|done]. destruct Hq. by split.
Qed.

Lemma keeps_initialize parse_time : keeps quota_ok (initialize limits parse_time).
Proof. unfold initialize. apply keeps_bind; [apply keeps_call|intros _; apply keeps_cleanup_expired]. Qed.

(** ** Property *)

(** What the manager and its sessions do with the index. *)
Inductive step : state -> state -> Prop :=
  | step_create key uri name original s :
      step s (createSession limits instanceId key uri name original s).1
  | step_run op s : step s (run limits instanceId op s).1
  | step_close s : step s (close s).1
  | step_initialize parse_time s : step s (initialize limits parse_time s).1.

Lemma step_quota s s' : step s s' -> quota_ok s -> quota_ok s'.
Proof.
  destruct 1; intros Hs; [by apply keeps_create|by apply keeps_run|by apply keeps_close|
    by apply keeps_initialize].
Qed.
End Quota.

(** From an empty history root on, whatever is opened, captured, closed and
    cleaned up and whatever calls fail, the index never holds more for a
    session than the limit for one, nor more for all of them than the limit
    for all, reservations included. *)
Theorem timeline_quota_kept `{Environment} settings limits instanceId s s' i :
  (forall m, 0 <= manifest_size m) ->
  validateLimits settings = Ok limits ->
  st_index s = IndexMissing -> st_dirs s = ∅ ->
  rtc (step limits instanceId) s s' ->
  st_index s' = IndexFile i ->
  map_Forall (fun _ r => ir_byteLength r + ir_reservedBytes r <= maxBytesPerSession limits) (ix_sessions i) /\
  total (ix_sessions i) <= maxBytesTotal limits.
Proof.
  intros Hm Hlim Hs1 Hs2 Hrtc Hi.
  assert (Hlimits : 0 <= maxBytesPerSession limits <= maxBytesTotal limits).
  { unfold validateLimits, validBytes in Hlim. repeat case_match; simplify_eq; bool_prop; cbn; lia. }
  assert (Hq : quota_ok limits s).
  { split; [unfold dirs_ok; rewrite Hs2; apply map_Forall_empty|by rewrite Hs1]. }
  assert (Hend : quota_ok limits s').
  { clear Hi Hs1 Hs2. induction Hrtc as [|x y z Hxy _ IH]; [done|]. apply IH.
    by apply (step_quota limits instanceId Hm Hlimits x). }
  destruct Hend as [_ Hend]. rewrite Hi in Hend. destruct Hend as [_ Hses Htot]. done.
Qed.

(** A session that is created in an empty root. *)
Definition example_created : state :=
  (createSession (H := example_environment (fun _ => None) (fun _ => Throw ENOENT))
     CHECKPOINT_HISTORY_DEFAULTS (js "i") (js "k") (js "u") None (example_fingerprint "0a") example_start).1.

Definition example_index : CheckpointTimelineIndexV1 :=
  mkIndex (js "13000") {[ js "k" := mkIndexRecord (js "i") (js "3000") Active 100 0 ]}.

Lemma timeline_quota_kept_witness :
  st_index example_created = IndexFile example_index /\ total (ix_sessions example_index) <= 5368709120.
Proof.
  assert (Hi : st_index example_created = IndexFile example_index) by (vm_compute; reflexivity).
  split; [exact Hi|].
  apply (timeline_quota_kept (H := example_environment (fun _ => None) (fun _ => Throw ENOENT))
    (mkSettings None None None None) CHECKPOINT_HISTORY_DEFAULTS (js "i") example_start example_created);
    [|reflexivity|reflexivity|reflexivity| |exact Hi].
  - intros m. cbn. lia.
  - apply rtc_once. exact (step_create (H := example_environment (fun _ => None) (fun _ => Throw ENOENT))
      CHECKPOINT_HISTORY_DEFAULTS (js "i") (js "k") (js "u") None (example_fingerprint "0a") example_start).
Defined.
