(* ===== verification/TimelineInvariants.v ===== *)
(** * What a checkpoint timeline keeps on disk

    After every operation of a session, finished or failed at any call, the
    manifest on disk is the one the session works with, it would be accepted
    when it is read, and every interval it calls ready has its archive, which
    [openInterval] opens. *)

From S2P Require Import Prelude JsText JsValue ChangeLogCodec History TimelineManifest TimelineStorage TimelineLogic.

Open Scope jsm_scope.

(** ** Names of archives *)

Lemma decimal_value_zeros n s : decimal_value (repeat 48 n ++ s) = decimal_value s.
Proof. induction n as [|n IH]; [done|]. exact IH. Qed.

Lemma interval_name_inj c c' : 0 <= c -> 0 <= c' -> interval_name c = interval_name c' -> c = c'.
Proof.
  intros Hc Hc'. unfold interval_name. rewrite !app_assoc. intros [Heq _]%app_inj_2; [|done].
  destruct (decimal_string_spec c Hc) as [Hv _]. destruct (decimal_string_spec c' Hc') as [Hv' _].
  apply (f_equal decimal_value) in Heq. rewrite !decimal_value_zeros in Heq. congruence.
Qed.

Section Pure.
Context `{Environment}.

(** ** Manifests that are accepted *)

Definition parses (v : CheckpointTimelineManifestV1) : Prop :=
  exists p, parseManifest print_double v (mf_sessionKey v) = Ok p.

Lemma check_intervals_spec es : forall previous index ps,
  check_intervals print_double previous index es = Ok ps ->
  forall i e, es !! i = Some e ->
    iv_checkpoint e = Z.of_nat (index + i) + 1 /\ check_state print_double e = Ok tt.
Proof.
  induction es as [|e es IH]; intros previous index ps Hps i e' He; [done|]. cbn [check_intervals] in Hps.
  destruct (check_interval print_double previous index e) as [[previous' p]|x] eqn:Ec; [|done].
  cbn in Hps. destruct (check_intervals print_double previous' (S index) es) as [ps'|x] eqn:Er; [|done].
  destruct i as [|i]; cbn in He.
  - injection He as <-. unfold check_interval in Ec.
    destruct (negb (iv_checkpoint e =? _) || _) eqn:E; [done|].
    destruct (normalizeFingerprint print_double (as_raw (iv_before e))) as [f|x]; [|done]. cbn in Ec.
    destruct (normalizeFingerprint print_double (as_raw (iv_after e))) as [g|x]; [|done]. cbn in Ec.
    destruct (match iv_history e with Some _ => _ | None => _ end) as [h|x]; [|done]. cbn in Ec.
    destruct (negb (fingerprintsEqual _ _)); [done|]. destruct (negb (bool_decide _)); [done|].
    destruct (check_state print_double e) as [[]|x]; [|done]. bool_prop. split; [lia|done].
  - specialize (IH previous' (S index) ps' Er i e' He). by rewrite <- plus_n_Sm.
Qed.

Lemma parses_bounds v :
  parses v -> 0 <= mf_cursor v <= mf_tip v /\ mf_tip v = Z.of_nat (length (mf_intervals v)).
Proof.
  intros [p Hp]. unfold parseManifest in Hp. destruct (negb _); [done|].
  destruct ((_ <? _) || _ || _ || _) eqn:E; [done|]. bool_prop. lia.
Qed.

Lemma parses_interval v i e :
  parses v -> mf_intervals v !! i = Some e ->
  iv_checkpoint e = Z.of_nat i + 1 /\ check_state print_double e = Ok tt.
Proof.
  intros [p Hp] He. unfold parseManifest in Hp. destruct (negb _); [done|].
  destruct ((_ <? _) || _ || _ || _); [done|].
  destruct (normalizeFingerprint print_double (as_raw (mf_original v))) as [f|x]; [|done]. cbn in Hp.
  destruct (check_intervals print_double f 0 (mf_intervals v)) as [ps|x] eqn:Ec; [|done].
  by apply (check_intervals_spec _ _ _ _ Ec i).
Qed.

Lemma parses_archive v i e a :
  parses v -> mf_intervals v !! i = Some e -> iv_archive e = Some a ->
  iv_state e = Ready /\ interval_file (ar_file a) = true.
Proof.
  intros Hv He Ha. destruct (parses_interval v i e Hv He) as [_ Hs]. unfold check_state in Hs.
  rewrite Ha in Hs. destruct (iv_state e), (iv_error e); try done. split; [done|].
  by destruct (interval_file (ar_file a)).
Qed.

(** ** Ready intervals and the saved state *)

(** The archive of a ready interval is there and is what the entry says. *)
Definition ready_ok (files : gmap jsstring (list Z)) (e : CheckpointIntervalManifestEntryV1) : Prop :=
  iv_state e = Ready -> exists a content log,
    iv_archive e = Some a /\ ar_file a = interval_name (iv_checkpoint e) /\
    files !! ar_file a = Some content /\
    ar_byteLength a = decimal_string (Z.of_nat (length content)) /\
    open_log content = Ok log /\ lg_sha256 log = ar_sha256 a /\
    fingerprintsEqual (lg_before log) (iv_before e) = true /\
    fingerprintsEqual (lg_after log) (iv_after e) = true.

Definition ready (files : gmap jsstring (list Z)) (v : CheckpointTimelineManifestV1) : Prop :=
  Forall (ready_ok files) (mf_intervals v).

(** The fingerprint of a checkpoint; the original is checkpoint zero. *)
Definition fingerprint_at (v : CheckpointTimelineManifestV1) (c : Z)
  : option NormalizedTimelineFingerprint :=
  if c =? 0 then Some (mf_original v) else iv_after <$> interval_at v c.

(** The saved state is at a checkpoint of the timeline that has its
    fingerprint, or off the branch. *)
Definition saved_ok (v : CheckpointTimelineManifestV1) : Prop :=
  match sv_checkpoint (mf_saved v) with
  | None => sv_offBranch (mf_saved v) = true
  | Some c => sv_offBranch (mf_saved v) = false /\
      exists f, fingerprint_at v c = Some f /\ fingerprintsEqual f (sv_fingerprint (mf_saved v)) = true
  end.

Lemma ready_frame files files' v c :
  parses v -> mf_tip v < c -> ready files v ->
  (forall n, n <> interval_name c -> files' !! n = files !! n) -> ready files' v.
Proof.
  intros Hv Hc Hr Hf. apply Forall_lookup. intros i e He.
  destruct (parses_interval v i e Hv He) as [Hi _]. destruct (parses_bounds v Hv) as [_ Ht].
  apply lookup_lt_Some in He as Hlt.
  apply (proj1 (Forall_lookup _ _)) with (i := i) (x := e) in Hr; [|done].
  intros Hst. destruct (Hr Hst) as (a & content & log & Ha & Hn & Hin & Hrest).
  exists a, content, log. split; [done|]. split; [done|]. split; [|done]. rewrite <- Hin. apply Hf.
  rewrite Hn. intros Heq%interval_name_inj; lia.
Qed.

Lemma interval_at_nat v i : interval_at v (Z.of_nat i + 1) = mf_intervals v !! i.
Proof.
  unfold interval_at. replace (Z.of_nat i + 1 - 1) with (Z.of_nat i) by lia.
  destruct (Z.ltb_spec (Z.of_nat i) 0); [lia|]. by rewrite Nat2Z.id.
Qed.

Lemma interval_at_spec v c e :
  interval_at v c = Some e -> exists i, c = Z.of_nat i + 1 /\ mf_intervals v !! i = Some e.
Proof.
  unfold interval_at. destruct (Z.ltb_spec (c - 1) 0); [done|]. intros He.
  exists (Z.to_nat (c - 1)). split; [lia|done].
Qed.

Lemma fingerprintsEqual_sym f g : fingerprintsEqual f g = fingerprintsEqual g f.
Proof. unfold fingerprintsEqual. repeat (f_equal; [|apply bool_decide_ext; by split]). apply bool_decide_ext; by split. Qed.

(** A checkpoint keeps its fingerprint if its interval does. *)
Lemma fingerprint_at_mono v v' c f :
  mf_original v' = mf_original v ->
  (forall i e, c = Z.of_nat i + 1 -> mf_intervals v !! i = Some e ->
     exists e', mf_intervals v' !! i = Some e' /\ iv_after e' = iv_after e) ->
  fingerprint_at v c = Some f -> fingerprint_at v' c = Some f.
Proof.
  intros Ho Hi. unfold fingerprint_at. rewrite Ho. destruct (c =? 0); [done|].
  intros (e & (i & -> & He)%interval_at_spec & ->)%fmap_Some.
  destruct (Hi i e eq_refl He) as (e' & He' & <-). by rewrite interval_at_nat, He'.
Qed.

Lemma saved_append v t e :
  parses v -> saved_ok v -> iv_checkpoint e = mf_tip v + 1 -> saved_ok (append_interval v t e).
Proof.
  intros Hv Hs He. destruct (parses_bounds v Hv) as [_ Ht]. unfold saved_ok. cbn.
  destruct (fingerprintsEqual (iv_after e) _) eqn:Ef; cbn.
  - split; [done|]. exists (iv_after e). split; [|done]. unfold fingerprint_at.
    destruct (Z.eqb_spec (iv_checkpoint e) 0); [lia|].
    rewrite He, Ht, interval_at_nat. cbn. by rewrite lookup_app_r, Nat.sub_diag by lia.
  - unfold saved_ok in Hs. destruct (sv_checkpoint (mf_saved v)) as [c|]; [|done].
    destruct Hs as [Hs1 (f & Hf & Hs2)]. split; [done|]. exists f. split; [|done].
    revert Hf. apply fingerprint_at_mono; [done|]. intros i e' -> He'. exists e'. split; [|done].
    by apply lookup_app_l_Some.
Qed.

Lemma saved_truncate v t c :
  0 <= c -> saved_ok v ->
  saved_ok (with_updated v t (saved_before c (mf_saved v)) c c (mf_nextGeneration v + 1)
    (take (Z.to_nat c) (mf_intervals v))).
Proof.
  intros Hc Hs. unfold saved_ok, saved_before in *. cbn.
  destruct (sv_checkpoint (mf_saved v)) as [c'|]; [|done]. destruct (Z.leb_spec c' c); [|done]. cbn.
  destruct Hs as [Hs1 (f & Hf & Hs2)]. split; [done|]. exists f. split; [|done].
  revert Hf. apply fingerprint_at_mono; [done|]. intros i e -> He. exists e. split; [|done].
  cbn. rewrite lookup_take_lt by lia. done.
Qed.

Lemma saved_found v t f :
  parses v ->
  saved_ok (with_updated v t
    (mkSaved f (find_checkpoint v f) (match find_checkpoint v f with None => true | Some _ => false end))
    (mf_cursor v) (mf_tip v) (mf_nextGeneration v) (mf_intervals v)).
Proof.
  intros Hv. unfold saved_ok, find_checkpoint. cbn.
  destruct (fingerprintsEqual f (mf_original v)) eqn:Eo.
  - split; [done|]. exists (mf_original v). split; [done|]. by rewrite fingerprintsEqual_sym.
  - destruct (find _ (mf_intervals v)) as [e|] eqn:Ef; [|done]. cbn. split; [done|].
    apply find_some in Ef as [Hin He]. apply list_elem_of_In, list_elem_of_lookup_1 in Hin as [i Hi].
    destruct (parses_interval v i e Hv Hi) as [-> _]. exists (iv_after e).
    split; [|by rewrite fingerprintsEqual_sym]. unfold fingerprint_at.
    destruct (Z.eqb_spec (Z.of_nat i + 1) 0); [lia|].
    replace (with_updated _ _ _ _ _ _ _) with (with_updated v t (mkSaved f (Some (Z.of_nat i + 1)) false)
      (mf_cursor v) (mf_tip v) (mf_nextGeneration v) (mf_intervals v)) by done.
    rewrite interval_at_nat. cbn. by rewrite Hi.
Qed.

(** Marking an entry changes neither what it ends in nor, for the others,
    anything. *)
Lemma marked_lookup v entry checkpoint code message i e' :
  parses v -> interval_at v checkpoint = Some entry ->
  map (fun e => if iv_checkpoint e =? checkpoint then mark_unavailable code message entry else e)
    (mf_intervals v) !! i = Some e' ->
  exists e, mf_intervals v !! i = Some e /\ (e' = e \/ e' = mark_unavailable code message e).
Proof.
  intros Hv (j & -> & Hj)%interval_at_spec Hi.
  apply list_lookup_fmap_Some in Hi as (e & -> & He). exists e. split; [done|].
  destruct (Z.eqb_spec (iv_checkpoint e) (Z.of_nat j + 1)) as [Heq|]; [right|by left].
  destruct (parses_interval v i e Hv He) as [Hc _]. assert (i = j) as -> by lia. by simplify_eq.
Qed.
End Pure.

(** ** Assertions on the open session *)

Section Ops.
Context `{Environment} (limits : CheckpointHistoryLimits) (instanceId : jsstring).

(** The directory of a session exists and [F] holds of it and of the manifest
    in memory; the session in memory is closed or not. *)
Definition at_dir (closed : bool) (k : jsstring) (F : session_dir -> CheckpointTimelineManifestV1 -> Prop)
  (s : state) : Prop :=
  st_closed s = closed /\ exists d, st_dirs s !! k = Some d /\ F d (st_value s).

Definition on : jsstring -> (session_dir -> CheckpointTimelineManifestV1 -> Prop) -> state -> Prop :=
  at_dir false.

Lemma at_about c k F : about_files (at_dir c k F).
Proof. intros s s' Hd Hv Hc (Hcl & d & Hk & HF). split; [congruence|]. exists d. by rewrite Hd, Hv. Qed.

Lemma on_about k F : about_files (on k F).
Proof. apply at_about. Qed.

Lemma on_mono k (F G : session_dir -> CheckpointTimelineManifestV1 -> Prop) :
  (forall d v, F d v -> G d v) -> forall s, on k F s -> on k G s.
Proof. intros HFG s (Hc & d & Hk & HF). split; [done|]. exists d. auto. Qed.

Lemma triple_dir_call c k (F G : session_dir -> CheckpointTimelineManifestV1 -> Prop) work :
  (forall d v d', F d v -> work d = Ok d' -> G d' v) ->
  triple (at_dir c k F) (dir_call k work) (fun _ => at_dir c k G) (at_dir c k F).
Proof.
  intros Hw s Hs. unfold dir_call, bindM.
  pose proof (files_call (at_dir c k F) (at_about c k F) s Hs) as (Hc & d & Hk & HF).
  destruct (call s) as [s1 [u|e]]; [|by repeat (split || exists d)]. cbn in *. rewrite Hk.
  destruct (work d) as [d'|e] eqn:Ew.
  - split; [done|]. exists d'. cbn. rewrite lookup_insert_eq. split; [done|]. by apply (Hw d).
  - split; [done|]. by exists d.
Qed.

(** Calls on the directory whose outcome does not matter. *)
Lemma keeps_dir_call_at c k (F : session_dir -> CheckpointTimelineManifestV1 -> Prop) work :
  (forall d v d', F d v -> work d = Ok d' -> F d' v) -> keeps (at_dir c k F) (dir_call k work).
Proof. intros Hw. eapply triple_keeps_end; [by apply triple_dir_call|by intros ? s|done]. Qed.

Lemma keeps_dir_call_on k (F : session_dir -> CheckpointTimelineManifestV1 -> Prop) work :
  (forall d v d', F d v -> work d = Ok d' -> F d' v) -> keeps (on k F) (dir_call k work).
Proof. apply keeps_dir_call_at. Qed.

(** ** Stepping through an operation *)

Lemma step_keeps {A B} P (m : M state A) (f : A -> M state B) Q (E : state -> Prop) :
  keeps P m -> (forall s, P s -> E s) -> (forall a, triple P (f a) Q E) -> triple P (bindM m f) Q E.
Proof. intros Hm HE Hf. eapply triple_bind; [by apply triple_keeps|done]. Qed.

Lemma step_get {A B} P (g : state -> A) (f : A -> M state B) Q E :
  (forall x, triple P (f x) Q E) -> triple P (bindM (getM g) f) Q E.
Proof. intros Hf s Hs. by apply Hf. Qed.

Lemma step_lift {A B} P (r : result A) (f : A -> M state B) Q (E : state -> Prop) :
  (forall s, P s -> E s) -> (forall x, r = Ok x -> triple P (f x) Q E) ->
  triple P (bindM (liftM r) f) Q E.
Proof. intros HE Hf s Hs. unfold bindM, liftM. destruct r as [x|e]; [by apply Hf|by apply HE]. Qed.

Lemma step_if {A} P (b : bool) (m m' : M state A) Q E :
  (b = true -> triple P m Q E) -> (b = false -> triple P m' Q E) ->
  triple P (if b then m else m') Q E.
Proof. destruct b; auto. Qed.

Lemma step_value {B} k F (f : CheckpointTimelineManifestV1 -> M state B) Q E :
  (forall v0, triple (on k (fun d v => v = v0 /\ F d v)) (f v0) Q E) ->
  triple (on k F) (bindM (getM st_value) f) Q E.
Proof.
  intros Hf s (Hc & d & Hk & HF). unfold bindM, getM. apply Hf. split; [done|]. by exists d.
Qed.

Lemma step_value_known {B} k (F : session_dir -> CheckpointTimelineManifestV1 -> Prop) v0
  (f : CheckpointTimelineManifestV1 -> M state B) Q E :
  (forall d v, F d v -> v = v0) -> triple (on k F) (f v0) Q E ->
  triple (on k F) (bindM (getM st_value) f) Q E.
Proof.
  intros HF Hf s Hs. pose proof Hs as (_ & d & _ & Hd). unfold bindM, getM. rewrite (HF d _ Hd).
  by apply Hf.
Qed.

Lemma step_open {B} k F (m : M state B) Q E :
  triple (on k F) m Q E -> triple (on k F) (assertOpen ;;; m) Q E.
Proof. intros Hm s Hs. pose proof Hs as [Hc _]. unfold assertOpen, bindM, getM. rewrite Hc. by apply Hm. Qed.

Definition ignores_debris (F : session_dir -> CheckpointTimelineManifestV1 -> Prop) : Prop :=
  forall d v n, F d v -> F (add_debris n d) v.

(** The manifest is replaced as a whole, or it is as it was. *)
Lemma commit_spec closed k (F : session_dir -> CheckpointTimelineManifestV1 -> Prop) c :
  mf_sessionKey c = k -> ignores_debris F ->
  triple (at_dir closed k F) (commitManifest c)
    (fun _ s => parses c /\
       at_dir closed k (fun d v => exists d0, d = set_manifest (ManifestFile c) d0 /\ F d0 v) s)
    (at_dir closed k F).
Proof.
  intros Hk Hd. unfold commitManifest. rewrite Hk.
  set (G := fun (d : session_dir) v => exists d0, d = set_manifest (ManifestFile c) d0 /\ F d0 v).
  assert (Ha : triple (at_dir closed k F) (atomic_manifest k c) (fun _ => at_dir closed k G)
    (at_dir closed k F)).
  { unfold atomic_manifest. pose proof (fun F => files_call (at_dir closed k F) (at_about closed k F)) as Hcall.
    apply step_keeps; [apply Hcall|done|]. intros _ s Hs.
    assert (Hw : triple (at_dir closed k F) (call ;;; call ;;;
      dir_call k (fun d => Ok (set_manifest (ManifestFile c) d))) (fun _ => at_dir closed k G)
      (at_dir closed k F)).
    { do 2 (apply step_keeps; [apply Hcall|done|intros _]). apply triple_dir_call.
      intros d v d' HF [= <-]. by exists d. }
    specialize (Hw s Hs). destruct ((call ;;; call ;;; _) s) as [s1 [u|e]].
    - by apply keeps_ignore; [apply Hcall|].
    - pose proof (Hcall F s1 Hw) as Hc. destruct (call s1) as [s2 [u|e']]; [done|].
      apply keeps_ignore; [|done]. apply keeps_dir_call_at. intros d v d' HF [= <-]. by apply Hd. }
  intros s Hs. unfold bindM, liftM.
  destruct (parseManifest print_double c k) as [p|e] eqn:Ep; [|done].
  specialize (Ha s Hs). destruct (atomic_manifest k c s) as [s1 [u|e]]; [|done].
  split; [|done]. exists p. by rewrite Hk.
Qed.

Lemma step_commit {B} k (F : session_dir -> CheckpointTimelineManifestV1 -> Prop) c (m : M state B) Q
  (E : state -> Prop) :
  mf_sessionKey c = k -> ignores_debris F -> (forall s, on k F s -> E s) ->
  (parses c -> triple (on k (fun d v => exists d0, d = set_manifest (ManifestFile c) d0 /\ F d0 v)) m Q E) ->
  triple (on k F) (commitManifest c ;;; m) Q E.
Proof.
  intros Hk Hd HE Hm. eapply triple_bind.
  - eapply triple_conseq; [by apply (commit_spec false)|done|done|done].
  - intros []. by apply triple_pure.
Qed.

Lemma step_set_value {B} k (F G : session_dir -> CheckpointTimelineManifestV1 -> Prop) c (m : M state B) Q E :
  (forall d v, F d v -> G d c) -> triple (on k G) m Q E ->
  triple (on k F) (putM (set_value c) ;;; m) Q E.
Proof.
  intros HFG Hm s (Hc & d & Hk & HF). apply Hm. split; [done|]. exists d. split; [done|].
  by apply (HFG d (st_value s)).
Qed.

Lemma end_set_value k (F G : session_dir -> CheckpointTimelineManifestV1 -> Prop) c E :
  (forall d v, F d v -> G d c) -> triple (on k F) (putM (set_value c)) (fun _ => on k G) E.
Proof.
  intros HFG s (Hc & d & Hk & HF). split; [done|]. exists d. split; [done|]. by apply (HFG d (st_value s)).
Qed.

(** ** The invariant and the operations that only write the manifest *)

Definition good (k : jsstring) (d : session_dir) (v : CheckpointTimelineManifestV1) : Prop :=
  mf_sessionKey v = k /\ dir_manifest d = ManifestFile v /\ parses v /\ ready (dir_intervals d) v /\
  saved_ok v.

(** The state in which an operation works: nothing has changed. *)
Definition still (k : jsstring) (v0 : CheckpointTimelineManifestV1) (d : session_dir)
  (v : CheckpointTimelineManifestV1) : Prop := v = v0 /\ good k d v.

Lemma still_good k v0 s : on k (still k v0) s -> on k (good k) s.
Proof. apply on_mono. by intros d v [_ Hg]. Qed.

Lemma still_debris k v0 : ignores_debris (still k v0).
Proof. by intros d v n Hs. Qed.

(** A manifest that may follow another. *)
Definition follows (v0 c : CheckpointTimelineManifestV1) : Prop :=
  mf_sessionKey c = mf_sessionKey v0 /\
  (parses v0 -> saved_ok v0 -> saved_ok c) /\
  (forall files, parses v0 -> ready files v0 -> ready files c).

Lemma good_follows k v0 c d :
  follows v0 c -> good k d v0 -> parses c -> good k (set_manifest (ManifestFile c) d) c.
Proof.
  intros (Hk & Hs & Hr) (Hk0 & Hm & Hp & Hrd & Hsv) Hc. split; [congruence|]. split; [done|].
  split; [done|]. split; [|by apply Hs]. by apply Hr.
Qed.

Lemma step_follow {B} k v0 c (m : M state B) Q :
  mf_sessionKey v0 = k -> follows v0 c ->
  triple (on k (still k c)) m Q (on k (good k)) ->
  triple (on k (still k v0)) (commitManifest c ;;; putM (set_value c) ;;; m) Q (on k (good k)).
Proof.
  intros Hk Hf Hm. apply step_commit; [by rewrite (proj1 Hf)|apply still_debris|apply still_good|].
  intros Hc. eapply step_set_value; [|exact Hm].
  intros d v (d0 & -> & -> & Hg). split; [done|]. by apply (good_follows k v0).
Qed.

Lemma end_follow k v0 c :
  mf_sessionKey v0 = k -> follows v0 c ->
  triple (on k (still k v0)) (commitManifest c ;;; putM (set_value c)) (fun _ => on k (good k)) (on k (good k)).
Proof.
  intros Hk Hf. apply step_commit; [by rewrite (proj1 Hf)|apply still_debris|apply still_good|].
  intros Hc. apply end_set_value.
  intros d v (d0 & -> & -> & Hg). by apply (good_follows k v0).
Qed.

Lemma still_call k v0 : keeps (on k (still k v0)) call.
Proof. apply files_call, on_about. Qed.

(** Archives are named after their checkpoints. *)
Definition named (v : CheckpointTimelineManifestV1) : Prop :=
  forall i e a, mf_intervals v !! i = Some e -> iv_archive e = Some a ->
    ar_file a = interval_name (Z.of_nat i + 1).

Lemma good_named k d v : good k d v -> named v.
Proof.
  intros (_ & _ & Hp & Hr & _) i e a He Ha. destruct (parses_archive v i e a Hp He Ha) as [Hs _].
  destruct (proj1 (Forall_lookup _ _) Hr i e He Hs) as (a' & content & log & Ha' & Hn & _).
  simplify_eq. rewrite Hn. f_equal. apply (parses_interval v i e Hp He).
Qed.

(** An operation starts with the manifest in memory. *)
Lemma start_op {B} k (f : CheckpointTimelineManifestV1 -> M state B) :
  (forall v0, mf_sessionKey v0 = k -> parses v0 -> named v0 ->
     triple (on k (still k v0)) (f v0) (fun _ => on k (good k)) (on k (good k))) ->
  keeps (on k (good k)) (assertOpen ;;; let* m := getM st_value in f m).
Proof.
  intros Hf. apply (triple_keeps_end _ _ (fun _ => on k (good k)) (on k (good k))); [|done|done].
  apply step_open, step_value. intros v0 s Hs.
  pose proof Hs as (_ & d & _ & Hst & Hg). rewrite Hst in *. pose proof Hg as (Hk & _ & Hp & _).
  pose proof (good_named k d v0 Hg). by apply Hf.
Qed.

Lemma throw_still {A} k v0 e (Q : A -> state -> Prop) :
  triple (on k (still k v0)) (throwM e) Q (on k (good k)).
Proof. apply triple_throw, still_good. Qed.

Lemma ret_still {A} k v0 (a : A) :
  triple (on k (still k v0)) (retM a) (fun _ => on k (good k)) (on k (good k)).
Proof. intros s Hs. by apply still_good in Hs. Qed.

(** ** The operations *)

Lemma follows_cursor v0 t c :
  follows v0 (with_updated v0 t (mf_saved v0) c (mf_tip v0) (mf_nextGeneration v0) (mf_intervals v0)).
Proof. split; [done|]. by split. Qed.

Lemma good_set_cursor k cursor : keeps (on k (good k)) (setCursor cursor).
Proof.
  apply start_op. intros v0 Hk Hp Hnm. destruct (valid_cursor v0 cursor) as [c|]; [|apply throw_still].
  apply step_get. intros t. apply step_keeps; [apply still_call|apply still_good|intros _].
  by apply end_follow; [|apply follows_cursor].
Qed.

Lemma good_set_saved k f : keeps (on k (good k)) (setSavedFingerprint f).
Proof.
  apply start_op. intros v0 Hk Hp Hnm. apply step_lift; [apply still_good|intros g _].
  apply step_get. intros t. apply step_keeps; [apply still_call|apply still_good|intros _].
  apply end_follow; [done|]. split; [done|]. split; [|done]. intros _ _. by apply saved_found.
Qed.

Lemma follows_append v0 t e :
  iv_checkpoint e = mf_tip v0 + 1 -> iv_state e = Unavailable -> follows v0 (append_interval v0 t e).
Proof.
  intros He Hs. split; [done|]. split; [by intros; apply saved_append|]. intros files _ Hr.
  apply Forall_app. split; [done|]. apply Forall_singleton. intros Hst. congruence.
Qed.

Lemma still_next k v0 before :
  triple (on k (still k v0)) (next_interval before) (fun _ => on k (still k v0)) (on k (good k)).
Proof.
  apply triple_keeps; [|apply still_good]. unfold next_interval. keeps_auto.
Qed.

Lemma good_record k o code message : keeps (on k (good k)) (recordUnavailable limits o code message).
Proof.
  apply start_op. intros v0 Hk Hp Hnm. apply step_if; intros Hc; [apply throw_still|]. bool_prop.
  apply step_lift; [apply still_good|intros before _].
  apply step_lift; [apply still_good|intros after _].
  eapply triple_bind; [apply still_next|intros []].
  apply step_lift; [apply still_good|intros count _]. apply step_get. intros t.
  apply step_lift; [apply still_good|intros h _]. cbv zeta. apply step_get. intros t'.
  apply step_follow; [done|apply follows_append; [cbn; lia|done]|].
  apply step_keeps; [apply files_reconcile, on_about|apply still_good|intros _]. apply ret_still.
Qed.

Lemma follows_mark v0 entry checkpoint code message t :
  interval_at v0 checkpoint = Some entry ->
  follows v0 (with_updated v0 t (mf_saved v0) (mf_cursor v0) (mf_tip v0) (mf_nextGeneration v0)
    (map (fun e => if iv_checkpoint e =? checkpoint then mark_unavailable code message entry else e)
       (mf_intervals v0))).
Proof.
  intros He. split; [done|]. split.
  - intros Hp Hs. unfold saved_ok in *. cbn. destruct (sv_checkpoint (mf_saved v0)) as [c|]; [|done].
    destruct Hs as [Hs1 (f & Hf & Hs2)]. split; [done|]. exists f. split; [|done].
    revert Hf. apply fingerprint_at_mono; [done|]. intros i e -> Hi. cbn.
    destruct (map _ (mf_intervals v0) !! i) as [e'|] eqn:Ei.
    + exists e'. split; [done|].
      destruct (marked_lookup v0 entry checkpoint code message i e' Hp He Ei) as (e0 & He0 & Hor).
      simplify_eq. by destruct Hor as [->| ->].
    + apply lookup_ge_None in Ei. rewrite length_map in Ei. apply lookup_lt_Some in Hi. lia.
  - intros files Hp Hr. apply Forall_lookup. cbn. intros i e' Hi.
    destruct (marked_lookup v0 entry checkpoint code message i e' Hp He Hi) as (e & Hie & [->| ->]); [|done].
    by apply (proj1 (Forall_lookup _ _) Hr i).
Qed.

Lemma good_mark k checkpoint code message :
  keeps (on k (good k)) (markIntervalUnavailable checkpoint code message).
Proof.
  apply start_op. intros v0 Hk Hp Hnm. destruct (interval_at v0 checkpoint) as [entry|] eqn:Ei; [|apply throw_still].
  apply step_if; intros Hc; [apply throw_still|]. apply step_get. intros t. cbv zeta.
  apply step_keeps; [apply still_call|apply still_good|intros _].
  apply step_follow; [done|by apply follows_mark|]. apply ret_still.
Qed.

Lemma good_heartbeat k force : keeps (on k (good k)) (heartbeat limits force).
Proof.
  unfold heartbeat, assertOpen, now. pose proof (files_call _ (on_about k (good k))).
  pose proof (files_reconcile limits _ (on_about k (good k))).
  repeat (keeps_step || (apply keeps_put; intros ?; by apply on_about)).
Qed.

Lemma good_open k checkpoint : keeps (on k (good k)) (openInterval checkpoint).
Proof. unfold openInterval, assertOpen. pose proof (files_call _ (on_about k (good k))). keeps_auto. Qed.

(** Files that no entry names may go. *)
Lemma still_remove k v0 c :
  mf_tip v0 < c -> keeps (on k (still k v0)) (dir_call k (remove_interval (interval_name c))).
Proof.
  intros Hc. apply keeps_dir_call_on. intros d v d' (-> & Hk & Hm & Hp & Hr & Hs) [= <-].
  split; [done|]. repeat (split; [done|]). split; [|done].
  apply (ready_frame (dir_intervals d) _ v0 c); [done|done|done|]. intros n Hn. cbn.
  by rewrite lookup_delete_ne.
Qed.

Lemma still_remove_files k v0 files :
  Forall (fun f => exists c, f = interval_name c /\ mf_tip v0 < c) files ->
  keeps (on k (still k v0)) (remove_files k files).
Proof.
  induction 1 as [|f files (c & -> & Hc) _ IH]; [apply keeps_ret|]. cbn [remove_files].
  apply keeps_bind; [|done]. by apply keeps_ignore, still_remove.
Qed.

Lemma good_truncate k cursor : keeps (on k (good k)) (truncateFuture limits cursor).
Proof.
  apply start_op. intros v0 Hk Hp Hnm. unfold valid_cursor.
  destruct cursor as [c| | |]; try apply throw_still.
  destruct ((c <? 0) || (mf_tip v0 <? c)) eqn:Ec; [apply throw_still|]. bool_prop.
  apply step_get. intros t. cbv zeta. apply step_keeps; [apply still_call|apply still_good|intros _].
  apply step_follow; [done| |].
  - split; [done|]. split; [intros _ Hs; apply saved_truncate; [lia|done]|].
    intros files _ Hr. by apply Forall_take.
  - apply step_keeps; [rewrite Hk; apply still_remove_files|apply still_good|intros _].
    + apply Forall_forall. intros f Hf. apply list_elem_of_omap in Hf as (e & He & Hfe).
      apply list_elem_of_lookup_1 in He as [i Hi]. rewrite lookup_drop in Hi.
      apply fmap_Some in Hfe as (a & Ha & ->). exists (Z.of_nat (Z.to_nat c + i) + 1).
      split; [by apply (Hnm _ e)|]. cbn. lia.
    + apply step_keeps; [apply files_reconcile, on_about|apply still_good|intros _]. apply ret_still.
Qed.

(** ** Capturing *)

Section Capture.
Context (Hlength : forall content log,
  open_log content = Ok log -> lg_byteLength log = Z.of_nat (length content)).
Context (k : jsstring) (v0 : CheckpointTimelineManifestV1) (files : gmap jsstring (list Z)) (final : jsstring).

(** While an archive is made, only its own name among the archives may
    change. *)
Definition working (d : session_dir) (v : CheckpointTimelineManifestV1) : Prop :=
  v = v0 /\ dir_manifest d = ManifestFile v0 /\
  (forall n, n <> final -> dir_intervals d !! n = files !! n).

Definition with_temp (name : jsstring) (content : list Z) (d : session_dir)
  (v : CheckpointTimelineManifestV1) : Prop := working d v /\ dir_temp d !! name = Some content.

Definition with_final (content : list Z) (d : session_dir) (v : CheckpointTimelineManifestV1) : Prop :=
  working d v /\ dir_intervals d !! final = Some content.

(** What a candidate that is validated is. *)
Definition candidate_ok (before after : NormalizedTimelineFingerprint) (content : list Z)
  (log : log_summary) : Prop :=
  open_log content = Ok log /\ fingerprintsEqual (lg_before log) before = true /\
  fingerprintsEqual (lg_after log) after = true.

(** Where the files that won are. *)
Definition chosen (before after : NormalizedTimelineFingerprint) (raw opt : jsstring)
  (log : log_summary) (optimized : option log_summary) (d : session_dir)
  (v : CheckpointTimelineManifestV1) : Prop :=
  working d v /\ exists content,
    dir_temp d !! (match optimized with Some _ => opt | None => raw end) = Some content /\
    candidate_ok before after content (default log optimized).

Lemma working_of F : (forall d v, F d v -> working d v) -> forall s, on k F s -> on k working s.
Proof. apply on_mono. Qed.

Lemma on_call F : keeps (on k F) call.
Proof. apply files_call, on_about. Qed.

Lemma run_writer_spec F name w baseline :
  (forall d v t, F d v -> F (set_temp (<[name := t]> (dir_temp d)) d) v) ->
  triple (on k F) (run_writer limits instanceId k name w baseline)
    (fun _ => on k (fun d v => F d v /\ dir_temp d !! name = Some (wr_content w))) (on k F).
Proof.
  intros HF. unfold run_writer. eapply triple_bind.
  - apply triple_dir_call with (G := fun d v => F d v /\ dir_temp d !! name = Some (wr_content w)).
    intros d v d' Hd [= <-]. split; [by apply HF|]. cbn. by rewrite lookup_insert_eq.
  - intros []. assert (Hm : forall s, on k (fun d v => F d v /\ dir_temp d !! name = Some (wr_content w)) s ->
      on k F s) by (apply on_mono; by intros d v [? _]).
    apply step_keeps; [|done|intros _].
    + apply files_for_reports. intros r. apply files_extend, on_about.
    + intros s Hs. unfold liftM. destruct (wr_outcome w); [done|by apply Hm].
Qed.

Lemma validate_spec F name content before after count :
  (forall d v, F d v -> dir_temp d !! name = Some content) ->
  triple (on k F) (validateCandidate k name before after count)
    (fun log s => candidate_ok before after content log /\ on k F s) (on k F).
Proof.
  intros HF. unfold validateCandidate. apply step_keeps; [apply on_call|done|intros _].
  intros s Hs. unfold bindM at 1, getM. pose proof Hs as (Hc & d & Hk & Hd). rewrite Hk. cbn.
  rewrite (HF d _ Hd). cbn. revert s Hs Hc Hk Hd. intros s Hs _ _ _.
  apply (step_lift (on k F)); [done| |done]. intros log Hlog.
  apply step_if; intros Hb; [by apply triple_throw|]. bool_prop.
  apply step_lift; [done|]. intros expected _. apply step_if; intros He; [by apply triple_throw|].
  intros s' Hs'. split; [by repeat split|done].
Qed.

Lemma optimized_spec raw opt o rc before after log :
  raw <> opt -> candidate_ok before after rc log ->
  triple (on k (with_temp raw rc)) (try_optimized limits instanceId k opt o before after log)
    (fun r => on k (chosen before after raw opt log r)) (on k working).
Proof.
  intros Hne Hlog. set (F := with_temp raw rc).
  assert (Hraw : forall s, on k F s -> on k (chosen before after raw opt log None) s).
  { apply on_mono. intros d v [Hw Ht]. split; [done|]. by exists rc. }
  unfold try_optimized. destruct (co_writeOptimized o) as [writeOptimized|]; [|by intros s; apply Hraw].
  apply step_if; intros _; [by intros s; apply Hraw|].
  match goal with |- context [attempt ?m] => set (body := m) end.
  assert (Hb : triple (on k F) body (fun r => on k (chosen before after raw opt log r)) (on k F)).
  { unfold body. apply step_keeps; [apply files_session_bytes, on_about|done|intros baseline].
    apply step_keeps; [apply files_reserve, on_about|done|intros maxBytes].
    apply step_keeps; [apply on_call|done|intros _]. eapply triple_bind.
    { apply run_writer_spec. intros d v t [Hw Ht]. split; [done|]. cbn. by rewrite lookup_insert_ne. }
    intros []. set (G := fun d v => F d v /\ dir_temp d !! opt = Some (wr_content (writeOptimized maxBytes))).
    assert (HG : forall s, on k G s -> on k F s) by (apply on_mono; by intros d v [? _]).
    apply step_keeps; [apply on_call|done|intros _]. eapply triple_bind.
    { eapply triple_conseq; [apply (validate_spec G); by intros d v [_ ?]|done|done|done]. }
    intros opened. apply triple_pure. intros Hopen. apply step_keeps; [apply on_call|done|intros _].
    destruct (_ <=? _); intros s Hs; [by apply Hraw, HG|]. revert s Hs. apply on_mono.
    intros d v [[Hw Ht] Ho]. split; [done|]. eexists. by split. }
  intros s Hs. specialize (Hb s Hs). unfold bindM, attempt, retM. cbn.
  destruct (body s) as [s1 [r|e]]; [exact Hb|by apply Hraw].
Qed.

(** The directory the capture started from. *)
Hypothesis (Hkey : mf_sessionKey v0 = k) (Hparses : parses v0) (Hready : ready files v0)
  (Hsaved : saved_ok v0).

Lemma working_good checkpoint d v :
  final = interval_name checkpoint -> mf_tip v0 < checkpoint -> working d v -> good k d v.
Proof.
  intros Hf Hc (-> & Hm & Hn). split; [done|]. split; [done|]. split; [done|]. split; [|done].
  apply (ready_frame files _ v0 checkpoint); [done|done|done|]. by rewrite <- Hf.
Qed.

(** The manifest with the new entry, and its archive in place. *)
Lemma appended_good content log before after d t e a :
  final = interval_name (iv_checkpoint e) -> iv_checkpoint e = mf_tip v0 + 1 ->
  iv_before e = before -> iv_after e = after ->
  with_final content d v0 -> candidate_ok before after content log ->
  iv_archive e = Some a -> ar_file a = final -> ar_byteLength a = decimal_string (lg_byteLength log) ->
  ar_sha256 a = lg_sha256 log ->
  parses (append_interval v0 t e) ->
  good k (set_manifest (ManifestFile (append_interval v0 t e)) d) (append_interval v0 t e).
Proof.
  intros Hf Hc <- <- [(_ & Hm & Hn) Hin] (Hopen & Hb & Haf) Ha Hfile Hlen Hsha Hp.
  split; [done|]. split; [done|]. split; [done|]. split; [|by apply saved_append].
  apply Forall_app. split.
  - apply (ready_frame files _ v0 (iv_checkpoint e)); [done|lia|done|]. cbn. by rewrite <- Hf.
  - apply Forall_singleton. intros _. exists a, content, log. cbn. rewrite Hfile.
    split; [done|]. split; [done|]. split; [done|].
    split; [by rewrite Hlen, (Hlength content)|]. by repeat split.
Qed.

Lemma move_spec before after raw opt log optimized :
  triple (on k (chosen before after raw opt log optimized))
    (dir_call k (move_winner (match optimized with Some _ => opt | None => raw end) final))
    (fun _ => on k (fun d v => exists content,
       with_final content d v /\ candidate_ok before after content (default log optimized)))
    (on k (chosen before after raw opt log optimized)).
Proof.
  apply triple_dir_call. intros d v d' [(Hv & Hm & Hn) (content & Ht & Hok)] Hmove.
  unfold move_winner in Hmove. rewrite Ht in Hmove. injection Hmove as <-. exists content.
  split; [|done]. split; [|cbn; by rewrite lookup_insert_eq]. split; [done|]. split; [done|].
  intros n Hne. cbn. rewrite lookup_insert_ne by done. by apply Hn.
Qed.

Lemma capture_body_spec raw opt o before after current max :
  raw <> opt -> final = interval_name (co_checkpoint o) -> co_checkpoint o = mf_tip v0 + 1 ->
  triple (on k working) (capture_body limits instanceId k raw opt o before after current max)
    (fun _ => on k (good k)) (on k working).
Proof.
  intros Hne Hfinal Hcp. unfold capture_body. cbv zeta. rewrite <- Hfinal.
  do 3 (apply step_keeps; [apply on_call|done|intros _]).
  eapply triple_bind; [apply (run_writer_spec working); by intros d v t Hw|intros []].
  set (content := wr_content (co_writeRaw o max)).
  change (fun d v => _ /\ _) with (with_temp raw content).
  assert (HT : forall s, on k (with_temp raw content) s -> on k working s)
    by (apply working_of; by intros d v [? _]).
  apply step_keeps; [apply on_call|done|intros _]. eapply triple_bind.
  { eapply triple_conseq; [apply (validate_spec (with_temp raw content)); by intros d v [_ ?]|done|done|done]. }
  intros log. apply triple_pure. intros Hlog. apply step_keeps; [apply on_call|done|intros _].
  eapply triple_bind; [by apply (optimized_spec raw opt)|intros optimized]. cbv beta.
  assert (HC : forall s, on k (chosen before after raw opt log optimized) s -> on k working s)
    by (apply working_of; by intros d v [? _]).
  destruct (match optimized with Some _ => _ | None => _ end) as [winner loser] eqn:Ewl.
  assert (Hwinner : winner = match optimized with Some _ => opt | None => raw end)
    by (destruct optimized; congruence).
  apply (step_value_known _ _ v0); [by intros d v [(? & _) _]|].
  apply step_if; intros _; [by apply triple_throw|]. apply step_keeps; [apply on_call|done|intros _].
  eapply triple_bind; [rewrite Hwinner; eapply triple_conseq; [apply (move_spec before after raw opt log optimized)|done|done|exact HC]|intros []].
  set (F := fun d v => exists content, _).
  assert (HF : forall s, on k F s -> on k working s) by (apply working_of; by intros d v (? & [? _] & _)).
  apply step_keeps; [apply keeps_ignore, on_call|done|intros _].
  apply step_keeps; [apply on_call|done|intros _].
  apply step_keeps; [apply keeps_dir_call_on; by intros d v d' Hd [= <-]|done|intros _].
  apply step_lift; [done|intros count _]. apply step_get. intros t.
  apply step_lift; [done|intros h _]. apply step_get. intros t'.
  apply step_commit; [done|by intros d v n Hd|done|]. intros Hp.
  eapply step_set_value; [|intros s Hs; exact Hs].
  intros d v (d0 & -> & c & Hc & Hok). pose proof Hc as [(-> & _) _].
  by eapply (appended_good c (default log optimized)).
Qed.
End Capture.

Context (Hlength : forall content log,
  open_log content = Ok log -> lg_byteLength log = Z.of_nat (length content)).

(** The [finally] block touches no archive but, if nothing was committed, the
    new one. *)
Lemma cleanup_keeps k F raw opt final committed :
  (forall d v t, F d v -> F (set_temp t d) v) ->
  (committed = false -> forall d v, F d v -> F (set_intervals (delete final (dir_intervals d)) d) v) ->
  keeps (on k F) (capture_cleanup limits k raw opt final committed).
Proof.
  intros Ht Hi. assert (Hr : forall name, keeps (on k F) (ignore (dir_call k (remove_temp name)))).
  { intros name. apply keeps_ignore, keeps_dir_call_on. intros d v d' Hd [= <-]. by apply Ht. }
  unfold capture_cleanup. apply keeps_bind; [apply Hr|intros _]. apply keeps_bind; [apply Hr|intros _].
  apply keeps_bind; [|intros _; apply keeps_ignore, files_reconcile, on_about].
  destruct committed; [apply keeps_ret|]. apply keeps_ignore, keeps_dir_call_on.
  intros d v d' Hd [= <-]. by apply Hi.
Qed.

Lemma good_temp k d v t : good k d v -> good k (set_temp t d) v.
Proof. done. Qed.

Lemma good_capture k o : keeps (on k (good k)) (captureInterval limits instanceId o).
Proof.
  apply start_op. intros v0 Hk Hp Hnm. cbv zeta. apply step_if; intros Hc; [apply throw_still|].
  apply step_if; intros _; [apply throw_still|]. bool_prop.
  apply step_lift; [apply still_good|intros before _]. apply step_lift; [apply still_good|intros after _].
  eapply triple_bind; [apply still_next|intros []]. apply step_get. intros operationId.
  apply step_keeps; [apply files_session_bytes, on_about|apply still_good|intros current].
  apply step_if; intros _; [apply throw_still|].
  apply step_keeps; [apply files_reserve, on_about|apply still_good|intros max].
  rewrite Hk. set (raw := operationId ++ js ".raw.tmp"). set (opt := operationId ++ js ".optimized.tmp").
  set (final := interval_name (co_checkpoint o)). intros s (Hcl & d & Hd & Hv & Hg).
  rewrite Hv in Hg. pose proof Hg as (_ & Hm & _ & Hr & Hs).
  assert (Hne : raw <> opt) by (intros Heq%app_inv_head; discriminate Heq).
  pose proof (capture_body_spec Hlength k v0 (dir_intervals d) final Hk Hp Hr Hs raw opt o before
    after current max Hne eq_refl ltac:(lia) s ltac:(split; [done|by exists d])) as Hb.
  destruct (capture_body limits instanceId k raw opt o before after current max s) as [s1 [entry|e]].
  - pose proof (files_reconcile limits _ (on_about k (good k)) k 0 s1 Hb) as Hrec.
    destruct (reconcile limits k 0 s1) as [s2 r]. cbn in Hrec.
    assert (Hcl2 : on k (good k) (capture_cleanup limits k raw opt final true s2).1).
    { apply cleanup_keeps; [apply good_temp|done|done]. }
    by destruct r.
  - assert (Hcl2 : on k (working v0 (dir_intervals d) final)
      (capture_cleanup limits k raw opt final false s1).1).
    { apply cleanup_keeps; [by intros|intros _ d' v' (-> & Hm' & Hn)|done].
      split; [done|]. split; [done|]. intros n Hn'. cbn. rewrite lookup_delete_ne by done. by apply Hn. }
    revert Hcl2. apply on_mono. intros d' v'. apply working_good with (checkpoint := co_checkpoint o);
      done || lia.
Qed.

Lemma good_run k op : keeps (on k (good k)) (run limits instanceId op).
Proof.
  destruct op; cbn [run]; try (apply keeps_bind; [|intros ?; apply keeps_ret]);
    auto using good_capture, good_record, good_open, good_mark, good_truncate, good_set_cursor,
      good_set_saved, good_heartbeat.
Qed.

Lemma good_run_all k ops : forall s, on k (good k) s -> on k (good k) (run_all limits instanceId ops s).
Proof.
  induction ops as [|op ops IH]; intros s Hs; [done|]. cbn [run_all]. by apply IH, good_run.
Qed.

(** A session that was created. *)
Definition fresh_dir (m : manifest_file) (d : session_dir) (_ : CheckpointTimelineManifestV1) : Prop :=
  dir_manifest d = m /\ dir_intervals d = ∅.

Lemma created_good key uri name original :
  triple (fun _ => True) (createSession limits instanceId key uri name original)
    (fun _ => on key (good key)) (fun _ => True).
Proof.
  unfold createSession. pose proof (files_call (fun _ => True) ltac:(done)) as Hcall.
  do 2 (apply step_keeps; [apply Hcall|done|intros _]). intros s _. unfold bindM at 1, putM.
  set (s1 := set_dirs _ s). assert (Hf : at_dir (st_closed s1) key (fresh_dir ManifestMissing) s1)
    by (split; [done|]; exists empty_dir; split; [apply lookup_insert_eq|done]).
  generalize (st_closed s1) Hf. intros closed. generalize s1. clear s s1 Hf.
  apply step_keeps; [apply files_call, at_about|done|intros _]. apply step_get. intros t.
  apply step_lift; [done|intros f _]. cbv zeta. set (m := new_manifest key uri name t f). intros s Hs.
  match goal with |- context [bindM (commitManifest m) ?k s] =>
    assert (Hw : triple (at_dir closed key (fresh_dir ManifestMissing)) (bindM (commitManifest m) k)
      (fun _ s => parses m /\ at_dir closed key (fresh_dir (ManifestFile m)) s) (fun _ => True));
    [|specialize (Hw s Hs); destruct (bindM (commitManifest m) k s) as [s2 [u|e]]] end.
  - eapply triple_bind.
    { eapply triple_conseq; [apply (commit_spec closed key (fresh_dir ManifestMissing) m); [done|by intros d v n]|done| |done].
      intros ? x Hx. exact Hx. }
    intros []. apply triple_pure. intros Hp s0 (Hcl & d & Hd & d0 & -> & _ & Hi).
    assert (Hs0 : at_dir closed key (fresh_dir (ManifestFile m)) s0)
      by (split; [done|]; eexists; split; [done|by split]).
    pose proof (files_session_bytes _ (at_about closed key (fresh_dir (ManifestFile m)))).
    match goal with |- context [withIndexLock ?op s0] =>
      pose proof (files_with_lock _ (at_about closed key (fresh_dir (ManifestFile m))) op
        ltac:(intros i; cbv beta; keeps_auto) s0 Hs0) as Hl; by destruct (withIndexLock op s0) as [s3 [u|e]] end.
  - destruct Hw as (Hp & _ & d & Hd & Hm & Hi). split; [done|]. exists d. split; [done|].
    split; [done|]. split; [done|]. split; [done|]. split; [constructor|]. split; [done|].
    exists f. split; [done|]. cbn. unfold fingerprintsEqual. by rewrite !bool_decide_true.
  - done.
Qed.

(** ** Opening an interval *)

Lemma open_ready k s c e :
  on k (good k) s -> interval_at (st_value s) c = Some e -> iv_state e = Ready ->
  fault (st_calls s) = None -> fault (S (st_calls s)) = None ->
  exists log, (openInterval c s).2 = Ok log /\
    fingerprintsEqual (lg_before log) (iv_before e) = true /\
    fingerprintsEqual (lg_after log) (iv_after e) = true.
Proof.
  intros (Hcl & d & Hd & Hk & Hm & Hp & Hr & _) He Hst Hf1 Hf2.
  destruct (interval_at_spec _ _ _ He) as (i & -> & Hi).
  destruct (proj1 (Forall_lookup _ _) Hr i e Hi Hst) as (a & content & log & Ha & Hn & Hin & Hl & Ho & Hsha & Hb & Haf).
  destruct (parses_archive _ i e a Hp Hi Ha) as [_ Hfile].
  unfold openInterval, assertOpen. unfold bindM at 1, getM, bindM at 1, retM, throwM. rewrite Hcl.
  unfold bindM at 1. rewrite He. destruct e as [cp gen before after cnt t bk pl h st ar err]. cbn in *. subst.
  rewrite Hfile. cbn [negb]. unfold bindM at 1, call. rewrite Hf1. unfold bindM at 1. cbn.
  rewrite Hd. cbn. rewrite Hin, Hl, bool_decide_true by done. cbn. unfold bindM, call. cbn. rewrite Hf2.
  unfold liftM. rewrite Ho. rewrite bool_decide_true, Hb, Haf by done. cbn. by exists log.
Qed.
End Ops.

(** ** Properties *)

(** C5 Whatever the operations of a session are and whichever of their calls
    fail, the manifest on disk stays the one the session works with and is
    accepted when it is read, and an interval that it calls ready can be
    opened and continues the chain of fingerprints. *)
Theorem timeline_survives `{Environment} limits instanceId key uri name original s s1 ops :
  (forall content log, open_log content = Ok log -> lg_byteLength log = Z.of_nat (length content)) ->
  createSession limits instanceId key uri name original s = (s1, Ok tt) ->
  let s' := run_all limits instanceId ops s1 in
  (exists d p, st_dirs s' !! key = Some d /\ dir_manifest d = ManifestFile (st_value s') /\
     parseManifest print_double (st_value s') key = Ok p) /\
  (forall c e, interval_at (st_value s') c = Some e -> iv_state e = Ready ->
     fault (st_calls s') = None -> fault (S (st_calls s')) = None ->
     exists log, (openInterval c s').2 = Ok log /\
       fingerprintsEqual (lg_before log) (iv_before e) = true /\
       fingerprintsEqual (lg_after log) (iv_after e) = true).
Proof.
  intros Hlen Hc s'. assert (Hg : on key (good key) s').
  { apply good_run_all; [done|]. pose proof (created_good limits instanceId key uri name original s I) as Hg.
    by rewrite Hc in Hg. }
  split; [|intros c e He Hst Hf1 Hf2; by apply (open_ready key)].
  destruct Hg as (_ & d & Hd & Hk & Hm & [p Hp] & _). exists d, p. rewrite Hk in Hp. done.
Qed.

(** The saved state is at a checkpoint of the timeline whose fingerprint it
    has, or the timeline says that it is off the branch. *)
Theorem timeline_saved_position `{Environment} limits instanceId key uri name original s s1 ops :
  (forall content log, open_log content = Ok log -> lg_byteLength log = Z.of_nat (length content)) ->
  createSession limits instanceId key uri name original s = (s1, Ok tt) ->
  let v := st_value (run_all limits instanceId ops s1) in
  match sv_checkpoint (mf_saved v) with
  | None => sv_offBranch (mf_saved v) = true
  | Some c => sv_offBranch (mf_saved v) = false /\ 
      exists f, fingerprint_at v c = Some f /\ fingerprintsEqual f (sv_fingerprint (mf_saved v)) = true
  end.
Proof.
  intros Hlen Hc v. assert (Hg : on key (good key) (run_all limits instanceId ops s1)).
  { apply good_run_all; [done|]. pose proof (created_good limits instanceId key uri name original s I) as Hg.
    by rewrite Hc in Hg. }
  by destruct Hg as (_ & d & _ & _ & _ & _ & _ & Hs).
Qed.

(** ** Examples *)

Section Example.

(** An archive of the example holds the last digits of the fingerprints it
    leads from and to. *)
Definition example_print (digit : Z) : NormalizedTimelineFingerprint :=
  mkFingerprint (js "3") (Some CHANGE_LOG_DEFAULT_DIGEST_PLUGIN_ID) (js "sha256") [digit].
Definition example_raw (digit : Z) : raw_fingerprint := as_raw (example_print digit).

Definition example_open (content : list Z) : result log_summary :=
  match content with
  | b :: a :: _ => Ok (mkLogSummary true (js "0") (example_print b) (example_print a) (js "1") (js "1")
                         [] (Z.of_nat (length content)) (repeat 48 64))
  | _ => Throw invalid_archive
  end.

Definition example_capture (checkpoint : Z) (before after : Z) : capture_options :=
  mkCapture checkpoint checkpoint (I64BigInt 1) (example_raw before) (example_raw after) BoundaryPlain
    None None (fun _ => mkWriter [NInt 4] [before; after; 0; 0] (Ok tt))
    (Some (fun _ => mkWriter [NInt 3] [before; after; 0] (Ok tt))).

(** The original is saved; it is left and found again, then the future after
    the first checkpoint is cut off. *)
Definition example_ops : list operation :=
  [Capture (example_capture 1 49 50); Capture (example_capture 2 50 49); TruncateFuture (NInt 1)].

Definition quiet : Environment := example_environment (fun _ => None) example_open.

Definition example_session : state :=
  (createSession (H := quiet) CHECKPOINT_HISTORY_DEFAULTS (js "i") (js "k") (js "u") None
     (example_raw 49) example_start).1.
End Example.

Lemma example_open_length content log :
  example_open content = Ok log -> lg_byteLength log = Z.of_nat (length content).
Proof. destruct content as [|b [|a content]]; [done|done|]. by intros [= <-]. Qed.

Lemma example_created_ok :
  createSession (H := quiet) CHECKPOINT_HISTORY_DEFAULTS (js "i") (js "k") (js "u") None
    (example_raw 49) example_start = (example_session, Ok tt).
Proof. vm_compute. reflexivity. Qed.

Abbreviation example_end :=
  (run_all (H := quiet) CHECKPOINT_HISTORY_DEFAULTS (js "i") example_ops example_session) (only parsing).

Lemma example_faultless n : @fault quiet n = None.
Proof. reflexivity. Qed.

Lemma timeline_survives_witness :
  exists log, (openInterval (H := quiet) 1 example_end).2 = Ok log /\
    fingerprintsEqual (lg_before log) (example_print 49) = true.
Proof.
  pose proof (timeline_survives (H := quiet) CHECKPOINT_HISTORY_DEFAULTS (js "i") (js "k") (js "u") None
    (example_raw 49) example_start example_session example_ops example_open_length example_created_ok)
    as Hopen.
  cbv zeta in Hopen. destruct Hopen as [_ Hopen].
  assert (He : exists e, interval_at (st_value example_end) 1 = Some e /\ iv_state e = Ready /\
    iv_before e = example_print 49) by (eexists; split; [vm_compute; reflexivity|split; reflexivity]).
  destruct He as (e & He & Hst & Hb).
  destruct (Hopen 1 e He Hst (example_faultless _) (example_faultless _)) as (log & Hlog & Hb' & _).
  exists log. split; [exact Hlog|]. rewrite <- Hb. exact Hb'.
Defined.

Lemma timeline_saved_position_witness :
  sv_offBranch (mf_saved (st_value (run_all (H := quiet) CHECKPOINT_HISTORY_DEFAULTS (js "i") []
    example_session))) = false.
Proof.
  pose proof (timeline_saved_position (H := quiet) CHECKPOINT_HISTORY_DEFAULTS (js "i") (js "k") (js "u")
    None (example_raw 49) example_start example_session [] example_open_length example_created_ok) as Hs.
  cbv zeta in Hs. destruct (sv_checkpoint _) as [c|] eqn:Ec; [exact (proj1 Hs)|].
  exfalso. revert Ec. vm_compute. discriminate.
Defined.

(** Cutting off the future may forget where the saved state is: the saved
    content is the original, checkpoint zero, but the newest checkpoint with
    that content was the one remembered, and when it goes the saved state
    counts as off the branch. *)
Theorem truncation_forgets_saved :
  let v := st_value example_end in
  mf_tip v = 1 /\ sv_checkpoint (mf_saved v) = None /\ sv_offBranch (mf_saved v) = true /\
  fingerprint_at v 0 = Some (sv_fingerprint (mf_saved v)).
Proof. vm_compute. repeat split. Qed.
