(* ===== verification/TimelineLock.v ===== *)
(** * The lock of the timeline index
    ([withIndexLock] and [recoverStaleLock] of
    [vscode-extension/src/checkpointTimelineStorage.ts])

    Windows share the history root; the file [.lock] is what keeps them from
    working on the index at the same time.  The model is an interleaving of
    processes: every call of the file system is one step, between any two
    steps others may act, time may pass or a process may die.

    A lock file is known by the token of the attempt that created it; its
    content is there once it has been written. *)

From S2P Require Import Prelude.

Definition LOCK_STALE_MS : Z := 2 * 60 * 1000.
Definition DEFAULT_LOCK_WAIT_MS : Z := 5000.

(** The file [.lock]: who created it, and [acquiredAt] if it was written. *)
Record lock_file := mkLock { lf_token : nat; lf_acquiredAt : option Z }.

(** Where a process is in [withIndexLock]. *)
Inductive phase :=
  | Idle
  | Trying (started : Z) (token : nat)        (* about to open the file *)
  | Writing (token : nat)                     (* created it, about to write it *)
  | Inspecting (started : Z) (token : nat)    (* it exists: [recoverStaleLock] *)
  | Judged (started : Z) (token : nat)        (* found it stale, about to rename it *)
  | Waiting (started : Z) (token : nat)       (* about to look at the deadline *)
  | Working (token : nat)                     (* the operation on the index *)
  | Checking (token : nat)                    (* the release: about to read the file *)
  | Removing (token : nat)                    (* the token was its own, about to remove it *)
  | Busy                                      (* threw TIMELINE_STORAGE_BUSY *)
  | Failed                                    (* threw something else *)
  | Crashed.

Record world := mkWorld {
  w_lock : option lock_file;
  w_clock : Z;
  w_next : nat;
  w_procs : gmap nat phase
}.

Definition set_lock (l : option lock_file) (w : world) : world :=
  mkWorld l (w_clock w) (w_next w) (w_procs w).
Definition move (p : nat) (ph : phase) (w : world) : world :=
  mkWorld (w_lock w) (w_clock w) (w_next w) (<[p := ph]> (w_procs w)).
Definition phase_of (w : world) (p : nat) : phase := default Idle (w_procs w !! p).

(** How writing the lock ends: it may fail before or after the content is
    there. *)
Inductive write_outcome := Written | WriteFailed | SyncFailed.

Inductive action :=
  | Begin (p : nat) | Open (p : nat) | Write (p : nat) (o : write_outcome)
  | Inspect (p : nat) | RenameStale (p : nat) | Deadline (p : nat)
  | Finish (p : nat) | ReadLock (p : nat) | RemoveLock (p : nat)
  | Crash (p : nat) | Tick (ms : Z).

Section Lock.
Context (lockWaitMs : Z).

(** [fs.open(lockPath, 'wx')] *)
Definition open_lock (p : nat) (started : Z) (token : nat) (w : world) : world :=
  match w_lock w with
  | None => move p (Writing token) (set_lock (Some (mkLock token None)) w)
  | Some _ => move p (Inspecting started token) w
  end.

(** The writing of the file that is open: it is at [lockPath] unless someone
    has moved it away. *)
Definition fill_lock (token : nat) (w : world) : world :=
  match w_lock w with
  | Some l => if (lf_token l =? token)%nat then set_lock (Some (mkLock token (Some (w_clock w)))) w else w
  | None => w
  end.

Definition write_lock (p : nat) (token : nat) (o : write_outcome) (w : world) : world :=
  match o with
  | Written => move p (Working token) (fill_lock token w)
  | WriteFailed => move p Failed w
  | SyncFailed => move p Failed (fill_lock token w)
  end.

(** The first half of [recoverStaleLock]; whatever it throws is ignored. *)
Definition stale (w : world) : bool :=
  match w_lock w with
  | Some (mkLock _ (Some acquired)) => LOCK_STALE_MS <? w_clock w - acquired
  | _ => false
  end.

Definition inspect (p : nat) (started : Z) (token : nat) (w : world) : world :=
  move p (if stale w then Judged started token else Waiting started token) w.

(** The second half renames what is at [lockPath] by now and removes it. *)
Definition rename_stale (p : nat) (started : Z) (token : nat) (w : world) : world :=
  move p (Waiting started token) (set_lock None w).

Definition deadline (p : nat) (started : Z) (token : nat) (w : world) : world :=
  move p (if lockWaitMs <=? w_clock w - started then Busy else Trying started token) w.

(** The release: the file is removed if it has the token of this attempt. *)
Definition read_lock (p : nat) (token : nat) (w : world) : world :=
  match w_lock w with
  | Some (mkLock t (Some _)) => move p (if (t =? token)%nat then Removing token else Idle) w
  | Some (mkLock _ None) => move p Failed w
  | None => move p Idle w
  end.

Definition act (a : action) (w : world) : option world :=
  match a with
  | Tick ms => if 0 <=? ms then Some (mkWorld (w_lock w) (w_clock w + ms) (w_next w) (w_procs w)) else None
  | Crash p => Some (move p Crashed w)
  | Begin p =>
      match phase_of w p with
      | Idle | Busy | Failed =>
          Some (move p (Trying (w_clock w) (w_next w))
                  (mkWorld (w_lock w) (w_clock w) (S (w_next w)) (w_procs w)))
      | _ => None
      end
  | Open p => match phase_of w p with Trying s t => Some (open_lock p s t w) | _ => None end
  | Write p o => match phase_of w p with Writing t => Some (write_lock p t o w) | _ => None end
  | Inspect p => match phase_of w p with Inspecting s t => Some (inspect p s t w) | _ => None end
  | RenameStale p => match phase_of w p with Judged s t => Some (rename_stale p s t w) | _ => None end
  | Deadline p => match phase_of w p with Waiting s t => Some (deadline p s t w) | _ => None end
  | Finish p => match phase_of w p with Working t => Some (move p (Checking t) w) | _ => None end
  | ReadLock p => match phase_of w p with Checking t => Some (read_lock p t w) | _ => None end
  | RemoveLock p =>
      match phase_of w p with Removing _ => Some (move p Idle (set_lock None w)) | _ => None end
  end.

Definition step (w w' : world) : Prop := exists a, act a w = Some w'.

Fixpoint run (actions : list action) (w : world) : option world :=
  match actions with [] => Some w | a :: actions => w' ← act a w; run actions w' end.

Definition initial : world := mkWorld None 0 0 ∅.
End Lock.

(** ** Facts about single steps *)

Lemma phase_of_move p ph w q : phase_of (move p ph w) q = if decide (q = p) then ph else phase_of w q.
Proof.
  unfold phase_of, move. cbn. destruct (decide (q = p)) as [->|Hne]; [by rewrite lookup_insert_eq|].
  by rewrite lookup_insert_ne.
Qed.

(** The token of an attempt that is under way. *)
Definition token_of (ph : phase) : option nat :=
  match ph with
  | Trying _ t | Writing t | Inspecting _ t | Judged _ t | Waiting _ t | Working t | Checking t
  | Removing t => Some t
  | Idle | Busy | Failed | Crashed => None
  end.

(** From the creation of the file to its removal. *)
Definition region (ph : phase) : option nat :=
  match ph with Writing t | Working t | Checking t | Removing t => Some t | _ => None end.

Definition judged (ph : phase) : bool := match ph with Judged _ _ => true | _ => false end.

Lemma region_token ph t : region ph = Some t -> token_of ph = Some t.
Proof. by destruct ph. Qed.

(** ** Mutual exclusion while no lock is stale *)

Record exclusive (w : world) : Prop := {
  ex_fresh p t : token_of (phase_of w p) = Some t -> (t < w_next w)%nat;
  ex_unique p q t : token_of (phase_of w p) = Some t -> token_of (phase_of w q) = Some t -> p = q;
  ex_judged p : judged (phase_of w p) = false;
  ex_owner p t : region (phase_of w p) = Some t -> lf_token <$> w_lock w = Some t
}.

(** A process goes on with the token it has, or gives it up. *)
Lemma exclusive_move w p ph l :
  exclusive w ->
  (forall t, token_of ph = Some t -> token_of (phase_of w p) = Some t) -> judged ph = false ->
  (forall t, region ph = Some t -> lf_token <$> l = Some t) ->
  (forall q t, q <> p -> region (phase_of w q) = Some t -> lf_token <$> l = Some t) ->
  exclusive (move p ph (set_lock l w)).
Proof.
  intros [Hf Hu Hj Ho] Ht Hjp Hr Hl. assert (Hphase : forall q, phase_of (set_lock l w) q = phase_of w q) by done.
  assert (Htok : forall q t, token_of (phase_of (move p ph (set_lock l w)) q) = Some t ->
    token_of (phase_of w q) = Some t).
  { intros q t. rewrite phase_of_move, Hphase. destruct (decide (q = p)) as [->|]; auto. }
  split.
  - intros q t Hq. by apply (Hf q), Htok.
  - intros q q' t Hq Hq'. by apply (Hu q q' t); apply Htok.
  - intros q. rewrite phase_of_move, Hphase. by destruct (decide (q = p)).
  - intros q t. rewrite phase_of_move, Hphase. cbn. destruct (decide (q = p)) as [->|Hne]; [apply Hr|].
    by apply Hl.
Qed.

Lemma set_lock_id w : set_lock (w_lock w) w = w.
Proof. by destruct w. Qed.

(** The same, the lock being as it was. *)
Lemma exclusive_phase w p ph :
  exclusive w ->
  (forall t, token_of ph = Some t -> token_of (phase_of w p) = Some t) -> judged ph = false ->
  (forall t, region ph = Some t -> region (phase_of w p) = Some t) -> exclusive (move p ph w).
Proof.
  intros Hw Ht Hj Hr. rewrite <- (set_lock_id w) at 1. apply exclusive_move; [done|done|done| |].
  - intros t Hp. by apply (ex_owner w Hw p), Hr.
  - intros q t _ Hq. by apply (ex_owner w Hw q).
Qed.

(** An attempt starts with a token that nobody has had. *)
Lemma exclusive_begin w p :
  exclusive w -> token_of (phase_of w p) = None ->
  exclusive (move p (Trying (w_clock w) (w_next w)) (mkWorld (w_lock w) (w_clock w) (S (w_next w)) (w_procs w))).
Proof.
  intros [Hf Hu Hj Ho] Hp. set (w1 := mkWorld _ _ _ _).
  assert (Hph : forall q, phase_of w1 q = phase_of w q) by done. split; cbn.
  - intros q t. rewrite phase_of_move, Hph. destruct (decide (q = p)); [intros [= <-]; lia|].
    intros Hq%Hf. lia.
  - intros q q' t. rewrite !phase_of_move, !Hph.
    destruct (decide (q = p)), (decide (q' = p)); try congruence.
    + intros [= <-] Hq%Hf. lia.
    + intros Hq%Hf [= <-]. lia.
    + apply Hu.
  - intros q. rewrite phase_of_move, Hph. by destruct (decide (q = p)).
  - intros q t. rewrite phase_of_move, Hph. destruct (decide (q = p)); [done|apply Ho].
Qed.

(** Nobody else owns the lock of a process. *)
Lemma exclusive_alone w p q t l :
  exclusive w -> q <> p -> region (phase_of w p) = Some l -> region (phase_of w q) = Some t -> False.
Proof.
  intros Hw Hne Hp Hq. pose proof (ex_owner w Hw p l Hp) as H1. pose proof (ex_owner w Hw q t Hq) as H2.
  apply Hne, (ex_unique w Hw q p t); apply region_token; congruence.
Qed.

Lemma exclusive_fill w p t :
  exclusive w -> region (phase_of w p) = Some t ->
  exclusive (fill_lock t w) /\ (forall q, phase_of (fill_lock t w) q = phase_of w q).
Proof.
  intros Hw Hp. pose proof (ex_owner w Hw p t Hp) as Hl. unfold fill_lock.
  destruct (w_lock w) as [l|] eqn:El; [|done]. cbn in Hl. injection Hl as <-. rewrite Nat.eqb_refl.
  split; [|done]. destruct Hw as [Hf Hu Hj Ho]. split; [exact Hf|exact Hu|exact Hj|].
  intros q t Hq. specialize (Ho q t Hq). by rewrite El in Ho.
Qed.

Lemma exclusive_step lockWaitMs a w w' :
  exclusive w -> stale w = false -> act lockWaitMs a w = Some w' -> exclusive w'.
Proof.
  intros Hw Hs Ha. destruct a as [p|p|p o|p|p|p|p|p|p|p|ms]; cbn in Ha.
  all: try (match type of Ha with context [phase_of ?x ?y] =>
    destruct (phase_of x y) as [|s t|t|s t|s t|s t|t|t|t| | |] eqn:Ep; try done end).
  all: try (injection Ha as <-).
  1-3: apply exclusive_begin; [done|by rewrite Ep].
  - unfold open_lock. destruct (w_lock w) as [l|] eqn:El.
    + apply exclusive_phase; [done| |done|done]. intros t'. by rewrite Ep.
    + apply exclusive_move; [done| |done|by intros ? [= <-]|]; [intros t'; by rewrite Ep|].
      intros q t' _ Hq. pose proof (ex_owner w Hw q t' Hq) as Hl. by rewrite El in Hl.
  - destruct (exclusive_fill w p t Hw ltac:(by rewrite Ep)) as [Hfill Hph].
    destruct o; cbn [write_lock]; apply exclusive_phase; try done; intros t'; by rewrite Hph, Ep.
  - unfold inspect. rewrite Hs. apply exclusive_phase; [done| |done|done]. intros t'. by rewrite Ep.
  - pose proof (ex_judged w Hw p) as Hj. by rewrite Ep in Hj.
  - unfold deadline. destruct (_ <=? _); apply exclusive_phase; try done; intros t'; by rewrite Ep.
  - apply exclusive_phase; try done; intros t'; by rewrite Ep.
  - unfold read_lock. destruct (w_lock w) as [[t' [a|]]|]; [destruct (t' =? t)%nat| |];
      apply exclusive_phase; try done; intros t''; by rewrite Ep.
  - apply exclusive_move; try done. intros q t' Hq Hr.
    destruct (exclusive_alone w p q t' t Hw Hq ltac:(by rewrite Ep) Hr).
  - by apply exclusive_phase.
  - destruct (0 <=? ms); [|done]. injection Ha as <-. by destruct Hw.
Qed.

(** Steps of worlds in which the lock is not older than two minutes. *)
Definition timely_step (lockWaitMs : Z) (w w' : world) : Prop := stale w = false /\ step lockWaitMs w w'.

Lemma exclusive_initial : exclusive initial.
Proof. by split. Qed.

Lemma exclusive_steps lockWaitMs w w' :
  rtc (timely_step lockWaitMs) w w' -> exclusive w -> exclusive w'.
Proof. induction 1 as [|w w1 w2 [Hs [a Ha]] _ IH]; [done|]. intros Hw. by eapply IH, exclusive_step. Qed.

(** ** A lock that was not written *)

(** Nobody is past the opening of the lock. *)
Definition outside (ph : phase) : bool :=
  match ph with
  | Idle | Trying _ _ | Inspecting _ _ | Waiting _ _ | Busy | Failed | Crashed => true
  | _ => false
  end.

Definition torn (w : world) : Prop :=
  (exists t, w_lock w = Some (mkLock t None)) /\ forall p, outside (phase_of w p) = true.

Lemma torn_move w p ph : torn w -> outside ph = true -> torn (move p ph w).
Proof.
  intros [Hl Ho] Hph. split; [done|]. intros q. rewrite phase_of_move. by destruct (decide (q = p)).
Qed.

Lemma torn_step lockWaitMs w w' : torn w -> step lockWaitMs w w' -> torn w'.
Proof.
  intros Hw [a Ha]. pose proof Hw as [[t Hl] Ho]. destruct a as [p|p|p o|p|p|p|p|p|p|p|ms]; cbn in Ha.
  all: try pose proof (Ho p) as Hp.
  all: try (match type of Ha with context [phase_of ?x ?y] =>
    destruct (phase_of x y) as [|s t'|t'|s t'|s t'|s t'|t'|t'|t'| | |] eqn:Ep; try done end).
  all: try (injection Ha as <-).
  1-3: apply torn_move; [by split; [exists t|]|done].
  - unfold open_lock. rewrite Hl. by apply torn_move.
  - unfold inspect, stale. rewrite Hl. by apply torn_move.
  - unfold deadline. apply torn_move; [done|]. by destruct (_ <=? _).
  - by apply torn_move.
  - destruct (0 <=? ms); [|done]. injection Ha as <-. by split; [exists t|].
Qed.

(** ** Properties *)

(** C36 As long as no lock is older than two minutes when something happens, at
    most one process works on the index. *)
Theorem lock_excludes lockWaitMs w p q t t' :
  rtc (timely_step lockWaitMs) initial w ->
  phase_of w p = Working t -> phase_of w q = Working t' -> p = q.
Proof.
  intros Hsteps Hp Hq. pose proof (exclusive_steps _ _ _ Hsteps exclusive_initial) as Hw.
  destruct (decide (q = p)) as [->|Hne]; [done|].
  destruct (exclusive_alone w p q t' t Hw Hne); [by rewrite Hp|by rewrite Hq].
Qed.

(** One attempt of a process up to its work. *)
Definition acquire (p : nat) : list action := [Begin p; Open p; Write p Written].

Definition after (actions : list action) : world := default initial (run DEFAULT_LOCK_WAIT_MS actions initial).

Fixpoint timely_run (lockWaitMs : Z) (actions : list action) (w : world) : option world :=
  match actions with
  | [] => Some w
  | a :: actions => if stale w then None else w' ← act lockWaitMs a w; timely_run lockWaitMs actions w'
  end.

Lemma timely_run_steps lockWaitMs actions : forall w w',
  timely_run lockWaitMs actions w = Some w' -> rtc (timely_step lockWaitMs) w w'.
Proof.
  induction actions as [|a actions IH]; intros w w' Hr; [by injection Hr as ->|].
  cbn in Hr. destruct (stale w) eqn:Es; [done|]. destruct (act lockWaitMs a w) as [w1|] eqn:Ea; [|done].
  eapply rtc_l; [split; [done|by exists a]|by apply IH].
Qed.

Lemma run_steps lockWaitMs actions : forall w w',
  run lockWaitMs actions w = Some w' -> rtc (step lockWaitMs) w w'.
Proof.
  induction actions as [|a actions IH]; intros w w' Hr; [by injection Hr as ->|].
  cbn in Hr. destruct (act lockWaitMs a w) as [w1|] eqn:Ea; [|done].
  eapply rtc_l; [by exists a|by apply IH].
Qed.

Lemma lock_excludes_witness :
  phase_of (after (acquire 0 ++ [Begin 1; Open 1])) 0 = Working 0 /\ 0%nat = 0%nat.
Proof.
  assert (Hp : phase_of (after (acquire 0 ++ [Begin 1; Open 1])) 0 = Working 0)
    by (vm_compute; reflexivity).
  assert (Hs : rtc (timely_step DEFAULT_LOCK_WAIT_MS) initial (after (acquire 0 ++ [Begin 1; Open 1])))
    by (apply (timely_run_steps _ (acquire 0 ++ [Begin 1; Open 1])); vm_compute; reflexivity).
  split; [exact Hp|]. exact (lock_excludes DEFAULT_LOCK_WAIT_MS _ 0 0 0 0 Hs Hp Hp).
Defined.

(** A process dies with the lock; two minutes later two others find its lock
    stale.  One renames it and takes a lock of its own; the other then
    renames that one. *)
Definition recovery_race : list action :=
  acquire 0 ++ [Crash 0; Tick (LOCK_STALE_MS + 1); Begin 1; Open 1; Inspect 1; Begin 2; Open 2; Inspect 2;
    RenameStale 1; Deadline 1; Open 1; Write 1 Written; RenameStale 2; Deadline 2; Open 2; Write 2 Written].

(** The recovery of a stale lock does not exclude: two contenders that have
    judged the same lock stale can both come to work on the index. *)
Theorem recovery_admits_two :
  exists w, rtc (step DEFAULT_LOCK_WAIT_MS) initial w /\
    phase_of w 1 = Working 1 /\ phase_of w 2 = Working 2 /\ stale w = false.
Proof.
  exists (after recovery_race). split; [|by vm_compute].
  apply (run_steps _ recovery_race). vm_compute. reflexivity.
Qed.

(** The process that creates the lock fails to write it, or dies. *)
Definition writing_lost (p : nat) (a : action) : Prop := a = Crash p \/ a = Write p WriteFailed.

Lemma torn_made lockWaitMs w p t a w1 :
  exclusive w -> phase_of w p = Writing t -> writing_lost p a -> act lockWaitMs a w = Some w1 ->
  w_lock w1 = w_lock w /\ lf_token <$> w_lock w1 = Some t /\ forall q, outside (phase_of w1 q) = true.
Proof.
  intros Hw Hp Ha Hact. pose proof (ex_owner w Hw p t ltac:(by rewrite Hp)) as Hl.
  assert (Hothers : forall q, q <> p -> outside (phase_of w q) = true).
  { intros q Hne. pose proof (ex_judged w Hw q) as Hj.
    destruct (region (phase_of w q)) as [t'|] eqn:Er.
    - destruct (exclusive_alone w p q t' t Hw Hne ltac:(by rewrite Hp) Er).
    - by destruct (phase_of w q). }
  assert (Hph : exists ph, w1 = move p ph w /\ outside ph = true).
  { destruct Ha as [-> | ->]; cbn in Hact; [|rewrite Hp in Hact; cbn in Hact]; injection Hact as <-; by eexists. }
  destruct Hph as (ph & -> & Hout). split; [done|]. split; [exact Hl|]. intros q. rewrite phase_of_move.
  destruct (decide (q = p)); [done|by apply Hothers].
Qed.

Lemma torn_steps lockWaitMs w w' : rtc (step lockWaitMs) w w' -> torn w -> torn w' /\ w_lock w' = w_lock w.
Proof.
  induction 1 as [|w1 w2 w3 H12 _ IH]; [done|]. intros Hw1. pose proof (torn_step _ _ _ Hw1 H12) as Hw2.
  destruct (IH Hw2) as [Hw3 ->]. split; [done|]. destruct H12 as [a Ha], Hw1 as [[t Hl] Ho].
  destruct a as [p|p|p o|p|p|p|p|p|p|p|ms]; cbn in Ha; try pose proof (Ho p) as Hp.
  all: try (match type of Ha with context [phase_of ?x ?y] =>
    destruct (phase_of x y) as [|s t'|t'|s t'|s t'|s t'|t'|t'|t'| | |] eqn:Ep; try done end).
  all: try (by injection Ha as <-).
  - unfold open_lock in Ha. rewrite Hl in Ha. by injection Ha as <-.
  - destruct (0 <=? ms); [|done]. by injection Ha as <-.
Qed.

(** C40 A lock whose creator fails to write it, or dies before it does, is
    never recovered, if up to then no lock was older than two minutes when
    something happened: whatever happens afterwards, the file stays as it is
    and nobody comes to work on the index; every attempt goes from opening
    the lock to looking at it and to its deadline, whatever others do in
    between, and ends in TIMELINE_STORAGE_BUSY at the first deadline after
    its time is over.  (A process that has judged an earlier lock stale may
    still rename this one away; the condition excludes it.) *)
Theorem torn_lock_blocks lockWaitMs w p t a w1 w2 :
  rtc (timely_step lockWaitMs) initial w -> phase_of w p = Writing t -> w_lock w = Some (mkLock t None) ->
  writing_lost p a -> act lockWaitMs a w = Some w1 -> rtc (step lockWaitMs) w1 w2 ->
  w_lock w2 = Some (mkLock t None) /\
  (forall q t', phase_of w2 q <> Working t') /\
  (forall q started t',
    (phase_of w2 q = Trying started t' -> act lockWaitMs (Open q) w2 = Some (move q (Inspecting started t') w2)) /\
    (phase_of w2 q = Inspecting started t' -> act lockWaitMs (Inspect q) w2 = Some (move q (Waiting started t') w2)) /\
    (phase_of w2 q = Waiting started t' -> act lockWaitMs (Deadline q) w2 =
      Some (move q (if lockWaitMs <=? w_clock w2 - started then Busy else Trying started t') w2))).
Proof.
  intros Hreach Hp Hl Ha Hact Hsteps.
  destruct (torn_made _ _ _ _ _ _ (exclusive_steps _ _ _ Hreach exclusive_initial) Hp Ha Hact) as (Hl1 & _ & Ho1).
  destruct (torn_steps _ _ _ Hsteps) as [[_ Ho] Hl2]; [split; [exists t; congruence|done]|].
  assert (Hlock : w_lock w2 = Some (mkLock t None)) by congruence.
  split; [done|]. split; [intros q t' Hq; specialize (Ho q); by rewrite Hq in Ho|].
  intros q started t'. cbn [act]. split_and!; intros ->; [|by unfold inspect, stale; rewrite Hlock|done].
  unfold open_lock. by rewrite Hlock.
Qed.

(** A disk that is full, and an attempt whose time is over. *)
Definition full_disk : list action := [Begin 0; Open 0].
Definition late_attempt : list action := [Begin 1; Open 1; Inspect 1; Tick 5000].

Lemma torn_lock_blocks_witness :
  exists w2, run 5000 (Write 0 WriteFailed :: late_attempt) (after full_disk) = Some w2 /\
    w_lock w2 = Some (mkLock 0 None) /\ act 5000 (Deadline 1) w2 = Some (move 1 Busy w2).
Proof.
  assert (Hw : rtc (timely_step 5000) initial (after full_disk))
    by (apply (timely_run_steps _ full_disk); vm_compute; reflexivity).
  set (w1 := default initial (act 5000 (Write 0 WriteFailed) (after full_disk))).
  assert (Hact : act 5000 (Write 0 WriteFailed) (after full_disk) = Some w1) by (vm_compute; reflexivity).
  set (w2 := default initial (run 5000 late_attempt w1)).
  assert (Hrun : run 5000 late_attempt w1 = Some w2) by (vm_compute; reflexivity).
  destruct (torn_lock_blocks 5000 (after full_disk) 0 0 (Write 0 WriteFailed) w1 w2 Hw eq_refl eq_refl
    (or_intror eq_refl) Hact (run_steps _ _ _ _ Hrun)) as (Hl & _ & Hround).
  exists w2. split; [cbn [run]; rewrite Hact; exact Hrun|]. split; [exact Hl|].
  destruct (Hround 1%nat 0 1%nat) as (_ & _ & Hd). exact (Hd ltac:(vm_compute; reflexivity)).
Defined.
