(* ===== verification/AiToolkit.v ===== *)
(** * The assistant toolkit ([packages/ai/src/service.ts], [codec.ts],
      [constants.ts])

    [OmegaEditToolkit] is what the command line and the MCP server call: it
    checks and bounds what an assistant asks for and hands it to the client.
    Here are its reads, profiles, searches, replacements and patches; the
    replay of change logs is in [AiReplay].

    The client below it is that of [EditSession] and [SessionApi].  Finding
    or starting the server is [rpc_ensureRunning]. *)

From stdpp Require Import sorting.
From S2P Require Import Prelude SafeInt JsText EditDiff EditSession History Search SessionApi ChangeLogExportFile RangeMap.

Open Scope jsm_scope.

(** ** Settings *)

(** [Number.parseInt(raw, 10)]: spaces, a sign, digits; [None] is [NaN].  A
    number that is not safe is rounded to a double by [round]. *)
Fixpoint digits_prefix (s : jsstring) : jsstring :=
  match s with c :: t => if is_digit c then c :: digits_prefix t else [] | [] => [] end.

Definition parse_int (s : jsstring) : option Z :=
  let s := drop_spaces s in
  let '(sign, s) := match s with
                    | c :: t => if c =? 45 then (-1, t) else if c =? 43 then (1, t) else (1, s)
                    | [] => (1, s)
                    end in
  match digits_prefix s with [] => None | ds => Some (sign * decimal_value ds) end.

(** A value that overflows to an infinity is not finite. *)
Definition readPositiveIntegerEnv (round : Z -> number) (raw : option jsstring) (fallback : Z) : number :=
  match raw with
  | None | Some [] => NInt fallback
  | Some raw =>
      match parse_int raw with
      | None => NInt fallback
      | Some z =>
          match (if safeZ z then NInt z else round z) with
          | NInt parsed => if parsed <=? 0 then NInt fallback else NInt parsed
          | _ => NInt fallback
          end
      end
  end.

Definition DEFAULT_MAX_READ_BYTES : Z := 262144.
Definition DEFAULT_MAX_EDIT_BYTES : Z := 262144.
Definition DEFAULT_MAX_SEARCH_RESULTS : Z := 1000.
Definition DEFAULT_PREVIEW_CONTEXT_BYTES : Z := 64.

(** The limits of a toolkit; [options.x || DEFAULT]. *)
Record toolkit := mkToolkit {
  maxReadBytes : Z; maxEditBytes : Z; maxSearchResults : Z; previewContextBytes : Z
}.

Definition or_default (v : option Z) (fallback : Z) : Z :=
  match v with Some 0 | None => fallback | Some z => z end.

Definition new_toolkit (read edit results context : option Z) : toolkit :=
  mkToolkit (or_default read DEFAULT_MAX_READ_BYTES) (or_default edit DEFAULT_MAX_EDIT_BYTES)
    (or_default results DEFAULT_MAX_SEARCH_RESULTS) (or_default context DEFAULT_PREVIEW_CONTEXT_BYTES).

(** ** Input and output of bytes *)

Inductive InputEncoding := Utf8 | Hex | Base64.

(** [normalizeHex]: [0x] is taken out wherever it is, then what is no hex
    digit. *)
Fixpoint strip_0x (s : jsstring) : jsstring :=
  match s with
  | [] => []
  | c :: t =>
      match t with
      | [] => [c]
      | d :: t' => if (c =? 48) && ((d =? 120) || (d =? 88)) then strip_0x t' else c :: strip_0x t
      end
  end.

Definition is_hex (c : Z) : bool := match hex_value c with Some _ => true | None => false end.

Definition normalizeHex (input : jsstring) : jsstring :=
  List.filter is_hex (strip_0x input).

(** How [Buffer] reads base64, whatever stands between its digits. *)
Class BufferRuntime := { base64_decode : jsstring -> bytes }.

Definition parseInputData `{BufferRuntime} (value : jsstring + bytes) (encoding : InputEncoding)
  : result bytes :=
  match value with
  | inr bytes => Ok bytes
  | inl text =>
      match encoding with
      | Utf8 => Ok (utf8_encode text)
      | Base64 => Ok (base64_decode text)
      | Hex =>
          let normalized := normalizeHex text in
          if negb (Nat.even (length normalized))
          then Throw (plain_error "Hex input must contain an even number of nybbles")
          else Ok (hex_decode normalized)
      end
  end.

Definition base64_digit (n : Z) : Z :=
  if n <? 26 then 65 + n else if n <? 52 then 71 + n else if n <? 62 then n - 4
  else if n =? 62 then 43 else 47.

(** [buffer.toString('base64')] *)
Fixpoint base64_encode (bs : bytes) : jsstring :=
  match bs with
  | [] => []
  | [a] => [base64_digit (Z.shiftr a 2); base64_digit (Z.shiftl (Z.land a 3) 4); 61; 61]
  | [a; b] =>
      [base64_digit (Z.shiftr a 2); base64_digit (Z.lor (Z.shiftl (Z.land a 3) 4) (Z.shiftr b 4));
       base64_digit (Z.shiftl (Z.land b 15) 2); 61]
  | a :: b :: c :: t =>
      [base64_digit (Z.shiftr a 2); base64_digit (Z.lor (Z.shiftl (Z.land a 3) 4) (Z.shiftr b 4));
       base64_digit (Z.lor (Z.shiftl (Z.land b 15) 2) (Z.shiftr c 6)); base64_digit (Z.land c 63)]
      ++ base64_encode t
  end.

Record EncodedData := mkEncoded {
  en_byteLength : Z; en_hex : jsstring; en_base64 : jsstring; en_utf8 : jsstring
}.

(** [toString('utf8')] does not take a byte order mark away. *)
Definition encodeData (data : bytes) : EncodedData :=
  mkEncoded (len data) (hex_encode data) (base64_encode data)
    (flat_map utf16_point (Utf8Lossy.points Utf8Lossy.idle data)).

Definition concatBytes (parts : list bytes) : bytes := concat parts.

(** ** Requests *)

Definition not_natural : exn := plain_error "must be a non-negative integer".

Definition assertNonNegativeInteger (v : number) : result Z :=
  match v with NInt z => if z <? 0 then Throw not_natural else Ok z | _ => Throw not_natural end.

Inductive PatchKind := PatchInsert | PatchOverwrite | PatchDelete | PatchReplace.

Record PatchRequest := mkPatchRequest {
  pr_kind : PatchKind;
  pr_offset : number;
  pr_removeLength : option number;
  pr_data : option bytes;
  pr_previewContext : option Z;
  pr_dryRun : bool
}.

(** [request.removeLength || 0] *)
Definition or_zero (v : option number) : number :=
  match v with None | Some NNaN => NInt 0 | Some n => n end.

(** [v <= 0] and [v < 0] for what is not [NaN]. *)
Definition number_le0 (v : number) : bool :=
  match v with NInt z => z <=? 0 | NFrac n _ => n <? 0 | NInf negative => negative | NNaN => false end.
Definition number_lt0 (v : number) : bool :=
  match v with NInt z => z <? 0 | NFrac n _ => n <? 0 | NInf negative => negative | NNaN => false end.

(** [offset + v > size] for integers [offset] and [size]. *)
Definition reaches_beyond (offset : Z) (v : number) (size : Z) : bool :=
  match v with
  | NInt z => size <? offset + z
  | NFrac n k => 0 <? (offset - size) * 2 ^ Zpos k + n
  | NInf negative => negb negative
  | NNaN => false
  end.

Definition is_zero (v : number) : bool := match v with NInt 0 => true | _ => false end.

(** [subarray(i, j)] with its negative indices from the end. *)
Definition relative_index (i size : Z) : Z := if i <? 0 then Z.max 0 (size + i) else Z.min i size.
Definition typed_subarray (a : bytes) (i j : Z) : bytes :=
  let i := relative_index i (len a) in
  let j := relative_index j (len a) in
  take (Z.to_nat (j - i)) (drop (Z.to_nat i) a).

Record PatchPreview := mkPreview {
  pv_kind : PatchKind;
  pv_offset : Z;
  pv_removeLength : Z;
  pv_previewOffset : Z;
  pv_targetBefore : bytes;
  pv_targetAfter : bytes;
  pv_previewBefore : bytes;
  pv_previewAfter : bytes
}.

Record PatchResult := mkPatchResult { pt_serial : option Z; pt_preview : PatchPreview }.

Record ReadRangeResult := mkReadRange {
  rr_offset : Z; rr_requestedLength : Z; rr_actualLength : Z; rr_data : EncodedData
}.

(** ** The calls of the toolkit *)

Class ToolkitServer (S : Type) := {
  rpc_ensureRunning : S -> S * result unit;
  rpc_profile : Z -> Z -> S -> S * result (list number);
  rpc_saveSession : jsstring -> bool -> option (Z * Z) -> S -> S * result (jsstring * Z)
}.

Section Toolkit.
Context {S : Type} `{EditBackend S} `{SessionRpc S} `{ToolkitServer S} (t : toolkit).

Definition ensureServerRunning : M (world S) unit := request rpc_ensureRunning.

Definition beyond_end : exn := plain_error "offset is beyond the end of the session".
Definition over_read_limit : exn := plain_error "length exceeds configured maximum of bytes".

(** What both readings of a range check and find out. *)
Definition bounded_range (offset len : number) (positive : bool) : M (world S) (Z * Z * Z) :=
  let* o := liftM (assertNonNegativeInteger offset) in
  let* n := liftM (assertNonNegativeInteger len) in
  if positive && (n =? 0) then throwM (plain_error "length must be greater than 0")
  else if maxReadBytes t <? n then throwM over_read_limit
  else
    ensureServerRunning ;;;
    let* computedSize := getComputedFileSize in
    if computedSize <? o then throwM beyond_end
    else retM (o, n, Z.min n (Z.max 0 (computedSize - o))).

Definition readRange (offset len : number) : M (world S) ReadRangeResult :=
  let* range := bounded_range offset len false in
  let '(o, n, actualLength) := range in
  let* data := (if actualLength =? 0 then retM [] else getSegment (NInt o) (NInt actualLength)) in
  retM (mkReadRange o n actualLength (encodeData data)).

(** *** Profiles *)

Record ByteCount := mkByteCount { bc_byte : Z; bc_count : Z }.

(** [b.count - a.count || a.byte - b.byte], as the order it sorts by. *)
Definition count_le (a b : ByteCount) : Prop :=
  bc_count b < bc_count a \/ (bc_count a = bc_count b /\ bc_byte a <= bc_byte b).
#[local] Instance count_le_dec a b : Decision (count_le a b).
Proof. unfold count_le. apply _. Defined.

Record ProfileRangeResult := mkProfile {
  pf_offset : Z; pf_actualLength : Z; pf_totalBytes : Z; pf_asciiBytes : Z;
  pf_dosLineEndings : Z; pf_frequency : list Z; pf_topBytes : list ByteCount
}.

Definition sum (l : list Z) : Z := foldr Z.add 0 l.

Definition PROFILE_DOS_EOL : nat := 256.

(** The client's [profileSession] checks every count. *)
Definition profileSession (offset len : number) : M (world S) (list Z) :=
  let* o := input offset in
  let* n := input len in
  let* counts := request (rpc_profile o n) in
  liftM (requireSafeIntegerArrayOutput counts).

Definition numAscii (profile : list Z) : result Z :=
  requireSafeIntegerOutput (NInt (sum (take 128 profile))).

Definition topBytes (frequency : list Z) : list ByteCount :=
  take 10 (merge_sort count_le (List.filter (fun e => 0 <? bc_count e)
    (imap (fun byte count => mkByteCount (Z.of_nat byte) count) (take 256 frequency)))).

Definition profileRange (offset len : number) : M (world S) ProfileRangeResult :=
  let* range := bounded_range offset len true in
  let '(o, n, actualLength) := range in
  let* frequency := (if actualLength =? 0 then retM (replicate 257 0)
                     else profileSession (NInt o) (NInt actualLength)) in
  let totalBytes := sum (take 256 frequency) in
  let* asciiBytes := liftM (numAscii frequency) in
  retM (mkProfile o actualLength totalBytes asciiBytes (default 0 (frequency !! PROFILE_DOS_EOL))
          frequency (topBytes frequency)).

(** *** Searching and replacing *)

Definition empty_pattern : exn := plain_error "pattern must not be empty".
Definition over_limit : exn := plain_error "limit must be between results".

Definition folding (caseInsensitive : bool) : SearchCaseFolding :=
  if caseInsensitive then FOLD_ASCII else FOLD_NONE.

Definition search (pattern : bytes) (offset len limit : option number) (caseInsensitive reverse : bool)
  : M (world S) (list Z) :=
  let* o := liftM (assertNonNegativeInteger (default (NInt 0) offset)) in
  let* n := liftM (assertNonNegativeInteger (default (NInt 0) len)) in
  let* l := liftM (assertNonNegativeInteger (default (NInt 100) limit)) in
  if (l =? 0) || (maxSearchResults t <? l) then throwM over_limit
  else
    ensureServerRunning ;;;
    if (length pattern =? 0)%nat then throwM empty_pattern
    else searchSession pattern (folding caseInsensitive) reverse (NInt o) (NInt n) (NInt l).

Definition toolkit_replaceSession (pattern replacement : bytes) (offset size limit : option number)
  (caseInsensitive reverse frontToBack overwriteOnly : bool) : M (world S) Z :=
  let* o := liftM (assertNonNegativeInteger (default (NInt 0) offset)) in
  let* n := liftM (assertNonNegativeInteger (default (NInt 0) size)) in
  let* l := liftM (assertNonNegativeInteger (default (NInt 0) limit)) in
  if negb (l =? 0) && (maxSearchResults t <? l) then throwM over_limit
  else if (length pattern =? 0)%nat then throwM empty_pattern
  else if maxEditBytes t <? len replacement
  then throwM (plain_error "replacement exceeds configured maximum of bytes")
  else
    ensureServerRunning ;;;
    replaceSession pattern replacement (folding caseInsensitive) reverse (NInt o) (NInt n) (NInt l)
      frontToBack overwriteOnly false.

(** *** Patches *)

Definition normalizePatchRequest (rq : PatchRequest) : result (Z * number * bytes) :=
  o ← assertNonNegativeInteger (pr_offset rq);
  let data := default [] (pr_data rq) in
  if maxEditBytes t <? len data
  then Throw (plain_error "patch payload exceeds configured maximum of bytes")
  else
    match pr_kind rq with
    | PatchInsert =>
        if (length data =? 0)%nat then Throw (plain_error "insert requires data")
        else Ok (o, NInt 0, data)
    | PatchOverwrite =>
        if (length data =? 0)%nat then Throw (plain_error "overwrite requires data")
        else Ok (o, NInt (len data), data)
    | PatchDelete =>
        let removeLength := or_zero (pr_removeLength rq) in
        if number_le0 removeLength then Throw (plain_error "delete requires removeLength > 0")
        else Ok (o, removeLength, data)
    | PatchReplace =>
        let removeLength := or_zero (pr_removeLength rq) in
        if number_lt0 removeLength then Throw (plain_error "replace requires removeLength >= 0")
        else if (length data =? 0)%nat && is_zero removeLength
        then Throw (plain_error "replace requires data and/or removeLength")
        else Ok (o, removeLength, data)
    end.

Definition patch_beyond_end : exn := plain_error "patch extends beyond the end of the session".

(** A length that is no integer is refused by [getSegment]. *)
Definition buildPatchPreview (rq : PatchRequest) (normalized : Z * number * bytes)
  : M (world S) PatchPreview :=
  let '(o, removeLength, data) := normalized in
  ensureServerRunning ;;;
  let* sessionSize := getComputedFileSize in
  let previewContext :=
    Z.min (or_default (pr_previewContext rq) (previewContextBytes t)) (previewContextBytes t) in
  if sessionSize <? o then throwM beyond_end
  else if reaches_beyond o removeLength sessionSize then throwM patch_beyond_end
  else
    let* targetBefore := (if is_zero removeLength then retM [] else getSegment (NInt o) removeLength) in
    let* n := input removeLength in
    let targetAfter := match pr_kind rq with PatchDelete => [] | _ => data end in
    let previewOffset := Z.max 0 (o - previewContext) in
    let previewEnd := Z.min sessionSize (o + n + previewContext) in
    let previewBeforeLength := previewEnd - previewOffset in
    let* previewBefore := (if previewBeforeLength =? 0 then retM []
                           else getSegment (NInt previewOffset) (NInt previewBeforeLength)) in
    let relativeOffset := o - previewOffset in
    let relativeEnd := relativeOffset + n in
    let previewAfter := concatBytes [typed_subarray previewBefore 0 relativeOffset; targetAfter;
      typed_subarray previewBefore relativeEnd (len previewBefore)] in
    retM (mkPreview (pr_kind rq) o n previewOffset targetBefore targetAfter previewBefore previewAfter).

Definition previewPatch (rq : PatchRequest) : M (world S) PatchPreview :=
  let* normalized := liftM (normalizePatchRequest rq) in
  buildPatchPreview rq normalized.

Definition applyPatch (rq : PatchRequest) : M (world S) PatchResult :=
  let* normalized := liftM (normalizePatchRequest rq) in
  let* preview := buildPatchPreview rq normalized in
  if pr_dryRun rq then retM (mkPatchResult None preview)
  else
    let '(o, removeLength, data) := normalized in
    let* serial :=
      match pr_kind rq with
      | PatchInsert => insert (NInt o) data false
      | PatchOverwrite => overwrite (NInt o) data false
      | PatchDelete => del (NInt o) removeLength false
      | PatchReplace => replace (NInt o) removeLength data false
      end in
    retM (mkPatchResult (Some serial) preview).

(** *** History and saving *)

Definition toolkit_undo : M (world S) Z := ensureServerRunning ;;; EditSession.undo false.
Definition toolkit_redo : M (world S) Z := ensureServerRunning ;;; EditSession.redo false.

(** The path has been resolved. *)
Definition toolkit_saveSession (outputPath : jsstring) (overwriteExisting : bool)
  : M (world S) (jsstring * Z) :=
  ensureServerRunning ;;; request (rpc_saveSession outputPath overwriteExisting None).

Definition exportRange (offset len : number) (outputPath : jsstring) (overwriteExisting : bool)
  : M (world S) (jsstring * Z) :=
  let* o := liftM (assertNonNegativeInteger offset) in
  let* n := liftM (assertNonNegativeInteger len) in
  if maxReadBytes t <? n then throwM over_read_limit
  else
    ensureServerRunning ;;;
    let* o := input (NInt o) in
    let* n := input (NInt n) in
    request (rpc_saveSession outputPath overwriteExisting (Some (o, n))).
End Toolkit.

(** ** Reasoning about calls that succeed *)

Class ToolkitServerLaws (S : Type) `{EditBackendLaws S} `{ToolkitServer S} := {
  rpc_running_law s : alive s -> rpc_ensureRunning s = (s, Ok tt)
}.

Section Runs.
Context {S : Type} `{SessionRpcLaws S} `{!ToolkitServer S} `{!ToolkitServerLaws S} (t : toolkit).

(** On a server that answers and holds [b], [m] returns, with a result in [Q],
    and leaves [b']. *)
Definition answers {A} (m : M (world S) A) (b b' : bytes) (Q : A -> Prop) : Prop :=
  forall w, alive (server w) -> content (server w) = b ->
    exists w' r, m w = (w', Ok r) /\ alive (server w') /\ content (server w') = b' /\ Q r.

Lemma answers_performs {A} (m : M (world S) A) b b' Q : performs m b b' Q -> answers m b b' Q.
Proof.
  intros Hm w Ha Hb. destruct (Hm w Hb) as [Hs Hl]. destruct (Hl Ha) as (w' & r & E & Ha').
  exists w', r. destruct (Hs w' r E). done.
Qed.

Lemma answers_ret {A} (a : A) b (Q : A -> Prop) : Q a -> answers (retM a) b b Q.
Proof. intros HQ w Ha Hb. by exists w, a. Qed.

Lemma answers_bind {A B} (m : M (world S) A) (f : A -> M (world S) B) b1 b2 b3 P Q :
  answers m b1 b2 P -> (forall a, P a -> answers (f a) b2 b3 Q) -> answers (bindM m f) b1 b3 Q.
Proof.
  intros Hm Hf w Ha Hb. destruct (Hm w Ha Hb) as (w1 & a & E & Ha1 & Hb1 & HP).
  unfold bindM. rewrite E. by apply (Hf a HP).
Qed.

Lemma answers_lift {A B} (r : result A) a (f : A -> M (world S) B) b b' Q :
  r = Ok a -> answers (f a) b b' Q -> answers (bindM (liftM r) f) b b' Q.
Proof. intros -> Hf. exact Hf. Qed.

Lemma answers_weaken {A} (m : M (world S) A) b b' (P Q : A -> Prop) :
  answers m b b' P -> (forall a, P a -> Q a) -> answers m b b' Q.
Proof.
  intros Hm HPQ w Ha Hb. destruct (Hm w Ha Hb) as (w' & r & E & Ha' & Hb' & HP). exists w', r. auto.
Qed.

Lemma answers_running {A} (m : M (world S) A) b b' Q :
  answers m b b' Q -> answers (ensureServerRunning ;;; m) b b' Q.
Proof.
  intros Hm w Ha Hb. unfold ensureServerRunning, request, bindM, call, liftM.
  rewrite (rpc_running_law _ Ha). cbn. destruct w as [s st]. by apply Hm.
Qed.

Lemma answers_size {A} (f : Z -> M (world S) A) b b' Q :
  len b <= MAX_SAFE_INTEGER -> answers (f (len b)) b b' Q ->
  answers (bindM getComputedFileSize f) b b' Q.
Proof.
  intros Hb Hf w Ha Hw. unfold getComputedFileSize, request, output, bindM, call, liftM.
  rewrite (rpc_size_law _ Ha), Hw. cbn. pose proof (len_nonneg b).
  rewrite requireSafeIntegerOutput_int by (apply safeZ_spec; lia). cbn. destruct w as [s st]. by apply Hf.
Qed.

Lemma answers_segment b o n :
  len b <= MAX_SAFE_INTEGER -> 0 <= o -> 0 <= n -> o + n <= len b ->
  answers (getSegment (NInt o) (NInt n)) b b (fun d => d = take (Z.to_nat n) (drop (Z.to_nat o) b)).
Proof.
  intros Hb Ho Hn Hr w Ha Hw. unfold getSegment, input.
  rewrite !requireSafeIntegerInput_int by (apply safeZ_spec; lia).
  unfold request, bindM, call, liftM. subst b. rewrite (rpc_segment_law _ _ _ Ha Ho Hn Hr). cbn.
  eexists _, _. split; [reflexivity|]. by destruct w.
Qed.

(** Nothing is asked for when there is nothing to read. *)
Lemma answers_segment_or_nothing b o n :
  len b <= MAX_SAFE_INTEGER -> 0 <= o -> 0 <= n -> o + n <= len b ->
  answers (if n =? 0 then retM [] else getSegment (NInt o) (NInt n)) b b
    (fun d => d = take (Z.to_nat n) (drop (Z.to_nat o) b)).
Proof.
  intros Hb Ho Hn Hr. destruct (Z.eqb_spec n 0) as [->|]; [by apply answers_ret|].
  by apply answers_segment.
Qed.

Lemma answers_range b o n positive :
  len b <= MAX_SAFE_INTEGER -> 0 <= o <= len b -> 0 <= n <= maxReadBytes t ->
  (positive = true -> n <> 0) ->
  answers (bounded_range t (NInt o) (NInt n) positive) b b
    (fun r => r = (o, n, Z.min n (len b - o))).
Proof.
  intros Hb Ho Hn Hp. unfold bounded_range.
  apply (answers_lift _ o); [unfold assertNonNegativeInteger; destruct (Z.ltb_spec o 0); [lia|done]|].
  apply (answers_lift _ n); [unfold assertNonNegativeInteger; destruct (Z.ltb_spec n 0); [lia|done]|].
  replace (positive && (n =? 0)) with false
    by (destruct positive; [destruct (Z.eqb_spec n 0); [by destruct Hp|done]|done]).
  destruct (Z.ltb_spec (maxReadBytes t) n); [lia|]. apply answers_running, answers_size; [done|].
  destruct (Z.ltb_spec (len b) o); [lia|]. apply answers_ret.
  by replace (Z.max 0 (len b - o)) with (len b - o) by lia.
Qed.

(** ** Patches *)

(** The request that passed its checks is about a range of the session. *)
Record in_session (rq : PatchRequest) (o n : Z) (data b : bytes) : Prop := {
  is_normalized : normalizePatchRequest t rq = Ok (o, NInt n, data);
  is_range : o + n <= len b
}.

Definition target_after (rq : PatchRequest) (data : bytes) : bytes :=
  match pr_kind rq with PatchDelete => [] | _ => data end.

Lemma normalized_bounds rq o n data :
  normalizePatchRequest t rq = Ok (o, NInt n, data) ->
  0 <= o /\ 0 <= n /\ len data <= maxEditBytes t /\ (n <> 0 \/ target_after rq data <> []).
Proof.
  unfold normalizePatchRequest, assertNonNegativeInteger, target_after.
  destruct (pr_offset rq) as [z| | |]; try done. destruct (Z.ltb_spec z 0); [done|]. cbn.
  destruct (Z.ltb_spec (maxEditBytes t) (len (default [] (pr_data rq)))); [done|].
  pose proof (len_nonneg (default [] (pr_data rq))).
  destruct (pr_kind rq).
  - destruct (default [] (pr_data rq)) eqn:E; [done|]. cbn. intros [= <- <- <-]. rewrite <- E in *.
    repeat split; try lia. right. by rewrite E.
  - destruct (default [] (pr_data rq)) eqn:E; [done|]. cbn. intros [= <- <- <-].
    repeat split; try (cbn in *; lia). by right.
  - destruct (number_le0 _) eqn:E; [done|]. intros [= <- Hn <-]. rewrite Hn in E. cbn in E. bool_prop.
    repeat split; try lia.
  - destruct (number_lt0 _) eqn:E; [done|]. destruct (_ && _) eqn:E2; [done|]. intros [= <- Hn <-].
    rewrite Hn in E, E2. cbn in E, E2. bool_prop. repeat split; try lia.
    destruct (default [] (pr_data rq)); [|by right]. left. intros ->. done.
Qed.

(** The part of the session a preview shows: before, removed, after. *)
Lemma split_window (b : bytes) (p o n e : nat) :
  (p <= o)%nat -> (o + n <= e)%nat -> (e <= length b)%nat ->
  exists P1 P2 R Q1 Q2, b = P1 ++ P2 ++ R ++ Q1 ++ Q2 /\ length P1 = p /\ length P2 = (o - p)%nat /\
    length R = n /\ length Q1 = (e - o - n)%nat.
Proof.
  intros Hp Ho He. exists (take p b), (take (o - p) (drop p b)), (take n (drop o b)),
    (take (e - o - n) (drop (o + n) b)), (drop e b).
  split; [|rewrite !length_take, !length_drop; lia].
  rewrite <- (take_drop p b) at 1. f_equal. rewrite <- (take_drop (o - p) (drop p b)) at 1. f_equal.
  rewrite drop_drop. replace (p + (o - p))%nat with o by lia.
  rewrite <- (take_drop n (drop o b)) at 1. f_equal. rewrite drop_drop.
  rewrite <- (take_drop (e - o - n) (drop (o + n) b)) at 1. f_equal. rewrite drop_drop. f_equal. lia.
Qed.

Lemma typed_subarray_mid (A B C : bytes) i j :
  i = len A -> j = len A + len B -> typed_subarray (A ++ B ++ C) i j = B.
Proof.
  intros -> ->. unfold typed_subarray, relative_index, len. rewrite !length_app.
  destruct (Z.ltb_spec (Z.of_nat (length A)) 0); [lia|].
  destruct (Z.ltb_spec (Z.of_nat (length A) + Z.of_nat (length B)) 0); [lia|].
  rewrite !Z.min_l by lia. rewrite Nat2Z.id, drop_app_length.
  replace (Z.to_nat _) with (length B) by lia. apply take_app_length.
Qed.

Lemma segment_mid (A B C : bytes) (o n : Z) :
  o = len A -> n = len B -> take (Z.to_nat n) (drop (Z.to_nat o) (A ++ B ++ C)) = B.
Proof. intros -> ->. unfold len. rewrite !Nat2Z.id, drop_app_length. apply take_app_length. Qed.

(** What a preview of the replacement of [R] by [target] shows, when the
    session is [P1 ++ P2 ++ R ++ Q1 ++ Q2]. *)
Definition shows (pv : PatchPreview) (P1 P2 R Q1 target : bytes) : Prop :=
  pv_offset pv = len P1 + len P2 /\ pv_previewOffset pv = len P1 /\
  pv_targetBefore pv = R /\ pv_targetAfter pv = target /\
  pv_previewBefore pv = P2 ++ R ++ Q1 /\ pv_previewAfter pv = P2 ++ target ++ Q1.

Lemma answers_preview rq o n data b :
  len b <= MAX_SAFE_INTEGER -> in_session rq o n data b ->
  0 <= previewContextBytes t -> (forall c, pr_previewContext rq = Some c -> 0 <= c) ->
  exists P1 P2 R Q1 Q2,
    b = P1 ++ P2 ++ R ++ Q1 ++ Q2 /\ o = len P1 + len P2 /\ n = len R /\
    len P2 <= previewContextBytes t /\ len Q1 <= previewContextBytes t /\
    answers (buildPatchPreview t rq (o, NInt n, data)) b b
      (fun pv => shows pv P1 P2 R Q1 (target_after rq data)).
Proof.
  intros Hb [Hnorm Hr] Hc0 Hc1. destruct (normalized_bounds rq o n data Hnorm) as (Ho & Hn & _).
  set (c := Z.min (or_default (pr_previewContext rq) (previewContextBytes t)) (previewContextBytes t)).
  assert (Hc : 0 <= c <= previewContextBytes t).
  { unfold c, or_default. destruct (pr_previewContext rq) as [z|]; [|lia].
    specialize (Hc1 z eq_refl). destruct z; cbn; lia. }
  set (p := Z.max 0 (o - c)). set (e := Z.min (len b) (o + n + c)).
  assert (Hp : 0 <= p <= o /\ o - p <= previewContextBytes t) by (unfold p; lia).
  assert (He : o + n <= e <= len b /\ e - o - n <= previewContextBytes t) by (unfold e; lia).
  destruct (split_window b (Z.to_nat p) (Z.to_nat o) (Z.to_nat n) (Z.to_nat e))
    as (P1 & P2 & R & Q1 & Q2 & Hs & L1 & L2 & L3 & L4); [lia|lia|unfold len in *; lia|].
  assert (E1 : len P1 = p) by (unfold len; lia). assert (E2 : len P2 = o - p) by (unfold len; lia).
  assert (E3 : len R = n) by (unfold len; lia). assert (E4 : len Q1 = e - o - n) by (unfold len; lia).
  exists P1, P2, R, Q1, Q2. split; [done|]. split; [lia|]. split; [done|].
  split; [lia|]. split; [lia|].
  unfold buildPatchPreview. cbn [is_zero reaches_beyond]. apply answers_running, answers_size; [done|].
  fold c. cbv beta zeta. destruct (Z.ltb_spec (len b) o); [lia|].
  destruct (Z.ltb_spec (len b) (o + n)); [lia|].
  eapply answers_bind.
  { replace (is_zero (NInt n)) with (n =? 0) by (by destruct n).
    by apply answers_segment_or_nothing. }
  intros before Hbefore. unfold input.
  apply (answers_lift _ n); [apply requireSafeIntegerInput_int, safeZ_spec; lia|].
  change (Z.max 0 (o - c)) with p. change (Z.min (len b) (o + n + c)) with e. clearbody p e.
  eapply answers_bind; [apply answers_segment_or_nothing; lia|].
  intros window Hwindow. apply answers_ret.
  assert (Hw : window = P2 ++ R ++ Q1).
  { rewrite Hwindow, Hs. replace (P1 ++ P2 ++ R ++ Q1 ++ Q2) with (P1 ++ (P2 ++ R ++ Q1) ++ Q2)
      by (by rewrite <- !app_assoc).
    apply segment_mid; [done|]. unfold len in *. rewrite !length_app. lia. }
  assert (Hbf : before = R).
  { rewrite Hbefore, Hs, app_assoc. apply segment_mid; [|done]. unfold len in *. rewrite length_app. lia. }
  unfold shows. cbn. split; [lia|]. split; [done|]. split; [done|]. split; [done|]. split; [done|].
  rewrite Hw, app_nil_r. f_equal; [|f_equal].
  - apply (typed_subarray_mid [] P2 (R ++ Q1)); unfold len in *; cbn; lia.
  - rewrite <- (app_nil_r (P2 ++ R ++ Q1)), <- !app_assoc, (app_assoc P2 R).
    apply typed_subarray_mid; unfold len in *; rewrite !length_app; cbn; lia.
Qed.

(** The change that is submitted replaces exactly the range. *)
Lemma performs_patch rq o n data pre removed post :
  normalizePatchRequest t rq = Ok (o, NInt n, data) ->
  o = len pre -> n = len removed -> len pre + len removed <= MAX_SAFE_INTEGER ->
  performs
    (match pr_kind rq with
     | PatchInsert => insert (NInt o) data false
     | PatchOverwrite => overwrite (NInt o) data false
     | PatchDelete => del (NInt o) (NInt n) false
     | PatchReplace => replace (NInt o) (NInt n) data false
     end : M (world S) Z)
    (pre ++ removed ++ post) (pre ++ target_after rq data ++ post) (fun r => r <> 0).
Proof.
  intros Hnorm -> -> Hmax. destruct (normalized_bounds rq _ _ data Hnorm) as (Ho & Hn & _ & Hne).
  unfold normalizePatchRequest in Hnorm. destruct (assertNonNegativeInteger _) as [o'|]; [|done].
  cbn in Hnorm. destruct (maxEditBytes t <? _); [done|]. unfold target_after in *.
  destruct (pr_kind rq).
  - destruct (length (default [] (pr_data rq)) =? 0)%nat eqn:Ed; [done|]. cbn in Hnorm.
    injection Hnorm as _ Hrm Hdata. rewrite Hdata in *. apply Nat.eqb_neq in Ed.
    assert (removed = []) as -> by (apply nil_length_inv; unfold len in Hrm; lia).
    pose proof (apply_insert_at pre post [] [] data (len pre) ltac:(unfold len; cbn; lia)) as Eins.
    cbn [app] in Eins. rewrite app_nil_r in Eins. cbn [app]. rewrite <- Eins.
    apply performs_insert; [lia|unfold len; rewrite length_app; lia|by intros ->].
  - destruct (length (default [] (pr_data rq)) =? 0)%nat eqn:Ed; [done|]. cbn in Hnorm.
    injection Hnorm as _ Hrm Hdata. rewrite Hdata in *. apply Nat.eqb_neq in Ed.
    pose proof (apply_overwrite_at pre post [] removed data [] (len pre)
      ltac:(unfold len; cbn; lia) ltac:(unfold len in *; cbn in *; lia)) as Eov.
    cbn [app] in Eov. rewrite !app_nil_r in Eov. rewrite <- Eov.
    apply performs_overwrite; [lia|unfold len in *; rewrite !length_app; cbn in *; lia|by intros ->].
  - pose proof (apply_delete_at pre post [] removed [] (len pre) (len removed)
      ltac:(unfold len; cbn; lia) eq_refl) as Edel.
    cbn [app] in Edel. rewrite !app_nil_r in Edel. cbn [app]. rewrite <- Edel.
    destruct Hne as [Hne|Hne]; [|done].
    apply performs_del; [lia|lia|unfold len in *; rewrite !length_app; lia].
  - apply performs_replace; [unfold len in *; lia|].
    destruct Hne as [Hne|Hne]; [left; by intros ->|by right].
Qed.

Lemma answers_applyPatch rq o n data b :
  len b <= MAX_SAFE_INTEGER -> in_session rq o n data b ->
  0 <= previewContextBytes t -> (forall c, pr_previewContext rq = Some c -> 0 <= c) ->
  exists P1 P2 R Q1 Q2,
    b = P1 ++ P2 ++ R ++ Q1 ++ Q2 /\
    len P2 <= previewContextBytes t /\ len Q1 <= previewContextBytes t /\ len R = n /\
    answers (applyPatch t rq) b
      (if pr_dryRun rq then b else P1 ++ P2 ++ target_after rq data ++ Q1 ++ Q2)
      (fun r => shows (pt_preview r) P1 P2 R Q1 (target_after rq data)).
Proof.
  intros Hb Hin Hc0 Hc1. pose proof Hin as [Hnorm Hr].
  destruct (answers_preview rq o n data b Hb Hin Hc0 Hc1)
    as (P1 & P2 & R & Q1 & Q2 & Hs & Ho & Hn & HP2 & HQ1 & Hpv).
  exists P1, P2, R, Q1, Q2. repeat (split; [done|]). unfold applyPatch.
  apply (answers_lift _ (o, NInt n, data)); [done|]. eapply answers_bind; [exact Hpv|].
  intros pv Hshow. destruct (pr_dryRun rq); [by apply answers_ret|].
  eapply answers_bind; [|intros serial _; by apply answers_ret].
  apply answers_performs. pose proof (performs_patch rq o n data (P1 ++ P2) R (Q1 ++ Q2) Hnorm) as Hp.
  rewrite <- !app_assoc in Hp. rewrite Hs. apply Hp; unfold len in *; rewrite !length_app in *; lia.
Qed.
End Runs.

(** ** Profiles *)

#[local] Instance count_le_total : Total count_le.
Proof. intros a b. unfold count_le. lia. Qed.
#[local] Instance count_le_trans : Transitive count_le.
Proof. intros a b c. unfold count_le. lia. Qed.

(** The bytes that occur, with how often. *)
Definition occurring (frequency : list Z) : list ByteCount :=
  List.filter (fun e => 0 <? bc_count e)
    (imap (fun byte count => mkByteCount (Z.of_nat byte) count) (take 256 frequency)).

Lemma occurring_spec frequency e :
  e ∈ occurring frequency <->
  exists byte count, e = mkByteCount (Z.of_nat byte) count /\ (byte < 256)%nat /\
    frequency !! byte = Some count /\ 0 < count.
Proof.
  unfold occurring. rewrite list_elem_of_In, filter_In, <- list_elem_of_In, elem_of_lookup_imap. split.
  - intros [(i & c & -> & Hl) Hp]. apply lookup_take_Some in Hl as [Hl Hi]. cbn in Hp. bool_prop. eauto 6.
  - intros (i & c & -> & Hi & Hl & Hc). split; [|cbn; bool_prop; lia].
    exists i, c. split; [done|]. by rewrite lookup_take_lt.
Qed.

(** What is first in a sorted list is at most what comes later. *)
Lemma sorted_take_best {A} (R : A -> A -> Prop) n l e :
  StronglySorted R l -> e ∈ l ->
  e ∈ take n l \/ (length (take n l) = n /\ Forall (fun x => R x e) (take n l)).
Proof.
  intros Hs. revert n. induction Hs as [|x l Hs IH Hx]; intros n He; [by apply not_elem_of_nil in He|].
  destruct n as [|n]; [by right|]. apply elem_of_cons in He as [->|He]; [by left; left|].
  destruct (IH n He) as [Hin|[Hl Ha]]; [left; by right|right].
  split; [cbn; by rewrite Hl|]. constructor; [|done]. rewrite Forall_forall in Hx. by apply Hx.
Qed.

(** The ten bytes reported are in descending order of their counts, every
    one occurs as often as is said, and a byte left out occurs no more often
    than any of the ten. *)
Lemma top_bytes_correct frequency :
  StronglySorted count_le (topBytes frequency) /\
  (forall e, e ∈ topBytes frequency -> e ∈ occurring frequency) /\
  (forall e, e ∈ occurring frequency ->
    e ∈ topBytes frequency \/
    (length (topBytes frequency) = 10%nat /\ Forall (fun x => count_le x e) (topBytes frequency))).
Proof.
  unfold topBytes. change (List.filter _ _) with (occurring frequency).
  pose proof (merge_sort_Permutation count_le (occurring frequency)) as Hperm.
  pose proof (StronglySorted_merge_sort count_le (occurring frequency)) as Hsort.
  split; [by apply sorted_take|]. split.
  - intros e He. rewrite <- Hperm. apply elem_of_take in He as (i & He & _). by eapply list_elem_of_lookup_2.
  - intros e He. rewrite <- Hperm in He. by apply sorted_take_best.
Qed.

(** ** Bytes as text *)

Lemma hex_digit_read n :
  0 <= n < 16 -> hex_value (hex_digit n) = Some n /\ hex_digit n <> 120 /\ hex_digit n <> 88.
Proof.
  intros Hn. unfold hex_digit, hex_value. destruct (Z.ltb_spec n 10).
  - replace ((48 <=? 48 + n) && (48 + n <=? 57)) with true by (symmetry; bool_prop; lia).
    repeat split; [f_equal|..]; lia.
  - replace ((48 <=? 87 + n) && (87 + n <=? 57)) with false by (symmetry; apply andb_false_iff; lia).
    replace ((97 <=? 87 + n) && (87 + n <=? 102)) with true by (symmetry; bool_prop; lia).
    repeat split; [f_equal|..]; lia.
Qed.

Lemma strip_0x_id s : Forall (fun c => c <> 120 /\ c <> 88) s -> strip_0x s = s.
Proof.
  induction s as [|c s IH]; [done|]. intros Hs. apply Forall_cons in Hs as [Hc Hs].
  destruct s as [|d s]; [done|]. change (strip_0x (c :: d :: s))
    with (if (c =? 48) && ((d =? 120) || (d =? 88)) then strip_0x s else c :: strip_0x (d :: s)).
  apply Forall_cons in Hs as Hs'. destruct Hs' as [Hd _].
  replace ((d =? 120) || (d =? 88)) with false by (symmetry; apply orb_false_iff; lia).
  rewrite andb_false_r. by rewrite IH.
Qed.

Lemma nybble_bounds z : 0 <= Z.land z 15 < 16.
Proof. change 15 with (Z.ones 4). rewrite Z.land_ones by lia. apply Z.mod_pos_bound. lia. Qed.

Lemma hex_encode_digits d : Forall (fun c => is_hex c = true /\ c <> 120 /\ c <> 88) (hex_encode d).
Proof.
  induction d as [|x d IH]; [constructor|]. cbn.
  destruct (hex_digit_read _ (nybble_bounds (Z.shiftr x 4))) as (Hh & ? & ?).
  destruct (hex_digit_read _ (nybble_bounds x)) as (Hl & ? & ?).
  repeat constructor; try done; unfold is_hex; by rewrite ?Hh, ?Hl.
Qed.

Lemma hex_encode_length d : length (hex_encode d) = (2 * length d)%nat.
Proof. unfold hex_encode. induction d as [|x d IH]; [done|]. cbn [flat_map app length]. rewrite IH. lia. Qed.

Lemma nybbles_of_byte x : 0 <= x < 256 -> 16 * Z.land (Z.shiftr x 4) 15 + Z.land x 15 = x.
Proof.
  intros Hx. change 15 with (Z.ones 4). rewrite !Z.land_ones, Z.shiftr_div_pow2 by lia.
  change (2 ^ 4) with 16. rewrite (Z.mod_small (x / 16)) by (split; [apply Z.div_pos|apply Z.div_lt_upper_bound]; lia).
  pose proof (Z.div_mod x 16). lia.
Qed.

Lemma hex_decode_encode d : Forall (fun x => 0 <= x < 256) d -> hex_decode (hex_encode d) = d.
Proof.
  induction 1 as [|x d Hx Hd IH]; [done|]. cbn [hex_encode flat_map app hex_decode].
  destruct (hex_digit_read _ (nybble_bounds (Z.shiftr x 4))) as (-> & _).
  destruct (hex_digit_read _ (nybble_bounds x)) as (-> & _).
  rewrite nybbles_of_byte by done. f_equal. exact IH.
Qed.

(** Bytes that were reported in hexadecimal are read back as they were. *)
Theorem hex_reported_read_back `{BufferRuntime} (d : bytes) :
  Forall (fun x => 0 <= x < 256) d -> parseInputData (inl (en_hex (encodeData d))) Hex = Ok d.
Proof.
  intros Hd. unfold parseInputData, encodeData, en_hex, normalizeHex. pose proof (hex_encode_digits d) as Hf.
  rewrite strip_0x_id by (eapply Forall_impl; [exact Hf|]; cbn; tauto).
  rewrite (forallb_filter_id is_hex).
  - rewrite hex_encode_length, Nat.even_mul. cbn [Nat.even orb negb]. cbv zeta iota.
    by rewrite hex_decode_encode.
  - apply forallb_forall. intros c Hc. rewrite Forall_forall in Hf. apply Hf. by apply list_elem_of_In.
Qed.

(** ** The toolkit on a server *)

Section Correct.
Context {S : Type} `{SessionRpcLaws S} `{!ToolkitServer S} `{!ToolkitServerLaws S} (t : toolkit).

(** C25 When a server holds [b] and answers, a patch on
    a range of [b] succeeds, and what is then in the session is what its
    preview shows: with [b = P1 ++ P2 ++ R ++ Q1 ++ Q2], the preview shows
    [P2 ++ R ++ Q1] before and [P2 ++ target ++ Q1] after, [R] is what is
    removed, and the session becomes [P1 ++ P2 ++ target ++ Q1 ++ Q2].  A dry
    run shows the same and changes nothing. *)
Theorem patch_previewed (w : world S) (rq : PatchRequest) (o n : Z) (data : bytes) :
  let b := content (server w) in
  alive (server w) -> len b <= MAX_SAFE_INTEGER ->
  normalizePatchRequest t rq = Ok (o, NInt n, data) -> o + n <= len b ->
  0 <= previewContextBytes t -> (forall c, pr_previewContext rq = Some c -> 0 <= c) ->
  exists w' r P1 P2 R Q1 Q2,
    applyPatch t rq w = (w', Ok r) /\ alive (server w') /\
    b = P1 ++ P2 ++ R ++ Q1 ++ Q2 /\ len R = n /\
    len P2 <= previewContextBytes t /\ len Q1 <= previewContextBytes t /\
    shows (pt_preview r) P1 P2 R Q1 (target_after rq data) /\
    content (server w') =
      (if pr_dryRun rq then b else P1 ++ P2 ++ target_after rq data ++ Q1 ++ Q2).
Proof.
  cbn zeta. intros Ha Hb Hnorm Hr Hc0 Hc1.
  destruct (answers_applyPatch t rq o n data _ Hb (Build_in_session _ _ _ _ _ _ Hnorm Hr) Hc0 Hc1)
    as (P1 & P2 & R & Q1 & Q2 & Hs & HP & HQ & HR & Hans).
  destruct (Hans w Ha eq_refl) as (w' & r & E & Ha' & Hb' & Hsh).
  exists w', r, P1, P2, R, Q1, Q2. done.
Qed.

(** A reading that starts in the session and asks
    for no more than the limit returns the bytes there are, encoded, and says
    how many they are. *)
Theorem read_range_correct (w : world S) (o n : Z) :
  let b := content (server w) in
  alive (server w) -> len b <= MAX_SAFE_INTEGER -> 0 <= o <= len b -> 0 <= n <= maxReadBytes t ->
  exists w' r,
    readRange t (NInt o) (NInt n) w = (w', Ok r) /\ content (server w') = b /\
    rr_offset r = o /\ rr_requestedLength r = n /\ rr_actualLength r = Z.min n (len b - o) /\
    rr_data r = encodeData (take (Z.to_nat n) (drop (Z.to_nat o) b)) /\
    en_byteLength (rr_data r) = rr_actualLength r.
Proof.
  cbn zeta. intros Ha Hb Ho Hn.
  assert (Hans : answers (readRange t (NInt o) (NInt n)) (content (server w)) (content (server w))
    (fun r => r = mkReadRange o n (Z.min n (len (content (server w)) - o))
       (encodeData (take (Z.to_nat n) (drop (Z.to_nat o) (content (server w))))))).
  { unfold readRange. eapply answers_bind; [by apply answers_range|]. intros ? ->.
    eapply answers_bind; [apply answers_segment_or_nothing; lia|]. intros d ->. apply answers_ret.
    f_equal. f_equal. unfold len. rewrite Z2Nat.inj_min.
    replace (Z.to_nat (Z.of_nat _ - o)) with (length (drop (Z.to_nat o) (content (server w))))
      by (rewrite length_drop; lia).
    rewrite <- take_take. by rewrite firstn_all. }
  destruct (Hans w Ha eq_refl) as (w' & r & E & _ & Hb' & ->).
  eexists w', _. split; [exact E|]. cbn. repeat (split; [done|]). unfold len in *.
  rewrite length_take, length_drop. lia.
Qed.

(** A patch that is refused by its checks, or whose
    range leaves the session, changes nothing. *)
Theorem patch_refused (w : world S) (rq : PatchRequest) :
  alive (server w) -> len (content (server w)) <= MAX_SAFE_INTEGER ->
  (forall o n data, normalizePatchRequest t rq = Ok (o, n, data) ->
     reaches_beyond o n (len (content (server w))) = true) ->
  exists e, applyPatch t rq w = (w, Throw e).
Proof.
  intros Ha Hb Hbad. unfold applyPatch, bindM at 1, liftM at 1.
  destruct (normalizePatchRequest t rq) as [[[o n] data]|e]; [|by exists e].
  specialize (Hbad _ _ _ eq_refl). cbv iota. unfold buildPatchPreview.
  unfold ensureServerRunning, getComputedFileSize, request, output, bindM, call, liftM.
  rewrite (rpc_running_law _ Ha). cbn. rewrite (rpc_size_law _ Ha). cbn.
  pose proof (len_nonneg (content (server w))).
  rewrite requireSafeIntegerOutput_int by (apply safeZ_spec; lia). cbn. destruct w as [s st]. cbn in *.
  rewrite Hbad. destruct (_ <? _); unfold throwM; cbn; eauto.
Qed.
End Correct.

(** [BufferServer] with the calls of the toolkit; profiles count the bytes. *)
Module BufferToolkit.

#[global] Instance toolkit_server : ToolkitServer BufferServer.t := {
  rpc_ensureRunning s := (s, Ok tt);
  rpc_profile o n s :=
    let part := take (Z.to_nat n) (drop (Z.to_nat o) (BufferServer.buf s)) in
    (s, Ok (map (fun b => NInt (Z.of_nat (count_occ Z.eq_dec part (Z.of_nat b)))) (seq 0 256) ++ [NInt 0]));
  rpc_saveSession path _ _ s := (s, Ok (path, 0))
}.

#[global] Instance toolkit_laws : ToolkitServerLaws BufferServer.t.
Proof. split. done. Defined.

Definition four : world BufferServer.t := BufferServer.init [1; 2; 3; 4] [].

Lemma four_alive : alive (server four).
Proof. split; [constructor|]. unfold MAX_SAFE_INTEGER. cbn. lia. Qed.

Definition swap : PatchRequest :=
  mkPatchRequest PatchReplace (NInt 1) (Some (NInt 2)) (Some [9; 9; 9]) (Some 1) false.

End BufferToolkit.

Lemma patch_previewed_witness :
  exists w' r, applyPatch (new_toolkit None None None None) BufferToolkit.swap BufferToolkit.four
    = (w', Ok r) /\ alive (server w').
Proof.
  destruct (patch_previewed (new_toolkit None None None None) BufferToolkit.four BufferToolkit.swap
    1 2 [9; 9; 9] BufferToolkit.four_alive ltac:(done) ltac:(reflexivity) ltac:(done) ltac:(done))
    as (w' & r & P1 & P2 & R & Q1 & Q2 & E & Ha & _).
  - intros c [= <-]. done.
  - exists w', r. done.
Defined.

Example patch_run :
  let '(w', r) := applyPatch (new_toolkit None None None None) BufferToolkit.swap BufferToolkit.four in
  (content (server w'), match r with Ok p => (pv_previewBefore (pt_preview p), pv_previewAfter (pt_preview p))
                        | Throw _ => ([], []) end)
  = ([1; 9; 9; 9; 4], ([1; 2; 3; 4], [1; 9; 9; 9; 4])).
Proof. vm_compute. reflexivity. Qed.

Lemma read_range_correct_witness :
  exists w' r, readRange (new_toolkit None None None None) (NInt 1) (NInt 9) BufferToolkit.four = (w', Ok r) /\
    rr_actualLength r = 3 /\ rr_data r = encodeData [2; 3; 4].
Proof.
  destruct (read_range_correct (new_toolkit None None None None) BufferToolkit.four 1 9
    BufferToolkit.four_alive ltac:(done) ltac:(done) ltac:(done)) as (w' & r & E & _ & _ & _ & El & Ed & _).
  exists w', r. split; [exact E|]. rewrite El, Ed. split; reflexivity.
Defined.

Lemma patch_refused_witness :
  exists e, applyPatch (new_toolkit None None None None)
    (mkPatchRequest PatchDelete (NInt 3) (Some (NInt 2)) None None false) BufferToolkit.four
    = (BufferToolkit.four, Throw e).
Proof.
  apply (patch_refused (new_toolkit None None None None) BufferToolkit.four); [apply BufferToolkit.four_alive|done|].
  intros o n data [= <- <- <-]. reflexivity.
Defined.

Lemma hex_reported_read_back_witness :
  exists (B : BufferRuntime), parseInputData (inl (en_hex (encodeData [0; 171; 255]))) Hex = Ok [0; 171; 255].
Proof.
  exists (Build_BufferRuntime (fun _ => [])). apply hex_reported_read_back. repeat constructor; done.
Defined.

Example top_bytes_run :
  topBytes (replicate 65 0 ++ [2; 5; 2] ++ replicate 189 0)
  = [mkByteCount 66 5; mkByteCount 65 2; mkByteCount 67 2].
Proof. vm_compute. reflexivity. Qed.
