(* ===== verification/UnaryCalls.v ===== *)
(** * Calls of the server ([packages/client/src/protobuf_ts/utils.ts],
      [session.ts], [viewport.ts] and the queries of [change.ts] there)

    Every function of these files sends one request and turns what the
    callback receives into a result.  [rpc] has the requests with the type of
    their replies; the channel is the class [Transport].  The calls that can
    be cancelled and the ones with a time limit of their own are event
    machines.

    [log] calls are left out: they write to a log and return. *)

From S2P Require Import Prelude SafeInt JsText EditDiff EditSession History Search SessionApi.

(** ** Errors ([utils.ts])

    Here an error is kept whole: the status code of a failed call is looked
    for along the causes. *)
Inductive js_error := JsError {
  err_name : string;
  err_message : jsstring;
  err_code : option Z;
  err_cause : option js_error
}.

(** What is thrown: an [Error] or a string. *)
Inductive thrown := ThrownError (e : js_error) | ThrownString (s : jsstring).

Definition new_error (message : jsstring) : js_error := JsError "Error" message None None.

Definition makeWrappedError (fn : string) (error : thrown) : js_error :=
  let message := match error with ThrownError e => err_message e | ThrownString s => s end in
  JsError "Error" (js fn ++ js " error: " ++ message) None
    (match error with ThrownError e => Some e | ThrownString _ => None end).

Definition makeCancellationError (fn : string) : js_error :=
  JsError "AbortError" (js fn ++ js " error: cancelled") None None.

(** The callback of a call gets an error or what may be a response. *)
Inductive outcome (R : Type) := CallFailed (e : js_error) | CallReplied (r : option R).
Arguments CallFailed {R} e.
Arguments CallReplied {R} r.

Definition requireResponse {R} (fn : string) (response : option R) : js_error + R :=
  match response with
  | None => inl (new_error (js fn ++ js " error: empty response"))
  | Some r => inr r
  end.

Definition getSingleId (fn : string) (response : option jsstring) : js_error + jsstring :=
  requireResponse fn response.

Definition sum_bind {E A B} (x : E + A) (f : A -> E + B) : E + B :=
  match x with inl e => inl e | inr a => f a end.
Definition sum_fmap {E A B} (f : A -> B) (x : E + A) : E + B := sum_bind x (fun a => inr (f a)).

(** [if (err) reject(wrapped) else try { resolve(extract(response)) } catch
    (error) { reject(wrapped) }] *)
Definition settle {R A} (fn : string) (extract : option R -> js_error + A) (o : outcome R)
  : js_error + A :=
  match o with
  | CallFailed err => inl (makeWrappedError fn (ThrownError err))
  | CallReplied response =>
      match extract response with
      | inr value => inr value
      | inl error => inl (makeWrappedError fn (ThrownError error))
      end
  end.

(** [if (!response) reject(makeWrappedError(fn, 'empty response'))], as
    [viewport.ts] has it. *)
Definition settle_checked {R A} (fn : string) (extract : R -> A) (o : outcome R) : js_error + A :=
  match o with
  | CallFailed err => inl (makeWrappedError fn (ThrownError err))
  | CallReplied None => inl (makeWrappedError fn (ThrownString (js "empty response")))
  | CallReplied (Some response) => inr (extract response)
  end.

(** ** Time limits *)

Section Environment.
(** [Number(raw)] *)
Variable to_number : jsstring -> number.

Definition getNonNegativeEnvNumber (raw : option jsstring) (fallback : number) : number :=
  match raw with
  | None | Some [] => fallback
  | Some raw =>
      match to_number raw with
      | NNaN | NInf _ => fallback
      | NInt z => if z <? 0 then fallback else NInt z
      | NFrac n k => if n <? 0 then fallback else NFrac n k
      end
  end.

Definition DEFAULT_UNARY_RPC_TIMEOUT_MS : number := NInt 300000.
Definition DEFAULT_UNSUBSCRIBE_TIMEOUT_MS : number := NInt 10000.

(** The deadline, from now; [None] without one. *)
Definition getUnaryCallOptions (raw : option jsstring) : option number :=
  match getNonNegativeEnvNumber raw DEFAULT_UNARY_RPC_TIMEOUT_MS with
  | NInt 0 => None
  | timeoutMs => Some timeoutMs
  end.

Definition getUnsubscribeTimeoutMs (raw : option jsstring) : number :=
  getNonNegativeEnvNumber raw DEFAULT_UNSUBSCRIBE_TIMEOUT_MS.
End Environment.

(** ** Requests and replies *)

Inductive CountKind :=
  | COMPUTED_FILE_SIZE | CHANGES | UNDOS | VIEWPORTS | CHECKPOINTS | SEARCH_CONTEXTS
  | CHANGE_TRANSACTIONS | UNDO_TRANSACTIONS.

#[global] Instance CountKind_eq_dec : EqDecision CountKind.
Proof. solve_decision. Defined.

Record SingleCount := mkSingleCount { ct_kind : CountKind; ct_count : number }.

Record CreateSessionRequest := mkCreateSession {
  cs_filePath : option jsstring;
  cs_sessionIdDesired : option jsstring;
  cs_checkpointDirectory : option jsstring;
  cs_initialData : option bytes
}.

Record CreateSessionResponse := mkCreatedSession {
  cr_sessionId : jsstring; cr_checkpointDirectory : jsstring; cr_fileSize : option number
}.

Record CheckSessionModelResponse := mkCheckModel {
  cm_sessionId : jsstring; cm_valid : bool; cm_status : number
}.

Inductive SessionFingerprintContent := FP_UNSPECIFIED | FP_ORIGINAL | FP_COMPUTED.
Inductive SessionContentSource := SRC_UNSPECIFIED | SRC_ORIGINAL | SRC_COMPUTED | SRC_LATEST_CHECKPOINT.

Record ContentDigest := mkContentDigest {
  cd_pluginId : jsstring; cd_algorithm : jsstring; cd_value : jsstring
}.
Record SessionContentFingerprint := mkContentFingerprint {
  cf_byteLength : number; cf_digest : option ContentDigest
}.
Record GetSessionFingerprintResponse := mkFingerprintResponse {
  fr_sessionId : jsstring; fr_content : SessionFingerprintContent;
  fr_fingerprint : option SessionContentFingerprint
}.

Record SessionContentInfo := mkContentInfo {
  ci_content : SessionContentSource; ci_available : bool; ci_byteLength : number; ci_label : jsstring
}.

Record SaveSessionRequest := mkSaveSession {
  sv_sessionId : jsstring;
  sv_filePath : jsstring;
  sv_ioFlags : Z;
  sv_offset : option Z;
  sv_length : option Z;
  sv_expectedOriginalFingerprint : option SessionContentFingerprint
}.
Record SaveSessionResponse := mkSaved {
  sd_sessionId : jsstring; sd_filePath : jsstring; sd_saveStatus : number
}.

Record TransformPluginInfo := mkPluginInfo {
  pi_id : jsstring; pi_name : jsstring; pi_description : jsstring; pi_operation : Z;
  pi_flags : Z; pi_abiVersion : Z; pi_support : Z
}.

Record ApplyTransformPluginRequest := mkApplyTransform {
  at_sessionId : jsstring; at_pluginId : jsstring; at_offset : Z; at_length : Z;
  at_optionsJson : option jsstring
}.
Record ApplyTransformPluginResponse := mkTransformed {
  tr_sessionId : jsstring; tr_pluginId : jsstring; tr_offset : number; tr_length : number;
  tr_operation : Z; tr_contentChanged : bool; tr_computedFileSize : number;
  tr_replacementLength : number; tr_result : bytes; tr_serial : option number
}.

Record InspectSessionContentRequest := mkInspect {
  is_sessionId : jsstring; is_content : SessionContentSource; is_pluginId : jsstring;
  is_offset : Z; is_length : Z; is_optionsJson : option jsstring
}.
Record InspectSessionContentResponse := mkInspected {
  ir_sessionId : jsstring; ir_content : SessionContentSource; ir_pluginId : jsstring;
  ir_offset : number; ir_length : number; ir_contentByteLength : number; ir_result : bytes
}.

Record GetByteOrderMarkResponse := mkByteOrderMark {
  bm_sessionId : jsstring; bm_offset : number; bm_length : number; bm_byteOrderMark : jsstring
}.

Record GetCharacterCountsResponse := mkCharacterCounts {
  cc_sessionId : jsstring; cc_offset : number; cc_length : number; cc_byteOrderMark : jsstring;
  cc_byteOrderMarkBytes : number; cc_singleByteChars : number; cc_doubleByteChars : number;
  cc_tripleByteChars : number; cc_quadByteChars : number; cc_invalidBytes : number
}.

Record SearchSessionRequest := mkSearchSession {
  ss_sessionId : jsstring; ss_pattern : bytes; ss_offset : Z;
  ss_caseFolding : option SearchCaseFolding; ss_isReverse : option bool;
  ss_length : option Z; ss_limit : option Z
}.

Record ReplaceSessionRequest := mkReplaceSession {
  rs_sessionId : jsstring; rs_pattern : bytes; rs_replacement : bytes; rs_offset : Z;
  rs_caseFolding : option SearchCaseFolding; rs_isReverse : option bool;
  rs_length : option Z; rs_limit : option Z;
  rs_frontToBack : option bool; rs_overwriteOnly : option bool
}.

Record ReplaceCheckpointedRequest := mkReplaceCheckpointed {
  rc_sessionId : jsstring; rc_pattern : bytes; rc_replacement : bytes; rc_offset : Z;
  rc_caseFolding : option SearchCaseFolding; rc_length : option Z
}.

Record CreateViewportRequest := mkCreateViewport {
  vr_viewportIdDesired : option jsstring; vr_sessionId : jsstring;
  vr_offset : Z; vr_capacity : Z; vr_isFloating : bool
}.

(** Both replies about a viewport. *)
Record ViewportData := mkViewportData {
  vd_viewportId : jsstring; vd_offset : number; vd_length : number; vd_data : bytes;
  vd_followingByteCount : number
}.

(** A change as [getChangeDetails] and its like return it. *)
Record ChangeDetails := mkChangeDetails {
  ch_kind : Z; ch_offset : number; ch_length : number; ch_serial : number;
  ch_data : option bytes; ch_transform : option (jsstring * option jsstring)
}.

Inductive rpc : Type -> Type :=
  | CreateSession (rq : CreateSessionRequest) : rpc CreateSessionResponse
  | DestroySession (id : jsstring) : rpc jsstring
  | CheckSessionModel (sessionId : jsstring) : rpc CheckSessionModelResponse
  | GetSessionFingerprint (sessionId : jsstring) (content : SessionFingerprintContent)
      (algorithm pluginId : option jsstring) : rpc GetSessionFingerprintResponse
  | GetSessionContentInfo (sessionId : jsstring) (content : list SessionContentSource)
      : rpc (list SessionContentInfo)
  | CreateCheckpoint (sessionId : jsstring) : rpc number
  | DestroyLastCheckpoint (sessionId : jsstring) : rpc number
  | RestoreLastCheckpoint (sessionId : jsstring) : rpc RestoreLastCheckpointResponse
  | CheckoutCheckpoint (sessionId : jsstring) (checkpointCount : Z) : rpc CheckoutCheckpointResponse
  | DiscardCheckpointFuture (sessionId : jsstring) : rpc DiscardCheckpointFutureResponse
  | RestoreToChangeCount (sessionId : jsstring) (changeCount : Z) : rpc RestoreToChangeCountResponse
  | SaveSession (rq : SaveSessionRequest) : rpc SaveSessionResponse
  | GetComputedFileSize (id : jsstring) : rpc number
  | GetCount (sessionId : jsstring) (kind : list CountKind) : rpc (list SingleCount)
  | PauseSessionChanges (id : jsstring) : rpc jsstring
  | ResumeSessionChanges (id : jsstring) : rpc jsstring
  | SessionBeginTransaction (id : jsstring) : rpc jsstring
  | SessionEndTransaction (id : jsstring) : rpc jsstring
  | GetSegment (sessionId : jsstring) (offset length : Z) : rpc bytes
  | GetSessionCount : rpc number
  | NotifyChangedViewportsCall (id : jsstring) : rpc number
  | ListTransformPlugins : rpc (list TransformPluginInfo)
  | ApplyTransformPlugin (rq : ApplyTransformPluginRequest) : rpc ApplyTransformPluginResponse
  | InspectSessionContent (rq : InspectSessionContentRequest) : rpc InspectSessionContentResponse
  | GetByteFrequencyProfile (sessionId : jsstring) (offset length : Z) : rpc (list number)
  | GetByteOrderMark (sessionId : jsstring) (offset length : Z) : rpc GetByteOrderMarkResponse
  | GetCharacterCounts (sessionId : jsstring) (offset length : Z) (byteOrderMark : jsstring)
      : rpc GetCharacterCountsResponse
  | SearchSession (rq : SearchSessionRequest) : rpc (list number)
  | ReplaceSession (rq : ReplaceSessionRequest) : rpc ReplaceSessionResponse
  | ReplaceSessionCheckpointed (rq : ReplaceCheckpointedRequest) : rpc number
  | CreateViewport (rq : CreateViewportRequest) : rpc ViewportData
  | ModifyViewport (viewportId : jsstring) (offset capacity : Z) (isFloating : bool) : rpc ViewportData
  | DestroyViewport (id : jsstring) : rpc jsstring
  | GetViewportData (viewportId : jsstring) : rpc ViewportData
  | ViewportHasChanges (id : jsstring) : rpc bool
  | PauseViewportEventsCall (id : jsstring) : rpc jsstring
  | ResumeViewportEventsCall (id : jsstring) : rpc jsstring
  | GetChangeDetails (sessionId : jsstring) (serial : Z) : rpc ChangeDetails
  | GetLastChange (id : jsstring) : rpc ChangeDetails
  | GetLastUndo (id : jsstring) : rpc ChangeDetails.

(** ** The channel *)

Class Transport (S : Type) := {
  get_client : S -> S * (js_error + unit);
  call_unary : forall R, rpc R -> S -> S * outcome R
}.
Arguments call_unary {S _ R} _ _.

(** A client function: it changes the state behind the channel and returns a
    result or an error. *)
Definition T (S A : Type) : Type := S -> S * (js_error + A).

Definition retT {S A} (a : A) : T S A := fun s => (s, inr a).
Definition throwT {S A} (e : js_error) : T S A := fun s => (s, inl e).
Definition bindT {S A B} (m : T S A) (f : A -> T S B) : T S B := fun s =>
  match m s with
  | (s', inl e) => (s', inl e)
  | (s', inr a) => f a s'
  end.
Definition liftT {S A} (r : js_error + A) : T S A := fun s => (s, r).

Declare Scope call_scope.
Delimit Scope call_scope with call.
Notation "'let+' x := m 'in' k" := (bindT m (fun x => k))
  (at level 10, x name, m at level 100, k at level 200) : call_scope.
Open Scope call_scope.

Definition nonempty (s : jsstring) : option jsstring := match s with [] => None | _ => Some s end.
Definition when_positive (z : Z) : option Z := if 0 <? z then Some z else None.
Definition when_true (b : bool) : option bool := if b then Some true else None.

Definition when_folding (f : SearchCaseFolding) : option SearchCaseFolding :=
  match f with FOLD_NONE => None | _ => Some f end.

Section Calls.
Context {S : Type} `{Transport S}.

(** [const client = await getClient()], then the call and its callback. *)
Definition unary {R A} (rq : rpc R) (callback : outcome R -> js_error + A) : T S A :=
  let+ _ := get_client in
  fun s => let '(s', o) := call_unary rq s in (s', callback o).

(** The callback of [session.ts]: the whole response, or a part of it. *)
Definition required {R} (fn : string) (rq : rpc R) : T S R := unary rq (settle fn (requireResponse fn)).
Definition single_id (fn : string) (rq : rpc jsstring) : T S jsstring :=
  unary rq (settle fn (getSingleId fn)).

(** *** [session.ts] *)

Definition createSession (filePath sessionIdDesired checkpointDirectory : jsstring)
  (initialData : option bytes) : T S CreateSessionResponse :=
  required "createSession" (CreateSession (mkCreateSession (nonempty filePath)
    (nonempty sessionIdDesired) (nonempty checkpointDirectory) initialData)).

Definition destroySession (sessionId : jsstring) : T S jsstring :=
  single_id "destroySession" (DestroySession sessionId).

Definition checkSessionModel (sessionId : jsstring) : T S CheckSessionModelResponse :=
  required "checkSessionModel" (CheckSessionModel sessionId).

Definition getSessionFingerprint (sessionId : jsstring) (content : SessionFingerprintContent)
  (algorithm pluginId : jsstring) : T S GetSessionFingerprintResponse :=
  required "getSessionFingerprint"
    (GetSessionFingerprint sessionId content (nonempty algorithm) (nonempty pluginId)).

Definition getSessionContentInfo (sessionId : jsstring) (content : list SessionContentSource)
  : T S (list SessionContentInfo) :=
  required "getSessionContentInfo" (GetSessionContentInfo sessionId content).

Definition createCheckpoint (sessionId : jsstring) : T S number :=
  required "createCheckpoint" (CreateCheckpoint sessionId).

Definition destroyLastCheckpoint (sessionId : jsstring) : T S number :=
  required "destroyLastCheckpoint" (DestroyLastCheckpoint sessionId).

Definition save_request (sessionId filePath : jsstring) (flags offset length : Z)
  (expected : option SessionContentFingerprint) : SaveSessionRequest :=
  mkSaveSession sessionId filePath flags (when_positive offset) (when_positive length) expected.

Definition getComputedFileSize (sessionId : jsstring) : T S number :=
  required "getComputedFileSize" (GetComputedFileSize sessionId).

Definition requestCounts (sessionId : jsstring) (kinds : list CountKind) (fn : string)
  : T S (list SingleCount) :=
  required fn (GetCount sessionId kinds).

Definition getCounts (sessionId : jsstring) (kinds : list CountKind) : T S (list SingleCount) :=
  requestCounts sessionId kinds "getCounts".

Definition getSingleCount (sessionId : jsstring) (kind : CountKind) (fn : string) : T S number :=
  let+ counts := requestCounts sessionId [kind] fn in
  match counts with
  | c :: _ => retT (ct_count c)
  | [] => throwT (makeWrappedError fn (ThrownString (js "empty count response")))
  end.

Definition pauseSessionChanges (sessionId : jsstring) : T S jsstring :=
  single_id "pauseSessionChanges" (PauseSessionChanges sessionId).
Definition resumeSessionChanges (sessionId : jsstring) : T S jsstring :=
  single_id "resumeSessionChanges" (ResumeSessionChanges sessionId).
Definition beginSessionTransaction (sessionId : jsstring) : T S jsstring :=
  single_id "beginSessionTransaction" (SessionBeginTransaction sessionId).
Definition endSessionTransaction (sessionId : jsstring) : T S jsstring :=
  single_id "endSessionTransaction" (SessionEndTransaction sessionId).

Definition getSegment (sessionId : jsstring) (offset length : Z) : T S bytes :=
  required "getSegment" (GetSegment sessionId offset length).

Definition getSessionCount : T S number := required "getSessionCount" GetSessionCount.

Definition notifyChangedViewports (sessionId : jsstring) : T S number :=
  required "notifyChangedViewports" (NotifyChangedViewportsCall sessionId).

Definition listTransformPlugins : T S (list TransformPluginInfo) :=
  required "listTransformPlugins" ListTransformPlugins.

Definition profileSession (sessionId : jsstring) (offset length : Z) : T S (list number) :=
  required "profileSession" (GetByteFrequencyProfile sessionId offset length).

(** Four bytes are looked at. *)
Definition getByteOrderMark (sessionId : jsstring) (offset : Z) : T S GetByteOrderMarkResponse :=
  required "getByteOrderMark" (GetByteOrderMark sessionId offset 4).

Definition countCharacters (sessionId : jsstring) (offset length : Z) (bom : jsstring)
  : T S GetCharacterCountsResponse :=
  required "countCharacters" (GetCharacterCounts sessionId offset length bom).

(** A pattern's [length] counts code units or bytes; both are zero for the
    same patterns. *)
Definition empty_pattern (p : jsstring + bytes) : bool :=
  match p with inl s => (length s =? 0)%nat | inr b => (length b =? 0)%nat end.

Definition search_request (sessionId : jsstring) (pattern : jsstring + bytes)
  (caseFolding : SearchCaseFolding) (isReverse : bool) (offset length limit : Z) : SearchSessionRequest :=
  mkSearchSession sessionId (to_bytes pattern) offset (when_folding caseFolding) (when_true isReverse)
    (when_positive length) (when_positive limit).

Definition searchSession (sessionId : jsstring) (pattern : jsstring + bytes)
  (caseFolding : SearchCaseFolding) (isReverse : bool) (offset length limit : Z) : T S (list number) :=
  if empty_pattern pattern then retT []
  else required "searchSession"
    (SearchSession (search_request sessionId pattern caseFolding isReverse offset length limit)).

Definition replace_request (sessionId : jsstring) (pattern replacement : jsstring + bytes)
  (caseFolding : SearchCaseFolding) (isReverse : bool) (offset length limit : Z)
  (frontToBack overwriteOnly : bool) : ReplaceSessionRequest :=
  mkReplaceSession sessionId (to_bytes pattern) (to_bytes replacement) offset
    (when_folding caseFolding) (when_true isReverse) (when_positive length) (when_positive limit)
    (if frontToBack then None else Some false) (when_true overwriteOnly).

(** Of the answer to an empty pattern, the counts. *)
Definition nothing_replaced : ReplaceSessionResponse :=
  mkReplaceResponse (NInt 0) (NInt 0) (NInt 0) (NInt 0).

Definition replaceSession (sessionId : jsstring) (pattern replacement : jsstring + bytes)
  (caseFolding : SearchCaseFolding) (isReverse : bool) (offset length limit : Z)
  (frontToBack overwriteOnly : bool) : T S ReplaceSessionResponse :=
  if empty_pattern pattern then retT nothing_replaced
  else required "replaceSession"
    (ReplaceSession (replace_request sessionId pattern replacement caseFolding isReverse offset length
       limit frontToBack overwriteOnly)).

Definition replace_checkpointed_request (sessionId : jsstring) (pattern replacement : jsstring + bytes)
  (caseFolding : SearchCaseFolding) (offset length : Z) : ReplaceCheckpointedRequest :=
  mkReplaceCheckpointed sessionId (to_bytes pattern) (to_bytes replacement) offset
    (when_folding caseFolding) (when_positive length).

(** The number of replacements. *)
Definition replaceSessionCheckpointed (sessionId : jsstring) (pattern replacement : jsstring + bytes)
  (caseFolding : SearchCaseFolding) (offset length : Z) : T S number :=
  if empty_pattern pattern then retT (NInt 0)
  else required "replaceSessionCheckpointed" (ReplaceSessionCheckpointed
    (replace_checkpointed_request sessionId pattern replacement caseFolding offset length)).

Definition restoreLastCheckpoint (sessionId : jsstring) : T S RestoreLastCheckpointResponse :=
  required "restoreLastCheckpoint" (RestoreLastCheckpoint sessionId).
Definition checkoutCheckpoint (sessionId : jsstring) (checkpointCount : Z)
  : T S CheckoutCheckpointResponse :=
  required "checkoutCheckpoint" (CheckoutCheckpoint sessionId checkpointCount).
Definition discardCheckpointFuture (sessionId : jsstring) : T S DiscardCheckpointFutureResponse :=
  required "discardCheckpointFuture" (DiscardCheckpointFuture sessionId).
Definition restoreToChangeCount (sessionId : jsstring) (changeCount : Z)
  : T S RestoreToChangeCountResponse :=
  required "restoreToChangeCount" (RestoreToChangeCount sessionId changeCount).

(** *** [viewport.ts] *)

Definition checked_reply {R} (fn : string) (rq : rpc R) : T S R :=
  unary rq (settle_checked fn (fun r => r)).

Definition createViewport (desiredViewportId : option jsstring) (sessionId : jsstring)
  (offset capacity : Z) (isFloating : bool) : T S ViewportData :=
  checked_reply "createViewport" (CreateViewport (mkCreateViewport
    (match desiredViewportId with Some id => nonempty id | None => None end)
    sessionId offset capacity isFloating)).

Definition modifyViewport (viewportId : jsstring) (offset capacity : Z) (isFloating : bool)
  : T S ViewportData :=
  checked_reply "modifyViewport" (ModifyViewport viewportId offset capacity isFloating).

Definition destroyViewport (viewportId : jsstring) : T S jsstring :=
  checked_reply "destroyViewport" (DestroyViewport viewportId).

Definition getViewportCount (sessionId : jsstring) : T S number :=
  getSingleCount sessionId VIEWPORTS "getViewportCount".

Definition getViewportData (viewportId : jsstring) : T S ViewportData :=
  checked_reply "getViewportData" (GetViewportData viewportId).

Definition viewportHasChanges (viewportId : jsstring) : T S bool :=
  checked_reply "viewportHasChanges" (ViewportHasChanges viewportId).

Definition pauseViewportEvents (sessionId : jsstring) : T S jsstring :=
  checked_reply "pauseViewportEvents" (PauseViewportEventsCall sessionId).
Definition resumeViewportEvents (sessionId : jsstring) : T S jsstring :=
  checked_reply "resumeViewportEvents" (ResumeViewportEventsCall sessionId).

(** *** The queries of [change.ts] *)

(** [reject(new Error(fn + ' failed: ' + err))]: the error is put into the
    text, with its name, and not kept as a cause. *)
Definition failed_call (fn : string) (e : js_error) : js_error :=
  new_error (js fn ++ js " failed: " ++ js (err_name e) ++ js ": " ++ err_message e).

Definition empty_query {R} (fn : string) (wrap : js_error -> js_error) (o : outcome R) : js_error + R :=
  match o with
  | CallFailed err => inl (wrap err)
  | CallReplied None => inl (new_error (js fn ++ js " failed: empty response"))
  | CallReplied (Some response) => inr response
  end.

Definition getChangeDetails (sessionId : jsstring) (serial : Z) : T S ChangeDetails :=
  unary (GetChangeDetails sessionId serial) (empty_query "getChangeDetails"
    (fun err => makeWrappedError "getChangeDetails" (ThrownError err))).
Definition getLastChange (sessionId : jsstring) : T S ChangeDetails :=
  unary (GetLastChange sessionId) (empty_query "getLastChange" (failed_call "getLastChange")).
Definition getLastUndo (sessionId : jsstring) : T S ChangeDetails :=
  unary (GetLastUndo sessionId) (empty_query "getLastUndo" (failed_call "getLastUndo")).

Definition getChangeCount (sessionId : jsstring) : T S number :=
  getSingleCount sessionId CHANGES "getChangeCount".
Definition getUndoCount (sessionId : jsstring) : T S number :=
  getSingleCount sessionId UNDOS "getUndoCount".
Definition getChangeTransactionCount (sessionId : jsstring) : T S number :=
  getSingleCount sessionId CHANGE_TRANSACTIONS "getChangeTransactionCount".
Definition getUndoTransactionCount (sessionId : jsstring) : T S number :=
  getSingleCount sessionId UNDO_TRANSACTIONS "getUndoTransactionCount".
End Calls.

(** ** Looking for a status code ([packages/ai/src/service.ts]) *)

Fixpoint hasGrpcStatusCode (error : js_error) (code : Z) : bool :=
  match error with
  | JsError _ _ c cause =>
      bool_decide (c = Some code) ||
      match cause with Some e => hasGrpcStatusCode e code | None => false end
  end.

Definition GRPC_NOT_FOUND : Z := 5.
Definition isMissingChangeDetailsError (error : js_error) : bool := hasGrpcStatusCode error GRPC_NOT_FOUND.

(** ** Calls that can be cancelled

    [saveSession], [applyTransformPlugin] and [inspectSessionContent] take a
    signal.  It is looked at before the client is asked for and when the
    client is there; then a listener passes an abort on to the call. *)

Module Cancellable.

Inductive stage (A : Type) :=
  | AwaitingClient
  | InCall
  | Settled (r : js_error + A).
Arguments AwaitingClient {A}.
Arguments InCall {A}.
Arguments Settled {A} r.

(** [signal]: whether there is one. *)
Record state (A : Type) := mkState {
  signal : bool;
  aborted : bool;
  listening : bool;
  sent : bool;
  cancelled : bool;
  at_stage : stage A
}.
Arguments mkState {A}.
Arguments signal {A}. Arguments aborted {A}. Arguments listening {A}.
Arguments sent {A}. Arguments cancelled {A}. Arguments at_stage {A}.

Inductive event (R : Type) :=
  | ClientReady
  | ClientFailed (e : js_error)
  | Abort
  | Callback (o : outcome R).
Arguments ClientReady {R}. Arguments ClientFailed {R} e. Arguments Abort {R}. Arguments Callback {R} o.

Section Machine.
Context {R : Type} (fn : string).

(** What runs until [getClient] is awaited. *)
Definition start (has_signal is_aborted : bool) : state R :=
  let is_aborted := has_signal && is_aborted in
  mkState has_signal is_aborted false false false
    (if is_aborted then Settled (inl (makeCancellationError fn)) else AwaitingClient).

Definition settled (s : state R) (r : js_error + R) : state R :=
  mkState (signal s) (aborted s) false (sent s) (cancelled s) (Settled r).

(** [callUnary] sends the request, [cancelUnaryOnSignal] listens. *)
Definition step (s : state R) (e : event R) : state R :=
  match e, at_stage s with
  | ClientReady, AwaitingClient =>
      if aborted s then settled s (inl (makeCancellationError fn))
      else mkState (signal s) false (signal s) true false InCall
  | ClientFailed err, AwaitingClient => settled s (inl err)
  | Callback o, InCall => settled s (settle fn (requireResponse fn) o)
  | Abort, st =>
      if signal s then
        mkState true true false (sent s) (cancelled s || listening s) st
      else s
  | _, _ => s
  end.

Definition run (s : state R) (es : list (event R)) : state R := foldl step s es.
End Machine.
End Cancellable.

(** Their requests; [save_request] is the third. *)
Definition transform_request (sessionId pluginId : jsstring) (offset length : Z)
  (optionsJson : option jsstring) : ApplyTransformPluginRequest :=
  mkApplyTransform sessionId pluginId offset length optionsJson.
Definition inspect_request (sessionId : jsstring) (content : SessionContentSource) (pluginId : jsstring)
  (offset length : Z) (optionsJson : option jsstring) : InspectSessionContentRequest :=
  mkInspect sessionId content pluginId offset length optionsJson.

(** [s.startsWith(p)] *)
Fixpoint starts_with (p s : jsstring) : bool :=
  match p, s with
  | [], _ => true
  | c :: p, d :: s => (c =? d) && starts_with p s
  | _, [] => false
  end.

(** ** Unsubscribing, with a time limit

    The timer, the callback and the error event of the call race; the first
    one settles the promise and clears the timer. *)

Module Unsubscribe.

Record state := mkState { result_of : option (js_error + jsstring); timer : bool }.

Definition start : state := mkState None true.

Inductive event :=
  | Callback (o : outcome jsstring)
  | ErrorEvent (e : js_error)
  | TimerFires.

Fixpoint includes (needle s : jsstring) : bool :=
  starts_with needle s || match s with [] => false | _ :: s => includes needle s end.

Section Machine.
Context (fn : string) (callback : outcome jsstring -> js_error + jsstring).

Definition timed_out : js_error := makeWrappedError fn (ThrownString (js "timed out after ms")).

Definition settle_with (r : js_error + jsstring) (s : state) : state :=
  match result_of s with Some _ => s | None => mkState (Some r) false end.

Definition step (s : state) (e : event) : state :=
  match e with
  | Callback o => settle_with (callback o) s
  | ErrorEvent err =>
      if includes (js "Call cancelled") (err_message err) then s else settle_with (inl err) s
  | TimerFires => if timer s then settle_with (inl timed_out) s else s
  end.

Definition run (s : state) (es : list event) : state := foldl step s es.
End Machine.

Definition unsubscribeSession : state -> list event -> state :=
  run "unsubscribeSession" (settle "unsubscribeSession" (getSingleId "unsubscribeSession")).
Definition unsubscribeViewport : state -> list event -> state :=
  run "unsubscribeViewport" (settle_checked "unsubscribeViewport" (fun id => id)).

End Unsubscribe.

(** ** What is lost and what is kept *)

(** The status code of a failed call is found through the wrapping of
    [getChangeDetails]: the answer counts as missing details exactly when the
    server said so, and an empty response never does. *)
Theorem missing_details_recognised {S} `{Transport S} (s s1 s2 : S) sessionId serial o :
  get_client s = (s1, inr tt) ->
  call_unary (GetChangeDetails sessionId serial) s1 = (s2, o) ->
  exists r, getChangeDetails sessionId serial s = (s2, r) /\
    match o with
    | CallReplied (Some d) => r = inr d
    | CallReplied None => exists e, r = inl e /\ isMissingChangeDetailsError e = false
    | CallFailed err => exists e, r = inl e /\
        isMissingChangeDetailsError e = hasGrpcStatusCode err GRPC_NOT_FOUND
    end.
Proof.
  intros Hc Hu. unfold getChangeDetails, unary, bindT. rewrite Hc, Hu. eexists. split; [reflexivity|].
  destruct o as [err|[d|]]; cbn; eauto.
Qed.

(** An error of [getLastChange] has no code left. *)
Lemma last_change_code_lost {S} `{Transport S} (s s1 s2 : S) sessionId err code :
  get_client s = (s1, inr tt) -> call_unary (GetLastChange sessionId) s1 = (s2, CallFailed err) ->
  exists e, getLastChange sessionId s = (s2, inl e) /\ hasGrpcStatusCode e code = false.
Proof.
  intros Hc Hu. unfold getLastChange, unary, bindT. rewrite Hc, Hu. eexists. split; [reflexivity|].
  by rewrite <- (bool_decide_eq_false_2 (None = Some code)).
Qed.

(** ** The wire *)

(** How the protocol definition tells to read what a request leaves out. *)
Definition or_start (v : option Z) : Z := default 0 v.

Lemma or_start_when_positive z : 0 <= z -> or_start (when_positive z) = z.
Proof. intros Hz. unfold when_positive. destruct (Z.ltb_spec 0 z); cbn; lia. Qed.

Lemma default_when_folding f : default FOLD_NONE (when_folding f) = f.
Proof. by destruct f. Qed.

Lemma default_when_true b : default false (when_true b) = b.
Proof. by destruct b. Qed.

Lemma empty_pattern_bytes p : empty_pattern p = true <-> to_bytes p = [].
Proof.
  destruct p as [s|b]; cbn.
  - split; [by destruct s|]. intros He. destruct s as [|c s]; [done|]. exfalso.
    unfold utf8_encode in He. cbn [code_points] in He.
    assert (Hp : forall z, utf8_point z <> []).
    { intros z. unfold utf8_point. by repeat destruct (_ <? _). }
    destruct s as [|d s]; [|destruct (low_surrogate d)];
      destruct (high_surrogate c); try destruct (low_surrogate c);
      cbn [flat_map] in He; apply app_eq_nil in He as [He _]; by apply Hp in He.
  - by destruct b.
Qed.

(** A server that answers searches, sizes and segments as the protocol
    definition says, reading what is absent as its default.  The calls of
    other components are made through [EditBackend]. *)
Class WireLaws (S : Type) `{EditBackendLaws S} `{Transport S} := {
  wire_fold : SearchCaseFolding -> Z -> Z;
  wire_fold_none b : wire_fold FOLD_NONE b = b;
  wire_client s : alive s -> get_client s = (s, inr tt);
  wire_client_content s : content (get_client s).1 = content s;
  wire_search rq s s' o :
    call_unary (SearchSession rq) s = (s', CallReplied o) ->
    content s' = content s /\
    o = Some (map NInt (search_spec (wire_fold (default FOLD_NONE (ss_caseFolding rq))) (ss_pattern rq)
          (content s) (default false (ss_isReverse rq)) (ss_offset rq) (or_start (ss_length rq))
          (or_start (ss_limit rq))));
  wire_search_live rq s : alive s ->
    exists s' ms, call_unary (SearchSession rq) s = (s', CallReplied (Some ms)) /\ alive s';
  wire_size sessionId s : alive s ->
    call_unary (GetComputedFileSize sessionId) s = (s, CallReplied (Some (NInt (len (content s)))));
  wire_segment sessionId o n s : alive s -> 0 <= o -> 0 <= n -> o + n <= len (content s) ->
    call_unary (GetSegment sessionId o n) s =
      (s, CallReplied (Some (take (Z.to_nat n) (drop (Z.to_nat o) (content s)))))
}.

(** The class of the error is kept. *)
Definition to_result {A} (x : js_error + A) : result A :=
  match x with inl e => Throw (Exn (err_name e) "") | inr a => Ok a end.

Definition as_request {S A} (m : T S A) (s : S) : S * result A :=
  let '(s', r) := m s in (s', to_result r).

(** [SessionApi] on these calls, for the session [sessionId]. *)
Definition session_rpc {S} `{Transport S} (sessionId : jsstring) : SessionRpc S := {|
  rpc_searchSession pattern folding reverse o n l :=
    as_request (searchSession sessionId (inr pattern) folding reverse o n l);
  rpc_replaceSession pattern replacement folding reverse o n l frontToBack overwriteOnly :=
    as_request (replaceSession sessionId (inr pattern) (inr replacement) folding reverse o n l
      frontToBack overwriteOnly);
  rpc_replaceSessionCheckpointed pattern replacement folding o n :=
    as_request (replaceSessionCheckpointed sessionId (inr pattern) (inr replacement) folding o n);
  rpc_getSegment o n := as_request (getSegment sessionId o n);
  rpc_getComputedFileSize := as_request (getComputedFileSize sessionId);
  rpc_createCheckpoint := as_request (createCheckpoint sessionId);
  rpc_destroyLastCheckpoint := as_request (destroyLastCheckpoint sessionId);
  rpc_restoreLastCheckpoint := as_request (restoreLastCheckpoint sessionId);
  rpc_checkoutCheckpoint n := as_request (checkoutCheckpoint sessionId n);
  rpc_discardCheckpointFuture := as_request (discardCheckpointFuture sessionId);
  rpc_restoreToChangeCount n := as_request (restoreToChangeCount sessionId n)
|}.

Section Wire.
Context {S : Type} `{WireLaws S} (sessionId : jsstring).

Lemma search_sent (pattern : bytes) folding reverse o n l s :
  pattern <> [] ->
  searchSession sessionId (inr pattern) folding reverse o n l s =
  required "searchSession" (SearchSession (search_request sessionId (inr pattern) folding reverse o n l)) s.
Proof. intros Hp. unfold searchSession. by destruct pattern. Qed.

Lemma wire_search_sound pattern folding reverse o n l s s' ms :
  pattern <> [] -> 0 <= n -> 0 <= l ->
  as_request (searchSession sessionId (inr pattern) folding reverse o n l) s = (s', Ok ms) ->
  content s' = content s /\
  ms = map NInt (search_spec (wire_fold folding) pattern (content s) reverse o n l).
Proof.
  intros Hp Hn Hl. unfold as_request. rewrite search_sent by done. unfold required, unary, bindT.
  pose proof (wire_client_content s) as Hc. destruct (get_client s) as [s1 [e|[]]]; [done|].
  cbn in Hc. destruct (call_unary _ s1) as [s2 r] eqn:E.
  destruct r as [e|r]; [done|]. apply wire_search in E as [Hs ->]. cbn. intros [= <- <-].
  split; [congruence|]. by rewrite !or_start_when_positive, default_when_folding, default_when_true, Hc.
Qed.

(** The wire has what [SessionApi] asks of a server. *)
#[local] Instance wire_rpc : SessionRpc S := session_rpc sessionId.

Lemma wire_session_laws : SessionRpcLaws S.
Proof.
  refine {| rpc_fold := wire_fold; rpc_fold_none := wire_fold_none |}.
  - intros pattern folding reverse o n l s s' ms Hp _ Hn Hl. by apply wire_search_sound.
  - intros pattern folding reverse o n l s Ha Hp _ _ _. cbn. unfold as_request.
    rewrite search_sent by done. unfold required, unary, bindT. rewrite (wire_client s Ha).
    destruct (wire_search_live (search_request sessionId (inr pattern) folding reverse o n l) s Ha)
      as (s' & ms & -> & Ha'). by exists s', ms.
  - intros s Ha. cbn. unfold as_request, getComputedFileSize, required, unary, bindT.
    by rewrite (wire_client s Ha), wire_size.
  - intros o n s Ha Ho Hn Hr. cbn. unfold as_request, getSegment, required, unary, bindT.
    by rewrite (wire_client s Ha), wire_segment.
Qed.
End Wire.

(** Requests to replace keep their arguments, too. *)
Lemma replace_request_kept sessionId pattern replacement folding reverse o n l front over :
  0 <= n -> 0 <= l ->
  let rq := replace_request sessionId pattern replacement folding reverse o n l front over in
  (rs_pattern rq, rs_replacement rq, rs_offset rq) = (to_bytes pattern, to_bytes replacement, o) /\
  default FOLD_NONE (rs_caseFolding rq) = folding /\ default false (rs_isReverse rq) = reverse /\
  or_start (rs_length rq) = n /\ or_start (rs_limit rq) = l /\
  default true (rs_frontToBack rq) = front /\ default false (rs_overwriteOnly rq) = over.
Proof.
  intros Hn Hl. cbn. rewrite !or_start_when_positive, default_when_folding, !default_when_true by done.
  repeat split. by destruct front.
Qed.

(** A request to save no bytes is the request to save all there are from the
    offset on. *)
Lemma save_of_nothing_has_no_length sessionId path flags o expected :
  sv_length (save_request sessionId path flags o 0 expected) = None.
Proof. done. Qed.

(** ** Cancelling *)

Module CancellableFacts.
Import Cancellable.

Section Facts.
Context {R : Type} (fn : string).
Implicit Type s : state R.

(** What holds after the events [es]. *)
Record good (is_aborted : bool) (es : list (event R)) s : Prop := {
  good_aborted : aborted s = true <-> signal s = true /\ (is_aborted = true \/ Abort ∈ es);
  good_in_call : at_stage s = InCall -> sent s = true /\ listening s = signal s && negb (aborted s);
  good_idle : at_stage s <> InCall -> listening s = false;
  good_unsent : at_stage s = AwaitingClient -> sent s = false;
  good_sent : sent s = true -> exists pre post, es = pre ++ ClientReady :: post /\
    (signal s = true -> is_aborted = false /\ Abort ∉ pre);
  good_cancelled : at_stage s = InCall -> cancelled s = aborted s
}.

Lemma start_good has_signal is_aborted : good is_aborted [] (start fn has_signal is_aborted).
Proof.
  unfold start. destruct has_signal, is_aborted; split; cbn; rewrite ?elem_of_nil; intuition congruence.
Qed.

Lemma signal_kept s (e : event R) : signal (step fn s e) = signal s.
Proof. destruct s as [sg ab li se ca [| |r]], e; cbn; try done; by destruct sg, ab. Qed.

Lemma run_signal has_signal is_aborted (es : list (event R)) :
  signal (run fn (start fn has_signal is_aborted) es) = has_signal.
Proof.
  unfold run. induction es as [|e es IH] using rev_ind; [done|].
  rewrite foldl_app. cbn [foldl]. by rewrite signal_kept.
Qed.

Lemma step_good is_aborted es s e : good is_aborted es s -> good is_aborted (es ++ [e]) (step fn s e).
Proof.
  intros [Ga Gc Gi Gu Gs Gk].
  assert (Hm : Abort ∈ es ++ [e] <-> Abort ∈ es \/ Abort = e)
    by (by rewrite elem_of_app, list_elem_of_singleton).
  assert (Hs : sent s = true -> exists pre post, es ++ [e] = pre ++ ClientReady :: post /\
    (signal s = true -> is_aborted = false /\ Abort ∉ pre)).
  { intros (pre & post & -> & Hp)%Gs. exists pre, (post ++ [e]). by rewrite <- app_assoc. }
  destruct e as [|err| |o].
  - destruct s as [sg ab li se ca [| |r]]; cbn in *;
      try (split; cbn; rewrite ?Hm; auto; intuition congruence).
    destruct ab; cbn; (split; cbn; rewrite ?Hm); auto; try (intuition congruence); [by rewrite andb_true_r|].
    intros _. exists es, []. split; [done|]. intros Hsg. split.
    + destruct is_aborted; [|done]. exfalso. assert (false = true) by (apply Ga; auto). done.
    + intros Hin. assert (false = true) by (apply Ga; auto). done.
  - destruct s as [sg ab li se ca [| |r]]; cbn in *;
      split; cbn; rewrite ?Hm; auto; intuition congruence.
  - destruct s as [sg ab li se ca st]; cbn in *. destruct sg; cbn in *.
    + split; cbn; rewrite ?Hm; auto; [tauto| |done..|].
      * intros ->. destruct (Gc eq_refl). done.
      * intros ->. destruct (Gc eq_refl) as [_ ->]. rewrite (Gk eq_refl). by destruct ab.
    + split; cbn; rewrite ?Hm; auto. intuition congruence.
  - destruct s as [sg ab li se ca [| |r]]; cbn in *;
      split; cbn; rewrite ?Hm; auto; intuition congruence.
Qed.

Lemma run_good has_signal is_aborted es :
  good is_aborted es (run fn (start fn has_signal is_aborted) es).
Proof.
  unfold run. induction es as [|e es IH] using rev_ind; [apply start_good|].
  rewrite foldl_app. cbn [foldl]. by apply step_good.
Qed.

Lemma settled_stays s r es : at_stage s = Settled r -> at_stage (run fn s es) = Settled r.
Proof.
  revert s. induction es as [|e es IH]; intros s Hs; [done|]. cbn. apply IH.
  destruct s as [sg ab li se ca st]; cbn in *. subst st. destruct e; try done. by destruct sg.
Qed.
End Facts.
End CancellableFacts.

(** A call that can be cancelled, whatever the order in which the
    client comes up, the signal aborts and the call is answered: the request
    is not sent when the signal had aborted before; a call under way is
    cancelled exactly when the signal has aborted, and listens for it
    otherwise; without a call there is no listener left; and the first result
    is the result. *)
Theorem cancellable_calls {R} (fn : string) (has_signal is_aborted : bool)
  (es : list (Cancellable.event R)) :
  let s := Cancellable.run fn (Cancellable.start fn has_signal is_aborted) es in
  (Cancellable.sent s = true -> exists pre post, es = pre ++ Cancellable.ClientReady :: post /\
     (has_signal = true -> is_aborted = false /\ Cancellable.Abort ∉ pre)) /\
  (Cancellable.at_stage s = Cancellable.InCall ->
     let abort_seen := has_signal = true /\ (is_aborted = true \/ Cancellable.Abort ∈ es) in
     (Cancellable.cancelled s = true <-> abort_seen) /\
     (Cancellable.listening s = true <-> has_signal = true /\ ~ abort_seen)) /\
  (Cancellable.at_stage s <> Cancellable.InCall -> Cancellable.listening s = false) /\
  (forall r more, Cancellable.at_stage s = Cancellable.Settled r ->
     Cancellable.at_stage (Cancellable.run fn s more) = Cancellable.Settled r).
Proof.
  intros s. destruct (CancellableFacts.run_good fn has_signal is_aborted es) as [Ga Gc Gi Gu Gs Gk].
  pose proof (CancellableFacts.run_signal fn has_signal is_aborted es) as Hsig. fold s in Ga, Gc, Gi, Gu, Gs, Gk, Hsig.
  rewrite Hsig in *. split; [done|]. split; [|split; [done|]].
  - intros Hst abort_seen. unfold abort_seen. rewrite <- Ga, (Gk Hst). split; [done|].
    rewrite (proj2 (Gc Hst)), andb_true_iff, negb_true_iff, not_true_iff_false. done.
  - intros r more. apply CancellableFacts.settled_stays.
Qed.

(** ** Unsubscribing *)

Lemma includes_example : Unsubscribe.includes (js "Call cancelled") (js "1 CANCELLED: Call cancelled") = true.
Proof. reflexivity. Qed.

(** What an event has to say about the result. *)
Definition unsubscribe_verdict (fn : string) (callback : outcome jsstring -> js_error + jsstring)
  (e : Unsubscribe.event) : option (js_error + jsstring) :=
  match e with
  | Unsubscribe.Callback o => Some (callback o)
  | Unsubscribe.ErrorEvent err =>
      if Unsubscribe.includes (js "Call cancelled") (err_message err) then None else Some (inl err)
  | Unsubscribe.TimerFires => Some (inl (Unsubscribe.timed_out fn))
  end.

(** The promise of an unsubscription is settled by the first of its
    answer, an error of the call other than its cancellation, and the timer;
    the timer runs exactly as long as it is not settled. *)
Theorem unsubscribe_settles_once fn callback (es : list Unsubscribe.event) :
  let s := Unsubscribe.run fn callback Unsubscribe.start es in
  Unsubscribe.result_of s = head (omap (unsubscribe_verdict fn callback) es) /\
  Unsubscribe.timer s = bool_decide (Unsubscribe.result_of s = None).
Proof.
  assert (Hdone : forall es r,
    Unsubscribe.run fn callback (Unsubscribe.mkState (Some r) false) es =
    Unsubscribe.mkState (Some r) false).
  { clear es. intros es r. induction es as [|e es IH]; [done|].
    unfold Unsubscribe.run in *. cbn [foldl]. destruct e; cbn [Unsubscribe.step]; try done.
    by destruct (Unsubscribe.includes _ _). }
  induction es as [|e es IH]; [done|]. intros s.
  assert (Hs : s = Unsubscribe.run fn callback (Unsubscribe.step fn callback Unsubscribe.start e) es)
    by done.
  destruct e as [o|err|]; cbn [Unsubscribe.step] in Hs; cbn [omap list_omap unsubscribe_verdict].
  - rewrite Hs. unfold Unsubscribe.settle_with. cbn. by rewrite Hdone.
  - destruct (Unsubscribe.includes _ _); [rewrite Hs; exact IH|].
    rewrite Hs. unfold Unsubscribe.settle_with. cbn. by rewrite Hdone.
  - rewrite Hs. unfold Unsubscribe.settle_with. cbn. by rewrite Hdone.
Qed.

(** ** The client on the wire *)

(** C32 On a server that keeps to the protocol, [replaceOneSession] without
    case folding and not restricted to overwriting, through the requests of
    this file, replaces the first occurrence and nothing else and returns the
    offset after it, or changes nothing and returns -1. *)
Theorem replace_one_over_the_wire {S} `{WireLaws S} (sessionId : jsstring) (w : world S)
  (pattern replacement : bytes) (reverse : bool) (o n : Z) :
  let b := content (server w) in
  let found := search_spec (fun b => b) pattern b reverse o n 1 in
  pattern <> [] -> 0 <= o <= MAX_SAFE_INTEGER -> 0 <= n <= MAX_SAFE_INTEGER ->
  len b + len replacement <= MAX_SAFE_INTEGER -> alive (server w) ->
  exists w', @replaceOneSession S _ (session_rpc sessionId) (inr pattern) (inr replacement) FOLD_NONE
      reverse (NInt o) (NInt n) false false w
    = (w', Ok (match found with [] => -1 | m :: _ => m + len replacement end)) /\
    alive (server w') /\
    content (server w') =
      match found with [] => b | m :: _ => substitute (len pattern) replacement [m] b end.
Proof.
  intros b found Hp Ho Hn Hmax Ha. pose (rpc := session_rpc sessionId).
  pose (laws := wire_session_laws (S := S) sessionId).
  destruct (performs_replaceOne (S := S) (H1 := rpc) (H2 := laws) pattern replacement reverse o n false b
    Hp Ho Hn Hmax w eq_refl) as [Hs Hl].
  destruct (Hl Ha) as (w' & r & E & Ha'). destruct (Hs w' r E) as [Hc ->]. by exists w'.
Qed.

(** [BufferServer] behind such a channel. *)
Module BufferWire.

Definition unavailable : js_error := JsError "Error" (js "14 UNAVAILABLE") (Some 14) None.

Definition answer {R} (rq : rpc R) (s : BufferServer.t) : outcome R :=
  match rq in rpc R return outcome R with
  | SearchSession rq => CallReplied (Some (map NInt
      (search_spec (ListService.fold (default FOLD_NONE (ss_caseFolding rq))) (ss_pattern rq)
         (BufferServer.buf s) (default false (ss_isReverse rq)) (ss_offset rq) (or_start (ss_length rq))
         (or_start (ss_limit rq)))))
  | GetComputedFileSize _ => CallReplied (Some (NInt (len (BufferServer.buf s))))
  | GetSegment _ o n => CallReplied (Some (take (Z.to_nat n) (drop (Z.to_nat o) (BufferServer.buf s))))
  | _ => CallFailed unavailable
  end.

#[global] Instance transport : Transport BufferServer.t := {
  get_client s := (s, inr tt);
  call_unary R rq s := (s, answer rq s)
}.

#[global] Instance wire_laws : WireLaws BufferServer.t.
Proof.
  refine {| wire_fold := ListService.fold |}; try done.
  - by intros rq s s' o [= <- <-].
  - intros rq s Ha. eexists _, _. split; [reflexivity|done].
Defined.

End BufferWire.

Lemma replace_one_over_the_wire_witness :
  exists w', @replaceOneSession BufferServer.t _ (session_rpc (js "s")) (inr [2; 3]) (inr [9]) FOLD_NONE
      false (NInt 0) (NInt 0) false false (BufferServer.init [1; 2; 3; 4; 2; 3] []) = (w', Ok 2) /\
    content (server w') = [1; 9; 4; 2; 3].
Proof.
  destruct (replace_one_over_the_wire (js "s") (BufferServer.init [1; 2; 3; 4; 2; 3] []) [2; 3] [9] false 0 0)
    as (w' & E & _ & Hc); [discriminate|split; vm_compute; discriminate..|vm_compute; discriminate| |].
  { split; cbn; [constructor|]. unfold MAX_SAFE_INTEGER. lia. }
  exists w'. split; [exact E|]. rewrite Hc. vm_compute. reflexivity.
Defined.

Lemma missing_details_recognised_witness :
  exists r, getChangeDetails (js "s") 1 (BufferServer.mk [1] 0 0 0 []) = (BufferServer.mk [1] 0 0 0 [], r) /\
    exists e, r = inl e /\ isMissingChangeDetailsError e = false.
Proof.
  destruct (missing_details_recognised (H := BufferWire.transport) (BufferServer.mk [1] 0 0 0 []) (BufferServer.mk [1] 0 0 0 [])
    (BufferServer.mk [1] 0 0 0 []) (js "s") 1 (CallFailed BufferWire.unavailable)
    ltac:(reflexivity) ltac:(reflexivity))
    as (r & E & e & Hr & Hm).
  exists r. split; [exact E|]. exists e. split; [exact Hr|]. rewrite Hm. reflexivity.
Defined.
