(* ===== verification/SessionCalls.v ===== *)
(** * Client calls on the wire ([packages/client/src/session.ts],
      [change.ts], [viewport.ts], [omega_edit_pb.ts])

    The rest of the client: sessions, saving, counts, transforms, profiles,
    viewports and the queries about changes.  Each checks the numbers it is
    given and hands the request to [UnaryCalls]; the numbers of a reply are
    checked at once or when they are asked for. *)

From S2P Require Import Prelude SafeInt JsText EditDiff EditSession History Search SessionApi UnaryCalls.

Open Scope call_scope.

(** ** Checks *)

(** A failed check throws an [Error]. *)
Definition js_error_of (e : exn) : js_error := JsError (exn_class e) (js (exn_code e)) None None.

Definition checkedT {S A} (r : result A) : T S A :=
  liftT (match r with Ok a => inr a | Throw e => inl (js_error_of e) end).

Definition inputT {S} (v : number) : T S Z := checkedT (requireSafeIntegerInput v).
Definition outputT {S} (v : number) : T S Z := checkedT (requireSafeIntegerOutput v).

(** ** The wrapped replies ([omega_edit_pb.ts]) *)

Definition numberOrZero (v : option number) : number := default (NInt 0) v.
Definition safeNumberOrZero (v : option number) : result Z := requireSafeIntegerOutput (numberOrZero v).
Definition bytesOrEmpty (d : option bytes) : bytes := default [] d.

Definition session_getFileSize (r : CreateSessionResponse) : result Z := safeNumberOrZero (cr_fileSize r).
Definition hasFileSize (r : CreateSessionResponse) : bool :=
  match cr_fileSize r with Some _ => true | None => false end.

Definition viewport_getOffset (r : ViewportData) : result Z := requireSafeIntegerOutput (vd_offset r).
Definition viewport_getLength (r : ViewportData) : result Z := requireSafeIntegerOutput (vd_length r).
Definition getFollowingByteCount (r : ViewportData) : result Z :=
  requireSafeIntegerOutput (vd_followingByteCount r).

Definition change_getSerial (r : ChangeDetails) : result Z := requireSafeIntegerOutput (ch_serial r).
Definition change_getOffset (r : ChangeDetails) : result Z := requireSafeIntegerOutput (ch_offset r).
Definition change_getLength (r : ChangeDetails) : result Z := requireSafeIntegerOutput (ch_length r).
Definition change_getData (r : ChangeDetails) : bytes := bytesOrEmpty (ch_data r).

Definition getByteOrderMarkBytes (r : GetByteOrderMarkResponse) : result Z :=
  requireSafeIntegerOutput (bm_length r).

(** [toObject], which checks every count. *)
Definition characterCounts (r : GetCharacterCountsResponse) : result (list Z) :=
  result_map requireSafeIntegerOutput
    [cc_offset r; cc_length r; cc_byteOrderMarkBytes r; cc_singleByteChars r; cc_doubleByteChars r;
     cc_tripleByteChars r; cc_quadByteChars r; cc_invalidBytes r].

Definition getCount (c : SingleCount) : result Z := requireSafeIntegerOutput (ct_count c).

(** ** The calls *)

Section Calls.
Context {S : Type} `{Transport S} (sessionId : jsstring).

(** *** Sessions *)

Definition client_createSession (file_path session_id_desired checkpoint_directory : jsstring)
  : T S CreateSessionResponse :=
  createSession file_path session_id_desired checkpoint_directory None.

Definition createSessionFromBytes (initial_data : bytes) (session_id_desired checkpoint_directory : jsstring)
  : T S CreateSessionResponse :=
  createSession [] session_id_desired checkpoint_directory (Some initial_data).

Definition client_destroySession : T S jsstring := destroySession sessionId.

Definition client_checkSessionModel : T S (jsstring * bool * Z) :=
  let+ response := checkSessionModel sessionId in
  let+ status := outputT (cm_status response) in
  retT (cm_sessionId response, cm_valid response, status).

Definition no_digest : js_error := new_error (js "getSessionFingerprint response missing fingerprint digest").

Definition client_getSessionFingerprint (content : SessionFingerprintContent) (algorithm plugin_id : jsstring)
  : T S (Z * ContentDigest) :=
  let+ response := getSessionFingerprint sessionId content algorithm plugin_id in
  match fr_fingerprint response with
  | Some (mkContentFingerprint byteLength (Some digest)) =>
      let+ n := outputT byteLength in
      retT (n, digest)
  | _ => throwT no_digest
  end.

Fixpoint content_infos (l : list SessionContentInfo)
  : T S (list (SessionContentSource * bool * Z * jsstring)) :=
  match l with
  | [] => retT []
  | entry :: l =>
      let+ n := outputT (ci_byteLength entry) in
      let+ rest := content_infos l in
      retT ((ci_content entry, ci_available entry, n, ci_label entry) :: rest)
  end.

Definition client_getSessionContentInfo (content : list SessionContentSource)
  : T S (list (SessionContentSource * bool * Z * jsstring)) :=
  let+ info := getSessionContentInfo sessionId content in
  content_infos info.

(** A signal that has aborted ends a call before it begins; what happens to
    a call under way is [UnaryCalls.Cancellable]. *)
Definition unless_aborted {A} (fn : string) (aborted : bool) (m : T S A) : T S A :=
  if aborted then throwT (makeCancellationError fn) else m.

Definition saveSession (file_path : jsstring) (flags : Z) (offset length : number)
  (expected : option SessionContentFingerprint) (aborted : bool) : T S SaveSessionResponse :=
  unless_aborted "saveSession" aborted
    (let+ o := inputT offset in
     let+ n := inputT length in
     required "saveSession" (SaveSession (save_request sessionId file_path flags o n expected))).

Definition client_getCounts (kinds : list CountKind) : T S (list SingleCount) := getCounts sessionId kinds.

Definition checked_count (m : T S number) : T S Z := let+ count := m in outputT count.

Definition client_getSessionCount : T S Z := checked_count getSessionCount.
Definition client_notifyChangedViewports : T S Z := checked_count (notifyChangedViewports sessionId).

Definition client_pauseSessionChanges : T S jsstring := pauseSessionChanges sessionId.
Definition client_resumeSessionChanges : T S jsstring := resumeSessionChanges sessionId.

(** *** Transforms and profiles *)

Definition client_listTransformPlugins : T S (list TransformPluginInfo) := listTransformPlugins.

Definition client_applyTransformPlugin (plugin_id : jsstring) (offset length : number)
  (options_json : option jsstring) (aborted : bool) : T S ApplyTransformPluginResponse :=
  unless_aborted "applyTransformPlugin" aborted
    (let+ o := inputT offset in
     let+ n := inputT length in
     let+ response := required "applyTransformPlugin"
       (ApplyTransformPlugin (transform_request sessionId plugin_id o n options_json)) in
     let+ _ := outputT (tr_offset response) in
     let+ _ := outputT (tr_length response) in
     let+ _ := outputT (tr_computedFileSize response) in
     let+ _ := outputT (tr_replacementLength response) in
     let+ _ := match tr_serial response with Some serial => outputT serial | None => retT 0 end in
     retT response).

Definition client_inspectSessionContent (content : SessionContentSource) (plugin_id : jsstring)
  (offset length : number) (options_json : option jsstring) (aborted : bool)
  : T S InspectSessionContentResponse :=
  unless_aborted "inspectSessionContent" aborted
    (let+ o := inputT offset in
     let+ n := inputT length in
     let+ response := required "inspectSessionContent"
       (InspectSessionContent (inspect_request sessionId content plugin_id o n options_json)) in
     let+ _ := outputT (ir_offset response) in
     let+ _ := outputT (ir_length response) in
     let+ _ := outputT (ir_contentByteLength response) in
     retT response).

Definition client_profileSession (offset length : number) : T S (list Z) :=
  let+ o := inputT offset in
  let+ n := inputT length in
  let+ profile := profileSession sessionId o n in
  checkedT (requireSafeIntegerArrayOutput profile).

Definition client_getByteOrderMark (offset : number) : T S GetByteOrderMarkResponse :=
  let+ o := inputT offset in getByteOrderMark sessionId o.

Definition client_countCharacters (offset length : number) (bom : jsstring)
  : T S GetCharacterCountsResponse :=
  let+ o := inputT offset in
  let+ n := inputT length in
  countCharacters sessionId o n bom.

(** *** Changes *)

Definition client_getLastChange : T S ChangeDetails := getLastChange sessionId.
(** The serial goes out as it is. *)
Definition client_getChangeDetails (serial : Z) : T S ChangeDetails := getChangeDetails sessionId serial.
Definition client_getLastUndo : T S ChangeDetails := getLastUndo sessionId.
Definition client_getChangeCount : T S Z := checked_count (getChangeCount sessionId).
Definition client_getUndoCount : T S Z := checked_count (getUndoCount sessionId).
Definition client_getChangeTransactionCount : T S Z := checked_count (getChangeTransactionCount sessionId).
Definition client_getUndoTransactionCount : T S Z := checked_count (getUndoTransactionCount sessionId).

(** *** Viewports *)

Definition client_createViewport (desired_viewport_id : option jsstring) (offset capacity : number)
  (is_floating : bool) : T S ViewportData :=
  let+ o := inputT offset in
  let+ n := inputT capacity in
  createViewport desired_viewport_id sessionId o n is_floating.

Definition client_modifyViewport (viewport_id : jsstring) (offset capacity : number) (is_floating : bool)
  : T S ViewportData :=
  let+ o := inputT offset in
  let+ n := inputT capacity in
  modifyViewport viewport_id o n is_floating.

Definition client_destroyViewport (viewport_id : jsstring) : T S jsstring := destroyViewport viewport_id.
Definition client_getViewportCount : T S Z := checked_count (getViewportCount sessionId).
Definition client_getViewportData (viewport_id : jsstring) : T S ViewportData := getViewportData viewport_id.
Definition client_viewportHasChanges (viewport_id : jsstring) : T S bool := viewportHasChanges viewport_id.
End Calls.
