(* ===== verification/ClientConnection.v ===== *)
(** * The shared connection ([packages/client/src/protobuf_ts/client.ts])

    [getClient] hands out a connected client for a target and keeps what it
    has connected: a client for each endpoint, the connection attempts under
    way by request, and the target the calls without arguments use.
    [resetClient] forgets all of it.

    Calls and attempts run interleaved: [act] is what runs at once, namely a
    call up to its first wait, an attempt from one outcome of [waitForReady]
    to the next, a call that goes on because the attempt it waits for is over,
    and a reset. *)

From stdpp Require Import fin_maps.
From S2P Require Import Prelude JsText UnaryCalls.

(** ** Targets *)

Record ClientConnectionOptions := mkConnectionOptions {
  serverUri : option jsstring;
  socketPath : option jsstring;
  allowTcpFallback : bool
}.

(** The variables of the process that are looked at. *)
Record process_env := mkProcessEnv {
  is_windows : bool;
  OMEGA_EDIT_SERVER_URI : option jsstring;
  OMEGA_EDIT_SERVER_SOCKET : option jsstring
}.

Definition DEFAULT_HOST : jsstring := js "127.0.0.1".
Definition DEFAULT_PORT : Z := 9000.

(** A string that is missing or empty is false. *)
Definition given (s : option jsstring) : option jsstring :=
  match s with Some s => nonempty s | None => None end.

Definition isUnixSocketTarget (uri : jsstring) : bool := starts_with (js "unix:") uri.

Definition normalizeUnixSocketTarget (socket : jsstring) : jsstring :=
  if starts_with (js "unix:") socket then socket
  else if starts_with (js "/") socket then js "unix:///" ++ drop 1 socket
  else js "unix:" ++ socket.

Definition windows_unsupported : exn :=
  plain_error "Unix domain sockets are not supported on Windows by the current Node/gRPC stack".

Definition assertWindowsAllowsUnixSocketTarget (env : process_env) (uri : jsstring) : result unit :=
  if is_windows env && isUnixSocketTarget uri then Throw windows_unsupported else Ok tt.

(** [candidates.join('|')] *)
Fixpoint join_bar (l : list jsstring) : jsstring :=
  match l with
  | [] => []
  | [x] => x
  | x :: l => x ++ js "|" ++ join_bar l
  end.

Record target := mkTarget { requestKey : jsstring; candidates : list jsstring }.

Definition tcpUri (host : jsstring) (port : Z) : jsstring := host ++ js ":" ++ decimal_string port.

Definition resolveCandidates (env : process_env) (port : Z) (host : jsstring)
  (options : option ClientConnectionOptions) : result target :=
  let uri := given (match options with Some o => serverUri o | None => None end) in
  let socket := given (match options with Some o => socketPath o | None => None end) in
  let fallback := match options with Some o => allowTcpFallback o | None => false end in
  match uri, socket with
  | Some _, Some _ => Throw (plain_error "getClient accepts either serverUri or socketPath, not both")
  | Some uri, None =>
      _ ← assertWindowsAllowsUnixSocketTarget env uri;
      Ok (mkTarget uri [uri])
  | None, Some socket =>
      let socketUri := normalizeUnixSocketTarget socket in
      _ ← assertWindowsAllowsUnixSocketTarget env socketUri;
      let candidates := if fallback then [socketUri; tcpUri host port] else [socketUri] in
      Ok (mkTarget (join_bar candidates) candidates)
  | None, None =>
      match given (OMEGA_EDIT_SERVER_URI env), given (OMEGA_EDIT_SERVER_SOCKET env) with
      | Some uri, _ =>
          _ ← assertWindowsAllowsUnixSocketTarget env uri;
          Ok (mkTarget uri [uri])
      | None, Some socket =>
          let socketUri := normalizeUnixSocketTarget socket in
          _ ← assertWindowsAllowsUnixSocketTarget env socketUri;
          let candidates := [socketUri; tcpUri host port] in
          Ok (mkTarget (join_bar candidates) candidates)
      | None, None => Ok (mkTarget (tcpUri host port) [tcpUri host port])
      end
  end.

Definition usesCurrentSharedClient (env : process_env) (port : Z) (host : jsstring)
  (options : option ClientConnectionOptions) : bool :=
  (port =? DEFAULT_PORT) && bool_decide (host = DEFAULT_HOST) &&
  bool_decide (given (match options with Some o => serverUri o | None => None end) = None) &&
  bool_decide (given (match options with Some o => socketPath o | None => None end) = None) &&
  bool_decide (given (OMEGA_EDIT_SERVER_URI env) = None) &&
  bool_decide (given (OMEGA_EDIT_SERVER_SOCKET env) = None).

(** ** Connections *)

(** A client, an attempt ([initClient]) and a call ([getClient]) are known by
    numbers. *)
Inductive attempt :=
  | Connecting (client : nat) (uri : jsstring) (rest : list jsstring)
  | Connected (client : nat) (uri : jsstring)
  | Unreachable.

Inductive waiting :=
  | SharedAttempt (i : nat)
  | PendingAttempt (i : nat)
  | OwnAttempt (i : nat) (key : jsstring)
  | Returned (client : nat)
  | Rejected.

Record connections := mkConnections {
  clientInstances : gmap jsstring nat;
  pendingInit : gmap jsstring nat;
  currentClientUri : option jsstring;
  currentRequestKey : option jsstring;
  attempts : gmap nat attempt;
  calls : gmap nat waiting;
  open_clients : gset nat;
  next_client : nat;
  next_attempt : nat
}.

Definition no_connections : connections := mkConnections ∅ ∅ None None ∅ ∅ ∅ 0 0.

Definition set_call (c : nat) (w : waiting) (s : connections) : connections :=
  mkConnections (clientInstances s) (pendingInit s) (currentClientUri s) (currentRequestKey s)
    (attempts s) (<[c := w]> (calls s)) (open_clients s) (next_client s) (next_attempt s).
Definition set_current (uri key : option jsstring) (s : connections) : connections :=
  mkConnections (clientInstances s) (pendingInit s) uri key
    (attempts s) (calls s) (open_clients s) (next_client s) (next_attempt s).
Definition set_pending (p : gmap jsstring nat) (s : connections) : connections :=
  mkConnections (clientInstances s) p (currentClientUri s) (currentRequestKey s)
    (attempts s) (calls s) (open_clients s) (next_client s) (next_attempt s).
Definition set_attempt (i : nat) (a : attempt) (s : connections) : connections :=
  mkConnections (clientInstances s) (pendingInit s) (currentClientUri s) (currentRequestKey s)
    (<[i := a]> (attempts s)) (calls s) (open_clients s) (next_client s) (next_attempt s).
Definition set_instances (m : gmap jsstring nat) (s : connections) : connections :=
  mkConnections m (pendingInit s) (currentClientUri s) (currentRequestKey s)
    (attempts s) (calls s) (open_clients s) (next_client s) (next_attempt s).
Definition set_open (o : gset nat) (s : connections) : connections :=
  mkConnections (clientInstances s) (pendingInit s) (currentClientUri s) (currentRequestKey s)
    (attempts s) (calls s) o (next_client s) (next_attempt s).

(** [new EditorClient(uri, ...)] for attempt [i]. *)
Definition new_client (i : nat) (uri : jsstring) (rest : list jsstring) (s : connections) : connections :=
  mkConnections (clientInstances s) (pendingInit s) (currentClientUri s) (currentRequestKey s)
    (<[i := Connecting (next_client s) uri rest]> (attempts s)) (calls s)
    ({[next_client s]} ∪ open_clients s) (next_client s + 1) (next_attempt s).

(** The loop of [initClient] up to the next wait. *)
Definition try_candidates (i : nat) (l : list jsstring) (s : connections) : connections :=
  match l with
  | [] => set_attempt i Unreachable s
  | uri :: rest =>
      match clientInstances s !! uri with
      | Some client => set_attempt i (Connected client uri) s
      | None => new_client i uri rest s
      end
  end.

Definition new_attempt (l : list jsstring) (s : connections) : nat * connections :=
  let i := next_attempt s in
  (i, try_candidates i l (mkConnections (clientInstances s) (pendingInit s) (currentClientUri s)
        (currentRequestKey s) (attempts s) (calls s) (open_clients s) (next_client s) (i + 1))).

(** [getClient] for a target, from where it is resolved. *)
Definition get_target (c : nat) (t : result target) (s : connections) : connections :=
  match t with
  | Throw _ => set_call c Rejected s
  | Ok t =>
      match match head (candidates t) with Some p => (clientInstances s !! p) | None => None end with
      | Some client =>
          set_call c (Returned client) (set_current (head (candidates t)) (Some (requestKey t)) s)
      | None =>
          match pendingInit s !! requestKey t with
          | Some i => set_call c (PendingAttempt i) (set_current (currentClientUri s) (Some (requestKey t)) s)
          | None =>
              let '(i, s) := new_attempt (candidates t) (set_current (currentClientUri s) (Some (requestKey t)) s) in
              set_call c (OwnAttempt i (requestKey t)) (set_pending (<[requestKey t := i]> (pendingInit s)) s)
          end
      end
  end.

(** The part of [getClient] that runs when it is called. *)
Definition get_client_call (c : nat) (shared : bool) (t : result target) (s : connections) : connections :=
  if shared then
    match match currentClientUri s with Some u => (clientInstances s !! u) | None => None end with
    | Some client => set_call c (Returned client) s
    | None =>
        let s := set_current None (currentRequestKey s) s in
        match match currentRequestKey s with Some k => (pendingInit s !! k) | None => None end with
        | Some i => set_call c (SharedAttempt i) s
        | None => get_target c t (set_current None None s)
        end
    end
  else get_target c t s.

(** [waitForReady] of attempt [i] is over. *)
Definition ready (i : nat) (ok : bool) (s : connections) : connections :=
  match attempts s !! i with
  | Some (Connecting client uri rest) =>
      if ok then set_attempt i (Connected client uri) (set_instances (<[uri := client]> (clientInstances s)) s)
      else try_candidates i rest (set_open (open_clients s ∖ {[client]}) s)
  | _ => s
  end.

Definition attempt_over (i : nat) (s : connections) : option (option (nat * jsstring)) :=
  match attempts s !! i with
  | Some (Connected client uri) => Some (Some (client, uri))
  | Some Unreachable => Some None
  | _ => None
  end.

(** The [finally] of the call that made the attempt. *)
Definition attempt_done (key : jsstring) (s : connections) : connections :=
  let s := set_pending (delete key (pendingInit s)) s in
  if bool_decide (currentRequestKey s = Some key) && bool_decide (currentClientUri s = None)
  then set_current None None s else s.

(** Call [c] goes on. *)
Definition resume (c : nat) (s : connections) : connections :=
  match calls s !! c with
  | Some (SharedAttempt i) =>
      match attempt_over i s with
      | Some (Some (client, _)) => set_call c (Returned client) s
      | Some None => set_call c Rejected s
      | None => s
      end
  | Some (PendingAttempt i) =>
      match attempt_over i s with
      | Some (Some (client, uri)) =>
          set_call c (Returned client) (set_current (Some uri) (currentRequestKey s) s)
      | Some None => set_call c Rejected s
      | None => s
      end
  | Some (OwnAttempt i key) =>
      match attempt_over i s with
      | Some (Some (client, uri)) =>
          set_call c (Returned client) (attempt_done key (set_current (Some uri) (currentRequestKey s) s))
      | Some None => set_call c Rejected (attempt_done key s)
      | None => s
      end
  | _ => s
  end.

(** Clients that fail to close are logged; they count as closed. *)
Definition resetClient (s : connections) : connections :=
  mkConnections ∅ ∅ None None (attempts s) (calls s)
    (open_clients s ∖ map_img (clientInstances s)) (next_client s) (next_attempt s).

Inductive action :=
  | GetClient (c : nat) (shared : bool) (t : result target)
  | Ready (i : nat) (ok : bool)
  | Resume (c : nat)
  | Reset.

(** A call has a number of its own. *)
Definition act (a : action) (s : connections) : connections :=
  match a with
  | GetClient c shared t =>
      match calls s !! c with Some _ => s | None => get_client_call c shared t s end
  | Ready i ok => ready i ok s
  | Resume c => resume c s
  | Reset => resetClient s
  end.

Definition run (l : list action) (s : connections) : connections := foldl (fun s a => act a s) s l.

(** A call of the program. *)
Definition getClient (env : process_env) (c : nat) (port : Z) (host : jsstring)
  (options : option ClientConnectionOptions) : action :=
  GetClient c (usesCurrentSharedClient env port host options) (resolveCandidates env port host options).

(** ** Accounting for clients *)

Section Accounting.
(** What the targets in use are. *)
Context (endpoints : jsstring -> list jsstring).

(** The endpoints of a target follow from its key, and different keys have
    different endpoints. *)
Definition separate : Prop :=
  forall k k' uri, uri ∈ endpoints k -> uri ∈ endpoints k' -> k = k'.

Definition planned (a : action) : Prop :=
  match a with
  | GetClient _ _ (Ok t) => candidates t = endpoints (requestKey t) /\ NoDup (candidates t)
  | Reset => False
  | _ => True
  end.

Definition connecting (s : connections) (i client : nat) (uri : jsstring) : Prop :=
  exists rest, attempts s !! i = Some (Connecting client uri rest).

(** Who keeps a client: an endpoint, or an attempt. *)
Definition kept (s : connections) (client : nat) : Prop :=
  (exists uri, clientInstances s !! uri = Some client) \/ (exists i uri, connecting s i client uri).

Record accounted (s : connections) : Prop := {
  acc_open : forall client, client ∈ open_clients s <-> kept s client;
  acc_fresh : forall client, client ∈ open_clients s -> (client < next_client s)%nat;
  acc_attempts : forall i a, attempts s !! i = Some a -> (i < next_attempt s)%nat;
  acc_cached : forall uri uri' client,
    clientInstances s !! uri = Some client -> clientInstances s !! uri' = Some client -> uri = uri';
  acc_once : forall i i' client uri uri',
    connecting s i client uri -> connecting s i' client uri' -> i = i';
  acc_apart : forall uri client, clientInstances s !! uri = Some client ->
    forall i uri', ~ connecting s i client uri';
  acc_pending : forall i client uri rest, attempts s !! i = Some (Connecting client uri rest) ->
    exists k, pendingInit s !! k = Some i /\ (exists done, endpoints k = done ++ uri :: rest) /\
      NoDup (endpoints k) /\ clientInstances s !! uri = None;
  acc_owned : forall c i k, calls s !! c = Some (OwnAttempt i k) ->
    pendingInit s !! k = Some i /\ (i < next_attempt s)%nat;
  acc_owner : forall c c' i k k', calls s !! c = Some (OwnAttempt i k) ->
    calls s !! c' = Some (OwnAttempt i k') -> c = c';
  acc_keys : forall k k' i, pendingInit s !! k = Some i -> pendingInit s !! k' = Some i -> k = k';
  acc_pending_fresh : forall k i, pendingInit s !! k = Some i -> (i < next_attempt s)%nat;
  acc_result : forall i client uri, attempts s !! i = Some (Connected client uri) ->
    clientInstances s !! uri = Some client;
  acc_returned : forall c client, calls s !! c = Some (Returned client) ->
    exists uri, clientInstances s !! uri = Some client
}.

Lemma acc_set_current u k s : accounted s -> accounted (set_current u k s).
Proof. by destruct 1; split. Qed.

Lemma acc_set_call c w s :
  accounted s -> (forall i k, w <> OwnAttempt i k) ->
  (forall client, w = Returned client -> exists uri, clientInstances s !! uri = Some client) ->
  accounted (set_call c w s).
Proof.
  intros [] Hown Hret. split; try done; cbn.
  - intros c' i k [[-> Hw]|[_ Hc]]%lookup_insert_Some; [by destruct (Hown i k)|eauto].
  - intros c1 c2 i k k' [[-> Hw]|[_ H1]]%lookup_insert_Some [[-> Hw']|[_ H2]]%lookup_insert_Some; try done;
      try (by destruct (Hown i k)); try (by destruct (Hown i k')). eauto.
  - intros c' client [[-> Hw]|[_ Hc]]%lookup_insert_Some; eauto.
Qed.

Definition idle (i : nat) (s : connections) : Prop := forall client uri, ~ connecting s i client uri.

Lemma connecting_set i a s j client uri :
  connecting (set_attempt i a s) j client uri <->
  (i = j /\ exists rest, a = Connecting client uri rest) \/ (i <> j /\ connecting s j client uri).
Proof.
  unfold connecting. cbn. destruct (decide (i = j)) as [->|Hne].
  - rewrite lookup_insert_eq. split; [intros [rest [= ->]]; left; eauto|].
    intros [[_ [rest ->]]|[? _]]; [by exists rest|done].
  - rewrite lookup_insert_ne by done. split; [intros H; by right|]. by intros [[? _]|[_ H]].
Qed.

Lemma acc_set_attempt i a s :
  accounted s -> idle i s -> (i < next_attempt s)%nat -> (forall client uri rest, a <> Connecting client uri rest) ->
  (forall client uri, a = Connected client uri -> clientInstances s !! uri = Some client) ->
  accounted (set_attempt i a s).
Proof.
  intros [] Hi Hlt Ha Hres.
  assert (Hcon : forall j client uri, connecting (set_attempt i a s) j client uri <-> connecting s j client uri).
  { intros j client uri. rewrite connecting_set. split.
    - intros [[-> [rest ->]]|[_ ?]]; [by destruct (Ha client uri rest)|done].
    - intros Hj. right. split; [intros ->; by destruct (Hi client uri)|done]. }
  split; try done; cbn.
  - intros client. rewrite acc_open0. unfold kept. by setoid_rewrite Hcon.
  - intros j b [[-> _]|[_ Hb]]%lookup_insert_Some; eauto.
  - intros j j' client uri uri'. rewrite !Hcon. eauto.
  - intros uri client Hc j uri'. rewrite Hcon. eauto.
  - intros j client uri rest [[-> Hb]|[_ Hb]]%lookup_insert_Some; [by destruct (Ha client uri rest)|eauto].
  - intros j client uri [[-> Hb]|[_ Hb]]%lookup_insert_Some; eauto.
Qed.

Lemma connecting_new i uri rest s j client u :
  connecting (new_client i uri rest s) j client u <->
  (i = j /\ client = next_client s /\ u = uri) \/ (i <> j /\ connecting s j client u).
Proof.
  change (connecting (new_client i uri rest s) j client u)
    with (connecting (set_attempt i (Connecting (next_client s) uri rest) s) j client u).
  rewrite connecting_set. split.
  - intros [[-> [r [= -> -> ->]]]|H]; [by left|by right].
  - intros [(-> & -> & ->)|H]; [left; eauto|by right].
Qed.

Lemma acc_kept_fresh s client : accounted s -> kept s client -> (client < next_client s)%nat.
Proof. intros Hs Hk. by apply (acc_fresh _ Hs), (acc_open _ Hs). Qed.

Lemma acc_new_client i k done uri rest s :
  accounted s -> idle i s -> pendingInit s !! k = Some i ->
  endpoints k = done ++ uri :: rest -> NoDup (endpoints k) -> clientInstances s !! uri = None ->
  accounted (new_client i uri rest s).
Proof.
  intros Hs Hi Hk He Hnd Hnone.
  assert (Hno : ~ kept s (next_client s)) by (intros H%(acc_kept_fresh s); [lia|done]).
  assert (Hcached : forall u, clientInstances s !! u <> Some (next_client s))
    by (intros u Hu; apply Hno; left; eauto).
  assert (Hconn : forall j u, ~ connecting s j (next_client s) u)
    by (intros j u Hu; apply Hno; right; eauto).
  pose proof (acc_pending_fresh _ Hs k i Hk) as Hlt.
  destruct Hs. split; try done; cbn.
  - intros client. rewrite elem_of_union, elem_of_singleton, acc_open0. unfold kept.
    setoid_rewrite connecting_new. split.
    + intros [->|[H|(j & u & H)]]; [right; eauto 6|by left|].
      destruct (decide (i = j)) as [->|Hne]; [by destruct (Hi client u)|right; eauto 6].
    + intros [H|(j & u & [(_ & -> & _)|[_ H]])]; eauto 6.
  - intros client. rewrite elem_of_union, elem_of_singleton.
    intros [->|H%acc_fresh0]; lia.
  - intros j b [[-> _]|[_ Hb]]%lookup_insert_Some; eauto.
  - intros j j' client u u'. rewrite !connecting_new.
    intros [(-> & -> & _)|[_ H]] [(-> & Hc & _)|[_ H']]; try done; [by destruct (Hconn j' u')| |eauto].
    subst client. by destruct (Hconn j u).
  - intros u client Hc j u'. rewrite connecting_new. intros [(_ & -> & _)|[_ H]]; [by apply (Hcached u)|].
    by eapply acc_apart0.
  - intros j client u r [[-> [= <- <- <-]]|[_ Hb]]%lookup_insert_Some; [|eauto].
    exists k. eauto.
  - intros j client u [[-> Hb]|[_ Hb]]%lookup_insert_Some; [done|eauto].
Qed.

Lemma acc_try i k done l s :
  accounted s -> idle i s -> pendingInit s !! k = Some i ->
  endpoints k = done ++ l -> NoDup (endpoints k) -> accounted (try_candidates i l s).
Proof.
  intros Hs Hi Hk He Hnd. pose proof (acc_pending_fresh _ Hs k i Hk) as Hlt.
  destruct l as [|uri rest]; cbn; [by apply acc_set_attempt|].
  destruct (clientInstances s !! uri) as [client|] eqn:E; [|by eapply acc_new_client].
  apply acc_set_attempt; try done. by intros client' uri' [= -> ->].
Qed.

(** A client that did not become ready is closed. *)
Lemma acc_drop i client uri rest s :
  accounted s -> attempts s !! i = Some (Connecting client uri rest) ->
  accounted (set_attempt i Unreachable (set_open (open_clients s ∖ {[client]}) s)).
Proof.
  intros Hs Hi. assert (Hc : connecting s i client uri) by (by exists rest).
  pose proof (acc_attempts _ Hs i _ Hi) as Hlt.
  assert (Hcon : forall j c u, connecting (set_attempt i Unreachable
      (set_open (open_clients s ∖ {[client]}) s)) j c u <-> i <> j /\ connecting s j c u).
  { intros j c u. rewrite connecting_set. split; [|by right].
    by intros [[_ [r ?]]|H]. }
  destruct Hs. split; try done; cbn.
  - intros c. rewrite elem_of_difference, elem_of_singleton, acc_open0. unfold kept.
    setoid_rewrite Hcon. split.
    + intros [[H|(j & u & H)] Hne]; [by left|right]. exists j, u. split; [|done]. intros <-.
      destruct Hc as [r Hc], H as [r' H]. congruence.
    + intros [[u H]|(j & u & Hne & H)]; split; [by left; eauto| |by right; eauto|].
      * intros ->. by eapply acc_apart0.
      * intros ->. by destruct (acc_once0 j i client u uri).
  - intros c [H _]%elem_of_difference. eauto.
  - intros j b [[-> _]|[_ Hb]]%lookup_insert_Some; eauto.
  - intros j j' c u u'. rewrite !Hcon. intros [_ H] [_ H']. eauto.
  - intros u c Hu j u'. rewrite Hcon. intros [_ H]. by eapply acc_apart0.
  - intros j c u r [[-> Hb]|[_ Hb]]%lookup_insert_Some; [done|eauto].
  - intros j c u [[-> Hb]|[_ Hb]]%lookup_insert_Some; [done|eauto].
Qed.

(** A client that became ready is kept for its endpoint. *)
Lemma acc_ready i client uri rest s :
  separate -> accounted s -> attempts s !! i = Some (Connecting client uri rest) ->
  accounted (set_attempt i (Connected client uri) (set_instances (<[uri := client]> (clientInstances s)) s)).
Proof.
  intros Hsep Hs Hi. assert (Hc : connecting s i client uri) by (by exists rest).
  pose proof (acc_attempts _ Hs i _ Hi) as Hlt.
  destruct (acc_pending _ Hs i client uri rest Hi) as (k & Hk & [d He] & _ & Hnone).
  assert (Hcon : forall j c u, connecting (set_attempt i (Connected client uri)
      (set_instances (<[uri := client]> (clientInstances s)) s)) j c u <-> i <> j /\ connecting s j c u).
  { intros j c u. rewrite connecting_set. split; [|by right]. by intros [[_ [r ?]]|H]. }
  assert (Hother : forall j c u r, i <> j -> attempts s !! j = Some (Connecting c u r) -> u <> uri).
  { intros j c u r Hne Hj ->. destruct (acc_pending _ Hs j c uri r Hj) as (k' & Hk' & [d' He'] & _).
    assert (k = k') as ->.
    { apply (Hsep k k' uri); rewrite ?He, ?He', elem_of_app; right; left. }
    congruence. }
  destruct Hs. split; try done; cbn.
  - intros c. rewrite acc_open0. unfold kept. setoid_rewrite Hcon. cbn.
    setoid_rewrite lookup_insert_Some. split.
    + intros [[u H]|(j & u & H)].
      * left. destruct (decide (uri = u)) as [->|]; [congruence|eauto].
      * destruct (decide (i = j)) as [->|]; [|right; eauto]. left. exists uri. left.
        destruct Hc as [r Hc], H as [r' H]. split; [done|congruence].
    + intros [[u [[-> ->]|[_ H]]]|(j & u & _ & H)]; [right; eauto|by left; eauto|by right; eauto].
  - intros j b [[-> _]|[_ Hb]]%lookup_insert_Some; eauto.
  - intros u u' c [[<- <-]|[_ H]]%lookup_insert_Some [[<- Hx]|[_ H']]%lookup_insert_Some; try done; [| |eauto].
    + exfalso. by apply (acc_apart0 u' client H' i uri).
    + subst c. exfalso. by apply (acc_apart0 u client H i uri).
  - intros j j' c u u'. rewrite !Hcon. intros [_ H] [_ H']. eauto.
  - intros u c [[<- <-]|[_ H]]%lookup_insert_Some j u'; rewrite Hcon; intros [Hne Hj]; [|by eapply acc_apart0].
    by apply Hne, (acc_once0 i j client uri u').
  - intros j c u r [[-> Hb]|[Hne Hb]]%lookup_insert_Some; [done|].
    pose proof (Hother j c u r Hne Hb). rewrite lookup_insert_ne by done. eauto.
  - intros j c u [[-> [= <- <-]]|[Hne Hb]]%lookup_insert_Some; [by rewrite lookup_insert_eq|].
    destruct (decide (uri = u)) as [->|]; [|rewrite lookup_insert_ne by done; eauto].
    apply acc_result0 in Hb. congruence.
  - intros c cl Hcl. apply acc_returned0 in Hcl as [u Hu]. exists u.
    destruct (decide (uri = u)) as [->|]; [congruence|by rewrite lookup_insert_ne].
Qed.

(** A call that starts an attempt of its own. *)
Lemma acc_register c k s :
  accounted s -> pendingInit s !! k = None -> calls s !! c = None ->
  let i := next_attempt s in
  let s' := mkConnections (clientInstances s) (<[k := i]> (pendingInit s)) (currentClientUri s)
    (currentRequestKey s) (attempts s) (<[c := OwnAttempt i k]> (calls s)) (open_clients s)
    (next_client s) (i + 1) in
  accounted s' /\ idle i s' /\ pendingInit s' !! k = Some i.
Proof.
  intros Hs Hk Hc i s'. split; [|split; [|by cbn; rewrite lookup_insert_eq]].
  - assert (Hfresh : forall k', pendingInit s !! k' <> Some i).
    { intros k' H%(acc_pending_fresh _ Hs). subst i. lia. }
    destruct Hs. split; try done; cbn.
    + intros j a H%acc_attempts0. subst i. lia.
    + intros j client uri rest H. destruct (acc_pending0 j client uri rest H) as (k' & Hk' & Hrest).
      exists k'. rewrite lookup_insert_ne; [done|]. intros ->. congruence.
    + intros c' j k' [[-> [= <- <-]]|[Hne H]]%lookup_insert_Some.
      * rewrite lookup_insert_eq. split; [done|lia].
      * destruct (acc_owned0 c' j k' H). rewrite lookup_insert_ne by (intros ->; congruence).
        split; [done|]. subst i. lia.
    + intros c1 c2 j k1 k2 [[-> [= <- <-]]|[Hne H]]%lookup_insert_Some
        [[-> Hx]|[Hne' H']]%lookup_insert_Some; try done; [| |eauto].
      * exfalso. apply acc_owned0 in H' as [H' _]. by apply (Hfresh k2).
      * injection Hx as <- <-. exfalso. apply acc_owned0 in H as [H _]. by apply (Hfresh k1).
    + intros k1 k2 j [[-> <-]|[_ H]]%lookup_insert_Some [[-> Hx]|[_ H']]%lookup_insert_Some; try done;
        [| |eauto].
      * by destruct (Hfresh k2).
      * subst j. by destruct (Hfresh k1).
    + intros k' j [[-> <-]|[_ H%acc_pending_fresh0]]%lookup_insert_Some; subst i; lia.
    + intros c' client [[-> Hx]|[_ H]]%lookup_insert_Some; [done|eauto].
  - intros client uri [rest H]. cbn in H. apply (acc_attempts _ Hs) in H. subst i. lia.
Qed.

(** The call whose attempt is over forgets it. *)
Lemma acc_attempt_done c i k w s :
  accounted s -> calls s !! c = Some (OwnAttempt i k) -> idle i s ->
  (forall j k', w <> OwnAttempt j k') ->
  (forall client, w = Returned client -> exists uri, clientInstances s !! uri = Some client) ->
  accounted (set_call c w (set_pending (delete k (pendingInit s)) s)).
Proof.
  intros Hs Hc Hi Hown Hret. destruct (acc_owned _ Hs c i k Hc) as [Hk _].
  destruct Hs. split; try done; cbn.
  - intros j client uri rest H. destruct (acc_pending0 j client uri rest H) as (k' & Hk' & Hrest).
    exists k'. rewrite lookup_delete_ne; [done|]. intros ->.
    assert (i = j) as -> by congruence. destruct (Hi client uri). by exists rest.
  - intros c' j k' [[-> Hw]|[Hne H]]%lookup_insert_Some; [by destruct (Hown j k')|].
    destruct (acc_owned0 c' j k' H) as [H1 H2]. split; [|done]. rewrite lookup_delete_ne; [done|].
    intros ->. assert (i = j) as -> by congruence. apply Hne. by eapply acc_owner0.
  - intros c1 c2 j k1 k2 [[-> Hw]|[_ H]]%lookup_insert_Some; [by destruct (Hown j k1)|].
    intros [[-> Hw]|[_ H']]%lookup_insert_Some; [by destruct (Hown j k2)|eauto].
  - intros k1 k2 j [_ H]%lookup_delete_Some [_ H']%lookup_delete_Some. eauto.
  - intros k' j [_ H]%lookup_delete_Some. eauto.
  - intros c' client [[-> Hw]|[_ H]]%lookup_insert_Some; eauto.
Qed.

Lemma idle_over i r s : attempt_over i s = Some r -> idle i s.
Proof. unfold attempt_over. intros H client uri [rest Ha]. by rewrite Ha in H. Qed.

Lemma over_cached i client uri s :
  accounted s -> attempt_over i s = Some (Some (client, uri)) -> clientInstances s !! uri = Some client.
Proof.
  intros Hs. unfold attempt_over. destruct (attempts s !! i) as [[c u r|c u|]|] eqn:E; try done.
  intros [= -> ->]. by apply (acc_result _ Hs i).
Qed.

Lemma acc_get_target c t s :
  accounted s -> calls s !! c = None -> planned (GetClient c false t) -> accounted (get_target c t s).
Proof.
  intros Hs Hc Hp. unfold get_target. destruct t as [t|e]; [|by apply acc_set_call]. destruct Hp as [Hcand Hnd].
  destruct (match head (candidates t) with Some p => (clientInstances s !! p) | None => None end)
    as [client|] eqn:E.
  { apply acc_set_call; [by apply acc_set_current|done|]. intros client' [= <-].
    destruct (head (candidates t)) as [p|]; [by exists p|done]. }
  destruct (pendingInit s !! requestKey t) as [i|] eqn:Ek.
  { apply acc_set_call; [by apply acc_set_current|done..]. }
  destruct (acc_register c (requestKey t) (set_current (currentClientUri s) (Some (requestKey t)) s)
    ltac:(by apply acc_set_current) Ek Hc) as (Hr & Hi & Hk).
  eapply (acc_try _ _ [] (candidates t)) in Hr; [|exact Hi|exact Hk|by rewrite Hcand|by rewrite <- Hcand].
  unfold new_attempt. cbv zeta. revert Hr. unfold try_candidates.
  destruct (candidates t) as [|uri rest]; [done|]. cbn. by destruct (clientInstances s !! uri).
Qed.

Lemma acc_act a s : separate -> planned a -> accounted s -> accounted (act a s).
Proof.
  intros Hsep Hp Hs. destruct a as [c shared t|i ok|c|]; [| | |done]; cbn.
  - destruct (calls s !! c) as [|] eqn:Hc; [done|]. unfold get_client_call.
    destruct shared; [|by apply acc_get_target].
    destruct (match currentClientUri s with Some u => (clientInstances s !! u) | None => None end)
      as [client|] eqn:E.
    { apply acc_set_call; [done..|]. intros client' [= <-].
      destruct (currentClientUri s) as [u|]; [by exists u|done]. }
    cbn. destruct (match currentRequestKey s with Some k => (pendingInit s !! k) | None => None end).
    + apply acc_set_call; [by apply acc_set_current|done..].
    + apply acc_get_target; [by do 2 apply acc_set_current|done|done].
  - unfold ready. destruct (attempts s !! i) as [[client uri rest| |]|] eqn:E; try done.
    destruct ok; [by eapply acc_ready|]. pose proof (acc_drop i client uri rest s Hs E) as Hd.
    destruct (acc_pending _ Hs i client uri rest E) as (k & Hk & [d He] & Hnd & _).
    apply (acc_try i k (d ++ [uri]) rest) in Hd; [|..|done|by rewrite He, <- app_assoc|done].
    + revert Hd. unfold try_candidates, set_attempt, new_client. cbn.
      destruct rest as [|u rest]; [by rewrite insert_insert_eq|].
      destruct (clientInstances s !! u); by rewrite insert_insert_eq.
    + intros c u. rewrite connecting_set. by intros [[_ [r ?]]|[? _]].
  - unfold resume. destruct (calls s !! c) as [w|] eqn:Hc; [|done].
    destruct w as [i|i|i k| |]; try done; destruct (attempt_over i s) as [[[client uri]|]|] eqn:E; try done.
    + apply acc_set_call; [done..|]. intros ? [= <-]. exists uri. exact (over_cached i client uri s Hs E).
    + by apply acc_set_call.
    + apply acc_set_call; [by apply acc_set_current|done|]. intros ? [= <-]. exists uri. exact (over_cached i client uri s Hs E).
    + by apply acc_set_call.
    + apply (acc_attempt_done c i k (Returned client)) in Hs as Hd; [|done|by eapply idle_over|done|].
      * apply (acc_set_current (Some uri) (currentRequestKey s)) in Hd. revert Hd.
        unfold attempt_done. cbn. by rewrite andb_false_r.
      * intros ? [= <-]. exists uri. exact (over_cached i client uri s Hs E).
    + apply (acc_attempt_done c i k Rejected) in Hs as Hd; [|done|by eapply idle_over|done..].
      unfold attempt_done. cbn. destruct (_ && _); [|done].
      by apply (acc_set_current None None) in Hd.
Qed.

Lemma acc_none : accounted no_connections.
Proof.
  assert (He : forall (A : Type) (i : nat) (x : A), (∅ : gmap nat A) !! i <> Some x)
    by (intros *; by rewrite lookup_empty).
  assert (Hk : forall (A : Type) (k : jsstring) (x : A), (∅ : gmap jsstring A) !! k <> Some x)
    by (intros *; by rewrite lookup_empty).
  split; cbn; intros;
    try match goal with
    | H : connecting _ _ _ _ |- _ => destruct H as [? H]; by apply He in H
    | H : _ !! _ = Some _ |- _ => first [by apply He in H | by apply Hk in H]
    end; [|set_solver].
  split; [set_solver|]. intros [[u Hu]|(i & u & r & Hu)]; [by apply Hk in Hu|by apply He in Hu].
Qed.

Lemma acc_run l s : separate -> Forall planned l -> accounted s -> accounted (run l s).
Proof.
  intros Hsep Hl. revert s. induction Hl as [|a l Ha Hl IH]; intros s Hs; [done|].
  cbn. by apply IH, acc_act.
Qed.
End Accounting.

(** While nothing is reset and different targets have different
    endpoints, the clients that are open are those kept for an endpoint or
    being connected; an endpoint has at most one of them; and a client that a
    call has returned stays the client of its endpoint. *)
Theorem clients_accounted (endpoints : jsstring -> list jsstring) (l : list action) :
  separate endpoints -> Forall (planned endpoints) l ->
  let s := run l no_connections in
  (forall client, client ∈ open_clients s <->
     (exists uri, clientInstances s !! uri = Some client) \/ (exists i uri, connecting s i client uri)) /\
  (forall uri client i client', clientInstances s !! uri = Some client -> ~ connecting s i client' uri) /\
  (forall uri i client i' client', connecting s i client uri -> connecting s i' client' uri -> i = i') /\
  (forall c client, calls s !! c = Some (Returned client) ->
     exists uri, clientInstances s !! uri = Some client).
Proof.
  intros Hsep Hl s. pose proof (acc_run endpoints l no_connections Hsep Hl (acc_none endpoints)) as Hs.
  split; [apply (acc_open _ _ Hs)|]. split; [|split; [|apply (acc_returned _ _ Hs)]].
  - intros uri client i client' Hc [rest Hi].
    destruct (acc_pending _ _ Hs i client' uri rest Hi) as (k & _ & _ & _ & Hn). fold s in Hn. congruence.
  - intros uri i client i' client' [rest Hi] [rest' Hi'].
    destruct (acc_pending _ _ Hs i client uri rest Hi) as (k & Hk & [d He] & _).
    destruct (acc_pending _ _ Hs i' client' uri rest' Hi') as (k' & Hk' & [d' He'] & _).
    assert (k = k') as ->; [|congruence].
    apply (Hsep k k' uri); rewrite ?He, ?He', elem_of_app; right; left.
Qed.

Definition plain_env : process_env := mkProcessEnv false None None.
Definition default_client (c : nat) : action := getClient plain_env c DEFAULT_PORT DEFAULT_HOST None.

Lemma clients_accounted_witness :
  let s := run [default_client 0; default_client 1; Ready 0 true; Resume 0; Resume 1; default_client 2]
    no_connections in
  calls s !! 2%nat = Some (Returned 0) /\ open_clients s = {[0%nat]} /\
  exists uri, clientInstances s !! uri = Some 0%nat.
Proof.
  set (l := [_; _; _; _; _; _]).
  assert (Hsep : separate (fun k => [k])).
  { intros k k' uri Hk Hk'. apply list_elem_of_singleton in Hk, Hk'. congruence. }
  assert (Hl : Forall (planned (fun k => [k])) l).
  { repeat constructor; cbn; repeat split; try set_solver; apply NoDup_singleton. }
  destruct (clients_accounted (fun k => [k]) l Hsep Hl) as (_ & _ & _ & Hr).
  split; [reflexivity|]. split; [reflexivity|]. apply (Hr 2%nat 0%nat). reflexivity.
Defined.

(** Two ways to lose a client for good.  A reset while a client connects does
    not stop it: the next call starts an attempt of its own, both clients
    become ready for the same endpoint, the second takes the place of the
    first, and the first is open with nobody to close it.  Without a reset, a
    socket target that falls back to TCP and the TCP target itself do the
    same. *)
Theorem clients_leak :
  (let s := run [default_client 0; Reset; default_client 1; Ready 0 true; Ready 1 true; Resume 0; Resume 1;
      Reset] no_connections in
   open_clients s = {[0%nat]} /\ clientInstances s = ∅ /\ pendingInit s = ∅ /\
   calls s !! 0%nat = Some (Returned 0) /\ calls s !! 1%nat = Some (Returned 1)) /\
  (let socket := mkConnectionOptions None (Some (js "/tmp/omega.sock")) true in
   let s := run [default_client 0; getClient plain_env 1 DEFAULT_PORT DEFAULT_HOST (Some socket);
      Ready 1 false; Ready 0 true; Ready 1 true; Resume 0; Resume 1; Reset] no_connections in
   open_clients s = {[0%nat]} /\ clientInstances s = ∅ /\ pendingInit s = ∅ /\
   calls s !! 0%nat = Some (Returned 0) /\ calls s !! 1%nat = Some (Returned 2)).
Proof. repeat split; vm_compute; reflexivity. Qed.

(** A socket path and a server address together are refused, and without
    either the address is that of the variables or of host and port. *)
Example targets :
  (resolveCandidates plain_env 9000 DEFAULT_HOST None = Ok (mkTarget (js "127.0.0.1:9000") [js "127.0.0.1:9000"])) /\
  (resolveCandidates (mkProcessEnv false None (Some (js "/run/o.sock"))) 9000 DEFAULT_HOST None
    = Ok (mkTarget (js "unix:///run/o.sock|127.0.0.1:9000") [js "unix:///run/o.sock"; js "127.0.0.1:9000"])) /\
  (resolveCandidates (mkProcessEnv true None (Some (js "/run/o.sock"))) 9000 DEFAULT_HOST None
    = Throw windows_unsupported).
Proof. repeat split; vm_compute; reflexivity. Qed.
