(* ===== verification/AiReplay.v ===== *)
(** * Replaying change logs ([packages/ai/src/service.ts])

    [previewChangeLog], [applyChangeLog] and [exportChangeLog] of the
    toolkit: a log is checked and compared with the session, its entries are
    sent in order, in transactions of at most 1024, and a replay that fails
    is rolled back to the change count it began at.

    The edits are those of [EditSession], the other calls those of
    [SessionCalls]; [parsed.entries()] is read twice, first to check the
    ranges and then to replay, and a file may have changed in between. *)

From stdpp Require Import sorting.
From S2P Require Import Prelude SafeInt JsText JsValue EditDiff EditSession History Search SessionApi UnaryCalls SessionCalls ChangeLogCodec ChangeLogExportFile AiToolkit.

Open Scope call_scope.

(** ** Integers *)

Definition not_int64 : exn := plain_error "must be a non-negative int64".

Definition parseNonNegativeInt64 (value : jsval) : result Z :=
  parsed ← match value with
    | JBigInt z => Ok z
    | JNumber (NInt z) => if safeZ z then Ok z
        else Throw (plain_error "must be a non-negative safe integer or decimal int64 string")
    | JNumber _ => Throw (plain_error "must be a non-negative safe integer or decimal int64 string")
    | JString s => if canonical_decimal s then Ok (decimal_value s) else Throw not_int64
    | _ => Throw not_int64
    end;
  if (parsed <? 0) || (MAX_INT64 <? parsed)
  then Throw (plain_error "must be in the non-negative int64 range") else Ok parsed.

Definition int64ToSafeNumber (value : Z) : result Z :=
  if MAX_SAFE_INTEGER <? value
  then Throw (plain_error "exceeds the current OmegaEdit TypeScript transport safe integer range")
  else Ok value.

Definition normalizeNonNegativeInt64ForClient (value : jsval) : result Z :=
  z ← parseNonNegativeInt64 value; int64ToSafeNumber z.

Definition int64ToDecimal (value : jsval) : result jsstring :=
  z ← parseNonNegativeInt64 value; Ok (decimal_string z).

(** ** Fingerprints *)

Definition decimal_fingerprint (n : Z) (d : ContentDigest) (pluginId : jsstring)
  : result NormalizedChangeLogFingerprint :=
  byteLength ← int64ToDecimal (JNumber (NInt n));
  Ok (mkFingerprint byteLength
    (mkDigest pluginId (toLowerCase (cd_algorithm d)) (toLowerCase (cd_value d)))).

(** The plugin of a normalized fingerprint is never missing. *)
Definition fingerprintsMatch (actual expected : NormalizedChangeLogFingerprint) : result bool :=
  a ← int64ToDecimal (JString (fp_byteLength actual));
  e ← int64ToDecimal (JString (fp_byteLength expected));
  Ok (bool_decide (a = e) &&
      bool_decide (d_pluginId (fp_digest actual) = d_pluginId (fp_digest expected)) &&
      bool_decide (d_algorithm (fp_digest actual) = d_algorithm (fp_digest expected)) &&
      bool_decide (d_value (fp_digest actual) = d_value (fp_digest expected))).

(** ** Logs *)

(** A prepared log: the result of the scan, and what the [k]-th reading of the
    entries yields and how it ends. *)
Record ParsedChangeLog := mkParsed {
  pl_scan : ChangeLogScanResult;
  pl_entries : nat -> list NormalizedChangeLogEntry * result unit
}.

(** A document in memory is read alike every time. *)
Definition parsed_document (prepared : ChangeLogScanResult * list NormalizedChangeLogEntry)
  : ParsedChangeLog :=
  mkParsed prepared.1 (fun _ => (prepared.2, Ok tt)).

Definition check_range (e : NormalizedChangeLogEntry) : result (Z * Z) :=
  offset ← normalizeNonNegativeInt64ForClient (JString (n_offset e));
  len ← normalizeNonNegativeInt64ForClient (JString (n_length e));
  Ok (offset, len).

Fixpoint check_ranges (l : list NormalizedChangeLogEntry) : result unit :=
  match l with
  | [] => Ok tt
  | e :: l => _ ← check_range e; check_ranges l
  end.

(** What opening gave, then the loop over the entries. *)
Definition readChangeLogRequest (opened : result ParsedChangeLog) : result ParsedChangeLog :=
  parsed ← opened;
  _ ← check_ranges (pl_entries parsed 0).1;
  _ ← (pl_entries parsed 0).2;
  Ok parsed.

(** ** Previews *)

Inductive issue_code := UnavailablePrimitives | BeforeFingerprintMismatch | MissingTransformPlugin (id : jsstring).

Record ChangeLogRollbackProtection := mkProtection {
  rp_available : bool;
  rp_targetChangeCount : option Z;
  rp_checkpointCount : option Z
}.

(** All issues found have severity [error].  [expectedSize] is before, after
    and their difference. *)
Record ChangeLogPreview := mkLogPreview {
  lp_canApply : bool;
  lp_current : option NormalizedChangeLogFingerprint;
  lp_expectedSize : Z * Z * Z;
  lp_missingPlugins : list jsstring;
  lp_rollbackProtection : ChangeLogRollbackProtection;
  lp_safetyIssues : list issue_code
}.

Definition createExpectedSizeDelta (scan : ChangeLogScanResult) : result (Z * Z * Z) :=
  before ← parseNonNegativeInt64 (JString (fp_byteLength (h_before (sc_header scan))));
  after ← parseNonNegativeInt64 (JString (fp_byteLength (h_after (sc_header scan))));
  Ok (before, after, after - before).

(** [Array.from(new Set(values)).sort()] *)
Definition uniqueSortedStrings (values : list jsstring) : list jsstring :=
  merge_sort js_le (foldl (fun l x => set_add x l) [] values).

(** ** Results *)

Record rollback_report := mkRollback {
  rb_attempted : bool;
  rb_succeeded : option bool;
  rb_rolledBack : option bool;
  rb_targetChangeCount : option Z;
  rb_error : option jsstring
}.

Record ApplyChangeLogResult := mkApplyResult {
  ar_applied : bool;
  ar_appliedCount : Z;
  ar_inputChangeCount : Z;
  ar_preview : ChangeLogPreview;
  ar_rollback : rollback_report;
  ar_finalFingerprint : option NormalizedChangeLogFingerprint
}.

(** [applyChangeLog] returns, or throws a [ChangeLogReplayError] with a
    result; other errors are thrown as they are. *)
Inductive replay_outcome :=
  | Replayed (r : ApplyChangeLogResult)
  | ReplayFailed (message : jsstring) (r : ApplyChangeLogResult).

(** ** The calls *)

(** The session behind the client, and [appliedChangeCount]. *)
Record replaying (S : Type) := mkReplaying { rw_world : world S; rw_applied : Z }.
Arguments mkReplaying {S}. Arguments rw_world {S}. Arguments rw_applied {S}.

Section Replay.
Context {S : Type} `{EditBackend S} `{Transport S} (sessionId : jsstring).
Abbreviation R := (replaying S).

Definition via_edit {A} (m : M (world S) A) : T R A := fun s =>
  let '(w, r) := m (rw_world s) in
  (mkReplaying w (rw_applied s), match r with Ok a => inr a | Throw e => inl (js_error_of e) end).

Definition via_call {A} (m : T S A) : T R A := fun s =>
  let '(srv, r) := m (server (rw_world s)) in
  (mkReplaying (mkWorld srv (stats (rw_world s))) (rw_applied s), r).

(** [m.catch(() => undefined)] *)
Definition caught {A} (m : T R A) : T R (option A) := fun s =>
  match m s with
  | (s', inr a) => (s', inr (Some a))
  | (s', inl _) => (s', inr None)
  end.

(** [try { return await m } finally { await fin }] *)
Definition finallyT {A} (m : T R A) (fin : T R unit) : T R A := fun s =>
  let '(s1, r) := m s in
  match fin s1 with
  | (s2, inr _) => (s2, r)
  | (s2, inl e) => (s2, inl e)
  end.

Definition count_applied : T R unit := fun s => (mkReplaying (rw_world s) (rw_applied s + 1), inr tt).

Definition current_size : T R Z := via_edit (@SessionApi.getComputedFileSize S (session_rpc sessionId)).
Definition current_count : T R Z := via_call (client_getChangeCount sessionId).

Definition getChangeLogFingerprint (content : SessionFingerprintContent) (algorithm pluginId : jsstring)
  : T R NormalizedChangeLogFingerprint :=
  let+ response := via_call (client_getSessionFingerprint sessionId content algorithm pluginId) in
  checkedT (decimal_fingerprint response.1 response.2 pluginId).

Definition fingerprint_like (expected : NormalizedChangeLogFingerprint) : T R NormalizedChangeLogFingerprint :=
  getChangeLogFingerprint FP_COMPUTED (d_algorithm (fp_digest expected)) (d_pluginId (fp_digest expected)).

Definition log_mismatch : js_error := new_error (js "Change log fingerprint mismatch").

Definition assertCurrentSessionFingerprint (expected : NormalizedChangeLogFingerprint) : T R unit :=
  let+ actual := fingerprint_like expected in
  let+ same := checkedT (fingerprintsMatch actual expected) in
  if same : bool then retT tt else throwT log_mismatch.

(** *** One entry *)

Definition transform_mismatch : js_error := new_error (js "TRANSFORM replay mismatch").

(** Counts of a checked response are integers. *)
Definition assertTransformReplayResponse (descriptor : ChangeLogTransformDescriptor)
  (offset len sizeBefore sizeAfter : Z) (response : ApplyTransformPluginResponse) : T R unit :=
  if negb (bool_decide (tr_pluginId response = transformId descriptor)) then throwT transform_mismatch
  else
    let+ o := outputT (tr_offset response) in
    let+ n := outputT (tr_length response) in
    if negb ((o =? offset) && (n =? len)) then throwT transform_mismatch
    else
      let+ replacement := outputT (tr_replacementLength response) in
      let+ size := outputT (tr_computedFileSize response) in
      if negb (size =? sizeBefore - n + replacement) then throwT transform_mismatch
      else if negb (sizeAfter =? size) then throwT transform_mismatch
      else retT tt.

Definition applyChange (change : NormalizedChangeLogEntry) : T R unit :=
  let+ range := checkedT (check_range change) in
  let '(offset, len) := range in
  let data := hex_decode (n_data change) in
  match n_kind change with
  | KINSERT => let+ _ := via_edit (insert (NInt offset) data false) in retT tt
  | KDELETE => let+ _ := via_edit (del (NInt offset) (NInt len) false) in retT tt
  | KOVERWRITE => let+ _ := via_edit (overwrite (NInt offset) data false) in retT tt
  | KREPLACE => let+ _ := via_edit (replace (NInt offset) (NInt len) data false) in retT tt
  | KTRANSFORM =>
      match n_transformDescriptor change with
      | None => throwT (new_error (js "TRANSFORM change data was not normalized"))
      | Some descriptor =>
          let+ sizeBefore := current_size in
          let+ response := via_call (client_applyTransformPlugin sessionId (transformId descriptor)
            (NInt offset) (NInt len) (optionsJson descriptor) false) in
          if negb (tr_contentChanged response)
          then throwT (new_error (js "TRANSFORM replay produced no content change"))
          else
            let+ sizeAfter := current_size in
            assertTransformReplayResponse descriptor offset len sizeBefore sizeAfter response
      end
  end.

Definition applyAndCountChange (change : NormalizedChangeLogEntry) : T R unit :=
  let+ _ := applyChange change in count_applied.

(** *** Batches *)

Definition maxReplayBatchEntries : nat := 1024.

Fixpoint apply_all (batch : list NormalizedChangeLogEntry) : T R unit :=
  match batch with
  | [] => retT tt
  | change :: batch => let+ _ := applyAndCountChange change in apply_all batch
  end.

(** [flushBatch]; the transaction is [runSessionTransaction]. *)
Definition flushBatch (pending : list NormalizedChangeLogEntry) : T R unit :=
  match pending with
  | [] => retT tt
  | _ =>
      let+ _ := via_edit (bracket BeginSessionTransaction) in
      finallyT (apply_all pending) (via_edit (bracket EndSessionTransaction))
  end.

(** The loop over the entries, with [pendingBatch]; [ended] is how the
    reading ends. *)
Fixpoint replay_loop (l : list NormalizedChangeLogEntry) (ended : result unit)
  (pending : list NormalizedChangeLogEntry) : T R unit :=
  match l with
  | [] => let+ _ := checkedT ended in flushBatch pending
  | change :: l =>
      if bool_decide (n_kind change = KTRANSFORM) then
        let+ _ := flushBatch pending in
        let+ _ := applyAndCountChange change in
        replay_loop l ended []
      else
        let pending := pending ++ [change] in
        if (maxReplayBatchEntries <=? length pending)%nat then
          let+ _ := flushBatch pending in replay_loop l ended []
        else replay_loop l ended pending
  end.

(** *** Preview and replay *)

Definition getCheckpointCount : T R Z :=
  let+ counts := via_call (client_getCounts sessionId [CHECKPOINTS]) in
  match counts with
  | c :: _ => checkedT (getCount c)
  | [] => retT 0
  end.

Definition inspect_session (scan : ChangeLogScanResult)
  : T R (NormalizedChangeLogFingerprint * bool * Z * Z * list TransformPluginInfo) :=
  let+ current := fingerprint_like (h_before (sc_header scan)) in
  let+ same := checkedT (fingerprintsMatch current (h_before (sc_header scan))) in
  let+ targetChangeCount := current_count in
  let+ checkpointCount := getCheckpointCount in
  let+ plugins := via_call client_listTransformPlugins in
  retT (current, same, targetChangeCount, checkpointCount, plugins).

Definition unavailable_issue (scan : ChangeLogScanResult) : list issue_code :=
  match h_unavailableChangeSerials (sc_header scan) with [] => [] | _ => [UnavailablePrimitives] end.

Definition createChangeLogPreview (scan : ChangeLogScanResult) (inspectSession : bool)
  : T R ChangeLogPreview :=
  if inspectSession then
    let+ found := inspect_session scan in
    let '(current, same, target, checkpoints, plugins) := found in
    let missing := List.filter (fun id => negb (bool_decide (id ∈ map pi_id plugins)))
      (sc_requiredPlugins scan) in
    let issues := unavailable_issue scan ++ (if same then [] else [BeforeFingerprintMismatch]) ++
      map MissingTransformPlugin missing in
    let+ size := checkedT (createExpectedSizeDelta scan) in
    retT (mkLogPreview (length issues =? 0)%nat (Some current) size (uniqueSortedStrings missing)
      (mkProtection true (Some target) (Some checkpoints)) issues)
  else
    let issues := unavailable_issue scan in
    let+ size := checkedT (createExpectedSizeDelta scan) in
    retT (mkLogPreview (length issues =? 0)%nat None size [] (mkProtection false None None) issues).

Definition ensure_running (running : T S unit) : T R unit := via_call running.

Definition rollbackSessionToChangeCount (target : Z) : T R bool :=
  let+ response := via_edit (@SessionApi.restoreToChangeCount S (session_rpc sessionId) (NInt target)) in
  let+ count := outputT (rt_changeCount response) in
  if negb (count =? target) then throwT (new_error (js "Rollback ended at change count"))
  else
    let+ discarded := outputT (rt_discardedChangeCount response) in
    let+ undone := outputT (rt_discardedUndoCount response) in
    retT ((0 <? discarded) || (0 <? undone)).

Definition combined_message (applyError rollbackError : js_error) : jsstring :=
  js "Failed to apply change log and rollback failed: " ++ err_message applyError ++
  js "; rollback error: " ++ err_message rollbackError.

Definition replay_body (parsed : ParsedChangeLog) : T R unit :=
  let '(entries, ended) := pl_entries parsed 1 in
  let+ _ := replay_loop entries ended [] in
  assertCurrentSessionFingerprint (h_after (sc_header (pl_scan parsed))).

(** The [try] of [applyChangeLog] and what follows it. *)
Definition replay_from (parsed : ParsedChangeLog) (preview : ChangeLogPreview) (start : Z)
  : T R replay_outcome := fun s =>
  let getFinalFingerprint := caught (fingerprint_like (h_after (sc_header (pl_scan parsed)))) in
  let result_of applied rollback fp count :=
    mkApplyResult applied count (sc_entryCount (pl_scan parsed)) preview rollback fp in
  match replay_body parsed (mkReplaying (rw_world s) 0) with
  | (s1, inr _) =>
      (let+ fp := getFinalFingerprint in
       retT (Replayed (result_of true (mkRollback false None None (Some start) None) fp (rw_applied s1)))) s1
  | (s1, inl error) =>
      match rollbackSessionToChangeCount start s1 with
      | (s2, inr rolledBack) =>
          (let+ fp := getFinalFingerprint in
           retT (ReplayFailed (err_message error)
             (result_of false (mkRollback true (Some true) (Some rolledBack) (Some start) None) fp
                (rw_applied s1)))) s2
      | (s2, inl rollbackError) =>
          (let+ fp := getFinalFingerprint in
           retT (ReplayFailed (combined_message error rollbackError)
             (result_of false (mkRollback true (Some false) None (Some start) (Some (err_message rollbackError)))
                fp (rw_applied s1)))) s2
      end
  end.

Definition unsafe_message : jsstring := js "Change log preview found unsafe replay".

(** [running] is [ensureServerRunning]. *)
Definition applyChangeLog (running : T S unit) (opened : result ParsedChangeLog) (dryRun : bool)
  : T R replay_outcome :=
  let+ parsed := checkedT (readChangeLogRequest opened) in
  let inputChangeCount := sc_entryCount (pl_scan parsed) in
  if dryRun then
    let+ preview := createChangeLogPreview (pl_scan parsed) false in
    retT (Replayed (mkApplyResult false 0 inputChangeCount preview
      (mkRollback false None None None None) None))
  else
    let+ _ := ensure_running running in
    let+ preview := createChangeLogPreview (pl_scan parsed) true in
    let+ start := match rp_targetChangeCount (lp_rollbackProtection preview) with
                  | Some n => retT n
                  | None => current_count
                  end in
    if negb (lp_canApply preview) then
      retT (ReplayFailed unsafe_message (mkApplyResult false 0 inputChangeCount preview
        (mkRollback false None None (Some start) None) (lp_current preview)))
    else replay_from parsed preview start.

Definition previewChangeLog (running : T S unit) (opened : result ParsedChangeLog) : T R ChangeLogPreview :=
  let+ parsed := checkedT (readChangeLogRequest opened) in
  let+ _ := ensure_running running in
  createChangeLogPreview (pl_scan parsed) true.
End Replay.

(** ** What a server keeps of the past *)

Section History.
Context {S : Type} `{EditBackend S} `{Transport S}.

(** The requests that only ask. *)
Definition is_query {A} (rq : rpc A) : bool :=
  match rq with
  | GetSessionFingerprint _ _ _ _ | GetCount _ _ | ListTransformPlugins | GetComputedFileSize _ => true
  | _ => false
  end.

(** A session has a number of changes and remembers the content it had at
    every lower number.  Edits add changes, queries change nothing, and
    restoring a change count that was reached gives that content back. *)
Class ChangeHistory (sessionId : jsstring) := {
  change_count : S -> Z;
  content_at : S -> Z -> bytes;
  past_kept (s s' : S) : Prop :=
    change_count s <= change_count s' /\
    forall n, 0 <= n <= change_count s -> content_at s' n = content_at s n;
  unchanged (s s' : S) : Prop :=
    content s' = content s /\ change_count s' = change_count s /\
    forall n, 0 <= n <= change_count s -> content_at s' n = content_at s n;
  hist_nonneg s : 0 <= change_count s;
  hist_now s : content_at s (change_count s) = content s;
  hist_submit rq s : past_kept s (rpc_submitChange rq s).1;
  hist_bracket b s : past_kept s (rpc_bracket b s).1;
  hist_transform rq s : past_kept s (call_unary (ApplyTransformPlugin rq) s).1;
  hist_client s : unchanged s (get_client s).1;
  hist_query {A} (rq : rpc A) s : is_query rq = true -> unchanged s (call_unary rq s).1;
  hist_count s s' counts :
    call_unary (GetCount sessionId [CHANGES]) s = (s', CallReplied (Some counts)) ->
    map ct_count counts = [NInt (change_count s)];
  hist_restore n s s' r :
    call_unary (RestoreToChangeCount sessionId n) s = (s', CallReplied (Some r)) ->
    rt_changeCount r = NInt n -> 0 <= n <= change_count s -> content s' = content_at s n
}.
End History.

Section Rollback.
Context {S : Type} `{EditBackend S} `{Transport S} (sessionId : jsstring) `{!ChangeHistory sessionId}.

#[local] Instance past_kept_preorder : PreOrder past_kept.
Proof.
  split; [split; [lia|done]|]. intros a b c [H1 H2] [H3 H4]. split; [lia|].
  intros n Hn. rewrite H4 by lia. by apply H2.
Qed.

#[local] Instance unchanged_preorder : PreOrder unchanged.
Proof.
  split; [done|]. intros a b c (H1 & H2 & H3) (H4 & H5 & H6). split; [congruence|]. split; [congruence|].
  intros n Hn. rewrite H6 by lia. by apply H3.
Qed.

Lemma unchanged_kept s s' : unchanged s s' -> past_kept s s'.
Proof. intros (_ & H2 & H3). split; [lia|done]. Qed.

(** *** Calls that keep to a relation *)

Definition srv (s : replaying S) : S := server (rw_world s).

Section Relation.
Context (rel : S -> S -> Prop) `{!PreOrder rel}.

Definition within {A} (m : T (replaying S) A) : Prop := forall s, rel (srv s) (srv (m s).1).

Lemma within_ret {A} (a : A) : within (retT a).
Proof. intros s. by cbn. Qed.
Lemma within_throw {A} e : within (throwT (A := A) e).
Proof. intros s. by cbn. Qed.
Lemma within_lift {A} (r : js_error + A) : within (liftT r).
Proof. intros s. by cbn. Qed.

Lemma within_bind {A B} (m : T (replaying S) A) (f : A -> T (replaying S) B) :
  within m -> (forall a, within (f a)) -> within (bindT m f).
Proof.
  intros Hm Hf s. specialize (Hm s). unfold bindT. destruct (m s) as [s1 [e|a]]; [done|].
  etransitivity; [exact Hm|apply Hf].
Qed.

Lemma within_checked {A} (r : result A) : within (checkedT r).
Proof. apply within_lift. Qed.

Lemma within_caught {A} (m : T (replaying S) A) : within m -> within (caught m).
Proof. intros Hm s. specialize (Hm s). unfold caught. by destruct (m s) as [s1 [e|a]]. Qed.

Lemma within_finally {A} (m : T (replaying S) A) fin : within m -> within fin -> within (finallyT m fin).
Proof.
  intros Hm Hf s. specialize (Hm s). unfold finallyT. destruct (m s) as [s1 r].
  specialize (Hf s1). destruct (fin s1) as [s2 [e|u]]; by etransitivity.
Qed.

Lemma within_count : within count_applied.
Proof. intros s. by cbn. Qed.

(** A call on the wire. *)
Lemma within_call {A} (m : T S A) : (forall s, rel s (m s).1) -> within (via_call m).
Proof. intros Hm s. specialize (Hm (srv s)). unfold via_call, srv in *. by destruct (m _) as [s1 r]. Qed.

(** A call of the client. *)
Lemma within_edit {A} (m : M (world S) A) : (forall w, rel (server w) (server (m w).1)) -> within (via_edit m).
Proof.
  intros Hm s. specialize (Hm (rw_world s)). unfold via_edit, srv in *. by destruct (m _) as [w1 [a|e]].
Qed.

Lemma unary_rel {A B} (rq : rpc A) (callback : outcome A -> js_error + B) :
  (forall s, rel s (get_client s).1) -> (forall s, rel s (call_unary rq s).1) ->
  forall s, rel s (unary rq callback s).1.
Proof.
  intros Hc Hu s. unfold unary, bindT. specialize (Hc s). destruct (get_client s) as [s1 [e|u]]; [done|].
  specialize (Hu s1). destruct (call_unary rq s1) as [s2 o]. cbn in *. by etransitivity.
Qed.

Lemma bind_rel {A B} (m : T S A) (f : A -> T S B) :
  (forall s, rel s (m s).1) -> (forall a s, rel s (f a s).1) -> forall s, rel s (bindT m f s).1.
Proof.
  intros Hm Hf s. specialize (Hm s). unfold bindT. destruct (m s) as [s1 [e|a]]; [done|].
  etransitivity; [exact Hm|apply Hf].
Qed.

(** The client's monad. *)
Definition withinM {A} (m : M (world S) A) : Prop := forall w, rel (server w) (server (m w).1).

Lemma withinM_bind {A B} (m : M (world S) A) (f : A -> M (world S) B) :
  withinM m -> (forall a, withinM (f a)) -> withinM (bindM m f).
Proof.
  intros Hm Hf w. specialize (Hm w). unfold bindM. destruct (m w) as [w1 [a|e]]; [|done].
  etransitivity; [exact Hm|apply Hf].
Qed.
Lemma withinM_ret {A} (a : A) : withinM (retM a).
Proof. intros w. by cbn. Qed.
Lemma withinM_lift {A} (r : result A) : withinM (liftM r).
Proof. intros w. by cbn. Qed.
Lemma withinM_throw {A} e : withinM (throwM (A := A) e).
Proof. intros w. by cbn. Qed.
Lemma withinM_finally {A} (m : M (world S) A) fin : withinM m -> withinM fin -> withinM (finallyM m fin).
Proof.
  intros Hm Hf w. specialize (Hm w). unfold finallyM. destruct (m w) as [w1 r].
  specialize (Hf w1). destruct (fin w1) as [w2 [u|e]]; by etransitivity.
Qed.
Lemma withinM_bump b f : withinM (bump b f).
Proof. intros w. by cbn. Qed.
Lemma withinM_call {A} (rpc : S -> S * A) : (forall s, rel s (rpc s).1) -> withinM (call rpc).
Proof. intros Hr w. specialize (Hr (server w)). unfold call. by destruct (rpc _). Qed.
End Relation.

(** *** Edits keep the past *)

Ltac still := first [apply withinM_ret | apply withinM_lift | apply withinM_throw | apply withinM_bump]; apply _.

Lemma kept_submit rq fn key ws : withinM past_kept (submitChange rq fn key ws).
Proof.
  apply withinM_bind; [apply _|apply withinM_call, hist_submit|]. intros o. unfold serial_callback.
  destruct o as [| |serial]; [..|destruct (serial =? 0)];
    (apply withinM_bind; [apply _|still|intros ?; still]).
Qed.

Lemma kept_checked m : withinM past_kept m -> withinM past_kept (checked m).
Proof. intros Hm. apply withinM_bind; [apply _|done|intros a; still]. Qed.

(** After a check of the arguments. *)
Ltac checks := apply withinM_bind; [apply _|still|intros ?].

Lemma kept_insert o d ws : withinM past_kept (insert o d ws).
Proof. unfold insert. checks. apply kept_checked, kept_submit. Qed.
Lemma kept_overwrite o d ws : withinM past_kept (overwrite o d ws).
Proof. unfold overwrite. checks. apply kept_checked, kept_submit. Qed.
Lemma kept_del o n ws : withinM past_kept (del o n ws).
Proof. unfold del. do 2 checks. apply kept_checked, kept_submit. Qed.

Lemma kept_bracket b : withinM past_kept (bracket b).
Proof. apply withinM_bind; [apply _|apply withinM_call, hist_bracket|intros ?; still]. Qed.

Lemma kept_transaction {A} (m : M (world S) A) :
  withinM past_kept m -> withinM past_kept (runSessionTransaction m).
Proof.
  intros Hm. unfold runSessionTransaction. apply withinM_bind; [apply _|apply kept_bracket|intros _].
  apply withinM_finally; [apply _|done|apply kept_bracket].
Qed.

Lemma kept_replace o n d ws : withinM past_kept (replace o n d ws).
Proof.
  unfold replace, replaceInternal. do 2 checks.
  destruct (_ =? 0); [apply kept_insert|]. destruct (length d =? 0)%nat; [apply kept_del|].
  destruct (_ =? _); [apply kept_overwrite|]. apply kept_transaction.
  apply withinM_bind; [apply _|apply kept_del|intros _; apply kept_insert].
Qed.

(** *** Queries change nothing *)

Lemma query_unchanged {A B} (rq : rpc A) (callback : outcome A -> js_error + B) :
  is_query rq = true -> forall s, unchanged s (unary rq callback s).1.
Proof. intros Hq. apply unary_rel; [apply _|apply hist_client|]. intros s. by apply hist_query. Qed.

Lemma unchanged_lift {A} (r : js_error + A) (s : S) : unchanged s (liftT r s).1.
Proof. by cbn. Qed.
Lemma unchanged_ret {A} (a : A) (s : S) : unchanged s (retT a s).1.
Proof. by cbn. Qed.

Lemma size_unchanged : within unchanged (current_size sessionId).
Proof.
  apply within_edit. intros w. unfold SessionApi.getComputedFileSize, request, SessionApi.output, bindM, call, liftM.
  cbn. unfold as_request. pose proof (query_unchanged (GetComputedFileSize sessionId)
    (settle "getComputedFileSize" (requireResponse "getComputedFileSize")) eq_refl (server w)) as Hu.
  unfold getComputedFileSize, required. destruct (unary _ _ _) as [s1 [e|n]]; done.
Qed.

Lemma counts_unchanged kinds fn s : unchanged s (requestCounts sessionId kinds fn s).1.
Proof. by apply query_unchanged. Qed.

Lemma count_unchanged : within unchanged (current_count sessionId).
Proof.
  apply within_call. unfold client_getChangeCount, checked_count, getChangeCount, getSingleCount.
  apply bind_rel; [apply _| |intros n s'; by cbn].
  apply bind_rel; [apply _|intros; apply counts_unchanged|]. intros [|c l] s'; by cbn.
Qed.

Lemma fingerprint_unchanged expected : within unchanged (fingerprint_like sessionId expected).
Proof.
  apply within_bind; [apply _|..|intros; by apply within_checked; apply _].
  apply within_call. unfold client_getSessionFingerprint.
  apply bind_rel; [apply _|intros; by apply query_unchanged|]. intros r s'.
  destruct (fr_fingerprint r) as [[n [d|]]|]; [|by cbn..].
  unfold outputT, checkedT, bindT, liftT. by destruct (requireSafeIntegerOutput n).
Qed.

Lemma assert_unchanged expected : within unchanged (assertCurrentSessionFingerprint sessionId expected).
Proof.
  apply within_bind; [apply _|apply fingerprint_unchanged|intros a].
  apply within_bind; [apply _|apply within_checked; apply _|intros [|]].
  - apply within_ret. apply _.
  - apply within_throw. apply _.
Qed.

Lemma checkpoints_unchanged : within unchanged (getCheckpointCount sessionId).
Proof.
  apply within_bind; [apply _|apply within_call; intros; apply counts_unchanged|].
  intros [|c l]; [apply within_ret|apply within_checked]; apply _.
Qed.

Lemma plugins_unchanged : within unchanged (via_call (S := S) client_listTransformPlugins).
Proof. apply within_call. intros s. by apply query_unchanged. Qed.

Lemma preview_unchanged scan inspect : within unchanged (createChangeLogPreview sessionId scan inspect).
Proof.
  unfold createChangeLogPreview. destruct inspect.
  - apply within_bind; [apply _| |].
    + unfold inspect_session. apply within_bind; [apply _|apply fingerprint_unchanged|intros ?].
      apply within_bind; [apply _|apply within_checked; apply _|intros ?].
      apply within_bind; [apply _|apply count_unchanged|intros ?].
      apply within_bind; [apply _|apply checkpoints_unchanged|intros ?].
      apply within_bind; [apply _|apply plugins_unchanged|intros ?]. apply within_ret. apply _.
    + intros [[[[current same] target] checkpoints] plugins].
      apply within_bind; [apply _|apply within_checked; apply _|intros ?]. apply within_ret. apply _.
  - apply within_bind; [apply _|apply within_checked; apply _|intros ?]. apply within_ret. apply _.
Qed.

(** *** A replay keeps the past *)

Lemma within_kept {A} (m : T (replaying S) A) : within unchanged m -> within past_kept m.
Proof. intros Hm s. by apply unchanged_kept. Qed.

Lemma kept_transform plugin o n opts :
  within past_kept (via_call (client_applyTransformPlugin sessionId plugin o n opts false)).
Proof.
  apply within_call. unfold client_applyTransformPlugin, unless_aborted.
  apply bind_rel; [apply _|by intros; cbn|intros ? ?]. apply bind_rel; [apply _|by intros; cbn|intros ? ?].
  apply bind_rel; [apply _| |].
  - apply unary_rel; [apply _| |apply hist_transform]. intros. apply unchanged_kept, hist_client.
  - intros r s'. repeat (apply bind_rel; [apply _|by intros; cbn|intros ? ?]).
    apply bind_rel; [apply _| |by intros; cbn]. intros. by destruct (tr_serial r); cbn.
Qed.

Lemma kept_applyChange change : within past_kept (applyChange sessionId change).
Proof.
  apply within_bind; [apply _|apply within_checked; apply _|]. intros [o n].
  destruct (n_kind change); try (apply within_bind; [apply _| |intros; apply within_ret; apply _]).
  - apply within_edit, kept_insert.
  - apply within_edit, kept_del.
  - apply within_edit, kept_overwrite.
  - apply within_edit, kept_replace.
  - destruct (n_transformDescriptor change) as [d|]; [|apply within_throw; apply _].
    apply within_bind; [apply _|apply within_kept, size_unchanged|intros before].
    apply within_bind; [apply _|apply kept_transform|intros r].
    destruct (negb _); [apply within_throw; apply _|].
    apply within_bind; [apply _|apply within_kept, size_unchanged|intros after].
    unfold assertTransformReplayResponse.
    destruct (negb _); [apply within_throw; apply _|].
    do 2 (apply within_bind; [apply _|apply within_checked; apply _|intros ?]).
    destruct (negb _); [apply within_throw; apply _|].
    do 2 (apply within_bind; [apply _|apply within_checked; apply _|intros ?]).
    do 2 (destruct (negb _); [apply within_throw; apply _|]). apply within_ret. apply _.
Qed.

Lemma kept_counted change : within past_kept (applyAndCountChange sessionId change).
Proof.
  apply within_bind; [apply _|apply kept_applyChange|intros _]. apply within_count. apply _.
Qed.

Lemma kept_all batch : within past_kept (apply_all sessionId batch).
Proof.
  induction batch as [|change batch IH]; [apply within_ret; apply _|].
  apply within_bind; [apply _|apply kept_counted|by intros _].
Qed.

Lemma kept_flush pending : within past_kept (flushBatch sessionId pending).
Proof.
  unfold flushBatch. destruct pending as [|p ps]; [apply within_ret; apply _|].
  apply within_bind; [apply _|apply within_edit, kept_bracket|intros _].
  apply within_finally; [apply _|apply kept_all|apply within_edit, kept_bracket].
Qed.

Lemma kept_loop l ended : forall pending, within past_kept (replay_loop sessionId l ended pending).
Proof.
  induction l as [|change l IH]; intros pending; cbn.
  - apply within_bind; [apply _|apply within_checked; apply _|intros _; apply kept_flush].
  - destruct (bool_decide _); [|case_match; [|apply IH]].
    + apply within_bind; [apply _|apply kept_flush|intros _].
      apply within_bind; [apply _|apply kept_counted|intros _; apply IH].
    + apply within_bind; [apply _|apply kept_flush|intros _; apply IH].
Qed.

Lemma kept_body parsed : within past_kept (replay_body sessionId parsed).
Proof.
  unfold replay_body. destruct (pl_entries parsed 1) as [es ended].
  apply within_bind; [apply _|apply kept_loop|intros _]. apply within_kept, assert_unchanged.
Qed.

(** *** Rolling back *)

Lemma client_unchanged (s : S) : unchanged s (get_client s).1.
Proof. apply hist_client. Qed.

Lemma rolled_back n s s' b :
  0 <= n <= change_count (srv s) ->
  rollbackSessionToChangeCount sessionId n s = (s', inr b) -> content (srv s') = content_at (srv s) n.
Proof.
  intros Hn. unfold rollbackSessionToChangeCount, via_edit, bindT at 1.
  destruct (SessionApi.restoreToChangeCount (NInt n) (rw_world s)) as [w1 [r|e]] eqn:Er; [|done].
  unfold SessionApi.restoreToChangeCount, SessionApi.input, SessionApi.output, request, call, liftM, bindM in Er.
  destruct (requireSafeIntegerInput (NInt n)) as [z|e] eqn:Ez; [|done].
  apply requireSafeIntegerInput_inv in Ez as [[= <-] _]. cbn in Er. unfold as_request in Er.
  unfold restoreToChangeCount, required, unary, bindT in Er.
  pose proof (client_unchanged (server (rw_world s))) as (_ & Hcount & Hat).
  destruct (get_client (server (rw_world s))) as [s1 [e|u]]; [done|]. cbn in Hcount, Hat.
  destruct (call_unary (RestoreToChangeCount sessionId n) s1) as [s2 [e|[r0|]]] eqn:Eu; cbn in Er; try done.
  assert (Hw : server w1 = s2 /\ r = r0).
  { repeat (destruct (requireSafeIntegerOutput _); [|done]). by injection Er as <- <-. }
  destruct Hw as [Hw ->]. clear Er.
  unfold outputT, checkedT, bindT, liftT.
  destruct (requireSafeIntegerOutput (rt_changeCount r0)) as [c|e] eqn:Ec; [|done].
  apply requireSafeIntegerOutput_inv in Ec as [Ec _]. destruct (Z.eqb_spec c n) as [->|]; [|done]. cbn.
  repeat (destruct (requireSafeIntegerOutput _); [|done]). intros [= <- _]. unfold srv in *. cbn.
  rewrite Hw, (hist_restore n s1 s2 r0 Eu Ec) by lia. by apply Hat.
Qed.

(** The change count that is asked for is that of the session. *)
Lemma change_counted s s' n :
  current_count sessionId s = (s', inr n) -> n = change_count (srv s).
Proof.
  unfold current_count, via_call, client_getChangeCount, checked_count, getChangeCount, getSingleCount.
  unfold requestCounts, required, unary, bindT.
  pose proof (client_unchanged (server (rw_world s))) as (_ & Hcount & _).
  destruct (get_client (server (rw_world s))) as [s1 [e|u]]; [done|]. cbn in Hcount.
  destruct (call_unary (GetCount sessionId [CHANGES]) s1) as [s2 [e|[counts|]]] eqn:Eu; cbn; try done.
  apply hist_count in Eu. destruct counts as [|c cs]; [done|]. injection Eu as Ec _.
  unfold outputT, checkedT, liftT. rewrite Ec. cbn.
  destruct (requireSafeIntegerOutput _) as [z|e] eqn:Ez; [|done].
  apply requireSafeIntegerOutput_inv in Ez as [[= <-] _]. intros [= _ <-]. done.
Qed.

Lemma caught_total {A} (m : T (replaying S) A) s : exists o, (caught m s).2 = inr o.
Proof. unfold caught. destruct (m s) as [s1 [e|a]]; eauto. Qed.

Lemma within_run {A} rel (m : T (replaying S) A) s s' r : within rel m -> m s = (s', r) -> rel (srv s) (srv s').
Proof. intros Hm E. specialize (Hm s). by rewrite E in Hm. Qed.

Lemma replay_from_outcome parsed preview start s s' out :
  0 <= start <= change_count (srv s) ->
  replay_from sessionId parsed preview start s = (s', out) ->
  exists o, out = inr o /\
    match o with
    | Replayed r => ar_applied r = true
    | ReplayFailed _ r =>
        ar_applied r = false /\ rb_attempted (ar_rollback r) = true /\
        (rb_succeeded (ar_rollback r) = Some true -> content (srv s') = content_at (srv s) start)
    end.
Proof.
  intros Hn. unfold replay_from. cbv zeta. set (final := caught _).
  assert (Hfinal : forall s0, exists o, final s0 = ((final s0).1, inr o) /\ unchanged (srv s0) (srv (final s0).1)).
  { intros s0. destruct (caught_total (fingerprint_like sessionId (h_after (sc_header (pl_scan parsed)))) s0)
      as [o Ho]. exists o. split; [unfold final; rewrite <- Ho; by destruct (caught _ s0)|].
    unfold final. apply within_caught, fingerprint_unchanged. }
  pose proof (kept_body parsed (mkReplaying (rw_world s) 0)) as Hkept.
  destruct (replay_body sessionId parsed (mkReplaying (rw_world s) 0)) as [s1 [error|u]] eqn:Eb; cbn in Hkept.
  - destruct (rollbackSessionToChangeCount sessionId start s1) as [s2 [rollbackError|b]] eqn:Er.
    + destruct (Hfinal s2) as (o & E & _). unfold bindT. rewrite E. intros [= <- <-].
      eexists. split; [reflexivity|]. done.
    + assert (Hback : content (srv s2) = content_at (srv s1) start).
      { apply (rolled_back start s1 s2 b); [|done]. unfold srv in *. cbn in *. destruct Hkept. lia. }
      destruct (Hfinal s2) as (o & E & Hu). unfold bindT. rewrite E. intros [= <- <-].
      eexists. split; [reflexivity|]. split; [done|]. split; [done|]. intros _. destruct Hu as [-> _]. rewrite Hback.
      destruct Hkept as [_ Hk]. unfold srv in *. cbn in *. by apply Hk.
  - destruct (Hfinal s1) as (o & E & _). unfold bindT. rewrite E. intros [= <- <-].
    eexists. split; [reflexivity|]. done.
Qed.

Lemma bindT_returns {X A B} (m : T X A) (f : A -> T X B) s s' b :
  bindT m f s = (s', inr b) -> exists s1 a, m s = (s1, inr a) /\ f a s1 = (s', inr b).
Proof. unfold bindT. destruct (m s) as [s1 [e|a]]; [done|]. intros H2. by exists s1, a. Qed.

(** The count to go back to is that of the session the preview leaves. *)
Lemma preview_target scan s s' p :
  createChangeLogPreview sessionId scan true s = (s', inr p) ->
  rp_targetChangeCount (lp_rollbackProtection p) = Some (change_count (srv s')).
Proof.
  unfold createChangeLogPreview. intros (s1 & found & Ef & Ep)%bindT_returns.
  unfold inspect_session in Ef. apply bindT_returns in Ef as (t1 & current & _ & Ef).
  apply bindT_returns in Ef as (t2 & same & _ & Ef).
  apply bindT_returns in Ef as (t3 & target & Et & Ef).
  apply bindT_returns in Ef as (t4 & checkpoints & Ec & Ef).
  apply bindT_returns in Ef as (t5 & plugins & Epl & Ef). injection Ef as <- <-.
  apply bindT_returns in Ep as (t6 & size & Es & Ep). injection Ep as <- <-. cbn.
  assert (t6 = t5) as -> by (unfold checkedT, liftT in Es; by destruct (createExpectedSizeDelta scan); injection Es as <-).
  rewrite (change_counted _ _ _ Et). f_equal.
  apply (within_run unchanged _ _ _ _ count_unchanged) in Et as (_ & Et & _).
  apply (within_run unchanged _ _ _ _ checkpoints_unchanged) in Ec as (_ & Ec & _).
  apply (within_run unchanged _ _ _ _ plugins_unchanged) in Epl as (_ & Epl & _). congruence.
Qed.

End Rollback.

(** ** Replays that succeed *)

(** What an entry makes of the content, where it is in range; transforms are
    the server's. *)
Definition replay_entry (e : NormalizedChangeLogEntry) (b : bytes) : option bytes :=
  match check_range e with
  | Throw _ => None
  | Ok (o, n) =>
      let data := hex_decode (n_data e) in
      let empty := (length data =? 0)%nat in
      match n_kind e with
      | KINSERT => if empty || (len b <? o) then None else Some (apply_insert o data b)
      | KDELETE => if (n <=? 0) || (len b <? o + n) then None else Some (apply_delete o n b)
      | KOVERWRITE => if empty || (len b <? o + len data) then None else Some (apply_overwrite o data b)
      | KREPLACE =>
          if (empty && (n =? 0)) || (len b <? o + n) || (MAX_SAFE_INTEGER <? o + n) then None
          else Some (take (Z.to_nat o) b ++ data ++ drop (Z.to_nat (o + n)) b)
      | KTRANSFORM => None
      end
  end.

Fixpoint replay_entries (es : list NormalizedChangeLogEntry) (b : bytes) : option bytes :=
  match es with
  | [] => Some b
  | e :: es => match replay_entry e b with Some b => replay_entries es b | None => None end
  end.

Lemma replay_entries_app es fs b b' :
  replay_entries (es ++ fs) b = Some b' <->
  exists b1, replay_entries es b = Some b1 /\ replay_entries fs b1 = Some b'.
Proof.
  revert b. induction es as [|e es IH]; intros b; cbn.
  - split; [by eauto|]. by intros (b1 & [= ->] & H).
  - destruct (replay_entry e b); [apply IH|]. split; [done|]. by intros (b1 & ? & _).
Qed.

Lemma check_range_bounds e o n :
  check_range e = Ok (o, n) -> 0 <= o <= MAX_SAFE_INTEGER /\ 0 <= n <= MAX_SAFE_INTEGER.
Proof.
  assert (Hz : forall v z, normalizeNonNegativeInt64ForClient v = Ok z -> 0 <= z <= MAX_SAFE_INTEGER).
  { intros v z. unfold normalizeNonNegativeInt64ForClient, parseNonNegativeInt64, int64ToSafeNumber.
    intros H. ok_inv. destruct (_ || _) eqn:Eb in *; [done|]. ok_inv. subst. bool_prop.
    destruct (MAX_SAFE_INTEGER <? _) eqn:Em in *; [done|]. ok_inv. subst. bool_prop. lia. }
  unfold check_range. intros H. ok_inv. simplify_eq. split; by eapply Hz.
Qed.

(** A server that answers what a replay asks. *)
Class ReplayServerLaws (S : Type) `{EditBackendLaws S} `{Transport S} (sessionId : jsstring) := {
  digest_of : bytes -> jsstring -> jsstring -> ContentDigest;
  live_client s : alive s -> get_client s = (s, inr tt);
  live_fingerprint s algorithm plugin : alive s ->
    call_unary (GetSessionFingerprint sessionId FP_COMPUTED algorithm plugin) s =
    (s, CallReplied (Some (mkFingerprintResponse sessionId FP_COMPUTED (Some (mkContentFingerprint
       (NInt (len (content s))) (Some (digest_of (content s) (default [] algorithm) (default [] plugin))))))));
  live_count s : alive s -> exists n, 0 <= n <= MAX_SAFE_INTEGER /\
    call_unary (GetCount sessionId [CHANGES]) s =
    (s, CallReplied (Some [mkSingleCount CHANGES (NInt n)]));
  live_checkpoints s : alive s -> exists n, 0 <= n <= MAX_SAFE_INTEGER /\
    call_unary (GetCount sessionId [CHECKPOINTS]) s =
    (s, CallReplied (Some [mkSingleCount CHECKPOINTS (NInt n)]));
  live_plugins s : alive s -> exists l, call_unary ListTransformPlugins s = (s, CallReplied (Some l))
}.

Section Success.
Context {S : Type} (sessionId : jsstring) `{ReplayServerLaws S sessionId}.

(** On a live server that holds [b], [m] returns, having applied [k] entries,
    with a result in [Q], and leaves [b']. *)
Definition yields {A} (m : T (replaying S) A) (b b' : bytes) (k : Z) (Q : A -> Prop) : Prop :=
  forall s, alive (server (rw_world s)) -> content (server (rw_world s)) = b ->
    exists s' a, m s = (s', inr a) /\ alive (server (rw_world s')) /\
      content (server (rw_world s')) = b' /\ rw_applied s' = rw_applied s + k /\ Q a.

Lemma yields_ret {A} (a : A) b (Q : A -> Prop) : Q a -> yields (retT a) b b 0 Q.
Proof. intros HQ s Ha Hb. exists s, a. repeat split; try done. lia. Qed.

Lemma yields_bind {A B} (m : T (replaying S) A) (f : A -> T (replaying S) B) b1 b2 b3 k1 k2 P Q :
  yields m b1 b2 k1 P -> (forall a, P a -> yields (f a) b2 b3 k2 Q) ->
  yields (bindT m f) b1 b3 (k1 + k2) Q.
Proof.
  intros Hm Hf s Ha Hb. destruct (Hm s Ha Hb) as (s1 & a & E & Ha1 & Hb1 & Hk & HP).
  destruct (Hf a HP s1 Ha1 Hb1) as (s2 & r & E2 & Ha2 & Hb2 & Hk2 & HQ).
  exists s2, r. unfold bindT. rewrite E. repeat split; try done. lia.
Qed.

Lemma yields_checked {A B} (r : result A) a (f : A -> T (replaying S) B) b b' k Q :
  r = Ok a -> yields (f a) b b' k Q -> yields (bindT (checkedT r) f) b b' k Q.
Proof. intros -> Hf. exact Hf. Qed.

Lemma yields_value {A} (r : result A) a b (Q : A -> Prop) :
  r = Ok a -> Q a -> yields (checkedT r) b b 0 Q.
Proof. intros -> HQ. by apply yields_ret. Qed.

Lemma yields_weaken {A} (m : T (replaying S) A) b b' k (P Q : A -> Prop) :
  yields m b b' k P -> (forall a, P a -> Q a) -> yields m b b' k Q.
Proof.
  intros Hm HPQ s Ha Hb. destruct (Hm s Ha Hb) as (s' & a & ? & ? & ? & ? & HP). exists s', a. split_and!; auto.
Qed.

Lemma yields_count b : yields count_applied b b 1 (fun _ => True).
Proof. intros s Ha Hb. eexists _, _. by split. Qed.

Lemma yields_edit {A} (m : M (world S) A) b b' Q : performs m b b' Q -> yields (via_edit m) b b' 0 Q.
Proof.
  intros Hm s Ha Hb. destruct (Hm _ Hb) as [Hs Hl]. destruct (Hl Ha) as (w' & r & E & Ha').
  destruct (Hs w' r E) as [Hc HQ]. unfold via_edit. rewrite E. eexists _, _. split; [reflexivity|].
  repeat split; try done. cbn. lia.
Qed.

Lemma yields_finally {A} (m : T (replaying S) A) fin b b' k Q :
  yields m b b' k Q -> yields fin b' b' 0 (fun _ => True) -> yields (finallyT m fin) b b' k Q.
Proof.
  intros Hm Hf s Ha Hb. destruct (Hm s Ha Hb) as (s1 & a & E & Ha1 & Hb1 & Hk & HQ).
  destruct (Hf s1 Ha1 Hb1) as (s2 & u & E2 & Ha2 & Hb2 & Hk2 & _).
  exists s2, a. unfold finallyT. rewrite E, E2. repeat split; try done. lia.
Qed.

(** A query on the wire. *)
Lemma yields_query {A B} (rq : rpc A) (callback : outcome A -> js_error + B) b (Q : B -> Prop) :
  (forall s, alive s -> content s = b ->
     exists o r, call_unary rq s = (s, o) /\ callback o = inr r /\ Q r) ->
  yields (via_call (unary rq callback)) b b 0 Q.
Proof.
  intros Hq s Ha Hb. destruct (Hq _ Ha Hb) as (o & r & E & Hc & HQ).
  unfold via_call, unary, bindT. rewrite (live_client _ Ha), E, Hc.
  eexists _, _. split; [reflexivity|]. cbn. repeat split; try done. lia.
Qed.

(** What follows a call is checked where the call is. *)
Lemma yields_call_bind {A B} (m : T S A) (f : A -> T S B) b P (Q : B -> Prop) :
  yields (via_call m) b b 0 P -> (forall a, P a -> yields (via_call (f a)) b b 0 Q) ->
  yields (via_call (bindT m f)) b b 0 Q.
Proof.
  intros Hm Hf s Ha Hb. destruct (Hm s Ha Hb) as (s1 & a & E & Ha1 & Hb1 & Hk & HP).
  unfold via_call, bindT in *. destruct (m (server (rw_world s))) as [t1 [e|a']]; [done|].
  injection E as <- ->. destruct (Hf a HP _ Ha1 Hb1) as (s2 & r & E2 & Ha2 & Hb2 & Hk2 & HQ).
  cbn in E2. by exists s2, r.
Qed.

Lemma yields_call_ret {A} (a : A) b (Q : A -> Prop) : Q a -> yields (via_call (retT a)) b b 0 Q.
Proof. intros HQ s Ha Hb. eexists _, _. split; [reflexivity|]. cbn. repeat split; try done. lia. Qed.

Lemma yields_output n b : 0 <= n <= MAX_SAFE_INTEGER ->
  yields (via_call (outputT (NInt n))) b b 0 (fun r => r = n).
Proof.
  intros Hn. unfold outputT. rewrite requireSafeIntegerOutput_int by (apply safeZ_spec; lia).
  by apply yields_call_ret.
Qed.

(** *** Entries *)

Lemma replaced_range (b : bytes) o n :
  0 <= o -> 0 <= n -> o + n <= len b ->
  b = take (Z.to_nat o) b ++ take (Z.to_nat n) (drop (Z.to_nat o) b) ++ drop (Z.to_nat (o + n)) b /\
  Z.of_nat (length (take (Z.to_nat o) b)) = o /\
  Z.of_nat (length (take (Z.to_nat n) (drop (Z.to_nat o) b))) = n.
Proof.
  intros Ho Hn Hr. unfold len in Hr. rewrite !length_take, length_drop. split; [|lia].
  rewrite Z2Nat.inj_add, <- drop_drop by done. by rewrite !take_drop.
Qed.

(** The call of an entry that is no transform. *)
Definition edit_call (e : NormalizedChangeLogEntry) (o n : Z) : M (world S) Z :=
  let data := hex_decode (n_data e) in
  match n_kind e with
  | KINSERT => insert (NInt o) data false
  | KDELETE => del (NInt o) (NInt n) false
  | KOVERWRITE => overwrite (NInt o) data false
  | _ => replace (NInt o) (NInt n) data false
  end.

Lemma applyChange_edit e o n : check_range e = Ok (o, n) -> n_kind e <> KTRANSFORM ->
  applyChange sessionId e = fun s => bindT (via_edit (edit_call e o n)) (fun _ => retT tt) s.
Proof.
  intros Er Hk. unfold applyChange, bindT at 1. rewrite Er. unfold edit_call. by destruct (n_kind e).
Qed.

Lemma performs_entry e o n b b' : check_range e = Ok (o, n) -> replay_entry e b = Some b' ->
  performs (edit_call e o n) b b' (fun _ => True).
Proof.
  intros Er. unfold replay_entry. rewrite Er. apply check_range_bounds in Er as [Ho Hn].
  unfold edit_call. set (data := hex_decode (n_data e)).
  assert (Hdata : (length data =? 0)%nat = false -> data <> []) by (by intros ? ->).
  destruct (n_kind e); [..|done];
    (destruct (_ || _) eqn:Eb; [done|]); injection 1 as <-.
  - bool_prop. unfold len in *. eapply performs_weaken; [apply performs_insert; try lia; apply Hdata; by apply Nat.eqb_neq|done].
  - bool_prop. unfold len in *. eapply performs_weaken; [apply performs_del; lia|done].
  - bool_prop. unfold len in *. eapply performs_weaken; [apply performs_overwrite; try lia; apply Hdata; by apply Nat.eqb_neq|done].
  - apply orb_false_iff in Eb as [Eb Hmax]. apply orb_false_iff in Eb as [Hne Hlen]. bool_prop.
    destruct (replaced_range b o n) as (Hs & Lo & Ln); [lia..|].
    set (pre := take (Z.to_nat o) b) in *. set (removed := take (Z.to_nat n) _) in *.
    set (post := drop (Z.to_nat (o + n)) b) in *.
    pose proof (performs_replace (S := S) pre post removed data false true ltac:(lia)) as Hp.
    rewrite Lo, Ln, <- Hs in Hp. eapply performs_weaken; [apply Hp|done].
    apply andb_false_iff in Hne as [Hne|Hne]; [by right; apply Hdata|left].
    intros E. rewrite E in Ln. bool_prop. cbn in Ln. lia.
Qed.

Lemma replay_entry_edit e b b' : replay_entry e b = Some b' ->
  n_kind e <> KTRANSFORM /\ exists o n, check_range e = Ok (o, n).
Proof.
  unfold replay_entry. destruct (check_range e) as [[o n]|]; [|done]. intros Hb. split; [|eauto].
  intros Hk. by rewrite Hk in Hb.
Qed.

Lemma yields_entry e b b' :
  replay_entry e b = Some b' -> yields (applyAndCountChange sessionId e) b b' 1 (fun _ => True).
Proof.
  intros Hb. destruct (replay_entry_edit _ _ _ Hb) as (Hk & o & n & Er).
  apply (yields_bind _ _ b b' b' 0 1 (fun _ => True)); [|intros _ _; apply yields_count].
  rewrite (applyChange_edit e o n Er Hk).
  eapply (yields_bind _ _ b b' b' 0 0); [by apply yields_edit, performs_entry|].
  intros _ _. by apply (yields_ret tt).
Qed.

(** *** Batches *)

Lemma yields_all es : forall b b', replay_entries es b = Some b' ->
  yields (apply_all sessionId es) b b' (Z.of_nat (length es)) (fun _ => True).
Proof.
  induction es as [|e es IH]; intros b b' Hb; cbn in Hb.
  { injection Hb as <-. by apply yields_ret. }
  destruct (replay_entry e b) as [b1|] eqn:E; [|done].
  replace (Z.of_nat (length (e :: es))) with (1 + Z.of_nat (length es)) by (cbn; lia).
  eapply yields_bind; [by apply yields_entry|]. intros _ _. by apply IH.
Qed.

Lemma yields_bracket bc b : yields (via_edit (bracket bc)) b b 0 (fun _ => True).
Proof. apply yields_edit, performs_bracket. Qed.

Lemma yields_flush pending b b' : replay_entries pending b = Some b' ->
  yields (flushBatch sessionId pending) b b' (Z.of_nat (length pending)) (fun _ => True).
Proof.
  intros Hb. unfold flushBatch. destruct pending as [|e es].
  { injection Hb as <-. by apply yields_ret. }
  change (Z.of_nat (length (e :: es))) with (0 + Z.of_nat (length (e :: es))).
  eapply yields_bind; [apply yields_bracket|]. intros _ _.
  apply yields_finally; [by apply yields_all|apply yields_bracket].
Qed.

(** Batches do not show: the entries are applied as if one by one. *)
Lemma yields_loop es : forall pending b b', replay_entries (pending ++ es) b = Some b' ->
  yields (replay_loop sessionId es (Ok tt) pending) b b'
    (Z.of_nat (length pending) + Z.of_nat (length es)) (fun _ => True).
Proof.
  induction es as [|e es IH]; intros pending b b' Hb; cbn [replay_loop length].
  { rewrite app_nil_r in Hb. rewrite Z.add_0_r. apply (yields_checked _ tt); [done|]. by apply yields_flush. }
  replace (bool_decide (n_kind e = KTRANSFORM)) with false.
  2:{ symmetry. apply bool_decide_eq_false. intros Hk. apply replay_entries_app in Hb as (b1 & _ & Hb).
      cbn in Hb. unfold replay_entry in Hb. destruct (check_range e) as [[o n]|]; [|done]. by rewrite Hk in Hb. }
  assert (Hb' : replay_entries ((pending ++ [e]) ++ es) b = Some b') by (by rewrite <- app_assoc).
  replace (Z.of_nat (length pending) + Z.of_nat (Datatypes.S (length es)))
    with (Z.of_nat (length (pending ++ [e])) + Z.of_nat (length es)) by (rewrite length_app; cbn; lia).
  case_match; [|by apply IH]. apply replay_entries_app in Hb' as (b1 & Hp & He).
  eapply yields_bind; [by apply yields_flush|]. intros _ _. by apply (IH []).
Qed.

(** *** The calls around the replay *)

(** The fingerprint is that of [b]. *)
Definition describes (fp : NormalizedChangeLogFingerprint) (b : bytes) : Prop :=
  let d := fp_digest fp in
  len b <= MAX_SAFE_INTEGER /\
  exists actual, decimal_fingerprint (len b) (digest_of b (d_algorithm d) (d_pluginId d)) (d_pluginId d)
    = Ok actual /\ fingerprintsMatch actual fp = Ok true.

Lemma default_nonempty s : default [] (nonempty s) = s.
Proof. by destruct s. Qed.

Lemma yields_fingerprint fp b : describes fp b ->
  yields (fingerprint_like sessionId fp) b b 0 (fun actual => fingerprintsMatch actual fp = Ok true).
Proof.
  intros [Hlen (actual & Hd & Hm)]. unfold fingerprint_like, getChangeLogFingerprint.
  eapply (yields_bind _ _ b b b 0 0 (fun r => r = (len b, digest_of b (d_algorithm (fp_digest fp)) (d_pluginId (fp_digest fp))))).
  - unfold client_getSessionFingerprint, getSessionFingerprint, required.
    eapply yields_call_bind.
    + apply (yields_query _ _ b (fun r => fr_fingerprint r = Some (mkContentFingerprint (NInt (len b))
        (Some (digest_of b (d_algorithm (fp_digest fp)) (d_pluginId (fp_digest fp))))))).
      intros s Ha Hs. rewrite live_fingerprint by done. eexists _, _. split; [reflexivity|].
      split; [reflexivity|]. cbn. by rewrite !default_nonempty, Hs.
    + intros r ->. eapply yields_call_bind; [apply yields_output; pose proof (len_nonneg b); lia|].
      intros n ->. by apply yields_call_ret.
  - intros r ->. by eapply yields_value.
Qed.

Definition one_count (kind : CountKind) (r : list SingleCount) : Prop :=
  exists n, 0 <= n <= MAX_SAFE_INTEGER /\ r = [mkSingleCount kind (NInt n)].

Lemma yields_counts kind fn b :
  (forall s, alive s -> exists n, 0 <= n <= MAX_SAFE_INTEGER /\
    call_unary (GetCount sessionId [kind]) s = (s, CallReplied (Some [mkSingleCount kind (NInt n)]))) ->
  yields (via_call (requestCounts sessionId [kind] fn)) b b 0 (one_count kind).
Proof.
  intros Hl. apply yields_query. intros s Ha Hs. destruct (Hl s Ha) as (n & Hn & E). rewrite E.
  eexists _, _. split; [reflexivity|]. split; [reflexivity|]. by exists n.
Qed.

Lemma yields_current_count b : yields (current_count sessionId) b b 0 (fun _ => True).
Proof.
  unfold current_count, client_getChangeCount, checked_count, getChangeCount, getSingleCount.
  eapply (yields_call_bind _ _ b (fun c => exists n, 0 <= n <= MAX_SAFE_INTEGER /\ c = NInt n)).
  - eapply yields_call_bind; [apply yields_counts, live_count|].
    intros r (n & Hn & ->). apply yields_call_ret. by exists n.
  - intros c (n & Hn & ->). eapply yields_weaken; [by apply yields_output|done].
Qed.

Lemma yields_checkpoints b : yields (getCheckpointCount sessionId) b b 0 (fun _ => True).
Proof.
  eapply (yields_bind _ _ b b b 0 0); [apply yields_counts, live_checkpoints|].
  intros r (n & Hn & ->). apply (yields_value _ n); [|done]. apply requireSafeIntegerOutput_int, safeZ_spec. lia.
Qed.

Lemma yields_plugins b : yields (via_call (S := S) client_listTransformPlugins) b b 0 (fun _ => True).
Proof.
  apply yields_query. intros s Ha Hs. destruct (live_plugins s Ha) as [l E]. rewrite E.
  eexists _, _. split; [reflexivity|]. split; [reflexivity|done].
Qed.

(** A log without transforms that is complete and whose fingerprint is that
    of the session may be applied. *)
Lemma yields_preview scan b :
  describes (h_before (sc_header scan)) b -> is_ok (createExpectedSizeDelta scan) = true ->
  h_unavailableChangeSerials (sc_header scan) = [] -> sc_requiredPlugins scan = [] ->
  yields (createChangeLogPreview sessionId scan true) b b 0
    (fun p => lp_canApply p = true /\ is_Some (rp_targetChangeCount (lp_rollbackProtection p))).
Proof.
  intros Hd Hsize Hserials Hplugins. unfold createChangeLogPreview.
  eapply (yields_bind _ _ b b b 0 0 (fun found => found.1.1.1.2 = true)).
  - unfold inspect_session. eapply (yields_bind _ _ b b b 0 0); [by apply yields_fingerprint|].
    intros current Hm. apply (yields_checked _ true); [done|].
    eapply (yields_bind _ _ b b b 0 0); [apply yields_current_count|]. intros target _.
    eapply (yields_bind _ _ b b b 0 0); [apply yields_checkpoints|]. intros checkpoints _.
    eapply (yields_bind _ _ b b b 0 0); [apply yields_plugins|]. intros plugins _. by apply yields_ret.
  - intros [[[[current same] target] checkpoints] plugins] Hsame. cbn in Hsame. subst same.
    destruct (createExpectedSizeDelta scan) as [size|]; [|done].
    apply (yields_checked _ size); [done|]. apply yields_ret. unfold unavailable_issue.
    rewrite Hserials, Hplugins. cbn. eauto.
Qed.

Lemma yields_assert fp b : describes fp b ->
  yields (assertCurrentSessionFingerprint sessionId fp) b b 0 (fun _ => True).
Proof.
  intros Hd. eapply (yields_bind _ _ b b b 0 0); [by apply yields_fingerprint|].
  intros actual Hm. apply (yields_checked _ true); [done|]. by apply yields_ret.
Qed.

Lemma yields_caught {A} (m : T (replaying S) A) b Q : yields m b b 0 Q ->
  yields (caught m) b b 0 (fun o => is_Some o).
Proof.
  intros Hm s Ha Hb. destruct (Hm s Ha Hb) as (s' & a & E & ? & ? & ? & _). exists s', (Some a).
  unfold caught. rewrite E. repeat split; eauto.
Qed.

Lemma described_length fp b :
  describes fp b -> exists z, parseNonNegativeInt64 (JString (fp_byteLength fp)) = Ok z.
Proof.
  intros [_ (actual & _ & Hm)]. unfold fingerprintsMatch in Hm. ok_inv.
  unfold int64ToDecimal in *. ok_inv. eauto.
Qed.

Lemma ranges_checked es : forall b b', replay_entries es b = Some b' -> check_ranges es = Ok tt.
Proof.
  induction es as [|e es IH]; intros b b' Hb; [done|]. cbn [replay_entries check_ranges] in *.
  destruct (replay_entry e b) as [b1|] eqn:E; [|done]. unfold replay_entry in E.
  destruct (check_range e) as [p|]; [|done]. exact (IH b1 b' Hb).
Qed.

Lemma log_applied (running : T S unit) parsed es s b' :
  let scan := pl_scan parsed in
  let b := content (server (rw_world s)) in
  alive (server (rw_world s)) -> (forall x, alive x -> running x = (x, inr tt)) ->
  pl_entries parsed 0 = (es, Ok tt) -> pl_entries parsed 1 = (es, Ok tt) ->
  h_unavailableChangeSerials (sc_header scan) = [] -> sc_requiredPlugins scan = [] ->
  describes (h_before (sc_header scan)) b -> describes (h_after (sc_header scan)) b' ->
  replay_entries es b = Some b' ->
  exists s' r, applyChangeLog sessionId running (Ok parsed) false s = (s', inr (Replayed r)) /\
    ar_applied r = true /\ ar_appliedCount r = Z.of_nat (length es) /\
    content (server (rw_world s')) = b' /\ alive (server (rw_world s')).
Proof.
  intros scan b Ha Hrun Hread0 Hread1 Hserials Hplugins Hbefore Hafter Hes.
  assert (Hread : readChangeLogRequest (Ok parsed) = Ok parsed).
  { unfold readChangeLogRequest. unfold mbind at 1, result_bind at 1. rewrite Hread0.
    unfold fst at 1, snd. by rewrite (ranges_checked es b b' Hes). }
  assert (Hsize : is_ok (createExpectedSizeDelta scan) = true).
  { destruct (described_length _ _ Hbefore) as [z Ez], (described_length _ _ Hafter) as [z' Ez'].
    unfold createExpectedSizeDelta. by rewrite Ez, Ez'. }
  unfold applyChangeLog. unfold bindT at 1, checkedT at 1, liftT at 1. rewrite Hread. cbv iota beta zeta.
  assert (Hens : yields (ensure_running running) b b 0 (fun _ => True)).
  { intros t Ht Hb. unfold ensure_running, via_call. rewrite (Hrun _ Ht). eexists _, _.
    split; [reflexivity|]. cbn. repeat split; try done. lia. }
  destruct (Hens s Ha eq_refl) as (s1 & u & E1 & Ha1 & Hb1 & _). unfold bindT at 1. rewrite E1.
  destruct (yields_preview scan b Hbefore Hsize Hserials Hplugins s1 Ha1 Hb1)
    as (s2 & p & E2 & Ha2 & Hb2 & _ & Hcan & [start Hstart]).
  unfold bindT at 1. fold scan. rewrite E2, Hcan, Hstart. unfold bindT at 1, retT at 1. cbn [negb].
  unfold replay_from. cbv zeta.
  assert (Hbody : yields (replay_body sessionId parsed) b b' (Z.of_nat (length es)) (fun _ => True)).
  { unfold replay_body. rewrite Hread1. rewrite <- (Z.add_0_r (Z.of_nat (length es))).
    eapply yields_bind; [exact (yields_loop es [] b b' Hes)|]. intros _ _. by apply yields_assert. }
  destruct (Hbody (mkReplaying (rw_world s2) 0) Ha2 Hb2) as (s3 & v & E3 & Ha3 & Hb3 & Hk & _). rewrite E3.
  destruct (yields_caught _ b' _ (yields_fingerprint _ _ Hafter) s3 Ha3 Hb3) as (s4 & o & E4 & Ha4 & Hb4 & _).
  unfold bindT. fold scan. rewrite E4. eexists _, _. split; [reflexivity|]. cbn in *. split; [done|].
  split; [lia|done].
Qed.

(** A log in which nothing is missing and whose entries are in range
    is applied as a whole to the content its fingerprint tells of: every
    entry is counted, and the content left is that which its entries make,
    one by one, batches or not. *)
Theorem replay_applies_log (running : T S unit) parsed es s b' :
  let scan := pl_scan parsed in
  let b := content (server (rw_world s)) in
  alive (server (rw_world s)) -> (forall x, alive x -> running x = (x, inr tt)) ->
  pl_entries parsed 0 = (es, Ok tt) -> pl_entries parsed 1 = (es, Ok tt) ->
  h_unavailableChangeSerials (sc_header scan) = [] -> sc_requiredPlugins scan = [] ->
  describes (h_before (sc_header scan)) b -> describes (h_after (sc_header scan)) b' ->
  replay_entries es b = Some b' ->
  exists s' r, applyChangeLog sessionId running (Ok parsed) false s = (s', inr (Replayed r)) /\
    ar_applied r = true /\ ar_appliedCount r = Z.of_nat (length es) /\
    content (server (rw_world s')) = b' /\ alive (server (rw_world s')).
Proof. apply log_applied. Qed.
End Success.

(** ** What a replay that returns has done *)

(** A list of steps on the content. *)
Fixpoint chain {X} (eff : X -> bytes -> bytes -> Prop) (l : list X) (b b' : bytes) : Prop :=
  match l with
  | [] => b' = b
  | x :: l => exists b1, eff x b b1 /\ chain eff l b1 b'
  end.

Lemma chain_app {X} (eff : X -> bytes -> bytes -> Prop) l k b b1 b' :
  chain eff l b b1 -> chain eff k b1 b' -> chain eff (l ++ k) b b'.
Proof.
  revert b. induction l as [|x l IH]; intros b; cbn; [by intros ->|]. intros (b2 & Hx & Hl) Hk. eauto.
Qed.

Section Steps.
Context {S : Type} `{EditBackend S} {X : Type} (eff : X -> bytes -> bytes -> Prop).

(** A run that returns has made steps that its result tells of. *)
Definition leads {A} (m : T (replaying S) A) (P : A -> list X -> Prop) : Prop :=
  forall s s' a, m s = (s', inr a) -> exists l, P a l /\ chain eff l (content (srv s)) (content (srv s')).

Definition quiet {A} (m : T (replaying S) A) : Prop := forall s, content (srv (m s).1) = content (srv s).

Lemma leads_bind {A B} (m : T (replaying S) A) (f : A -> T (replaying S) B) P Q :
  leads m P -> (forall a l, P a l -> leads (f a) (fun b k => Q b (l ++ k))) -> leads (bindT m f) Q.
Proof.
  intros Hm Hf s s' b (s1 & a & E1 & E2)%bindT_returns. destruct (Hm _ _ _ E1) as (l & HP & Hl).
  destruct (Hf a l HP _ _ _ E2) as (k & HQ & Hk). exists (l ++ k). split; [done|]. by eapply chain_app.
Qed.

Lemma leads_ret {A} (a : A) (P : A -> list X -> Prop) : P a [] -> leads (retT a) P.
Proof. intros HP s s' x [= <- <-]. by exists []. Qed.

Lemma leads_checked {A} (r : result A) : leads (checkedT r) (fun a l => r = Ok a /\ l = []).
Proof. intros s s' a. unfold checkedT, liftT. destruct r; intros [= <- <-]. by exists []. Qed.

Lemma leads_quiet {A} (m : T (replaying S) A) : quiet m -> leads m (fun _ l => l = []).
Proof. intros Hm s s' a E. specialize (Hm s). rewrite E in Hm. by exists []. Qed.

Lemma leads_finally {A} (m : T (replaying S) A) fin P : leads m P -> quiet fin -> leads (finallyT m fin) P.
Proof.
  intros Hm Hf s s' a. unfold finallyT. destruct (m s) as [s1 r] eqn:Em. specialize (Hf s1).
  destruct (fin s1) as [s2 [e|u]]; [done|]. intros [= <- ->]. cbn in Hf. rewrite Hf. by apply Hm.
Qed.

Lemma leads_weaken {A} (m : T (replaying S) A) (P Q : A -> list X -> Prop) :
  leads m P -> (forall a l, P a l -> Q a l) -> leads m Q.
Proof. intros Hm HPQ s s' a E. destruct (Hm _ _ _ E) as (l & HP & Hl). eauto. Qed.
End Steps.

(** *** Counting *)

Section Counting.
Context {S : Type}.

Definition uncounted {A} (m : T (replaying S) A) : Prop := forall s, rw_applied (m s).1 = rw_applied s.

Lemma uncounted_lift {A} (r : js_error + A) : uncounted (liftT r).
Proof. done. Qed.
Lemma uncounted_ret {A} (a : A) : uncounted (retT a).
Proof. done. Qed.
Lemma uncounted_throw {A} e : uncounted (throwT (A := A) e).
Proof. done. Qed.
Lemma uncounted_edit {A} (m : M (world S) A) : uncounted (via_edit m).
Proof. intros s. unfold via_edit. by destruct (m _). Qed.
Lemma uncounted_call {A} (m : T S A) : uncounted (via_call m).
Proof. intros s. unfold via_call. by destruct (m _). Qed.
Lemma uncounted_bind {A B} (m : T (replaying S) A) (k : A -> T (replaying S) B) :
  uncounted m -> (forall a, uncounted (k a)) -> uncounted (bindT m k).
Proof.
  intros Hm Hk s. specialize (Hm s). unfold bindT. destruct (m s) as [s1 [e|a]]; [done|]. by rewrite Hk.
Qed.

(** What a run that returns adds to the count of applied entries. *)
Definition adds {A} (m : T (replaying S) A) (f : A -> Z) : Prop :=
  forall s s' a, m s = (s', inr a) -> rw_applied s' = rw_applied s + f a.

Lemma adds_uncounted {A} (m : T (replaying S) A) : uncounted m -> adds m (fun _ => 0).
Proof. intros Hm s s' a E. specialize (Hm s). rewrite E in Hm. cbn in Hm. lia. Qed.

Lemma adds_ret {A} (a : A) f : f a = 0 -> adds (retT a) f.
Proof. intros Hf s s' x [= <- <-]. lia. Qed.

Lemma adds_count : adds count_applied (fun _ => 1).
Proof. intros s s' a [= <- <-]. done. Qed.

Lemma adds_bind {A B} (m : T (replaying S) A) (k : A -> T (replaying S) B) f g :
  adds m f -> (forall a, adds (k a) (fun b => g b - f a)) -> adds (bindT m k) g.
Proof.
  intros Hm Hk s s' b E. unfold bindT in E. destruct (m s) as [s1 [e|a]] eqn:Em; [done|].
  rewrite (Hk a _ _ _ E), (Hm _ _ _ Em). lia.
Qed.

Lemma adds_weaken {A} (m : T (replaying S) A) f g : adds m f -> (forall a, f a = g a) -> adds m g.
Proof. intros Hm Hfg s s' a E. rewrite <- Hfg. by apply Hm. Qed.

Lemma adds_finally {A} (m : T (replaying S) A) fin f : adds m f -> uncounted fin -> adds (finallyT m fin) f.
Proof.
  intros Hm Hf s s' a. unfold finallyT. destruct (m s) as [s1 r] eqn:Em. specialize (Hf s1).
  destruct (fin s1) as [s2 [e|u]]; [done|]. intros [= <- ->]. cbn in Hf. rewrite Hf. by apply Hm.
Qed.

End Counting.

Ltac uncount := repeat first
  [apply uncounted_ret | apply uncounted_throw | apply uncounted_lift | apply uncounted_edit | apply uncounted_call
  |apply uncounted_bind; [|intros ?] | case_match].

(** After what counts nothing. *)
Ltac silently t := eapply adds_bind; [apply adds_uncounted; t|intros ?].

(** A run that fails nowhere. *)
Ltac returned E := repeat match type of E with
  | bindT _ _ _ = (_, inr _) => let t := fresh "t" in let a := fresh "a" in let F := fresh "F" in
      apply bindT_returns in E as (t & a & F & E)
  end.

Lemma checkedT_returns {X A} (r : result A) (s s' : X) a : checkedT r s = (s', inr a) -> s' = s /\ r = Ok a.
Proof. unfold checkedT, liftT. destruct r; by intros [= <- <-]. Qed.

Section Whole.
Context {S : Type} `{EditBackendLaws S} `{Transport S} (sessionId : jsstring) `{!ChangeHistory sessionId}.

(** The session with content [b] says that it has [n] bytes. *)
Definition says_size (b : bytes) (n : Z) : Prop :=
  exists s s', content (srv s) = b /\ current_size sessionId s = (s', inr n).

(** The session with content [b], asked for a fingerprint like [fp], answers
    one that matches it. *)
Definition answers_fingerprint (fp : NormalizedChangeLogFingerprint) (b : bytes) : Prop :=
  exists s s' actual, content (srv s) = b /\ fingerprint_like sessionId fp s = (s', inr actual) /\
    fingerprintsMatch actual fp = Ok true.

(** The server ran the plugin over the range and says so; its sizes before
    and after differ by what it replaced. *)
Definition transformed (d : ChangeLogTransformDescriptor) (o n : Z) (b b' : bytes) : Prop :=
  exists s s' response replaced before,
    content s = b /\ content s' = b' /\
    call_unary (ApplyTransformPlugin (transform_request sessionId (transformId d) o n (optionsJson d))) s =
      (s', CallReplied (Some response)) /\
    tr_contentChanged response = true /\ tr_pluginId response = transformId d /\
    tr_offset response = NInt o /\ tr_length response = NInt n /\ tr_replacementLength response = NInt replaced /\
    says_size b before /\ says_size b' (before - n + replaced).

(** What an entry does: a transform is the server's, and an edit makes what
    it says of content it is in range of. *)
Definition entry_effect (e : NormalizedChangeLogEntry) (b b' : bytes) : Prop :=
  exists o n, check_range e = Ok (o, n) /\
    if bool_decide (n_kind e = KTRANSFORM)
    then exists d, n_transformDescriptor e = Some d /\ transformed d o n b b'
    else forall b1, replay_entry e b = Some b1 -> b' = b1.


#[local] Existing Instance unchanged_preorder.

Lemma within_quiet {A} (m : T (replaying S) A) : within unchanged m -> quiet m.
Proof. intros Hm s. by destruct (Hm s) as [-> _]. Qed.

Lemma quiet_bracket c : quiet (via_edit (bracket c)).
Proof.
  intros s. unfold via_edit, bracket, bindM, call, liftM. pose proof (bracket_content c (server (rw_world s))) as Hc.
  unfold srv. destruct (rpc_bracket c (server (rw_world s))) as [s1 [u|e]]; exact Hc.
Qed.

(** A transform that returned was answered by the server. *)
Lemma transform_answered d o n s s' response :
  via_call (client_applyTransformPlugin sessionId (transformId d) (NInt o) (NInt n) (optionsJson d) false) s =
    (s', inr response) ->
  exists t, content t = content (srv s) /\
    call_unary (ApplyTransformPlugin (transform_request sessionId (transformId d) o n (optionsJson d))) t =
      (srv s', CallReplied (Some response)).
Proof.
  unfold via_call. destruct (client_applyTransformPlugin _ _ _ _ _ _ _) as [x r] eqn:E. intros [= <- ->].
  unfold client_applyTransformPlugin, unless_aborted in E. returned E.
  repeat match goal with F : inputT _ _ = _ |- _ => apply checkedT_returns in F as [-> F];
    apply requireSafeIntegerInput_inv in F as [[= <-] _] end.
  assert (Ht : forall (m : option number) (u v : S) z,
    match m with Some serial => outputT serial | None => retT 0 end u = (v, inr z) -> v = u).
  { intros [m|] u v z; [by intros []%checkedT_returns|by intros [= <- _]]. }
  match goal with F : _ = (?v, inr ?z), G : outputT (tr_replacementLength _) _ = (?u, _) |- _ =>
    apply (Ht _ u v z) in F as -> end.
  repeat match goal with F : outputT _ _ = _ |- _ => apply checkedT_returns in F as [-> _] end.
  injection E as <- <-. unfold required, unary in F1. returned F1.
  exists t. split.
  - pose proof (hist_client (server (rw_world s))) as [Hc _].
    match goal with F : get_client _ = _ |- _ => rewrite F in Hc end. exact Hc.
  - destruct (call_unary _ t) as [y out]. cbn in F1. unfold srv. cbn. destruct out as [e|[w|]]; cbn in F1; congruence.
Qed.

Lemma size_answered s s' n : current_size sessionId s = (s', inr n) ->
  says_size (content (srv s)) n /\ content (srv s') = content (srv s).
Proof.
  intros E. split; [by exists s, s'|]. by apply (within_run unchanged _ _ _ _ (size_unchanged sessionId)) in E as [E _].
Qed.

Lemma edit_applied e o n s s' : check_range e = Ok (o, n) -> n_kind e <> KTRANSFORM ->
  applyChange sessionId e s = (s', inr tt) -> entry_effect e (content (srv s)) (content (srv s')).
Proof.
  intros Er Hk. rewrite (applyChange_edit sessionId e o n Er Hk). intros E. returned E. injection E as <-.
  exists o, n. split; [done|]. rewrite bool_decide_eq_false_2 by done. intros b1 Hb.
  destruct (performs_entry e o n _ b1 Er Hb (rw_world s) eq_refl) as [Hs _].
  unfold via_edit in F. destruct (edit_call e o n (rw_world s)) as [w [r|x]]; [|done].
  injection F as <- _. by destruct (Hs w r eq_refl).
Qed.

Lemma transform_applied e s s' : n_kind e = KTRANSFORM ->
  applyChange sessionId e s = (s', inr tt) -> entry_effect e (content (srv s)) (content (srv s')).
Proof.
  intros Hk. unfold applyChange. intros E. returned E. apply checkedT_returns in F as [-> Er].
  destruct a as [o n]. rewrite Hk in E. destruct (n_transformDescriptor e) as [d|] eqn:Ed; [|done].
  returned E. destruct (tr_contentChanged a0) eqn:Ec; [|done]. cbn [negb] in E. returned E.
  apply size_answered in F as [Hs Hc]. apply size_answered in F1 as [Hs1 Hc1].
  apply transform_answered in F0 as (x & Hx & Ex).
  unfold assertTransformReplayResponse in E. case_bool_decide as Ep; [|done]. cbn [negb] in E. returned E.
  apply checkedT_returns in F as [-> [Eo _]%requireSafeIntegerOutput_inv].
  apply checkedT_returns in F0 as [-> [En _]%requireSafeIntegerOutput_inv].
  destruct ((a2 =? o) && (a3 =? n)) eqn:Eon; [|done]. cbn [negb] in E. returned E. bool_prop. subst a2 a3.
  apply checkedT_returns in F as [-> [Ep' _]%requireSafeIntegerOutput_inv].
  apply checkedT_returns in F0 as [-> _].
  destruct (Z.eqb_spec a5 (a - n + a4)); [|done]. cbn [negb] in E.
  destruct (Z.eqb_spec a1 a5); [|done]. cbn [negb] in E. injection E as <-.
  exists o, n. split; [done|]. rewrite bool_decide_eq_true_2 by done. exists d. split; [done|].
  exists x, (srv t0), a0, a4, a. split_and!; try done; [congruence|]. by rewrite Hc1, <- e0, <- e1.
Qed.

Lemma leads_entry e : leads entry_effect (applyAndCountChange sessionId e) (fun _ l => l = [e]).
Proof.
  intros s s' a E. unfold applyAndCountChange in E. returned E. injection E as <- <-. exists [e].
  split; [done|]. eexists. split; [|reflexivity]. change (srv (mkReplaying _ _)) with (srv t). destruct a0.
  destruct (decide (n_kind e = KTRANSFORM)) as [Hk|Hk]; [by apply transform_applied|].
  unfold applyChange in F. pose proof F as F'. apply bindT_returns in F' as (u & [o n] & Eu & _).
  apply checkedT_returns in Eu as [_ Er]. by apply (edit_applied e o n).
Qed.

Lemma leads_all batch : leads entry_effect (apply_all sessionId batch) (fun _ l => l = batch).
Proof.
  induction batch as [|e batch IH]; [by apply leads_ret|].
  eapply leads_bind; [apply leads_entry|]. intros _ l ->. eapply leads_weaken; [exact IH|]. by intros _ k ->.
Qed.

Lemma leads_flush pending : leads entry_effect (flushBatch sessionId pending) (fun _ l => l = pending).
Proof.
  unfold flushBatch. destruct pending as [|p ps]; [by apply leads_ret|].
  eapply leads_bind; [apply leads_quiet, quiet_bracket|]. intros _ l ->.
  apply leads_finally; [apply leads_all|apply quiet_bracket].
Qed.

Lemma leads_loop es ended : forall pending,
  leads entry_effect (replay_loop sessionId es ended pending) (fun _ l => ended = Ok tt /\ l = pending ++ es).
Proof.
  induction es as [|e es IH]; intros pending; cbn.
  - eapply leads_bind; [apply leads_checked|]. intros [] l [-> ->]. rewrite app_nil_r.
    eapply leads_weaken; [apply leads_flush|]. by intros _ k ->.
  - case_match; [|case_match; [|eapply leads_weaken; [apply IH|]; intros _ k [-> ->]; by rewrite <- app_assoc]];
      (eapply leads_bind; [apply leads_flush|]; intros _ l ->).
    + eapply leads_bind; [apply leads_entry|]. intros _ l ->.
      eapply leads_weaken; [apply IH|]. by intros _ k [-> ->].
    + eapply leads_weaken; [apply IH|]. intros _ k [-> ->]. by rewrite <- app_assoc.
Qed.

Lemma fingerprint_asserted fp s s' : assertCurrentSessionFingerprint sessionId fp s = (s', inr tt) ->
  answers_fingerprint fp (content (srv s)) /\ content (srv s') = content (srv s).
Proof.
  intros E. split.
  - unfold assertCurrentSessionFingerprint in E. returned E. apply checkedT_returns in F0 as [_ Hm].
    destruct a0; [|done]. by exists s, t, a.
  - by apply (within_run unchanged _ _ _ _ (assert_unchanged sessionId fp)) in E as [E _].
Qed.

(** *** The count *)

Lemma uncounted_change e : uncounted (applyChange sessionId e).
Proof.
  unfold applyChange, assertTransformReplayResponse, current_size, checkedT, outputT. uncount.
Qed.

Lemma counts_entry e : adds (applyAndCountChange sessionId e) (fun _ => 1).
Proof.
  unfold applyAndCountChange. silently ltac:(apply uncounted_change).
  eapply adds_weaken; [apply adds_count|]. intros; lia.
Qed.

Lemma counts_all batch : adds (apply_all sessionId batch) (fun _ => Z.of_nat (length batch)).
Proof.
  induction batch as [|e batch IH]; cbn; [by apply adds_ret|].
  eapply adds_bind; [apply counts_entry|intros ?]. eapply adds_weaken; [exact IH|]. intros; cbn; lia.
Qed.

Lemma counts_flush pending : adds (flushBatch sessionId pending) (fun _ => Z.of_nat (length pending)).
Proof.
  unfold flushBatch. destruct pending as [|p ps]; [by apply adds_ret|].
  silently ltac:(apply uncounted_edit).
  eapply adds_weaken; [apply adds_finally; [apply counts_all|apply uncounted_edit]|]. intros; lia.
Qed.

Lemma counts_loop es ended : forall pending,
  adds (replay_loop sessionId es ended pending) (fun _ => Z.of_nat (length pending + length es)).
Proof.
  induction es as [|e es IH]; intros pending; cbn [replay_loop].
  - silently ltac:(apply uncounted_lift). eapply adds_weaken; [apply counts_flush|]. intros; cbn; lia.
  - case_match; [|case_match].
    + eapply adds_bind; [apply counts_flush|intros ?]. eapply adds_bind; [apply counts_entry|intros ?].
      eapply adds_weaken; [apply IH|]. intros; cbn; lia.
    + eapply adds_bind; [apply counts_flush|intros ?]. eapply adds_weaken; [apply IH|].
      intros; rewrite length_app; cbn; lia.
    + eapply adds_weaken; [apply IH|]. intros; rewrite length_app; cbn; lia.
Qed.


Lemma uncounted_assert expected : uncounted (assertCurrentSessionFingerprint sessionId expected).
Proof. unfold assertCurrentSessionFingerprint, fingerprint_like, getChangeLogFingerprint, checkedT. uncount. Qed.

(** What [applyChangeLog] did when it reports success: it applied every entry
    of the second reading, which came to its end, in order, and the session
    answered the fingerprint that the log ends with. *)
Definition whole_log_applied (parsed : ParsedChangeLog) (applied : Z) (b b' : bytes) : Prop :=
  (pl_entries parsed 1).2 = Ok tt /\
  applied = Z.of_nat (length (pl_entries parsed 1).1) /\
  chain entry_effect (pl_entries parsed 1).1 b b' /\
  answers_fingerprint (h_after (sc_header (pl_scan parsed))) b'.

Lemma body_replays parsed s s' : replay_body sessionId parsed s = (s', inr tt) ->
  whole_log_applied parsed (rw_applied s' - rw_applied s) (content (srv s)) (content (srv s')).
Proof.
  unfold replay_body, whole_log_applied. destruct (pl_entries parsed 1) as [es ended]. cbn [fst snd]. intros E. returned E.
  destruct a. pose proof (counts_loop es ended [] _ _ _ F) as Hn. apply leads_loop in F as (l & [He ->] & Hl).
  pose proof (uncounted_assert (h_after (sc_header (pl_scan parsed))) t) as Hu. rewrite E in Hu. cbn in Hu.
  apply fingerprint_asserted in E as [Hf Hc]. rewrite Hc, Hu, Hn. cbn [length app Nat.add] in *.
  split_and!; try done. lia.
Qed.

Lemma replay_from_applied parsed preview start s s' r :
  replay_from sessionId parsed preview start s = (s', inr (Replayed r)) ->
  whole_log_applied parsed (ar_appliedCount r) (content (srv s)) (content (srv s')).
Proof.
  unfold replay_from. cbv zeta.
  pose proof (within_caught unchanged _ (fingerprint_unchanged sessionId (h_after (sc_header (pl_scan parsed))))) as Hf.
  destruct (replay_body sessionId parsed (mkReplaying (rw_world s) 0)) as [s1 [error|[]]] eqn:Eb.
  - destruct (rollbackSessionToChangeCount sessionId start s1) as [s2 [e|b]]; intros E; by returned E.
  - intros E. returned E. injection E as <- <-. cbn [ar_appliedCount].
    apply body_replays in Eb. cbn [rw_applied] in Eb. rewrite Z.sub_0_r in Eb.
    specialize (Hf s1) as [Hc _]. rewrite F in Hc. cbn [fst] in Hc. unfold srv in *. by rewrite Hc.
Qed.
(** C6 A replay is of the whole log or leaves the session as it was.  When
    [applyChangeLog] reports that it applied the log, it has read the log to
    its end without an error, every entry has been applied in order and
    counted - an edit makes what it says of the content it meets, where it is
    in range of it; a transform was run by the server on the range of the
    entry, changed the content and accounts for the size that is left - and
    the session, with the content that is left, has answered the fingerprint
    that the log ends with.  When it throws, fails before the first edit,
    fails and rolls back, or is a dry run, the session has the content it had.
    What remains is a roll-back that failed, which is reported as such. *)
Theorem replay_all_or_nothing (running : T S unit) opened dryRun s s' out :
  (forall x, unchanged x (running x).1) ->
  applyChangeLog sessionId running opened dryRun s = (s', out) ->
  match out with
  | inl _ => content (srv s') = content (srv s)
  | inr (Replayed r) =>
      if ar_applied r
      then exists parsed, readChangeLogRequest opened = Ok parsed /\ dryRun = false /\
             whole_log_applied parsed (ar_appliedCount r) (content (srv s)) (content (srv s'))
      else dryRun = true /\ content (srv s') = content (srv s)
  | inr (ReplayFailed _ r) =>
      ar_applied r = false /\
      (rb_attempted (ar_rollback r) = false \/ rb_succeeded (ar_rollback r) = Some true ->
       content (srv s') = content (srv s))
  end.
Proof.
  intros Hrun. unfold applyChangeLog, bindT at 1, checkedT, liftT.
  destruct (readChangeLogRequest opened) as [parsed|e] eqn:Ep; [|by intros [= <- <-]]. cbv iota.
  pose proof (preview_unchanged sessionId (pl_scan parsed)) as Hprev. destruct dryRun.
  - unfold bindT. specialize (Hprev false s).
    destruct (createChangeLogPreview sessionId (pl_scan parsed) false s) as [s1 [e|p]];
      intros [= <- <-]; cbn in *; by destruct Hprev.
  - assert (Hens : within unchanged (ensure_running running)) by (by apply within_call).
    unfold bindT at 1. specialize (Hens s). destruct (ensure_running running s) as [s1 [e|u]];
      [intros [= <- <-]; by destruct Hens|]. cbn in Hens.
    unfold bindT at 1. specialize (Hprev true s1).
    destruct (createChangeLogPreview sessionId (pl_scan parsed) true s1) as [s2 [e|p]] eqn:Ev; cbn in Hprev.
    { intros [= <- <-]. destruct Hens, Hprev. congruence. }
    rewrite (preview_target sessionId _ _ _ _ Ev). unfold bindT at 1, retT at 1. cbv iota.
    assert (Hsame : content (srv s2) = content (srv s)) by (destruct Hens, Hprev; congruence).
    destruct (negb (lp_canApply p)); [by intros [= <- <-]|].
    intros E. pose proof E as E'. apply (replay_from_outcome sessionId) in E as (o & -> & Ho);
      [|pose proof (hist_nonneg (srv s2)); lia].
    rewrite hist_now in Ho. destruct o as [r|m r].
    + rewrite Ho. exists parsed. split; [done|]. split; [done|]. rewrite <- Hsame. by eapply replay_from_applied.
    + destruct Ho as (Hf & Hatt & Hback). split; [done|]. rewrite <- Hsame.
      intros [?|?]; [congruence|auto].
Qed.
End Whole.

(** ** Servers to replay on *)

(** Digests that spell the content; that of one algorithm is another. *)
Definition spelled_value (algorithm plugin : jsstring) (b : bytes) : jsstring :=
  hex_encode (if bool_decide (algorithm = js "md5") then 0 :: b else b).

Definition spelled (b : bytes) (algorithm plugin : jsstring) : ContentDigest :=
  mkContentDigest plugin algorithm (spelled_value algorithm plugin b).

Definition spelled_fingerprint (b : bytes) : NormalizedChangeLogFingerprint :=
  mkFingerprint (decimal_string (len b)) (mkDigest (js "p") (js "a") (spelled_value (js "a") (js "p") b)).

Definition spelled_response (b : bytes) (sessionId : jsstring) (content : SessionFingerprintContent)
    (algorithm plugin : option jsstring) : outcome GetSessionFingerprintResponse :=
  CallReplied (Some (mkFingerprintResponse sessionId content (Some (mkContentFingerprint
    (NInt (len b)) (Some (spelled b (default [] algorithm) (default [] plugin))))))).

Definition example_log (before after : bytes) (es : list NormalizedChangeLogEntry) : ParsedChangeLog :=
  let n := Z.of_nat (length es) in
  parsed_document (mkScan
    (mkHeader true (spelled_fingerprint before) (spelled_fingerprint after) (decimal_string n)
       (decimal_string n) (decimal_string 0) [])
    n (mkCounts n 0 0 0 0 0) [] [], es).

Definition example_insert : NormalizedChangeLogEntry :=
  mkEntryN None KINSERT (js "1") (js "0") (js "0708") None None.
Definition example_delete (offset : string) : NormalizedChangeLogEntry :=
  mkEntryN None KDELETE (js offset) (js "1") [] None None.

(** [BufferServer] with the queries of a replay. *)
Module BufferReplay.

Definition answer {R} (rq : rpc R) (s : BufferServer.t) : outcome R :=
  match rq in rpc R return outcome R with
  | GetSessionFingerprint id content algorithm plugin =>
      spelled_response (BufferServer.buf s) id content algorithm plugin
  | GetCount _ kinds => CallReplied (Some (map (fun k => mkSingleCount k (NInt 0)) kinds))
  | ListTransformPlugins => CallReplied (Some [])
  | GetComputedFileSize _ => CallReplied (Some (NInt (len (BufferServer.buf s))))
  | _ => CallFailed BufferWire.unavailable
  end.

Definition transport : Transport BufferServer.t := {|
  get_client s := (s, inr tt);
  call_unary R rq s := (s, answer rq s)
|}.

Definition laws (sessionId : jsstring) : @ReplayServerLaws BufferServer.t _ _ transport sessionId.
Proof.
  refine {| digest_of := spelled |}; try done.
  - intros s _. exists 0. split; [|done]. unfold MAX_SAFE_INTEGER. lia.
  - intros s _. exists 0. split; [|done]. unfold MAX_SAFE_INTEGER. lia.
  - intros s _. by exists [].
Defined.

End BufferReplay.

(** A server that keeps every content it had. *)
Module HistoryServer.

Record t := mk { now : bytes; past : list bytes }.   (* the oldest first *)

Definition recorded (s : t) : list bytes := past s ++ [now s].
Definition edits (s : t) : Z := Z.of_nat (length (past s)).
Definition at_count (s : t) (n : Z) : bytes := default [] (recorded s !! Z.to_nat n).

Definition change_to (b : bytes) (s : t) : t := mk b (recorded s).

Definition submit (rq : SubmitChangeRequest) (s : t) : t * rpc_outcome Z :=
  if BufferServer.in_range_b rq (now s)
  then (change_to (apply_request rq (now s)) s, RpcReply (Z.min (edits s + 1) MAX_SAFE_INTEGER))
  else (s, RpcReply 0).

#[global] Instance backend : EditBackend t := {
  content := now;
  rpc_submitChange := submit;
  rpc_undo s := (s, RpcEmpty);
  rpc_redo s := (s, RpcEmpty);
  rpc_clear s := (s, RpcEmpty);
  rpc_bracket b s := (s, Ok tt)
}.

Definition restore (n : Z) (s : t) : t * outcome RestoreToChangeCountResponse :=
  if (0 <=? n) && (n <=? edits s)
  then (mk (at_count s n) (take (Z.to_nat n) (recorded s)),
        CallReplied (Some (mkRestoreTo (NInt n) (NInt (edits s - n)) (NInt 0) (NInt 0))))
  else (s, CallFailed BufferWire.unavailable).

Definition answer {R} (rq : rpc R) (s : t) : t * outcome R :=
  match rq in rpc R return t * outcome R with
  | RestoreToChangeCount _ n => restore n s
  | GetSessionFingerprint id content algorithm plugin =>
      (s, spelled_response (now s) id content algorithm plugin)
  | GetCount _ kinds =>
      (s, CallReplied (Some (map (fun k => mkSingleCount k (NInt (if k is CHANGES then edits s else 0))) kinds)))
  | ListTransformPlugins => (s, CallReplied (Some []))
  | GetComputedFileSize _ => (s, CallReplied (Some (NInt (len (now s)))))
  | _ => (s, CallFailed BufferWire.unavailable)
  end.

#[global] Instance transport : Transport t := {
  get_client s := (s, inr tt);
  call_unary R rq s := answer rq s
}.

Lemma at_edits s : at_count s (edits s) = now s.
Proof.
  unfold at_count, recorded, edits. rewrite Nat2Z.id, lookup_app_r by done. by rewrite Nat.sub_diag.
Qed.

Lemma at_before b s n : 0 <= n <= edits s -> at_count (change_to b s) n = at_count s n.
Proof.
  intros Hn. unfold at_count, change_to. cbn. unfold recorded at 1. cbn.
  rewrite lookup_app_l; [done|]. unfold recorded. rewrite length_app. unfold edits in Hn. cbn. lia.
Qed.

Lemma edits_changed b s : edits (change_to b s) = edits s + 1.
Proof. unfold edits, change_to, recorded. cbn. rewrite length_app. cbn. lia. Qed.

#[global] Instance edits_well : EditBackendLaws t.
Proof.
  refine {| alive := fun _ => True |}; [..|done|by eauto].
  - intros rq s s' serial Hr%BufferServer.in_range_b_spec. cbn in *. unfold submit. rewrite Hr.
    by intros [= <- _] _.
  - intros rq s _ Hr%BufferServer.in_range_b_spec. cbn in *. unfold submit. rewrite Hr.
    eexists _, _. split; [reflexivity|]. unfold edits, MAX_SAFE_INTEGER. lia.
Defined.

#[global] Instance keeps_history sessionId : ChangeHistory (S := t) sessionId.
Proof.
  refine {| change_count := edits; content_at := at_count |}.
  - intros s. unfold edits. lia.
  - apply at_edits.
  - intros rq s. cbn. unfold submit. destruct (BufferServer.in_range_b rq (now s)); [|split; [cbn; lia|done]].
    split; cbn [fst]; [rewrite edits_changed; lia|]. intros n Hn. by apply at_before.
  - intros b s. split; [cbn; lia|done].
  - intros rq s. split; [cbn; lia|done].
  - done.
  - intros A rq s Hq. by destruct rq.
  - by intros s s' counts [= <- <-].
  - intros n s s' r. cbn. unfold restore. destruct (_ && _); [|done]. by intros [= <- <-] _ _.
Defined.

End HistoryServer.

(** Two runs: the second entry of the first log is out of range and the first
    is undone; the other log is applied. *)
Definition example_run (after : bytes) (offset : string) : replaying HistoryServer.t * (js_error + replay_outcome) :=
  applyChangeLog (S := HistoryServer.t) (js "s") (retT tt)
    (Ok (example_log [1; 2; 3] after [example_insert; example_delete offset])) false
    (mkReplaying (mkWorld (HistoryServer.mk [1; 2; 3] []) new_stats) 0).

Lemma replay_all_or_nothing_witness :
  (exists s' message r, example_run [] "9" = (s', inr (ReplayFailed message r)) /\
    rb_succeeded (ar_rollback r) = Some true /\ ar_appliedCount r = 1 /\
    HistoryServer.now (server (rw_world s')) = [1; 2; 3]) /\
  (exists s' r, example_run [1; 8; 2; 3] "1" = (s', inr (Replayed r)) /\ ar_appliedCount r = 2 /\
    HistoryServer.now (server (rw_world s')) = [1; 8; 2; 3]).
Proof.
  assert (Hrun : forall x : HistoryServer.t, unchanged (sessionId := js "s") x (retT (S := HistoryServer.t) tt x).1).
  { intros x. split; [reflexivity|split; [reflexivity|intros n Hn; reflexivity]]. }
  split.
  - destruct (example_run [] "9") as [s' out] eqn:E. unfold example_run in E.
    pose proof (replay_all_or_nothing (S := HistoryServer.t) (js "s") _ _ _ _ s' out Hrun E) as H.
    destruct out as [e|[r|m r]]; [by vm_compute in E|by vm_compute in E|].
    assert (Hr : rb_succeeded (ar_rollback r) = Some true /\ ar_appliedCount r = 1)
      by (revert E; vm_compute; by intros [= _ _ <-]).
    exists s', m, r. split; [reflexivity|]. split; [apply Hr|]. split; [apply Hr|]. apply H. right. apply Hr.
  - destruct (example_run [1; 8; 2; 3] "1") as [s' out] eqn:E. unfold example_run in E.
    pose proof (replay_all_or_nothing (S := HistoryServer.t) (js "s") _ _ _ _ s' out Hrun E) as H.
    destruct out as [e|[r|m r]]; [by vm_compute in E| |by vm_compute in E].
    assert (Ha : ar_applied r = true) by (revert E; vm_compute; by intros [= _ <-]). rewrite Ha in H.
    destruct H as (parsed & [= <-] & _ & _ & Hn & (b1 & (o & n & _ & H1) & b2 & (o' & n' & _ & H2) & H3) & _).
    exists s', r. split; [reflexivity|]. split; [exact Hn|].
    specialize (H1 [1; 7; 8; 2; 3] eq_refl). subst b1. specialize (H2 [1; 8; 2; 3] eq_refl). subst b2. exact H3.
Defined.

Lemma replay_applies_log_witness :
  exists s' r,
    @applyChangeLog _ _ BufferReplay.transport (js "s") (retT tt)
      (Ok (example_log [1; 2; 3] [1; 8; 2; 3] [example_insert; example_delete "1"])) false
      (mkReplaying (BufferServer.init [1; 2; 3] []) 0) = (s', inr (Replayed r)) /\
    ar_appliedCount r = 2 /\ BufferServer.buf (server (rw_world s')) = [1; 8; 2; 3].
Proof.
  destruct (@replay_applies_log _ (js "s") _ _ BufferReplay.transport (BufferReplay.laws (js "s")) (retT tt)
    (example_log [1; 2; 3] [1; 8; 2; 3] [example_insert; example_delete "1"])
    [example_insert; example_delete "1"] (mkReplaying (BufferServer.init [1; 2; 3] []) 0) [1; 8; 2; 3])
    as (s' & r & E & _ & Hn & Hb & _).
  - split; [constructor|]. vm_compute. split; discriminate.
  - intros x _. reflexivity.
  - reflexivity.
  - reflexivity.
  - reflexivity.
  - reflexivity.
  - split; [vm_compute; discriminate|]. eexists. split; vm_compute; reflexivity.
  - split; [vm_compute; discriminate|]. eexists. split; vm_compute; reflexivity.
  - vm_compute. reflexivity.
  - exists s', r. split; [exact E|]. split; [exact Hn|exact Hb].
Defined.
