(* ===== verification/AiExport.v ===== *)
(** * Exporting change logs ([packages/ai/src/service.ts])

    What the toolkit reports of a session: the change log it exports, the
    descriptors of transforms with their canonical options, checkpoints and
    status.

    [exportChangeLog] asks for the details of every change by its serial,
    refuses a log with gaps, and compares the session before and after.  Its
    export to a file hands the same entries to [ChangeLogFiles], and the
    optimised export is that of [ChangeLogExportFile]; what is modelled here
    is the export that is returned. *)

From stdpp Require Import sorting.
From S2P Require Import Prelude SafeInt JsText JsValue EditDiff EditSession History SessionApi UnaryCalls SessionCalls ChangeLogCodec ChangeLogDocument ChangeLogFiles ChangeLogExportFile RangeMap AiToolkit AiReplay.

Open Scope call_scope.

(** ** Text *)

(** [Buffer.toString('utf8')] *)
Definition toString_utf8 (bs : bytes) : jsstring := flat_map utf16_point (Utf8Lossy.points Utf8Lossy.idle bs).

Definition MAX_CHANGE_LOG_JSON_NESTING : Z := 256.

(** The loop of [assertJsonNestingLimit], over code units: the characters it
    looks for are never part of a pair. *)
Fixpoint nesting_loop (depth : Z) (inString escaped : bool) (text : jsstring) : result unit :=
  match text with
  | [] => Ok tt
  | ch :: text =>
      if inString then
        if escaped then nesting_loop depth true false text
        else if ch =? 92 then nesting_loop depth true true text
        else nesting_loop depth (negb (ch =? 34)) false text
      else if ch =? 34 then nesting_loop depth true escaped text
      else if (ch =? 123) || (ch =? 91) then
        if MAX_CHANGE_LOG_JSON_NESTING <? depth + 1 then Throw (plain_error "Change log JSON nesting exceeds 256 levels")
        else nesting_loop (depth + 1) false escaped text
      else if (ch =? 125) || (ch =? 93) then nesting_loop (Z.max 0 (depth - 1)) false escaped text
      else nesting_loop depth false escaped text
  end.

Definition assertJsonNestingLimit (text : jsstring) : result unit := nesting_loop 0 false false text.

(** ** Options of transforms *)

Section Options.
Context `{JsonRuntime}.

Definition parseJsonObject (text : jsstring) (name : string) : result jsobject :=
  _ ← assertJsonNestingLimit text;
  match JSON_parse text with
  | None => Throw (plain_error (name ++ " must be valid JSON")%string)
  | Some parsed =>
      match as_record parsed with
      | Some o => Ok o
      | None => Throw (plain_error (name ++ " must be a JSON object")%string)
      end
  end.

Definition transformOptionsToJson (args : jsobject) : option jsstring :=
  if (0 <? length args)%nat then Some (JSON_stringify args) else None.

Definition parseTransformPrimitiveDescriptor (dataBytes : bytes) (name : string)
  : result ChangeLogTransformDescriptor :=
  if (length dataBytes =? 0)%nat then Throw (plain_error (name ++ " requires data")%string)
  else
    descriptor ← parseJsonObject (toString_utf8 dataBytes) name;
    match as_string (get (js "transformId") descriptor) with
    | None => Throw (plain_error (name ++ " requires transformId")%string)
    | Some tid =>
        if (length (trim tid) =? 0)%nat then Throw (plain_error (name ++ " requires transformId")%string)
        else
          let args := get (js "args") descriptor in
          match as_record (if is_undefined args then JObject [] else args) with
          | None => Throw (plain_error (name ++ " args must be a JSON object")%string)
          | Some args => Ok (mkDescriptor (trim tid) (transformOptionsToJson args))
          end
    end.

Definition parseTransformOptionsJson (optionsJson : option jsstring) (name : string) : result jsobject :=
  match truthy optionsJson with
  | None => Ok []
  | Some text => parseJsonObject text name
  end.

(** *** The order of properties *)

Definition key_le (p q : jsstring * jsval) : Prop := js_leb p.1 q.1 = true.
#[global] Instance key_le_dec p q : Decision (key_le p q).
Proof. unfold key_le. apply _. Defined.

(** A property whose name is an array index comes before the others, in
    numeric order. *)
Definition array_index (k : jsstring) : option Z :=
  if canonical_decimal k && (decimal_value k <? 4294967295) then Some (decimal_value k) else None.

Definition index_le (p q : jsstring * jsval) : Prop :=
  default 0 (array_index p.1) <= default 0 (array_index q.1).
#[global] Instance index_le_dec p q : Decision (index_le p q).
Proof. unfold index_le. apply _. Defined.

Definition is_index (p : jsstring * jsval) : bool :=
  match array_index p.1 with Some _ => true | None => false end.

(** The object to which the properties [o] have been added one by one. *)
Definition assigned (o : jsobject) : jsobject :=
  merge_sort index_le (List.filter is_index o) ++ List.filter (fun p => negb (is_index p)) o.

(** [canonical['__proto__'] = ...] sets no property. *)
Definition is_proto (p : jsstring * jsval) : bool := bool_decide (p.1 = js "__proto__").

Fixpoint canonicalizeTransformDescriptorValue (value : jsval) : jsval :=
  match value with
  | JArray l => JArray (map canonicalizeTransformDescriptorValue l)
  | JObject o =>
      JObject (assigned (List.filter (fun p => negb (is_proto p))
        (merge_sort key_le (map (fun p => (p.1, canonicalizeTransformDescriptorValue p.2)) o))))
  | _ => value
  end.

(** [Object.fromEntries] defines every property. *)
Fixpoint normalizeJsonForComparison (value : jsval) : jsval :=
  match value with
  | JArray l => JArray (map normalizeJsonForComparison l)
  | JObject o =>
      JObject (assigned (merge_sort key_le (map (fun p => (p.1, normalizeJsonForComparison p.2)) o)))
  | _ => value
  end.

(** [v] is an object. *)
Definition object_of (v : jsval) : jsobject := default [] (as_record v).

Record TransformDescriptorResult := mkDescriptorResult {
  td_transformId : jsstring;
  td_args : jsobject;
  td_json : jsstring;
  td_dataHex : jsstring
}.

Definition createTransformPrimitiveDescriptorResult (transformId : jsstring) (optionsJson : option jsstring)
  : result TransformDescriptorResult :=
  args ← parseTransformOptionsJson optionsJson "transform options";
  let canonicalArgs := object_of (canonicalizeTransformDescriptorValue (JObject args)) in
  let json := JSON_stringify [(js "transformId", JString (trim transformId)); (js "args", JObject canonicalArgs)] in
  Ok (mkDescriptorResult (trim transformId) canonicalArgs json (hex_encode (utf8_encode json))).

Definition jsonObjectsEqual (left right : jsobject) : bool :=
  bool_decide (JSON_stringify (object_of (normalizeJsonForComparison (JObject left)))
    = JSON_stringify (object_of (normalizeJsonForComparison (JObject right)))).

Definition transformOptionsMatchDescriptor (optionsJson descriptorOptionsJson : option jsstring) (name : string)
  : result bool :=
  options ← parseTransformOptionsJson optionsJson name;
  descriptorOptions ← parseTransformOptionsJson descriptorOptionsJson name;
  Ok (jsonObjectsEqual options descriptorOptions).

(** ** Entries *)

(** The kinds with a name in [ChangeKind] that a log knows. *)
Definition changeKindNames (kind : Z) : option ChangeLogEntryKind :=
  if kind =? 1 then Some KDELETE
  else if kind =? 2 then Some KINSERT
  else if kind =? 3 then Some KOVERWRITE
  else if kind =? 4 then Some KTRANSFORM
  else None.

Definition unsupported_kind : exn := plain_error "Unsupported change kind".

(** The properties of the entry are read in the order they are written. *)
Definition details_entry (change : ChangeDetails) (kind : ChangeLogEntryKind) (with_length : bool)
  : result ChangeLogEntry :=
  serial ← change_getSerial change;
  offset ← change_getOffset change;
  len ← (if with_length then change_getLength change else Ok 0);
  Ok (mkLogEntry (Some (I64Number (NInt serial))) kind (I64Number (NInt offset)) (I64Number (NInt len))
    (hex_encode (change_getData change)) None).

Definition transform_mismatch_error (what : string) : exn :=
  plain_error ("Transform change " ++ what ++ " does not match data")%string.

Definition changeDetailsToLogEntry (change : ChangeDetails) : result ChangeLogEntry :=
  match changeKindNames (ch_kind change) with
  | Some KTRANSFORM =>
      match ch_transform change with
      | Some ((_ :: _) as id, options) =>
          descriptor ← parseTransformPrimitiveDescriptor (change_getData change) "Transform change data";
          _ ← require (bool_decide (id = transformId descriptor)) (transform_mismatch_error "metadata");
          same ← match options with
                 | None => Ok true
                 | Some _ => transformOptionsMatchDescriptor options (optionsJson descriptor)
                     "Transform change optionsJson"
                 end;
          _ ← require same (transform_mismatch_error "options metadata");
          details_entry change KTRANSFORM true
      | _ => Throw (plain_error "Transform change is missing transform metadata")
      end
  | Some KREPLACE | None => Throw unsupported_kind
  | Some KINSERT => details_entry change KINSERT false
  | Some kind => details_entry change kind true
  end.
End Options.

(** ** The export *)

Definition CHANGE_LOG_DEFAULT_DIGEST_ALGORITHM : jsstring := js "sha256".

(** [assertCompleteChangeLog('export', ...)] *)
Definition assertCompleteChangeLog (unavailableChangeSerials : list Z) : result unit :=
  match unavailableChangeSerials with
  | [] => Ok tt
  | _ => Throw (plain_error "Change log export is incomplete")
  end.

Definition session_changed : js_error := new_error (js "Change log export refused: session changed during export").

(** The header and the changes of a [ChangeLogDocument], of which a
    [ChangeLogResult] is a copy. *)
Record ChangeLogResult := mkChangeLogResult {
  lr_header : ChangeLogHeader;
  lr_changes : list ChangeLogEntry
}.

Definition result_object (r : ChangeLogResult) : jsobject :=
  normalizedHeaderObject (lr_header r) ++ [(js "changes", JArray (map entry_object (lr_changes r)))].

Definition createChangeLogDocument (changes : list ChangeLogEntry) (sourceChangeCount : Z)
    (unavailableChangeSerials : list Z) (before after : NormalizedChangeLogFingerprint)
  : result ChangeLogResult :=
  serialized ← result_map serializeChangeLogEntry changes;
  Ok (mkChangeLogResult
    (mkHeader (length unavailableChangeSerials =? 0)%nat before after
       (decimal_string (Z.of_nat (length changes))) (decimal_string sourceChangeCount)
       (decimal_string (Z.of_nat (length unavailableChangeSerials)))
       (map decimal_string unavailableChangeSerials))
    serialized).

(** The summary serialises the entries once more. *)
Definition createChangeLogSummary (sourceChangeCount : Z) (unavailableChangeSerials : list Z)
    (before after : NormalizedChangeLogFingerprint) (changes : list ChangeLogEntry)
  : result ChangeLogResult :=
  createChangeLogDocument changes sourceChangeCount unavailableChangeSerials before after.

Section LogExport.
Context {S : Type} `{EditBackend S} `{Transport S} `{JsonRuntime} (sessionId : jsstring).

Abbreviation R := (replaying S).

Definition assertSessionModelValidForChangeLogExport : T R unit :=
  let+ check := via_call (client_checkSessionModel sessionId) in
  let '(_, valid, _) := check in
  if (valid : bool) then retT tt
  else throwT (new_error (js "Change log export refused: OmegaEdit model integrity check failed")).

(** What one turn of the loop of [collectChangeLogEntries] tries. *)
Definition collect_entry (serial : Z) : T R ChangeLogEntry :=
  let+ change := via_call (client_getChangeDetails sessionId serial) in
  checkedT (changeDetailsToLogEntry change).

(** The loop, from [serial] on, [remaining] turns before its end. *)
Fixpoint collect_loop (remaining : nat) (serial : Z) : T R (list ChangeLogEntry * list Z) :=
  match remaining with
  | O => retT ([], [])
  | Datatypes.S remaining => fun s =>
      match collect_entry serial s with
      | (s, inr entry) =>
          (let+ rest := collect_loop remaining (serial + 1) in retT (entry :: rest.1, rest.2)) s
      | (s, inl error) =>
          if isMissingChangeDetailsError error
          then (let+ rest := collect_loop remaining (serial + 1) in retT (rest.1, serial :: rest.2)) s
          else (s, inl error)
      end
  end.

Definition collectChangeLogEntries (sourceChangeCount : Z) : T R (list ChangeLogEntry * list Z) :=
  collect_loop (Z.to_nat sourceChangeCount) 1.

Definition assertChangeLogExportStable (sourceChangeCount : Z) (expectedAfter : NormalizedChangeLogFingerprint)
  : T R unit :=
  let+ finalChangeCount := current_count sessionId in
  if negb (finalChangeCount =? sourceChangeCount) then throwT session_changed
  else
    let+ finalAfter := fingerprint_like sessionId expectedAfter in
    let+ same := checkedT (fingerprintsMatch finalAfter expectedAfter) in
    if (same : bool) then retT tt else throwT session_changed.

(** [exportChangeLog] without a path. *)
Definition exportChangeLog (running : T S unit) (optimize : bool) : T R ChangeLogResult :=
  let+ _ := via_call running in
  let+ _ := assertSessionModelValidForChangeLogExport in
  if optimize then throwT (new_error (js "Optimized change-log export requires outputPath"))
  else
    let+ before := getChangeLogFingerprint sessionId FP_ORIGINAL
      CHANGE_LOG_DEFAULT_DIGEST_ALGORITHM CHANGE_LOG_DEFAULT_DIGEST_PLUGIN_ID in
    let+ sourceChangeCount := current_count sessionId in
    let+ after := fingerprint_like sessionId before in
    let+ collected := collectChangeLogEntries sourceChangeCount in
    let+ _ := checkedT (assertCompleteChangeLog collected.2) in
    let+ _ := assertChangeLogExportStable sourceChangeCount after in
    let+ document := checkedT (createChangeLogDocument collected.1 sourceChangeCount collected.2 before after) in
    checkedT (createChangeLogSummary sourceChangeCount collected.2
      (h_before (lr_header document)) (h_after (lr_header document)) (lr_changes document)).

(** ** Checkpoints *)

Record RestoreCheckpointResult := mkRestored {
  rr_restored : bool;
  rr_checkpointCount : number;
  rr_changeCount : number;
  rr_discardedChangeCount : number
}.

Definition toolkit_createCheckpoint (running : T S unit) : T R Z :=
  let+ _ := via_call running in
  via_edit (@SessionApi.createCheckpoint S (session_rpc sessionId)).

(** Whether a checkpoint was rolled back, and how many are remaining. *)
Definition rollbackCheckpoint (running : T S unit) : T R (bool * Z) :=
  let+ _ := via_call running in
  let+ existingCount := getCheckpointCount sessionId in
  if existingCount <=? 0 then retT (false, 0)
  else
    let+ remaining := via_edit (@SessionApi.destroyLastCheckpoint S (session_rpc sessionId)) in
    retT (true, remaining).

Definition restoreCheckpoint (running : T S unit) : T R RestoreCheckpointResult :=
  let+ _ := via_call running in
  let+ existingCount := getCheckpointCount sessionId in
  if existingCount <=? 0 then
    let+ count := current_count sessionId in
    retT (mkRestored false (NInt 0) (NInt count) (NInt 0))
  else
    let+ response := via_edit (@SessionApi.restoreLastCheckpoint S (session_rpc sessionId)) in
    retT (mkRestored true (rl_checkpointCount response) (rl_changeCount response)
      (rl_discardedChangeCount response)).

(** ** Status *)

Record SessionStatus := mkStatus {
  st_computedSize : Z;
  st_changeCount : Z;
  st_undoCount : Z;
  st_undoStackDepth : Z;
  st_redoStackDepth : Z;
  st_viewportCount : Z;
  st_checkpointCount : Z;
  st_lastChange : option (Z * Z * Z * EncodedData)   (* kind, offset, length, data *)
}.

(** [new Map(counts.map(...))]: every count is read, the last of a kind
    stays. *)
Fixpoint counts_by_kind (counts : list SingleCount) : result (list (CountKind * Z)) :=
  match counts with
  | [] => Ok []
  | c :: counts => n ← getCount c; rest ← counts_by_kind counts; Ok (rest ++ [(ct_kind c, n)])
  end.

Definition requiredCount (byKind : list (CountKind * Z)) (kind : CountKind) : result Z :=
  match List.find (fun p => bool_decide (p.1 = kind)) byKind with
  | Some (_, n) => Ok n
  | None => Throw (plain_error "Session status count was not returned")
  end.

Definition status_kinds : list CountKind := [COMPUTED_FILE_SIZE; CHANGES; UNDOS; VIEWPORTS; CHECKPOINTS].

Definition sessionStatus (running : T S unit) : T R SessionStatus :=
  let+ _ := via_call running in
  let+ counts := via_call (client_getCounts sessionId status_kinds) in
  let+ byKind := checkedT (counts_by_kind counts) in
  let+ computedSize := checkedT (requiredCount byKind COMPUTED_FILE_SIZE) in
  let+ changeCount := checkedT (requiredCount byKind CHANGES) in
  let+ undoCount := checkedT (requiredCount byKind UNDOS) in
  let+ viewportCount := checkedT (requiredCount byKind VIEWPORTS) in
  let+ checkpointCount := checkedT (requiredCount byKind CHECKPOINTS) in
  let+ lastChange :=
    (if 0 <? changeCount then
       let+ response := via_call (client_getLastChange sessionId) in
       let+ o := checkedT (change_getOffset response) in
       let+ n := checkedT (change_getLength response) in
       retT (Some (ch_kind response, o, n, encodeData (change_getData response)))
     else retT None) in
  retT (mkStatus computedSize changeCount undoCount changeCount undoCount viewportCount checkpointCount
    lastChange).

(** ** Transforms *)

Record ApplyTransformPluginResult := mkTransformResult {
  tp_response : ApplyTransformPluginResponse;
  tp_transformDescriptor : TransformDescriptorResult;
  tp_result : EncodedData
}.

(** The range of the request is a pair of numbers, zero if missing. *)
Definition applyTransformPlugin (running : T S unit) (pluginId : jsstring) (offset length : number)
    (optionsJson : option jsstring) (aborted : bool) : T R ApplyTransformPluginResult :=
  let+ _ := checkedT (assertNonNegativeInteger offset) in
  let+ _ := checkedT (assertNonNegativeInteger length) in
  if (Datatypes.length pluginId =? 0)%nat then throwT (new_error (js "pluginId is required"))
  else
    let+ _ := via_call running in
    let+ response := via_call (client_applyTransformPlugin sessionId pluginId offset length optionsJson aborted) in
    let+ descriptor := checkedT (createTransformPrimitiveDescriptorResult (tr_pluginId response) optionsJson) in
    retT (mkTransformResult response descriptor (encodeData (tr_result response))).
End LogExport.

(** ** What a server tells of the past *)

(** The details of a change: deletions carry the bytes they removed. *)
Definition details_of (serial : Z) (rq : SubmitChangeRequest) (b : bytes) : ChangeDetails :=
  let details kind n data :=
    mkChangeDetails kind (NInt (rq_offset rq)) (NInt n) (NInt serial) (Some data) None in
  let data := default [] (rq_data rq) in
  match rq_kind rq with
  | CHANGE_INSERT => details 2 (len data) data
  | CHANGE_OVERWRITE => details 3 (len data) data
  | _ => details 1 (rq_length rq) (take (Z.to_nat (rq_length rq)) (drop (Z.to_nat (rq_offset rq)) b))
  end.

Definition is_byte (x : Z) : Prop := 0 <= x < 256.

(** [rqs] turn the first content into the second, each in its range. *)
Inductive edits : bytes -> list SubmitChangeRequest -> bytes -> Prop :=
  | edits_nil b : edits b [] b
  | edits_cons b rq rqs b' :
      request_in_range rq b -> Forall is_byte (default [] (rq_data rq)) ->
      edits (apply_request rq b) rqs b' -> edits b (rq :: rqs) b'.

(** The requests of an export. *)
Definition is_export_query {A} (rq : rpc A) : bool :=
  match rq with
  | CheckSessionModel _ | GetSessionFingerprint _ _ _ _ | GetCount _ _ | GetChangeDetails _ _ => true
  | _ => false
  end.

(** The digest that an algorithm of a plugin makes of some bytes, in lower
    case hexadecimal digits. *)
Class SessionDigest := {
  session_digest (algorithm plugin : jsstring) : bytes -> jsstring;
  digest_hex algorithm plugin b : forallb is_lower_hex (session_digest algorithm plugin b) = true
}.

Definition digest_with `{SessionDigest} (b : bytes) (algorithm plugin : jsstring) : ContentDigest :=
  mkContentDigest plugin algorithm (session_digest algorithm plugin b).

(** The digest of a log that is exported. *)
Definition log_digest `{SessionDigest} : bytes -> jsstring :=
  session_digest CHANGE_LOG_DEFAULT_DIGEST_ALGORITHM CHANGE_LOG_DEFAULT_DIGEST_PLUGIN_ID.

(** A server that keeps a journal of the edits of a session without
    transforms.  It may fail to answer and may have lost details, but what it
    answers is true. *)
Class Journal (S : Type) `{EditBackend S} `{Transport S} `{SessionDigest} (sessionId : jsstring) := {
  original : S -> bytes;
  journal : S -> list SubmitChangeRequest;
  recorded (s s' : S) : Prop :=
    original s' = original s /\ journal s' = journal s /\ content s' = content s;
  journal_made s : edits (original s) (journal s) (content s);
  journal_client s : recorded s (get_client s).1;
  journal_query {A} (rq : rpc A) s : is_export_query rq = true -> recorded s (call_unary rq s).1;
  journal_count s s' counts :
    call_unary (GetCount sessionId [CHANGES]) s = (s', CallReplied (Some counts)) ->
    map ct_count counts = [NInt (len (journal s))];
  journal_details s s' serial details :
    call_unary (GetChangeDetails sessionId serial) s = (s', CallReplied (Some details)) ->
    exists before rq after b, journal s = before ++ rq :: after /\ serial = 1 + len before /\
      edits (original s) before b /\ details = details_of serial rq b;
  journal_fingerprint s s' which algorithm plugin r : which <> FP_UNSPECIFIED ->
    call_unary (GetSessionFingerprint sessionId which algorithm plugin) s = (s', CallReplied (Some r)) ->
    let b := match which with FP_ORIGINAL => original s | _ => content s end in
    fr_fingerprint r = Some (mkContentFingerprint (NInt (len b))
      (Some (digest_with b (default [] algorithm) (default [] plugin))))
}.

(** *** Edits and entries *)

Lemma edits_fun b rqs b1 : edits b rqs b1 -> forall b2, edits b rqs b2 -> b1 = b2.
Proof. induction 1 as [b|b rq rqs b' _ _ _ IH]; intros b2 H2; inversion H2; subst; auto. Qed.

Lemma edits_split b before : forall after b', edits b (before ++ after) b' ->
  exists b1, edits b before b1 /\ edits b1 after b'.
Proof.
  revert b. induction before as [|rq before IH]; intros b after b' He; [exists b; split; [constructor|done]|].
  inversion He as [|b0 rq0 rqs b2 Hr Hd Hes]; subst. destruct (IH _ _ _ Hes) as (b1 & ? & ?).
  exists b1. split; [by constructor|done].
Qed.

Lemma edits_app b l b1 k b2 : edits b l b1 -> edits b1 k b2 -> edits b (l ++ k) b2.
Proof. induction 1; [done|]. intros Hk. cbn. constructor; auto. Qed.

(** The integers, data and kind of an entry. *)
Record entry_is (e : ChangeLogEntry) (kind : ChangeLogEntryKind) (o n : Z) (data : jsstring) : Prop := {
  is_kind : l_kind e = kind;
  is_offset : parseChangeLogNonNegativeInt64 (int64_value (l_offset e)) = Ok o;
  is_length : parseChangeLogNonNegativeInt64 (int64_value (l_length e)) = Ok n;
  is_data : ChangeLogCodec.normalizeHex (JString (l_data e)) = Ok data
}.

Lemma entry_serialized e e' kind o n data :
  entry_is e kind o n data -> serializeChangeLogEntry e = Ok e' -> entry_is e' kind o n data.
Proof.
  intros [Hk Ho Hn Hd]. pose proof (parse_int64_range _ _ Ho). pose proof (parse_int64_range _ _ Hn).
  pose proof (normalizeHex_inv _ _ Hd) as (_ & _ & _ & He & Hf).
  unfold serializeChangeLogEntry, changeLogInt64ToDecimal. rewrite Ho, Hn, Hd.
  intros H'. ok_inv. subst. constructor; cbn [l_kind l_offset l_length l_data int64_value].
  - done.
  - by apply parse_int64_decimal.
  - by apply parse_int64_decimal.
  - by apply normalizeHex_id.
Qed.

Lemma entry_normalized `{JsonRuntime} limits e x kind o n data :
  entry_is e kind o n data -> normalizeChangeLogEntry (entry_object e) limits = Ok x ->
  n_kind x = kind /\ n_offset x = decimal_string o /\ n_length x = decimal_string n /\ n_data x = data /\
  (kind = KDELETE -> slen data / 2 = n).
Proof.
  intros [Hk Ho Hn Hd] Hx. destruct (entry_object_get e) as (p & Ep & G1 & G2 & G3 & G4 & _). rewrite Ep in Hx.
  apply normalize_entry_inv in Hx as (q & off & n' & [= <-] & _ & Hkind & Hoff & Hlen & Eo & El & Hdata &
    _ & Hdel & _).
  rewrite G1, kind_of_name in Hkind. rewrite G2 in Hoff. rewrite G3 in Hlen. rewrite G4 in Hdata.
  rewrite Ho in Hoff. rewrite Hn in Hlen. rewrite Hd in Hdata.
  assert (Hkk : n_kind x = kind) by congruence. assert (Hdd : n_data x = data) by congruence.
  injection Hoff as <-. injection Hlen as <-. rewrite Hkk, Hdd in Hdel. done.
Qed.

Lemma parse_client_decimal z : 0 <= z <= MAX_SAFE_INTEGER ->
  normalizeNonNegativeInt64ForClient (JString (decimal_string z)) = Ok z.
Proof.
  intros Hz. destruct (decimal_string_spec z) as [Hv Hc].
  { unfold MAX_SAFE_INTEGER in Hz. lia. }
  unfold normalizeNonNegativeInt64ForClient, parseNonNegativeInt64, int64ToSafeNumber. rewrite Hc, Hv.
  cbn [mbind result_bind]. destruct (Z.ltb_spec z 0); [lia|].
  destruct (Z.ltb_spec MAX_INT64 z); [unfold MAX_SAFE_INTEGER, MAX_INT64 in *; lia|]. cbn.
  destruct (Z.ltb_spec MAX_SAFE_INTEGER z); [lia|done].
Qed.

Lemma hex_digit_lower n : 0 <= n < 16 -> is_lower_hex (hex_digit n) = true.
Proof.
  intros Hn. unfold hex_digit, is_lower_hex, in_range. rewrite orb_true_iff, !andb_true_iff, !Z.leb_le.
  destruct (Z.ltb_spec n 10); lia.
Qed.

Lemma hex_normal d : ChangeLogCodec.normalizeHex (JString (hex_encode d)) = Ok (hex_encode d).
Proof.
  apply normalizeHex_id; [by rewrite hex_encode_length, Nat.even_mul|].
  induction d as [|x d IH]; [done|]. cbn. rewrite !hex_digit_lower by apply nybble_bounds. exact IH.
Qed.

Lemma hex_half d : slen (hex_encode d) / 2 = len d.
Proof.
  unfold slen, len. rewrite hex_encode_length, Nat2Z.inj_mul. change (Z.of_nat 2) with 2.
  rewrite Z.mul_comm, Z.div_mul; lia.
Qed.

Lemma parse_number z : 0 <= z <= MAX_SAFE_INTEGER -> parseChangeLogNonNegativeInt64 (JNumber (NInt z)) = Ok z.
Proof.
  intros Hz. unfold parseChangeLogNonNegativeInt64. rewrite (proj2 (safeZ_spec z)) by lia. cbn [mbind result_bind].
  destruct (Z.ltb_spec z 0); [lia|].
  destruct (Z.ltb_spec MAX_INT64 z); [unfold MAX_SAFE_INTEGER, MAX_INT64 in *; lia|done].
Qed.

(** What is read of the details of a change. *)
Lemma details_entry_is change kind with_length e o n d :
  ch_offset change = NInt o -> ch_length change = NInt n -> ch_data change = Some d ->
  0 <= o -> 0 <= n -> details_entry change kind with_length = Ok e ->
  o <= MAX_SAFE_INTEGER /\ (with_length = true -> n <= MAX_SAFE_INTEGER) /\
  entry_is e kind o (if with_length then n else 0) (hex_encode d).
Proof.
  intros Ho Hn Hd Hpo Hpn. unfold details_entry, change_getSerial, change_getOffset, change_getLength, change_getData.
  rewrite Ho, Hn, Hd. intros He.
  assert (Hlen : forall m, (if with_length then requireSafeIntegerOutput (NInt n) else Ok 0) = Ok m ->
    m = (if with_length then n else 0) /\ (with_length = true -> n <= MAX_SAFE_INTEGER)).
  { intros m Hm. destruct with_length; [|by injection Hm as <-].
    apply requireSafeIntegerOutput_inv in Hm as [[= ->] Hs]. apply safeZ_spec in Hs. split; [done|lia]. }
  ok_inv. subst. repeat match goal with
    | Hr : requireSafeIntegerOutput _ = Ok _ |- _ => apply requireSafeIntegerOutput_inv in Hr as [[= ->] Hr]
    end.
  destruct (Hlen _ eq_refl) as [-> Hle]. apply safeZ_spec in Hr0. split; [lia|]. split; [done|].
  constructor; cbn [l_kind l_offset l_length l_data int64_value]; [done|apply parse_number; lia| |apply hex_normal].
  apply parse_number. destruct with_length; [auto|unfold MAX_SAFE_INTEGER; lia].
Qed.

Lemma check_range_decimal x o n :
  n_offset x = decimal_string o -> n_length x = decimal_string n ->
  0 <= o <= MAX_SAFE_INTEGER -> 0 <= n <= MAX_SAFE_INTEGER -> check_range x = Ok (o, n).
Proof. intros Eo En Ho Hn. unfold check_range. by rewrite Eo, En, !parse_client_decimal. Qed.

(** An entry that stands for [rq] at [b]. *)
Lemma replays_request `{JsonRuntime} limits serial rq b e1 e2 e3 x :
  request_in_range rq b -> Forall is_byte (default [] (rq_data rq)) ->
  changeDetailsToLogEntry (details_of serial rq b) = Ok e1 ->
  serializeChangeLogEntry e1 = Ok e2 -> serializeChangeLogEntry e2 = Ok e3 ->
  normalizeChangeLogEntry (entry_object e3) limits = Ok x ->
  n_kind x <> KTRANSFORM /\ replay_entry x b = Some (apply_request rq b).
Proof.
  intros [Ho Hr] Hbytes E1 E2 E3 Hx.
  assert (Hread : forall kind o n d, entry_is e1 kind o n (hex_encode d) ->
    n_kind x = kind /\ n_offset x = decimal_string o /\ n_length x = decimal_string n /\
    n_data x = hex_encode d /\ (kind = KDELETE -> slen (hex_encode d) / 2 = n)).
  { intros kind o n d He. by eapply entry_normalized, Hx; eapply entry_serialized, E3; eapply entry_serialized, E2. }
  assert (Hrange : forall kind with_length change o n d,
    ch_offset change = NInt o -> ch_length change = NInt n -> ch_data change = Some d ->
    0 <= o -> 0 <= n -> details_entry change kind with_length = Ok e1 ->
    n_kind x = kind /\ check_range x = Ok (o, if with_length then n else 0) /\ n_data x = hex_encode d).
  { intros kind with_length change o n d Co Cn Cd Hpo Hpn Hd.
    destruct (details_entry_is _ _ _ _ _ _ _ Co Cn Cd Hpo Hpn Hd) as (Hmo & Hmn & He).
    destruct (Hread _ _ _ _ He) as (Ek & Eo & En & Ed & _). split; [done|]. split; [|done].
    apply check_range_decimal; [done|done|lia|]. destruct with_length; [auto|unfold MAX_SAFE_INTEGER; lia]. }
  unfold changeDetailsToLogEntry, details_of in E1. unfold apply_request, replay_entry, len in *.
  destruct (rq_kind rq) eqn:Hk; try done; cbn [changeKindNames ch_kind Z.eqb Pos.eqb] in E1;
    match type of E1 with details_entry ?c _ _ = _ =>
      destruct (Hrange _ _ c _ _ _ eq_refl eq_refl eq_refl Ho ltac:(lia) E1) as (Ek & Er & Ed) end;
    rewrite Er, Ek, ?Ed; (split; [done|]).
  - destruct (Z.leb_spec (rq_length rq) 0), (Z.ltb_spec (Z.of_nat (length b)) (rq_offset rq + rq_length rq));
      done || lia.
  - destruct Hr as (d & Hd & Hne & _ & Hr). rewrite Hd in *. change (default [] (Some d)) with d in *.
    rewrite hex_decode_encode by done.
    destruct d as [|y d]; [done|]. destruct (Z.ltb_spec (Z.of_nat (length b)) (rq_offset rq)); done || lia.
  - destruct Hr as (d & Hd & Hne & _ & Hr). rewrite Hd in *. change (default [] (Some d)) with d in *.
    rewrite hex_decode_encode by done.
    destruct d as [|y d]; [done|].
    destruct (Z.ltb_spec (Z.of_nat (length b)) (rq_offset rq + Z.of_nat (length (y :: d)))); done || lia.
Qed.

(** The entries that stand for [rqs] from [b] on. *)
Inductive entries_for `{JsonRuntime} : Z -> bytes -> list SubmitChangeRequest -> list ChangeLogEntry -> Prop :=
  | entries_nil serial b : entries_for serial b [] []
  | entries_cons serial b rq rqs e es :
      changeDetailsToLogEntry (details_of serial rq b) = Ok e ->
      entries_for (serial + 1) (apply_request rq b) rqs es -> entries_for serial b (rq :: rqs) (e :: es).

Lemma replays_edits `{JsonRuntime} limits b rqs b' : edits b rqs b' ->
  forall serial es es1 es2 xs, entries_for serial b rqs es ->
  result_map serializeChangeLogEntry es = Ok es1 -> result_map serializeChangeLogEntry es1 = Ok es2 ->
  Forall2 (fun v x => normalizeChangeLogEntry v limits = Ok x) (map entry_object es2) xs ->
  replay_entries xs b = Some b' /\ length xs = length rqs /\ Forall (fun x => n_kind x <> KTRANSFORM) xs.
Proof.
  induction 1 as [b|b rq rqs b' Hr Hd _ IH]; intros serial es es1 es2 xs Hes H1 H2 Hxs; inversion Hes; subst.
  - cbn in H1. injection H1 as <-. injection H2 as <-. inversion Hxs. done.
  - cbn in H1. ok_inv. subst. cbn in H2. ok_inv. subst. inversion Hxs as [|v x vs xs' Hx Hxs']; subst.
    edestruct replays_request as [Hk Hre]; [exact Hr|exact Hd|eassumption..|].
    edestruct IH as (Hi & Hl & Hf); [eassumption..|]. cbn. rewrite Hre. split; [exact Hi|].
    split; [by rewrite Hl|by constructor].
Qed.

(** *** What an export reads *)

Section Reading.
Context {S : Type} (sessionId : jsstring) `{Journal S sessionId} `{JsonRuntime}.
Context (start : bytes) (rqs : list SubmitChangeRequest) (now : bytes).

Definition knows (s : S) : Prop := original s = start /\ journal s = rqs /\ content s = now.

(** [m] leaves the session as it is and returns what [Q] says, if it
    returns. *)
Definition reading {X A} (view : X -> S) (m : T X A) (Q : A -> Prop) : Prop :=
  forall s, knows (view s) -> knows (view (m s).1) /\ forall a, (m s).2 = inr a -> Q a.

Lemma reading_ret {X A} (view : X -> S) (a : A) (Q : A -> Prop) : Q a -> reading view (retT a) Q.
Proof. intros Ha s Hs. split; [done|]. by intros a' [= <-]. Qed.

Lemma reading_throw {X A} (view : X -> S) e (Q : A -> Prop) : reading view (throwT e) Q.
Proof. intros s Hs. by split. Qed.

Lemma reading_checked {X A} (view : X -> S) (r : result A) (Q : A -> Prop) :
  (forall a, r = Ok a -> Q a) -> reading view (checkedT r) Q.
Proof. intros Hr s Hs. split; [done|]. cbn. destruct r; [|done]. intros a' [= <-]. by apply Hr. Qed.

Lemma reading_bind {X A B} (view : X -> S) (m : T X A) (f : A -> T X B) P Q :
  reading view m P -> (forall a, P a -> reading view (f a) Q) -> reading view (bindT m f) Q.
Proof.
  intros Hm Hf s Hs. destruct (Hm s Hs) as [Hk Hp]. unfold bindT.
  destruct (m s) as [s1 [e|a]]; [by split|]. apply (Hf a); [by apply Hp|done].
Qed.

Lemma reading_call {A} (m : T S A) Q : reading id m Q -> reading srv (via_call m) Q.
Proof.
  intros Hm s Hs. specialize (Hm (srv s) Hs). unfold via_call, srv, id in *.
  destruct (m _) as [s1 r]. exact Hm.
Qed.

Lemma knows_recorded s s' : knows s -> recorded s s' -> knows s'.
Proof. intros (? & ? & ?) (? & ? & ?). unfold knows. split_and!; congruence. Qed.

Lemma reading_unary {A B} (rq : rpc A) (callback : outcome A -> js_error + B) Q :
  is_export_query rq = true ->
  (forall s s' o b, knows s -> call_unary rq s = (s', o) -> callback o = inr b -> Q b) ->
  reading id (unary rq callback) Q.
Proof.
  intros Hq HQ s Hs. unfold unary, bindT, id in *. pose proof (knows_recorded _ _ Hs (journal_client s)) as Hs1.
  destruct (get_client s) as [s1 [e|u]]; [by split|]. cbn in Hs1.
  pose proof (knows_recorded _ _ Hs1 (journal_query rq s1 Hq)) as Hs2.
  destruct (call_unary rq s1) as [s2 o] eqn:E. split; [done|]. intros b Hb. by apply (HQ s1 s2 o).
Qed.

Lemma reading_required {A} fn (rq : rpc A) (Q : A -> Prop) :
  is_export_query rq = true ->
  (forall s s' a, knows s -> call_unary rq s = (s', CallReplied (Some a)) -> Q a) ->
  reading id (required fn rq) Q.
Proof.
  intros Hq HQ. apply reading_unary; [done|]. intros s s' o b Hs E Hb.
  destruct o as [e|[a|]]; [done| |done]. injection Hb as <-. by apply (HQ s s').
Qed.

Lemma reading_model : reading srv (assertSessionModelValidForChangeLogExport sessionId) (fun _ => True).
Proof.
  eapply (reading_bind _ _ _ (fun _ => True)).
  - apply reading_call. eapply (reading_bind _ _ _ (fun _ => True)); [by apply reading_required|].
    intros r _. eapply (reading_bind _ _ _ (fun _ => True)); [by apply reading_checked|].
    intros n _. by apply reading_ret.
  - intros [[id valid] status] _. destruct valid; [by apply reading_ret|apply reading_throw].
Qed.

Lemma reading_count : reading srv (current_count sessionId) (fun n => n = len rqs).
Proof.
  apply reading_call. eapply (reading_bind _ _ _ (fun c => c = NInt (len rqs))).
  - eapply (reading_bind _ _ _ (fun counts => map ct_count counts = [NInt (len rqs)])).
    + apply reading_required; [done|]. intros s s' counts (_ & Hj & _) E. rewrite <- Hj.
      by eapply journal_count.
    + intros [|c l] Hc; [done|]. apply reading_ret. by injection Hc as ->.
  - intros c ->. apply reading_checked. intros a Ha. by apply requireSafeIntegerOutput_inv in Ha as [[= ->] _].
Qed.

(** The fingerprint of [b], its length being safe. *)
Definition fingerprint_of (b : bytes) (algorithm plugin : jsstring) (fp : NormalizedChangeLogFingerprint) : Prop :=
  len b <= MAX_SAFE_INTEGER /\ decimal_fingerprint (len b) (digest_with b algorithm plugin) plugin = Ok fp.

Lemma reading_fingerprint which algorithm plugin : which <> FP_UNSPECIFIED ->
  reading srv (getChangeLogFingerprint sessionId which algorithm plugin)
    (fingerprint_of (match which with FP_ORIGINAL => start | _ => now end) algorithm plugin).
Proof.
  intros Hw. set (b := match which with FP_ORIGINAL => start | _ => now end).
  eapply (reading_bind _ _ _ (fun r => len b <= MAX_SAFE_INTEGER /\ r = (len b, digest_with b algorithm plugin))).
  - apply reading_call. eapply (reading_bind _ _ _ (fun r => fr_fingerprint r =
      Some (mkContentFingerprint (NInt (len b)) (Some (digest_with b algorithm plugin))))).
    + apply reading_required; [done|]. intros s s' r (Ho & _ & Hc) E.
      apply journal_fingerprint in E; [|done]. rewrite E, !default_nonempty. unfold b. rewrite <- Ho, <- Hc.
      by destruct which.
    + intros r ->. eapply (reading_bind _ _ _ (fun n => n = len b /\ len b <= MAX_SAFE_INTEGER)).
      * apply reading_checked. intros n Hn. apply requireSafeIntegerOutput_inv in Hn as [[= ->] Hs].
        apply safeZ_spec in Hs. lia.
      * intros n [-> Hn]. by apply reading_ret.
  - intros r [Hn ->]. apply reading_checked. intros fp Hfp. by split.
Qed.

Lemma reading_entry before rq after b :
  rqs = before ++ rq :: after -> edits start before b ->
  reading srv (collect_entry sessionId (1 + len before))
    (fun e => changeDetailsToLogEntry (details_of (1 + len before) rq b) = Ok e).
Proof.
  intros Hsplit Hb. eapply (reading_bind _ _ _ (fun d => d = details_of (1 + len before) rq b)).
  - apply reading_call, reading_unary; [done|]. intros s s' o d (Ho & Hj & _) E Hd.
    destruct o as [e|[d'|]]; [done| |done]. injection Hd as ->.
    apply journal_details in E as (before' & rq' & after' & b' & Hj' & Hlen & Hb' & ->).
    rewrite Hj, Hsplit in Hj'. apply app_inj_1 in Hj' as [<- [= <- <-]]; [|unfold len in Hlen; lia].
    rewrite Ho in Hb'. by rewrite (edits_fun _ _ _ Hb _ Hb').
  - intros d ->. by apply reading_checked.
Qed.

Lemma reading_weaken {X A} (view : X -> S) (m : T X A) (P Q : A -> Prop) :
  reading view m P -> (forall a, P a -> Q a) -> reading view m Q.
Proof. intros Hm HPQ s Hs. destruct (Hm s Hs) as [Hk Hp]. split; [done|]. intros a Ha. by apply HPQ, Hp. Qed.

Lemma reading_collect after : forall before b, rqs = before ++ after -> edits start before b ->
  edits b after now ->
  reading srv (collect_loop sessionId (length after) (1 + len before))
    (fun r => r.2 = [] -> entries_for (1 + len before) b after r.1).
Proof.
  induction after as [|rq after IH]; intros before b Hsplit Hb Hrest; [apply reading_ret; intros _; constructor|].
  inversion Hrest as [|b0 rq0 rqs0 b2 Hr Hd Hes]; subst b0 rq0 rqs0 b2.
  assert (Hstep : edits start (before ++ [rq]) (apply_request rq b)).
  { eapply edits_app; [exact Hb|]. constructor; [done|done|constructor]. }
  assert (Hnext : 1 + len before + 1 = 1 + len (before ++ [rq])) by (unfold len; rewrite length_app; cbn; lia).
  specialize (IH (before ++ [rq]) (apply_request rq b)). rewrite <- app_assoc in IH. specialize (IH Hsplit Hstep Hes).
  rewrite <- Hnext in IH. intros s Hs. cbn [collect_loop length].
  destruct (reading_entry before rq after b Hsplit Hb s Hs) as [Hk He].
  destruct (collect_entry sessionId (1 + len before) s) as [s1 [error|e]]; cbn in Hk, He.
  - destruct (isMissingChangeDetailsError error); [|by split]. revert s1 Hk.
    eapply reading_bind; [exact IH|]. intros r _. by apply reading_ret.
  - specialize (He e eq_refl). revert s1 Hk.
    eapply reading_bind; [exact IH|]. intros r Hes'. apply reading_ret. cbn. intros Hnil. constructor; auto.
Qed.

Lemma reading_stable n fp : reading srv (assertChangeLogExportStable sessionId n fp) (fun _ => True).
Proof.
  eapply reading_bind; [apply reading_count|]. intros m _. destruct (negb _); [apply reading_throw|].
  eapply reading_bind; [by apply reading_fingerprint|]. intros actual _.
  eapply (reading_bind _ _ _ (fun _ => True)); [by apply reading_checked|]. intros [|] _; [by apply reading_ret|apply reading_throw].
Qed.

(** What a successful export returns. *)
Definition exported (r : ChangeLogResult) : Prop :=
  exists before after es es1 es2,
    fingerprint_of start CHANGE_LOG_DEFAULT_DIGEST_ALGORITHM CHANGE_LOG_DEFAULT_DIGEST_PLUGIN_ID before /\
    fingerprint_of now (d_algorithm (fp_digest before)) (d_pluginId (fp_digest before)) after /\
    entries_for 1 start rqs es /\ result_map serializeChangeLogEntry es = Ok es1 /\
    result_map serializeChangeLogEntry es1 = Ok es2 /\
    r = mkChangeLogResult (mkHeader true before after (decimal_string (len es1)) (decimal_string (len rqs))
          (decimal_string 0) []) es2.

Lemma reading_export (running : T S unit) optimize :
  edits start rqs now -> (forall x, recorded x (running x).1) ->
  reading srv (exportChangeLog sessionId running optimize) exported.
Proof.
  intros Hmade Hrun. unfold exportChangeLog. eapply (reading_bind _ _ _ (fun _ => True)).
  { apply reading_call. intros s Hs. split; [by eapply knows_recorded|done]. }
  intros _ _. eapply reading_bind; [apply reading_model|]. intros _ _. destruct optimize; [apply reading_throw|].
  eapply reading_bind; [by apply reading_fingerprint|]. intros before Hbefore.
  eapply reading_bind; [apply reading_count|]. intros n ->.
  eapply reading_bind; [by apply reading_fingerprint|]. intros after Hafter.
  eapply reading_bind.
  { unfold collectChangeLogEntries, len. rewrite Nat2Z.id.
    apply (reading_collect rqs [] start eq_refl); [constructor|exact Hmade]. }
  intros [es un] Hes. eapply (reading_bind _ _ _ (fun _ => un = [])).
  { apply reading_checked. by destruct un. }
  intros _ Hun. subst un. specialize (Hes eq_refl). eapply reading_bind; [apply reading_stable|]. intros _ _.
  eapply reading_bind; [apply reading_checked; intros d Hd; exact Hd|]. intros document Hd.
  apply reading_checked. intros r Hr. unfold createChangeLogSummary, createChangeLogDocument in *.
  cbn [fst snd] in *. destruct (result_map serializeChangeLogEntry es) as [es1|] eqn:E1; [|done]. injection Hd as <-.
  cbn [mbind result_bind lr_changes lr_header h_before h_after] in Hr.
  destruct (result_map serializeChangeLogEntry es1) as [es2|] eqn:E2; [|done]. injection Hr as <-.
  exists before, after, es, es1, es2. split_and!; done.
Qed.
End Reading.

(** *** The log that is read back *)

Lemma header_fields o count limits h : normalizeChangeLogHeader o count limits = Ok h ->
  get (js "complete") o = JBool (h_complete h) /\
  normalizeChangeLogFingerprint (get (js "before") o) = Ok (h_before h) /\
  normalizeChangeLogFingerprint (get (js "after") o) = Ok (h_after h).
Proof.
  unfold normalizeChangeLogHeader, mbind, result_bind, require. intros Hh.
  destruct (bool_decide _); [|done]. destruct (is_version _); [|done].
  destruct (get (js "complete") o) as [| |b| | | | |]; try done.
  repeat match type of Hh with context [match ?r with Ok _ => _ | Throw _ => _ end] =>
    destruct r eqn:?; [|done] end.
  apply Ok_inj in Hh as <-. done.
Qed.

Lemma document_header `{JsonRuntime} o overrides aborted scan es :
  normalizeChangeLogDocument (JObject o) overrides aborted = Ok (scan, es) ->
  exists count limits, normalizeChangeLogHeader o count limits = Ok (sc_header scan).
Proof.
  unfold normalizeChangeLogDocument, mbind, result_bind. intros Hd.
  destruct (throwIfChangeLogCancelled _); [|done].
  destruct (resolveChangeLogCodecLimits overrides) as [limits|]; [|done].
  destruct (validateChangeLogJsonValue limits 0 _); [|done]. cbn [as_record] in Hd.
  destruct (as_array _) as [changes|]; [|done].
  destruct (document_loop limits aborted 0 changes new_accumulator) as [[es' acc]|]; [|done].
  destruct (accumulator_finish limits o acc) as [scan'|] eqn:Ef; [|done]. apply Ok_inj in Hd as [= <- <-].
  unfold accumulator_finish, mbind, result_bind in Ef.
  destruct (normalizeChangeLogHeader o _ limits) as [h|] eqn:Eh; [|done]. apply Ok_inj in Ef as <-. eauto.
Qed.

(** The fingerprint that is written for [b]. *)
Definition written_fingerprint `{SessionDigest} (b : bytes) : NormalizedChangeLogFingerprint :=
  mkFingerprint (decimal_string (len b))
    (mkDigest CHANGE_LOG_DEFAULT_DIGEST_PLUGIN_ID CHANGE_LOG_DEFAULT_DIGEST_ALGORITHM (log_digest b)).

Lemma decimal_number z : 0 <= z <= MAX_SAFE_INTEGER -> int64ToDecimal (JNumber (NInt z)) = Ok (decimal_string z).
Proof.
  intros Hz. unfold int64ToDecimal, parseNonNegativeInt64. rewrite (proj2 (safeZ_spec z)) by lia.
  cbn [mbind result_bind]. destruct (Z.ltb_spec z 0); [lia|].
  destruct (Z.ltb_spec MAX_INT64 z); [unfold MAX_SAFE_INTEGER, MAX_INT64 in *; lia|done].
Qed.

Lemma decimal_again z : 0 <= z <= MAX_SAFE_INTEGER ->
  int64ToDecimal (JString (decimal_string z)) = Ok (decimal_string z).
Proof.
  intros Hz. destruct (decimal_string_spec z) as [Hv Hc]; [unfold MAX_SAFE_INTEGER in Hz; lia|].
  unfold int64ToDecimal, parseNonNegativeInt64. rewrite Hc, Hv. cbn [mbind result_bind].
  destruct (Z.ltb_spec z 0); [lia|].
  destruct (Z.ltb_spec MAX_INT64 z); [unfold MAX_SAFE_INTEGER, MAX_INT64 in *; lia|done].
Qed.

Lemma fingerprint_written `{SessionDigest} b fp : len b <= MAX_SAFE_INTEGER ->
  decimal_fingerprint (len b) (digest_with b CHANGE_LOG_DEFAULT_DIGEST_ALGORITHM CHANGE_LOG_DEFAULT_DIGEST_PLUGIN_ID)
    CHANGE_LOG_DEFAULT_DIGEST_PLUGIN_ID = Ok fp -> fp = written_fingerprint b.
Proof.
  intros Hb. unfold decimal_fingerprint. rewrite decimal_number by (pose proof (len_nonneg b); lia).
  cbn [mbind result_bind digest_with cd_algorithm cd_value]. intros [= <-].
  by rewrite (toLowerCase_id (session_digest _ _ b)) by apply digest_hex.
Qed.

Lemma lower_hex_not_space c : is_lower_hex c = true -> is_js_space c = false.
Proof.
  unfold is_lower_hex, is_js_space, in_range. rewrite orb_true_iff, !andb_true_iff, !Z.leb_le. intros Hc.
  repeat (apply orb_false_iff; split); try (apply Z.eqb_neq; lia); apply andb_false_iff; rewrite !Z.leb_gt; lia.
Qed.

Lemma normalize_fingerprint_object f fp :
  normalizeChangeLogFingerprint (fingerprint_object f) = Ok fp ->
  exists n, parseChangeLogNonNegativeInt64 (JString (fp_byteLength f)) = Ok n /\
    fp = mkFingerprint (decimal_string n) (mkDigest (trim (d_pluginId (fp_digest f)))
      (toLowerCase (trim (d_algorithm (fp_digest f)))) (toLowerCase (trim (d_value (fp_digest f))))).
Proof.
  intros H. change (
    (n ← parseChangeLogNonNegativeInt64 (JString (fp_byteLength f));
     let p := trim (d_pluginId (fp_digest f)) in
     let a := toLowerCase (trim (d_algorithm (fp_digest f))) in
     let v := toLowerCase (trim (d_value (fp_digest f))) in
     _ ← require (matches_all is_plugin_char CHANGE_LOG_DIGEST_PLUGIN_ID_MAX_LENGTH p) (codec_error "CHANGE_LOG_INVALID_FINGERPRINT");
     _ ← require (matches_all is_algorithm_char CHANGE_LOG_DIGEST_ALGORITHM_MAX_LENGTH a) (codec_error "CHANGE_LOG_INVALID_FINGERPRINT");
     _ ← require (matches_all is_lower_hex CHANGE_LOG_DIGEST_VALUE_MAX_LENGTH v) (codec_error "CHANGE_LOG_INVALID_FINGERPRINT");
     Ok (mkFingerprint (decimal_string n) (mkDigest p a v))) = Ok fp) in H.
  cbv zeta in H. ok_inv. subst. eauto.
Qed.

Lemma written_normal `{SessionDigest} b fp : len b <= MAX_SAFE_INTEGER ->
  normalizeChangeLogFingerprint (fingerprint_object (written_fingerprint b)) = Ok fp -> fp = written_fingerprint b.
Proof.
  intros Hb Hfp. apply normalize_fingerprint_object in Hfp as (n & Hn & ->).
  cbn [written_fingerprint fp_byteLength fp_digest d_pluginId d_algorithm d_value] in *.
  rewrite parse_int64_decimal in Hn by (pose proof (len_nonneg b); unfold MAX_SAFE_INTEGER, MAX_INT64 in *; lia).
  injection Hn as <-. unfold log_digest. rewrite (trim_id (session_digest _ _ b)), (toLowerCase_id (session_digest _ _ b)).
  - reflexivity.
  - apply digest_hex.
  - intros c Hc. pose proof (digest_hex CHANGE_LOG_DEFAULT_DIGEST_ALGORITHM CHANGE_LOG_DEFAULT_DIGEST_PLUGIN_ID b) as Hh. rewrite forallb_forall in Hh. by apply lower_hex_not_space, Hh.
Qed.

(** A server that computes the digest of the log alike finds what was
    written. *)
Lemma written_describes `{SessionDigest} {Srv : Type} `{ReplayServerLaws Srv sessionId} b :
  len b <= MAX_SAFE_INTEGER ->
  digest_of b CHANGE_LOG_DEFAULT_DIGEST_ALGORITHM CHANGE_LOG_DEFAULT_DIGEST_PLUGIN_ID =
    digest_with b CHANGE_LOG_DEFAULT_DIGEST_ALGORITHM CHANGE_LOG_DEFAULT_DIGEST_PLUGIN_ID ->
  describes sessionId (written_fingerprint b) b.
Proof.
  intros Hb Hdig. split; [done|]. exists (written_fingerprint b).
  pose proof (len_nonneg b). split.
  - cbn [written_fingerprint fp_digest d_algorithm d_pluginId]. rewrite Hdig. unfold decimal_fingerprint. rewrite decimal_number by lia.
    cbn [mbind result_bind written_fingerprint digest_with cd_algorithm cd_value fp_digest d_algorithm d_pluginId].
    by rewrite (toLowerCase_id (session_digest _ _ b)) by apply digest_hex.
  - unfold fingerprintsMatch, written_fingerprint. cbn [fp_byteLength fp_digest d_pluginId d_algorithm d_value].
    rewrite !decimal_again by lia. cbn [mbind result_bind]. by rewrite !bool_decide_true.
Qed.

Lemma no_summaries es : forall i, Forall (fun x => n_kind x <> KTRANSFORM) es -> summaries i es = [].
Proof.
  intros i Hes. revert i. induction Hes as [|x es Hx _ IH]; intros i; [done|]. cbn.
  unfold summary_of. rewrite IH. by destruct (n_kind x), (n_transformDescriptor x).
Qed.

(** ** From one session to another *)

Section Transfer.
Context `{SessionDigest} `{JsonRuntime}.
Context {S : Type} (sessionId : jsstring) `{!EditBackend S} `{!Transport S} `{!Journal S sessionId}.
Context {S' : Type} (sessionId' : jsstring) `{!EditBackend S'} `{!EditBackendLaws S'} `{!Transport S'}
  `{!ReplayServerLaws S' sessionId'}.

(** C9 A change log that was exported from one session turns another session
    with the same original content into the same content.  The session that
    is exported has been edited without transforms, and all of its changes
    are in its journal, as [Journal] says; both servers compute the digest
    that a log is exported with, of the default algorithm and plugin, alike;
    and the server of the replay answers, as [ReplayServerLaws] says.  Then,
    when the export returns and the codec accepts it, replaying it applies
    every change of the journal, and the session that was exported is as it
    was.  The exporting server may fail to answer or have lost details; then
    the export does not return. *)
Theorem export_then_apply (running : T S unit) optimize s s1 r overrides aborted scan es
    (running' : T S' unit) (t : replaying S') :
  (forall x, recorded x (running x).1) ->
  (forall x, alive x -> running' x = (x, inr tt)) ->
  (forall b, digest_of b CHANGE_LOG_DEFAULT_DIGEST_ALGORITHM CHANGE_LOG_DEFAULT_DIGEST_PLUGIN_ID =
     digest_with b CHANGE_LOG_DEFAULT_DIGEST_ALGORITHM CHANGE_LOG_DEFAULT_DIGEST_PLUGIN_ID) ->
  exportChangeLog sessionId running optimize s = (s1, inr r) ->
  normalizeChangeLogDocument (JObject (result_object r)) overrides aborted = Ok (scan, es) ->
  alive (srv t) -> content (srv t) = original (srv s) ->
  exists t' r', applyChangeLog sessionId' running' (Ok (parsed_document (scan, es))) false t
      = (t', inr (Replayed r')) /\
    ar_applied r' = true /\ ar_appliedCount r' = len (journal (srv s)) /\
    content (srv t') = content (srv s) /\ content (srv s1) = content (srv s).
Proof.
  intros Hrun Hrun' Hdig Hexp Hdoc Ht Horig.
  destruct (reading_export sessionId _ _ _ running optimize (journal_made (srv s)) Hrun s ltac:(done)) as [Hk Hr].
  rewrite Hexp in Hk, Hr. destruct (Hr r eq_refl) as (before & after & les & les1 & les2 & [Hb0 Hbefore] &
    [Hb1 Hafter] & Hes & H1 & H2 & ->).
  apply fingerprint_written in Hbefore as ->; [|done]. apply fingerprint_written in Hafter as ->; [|done].
  destruct (document_header _ _ _ _ _ Hdoc) as (count & lim & Hh).
  destruct (header_fields _ _ _ _ Hh) as (Hc & Hf0 & Hf1).
  apply written_normal in Hf0; [|done]. apply written_normal in Hf1; [|done].
  apply document_sound in Hdoc as (limits & o & changes & _ & [= <-] & [= <-] & Hxs & Hcons).
  destruct (replays_edits limits _ _ _ (journal_made (srv s)) 1 _ _ _ _ Hes H1 H2 Hxs) as (Hre & Hlen & Hkinds).
  assert (Hserials : h_unavailableChangeSerials (sc_header scan) = []).
  { apply (ch_complete _ _ (cs_header _ _ _ Hcons)). by injection Hc as <-. }
  assert (Hplugins : sc_requiredPlugins scan = []).
  { destruct (sc_requiredPlugins scan) as [|p l] eqn:El; [done|]. exfalso.
    destruct (proj1 (cs_plugins _ _ _ Hcons p)) as (d & Hd & _); [rewrite El; left|].
    rewrite (cs_transforms _ _ _ Hcons), no_summaries in Hd by done. by apply not_elem_of_nil in Hd. }
  destruct (log_applied sessionId' running' (parsed_document (scan, es)) es t (content (srv s)))
    as (t' & r' & E & Happ & Hn & Hc' & _); cbn [parsed_document pl_scan pl_entries fst snd]; try done.
  - change (content (server (rw_world t))) with (content (srv t)). rewrite Hf0, Horig. by apply written_describes.
  - rewrite Hf1. by apply written_describes.
  - change (content (server (rw_world t))) with (content (srv t)). by rewrite Horig.
  - exists t', r'. split; [exact E|]. split; [done|]. split; [by rewrite Hn, Hlen|]. split; [done|].
    apply Hk.
Qed.
End Transfer.

(** A server with a session that has been edited. *)
Module JournalServer.

#[global] Instance hex_digest : SessionDigest.
Proof.
  refine {| session_digest := spelled_value |}. intros algorithm plugin b. unfold spelled_value.
  set (l := if bool_decide _ then _ else _). by destruct (normalizeHex_inv _ _ (hex_normal l)) as (_ & _ & _ & _ & Hf).
Defined.

Record t := mk {
  before_edits : bytes;
  submitted : list SubmitChangeRequest;
  after_edits : bytes;
  made : edits before_edits submitted after_edits
}.

(** The details of the change [k] places after [serial]. *)
Fixpoint details_at (k : nat) (serial : Z) (b : bytes) (rqs : list SubmitChangeRequest) : option ChangeDetails :=
  match rqs, k with
  | [], _ => None
  | rq :: _, O => Some (details_of serial rq b)
  | rq :: rqs, S k => details_at k (serial + 1) (apply_request rq b) rqs
  end.

#[global] Instance backend : EditBackend t := {
  content := after_edits;
  rpc_submitChange rq s := (s, RpcReply 0);
  rpc_undo s := (s, RpcEmpty);
  rpc_redo s := (s, RpcEmpty);
  rpc_clear s := (s, RpcEmpty);
  rpc_bracket b s := (s, Ok tt)
}.

Definition not_found : js_error := JsError "Error" (js "5 NOT_FOUND") (Some 5) None.

Definition answer {R} (rq : rpc R) (s : t) : outcome R :=
  match rq in rpc R return outcome R with
  | CheckSessionModel id => CallReplied (Some (mkCheckModel id true (NInt 0)))
  | GetSessionFingerprint id which algorithm plugin =>
      spelled_response (match which with FP_ORIGINAL => before_edits s | _ => after_edits s end) id which algorithm plugin
  | GetCount _ kinds => CallReplied (Some (map (fun k => mkSingleCount k (NInt (len (submitted s)))) kinds))
  | GetChangeDetails _ serial =>
      if serial <=? 0 then CallFailed not_found
      else match details_at (Z.to_nat (serial - 1)) 1 (before_edits s) (submitted s) with
           | Some details => CallReplied (Some details)
           | None => CallFailed not_found
           end
  | _ => CallFailed BufferWire.unavailable
  end.

#[global] Instance transport : Transport t := {
  get_client s := (s, inr tt);
  call_unary R rq s := (s, answer rq s)
}.

Lemma details_at_spec rqs : forall k serial b b' details, edits b rqs b' ->
  details_at k serial b rqs = Some details ->
  exists before rq after b1, rqs = before ++ rq :: after /\ length before = k /\
    edits b before b1 /\ details = details_of (serial + len before) rq b1.
Proof.
  induction rqs as [|rq rqs IH]; intros k serial b b' details Hb Hd; [by destruct k|].
  inversion Hb as [|b0 rq0 rqs0 b2 Hr Hbytes Hes]; subst b0 rq0 rqs0 b2. destruct k as [|k].
  - exists [], rq, rqs, b. injection Hd as <-. split_and!; [done|done|constructor|]. cbn. by rewrite Z.add_0_r.
  - destruct (IH k _ _ _ _ Hes Hd) as (before & rq1 & after & b1 & -> & Hl & He & ->).
    exists (rq :: before), rq1, after, b1. split_and!; [done|cbn; by rewrite Hl|by constructor|].
    f_equal. unfold len. cbn [length]. lia.
Qed.

#[global] Instance journal_laws sessionId : Journal t sessionId.
Proof.
  refine {| original := before_edits; journal := submitted |}.
  - apply made.
  - done.
  - done.
  - by intros s s' counts [= <- <-].
  - intros s s' serial details [= <- Hd]. cbn in Hd. destruct (Z.leb_spec serial 0); [done|].
    destruct (details_at _ _ _ _) as [d|] eqn:E; [|done]. injection Hd as <-.
    destruct (details_at_spec _ _ _ _ _ _ (made s) E) as (before & rq & after & b & -> & Hl & He & ->).
    exists before, rq, after, b. assert (serial = 1 + len before) as -> by (unfold len; lia). done.
  - intros s s' which algorithm plugin r Hw [= <- Hr]. subst r. by destruct which.
Defined.

End JournalServer.

Definition example_requests : list SubmitChangeRequest :=
  [mkRequest CHANGE_INSERT 1 2 (Some [7; 8]); mkRequest CHANGE_DELETE 0 1 None;
   mkRequest CHANGE_OVERWRITE 2 1 (Some [255])].

Lemma example_made : edits [1; 2; 3] example_requests [7; 8; 255; 3].
Proof.
  apply edits_cons; [split; [done|]; exists [7; 8]; by vm_compute|by repeat constructor|].
  apply edits_cons; [split; [done|]; by vm_compute|constructor|].
  apply edits_cons; [split; [done|]; exists [255]; by vm_compute|by repeat constructor|].
  apply edits_nil.
Qed.

Definition example_session : replaying JournalServer.t :=
  mkReplaying (mkWorld (JournalServer.mk [1; 2; 3] example_requests [7; 8; 255; 3] example_made) new_stats) 0.

Lemma example_export :
  exists s1 r, exportChangeLog (H1 := no_json) (js "s") (retT tt) false example_session = (s1, inr r) /\
  exists scan es, @normalizeChangeLogDocument no_json (JObject (result_object r)) (fun _ => None) (fun _ => false)
    = Ok (scan, es).
Proof.
  eexists _, _. split; [vm_compute; reflexivity|]. eexists _, _. vm_compute. reflexivity.
Qed.

Lemma export_then_apply_witness :
  exists r scan es t' r',
    @normalizeChangeLogDocument no_json (JObject (result_object r)) (fun _ => None) (fun _ => false)
      = Ok (scan, es) /\
    @applyChangeLog _ _ BufferReplay.transport (js "t") (retT tt) (Ok (parsed_document (scan, es))) false
      (mkReplaying (BufferServer.init [1; 2; 3] []) 0) = (t', inr (Replayed r')) /\
    ar_appliedCount r' = 3 /\ BufferServer.buf (server (rw_world t')) = [7; 8; 255; 3].
Proof.
  destruct example_export as (s1 & r & E & scan & es & Hd). exists r, scan, es.
  destruct (@export_then_apply JournalServer.hex_digest no_json JournalServer.t (js "s") _ _ _
    BufferServer.t (js "t") _ _ BufferReplay.transport (BufferReplay.laws (js "t")) (retT tt) false
    example_session s1 r (fun _ => None) (fun _ => false) scan es (retT tt)
    (mkReplaying (BufferServer.init [1; 2; 3] []) 0)) as (t' & r' & Happly & _ & Hn & Hc & _).
  - intros x. split_and!; reflexivity.
  - intros x _. reflexivity.
  - intros b. reflexivity.
  - exact E.
  - exact Hd.
  - split; [constructor|]. vm_compute. split; discriminate.
  - reflexivity.
  - exists t', r'. split; [exact Hd|]. split; [exact Happly|]. split; [exact Hn|exact Hc].
Defined.

(** ** Options in any order *)

Lemma js_leb_antisym s : forall t, js_leb s t = true -> js_leb t s = true -> s = t.
Proof.
  induction s as [|a s IH]; intros [|b t]; cbn; try done.
  destruct (Z.ltb_spec a b), (Z.ltb_spec b a), (Z.eqb_spec a b), (Z.eqb_spec b a); cbn; try done; try lia.
  intros H1 H2. f_equal; [done|by apply IH].
Qed.

Lemma js_leb_trans s : forall t u, js_leb s t = true -> js_leb t u = true -> js_leb s u = true.
Proof.
  induction s as [|a s IH]; intros [|b t] [|c u]; cbn; try done.
  destruct (Z.ltb_spec a b), (Z.ltb_spec b c), (Z.ltb_spec a c), (Z.eqb_spec a b), (Z.eqb_spec b c), (Z.eqb_spec a c);
    cbn; try done; try lia. apply IH.
Qed.

#[local] Instance key_le_trans : Transitive key_le.
Proof. intros p q r. apply js_leb_trans. Qed.
#[local] Instance key_le_total : Total key_le.
Proof. intros p q. destruct (total js_le p.1 q.1); [by left|by right]. Qed.

(** Properties with distinct names have one order. *)
Lemma sort_properties_unique (o o' : jsobject) : o ≡ₚ o' -> NoDup (map fst o) -> merge_sort key_le o = merge_sort key_le o'.
Proof.
  intros Hp Hnd. apply (StronglySorted_unique_strong key_le).
  - intros [k v] [k' v'] Hv Hv' H1 H2. rewrite merge_sort_Permutation in Hv. rewrite merge_sort_Permutation, <- Hp in Hv'.
    assert (k = k') as <- by (by apply js_leb_antisym). f_equal.
    apply list_elem_of_lookup in Hv as [i Hi], Hv' as [j Hj].
    assert (Hk : map fst o !! i = Some k) by (change (map fst o) with (fst <$> o); by rewrite list_lookup_fmap, Hi).
    assert (Hk' : map fst o !! j = Some k) by (change (map fst o) with (fst <$> o); by rewrite list_lookup_fmap, Hj).
    pose proof (NoDup_lookup _ _ _ _ Hnd Hk Hk') as <-. congruence.
  - apply StronglySorted_merge_sort; apply _.
  - apply StronglySorted_merge_sort; apply _.
  - by rewrite !merge_sort_Permutation.
Qed.

(** The same value but for the order of properties. *)
Inductive same_json : jsval -> jsval -> Prop :=
  | same_value v : same_json v v
  | same_array l l' : Forall2 same_json l l' -> same_json (JArray l) (JArray l')
  | same_object o o1 o' : o ≡ₚ o1 -> NoDup (map fst o) ->
      Forall2 (fun p q => p.1 = q.1 /\ same_json p.2 q.2) o1 o' -> same_json (JObject o) (JObject o').

Lemma same_normalized : forall v w, same_json v w -> normalizeJsonForComparison v = normalizeJsonForComparison w.
Proof.
  fix IH 3. intros v w [u|l l' Hl|o o1 o' Hp Hnd Ho]; [done| |]; cbn.
  - f_equal. revert l l' Hl. fix IHl 3. intros l l' [|x y xs ys Hx Hxs]; [done|]. cbn.
    f_equal; [by apply IH|by apply IHl].
  - assert (E : map (fun p : jsstring * jsval => (p.1, normalizeJsonForComparison p.2)) o1
      = map (fun p => (p.1, normalizeJsonForComparison p.2)) o').
    { clear Hp Hnd. revert o1 o' Ho. fix IHo 3. intros o1 o' [|x y xs ys [Hk Hx] Hxs]; [done|]. cbn.
      f_equal; [by rewrite Hk, (IH _ _ Hx)|by apply IHo]. }
    rewrite <- E. do 2 f_equal. apply sort_properties_unique.
    + by apply Permutation_map.
    + by rewrite map_map.
Qed.

(** Options that differ only in the order of their properties, at any
    depth, match. *)
Theorem options_compared_up_to_order `{JsonRuntime} left right :
  same_json (JObject left) (JObject right) -> jsonObjectsEqual left right = true.
Proof.
  intros Hs. unfold jsonObjectsEqual. by rewrite (same_normalized _ _ Hs), bool_decide_true.
Qed.

(** An option called [__proto__] is lost in the descriptor that is reported,
    although the plugin is given it. *)
Example proto_option_lost :
  canonicalizeTransformDescriptorValue (JObject [(js "__proto__", JNumber (NInt 1)); (js "b", JNull); (js "a", JNull)])
    = JObject [(js "a", JNull); (js "b", JNull)] /\
  normalizeJsonForComparison (JObject [(js "b", JNull); (js "10", JNull); (js "9", JNull)])
    = JObject [(js "9", JNull); (js "10", JNull); (js "b", JNull)].
Proof. split; vm_compute; reflexivity. Qed.

(** The options are read once more when the transform has been applied: if
    the server takes options that the toolkit cannot read, the caller gets an
    error for a session that has changed. *)
Theorem transform_applied_then_refused {S : Type} `{EditBackend S} `{Transport S} `{JsonRuntime} sessionId
    (running : T S unit) plugin o n options s s1 s2 response e :
  0 <= o <= MAX_SAFE_INTEGER -> 0 <= n <= MAX_SAFE_INTEGER -> plugin <> [] ->
  via_call running s = (s1, inr tt) ->
  via_call (client_applyTransformPlugin sessionId plugin (NInt o) (NInt n) options false) s1 = (s2, inr response) ->
  parseTransformOptionsJson options "transform options" = Throw e ->
  applyTransformPlugin sessionId running plugin (NInt o) (NInt n) options false s = (s2, inl (js_error_of e)).
Proof.
  intros Ho Hn Hp Hrun Hcall He. unfold applyTransformPlugin, bindT, checkedT, liftT.
  assert (Hz : forall z, 0 <= z <= MAX_SAFE_INTEGER -> assertNonNegativeInteger (NInt z) = Ok z).
  { intros z Hz. unfold assertNonNegativeInteger. destruct (Z.ltb_spec z 0); [lia|done]. }
  rewrite !Hz by done. cbv iota beta. destruct plugin as [|c plugin]; [done|]. cbn [length Nat.eqb].
  rewrite Hrun, Hcall. unfold createTransformPrimitiveDescriptorResult. by rewrite He.
Qed.
