(* ===== verification/AiTools.v ===== *)
(** * The tools of the assistant ([packages/ai/src/mcp.ts], [cli.ts])

    The MCP server and the command line turn what an assistant wrote, JSON
    arguments or options, into calls of the toolkit.  [tool_request] is such a
    call; [tool_arguments] and [runCommand] are the two ways to one.
    [run_file] is the one-shot tool, which runs a pipeline in a session that
    is always destroyed.

    The toolkit is the class [Toolkit]: what a call does and returns.  Its
    operations are modelled in [AiToolkit], [AiReplay] and [AiExport]. *)

From S2P Require Import Prelude JsText JsValue EditDiff UnaryCalls SessionCalls AiToolkit.

Open Scope call_scope.

(** ** Calls of the toolkit *)

Inductive tool_request :=
  | CreateSession (filePath sessionId checkpointDirectory : jsstring)
  | DestroySession (sessionId : jsstring)
  | SessionStatus (sessionId : jsstring)
  | AssistantContext (sessionId : jsstring) (filePath : option jsstring)
  | CreateCheckpoint (sessionId : jsstring)
  | RollbackCheckpoint (sessionId : jsstring)
  | RestoreCheckpoint (sessionId : jsstring)
  | ExportChangeLog (sessionId : jsstring) (outputPath : option jsstring) (overwriteExisting optimize : bool)
  | PreviewChangeLog (sessionId : jsstring) (inputPath : option jsstring) (changes : option jsobject)
  | ApplyChangeLog (sessionId : jsstring) (inputPath : option jsstring) (changes : option jsobject) (dryRun : bool)
  | ReadRange (sessionId : jsstring) (offset length : Z)
  | ProfileRange (sessionId : jsstring) (offset length : Z)
  | Search (sessionId : jsstring) (pattern : bytes) (offset length limit : Z) (caseInsensitive reverse : bool)
  | ReplaceSession (sessionId : jsstring) (pattern replacement : bytes) (offset length limit : Z)
      (caseInsensitive reverse : bool) (frontToBack : option bool) (overwriteOnly : bool)
  | ListTransformPlugins
  | ApplyTransformPlugin (sessionId pluginId : jsstring) (offset length : Z) (optionsJson : option jsstring)
  | PreviewPatch (sessionId : jsstring) (request : PatchRequest)
  | ApplyPatch (sessionId : jsstring) (request : PatchRequest)
  | UndoCall (sessionId : jsstring)
  | RedoCall (sessionId : jsstring)
  | SaveSession (sessionId outputPath : jsstring) (overwriteExisting : bool)
  | ExportRange (sessionId : jsstring) (offset length : Z) (outputPath : jsstring) (overwriteExisting : bool)
  | ServerInfo
  | StartServer
  | StopServer.

(** ** Arguments *)

(** A value that is not an object is an empty one. *)
Definition asObject (value : jsval) : jsobject := default [] (as_record value).

Definition is_missing (v : jsval) : bool := match v with JUndefined | JNull => true | _ => false end.

Definition getString (object : jsobject) (key : string) : result (option jsstring) :=
  match get (js key) object with
  | JUndefined | JNull => Ok None
  | JString s => Ok (Some s)
  | _ => Throw (plain_error (key ++ " must be a string")%string)
  end.

Definition requiredString (object : jsobject) (key : string) : result jsstring :=
  s ← getString object key;
  match s with Some s => Ok s | None => Throw (plain_error (key ++ " is required")%string) end.

Definition getBoolean (object : jsobject) (key : string) : result (option bool) :=
  match get (js key) object with
  | JUndefined => Ok None
  | JBool b => Ok (Some b)
  | _ => Throw (plain_error (key ++ " must be a boolean")%string)
  end.

Definition natural_number (key : string) (v : jsval) : result Z :=
  match v with
  | JNumber (NInt z) =>
      if z <? 0 then Throw (plain_error (key ++ " must be a non-negative integer")%string) else Ok z
  | _ => Throw (plain_error (key ++ " must be a non-negative integer")%string)
  end.

(** [defaultValue] or, without one, required. *)
Definition getNumber (object : jsobject) (key : string) (defaultValue : option Z) : result Z :=
  match get (js key) object, defaultValue with
  | (JUndefined | JNull), Some d => Ok d
  | (JUndefined | JNull), None => Throw (plain_error (key ++ " is required")%string)
  | v, _ => natural_number key v
  end.

Definition getChangeLogDocument (object : jsobject) (key : string) : result (option jsobject) :=
  match get (js key) object with
  | JUndefined => Ok None
  | JObject o => Ok (Some o)
  | _ => Throw (plain_error (key ++ " must be an object")%string)
  end.

(** The fields for text, hexadecimal and base64. *)
Record field_names := mkFields { f_text : string; f_hex : string; f_base64 : string }.

Section Tools.
Context `{BufferRuntime}.

Definition getNamedInputValue (o : jsobject) (fields : field_names) : result (option bytes) :=
  let given key := negb (is_undefined (get (js key) o)) in
  let read key encoding :=
    value ← requiredString o key; data ← parseInputData (inl value) encoding; Ok (Some data) in
  match given (f_text fields), given (f_hex fields), given (f_base64 fields) with
  | false, false, false => Ok None
  | true, false, false => read (f_text fields) Utf8
  | false, true, false => read (f_hex fields) Hex
  | false, false, true => read (f_base64 fields) Base64
  | _, _, _ => Throw (plain_error "Provide only one of text, hex, or base64")
  end.

Definition getInputValue (o : jsobject) : result (option bytes) :=
  getNamedInputValue o (mkFields "text" "hex" "base64").

Definition patch_kind_of (s : jsstring) : option PatchKind :=
  if bool_decide (s = js "insert") then Some PatchInsert
  else if bool_decide (s = js "overwrite") then Some PatchOverwrite
  else if bool_decide (s = js "delete") then Some PatchDelete
  else if bool_decide (s = js "replace") then Some PatchReplace
  else None.

(** An empty kind counts as none. *)
Definition inferPatchKind (explicitKind : option jsstring) (dataLength deleteLength : Z) : result PatchKind :=
  match explicitKind with
  | Some ((_ :: _) as kind) =>
      match patch_kind_of kind with
      | Some kind => Ok kind
      | None => Throw (plain_error "operation must be insert, overwrite, delete, or replace")
      end
  | _ =>
      if (0 <? deleteLength) && (0 <? dataLength) then Ok PatchReplace
      else if 0 <? deleteLength then Ok PatchDelete
      else if 0 <? dataLength then Ok PatchOverwrite
      else Throw (plain_error "Unable to infer operation; provide operation, patch data, or deleteLength")
  end.

Definition data_length (data : option bytes) : Z :=
  match data with Some d => Z.of_nat (length d) | None => 0 end.

Definition orb_option (b : option bool) : bool := default false b.

(** The arguments of the two patch tools. *)
Definition patch_arguments (o : jsobject) : result (jsstring * PatchRequest) :=
  data ← getInputValue o;
  deleteLength ← getNumber o "deleteLength" (Some 0);
  sessionId ← requiredString o "sessionId";
  operation ← getString o "operation";
  kind ← inferPatchKind operation (data_length data) deleteLength;
  offset ← getNumber o "offset" None;
  previewContext ← getNumber o "previewContext" (Some DEFAULT_PREVIEW_CONTEXT_BYTES);
  Ok (sessionId, mkPatchRequest kind (NInt offset) (Some (NInt deleteLength)) data (Some previewContext) false).

(** ** The tools *)

Inductive tool_name :=
  | create_session | destroy_session | session_status | session_context | create_checkpoint
  | rollback_checkpoint | restore_checkpoint | export_change_log | preview_change_log | apply_change_log
  | read_range | profile_range | search_tool | replace_session | list_transform_plugins
  | apply_transform_plugin | preview_patch | apply_patch | undo_tool | redo_tool | save_session
  | export_range | server_info.

Definition tools : list tool_name :=
  [create_session; destroy_session; session_status; session_context; create_checkpoint;
   rollback_checkpoint; restore_checkpoint; export_change_log; preview_change_log; apply_change_log;
   read_range; profile_range; search_tool; replace_session; list_transform_plugins;
   apply_transform_plugin; preview_patch; apply_patch; undo_tool; redo_tool; save_session;
   export_range; server_info].

Definition name_of (t : tool_name) : jsstring :=
  js "omega_edit_" ++ js match t with
  | create_session => "create_session" | destroy_session => "destroy_session"
  | session_status => "session_status" | session_context => "session_context"
  | create_checkpoint => "create_checkpoint" | rollback_checkpoint => "rollback_checkpoint"
  | restore_checkpoint => "restore_checkpoint" | export_change_log => "export_change_log"
  | preview_change_log => "preview_change_log" | apply_change_log => "apply_change_log"
  | read_range => "read_range" | profile_range => "profile_range" | search_tool => "search"
  | replace_session => "replace_session" | list_transform_plugins => "list_transform_plugins"
  | apply_transform_plugin => "apply_transform_plugin" | preview_patch => "preview_patch"
  | apply_patch => "apply_patch" | undo_tool => "undo" | redo_tool => "redo"
  | save_session => "save_session" | export_range => "export_range" | server_info => "server_info"
  end%string.

(** [new Map(tools.map(...)).get(name)] *)
Definition tool_named (name : jsstring) : option tool_name :=
  List.find (fun t => bool_decide (name_of t = name)) tools.

Definition flag (o : jsobject) (key : string) : result bool := b ← getBoolean o key; Ok (orb_option b).

(** [getString(...) || ''] *)
Definition string_or_none (o : jsobject) (key : string) : result jsstring := s ← getString o key; Ok (default [] s).

Definition on_session (o : jsobject) (request : jsstring -> tool_request) : result tool_request :=
  sessionId ← requiredString o "sessionId"; Ok (request sessionId).

Definition tool_arguments (t : tool_name) (o : jsobject) : result tool_request :=
  match t with
  | create_session =>
      filePath ← string_or_none o "filePath";
      sessionId ← string_or_none o "sessionId";
      checkpointDirectory ← string_or_none o "checkpointDirectory";
      Ok (CreateSession filePath sessionId checkpointDirectory)
  | destroy_session => on_session o DestroySession
  | session_status => on_session o SessionStatus
  | session_context =>
      sessionId ← requiredString o "sessionId";
      filePath ← getString o "filePath";
      Ok (AssistantContext sessionId filePath)
  | create_checkpoint => on_session o CreateCheckpoint
  | rollback_checkpoint => on_session o RollbackCheckpoint
  | restore_checkpoint => on_session o RestoreCheckpoint
  | export_change_log =>
      sessionId ← requiredString o "sessionId";
      outputPath ← getString o "outputPath";
      overwriteExisting ← flag o "overwriteExisting";
      optimize ← flag o "optimize";
      Ok (ExportChangeLog sessionId outputPath overwriteExisting optimize)
  | preview_change_log =>
      sessionId ← requiredString o "sessionId";
      inputPath ← getString o "inputPath";
      changes ← getChangeLogDocument o "changeLog";
      Ok (PreviewChangeLog sessionId inputPath changes)
  | apply_change_log =>
      sessionId ← requiredString o "sessionId";
      inputPath ← getString o "inputPath";
      changes ← getChangeLogDocument o "changeLog";
      dryRun ← flag o "dryRun";
      Ok (ApplyChangeLog sessionId inputPath changes dryRun)
  | read_range =>
      sessionId ← requiredString o "sessionId";
      offset ← getNumber o "offset" None;
      n ← getNumber o "length" None;
      Ok (ReadRange sessionId offset n)
  | profile_range =>
      sessionId ← requiredString o "sessionId";
      offset ← getNumber o "offset" None;
      n ← getNumber o "length" None;
      Ok (ProfileRange sessionId offset n)
  | search_tool =>
      data ← getInputValue o;
      match data with
      | None => Throw (plain_error "Search requires one of text, hex, or base64")
      | Some pattern =>
          sessionId ← requiredString o "sessionId";
          offset ← getNumber o "offset" (Some 0);
          n ← getNumber o "length" (Some 0);
          limit ← getNumber o "limit" (Some 100);
          caseInsensitive ← flag o "caseInsensitive";
          reverse ← flag o "reverse";
          Ok (Search sessionId pattern offset n limit caseInsensitive reverse)
      end
  | replace_session =>
      pattern ← getNamedInputValue o (mkFields "patternText" "patternHex" "patternBase64");
      replacement ← getNamedInputValue o (mkFields "replacementText" "replacementHex" "replacementBase64");
      match pattern, replacement with
      | None, _ => Throw (plain_error "Replace requires one of patternText, patternHex, or patternBase64")
      | _, None => Throw (plain_error "Replace requires one of replacementText, replacementHex, or replacementBase64")
      | Some pattern, Some replacement =>
          sessionId ← requiredString o "sessionId";
          offset ← getNumber o "offset" (Some 0);
          n ← getNumber o "length" (Some 0);
          limit ← getNumber o "limit" (Some 0);
          caseInsensitive ← flag o "caseInsensitive";
          reverse ← flag o "reverse";
          frontToBack ← getBoolean o "frontToBack";
          overwriteOnly ← flag o "overwriteOnly";
          Ok (ReplaceSession sessionId pattern replacement offset n limit caseInsensitive reverse frontToBack
                overwriteOnly)
      end
  | list_transform_plugins => Ok ListTransformPlugins
  | apply_transform_plugin =>
      sessionId ← requiredString o "sessionId";
      pluginId ← requiredString o "pluginId";
      offset ← getNumber o "offset" (Some 0);
      n ← getNumber o "length" (Some 0);
      optionsJson ← getString o "optionsJson";
      Ok (ApplyTransformPlugin sessionId pluginId offset n optionsJson)
  | preview_patch => '(sessionId, request) ← patch_arguments o; Ok (PreviewPatch sessionId request)
  | apply_patch => '(sessionId, request) ← patch_arguments o; Ok (ApplyPatch sessionId request)
  | undo_tool => on_session o UndoCall
  | redo_tool => on_session o RedoCall
  | save_session =>
      sessionId ← requiredString o "sessionId";
      outputPath ← requiredString o "outputPath";
      overwriteExisting ← flag o "overwriteExisting";
      Ok (SaveSession sessionId outputPath overwriteExisting)
  | export_range =>
      sessionId ← requiredString o "sessionId";
      offset ← getNumber o "offset" None;
      n ← getNumber o "length" None;
      outputPath ← requiredString o "outputPath";
      overwriteExisting ← flag o "overwriteExisting";
      Ok (ExportRange sessionId offset n outputPath overwriteExisting)
  | server_info => Ok ServerInfo
  end.

(** ** One-shot operations *)

Inductive one_shot_mutation := Never | Always | FromResult.

(** [oneShotMutation]; a tool without one is not for one-shot use. *)
Definition oneShotMutation (t : tool_name) : option one_shot_mutation :=
  match t with
  | session_status | session_context | export_change_log | preview_change_log | read_range | profile_range
  | search_tool | preview_patch | export_range => Some Never
  | apply_patch | undo_tool | redo_tool => Some Always
  | apply_change_log | replace_session | apply_transform_plugin => Some FromResult
  | _ => None
  end.

Definition is_positive (v : jsval) : bool :=
  match v with JNumber (NInt z) => 0 <? z | JNumber (NFrac n _) => 0 <? n | JNumber (NInf negative) => negb negative
  | _ => false end.

Definition is_true (v : jsval) : bool := match v with JBool b => b | _ => false end.

(** [oneShotDidMutate] *)
Definition oneShotDidMutate (t : tool_name) (result : jsobject) : bool :=
  match t with
  | apply_change_log => is_true (get (js "applied") result)
  | replace_session => is_positive (get (js "replacedCount") result)
  | apply_transform_plugin => is_true (get (js "contentChanged") result)
  | _ => false
  end.

Definition didMutate (t : tool_name) (result : jsobject) : bool :=
  match oneShotMutation t with
  | Some Always => true
  | Some FromResult => oneShotDidMutate t result
  | _ => false
  end.

Definition MAX_ONE_SHOT_OPERATIONS : Z := 16.

Record OneShotOperation := mkOperation { op_tool : jsstring; op_arguments : jsobject }.

Definition read_operation (operation : jsval) : result OneShotOperation :=
  match operation with
  | JObject o =>
      tool ← requiredString o "tool";
      match get (js "arguments") o with
      | JUndefined => Ok (mkOperation tool [])
      | JObject args =>
          if negb (is_undefined (get (js "sessionId") args))
          then Throw (plain_error "operation arguments must not provide sessionId")
          else Ok (mkOperation tool args)
      | _ => Throw (plain_error "operation arguments must be an object")
      end
  | _ => Throw (plain_error "operation must be an object")
  end.

Definition getOneShotOperations (o : jsobject) : result (list OneShotOperation) :=
  shorthandTool ← getString o "tool";
  value ← match shorthandTool with
          | Some ((_ :: _) as tool) =>
              if negb (is_undefined (get (js "operations") o))
              then Throw (plain_error "Provide tool or operations, not both")
              else Ok (JArray [JObject [(js "tool", JString tool); (js "arguments", get (js "arguments") o)]])
          | _ => Ok (get (js "operations") o)
          end;
  match value with
  | JArray ((_ :: _) as l) =>
      if MAX_ONE_SHOT_OPERATIONS <? Z.of_nat (length l)
      then Throw (plain_error "operations exceeds the maximum of 16")
      else result_map read_operation l
  | _ => Throw (plain_error "operations must be a non-empty array")
  end.

Fixpoint omitSessionIds (value : jsval) : jsval :=
  match value with
  | JArray l => JArray (map omitSessionIds l)
  | JObject o =>
      JObject (List.filter (fun p => negb (bool_decide (p.1 = js "sessionId")))
        (map (fun p => (p.1, omitSessionIds p.2)) o))
  | _ => value
  end.

(** [object[key] = v] *)
Fixpoint set_property (key : jsstring) (v : jsval) (o : jsobject) : jsobject :=
  match o with
  | [] => [(key, v)]
  | (k, x) :: o => if bool_decide (k = key) then (k, v) :: o else (k, x) :: set_property key v o
  end.
End Tools.

(** ** The one-shot tool *)

(** What the toolkit does; [tk_aborted] is [signal.aborted]. *)
Class Toolkit (W : Type) := {
  tk_call : tool_request -> T W jsobject;
  tk_create : jsstring -> T W (jsstring * jsstring);   (* the session and the path it was created for *)
  tk_save : jsstring -> jsstring -> bool -> T W jsobject;
  tk_destroy : jsstring -> T W unit;
  tk_aborted : W -> bool
}.

Definition fail {W A} (message : string) : T W A := throwT (new_error (js message)).

(** An empty path is none. *)
Definition truthy_path (p : option jsstring) : option jsstring :=
  match p with Some [] => None | _ => p end.

Record RunFileResult := mkRunFile {
  rf_mutated : bool;
  rf_output : option jsobject;
  rf_operations : list (jsstring * jsval)
}.

Definition persisted (r : RunFileResult) : bool := match rf_output r with Some _ => true | None => false end.
Definition discarded (r : RunFileResult) : bool := rf_mutated r && negb (persisted r).

Section RunFile.
Context `{BufferRuntime} {W : Type} `{Toolkit W}.

Definition run_tool (t : tool_name) (arguments : jsobject) : T W jsobject :=
  let+ request := checkedT (tool_arguments t arguments) in tk_call request.

Definition one_shot_tool (op : OneShotOperation) : result (tool_name * OneShotOperation) :=
  match tool_named (op_tool op) with
  | Some t =>
      match oneShotMutation t with
      | Some _ => Ok (t, op)
      | None => Throw (plain_error "operation tool is not available for one-shot use")
      end
  | None => Throw (plain_error "operation tool is not available for one-shot use")
  end.

Definition nested_arguments (sessionId filePath : jsstring) (t : tool_name) (op : OneShotOperation) : jsobject :=
  let o := set_property (js "sessionId") (JString sessionId) (op_arguments op) in
  match t with
  | session_context => set_property (js "filePath") (JString filePath) o
  | _ => o
  end.

(** The loop over the operations: whether one has changed the session, and
    the results. *)
Fixpoint run_operations (sessionId filePath : jsstring) (l : list (tool_name * OneShotOperation)) (mutated : bool)
  : T W (bool * list (jsstring * jsval)) :=
  match l with
  | [] => retT (mutated, [])
  | (t, op) :: l => fun s =>
      if tk_aborted s then fail "One-shot operation cancelled" s
      else
        (let+ result := run_tool t (nested_arguments sessionId filePath t op) in
         let+ rest := run_operations sessionId filePath l (mutated || didMutate t result) in
         retT (rest.1, (op_tool op, omitSessionIds (JObject result)) :: rest.2)) s
  end.

(** The [try] of [run]. *)
Definition run_in_session (sessionId filePath : jsstring) (outputPath : option jsstring)
    (overwriteExisting discardChanges : bool) (l : list (tool_name * OneShotOperation)) : T W RunFileResult :=
  let+ done := run_operations sessionId filePath l false in
  let '(mutated, results) := done in
  let output := truthy_path outputPath in
  match mutated, output with
  | true, None =>
      if discardChanges then retT (mkRunFile true None results)
      else fail "outputPath is required because a one-shot operation changed file content"
  | true, Some path =>
      let+ saved := tk_save sessionId path overwriteExisting in
      retT (mkRunFile true (Some saved) results)
  | false, _ => retT (mkRunFile false None results)
  end.

Definition both_failed (operation cleanup : js_error) : js_error :=
  new_error (js "One-shot operation failed (" ++ err_message operation ++
    js ") and its ephemeral session could not be destroyed (" ++ err_message cleanup ++ js ")").

(** [try { ... } finally { destroySession }] *)
Definition destroying {A} (sessionId : jsstring) (m : T W A) : T W A := fun s =>
  let '(s, r) := m s in
  match tk_destroy sessionId s with
  | (s, inr _) => (s, r)
  | (s, inl cleanup) =>
      (s, inl match r with inl operation => both_failed operation cleanup | inr _ => cleanup end)
  end.

Record run_file_plan := mkPlan {
  pl_filePath : jsstring;
  pl_outputPath : option jsstring;
  pl_overwriteExisting : bool;
  pl_discardChanges : bool;
  pl_operations : list (tool_name * OneShotOperation)
}.

(** What [run] checks before it creates the session. *)
Definition run_file_plan_of (o : jsobject) : result run_file_plan :=
  filePath ← requiredString o "filePath";
  _ ← require (negb (length filePath =? 0)%nat) (plain_error "filePath must not be empty");
  outputPath ← getString o "outputPath";
  overwriteExisting ← flag o "overwriteExisting";
  discardChanges ← flag o "discardChanges";
  let output := truthy_path outputPath in
  _ ← require (negb (bool_decide (is_Some output) && discardChanges))
    (plain_error "Provide outputPath or discardChanges, not both");
  operations ← getOneShotOperations o;
  resolved ← result_map one_shot_tool operations;
  _ ← require (bool_decide (is_Some output) || discardChanges ||
      negb (existsb (fun p => match oneShotMutation p.1 with Some Always => true | _ => false end) resolved))
    (plain_error "outputPath is required when a one-shot pipeline contains mutating operations");
  Ok (mkPlan filePath outputPath overwriteExisting discardChanges resolved).

Definition run_file (o : jsobject) : T W RunFileResult :=
  let+ plan := checkedT (run_file_plan_of o) in
  let+ created := tk_create (pl_filePath plan) in
  let '(sessionId, filePath) := created in
  destroying sessionId (run_in_session sessionId filePath (pl_outputPath plan) (pl_overwriteExisting plan)
    (pl_discardChanges plan) (pl_operations plan)).
End RunFile.

(** ** What the one-shot tool asks of the toolkit *)

Inductive tk_event :=
  | ECall (request : tool_request)
  | ECreate (path : jsstring)
  | ESave (sessionId path : jsstring) (overwriteExisting : bool)
  | EDestroy (sessionId : jsstring).

(** A toolkit that also writes down what it is asked. *)
Definition logged (W : Type) : Type := W * list tk_event.

Definition noting {W A} (e : tk_event) (m : T W A) : T (logged W) A := fun s =>
  let '(w, r) := m s.1 in ((w, s.2 ++ [e]), r).

Definition logging (W : Type) `{Toolkit W} : Toolkit (logged W) := {|
  tk_call request := noting (ECall request) (tk_call request);
  tk_create path := noting (ECreate path) (tk_create path);
  tk_save id path overwrite := noting (ESave id path overwrite) (tk_save id path overwrite);
  tk_destroy id := noting (EDestroy id) (tk_destroy id);
  tk_aborted s := tk_aborted s.1
|}.

(** The session a call is about. *)
Definition session_of (request : tool_request) : option jsstring :=
  match request with
  | DestroySession s | SessionStatus s | AssistantContext s _ | CreateCheckpoint s | RollbackCheckpoint s
  | RestoreCheckpoint s | ExportChangeLog s _ _ _ | PreviewChangeLog s _ _ | ApplyChangeLog s _ _ _
  | ReadRange s _ _ | ProfileRange s _ _ | Search s _ _ _ _ _ _ | ReplaceSession s _ _ _ _ _ _ _ _ _
  | ApplyTransformPlugin s _ _ _ _ | PreviewPatch s _ | ApplyPatch s _ | UndoCall s | RedoCall s
  | SaveSession s _ _ | ExportRange s _ _ _ _ => Some s
  | CreateSession _ _ _ | ListTransformPlugins | ServerInfo | StartServer | StopServer => None
  end.

Lemma get_set key v o : get key (set_property key v o) = v.
Proof.
  induction o as [|[k x] o IH]; cbn; [by rewrite bool_decide_true|].
  case_bool_decide; cbn; [by rewrite bool_decide_true|by rewrite bool_decide_false].
Qed.

Lemma get_set_other key key' v o : key <> key' -> get key (set_property key' v o) = get key o.
Proof.
  intros Hne. induction o as [|[k x] o IH]; cbn; [by rewrite bool_decide_false|].
  case_bool_decide as E; cbn; [subst k; by rewrite !bool_decide_false|]. by rewrite IH.
Qed.

Lemma nested_session id filePath t op : get (js "sessionId") (nested_arguments id filePath t op) = JString id.
Proof.
  unfold nested_arguments. destruct t; rewrite ?get_set; try done.
  rewrite get_set_other by done. apply get_set.
Qed.

Lemma session_required o id : get (js "sessionId") o = JString id -> requiredString o "sessionId" = Ok id.
Proof. intros Hg. unfold requiredString, getString. by rewrite Hg. Qed.

Lemma one_shot_session `{BufferRuntime} t o id request :
  get (js "sessionId") o = JString id -> oneShotMutation t <> None ->
  tool_arguments t o = Ok request -> session_of request = Some id.
Proof.
  intros Hg Ht. apply session_required in Hg. destruct t; try done; cbn [tool_arguments]; clear Ht;
    unfold on_session, patch_arguments; rewrite ?Hg; intros Hr; repeat progress (ok_inv; try match goal with
      | Hm : match ?a with Some _ => _ | None => _ end = Ok _ |- _ => destruct a; try discriminate
      | Hm : (let '(_, _) := ?p in _) = Ok _ |- _ => destruct p
      end); simplify_eq; done.
Qed.

Section Ephemeral.
Context `{BufferRuntime} {W : Type} `{Toolkit W}.
#[local] Existing Instance logging.

Definition on_id (id : jsstring) (request : tool_request) : Prop := session_of request = Some id.

(** [P] holds of what [m] asks of the toolkit and of its outcome. *)
Definition makes {A} (m : T (logged W) A) (P : list tk_event -> js_error + A -> Prop) : Prop :=
  forall s, exists log, (m s).1.2 = s.2 ++ log /\ P log (m s).2.

Lemma makes_lift {A} (r : js_error + A) (P : list tk_event -> js_error + A -> Prop) : P [] r -> makes (liftT r) P.
Proof. intros HP s. exists []. by rewrite app_nil_r. Qed.

Lemma makes_noting {A} e (m : T W A) (P : list tk_event -> js_error + A -> Prop) :
  (forall r, P [e] r) -> makes (noting e m) P.
Proof. intros HP s. exists [e]. unfold noting. destruct (m s.1) as [w r]. by split. Qed.

Lemma makes_bind {A B} (m : T (logged W) A) (f : A -> T (logged W) B) P Q :
  makes m P -> (forall log e, P log (inl e) -> Q log (inl e)) ->
  (forall a log, P log (inr a) -> makes (f a) (fun log' r => Q (log ++ log') r)) -> makes (bindT m f) Q.
Proof.
  intros Hm He Hf s. destruct (Hm s) as (log & El & HP). unfold bindT.
  destruct (m s) as [s1 [e|a]]; cbn in El, HP; [exists log; split; [exact El|by apply He]|].
  destruct (Hf a log HP s1) as (log' & El' & HQ). exists (log ++ log'). by rewrite El', El, app_assoc.
Qed.

Lemma makes_weaken {A} (m : T (logged W) A) (P Q : list tk_event -> js_error + A -> Prop) :
  makes m P -> (forall log r, P log r -> Q log r) -> makes m Q.
Proof. intros Hm HPQ s. destruct (Hm s) as (log & El & HP). exists log. auto. Qed.

(** At most [n] calls, all for session [id]. *)
Definition calls_of (id : jsstring) (n : nat) (log : list tk_event) : Prop :=
  exists calls, log = map ECall calls /\ Forall (on_id id) calls /\ (length calls <= n)%nat.

Lemma calls_none id n : calls_of id n [].
Proof. exists []. split_and!; [done|constructor|cbn; lia]. Qed.

Lemma calls_cons id n request log :
  on_id id request -> calls_of id n log -> calls_of id (S n) (ECall request :: log).
Proof.
  intros Hr (calls & -> & Hc & Hn). exists (request :: calls). split_and!; [done|by constructor|cbn; lia].
Qed.

Lemma tool_makes id t o : get (js "sessionId") o = JString id -> oneShotMutation t <> None ->
  makes (run_tool (W := logged W) t o) (fun log r =>
    (log = [] /\ exists e, r = inl e) \/ exists request, log = [ECall request] /\ on_id id request).
Proof.
  intros Hg Ht. unfold run_tool. destruct (tool_arguments t o) as [request|e] eqn:Er.
  - intros s. pose proof (one_shot_session t o id request Hg Ht Er) as Hid.
    exists [ECall request]. unfold bindT, checkedT, liftT. unfold tk_call, logging, noting.
    destruct (tk_call request s.1) as [w r]. split; [done|]. right. by exists request.
  - intros s. exists []. rewrite app_nil_r. split; [done|]. left. split; [done|]. by eexists.
Qed.

(** What the loop over the operations [l] does. *)
Definition operations_done (id : jsstring) (l : list (tool_name * OneShotOperation)) (mutated : bool)
    (log : list tk_event) (r : js_error + bool * list (jsstring * jsval)) : Prop :=
  calls_of id (length l) log /\
  forall a, r = inr a -> length log = length l /\ length a.2 = length l /\ a.1 = mutated || a.1.

Lemma operation_step id filePath t op l mutated : oneShotMutation t <> None ->
  (forall mutated, makes (run_operations (W := logged W) id filePath l mutated) (operations_done id l mutated)) ->
  makes (let+ result := run_tool (W := logged W) t (nested_arguments id filePath t op) in
         let+ rest := run_operations id filePath l (mutated || didMutate t result) in
         retT (rest.1, (op_tool op, omitSessionIds (JObject result)) :: rest.2))
    (operations_done id ((t, op) :: l) mutated).
Proof.
  intros Ht IH. eapply makes_bind; [by apply tool_makes; [apply nested_session|]|..].
  - intros log e [[-> _]|(request & -> & Hr)]; (split; [|done]); [apply calls_none|].
    apply calls_cons; [done|apply calls_none].
  - intros result log [[_ [e [=]]]|(request & -> & Hr)].
    eapply makes_bind; [by apply IH|..].
    + intros log e [Hc _]. split; [by apply calls_cons|done].
    + intros rest log [Hc Ha]. apply makes_lift. rewrite app_nil_r. split; [by apply calls_cons|].
      intros a [= <-]. destruct (Ha rest eq_refl) as (H1 & H2 & H3). cbn. split_and!; [by rewrite H1|by rewrite H2|].
      rewrite H3. by destruct mutated, (didMutate t result).
Qed.

Lemma operations_make id filePath l : forall mutated, Forall (fun p => oneShotMutation p.1 <> None) l ->
  makes (run_operations (W := logged W) id filePath l mutated) (operations_done id l mutated).
Proof.
  induction l as [|[t op] l IH]; intros mutated Hl; cbn [run_operations].
  - apply makes_lift. split; [apply calls_none|]. intros a [= <-]. split_and!; [done..|]. by destruct mutated.
  - apply Forall_cons in Hl as [Ht Hl]. intros s.
    destruct (tk_aborted s); [|by apply operation_step; [|intros m; apply IH]].
    exists []. rewrite app_nil_r. split; [done|]. split; [apply calls_none|done].
Qed.
(** What is saved of a session whose run gives [r]. *)
Definition saves_for (id : jsstring) (outputPath : option jsstring) (discardChanges : bool)
    (r : RunFileResult) (saves : list tk_event) : Prop :=
  match rf_output r with
  | Some _ => rf_mutated r = true /\
      exists path overwrite, truthy_path outputPath = Some path /\ saves = [ESave id path overwrite]
  | None => saves = [] /\ (rf_mutated r = true -> discardChanges = true)
  end.

(** The calls of the operations and then at most one save. *)
Definition session_run (id : jsstring) (outputPath : option jsstring) (discardChanges : bool) (n : nat)
    (log : list tk_event) (r : js_error + RunFileResult) : Prop :=
  exists calls saves, log = calls ++ saves /\ calls_of id n calls /\
    (saves = [] \/ exists path overwrite, truthy_path outputPath = Some path /\ saves = [ESave id path overwrite]) /\
    forall a, r = inr a -> length calls = length (rf_operations a) /\ saves_for id outputPath discardChanges a saves.

Lemma session_makes id filePath outputPath overwrite discard l :
  Forall (fun p => oneShotMutation p.1 <> None) l ->
  makes (run_in_session (W := logged W) id filePath outputPath overwrite discard l)
    (session_run id outputPath discard (length l)).
Proof.
  intros Hl. unfold run_in_session. eapply makes_bind; [by apply operations_make|..].
  - intros log e [Hc _]. exists log, []. rewrite app_nil_r. split_and!; [done|done|by left|done].
  - intros [mutated results] log [Hc Ha]. destruct (Ha _ eq_refl) as (H1 & H2 & _). cbn [fst snd] in *.
    assert (Hsame : length log = length results) by congruence.
    assert (Hplain : forall b, (b = true -> discard = true) ->
      session_run id outputPath discard (length l) (log ++ []) (inr (mkRunFile b None results))).
    { intros b Hb. exists log, []. split_and!; [done|done|by left|]. intros a [= <-]. by split. }
    destruct mutated; [|by apply makes_lift, Hplain].
    destruct (truthy_path outputPath) as [path|] eqn:Ep.
    + assert (Hsave : forall r : js_error + jsobject, session_run id outputPath discard (length l)
        (log ++ [ESave id path overwrite]) match r with inl e => inl e | inr saved => inr (mkRunFile true (Some saved) results) end).
      { intros r. exists log, [ESave id path overwrite]. split_and!; [done|done|right; eauto|].
        intros a. destruct r; [done|]. intros [= <-]. split; [done|]. split; eauto. }
      eapply (makes_bind _ _ (fun log r => log = [ESave id path overwrite])); [by apply makes_noting|..].
      * intros log' e ->. apply (Hsave (inl e)).
      * intros saved log' ->. apply makes_lift. rewrite app_nil_r. apply (Hsave (inr saved)).
    + destruct discard; [by apply makes_lift, Hplain|]. apply makes_lift. exists log, [].
      split_and!; [done|done|by left|done].
Qed.

(** A run of the one-shot tool: nothing, a session that could not be created,
    or a session that is created, used and destroyed. *)
Inductive ephemeral_run (p : run_file_plan) : list tk_event -> js_error + RunFileResult -> Prop :=
  | not_created e : ephemeral_run p [ECreate (pl_filePath p)] (inl e)
  | created_and_destroyed id log r r' :
      session_run id (pl_outputPath p) (pl_discardChanges p) (length (pl_operations p)) log r ->
      (forall a, r' = inr a -> r = inr a) ->
      ephemeral_run p (ECreate (pl_filePath p) :: log ++ [EDestroy id]) r'.

Lemma destroying_makes {A} id (m : T (logged W) A) P Q : makes m P ->
  (forall log r r', P log r -> (forall a, r' = inr a -> r = inr a) -> Q (log ++ [EDestroy id]) r') ->
  makes (destroying (W := logged W) id m) Q.
Proof.
  intros Hm HQ s. destruct (Hm s) as (log & El & HP). exists (log ++ [EDestroy id]). unfold destroying.
  destruct (m s) as [s1 r]. cbn in El, HP. unfold tk_destroy, logging, noting.
  destruct (tk_destroy id s1.1) as [w [e|u]]; cbn; rewrite El, app_assoc; (split; [done|]); by apply (HQ log r).
Qed.

Lemma one_shot_tools l ps : result_map one_shot_tool l = Ok ps -> Forall (fun q => oneShotMutation q.1 <> None) ps.
Proof.
  intros Hm. apply result_map_Forall2 in Hm. induction Hm as [|op [t op'] l ps Ht _ IH]; [constructor|].
  constructor; [|done]. unfold one_shot_tool in Ht. destruct (tool_named (op_tool op)) as [t'|]; [|done].
  destruct (oneShotMutation t') as [m|] eqn:E; [|done]. injection Ht as -> _. cbn. by rewrite E.
Qed.

Lemma operations_bounded o l : getOneShotOperations o = Ok l -> (length l <= 16)%nat.
Proof.
  unfold getOneShotOperations. intros Hl. ok_inv.
  destruct a0 as [| | | | | |[|x xs]|]; try done.
  destruct (Z.ltb_spec MAX_ONE_SHOT_OPERATIONS (Z.of_nat (length (x :: xs)))); [done|].
  apply result_map_Forall2, Forall2_length in Hl. unfold MAX_ONE_SHOT_OPERATIONS in *. lia.
Qed.

Lemma plan_checked o p : run_file_plan_of o = Ok p ->
  Forall (fun q => oneShotMutation q.1 <> None) (pl_operations p) /\ (length (pl_operations p) <= 16)%nat /\
  requiredString o "filePath" = Ok (pl_filePath p) /\ pl_filePath p <> [] /\
  getString o "outputPath" = Ok (pl_outputPath p) /\ flag o "discardChanges" = Ok (pl_discardChanges p).
Proof.
  unfold run_file_plan_of. intros Hp. ok_inv. subst p. cbn [pl_operations pl_filePath pl_outputPath pl_discardChanges].
  split_and!; try done.
  - by eapply one_shot_tools.
  - apply result_map_Forall2, Forall2_length in Hr5. rewrite <- Hr5. by eapply operations_bounded.
  - by destruct a.
Qed.

Lemma run_file_makes o p : run_file_plan_of o = Ok p -> makes (run_file (W := logged W) o) (ephemeral_run p).
Proof.
  intros Hp. destruct (plan_checked _ _ Hp) as (Hl & _). intros s.
  assert (E : run_file (W := logged W) o s = (let+ created := tk_create (W := logged W) (pl_filePath p) in
    let '(sessionId, filePath) := created in
    destroying sessionId (run_in_session sessionId filePath (pl_outputPath p) (pl_overwriteExisting p)
      (pl_discardChanges p) (pl_operations p))) s).
  { unfold run_file. unfold bindT at 1, checkedT, liftT. by rewrite Hp. }
  rewrite E. revert s E. intros s _.
  refine (makes_bind _ _ (fun log r => log = [ECreate (pl_filePath p)]) _ _ _ _ s).
  - by apply makes_noting.
  - intros log e ->. constructor.
  - intros [id path] log ->. eapply destroying_makes; [by apply session_makes|].
    intros log' r r' Hs Hr. by econstructor.
Qed.

(** Every run of the one-shot tool, whatever the toolkit answers and whoever
    aborts it, is refused before anything is asked, or creates one session,
    calls at most 16 tools on that session alone, saves it at most once, and
    destroys it as the last thing it does.  If it returns, every operation
    was called; it has saved exactly what changed and was to be kept, and
    what changed without being saved was to be discarded. *)
Theorem run_file_ephemeral o w :
  let '(s, r) := run_file (W := logged W) o (w, []) in
  (s.2 = [] /\ exists e, r = inl e) \/
  (exists path, s.2 = [ECreate path] /\ exists e, r = inl e) \/
  exists path id calls saves, s.2 = ECreate path :: map ECall calls ++ saves ++ [EDestroy id] /\
    Forall (fun request => session_of request = Some id) calls /\ (length calls <= 16)%nat /\
    (saves = [] \/ exists out overwrite, getString o "outputPath" = Ok (Some out) /\
       saves = [ESave id out overwrite]) /\
    forall a, r = inr a ->
      length calls = length (rf_operations a) /\
      (persisted a = true -> rf_mutated a = true /\ saves <> []) /\
      (discarded a = true -> saves = [] /\ getBoolean o "discardChanges" = Ok (Some true)).
Proof.
  destruct (run_file_plan_of o) as [p|e] eqn:Hp.
  - destruct (plan_checked _ _ Hp) as (_ & Hn & _ & _ & Hout & Hdis).
    destruct (run_file_makes o p Hp (w, [])) as (log & El & Hrun). revert El Hrun.
    destruct (run_file (W := logged W) o (w, [])) as [s r]. cbn [fst snd app]. intros El Hrun. rewrite El.
    destruct Hrun as [e|id log r r' (calls & saves & -> & (requests & -> & Hids & Hlen) & Hsaves & Ha) Hr].
    { right. left. eauto. }
    right. right. exists (pl_filePath p), id, requests, saves. rewrite <- app_assoc. split; [done|].
    split; [done|]. split; [lia|]. split.
    { destruct Hsaves as [->|(path & overwrite & Ht & ->)]; [by left|right]. exists path, overwrite.
      rewrite Hout. split; [|done]. unfold truthy_path in Ht. by destruct (pl_outputPath p) as [[|c q]|]; simplify_eq. }
    intros a Ea. destruct (Ha a (Hr a Ea)) as [Hl Hs]. rewrite length_map in Hl. split; [done|].
    unfold saves_for, persisted, discarded, persisted in *. destruct (rf_output a).
    + destruct Hs as (-> & path & overwrite & _ & ->). by split.
    + destruct Hs as (-> & Hd). split; [done|]. rewrite andb_true_r. intros Hm. split; [done|].
      unfold flag, orb_option in Hdis. destruct (getBoolean o "discardChanges") as [[b|]|]; [|by rewrite Hd in Hdis|done].
      cbn in Hdis. rewrite Hd in Hdis by done. by injection Hdis as ->.
  - unfold run_file, bindT at 1, checkedT, liftT. rewrite Hp. cbn. left. eauto.
Qed.
End Ephemeral.

(** A toolkit that does what it is told, for pipelines to run on. *)
Module PatientToolkit.

#[global] Instance patient : Toolkit unit := {
  tk_call request := retT match request with ApplyChangeLog _ _ _ _ => [(js "applied", JBool true)] | _ => [] end;
  tk_create path := retT (js "one", path);
  tk_save id path overwrite := retT [(js "filePath", JString path)];
  tk_destroy id := retT tt;
  tk_aborted s := false
}.

Definition no_base64 : BufferRuntime := {| base64_decode := fun _ => [] |}.

Definition undo_arguments (output : list (jsstring * jsval)) : jsobject :=
  [(js "filePath", JString (js "/f")); (js "tool", JString (js "omega_edit_undo"))] ++ output.

End PatientToolkit.

(** A change that is to be saved is saved, and one that is not to be is
    refused before there is a session. *)
Example one_shot_undo :
  let run := run_file (H := PatientToolkit.no_base64) (W := logged unit) (H0 := logging unit) in
  (run (PatientToolkit.undo_arguments [(js "outputPath", JString (js "/g"))]) (tt, [])).1.2
    = [ECreate (js "/f"); ECall (UndoCall (js "one")); ESave (js "one") (js "/g") false; EDestroy (js "one")] /\
  (run (PatientToolkit.undo_arguments []) (tt, [])).1.2 = [].
Proof. split; vm_compute; reflexivity. Qed.

(** ** The command line ([cli.ts]) *)

Section CommandLine.
Context `{BufferRuntime} (round : Z -> number).

(** [Number.parseInt], with [round] for what is not a safe integer. *)
Definition parseIntegerOption (value : option jsstring) (defaultValue : option Z) : result Z :=
  match value with
  | None => match defaultValue with Some d => Ok d | None => Throw (plain_error "option is required") end
  | Some text =>
      match parse_int text with
      | None => Throw (plain_error "option must be a non-negative integer")
      | Some z =>
          match (if safeZ z then NInt z else round z) with
          | NInt parsed =>
              if parsed <? 0 then Throw (plain_error "option must be a non-negative integer") else Ok parsed
          | _ => Throw (plain_error "option must be a non-negative integer")
          end
      end
  end.

Definition requireStringOption (value : option jsstring) : result jsstring :=
  match truthy_path value with Some s => Ok s | None => Throw (plain_error "option is required") end.

(** The values [parseArgs] has read: strings and set flags. *)
Definition option_value (values : jsobject) (key : string) : option jsstring := as_string (get (js key) values).
Definition option_flag (values : jsobject) (key : string) : bool := is_true (get (js key) values).

Definition cli_input (values : jsobject) : result (option bytes) :=
  let read key encoding :=
    data ← parseInputData (inl (default [] (option_value values key))) encoding; Ok (Some data) in
  match option_value values "text", option_value values "hex", option_value values "base64" with
  | None, None, None => Ok None
  | Some _, None, None => read "text"%string Utf8
  | None, Some _, None => read "hex"%string Hex
  | None, None, Some _ => read "base64"%string Base64
  | _, _, _ => Throw (plain_error "Provide only one of --text, --hex, or --base64")
  end.

Definition for_session (values : jsobject) (request : jsstring -> tool_request) : result tool_request :=
  sessionId ← requireStringOption (option_value values "session"); Ok (request sessionId).

Definition integer_option (values : jsobject) (key : string) (d : option Z) : result Z :=
  parseIntegerOption (option_value values key) d.

Inductive command :=
  | server_start | server_stop | server_info_command | create_session_command | destroy_session_command
  | session_status_command | session_context_command | create_checkpoint_command | rollback_checkpoint_command
  | restore_checkpoint_command | export_change_log_command | apply_change_log_command
  | preview_change_log_command | view | profile_range_command | search_command | patch
  | list_transform_plugins_command | apply_transform_plugin_command | undo_command | redo_command
  | save_session_command | export_range_command.

Definition command_of (name : jsstring) : option command :=
  let named s := bool_decide (name = js s) in
  if named "server-start"%string then Some server_start else if named "server-stop"%string then Some server_stop
  else if named "server-info"%string then Some server_info_command
  else if named "create-session"%string then Some create_session_command
  else if named "destroy-session"%string then Some destroy_session_command
  else if named "session-status"%string || named "diff-session"%string then Some session_status_command
  else if named "session-context"%string then Some session_context_command
  else if named "create-checkpoint"%string then Some create_checkpoint_command
  else if named "rollback-checkpoint"%string then Some rollback_checkpoint_command
  else if named "restore-checkpoint"%string then Some restore_checkpoint_command
  else if named "export-change-log"%string then Some export_change_log_command
  else if named "apply-change-log"%string then Some apply_change_log_command
  else if named "preview-change-log"%string then Some preview_change_log_command
  else if named "view"%string then Some view
  else if named "profile-range"%string then Some profile_range_command
  else if named "search"%string then Some search_command
  else if named "patch"%string then Some patch
  else if named "list-transform-plugins"%string then Some list_transform_plugins_command
  else if named "apply-transform-plugin"%string then Some apply_transform_plugin_command
  else if named "undo"%string then Some undo_command else if named "redo"%string then Some redo_command
  else if named "save-session"%string then Some save_session_command
  else if named "export-range"%string then Some export_range_command
  else None.

Definition command_request (c : command) (v : jsobject) : result tool_request :=
  match c with
  | server_start => Ok StartServer
  | server_stop => Ok StopServer
  | server_info_command => Ok ServerInfo
  | create_session_command =>
      Ok (CreateSession (default [] (option_value v "file")) (default [] (option_value v "session"))
            (default [] (option_value v "checkpoint")))
  | destroy_session_command => for_session v DestroySession
  | session_status_command => for_session v SessionStatus
  | session_context_command => for_session v (fun s => AssistantContext s (option_value v "file"))
  | create_checkpoint_command => for_session v CreateCheckpoint
  | rollback_checkpoint_command => for_session v RollbackCheckpoint
  | restore_checkpoint_command => for_session v RestoreCheckpoint
  | export_change_log_command =>
      for_session v (fun s => ExportChangeLog s (option_value v "output") (option_flag v "overwrite")
        (option_flag v "optimize"))
  | apply_change_log_command =>
      sessionId ← requireStringOption (option_value v "session");
      input ← requireStringOption (option_value v "input");
      Ok (ApplyChangeLog sessionId (Some input) None (option_flag v "dry-run"))
  | preview_change_log_command =>
      sessionId ← requireStringOption (option_value v "session");
      input ← requireStringOption (option_value v "input");
      Ok (PreviewChangeLog sessionId (Some input) None)
  | view =>
      sessionId ← requireStringOption (option_value v "session");
      offset ← integer_option v "offset" None;
      n ← integer_option v "length" None;
      Ok (ReadRange sessionId offset n)
  | profile_range_command =>
      sessionId ← requireStringOption (option_value v "session");
      offset ← integer_option v "offset" None;
      n ← integer_option v "length" None;
      Ok (ProfileRange sessionId offset n)
  | search_command =>
      data ← cli_input v;
      match data with
      | None => Throw (plain_error "search requires one of --text, --hex, or --base64")
      | Some pattern =>
          sessionId ← requireStringOption (option_value v "session");
          offset ← integer_option v "offset" (Some 0);
          n ← integer_option v "length" (Some 0);
          limit ← integer_option v "limit" (Some 100);
          Ok (Search sessionId pattern offset n limit (option_flag v "case-insensitive") (option_flag v "reverse"))
      end
  | patch =>
      data ← cli_input v;
      deleteLength ← integer_option v "delete-length" (Some 0);
      kind ← inferPatchKind (option_value v "operation") (data_length data) deleteLength;
      sessionId ← requireStringOption (option_value v "session");
      offset ← integer_option v "offset" None;
      previewContext ← integer_option v "context" (Some 64);
      Ok (ApplyPatch sessionId (mkPatchRequest kind (NInt offset) (Some (NInt deleteLength)) data
            (Some previewContext) (option_flag v "dry-run")))
  | list_transform_plugins_command => Ok ListTransformPlugins
  | apply_transform_plugin_command =>
      sessionId ← requireStringOption (option_value v "session");
      pluginId ← requireStringOption (option_value v "plugin");
      offset ← integer_option v "offset" (Some 0);
      n ← integer_option v "length" (Some 0);
      Ok (ApplyTransformPlugin sessionId pluginId offset n (option_value v "options-json"))
  | undo_command => for_session v UndoCall
  | redo_command => for_session v RedoCall
  | save_session_command =>
      sessionId ← requireStringOption (option_value v "session");
      output ← requireStringOption (option_value v "output");
      Ok (SaveSession sessionId output (option_flag v "overwrite"))
  | export_range_command =>
      sessionId ← requireStringOption (option_value v "session");
      offset ← integer_option v "offset" None;
      n ← integer_option v "length" None;
      output ← requireStringOption (option_value v "output");
      Ok (ExportRange sessionId offset n output (option_flag v "overwrite"))
  end.

(** What is read before the toolkit is made, and its port with it. *)
Definition before_toolkit (c : command) (v : jsobject) : result unit :=
  match c with
  | search_command =>
      data ← cli_input v;
      require (match data with Some _ => true | None => false end)
        (plain_error "search requires one of --text, --hex, or --base64")
  | patch =>
      data ← cli_input v;
      deleteLength ← integer_option v "delete-length" (Some 0);
      _ ← inferPatchKind (option_value v "operation") (data_length data) deleteLength;
      Ok tt
  | _ => Ok tt
  end.

Definition checked_port (v : jsobject) : result unit :=
  match option_value v "port" with
  | Some port => _ ← parseIntegerOption (Some port) None; Ok tt
  | None => Ok tt
  end.

(** The call a command line makes. *)
Definition runCommand (name : jsstring) (values : jsobject) : result tool_request :=
  match command_of name with
  | None => Throw (plain_error "Unknown command")
  | Some c =>
      _ ← before_toolkit c values;
      _ ← checked_port values;
      command_request c values
  end.

(** ** Both ways to a patch *)

Lemma digits_all s : forallb is_digit s = true -> digits_prefix s = s.
Proof. induction s as [|c s IH]; [done|]. cbn. intros Hs. apply andb_true_iff in Hs as [-> Hs]. by rewrite IH. Qed.

Lemma canonical_digits s : canonical_decimal s = true ->
  exists c t, s = c :: t /\ is_digit c = true /\ forallb is_digit t = true.
Proof.
  destruct s as [|c t]; [done|]. cbn [canonical_decimal]. intros Hc. exists c, t. split; [done|].
  apply orb_true_iff in Hc as [Hc|Hc]; apply andb_true_iff in Hc as [Hc Ht].
  - apply Z.eqb_eq in Hc as ->. by destruct t.
  - split; [|done]. unfold is_digit, in_range in *. apply andb_true_iff in Hc as [H1 H2]. rewrite !Z.leb_le in *.
    apply andb_true_iff. rewrite !Z.leb_le. lia.
Qed.

Lemma parse_digits z : 0 <= z <= MAX_SAFE_INTEGER -> parse_int (decimal_string z) = Some z.
Proof.
  intros Hz. destruct (decimal_string_spec z) as [Hv Hc]; [unfold MAX_SAFE_INTEGER in Hz; lia|].
  destruct (canonical_digits _ Hc) as (c & t & E & Hd & Ht). unfold parse_int. rewrite E in *.
  assert (Hns : is_js_space c = false /\ c <> 45 /\ c <> 43).
  { unfold is_digit, in_range in Hd. apply andb_true_iff in Hd as [H1 H2]. rewrite !Z.leb_le in *.
    split; [|lia]. unfold is_js_space.
    repeat (apply orb_false_iff; split); try (apply Z.eqb_neq; lia); apply andb_false_iff; rewrite !Z.leb_gt; lia. }
  destruct Hns as (Hs & H1 & H2). cbn [drop_spaces]. rewrite Hs.
  destruct (Z.eqb_spec c 45), (Z.eqb_spec c 43); try done. rewrite digits_all by (cbn; by rewrite Hd).
  by rewrite Hv, Z.mul_1_l.
Qed.

Lemma integer_read z d : 0 <= z <= MAX_SAFE_INTEGER -> parseIntegerOption (Some (decimal_string z)) d = Ok z.
Proof.
  intros Hz. unfold parseIntegerOption. rewrite parse_digits by done. rewrite (proj2 (safeZ_spec z)) by lia.
  by destruct (Z.ltb_spec z 0); [lia|].
Qed.

(** A patch by the same means: text, a range and perhaps an operation. *)
Definition cli_patch (session text : jsstring) (o n : Z) (operation : option jsstring) : jsobject :=
  [(js "session", JString session); (js "text", JString text); (js "offset", JString (decimal_string o));
   (js "delete-length", JString (decimal_string n))] ++ opt_prop "operation" (JString <$> operation).

Definition json_patch (session text : jsstring) (o n : Z) (operation : option jsstring) : jsobject :=
  [(js "sessionId", JString session); (js "text", JString text); (js "offset", JNumber (NInt o));
   (js "deleteLength", JNumber (NInt n))] ++ opt_prop "operation" (JString <$> operation).

Lemma natural_read key z : 0 <= z -> natural_number key (JNumber (NInt z)) = Ok z.
Proof. intros Hz. cbn. by destruct (Z.ltb_spec z 0); [lia|]. Qed.

(** The patch of a range and a text. *)
Definition text_patch (session text : jsstring) (o n : Z) (operation : option jsstring) : result tool_request :=
  kind ← inferPatchKind operation (Z.of_nat (length (utf8_encode text))) n;
  Ok (ApplyPatch session (mkPatchRequest kind (NInt o) (Some (NInt n)) (Some (utf8_encode text)) (Some 64) false)).

Lemma cli_patch_request session text o n operation :
  session <> [] -> 0 <= o <= MAX_SAFE_INTEGER -> 0 <= n <= MAX_SAFE_INTEGER ->
  runCommand (js "patch") (cli_patch session text o n operation) = text_patch session text o n operation.
Proof.
  intros Hs Ho Hn. set (v := cli_patch session text o n operation).
  assert (Hsession : option_value v "session" = Some session) by reflexivity.
  assert (Hinput : cli_input v = Ok (Some (utf8_encode text))) by (by destruct operation).
  assert (Hoffset : option_value v "offset" = Some (decimal_string o)) by reflexivity.
  assert (Hdelete : option_value v "delete-length" = Some (decimal_string n)) by reflexivity.
  assert (Hoperation : option_value v "operation" = operation) by (by destruct operation).
  assert (Hrest : option_value v "port" = None /\ option_value v "context" = None /\ option_flag v "dry-run" = false)
    by (by destruct operation).
  destruct Hrest as (Hport & Hcontext & Hdry).
  change (runCommand (js "patch") v) with
    (_ ← before_toolkit patch v; _ ← checked_port v; command_request patch v).
  unfold before_toolkit, checked_port, command_request, integer_option. rewrite Hinput, Hdelete, Hport, Hoperation,
    Hsession, Hoffset, Hcontext, Hdry, !integer_read by done. unfold text_patch, requireStringOption, mbind, result_bind.
  destruct session as [|c session]; [done|]. cbn [data_length truthy_path].
  by destruct (inferPatchKind operation _ n).
Qed.

Lemma json_patch_request session text o n operation :
  0 <= o -> 0 <= n ->
  tool_arguments apply_patch (json_patch session text o n operation) = text_patch session text o n operation.
Proof.
  intros Ho Hn. set (v := json_patch session text o n operation).
  assert (Hsession : requiredString v "sessionId" = Ok session) by reflexivity.
  assert (Hinput : getInputValue v = Ok (Some (utf8_encode text))) by (by destruct operation).
  assert (Hoffset : getNumber v "offset" None = Ok o) by (by apply (natural_read "offset")).
  assert (Hdelete : getNumber v "deleteLength" (Some 0) = Ok n) by (by apply (natural_read "deleteLength")).
  assert (Hoperation : getString v "operation" = Ok operation) by (by destruct operation).
  assert (Hcontext : getNumber v "previewContext" (Some DEFAULT_PREVIEW_CONTEXT_BYTES) = Ok 64)
    by (by destruct operation).
  cbn [tool_arguments]. unfold patch_arguments. rewrite Hinput, Hdelete, Hsession, Hoperation, Hoffset, Hcontext.
  unfold text_patch, mbind, result_bind. cbn [data_length]. by destruct (inferPatchKind operation _ n).
Qed.

(** The command line and the MCP server make the same patch of the same
    input, or both refuse it. *)
Theorem patch_both_ways session text o n operation request :
  session <> [] -> 0 <= o <= MAX_SAFE_INTEGER -> 0 <= n <= MAX_SAFE_INTEGER ->
  runCommand (js "patch") (cli_patch session text o n operation) = Ok request <->
  tool_arguments apply_patch (json_patch session text o n operation) = Ok request.
Proof.
  intros Hs Ho Hn.
  by rewrite cli_patch_request, json_patch_request by (done || lia).
Qed.

End CommandLine.

Lemma patch_both_ways_witness :
  tool_arguments (H := PatientToolkit.no_base64) apply_patch (json_patch (js "s") (js "ab") 9 2 None)
    = Ok (ApplyPatch (js "s") (mkPatchRequest PatchReplace (NInt 9) (Some (NInt 2)) (Some [97; 98]) (Some 64) false)).
Proof.
  apply (patch_both_ways (H := PatientToolkit.no_base64) NInt);
    [discriminate|unfold MAX_SAFE_INTEGER; lia..|]. vm_compute. reflexivity.
Defined.

(** What [Number.parseInt] makes of other spellings of a number is taken
    without complaint: an offset in hexadecimal is 0. *)
Example numbers_cut_short (round : Z -> number) :
  parseIntegerOption round (Some (js "0x1F4")) None = Ok 0 /\
  parseIntegerOption round (Some (js "1e6")) None = Ok 1 /\
  parseIntegerOption round (Some (js "12,5")) None = Ok 12.
Proof. repeat split; vm_compute; reflexivity. Qed.
