(* ===== verification/AiSchema.v ===== *)
(** * What the tools say they take ([packages/ai/src/mcp.ts], [buildTools])

    The list of tools with the schemas an assistant is shown, and how they
    agree with what [tool_arguments] of [AiTools] reads: [tool_accepts_schema]
    says of every tool exactly which arguments it takes. *)

From Stdlib Require Import Btauto.
From S2P Require Import Prelude JsText JsValue AiToolkit AiTools.

Open Scope call_scope.

Inductive property_type := PString | PInteger | PBoolean | PObject.

(** The properties of an [inputSchema] and those that are required. *)
Record schema := mkSchema { properties : list (string * property_type); required : list string }.

Definition inputSchema (t : tool_name) : schema :=
  match t with
  | create_session => mkSchema [("filePath", PString); ("sessionId", PString); ("checkpointDirectory",
      PString)] []
  | destroy_session => mkSchema [("sessionId", PString)] ["sessionId"]
  | session_status => mkSchema [("sessionId", PString)] ["sessionId"]
  | session_context => mkSchema [("sessionId", PString); ("filePath", PString)] ["sessionId"]
  | create_checkpoint => mkSchema [("sessionId", PString)] ["sessionId"]
  | rollback_checkpoint => mkSchema [("sessionId", PString)] ["sessionId"]
  | restore_checkpoint => mkSchema [("sessionId", PString)] ["sessionId"]
  | export_change_log => mkSchema [("sessionId", PString); ("outputPath", PString); ("overwriteExisting",
      PBoolean); ("optimize", PBoolean)] ["sessionId"]
  | preview_change_log => mkSchema [("sessionId", PString); ("inputPath", PString); ("changeLog", PObject)]
      ["sessionId"]
  | apply_change_log => mkSchema [("sessionId", PString); ("inputPath", PString); ("changeLog", PObject);
      ("dryRun", PBoolean)] ["sessionId"]
  | read_range => mkSchema [("sessionId", PString); ("offset", PInteger); ("length", PInteger)]
      ["sessionId"; "offset"; "length"]
  | profile_range => mkSchema [("sessionId", PString); ("offset", PInteger); ("length", PInteger)]
      ["sessionId"; "offset"; "length"]
  | search_tool => mkSchema [("sessionId", PString); ("text", PString); ("hex", PString); ("base64",
      PString); ("offset", PInteger); ("length", PInteger); ("limit", PInteger); ("caseInsensitive", PBoolean);
      ("reverse", PBoolean)] ["sessionId"]
  | replace_session => mkSchema [("sessionId", PString); ("patternText", PString); ("patternHex", PString);
      ("patternBase64", PString); ("replacementText", PString); ("replacementHex", PString);
      ("replacementBase64", PString); ("offset", PInteger); ("length", PInteger); ("limit", PInteger);
      ("caseInsensitive", PBoolean); ("reverse", PBoolean); ("frontToBack", PBoolean); ("overwriteOnly",
      PBoolean)] ["sessionId"]
  | list_transform_plugins => mkSchema [] []
  | apply_transform_plugin => mkSchema [("sessionId", PString); ("pluginId", PString); ("offset", PInteger);
      ("length", PInteger); ("optionsJson", PString)] ["sessionId"; "pluginId"]
  | preview_patch => mkSchema [("sessionId", PString); ("offset", PInteger); ("operation", PString);
      ("deleteLength", PInteger); ("previewContext", PInteger); ("text", PString); ("hex", PString); ("base64",
      PString)] ["sessionId"; "offset"]
  | apply_patch => mkSchema [("sessionId", PString); ("offset", PInteger); ("operation", PString);
      ("deleteLength", PInteger); ("previewContext", PInteger); ("text", PString); ("hex", PString); ("base64",
      PString)] ["sessionId"; "offset"]
  | undo_tool => mkSchema [("sessionId", PString)] ["sessionId"]
  | redo_tool => mkSchema [("sessionId", PString)] ["sessionId"]
  | save_session => mkSchema [("sessionId", PString); ("outputPath", PString); ("overwriteExisting",
      PBoolean)] ["sessionId"; "outputPath"]
  | export_range => mkSchema [("sessionId", PString); ("offset", PInteger); ("length", PInteger);
      ("outputPath", PString); ("overwriteExisting", PBoolean)] ["sessionId"; "offset"; "length"; "outputPath"]
  | server_info => mkSchema [] []
  end%string.

Definition description (t : tool_name) : string :=
  match t with
  | create_session =>
      "Create an OmegaEdit session, optionally backed by an existing file."
  | destroy_session =>
      "Destroy an OmegaEdit session."
  | session_status =>
      "Get session size, change counts, viewport count, and last-change metadata."
  | session_context =>
      "Get stable assistant-readable context for a session, including history, viewport, transforms, change-log status, and command surfaces."
  | create_checkpoint =>
      "Create an OmegaEdit checkpoint for the current session state."
  | rollback_checkpoint =>
      "Roll back the most recent OmegaEdit checkpoint by dropping the current checkpoint model."
  | restore_checkpoint =>
      "Restore session content to the most recent OmegaEdit checkpoint without dropping that checkpoint."
  | export_change_log =>
      "Export the OmegaEdit change log for a session as JSON entries, optionally writing the same change-log document to a file."
  | preview_change_log =>
      "Preview a versioned OmegaEdit change-log document before replay, including primitive counts, fingerprints, size delta, transform plugins, unavailable primitives, and rollback protection."
  | apply_change_log =>
      "Apply a versioned OmegaEdit change-log document to a session from an inputPath or inline changeLog object."
  | read_range =>
      "Read a bounded byte range from a session without loading the entire file."
  | profile_range =>
      "Profile a bounded byte range and return frequency bins, byte-class counts, top bytes, and line endings."
  | search_tool =>
      "Search for text or bytes in a bounded session range and return matching offsets."
  | replace_session =>
      "Transactionally replace all matches in a session using OmegaEdit client search-and-replace semantics."
  | list_transform_plugins =>
      "List transform plugins registered with the OmegaEdit server."
  | apply_transform_plugin =>
      "Apply a registered transform plugin to a session range and return replacement/inspection metadata."
  | preview_patch =>
      "Preview an insert, overwrite, delete, or replace operation before applying it."
  | apply_patch =>
      "Apply a reversible insert, overwrite, delete, or replace operation to a session."
  | undo_tool =>
      "Undo the last change in a session."
  | redo_tool =>
      "Redo the last undone change in a session."
  | save_session =>
      "Save the current session content to a file."
  | export_range =>
      "Save a bounded session range to a file."
  | server_info =>
      "Get OmegaEdit server metadata."
  end.

Definition type_name (ty : property_type) : string :=
  match ty with PString => "string" | PInteger => "integer" | PBoolean => "boolean" | PObject => "object" end.

Definition typed_as (name : string) : jsval := JObject [(js "type", JString (js name))].

(** The schema as the object it is in the source. *)
Definition schema_object (s : schema) : jsval :=
  JObject ([(js "type", JString (js "object"));
            (js "properties", JObject (map (fun p => (js p.1, typed_as (type_name p.2))) (properties s)))] ++
           match required s with
           | [] => []
           | l => [(js "required", JArray (map (fun k => JString (js k)) l))]
           end).

(** An entry of [tools/list]; no tool has an [outputSchema]. *)
Definition listed (name : jsstring) (description : string) (inputSchema : jsval) : jsval :=
  JObject [(js "name", JString name); (js "title", JString name); (js "description", JString (js description));
           (js "inputSchema", inputSchema); (js "outputSchema", JUndefined)].

Definition oneShotToolNames : list jsstring :=
  map name_of (List.filter (fun t => match oneShotMutation t with Some _ => true | None => false end) tools).

Definition strings (l : list jsstring) : jsval := JArray (map JString l).

Definition run_file_name : jsstring := js "omega_edit_run_file".

Definition run_file_description : string :=
  "Run OmegaEdit operations in an always-destroyed ephemeral session. For one operation pass {filePath, tool, arguments}. For a pipeline pass {filePath, operations: [{tool, arguments}]}; the limit is 16. Read-only work needs only filePath. Mutating work also requires outputPath for save-on-success or discardChanges for explicit temporary work.".

Definition run_file_schema : jsval :=
  let tool := JObject [(js "type", JString (js "string")); (js "enum", strings oneShotToolNames)] in
  let requires key := JObject [(js "required", strings [js key])] in
  JObject [
    (js "type", JString (js "object"));
    (js "properties", JObject [
      (js "filePath", typed_as "string"); (js "outputPath", typed_as "string");
      (js "overwriteExisting", typed_as "boolean"); (js "discardChanges", typed_as "boolean");
      (js "tool", tool); (js "arguments", typed_as "object");
      (js "operations", JObject [
        (js "type", JString (js "array")); (js "minItems", JNumber (NInt 1));
        (js "maxItems", JNumber (NInt MAX_ONE_SHOT_OPERATIONS));
        (js "items", JObject [
          (js "type", JString (js "object"));
          (js "properties", JObject [(js "tool", tool); (js "arguments", typed_as "object")]);
          (js "required", strings [js "tool"]); (js "additionalProperties", JBool false)])])]);
    (js "required", strings [js "filePath"]);
    (js "oneOf", JArray [requires "tool"%string; requires "operations"%string])].

Definition tools_list : list jsval :=
  map (fun t => listed (name_of t) (description t) (schema_object (inputSchema t))) tools ++
  [listed run_file_name run_file_description run_file_schema].

(** ** What is taken *)

(** A property that is left out, or null where the reader lets it be, or of
    its type; numbers are not negative. *)
Definition taken (ty : property_type) (v : jsval) : bool :=
  match ty, v with
  | _, JUndefined => true
  | (PString | PInteger), JNull => true
  | PString, JString _ => true
  | PInteger, JNumber (NInt z) => 0 <=? z
  | PBoolean, JBool _ => true
  | PObject, JObject _ => true
  | _, _ => false
  end.

Definition meets (s : schema) (o : jsobject) : bool :=
  forallb (fun p => taken p.2 (get (js p.1) o)) (properties s) &&
  forallb (fun k => negb (is_missing (get (js k) o))) (required s).

Definition has {A} (r : result (option A)) : bool := match r with Ok (Some _) => true | _ => false end.

Section Schemas.
Context `{BufferRuntime}.

(** What the tools that take bytes ask beyond their schema. *)
Definition data_taken (t : tool_name) (o : jsobject) : bool :=
  match t with
  | search_tool => has (getInputValue o)
  | replace_session =>
      has (getNamedInputValue o (mkFields "patternText" "patternHex" "patternBase64")) &&
      has (getNamedInputValue o (mkFields "replacementText" "replacementHex" "replacementBase64"))
  | preview_patch | apply_patch =>
      is_ok (data ← getInputValue o; n ← getNumber o "deleteLength" (Some 0); operation ← getString o "operation";
             inferPatchKind operation (data_length data) n)
  | _ => true
  end.

Lemma is_ok_seq {A B} (m : result A) (f : A -> result B) b :
  (forall x, is_ok (f x) = b) -> is_ok (m ≫= f) = is_ok m && b.
Proof. intros Hf. destruct m; cbn; [by rewrite Hf|done]. Qed.

Lemma string_read o k : is_ok (getString o k) = taken PString (get (js k) o).
Proof. unfold getString. by destruct (get (js k) o). Qed.

Lemma required_read o k :
  is_ok (requiredString o k) = taken PString (get (js k) o) && negb (is_missing (get (js k) o)).
Proof. unfold requiredString, getString. by destruct (get (js k) o). Qed.

Lemma natural_taken k v : is_ok (natural_number k v) = taken PInteger v && negb (is_missing v).
Proof.
  destruct v as [| | |n| | | |]; try done. destruct n as [z| | |]; try done. cbn.
  destruct (Z.ltb_spec z 0), (Z.leb_spec 0 z); try done; lia.
Qed.

Lemma number_read o k d :
  is_ok (getNumber o k d) =
    taken PInteger (get (js k) o) && match d with Some _ => true | None => negb (is_missing (get (js k) o)) end.
Proof.
  unfold getNumber. destruct (get (js k) o) eqn:E; destruct d; try done; rewrite natural_taken; cbn;
    by rewrite ?andb_true_r.
Qed.

Lemma boolean_read o k : is_ok (getBoolean o k) = taken PBoolean (get (js k) o).
Proof. unfold getBoolean. by destruct (get (js k) o). Qed.

Lemma flag_read o k : is_ok (flag o k) = taken PBoolean (get (js k) o).
Proof. unfold flag, getBoolean. by destruct (get (js k) o). Qed.

Lemma text_read o k : is_ok (string_or_none o k) = taken PString (get (js k) o).
Proof. unfold string_or_none, getString. by destruct (get (js k) o). Qed.

Lemma document_read o k : is_ok (getChangeLogDocument o k) = taken PObject (get (js k) o).
Proof. unfold getChangeLogDocument. by destruct (get (js k) o). Qed.
End Schemas.

Create Rewrite HintDb reads.
#[export] Hint Rewrite @string_read @required_read @number_read @boolean_read @flag_read @text_read @document_read
  : reads.

(** Split a reader into its reads, and compare the reads with the schema. *)
Ltac reads :=
  lazymatch goal with
  | |- is_ok (mbind _ _) = _ => apply is_ok_seq; intros ?; reads
  | |- is_ok (Ok _) = _ => exact (@eq_refl bool true)
  | |- _ => reflexivity
  end.

Ltac as_read := etransitivity; [unfold on_session; reads|autorewrite with reads].

Section SchemaFacts.
Context `{BufferRuntime}.

Definition given_data (fields : field_names) (o : jsobject) : bool :=
  taken PString (get (js (f_text fields)) o) && taken PString (get (js (f_hex fields)) o) &&
  taken PString (get (js (f_base64 fields)) o).

Lemma input_given o fields data : getNamedInputValue o fields = Ok data -> given_data fields o = true.
Proof.
  unfold getNamedInputValue, given_data. destruct fields as [t h b]. cbn [f_text f_hex f_base64].
  destruct (get (js t) o) eqn:Et, (get (js h) o) eqn:Eh, (get (js b) o) eqn:Eb; try done;
    cbn [is_undefined negb]; intros Hi; ok_inv; unfold requiredString, getString in *;
    rewrite ?Et, ?Eh, ?Eb in *; done.
Qed.

Lemma has_ok {A} (r : result (option A)) : has r = true -> exists a, r = Ok (Some a).
Proof. destruct r as [[a|]|]; try done. eauto. Qed.

(** Every tool but those that take bytes takes what meets its schema. *)
Lemma plain_tool t o :
  match t with search_tool | replace_session | preview_patch | apply_patch => False | _ => True end ->
  is_ok (tool_arguments t o) = meets (inputSchema t) o.
Proof.
  destruct t; try done; intros _; cbn [tool_arguments]; as_read; unfold meets; cbn [inputSchema properties required forallb fst snd]; btauto.
Qed.

Lemma given_fields o t h b : given_data (mkFields t h b) o = true ->
  taken PString (get (js t) o) = true /\ taken PString (get (js h) o) = true /\ taken PString (get (js b) o) = true.
Proof. unfold given_data. cbn [f_text f_hex f_base64]. rewrite !andb_true_iff. tauto. Qed.

Lemma search_taken o : is_ok (tool_arguments search_tool o) = meets (inputSchema search_tool) o && has (getInputValue o).
Proof.
  cbn [tool_arguments]. destruct (getInputValue o) as [[pattern|]|e] eqn:Ei; cbn [has]; rewrite ?andb_false_r; try done.
  apply input_given, given_fields in Ei as (Ht & Hh & Hb). cbn [mbind result_bind]. as_read.
  unfold meets. cbn [inputSchema properties required forallb fst snd]. rewrite Ht, Hh, Hb. btauto.
Qed.

Lemma replace_taken o :
  is_ok (tool_arguments replace_session o) = meets (inputSchema replace_session) o && data_taken replace_session o.
Proof.
  cbn [tool_arguments data_taken].
  destruct (getNamedInputValue o (mkFields "patternText" _ _)) as [[pattern|]|e] eqn:Ep; cbn [has];
    rewrite ?andb_false_r; try done; cbn [mbind result_bind];
    destruct (getNamedInputValue o (mkFields "replacementText" _ _)) as [[replacement|]|e'] eqn:Er; cbn [has andb];
    rewrite ?andb_false_r; try done.
  apply input_given, given_fields in Ep as (Ht & Hh & Hb), Er as (Ht' & Hh' & Hb'). cbn [mbind result_bind]. as_read.
  unfold meets. cbn [inputSchema properties required forallb fst snd]. rewrite Ht, Hh, Hb, Ht', Hh', Hb'. btauto.
Qed.

Lemma patch_taken o :
  is_ok (patch_arguments o) = meets (inputSchema apply_patch) o && data_taken apply_patch o.
Proof.
  cbn [data_taken]. unfold patch_arguments.
  destruct (getInputValue o) as [data|e] eqn:Ei; cbn [mbind result_bind is_ok]; rewrite ?andb_false_r; try done.
  apply input_given, given_fields in Ei as (Ht & Hh & Hb).
  pose proof (number_read o "deleteLength" (Some 0)) as Hn. pose proof (string_read o "operation") as Ho.
  destruct (getNumber o "deleteLength" (Some 0)) as [n|e]; cbn [mbind result_bind is_ok]; rewrite ?andb_false_r; try done.
  destruct (getString o "operation") as [operation|e]; cbn [is_ok] in Hn, Ho.
  2: { rewrite andb_false_r. destruct (requiredString o "sessionId"); done. }
  cbn [mbind result_bind]. destruct (inferPatchKind operation (data_length data) n) as [kind|e]; cbn [is_ok mbind result_bind].
  2: { rewrite andb_false_r. destruct (requiredString o "sessionId"); done. }
  as_read. unfold meets. cbn [inputSchema properties required forallb fst snd].
  rewrite andb_true_r in Hn. rewrite Ht, Hh, Hb, <- Hn, <- Ho. btauto.
Qed.

(** Every tool takes exactly the arguments that meet the schema it shows
    (with numbers that are not negative, and null for a string or a number
    that is left out) and, for the tools that take bytes, give them once in
    one encoding that can be read and say what to do with them. *)
Theorem tool_accepts_schema t o :
  is_ok (tool_arguments t o) = meets (inputSchema t) o && data_taken t o.
Proof.
  destruct t; cbn [data_taken]; try (by rewrite andb_true_r; apply plain_tool).
  - apply search_taken.
  - apply replace_taken.
  - cbn [tool_arguments]. rewrite <- patch_taken. by destruct (patch_arguments o) as [[]|].
  - cbn [tool_arguments]. rewrite <- patch_taken. by destruct (patch_arguments o) as [[]|].
Qed.
End SchemaFacts.

(** No two tools share a name, the one-shot tool included. *)
Lemma tool_names_differ : NoDup (run_file_name :: map name_of tools).
Proof. apply (bool_decide_unpack _). vm_compute. exact I. Qed.
