(* ===== verification/McpServer.v ===== *)
(** * The MCP server ([packages/ai/src/mcp.ts], [main])

    The server reads JSON-RPC messages, one a line, and answers on its
    output.  Tools run while further lines are read, so a run of the server
    is a sequence of events: a line arrives, or a tool ends with what it
    returned or threw ([AiTools]).  [mcp] is what [main] keeps between them.

    [every_message_answered]: each message that is owed an answer gets one,
    under its id, until a line is [null].  [tools_after_handshake]: no tool starts before the
    handshake.  [cancel_exact]: a cancellation reaches the call it names and
    no other.  A line that is [null] ends the server. *)

From S2P Require Import Prelude JsText JsValue ChangeLogCodec AiToolkit AiTools AiSchema.

(** [JSON] with indentation, and the version from the environment. *)
Class McpRuntime := {
  mcp_json :: JsonRuntime;
  JSON_pretty : jsobject -> jsstring;
  TOOLING_VERSION : jsstring
}.

Definition DEFAULT_PROTOCOL_VERSION : jsstring := js "2025-11-25".

(** ** Answers *)

Definition makeErrorResponse (id : jsval) (code : Z) (message : jsstring) : jsobject :=
  [(js "jsonrpc", JString (js "2.0")); (js "id", id);
   (js "error", JObject [(js "code", JNumber (NInt code)); (js "message", JString message)])].

Definition makeResult (id : jsval) (result : jsobject) : jsobject :=
  [(js "jsonrpc", JString (js "2.0")); (js "id", id); (js "result", JObject result)].

(** [id ?? null] *)
Definition or_null (id : jsval) : jsval := match id with JUndefined => JNull | _ => id end.

(** ** Calls under way *)

(** A key of a [Map]: primitive values by value, an id that is an array or
    an object by the message it came with. *)
Inductive map_key :=
  | KUndefined | KNull | KBool (b : bool) | KNumber (n : number) | KBigInt (z : Z) | KString (s : jsstring)
  | KMessage (call : nat).

#[global] Instance map_key_eq_dec : EqDecision map_key.
Proof. solve_decision. Defined.

(** The key of a value that is not an object. *)
Definition primitive_key (v : jsval) : option map_key :=
  match v with
  | JUndefined => Some KUndefined
  | JNull => Some KNull
  | JBool b => Some (KBool b)
  | JNumber n => Some (KNumber n)
  | JBigInt z => Some (KBigInt z)
  | JString s => Some (KString s)
  | JArray _ | JObject _ => None
  end.

Definition call_key (call : nat) (id : jsval) : map_key := default (KMessage call) (primitive_key id).

(** A call of a tool with its [AbortController]. *)
Record tool_call := mkCall {
  tc_number : nat;
  tc_id : jsval;
  tc_tool : jsstring;
  tc_arguments : jsobject;
  tc_aborted : bool
}.

Definition abort (c : tool_call) : tool_call := mkCall (tc_number c) (tc_id c) (tc_tool c) (tc_arguments c) true.

(** What a tool ends with: its result, or the message of the error and the
    report a [ChangeLogReplayError] carries. *)
Inductive tool_end :=
  | Returned (result : jsobject)
  | Rejected (message : jsstring) (report : option jsval).

Record mcp := mkMcp {
  initializeComplete : bool;
  receivedInitializedNotification : bool;
  activeToolRequests : list (map_key * nat);
  running : list tool_call;
  started : nat;
  crashed : bool
}.

Definition initial_mcp : mcp := mkMcp false false [] [] 0 false.

Definition with_handshake (initialize notified : bool) (s : mcp) : mcp :=
  mkMcp initialize notified (activeToolRequests s) (running s) (started s) (crashed s).
Definition with_calls (active : list (map_key * nat)) (calls : list tool_call) (s : mcp) : mcp :=
  mkMcp (initializeComplete s) (receivedInitializedNotification s) active calls (started s) (crashed s).
Definition crash (s : mcp) : mcp :=
  mkMcp (initializeComplete s) (receivedInitializedNotification s) (activeToolRequests s) (running s) (started s) true.

Definition mcp_ready (s : mcp) : bool := initializeComplete s && receivedInitializedNotification s.

(** [map.set(key, call)] *)
Fixpoint set_active (key : map_key) (call : nat) (l : list (map_key * nat)) : list (map_key * nat) :=
  match l with
  | [] => [(key, call)]
  | (k, c) :: l => if decide (k = key) then (k, call) :: l else (k, c) :: set_active key call l
  end.

Definition get_active (key : map_key) (l : list (map_key * nat)) : option nat :=
  snd <$> List.find (fun p => bool_decide (p.1 = key)) l.

(** ** Lines *)

(** A message is not checked before [message.id] is read, which throws for
    [null]; other values have no such property. *)
Inductive message :=
  | Blank
  | NotJson
  | NullMessage
  | Invalid (id : jsval)
  | Request (id : jsval) (method : jsstring) (params : jsobject).

Section Server.
Context `{McpRuntime}.

Definition property (v : jsval) (key : string) : jsval := get (js key) (asObject v).

Definition read_message (line : jsstring) : message :=
  match trim line with
  | [] => Blank
  | _ =>
      match JSON_parse line with
      | None => NotJson
      | Some (JUndefined | JNull) => NullMessage
      | Some v =>
          let id := property v "id" in
          match as_string (property v "jsonrpc"), as_string (property v "method") with
          | Some version, Some ((_ :: _) as method) =>
              if bool_decide (version = js "2.0") then Request id method (asObject (property v "params"))
              else Invalid id
          | _, _ => Invalid id
          end
      end
  end.

Definition is_method (method : jsstring) (name : string) : bool := bool_decide (method = js name).

(** [toolMap.get(name)] *)
Definition known_tool (name : jsstring) : bool :=
  bool_decide (name = run_file_name) || match tool_named name with Some _ => true | None => false end.

Definition internal_error (id : jsval) (e : exn) : jsobject :=
  makeErrorResponse (or_null id) (-32603) (js (exn_code e)).

Definition serverInfo : jsval :=
  JObject [(js "name", JString (js "@omega-edit/ai")); (js "title", JString (js "OmegaEdit AI Tooling"));
           (js "version", JString TOOLING_VERSION);
           (js "description", JString (js "Bounded CLI and MCP tooling for large-file-safe OmegaEdit sessions."))].

Definition instructions : string :=
  "Use omega_edit_run_file for self-cleaning one-shot file work. For one operation pass {filePath, tool, arguments}; for pipelines pass {filePath, operations: [{tool, arguments}]}. Create a session only for longer workflows. Keep reads bounded, preview patches before applying them when possible, and use undo/redo for reversible changes.".

Definition on_initialize (s : mcp) (id : jsval) (params : jsobject) : mcp * list jsobject :=
  match getString params "protocolVersion" with
  | Throw e => (s, [internal_error id e])
  | Ok version =>
      let requestedVersion := default DEFAULT_PROTOCOL_VERSION (truthy_path version) in
      (with_handshake true false s,
       [makeResult id
          [(js "protocolVersion", JString
              (if bool_decide (requestedVersion = DEFAULT_PROTOCOL_VERSION) then requestedVersion
               else DEFAULT_PROTOCOL_VERSION));
           (js "capabilities", JObject [(js "tools", JObject [])]);
           (js "serverInfo", serverInfo);
           (js "instructions", JString (js instructions))]])
  end.

(** The call with the number, aborted. *)
Definition abort_call (call : nat) (l : list tool_call) : list tool_call :=
  map (fun c => if (tc_number c =? call)%nat then abort c else c) l.

Definition on_cancelled (s : mcp) (params : jsobject) : mcp :=
  match primitive_key (get (js "requestId") params) ≫= fun key => get_active key (activeToolRequests s) with
  | Some call => with_calls (activeToolRequests s) (abort_call call (running s)) s
  | None => s
  end.

Definition start_call (s : mcp) (id : jsval) (name : jsstring) (arguments : jsobject) : mcp :=
  let call := started s in
  mkMcp (initializeComplete s) (receivedInitializedNotification s)
    (if is_missing id then activeToolRequests s else set_active (call_key call id) call (activeToolRequests s))
    (running s ++ [mkCall call id name arguments false]) (S call) (crashed s).

Definition on_tool_call (s : mcp) (id : jsval) (params : jsobject) : mcp * list jsobject :=
  match requiredString params "name" with
  | Throw e => (s, [internal_error id e])
  | Ok name =>
      if known_tool name then (start_call s id name (asObject (get (js "arguments") params)), [])
      else (s, [makeErrorResponse (or_null id) (-32601) (js "Unknown tool: " ++ name)])
  end.

Definition on_request (s : mcp) (id : jsval) (method : jsstring) (params : jsobject) : mcp * list jsobject :=
  if is_method method "initialize" then on_initialize s id params
  else if is_method method "notifications/initialized" then
    ((if initializeComplete s then with_handshake true true s else s), [])
  else if is_method method "notifications/cancelled" then (on_cancelled s params, [])
  else if is_method method "ping" then (s, [makeResult id []])
  else if negb (mcp_ready s) then
    (s, [makeErrorResponse (or_null id) (-32002) (js "Server has not completed MCP initialization")])
  else if is_method method "tools/list" then (s, [makeResult id [(js "tools", JArray tools_list)]])
  else if is_method method "tools/call" then on_tool_call s id params
  else (s, [makeErrorResponse (or_null id) (-32601) (js "Method not found: " ++ method)]).

(** The listener of [line]; an exception that leaves it ends the process. *)
Definition on_line (s : mcp) (line : jsstring) : mcp * list jsobject :=
  match read_message line with
  | Blank => (s, [])
  | NotJson => (s, [makeErrorResponse JNull (-32700) (js "Parse error")])
  | NullMessage => (crash s, [])
  | Invalid id => (s, [makeErrorResponse (or_null id) (-32600) (js "Invalid Request")])
  | Request id method params => on_request s id method params
  end.

(** ** Ends *)

Definition toolResult (data : jsobject) (isError : bool) : jsobject :=
  [(js "content", JArray [JObject [(js "type", JString (js "text")); (js "text", JString (JSON_pretty data))]]);
   (js "structuredContent", JObject data); (js "isError", JBool isError)].

Definition tool_answer (c : tool_call) (e : tool_end) : jsobject :=
  makeResult (tc_id c)
    match e with
    | Returned result => toolResult result false
    | Rejected message report =>
        toolResult ([(js "tool", JString (tc_tool c)); (js "error", JString message)] ++ opt_prop "result" report) true
    end.

(** [finally]: only its own entry is deleted. *)
Definition drop_active (c : tool_call) (l : list (map_key * nat)) : list (map_key * nat) :=
  if bool_decide (get_active (call_key (tc_number c) (tc_id c)) l = Some (tc_number c))
  then List.filter (fun p => negb (bool_decide (p.1 = call_key (tc_number c) (tc_id c)))) l else l.

Definition on_end (s : mcp) (call : nat) (e : tool_end) : mcp * list jsobject :=
  match List.find (fun c => (tc_number c =? call)%nat) (running s) with
  | Some c =>
      (with_calls (drop_active c (activeToolRequests s))
         (List.filter (fun c => negb (tc_number c =? call)%nat) (running s)) s, [tool_answer c e])
  | None => (s, [])
  end.

(** ** Runs *)

Inductive mcp_event :=
  | Line (line : jsstring)
  | Ends (call : nat) (e : tool_end).

Definition on_event (s : mcp) (ev : mcp_event) : mcp * list jsobject :=
  if crashed s then (s, [])
  else match ev with
       | Line line => on_line s line
       | Ends call e => on_end s call e
       end.

(** The state and the answers after a sequence of events. *)
Fixpoint serve (s : mcp) (evs : list mcp_event) : mcp * list jsobject :=
  match evs with
  | [] => (s, [])
  | ev :: evs =>
      let '(s1, out) := on_event s ev in
      let '(s2, out') := serve s1 evs in (s2, out ++ out')
  end.
End Server.

(** ** Numbers of calls *)

(** Calls have numbers of their own. *)
Record numbered (s : mcp) : Prop := {
  numbers_differ : NoDup (map tc_number (running s));
  numbers_used : Forall (fun c => (tc_number c < started s)%nat) (running s)
}.

Lemma abort_call_map {A} (f : tool_call -> A) call l :
  (forall c, f (abort c) = f c) -> map f (abort_call call l) = map f l.
Proof.
  intros Hf. unfold abort_call. rewrite map_map. apply map_ext. intros c. by destruct (tc_number c =? call)%nat.
Qed.

Lemma abort_Forall (P : tool_call -> Prop) call l :
  (forall c, P c -> P (abort c)) -> Forall P l -> Forall P (abort_call call l).
Proof.
  intros Ha Hl. unfold abort_call. apply Forall_map. eapply Forall_impl; [done|]. cbn. intros c Hc.
  destruct (tc_number c =? call)%nat; auto.
Qed.

Lemma find_call call l c : List.find (fun c => (tc_number c =? call)%nat) l = Some c ->
  tc_number c = call /\ In c l.
Proof. intros Hf. apply find_some in Hf as [Hi He]. by apply Nat.eqb_eq in He. Qed.

(** The call that ends and the others. *)
Lemma split_call call l c : NoDup (map tc_number l) ->
  List.find (fun c => (tc_number c =? call)%nat) l = Some c ->
  exists l1 l2, l = l1 ++ c :: l2 /\ List.filter (fun c => negb (tc_number c =? call)%nat) l = l1 ++ l2.
Proof.
  intros Hd Hf. destruct (find_call _ _ _ Hf) as [<- Hi]. apply in_split in Hi as (l1 & l2 & ->).
  exists l1, l2. split; [done|].
  assert (Hs : forall k, ~ In (tc_number c) (map tc_number k) ->
    List.filter (fun d => negb (tc_number d =? tc_number c)%nat) k = k).
  { intros k. induction k as [|d k IH]; [done|]. cbn. intros Hn.
    destruct (Nat.eqb_spec (tc_number d) (tc_number c)); [tauto|]. cbn. rewrite IH; tauto. }
  rewrite map_app in Hd. cbn in Hd. rewrite NoDup_ListNoDup in Hd. apply NoDup_remove_2 in Hd.
  rewrite in_app_iff in Hd. rewrite List.filter_app. cbn. rewrite Nat.eqb_refl. cbn.
  rewrite !Hs; tauto.
Qed.

Section Accounts.
Context `{McpRuntime}.

Lemma on_line_cases (P : mcp -> Prop) s line :
  P s -> P (crash s) -> (forall a b, P (with_handshake a b s)) ->
  (forall call, P (with_calls (activeToolRequests s) (abort_call call (running s)) s)) ->
  (forall id name args, P (start_call s id name args)) -> P (on_line s line).1.
Proof.
  intros Hs Hcrash Hh Ha Hc. unfold on_line. destruct (read_message line) as [| | |id|id method params]; try done.
  unfold on_request, on_initialize, on_cancelled, on_tool_call.
  repeat match goal with |- context [if ?b then _ else _] => destruct b
    | |- context [match getString ?o ?k with _ => _ end] => destruct (getString o k)
    | |- context [match requiredString ?o ?k with _ => _ end] => destruct (requiredString o k) end; cbn; auto.
  case_match; auto.
Qed.

Lemma on_line_numbered s line : numbered s -> numbered (on_line s line).1.
Proof.
  intros [Hd Hu]. apply on_line_cases; try (by split).
  - intros call. split; cbn; [by rewrite abort_call_map|by apply abort_Forall].
  - intros id name args. split; cbn.
    + rewrite map_app. apply NoDup_app. split; [done|]. split; [|apply NoDup_singleton].
      intros n Hn Hn'. cbn in Hn'. apply list_elem_of_singleton in Hn' as ->. apply list_elem_of_In, in_map_iff in Hn as (c & En & Hc).
      rewrite List.Forall_forall in Hu. apply Hu in Hc. lia.
    + apply Forall_app. split; [|by repeat constructor].
      eapply Forall_impl; [exact Hu|]. cbn. lia.
Qed.

Lemma on_end_numbered s call e : numbered s -> numbered (on_end s call e).1.
Proof.
  intros [Hd Hu]. unfold on_end. destruct (List.find _ (running s)) as [c|] eqn:Hf; [|by split].
  destruct (split_call _ _ _ Hd Hf) as (l1 & l2 & E & E'). split; cbn; rewrite E'.
  - rewrite E, map_app in Hd. cbn in Hd. rewrite map_app. rewrite NoDup_ListNoDup in *.
    by eapply NoDup_remove_1.
  - rewrite E in Hu. apply Forall_app in Hu as [H1 H2]. inversion_clear H2. apply Forall_app. by split.
Qed.

Lemma on_event_numbered s ev : numbered s -> numbered (on_event s ev).1.
Proof.
  intros Hs. unfold on_event. destruct (crashed s); [done|]. destruct ev; [by apply on_line_numbered|by apply on_end_numbered].
Qed.
End Accounts.

(** ** Answers are owed and given *)

Section Answers.
Context `{McpRuntime}.

(** The id under which a line is to be answered; notifications are not. *)
Definition owed (line : jsstring) : option jsval :=
  match read_message line with
  | Blank | NullMessage => None
  | NotJson => Some JNull
  | Invalid id => Some (or_null id)
  | Request id method _ =>
      if is_method method "notifications/initialized" || is_method method "notifications/cancelled" then None
      else Some (or_null id)
  end.

Definition response_id (o : jsobject) : jsval := or_null (get (js "id") o).

Definition lines_of (evs : list mcp_event) : list jsstring :=
  omap (fun ev => match ev with Line line => Some line | Ends _ _ => None end) evs.

(** A line that is [null], which ends the server. *)
Definition is_null (ev : mcp_event) : bool :=
  match ev with Line line => match read_message line with NullMessage => true | _ => false end | Ends _ _ => false end.

(** What comes before the first such line, and what after it. *)
Fixpoint up_to_null (evs : list mcp_event) : list mcp_event * option (list mcp_event) :=
  match evs with
  | [] => ([], None)
  | ev :: evs =>
      if is_null ev then ([], Some evs) else let '(before, after) := up_to_null evs in (ev :: before, after)
  end.

(** What is owed for the calls under way. *)
Definition owed_calls (s : mcp) : list jsval := map (fun c => or_null (tc_id c)) (running s).

Lemma or_null_idem id : or_null (or_null id) = or_null id.
Proof. by destruct id. Qed.

Lemma error_id id code message : response_id (makeErrorResponse id code message) = or_null id.
Proof. reflexivity. Qed.

Lemma result_id id result : response_id (makeResult id result) = or_null id.
Proof. reflexivity. Qed.

Lemma start_owed s id name args : owed_calls (start_call s id name args) = owed_calls s ++ [or_null id].
Proof. unfold owed_calls, start_call. cbn. by rewrite map_app. Qed.

Lemma line_answered s line :
  map response_id (on_line s line).2 ++ owed_calls (on_line s line).1 ≡ₚ option_list (owed line) ++ owed_calls s.
Proof.
  unfold on_line, owed. destruct (read_message line) as [| | |id|id method params]; try done.
  { cbn. rewrite error_id. by destruct id. }
  unfold on_request. destruct (is_method method "initialize") eqn:E1.
  { apply bool_decide_eq_true in E1 as ->. unfold on_initialize. cbn.
    destruct (getString params "protocolVersion"); cbn; [done|]. by destruct id. }
  destruct (is_method method "notifications/initialized"); [by destruct (initializeComplete s)|].
  destruct (is_method method "notifications/cancelled").
  { cbn. unfold on_cancelled. case_match; [|done]. unfold owed_calls. cbn. by rewrite abort_call_map. }
  destruct (is_method method "ping"); [done|]. cbn [orb option_list].
  destruct (mcp_ready s); cbn [negb]; [|cbn; by destruct id].
  destruct (is_method method "tools/list"); [done|].
  destruct (is_method method "tools/call"); [|cbn; by destruct id].
  unfold on_tool_call. destruct (requiredString params "name") as [name|e]; cbn [fst snd map app];
    [|by destruct id].
  destruct (known_tool name); cbn [fst snd map app]; [|by destruct id].
  rewrite start_owed. by rewrite Permutation_app_comm.
Qed.

Lemma end_answered s call e : numbered s ->
  map response_id (on_end s call e).2 ++ owed_calls (on_end s call e).1 ≡ₚ owed_calls s.
Proof.
  intros [Hd _]. unfold on_end. destruct (List.find _ (running s)) as [c|] eqn:Hf; [|done].
  destruct (split_call _ _ _ Hd Hf) as (l1 & l2 & E & E'). unfold owed_calls. cbn [fst snd map app running with_calls].
  rewrite E', E, !map_app. cbn. by rewrite Permutation_middle.
Qed.

Lemma line_crashed s line : crashed s = false ->
  crashed (on_line s line).1 = match read_message line with NullMessage => true | _ => false end.
Proof.
  intros Hs. unfold on_line, on_request, on_initialize, on_cancelled, on_tool_call.
  destruct (read_message line) as [| | |id|id method params]; try done.
  repeat case_match; done.
Qed.

Lemma end_crashed s call e : crashed (on_end s call e).1 = crashed s.
Proof. unfold on_end. by case_match. Qed.

Lemma serve_crashed s evs : crashed s = true -> serve s evs = (s, []).
Proof.
  intros Hs. induction evs as [|ev evs IH]; [done|]. cbn. unfold on_event. by rewrite Hs, IH.
Qed.

Lemma event_crashed s ev : crashed s = false -> crashed (on_event s ev).1 = is_null ev.
Proof.
  intros Hs. unfold on_event. rewrite Hs. destruct ev as [line|call e]; cbn [is_null]; [by apply line_crashed|].
  by rewrite end_crashed.
Qed.

Lemma event_answered s ev : numbered s -> crashed s = false ->
  map response_id (on_event s ev).2 ++ owed_calls (on_event s ev).1 ≡ₚ omap owed (lines_of [ev]) ++ owed_calls s.
Proof.
  intros Hn Hs. unfold on_event. rewrite Hs. destruct ev as [line|call e]; cbn.
  - rewrite line_answered. by destruct (owed line).
  - by apply end_answered.
Qed.

Lemma serve_answered evs : forall s, numbered s -> crashed s = false -> forallb (fun ev => negb (is_null ev)) evs = true ->
  let '(s', out) := serve s evs in
  map response_id out ++ owed_calls s' ≡ₚ omap owed (lines_of evs) ++ owed_calls s /\
  numbered s' /\ crashed s' = false.
Proof.
  induction evs as [|ev evs IH]; intros s Hn Hs Hall; [done|]. cbn [serve forallb] in *.
  apply andb_true_iff in Hall as [Hev Hall]. apply negb_true_iff in Hev.
  pose proof (on_event_numbered s ev Hn) as Hn1. pose proof (event_crashed s ev Hs) as Hs1.
  pose proof (event_answered s ev Hn Hs) as Ha. destruct (on_event s ev) as [s1 out]. cbn [fst snd] in *.
  specialize (IH s1 Hn1 ltac:(congruence) Hall). destruct (serve s1 evs) as [s2 out'].
  destruct IH as (IH & Hn2 & Hs2). split; [|done].
  change (ev :: evs) with ([ev] ++ evs). unfold lines_of in *. rewrite !omap_app, map_app, <- !app_assoc, IH.
  rewrite (Permutation_app_comm _ (owed_calls s1)), app_assoc, Ha, <- app_assoc. apply Permutation_app_head, Permutation_app_comm.
Qed.

Lemma serve_both evs1 : forall s evs2,
  serve s (evs1 ++ evs2) =
  ((serve (serve s evs1).1 evs2).1, (serve s evs1).2 ++ (serve (serve s evs1).1 evs2).2).
Proof.
  induction evs1 as [|ev evs1 IH]; intros s evs2; cbn; [by destruct (serve s evs2)|].
  destruct (on_event s ev) as [s1 out]. rewrite IH. destruct (serve s1 evs1) as [s2 out']. cbn. by rewrite app_assoc.
Qed.

Lemma up_to_null_spec evs :
  let '(before, after) := up_to_null evs in
  forallb (fun ev => negb (is_null ev)) before = true /\
  match after with
  | None => before = evs
  | Some after => exists ev, is_null ev = true /\ evs = before ++ ev :: after
  end.
Proof.
  induction evs as [|ev evs IH]; [done|]. cbn. destruct (is_null ev) eqn:En; [by split; [|exists ev]|].
  destruct (up_to_null evs) as [before after]. destruct IH as [Hb Ha]. cbn. rewrite En. split; [exact Hb|].
  destruct after as [after|]; [|by subst]. destruct Ha as (ev' & Hn & ->). by exists ev'.
Qed.

(** The end of a call under way is its answer. *)
Lemma running_answered s c e : numbered s -> crashed s = false -> In c (running s) ->
  (on_event s (Ends (tc_number c) e)).2 = [tool_answer c e].
Proof.
  intros [Hd _] Hs Hc. unfold on_event, on_end. rewrite Hs.
  destruct (List.find (fun d => (tc_number d =? tc_number c)%nat) (running s)) as [d|] eqn:Hf.
  - destruct (find_call _ _ _ Hf) as [En Hi]. cbn. do 2 f_equal.
    apply in_split in Hc as (l1 & l2 & E). rewrite E in Hd, Hi. rewrite map_app in Hd. cbn in Hd.
    rewrite NoDup_ListNoDup in Hd. apply NoDup_remove_2 in Hd. rewrite <- map_app in Hd.
    apply in_app_iff in Hi as [Hi|[->|Hi]]; [|done|]; destruct Hd; rewrite <- En; apply in_map, in_app_iff; auto.
  - apply (List.find_none _ _ Hf) in Hc. by rewrite Nat.eqb_refl in Hc.
Qed.

(** C30 As long as no line is [null], whatever lines arrive and in whatever
    order tools end, every line that is owed an answer has exactly one under
    its id, or is a call under way, and the end of such a call is answered
    under its id; nothing else is answered.  A line that is [null] ends the
    server: what was answered before it stays all that is answered, so that
    the calls under way then, and all lines after it, are never answered. *)
Theorem every_message_answered evs :
  let '(before, after) := up_to_null evs in
  let '(s, out) := serve initial_mcp before in
  map response_id out ++ owed_calls s ≡ₚ omap owed (lines_of before) /\
  match after with
  | None => before = evs /\
      forall c e, In c (running s) -> (on_event s (Ends (tc_number c) e)).2 = [tool_answer c e] /\
        response_id (tool_answer c e) = or_null (tc_id c)
  | Some _ => (serve initial_mcp evs).2 = out
  end.
Proof.
  pose proof (up_to_null_spec evs) as Hu. destruct (up_to_null evs) as [before after]. destruct Hu as [Hb Ha].
  assert (Hn0 : numbered initial_mcp) by (split; constructor).
  pose proof (serve_answered before initial_mcp Hn0 eq_refl Hb) as Hs.
  destruct (serve initial_mcp before) as [s out] eqn:E. destruct Hs as (Hs & Hn & Hc).
  split; [by rewrite Hs, app_nil_r|]. destruct after as [after|].
  - destruct Ha as (ev & Hev & ->). rewrite serve_both, E. cbn [fst snd serve].
    pose proof (event_crashed s ev Hc) as Hc1. rewrite Hev in Hc1.
    assert (Ho : (on_event s ev).2 = []).
    { unfold on_event. rewrite Hc. destruct ev as [line|call e]; [|done]. unfold on_line. cbn in Hev.
      by destruct (read_message line). }
    destruct (on_event s ev) as [s1 o]. cbn in Hc1, Ho. subst o. rewrite serve_crashed by done. cbn. by rewrite app_nil_r.
  - split; [done|]. intros c e Hi. split; [by apply running_answered|]. unfold tool_answer. apply result_id.
Qed.
End Answers.

(** ** The handshake *)

Lemma serve_app `{McpRuntime} evs1 : forall s evs2,
  (serve s (evs1 ++ evs2)).1 = (serve (serve s evs1).1 evs2).1.
Proof.
  induction evs1 as [|ev evs1 IH]; intros s evs2; [done|]. cbn. destruct (on_event s ev) as [s1 out].
  specialize (IH s1 evs2). destruct (serve s1 (evs1 ++ evs2)), (serve s1 evs1). done.
Qed.

Lemma serve_snoc `{McpRuntime} s evs ev : (serve s (evs ++ [ev])).1 = (on_event (serve s evs).1 ev).1.
Proof. rewrite serve_app. cbn. by destruct (on_event _ ev). Qed.

Section Handshake.
Context `{McpRuntime}.

(** An [initialize] that is accepted, and the notification that follows. *)
Definition initializes (line : jsstring) : bool :=
  match read_message line with
  | Request _ method params => is_method method "initialize" && is_ok (getString params "protocolVersion")
  | _ => false
  end.

Definition notifies (line : jsstring) : bool :=
  match read_message line with
  | Request _ method _ => is_method method "notifications/initialized"
  | _ => false
  end.

Definition no_initialize (l : list jsstring) : Prop := Forall (fun line => initializes line = false) l.

Definition introduced (l : list jsstring) : Prop :=
  exists before line since, l = before ++ line :: since /\ initializes line = true /\ no_initialize since.

(** The last accepted [initialize] was followed by the notification. *)
Definition shaken (l : list jsstring) : Prop :=
  exists before line between line' since, l = before ++ line :: between ++ line' :: since /\
    initializes line = true /\ notifies line' = true /\ no_initialize (between ++ line' :: since).

Definition introduced_as (s : mcp) (l : list jsstring) : Prop :=
  (initializeComplete s = true -> introduced l) /\ (receivedInitializedNotification s = true -> shaken l).

Lemma introduced_more l line : initializes line = false -> introduced l -> introduced (l ++ [line]).
Proof.
  intros Hl (b & i & c & -> & Hi & Hc). exists b, i, (c ++ [line]). rewrite <- app_assoc. split_and!; try done.
  apply Forall_app. split; [done|]. by repeat constructor.
Qed.

Lemma shaken_more l line : initializes line = false -> shaken l -> shaken (l ++ [line]).
Proof.
  intros Hl (b & i & c & n & d & -> & Hi & Hn & Hc). exists b, i, c, n, (d ++ [line]). split_and!; try done.
  - rewrite <- !app_assoc. cbn. by rewrite <- app_assoc.
  - rewrite app_comm_cons, app_assoc. apply Forall_app. split; [done|]. by repeat constructor.
Qed.

Lemma notified l line : initializes line = false -> notifies line = true -> introduced l -> shaken (l ++ [line]).
Proof.
  intros Hl Hn (b & i & c & -> & Hi & Hc). exists b, i, c, line, []. split_and!; try done.
  - by rewrite <- app_assoc.
  - apply Forall_app. split; [done|]. by repeat constructor.
Qed.

(** A line keeps the flags, or sets them for what it is. *)
Lemma line_flags s line :
  let s' := (on_line s line).1 in
  (initializes line = true /\ initializeComplete s' = true /\ receivedInitializedNotification s' = false) \/
  (initializes line = false /\ initializeComplete s' = initializeComplete s /\
   (receivedInitializedNotification s' = receivedInitializedNotification s \/
    notifies line = true /\ initializeComplete s = true)).
Proof.
  unfold on_line, initializes, notifies. destruct (read_message line) as [| | |id|id method params]; try (right; by auto).
  unfold on_request, on_initialize, on_cancelled, on_tool_call. destruct (is_method method "initialize").
  { destruct (getString params "protocolVersion"); cbn; [by left|right; auto]. }
  cbn [andb]. right. split; [done|]. destruct (is_method method "notifications/initialized").
  { destruct (initializeComplete s) eqn:E; cbn; auto. }
  repeat case_match; cbn; auto.
Qed.

Lemma line_introduced s l line : introduced_as s l -> introduced_as (on_line s line).1 (l ++ [line]).
Proof.
  intros [Hi Hr]. destruct (line_flags s line) as [(Hl & E1 & E2)|(Hl & E1 & [E2|[Hn Hc]])].
  - split; [|by rewrite E2]. intros _. exists l, line, []. by repeat constructor.
  - split; rewrite ?E1, ?E2; intros E; [apply introduced_more|apply shaken_more]; auto.
  - split; [rewrite E1; intros E; apply introduced_more; auto|]. intros _. apply notified; auto.
Qed.

Lemma end_flags s call e l : introduced_as s l -> introduced_as (on_end s call e).1 l.
Proof. unfold on_end. by case_match. Qed.

(** An invariant of the state and the lines read, by events. *)
Lemma served_ind (P : mcp -> list jsstring -> Prop) :
  P initial_mcp [] ->
  (forall s l line, crashed s = false -> numbered s -> P s l -> P (on_line s line).1 (l ++ [line])) ->
  (forall s l call e, numbered s -> P s l -> P (on_end s call e).1 l) ->
  forall evs, crashed (serve initial_mcp evs).1 = false ->
    numbered (serve initial_mcp evs).1 /\ P (serve initial_mcp evs).1 (lines_of evs).
Proof.
  intros H0 Hl He evs. induction evs as [|ev evs IH] using rev_ind; [split; [split; constructor|done]|].
  rewrite serve_snoc. unfold on_event. destruct (crashed (serve initial_mcp evs).1) eqn:Hc; [cbn [fst]; congruence|].
  intros Hc'. destruct (IH eq_refl) as [Hn HP]. destruct ev as [line|call e].
  - unfold lines_of. rewrite omap_app. split; [by apply on_line_numbered|by apply Hl].
  - unfold lines_of. rewrite omap_app, app_nil_r. split; [by apply on_end_numbered|by apply He].
Qed.

(** A tool is started only when the last [initialize] the server accepted has
    been followed by the client's notification. *)
Theorem tools_after_handshake evs line :
  started (serve initial_mcp (evs ++ [Line line])).1 = started (serve initial_mcp evs).1 \/ shaken (lines_of evs).
Proof.
  rewrite serve_snoc. unfold on_event. destruct (crashed (serve initial_mcp evs).1) eqn:Hc; [by left|].
  destruct (served_ind introduced_as) with evs as [_ [_ Hr]]; [by split|..|done|].
  - intros. by apply line_introduced.
  - intros. by apply end_flags.
  - destruct (mcp_ready (serve initial_mcp evs).1) eqn:Hm; [right|left].
    + apply andb_true_iff in Hm as [_ Hm]. auto.
    + unfold on_line, on_request, on_initialize, on_cancelled. rewrite Hm. cbn [negb].
      repeat case_match; done.
Qed.
End Handshake.

(** ** Cancellation *)

Definition entry (c : tool_call) : map_key * nat := (call_key (tc_number c) (tc_id c), tc_number c).

(** A call that can be cancelled has an id. *)
Definition cancellable (c : tool_call) : bool := negb (is_missing (tc_id c)).

Lemma set_new key call l : ~ In key (map fst l) -> set_active key call l = l ++ [(key, call)].
Proof.
  induction l as [|[k n] l IH]; [done|]. cbn. intros Hn. destruct (decide (k = key)); [tauto|]. rewrite IH; tauto.
Qed.

Lemma get_none key l : ~ In key (map fst l) -> get_active key l = None.
Proof.
  unfold get_active. induction l as [|[k n] l IH]; [done|]. cbn. intros Hn.
  destruct (bool_decide_reflect (k = key)); [tauto|]. apply IH. tauto.
Qed.

Lemma get_middle key call l1 l2 : ~ In key (map fst l1) -> get_active key (l1 ++ (key, call) :: l2) = Some call.
Proof.
  unfold get_active. induction l1 as [|[k n] l1 IH]; cbn.
  - intros _. by rewrite bool_decide_eq_true_2.
  - intros Hn. destruct (bool_decide_reflect (k = key)); [tauto|]. apply IH. tauto.
Qed.

Lemma others_kept key (l : list (map_key * nat)) : ~ In key (map fst l) ->
  List.filter (fun p => negb (bool_decide (p.1 = key))) l = l.
Proof.
  induction l as [|[k n] l IH]; [done|]. cbn. intros Hn. destruct (bool_decide_reflect (k = key)); [tauto|].
  cbn. rewrite IH; tauto.
Qed.

Lemma drop_middle key call (l1 l2 : list (map_key * nat)) : ~ In key (map fst (l1 ++ l2)) ->
  List.filter (fun p => negb (bool_decide (p.1 = key))) (l1 ++ (key, call) :: l2) = l1 ++ l2.
Proof.
  rewrite map_app, in_app_iff. intros Hn. rewrite List.filter_app. cbn. rewrite bool_decide_eq_true_2 by done. cbn.
  rewrite !others_kept; tauto.
Qed.

Lemma abort_filter call l :
  map entry (List.filter cancellable (abort_call call l)) = map entry (List.filter cancellable l).
Proof.
  induction l as [|c l IH]; [done|]. cbn [abort_call map]. unfold abort_call in *. cbn [map List.filter].
  change (cancellable (if (tc_number c =? call)%nat then abort c else c)) with
    (negb (is_missing (tc_id (if (tc_number c =? call)%nat then abort c else c)))).
  destruct (tc_number c =? call)%nat; cbn [abort tc_id]; change (negb (is_missing (tc_id c))) with (cancellable c);
    destruct (cancellable c); cbn [map]; by rewrite IH.
Qed.

Section Cancel.
Context `{McpRuntime}.

(** The key under which a line that calls a tool is known. *)
Definition called (line : jsstring) : option map_key :=
  match read_message line with
  | Request id method _ => if is_method method "tools/call" && negb (is_missing id) then primitive_key id else None
  | _ => None
  end.

Record tracked (s : mcp) (l : list jsstring) : Prop := {
  active_running : activeToolRequests s = map entry (List.filter cancellable (running s));
  active_distinct : NoDup (map fst (activeToolRequests s));
  active_called : Forall (fun c => cancellable c = true ->
    match primitive_key (tc_id c) with Some k => In k (omap called l) | None => True end) (running s)
}.

Lemma tracked_more s l line : tracked s l -> tracked s (l ++ [line]).
Proof.
  intros [Hr Hd Hc]. split; [done..|]. eapply Forall_impl; [exact Hc|]. cbn. intros c Hk Hm. specialize (Hk Hm).
  destruct (primitive_key (tc_id c)); [|done]. rewrite omap_app. apply in_app_iff. by left.
Qed.

Lemma key_of_call n id k : negb (is_missing id) = true -> call_key n id = k ->
  k <> KUndefined /\ k <> KNull /\ (primitive_key id = Some k \/ primitive_key id = None /\ k = KMessage n).
Proof. unfold call_key. destruct id; cbn; intros Hm <-; try done; auto. Qed.

Lemma new_key s l line id : numbered s -> tracked s l -> NoDup (omap called (l ++ [line])) ->
  negb (is_missing id) = true -> called line = primitive_key id ->
  ~ In (call_key (started s) id) (map fst (activeToolRequests s)).
Proof.
  intros [_ Hu] [Hr _ Hc] Hd Hm Hl Hin. rewrite Hr, map_map in Hin. apply in_map_iff in Hin as (c & Ek & Hin).
  apply filter_In in Hin as [Hin Hcc]. rewrite List.Forall_forall in Hu, Hc. specialize (Hc c Hin Hcc). specialize (Hu c Hin).
  unfold entry in Ek. cbn [fst] in Ek.
  destruct (key_of_call (started s) id _ Hm eq_refl) as (_ & _ & [Hp|[Hp Hk]]);
    destruct (key_of_call _ _ _ Hcc Ek) as (_ & _ & [Hp'|[Hp' Hk']]).
  - rewrite Hp' in Hc. rewrite omap_app in Hd. cbn in Hd. rewrite Hl, Hp in Hd. apply NoDup_app in Hd as (_ & Hd & _).
    apply (Hd (call_key (started s) id)); [by apply list_elem_of_In|by left].
  - rewrite Hk' in Hp. by destruct id.
  - rewrite Hk in Hp'. by destruct (tc_id c).
  - rewrite Hk in Hk'. injection Hk' as E. lia.
Qed.

Lemma start_tracked s l line id name args : numbered s -> tracked s l -> NoDup (omap called (l ++ [line])) ->
  called line = (if is_missing id then None else primitive_key id) -> tracked (start_call s id name args) (l ++ [line]).
Proof.
  intros Hn Ht Hd Hl. pose proof (tracked_more s l line Ht) as [Hr Ha Hc].
  assert (Hcall : Forall (fun c => cancellable c = true ->
    match primitive_key (tc_id c) with Some k => In k (omap called (l ++ [line])) | None => True end)
    (running s ++ [mkCall (started s) id name args false])).
  { apply Forall_app. split; [done|]. constructor; [|done]. unfold cancellable. cbn. intros Hm.
    apply negb_true_iff in Hm. rewrite Hm in Hl. destruct (primitive_key id) eqn:Ep; [|done].
    rewrite omap_app. apply in_app_iff. right. cbn. rewrite Hl. by left. }
  assert (Hcalls : map entry (List.filter cancellable (running s ++ [mkCall (started s) id name args false])) =
    activeToolRequests s ++ if is_missing id then [] else [(call_key (started s) id, started s)]).
  { rewrite List.filter_app, map_app, <- Hr. unfold cancellable. cbn. by destruct (is_missing id). }
  destruct (is_missing id) eqn:Em; split; unfold start_call; cbn [activeToolRequests running]; rewrite ?Em, ?Hcalls; try done.
  - by rewrite app_nil_r.
  - apply set_new. apply (new_key s l line); try done. by rewrite Em.
  - assert (Hnew : ~ In (call_key (started s) id) (map fst (activeToolRequests s))).
    { apply (new_key s l line); try done. by rewrite Em. }
    rewrite set_new by done. rewrite map_app. cbn. apply NoDup_app. split; [done|]. split; [|apply NoDup_singleton].
    intros k Hk Hk'. apply list_elem_of_singleton in Hk' as ->. by apply list_elem_of_In in Hk.
Qed.

Lemma end_tracked s l call e : numbered s -> tracked s l -> tracked (on_end s call e).1 l.
Proof.
  intros [Hnum _] [Hr Hd Hc]. unfold on_end. destruct (List.find _ (running s)) as [c|] eqn:Hf; [|by split].
  destruct (split_call _ _ _ Hnum Hf) as (l1 & l2 & E & E').
  assert (Hc' : Forall (fun c => cancellable c = true ->
    match primitive_key (tc_id c) with Some k => In k (omap called l) | None => True end) (l1 ++ l2)).
  { rewrite E in Hc. apply Forall_app in Hc as [H1 H2]. inversion_clear H2. apply Forall_app. by split. }
  assert (Ha : drop_active c (activeToolRequests s) = map entry (List.filter cancellable (l1 ++ l2)) /\
    NoDup (map fst (map entry (List.filter cancellable (l1 ++ l2))))).
  { rewrite Hr, E in *. rewrite !List.filter_app, !map_app in *. cbn [List.filter] in *. unfold drop_active.
    destruct (cancellable c) eqn:Ec; cbn [map] in *.
    - unfold entry at 2 in Hd. cbn [fst] in Hd. rewrite NoDup_ListNoDup in Hd.
      pose proof (NoDup_remove_1 _ _ _ Hd) as Hd1. apply NoDup_remove_2 in Hd. rewrite in_app_iff in Hd.
      change (entry c) with (call_key (tc_number c) (tc_id c), tc_number c). rewrite get_middle, bool_decide_eq_true_2 by tauto.
      rewrite drop_middle by (rewrite map_app, in_app_iff; tauto). rewrite NoDup_ListNoDup. by split.
    - split; [|done]. rewrite get_none; [done|]. rewrite <- map_app, <- List.filter_app, map_map. intros Hin.
      apply in_map_iff in Hin as (d & Ek & Hin). apply filter_In in Hin as [_ Hin].
      destruct (key_of_call _ _ _ Hin Ek) as (H1 & H2 & _). unfold cancellable in Ec.
      destruct (tc_id c); cbn in *; try done. }
  destruct Ha as [Ha Hnd]. split; cbn [fst activeToolRequests running with_calls]; rewrite ?E', ?Ha; try done.
Qed.
Lemma line_tracked s l line : numbered s -> (NoDup (omap called l) -> tracked s l) ->
  NoDup (omap called (l ++ [line])) -> tracked (on_line s line).1 (l ++ [line]).
Proof.
  intros Hn Hs Hd.
  assert (Ht : tracked s l). { apply Hs. rewrite omap_app in Hd. by apply NoDup_app in Hd as [Hd _]. }
  pose proof (tracked_more s l line Ht) as Hm. unfold on_line.
  destruct (read_message line) as [| | |id|id method params] eqn:Em; try done; [by destruct Hm|].
  unfold on_request, on_initialize, on_cancelled, on_tool_call.
  destruct (is_method method "initialize"); [destruct (getString _ _); [by destruct Hm|done]|].
  destruct (is_method method "notifications/initialized"); [destruct (initializeComplete s); [by destruct Hm|done]|].
  destruct (is_method method "notifications/cancelled").
  { cbn [fst]. case_match; [|done]. destruct Hm as [Hr Ha Hc]. split; cbn [with_calls activeToolRequests running]; try done.
    - by rewrite abort_filter.
    - apply abort_Forall; [|done]. by intros []. }
  destruct (is_method method "ping"), (negb (mcp_ready s)), (is_method method "tools/list"); try done.
  destruct (is_method method "tools/call") eqn:Et; [|done].
  destruct (requiredString params "name") as [name|]; [|done]. destruct (known_tool name); [|done].
  apply (start_tracked s l line); try done. unfold called. rewrite Em, Et. by destruct (is_missing id).
Qed.

Lemma served_tracked evs : crashed (serve initial_mcp evs).1 = false -> NoDup (omap called (lines_of evs)) ->
  numbered (serve initial_mcp evs).1 /\ tracked (serve initial_mcp evs).1 (lines_of evs).
Proof.
  intros Hc Hd. refine ((fun H => conj (proj1 H) (proj2 H Hd)) _).
  apply (served_ind (fun s l => NoDup (omap called l) -> tracked s l)); [..|done].
  - intros ?. split; constructor.
  - intros s l line _ Hn Hs. by apply line_tracked.
  - intros s l call e Hn Hs Hl. by apply end_tracked; [|apply Hs].
Qed.

Lemma map_injective {A B} (f : A -> B) l x y : NoDup (map f l) -> In x l -> In y l -> f x = f y -> x = y.
Proof.
  induction l as [|z l IH]; [done|]. cbn. rewrite NoDup_cons, list_elem_of_In. intros [Hz Hd] [->|Hx] [->|Hy] E; try done.
  - destruct Hz. rewrite E. by apply in_map.
  - destruct Hz. rewrite <- E. by apply in_map.
  - auto.
Qed.

Lemma active_found s l key n : tracked s l -> get_active key (activeToolRequests s) = Some n ->
  exists c, In c (running s) /\ cancellable c = true /\ call_key (tc_number c) (tc_id c) = key /\ tc_number c = n.
Proof.
  intros [Hr _ _] Hg. unfold get_active in Hg. destruct (List.find _ _) as [[k m]|] eqn:Hf; [|done].
  injection Hg as ->. apply find_some in Hf as [Hi Hk]. apply bool_decide_eq_true in Hk as <-. rewrite Hr in Hi.
  apply in_map_iff in Hi as (c & Ec & Hi). apply filter_In in Hi as [Hi Hc]. injection Ec as <- <-. by exists c.
Qed.

Lemma active_present s l c : tracked s l -> In c (running s) -> cancellable c = true ->
  get_active (call_key (tc_number c) (tc_id c)) (activeToolRequests s) = Some (tc_number c).
Proof.
  intros [Hr Hd _] Hi Hc. assert (He : In (entry c) (activeToolRequests s)).
  { rewrite Hr. apply in_map. by apply filter_In. }
  apply in_split in He as (l1 & l2 & E). rewrite E in *. change (entry c) with (call_key (tc_number c) (tc_id c), tc_number c) in *.
  rewrite map_app in Hd. cbn in Hd. rewrite NoDup_ListNoDup in Hd. apply NoDup_remove_2 in Hd. rewrite in_app_iff in Hd.
  apply get_middle. tauto.
Qed.

Lemma call_key_primitive n id key : primitive_key id = Some key -> call_key n id = key.
Proof. unfold call_key. by intros ->. Qed.

Lemma primitive_call n id id' key : primitive_key id' = Some key -> call_key n id = key -> primitive_key id = Some key.
Proof. unfold call_key. destruct (primitive_key id) as [k|]; cbn; [by intros _ ->|]. intros Hp <-. by destruct id'. Qed.

(** As long as the client gives its tool calls ids of their own, a
    cancellation aborts the call under way that it names and leaves every
    other call, and the rest of the server, as it was. *)
Theorem cancel_exact evs line id params key :
  crashed (serve initial_mcp evs).1 = false -> NoDup (omap called (lines_of evs)) ->
  read_message line = Request id (js "notifications/cancelled") params ->
  primitive_key (get (js "requestId") params) = Some key ->
  let s := (serve initial_mcp evs).1 in
  on_line s line = (with_calls (activeToolRequests s)
    (map (fun c => if cancellable c && bool_decide (primitive_key (tc_id c) = Some key) then abort c else c) (running s)) s, []).
Proof.
  intros Hs Hd Hm Hk s. destruct (served_tracked evs Hs Hd) as [[Hnum _] Ht]. fold s in Hnum, Ht.
  unfold on_line. rewrite Hm. change (on_request s id (js "notifications/cancelled") params) with (on_cancelled s params, @nil jsobject).
  f_equal. unfold on_cancelled. rewrite Hk. cbn [mbind option_bind].
  destruct (get_active key (activeToolRequests s)) as [n|] eqn:Hg.
  - f_equal. apply map_ext_in. intros d Hin. destruct (active_found _ _ _ _ Ht Hg) as (c & Hc & Hcc & Ek & <-).
    destruct (Nat.eqb_spec (tc_number d) (tc_number c)) as [E|E].
    + rewrite (map_injective tc_number _ d c Hnum Hin Hc E), Hcc. cbn. by rewrite bool_decide_eq_true_2 by by eapply primitive_call.
    + destruct (cancellable d) eqn:Hcd; [|done]. rewrite bool_decide_eq_false_2; [done|]. intros Ek'.
      pose proof (active_present _ _ _ Ht Hin Hcd) as Hg'. rewrite (call_key_primitive _ _ _ Ek') in Hg'. congruence.
  - destruct s as [a b active calls n x]. cbn in *. unfold with_calls. cbn. f_equal. rewrite <- (map_id calls) at 1.
    apply map_ext_in. intros d Hin. destruct (cancellable d) eqn:Hcd; [|done]. cbn.
    rewrite bool_decide_eq_false_2; [done|]. intros Ek.
    pose proof (active_present _ _ _ Ht Hin Hcd) as Hg'. cbn in Hg'. rewrite (call_key_primitive _ _ _ Ek) in Hg'. congruence.
Qed.
End Cancel.

(** A client whose messages are known by a name each. *)
Module SpokenMessages.

Definition rpc_message (id : jsval) (method : string) (params : jsobject) : jsval :=
  JObject [(js "jsonrpc", JString (js "2.0")); (js "id", id); (js "method", JString (js method));
           (js "params", JObject params)].

Definition tool_message (id : Z) (tool : string) : jsval :=
  rpc_message (JNumber (NInt id)) "tools/call" [(js "name", JString (js tool))].

Definition spoken (line : jsstring) : option jsval :=
  let said s := bool_decide (line = js s) in
  if said "hello" then Some (rpc_message (JNumber (NInt 0)) "initialize" [])
  else if said "ready" then Some (rpc_message JUndefined "notifications/initialized" [])
  else if said "info" then Some (tool_message 1 "omega_edit_server_info")
  else if said "undo" then Some (tool_message 2 "omega_edit_undo")
  else if said "stop 1" then Some (rpc_message JUndefined "notifications/cancelled" [(js "requestId", JNumber (NInt 1))])
  else if said "null" then Some JNull
  else None.

Definition english : McpRuntime := {|
  mcp_json := {| JSON_parse := spoken; JSON_stringify := fun _ => [] |};
  JSON_pretty := fun _ => [];
  TOOLING_VERSION := js "1.0.1"
|}.

Definition lines (l : list string) : list mcp_event := map (fun s => Line (js s)) l.

End SpokenMessages.

Lemma cancel_exact_witness :
  let s := (serve (H := SpokenMessages.english) initial_mcp (SpokenMessages.lines ["hello"; "ready"; "info"; "undo"])).1 in
  map tc_aborted (running (on_line (H := SpokenMessages.english) s (js "stop 1")).1) = [true; false].
Proof.
  cbv zeta. rewrite (cancel_exact (H := SpokenMessages.english) _ _ JUndefined [(js "requestId", JNumber (NInt 1))] (KNumber (NInt 1))).
  - vm_compute. reflexivity.
  - vm_compute. reflexivity.
  - apply (bool_decide_unpack _). vm_compute. exact I.
  - vm_compute. reflexivity.
  - vm_compute. reflexivity.
Defined.

(** A call is refused before the handshake and starts after it; a line that
    is [null] ends the server with calls under way unanswered. *)
Example calls_and_null :
  let serve_lines l := (serve (H := SpokenMessages.english) initial_mcp (SpokenMessages.lines l)).1 in
  started (serve_lines ["hello"; "info"]) = 0%nat /\
  started (serve_lines ["hello"; "ready"; "info"]) = 1%nat /\
  crashed (serve_lines ["hello"; "ready"; "info"; "null"; "undo"]) = true /\
  length (running (serve_lines ["hello"; "ready"; "info"; "null"; "undo"])) = 1%nat.
Proof. repeat split; vm_compute; reflexivity. Qed.

(** Two calls with one id: the first can no longer be cancelled. *)
Example id_used_twice :
  let s := (serve (H := SpokenMessages.english) initial_mcp
    (SpokenMessages.lines ["hello"; "ready"; "info"; "info"; "stop 1"])).1 in
  map tc_aborted (running s) = [false; true] /\
  let s' := (on_event (H := SpokenMessages.english) s (Ends 1 (Returned []))).1 in
  map tc_aborted (running (on_event (H := SpokenMessages.english) s' (Line (js "stop 1"))).1) = [false].
Proof. repeat split; vm_compute; reflexivity. Qed.
