(* ===== verification/ServerProcesses.v ===== *)
(** * Processes and ports ([packages/client/src/server.ts])

    Finding the process that listens on a port or a socket, and stopping it.
    What the functions ask of the operating system is a [host_op]; a [Host]
    answers it, and [sys] also keeps what was asked and answered, in order, so
    that theorems can speak of the signals that were sent.

    [stop_process_sound]: a process that is reported to be stopped is gone,
    and the number of signals is bounded.  [dies_before_kill]: the process
    that goes between the last look and [SIGKILL] is reported as running.
    [netstat_port_exact] and [ss_port_prefix]: which process is taken for the
    one on a port. *)

From S2P Require Import Prelude JsText JsValue AiToolkit UnaryCalls.

Open Scope jsm_scope.

(** ** The operating system *)

Inductive platform := Linux | Windows | OtherPlatform.

(** Replies of the server about itself. *)
Inductive ServerControlKind := GracefulShutdown | ImmediateShutdown.
Inductive ServerControlStatus := StatusUnspecified | StatusCompleted | StatusDraining | StatusOther (code : Z).
Record ServerControlResponse := mkControl { control_pid : option number; control_status : option ServerControlStatus }.

Record ServerInfoResponse := mkInfo {
  hostname : jsstring;
  processId : number;
  serverVersion : jsstring;
  runtimeKind : jsstring;
  runtimeName : jsstring;
  server_platform : jsstring;
  availableProcessors : number;
  compiler : jsstring;
  buildType : jsstring;
  cppStandard : jsstring
}.

Record GetHeartbeatResponse := mkHeartbeat {
  hb_sessionCount : number;
  hb_timestamp : number;
  hb_uptime : number;
  hb_cpuCount : number;
  hb_loadAverage : option number;
  hb_residentMemoryBytes : option number;
  hb_virtualMemoryBytes : option number;
  hb_peakResidentMemoryBytes : option number
}.

(** [Kill] with the signal 0 only looks; [Listen] binds a port and closes it
    again; [Spawn] is [runServer] or [runServerWithArgs] of the package
    [@omega-edit/server] and returns the pid; [AwaitSocket] waits for the
    socket while the process runs ([ServerControl.FileWait]); [OpenClient] is
    [getClient] with a target, [CurrentClient] without one ([ClientConnection]);
    the last three are calls of the server. *)
Inductive host_op : Type -> Type :=
  | Kill (pid : Z) (signal : jsstring) : host_op unit
  | Delay (ms : Z) : host_op unit
  | Now : host_op Z
  | ExecFile (program : string) (args : list jsstring) : host_op jsstring
  | Listen (port : Z) (address : jsstring) : host_op unit
  | ConnectSocket (path : jsstring) : host_op unit
  | Exists (path : jsstring) : host_op bool
  | Stat (path : jsstring) : host_op unit
  | ReadText (path : jsstring) : host_op jsstring
  | Unlink (path : jsstring) : host_op unit
  | MakeDirectory (path : jsstring) : host_op unit
  | Spawn (args : list jsstring) : host_op (option Z)
  | WaitPort (port : Z) (address : jsstring) : host_op unit
  | AwaitSocket (path : jsstring) (pid : option Z) (ms : Z) : host_op unit
  | OpenClient (port : Z) (address : jsstring) (socket : option jsstring) : host_op unit
  | CurrentClient : host_op unit
  | ResetClient : host_op unit
  | ServerControlCall (kind : ServerControlKind) : host_op (outcome ServerControlResponse)
  | ServerInfoCall : host_op (outcome ServerInfoResponse)
  | HeartbeatCall (sessionIds : list jsstring) : host_op (outcome GetHeartbeatResponse).

Class Host (W : Type) := {
  host_platform : platform;
  answer : forall A, host_op A -> M W A
}.
Arguments answer {W _ A} op.

(** What is kept of a call. *)
Inductive host_event :=
  | HKill (pid : Z) (signal : jsstring) (done : result unit)
  | HSpawn (args : list jsstring) (pid : result (option Z))
  | HUnlink (path : jsstring) (done : result unit)
  | HListen (port : Z) (address : jsstring) (done : result unit)
  | HClient (port : Z) (address : jsstring) (socket : option jsstring) (done : result unit)
  | HOther.

Definition event_of {A} (op : host_op A) : result A -> host_event :=
  match op in host_op A return result A -> host_event with
  | Kill pid signal => HKill pid signal
  | Spawn args => HSpawn args
  | Unlink path => HUnlink path
  | Listen port address => HListen port address
  | OpenClient port address socket => HClient port address socket
  | _ => fun _ => HOther
  end.

Record sys (W : Type) := mkSys { world : W; trace : list host_event }.
Arguments mkSys {W}.
Arguments world {W}.
Arguments trace {W}.

Definition sys_error (code : string) : exn := Exn "SystemError" code.
Definition is_code (e : exn) (code : string) : bool :=
  bool_decide (exn_class e = "SystemError"%string) && bool_decide (exn_code e = code).

Section Calls.
Context {W : Type} `{Host W}.

Definition perform {A} (op : host_op A) : M (sys W) A := fun s =>
  let '(w, r) := answer op (world s) in (mkSys w (trace s ++ [event_of op r]), r).

(** [try { m } catch (err) { handler }] *)
Definition catchM {A} (m : M (sys W) A) (handler : exn -> M (sys W) A) : M (sys W) A := fun s =>
  match m s with
  | (s', Ok a) => (s', Ok a)
  | (s', Throw e) => handler e s'
  end.

(** ** Stopping a process *)

Definition KILL_YIELD_MS : Z := 1000.

Definition pidIsRunning (pid : Z) : M (sys W) bool :=
  catchM (perform (Kill pid (js "0")) ;;; retM true)
    (fun e => if is_code e "ESRCH" then retM false else throwM e).

(** [Math.ceil(KILL_YIELD_MS / maxRetries)]; a timer of no or of infinite
    length is one of a millisecond. *)
Definition yield_ms (maxRetries : Z) : Z :=
  if 0 <? maxRetries then - (- KILL_YIELD_MS / maxRetries) else 1.

(** One attempt: stopped, failed, or to be tried again. *)
Definition stop_attempt (pid : Z) (signal : jsstring) (ms : Z) : M (sys W) (option bool) :=
  catchM
    (perform (Kill pid signal) ;;; perform (Delay ms) ;;;
     let* up := pidIsRunning pid in retM (if up then None else Some true))
    (fun e => retM (Some (is_code e "ESRCH"))).

Fixpoint stop_attempts (n : nat) (pid : Z) (signal : jsstring) (ms : Z) : M (sys W) (option bool) :=
  match n with
  | O => retM None
  | S n =>
      let* stopped := stop_attempt pid signal ms in
      match stopped with
      | Some b => retM (Some b)
      | None => stop_attempts n pid signal ms
      end
  end.

Definition stopProcessUsingPID (pid : Z) (signal : jsstring) (maxRetries : Z) (fallbackToKill : bool)
  : M (sys W) bool :=
  let ms := yield_ms maxRetries in
  let* stopped := stop_attempts (Z.to_nat maxRetries) pid signal ms in
  match stopped with
  | Some b => retM b
  | None =>
      if fallbackToKill then
        catchM (perform (Kill pid (js "SIGKILL")) ;;; perform (Delay ms) ;;;
                let* up := pidIsRunning pid in retM (negb up))
          (fun _ => retM false)
      else retM false
  end.

(** With the defaults. *)
Definition stop_process (pid : Z) : M (sys W) bool := stopProcessUsingPID pid (js "SIGTERM") 10 true.
End Calls.

(** ** What is sent *)

(** A signal that is not a look. *)
Definition is_signal (e : host_event) : bool :=
  match e with HKill _ signal _ => negb (bool_decide (signal = js "0")) | _ => false end.

Definition signals (l : list host_event) : nat := length (List.filter is_signal l).

(** Calls that concern the process alone. *)
Definition spares (pid : Z) (e : host_event) : Prop :=
  match e with HKill p _ _ => p = pid | HOther => True | _ => False end.

Lemma signals_app l1 l2 : signals (l1 ++ l2) = (signals l1 + signals l2)%nat.
Proof. unfold signals. by rewrite List.filter_app, length_app. Qed.

Section Sends.
Context {W : Type} `{Host W} (pid : Z).

(** [m] adds to the trace at most [k] signals, all for the process. *)
Definition sends {A} (k : nat) (m : M (sys W) A) : Prop := forall s, exists l,
  trace (m s).1 = trace s ++ l /\ Forall (spares pid) l /\ (signals l <= k)%nat.

Lemma sends_ret {A} k (a : A) : sends k (retM a).
Proof. intros s. exists []. rewrite app_nil_r. split_and!; try done. cbn. lia. Qed.

Lemma sends_throw {A} k e : sends k (throwM e : M (sys W) A).
Proof. intros s. exists []. rewrite app_nil_r. split_and!; try done. cbn. lia. Qed.

Lemma sends_weaken {A} k j (m : M (sys W) A) : sends k m -> (k <= j)%nat -> sends j m.
Proof. intros Hm Hj s. destruct (Hm s) as (l & E & Hl & Hk). exists l. split_and!; try done. lia. Qed.

Lemma sends_perform {A} (op : host_op A) : (forall r, spares pid (event_of op r)) ->
  sends (match op with Kill _ signal => if bool_decide (signal = js "0") then 0 else 1 | _ => 0 end) (perform op).
Proof.
  intros Hp s. unfold perform. destruct (answer op (world s)) as [w r]. exists [event_of op r].
  split_and!; [done|by constructor|]. destruct op; cbn in *; try lia.
  unfold signals. cbn. case_bool_decide; cbn; lia.
Qed.

Lemma sends_bind {A B} k j (m : M (sys W) A) (f : A -> M (sys W) B) :
  sends k m -> (forall a, sends j (f a)) -> sends (k + j) (bindM m f).
Proof.
  intros Hm Hf s. destruct (Hm s) as (l & E & Hl & Hk). unfold bindM. destruct (m s) as [s1 [a|e]]; cbn in E.
  - destruct (Hf a s1) as (l' & E' & Hl' & Hj). exists (l ++ l'). rewrite E', E, app_assoc, signals_app.
    split_and!; [done|by apply Forall_app|lia].
  - exists l. split_and!; try done. lia.
Qed.

Lemma sends_catch {A} k j (m : M (sys W) A) h : sends k m -> (forall e, sends j (h e)) -> sends (k + j) (catchM m h).
Proof.
  intros Hm Hh s. destruct (Hm s) as (l & E & Hl & Hk). unfold catchM. destruct (m s) as [s1 [a|e]]; cbn in E.
  - exists l. split_and!; try done. lia.
  - destruct (Hh e s1) as (l' & E' & Hl' & Hj). exists (l ++ l'). rewrite E', E, app_assoc, signals_app.
    split_and!; [done|by apply Forall_app|lia].
Qed.

Lemma sends_look : sends 0 (pidIsRunning pid).
Proof.
  unfold pidIsRunning. apply (sends_catch 0 0).
  - apply (sends_bind 0 0); [|intros ?; apply sends_ret].
    eapply sends_weaken; [apply (sends_perform (Kill pid (js "0"))); done|]. by rewrite bool_decide_eq_true_2.
  - intros e. destruct (is_code e "ESRCH"); [apply sends_ret|apply sends_throw].
Qed.

Lemma sends_kill signal : sends 1 (perform (Kill pid signal)).
Proof. eapply sends_weaken; [by apply sends_perform|]. cbn. case_bool_decide; lia. Qed.

Lemma sends_delay ms : sends 0 (perform (Delay ms)).
Proof. by apply (sends_perform (Delay ms)). Qed.

(** A signal, a pause and a look. *)
Lemma sends_round {A} signal ms (f : bool -> A) (h : exn -> A) :
  sends 1 (catchM (perform (Kill pid signal) ;;; perform (Delay ms) ;;; let* up := pidIsRunning pid in retM (f up))
             (fun e => retM (h e))).
Proof.
  apply (sends_catch 1 0); [|intros; apply sends_ret].
  apply (sends_bind 1 0); [apply sends_kill|intros _]. apply (sends_bind 0 0); [apply sends_delay|intros _].
  apply (sends_bind 0 0); [apply sends_look|intros; apply sends_ret].
Qed.

Lemma sends_attempts n signal ms : sends n (stop_attempts n pid signal ms).
Proof.
  induction n as [|n IH]; [apply sends_ret|]. cbn [stop_attempts].
  apply (sends_bind 1 n); [apply (sends_round signal ms (fun up => if up then None else Some true))|].
  intros [b|]; [|done]. apply sends_ret.
Qed.

Lemma sends_stop signal maxRetries fallback :
  sends (Z.to_nat maxRetries + 1) (stopProcessUsingPID pid signal maxRetries fallback).
Proof.
  unfold stopProcessUsingPID. apply sends_bind; [apply sends_attempts|]. intros [b|]; [apply sends_ret|].
  destruct fallback; [|apply sends_ret]. apply (sends_round (js "SIGKILL") _ negb).
Qed.
End Sends.

(** ** What is stopped *)

(** The processes of a host: a call that finds none says so, and a process
    that is gone does not come back while it is being stopped. *)
Class ProcessLaws (W : Type) `{Host W} (alive : W -> Z -> bool) : Prop := {
  kill_gone pid signal w w' e :
    answer (Kill pid signal) w = (w', Throw e) -> is_code e "ESRCH" = true -> alive w' pid = false;
  kill_stays pid pid' signal w : alive w pid = false -> alive (answer (Kill pid' signal) w).1 pid = false;
  delay_returns ms w : exists w', answer (Delay ms) w = (w', Ok tt);
  delay_stays pid ms w : alive w pid = false -> alive (answer (Delay ms) w).1 pid = false
}.

Section Stopping.
Context {W : Type} `{Host W} (alive : W -> Z -> bool) `{!ProcessLaws W alive}.

(** [m] never throws, and returns what [ok] takes only when the process is gone. *)
Definition truthful {A} (pid : Z) (ok : A -> bool) (m : M (sys W) A) : Prop := forall s,
  match m s with (s', Ok a) => ok a = true -> alive (world s') pid = false | (_, Throw _) => False end.

Lemma look_spec pid s : match pidIsRunning pid s with
  | (s', Ok false) => alive (world s') pid = false
  | (_, Ok true) => True
  | (_, Throw e) => is_code e "ESRCH" = false
  end.
Proof.
  unfold pidIsRunning, catchM, bindM, perform. destruct (answer (Kill pid (js "0")) (world s)) as [w [[]|e]] eqn:E; [done|].
  destruct (is_code e "ESRCH") eqn:Ee; [|done]. cbn. by eapply kill_gone.
Qed.

(** A round of the loops: [f] of what was seen, [h] of what was thrown. *)
Lemma round_truthful {A} pid signal ms (f : bool -> A) (h : exn -> A) (ok : A -> bool) :
  ok (f true) = false -> (forall e, ok (h e) = true -> is_code e "ESRCH" = true) ->
  truthful pid ok (catchM (perform (Kill pid signal) ;;; perform (Delay ms) ;;;
    let* up := pidIsRunning pid in retM (f up)) (fun e => retM (h e))).
Proof.
  intros Hf Hh s. unfold catchM, bindM at 1, perform at 1.
  destruct (answer (Kill pid signal) (world s)) as [w [[]|e]] eqn:E; cbn [fst snd].
  2: { intros Ho. by eapply kill_gone, Hh. }
  unfold bindM at 1, perform. cbn [world]. destruct (delay_returns ms w) as (w' & ->).
  match goal with |- context [bindM (pidIsRunning pid) _ ?s0] => pose proof (look_spec pid s0) as Hl; unfold bindM;
    destruct (pidIsRunning pid s0) as [s' [[]|e]] end; cbn.
  - by rewrite Hf.
  - done.
  - intros Ho. apply Hh in Ho. congruence.
Qed.

Definition says_stopped (r : option bool) : bool := default false r.

Lemma attempts_truthful n pid signal ms : truthful pid says_stopped (stop_attempts n pid signal ms).
Proof.
  induction n as [|n IH]; intros s; [done|]. cbn [stop_attempts]. unfold bindM.
  pose proof (round_truthful pid signal ms (fun up => if up then None else Some true)
    (fun e => Some (is_code e "ESRCH")) says_stopped eq_refl (fun e He => He) s) as Ha.
  cbv beta in Ha. fold (stop_attempt pid signal ms) in Ha. destruct (stop_attempt pid signal ms s) as [s1 [[b|]|e]]; [exact Ha|apply IH|exact Ha].
Qed.

Lemma stop_truthful pid signal maxRetries fallback : truthful pid id (stopProcessUsingPID pid signal maxRetries fallback).
Proof.
  intros s. unfold stopProcessUsingPID, bindM at 1.
  pose proof (attempts_truthful (Z.to_nat maxRetries) pid signal (yield_ms maxRetries) s) as Ha.
  destruct (stop_attempts _ pid signal _ s) as [s1 [[b|]|e]]; [done| |done].
  destruct fallback; [|done]. by apply (round_truthful pid (js "SIGKILL") _ negb (fun _ => false)).
Qed.

(** Whatever the process does with its signals: [stopProcessUsingPID] always
    returns, reports a process as stopped only when it is gone, touches no
    other process, and sends at most one signal more than [maxRetries]. *)
Theorem stop_process_sound pid signal maxRetries fallbackToKill s :
  exists b l, (stopProcessUsingPID pid signal maxRetries fallbackToKill s).2 = Ok b /\
    let s' := (stopProcessUsingPID pid signal maxRetries fallbackToKill s).1 in
    (b = true -> alive (world s') pid = false) /\
    trace s' = trace s ++ l /\ Forall (spares pid) l /\ (signals l <= Z.to_nat maxRetries + 1)%nat.
Proof.
  destruct (sends_stop pid signal maxRetries fallbackToKill s) as (l & El & Hl & Hn).
  pose proof (stop_truthful pid signal maxRetries fallbackToKill s) as Ht.
  destruct (stopProcessUsingPID pid signal maxRetries fallbackToKill s) as [s' [b|e]]; [|done].
  exists b, l. by split_and!.
Qed.
End Stopping.

(** ** Reading what tools print *)

(** [s.split(/\r?\n/)] *)
Fixpoint split_lines (s : jsstring) : list jsstring :=
  match s with
  | [] => [[]]
  | c :: t =>
      match split_lines t with
      | [] => [[c]]
      | line :: lines =>
          if c =? 10 then [] :: line :: lines
          else if (c =? 13) && match t with d :: _ => d =? 10 | [] => false end then line :: lines
          else (c :: line) :: lines
      end
  end.

(** [s.split('\n')] *)
Fixpoint split_newlines (s : jsstring) : list jsstring :=
  match s with
  | [] => [[]]
  | c :: t =>
      match split_newlines t with
      | [] => [[c]]
      | line :: lines => if c =? 10 then [] :: line :: lines else (c :: line) :: lines
      end
  end.

(** [line.trim().split(/\s+/)] of a line that is not blank; a blank one has
    no words here and one, empty, there, which is too few for any use. *)
Fixpoint words (s : jsstring) : list jsstring :=
  match s with
  | [] => []
  | c :: t =>
      let ws := words t in
      if is_js_space c then ws
      else if match t with d :: _ => is_js_space d | [] => true end then [c] :: ws
      else match ws with w :: ws => (c :: w) :: ws | [] => [[c]] end
  end.

Definition contains (needle s : jsstring) : bool := Unsubscribe.includes needle s.
Definition ends_with (suffix s : jsstring) : bool := starts_with (rev suffix) (rev s).

(** [s.toUpperCase()] as far as a comparison with capital letters can tell. *)
Definition upper_unit (c : Z) : jsstring :=
  if (97 <=? c) && (c <=? 122) then [c - 32]
  else if c =? 305 then js "I" else if c =? 383 then js "S" else if c =? 223 then js "SS"
  else if c =? 64256 then js "FF" else if c =? 64257 then js "FI" else if c =? 64258 then js "FL"
  else if c =? 64259 then js "FFI" else if c =? 64260 then js "FFL"
  else if (c =? 64261) || (c =? 64262) then js "ST"
  else [c].

Definition is_upper (s : jsstring) (word : string) : bool := bool_decide (flat_map upper_unit s = js word).

Definition parseFirstPid (stdout : jsstring) : option Z :=
  match List.find (fun line => negb (length line =? 0)%nat) (map trim (split_lines stdout)) with
  | None => None
  | Some pid =>
      match parse_int pid with
      | Some parsed => if parsed <=? 0 then None else Some parsed
      | None => None
      end
  end.

(** [line.match(/pid=(\d+)/)] *)
Fixpoint pid_equals (line : jsstring) : option Z :=
  let here := if starts_with (js "pid=") line then digits_prefix (drop 4 line) else [] in
  match here, line with
  | _ :: _, _ => Some (decimal_value here)
  | [], [] => None
  | [], _ :: line => pid_equals line
  end.

Definition colon_port (port : Z) : jsstring := 58 :: decimal_string port.

(** The first line of [ss] that listens and names the port and has a pid. *)
Fixpoint ss_pid (port : Z) (lines : list jsstring) : option Z :=
  match lines with
  | [] => None
  | line :: lines =>
      if contains (js "LISTEN") line && contains (colon_port port) line then
        match pid_equals line with Some pid => Some pid | None => ss_pid port lines end
      else ss_pid port lines
  end.

(** [pidProgram.match(/^(\d+)\//)] *)
Definition pid_program (s : jsstring) : option Z :=
  match digits_prefix s with
  | [] => None
  | ds => match drop (length ds) s with 47 :: _ => Some (decimal_value ds) | _ => None end
  end.

Fixpoint netstat_linux_pid (port : Z) (lines : list jsstring) : option Z :=
  match lines with
  | [] => None
  | line :: lines =>
      match words line with
      | _ :: _ :: _ :: localAddress :: _ :: state :: pidProgram :: _ =>
          if ends_with (colon_port port) localAddress && is_upper state "LISTEN" then
            match pid_program pidProgram with Some pid => Some pid | None => netstat_linux_pid port lines end
          else netstat_linux_pid port lines
      | _ => netstat_linux_pid port lines
      end
  end.

Fixpoint netstat_pid (port : Z) (lines : list jsstring) : option Z :=
  match lines with
  | [] => None
  | line :: lines =>
      match words line with
      | proto :: localAddress :: _ :: state :: pidText :: _ =>
          if is_upper proto "TCP" && ends_with (colon_port port) localAddress && is_upper state "LISTENING"
          then parse_int pidText
          else netstat_pid port lines
      | _ => netstat_pid port lines
      end
  end.

Section Lookup.
Context {W : Type} `{Host W}.

(** [try { ... } catch { }; return undefined] *)
Definition or_undefined (m : M (sys W) (option Z)) : M (sys W) (option Z) := catchM m (fun _ => retM None).

Definition getPidByPortWithSs (port : Z) : M (sys W) (option Z) :=
  or_undefined (let* stdout := perform (ExecFile "ss" [js "-ltnp"]) in retM (ss_pid port (split_lines stdout))).

Definition getPidByPortWithNetstatLinux (port : Z) : M (sys W) (option Z) :=
  or_undefined (let* stdout := perform (ExecFile "netstat" [js "-ltnp"]) in
                retM (netstat_linux_pid port (split_lines stdout))).

Definition getPidByPortWithNetstat (port : Z) : M (sys W) (option Z) :=
  or_undefined (let* stdout := perform (ExecFile "netstat" [js "-ano"; js "-p"; js "tcp"]) in
                retM (netstat_pid port (split_lines stdout))).

Definition getPidByPort (port : Z) : M (sys W) (option Z) :=
  match host_platform with
  | Windows => getPidByPortWithNetstat port
  | p =>
      catchM
        (let* stdout := perform (ExecFile "lsof" [js "-t"; js "-iTCP:" ++ decimal_string port; js "-sTCP:LISTEN";
                                                  js "-n"; js "-P"]) in
         retM (parseFirstPid stdout))
        (fun _ =>
           match p with
           | Linux =>
               let* pid := getPidByPortWithSs port in
               match pid with Some pid => retM (Some pid) | None => getPidByPortWithNetstatLinux port end
           | _ => retM None
           end)
  end.

(** A pid of 0 counts as none. *)
Definition truthy_pid (pid : option Z) : option Z := match pid with Some 0 => None | _ => pid end.

Definition stopServiceOnPort (port : Z) : M (sys W) bool :=
  catchM
    (let* pid := getPidByPort port in
     match truthy_pid pid with Some pid => stop_process pid | None => retM true end)
    (fun e => retM (bool_decide (exn_class e = "Error"%string) &&
                    starts_with (js "Could not find a process that uses port") (js (exn_code e)))).

Definition distinct (l : list Z) : list Z := rev (fold_left (fun seen x => if existsb (Z.eqb x) seen then seen else x :: seen) l []).

Definition getPidBySocket (socketPath : jsstring) : M (sys W) (option Z) :=
  let* stdout := perform (ExecFile "lsof" [js "-t"; js "--"; socketPath]) in
  match distinct (omap parse_int (List.filter (fun line => negb (length line =? 0)%nat) (map trim (split_newlines stdout)))) with
  | [] => retM None
  | [pid] => retM (Some pid)
  | _ => throwM (plain_error "Multiple PIDs found for socket; refusing to choose arbitrarily")
  end.

(** A socket without a known process counts as one that could not be stopped. *)
Definition stopServiceOnSocket (socketPath : jsstring) : M (sys W) bool :=
  catchM
    (let* pid := getPidBySocket socketPath in
     match truthy_pid pid with Some pid => stop_process pid | None => retM false end)
    (fun _ => retM false).

(** [isPortAvailable] *)
Definition isPortAvailable (port : Z) (address : jsstring) : M (sys W) bool :=
  catchM (perform (Listen port address) ;;; retM true)
    (fun e => if is_code e "EADDRINUSE" then retM false else throwM e).

(** [isSocketActive]: a time-out counts as a failure to connect. *)
Definition isSocketActive (socketPath : jsstring) : M (sys W) bool :=
  let* there := perform (Exists socketPath) in
  if there then catchM (perform (ConnectSocket socketPath) ;;; retM true) (fun _ => retM false) else retM false.

(** The loop of [findFirstAvailablePort] over [n] ports. *)
Fixpoint first_available (n : nat) (port : Z) : M (sys W) (option Z) :=
  match n with
  | O => retM None
  | S n =>
      let* free := isPortAvailable port (js "0.0.0.0") in
      if free then retM (Some port) else first_available n (port + 1)
  end.

Definition findFirstAvailablePort (startPort endPort : Z) : M (sys W) (option Z) :=
  first_available (Z.to_nat (endPort - startPort + 1)) startPort.
End Lookup.

(** ** Which process is on a port *)

Lemma starts_with_app p s : starts_with p s = true <-> exists t, s = p ++ t.
Proof.
  revert s. induction p as [|c p IH]; intros s; [split; [by exists s|done]|]. destruct s as [|d s]; cbn.
  - split; [done|]. by intros [t Ht].
  - rewrite andb_true_iff, Z.eqb_eq, IH. split.
    + intros [-> [t ->]]. by exists t.
    + intros [t Ht]. injection Ht as -> ->. split; [done|by exists t].
Qed.

Lemma ends_with_app p s : ends_with p s = true <-> exists t, s = t ++ p.
Proof.
  unfold ends_with. rewrite starts_with_app. split.
  - intros [t Ht]. exists (rev t). by rewrite <- (rev_involutive s), Ht, rev_app_distr, rev_involutive.
  - intros [t ->]. exists (rev t). by rewrite rev_app_distr.
Qed.

Lemma canonical_no_colon s : canonical_decimal s = true -> ~ In 58 s.
Proof.
  destruct s as [|c t]; [done|]. cbn [canonical_decimal]. intros Hs Hin.
  assert (Hd : forall l, forallb is_digit l = true -> ~ In 58 l).
  { intros l Hl Hi. rewrite forallb_forall in Hl. by apply Hl in Hi. }
  apply orb_true_iff in Hs as [Hs|Hs]; apply andb_true_iff in Hs as [Hc Ht].
  - apply Z.eqb_eq in Hc as ->. destruct t; [|done]. by destruct Hin as [Hin|].
  - destruct Hin as [->|Hin]; [done|by apply (Hd t)].
Qed.

Lemma last_colon (a t x y : jsstring) : a ++ 58 :: x = t ++ 58 :: y -> ~ In 58 x -> ~ In 58 y -> x = y.
Proof.
  revert t. induction a as [|c a IH]; intros [|d t] E Hx Hy; [by injection E|..]; injection E as E1 E2.
  - destruct Hx. rewrite E2. apply in_app_iff. right. by left.
  - destruct Hy. rewrite <- E2. apply in_app_iff. right. by left.
  - by apply (IH t).
Qed.

(** A local address of [netstat] is taken for the port it ends with and for
    no other: not 80 for 8080. *)
Theorem netstat_port_exact address p q : 0 <= p -> 0 <= q ->
  ends_with (colon_port q) (address ++ colon_port p) = true <-> p = q.
Proof.
  intros Hp Hq. destruct (decimal_string_spec p Hp) as [Ep Hcp], (decimal_string_spec q Hq) as [Eq Hcq].
  rewrite ends_with_app. split; [|intros ->; by eexists].
  intros [t Ht]. apply last_colon in Ht; [congruence|by apply canonical_no_colon..].
Qed.

Lemma netstat_port_exact_witness :
  ends_with (colon_port 80) (js "127.0.0.1" ++ colon_port 8080) = true <-> 8080 = 80.
Proof. apply netstat_port_exact; lia. Defined.

Definition ss_line : jsstring :=
  js "LISTEN 0 511 127.0.0.1:8080 0.0.0.0:* users:((node,pid=4242,fd=18))".

(** The lines of [ss] are searched for the digits of the port anywhere: the
    process on 8080 is taken for the one on port 80. *)
Example ss_port_prefix : ss_pid 80 [ss_line] = Some 4242 /\ ss_pid 8080 [ss_line] = Some 4242 /\ ss_pid 9 [ss_line] = None.
Proof. repeat split; vm_compute; reflexivity. Qed.

Example netstat_read :
  netstat_linux_pid 8080 (split_lines (js "Active Internet connections
tcp        0      0 127.0.0.1:18080      0.0.0.0:*    LISTEN   7/other
tcp        0      0 127.0.0.1:8080       0.0.0.0:*    LISTEN   4242/node ")) = Some 4242 /\
  netstat_pid 8080 (split_lines (js "  TCP    0.0.0.0:8080   0.0.0.0:0   LISTENING   4242")) = Some 4242 /\
  parseFirstPid (js "
 4242
4243
") = Some 4242.
Proof. repeat split; vm_compute; reflexivity. Qed.

(** ** A machine to run the functions on

    Processes with a port, a socket or a pid file; one that is asked to end
    does so after some pauses and takes its pid file along, as the native
    server does; one that is killed leaves it. *)
Module Sandbox.

Record process := mkProcess {
  p_pid : Z;
  p_port : option Z;
  p_socket : option jsstring;
  p_pidfile : option jsstring;
  p_lives : nat;
  p_dying : bool
}.

Record machine := mkMachine {
  procs : list process;
  files : list (jsstring * jsstring);
  next_pid : Z;
  clock : Z;
  clients_connect : bool
}.

Definition with_procs (l : list process) (m : machine) : machine :=
  mkMachine l (files m) (next_pid m) (clock m) (clients_connect m).
Definition with_files (l : list (jsstring * jsstring)) (m : machine) : machine :=
  mkMachine (procs m) l (next_pid m) (clock m) (clients_connect m).
Definition later (ms : Z) (m : machine) : machine :=
  mkMachine (procs m) (files m) (next_pid m) (clock m + ms) (clients_connect m).

Definition alive (m : machine) (pid : Z) : bool := existsb (fun p => p_pid p =? pid) (procs m).

Definition without (path : jsstring) (l : list (jsstring * jsstring)) : list (jsstring * jsstring) :=
  List.filter (fun f => negb (bool_decide (f.1 = path))) l.

Definition find_file (path : jsstring) (m : machine) : option jsstring :=
  snd <$> List.find (fun f => bool_decide (f.1 = path)) (files m).

Definition kill (pid : Z) (signal : jsstring) (m : machine) : machine * result unit :=
  if negb (alive m pid) then (m, Throw (sys_error "ESRCH"))
  else if bool_decide (signal = js "0") then (m, Ok tt)
  else if bool_decide (signal = js "SIGKILL") then
    (with_procs (List.filter (fun p => negb (p_pid p =? pid)) (procs m)) m, Ok tt)
  else
    (with_procs (map (fun p => if p_pid p =? pid
       then mkProcess (p_pid p) (p_port p) (p_socket p) (p_pidfile p) (p_lives p) true else p) (procs m)) m, Ok tt).

Definition ends (p : process) : bool := p_dying p && (p_lives p =? 0)%nat.

Definition pause (m : machine) : machine :=
  with_procs
    (map (fun p => mkProcess (p_pid p) (p_port p) (p_socket p) (p_pidfile p)
                     (if p_dying p then Nat.pred (p_lives p) else p_lives p) (p_dying p))
       (List.filter (fun p => negb (ends p)) (procs m)))
    (with_files (fold_left (fun l p => match p_pidfile p with Some f => without f l | None => l end)
       (List.filter ends (procs m)) (files m)) m).

Definition argument (key : string) (args : list jsstring) : option jsstring :=
  (fun a => drop (String.length key) a) <$> List.find (starts_with (js key)) args.

Definition spawn (args : list jsstring) (m : machine) : machine * result (option Z) :=
  let pid := next_pid m in
  let made path content := match path with Some p => [(p, content)] | None => [] end in
  let socket := argument "--unix-socket=" args in
  let pidfile := argument "--pidfile=" args in
  (mkMachine (procs m ++ [mkProcess pid (argument "--port=" args ≫= parse_int) socket pidfile 0 false])
     (files m ++ made socket [] ++ made pidfile (decimal_string pid)) (pid + 1) (clock m) (clients_connect m), Ok (Some pid)).

Definition on_port (port : Z) (m : machine) : option process :=
  List.find (fun p => bool_decide (p_port p = Some port)) (procs m).

Definition on_socket (path : jsstring) (m : machine) : option process :=
  List.find (fun p => bool_decide (p_socket p = Some path)) (procs m).

Definition listed (p : option process) : result jsstring :=
  match p with Some p => Ok (decimal_string (p_pid p)) | None => Throw (sys_error "1") end.

Definition file_error {A} (a : A) (path : jsstring) (m : machine) : result A :=
  match find_file path m with Some _ => Ok a | None => Throw (sys_error "ENOENT") end.

Definition reply {A} (op : host_op A) : machine -> machine * result A :=
  match op with
  | Kill pid signal => kill pid signal
  | Delay ms => fun m => (later ms (pause m), Ok tt)
  | Now => fun m => (m, Ok (clock m))
  | ExecFile program args => fun m =>
      (m, match args with
          | [_; port; _; _; _] => listed (parse_int (drop 6 port) ≫= fun port => on_port port m)
          | [_; _; path] => listed (on_socket path m)
          | _ => Throw (sys_error "ENOENT")
          end)
  | Listen port _ => fun m => (m, match on_port port m with Some _ => Throw (sys_error "EADDRINUSE") | None => Ok tt end)
  | ConnectSocket path => fun m => (m, match on_socket path m with Some _ => Ok tt | None => Throw (sys_error "ECONNREFUSED") end)
  | Exists path => fun m => (m, Ok (match find_file path m with Some _ => true | None => false end))
  | Stat path => fun m => (m, file_error tt path m)
  | ReadText path => fun m => (m, match find_file path m with Some t => Ok t | None => Throw (sys_error "ENOENT") end)
  | Unlink path => fun m => (match find_file path m with Some _ => with_files (without path (files m)) m | None => m end,
                             file_error tt path m)
  | MakeDirectory _ => fun m => (m, Ok tt)
  | Spawn args => spawn args
  | WaitPort _ _ => fun m => (m, Ok tt)
  | AwaitSocket path _ _ => fun m => (m, file_error tt path m)
  | OpenClient _ _ _ | CurrentClient => fun m => (m, if clients_connect m then Ok tt else Throw (plain_error "not connected"))
  | ResetClient => fun m => (m, Ok tt)
  | ServerControlCall _ => fun m =>
      match procs m with
      | p :: l => (with_procs l m, Ok (CallReplied (Some (mkControl (Some (NInt (p_pid p))) (Some StatusCompleted)))))
      | [] => (m, Ok (CallFailed BufferWire.unavailable))
      end
  | ServerInfoCall => fun m =>
      (m, Ok match procs m with
             | p :: _ => CallReplied (Some (mkInfo (js "localhost") (NInt (p_pid p)) (js "2.0.0") (js "native") (js "C++")
                                              (js "linux") (NInt 8) (js "gcc") (js "Release") (js "C++17")))
             | [] => CallFailed BufferWire.unavailable
             end)
  | HeartbeatCall _ => fun m => (m, Ok (CallFailed BufferWire.unavailable))
  end.

#[global] Instance sandbox : Host machine := {| host_platform := Linux; answer := @reply |}.

Lemma gone_map (f : process -> process) l pid : (forall p, p_pid (f p) = p_pid p) ->
  existsb (fun p => p_pid p =? pid) (map f l) = existsb (fun p => p_pid p =? pid) l.
Proof. intros Hf. induction l as [|p l IH]; [done|]. cbn. by rewrite Hf, IH. Qed.

Lemma gone_filter (g : process -> bool) l pid :
  existsb (fun p => p_pid p =? pid) l = false -> existsb (fun p => p_pid p =? pid) (List.filter g l) = false.
Proof.
  induction l as [|p l IH]; [done|]. cbn. intros Hp. apply orb_false_iff in Hp as [Hp Hl].
  destruct (g p); cbn; [rewrite Hp|]; auto.
Qed.

#[global] Instance sandbox_laws : ProcessLaws machine alive.
Proof.
  split.
  - intros pid signal m m' e. cbn. unfold kill. destruct (alive m pid) eqn:E; cbn; [|by intros [= <- _]].
    by repeat case_bool_decide.
  - intros pid pid' signal m Ha. cbn. unfold kill. destruct (negb _); [done|].
    repeat case_bool_decide; try done; unfold alive; cbn; [by apply gone_filter|].
    rewrite gone_map; [done|]. intros p. by destruct (p_pid p =? pid').
  - intros ms m. by exists (later ms (pause m)).
  - intros pid ms m Ha. unfold alive. cbn. rewrite gone_map by done. by apply gone_filter.
Qed.

Definition server (pid : Z) (lives : nat) : process := mkProcess pid (Some 9000) None (Some (js "/pid")) lives false.
Definition running_server (lives : nat) : machine := mkMachine [server 7 lives] [(js "/pid", js "7")] 8 0 true.

End Sandbox.

(** A server that needs four pauses is asked four times and takes its pid file
    along; one that needs more than ten is killed and leaves it. *)
Lemma stop_process_sound_witness :
  exists b l, let run := stopProcessUsingPID 7 (js "SIGTERM") 10 true (mkSys (Sandbox.running_server 3) []) in
    run.2 = Ok b /\ (b = true -> Sandbox.alive (world run.1) 7 = false) /\ trace run.1 = l /\ (signals l <= 11)%nat.
Proof.
  destruct (stop_process_sound Sandbox.alive 7 (js "SIGTERM") 10 true (mkSys (Sandbox.running_server 3) []))
    as (b & l & Eb & Hb & El & _ & Hn). exists b, l. split; [exact Eb|]. split; [exact Hb|]. split; [exact El|exact Hn].
Defined.

Example stopped_after_four :
  let '(s, r) := stop_process 7 (mkSys (Sandbox.running_server 3) []) in
  r = Ok true /\ signals (trace s) = 4%nat /\ Sandbox.find_file (js "/pid") (world s) = None.
Proof. vm_compute. repeat split; reflexivity. Qed.

Example killed_at_last :
  let '(s, r) := stop_process 7 (mkSys (Sandbox.running_server 20) []) in
  r = Ok true /\ signals (trace s) = 11%nat /\ Sandbox.find_file (js "/pid") (world s) = Some (js "7").
Proof. vm_compute. repeat split; reflexivity. Qed.

(** A host that says of one signal after the other whether it finds the
    process. *)
Module Scripted.

Definition script : Type := list bool.

Definition reply {A} (op : host_op A) : script -> script * result A :=
  match op with
  | Kill _ _ => fun s => match s with
                         | true :: s => (s, Ok tt)
                         | false :: s => (s, Throw (sys_error "ESRCH"))
                         | [] => ([], Throw (sys_error "ESRCH"))
                         end
  | Delay _ => fun s => (s, Ok tt)
  | _ => fun s => (s, Throw (sys_error "ENOSYS"))
  end.

#[global] Instance scripted : Host script := {| host_platform := Linux; answer := @reply |}.

End Scripted.

(** A process that is there for the last look and gone when [SIGKILL] comes
    is reported as not stopped. *)
Example dies_before_kill :
  (stopProcessUsingPID 7 (js "SIGTERM") 1 true (mkSys [true; true; false] [])).2 = Ok false.
Proof. reflexivity. Qed.
