(* ===== verification/ServerLauncher.v ===== *)
(** * Starting the server ([packages/client/src/server.ts], [packages/server/src/index.ts])

    [startServer] and [startServerUnixSocket] with what they do before and
    after the native server is launched, and the command line it is launched
    with.  The operating system is the [Host] of [ServerProcesses].

    [start_server_runs] and [start_socket_runs]: a start launches at most one
    process and only returns its pid when it is connected to it; the start on
    a socket stops the process when it fails, the start on a port does not.
    [wait_ends]: waiting for a file ends in time.  [restart_with_pid_file]: a
    server that is restarted with its pid file takes the file along, and the
    start fails for it. *)

From S2P Require Import Prelude JsText JsValue AiToolkit UnaryCalls ServerProcesses.

Open Scope jsm_scope.

(** ** The command line *)

(** [HeartbeatOptions], the options of the native server. *)
Record HeartbeatOptions := mkHeartbeatOptions {
  sessionTimeoutMs : option number;
  cleanupIntervalMs : option number;
  shutdownWhenNoSessions : bool;
  sessionEventQueueCapacity : option number;
  viewportEventQueueCapacity : option number;
  maxChangeBytes : option number;
  maxViewportsPerSession : option number;
  maxReadSegmentBytes : option number;
  maxSearchMatches : option number;
  logFile : option jsstring;
  logLevel : option jsstring;
  logConfigFile : option jsstring;
  transformPluginDirectories : option (list jsstring);
  transformPluginHostPath : option jsstring;
  allowExperimentalTransformPlugins : bool;
  allowTestTransformPlugins : bool;
  insecureAllowNonLoopback : bool
}.

Definition no_options : HeartbeatOptions :=
  mkHeartbeatOptions None None false None None None None None None None None None None None false false false.

Definition insecure : HeartbeatOptions :=
  mkHeartbeatOptions None None false None None None None None None None None None None None false false true.

Definition truthy_text (s : option jsstring) : option jsstring := match s with Some [] => None | _ => s end.

Section CommandLine.
Context (print_double : number -> jsstring).

Definition text_flag (key : string) (v : option jsstring) : list jsstring :=
  match v with Some v => [js key ++ v] | None => [] end.
Definition number_flag (key : string) (v : option number) : list jsstring :=
  text_flag key (number_string print_double <$> v).
Definition plain_flag (key : string) (b : bool) : list jsstring := if b then [js key] else [].

Definition heartbeatToArgs (opts : option HeartbeatOptions) (defaultTransformPluginDirectories : list jsstring)
    (defaultTransformPluginHostPath : option jsstring) : list jsstring :=
  match opts, defaultTransformPluginDirectories, truthy_text defaultTransformPluginHostPath with
  | None, [], None => []
  | _, _, _ =>
      let o := default no_options opts in
      let configured := List.filter (fun d => negb (length (trim d) =? 0)%nat)
                          (default [] (transformPluginDirectories o)) in
      number_flag "--session-timeout=" (sessionTimeoutMs o) ++
      number_flag "--cleanup-interval=" (cleanupIntervalMs o) ++
      plain_flag "--shutdown-when-no-sessions" (shutdownWhenNoSessions o) ++
      number_flag "--session-event-queue-capacity=" (sessionEventQueueCapacity o) ++
      number_flag "--viewport-event-queue-capacity=" (viewportEventQueueCapacity o) ++
      number_flag "--max-change-bytes=" (maxChangeBytes o) ++
      number_flag "--max-viewports-per-session=" (maxViewportsPerSession o) ++
      number_flag "--max-read-segment-bytes=" (maxReadSegmentBytes o) ++
      number_flag "--max-search-matches=" (maxSearchMatches o) ++
      text_flag "--log-config=" (logConfigFile o) ++
      text_flag "--log-file=" (logFile o) ++
      text_flag "--log-level=" (logLevel o) ++
      plain_flag "--insecure-allow-non-loopback" (insecureAllowNonLoopback o) ++
      text_flag "--transform-plugin-host="
        (truthy_text (match truthy_text (transformPluginHostPath o) with
                      | Some p => Some p | None => defaultTransformPluginHostPath end)) ++
      plain_flag "--allow-experimental-transform-plugins" (allowExperimentalTransformPlugins o) ++
      plain_flag "--allow-test-transform-plugins" (allowTestTransformPlugins o) ++
      map (fun d => js "--transform-plugin-dir=" ++ d)
        (match configured with [] => defaultTransformPluginDirectories | l => l end)
  end.
End CommandLine.

(** [runServer]: the arguments before those of the options. *)
Definition tcp_arguments (port : Z) (host : jsstring) (pidfile : option jsstring) : list jsstring :=
  [js "--interface=" ++ host; js "--port=" ++ decimal_string port] ++ text_flag "--pidfile=" (truthy_text pidfile).

(** The arguments of [startServerUnixSocket]. *)
Definition socket_arguments (socketPath : jsstring) (pidFile : option jsstring) (udsOnly : bool) (port : Z)
    (host : jsstring) : list jsstring :=
  [js "--unix-socket=" ++ socketPath] ++
  (if udsOnly then [js "--unix-socket-only"]
   else [js "--interface=" ++ host; js "--port=" ++ decimal_string port]) ++
  text_flag "--pidfile=" (truthy_text pidFile).

(** ** Starting *)

Definition FILE_EXISTENCE_POLL_INTERVAL_MS : Z := 100.

Definition out_of_checks : exn := Exn "OutOfFuel" "waitForFileToExist".

Section Launcher.
Context {W : Type} `{Host W}.

(** The checks of [waitForFileToExist]; [n] of them at most. *)
Fixpoint file_checks (n : nat) (path : jsstring) (start timeout : Z) : M (sys W) unit :=
  match n with
  | O => throwM out_of_checks
  | S n =>
      let* there := catchM (perform (Stat path) ;;; retM true) (fun _ => retM false) in
      if there then retM tt
      else
        let* now := perform Now in
        if timeout <=? now - start then throwM (plain_error "File does not exist after milliseconds")
        else perform (Delay FILE_EXISTENCE_POLL_INTERVAL_MS) ;;; file_checks n path start timeout
  end.

Definition waitForFileToExist (path : jsstring) (timeout : Z) : M (sys W) unit :=
  let* start := perform Now in
  file_checks (Z.to_nat (timeout / FILE_EXISTENCE_POLL_INTERVAL_MS) + 2) path start timeout.

Definition readPidFromFile (path : jsstring) : M (sys W) Z :=
  let* text := perform (ReadText path) in
  match parseFirstPid text with Some pid => retM pid | None => throwM (plain_error "Invalid PID in file") end.

Definition handleExistingPidFile (path : jsstring) : M (sys W) unit :=
  let* there := perform (Exists path) in
  if there then
    let* pid := readPidFromFile path in
    let* stopped := stop_process pid in
    if stopped then perform (Unlink path)
    else throwM (plain_error "server pidFile already exists and server shutdown using PID failed")
  else retM tt.

Definition getServerPid (path : jsstring) : M (sys W) Z := waitForFileToExist path 1000 ;;; readPidFromFile path.

(** [if (pidFile) ...] *)
Definition for_pid_file (pidFile : option jsstring) (m : jsstring -> M (sys W) unit) : M (sys W) unit :=
  match truthy_text pidFile with Some path => m path | None => retM tt end.

Definition free_port (port : Z) (host : jsstring) : M (sys W) unit :=
  let* free := isPortAvailable port host in
  if free then retM tt
  else
    let* stopped := stopServiceOnPort port in
    if stopped then retM tt else throwM (plain_error "port on host is not currently available").

(** The pid file holds the pid of the process. *)
Definition check_pid_file (pid : option Z) (path : jsstring) : M (sys W) unit :=
  let* pidFromFile := getServerPid path in
  if bool_decide (pid = Some pidFromFile) then retM tt
  else throwM (plain_error "Error pid from pidFile and pid from server script do not match").

Definition connect (pid : option Z) (port : Z) (host : jsstring) (socket : option jsstring) : M (sys W) Z :=
  match truthy_pid pid with
  | Some pid => perform (OpenClient port host socket) ;;; retM pid
  | None => throwM (plain_error "Error getting server pid")
  end.

(** What follows the launch: the pid file is checked and a client connected. *)
Definition join (pid : option Z) (pidFile : option jsstring) (port : Z) (host : jsstring) (socket : option jsstring)
  : M (sys W) Z :=
  for_pid_file pidFile (check_pid_file pid) ;;; connect pid port host socket.

Definition startServer (port : Z) (host : jsstring) (pidFile : option jsstring) (heartbeat : list jsstring)
  : M (sys W) Z :=
  for_pid_file pidFile handleExistingPidFile ;;;
  free_port port host ;;;
  let* pid := perform (Spawn (tcp_arguments port host pidFile ++ heartbeat)) in
  perform (WaitPort port host) ;;;
  join pid pidFile port host None.

(** The socket goes only when the process is known to be stopped. *)
Definition cleanupFailedUnixSocketStart (socketPath : jsstring) (serverPid : option Z) : M (sys W) unit :=
  let* shouldRemoveSocket :=
    match truthy_pid serverPid with
    | Some pid => catchM (stop_process pid) (fun _ => retM false)
    | None => retM true
    end in
  if shouldRemoveSocket then catchM (perform (Unlink socketPath)) (fun _ => retM tt) else retM tt.

(** An existing socket is stale, or its server is stopped. *)
Definition clear_socket (socketPath : jsstring) : M (sys W) unit :=
  let* there := perform (Exists socketPath) in
  if there then
    let* active := isSocketActive socketPath in
    let* stopped := (if active then stopServiceOnSocket socketPath else retM true) in
    if stopped then perform (Unlink socketPath)
    else throwM (plain_error "Unix socket has an active server that could not be stopped")
  else retM tt.

(** [catch (err) { await cleanup; throw err }] *)
Definition or_clean_up {A} (socketPath : jsstring) (pid : option Z) (m : M (sys W) A) : M (sys W) A :=
  catchM m (fun e => cleanupFailedUnixSocketStart socketPath pid ;;; throwM e).

(** [directory] is [path.dirname(socketPath)]. *)
Definition prepare_socket (socketPath directory : jsstring) (pidFile : option jsstring) (udsOnly : bool) (port : Z)
    (host : jsstring) : M (sys W) unit :=
  (if bool_decide (directory = []) || bool_decide (directory = js ".") then retM tt
   else perform (MakeDirectory directory)) ;;;
  clear_socket socketPath ;;;
  for_pid_file pidFile handleExistingPidFile ;;;
  if udsOnly then retM tt else free_port port host.

Definition startServerUnixSocket (socketPath directory : jsstring) (pidFile : option jsstring) (udsOnly : bool)
    (port : Z) (host : jsstring) (heartbeat : list jsstring) (socketWaitMs : Z) : M (sys W) Z :=
  match host_platform with
  | Windows => throwM (plain_error "Unix domain sockets are not supported on Windows")
  | _ =>
      prepare_socket socketPath directory pidFile udsOnly port host ;;;
      let* pid := perform (Spawn (socket_arguments socketPath pidFile udsOnly port host ++ heartbeat)) in
      or_clean_up socketPath pid (perform (AwaitSocket socketPath pid socketWaitMs)) ;;;
      or_clean_up socketPath pid (join pid pidFile port host (Some socketPath))
  end.
End Launcher.

(** ** What a start does *)

Definition is_spawn (e : host_event) : Prop := match e with HSpawn _ _ => True | _ => False end.
Definition is_kill (e : host_event) : Prop := match e with HKill _ _ _ => True | _ => False end.

(** Nothing is launched; and nothing is signalled either. *)
Definition unlaunched (l : list host_event) : Prop := Forall (fun e => ~ is_spawn e) l.
Definition calm (l : list host_event) : Prop := Forall (fun e => ~ is_spawn e /\ ~ is_kill e) l.

Lemma calm_unlaunched l : calm l -> unlaunched l.
Proof. intros Hl. eapply Forall_impl; [exact Hl|]. by intros e []. Qed.

(** The process is asked to end, and no other is. *)
Definition asks_to_end (pid : Z) (l : list host_event) : Prop :=
  exists r l', l = HKill pid (js "SIGTERM") r :: l' /\ Forall (spares pid) l'.

Section Does.
Context {W : Type} `{Host W}.

(** What [m] adds to the trace and how it ends is in [P]. *)
Definition does {A} (m : M (sys W) A) (P : list host_event -> result A -> Prop) : Prop := forall s, exists l,
  trace (m s).1 = trace s ++ l /\ P l (m s).2.

Lemma does_weaken {A} (m : M (sys W) A) (P Q : list host_event -> result A -> Prop) :
  does m P -> (forall l r, P l r -> Q l r) -> does m Q.
Proof. intros Hm HQ s. destruct (Hm s) as (l & E & HP). exists l. auto. Qed.

Lemma does_ret {A} (a : A) (P : list host_event -> result A -> Prop) : P [] (Ok a) -> does (retM a) P.
Proof. intros HP s. exists []. by rewrite app_nil_r. Qed.

Lemma does_throw {A} e (P : list host_event -> result A -> Prop) : P [] (Throw e) -> does (throwM e) P.
Proof. intros HP s. exists []. by rewrite app_nil_r. Qed.

Lemma does_perform {A} (op : host_op A) (P : list host_event -> result A -> Prop) :
  (forall r, P [event_of op r] r) -> does (perform op) P.
Proof. intros HP s. unfold perform. destruct (answer op (world s)) as [w r]. exists [event_of op r]. split; [done|apply HP]. Qed.

Lemma does_bind {A B} (m : M (sys W) A) (f : A -> M (sys W) B) P Q :
  does m P -> (forall l a, P l (Ok a) -> does (f a) (fun l' r => Q (l ++ l') r)) ->
  (forall l e, P l (Throw e) -> Q l (Throw e)) -> does (bindM m f) Q.
Proof.
  intros Hm Hf He s. destruct (Hm s) as (l & E & HP). unfold bindM. destruct (m s) as [s1 [a|e]]; cbn in E, HP.
  - destruct (Hf l a HP s1) as (l' & E' & HQ). exists (l ++ l'). by rewrite E', E, app_assoc.
  - exists l. split; [done|by apply He].
Qed.

Lemma does_catch {A} (m : M (sys W) A) h P (Q : list host_event -> result A -> Prop) :
  does m P -> (forall l a, P l (Ok a) -> Q l (Ok a)) ->
  (forall l e, P l (Throw e) -> does (h e) (fun l' r => Q (l ++ l') r)) -> does (catchM m h) Q.
Proof.
  intros Hm Ho Hh s. destruct (Hm s) as (l & E & HP). unfold catchM. destruct (m s) as [s1 [a|e]]; cbn in E, HP.
  - exists l. split; [done|by apply Ho].
  - destruct (Hh l e HP s1) as (l' & E' & HQ). exists (l ++ l'). by rewrite E', E, app_assoc.
Qed.

(** Every event satisfies [P]. *)
Definition all (P : host_event -> Prop) {A} (l : list host_event) (_ : result A) : Prop := Forall P l.

Lemma all_bind (P : host_event -> Prop) {A B} (m : M (sys W) A) (f : A -> M (sys W) B) :
  does m (all P) -> (forall a, does (f a) (all P)) -> does (bindM m f) (all P).
Proof.
  intros Hm Hf. eapply does_bind; [exact Hm| |done]. intros l a Hl. eapply does_weaken; [apply Hf|].
  intros l' r Hl'. by apply Forall_app.
Qed.

Lemma all_catch (P : host_event -> Prop) {A} (m : M (sys W) A) h :
  does m (all P) -> (forall e, does (h e) (all P)) -> does (catchM m h) (all P).
Proof.
  intros Hm Hf. eapply does_catch; [exact Hm|done|]. intros l e Hl. eapply does_weaken; [apply Hf|].
  intros l' r Hl'. by apply Forall_app.
Qed.

Lemma all_ret (P : host_event -> Prop) {A} (a : A) : does (retM a) (all P).
Proof. apply does_ret. constructor. Qed.

Lemma all_throw (P : host_event -> Prop) {A} e : does (throwM e : M (sys W) A) (all P).
Proof. apply does_throw. constructor. Qed.

Lemma all_lift (P : host_event -> Prop) {A} (r : result A) : does (liftM r) (all P).
Proof. intros s. exists []. rewrite app_nil_r. split; [done|]. constructor. Qed.

Lemma all_perform (P : host_event -> Prop) {A} (op : host_op A) : (forall r, P (event_of op r)) -> does (perform op) (all P).
Proof. intros HP. apply does_perform. intros r. by constructor. Qed.
End Does.

Create HintDb does discriminated.
#[export] Hint Resolve all_ret all_throw all_lift : does.

(** Walk down a computation all of whose events are alike. *)
Ltac all_step :=
  lazymatch goal with
  | |- does (bindM _ _) (all _) => apply all_bind; [|intros ?]
  | |- does (catchM _ _) (all _) => apply all_catch; [|intros ?]
  | |- does (perform _) (all _) => apply all_perform; cbn; tauto
  | |- does (if ?b then _ else _) (all _) => destruct b
  | |- does (match ?x with _ => _ end) (all _) => destruct x
  | |- _ => solve [eauto with does]
  end.
Ltac all_steps := repeat all_step.

Section Starts.
Context {W : Type} `{Host W}.

Lemma stop_unlaunched pid : does (stop_process pid) (all (fun e => ~ is_spawn e)).
Proof.
  intros s. destruct (sends_stop pid (js "SIGTERM") 10 true s) as (l & E & Hl & _). exists l. split; [exact E|].
  eapply Forall_impl; [exact Hl|]. intros []; cbn; tauto.
Qed.

(** The first event is the signal. *)
Definition begins (pid : Z) {A} (l : list host_event) (_ : result A) : Prop :=
  exists r l', l = HKill pid (js "SIGTERM") r :: l'.

Lemma begins_bind pid {A B} (m : M (sys W) A) (f : A -> M (sys W) B) :
  does m (begins pid) -> (forall a, does (f a) (fun _ _ => True)) -> does (bindM m f) (begins pid).
Proof.
  intros Hm Hf. eapply does_bind; [exact Hm| |done]. intros l a (r & l' & ->). eapply does_weaken; [apply Hf|].
  intros l2 r2 _. by exists r, (l' ++ l2).
Qed.

Lemma sent_does pid k {A} (m : M (sys W) A) : sends pid k m -> does m (fun _ _ => True).
Proof. intros Hm s. destruct (Hm s) as (l & E & _). by exists l. Qed.

Lemma attempts_begin pid n ms : does (stop_attempts (S n) pid (js "SIGTERM") ms) (begins pid).
Proof.
  cbn [stop_attempts]. apply begins_bind.
  - unfold stop_attempt. eapply does_catch.
    + apply begins_bind; [apply does_perform; intros r; by exists r, []|]. intros _. eapply (sent_does pid).
      apply (sends_bind pid 0 0); [apply sends_delay|intros _]. apply (sends_bind pid 0 0); [apply sends_look|intros ?; apply sends_ret].
    + done.
    + intros l e (r & l' & ->). apply does_ret. exists r, l'. by rewrite app_nil_r.
  - intros [b|]; eapply (sent_does pid); [apply (sends_ret pid 0)|apply sends_attempts].
Qed.

Lemma stop_begins pid : does (stop_process pid) (begins pid).
Proof.
  unfold stop_process, stopProcessUsingPID. apply begins_bind; [apply (attempts_begin pid 9)|].
  intros [b|]; eapply (sent_does pid); [apply (sends_ret pid 0)|]. apply (sends_round pid (js "SIGKILL") _ negb).
Qed.

Lemma stop_asks pid : does (stop_process pid) (fun l _ => asks_to_end pid l).
Proof.
  intros s. destruct (stop_begins pid s) as (l & E & (r & l' & ->)).
  destruct (sends_stop pid (js "SIGTERM") 10 true s) as (l2 & E2 & Hl & _).
  change (stopProcessUsingPID pid (js "SIGTERM") 10 true) with (stop_process (W := W) pid) in E2. rewrite E in E2. apply app_inv_head in E2 as <-. eexists. split; [exact E|]. exists r, l'. split; [done|]. by inversion Hl.
Qed.
#[local] Hint Resolve stop_unlaunched : does.

Lemma free_unlaunched port host : does (free_port port host) (all (fun e => ~ is_spawn e)).
Proof.
  unfold free_port, isPortAvailable, stopServiceOnPort, getPidByPort, getPidByPortWithSs, getPidByPortWithNetstatLinux,
    getPidByPortWithNetstat, or_undefined. all_steps.
Qed.

Lemma pid_file_unlaunched pidFile : does (for_pid_file pidFile handleExistingPidFile) (all (fun e => ~ is_spawn e)).
Proof. unfold for_pid_file, handleExistingPidFile, readPidFromFile. all_steps. Qed.

Lemma clear_unlaunched path : does (clear_socket path) (all (fun e => ~ is_spawn e)).
Proof. unfold clear_socket, isSocketActive, stopServiceOnSocket, getPidBySocket. all_steps. Qed.

#[local] Hint Resolve free_unlaunched pid_file_unlaunched clear_unlaunched : does.

Definition prepared {A} := @all (fun e => ~ is_spawn e) A.

Lemma checks_calm n path start timeout : does (file_checks n path start timeout) (all (fun e => ~ is_spawn e /\ ~ is_kill e)).
Proof. induction n; cbn [file_checks]; all_steps. Qed.
#[local] Hint Resolve checks_calm : does.

Lemma check_calm pid pidFile : does (for_pid_file pidFile (check_pid_file pid)) (all (fun e => ~ is_spawn e /\ ~ is_kill e)).
Proof. unfold for_pid_file, check_pid_file, getServerPid, waitForFileToExist, readPidFromFile. all_steps. Qed.

(** A client is connected, and the pid is the process's. *)
Definition joined (pid : option Z) (port : Z) (host : jsstring) (socket : option jsstring) (l : list host_event)
    (r : result Z) : Prop :=
  calm l /\ forall p, r = Ok p -> pid = Some p /\ p <> 0 /\ In (HClient port host socket (Ok tt)) l.

Lemma join_does pid pidFile port host socket : does (join pid pidFile port host socket) (joined pid port host socket).
Proof.
  unfold join. eapply does_bind; [apply check_calm| |by intros l e Hl].
  intros l [] Hl. unfold connect. destruct (truthy_pid pid) as [p|] eqn:Ep.
  - eapply does_bind with (P := fun l' r => l' = [HClient port host socket r]); [by apply does_perform| |].
    + intros l' [] ->. apply does_ret. split.
      { apply Forall_app; split; [exact Hl|]. repeat constructor; tauto. }
      intros p' [= <-]. assert (Hp : pid = Some p /\ p <> 0) by (by destruct pid as [[|q|q]|]; cbn in Ep; simplify_eq).
      destruct Hp. split_and!; [done|done|]. apply in_app_iff. right. by left.
    + intros l' e ->. split; [|done]. apply Forall_app; split; [exact Hl|]. repeat constructor; tauto.
  - apply does_throw. split; [|done]. by rewrite app_nil_r.
Qed.

(** Nothing is launched and the start fails; or one process is, and what
    follows is in [P]. *)
Definition launches (args : list jsstring) (P : option Z -> list host_event -> result Z -> Prop)
    (l : list host_event) (r : result Z) : Prop :=
  (unlaunched l /\ exists e, r = Throw e) \/
  exists before after launched, l = before ++ HSpawn args launched :: after /\ unlaunched before /\
    match launched with
    | Throw _ => after = [] /\ exists e, r = Throw e
    | Ok pid => P pid after r
    end.

(** The shape of both starts. *)
Lemma does_launch args (m : M (sys W) unit) (k : option Z -> M (sys W) Z) P :
  does m (all (fun e => ~ is_spawn e)) -> (forall pid, does (k pid) (P pid)) ->
  does (m ;;; let* pid := perform (Spawn args) in k pid) (launches args P).
Proof.
  intros Hm Hk. eapply does_bind; [exact Hm| |].
  - intros before [] Hb. eapply does_bind with (P := fun l r => l = [HSpawn args r]); [by apply does_perform| |].
    + intros l pid ->. eapply does_weaken; [apply Hk|]. intros after r HP. right.
      exists before, after, (Ok pid). cbn. by split_and!.
    + intros l e ->. right. exists before, [], (Throw e). split_and!; try done. by exists e.
  - intros l e Hl. left. split; [done|by exists e].
Qed.

Lemma start_server_spec port host pidFile heartbeat : does (startServer port host pidFile heartbeat)
  (launches (tcp_arguments port host pidFile ++ heartbeat) (fun pid => joined pid port host None)).
Proof.
  assert (E : forall s, startServer port host pidFile heartbeat s =
    ((for_pid_file pidFile handleExistingPidFile ;;; free_port port host) ;;;
     let* pid := perform (Spawn (tcp_arguments port host pidFile ++ heartbeat)) in
     perform (WaitPort port host) ;;; join pid pidFile port host None) s).
  { intros s. unfold startServer, bindM. by destruct (for_pid_file _ _ s) as [s1 []]. }
  intros s. rewrite E. revert s. apply does_launch; [all_steps|]. intros pid.
  eapply does_bind; [apply (all_perform (fun e => ~ is_spawn e /\ ~ is_kill e)); cbn; tauto| |].
  - intros l [] Hl. eapply does_weaken; [apply join_does|]. intros l' r [Hc Hr]. split; [by apply Forall_app|].
    intros p Hp. destruct (Hr p Hp) as (H1 & H2 & H3). split_and!; try done. apply in_app_iff. by right.
  - intros l e Hl. by split.
Qed.

(** Each start on a port launches at most one process.  It returns only the
    pid of the process it launched, with a client connected to it; once there
    is a process, nothing is signalled any more, also when the start fails. *)
Theorem start_server_runs port host pidFile heartbeat s :
  exists l, trace (startServer port host pidFile heartbeat s).1 = trace s ++ l /\
    launches (tcp_arguments port host pidFile ++ heartbeat) (fun pid => joined pid port host None) l
      (startServer port host pidFile heartbeat s).2.
Proof. apply start_server_spec. Qed.
(** The process is asked to end and then, perhaps, its socket is removed. *)
Definition cleaned (socketPath : jsstring) (pid : option Z) (l : list host_event) : Prop :=
  exists l1 l2, l = l1 ++ l2 /\ match truthy_pid pid with Some p => asks_to_end p l1 | None => l1 = [] end /\
    (l2 = [] \/ exists r, l2 = [HUnlink socketPath r]).

Lemma cleanup_does socketPath pid :
  does (cleanupFailedUnixSocketStart socketPath pid) (fun l r => r = Ok tt /\ cleaned socketPath pid l).
Proof.
  unfold cleanupFailedUnixSocketStart.
  eapply does_bind with (P := fun l r => (exists b, r = Ok b) /\
    match truthy_pid pid with Some p => asks_to_end p l | None => l = [] end).
  - destruct (truthy_pid pid) as [p|]; [|apply does_ret; eauto].
    eapply does_catch; [apply stop_asks|by intros l a Hl; eauto|]. intros l e Hl. apply does_ret. rewrite app_nil_r. eauto.
  - intros l b [_ Hl]. destruct b.
    + eapply does_catch with (P := fun l' r => exists r', l' = [HUnlink socketPath r']).
      * apply does_perform. intros r. by exists r.
      * intros l' [] [r ->]. split; [done|]. exists l, [HUnlink socketPath r]. split_and!; eauto.
      * intros l' e [r ->]. apply does_ret. split; [done|]. exists l, [HUnlink socketPath r]. rewrite app_nil_r. split_and!; eauto.
    + apply does_ret. split; [done|]. exists l, []. split_and!; auto.
  - by intros l e [[b Hb] _].
Qed.

(** How a start on a socket goes on from its process: it is joined, or it is
    asked to end. *)
Definition joined_or_cleaned {A} (socketPath : jsstring) (pid : option Z) (P : list host_event -> A -> Prop)
    (l : list host_event) (r : result A) : Prop :=
  match r with
  | Ok a => P l a
  | Throw _ => exists l1 l2, l = l1 ++ l2 /\ calm l1 /\ cleaned socketPath pid l2
  end.

Lemma clean_up_does {A} socketPath pid (m : M (sys W) A) P :
  does m (fun l r => calm l /\ forall a, r = Ok a -> P l a) ->
  does (or_clean_up socketPath pid m) (joined_or_cleaned socketPath pid P).
Proof.
  intros Hm. unfold or_clean_up. eapply does_catch; [exact Hm|by intros l a [_ HP]; apply HP|]. intros l e [Hl _].
  eapply does_bind; [apply cleanup_does| |by intros l' e' [? _]]. intros l' [] [_ Hc]. apply does_throw.
  rewrite app_nil_r. by exists l, l'.
Qed.

(** C26 Each start on a socket launches at most one process.  It returns only the
    pid of the process it launched, with a client connected to its socket; when
    it fails with a process launched, that process is asked to end, and at
    most the socket is removed after it. *)
Theorem start_socket_runs socketPath directory pidFile udsOnly port host heartbeat ms s :
  let run := startServerUnixSocket socketPath directory pidFile udsOnly port host heartbeat ms s in
  exists l, trace run.1 = trace s ++ l /\
    launches (socket_arguments socketPath pidFile udsOnly port host ++ heartbeat)
      (fun pid => joined_or_cleaned socketPath pid (fun l p => joined pid port host (Some socketPath) l (Ok p))) l run.2.
Proof.
  revert s. change (does (startServerUnixSocket socketPath directory pidFile udsOnly port host heartbeat ms)
    (launches (socket_arguments socketPath pidFile udsOnly port host ++ heartbeat)
      (fun pid => joined_or_cleaned socketPath pid (fun l p => joined pid port host (Some socketPath) l (Ok p))))).
  assert (Hp : does (prepare_socket socketPath directory pidFile udsOnly port host) (all (fun e => ~ is_spawn e))).
  { unfold prepare_socket. all_steps. }
  assert (Hk : forall pid, does (or_clean_up socketPath pid (perform (AwaitSocket socketPath pid ms)) ;;;
      or_clean_up socketPath pid (join pid pidFile port host (Some socketPath)))
    (joined_or_cleaned socketPath pid (fun l p => joined pid port host (Some socketPath) l (Ok p)))).
  { intros pid. eapply does_bind; [apply (clean_up_does socketPath pid _ (fun l _ => calm l))| |done].
    - apply does_perform. intros r. assert (Hc : calm [HOther]) by (repeat constructor; tauto). by split.
    - intros l [] Hl. eapply does_weaken; [apply (clean_up_does socketPath pid _ (fun l p => joined pid port host (Some socketPath) l (Ok p)))|].
      + eapply does_weaken; [apply join_does|]. intros l' r [Hc Hr]. split; [done|]. intros p Ep. split; [done|].
        intros p' Ep'. apply Hr. congruence.
      + intros l' [p|e].
        * intros [Hc Hr]. split; [by apply Forall_app|]. intros p' Ep. destruct (Hr p' Ep) as (H1 & H2 & H3).
          split_and!; try done. apply in_app_iff. by right.
        * intros (l1 & l2 & -> & Hc & Hd). exists (l ++ l1), l2. split_and!; [by rewrite app_assoc|by apply Forall_app|done]. }
  unfold startServerUnixSocket.
  destruct host_platform; try (by apply does_launch); apply does_throw; left; (split; [constructor|by eexists]).
Qed.
End Starts.

(** ** Waiting for a file *)

(** A clock that no call turns back and that a pause moves on; the errors of
    the system are its own. *)
Class ClockLaws (W : Type) `{Host W} (clock : W -> Z) : Prop := {
  now_read w : exists w', answer Now w = (w', Ok (clock w)) /\ clock w <= clock w';
  stat_clock path w : clock w <= clock (answer (Stat path) w).1;
  listen_clock port address w : clock w <= clock (answer (Listen port address) w).1;
  listen_error port address w : (answer (Listen port address) w).2 <> Throw out_of_checks;
  delay_clock ms w : exists w', answer (Delay ms) w = (w', Ok tt) /\ clock w + ms <= clock w'
}.

Section Waiting.
Context {W : Type} `{Host W} (clock : W -> Z) `{!ClockLaws W clock}.

Lemma checks_end n : forall path start timeout s, timeout - 100 * (Z.of_nat n - 1) <= clock (world s) - start -> (0 < n)%nat ->
  (file_checks n path start timeout s).2 <> Throw out_of_checks.
Proof.
  induction n as [|n IH]; intros path start timeout s Hc Hn; [lia|]. cbn [file_checks].
  unfold bindM at 1, catchM, bindM at 1, perform at 1. pose proof (stat_clock path (world s)) as Hs.
  destruct (answer (Stat path) (world s)) as [w [[]|e]]; cbn [retM snd fst] in *; [done|].
  unfold bindM at 1, perform at 1. cbn [world]. destruct (now_read w) as (w' & -> & Hw).
  destruct (Z.leb_spec timeout (clock w - start)); [done|].
  unfold bindM, perform. cbn [world]. destruct (delay_clock FILE_EXISTENCE_POLL_INTERVAL_MS w') as (w2 & -> & Hw2).
  unfold FILE_EXISTENCE_POLL_INTERVAL_MS in Hw2. destruct n as [|n]; [lia|]. apply IH; cbn [world]; lia.
Qed.

(** Waiting for a file ends: with the file, or with the error of the time-out
    after at most one check for each tenth of a second and two more. *)
Theorem wait_ends path timeout s : 0 <= timeout -> (waitForFileToExist path timeout s).2 <> Throw out_of_checks.
Proof.
  intros Ht. unfold waitForFileToExist, bindM at 1, perform at 1. destruct (now_read (world s)) as (w & -> & Hw).
  unfold FILE_EXISTENCE_POLL_INTERVAL_MS. pose proof (Z.div_mod timeout 100 ltac:(lia)) as Hd.
  pose proof (Z.mod_pos_bound timeout 100 ltac:(lia)). pose proof (Z.div_pos timeout 100 Ht ltac:(lia)).
  apply checks_end; cbn [world]; lia.
Qed.
End Waiting.

#[global] Instance sandbox_clock : ClockLaws Sandbox.machine Sandbox.clock.
Proof.
  split.
  - intros m. by exists m.
  - done.
  - done.
  - intros port address m. cbn. by destruct (Sandbox.on_port port m).
  - intros ms m. by exists (Sandbox.later ms (Sandbox.pause m)).
Qed.

Lemma wait_ends_witness :
  0 <= 1000 /\ (waitForFileToExist (js "/none") 1000 (mkSys (Sandbox.running_server 0) [])).2 <> Throw out_of_checks.
Proof. split; [lia|]. apply (wait_ends Sandbox.clock). lia. Defined.

(** ** Runs *)

Definition nothing_running : Sandbox.machine := Sandbox.mkMachine [] [] 8 0 true.

(** A start on a free port. *)
Example starts_and_connects :
  (startServer 9000 (js "127.0.0.1") (Some (js "/pid")) [] (mkSys nothing_running [])).2 = Ok 8.
Proof. vm_compute. reflexivity. Qed.

(** The server with the pid file is asked to end, removes its pid file, and
    the start fails because the file is not there to be removed; a second
    start finds neither and succeeds. *)
Example restart_with_pid_file :
  let start := startServer 9000 (js "127.0.0.1") (Some (js "/pid")) [] in
  let '(s, r) := start (mkSys (Sandbox.running_server 0) []) in
  r = Throw (sys_error "ENOENT") /\ Sandbox.alive (world s) 7 = false /\ (start s).2 = Ok 8.
Proof. vm_compute. repeat split; reflexivity. Qed.

(** A start on a port that cannot connect leaves its server running; one on a
    socket stops it and removes the socket. *)
Example failed_starts :
  let deaf := Sandbox.mkMachine [] [] 8 0 false in
  let '(s, r) := startServer 9000 (js "127.0.0.1") None [] (mkSys deaf []) in
  let '(s', r') := startServerUnixSocket (js "/s") (js "/") None true 9000 (js "127.0.0.1") [] 20000 (mkSys deaf []) in
  r = Throw (plain_error "not connected") /\ Sandbox.alive (world s) 8 = true /\
  r' = Throw (plain_error "not connected") /\ Sandbox.alive (world s') 8 = false /\
  Sandbox.find_file (js "/s") (world s') = None.
Proof. vm_compute. repeat split; reflexivity. Qed.
