(* ===== verification/ServerControl.v ===== *)
(** * The running server ([packages/client/src/server.ts])

    The calls about the server itself (shutdown, information, heartbeat), the
    wait for the socket of a process that may die, and the loop that sends
    heartbeats.  The last two are state machines: the module [FileWait] and
    the module [Heartbeats].

    [file_wait_settles]: the wait settles once, and a settled wait keeps no
    timer and no listener.  [heartbeats_in_rounds]: one heartbeat at a time,
    whatever ticks.  [nothing_after_stop]: a stopped loop calls nobody back. *)

From S2P Require Import Prelude SafeInt JsText JsValue AiToolkit UnaryCalls ServerProcesses.

Open Scope jsm_scope.

(** ** Calls *)

Inductive ServerControlState := Completed | Draining | Unknown.
Record IServerControlResult := mkControlResult { serverProcessId : number; status : ServerControlState }.

Definition getServerControlStatus (rawStatus : option ServerControlStatus) : ServerControlState :=
  match rawStatus with
  | Some StatusCompleted => Completed
  | Some StatusDraining => Draining
  | _ => Unknown
  end.

(** What the [try] of [stopServer] makes of the reply; it never throws. *)
Definition control_result (o : outcome ServerControlResponse) : IServerControlResult :=
  match o with
  | CallReplied (Some resp) =>
      mkControlResult (default (NInt (-1)) (control_pid resp)) (getServerControlStatus (control_status resp))
  | _ => mkControlResult (NInt (-1)) Unknown
  end.

Definition info_result (o : outcome ServerInfoResponse) : result ServerInfoResponse :=
  match o with
  | CallFailed _ => Throw (plain_error "getServerInfo error")
  | CallReplied None => Throw (plain_error "undefined server info")
  | CallReplied (Some info) => Ok info
  end.

Record IServerHeartbeat := mkServerHeartbeat {
  latency : Z;
  sessionCount : number;
  serverTimestamp : Z;
  serverUptime : Z;
  serverCpuCount : number;
  serverLoadAverage : option number;
  serverResidentMemoryBytes : option Z;
  serverVirtualMemoryBytes : option Z;
  serverPeakResidentMemoryBytes : option Z
}.

Definition heartbeat_result (latency : Z) (o : outcome GetHeartbeatResponse) : result IServerHeartbeat :=
  match o with
  | CallFailed _ => Throw (plain_error "getServerHeartbeat error")
  | CallReplied None => Throw (plain_error "undefined heartbeat")
  | CallReplied (Some r) =>
      timestamp ← requireSafeIntegerOutput (hb_timestamp r);
      uptime ← requireSafeIntegerOutput (hb_uptime r);
      resident ← requireOptionalSafeIntegerOutput (hb_residentMemoryBytes r);
      virtual ← requireOptionalSafeIntegerOutput (hb_virtualMemoryBytes r);
      peak ← requireOptionalSafeIntegerOutput (hb_peakResidentMemoryBytes r);
      Ok (mkServerHeartbeat latency (hb_sessionCount r) timestamp uptime (hb_cpuCount r) (hb_loadAverage r)
            resident virtual peak)
  end.

Section Calls.
Context {W : Type} `{Host W}.

Definition stopServer (kind : ServerControlKind) : M (sys W) IServerControlResult :=
  perform CurrentClient ;;;
  catchM (let* o := perform (ServerControlCall kind) in retM (control_result o))
    (fun _ => retM (mkControlResult (NInt (-1)) Unknown)).

Definition stopServerGraceful : M (sys W) IServerControlResult := stopServer GracefulShutdown.
Definition stopServerImmediate : M (sys W) IServerControlResult := stopServer ImmediateShutdown.

Definition getServerInfo : M (sys W) ServerInfoResponse :=
  perform CurrentClient ;;; let* o := perform ServerInfoCall in liftM (info_result o).

Definition getServerHeartbeat (activeSessions : list jsstring) (unexpectedArgs : nat) : M (sys W) IServerHeartbeat :=
  match unexpectedArgs with
  | S _ => throwM (plain_error "getServerHeartbeat(sessionIds) is session-centric in 2.x; legacy hostname/process/interval positional arguments were removed")
  | O =>
      perform CurrentClient ;;;
      let* startTime := perform Now in
      let* o := perform (HeartbeatCall activeSessions) in
      let* now := perform Now in
      liftM (heartbeat_result (now - startTime) o)
  end.
End Calls.

(** ** Waiting for a socket while the process runs
       ([waitForFileToExistWhileProcessRuns]) *)

Module FileWait.

Record state := mkState {
  outcome_of : option (result unit);
  listening : bool;    (* to the exit and the error of the process *)
  timer : bool;
  checking : bool      (* [stat] has not answered *)
}.

Inductive event :=
  | StatAnswers (found : bool) (elapsed : Z)   (* since the wait began *)
  | TimerFires
  | ProcessExits
  | ProcessFails (e : exn).

Definition exited : exn := plain_error "Server process exited before the file existed".
Definition timed_out : exn := plain_error "File does not exist after milliseconds".

(** [finish]: only the first one counts, and it cleans up. *)
Definition finish (r : result unit) (s : state) : state :=
  match outcome_of s with
  | Some _ => s
  | None => mkState (Some r) false false (checking s)
  end.

(** The listeners are attached; a process that is gone already ends the wait,
    otherwise the first check begins. *)
Definition start (gone : bool) : state :=
  let s := mkState None true false false in
  if gone then finish (Throw exited) s else mkState None true false true.

Section Machine.
Context (timeout : Z).

Definition step (s : state) (e : event) : state :=
  match e with
  | StatAnswers found elapsed =>
      if checking s then
        let s := mkState (outcome_of s) (listening s) (timer s) false in
        if found then finish (Ok tt) s
        else match outcome_of s with
             | Some _ => s
             | None =>
                 if timeout <=? elapsed then finish (Throw timed_out) s
                 else mkState None (listening s) true false
             end
      else s
  | TimerFires =>
      if timer s then
        match outcome_of s with
        | Some _ => mkState (outcome_of s) (listening s) false (checking s)
        | None => mkState None (listening s) false true
        end
      else s
  | ProcessExits => if listening s then finish (Throw exited) s else s
  | ProcessFails e => if listening s then finish (Throw e) s else s
  end.

Definition run (s : state) (es : list event) : state := foldl step s es.

(** A wait that goes on listens, and checks or has a timer; one that is
    settled has neither timer nor listeners. *)
Definition tidy (s : state) : Prop :=
  match outcome_of s with
  | None => listening s = true /\ timer s = negb (checking s)
  | Some _ => listening s = false /\ timer s = false
  end.

Lemma start_tidy gone : tidy (start gone).
Proof. by destruct gone. Qed.

Lemma step_tidy s e : tidy s -> tidy (step s e).
Proof.
  destruct s as [[r|] l t c]; cbn; intros [-> ->]; destruct e as [[] z| | |]; destruct c; cbn; try done;
    by destruct (timeout <=? z).
Qed.

Lemma run_tidy s es : tidy s -> tidy (run s es).
Proof. revert s. induction es as [|e es IH]; intros s Hs; [done|]. by apply IH, step_tidy. Qed.

Lemma step_settled s e r : outcome_of s = Some r -> outcome_of (step s e) = Some r.
Proof.
  destruct s as [o l t c]. cbn. intros ->. destruct e as [[] z| | |]; destruct c, t, l; done.
Qed.

Lemma run_settled s es r : outcome_of s = Some r -> outcome_of (run s es) = Some r.
Proof. revert s. induction es as [|e es IH]; intros s Hs; [done|]. by apply IH, step_settled. Qed.
End Machine.
End FileWait.

(** Whatever happens, in whatever order: the wait settles at most once, goes
    on listening and checking until it does, and keeps no timer and no
    listener when it has; a check that is too late settles it. *)
Theorem file_wait_settles timeout gone es es' :
  let s := FileWait.run timeout (FileWait.start gone) es in
  FileWait.tidy s /\
  (forall r, FileWait.outcome_of s = Some r -> FileWait.outcome_of (FileWait.run timeout s es') = Some r) /\
  (forall found elapsed, FileWait.checking s = true -> timeout <= elapsed ->
     is_Some (FileWait.outcome_of (FileWait.step timeout s (FileWait.StatAnswers found elapsed)))).
Proof.
  intros s. split; [apply FileWait.run_tidy, FileWait.start_tidy|]. split.
  - intros r Hr. by apply FileWait.run_settled.
  - intros found elapsed Hc Ht. unfold FileWait.step. rewrite Hc. cbn.
    destruct found; unfold FileWait.finish; cbn.
    + destruct (FileWait.outcome_of s) eqn:E; cbn; rewrite ?E; by eexists.
    + destruct (FileWait.outcome_of s) eqn:E; cbn; [by eexists|].
      destruct (Z.leb_spec timeout elapsed); [cbn; by eexists|lia].
Qed.

(** ** Heartbeats ([startServerHeartbeatLoop]) *)

Module Heartbeats.

(** Who is called. *)
Inductive callee := GetSessionIds | GetHeartbeat | OnHeartbeat | OnError.

(** What the task waits for. *)
Inductive phase := ForIds | ForHeartbeat | ForOnHeartbeat | ForOnError.

Record state := mkState { stopped : bool; interval : bool; task : option phase; calls : list callee }.

Inductive event :=
  | IntervalTicks
  | TickCalled               (* [loop.tick()] *)
  | StopCalled
  | Answered (ok : bool).    (* what is waited for resolves, or rejects *)

Section Loop.
(** Which of the optional callbacks there are. *)
Context (onHeartbeat onError : bool).

Definition with_task (t : option phase) (called : list callee) (s : state) : state :=
  mkState (stopped s) (interval s) t (calls s ++ called).

Definition runHeartbeat (s : state) : state :=
  if stopped s || bool_decide (is_Some (task s)) then s else with_task (Some ForIds) [GetSessionIds] s.

Definition invokeErrorHandler (s : state) : state :=
  if onError then with_task (Some ForOnError) [OnError] s else with_task None [] s.

(** [catch (error)] *)
Definition on_rejected (s : state) : state :=
  if stopped s then with_task None [] s else invokeErrorHandler s.

Definition step (s : state) (e : event) : state :=
  match e with
  | IntervalTicks => if interval s then runHeartbeat s else s
  | TickCalled => runHeartbeat s
  | StopCalled => mkState true false (task s) (calls s)
  | Answered ok =>
      match task s, ok with
      | None, _ => s
      | Some ForIds, true => with_task (Some ForHeartbeat) [GetHeartbeat] s
      | Some ForHeartbeat, true =>
          if stopped s then with_task None [] s
          else if onHeartbeat then with_task (Some ForOnHeartbeat) [OnHeartbeat] s
          else with_task None [] s
      | Some ForOnHeartbeat, true => with_task None [] s
      | Some ForOnError, _ => with_task None [] s
      | Some _, false => on_rejected s
      end
  end.

Definition run (s : state) (es : list event) : state := foldl step s es.

(** [intervalMs] and [immediate] of the options. *)
Definition startServerHeartbeatLoop (intervalMs : option number) (immediate : bool) : result state :=
  match default (NInt 5000) intervalMs with
  | NInt ms =>
      if 0 <? ms then
        let s := mkState false true None [] in Ok (if immediate then runHeartbeat s else s)
      else Throw (plain_error "heartbeat intervalMs must be a positive integer")
  | _ => Throw (plain_error "heartbeat intervalMs must be a positive integer")
  end.

(** A heartbeat from its start to where it may wait or end. *)
Inductive round : list callee -> Prop :=
  | ids_failed : round [GetSessionIds]
  | beat_taken : round [GetSessionIds; GetHeartbeat]
  | beat_shown : round [GetSessionIds; GetHeartbeat; OnHeartbeat]
  | ids_error : round [GetSessionIds; OnError]
  | beat_error : round [GetSessionIds; GetHeartbeat; OnError]
  | shown_error : round [GetSessionIds; GetHeartbeat; OnHeartbeat; OnError].

Inductive rounds : list callee -> Prop :=
  | no_rounds : rounds []
  | more_rounds l r : rounds l -> round r -> rounds (l ++ r).

(** The calls of the task so far. *)
Definition at_phase (p : phase) (l : list callee) : Prop :=
  match p with
  | ForIds => l = [GetSessionIds]
  | ForHeartbeat => l = [GetSessionIds; GetHeartbeat]
  | ForOnHeartbeat => l = [GetSessionIds; GetHeartbeat; OnHeartbeat]
  | ForOnError => l = [GetSessionIds; OnError] \/ l = [GetSessionIds; GetHeartbeat; OnError] \/
                  l = [GetSessionIds; GetHeartbeat; OnHeartbeat; OnError]
  end.

Definition in_rounds (s : state) : Prop :=
  match task s with
  | None => rounds (calls s)
  | Some p => exists before now, calls s = before ++ now /\ rounds before /\ at_phase p now
  end.

Lemma phase_round p l : at_phase p l -> round l.
Proof. destruct p; cbn; [intros ->..|intros [->|[->| ->]]]; constructor. Qed.

Lemma round_ends s p : in_rounds s -> task s = Some p -> rounds (calls s).
Proof.
  unfold in_rounds. intros Hs Ep. rewrite Ep in Hs. destruct Hs as (b & n & -> & Hb & Hn).
  constructor; [done|]. by eapply phase_round.
Qed.

Lemma with_task_ends s p : in_rounds s -> task s = Some p -> in_rounds (with_task None [] s).
Proof. intros Hs Ep. unfold in_rounds. cbn. rewrite app_nil_r. by eapply round_ends. Qed.

Lemma run_heartbeat_rounds s : in_rounds s -> in_rounds (runHeartbeat s).
Proof.
  intros Hs. unfold runHeartbeat. destruct (task s) as [p|] eqn:Ep; [by rewrite orb_true_r|].
  destruct (stopped s); [done|]. unfold in_rounds in *. rewrite Ep in Hs. cbn. by exists (calls s), [GetSessionIds].
Qed.

Lemma goes_on s p q c : in_rounds s -> task s = Some p -> (forall l, at_phase p l -> at_phase q (l ++ [c])) ->
  in_rounds (with_task (Some q) [c] s).
Proof.
  unfold in_rounds. intros Hs Ep Hq. rewrite Ep in Hs. destruct Hs as (b & n & E & Hb & Hn). cbn.
  exists b, (n ++ [c]). rewrite E, app_assoc. auto.
Qed.

Lemma rejected_rounds s p : in_rounds s -> task s = Some p -> p <> ForOnError -> in_rounds (on_rejected s).
Proof.
  intros Hs Ep Hp. unfold on_rejected, invokeErrorHandler.
  destruct (stopped s); [by eapply with_task_ends|]. destruct onError; [|by eapply with_task_ends].
  eapply goes_on; [done..|]. intros l Hl. destruct p; cbn in *; subst; auto. done.
Qed.

Lemma step_rounds s e : in_rounds s -> in_rounds (step s e).
Proof.
  intros Hs. destruct e as [| | |ok]; cbn.
  - destruct (interval s); [by apply run_heartbeat_rounds|done].
  - by apply run_heartbeat_rounds.
  - done.
  - destruct (task s) as [p|] eqn:Ep; [|done]. destruct p, ok; try (by eapply rejected_rounds);
      try (by eapply with_task_ends).
    + eapply goes_on; [done..|]. by intros l ->.
    + destruct (stopped s); [by eapply with_task_ends|]. destruct onHeartbeat; [|by eapply with_task_ends].
      eapply goes_on; [done..|]. by intros l ->.
Qed.

Lemma run_rounds s es : in_rounds s -> in_rounds (run s es).
Proof. revert s. induction es as [|e es IH]; intros s Hs; [done|]. by apply IH, step_rounds. Qed.

(** A stopped loop: what a task under way may still call. *)
Definition last_calls (t : option phase) (l : list callee) : Prop :=
  l = [] \/ t = Some ForIds /\ l = [GetHeartbeat].

Lemma stopped_run es : forall s, stopped s = true ->
  exists l, calls (run s es) = calls s ++ l /\ last_calls (task s) l /\ stopped (run s es) = true.
Proof.
  assert (Hstep : forall s e, stopped s = true -> stopped (step s e) = true /\
    ((calls (step s e) = calls s /\ (task (step s e) = task s \/ task (step s e) = None)) \/
     (task s = Some ForIds /\ calls (step s e) = calls s ++ [GetHeartbeat] /\ task (step s e) = Some ForHeartbeat))).
  { intros [st iv t c] e Hs. cbn in Hs. subst st. destruct e as [| | |ok]; cbn.
    - destruct iv; auto.
    - auto.
    - auto.
    - destruct t as [[]|], ok; cbn; rewrite ?app_nil_r; auto. }
  induction es as [|e es IH]; intros s Hs; [exists []; rewrite app_nil_r; split_and!; [done|by left|done]|].
  destruct (Hstep s e Hs) as [Hs1 Hc]. destruct (IH _ Hs1) as (l & El & Hl & Hst). change (run s (e :: es)) with (run (step s e) es).
  destruct Hc as [[Ec Et]|(Ht & Ec & Et)].
  - exists l. split_and!; [by rewrite El, Ec| |done].
    destruct Hl as [->|[Hi ->]]; [by left|]. destruct Et as [<-|Et]; [by right|by rewrite Et in Hi].
  - exists [GetHeartbeat]. assert (l = []) as ->.
    { destruct Hl as [->|[Hi _]]; [done|]. by rewrite Et in Hi. }
    rewrite app_nil_r in El. split_and!; [by rewrite El, Ec|by right|done].
Qed.
End Loop.
End Heartbeats.

(** Whatever ticks and whatever answers: the loop makes its calls in rounds,
    each of them a request for the sessions, a heartbeat and its callbacks in
    that order, and starts no round before the one under way has ended. *)
Theorem heartbeats_in_rounds onHeartbeat onError intervalMs immediate s0 es :
  Heartbeats.startServerHeartbeatLoop intervalMs immediate = Ok s0 ->
  Heartbeats.in_rounds (Heartbeats.run onHeartbeat onError s0 es).
Proof.
  intros Hs. apply Heartbeats.run_rounds. unfold Heartbeats.startServerHeartbeatLoop in Hs.
  destruct (default (NInt 5000) intervalMs) as [ms| | |]; try done. destruct (0 <? ms); [|done]. injection Hs as <-.
  destruct immediate; [apply Heartbeats.run_heartbeat_rounds|]; constructor.
Qed.

(** A loop that is stopped calls nobody back, neither with a heartbeat nor
    with an error, and begins no further round; only a heartbeat whose session
    ids were being asked for is still requested. *)
Theorem nothing_after_stop onHeartbeat onError s es :
  let s1 := Heartbeats.step onHeartbeat onError s Heartbeats.StopCalled in
  exists l, Heartbeats.calls (Heartbeats.run onHeartbeat onError s1 es) = Heartbeats.calls s ++ l /\
    Heartbeats.last_calls (Heartbeats.task s) l.
Proof. intros s1. destruct (Heartbeats.stopped_run onHeartbeat onError es s1 eq_refl) as (l & El & Hl & _). by exists l. Qed.

Lemma heartbeats_in_rounds_witness :
  exists s0, Heartbeats.startServerHeartbeatLoop None true = Ok s0 /\
    Heartbeats.in_rounds (Heartbeats.run true true s0
      [Heartbeats.Answered true; Heartbeats.IntervalTicks; Heartbeats.Answered false; Heartbeats.TickCalled]).
Proof.
  eexists. split; [vm_compute; reflexivity|]. apply (heartbeats_in_rounds true true None true). vm_compute. reflexivity.
Defined.

(** A tick while a heartbeat is under way starts none. *)
Example ticks_coalesce :
  match Heartbeats.startServerHeartbeatLoop None true with
  | Ok s0 => Heartbeats.calls (Heartbeats.run true true s0
      [Heartbeats.IntervalTicks; Heartbeats.Answered true; Heartbeats.TickCalled; Heartbeats.Answered true;
       Heartbeats.Answered true; Heartbeats.StopCalled; Heartbeats.TickCalled])
  | Throw _ => []
  end = [Heartbeats.GetSessionIds; Heartbeats.GetHeartbeat; Heartbeats.OnHeartbeat].
Proof. vm_compute. reflexivity. Qed.
