(* ===== verification/AiServer.v ===== *)
(** * The assistant's server ([packages/ai/src/service.ts])

    [OmegaEditToolkit] looks for its server before every call, starts one when
    it may, and stops it on request.  The functions are composed of
    [startServer] of [ServerLauncher], the calls of [ServerControl] and the
    port check of [ServerProcesses].

    [ensure_launches]: where the toolkit finds its port in use it launches
    and signals nothing; where it finds it free, a toolkit that may start a
    server launches one at most and signals nothing after that.
    [latecomer_stopped]: what takes the port between the toolkit's look and
    the start's is stopped.  [stop_waits]: stopping ends in time. *)

From S2P Require Import Prelude JsText JsValue AiToolkit UnaryCalls ClientConnection ServerProcesses ServerLauncher ServerControl.

Open Scope jsm_scope.

(** The settings of the toolkit that concern its server. *)
Record toolkit_server := mkToolkitServer {
  tk_host : jsstring;
  tk_port : Z;
  autoStart : bool;
  tk_insecure : bool
}.

(** [options.host || DEFAULT_HOST] and the like. *)
Definition toolkit_server_of (host : option jsstring) (port : option Z) (auto : option bool) (insecure : option bool)
  : toolkit_server :=
  mkToolkitServer
    (match host with Some ((_ :: _) as h) => h | _ => DEFAULT_HOST end)
    (match port with Some 0 | None => DEFAULT_PORT | Some p => p end)
    (default true auto) (default false insecure).

Section Server.
Context {W : Type} `{Host W} (print_double : number -> jsstring) (t : toolkit_server).
(** The plugin directories and the plugin host that [executeServer] finds. *)
Context (plugin_directories : list jsstring) (plugin_host : option jsstring).

Definition STOP_TIMEOUT_MS : Z := 10000.

(** The loop of [waitForServerToStop], [n] checks at most. *)
Fixpoint stop_checks (n : nat) (deadline : Z) : M (sys W) unit :=
  match n with
  | O => throwM out_of_checks
  | S n =>
      let* now := perform Now in
      if now <? deadline then
        let* free := isPortAvailable (tk_port t) (tk_host t) in
        if free then retM tt else perform (Delay 100) ;;; stop_checks n deadline
      else throwM (plain_error "OmegaEdit server did not stop")
  end.

Definition waitForServerToStop (timeoutMs : Z) : M (sys W) unit :=
  let* now := perform Now in stop_checks (Z.to_nat (timeoutMs / 100) + 2) (now + timeoutMs).

Definition connectToServer : M (sys W) unit :=
  perform ResetClient ;;; perform (OpenClient (tk_port t) (tk_host t) None) ;;;
  let* _ := getServerInfo in retM tt.

Definition not_running : exn := plain_error "OmegaEdit server is not running".

Definition connectToRunningServer : M (sys W) unit :=
  catchM connectToServer (fun _ => perform ResetClient ;;; throwM not_running).

(** The options for the native server. *)
Definition start_arguments : list jsstring :=
  heartbeatToArgs print_double (if tk_insecure t then Some insecure else None) plugin_directories plugin_host.

Definition ensureServerRunning : M (sys W) unit :=
  let* portIsAvailable := isPortAvailable (tk_port t) (tk_host t) in
  if portIsAvailable then
    if autoStart t then
      let* _ := startServer (tk_port t) (tk_host t) None start_arguments in connectToServer
    else throwM not_running
  else
    catchM connectToServer (fun error =>
      perform ResetClient ;;;
      throwM (if autoStart t then plain_error "Port is occupied by a non-OmegaEdit service. Refusing to auto-start."
              else error)).

Definition serverInfo : M (sys W) ServerInfoResponse := connectToRunningServer ;;; getServerInfo.

Definition toolkit_startServer : M (sys W) ServerInfoResponse := ensureServerRunning ;;; serverInfo.

Definition toolkit_stopServer : M (sys W) IServerControlResult :=
  connectToRunningServer ;;;
  let* response := stopServerGraceful in
  perform ResetClient ;;;
  match status response with
  | Unknown => retM response
  | Completed | Draining => waitForServerToStop STOP_TIMEOUT_MS ;;; perform ResetClient ;;; retM response
  end.
End Server.

(** ** What the toolkit does to its port *)

Section ServerFacts.
Context {W : Type} `{Host W} (print_double : number -> jsstring) (t : toolkit_server).
Context (plugin_directories : list jsstring) (plugin_host : option jsstring).

(** [m] neither launches nor signals, and returns only with a client. *)
Definition connects {A} (l : list host_event) (r : result A) : Prop :=
  calm l /\ ((exists a, r = Ok a) -> In (HClient (tk_port t) (tk_host t) None (Ok tt)) l).

Lemma calm_app l1 l2 : calm l1 -> calm l2 -> calm (l1 ++ l2).
Proof. intros H1 H2. by apply Forall_app. Qed.

Lemma connect_does : does (connectToServer t) (@connects unit).
Proof.
  unfold connectToServer.
  eapply does_bind; [apply (all_perform (fun e => ~ is_spawn e /\ ~ is_kill e)); cbn; tauto| |].
  2: { intros l e Hl. split; [done|]. by intros [a Ha]. }
  intros l [] Hl.
  eapply does_bind with (P := fun l' r => l' = [HClient (tk_port t) (tk_host t) None r]); [by apply does_perform| |].
  - intros l' [] ->.
    eapply does_weaken with (P := all (fun e => ~ is_spawn e /\ ~ is_kill e)); [unfold getServerInfo; all_steps|].
    intros l2 r Hl2. split.
    + apply calm_app; [done|]. apply calm_app; [repeat constructor; tauto|done].
    + intros _. apply in_app_iff. right. apply in_app_iff. left. by left.
  - intros l' e ->. split; [apply calm_app; [done|repeat constructor; tauto]|]. by intros [a Ha].
Qed.
Lemma port_does port host : does (isPortAvailable port host) (fun l r => exists done,
  l = [HListen port host done] /\ match done with Ok _ => r = Ok true | Throw _ => r <> Ok true end).
Proof.
  unfold isPortAvailable. eapply does_catch with (P := fun l r => exists done, l = [HListen port host done] /\
    match done with Ok _ => r = Ok true | Throw e => r = Throw e end).
  - eapply does_bind with (P := fun l r => l = [HListen port host r]); [by apply does_perform| |].
    + intros l [] ->. apply does_ret. by exists (Ok tt).
    + intros l e ->. by exists (Throw e).
  - intros l a ([u|e] & -> & E); [|done]. exists (Ok u). by split.
  - intros l e ([u|e'] & -> & E); [done|]. injection E as ->.
    destruct (is_code e' "EADDRINUSE"); [apply does_ret|apply does_throw]; exists (Throw e'); by rewrite app_nil_r.
Qed.

(** Nothing is launched, or one server on the port and nothing is signalled
    from then on. *)
Definition one_server (l : list host_event) : Prop :=
  unlaunched l \/ exists before launched after,
    l = before ++ HSpawn (tcp_arguments (tk_port t) (tk_host t) None ++
      start_arguments print_double t plugin_directories plugin_host) launched :: after /\ unlaunched before /\ calm after.

(** What a check of the server does, from its look at the port. *)
Definition ensured (l : list host_event) (r : result unit) : Prop :=
  exists free rest, l = HListen (tk_port t) (tk_host t) free :: rest /\
    (r = Ok tt -> In (HClient (tk_port t) (tk_host t) None (Ok tt)) rest) /\
    match free with
    | Ok _ => if autoStart t then one_server rest else rest = [] /\ r = Throw not_running
    | Throw _ => calm rest
    end.

Lemma start_connects : does
  (let* _ := startServer (tk_port t) (tk_host t) None (start_arguments print_double t plugin_directories plugin_host) in
   connectToServer t)
  (fun l r => one_server l /\ (r = Ok tt -> In (HClient (tk_port t) (tk_host t) None (Ok tt)) l)).
Proof.
  eapply does_bind.
  { intros s. apply (start_server_spec (tk_port t) (tk_host t) None
      (start_arguments print_double t plugin_directories plugin_host) s). }
  - intros l p Hl. eapply does_weaken; [apply connect_does|]. intros l' r [Hc Hr]. split.
    + destruct Hl as [[_ [e He]]|(b & a & launched & -> & Hb & Hl)]; [done|]. right.
      exists b, launched, (a ++ l'). rewrite <- app_assoc. split_and!; [done..|].
      destruct launched as [pid|e]; [destruct Hl as [Ha _]; by apply calm_app|]. by destruct Hl as [_ [e' He]].
    + intros ->. apply in_app_iff. right. apply Hr. by eexists.
  - intros l e Hl. split; [|done].
    destruct Hl as [[Hu _]|(b & a & launched & -> & Hb & Hl)]; [by left|]. right. exists b, launched, a. split_and!; [done..|].
    destruct launched as [pid|e']; [by destruct Hl|]. destruct Hl as [-> _]. constructor.
Qed.

(** C27 When the toolkit makes sure of its server it looks at its port once.
    If that look finds the port in use, nothing is launched and nothing is
    signalled.  If it finds the port free, a toolkit that may not start a
    server does nothing more and fails; one that may launches at most one
    server, on its port and with the arguments of its settings, and signals
    nothing from the launch on.  Before the launch the start looks again by
    itself and stops what has taken the port since, as [latecomer_stopped]
    shows.  The toolkit goes on only when, after its look, a client was
    connected to the port. *)
Theorem ensure_launches s :
  exists l, trace (ensureServerRunning print_double t plugin_directories plugin_host s).1 = trace s ++ l /\
    ensured l (ensureServerRunning print_double t plugin_directories plugin_host s).2.
Proof.
  revert s. change (does (ensureServerRunning print_double t plugin_directories plugin_host) ensured).
  unfold ensureServerRunning. eapply does_bind; [apply port_does| |].
  - intros l free ([u|e] & -> & Ef).
    + injection Ef as ->. destruct (autoStart t) eqn:Ea.
      * eapply does_weaken; [apply start_connects|]. intros l r [Ho Hr]. exists (Ok u), l. rewrite Ea. by split_and!.
      * apply does_throw. exists (Ok u), []. rewrite Ea. by split_and!.
    + destruct free; [done|]. eapply does_catch; [apply connect_does| |].
      * intros l [] [Hc Hr]. exists (Throw e), l. split_and!; [done| |done]. intros _. apply Hr. by eexists.
      * intros l e' [Hc _]. eapply does_bind with (P := fun l' _ => l' = [HOther]); [by apply does_perform| |].
        -- intros l' [] ->. apply does_throw. exists (Throw e), (l ++ [HOther]). rewrite app_nil_r. split_and!; [done..|].
           apply calm_app; [done|repeat constructor; tauto].
        -- intros l' e2 ->. exists (Throw e), (l ++ [HOther]). split_and!; [done..|].
           apply calm_app; [done|repeat constructor; tauto].
  - intros l e ([u|e'] & -> & Ef); [done|]. exists (Throw e'), []. split_and!; [done..|constructor].
Qed.
End ServerFacts.

(** ** Stopping ends *)

Section Stopping.
Context {W : Type} `{Host W} (clock : W -> Z) `{!ClockLaws W clock} (t : toolkit_server).

Lemma stop_checks_end n : forall deadline s, deadline - 100 * (Z.of_nat n - 1) <= clock (world s) -> (0 < n)%nat ->
  (stop_checks t n deadline s).2 <> Throw out_of_checks.
Proof.
  induction n as [|n IH]; intros deadline s Hc Hn; [lia|]. cbn [stop_checks].
  unfold bindM at 1, perform at 1. destruct (now_read (world s)) as (w & -> & Hw).
  destruct (Z.ltb_spec (clock (world s)) deadline); [|done].
  unfold bindM at 1, isPortAvailable, catchM, bindM at 1, perform at 1. cbn [world].
  pose proof (listen_clock (tk_port t) (tk_host t) w) as Hl. pose proof (listen_error (tk_port t) (tk_host t) w) as He.
  assert (Hnext : forall w' tr, clock w <= clock w' ->
    (bindM (perform (Delay 100)) (fun _ => stop_checks t n deadline) (mkSys w' tr)).2 <> Throw out_of_checks).
  { intros w' tr Hw'. unfold bindM, perform. cbn [world]. destruct (delay_clock 100 w') as (w2 & -> & Hw2).
    destruct n as [|n]; [lia|]. apply IH; cbn [world]; lia. }
  destruct (answer (Listen (tk_port t) (tk_host t)) w) as [w' [[]|e]]; cbn in Hl, He |- *; [done|].
  destruct (is_code e "EADDRINUSE") eqn:Ee; cbn; [by apply Hnext|].
  congruence.
Qed.

(** Waiting for a server to stop ends: with its port free, or with an error
    in time. *)
Theorem stop_waits timeoutMs s : 0 <= timeoutMs -> (waitForServerToStop t timeoutMs s).2 <> Throw out_of_checks.
Proof.
  intros Ht. unfold waitForServerToStop, bindM at 1, perform at 1. destruct (now_read (world s)) as (w & -> & Hw).
  pose proof (Z.div_mod timeoutMs 100 ltac:(lia)). pose proof (Z.mod_pos_bound timeoutMs 100 ltac:(lia)).
  pose proof (Z.div_pos timeoutMs 100 Ht ltac:(lia)). apply stop_checks_end; cbn [world]; lia.
Qed.
End Stopping.

Definition local_toolkit : toolkit_server := toolkit_server_of None None None None.

Lemma stop_waits_witness :
  0 <= 10000 /\
  (waitForServerToStop local_toolkit 10000 (mkSys (Sandbox.running_server 0) [])).2 <> Throw out_of_checks.
Proof. split; [lia|]. apply (stop_waits Sandbox.clock). lia. Defined.

(** Started, asked and stopped. *)
Example served (print_double : number -> jsstring) :
  let '(s, r) := ensureServerRunning print_double local_toolkit [] None (mkSys nothing_running []) in
  r = Ok tt /\
  let '(s', r') := toolkit_stopServer local_toolkit s in
  r' = Ok (mkControlResult (NInt 8) Completed) /\ Sandbox.alive (world s') 8 = false.
Proof. vm_compute. repeat split; reflexivity. Qed.

(** Between the look of the toolkit and the one of [startServer] a port can be
    taken; what takes it is then stopped.  A host on which a process appears
    after the first look: *)
Module Latecomer.

Definition reply {A} (op : host_op A) (m : bool * Sandbox.machine) : (bool * Sandbox.machine) * result A :=
  let '(m', r) := Sandbox.reply op m.2 in
  match op in host_op B with
  | Listen _ _ => if m.1 then ((false, Sandbox.running_server 0), r) else ((false, m'), r)
  | _ => ((m.1, m'), r)
  end.

#[global] Instance latecomer : Host (bool * Sandbox.machine) := {| host_platform := Linux; answer := @reply |}.

End Latecomer.

Example latecomer_stopped (print_double : number -> jsstring) :
  let s := (ensureServerRunning print_double local_toolkit [] None
    (mkSys (true, nothing_running) [])).1 in
  Sandbox.alive (world s).2 7 = false /\
  existsb (fun e => match e with HKill 7 _ (Ok _) => true | _ => false end) (trace s) = true.
Proof. vm_compute. repeat split; reflexivity. Qed.
