(* ===== verification/WebviewInspector.v ===== *)
(** * The byte inspector of the webview ([webview-ui/src/components/ByteInspector.svelte])

    The bytes at the selection as numbers and characters, and the bytes that
    stand for what the user types: the fields with their readers and writers
    ([integerField], [commonFields], [textFields],
    [activeTextEncodingField]), and the component around them, which begins,
    commits and cancels an edit.  [DataView] is the language's: [get_uint] and
    [set_uint].  How a double prints is a parameter. *)

From S2P Require Import Prelude SafeInt JsText TextEncoding WebviewProtocol ActionJournal.

Open Scope jsm_scope.
Open Scope list_scope.
Open Scope Z_scope.

(** ** DataView *)

(** An unsigned number of some bytes, the least significant first. *)
Definition little (bs : list Z) : Z := foldr (fun b n => b + 256 * n) 0 bs.

Fixpoint little_bytes (n : nat) (z : Z) : list Z :=
  match n with O => [] | Datatypes.S n => z mod 256 :: little_bytes n (z / 256) end.

(** [view.getUint*(0, littleEndian)] and [view.getInt*] *)
Definition get_uint (n : nat) (littleEndian : bool) (bs : list Z) : Z :=
  let bs := take n bs in little (if littleEndian then bs else rev bs).

Definition get_int (n : nat) (littleEndian : bool) (bs : list Z) : Z :=
  let u := get_uint n littleEndian bs in
  if 2 ^ (8 * Z.of_nat n - 1) <=? u then u - 2 ^ (8 * Z.of_nat n) else u.

(** [view.setUint*(0, value, littleEndian)], and [view.setInt*], which
    writes the same bytes: both wrap around. *)
Definition set_uint (n : nat) (littleEndian : bool) (z : Z) : list Z :=
  let bs := little_bytes n (z mod 2 ^ (8 * Z.of_nat n)) in if littleEndian then bs else rev bs.

(** ** Numbers as text *)

(** [n.toString(radix)] of a byte, for a radix below ten. *)
Fixpoint radix_digits (fuel : nat) (radix n : Z) (acc : jsstring) : jsstring :=
  match fuel with
  | O => acc
  | Datatypes.S fuel =>
      let acc := (48 + n mod radix) :: acc in
      if n <? radix then acc else radix_digits fuel radix (n / radix) acc
  end.

Definition to_string_radix (radix n : Z) : jsstring := radix_digits 8 radix n [].

(** The digits of a literal: [None] for a character that is none. *)
Definition digit_below (radix c : Z) : option Z :=
  match hex_value c with Some d => if d <? radix then Some d else None | None => None end.

Definition radix_value (radix : Z) (s : jsstring) : option Z :=
  match s with
  | [] => None
  | _ => foldl (fun n d => radix * n + d) 0 <$> mapM (digit_below radix) s
  end.

(** [/^0x/i] and the like, [c] the lower case letter: what is behind it. *)
Definition after_prefix (c : Z) (s : jsstring) : option jsstring :=
  match s with
  | z :: d :: t => if (z =? 48) && ((d =? c) || (d =? c - 32)) then Some t else None
  | _ => None
  end.

Definition emptyValue : exn := plain_error "emptyValue".
Definition invalidInteger : exn := plain_error "invalidInteger".
Definition outOfRange : exn := plain_error "outOfRange".

(** The four forms of [BigInt]: hexadecimal, binary, octal and decimal. *)
Definition literal_value (body : jsstring) : option Z :=
  let prefixed c radix := t ← after_prefix c body; radix_value radix t in
  match prefixed 120 16 with
  | Some v => Some v
  | None => match prefixed 98 2 with
    | Some v => Some v
    | None => match prefixed 111 8 with
      | Some v => Some v
      | None => radix_value 10 body
      end
    end
  end.

Definition parseBigIntInput (raw : jsstring) : result Z :=
  let text := List.filter (fun c => negb (c =? 95)) (trim raw) in
  match text with
  | [] => Throw emptyValue
  | c :: t =>
      let '(sign, body) := if c =? 45 then (-1, t) else if c =? 43 then (1, t) else (1, text) in
      match literal_value body with
      | Some v => Ok (sign * v)
      | None => Throw invalidInteger
      end
  end.

Definition parseIntegerInRange (raw : jsstring) (min max : Z) : result Z :=
  value ← parseBigIntInput raw;
  if (value <? min) || (max <? value) then Throw outOfRange else Ok value.

Definition writeIntegerBytes (value : Z) (byteLength : nat) (useLittleEndian : bool) : jsstring :=
  bytesToHex (set_uint byteLength useLittleEndian value).

(** ** Fields *)

(** A reader or a writer may throw; a writer looks at the tables of text. *)
Record InspectorField := mkField {
  f_key : jsstring;
  f_minBytes : Z;
  f_editable : bool;
  f_byteLength : option (list Z -> bool -> Z);
  f_read : list Z -> bool -> result jsstring;
  f_write : option (jsstring -> bool -> M maps_state jsstring)
}.

Definition pure_write (f : jsstring -> bool -> result jsstring) : option (jsstring -> bool -> M maps_state jsstring) :=
  Some (fun raw le => liftM (f raw le)).

Definition integerField (key : jsstring) (byteLength : nat) (signed : bool) : InspectorField :=
  let bits := 8 * Z.of_nat byteLength in
  let min := if signed then - 2 ^ (bits - 1) else 0 in
  let max := if signed then 2 ^ (bits - 1) - 1 else 2 ^ bits - 1 in
  mkField key (Z.of_nat byteLength) true None
    (fun value le => Ok (signed_string (if signed then get_int byteLength le value else get_uint byteLength le value)))
    (pure_write (fun raw le =>
       value ← parseIntegerInRange raw min max; Ok (writeIntegerBytes value byteLength le))).

Definition quoted (value : jsstring) : jsstring :=
  match value with [] => js "--" | _ => js "'" ++ value ++ js "'" end.

Definition firstUnicodeCharacter (raw : jsstring) : jsstring := default [] (head (array_from raw)).

Definition first_byte (value : list Z) : Z := default 0 (head value).

Definition invalidTextByte : exn := plain_error "invalidTextByte".

Definition activeTextEncodingField (textEncoding : TextEncoding) : InspectorField :=
  mkField (js "text-" ++ js (encoding_name textEncoding)) 1 true None
    (fun value _ =>
       if negb (isPrintableTextByte (first_byte value) textEncoding) then Throw invalidTextByte
       else Ok (quoted (default [] (decodeTextByte (first_byte value) textEncoding))))
    (Some (fun raw _ =>
       let text := firstUnicodeCharacter raw in
       if (length text =? 0)%nat then throwM invalidTextByte
       else
         let* data := encodeTextToHex text textEncoding in
         match data with
         | Some [h; l] =>
             match radix_value 16 [h; l] with
             | Some byte => if isPrintableTextByte byte textEncoding then retM [h; l] else throwM invalidTextByte
             | None => throwM invalidTextByte
             end
         | _ => throwM invalidTextByte
         end)).

(** A writer of one byte: a prefix that may be there, one to [width] digits. *)
Definition write_digits (prefix radix : Z) (width : nat) (invalid : string) (raw : jsstring) (_ : bool) : result jsstring :=
  let text := trim raw in
  let text := default text (after_prefix prefix text) in
  match (if (length text <=? width)%nat then radix_value radix text else None) with
  | None => Throw (plain_error invalid)
  | Some value => if 255 <? value then Throw outOfRange else Ok (byteToHex2 value)
  end.

Definition hex8_field : InspectorField :=
  mkField (js "hex8") 1 true None (fun value _ => Ok (js "0x" ++ byteToHex2 (first_byte value)))
    (pure_write (write_digits 120 16 2 "invalidHexByte")).

Definition ascii_field : InspectorField :=
  mkField (js "ascii") 1 true None
    (fun value _ =>
       if negb (isPrintableAscii (first_byte value)) then Throw (plain_error "invalidAsciiByte")
       else Ok (js "'" ++ [first_byte value] ++ js "'"))
    (pure_write (fun raw _ =>
       match raw with
       | [c] => if isPrintableAscii c then Ok (byteToHex2 c) else Throw (plain_error "invalidAsciiByte")
       | _ => Throw (plain_error "invalidAsciiByte")
       end)).

Definition binary_field : InspectorField :=
  mkField (js "binary") 1 true None
    (fun value _ => Ok (pad_start_zero 8 (to_string_radix 2 (first_byte value))))
    (pure_write (write_digits 98 2 8 "invalidBinaryByte")).

Definition octal_field : InspectorField :=
  mkField (js "octal") 1 true None
    (fun value _ => Ok (pad_start_zero 3 (to_string_radix 8 (first_byte value))))
    (pure_write (write_digits 111 8 3 "invalidOctalByte")).

Definition commonFields : list InspectorField := [hex8_field; ascii_field; binary_field; octal_field].

Definition integerFields : list InspectorField :=
  [integerField (js "uint8") 1 false; integerField (js "int8") 1 true;
   integerField (js "uint16") 2 false; integerField (js "int16") 2 true;
   integerField (js "uint32") 4 false; integerField (js "int32") 4 true;
   integerField (js "uint64") 8 false; integerField (js "int64") 8 true].

(** ** Characters *)

(** The length of a UTF-8 sequence by its first byte. *)
Definition utf8_length (first : Z) : option nat :=
  if first <=? 127 then Some 1%nat
  else if in_range 194 223 first then Some 2%nat
  else if in_range 224 239 first then Some 3%nat
  else if in_range 240 244 first then Some 4%nat
  else None.

Definition decodeFirstUtf8 (value : list Z) : option (jsstring * nat) :=
  length ← utf8_length (first_byte value);
  if (List.length value <? length)%nat then None
  else
    text ← text_decode (take length value);
    match text with [] => None | _ => Some (text, length) end.

Definition decodeFirstUtf16 (value : list Z) (useLittleEndian : bool) : option (jsstring * nat) :=
  if (List.length value <? 2)%nat then None
  else
    let first := get_uint 2 useLittleEndian value in
    if high_surrogate first then
      if (List.length value <? 4)%nat then None
      else
        let second := get_uint 2 useLittleEndian (drop 2 value) in
        if negb (low_surrogate second) then None
        else Some (utf16_point (65536 + Z.shiftl (first - 55296) 10 + (second - 56320)), 4%nat)
    else if low_surrogate first then None
    else Some ([first], 2%nat).

Definition utf8ToHex (value : jsstring) : result jsstring :=
  match firstUnicodeCharacter value with
  | [] => Throw emptyValue
  | text => Ok (bytesToHex (utf8_encode text))
  end.

(** [text.codePointAt(0)]: a surrogate alone is itself. *)
Definition codePointAt0 (text : jsstring) : Z :=
  match text with
  | c :: d :: _ => if high_surrogate c && low_surrogate d then 65536 + 1024 * (c - 55296) + (d - 56320) else c
  | c :: _ => c
  | [] => 0
  end.

Definition encodeUtf16Character (value : jsstring) (useLittleEndian : bool) : result jsstring :=
  match firstUnicodeCharacter value with
  | [] => Throw emptyValue
  | text =>
      let codePoint := codePointAt0 text in
      let units :=
        if codePoint <=? 65535 then [codePoint]
        else [55296 + Z.shiftr (codePoint - 65536) 10; 56320 + Z.land (codePoint - 65536) 1023] in
      Ok (bytesToHex (flat_map (set_uint 2 useLittleEndian) units))
  end.

Definition invalidValue : exn := plain_error "invalidValue".

Definition utf8_field : InspectorField :=
  mkField (js "utf8") 1 true
    (Some (fun value _ => from_option (fun d => Z.of_nat d.2) 1 (decodeFirstUtf8 value)))
    (fun value _ => match decodeFirstUtf8 value with Some (text, _) => Ok (quoted text) | None => Throw invalidValue end)
    (pure_write (fun raw _ => utf8ToHex raw)).

Definition utf16_field : InspectorField :=
  mkField (js "utf16") 2 true
    (Some (fun value le => from_option (fun d => Z.of_nat d.2) 2 (decodeFirstUtf16 value le)))
    (fun value le => match decodeFirstUtf16 value le with Some (text, _) => Ok (quoted text) | None => Throw invalidValue end)
    (pure_write (fun raw le => encodeUtf16Character raw le)).

Definition textFields : list InspectorField := [utf8_field; utf16_field].

Section Inspector.
(** [String(view.getFloat32(0, littleEndian))] and the same of a double. *)
Variable float_text : nat -> bool -> list Z -> jsstring.

Definition floatFields : list InspectorField :=
  [mkField (js "float32") 4 false None (fun value le => Ok (float_text 4 le value)) None;
   mkField (js "float64") 8 false None (fun value le => Ok (float_text 8 le value)) None].

(** [allGroups]: the text encoding of the editor comes into two of them. *)
Definition allGroups (textEncoding : TextEncoding) : list (jsstring * list InspectorField) :=
  [(js "common", [hex8_field; ascii_field; activeTextEncodingField textEncoding; binary_field; octal_field]);
   (js "integers", integerFields);
   (js "floats", floatFields);
   (js "text", activeTextEncodingField textEncoding :: textFields)].

(** ** What is shown *)

Definition displayValue (field : InspectorField) (valueBytes : list Z) (useLittleEndian : bool) : jsstring :=
  if Z.of_nat (length valueBytes) <? f_minBytes field then js "--"
  else match f_read field valueBytes useLittleEndian with Ok text => text | Throw _ => js "--" end.

Definition fieldByteLength (field : InspectorField) (valueBytes : list Z) (useLittleEndian : bool) : Z :=
  if Z.of_nat (length valueBytes) <? f_minBytes field then f_minBytes field
  else Z.max 1 (match f_byteLength field with
    | Some byteLength => byteLength valueBytes useLittleEndian
    | None => f_minBytes field
    end).

Record InspectorFieldView := mkView {
  v_field : InspectorField;
  v_value : jsstring;
  v_length : Z;
  v_available : bool
}.

Definition buildFieldView (field : InspectorField) (valueBytes : list Z) (useLittleEndian : bool) : InspectorFieldView :=
  let length := fieldByteLength field valueBytes useLittleEndian in
  let value := displayValue field valueBytes useLittleEndian in
  mkView field value length
    ((length <=? Z.of_nat (List.length valueBytes)) && negb (bool_decide (value = js "--"))).

(** ** The component *)

Record inspector := mkInspector {
  editingKey : jsstring;
  editValue : jsstring;
  editError : jsstring;
  lastSelectedOffset : Z
}.

Inductive inspector_call :=
  | InspectRange (offset length : Z)
  | CommitValue (offset length : Z) (data : jsstring).

(** [value.replace(/^'|'$/g, '')] *)
Definition strip_quotes (value : jsstring) : jsstring :=
  let value := match value with 39 :: t => t | _ => value end in
  match rev value with 39 :: t => rev t | _ => value end.

Definition beginEdit (disabled : bool) (selectedOffset : Z) (item : InspectorFieldView) (s : inspector)
  : inspector * list inspector_call :=
  if disabled || negb (f_editable (v_field item)) || negb (v_available item) || (selectedOffset <? 0) then (s, [])
  else (mkInspector (f_key (v_field item)) (strip_quotes (v_value item)) [] (lastSelectedOffset s),
        [InspectRange selectedOffset (v_length item)]).

Definition inspectField (selectedOffset : Z) (item : InspectorFieldView) : list inspector_call :=
  if v_available item && (0 <=? selectedOffset) then [InspectRange selectedOffset (v_length item)] else [].

Definition cancelEdit (s : inspector) : inspector := mkInspector [] [] [] (lastSelectedOffset s).

Definition edit_text (text : jsstring) (s : inspector) : inspector :=
  mkInspector (editingKey s) text (editError s) (lastSelectedOffset s).

(** [maps] are the tables of text, which a writer may fill. *)
Definition commitEdit (disabled littleEndian : bool) (selectedOffset : Z) (item : InspectorFieldView)
  (maps : maps_state) (s : inspector) : maps_state * inspector * list inspector_call :=
  match f_write (v_field item) with
  | None => (maps, s, [])
  | Some write =>
      if disabled || (selectedOffset <? 0) then (maps, s, [])
      else match write (editValue s) littleEndian maps with
        | (maps, Ok data) => (maps, cancelEdit s, [CommitValue selectedOffset (v_length item) data])
        | (maps, Throw error) =>
            (maps, mkInspector (editingKey s) (editValue s) (js (exn_code error)) (lastSelectedOffset s), [])
        end
  end.

(** The effect that looks at the selection. *)
Definition on_selection (selectedOffset : Z) (s : inspector) : inspector :=
  if negb (selectedOffset =? lastSelectedOffset s)
  then cancelEdit (mkInspector (editingKey s) (editValue s) (editError s) selectedOffset)
  else if selectedOffset <? 0 then cancelEdit s else s.
End Inspector.

(** ** Lemmas *)

Definition is_byte (b : Z) : Prop := 0 <= b < 256.

(** *** Numbers of some bytes *)

Lemma little_range bs : Forall is_byte bs -> 0 <= little bs < 256 ^ Z.of_nat (length bs).
Proof.
  induction 1 as [|b bs Hb _ IH]; [done|]. cbn [little foldr]. fold (little bs). unfold is_byte in Hb.
  rewrite length_cons, Nat2Z.inj_succ, Z.pow_succ_r by lia. lia.
Qed.

Lemma little_bytes_little bs : Forall is_byte bs -> little_bytes (length bs) (little bs) = bs.
Proof.
  induction 1 as [|b bs Hb _ IH]; [done|]. cbn [length little_bytes little foldr]. fold (little bs). unfold is_byte in Hb.
  rewrite (Z.mul_comm 256), Z.mod_add, Z.mod_small, Z.div_add, Z.div_small by lia. by rewrite Z.add_0_l, IH.
Qed.

Lemma little_bytes_spec n z : 0 <= z < 256 ^ Z.of_nat n ->
  length (little_bytes n z) = n /\ Forall is_byte (little_bytes n z) /\ little (little_bytes n z) = z.
Proof.
  revert z. induction n as [|n IH]; intros z Hz; [cbn in *; split; [done|]; split; [constructor|lia]|].
  rewrite Nat2Z.inj_succ, Z.pow_succ_r in Hz by lia.
  destruct (IH (z / 256)) as (Hl & Hb & Hv); [split; [apply Z.div_pos; lia|apply Z.div_lt_upper_bound; lia]|].
  pose proof (Z.mod_pos_bound z 256 ltac:(lia)) as Hm. cbn [little_bytes length]. split; [by rewrite Hl|]. split; [constructor; [exact Hm|exact Hb]|].
  cbn [little foldr]. fold (little (little_bytes n (z / 256))). rewrite Hv. pose proof (Z.div_mod z 256). lia.
Qed.

Lemma bits_bytes n : 2 ^ (8 * Z.of_nat n) = 256 ^ Z.of_nat n.
Proof. change 256 with (2 ^ 8). by rewrite <- Z.pow_mul_r by lia. Qed.

Lemma get_uint_range n le bs : Forall is_byte bs -> (n <= length bs)%nat -> 0 <= get_uint n le bs < 2 ^ (8 * Z.of_nat n).
Proof.
  intros Hb Hn. unfold get_uint. rewrite bits_bytes.
  assert (Ht : Forall is_byte (take n bs)) by by apply Forall_take.
  replace (Z.of_nat n) with (Z.of_nat (length (if le then take n bs else rev (take n bs))))
    by (destruct le; rewrite ?length_rev, length_take; lia).
  destruct le; apply little_range; [done|]. by apply Forall_rev.
Qed.

Lemma set_get_uint n le bs z : Forall is_byte bs -> (n <= length bs)%nat ->
  z mod 2 ^ (8 * Z.of_nat n) = get_uint n le bs -> set_uint n le z = take n bs.
Proof.
  intros Hb Hn Hz. unfold set_uint. rewrite Hz. unfold get_uint.
  assert (Ht : Forall is_byte (take n bs)) by by apply Forall_take.
  assert (Hl : length (take n bs) = n) by (rewrite length_take; lia).
  destruct le; [rewrite <- Hl at 1; by apply little_bytes_little|].
  rewrite <- (rev_involutive (take n bs)) at 2. f_equal.
  replace n with (length (rev (take n bs))) at 1 by (rewrite length_rev; exact Hl).
  apply little_bytes_little. by apply Forall_rev.
Qed.

Lemma get_int_mod n le bs : (0 < n)%nat -> Forall is_byte bs -> (n <= length bs)%nat ->
  get_int n le bs mod 2 ^ (8 * Z.of_nat n) = get_uint n le bs.
Proof.
  intros Hn Hb Hl. pose proof (get_uint_range n le bs Hb Hl) as Hr. unfold get_int.
  destruct (_ <=? _); [|by apply Z.mod_small].
  replace (get_uint n le bs - _) with (get_uint n le bs + (-1) * 2 ^ (8 * Z.of_nat n)) by ring.
  rewrite Z.mod_add by lia. by apply Z.mod_small.
Qed.

Lemma set_uint_spec n le z : 0 <= z < 2 ^ (8 * Z.of_nat n) ->
  length (set_uint n le z) = n /\ Forall is_byte (set_uint n le z) /\ get_uint n le (set_uint n le z) = z.
Proof.
  intros Hz. unfold set_uint, get_uint. rewrite Z.mod_small by done. rewrite bits_bytes in Hz.
  destruct (little_bytes_spec n z Hz) as (Hl & Hb & Hv). destruct le.
  - split; [done|]. split; [done|]. by rewrite <- Hl at 1; rewrite firstn_all.
  - split; [by rewrite length_rev|]. split; [by apply Forall_rev|].
    replace (take n (rev (little_bytes n z))) with (rev (little_bytes n z)); [by rewrite rev_involutive|].
    rewrite <- Hl at 2. rewrite <- length_rev. by rewrite firstn_all.
Qed.

Lemma set_uint_wraps n le z : set_uint n le z = set_uint n le (z mod 2 ^ (8 * Z.of_nat n)).
Proof. unfold set_uint. by rewrite Z.mod_mod by (apply Z.pow_nonzero; lia). Qed.

(** A signed number in range is read back as it was written. *)
Lemma set_int_spec n le z : (0 < n)%nat -> - 2 ^ (8 * Z.of_nat n - 1) <= z < 2 ^ (8 * Z.of_nat n - 1) ->
  get_int n le (set_uint n le z) = z.
Proof.
  intros Hn Hz. assert (Hp : 2 ^ (8 * Z.of_nat n) = 2 * 2 ^ (8 * Z.of_nat n - 1)).
  { rewrite <- Z.pow_succ_r by lia. f_equal. lia. }
  assert (Hpos : 0 < 2 ^ (8 * Z.of_nat n - 1)) by (apply Z.pow_pos_nonneg; lia).
  rewrite set_uint_wraps. set (m := 2 ^ (8 * Z.of_nat n)) in *.
  destruct (set_uint_spec n le (z mod m)) as (_ & _ & Hg); [apply Z.mod_pos_bound; lia|].
  unfold get_int. rewrite Hg. fold m.
  destruct (Z_lt_le_dec z 0) as [Hneg|Hge].
  - replace (z mod m) with (z + m); [destruct (Z.leb_spec (2 ^ (8 * Z.of_nat n - 1)) (z + m)); lia|].
    symmetry. rewrite <- (Z.mod_add z 1 m) by lia. rewrite Z.mul_1_l. apply Z.mod_small. lia.
  - rewrite Z.mod_small by lia. destruct (Z.leb_spec (2 ^ (8 * Z.of_nat n - 1)) z); lia.
Qed.

(** *** Printed numbers *)

Lemma canonical_all_digits s : canonical_decimal s = true -> s <> [] /\ forallb is_digit s = true.
Proof.
  destruct s as [|c t]; [done|]. cbn [canonical_decimal forallb]. intros H. split; [done|].
  apply orb_true_iff in H as [H|H]; apply andb_true_iff in H as [H1 H2]; apply andb_true_iff; unfold is_digit, in_range in *.
  - apply Z.eqb_eq in H1 as ->. apply Nat.eqb_eq in H2. by destruct t.
  - apply andb_true_iff in H1 as [A B]. split; [|exact H2]. apply andb_true_iff. split; lia.
Qed.

Lemma digits_value s : s <> [] -> forallb is_digit s = true -> radix_value 10 s = Some (decimal_value s).
Proof.
  intros Hs Hd. unfold radix_value. destruct s as [|c t]; [done|].
  assert (Hm : mapM (digit_below 10) (c :: t) = Some (map (fun c => c - 48) (c :: t))).
  { clear Hs. revert Hd. generalize (c :: t). induction l as [|d l IH]; [done|]. cbn [forallb map]. intros H.
    apply andb_true_iff in H as [H1 H2]. cbn [mapM]. rewrite (IH H2). unfold digit_below, hex_value, is_digit, in_range in *.
    rewrite H1. cbn. apply andb_true_iff in H1 as [A B]. by rewrite (proj2 (Z.ltb_lt (d - 48) 10)) by lia. }
  rewrite Hm. cbn [fmap option_fmap option_map]. f_equal. unfold decimal_value. by rewrite foldl_fmap.
Qed.

Lemma digit_not_space c : is_digit c = true -> is_js_space c = false.
Proof. unfold is_digit, in_range, is_js_space. intros H. bool_prop. lia. Qed.

Lemma trim_plain s : s <> [] -> (forall c, c ∈ s -> is_js_space c = false) -> trim s = s.
Proof.
  intros Hs Hc. unfold trim.
  assert (Hd : forall l, l <> [] -> (forall c, c ∈ l -> is_js_space c = false) -> drop_spaces l = l).
  { intros [|c l]; [done|]. cbn. intros _ H. by rewrite (H c) by (left). }
  rewrite (Hd s Hs Hc), Hd; [by rewrite rev_involutive| |].
  - intros E. apply Hs. by rewrite <- (rev_involutive s), E.
  - intros c Hin. apply Hc. by apply list_elem_of_In, in_rev, list_elem_of_In.
Qed.

Lemma not_prefixed c s : forallb is_digit s = true -> 57 < c - 32 -> after_prefix c s = None.
Proof.
  intros Hd Hc. destruct s as [|a [|b s]]; [done..|]. cbn in *. unfold is_digit, in_range in Hd.
  apply andb_true_iff in Hd as [_ Hd]. apply andb_true_iff in Hd as [Hd _]. apply andb_true_iff in Hd as [A B].
  rewrite (proj2 (Z.eqb_neq b c)), (proj2 (Z.eqb_neq b (c - 32))) by lia. by rewrite andb_false_r.
Qed.

Lemma literal_digits s : s <> [] -> forallb is_digit s = true -> literal_value s = Some (decimal_value s).
Proof.
  intros Hs Hd. unfold literal_value. rewrite !not_prefixed by (done || lia). cbn. by apply digits_value.
Qed.

(** What a number prints is parsed as the number. *)
Lemma parse_printed z : parseBigIntInput (signed_string z) = Ok z.
Proof.
  destruct (decimal_string_spec (Z.abs z) ltac:(lia)) as [Hv Hc]. destruct (canonical_all_digits _ Hc) as [Hne Hd].
  assert (Hall : forall c, c ∈ decimal_string (Z.abs z) -> is_digit c = true).
  { intros c Hin. rewrite forallb_forall in Hd. by apply Hd, list_elem_of_In. }
  assert (Hfil : List.filter (fun c => negb (c =? 95)) (decimal_string (Z.abs z)) = decimal_string (Z.abs z)).
  { apply forallb_filter_id, forallb_forall. intros c Hin. apply list_elem_of_In, Hall in Hin.
    unfold is_digit, in_range in Hin. apply andb_true_iff in Hin as [A B]. apply negb_true_iff, Z.eqb_neq. lia. }
  unfold parseBigIntInput, signed_string. destruct (Z.ltb_spec z 0) as [Hz|Hz].
  - replace (- z) with (Z.abs z) by lia. rewrite trim_plain; [|done|].
    + cbn [List.filter js]. change (List.filter _ (45 :: ?l)) with (45 :: List.filter (fun c => negb (c =? 95)) l).
      cbn. rewrite Hfil, literal_digits by done. rewrite Hv. f_equal. lia.
    + intros c Hin. apply elem_of_cons in Hin as [->|Hin]; [done|by apply digit_not_space, Hall].
  - assert (Ez : decimal_string z = decimal_string (Z.abs z)) by (f_equal; lia). rewrite Ez, trim_plain, Hfil; [|done|intros c Hin; by apply digit_not_space, Hall].
    destruct (decimal_string (Z.abs z)) as [|c t] eqn:E; [done|].
    pose proof (Hall c ltac:(by left)) as Hdc. unfold is_digit, in_range in Hdc. apply andb_true_iff in Hdc as [A B].
    rewrite (proj2 (Z.eqb_neq c 45)), (proj2 (Z.eqb_neq c 43)) by lia. rewrite literal_digits by done. rewrite Hv. f_equal. lia.
Qed.

(** *** Integers *)

Definition int_min (n : nat) (signed : bool) : Z := if signed then - 2 ^ (8 * Z.of_nat n - 1) else 0.
Definition int_max (n : nat) (signed : bool) : Z :=
  if signed then 2 ^ (8 * Z.of_nat n - 1) - 1 else 2 ^ (8 * Z.of_nat n) - 1.
Definition int_at (n : nat) (signed le : bool) (bs : list Z) : Z := if signed then get_int n le bs else get_uint n le bs.

Lemma int_at_range n signed le bs : (0 < n)%nat -> Forall is_byte bs -> (n <= length bs)%nat ->
  int_min n signed <= int_at n signed le bs <= int_max n signed.
Proof.
  intros Hn Hb Hl. pose proof (get_uint_range n le bs Hb Hl) as Hr. unfold int_min, int_max, int_at.
  destruct signed; [|lia]. unfold get_int.
  assert (Hp : 2 ^ (8 * Z.of_nat n) = 2 * 2 ^ (8 * Z.of_nat n - 1)).
  { rewrite <- Z.pow_succ_r by lia. f_equal. lia. }
  destruct (Z.leb_spec (2 ^ (8 * Z.of_nat n - 1)) (get_uint n le bs)); lia.
Qed.

Lemma int_at_set n signed le z : (0 < n)%nat -> int_min n signed <= z <= int_max n signed ->
  int_at n signed le (set_uint n le z) = z.
Proof.
  intros Hn Hz. unfold int_min, int_max, int_at in *. destruct signed; [apply set_int_spec; [done|lia]|].
  apply set_uint_spec. lia.
Qed.

Lemma int_write_back n signed le bs : (0 < n)%nat -> Forall is_byte bs -> (n <= length bs)%nat ->
  set_uint n le (int_at n signed le bs) = take n bs.
Proof.
  intros Hn Hb Hl. apply set_get_uint; [done..|]. unfold int_at. destruct signed; [by apply get_int_mod|].
  apply Z.mod_small. by apply get_uint_range.
Qed.

Lemma set_uint_bytes n le z : Forall is_byte (set_uint n le z).
Proof.
  rewrite set_uint_wraps. apply set_uint_spec. apply Z.mod_pos_bound, Z.pow_pos_nonneg; lia.
Qed.

Lemma integer_write key n signed raw le maps :
  match f_write (integerField key n signed) with
  | Some write => write raw le maps =
      (maps, match parseBigIntInput raw with
             | Ok z => if (z <? int_min n signed) || (int_max n signed <? z) then Throw outOfRange
                       else Ok (writeIntegerBytes z n le)
             | Throw e => Throw e
             end)
  | None => False
  end.
Proof.
  cbn. unfold liftM, parseIntegerInRange, int_min, int_max. destruct (parseBigIntInput raw) as [z|e]; [|done]. cbn.
  by destruct (_ || _).
Qed.

(** *** A value that is written as it was shown *)

(** The bytes a field shows are those its writer gives for what it shows. *)
Definition reversible (f : InspectorField) (le : bool) : Prop :=
  forall write bs maps, f_write f = Some write -> Forall is_byte bs -> maps_ok maps ->
    let item := buildFieldView f bs le in
    v_available item = true ->
    0 < v_length item /\
    exists maps' data, maps_ok maps' /\ write (strip_quotes (v_value item)) le maps = (maps', Ok data) /\
      hex_decode data = take (Z.to_nat (v_length item)) bs.

Lemma available_inv f bs le : v_available (buildFieldView f bs le) = true ->
  f_minBytes f <= Z.of_nat (length bs) /\
  exists text, f_read f bs le = Ok text /\ v_value (buildFieldView f bs le) = text /\ text <> js "--" /\
  v_length (buildFieldView f bs le) =
    Z.max 1 (match f_byteLength f with Some byteLength => byteLength bs le | None => f_minBytes f end) /\
  v_length (buildFieldView f bs le) <= Z.of_nat (length bs).
Proof.
  unfold buildFieldView, displayValue, fieldByteLength. cbn [v_available v_value v_length]. intros H.
  apply andb_true_iff in H as [Hl Hv]. apply negb_true_iff, bool_decide_eq_false in Hv. apply Z.leb_le in Hl.
  destruct (Z.ltb_spec (Z.of_nat (length bs)) (f_minBytes f)); [done|]. split; [done|].
  destruct (f_read f bs le) as [text|]; [|done]. by exists text.
Qed.

Lemma signed_plain z : strip_quotes (signed_string z) = signed_string z.
Proof.
  destruct (decimal_string_spec (Z.abs z) ltac:(lia)) as [_ Hc]. destruct (canonical_all_digits _ Hc) as [Hne Hd].
  assert (Hall : forall c, c ∈ signed_string z -> c <> 39).
  { intros c. unfold signed_string. destruct (Z.ltb_spec z 0); [replace (- z) with (Z.abs z) by lia|replace z with (Z.abs z) by lia];
      intros Hin; [apply elem_of_cons in Hin as [->|Hin]; [done|]|]; rewrite forallb_forall in Hd;
      apply list_elem_of_In, Hd in Hin; unfold is_digit, in_range in Hin; apply andb_true_iff in Hin as [A B]; lia. }
  revert Hall. generalize (signed_string z). intros s Hall. unfold strip_quotes.
  assert (Hs : match s with 39 :: t => t | _ => s end = s).
  { destruct s as [|c t]; [done|]. pose proof (Hall c ltac:(by left)). by repeat case_match; subst. }
  rewrite Hs. destruct (rev s) as [|c t] eqn:E; [done|].
  assert (Hc' : c <> 39) by (apply Hall; rewrite <- (rev_involutive s), E; apply list_elem_of_In; rewrite <- in_rev; by left).
  by repeat case_match; subst.
Qed.

Lemma integer_reversible key n signed le : (0 < n)%nat -> reversible (integerField key n signed) le.
Proof.
  intros Hn write bs maps Hw Hb Hm item Ha. apply available_inv in Ha as (Hl & text & Hr & Hv & _ & Hlen & _).
  cbn [f_minBytes integerField] in Hl. assert (Hl' : (n <= length bs)%nat) by lia.
  cbn [f_byteLength f_minBytes integerField] in Hlen. fold item in Hv, Hlen. rewrite Hlen. split; [lia|].
  replace (Z.to_nat (Z.max 1 (Z.of_nat n))) with n by lia.
  pose proof (integer_write key n signed (strip_quotes (v_value item)) le maps) as Hwr. rewrite Hw in Hwr.
  assert (Ht : text = signed_string (int_at n signed le bs)) by (cbn in Hr; injection Hr as <-; unfold int_at; by destruct signed).
  rewrite Hv, Ht, signed_plain, parse_printed in Hwr. pose proof (int_at_range n signed le bs Hn Hb Hl') as Hrange.
  rewrite (proj2 (Z.ltb_ge _ _)), (proj2 (Z.ltb_ge _ _)) in Hwr by lia. cbn [orb] in Hwr.
  exists maps. eexists. split; [done|]. split; [rewrite Hv, Ht, signed_plain; exact Hwr|].
  unfold writeIntegerBytes. rewrite (int_write_back n signed le bs Hn Hb Hl').
  apply hex_forms_agree. by apply Forall_take.
Qed.

(** The fields of one byte: every byte, by computation. *)
Definition one_byte_ok (f : InspectorField) (b : Z) : bool :=
  match f_read f [b] true, f_write f with
  | Ok text, Some write =>
      match (write (strip_quotes text) true []).2 with
      | Ok data => bool_decide (hex_decode data = [b])
      | Throw _ => false
      end
  | _, _ => true
  end.

Lemma one_byte_reversible f le :
  f_minBytes f = 1 -> f_byteLength f = None ->
  (forall bs le, f_read f bs le = f_read f [first_byte bs] true) ->
  (forall write raw le maps, f_write f = Some write -> write raw le maps = (maps, (write raw true []).2)) ->
  forallb (one_byte_ok f) (seqZ 0 256) = true -> reversible f le.
Proof.
  intros Hmin Hlen Hread Hpure Hall write bs maps Hw Hb Hm item Ha.
  apply available_inv in Ha as (Hl & text & Hr & Hv & _ & Hn & _). rewrite Hmin, Hlen in *.
  fold item in Hv, Hn. rewrite Hn. split; [lia|]. destruct bs as [|b bs]; [cbn in Hl; lia|].
  rewrite Hread in Hr. cbn [first_byte head default] in Hr.
  assert (Hbyte : is_byte b) by by inversion Hb.
  rewrite forallb_forall in Hall. specialize (Hall b). unfold one_byte_ok in Hall.
  change (f_read f [b] true = Ok text) in Hr. rewrite Hr, Hw in Hall. rewrite Hv, (Hpure write _ _ _ Hw).
  specialize (Hall (proj1 (list_elem_of_In _ _) (proj2 (elem_of_seqZ 0 256 b) Hbyte))).
  destruct ((write (strip_quotes text) true []).2) as [data|e]; [|done].
  exists maps, data. split; [done|]. split; [done|]. by apply bool_decide_eq_true_1 in Hall.
Qed.

Lemma hex8_reversible le : reversible hex8_field le.
Proof. apply one_byte_reversible; [done..| |vm_compute; reflexivity]. by intros ? raw le' maps [= <-]. Qed.
Lemma ascii_reversible le : reversible ascii_field le.
Proof. apply one_byte_reversible; [done..| |vm_compute; reflexivity]. by intros ? raw le' maps [= <-]. Qed.
Lemma binary_reversible le : reversible binary_field le.
Proof. apply one_byte_reversible; [done..| |vm_compute; reflexivity]. by intros ? raw le' maps [= <-]. Qed.
Lemma octal_reversible le : reversible octal_field le.
Proof. apply one_byte_reversible; [done..| |vm_compute; reflexivity]. by intros ? raw le' maps [= <-]. Qed.

Lemma strip_quoted text : text <> [] -> strip_quotes (quoted text) = text.
Proof.
  intros Ht. unfold quoted, strip_quotes. destruct text as [|c t]; [done|].
  change (js "'" ++ (c :: t) ++ js "'") with (39 :: (c :: t) ++ [39]). cbv beta iota zeta.
  rewrite rev_app_distr. change (rev [39]) with [39]. cbn [app]. by rewrite rev_involutive.
Qed.

Lemma radix_byte b : is_byte b -> exists h l, byte_hex b = [h; l] /\ radix_value 16 [h; l] = Some b.
Proof.
  intros Hb. assert (H : match byte_hex b with [h; l] => bool_decide (radix_value 16 [h; l] = Some b) | _ => false end = true).
  { apply (every_byte (fun _ b => match byte_hex b with [h; l] => bool_decide (radix_value 16 [h; l] = Some b) | _ => false end) ascii b);
      [vm_compute; reflexivity|exact Hb]. }
  destruct (byte_hex b) as [|h [|l [|]]]; try done. exists h, l. split; [done|]. by apply bool_decide_eq_true_1 in H.
Qed.

Lemma text_reversible e le : reversible (activeTextEncodingField e) le.
Proof.
  intros write bs maps Hw Hb Hm item Ha. apply available_inv in Ha as (Hl & text & Hr & Hv & Hne & Hn & _).
  cbn [f_minBytes f_byteLength activeTextEncodingField] in *. fold item in Hv, Hn. rewrite Hn. split; [lia|].
  destruct bs as [|b bs]; [cbn in Hl; lia|]. assert (Hbyte : is_byte b) by by inversion Hb.
  cbn [f_read activeTextEncodingField] in Hr. change (first_byte (b :: bs)) with b in Hr.
  destruct (isPrintableTextByte b e) eqn:Hp; [|done]. cbn [negb] in Hr.
  destruct (decodeTextByte b e) as [ch|] eqn:Hd; [|injection Hr as <-; done].
  cbn [default] in Hr. pose proof (decoded_plain _ _ _ Hd) as Hch. destruct ch as [|c [|]]; try done.
  assert (Ht : quoted [c] = text) by (change (id [c]) with [c] in Hr; congruence).
  rewrite Hv, <- Ht, strip_quoted by done.
  injection Hw as <-. change (firstUnicodeCharacter [c]) with [c]. cbn [length Nat.eqb].
  destruct (encode_cached maps [c] e Hm) as (maps' & Hm' & He).
  assert (Hx : encodeTextToHex [c] e maps = (maps', Ok (Some (byte_hex b)))).
  { unfold encodeTextToHex, bindM. rewrite He. cbn [array_from mapM].
    rewrite (proj2 (reverse_spec e [c] b) Hd). cbn. by rewrite app_nil_r. }
  destruct (radix_byte b Hbyte) as (h & l & Hh & Hrv). exists maps', (byte_hex b).
  split; [done|]. unfold bindM. rewrite Hx, Hh.
  match goal with |- context [match ?x with Some _ => _ | None => throwM _ end] => change x with (radix_value 16 [h; l]) end.
  rewrite Hrv, Hp. split; [done|]. rewrite <- Hh.
  destruct (hex_pair b Hbyte) as [-> Hdec]. specialize (Hdec []). rewrite app_nil_r in Hdec. by rewrite Hdec.
Qed.

(** *** Characters *)

Definition scalar (p : Z) : Prop := 0 <= p < 1114112 /\ ~ 55296 <= p <= 57343.

Lemma surrogates_of p : 65536 <= p < 1114112 ->
  utf16_point p = [55296 + (p - 65536) / 1024; 56320 + (p - 65536) mod 1024] /\
  high_surrogate (55296 + (p - 65536) / 1024) = true /\ low_surrogate (56320 + (p - 65536) mod 1024) = true.
Proof.
  intros Hp. unfold utf16_point. rewrite (proj2 (Z.ltb_ge p 65536)) by lia. split; [done|].
  assert (0 <= (p - 65536) / 1024 < 1024) by (split; [apply Z.div_pos; lia|apply Z.div_lt_upper_bound; lia]).
  pose proof (Z.mod_pos_bound (p - 65536) 1024 ltac:(lia)). unfold high_surrogate, low_surrogate. split; lia.
Qed.

Lemma not_surrogate p : p < 65536 -> ~ 55296 <= p <= 57343 -> high_surrogate p = false /\ low_surrogate p = false.
Proof. unfold high_surrogate, low_surrogate. lia. Qed.

(** The code units of a character are one character. *)
Lemma character_whole p : scalar p ->
  firstUnicodeCharacter (utf16_point p) = utf16_point p /\ utf16_point p <> [] /\
  code_points (utf16_point p) = [p] /\ codePointAt0 (utf16_point p) = p.
Proof.
  intros [Hp Hs]. unfold firstUnicodeCharacter. destruct (Z_lt_le_dec p 65536) as [Hlt|Hge].
  - unfold utf16_point. rewrite (proj2 (Z.ltb_lt p 65536)) by lia. destruct (not_surrogate p Hlt Hs) as [Hh Hl].
    cbn. by rewrite Hh, Hl.
  - destruct (surrogates_of p ltac:(lia)) as (-> & Hh & Hl). cbn [array_from code_points codePointAt0].
    rewrite Hh, Hl. cbn [andb head default]. repeat split; [done| |]; pose proof (Z.div_mod (p - 65536) 1024 ltac:(lia)).
    + do 2 f_equal. lia.
    + lia.
Qed.

Lemma utf8_of_character p : scalar p -> utf8_encode (utf16_point p) = utf8_point p.
Proof. intros Hp. unfold utf8_encode. destruct (character_whole p Hp) as (_ & _ & -> & _). cbn. by rewrite app_nil_r. Qed.

(** *** UTF-8 of two, three and four bytes *)

Lemma point_two a b : 194 <= a <= 223 -> 128 <= b <= 191 -> utf8_point (64 * (a - 192) + (b - 128)) = [a; b].
Proof.
  intros Ha Hb. unfold utf8_point. rewrite (proj2 (Z.ltb_ge _ 128)), (proj2 (Z.ltb_lt _ 2048)) by lia.
  replace (64 * (a - 192) + (b - 128)) with ((b - 128) + (a - 192) * 64) by lia.
  rewrite Z.div_add, Z.mod_add, Z.div_small, Z.mod_small by lia. repeat f_equal; lia.
Qed.

Lemma point_three a b c : in_range 224 239 a = true ->
  in_range (if a =? 224 then 160 else 128) (if a =? 237 then 159 else 191) b && in_range 128 191 c = true ->
  scalar (4096 * (a - 224) + 64 * (b - 128) + (c - 128)) /\
  utf8_point (4096 * (a - 224) + 64 * (b - 128) + (c - 128)) = [a; b; c].
Proof.
  intros Ha Hbc. unfold in_range in *. apply andb_true_iff in Ha as [A1 A2]. apply andb_true_iff in Hbc as [B C].
  apply andb_true_iff in B as [B1 B2]. apply andb_true_iff in C as [C1 C2]. apply Z.leb_le in A1, A2, B1, B2, C1, C2.
  assert (Hb : 128 <= b <= 191) by (destruct (a =? 224), (a =? 237); lia).
  assert (Hp : 2048 <= 4096 * (a - 224) + 64 * (b - 128) + (c - 128)) by (destruct (Z.eqb_spec a 224); lia).
  split; [unfold scalar; destruct (Z.eqb_spec a 237); lia|]. unfold utf8_point.
  rewrite (proj2 (Z.ltb_ge _ 128)), (proj2 (Z.ltb_ge _ 2048)), (proj2 (Z.ltb_lt _ 65536)) by lia.
  replace (4096 * (a - 224) + 64 * (b - 128) + (c - 128)) with ((c - 128) + ((b - 128) + (a - 224) * 64) * 64) by lia.
  change 4096 with (64 * 64). rewrite <- Z.div_div by lia.
  rewrite (Z.div_add (c - 128)), (Z.div_small (c - 128) 64), Z.add_0_l, (Z.mod_add (c - 128)), (Z.mod_small (c - 128)) by lia.
  rewrite (Z.div_add (b - 128)), (Z.div_small (b - 128)), (Z.mod_add (b - 128)), (Z.mod_small (b - 128)) by lia.
  repeat f_equal; lia.
Qed.

Lemma point_four a b c d : in_range 240 244 a = true ->
  in_range (if a =? 240 then 144 else 128) (if a =? 244 then 143 else 191) b && in_range 128 191 c && in_range 128 191 d = true ->
  scalar (262144 * (a - 240) + 4096 * (b - 128) + 64 * (c - 128) + (d - 128)) /\
  utf8_point (262144 * (a - 240) + 4096 * (b - 128) + 64 * (c - 128) + (d - 128)) = [a; b; c; d].
Proof.
  intros Ha Hbc. unfold in_range in *. apply andb_true_iff in Ha as [A1 A2]. apply andb_true_iff in Hbc as [BC D].
  apply andb_true_iff in BC as [B C].
  apply andb_true_iff in B as [B1 B2]. apply andb_true_iff in C as [C1 C2]. apply andb_true_iff in D as [D1 D2].
  apply Z.leb_le in A1, A2, B1, B2, C1, C2, D1, D2.
  assert (Hb : 128 <= b <= 191) by (destruct (a =? 240), (a =? 244); lia).
  assert (Hp : 65536 <= 262144 * (a - 240) + 4096 * (b - 128) + 64 * (c - 128) + (d - 128) < 1114112)
    by (destruct (Z.eqb_spec a 240), (Z.eqb_spec a 244); lia).
  split; [unfold scalar; lia|]. unfold utf8_point.
  rewrite (proj2 (Z.ltb_ge _ 128)), (proj2 (Z.ltb_ge _ 2048)), (proj2 (Z.ltb_ge _ 65536)) by lia.
  replace (262144 * (a - 240) + 4096 * (b - 128) + 64 * (c - 128) + (d - 128))
    with ((d - 128) + ((c - 128) + ((b - 128) + (a - 240) * 64) * 64) * 64) by lia.
  change 262144 with (64 * (64 * 64)). change 4096 with (64 * 64). rewrite <- !Z.div_div by lia.
  rewrite (Z.div_add (d - 128)), (Z.div_small (d - 128) 64), Z.add_0_l, (Z.mod_add (d - 128)), (Z.mod_small (d - 128)) by lia.
  rewrite (Z.div_add (c - 128)), (Z.div_small (c - 128) 64), Z.add_0_l, (Z.mod_add (c - 128)), (Z.mod_small (c - 128)) by lia.
  rewrite (Z.div_add (b - 128)), (Z.div_small (b - 128)), (Z.mod_add (b - 128)), (Z.mod_small (b - 128)) by lia.
  repeat f_equal; lia.
Qed.

(** One character of UTF-8: its bytes are those of its code point. *)
Lemma utf8_character bs n p : utf8_length (first_byte bs) = Some n -> length bs = n -> Forall is_byte bs ->
  utf8_points bs = Some p -> exists c, p = [c] /\ scalar c /\ utf8_point c = bs.
Proof.
  intros Hn Hl Hb Hp. unfold utf8_length in Hn. destruct bs as [|a t]; [cbn in *; subst n; done|].
  change (first_byte (a :: t)) with a in Hn. inversion Hb as [|? ? Ha Ht]; subst. unfold is_byte in Ha.
  assert (E0 : in_range 0 127 a = (a <=? 127)) by (unfold in_range; rewrite (proj2 (Z.leb_le 0 a)) by lia; done).
  cbn [utf8_points] in Hp. rewrite E0 in Hp.
  destruct (a <=? 127) eqn:E1; [|destruct (in_range 194 223 a) eqn:E2; [|destruct (in_range 224 239 a) eqn:E3;
    [|destruct (in_range 240 244 a) eqn:E4; [|done]]]]; injection Hn as Hn.
  - destruct t; [|done]. injection Hp as <-. exists a. apply Z.leb_le in E1. split; [done|]. split; [unfold scalar; lia|].
    unfold utf8_point. by rewrite (proj2 (Z.ltb_lt a 128)) by lia.
  - destruct t as [|b [|]]; try done. destruct (in_range 128 191 b) eqn:Eb; [|done]. injection Hp as <-.
    unfold in_range in E2, Eb. bool_prop. eexists. split; [done|]. split; [unfold scalar; lia|]. apply point_two; lia.
  - destruct t as [|b [|c [|]]]; try done. destruct (_ && _) eqn:Eb in Hp; [|done]. injection Hp as <-.
    eexists. split; [done|]. by apply point_three.
  - destruct t as [|b [|c [|d [|]]]]; try done. cbn [andb] in Hp. destruct (_ && _) eqn:Eb in Hp; [|done]. injection Hp as <-.
    eexists. split; [done|]. by apply point_four.
Qed.

Lemma decode_first_utf8 bs text n : Forall is_byte bs -> decodeFirstUtf8 bs = Some (text, n) ->
  (0 < n <= length bs)%nat /\ exists p, scalar p /\ text = utf16_point p /\ utf8_point p = take n bs.
Proof.
  intros Hb. unfold decodeFirstUtf8. destruct (utf8_length (first_byte bs)) as [k|] eqn:Ek; [|done]. cbn [mbind option_bind].
  destruct (Nat.ltb_spec (length bs) k) as [|Hk]; [done|]. destruct (text_decode (take k bs)) as [t|] eqn:Et; [|done]. cbn.
  destruct t as [|c0 t]; [done|]. intros [= <- <-].
  assert (Hk0 : (0 < k)%nat) by (revert Ek; unfold utf8_length; repeat case_match; intros [= <-]; lia).
  split; [lia|]. unfold text_decode in Et. cbv zeta in Et. set (body := match take k bs with 239 :: 187 :: 191 :: t => t | _ => _ end) in Et.
  destruct (utf8_points body) as [ps|] eqn:Ep; [|done]. injection Et as Et.
  assert (Hbody : body = take k bs).
  { assert (Hcase : body = take k bs \/ take k bs = 239 :: 187 :: 191 :: body) by (unfold body; repeat case_match; auto).
    clearbody body. destruct Hcase as [|E]; [done|]. destruct bs as [|a bs]; [destruct k; done|]. destruct k as [|k]; [lia|].
    cbn in E. injection E as Ea E. subst a. injection Ek as Ek. subst k.
    assert (Hl : length (take 2 bs) = (2 + length body)%nat) by by rewrite E.
    rewrite length_take in Hl. destruct body as [|x body]; [|cbn [length] in *; lia]. injection Ep as <-. done. }
  rewrite Hbody in Ep. destruct bs as [|a bs]; [cbn in Hk; lia|]. destruct k as [|k]; [lia|].
  assert (Hbt : Forall is_byte (take (Datatypes.S k) (a :: bs))) by by apply Forall_take.
  destruct (utf8_character (take (Datatypes.S k) (a :: bs)) (Datatypes.S k) ps Ek) as (p & -> & Hp & Hu); [rewrite length_take; lia|done|done|].
  exists p. split; [done|]. split; [|done]. rewrite <- Et. cbn. by rewrite app_nil_r.
Qed.

(** A quoted text that is shown is not the mark of a missing value, and what
    is written for it is what is written for the text. *)
Lemma utf8_reversible le : reversible utf8_field le.
Proof.
  intros write bs maps Hw Hb Hm item Ha. apply available_inv in Ha as (Hl & text & Hr & Hv & _ & Hn & Hle).
  cbn [f_minBytes f_byteLength f_read utf8_field] in *. fold item in Hv, Hn.
  destruct (decodeFirstUtf8 bs) as [[shown n]|] eqn:Ed; [|done].
  destruct (decode_first_utf8 bs shown n Hb Ed) as (Hnl & p & Hp & -> & Hu).
  assert (Ht : quoted (utf16_point p) = text) by congruence. cbn [from_option snd] in Hn. rewrite Hn.
  replace (Z.to_nat (Z.max 1 (Z.of_nat n))) with n by lia. split; [lia|].
  destruct (character_whole p Hp) as (Hf & Hne & _). exists maps, (bytesToHex (take n bs)). split; [done|].
  injection Hw as <-. rewrite Hv, <- Ht, strip_quoted by done. unfold liftM, utf8ToHex. rewrite Hf.
  split; [|apply hex_forms_agree; by apply Forall_take]. destruct (utf16_point p) as [|c t] eqn:E; [done|].
  rewrite <- E, utf8_of_character, Hu by done. done.
Qed.

Lemma take_pair (bs : list Z) : (4 <= length bs)%nat -> take 2 bs ++ take 2 (drop 2 bs) = take 4 bs.
Proof. intros H. by destruct bs as [|a [|b [|c [|d bs]]]]; cbn in H; try lia. Qed.

Lemma decode_first_utf16 bs le text n : Forall is_byte bs -> decodeFirstUtf16 bs le = Some (text, n) ->
  (0 < n <= length bs)%nat /\ text <> [] /\ firstUnicodeCharacter text = text /\
  encodeUtf16Character text le = Ok (bytesToHex (take n bs)).
Proof.
  intros Hb. unfold decodeFirstUtf16. destruct (Nat.ltb_spec (length bs) 2) as [|H2]; [done|].
  pose proof (get_uint_range 2 le bs Hb H2) as Hr. change (2 ^ (8 * Z.of_nat 2)) with 65536 in Hr.
  assert (Hset : forall z (l : list Z), Forall is_byte l -> (2 <= length l)%nat -> z = get_uint 2 le l -> set_uint 2 le z = take 2 l).
  { intros z l Hlb Hl ->. apply set_get_uint; [done..|]. apply Z.mod_small. by apply get_uint_range. }
  destruct (high_surrogate (get_uint 2 le bs)) eqn:Eh.
  - destruct (Nat.ltb_spec (length bs) 4) as [|H4]; [done|]. destruct (low_surrogate (get_uint 2 le (drop 2 bs))) eqn:El; [|done].
    cbn [negb]. intros [= <- <-]. set (hi := get_uint 2 le bs) in *. set (lo := get_uint 2 le (drop 2 bs)) in *.
    rewrite Z.shiftl_mul_pow2 by lia. change (2 ^ 10) with 1024.
    set (p := 65536 + (hi - 55296) * 1024 + (lo - 56320)).
    assert (Hh : 55296 <= hi <= 56319) by (unfold high_surrogate in Eh; lia).
    assert (Hlo : 56320 <= lo <= 57343) by (unfold low_surrogate in El; lia).
    assert (Hp : scalar p) by (unfold scalar, p; lia).
    destruct (character_whole p Hp) as (Hf & Hne & _ & Hc). split; [lia|]. split; [done|]. split; [done|].
    unfold encodeUtf16Character. rewrite Hf. destruct (utf16_point p) as [|c t] eqn:E; [done|]. rewrite Hc.
    rewrite (proj2 (Z.leb_gt p 65535)) by (unfold p; lia). rewrite Z.shiftr_div_pow2 by lia. change 1023 with (Z.ones 10).
    rewrite Z.land_ones by lia. change (2 ^ 10) with 1024.
    replace (p - 65536) with ((lo - 56320) + (hi - 55296) * 1024) by (unfold p; lia).
    rewrite Z.div_add, Z.mod_add, Z.div_small, Z.mod_small by lia. cbn [flat_map]. rewrite app_nil_r. do 2 f_equal.
    rewrite (Hset _ bs Hb H2) by lia. rewrite (Hset _ (drop 2 bs)); [by apply take_pair|by apply Forall_drop|rewrite length_drop; lia|lia].
  - destruct (low_surrogate (get_uint 2 le bs)) eqn:El; [done|]. intros [= <- <-]. set (u := get_uint 2 le bs) in *.
    assert (Hp : scalar u) by (unfold scalar, high_surrogate, low_surrogate in *; lia).
    assert (Hu : utf16_point u = [u]) by (unfold utf16_point; by rewrite (proj2 (Z.ltb_lt u 65536)) by lia).
    destruct (character_whole u Hp) as (Hf & Hne & _ & Hc). rewrite Hu in *. split; [lia|]. split; [done|]. split; [done|].
    unfold encodeUtf16Character. rewrite Hf, Hc. rewrite (proj2 (Z.leb_le u 65535)) by lia. cbn [flat_map]. rewrite app_nil_r.
    by rewrite (Hset u bs Hb H2).
Qed.

Lemma utf16_reversible le : reversible utf16_field le.
Proof.
  intros write bs maps Hw Hb Hm item Ha. apply available_inv in Ha as (Hl & text & Hr & Hv & _ & Hn & Hle).
  cbn [f_minBytes f_byteLength f_read utf16_field] in *. fold item in Hv, Hn.
  destruct (decodeFirstUtf16 bs le) as [[shown n]|] eqn:Ed; [|done].
  destruct (decode_first_utf16 bs le shown n Hb Ed) as (Hnl & Hne & _ & He).
  assert (Ht : quoted shown = text) by congruence. cbn [from_option snd] in Hn. rewrite Hn.
  replace (Z.to_nat (Z.max 1 (Z.of_nat n))) with n by lia. split; [lia|].
  exists maps, (bytesToHex (take n bs)). split; [done|]. injection Hw as <-. rewrite Hv, <- Ht, strip_quoted by done.
  unfold liftM. rewrite He. split; [done|]. apply hex_forms_agree. by apply Forall_take.
Qed.

(** ** Properties *)

Lemma every_field_reversible float_text e g fs f le :
  (g, fs) ∈ allGroups float_text e -> f ∈ fs -> reversible f le.
Proof.
  intros Hg Hf. unfold allGroups in Hg. repeat (apply elem_of_cons in Hg as [[= -> ->]|Hg]); [| | | |by apply elem_of_nil in Hg].
  all: unfold integerFields, floatFields, textFields in Hf;
    repeat (apply elem_of_cons in Hf as [->|Hf]); try by apply elem_of_nil in Hf.
  all: first [apply hex8_reversible | apply ascii_reversible | apply text_reversible | apply binary_reversible
    | apply octal_reversible | apply integer_reversible; lia | apply utf8_reversible | apply utf16_reversible
    | by intros write bs maps Hw].
Qed.

(** C22 A value that is edited and committed as it was shown leaves the bytes
    as they are, whatever the field: what the inspector commits is as long as
    the value it shows and has the bytes that are there. *)
Theorem unchanged_value_keeps_bytes float_text e g fs f le bs selectedOffset maps s :
  (g, fs) ∈ allGroups float_text e -> f ∈ fs -> f_editable f = true ->
  Forall is_byte bs -> maps_ok maps -> 0 <= selectedOffset ->
  let item := buildFieldView f bs le in
  v_available item = true ->
  let '(s1, asked) := beginEdit false selectedOffset item s in
  asked = [InspectRange selectedOffset (v_length item)] /\
  exists maps' data, commitEdit false le selectedOffset item maps s1 =
    (maps', cancelEdit s1, [CommitValue selectedOffset (v_length item) data]) /\
    hex_decode data = take (Z.to_nat (v_length item)) bs.
Proof.
  intros Hg Hf He Hb Hm Ho item Ha. unfold beginEdit. change (v_field item) with f. rewrite He, Ha.
  rewrite (proj2 (Z.ltb_ge selectedOffset 0)) by lia. cbn [orb negb]. split; [done|].
  pose proof (every_field_reversible _ _ _ _ _ le Hg Hf) as Hrev.
  unfold commitEdit. change (v_field item) with f. cbn [editValue].
  destruct (f_write f) as [write|] eqn:Hw.
  - destruct (Hrev write bs maps Hw Hb Hm Ha) as (_ & maps' & data & _ & Hd & Hx).
    rewrite (proj2 (Z.ltb_ge selectedOffset 0)) by lia. cbn [orb]. fold item in Hd. rewrite Hd. by exists maps', data.
  - exfalso. clear - Hg Hf He Hw. unfold allGroups in Hg.
    repeat (apply elem_of_cons in Hg as [[= -> ->]|Hg]); [| | | |by apply elem_of_nil in Hg];
      unfold integerFields, floatFields, textFields in Hf;
      repeat (apply elem_of_cons in Hf as [->|Hf]); by try apply elem_of_nil in Hf.
Qed.

(** C24 An integer field takes exactly the texts of integers of its width:
    what it writes has its width and is read as the same number, in both byte
    orders; other texts are refused, numbers outside as out of range. *)
Theorem integer_field_exact key n signed raw le maps :
  (0 < n)%nat ->
  exists write, f_write (integerField key n signed) = Some write /\
  match parseBigIntInput raw with
  | Ok z =>
      if (int_min n signed <=? z) && (z <=? int_max n signed) then
        exists data, write raw le maps = (maps, Ok data) /\ length (hex_decode data) = n /\
          f_read (integerField key n signed) (hex_decode data) le = Ok (signed_string z)
      else write raw le maps = (maps, Throw outOfRange)
  | Throw e => write raw le maps = (maps, Throw e)
  end.
Proof.
  intros Hn. eexists. split; [reflexivity|]. pose proof (integer_write key n signed raw le maps) as Hw.
  cbn [f_write integerField pure_write] in Hw. destruct (parseBigIntInput raw) as [z|e]; [|exact Hw].
  destruct (Z.leb_spec (int_min n signed) z), (Z.leb_spec z (int_max n signed)); cbn [andb].
  - rewrite (proj2 (Z.ltb_ge _ _)), (proj2 (Z.ltb_ge _ _)) in Hw by lia. eexists. split; [exact Hw|].
    unfold writeIntegerBytes. destruct (hex_forms_agree (set_uint n le z) (set_uint_bytes n le z)) as [_ ->]. split.
    + rewrite set_uint_wraps. apply set_uint_spec. apply Z.mod_pos_bound, Z.pow_pos_nonneg; lia.
    + pose proof (int_at_set n signed le z Hn ltac:(lia)) as Hz. cbn. unfold int_at in Hz. destruct signed; by rewrite Hz.
  - rewrite (proj2 (Z.ltb_lt (int_max n signed) z)), orb_true_r in Hw by lia. exact Hw.
  - rewrite (proj2 (Z.ltb_lt z (int_min n signed))) in Hw by lia. exact Hw.
  - rewrite (proj2 (Z.ltb_lt z (int_min n signed))) in Hw by lia. exact Hw.
Qed.

(** ** Examples *)

Definition no_floats (n : nat) (le : bool) (bs : list Z) : jsstring := [].

Example big_endian_shown :
  v_value (buildFieldView (integerField (js "int16") 2 true) [255; 254; 0] false) = js "-2" /\
  v_value (buildFieldView (integerField (js "uint16") 2 false) [255; 254; 0] true) = js "65279".
Proof. vm_compute. by split. Qed.

Example hexadecimal_written :
  parseIntegerInRange (js " 0xFF_FF ") 0 65535 = Ok 65535 /\ parseIntegerInRange (js "-0b11") (-128) 127 = Ok (-3) /\
  parseIntegerInRange (js "65536") 0 65535 = Throw outOfRange /\ parseIntegerInRange (js "1e3") 0 65535 = Throw invalidInteger.
Proof. vm_compute. by repeat split. Qed.

(** U+FEFF is a character, but the decoder takes it for a byte order mark:
    it can be written and not be shown. *)
Example byte_order_mark_not_shown :
  utf8ToHex [65279] = Ok (js "EFBBBF") /\ decodeFirstUtf8 [239; 187; 191; 65] = None.
Proof. vm_compute. by split. Qed.

(** A character may be replaced by one of another length; what is committed
    says the length of the old one. *)
Definition editing_a : inspector := mkInspector (js "utf8") [8364] [] 0.

Example longer_character :
  commitEdit false true 0 (buildFieldView utf8_field [97; 98; 99] true) [] editing_a
    = ([], cancelEdit editing_a, [CommitValue 0 1 (js "E282AC")]).
Proof. vm_compute. reflexivity. Qed.

(** ** Witnesses *)

Definition resting : inspector := mkInspector [] [] [] 0.

Lemma unchanged_value_keeps_bytes_witness :
  let item := buildFieldView utf16_field [61; 216; 0; 222; 7] true in
  exists maps' data, commitEdit false true 3 item [] (beginEdit false 3 item resting).1 =
    (maps', resting, [CommitValue 3 4 data]) /\ hex_decode data = [61; 216; 0; 222].
Proof.
  intros item.
  assert (Hg : (js "text", activeTextEncodingField ascii :: textFields) ∈ allGroups no_floats ascii) by (do 3 right; left).
  assert (Hf : utf16_field ∈ activeTextEncodingField ascii :: textFields) by (do 2 right; left).
  assert (Hb : Forall is_byte [61; 216; 0; 222; 7]) by (repeat constructor; (discriminate || lia)).
  pose proof (unchanged_value_keeps_bytes no_floats ascii _ _ utf16_field true [61; 216; 0; 222; 7] 3 [] resting
    Hg Hf eq_refl Hb ltac:(intros e m; discriminate) ltac:(lia)) as H. cbv zeta in H. fold item in H.
  specialize (H ltac:(vm_compute; reflexivity)). destruct (beginEdit false 3 item resting) as [s1 asked] eqn:E.
  destruct H as [_ (maps' & data & Hc & Hd)]. exists maps', data. cbn [fst]. rewrite Hc.
  assert (Hs : cancelEdit s1 = resting) by (vm_compute in E; injection E as <- <-; reflexivity).
  rewrite Hs. split; [reflexivity|]. exact Hd.
Defined.

Lemma integer_field_exact_witness :
  exists write data, f_write (integerField (js "int16") 2 true) = Some write /\
    write (js "-0x2") false [] = ([], Ok data) /\ f_read (integerField (js "int16") 2 true) (hex_decode data) false = Ok (js "-2").
Proof.
  destruct (integer_field_exact (js "int16") 2 true (js "-0x2") false [] ltac:(lia)) as (write & Hw & data & Hd & _ & Hr).
  exists write, data. split; [exact Hw|]. split; [exact Hd|exact Hr].
Defined.
