(* ===== verification/WebviewEditor.v ===== *)
(** * The editor of the webview ([webview-ui/src/App.svelte], [PreviewGrid.svelte])

    The caret and the selection, what is visible of the file, what the keys,
    the clipboard and the inspector do, and what the messages of the host
    change ([viewportData], [fileSizeChanged], [documentReverted]).  A
    function takes the state and gives the new one with the messages it posts
    to the host, the typed messages of [WebviewProtocol], which checks them on
    the other side.  The part of a search that follows the selection
    ([syncSearchIndexToSelection]) is here, the rest in [WebviewSearch].  The
    texts that are shown, the state that is kept for the next time and the
    profiler's requests are not modelled. *)

From S2P Require Import Prelude JsText JsValue ChangeLogCodec EditDiff TextEncoding WebviewProtocol WebviewInspector.

Open Scope jsm_scope.
Open Scope list_scope.
Open Scope Z_scope.

(** ** State *)

Inductive search_mode := NoSearch | BoundedSearch | LargeSearch.

Record searching := mkSearching {
  se_mode : search_mode;
  se_matches : list Z;
  se_matchIndex : Z;
  se_currentOffset : Z;
  se_patternLength : Z;
  se_viewportMatches : list Z
}.

Definition no_search : searching := mkSearching NoSearch [] (-1) (-1) 0 [].

Record ui := mkUi {
  u_fileSize : Z;
  u_visibleOffset : Z;
  u_viewportOffset : Z;
  u_viewportData : list Z;
  u_visibleRows : Z;
  u_bytesPerRow : Z;
  u_pendingVisibleOffset : option Z;
  u_editMode : WebviewEditMode;
  u_insertDirection : InsertDirection;
  u_activePane : GridEditPane;
  u_pendingHexNibble : option Z;
  u_selectionAnchor : Z;
  u_selectedOffset : Z;
  u_transformInFlight : bool;
  u_search : searching
}.

Definition with_size (n : Z) (u : ui) : ui :=
  mkUi n (u_visibleOffset u) (u_viewportOffset u) (u_viewportData u) (u_visibleRows u) (u_bytesPerRow u)
    (u_pendingVisibleOffset u) (u_editMode u) (u_insertDirection u) (u_activePane u) (u_pendingHexNibble u)
    (u_selectionAnchor u) (u_selectedOffset u) (u_transformInFlight u) (u_search u).
Definition with_view (offset : Z) (pending : option Z) (u : ui) : ui :=
  mkUi (u_fileSize u) offset (u_viewportOffset u) (u_viewportData u) (u_visibleRows u) (u_bytesPerRow u)
    pending (u_editMode u) (u_insertDirection u) (u_activePane u) (u_pendingHexNibble u)
    (u_selectionAnchor u) (u_selectedOffset u) (u_transformInFlight u) (u_search u).
Definition with_window (offset : Z) (data : list Z) (u : ui) : ui :=
  mkUi (u_fileSize u) (u_visibleOffset u) offset data (u_visibleRows u) (u_bytesPerRow u)
    (u_pendingVisibleOffset u) (u_editMode u) (u_insertDirection u) (u_activePane u) (u_pendingHexNibble u)
    (u_selectionAnchor u) (u_selectedOffset u) (u_transformInFlight u) (u_search u).
Definition with_rows (rows : Z) (u : ui) : ui :=
  mkUi (u_fileSize u) (u_visibleOffset u) (u_viewportOffset u) (u_viewportData u) rows (u_bytesPerRow u)
    (u_pendingVisibleOffset u) (u_editMode u) (u_insertDirection u) (u_activePane u) (u_pendingHexNibble u)
    (u_selectionAnchor u) (u_selectedOffset u) (u_transformInFlight u) (u_search u).
Definition with_nibble (n : option Z) (u : ui) : ui :=
  mkUi (u_fileSize u) (u_visibleOffset u) (u_viewportOffset u) (u_viewportData u) (u_visibleRows u) (u_bytesPerRow u)
    (u_pendingVisibleOffset u) (u_editMode u) (u_insertDirection u) (u_activePane u) n
    (u_selectionAnchor u) (u_selectedOffset u) (u_transformInFlight u) (u_search u).
Definition with_modes (mode : WebviewEditMode) (direction : InsertDirection) (pane : GridEditPane) (u : ui) : ui :=
  mkUi (u_fileSize u) (u_visibleOffset u) (u_viewportOffset u) (u_viewportData u) (u_visibleRows u) (u_bytesPerRow u)
    (u_pendingVisibleOffset u) mode direction pane (u_pendingHexNibble u)
    (u_selectionAnchor u) (u_selectedOffset u) (u_transformInFlight u) (u_search u).
Definition with_selection (anchor offset : Z) (u : ui) : ui :=
  mkUi (u_fileSize u) (u_visibleOffset u) (u_viewportOffset u) (u_viewportData u) (u_visibleRows u) (u_bytesPerRow u)
    (u_pendingVisibleOffset u) (u_editMode u) (u_insertDirection u) (u_activePane u) (u_pendingHexNibble u)
    anchor offset (u_transformInFlight u) (u_search u).
Definition with_search (s : searching) (u : ui) : ui :=
  mkUi (u_fileSize u) (u_visibleOffset u) (u_viewportOffset u) (u_viewportData u) (u_visibleRows u) (u_bytesPerRow u)
    (u_pendingVisibleOffset u) (u_editMode u) (u_insertDirection u) (u_activePane u) (u_pendingHexNibble u)
    (u_selectionAnchor u) (u_selectedOffset u) (u_transformInFlight u) s.
Definition with_transform (b : bool) (u : ui) : ui :=
  mkUi (u_fileSize u) (u_visibleOffset u) (u_viewportOffset u) (u_viewportData u) (u_visibleRows u) (u_bytesPerRow u)
    (u_pendingVisibleOffset u) (u_editMode u) (u_insertDirection u) (u_activePane u) (u_pendingHexNibble u)
    (u_selectionAnchor u) (u_selectedOffset u) b (u_search u).

(** What a function does: the state after it and its messages. *)
Abbreviation act := (ui -> ui * list WebviewToHostMessage).

Definition now (f : ui -> ui) : act := fun u => (f u, []).
Definition posts (m : WebviewToHostMessage) : act := fun u => (u, [m]).
Definition then_ (a b : act) : act := fun u => let '(u, l) := a u in let '(u, k) := b u in (u, l ++ k).
Declare Scope act_scope.
Notation "a ;> b" := (then_ a b) (at level 60, right associativity) : act_scope.
Open Scope act_scope.

(** ** The selection

    An anchor and an offset, both inclusive; the end of the file is an offset
    without an anchor. *)
Definition selectionStart (u : ui) : Z :=
  if (0 <=? u_selectionAnchor u) && (0 <=? u_selectedOffset u) then Z.min (u_selectionAnchor u) (u_selectedOffset u) else -1.
Definition selectionEnd (u : ui) : Z :=
  if (0 <=? u_selectionAnchor u) && (0 <=? u_selectedOffset u) then Z.max (u_selectionAnchor u) (u_selectedOffset u) else -1.
Definition selectionLength (u : ui) : Z :=
  if (0 <=? selectionStart u) && (selectionStart u <=? selectionEnd u) then selectionEnd u - selectionStart u + 1 else 0.

(** ** What is visible *)

Definition clampOffset (offset : Z) (u : ui) : Z :=
  if u_fileSize u <=? 0 then -1 else Z.max 0 (Z.min offset (u_fileSize u - 1)).

(** [%] is the remainder. *)
Definition rowAlignOffset (offset : Z) (u : ui) : Z := Z.max 0 (offset - Z.rem offset (u_bytesPerRow u)).

Definition visibleByteCapacity (u : ui) : Z := u_bytesPerRow u * Z.max 1 (u_visibleRows u).

Definition computeMaxVisibleOffset (totalSize rows rowWidth : Z) : Z :=
  if totalSize <=? 0 then 0
  else
    let lastRowOffset := Z.max 0 (totalSize - 1 - Z.rem (totalSize - 1) rowWidth) in
    Z.max 0 (lastRowOffset - (Z.max 1 rows - 1) * rowWidth).

Definition maxScrollableOffset (u : ui) : Z := computeMaxVisibleOffset (u_fileSize u) (u_visibleRows u) (u_bytesPerRow u).

Definition clampViewportOffset (offset : Z) (u : ui) : Z :=
  if u_fileSize u <=? 0 then 0 else Z.max 0 (Z.min (rowAlignOffset offset u) (maxScrollableOffset u)).

Definition canRenderVisibleOffset (offset : Z) (u : ui) : bool :=
  let visibleByteCount := Z.min (visibleByteCapacity u) (Z.max 0 (u_fileSize u - offset)) in
  (0 <? visibleByteCount) && (u_viewportOffset u <=? offset) &&
  (offset + visibleByteCount <=? u_viewportOffset u + Z.of_nat (length (u_viewportData u))).

Definition visibleByteCount (u : ui) : Z :=
  Z.min (visibleByteCapacity u) (Z.max 0 (u_fileSize u - u_visibleOffset u)).

Definition navigationOffset (u : ui) : Z := default (u_visibleOffset u) (u_pendingVisibleOffset u).

Definition canScroll (direction : scroll_direction) (u : ui) : bool :=
  match direction with
  | Up => 0 <? navigationOffset u
  | Down => navigationOffset u <? maxScrollableOffset u
  end.

Definition isVisibleRange (offset length : Z) (u : ui) : bool :=
  (u_visibleOffset u <=? offset) &&
  (offset + Z.max 1 length <=? u_visibleOffset u + visibleByteCount u) &&
  canRenderVisibleOffset (u_visibleOffset u) u.

Definition requestVisibleOffset (offset : Z) : act := fun u =>
  let nextOffset := clampViewportOffset offset u in
  if (nextOffset =? navigationOffset u) && canRenderVisibleOffset nextOffset u then (u, [])
  else
    let visible := if canRenderVisibleOffset nextOffset u then nextOffset else u_visibleOffset u in
    (with_view visible (Some nextOffset) u, [ScrollTo nextOffset]).

(** ** The search follows the selection *)

(** The loop of [findNearestBoundedMatch] and [findNearestViewportMatch]: the
    first of the nearest, with what [pick] gives for it. *)
Fixpoint nearest_match (offset : Z) (best : Z) (bestDist : option Z) (index : Z) (pick : Z -> Z -> Z) (l : list Z) : Z :=
  match l with
  | [] => best
  | matchOffset :: l =>
      let dist := Z.abs (matchOffset - offset) in
      if match bestDist with Some d => dist <? d | None => true end
      then nearest_match offset (pick index matchOffset) (Some dist) (index + 1) pick l
      else nearest_match offset best bestDist (index + 1) pick l
  end.

Definition findNearestBoundedMatch (offset : Z) (s : searching) : Z :=
  nearest_match offset (-1) None 0 (fun i _ => i) (se_matches s).
Definition findNearestViewportMatch (offset : Z) (s : searching) : Z :=
  nearest_match offset (-1) None 0 (fun _ m => m) (se_viewportMatches s).

Definition with_index (i : Z) (s : searching) : searching :=
  mkSearching (se_mode s) (se_matches s) i (se_currentOffset s) (se_patternLength s) (se_viewportMatches s).
Definition with_current_match (offset : Z) (s : searching) : searching :=
  mkSearching (se_mode s) (se_matches s) (se_matchIndex s) offset (se_patternLength s) (se_viewportMatches s).

Definition syncSearchIndexToSelection (offset : Z) (s : searching) : searching :=
  if se_patternLength s <=? 0 then s
  else match se_mode s with
    | LargeSearch =>
        let nearest := findNearestViewportMatch offset s in
        if 0 <=? nearest then with_current_match nearest s else s
    | _ =>
        if (length (se_matches s) =? 0)%nat then s
        else
          let nearest := findNearestBoundedMatch offset s in
          if 0 <=? nearest then with_index nearest s else s
    end.

(** ** Selecting *)

Definition selectOffset (offset : Z) (extend : bool) : act := fun u =>
  let size := u_fileSize u in
  if (size <=? offset) && ((size =? 0) || negb extend)
  then (with_nibble None (with_selection (-1) size u), [])
  else
    let offset := if size <=? offset then size - 1 else offset in
    let nextOffset := clampOffset offset u in
    if nextOffset <? 0 then (with_selection (-1) (-1) u, [])
    else
      let anchor := if negb extend || (u_selectionAnchor u <? 0) then nextOffset else u_selectionAnchor u in
      let u := with_nibble None (with_selection anchor nextOffset u) in
      let u := with_search (syncSearchIndexToSelection nextOffset (u_search u)) u in
      if (nextOffset <? u_visibleOffset u) || (u_visibleOffset u + visibleByteCount u <=? nextOffset)
      then requestVisibleOffset (rowAlignOffset nextOffset u) u else (u, []).

Definition selectRange (offset length : Z) : act := fun u =>
  let start := clampOffset offset u in
  if start <? 0 then (with_selection (-1) (-1) u, [])
  else
    let end_ := clampOffset (start + Z.max 1 length - 1) u in
    let anchor := Z.max start end_ in
    let u := with_nibble None (with_selection anchor start u) in
    let shown := u_visibleOffset u + visibleByteCount u in
    if (start <? u_visibleOffset u) || (shown <=? start) || (shown <=? anchor)
    then requestVisibleOffset (rowAlignOffset start u) u else (u, []).

Definition moveSelection (delta : Z) (extend : bool) : act := fun u =>
  let u := with_nibble None u in
  let origin := if 0 <=? u_selectedOffset u then u_selectedOffset u else u_visibleOffset u in
  selectOffset (origin + delta) extend u.

Definition selectedEditOffset (u : ui) : Z :=
  if 0 <=? selectionStart u then selectionStart u
  else if 0 <=? u_selectedOffset u then Z.max 0 (Z.min (u_selectedOffset u) (u_fileSize u))
  else if 0 <? u_fileSize u then clampOffset (u_visibleOffset u) u else 0.

Definition selectedClipboardRange (u : ui) : option (Z * Z) :=
  if (0 <=? selectionStart u) && (0 <? selectionLength u) then Some (selectionStart u, selectionLength u)
  else if (0 <=? u_selectedOffset u) && (u_selectedOffset u <? u_fileSize u) then Some (u_selectedOffset u, 1)
  else None.

(** ** Scrolling *)

Definition scrollPreview (direction : scroll_direction) : act := fun u =>
  if negb (canScroll direction u) then (u, [])
  else
    let delta := (match direction with Up => -4 | Down => 4 end) * u_bytesPerRow u in
    requestVisibleOffset (navigationOffset u + delta) u.

Definition jumpToBoundary (top : bool) : act := fun u =>
  let u := with_nibble None u in
  requestVisibleOffset (if top then 0 else maxScrollableOffset u) u.

Definition goToOffset (offset : Z) : act := fun u =>
  if (offset <? 0) || (u_fileSize u <=? offset) then (u, []) else selectOffset offset false (with_nibble None u).

Definition DEFAULT_VISIBLE_ROWS : Z := 16.

(** [rows] is a whole number here: [Math.floor] has been taken. *)
Definition setVisibleRows (rows : Z) : act := fun u =>
  let nextRows := Z.max DEFAULT_VISIBLE_ROWS rows in
  if nextRows =? u_visibleRows u then (u, []) else (with_rows nextRows u, [SetViewportMetrics nextRows]).

(** ** Deleting *)

(** [blockMutationWhileTransform] also says so. *)
Definition postDeleteRange (offset length : Z) : act := fun u =>
  if u_transformInFlight u then (u, [])
  else if (length <=? 0) || (u_fileSize u <=? 0) || (offset <? 0) || (u_fileSize u <=? offset) then (u, [])
  else
    let safeLength := Z.min length (u_fileSize u - offset) in
    (posts (Delete offset safeLength) ;> now (with_nibble None) ;>
     selectOffset (Z.min offset (Z.max 0 (u_fileSize u - safeLength - 1))) false) u.

Definition deleteFromKeyboard (backward : bool) : act := fun u =>
  if u_transformInFlight u then (u, [])
  else if u_fileSize u <=? 0 then (u, [])
  else if 1 <? selectionLength u then postDeleteRange (selectionStart u) (selectionLength u) u
  else
    let offset := selectedEditOffset u in
    if backward then if offset <=? 0 then (u, []) else postDeleteRange (offset - 1) 1 u
    else postDeleteRange offset 1 u.

(** ** Bytes that are visible *)

Definition visibleBytesAt (offset len : Z) (source : list Z) (sourceOffset totalSize : Z) : list Z :=
  if (offset <? sourceOffset) || (len <=? 0) then []
  else
    let start := offset - sourceOffset in
    let stop := Z.min (start + len) (Z.min (Z.of_nat (length source)) (Z.max 0 (totalSize - sourceOffset))) in
    take (Z.to_nat (stop - start)) (drop (Z.to_nat start) source).

Definition getVisibleRangeBytes (offset len : Z) (u : ui) : option (list Z) :=
  let bs := visibleBytesAt offset len (u_viewportData u) (u_viewportOffset u) (u_fileSize u) in
  if Z.of_nat (length bs) =? len then Some bs else None.

(** ** The clipboard *)

(** Its two formats: the hexadecimal one of the editor and plain text. *)
Record clipboard := mkClipboard { cb_hex : jsstring; cb_text : jsstring }.

Definition bytesToCompactHex (bs : list Z) : jsstring := flat_map byte_hex bs.

(** [map(...).join(' ')] *)
Fixpoint bytesToHexText (bs : list Z) : jsstring :=
  match bs with
  | [] => []
  | [b] => byte_hex b
  | b :: bs => byte_hex b ++ js " " ++ bytesToHexText bs
  end.

(** What is on the clipboard afterwards, and whether the copy is done. *)
Definition writeClipboardBytes (pane : GridEditPane) (encoding : TextEncoding) (bs : list Z) (c : clipboard) : clipboard * bool :=
  match pane with
  | PaneAscii =>
      match decodeTextBytes bs encoding with
      | None => (mkClipboard (bytesToCompactHex bs) (cb_text c), false)
      | Some text => (mkClipboard (bytesToCompactHex bs) text, true)
      end
  | PaneHex => (mkClipboard (bytesToCompactHex bs) (bytesToHexText bs), true)
  end.

Definition normalizeClipboardHex (value : jsstring) : option jsstring :=
  let compact := remove_spaces value in
  if (slen compact =? 0) then None
  else if (slen compact mod 2 =? 0) && forallb is_hex_unit compact then Some (upper_hex compact) else None.

Definition printableTextInputToHex (encoding : TextEncoding) (value : jsstring) : M maps_state (option jsstring) :=
  if slen value =? 0 then retM None else printableTextToHex value encoding.

(** [parseInt] of the pairs of checked hexadecimal text. *)
Definition compactHexToBytes (value : jsstring) : list Z := hex_decode value.

Definition decodeClipboardPaste (pane : GridEditPane) (encoding : TextEncoding) (c : clipboard)
  : M maps_state (option jsstring) :=
  match normalizeClipboardHex (cb_hex c) with
  | Some internalHex =>
      retM (match pane with
            | PaneHex => Some internalHex
            | PaneAscii =>
                match decodeTextBytes (compactHexToBytes internalHex) encoding with
                | Some _ => Some internalHex
                | None => None
                end
            end)
  | None =>
      match pane with
      | PaneHex => retM (normalizeClipboardHex (cb_text c))
      | PaneAscii => printableTextInputToHex encoding (cb_text c)
      end
  end.

Definition activeClipboardFormat (u : ui) : copy_format := match u_activePane u with PaneAscii => FormatUtf8 | PaneHex => FormatHex end.

(** [handleClipboardCopy]: in the window, or by the host
    ([postClipboardSelection]) when the bytes are not here or are no text. *)
Definition handleClipboardCopy (cut : bool) (encoding : TextEncoding) (c : clipboard) (u : ui)
  : ui * list WebviewToHostMessage * clipboard :=
  match selectedClipboardRange u with
  | None => (u, [], c)
  | Some (offset, len) =>
      if cut && u_transformInFlight u then (u, [], c)
      else
        let by_host := (if cut then CutSelection else CopySelection) offset len (activeClipboardFormat u) in
        match getVisibleRangeBytes offset len u with
        | None => (u, [by_host], c)
        | Some bs =>
            let '(c, done) := writeClipboardBytes (u_activePane u) encoding bs c in
            if done : bool then (u, if cut then [Delete offset len] else [], c) else (u, [by_host], c)
        end
  end.

(** ** Inserting *)

Definition setInsertionCaret (offset : Z) (u : ui) : ui :=
  let nextOffset := Z.max 0 (Z.min offset (u_fileSize u)) in
  if u_fileSize u <=? nextOffset then with_selection (-1) nextOffset u else with_selection nextOffset nextOffset u.

Definition selectAfterInsertedBytes (offset byteLength : Z) (u : ui) : ui :=
  match u_insertDirection u with
  | Backward =>
      let at_ := Z.max 0 (Z.min offset (Z.max 0 (u_fileSize u - 1))) in with_selection at_ at_ u
  | Forward => setInsertionCaret (offset + byteLength) u
  end.

Definition pasteClipboardHex (data : jsstring) : act := fun u =>
  if u_transformInFlight u then (u, [])
  else
    let offset := match selectedClipboardRange u with Some (offset, _) => offset | None => selectedEditOffset u end in
    if (offset <? 0) || (u_fileSize u <? offset) then (u, [])
    else
      let byteLength := slen data / 2 in
      (posts (Insert offset data) ;> now (with_size (u_fileSize u + byteLength)) ;>
       now (selectAfterInsertedBytes offset byteLength)) u.

(** [handleClipboardPaste]: text that is no data only gets a message. *)
Definition handleClipboardPaste (encoding : TextEncoding) (c : clipboard) (maps : maps_state) (u : ui)
  : maps_state * ui * list WebviewToHostMessage :=
  match decodeClipboardPaste (u_activePane u) encoding c maps with
  | (maps, Ok (Some ((_ :: _) as data))) => let '(u, l) := pasteClipboardHex data u in (maps, u, l)
  | (maps, _) => (maps, u, [])
  end.

Definition commitByteEdit (offset byte : Z) : act := fun u =>
  if u_transformInFlight u then (u, [])
  else if (offset <? 0) || (byte <? 0) || (255 <? byte) then (u, [])
  else
    let data := byte_hex byte in
    let overwriting := match u_editMode u with ModeOverwrite => offset <? u_fileSize u | ModeInsert => false end in
    if overwriting then
      (posts (Overwrite offset data) ;> now (with_nibble None) ;> now (with_selection offset offset)) u
    else if offset <=? u_fileSize u then
      (posts (Insert offset data) ;> now (with_size (u_fileSize u + 1)) ;>
       now (selectAfterInsertedBytes offset 1) ;> now (with_nibble None)) u
    else (u, []).

(** A key in the grid: the new state, the messages, and whether the key is
    taken. *)
Definition handleGridType (encoding : TextEncoding) (pane : GridEditPane) (key : jsstring) (maps : maps_state) (u : ui)
  : maps_state * ui * list WebviewToHostMessage * bool :=
  if u_transformInFlight u then (maps, u, [], false)
  else
    let offset := selectedEditOffset u in
    if (offset <? 0) || (u_fileSize u <? offset) then (maps, u, [], false)
    else match pane with
    | PaneAscii =>
        if negb (length (array_from key) =? 1)%nat then (maps, u, [], false)
        else match printableTextToHex key encoding maps with
        | (maps, Ok (Some data)) =>
            if negb (slen data =? 2) then (maps, u, [], true)
            else
              let '(u, l) := commitByteEdit offset (default 0 (radix_value 16 data)) u in (maps, u, l, true)
        | (maps, _) => (maps, u, [], true)
        end
    | PaneHex =>
        match key with
        | [c] =>
            match hex_value c with
            | None => (maps, u, [], false)
            | Some hexDigit =>
                match u_pendingHexNibble u with
                | None => (maps, with_nibble (Some hexDigit) u, [], true)
                | Some high =>
                    let '(u, l) := commitByteEdit offset (Z.lor (Z.shiftl high 4) hexDigit) u in (maps, u, l, true)
                end
            end
        | _ => (maps, u, [], false)
        end
    end.

Definition commitInspectorValue (offset len : Z) (data : jsstring) : act := fun u =>
  if u_transformInFlight u then (u, [])
  else if (offset <? 0) || (len <=? 0) || (u_fileSize u <? offset + len) then (u, [])
  else (posts (Overwrite offset data) ;> now (with_selection offset offset)) u.

Definition setInspectorEditMode (mode : WebviewEditMode) (u : ui) : ui :=
  with_nibble None (with_modes mode (u_insertDirection u) (u_activePane u) u).
Definition setActivePane (pane : GridEditPane) (u : ui) : ui :=
  with_nibble None (with_modes (u_editMode u) (u_insertDirection u) pane u).
Definition setInsertDirection (d : InsertDirection) (u : ui) : ui :=
  with_modes (u_editMode u) d (u_activePane u) u.

(** ** Keys of the grid ([handleKeydown]) *)

Inductive grid_key :=
  | KeyTab | KeyInsert | KeyBackspace | KeyDelete | KeyLeft | KeyRight | KeyUp | KeyDown | KeyHome | KeyEnd
  | KeyPageUp | KeyPageDown | KeyText (key : jsstring).

(** The length of what is shown, for the height of a page. *)
Definition shown_length (u : ui) : Z :=
  let start := Z.max 0 (u_visibleOffset u - u_viewportOffset u) in
  Z.max 0 (Z.min (Z.of_nat (length (u_viewportData u)) - start) (u_bytesPerRow u * u_visibleRows u)).

Definition FALLBACK_VISIBLE_ROWS : Z := 16.

Definition pageDelta (u : ui) : Z :=
  Z.max (u_bytesPerRow u)
    (if 0 <? shown_length u then shown_length u else u_bytesPerRow u * FALLBACK_VISIBLE_ROWS).

Definition grid_keydown (encoding : TextEncoding) (key : grid_key) (shift : bool) (maps : maps_state) (u : ui)
  : maps_state * ui * list WebviewToHostMessage :=
  let does (a : act) := let '(u, l) := a u in (maps, u, l) in
  match key with
  | KeyTab => (maps, setActivePane (match u_activePane u with PaneHex => PaneAscii | PaneAscii => PaneHex end) u, [])
  | KeyInsert => (maps, u, [Plain Cmd_toggleEditMode])
  | KeyBackspace => does (deleteFromKeyboard true)
  | KeyDelete => does (deleteFromKeyboard false)
  | KeyLeft => does (moveSelection (-1) shift)
  | KeyRight => does (moveSelection 1 shift)
  | KeyUp => does (moveSelection (- u_bytesPerRow u) shift)
  | KeyDown => does (moveSelection (u_bytesPerRow u) shift)
  | KeyHome => does (jumpToBoundary true)
  | KeyEnd => does (jumpToBoundary false)
  | KeyPageUp => does (moveSelection (- pageDelta u) shift ;> (fun u => if canScroll Up u then scrollPreview Up u else (u, [])))
  | KeyPageDown => does (moveSelection (pageDelta u) shift ;> (fun u => if canScroll Down u then scrollPreview Down u else (u, [])))
  | KeyText key =>
      let '(maps, u, l, _) := handleGridType encoding (u_activePane u) key maps u in (maps, u, l)
  end.

(** ** What the user can do *)

Inductive user_action :=
  | UserKey (key : grid_key) (shift : bool)
  | UserSelect (offset : Z) (extend : bool)
  | UserSelectRange (offset len : Z)
  | UserScroll (direction : scroll_direction)
  | UserScrollTo (offset : Z)
  | UserGoTo (offset : Z)
  | UserResize (rows : Z)
  | UserCopy (cut : bool)
  | UserPaste
  | UserInspector (offset len : Z) (data : jsstring).

(** What it depends on and changes: the tables of the text encodings, the
    clipboard and the state. *)
Definition user_step (encoding : TextEncoding) (a : user_action) (maps : maps_state) (c : clipboard) (u : ui)
  : maps_state * clipboard * ui * list WebviewToHostMessage :=
  let does (a : act) := let '(u, l) := a u in (maps, c, u, l) in
  match a with
  | UserKey key shift => let '(maps, u, l) := grid_keydown encoding key shift maps u in (maps, c, u, l)
  | UserSelect offset extend => does (selectOffset offset extend)
  | UserSelectRange offset len => does (selectRange offset len)
  | UserScroll direction => does (scrollPreview direction)
  | UserScrollTo offset => does (requestVisibleOffset offset)
  | UserGoTo offset => does (goToOffset offset)
  | UserResize rows => does (setVisibleRows rows)
  | UserCopy cut => let '(u, l, c) := handleClipboardCopy cut encoding c u in (maps, c, u, l)
  | UserPaste => let '(maps, u, l) := handleClipboardPaste encoding c maps u in (maps, c, u, l)
  | UserInspector offset len data => does (commitInspectorValue offset len data)
  end.

(** The state the host is told of. *)
Definition currentEditorUiState (radix : OffsetRadix) (encoding : TextEncoding) (u : ui) : WebviewEditorUiState :=
  mkUiState (u_visibleOffset u) (visibleByteCount u) (u_selectedOffset u) (selectionStart u) (selectionEnd u)
    (selectionLength u) (u_bytesPerRow u) radix encoding (u_activePane u) (u_editMode u) (u_insertDirection u).

(** ** Messages of the host *)

(** The size of the file has changed: the caret follows, the anchor not. *)
Definition after_size (size : Z) (u : ui) : ui :=
  if size <=? 0 then with_selection (-1) (-1) u
  else if size <? u_selectedOffset u then with_selection (-1) size u
  else u.

Definition on_viewportData (size offset visibleOffset : Z) (data : list Z) (u : ui) : ui :=
  let requestedOffset := u_pendingVisibleOffset u in
  let u := with_window offset data (with_size size u) in
  let u := match requestedOffset with
    | Some requested =>
        if negb (visibleOffset =? requested)
        then if canRenderVisibleOffset requested u then with_view requested (Some requested) u else u
        else with_view visibleOffset None u
    | None => with_view visibleOffset None u
    end in
  if size <=? 0 then with_selection (-1) (-1) u
  else if u_selectedOffset u <? 0 then with_selection visibleOffset visibleOffset u
  else if size <? u_selectedOffset u then with_selection (-1) size u
  else u.

Definition on_fileSizeChanged (size : Z) (u : ui) : ui :=
  let u := after_size size (with_size size u) in
  if size <=? 0 then with_search no_search u else u.

Definition applyDocumentReverted (u : ui) : ui :=
  let u := with_search no_search (with_nibble None (with_view (u_visibleOffset u) None u)) in
  if u_fileSize u <=? 0 then with_selection (-1) (-1) u
  else with_selection (u_visibleOffset u) (u_visibleOffset u) u.

(** A selection that was kept from the last time; [-1] is not kept. *)
Definition normalizePersistedSelection (anchor offset : option Z) (totalSize : Z) : option (Z * Z) :=
  if totalSize <=? 0 then None
  else match anchor, offset with
    | Some anchor, Some offset =>
        if (totalSize <=? anchor) || (totalSize <=? offset) then None else Some (anchor, offset)
    | _, _ => None
    end.

(** ** Lemmas

    *** The caret stays in the file *)

Record caret_ok (u : ui) : Prop := mkCaretOk {
  co_size : 0 <= u_fileSize u;
  co_row : 0 < u_bytesPerRow u;
  co_selected : -1 <= u_selectedOffset u <= u_fileSize u;
  co_anchor : -1 <= u_selectionAnchor u < u_fileSize u;
  co_both : 0 <= u_selectionAnchor u -> 0 <= u_selectedOffset u < u_fileSize u;
  co_visible : 0 <= u_visibleOffset u;
  co_pending : 0 <= default 0 (u_pendingVisibleOffset u)
}.

(** The size of the file of the host after a message. *)
Definition size_after (size : Z) (m : WebviewToHostMessage) : Z :=
  match m with
  | Delete _ len => size - len
  | Insert _ data => size + slen data / 2
  | _ => size
  end.

Section Accepted.
Context `{JsonRuntime}.

Definition ok_at (size : Z) (m : WebviewToHostMessage) : Prop :=
  normalizeWebviewMessage (mkContext size None) (message_value m) = Some m.

(** The host takes every message, whether or not it has carried out the
    ones before. *)
Fixpoint accepted_in (size0 size : Z) (l : list WebviewToHostMessage) : Prop :=
  match l with
  | [] => True
  | m :: l => ok_at size0 m /\ ok_at size m /\ accepted_in size0 (size_after size m) l
  end.

(** What an action keeps and posts. *)
Definition good (u : ui) (r : ui * list WebviewToHostMessage) : Prop :=
  caret_ok r.1 /\ accepted_in (u_fileSize u) (u_fileSize u) r.2.

(** At most one scroll, not beyond [bound]. *)
Definition scrolls (bound size : Z) (l : list WebviewToHostMessage) : Prop :=
  l = [] \/ exists o, l = [ScrollTo o] /\ 0 <= o <= Z.max 0 bound /\ (o < size \/ o = 0).

Lemma row_align_bounds offset u : 0 < u_bytesPerRow u -> 0 <= rowAlignOffset offset u <= Z.max 0 offset.
Proof.
  intros Hb. unfold rowAlignOffset. destruct (Z.le_gt_cases 0 offset).
  - pose proof (Z.rem_bound_pos offset (u_bytesPerRow u)). lia.
  - pose proof (Z.rem_bound_neg_pos offset (u_bytesPerRow u)). pose proof (Z.quot_rem' offset (u_bytesPerRow u)).
    assert (offset - Z.rem offset (u_bytesPerRow u) <= 0); [|lia].
    assert (offset ÷ u_bytesPerRow u <= 0); [|nia].
    replace offset with (- (- offset)) by lia. rewrite Z.quot_opp_l by lia.
    pose proof (Z.quot_pos (- offset) (u_bytesPerRow u)). lia.
Qed.

Lemma last_row_bound u : 0 <= maxScrollableOffset u <= Z.max 0 (u_fileSize u - 1) \/ u_bytesPerRow u <= 0.
Proof.
  destruct (Z.le_gt_cases (u_bytesPerRow u) 0); [by right|left].
  unfold maxScrollableOffset, computeMaxVisibleOffset. case_match; bool_prop; [lia|]. cbv zeta.
  pose proof (Z.rem_bound_pos (u_fileSize u - 1) (u_bytesPerRow u)). nia.
Qed.

Lemma clamp_view_bounds offset u : 0 < u_bytesPerRow u ->
  let o := clampViewportOffset offset u in 0 <= o <= Z.max 0 offset /\ (o < u_fileSize u \/ o = 0).
Proof.
  intros Hb. unfold clampViewportOffset. pose proof (row_align_bounds offset u Hb). pose proof (last_row_bound u).
  case_match; bool_prop; lia.
Qed.

Lemma request_visible offset u : caret_ok u ->
  exists v p l, requestVisibleOffset offset u = (with_view v p u, l) /\
    caret_ok (with_view v p u) /\ scrolls offset (u_fileSize u) l.
Proof.
  intros Hu. pose proof (clamp_view_bounds offset u (co_row u Hu)) as Ho. cbv zeta in Ho. unfold requestVisibleOffset. case_match.
  - exists (u_visibleOffset u), (u_pendingVisibleOffset u), []. destruct u; cbn. split; [done|]. split; [done|]. by left.
  - cbv zeta. eexists _, _, _. split; [done|]. split.
    + destruct Hu. split; cbn; try done; [|lia]. case_match; [lia|done].
    + right. eexists. split; [done|]. exact Ho.
Qed.

Lemma select_offset offset extend u : caret_ok u ->
  caret_ok (selectOffset offset extend u).1 /\ u_fileSize (selectOffset offset extend u).1 = u_fileSize u /\
  scrolls offset (u_fileSize u) (selectOffset offset extend u).2.
Proof.
  intros Hu. unfold selectOffset. cbv zeta.
  destruct (_ && _) eqn:E; bool_prop.
  { destruct Hu. cbn. split; [split; cbn; lia|]. split; [done|by left]. }
  set (o := if u_fileSize u <=? offset then u_fileSize u - 1 else offset).
  assert (Hc : clampOffset o u < 0 \/ 0 <= clampOffset o u < u_fileSize u /\ clampOffset o u <= Z.max 0 offset).
  { unfold clampOffset, o. repeat case_match; bool_prop; lia. }
  destruct (clampOffset o u <? 0) eqn:Hn; bool_prop.
  { destruct Hu. cbn. split; [split; cbn; lia|]. split; [done|by left]. }
  destruct Hc as [|[Hc Hb]]; [lia|]. set (n := clampOffset o u) in *.
  match goal with |- context [requestVisibleOffset _ ?v] => set (v0 := v) end.
  assert (Hv : caret_ok v0).
  { clear E Hb. clearbody n. destruct Hu. split; cbn; try done; try lia; destruct (_ || _); lia. }
  change (u_fileSize u) with (u_fileSize v0).
  match goal with |- context [if ?b then requestVisibleOffset _ _ else _] => destruct b end.
  - destruct (request_visible (rowAlignOffset n v0) v0 Hv) as (v & p & l & -> & Hok & Hs). cbn [fst snd].
    split; [done|]. split; [done|]. destruct Hs as [->|(k & -> & Hk & Hk')]; [by left|right]. exists k.
    pose proof (row_align_bounds n v0 (co_row v0 Hv)). split; [done|]. lia.
  - cbn [fst snd]. split; [done|]. split; [done|by left].
Qed.

Lemma select_range offset len u : caret_ok u ->
  caret_ok (selectRange offset len u).1 /\ scrolls offset (u_fileSize u) (selectRange offset len u).2.
Proof.
  intros Hu. unfold selectRange. cbv zeta.
  assert (Hc : forall x, clampOffset x u < 0 \/ 0 <= clampOffset x u < u_fileSize u /\ clampOffset x u <= Z.max 0 x).
  { intros x. unfold clampOffset. case_match; bool_prop; lia. }
  destruct (clampOffset offset u <? 0) eqn:Hn; bool_prop.
  { destruct Hu. cbn. split; [split; cbn; lia|by left]. }
  destruct (Hc offset) as [|[Hs Hb]]; [lia|].
  pose proof (Hc (clampOffset offset u + Z.max 1 len - 1)) as He.
  match goal with |- context [requestVisibleOffset _ ?v] => set (v0 := v) end.
  assert (Hv : caret_ok v0). { destruct Hu. split; cbn; try done; lia. }
  change (u_fileSize u) with (u_fileSize v0).
  match goal with |- context [if ?b then requestVisibleOffset _ _ else _] => destruct b end.
  - destruct (request_visible (rowAlignOffset (clampOffset offset u) v0) v0 Hv) as (v & p & l & -> & Hok & Hk). cbn [fst snd].
    split; [done|]. destruct Hk as [->|(k & -> & Hk & Hk')]; [by left|right]. exists k.
    pose proof (row_align_bounds (clampOffset offset u) v0 (co_row v0 Hv)). split; [done|]. lia.
  - cbn [fst snd]. split; [done|by left].
Qed.

Lemma scrolls_accepted bound size size1 l :
  scrolls bound size l -> size <= MAX_SAFE_INTEGER -> size1 <= MAX_SAFE_INTEGER ->
  bound < size1 \/ bound <= 0 \/ size <= size1 -> accepted_in size size1 l.
Proof.
  assert (0 <= MAX_SAFE_INTEGER) by done.
  intros [->|(o & -> & Ho & Hs)] Hs0 Hs1 Hb; [done|]. cbn [accepted_in].
  split; [|split; [|done]]; apply message_complete; cbn [message_ok fileSize];
    unfold byte_offset, safe_nat; lia.
Qed.

(** An action that only scrolls. *)
Lemma scrolls_good bound u r :
  caret_ok r.1 -> scrolls bound (u_fileSize u) r.2 -> u_fileSize u <= MAX_SAFE_INTEGER -> good u r.
Proof. intros Hc Hs Hm. split; [done|]. eapply scrolls_accepted; [exact Hs|done..|lia]. Qed.

Lemma nothing_good u : caret_ok u -> good u (u, []).
Proof. by split. Qed.

Lemma one_good u u' m : caret_ok u' -> message_ok (mkContext (u_fileSize u) None) m -> good u (u', [m]).
Proof. intros Hc Hm. split; [done|]. cbn. pose proof (message_complete _ _ Hm). by unfold ok_at. Qed.

(** A byte of the file is selected. *)
Lemma select_byte offset u : caret_ok u -> 0 <= offset < u_fileSize u ->
  u_selectionAnchor (selectOffset offset false u).1 = offset /\ u_selectedOffset (selectOffset offset false u).1 = offset.
Proof.
  intros Hu Ho. unfold selectOffset. cbv zeta. rewrite (proj2 (Z.leb_gt (u_fileSize u) offset)) by lia. cbn [andb].
  assert (Hc : clampOffset offset u = offset) by (unfold clampOffset; case_match; bool_prop; lia).
  rewrite Hc, (proj2 (Z.ltb_ge offset 0)) by lia. cbn [negb orb].
  match goal with |- context [requestVisibleOffset ?o ?v] => set (v0 := v) end.
  assert (Hv : caret_ok v0) by (destruct Hu; split; cbn; (done || lia)).
  destruct (request_visible (rowAlignOffset offset v0) v0 Hv) as (v & p & l & -> & _). by case_match.
Qed.

(** *** What each action posts *)

Lemma delete_good offset len u : caret_ok u -> u_fileSize u <= MAX_SAFE_INTEGER -> good u (postDeleteRange offset len u).
Proof.
  intros Hu Hm. unfold postDeleteRange. case_match; [by apply nothing_good|].
  case_match eqn:E; [by apply nothing_good|]. bool_prop. cbv zeta. set (n := Z.min len (u_fileSize u - offset)).
  unfold then_, posts, now. set (v := with_nibble None u).
  assert (Hv : caret_ok v) by (by destruct Hu; split).
  set (bound := Z.min offset _). pose proof (select_offset bound false v Hv) as (Hok & _ & Hs).
  destruct (selectOffset bound false v) as [u' l]. cbn [fst snd] in *. split; [done|]. cbn [fst snd app accepted_in].
  assert (Hd : ok_at (u_fileSize u) (Delete offset n)).
  { apply message_complete. cbn. unfold range_in, safe_nat. lia. }
  split; [done|]. split; [done|]. cbn [size_after]. change (u_fileSize v) with (u_fileSize u) in Hs.
  eapply scrolls_accepted; [exact Hs|lia..].
Qed.

Lemma selection_in_file u : caret_ok u ->
  (selectionStart u = -1 /\ selectionLength u = 0) \/
  (0 <= selectionStart u /\ 0 < selectionLength u /\ selectionStart u + selectionLength u <= u_fileSize u).
Proof.
  intros [? ? ? ? Hb ? ?]. unfold selectionLength, selectionStart, selectionEnd.
  destruct (0 <=? u_selectionAnchor u) eqn:Ea, (0 <=? u_selectedOffset u) eqn:Es; bool_prop; cbn [andb];
    try (left; done). specialize (Hb ltac:(lia)).
  right. rewrite (proj2 (Z.leb_le _ _)) by lia. rewrite (proj2 (Z.leb_le _ _)) by lia. cbn [andb]. lia.
Qed.

Lemma edit_offset_in_file u : caret_ok u -> 0 <= selectedEditOffset u <= u_fileSize u.
Proof.
  intros Hu. pose proof (selection_in_file u Hu). destruct Hu. unfold selectedEditOffset, clampOffset.
  repeat case_match; bool_prop; lia.
Qed.

Lemma backspace_good backward u : caret_ok u -> u_fileSize u <= MAX_SAFE_INTEGER -> good u (deleteFromKeyboard backward u).
Proof.
  intros Hu Hm. unfold deleteFromKeyboard. cbv zeta.
  repeat case_match; try (by apply nothing_good); by apply delete_good.
Qed.

Lemma clipboard_range_in_file u offset len : caret_ok u -> selectedClipboardRange u = Some (offset, len) ->
  0 <= offset /\ 0 < len /\ offset + len <= u_fileSize u /\ (len = selectionLength u \/ len = 1).
Proof.
  intros Hu. pose proof (selection_in_file u Hu). unfold selectedClipboardRange. repeat case_match; bool_prop;
    intros [= <- <-]; lia.
Qed.

Lemma copy_good cut encoding c u : caret_ok u -> u_fileSize u <= MAX_SAFE_INTEGER ->
  selectionLength u <= MAX_WEBVIEW_HEX_BYTES -> good u (handleClipboardCopy cut encoding c u).1.
Proof.
  intros Hu Hm Hl. assert (1 <= MAX_WEBVIEW_HEX_BYTES) by done. unfold handleClipboardCopy.
  destruct (selectedClipboardRange u) as [[offset len]|] eqn:Er; [|by apply nothing_good].
  pose proof (clipboard_range_in_file u offset len Hu Er).
  assert (Hr : range_in (u_fileSize u) offset len /\ 0 < len <= MAX_WEBVIEW_HEX_BYTES)
    by (unfold range_in, safe_nat; lia).
  case_match; [by apply nothing_good|]. cbv zeta.
  assert (Hh : good u (u, [(if cut then CutSelection else CopySelection) offset len (activeClipboardFormat u)])).
  { apply one_good; [done|]. by destruct cut. }
  destruct (getVisibleRangeBytes offset len u); [|done].
  destruct (writeClipboardBytes _ _ _ c) as [c' [|]]; [|done]. cbn [fst].
  destruct cut; [|by apply nothing_good]. apply one_good; [done|]. cbn. split; [apply Hr|lia].
Qed.

Lemma after_insert_ok offset n u : caret_ok u -> 0 <= offset <= u_fileSize u -> 0 < n ->
  caret_ok (selectAfterInsertedBytes offset n (with_size (u_fileSize u + n) u)) /\
  u_fileSize (selectAfterInsertedBytes offset n (with_size (u_fileSize u + n) u)) = u_fileSize u + n.
Proof.
  intros [] Ho Hn. unfold selectAfterInsertedBytes, setInsertionCaret. cbn.
  destruct (u_insertDirection u); [case_match; bool_prop|]; cbn; (split; [split; cbn; try done; lia|done]).
Qed.
End Accepted.

(** *** Hexadecimal *)

Lemma byte_hex_pair b : is_byte b -> exists h l x y, byte_hex b = [h; l] /\
  hex_value h = Some x /\ hex_value l = Some y /\ 0 <= x < 16 /\ 0 <= y < 16 /\ b = 16 * x + y /\
  upper_hex [h; l] = [h; l].
Proof.
  intros Hb.
  assert (H : match byte_hex b with
    | [h; l] => match hex_value h, hex_value l with
                | Some x, Some y => (0 <=? x) && (x <? 16) && (0 <=? y) && (y <? 16) && (b =? 16 * x + y) &&
                                    bool_decide (upper_hex [h; l] = [h; l])
                | _, _ => false end
    | _ => false end = true).
  { refine (every_byte (fun _ b => match byte_hex b with
      | [h; l] => match hex_value h, hex_value l with
                | Some x, Some y => (0 <=? x) && (x <? 16) && (0 <=? y) && (y <? 16) && (b =? 16 * x + y) &&
                                    bool_decide (upper_hex [h; l] = [h; l])
                | _, _ => false end
      | _ => false end) ascii b _ Hb). vm_compute; reflexivity. }
  destruct (byte_hex b) as [|h [|l [|]]]; try done. exists h, l.
  destruct (hex_value h) as [x|]; [|done]. destruct (hex_value l) as [y|]; [|done].
  exists x, y. bool_prop. repeat split; (done || lia).
Qed.

Lemma compact_hex_ok bs : Forall is_byte bs ->
  Forall (fun c => is_Some (hex_value c)) (bytesToCompactHex bs) /\
  slen (bytesToCompactHex bs) = 2 * Z.of_nat (length bs) /\
  upper_hex (bytesToCompactHex bs) = bytesToCompactHex bs /\ hex_decode (bytesToCompactHex bs) = bs.
Proof.
  unfold bytesToCompactHex. induction 1 as [|b bs Hb _ (Hf & Hl & Hu & Hd)]; [done|]. cbn [flat_map].
  destruct (byte_hex_pair b Hb) as (h & l & x & y & -> & Hh & Hy & _ & _ & Hxy & Hup). cbn [app].
  split; [by repeat constructor|]. split; [unfold slen in *; cbn [length]; lia|]. split.
  - change (upper_hex (h :: l :: flat_map byte_hex bs)) with (upper_hex [h; l] ++ upper_hex (flat_map byte_hex bs)).
    by rewrite Hup, Hu.
  - cbn [hex_decode]. rewrite Hh, Hy, Hd. by rewrite Hxy.
Qed.

Lemma compact_data_ok bs : Forall is_byte bs -> bs <> [] -> Z.of_nat (length bs) <= MAX_WEBVIEW_HEX_BYTES ->
  hex_ok MAX_WEBVIEW_HEX_BYTES (bytesToCompactHex bs) /\ bytesToCompactHex bs <> [].
Proof.
  intros Hb Hn Hm. destruct (compact_hex_ok bs Hb) as (Hf & Hl & _ & _). split.
  - split; [done|]. rewrite Hl. split; [|lia]. by rewrite Z.mul_comm, Z.mod_mul.
  - intros He. rewrite He in Hl. destruct bs; [done|]. unfold slen in Hl. cbn [length] in Hl. lia.
Qed.

Lemma upper_hex_ok s : Forall (fun c => is_Some (hex_value c)) s -> Forall (fun c => is_Some (hex_value c)) (upper_hex s).
Proof.
  intros Hs. unfold upper_hex. rewrite Forall_map. eapply Forall_impl; [exact Hs|]. intros c Hc. cbn beta. unfold in_range.
  destruct ((97 <=? c) && (c <=? 122)) eqn:E; [|done]. bool_prop. unfold hex_value in *.
  repeat case_match; bool_prop; try done; try lia.
Qed.

Lemma slen_filter f s : slen (List.filter f s) <= slen s.
Proof. unfold slen. pose proof (List.filter_length_le f s). lia. Qed.

Lemma clipboard_hex_ok v s : normalizeClipboardHex v = Some s -> slen v <= 2 * MAX_WEBVIEW_HEX_BYTES ->
  hex_ok MAX_WEBVIEW_HEX_BYTES s /\ s <> [].
Proof.
  unfold normalizeClipboardHex. cbv zeta. pose proof (slen_filter (fun c => negb (is_js_space c)) v) as Hf.
  fold (remove_spaces v) in Hf. set (t := remove_spaces v) in *. destruct (slen t =? 0) eqn:E0; [done|].
  destruct (_ && _) eqn:E; [|done]. intros [= <-] Hm. bool_prop.
  assert (Hl : slen (upper_hex t) = slen t) by (unfold slen, upper_hex; by rewrite length_map).
  split; [split|].
  - apply upper_hex_ok. rewrite Forall_forall. rewrite forallb_forall in *. intros c Hc.
    apply list_elem_of_In in Hc. match goal with H : forall x, _ -> is_hex_unit x = true |- _ => specialize (H c Hc) as Hu end.
    by apply bool_decide_eq_true_1 in Hu.
  - rewrite Hl. split; [done|lia].
  - intros He. rewrite He in Hl. unfold slen in *. cbn in Hl. lia.
Qed.

Lemma array_from_length s : (length (array_from s) <= length s)%nat.
Proof.
  induction s as [s IH] using (induction_ltof1 _ (@length Z)); unfold ltof in IH.
  destruct s as [|c [|d t]]; [done|cbn; lia|].
  change (array_from (c :: d :: t)) with
    (if high_surrogate c && low_surrogate d then [c; d] :: array_from t else [c] :: array_from (d :: t)).
  destruct (high_surrogate c && low_surrogate d); cbn [length].
  - specialize (IH t). cbn [length] in IH. lia.
  - specialize (IH (d :: t)). cbn [length] in IH. lia.
Qed.

Lemma printable_hex_ok s text e : maps_ok s -> exists s' r, maps_ok s' /\ printableTextToHex text e s = (s', Ok r) /\
  forall hex, r = Some hex -> exists bs, hex = bytesToCompactHex bs /\ Forall is_byte bs /\
    (length bs <= length text)%nat.
Proof.
  intros Hs. destruct (encode_cached s text e Hs) as (s' & Hs' & Henc). eexists s', _. split; [done|].
  split; [unfold printableTextToHex, bindM; rewrite Henc; reflexivity|].
  destruct (mapM _ (array_from text)) as [bs|] eqn:Em; [|done]. destruct (existsb _ bs); [done|].
  intros hex [= <-]. exists bs. split; [done|]. pose proof Em as El. apply length_mapM in El.
  pose proof (array_from_length text). apply mapM_inverse in Em. apply mapM_in_range in Em. split; [exact Em|lia].
Qed.

(** What fits into one message, as text of the clipboard. *)
Definition clipboard_fits (c : clipboard) : Prop :=
  slen (cb_hex c) <= MAX_WEBVIEW_HEX_BYTES /\ slen (cb_text c) <= MAX_WEBVIEW_HEX_BYTES.

Lemma paste_data pane e c s : maps_ok s -> clipboard_fits c ->
  exists s' r, maps_ok s' /\ decodeClipboardPaste pane e c s = (s', Ok r) /\
    forall data, r = Some data -> data <> [] -> hex_ok MAX_WEBVIEW_HEX_BYTES data.
Proof.
  intros Hs [Hh Ht]. assert (0 <= MAX_WEBVIEW_HEX_BYTES) by done. unfold decodeClipboardPaste.
  destruct (normalizeClipboardHex (cb_hex c)) as [h|] eqn:E.
  { exists s. eexists. split; [done|]. split; [reflexivity|]. intros data Hd _.
    apply clipboard_hex_ok in E as [E _]; [|lia]. destruct pane; [by injection Hd as <-|].
    destruct (decodeTextBytes _ e); [|done]. by injection Hd as <-. }
  destruct pane.
  - exists s. eexists. split; [done|]. split; [reflexivity|]. intros data Hd _. apply clipboard_hex_ok in Hd; [apply Hd|lia].
  - unfold printableTextInputToHex. case_match; [by exists s, None|].
    destruct (printable_hex_ok s (cb_text c) e Hs) as (s' & r & Hs' & -> & Hr). exists s', r.
    split; [done|]. split; [done|]. intros data Hd Hne. destruct (Hr data Hd) as (bs & -> & Hb & Hl).
    apply compact_data_ok; [done| |unfold slen in Ht; lia]. by intros ->.
Qed.

Section Posts.
Context `{JsonRuntime}.

Lemma paste_good data u : caret_ok u -> u_fileSize u <= MAX_SAFE_INTEGER ->
  hex_ok MAX_WEBVIEW_HEX_BYTES data -> data <> [] -> good u (pasteClipboardHex data u).
Proof.
  intros Hu Hm Hd Hne. unfold pasteClipboardHex. case_match; [by apply nothing_good|]. cbv zeta.
  set (offset := match selectedClipboardRange u with Some (o, _) => o | None => selectedEditOffset u end).
  assert (Ho : 0 <= offset <= u_fileSize u).
  { unfold offset. destruct (selectedClipboardRange u) as [[o n]|] eqn:Er; [|by apply edit_offset_in_file].
    pose proof (clipboard_range_in_file u o n Hu Er). lia. }
  rewrite (proj2 (Z.ltb_ge _ _)), (proj2 (Z.ltb_ge _ _)) by lia. cbn [orb]. unfold then_, posts, now. cbn [app].
  assert (Hl : 0 < slen data / 2).
  { destruct Hd as (_ & He & _). assert (0 < slen data) by (destruct data; [done|unfold slen; cbn [length]; lia]).
    pose proof (Z.div_mod (slen data) 2). lia. }
  apply one_good.
  - by apply after_insert_ok.
  - cbn. unfold safe_nat. split; [lia|]. split; [lia|]. done.
Qed.

Lemma commit_good offset byte u : caret_ok u -> u_fileSize u <= MAX_SAFE_INTEGER ->
  0 <= offset <= u_fileSize u -> good u (commitByteEdit offset byte u).
Proof.
  intros Hu Hm Ho. unfold commitByteEdit. case_match; [by apply nothing_good|].
  case_match eqn:E; [by apply nothing_good|]. bool_prop.
  assert (Hd : hex_ok MAX_WEBVIEW_HEX_BYTES (byte_hex byte) /\ byte_hex byte <> [] /\ slen (byte_hex byte) / 2 = 1).
  { destruct (byte_hex_pair byte) as (h & l & x & y & -> & Hh & Hl & _); [unfold is_byte; lia|].
    split; [|split; done]. repeat split; [by repeat constructor|done..]. }
  destruct Hd as (Hd & Hne & Hlen). cbv zeta. unfold then_, posts, now. cbn [app].
  set (overwriting := match u_editMode u with ModeOverwrite => _ | ModeInsert => false end).
  destruct overwriting eqn:Eo.
  - assert (offset < u_fileSize u) by (unfold overwriting in Eo; destruct (u_editMode u); bool_prop; (done || lia)).
    apply one_good; [destruct Hu; split; cbn; (done || lia)|]. cbn [message_ok fileSize]. rewrite Hlen. unfold range_in, safe_nat.
    split; [done|]. split; [done|]. lia.
  - rewrite (proj2 (Z.leb_le _ _)) by lia.
    destruct (after_insert_ok offset 1 u Hu Ho ltac:(lia)) as [[] _]. apply one_good; [by split|].
    cbn. unfold safe_nat. split; [lia|]. split; [lia|]. done.
Qed.

Lemma nibble_ok n u : caret_ok u -> caret_ok (with_nibble n u).
Proof. intros []. by split. Qed.

Lemma type_good encoding pane key maps u : caret_ok u -> u_fileSize u <= MAX_SAFE_INTEGER -> maps_ok maps ->
  let '(maps', u', l, _) := handleGridType encoding pane key maps u in maps_ok maps' /\ good u (u', l).
Proof.
  intros Hu Hm Hs. pose proof (edit_offset_in_file u Hu) as Ho. unfold handleGridType.
  assert (Hn : good u (u, [])) by by apply nothing_good.
  assert (Hc : forall b, good u (commitByteEdit (selectedEditOffset u) b u)) by (intros b; by apply commit_good).
  destruct (u_transformInFlight u); [done|]. cbv zeta. destruct ((_ <? 0) || _); [done|]. destruct pane.
  - destruct key as [|c [|? ?]]; try done. destruct (hex_value c) as [d|]; [|done].
    destruct (u_pendingHexNibble u) as [high|].
    + specialize (Hc (Z.lor (Z.shiftl high 4) d)). by destruct (commitByteEdit _ _ u).
    + split; [done|]. split; [by apply nibble_ok|done].
  - destruct (negb _); [done|]. destruct (printable_hex_ok maps key encoding Hs) as (s' & r & Hs' & -> & _).
    destruct r as [data|]; [|done]. destruct (negb _); [done|].
    specialize (Hc (default 0 (radix_value 16 data))). by destruct (commitByteEdit _ _ u).
Qed.

Lemma move_selection delta extend u : caret_ok u ->
  caret_ok (moveSelection delta extend u).1 /\ u_fileSize (moveSelection delta extend u).1 = u_fileSize u /\
  exists bound, scrolls bound (u_fileSize u) (moveSelection delta extend u).2.
Proof.
  intros Hu. unfold moveSelection. cbv zeta.
  match goal with |- context [selectOffset ?o _ ?v] => destruct (select_offset o extend v) as (? & ? & ?) end;
    [by apply nibble_ok|]. eauto.
Qed.

Lemma request_good offset u : caret_ok u -> u_fileSize u <= MAX_SAFE_INTEGER -> good u (requestVisibleOffset offset u).
Proof.
  intros Hu Hm. destruct (request_visible offset u Hu) as (v & p & l & -> & Hok & Hs). eapply scrolls_good; eauto.
Qed.

Lemma scroll_good direction u : caret_ok u -> u_fileSize u <= MAX_SAFE_INTEGER -> good u (scrollPreview direction u).
Proof. intros Hu Hm. unfold scrollPreview. case_match; [by apply nothing_good|by apply request_good]. Qed.

Lemma page_good delta direction extend u : caret_ok u -> u_fileSize u <= MAX_SAFE_INTEGER ->
  good u ((moveSelection delta extend ;>
           (fun u => if canScroll direction u then scrollPreview direction u else (u, []))) u).
Proof.
  intros Hu Hm. unfold then_. destruct (move_selection delta extend u Hu) as (H1 & H2 & bound & H3).
  destruct (moveSelection delta extend u) as [v l]. cbn [fst snd] in *.
  assert (Hg : good v (if canScroll direction v then scrollPreview direction v else (v, []))).
  { case_match; [apply scroll_good; [done|lia]|by apply nothing_good]. }
  destruct (if canScroll direction v then _ else _) as [w k]. destruct Hg as [Hw Hk]. rewrite H2 in Hk.
  split; [done|]. cbn [snd] in *. destruct H3 as [->|(o & -> & Ho & Hs)]; [done|]. cbn [app accepted_in size_after].
  assert (Hg : accepted_in (u_fileSize u) (u_fileSize u) [ScrollTo o]); [|cbn in Hg; tauto].
  eapply (scrolls_accepted o); [right; exists o; split; [done|lia]|lia..].
Qed.

(** The state that is posted after a change. *)
Lemma state_taken radix encoding u : caret_ok u -> u_fileSize u <= MAX_SAFE_INTEGER ->
  u_visibleOffset u <= u_fileSize u -> visibleByteCapacity u <= MAX_WEBVIEW_HEX_BYTES ->
  selectionLength u <= MAX_WEBVIEW_HEX_BYTES -> MIN_BYTES_PER_ROW <= u_bytesPerRow u <= MAX_BYTES_PER_ROW ->
  ok_at (u_fileSize u) (EditorStateChanged (currentEditorUiState radix encoding u)).
Proof.
  intros Hu Hm Hv Hc Hl Hr. apply message_complete. cbn [message_ok fileSize].
  assert (0 <= visibleByteCapacity u) by (destruct Hu; unfold visibleByteCapacity; nia).
  assert (Hcount : 0 <= visibleByteCount u <= MAX_WEBVIEW_HEX_BYTES /\ u_visibleOffset u + visibleByteCount u <= u_fileSize u)
    by (unfold visibleByteCount; lia).
  assert (Hs : selection_ok (u_fileSize u) (selectionStart u) (selectionEnd u) (selectionLength u) /\
    selectionEnd u <= MAX_SAFE_INTEGER).
  { destruct Hu. unfold selection_ok, selectionLength, selectionStart, selectionEnd.
    destruct (0 <=? u_selectionAnchor u) eqn:Ea, (0 <=? u_selectedOffset u) eqn:Es; bool_prop; cbn [andb]; cbv iota;
      try (split; [by left|vm_compute; discriminate]).
    rewrite !(proj2 (Z.leb_le _ _)) by lia. cbn [andb]. lia. }
  destruct Hu. unfold ui_state_ok, currentEditorUiState, range_in, safe_nat. cbn. tauto || (repeat split; try tauto; lia).
Qed.

(** What an action is given: no more rows than the host allows, a selection
    and a clipboard that fit into one message, bytes of an inspector field. *)
Definition action_fits (a : user_action) (c : clipboard) (u : ui) : Prop :=
  match a with
  | UserResize rows => rows <= 100000
  | UserCopy _ => selectionLength u <= MAX_WEBVIEW_HEX_BYTES
  | UserPaste => clipboard_fits c
  | UserInspector _ len data => hex_ok MAX_WEBVIEW_HEX_BYTES data /\ data <> [] /\ slen data / 2 <= len
  | _ => True
  end.

Lemma key_good encoding key shift maps u : caret_ok u -> u_fileSize u <= MAX_SAFE_INTEGER -> maps_ok maps ->
  let '(maps', u', l) := grid_keydown encoding key shift maps u in maps_ok maps' /\ good u (u', l).
Proof.
  intros Hu Hm Hs.
  assert (Hd : forall r : ui * list WebviewToHostMessage, good u r ->
    let '(maps', u', l) := (let '(u, l) := r in (maps, u, l)) in maps_ok maps' /\ good u (u', l)) by by intros [].
  assert (Hmv : forall d, good u (moveSelection d shift u)).
  { intros d. destruct (move_selection d shift u Hu) as (? & _ & b & ?). by apply (scrolls_good b). }
  assert (Hj : forall top, good u (jumpToBoundary top u)).
  { intros top. unfold jumpToBoundary. cbv zeta. eapply (request_good _ (with_nibble None u)); [by apply nibble_ok|done]. }
  destruct key; cbn [grid_keydown]; try (apply Hd; auto using backspace_good, page_good; fail).
  - split; [done|]. split; [destruct Hu; by split|done].
  - split; [done|]. by apply one_good.
  - pose proof (type_good encoding (u_activePane u) key maps u Hu Hm Hs).
    by destruct (handleGridType encoding (u_activePane u) key maps u) as [[[? ?] ?] ?].
Qed.

Lemma action_good encoding a maps c u : caret_ok u -> u_fileSize u <= MAX_SAFE_INTEGER -> maps_ok maps ->
  action_fits a c u ->
  let '(maps', _, u', l) := user_step encoding a maps c u in maps_ok maps' /\ good u (u', l).
Proof.
  intros Hu Hm Hs Ha.
  assert (Hd : forall r : ui * list WebviewToHostMessage, good u r ->
    let '(maps', _, u', l) := (let '(u, l) := r in (maps, c, u, l)) in maps_ok maps' /\ good u (u', l)) by by intros [].
  destruct a as [key shift|offset extend|offset len|direction|offset|offset|rows|cut| |offset len data];
    cbn [user_step action_fits] in *.
  - pose proof (key_good encoding key shift maps u Hu Hm Hs). by destruct (grid_keydown _ _ _ _ _) as [[? ?] ?].
  - apply Hd. destruct (select_offset offset extend u Hu) as (? & _ & ?). by eapply scrolls_good.
  - apply Hd. destruct (select_range offset len u Hu) as (? & ?). by eapply scrolls_good.
  - apply Hd. by apply scroll_good.
  - apply Hd. by apply request_good.
  - apply Hd. unfold goToOffset. case_match; [by apply nothing_good|].
    destruct (select_offset offset false (with_nibble None u)) as (? & _ & ?); [by apply nibble_ok|].
    by eapply (scrolls_good offset).
  - apply Hd. unfold setVisibleRows, DEFAULT_VISIBLE_ROWS. case_match; [by apply nothing_good|].
    apply one_good; [by destruct Hu; split|]. cbn. lia.
  - pose proof (copy_good cut encoding c u Hu Hm Ha). by destruct (handleClipboardCopy cut encoding c u) as [[? ?] ?].
  - unfold handleClipboardPaste. destruct (paste_data (u_activePane u) encoding c maps Hs Ha) as (s' & r & Hs' & -> & Hr).
    destruct r as [[|d ds]|]; try (split; [done|by apply nothing_good]).
    pose proof (paste_good (d :: ds) u Hu Hm (Hr _ eq_refl ltac:(done)) ltac:(done)).
    by destruct (pasteClipboardHex (d :: ds) u).
  - apply Hd. destruct Ha as (Hh & Hne & Hl). unfold commitInspectorValue. case_match; [by apply nothing_good|].
    case_match eqn:E; [by apply nothing_good|]. bool_prop. unfold then_, posts, now. cbn [app].
    apply one_good; [destruct Hu; split; cbn; (done || lia)|]. cbn [message_ok fileSize].
    split; [done|]. split; [done|]. unfold range_in, safe_nat.
    assert (0 <= slen data / 2) by (apply Z.div_pos; unfold slen; lia). lia.
Qed.
End Posts.

(** *** Typing *)

(** What a message does to the bytes of the file. *)
Definition carried_out (doc : list Z) (m : WebviewToHostMessage) : list Z :=
  match m with
  | Insert offset data => apply_insert offset (hex_decode data) doc
  | Overwrite offset data => apply_overwrite offset (hex_decode data) doc
  | Delete offset len => apply_delete offset len doc
  | _ => doc
  end.

Fixpoint type_keys (encoding : TextEncoding) (keys : jsstring) (maps : maps_state) (u : ui)
  : maps_state * ui * list WebviewToHostMessage :=
  match keys with
  | [] => (maps, u, [])
  | c :: keys =>
      let '(maps, u, l) := grid_keydown encoding (KeyText [c]) false maps u in
      let '(maps, u, k) := type_keys encoding keys maps u in (maps, u, l ++ k)
  end.

Record ready (u : ui) : Prop := mkReady {
  rd_caret : caret_ok u;
  rd_mode : u_editMode u = ModeInsert;
  rd_pane : u_activePane u = PaneHex;
  rd_nibble : u_pendingHexNibble u = None;
  rd_free : u_transformInFlight u = false
}.

Lemma nibbles x y : 0 <= x < 16 -> 0 <= y < 16 -> Z.lor (Z.shiftl x 4) y = 16 * x + y.
Proof.
  intros Hx Hy. assert (Hz : Z.land (Z.shiftl x 4) y = 0).
  { apply Z.bits_inj'. intros n Hn. rewrite Z.land_spec, Z.bits_0, Z.shiftl_spec by lia.
    destruct (Z.lt_ge_cases n 4); [by rewrite Z.testbit_neg_r by lia|].
    rewrite (Z.bits_above_log2 y n), andb_false_r; [done|lia|]. destruct (Z.eq_dec y 0) as [->|]; [cbn; lia|].
    apply Z.lt_le_trans with 4; [apply Z.log2_lt_pow2; lia|lia]. }
  rewrite <- Z.lxor_lor, <- Z.add_nocarry_lxor by done. rewrite Z.shiftl_mul_pow2 by lia. lia.
Qed.

Lemma hex_value_range c x : hex_value c = Some x -> 0 <= x < 16.
Proof. unfold hex_value. repeat case_match; bool_prop; intros [= <-]; lia. Qed.

(** Two digits insert a byte; the caret is behind it, or before it when the
    direction is backward. *)
Lemma type_pair encoding h l x y maps u : ready u -> hex_value h = Some x -> hex_value l = Some y ->
  exists u', type_keys encoding [h; l] maps u = (maps, u', [Insert (selectedEditOffset u) (byte_hex (16 * x + y))]) /\
    ready u' /\ u_insertDirection u' = u_insertDirection u /\ u_fileSize u' = u_fileSize u + 1 /\
    selectedEditOffset u' = selectedEditOffset u + match u_insertDirection u with Forward => 1 | Backward => 0 end.
Proof.
  intros [Hc Hm Hp Hn Ht] Hh Hl. pose proof (hex_value_range _ _ Hh). pose proof (hex_value_range _ _ Hl).
  set (u1 := with_nibble (Some x) u).
  assert (H1 : grid_keydown encoding (KeyText [h]) false maps u = (maps, u1, [])).
  { pose proof (edit_offset_in_file u Hc). unfold grid_keydown, handleGridType. rewrite Ht, Hp. cbv zeta.
    rewrite (proj2 (Z.ltb_ge _ _)), (proj2 (Z.ltb_ge _ _)) by lia. cbn [orb]. by rewrite Hh, Hn. }
  assert (Hc1 : caret_ok u1) by by apply nibble_ok.
  change (selectedEditOffset u) with (selectedEditOffset u1). pose proof (edit_offset_in_file u1 Hc1) as Ho.
  destruct (after_insert_ok (selectedEditOffset u1) 1 u1 Hc1 Ho ltac:(lia)) as [Hok Hsize].
  set (u2 := selectAfterInsertedBytes (selectedEditOffset u1) 1 (with_size (u_fileSize u1 + 1) u1)) in *.
  assert (H2 : grid_keydown encoding (KeyText [l]) false maps u1 =
    (maps, with_nibble None u2, [Insert (selectedEditOffset u1) (byte_hex (16 * x + y))])).
  { unfold grid_keydown, handleGridType. change (u_transformInFlight u1) with (u_transformInFlight u).
    change (u_activePane u1) with (u_activePane u). rewrite Ht, Hp. cbv zeta.
    rewrite (proj2 (Z.ltb_ge _ _)), (proj2 (Z.ltb_ge _ _)) by lia. cbn [orb]. rewrite Hl.
    change (u_pendingHexNibble u1) with (Some x). cbv iota beta. rewrite nibbles by lia. unfold commitByteEdit.
    change (u_transformInFlight u1) with (u_transformInFlight u). change (u_editMode u1) with (u_editMode u).
    rewrite Ht, Hm. cbv zeta. rewrite !(proj2 (Z.ltb_ge _ _)), (proj2 (Z.leb_le _ _)) by lia. reflexivity. }
  exists (with_nibble None u2). split.
  { cbn [type_keys]. by rewrite H1, H2. }
  split.
  { split; [by apply nibble_ok| | |done|]; unfold u2, selectAfterInsertedBytes, setInsertionCaret; cbn;
      repeat case_match; cbn; done. }
  split; [unfold u2, selectAfterInsertedBytes, setInsertionCaret; cbn; by repeat case_match|].
  split; [done|].
  change (u_insertDirection u) with (u_insertDirection u1). clearbody u1. clear - Ho.
  unfold u2, selectAfterInsertedBytes, setInsertionCaret. cbn [with_size u_fileSize u_insertDirection].
  set (o := selectedEditOffset u1) in *. clearbody o.
  destruct (u_insertDirection u1); cbn [u_fileSize with_size];
    [destruct (_ <=? _) eqn:E; bool_prop|]; unfold selectedEditOffset, selectionStart; cbn [with_nibble with_selection u_selectionAnchor u_selectedOffset u_fileSize with_size].
  all: repeat match goal with |- context [?a <=? ?b] => let E := fresh in destruct (a <=? b) eqn:E; bool_prop end;
    cbn [andb]; try lia.
  all: repeat case_match; bool_prop; lia.
Qed.

Lemma type_keys_app encoding k1 : forall k2 maps u,
  type_keys encoding (k1 ++ k2) maps u =
    (let '(maps1, u1, l1) := type_keys encoding k1 maps u in
     let '(maps2, u2, l2) := type_keys encoding k2 maps1 u1 in (maps2, u2, l1 ++ l2)).
Proof.
  induction k1 as [|c k1 IH]; intros k2 maps u.
  - cbn [app type_keys]. by destruct (type_keys encoding k2 maps u) as [[? ?] ?].
  - cbn [app type_keys]. destruct (grid_keydown encoding (KeyText [c]) false maps u) as [[m1 u1] l1]. rewrite IH.
    destruct (type_keys encoding k1 m1 u1) as [[m2 u2] l2]. destruct (type_keys encoding k2 m2 u2) as [[m3 u3] l3].
    by rewrite app_assoc.
Qed.

Lemma typed_byte_inserted b o : is_byte b -> forall doc, carried_out doc (Insert o (byte_hex b)) = apply_insert o [b] doc.
Proof. intros Hb doc. unfold carried_out. destruct (hex_pair b Hb) as [-> Hd]. specialize (Hd []). rewrite app_nil_r in Hd. by rewrite Hd. Qed.

Lemma take_after_insert o b (doc : list Z) : (o <= length doc)%nat ->
  take (S o) (take o doc ++ b :: drop o doc) = take o doc ++ [b] /\
  drop (S o) (take o doc ++ b :: drop o doc) = drop o doc.
Proof.
  intros Ho. assert (Hl : length (take o doc) = o) by (rewrite length_take; lia). split.
  - change (take o doc ++ b :: drop o doc) with (take o doc ++ [b] ++ drop o doc). rewrite app_assoc.
    apply take_app_length'. rewrite length_app, Hl. cbn. lia.
  - change (take o doc ++ b :: drop o doc) with (take o doc ++ [b] ++ drop o doc). rewrite app_assoc.
    apply drop_app_length'. rewrite length_app, Hl. cbn. lia.
Qed.

Lemma take_before_insert o b (doc : list Z) : (o <= length doc)%nat ->
  take o (take o doc ++ b :: drop o doc) = take o doc /\ drop o (take o doc ++ b :: drop o doc) = b :: drop o doc.
Proof.
  intros Ho. assert (Hl : length (take o doc) = o) by (rewrite length_take; lia).
  split; [by apply take_app_length'|by apply drop_app_length'].
Qed.

(** The bytes in the order in which they stand when they were typed. *)
Definition in_direction (d : InsertDirection) (bs : list Z) : list Z :=
  match d with Forward => bs | Backward => rev bs end.

Lemma type_inserts encoding maps n : forall keys u doc,
  length keys = (2 * n)%nat -> Forall (fun c => is_Some (hex_value c)) keys -> ready u ->
  u_fileSize u = Z.of_nat (length doc) ->
  exists u' l, type_keys encoding keys maps u = (maps, u', l) /\ ready u' /\
    u_fileSize u' = u_fileSize u + Z.of_nat n /\
    selectedEditOffset u' = selectedEditOffset u + match u_insertDirection u with Forward => Z.of_nat n | Backward => 0 end /\
    foldl carried_out doc l = apply_insert (selectedEditOffset u) (in_direction (u_insertDirection u) (hex_decode keys)) doc.
Proof.
  induction n as [|n IH]; intros keys u doc Hl Hk Hr Hs.
  - destruct keys; [|done]. exists u, []. cbn [type_keys foldl hex_decode]. split; [done|]. split; [done|].
    split; [lia|]. split; [destruct (u_insertDirection u); lia|].
    unfold apply_insert. rewrite (ltac:(by destruct (u_insertDirection u)) : in_direction (u_insertDirection u) [] = []).
    cbn [app]. by rewrite take_drop.
  - destruct keys as [|h [|l keys]]; [done|cbn in Hl; lia|]. apply Forall_cons in Hk as [[x Hh] Hk].
    apply Forall_cons in Hk as [[y Hy] Hk]. pose proof (hex_value_range _ _ Hh). pose proof (hex_value_range _ _ Hy).
    destruct (type_pair encoding h l x y maps u Hr Hh Hy) as (u1 & Ht & Hr1 & Hd1 & Hs1 & Ho1).
    pose proof (edit_offset_in_file u (rd_caret u Hr)) as Ho. set (o := selectedEditOffset u) in *.
    set (b := 16 * x + y) in *. assert (Hb : is_byte b) by (unfold is_byte, b; lia).
    set (doc1 := apply_insert o [b] doc).
    assert (Hlen : Z.of_nat (length doc1) = u_fileSize u + 1).
    { unfold doc1, apply_insert. rewrite !length_app, length_take, length_drop. cbn [length]. lia. }
    destruct (IH keys u1 doc1) as (u2 & k & Ht2 & Hr2 & Hs2 & Ho2 & Hf); [cbn in Hl; lia|done|done|lia|].
    exists u2, (Insert o (byte_hex b) :: k). change (h :: l :: keys) with ([h; l] ++ keys).
    rewrite type_keys_app, Ht, Ht2. split; [done|]. split; [done|]. split; [lia|]. rewrite Hd1 in *.
    split; [destruct (u_insertDirection u); lia|].
    cbn [foldl]. rewrite typed_byte_inserted by done. fold doc1. rewrite Hf, Ho1.
    cbn [app hex_decode]. rewrite Hh, Hy. fold b. unfold doc1, apply_insert. cbn [app].
    assert (Hn : (Z.to_nat o <= length doc)%nat) by lia. destruct (u_insertDirection u); cbn [in_direction].
    + replace (Z.to_nat (o + 1)) with (S (Z.to_nat o)) by lia. destruct (take_after_insert _ b doc Hn) as [-> ->].
      by rewrite <- app_assoc.
    + replace (o + 0) with o by lia. destruct (take_before_insert _ b doc Hn) as [-> ->]. cbn [rev]. by rewrite <- app_assoc.
Qed.

(** *** The clipboard *)

Lemma no_spaces s : Forall (fun c => is_Some (hex_value c)) s -> remove_spaces s = s.
Proof.
  unfold remove_spaces. induction 1 as [|c s Hc _ IH]; [done|]. cbn [List.filter]. by rewrite (hex_not_space c Hc), IH.
Qed.

Lemma spaced_hex bs : Forall is_byte bs -> remove_spaces (bytesToHexText bs) = bytesToCompactHex bs.
Proof.
  unfold remove_spaces, bytesToCompactHex. induction 1 as [|b bs Hb _ IH]; [done|].
  assert (Hone : List.filter (fun c => negb (is_js_space c)) (byte_hex b) = byte_hex b).
  { apply no_spaces. destruct (compact_hex_ok [b]) as [Hf _]; [by apply Forall_singleton|].
    cbn [bytesToCompactHex flat_map] in Hf. by rewrite app_nil_r in Hf. }
  cbn [flat_map]. destruct bs as [|b' bs]; [cbn [bytesToHexText flat_map]; by rewrite Hone, app_nil_r|].
  change (bytesToHexText (b :: b' :: bs)) with (byte_hex b ++ js " " ++ bytesToHexText (b' :: bs)).
  by rewrite !List.filter_app, Hone, IH.
Qed.

(** The form of bytes that is read as those bytes. *)
Lemma normalize_compact v bs : Forall is_byte bs -> bs <> [] -> remove_spaces v = bytesToCompactHex bs ->
  normalizeClipboardHex v = Some (bytesToCompactHex bs).
Proof.
  intros Hb Hn Hv. destruct (compact_hex_ok bs Hb) as (Hf & Hl & Hu & _). unfold normalizeClipboardHex. rewrite Hv.
  cbv zeta. assert (0 < Z.of_nat (length bs)) by (destruct bs; [done|cbn; lia]).
  rewrite (proj2 (Z.eqb_neq _ _)) by lia. rewrite Hl at 1. rewrite (Z.mul_comm 2), Z.mod_mul by lia. cbn [Z.eqb andb].
  rewrite Hu. replace (forallb is_hex_unit (bytesToCompactHex bs)) with true; [done|]. symmetry.
  apply forallb_forall. intros c Hc. apply list_elem_of_In in Hc. rewrite Forall_forall in Hf.
  apply bool_decide_eq_true_2. by apply Hf.
Qed.

(** ** Properties *)

(** C18 From a caret and a selection in the file the webview believes in, whose
    size is a safe integer, whatever the user does in the grid, with the
    mouse, the wheel, the clipboard or the inspector, the caret and the
    selection stay in that file and every message that is posted passes the
    checks of the host for that size, also as it becomes once the messages
    before are carried out; provided no more than 100000 rows are asked for,
    a selection that is copied and a clipboard that is pasted fit into one
    message, and the bytes of the inspector fit into its field.  The size is
    the one the webview has: the host may have seen a smaller one
    ([typed_ahead_dropped]) and the file may get shorter under a selection
    ([cut_tail_left_selected]). *)
Theorem user_messages_taken `{JsonRuntime} encoding a maps c u :
  caret_ok u -> u_fileSize u <= MAX_SAFE_INTEGER -> maps_ok maps -> action_fits a c u ->
  let '(maps', _, u', l) := user_step encoding a maps c u in
  maps_ok maps' /\ caret_ok u' /\ accepted_in (u_fileSize u) (u_fileSize u) l.
Proof.
  intros Hu Hm Hs Ha. pose proof (action_good encoding a maps c u Hu Hm Hs Ha) as Hg.
  by destruct (user_step encoding a maps c u) as [[[? ?] ?] ?].
Qed.

(** C19 Hexadecimal digits typed in insert mode put their bytes at the caret:
    the messages, carried out in their order, give the file with the bytes in
    the order in which they were typed, or reversed when the direction is
    backward, and the caret is behind or before them. *)
Theorem typing_inserts_bytes encoding keys maps u doc :
  ready u -> u_fileSize u = Z.of_nat (length doc) ->
  Forall (fun c => is_Some (hex_value c)) keys -> Nat.Even (length keys) ->
  let o := selectedEditOffset u in
  let bs := hex_decode keys in
  let '(_, u', l) := type_keys encoding keys maps u in
  foldl carried_out doc l =
    take (Z.to_nat o) doc ++ match u_insertDirection u with Forward => bs | Backward => rev bs end ++ drop (Z.to_nat o) doc /\
  u_fileSize u' = u_fileSize u + Z.of_nat (length keys / 2) /\ ready u' /\
  selectedEditOffset u' = o + match u_insertDirection u with Forward => Z.of_nat (length keys / 2) | Backward => 0 end.
Proof.
  intros Hr Hs Hk [n Hn]. cbv zeta. destruct (type_inserts encoding maps n keys u doc Hn Hk Hr Hs) as (u' & l & -> & Hr' & Hs' & Ho & Hf).
  replace (length keys / 2)%nat with n by (rewrite Hn, Nat.mul_comm, Nat.div_mul; lia).
  split; [rewrite Hf; unfold apply_insert; by destruct (u_insertDirection u)|].
  split; [done|]. by split.
Qed.

(** C23 What is copied is what is pasted: when a copy of bytes succeeds, a paste
    of the clipboard in either pane, when it is taken, is those bytes; in the
    hexadecimal pane it is always taken, and in the pane it was copied in;
    and the plain text alone, as another program would hand it back, is
    pasted as the same bytes in the pane it was copied in. *)
Theorem clipboard_roundtrip pane encoding bs c c' maps :
  maps_ok maps -> Forall is_byte bs -> bs <> [] ->
  writeClipboardBytes pane encoding bs c = (c', true) ->
  hex_decode (bytesToCompactHex bs) = bs /\
  (forall other, exists r, decodeClipboardPaste other encoding c' maps = (maps, Ok r) /\
     (r = Some (bytesToCompactHex bs) \/ r = None /\ other = PaneAscii /\ pane = PaneHex)) /\
  (decodeClipboardPaste pane encoding (mkClipboard [] (cb_text c')) maps).2 = Ok (Some (bytesToCompactHex bs)).
Proof.
  intros Hs Hb Hn Hw. destruct (compact_hex_ok bs Hb) as (Hf & Hl & Hu & Hd). split; [done|].
  assert (Hc : normalizeClipboardHex (bytesToCompactHex bs) = Some (bytesToCompactHex bs))
    by (apply normalize_compact; [done..|by apply no_spaces]).
  assert (Hh : cb_hex c' = bytesToCompactHex bs).
  { unfold writeClipboardBytes in Hw. destruct pane; [|destruct (decodeTextBytes bs encoding); [|done]]; by injection Hw as <-. }
  split.
  - intros other. unfold decodeClipboardPaste. rewrite Hh, Hc. unfold compactHexToBytes. rewrite Hd.
    eexists. split; [reflexivity|]. destruct other; [by left|].
    destruct (decodeTextBytes bs encoding) eqn:Ed; [by left|]. right. split; [done|]. split; [done|].
    destruct pane; [done|]. unfold writeClipboardBytes in Hw. by rewrite Ed in Hw.
  - unfold decodeClipboardPaste. change (cb_hex (mkClipboard [] (cb_text c'))) with ([] : jsstring).
    change (normalizeClipboardHex []) with (@None jsstring). cbn [cb_text]. unfold writeClipboardBytes in Hw. destruct pane.
    + injection Hw as <-. cbn [cb_text]. rewrite (normalize_compact _ bs); [done..|by apply spaced_hex].
    + destruct (decodeTextBytes bs encoding) as [text|] eqn:Ed; [|done]. injection Hw as <-. cbn [cb_text].
      unfold printableTextInputToHex. assert (Ht : text <> []).
      { intros ->. destruct bs as [|b bs]; [done|]. cbn in Ed. apply bind_Some in Ed as (ch & Hch & Ed).
        destruct (negb _); [done|]. apply bind_Some in Ed as (chars & _ & Ed). injection Ed as Ed.
        apply decoded_plain in Hch. by destruct ch. }
      rewrite (proj2 (Z.eqb_neq _ _)); [|by destruct text; [|unfold slen; cbn [length]; lia]].
      apply printable_hex_roundtrip; [done|]. rewrite Hd. split; [done|].
      unfold bytesToCompactHex. by destruct (hex_forms_agree bs Hb) as [-> _].
Qed.

(** Deleting leaves the caret in the file: when the host says how long the
    file is after a deletion the window has asked for, the caret and the
    selection are those of the file that is left. *)
Theorem own_deletion_followed offset len u :
  caret_ok u -> u_transformInFlight u = false -> 0 <= offset < u_fileSize u -> 0 < len ->
  let n := Z.min len (u_fileSize u - offset) in
  caret_ok (on_fileSizeChanged (u_fileSize u - n) (postDeleteRange offset len u).1).
Proof.
  intros Hu Ht Ho Hl. cbv zeta. unfold postDeleteRange. rewrite Ht, !(proj2 (Z.leb_gt _ _)), (proj2 (Z.ltb_ge _ _)) by lia.
  cbn [orb]. cbv zeta. set (n := Z.min len (u_fileSize u - offset)). unfold then_, posts, now.
  set (v := with_nibble None u). assert (Hv : caret_ok v) by by apply nibble_ok.
  change (u_fileSize u) with (u_fileSize v) in *. set (bound := Z.min offset (Z.max 0 (u_fileSize v - n - 1))).
  destruct (select_offset bound false v Hv) as ([] & Hsz & _). destruct (select_byte bound v Hv) as [Ha Hs]; [lia|].
  destruct (selectOffset bound false v) as [w l]. cbn [fst snd] in *.
  assert (Hb : 0 < n <= u_fileSize v /\ bound = 0 \/ 0 < n /\ 0 <= bound < u_fileSize v - n) by (unfold bound, n; lia).
  clearbody bound n v. unfold on_fileSizeChanged, after_size.
  destruct (u_fileSize v - n <=? 0) eqn:E; bool_prop; [split; cbn; (done || lia)|].
  cbn [u_selectedOffset with_size]. rewrite Hs, (proj2 (Z.ltb_ge _ _)) by lia. split; cbn; (done || lia).
Qed.

(** *** Concrete inputs *)

Definition sample_ui (size anchor offset : Z) : ui :=
  mkUi size 0 0 (seqZ 0 size) 16 16 None ModeInsert Forward PaneHex None anchor offset false no_search.

(** A match at the end of the file is selected and cut: the selection stays,
    outside the file that is left, and the next key deletes nothing. *)
Example cut_tail_left_selected :
  let '(_, _, u, _) := user_step ascii (UserSelectRange 28 4) [] (mkClipboard [] []) (sample_ui 32 0 0) in
  let '(_, _, u, l) := user_step ascii (UserCopy true) [] (mkClipboard [] []) u in
  let u := on_fileSizeChanged 28 u in
  l = [Delete 28 4] /\ selectionStart u = 28 /\ selectionEnd u = 31 /\ u_fileSize u = 28 /\
  (deleteFromKeyboard true u).2 = [].
Proof. vm_compute. done. Qed.

(** Two bytes typed at the end before the host has carried out the first:
    the second is dropped there. *)
Example typed_ahead_dropped :
  let '(_, u, l) := type_keys ascii (js "4142") [] (sample_ui 0 (-1) 0) in
  l = [Insert 0 (js "41"); Insert 1 (js "42")] /\ u_fileSize u = 2 /\
  normalizeWebviewMessage (H := no_json) (mkContext 0 None) (message_value (Insert 1 (js "42"))) = None /\
  normalizeWebviewMessage (H := no_json) (mkContext 1 None) (message_value (Insert 1 (js "42"))) = Some (Insert 1 (js "42")).
Proof. vm_compute. done. Qed.

(** The first digit of a byte survives a paste and is taken with the next
    digit, at another place. *)
Example digit_survives_paste :
  let '(_, u, _) := type_keys ascii (js "4") [] (sample_ui 4 1 1) in
  let '(u, l) := pasteClipboardHex (js "AABB") u in
  let '(_, _, k) := type_keys ascii (js "2") [] u in
  l = [Insert 1 (js "AABB")] /\ k = [Insert 3 (js "42")].
Proof. vm_compute. done. Qed.

(** Other bytes take the place of the selected ones only where the file has
    bytes; at its end they are inserted. *)
Example overwrite_mode_appends :
  let u := setInspectorEditMode ModeOverwrite (sample_ui 2 1 1) in
  let '(_, u1, l) := type_keys ascii (js "41") [] u in
  let '(_, k) := commitByteEdit 2 66 u1 in
  l = [Overwrite 1 (js "41")] /\ u_selectedOffset u1 = 1 /\ k = [Insert 2 (js "42")].
Proof. vm_compute. done. Qed.

Lemma sample_caret size anchor offset : 0 <= size -> -1 <= anchor < size -> -1 <= offset <= size ->
  (0 <= anchor -> 0 <= offset < size) -> caret_ok (sample_ui size anchor offset).
Proof. intros. split; cbn; (done || lia). Qed.

(** A cut of two bytes of a file of 32. *)
Lemma user_messages_taken_witness :
  selectionLength (sample_ui 32 4 5) = 2 /\
  let '(maps', _, u', l) := user_step ascii (UserCopy true) warm_maps (mkClipboard [] []) (sample_ui 32 4 5) in
  maps_ok maps' /\ caret_ok u' /\ accepted_in (H := no_json) 32 32 l.
Proof.
  split; [vm_compute; reflexivity|].
  apply (@user_messages_taken no_json ascii (UserCopy true) warm_maps (mkClipboard [] []) (sample_ui 32 4 5)).
  - apply sample_caret; lia.
  - vm_compute. discriminate.
  - exact warm_maps_ok.
  - vm_compute. discriminate.
Defined.

Lemma typing_inserts_bytes_witness :
  foldl carried_out [1; 2; 3] (type_keys ascii (js "fF0a") [] (sample_ui 3 1 1)).2 = [1; 255; 10; 2; 3].
Proof.
  pose proof (typing_inserts_bytes ascii (js "fF0a") [] (sample_ui 3 1 1) [1; 2; 3]) as Ht. cbv zeta in Ht.
  destruct (type_keys ascii (js "fF0a") [] (sample_ui 3 1 1)) as [[m u'] l] eqn:E. cbn [snd]. apply Ht.
  - split; done.
  - done.
  - repeat constructor; vm_compute; eauto.
  - exists 2%nat. reflexivity.
Defined.

(** The two bytes of "Hi" copied in the text pane. *)
Lemma clipboard_roundtrip_witness :
  let c := (writeClipboardBytes PaneAscii ascii [72; 105] (mkClipboard [] [])).1 in
  cb_text c = js "Hi" /\
  (decodeClipboardPaste PaneAscii ascii (mkClipboard [] (cb_text c)) warm_maps).2 = Ok (Some (js "4869")).
Proof.
  cbv zeta. split; [vm_compute; reflexivity|].
  refine (proj2 (proj2 (clipboard_roundtrip PaneAscii ascii [72; 105] (mkClipboard [] []) _ warm_maps warm_maps_ok _ _ _))).
  - repeat constructor; lia.
  - discriminate.
  - vm_compute. reflexivity.
Defined.

Lemma own_deletion_followed_witness : caret_ok (on_fileSizeChanged 28 (postDeleteRange 28 9 (sample_ui 32 28 31)).1).
Proof.
  apply (own_deletion_followed 28 9 (sample_ui 32 28 31)); [apply sample_caret; lia|done|cbn; lia|lia].
Defined.
