(* ===== verification/WebviewSearch.v ===== *)
(** * Search and replace of the webview ([webview-ui/src/App.svelte])

    The search panel: the query and what it becomes, the results of the host
    and when they are shown, the next and the previous match, replacing one
    match or all, and what the messages of the host do to the results.  It
    stands on the editor ([WebviewEditor]), which it selects with and asks
    whether a match is visible; the results come from the search controller
    of the client ([Search]).  The texts that are shown and the half second
    of the timer are not modelled, a timer that runs is. *)

From stdpp Require Import sorting.
From S2P Require Import Prelude JsText JsValue ChangeLogCodec EditDiff Search TextEncoding WebviewProtocol WebviewInspector WebviewEditor.

Open Scope jsm_scope.
Open Scope list_scope.
Open Scope Z_scope.

(** ** State *)

Record SearchNavigationResult := mkNavigationResult {
  nr_offset : Z;
  nr_patternLength : Z;
  nr_viewportMatches : option (list Z)
}.

(** What waits until the match is visible. *)
Inductive pending_reveal :=
  | RevealResults (message : EditorSearchResults)
  | RevealNavigation (message : SearchNavigationResult)
  | RevealBounded (index : Z).

Record panel := mkPanel {
  p_ui : ui;
  p_query : jsstring;
  p_hex : bool;
  p_caseInsensitive : bool;
  p_reverse : bool;
  p_replacement : jsstring;
  p_pending : option pending_reveal;
  p_windowLimit : Z;
  p_timer : bool;
  p_maps : maps_state
}.

Definition with_ui (u : ui) (p : panel) : panel :=
  mkPanel u (p_query p) (p_hex p) (p_caseInsensitive p) (p_reverse p) (p_replacement p) (p_pending p)
    (p_windowLimit p) (p_timer p) (p_maps p).
Definition with_query (q : jsstring) (hex insensitive : bool) (p : panel) : panel :=
  mkPanel (p_ui p) q hex insensitive (p_reverse p) (p_replacement p) (p_pending p) (p_windowLimit p) (p_timer p) (p_maps p).
Definition with_reverse (b : bool) (p : panel) : panel :=
  mkPanel (p_ui p) (p_query p) (p_hex p) (p_caseInsensitive p) b (p_replacement p) (p_pending p)
    (p_windowLimit p) (p_timer p) (p_maps p).
Definition with_reveal (r : option pending_reveal) (p : panel) : panel :=
  mkPanel (p_ui p) (p_query p) (p_hex p) (p_caseInsensitive p) (p_reverse p) (p_replacement p) r
    (p_windowLimit p) (p_timer p) (p_maps p).
Definition with_limit (n : Z) (p : panel) : panel :=
  mkPanel (p_ui p) (p_query p) (p_hex p) (p_caseInsensitive p) (p_reverse p) (p_replacement p) (p_pending p)
    n (p_timer p) (p_maps p).
Definition with_timer (b : bool) (p : panel) : panel :=
  mkPanel (p_ui p) (p_query p) (p_hex p) (p_caseInsensitive p) (p_reverse p) (p_replacement p) (p_pending p)
    (p_windowLimit p) b (p_maps p).
Definition with_maps (m : maps_state) (p : panel) : panel :=
  mkPanel (p_ui p) (p_query p) (p_hex p) (p_caseInsensitive p) (p_reverse p) (p_replacement p) (p_pending p)
    (p_windowLimit p) (p_timer p) m.

Definition results (p : panel) : searching := u_search (p_ui p).
Definition with_results (s : searching) (p : panel) : panel := with_ui (with_search s (p_ui p)) p.
Definition with_length (n : Z) (s : searching) : searching :=
  mkSearching (se_mode s) (se_matches s) (se_matchIndex s) (se_currentOffset s) n (se_viewportMatches s).

Abbreviation step := (panel -> panel * list WebviewToHostMessage).

(** A step of the editor, and one step after another. *)
Definition edits (a : act) : step := fun p => let '(u, l) := a (p_ui p) in (with_ui u p, l).
Definition next_ (a b : step) : step := fun p => let '(p, l) := a p in let '(p, k) := b p in (p, l ++ k).
Definition says (m : WebviewToHostMessage) : step := fun p => (p, [m]).
Notation "a >>> b" := (next_ a b) (at level 60, right associativity).

(** ** The query *)

Definition normalizeHexInput (value : jsstring) (allowEmpty : bool) : option jsstring :=
  let compact := remove_spaces value in
  if slen compact =? 0 then if allowEmpty then Some [] else None
  else if (slen compact mod 2 =? 0) && forallb is_hex_unit compact then Some compact else None.

(** The encoder never throws. *)
Definition textToHex (encoding : TextEncoding) (text : jsstring) (p : panel) : panel * option jsstring :=
  match encodeTextToHex text encoding (p_maps p) with
  | (m, Ok r) => (with_maps m p, r)
  | (m, _) => (with_maps m p, None)
  end.

Section Encoding.
Variable encoding : TextEncoding.

Definition normalizeSearchQuery (p : panel) : panel * option jsstring :=
  let trimmed := trim (p_query p) in
  if slen trimmed =? 0 then (p, None)
  else if p_hex p then (p, normalizeHexInput trimmed false) else textToHex encoding trimmed p.

Definition normalizeReplacementHex (p : panel) : panel * option jsstring :=
  if p_hex p then (p, normalizeHexInput (p_replacement p) true) else textToHex encoding (p_replacement p) p.

Definition getSearchPatternByteLength (query : jsstring) : Z := slen query / 2.

(** The terms of the four messages. *)
Definition terms_of (p : panel) (normalized : jsstring) : search_terms :=
  mkTerms normalized true (negb (p_hex p) && p_caseInsensitive p) (if p_hex p then None else Some encoding).

(** ** Results *)

Definition clearSearchResults (p : panel) : panel := with_reveal None (with_results no_search p).

Definition requestViewportSearchMatches : step := fun p =>
  match se_mode (results p) with
  | NoSearch => (p, [])
  | _ =>
      match normalizeSearchQuery p with
      | (p, Some normalized) =>
          if se_patternLength (results p) <=? 0 then (p, [])
          else
            let u := p_ui p in
            let vpLength := Z.min (Z.of_nat (length (u_viewportData u))) (Z.max 0 (u_fileSize u - u_viewportOffset u)) in
            if vpLength <=? 0 then (p, [])
            else (p, [SearchViewportMatches (terms_of p normalized) (u_viewportOffset u) vpLength])
      | (p, None) => (p, [])
      end
  end.

(** An index of the list of matches; there is always a match at the one that
    is kept ([index_ok]). *)
Definition match_at (index : Z) (l : list Z) : option Z := if index <? 0 then None else l !! Z.to_nat index.

Definition getCurrentSearchOffset (s : searching) : Z :=
  match se_mode s with
  | LargeSearch => se_currentOffset s
  | _ =>
      if (length (se_matches s) =? 0)%nat || (se_matchIndex s <? 0) then -1
      else default (-1) (match_at (se_matchIndex s) (se_matches s))
  end.

Definition hasSearchResults (s : searching) : bool :=
  match se_mode s with
  | LargeSearch => 0 <=? se_currentOffset s
  | _ => (0 <? length (se_matches s))%nat
  end.

(** The two loops of [findAdjacentBoundedMatchIndex]. *)
Fixpoint first_index (f : Z -> bool) (index : Z) (l : list Z) : option Z :=
  match l with
  | [] => None
  | m :: l => if f m then Some index else first_index f (index + 1) l
  end.
Fixpoint last_index (f : Z -> bool) (index : Z) (l : list Z) : option Z :=
  match l with
  | [] => None
  | m :: l => match last_index f (index + 1) l with Some i => Some i | None => if f m then Some index else None end
  end.

Definition findAdjacentBoundedMatchIndex (anchorOffset : Z) (direction : InsertDirection) (matches : list Z) : Z :=
  if (length matches =? 0)%nat then -1
  else match direction with
    | Forward => default 0 (first_index (fun m => anchorOffset <? m) 0 matches)
    | Backward => default (Z.of_nat (length matches) - 1) (last_index (fun m => m <? anchorOffset) 0 matches)
    end.

(** ** Changing the query *)

Definition setSearchQuery (query : jsstring) (p : panel) : panel :=
  let p := with_query query (p_hex p) (p_caseInsensitive p) p in
  let '(p, normalized) := normalizeSearchQuery p in
  let p :=
    if (slen (trim query) =? 0) || negb (bool_decide (is_Some normalized)) then clearSearchResults p
    else match se_mode (results p) with NoSearch => p | _ => clearSearchResults p end in
  with_timer (bool_decide (is_Some normalized)) p.

Definition setSearchHex (enabled : bool) (p : panel) : panel :=
  with_timer false (clearSearchResults
    (with_query (p_query p) enabled (if enabled then false else p_caseInsensitive p) p)).

Definition setSearchCaseSensitive (enabled : bool) (p : panel) : panel :=
  with_timer false (clearSearchResults (with_query (p_query p) (p_hex p) (negb enabled) p)).

Definition closeSearchPanel (p : panel) : panel := clearSearchResults (with_timer false p).

(** ** Searching *)

Definition runSearch (direction : option InsertDirection) : step := fun p =>
  match normalizeSearchQuery p with
  | (p, None) => (clearSearchResults p, [])
  | (p, Some normalized) =>
      let isReverse := match direction with
        | Some Backward => true | Some Forward => false | None => p_reverse p end in
      let p := with_reverse isReverse p in
      let p := with_results (with_length (getSearchPatternByteLength normalized) (results p)) p in
      (p, [Search (terms_of p normalized) isReverse])
  end.

(** The timer of [setSearchQuery]. *)
Definition on_timer : step := fun p => if p_timer p then runSearch None (with_timer false p) else (p, []).

Definition selectSearchMatch (offset : Z) : step := fun p =>
  if 0 <=? offset then edits (selectRange offset (se_patternLength (results p))) p else (p, []).

Definition navigateSearch (direction : InsertDirection) : step := fun p =>
  let s := results p in
  if negb (hasSearchResults s) || (se_patternLength s <=? 0) then runSearch (Some direction) p
  else
    let anchor := if 0 <=? u_selectedOffset (p_ui p) then u_selectedOffset (p_ui p) else getCurrentSearchOffset s in
    match se_mode s with
    | LargeSearch =>
        match normalizeSearchQuery p with
        | (p, None) => (clearSearchResults p, [])
        | (p, Some normalized) => (p, [FindAdjacentMatch (terms_of p normalized) direction (Z.max 0 anchor)])
        end
    | _ =>
        let nextIndex := findAdjacentBoundedMatchIndex anchor direction (se_matches s) in
        match match_at nextIndex (se_matches s) with
        | None => (p, [])
        | Some matchOffset =>
            if negb (isVisibleRange matchOffset (se_patternLength s) (p_ui p))
            then (with_reveal (Some (RevealBounded nextIndex)) p, [GoToMatch matchOffset])
            else
              (selectSearchMatch matchOffset >>> says (GoToMatch matchOffset)) (with_results (with_index nextIndex s) p)
        end
    end.

(** ** Replacing *)

Definition replaceCurrentMatch : step := fun p =>
  if u_transformInFlight (p_ui p) then (p, [])
  else
    let currentOffset := getCurrentSearchOffset (results p) in
    let '(p, replacement) := normalizeReplacementHex p in
    match replacement with
    | None => (p, [])
    | Some data =>
        if (currentOffset <? 0) || (se_patternLength (results p) <=? 0) then (p, [])
        else (p, [Replace currentOffset (se_patternLength (results p)) data])
    end.

Definition replaceAllMatches : step := fun p =>
  if u_transformInFlight (p_ui p) then (p, [])
  else
    let '(p, normalizedQuery) := normalizeSearchQuery p in
    let '(p, replacement) := normalizeReplacementHex p in
    match normalizedQuery, replacement with
    | Some query, Some data =>
        if negb (hasSearchResults (results p)) || (se_patternLength (results p) <=? 0) then (p, [])
        else
          let p := with_ui (with_transform true (p_ui p)) p in
          (p, [ReplaceAllMatches (terms_of p query) (p_reverse p) (se_patternLength (results p)) data])
    | _, _ => (p, [])
    end.

(** [filter((_, index) => index !== searchMatchIndex)] *)
Fixpoint without_index (i : Z) (index : Z) (l : list Z) : list Z :=
  match l with
  | [] => []
  | m :: l => if index =? i then without_index i (index + 1) l else m :: without_index i (index + 1) l
  end.

Definition shift_matches (replacedOffset offsetDelta : Z) (l : list Z) : list Z :=
  if offsetDelta =? 0 then l
  else map (fun m => if replacedOffset <? m then m + offsetDelta else m) l.

Definition applySingleReplaceToSearchMatches (replacedOffset offsetDelta : Z) (p : panel)
  : panel * list WebviewToHostMessage * Z :=
  let s := results p in
  if (length (se_matches s) =? 0)%nat || (se_matchIndex s <? 0) then (clearSearchResults p, [], -1)
  else
    let rest := without_index (se_matchIndex s) 0 (se_matches s) in
    if (length rest =? 0)%nat then (clearSearchResults p, [], -1)
    else
      let index := if Z.of_nat (length rest) <=? se_matchIndex s then Z.of_nat (length rest) - 1 else se_matchIndex s in
      let matches := shift_matches replacedOffset offsetDelta rest in
      let nextMatchOffset := default (-1) (match_at index matches) in
      let s := mkSearching (se_mode s) matches index (se_currentOffset s) (se_patternLength s) (se_viewportMatches s) in
      let '(p, l) := (selectSearchMatch nextMatchOffset >>> says (GoToMatch nextMatchOffset)) (with_results s p) in
      (p, l, nextMatchOffset).

(** ** Answers of the host *)

(** [message.patternLength || searchPatternLength] *)
Definition or_else (a b : Z) : Z := if a =? 0 then b else a.

Definition searchResultsOffset (message : EditorSearchResults) : Z :=
  match sr_mode message with
  | large => sr_currentOffset message
  | bounded => default (-1) (sr_matches message !! 0%nat)
  end.

Definition applySearchResults (message : EditorSearchResults) : step := fun p =>
  let s := results p in
  let len := or_else (sr_patternLength message) (se_patternLength s) in
  let p := with_limit (or_else (sr_windowLimit message) (p_windowLimit p)) p in
  match sr_mode message with
  | large =>
      selectSearchMatch (sr_currentOffset message)
        (with_results (mkSearching LargeSearch [] (-1) (sr_currentOffset message) len []) p)
  | bounded =>
      let matches := sr_matches message in
      let p := with_results (mkSearching BoundedSearch matches (if (0 <? length matches)%nat then 0 else -1) (-1) len
                 (se_viewportMatches s)) p in
      match matches with
      | [] => (p, [])
      | m :: _ => selectSearchMatch m p
      end
  end.

Definition handleSearchResults (message : EditorSearchResults) : step := fun p =>
  let resultOffset := searchResultsOffset message in
  let resultLength := or_else (sr_patternLength message) (se_patternLength (results p)) in
  if (0 <=? resultOffset) && negb (isVisibleRange resultOffset resultLength (p_ui p))
  then (with_reveal (Some (RevealResults message)) p, [])
  else applySearchResults message p.

(** A [Set]: in the order in which its members were added. *)
Definition set_add (l : list Z) (m : Z) : list Z := if existsb (Z.eqb m) l then l else l ++ [m].

Definition applySearchNavigationResult (message : SearchNavigationResult) : step := fun p =>
  let s := results p in
  let viewport := match nr_viewportMatches message with
    | Some ms => foldl set_add (se_viewportMatches s) ms
    | None => se_viewportMatches s
    end in
  selectSearchMatch (nr_offset message)
    (with_results (mkSearching LargeSearch [] (-1) (nr_offset message)
       (or_else (nr_patternLength message) (se_patternLength s)) viewport) p).

Definition handleSearchNavigationResult (message : SearchNavigationResult) : step := fun p =>
  if nr_offset message <? 0 then (p, [])
  else
    let resultLength := or_else (nr_patternLength message) (se_patternLength (results p)) in
    if negb (isVisibleRange (nr_offset message) resultLength (p_ui p))
    then (with_reveal (Some (RevealNavigation message)) p, [])
    else applySearchNavigationResult message p.

Definition applyPendingSearchReveal : step := fun p =>
  match p_pending p with
  | None => (p, [])
  | Some (RevealResults message) =>
      let resultOffset := searchResultsOffset message in
      let resultLength := or_else (sr_patternLength message) (se_patternLength (results p)) in
      if (resultOffset <? 0) || isVisibleRange resultOffset resultLength (p_ui p)
      then applySearchResults message (with_reveal None p) else (p, [])
  | Some (RevealNavigation message) =>
      let resultLength := or_else (nr_patternLength message) (se_patternLength (results p)) in
      if isVisibleRange (nr_offset message) resultLength (p_ui p)
      then applySearchNavigationResult message (with_reveal None p) else (p, [])
  | Some (RevealBounded index) =>
      match match_at index (se_matches (results p)) with
      | None => (p, [])
      | Some matchOffset =>
          if isVisibleRange matchOffset (se_patternLength (results p)) (p_ui p)
          then selectSearchMatch matchOffset (with_results (with_index index (results p)) (with_reveal None p))
          else (p, [])
      end
  end.

Inductive host_message :=
  | HostViewportData (size offset visibleOffset : Z) (data : list Z)
  | HostFileSizeChanged (size : Z)
  | HostDocumentReverted
  | HostSearchStateCleared
  | HostSearchResults (message : EditorSearchResults)
  | HostSearchNavigationResult (message : SearchNavigationResult)
  | HostViewportMatches (matches : list Z) (patternLength : Z)
  | HostSearchNavigationCommand (direction : InsertDirection)
  | HostReplaceComplete (single : bool) (replacedOffset offsetDelta : option Z) (selectionOffset replacedCount : Z).

(** The end of a replacement: the selection goes to the next match, or to the
    place of the replacement when there is none. *)
Definition on_replaceComplete (single : bool) (replacedOffset offsetDelta : option Z)
  (selectionOffset replacedCount : Z) : step := fun p =>
  let p := with_ui (with_transform false (p_ui p)) p in
  let '(p, l, nextMatchOffset) :=
    if single then
      match replacedOffset with
      | Some replacedOffset =>
          if negb (0 <? replacedCount) then (p, [], -1)
          else match se_mode (results p) with
            | LargeSearch =>
                let '(p, l) := navigateSearch (if p_reverse p then Backward else Forward)
                  (with_results (with_current_match selectionOffset (results p)) p) in (p, l, -1)
            | _ => applySingleReplaceToSearchMatches replacedOffset (default 0 offsetDelta) p
            end
      | None => (p, [], -1)
      end
    else (clearSearchResults p, [], -1) in
  if (nextMatchOffset <? 0) && (0 <=? selectionOffset)
  then let '(p, k) := edits (selectOffset selectionOffset false) p in (p, l ++ k)
  else (p, l).

Definition on_host_message (m : host_message) : step := fun p =>
  match m with
  | HostViewportData size offset visibleOffset data =>
      (applyPendingSearchReveal >>> requestViewportSearchMatches)
        (with_ui (on_viewportData size offset visibleOffset data (p_ui p)) p)
  | HostFileSizeChanged size =>
      let p := with_ui (on_fileSizeChanged size (p_ui p)) p in
      (if size <=? 0 then clearSearchResults p else p, [])
  | HostDocumentReverted => (with_reveal None (with_ui (applyDocumentReverted (p_ui p)) p), [])
  | HostSearchStateCleared => (clearSearchResults p, [])
  | HostSearchResults message => handleSearchResults message p
  | HostSearchNavigationResult message => handleSearchNavigationResult message p
  | HostViewportMatches matches patternLength =>
      let s := results p in
      match se_mode s with
      | LargeSearch =>
          if 0 <? patternLength
          then (with_results (mkSearching (se_mode s) (se_matches s) (se_matchIndex s) (se_currentOffset s) patternLength
                  (foldl set_add (se_viewportMatches s) matches)) p, [])
          else (p, [])
      | _ => (p, [])
      end
  | HostSearchNavigationCommand direction => navigateSearch direction p
  | HostReplaceComplete single replacedOffset offsetDelta selectionOffset replacedCount =>
      on_replaceComplete single replacedOffset offsetDelta selectionOffset replacedCount p
  end.
End Encoding.

(** ** Lemmas

    *** The nearest match *)

(** What the loop has found is the first of the nearest among what it has
    seen. *)
Lemma nearest_loop offset pick l : forall seen best bestDist,
  (forall m, m ∈ seen -> match bestDist with Some d => d <= Z.abs (m - offset) | None => False end) ->
  (match bestDist with
   | Some d => exists i m, seen !! i = Some m /\ Z.abs (m - offset) = d /\ best = pick (Z.of_nat i) m /\
       forall j m', seen !! j = Some m' -> (j < i)%nat -> d < Z.abs (m' - offset)
   | None => seen = [] /\ best = -1 end) ->
  match l, seen with
  | [], [] => nearest_match offset best bestDist (Z.of_nat (length seen)) pick l = -1
  | _, _ => exists i m, (seen ++ l) !! i = Some m /\
      nearest_match offset best bestDist (Z.of_nat (length seen)) pick l = pick (Z.of_nat i) m /\
      (forall m', m' ∈ seen ++ l -> Z.abs (m - offset) <= Z.abs (m' - offset)) /\
      forall j m', (seen ++ l) !! j = Some m' -> (j < i)%nat -> Z.abs (m - offset) < Z.abs (m' - offset)
  end.
Proof.
  induction l as [|a l IH]; intros seen best bestDist Hmin Hbest.
  - destruct seen as [|s seen]; [by destruct bestDist as [d|]; [destruct Hbest as (i & m & Hi & _); destruct i|destruct Hbest]|].
    rewrite app_nil_r. cbn [nearest_match]. destruct bestDist as [d|]; [|destruct Hbest; done].
    destruct Hbest as (i & m & Hi & Hd & -> & Hf). exists i, m. split; [done|]. split; [done|]. rewrite Hd.
    split; [exact Hmin|exact Hf].
  - cbn [nearest_match]. replace (seen ++ a :: l) with ((seen ++ [a]) ++ l) by by rewrite <- app_assoc.
    replace (Z.of_nat (length seen) + 1) with (Z.of_nat (length (seen ++ [a]))) by (rewrite length_app; cbn; lia).
    assert (Hlast : (seen ++ [a]) !! length seen = Some a).
    { rewrite lookup_app_r by lia. by rewrite Nat.sub_diag. }
    set (closer := match bestDist with Some d => Z.abs (a - offset) <? d | None => true end).
    assert (Hgoal : exists best' d', (if closer then nearest_match offset (pick (Z.of_nat (length seen)) a) (Some (Z.abs (a - offset))) (Z.of_nat (length (seen ++ [a]))) pick l
       else nearest_match offset best bestDist (Z.of_nat (length (seen ++ [a]))) pick l) =
       nearest_match offset best' (Some d') (Z.of_nat (length (seen ++ [a]))) pick l /\
       (forall m, m ∈ seen ++ [a] -> d' <= Z.abs (m - offset)) /\
       exists i m, (seen ++ [a]) !! i = Some m /\ Z.abs (m - offset) = d' /\ best' = pick (Z.of_nat i) m /\
         forall j m', (seen ++ [a]) !! j = Some m' -> (j < i)%nat -> d' < Z.abs (m' - offset)).
    { destruct closer eqn:Ec; unfold closer in Ec.
      - eexists _, _. split; [reflexivity|]. split.
        + intros m Hm. apply elem_of_app in Hm as [Hm|Hm]; [|apply list_elem_of_singleton in Hm as ->; lia].
          specialize (Hmin m Hm). destruct bestDist; [bool_prop; lia|done].
        + exists (length seen), a. split; [done|]. split; [done|]. split; [done|]. intros j m' Hj Hlt.
          rewrite lookup_app_l in Hj by done. apply list_elem_of_lookup_2 in Hj. specialize (Hmin m' Hj).
          destruct bestDist; [bool_prop; lia|done].
      - destruct bestDist as [d|]; [|done]. bool_prop. eexists _, _. split; [reflexivity|]. split.
        + intros m Hm. apply elem_of_app in Hm as [Hm|Hm]; [by apply Hmin|]. apply list_elem_of_singleton in Hm as ->. lia.
        + destruct Hbest as (i & m & Hi & Hd & Hb & Hf). exists i, m.
          pose proof (lookup_lt_Some _ _ _ Hi). split; [by rewrite lookup_app_l|]. split; [done|]. split; [done|].
          intros j m' Hj Hlt. rewrite lookup_app_l in Hj by lia. by apply (Hf j). }
    destruct Hgoal as (best' & d' & -> & H1 & H2). specialize (IH (seen ++ [a]) best' (Some d') H1 H2).
    destruct l, (seen ++ [a]) eqn:E; try exact IH. by destruct seen.
Qed.

(** *** The list of matches *)

Lemma lookup_match i l m : match_at i l = Some m <-> 0 <= i /\ l !! Z.to_nat i = Some m.
Proof. unfold match_at. case_match; bool_prop; [split; [done|lia]|split; [by split|by intros [_ ?]]]. Qed.

Lemma first_index_skip f l1 : forall k l2, Forall (fun m => f m = false) l1 ->
  first_index f k (l1 ++ l2) = first_index f (k + Z.of_nat (length l1)) l2.
Proof.
  induction l1 as [|m l1 IH]; intros k l2 Hf; [cbn; f_equal; lia|]. apply Forall_cons in Hf as [Hm Hf].
  cbn [app first_index length]. rewrite Hm, IH by done. f_equal. lia.
Qed.

Lemma last_index_drop f l2 : Forall (fun m => f m = false) l2 -> forall k, last_index f k l2 = None.
Proof. induction 1 as [|m l Hm _ IH]; intros k; [done|]. cbn [last_index]. by rewrite IH, Hm. Qed.

Lemma last_index_skip f l1 : forall k l2 m, Forall (fun m => f m = false) l2 -> f m = true ->
  last_index f k (l1 ++ m :: l2) = Some (k + Z.of_nat (length l1)).
Proof.
  induction l1 as [|a l1 IH]; intros k l2 m Hf Hm.
  - cbn [app last_index length]. rewrite last_index_drop by done. rewrite Hm. f_equal. cbn. lia.
  - cbn [app last_index length]. rewrite (IH (k + 1) l2 m Hf Hm). f_equal. lia.
Qed.

(** In a sorted list the matches before one are smaller and those behind it
    are greater. *)
Lemma sorted_split l i m : StronglySorted Z.lt l -> l !! i = Some m ->
  l = take i l ++ m :: drop (S i) l /\ Forall (fun x => x < m) (take i l) /\ Forall (fun x => m < x) (drop (S i) l).
Proof.
  intros Hs Hi. pose proof (take_drop_middle l i m Hi) as Hl. split; [by symmetry|]. rewrite <- Hl in Hs.
  split; [|by apply StronglySorted_app_1_r, StronglySorted_cons in Hs as [? _]].
  apply Forall_forall. intros x Hx. eapply (StronglySorted_app_1_elem_of Z.lt); [exact Hs|done|by left].
Qed.

(** The index that follows the selection is that of the first of the nearest
    matches. *)
Lemma nearest_bounded offset s : se_matches s <> [] ->
  exists i m, findNearestBoundedMatch offset s = Z.of_nat i /\ se_matches s !! i = Some m /\
    (forall m', m' ∈ se_matches s -> Z.abs (m - offset) <= Z.abs (m' - offset)) /\
    forall j m', se_matches s !! j = Some m' -> (j < i)%nat -> Z.abs (m - offset) < Z.abs (m' - offset).
Proof.
  intros Hn. unfold findNearestBoundedMatch.
  pose proof (nearest_loop offset (fun i _ => i) (se_matches s) [] (-1) None) as Hl.
  destruct (se_matches s) as [|a l] eqn:E; [done|].
  destruct Hl as (i & m & Hi & Hr & Hd & Hf); [by intros m Hm; apply not_elem_of_nil in Hm|done|].
  exists i, m. cbn [app length] in *. done.
Qed.

Lemma mod_next (i n : nat) : (i < n)%nat ->
  (Z.of_nat i + 1) mod Z.of_nat n = if (S i =? n)%nat then 0 else Z.of_nat i + 1.
Proof.
  intros Hi. destruct (Nat.eqb_spec (S i) n) as [<-|Hn].
  - replace (Z.of_nat i + 1) with (Z.of_nat (S i)) by lia. by rewrite Z.mod_same by lia.
  - apply Z.mod_small. lia.
Qed.

Lemma mod_previous (i n : nat) : (i < n)%nat ->
  (Z.of_nat i - 1) mod Z.of_nat n = if (i =? 0)%nat then Z.of_nat n - 1 else Z.of_nat i - 1.
Proof.
  intros Hi. destruct (Nat.eqb_spec i 0) as [->|Hn].
  - replace (Z.of_nat 0 - 1) with (Z.of_nat n - 1 + (-1) * Z.of_nat n) by lia. rewrite Z.mod_add by lia.
    apply Z.mod_small. lia.
  - apply Z.mod_small. lia.
Qed.

(** The next index, around the list. *)
Definition neighbour (direction : InsertDirection) (i : nat) (n : nat) : Z :=
  (Z.of_nat i + match direction with Forward => 1 | Backward => -1 end) mod Z.of_nat n.

Lemma neighbour_range direction i n : (i < n)%nat -> 0 <= neighbour direction i n < Z.of_nat n.
Proof. intros Hi. apply Z.mod_pos_bound. lia. Qed.

Lemma adjacent_index direction l i m : StronglySorted Z.lt l -> l !! i = Some m ->
  findAdjacentBoundedMatchIndex m direction l = neighbour direction i (length l).
Proof.
  intros Hs Hi. pose proof (lookup_lt_Some _ _ _ Hi) as Hlt. destruct (sorted_split l i m Hs Hi) as (Hl & Hb & Ha).
  unfold findAdjacentBoundedMatchIndex. rewrite (proj2 (Nat.eqb_neq _ _)) by lia.
  assert (Htake : length (take i l) = i) by (rewrite length_take; lia).
  unfold neighbour. destruct direction.
  - rewrite mod_next by done. rewrite Hl at 1. replace (take i l ++ m :: drop (S i) l) with ((take i l ++ [m]) ++ drop (S i) l)
      by by rewrite <- app_assoc.
    rewrite first_index_skip.
    2: { apply Forall_app. split; [|by apply Forall_singleton; lia]. eapply Forall_impl; [exact Hb|]. cbn. intros; lia. }
    rewrite length_app, Htake. cbn [length].
    destruct (drop (S i) l) as [|a rest] eqn:Ed.
    + assert (length (drop (S i) l) = 0%nat) as H0 by by rewrite Ed. rewrite length_drop in H0.
      rewrite (proj2 (Nat.eqb_eq _ _)) by lia. done.
    + assert (length (drop (S i) l) = S (length rest)) as H0 by by rewrite Ed. rewrite length_drop in H0.
      rewrite (proj2 (Nat.eqb_neq _ _)) by lia. apply Forall_cons in Ha as [Ha _]. cbn [first_index default].
      rewrite (proj2 (Z.ltb_lt _ _)) by done. cbn. lia.
  - replace (Z.of_nat i + -1) with (Z.of_nat i - 1) by lia. rewrite mod_previous by done. rewrite Hl at 2.
    assert (Hnot : Forall (fun x => (x <? m) = false) (m :: drop (S i) l)).
    { apply Forall_cons. split; [lia|]. eapply Forall_impl; [exact Ha|]. cbn. intros; lia. }
    destruct i as [|i]; cbn [Nat.eqb].
    + cbn [take app]. by rewrite last_index_drop by done.
    + destruct (lookup_lt_is_Some_2 l i ltac:(lia)) as [b Hbi].
      rewrite (take_S_r l i b Hbi), <- app_assoc. cbn [app].
      rewrite (take_S_r l i b Hbi), Forall_app, Forall_singleton in Hb.
      rewrite last_index_skip; [|done|lia]. cbn [default from_option]. rewrite length_take. unfold id. lia.
Qed.

(** *** What a selection of a match shows *)

Definition match_in_file (len size m : Z) : Prop := 0 <= m /\ m + len <= size.

(** The match of index [i] is the current one and is selected. *)
Definition shows (p : panel) (i : Z) : Prop :=
  se_matchIndex (results p) = i /\ exists m, match_at i (se_matches (results p)) = Some m /\
    u_selectedOffset (p_ui p) = m /\ selectionStart (p_ui p) = m /\
    selectionLength (p_ui p) = se_patternLength (results p).

Lemma request_keeps offset u : exists v p l, requestVisibleOffset offset u = (with_view v p u, l).
Proof.
  unfold requestVisibleOffset. case_match; [|by eexists _, _, _].
  exists (u_visibleOffset u), (u_pendingVisibleOffset u), []. by destruct u.
Qed.

Lemma select_range_shows m len u : 0 < len -> match_in_file len (u_fileSize u) m ->
  let u' := (selectRange m len u).1 in
  u_search u' = u_search u /\ u_fileSize u' = u_fileSize u /\ u_selectedOffset u' = m /\ selectionStart u' = m /\
  selectionLength u' = len.
Proof.
  intros Hlen [H0 Hm]. cbv zeta. unfold selectRange.
  assert (Hc : forall x, 0 <= x < u_fileSize u -> clampOffset x u = x).
  { intros x Hx. unfold clampOffset. case_match; bool_prop; lia. }
  rewrite (Hc m) by lia. rewrite (proj2 (Z.ltb_ge _ _)) by lia. cbv zeta.
  rewrite (Z.max_r 1 len) by lia. rewrite (Hc (m + len - 1)) by lia. rewrite (Z.max_r m) by lia.
  match goal with |- context [requestVisibleOffset ?o ?v] => destruct (request_keeps o v) as (a & b & l & ->) end.
  assert (Hshow : forall a b, let w := with_view a b (with_nibble None (with_selection (m + len - 1) m u)) in
    u_selectedOffset w = m /\ selectionStart w = m /\ selectionLength w = len).
  { intros a' b'. cbv zeta. unfold selectionLength, selectionStart, selectionEnd. cbn.
    rewrite !(proj2 (Z.leb_le _ _)) by lia. cbn [andb]. rewrite !(proj2 (Z.leb_le _ _)) by lia. cbn [andb]. lia. }
  case_match; cbn [fst]; [split; [done|]; split; [done|]; apply (Hshow a b)|].
  split; [done|]. split; [done|]. exact (Hshow (u_visibleOffset u) (u_pendingVisibleOffset u)).
Qed.

Lemma select_match m p : 0 < se_patternLength (results p) ->
  match_in_file (se_patternLength (results p)) (u_fileSize (p_ui p)) m ->
  exists u l, selectSearchMatch m p = (with_ui u p, l) /\ u_search u = results p /\ u_fileSize u = u_fileSize (p_ui p) /\
    u_selectedOffset u = m /\ selectionStart u = m /\ selectionLength u = se_patternLength (results p).
Proof.
  intros Hl Hm. unfold selectSearchMatch. rewrite (proj2 (Z.leb_le _ _)) by apply Hm. unfold edits.
  pose proof (select_range_shows m _ (p_ui p) Hl Hm) as Hs. cbv zeta in Hs.
  destruct (selectRange m (se_patternLength (results p)) (p_ui p)) as [u l]. by exists u, l.
Qed.

Lemma navigate_known encoding direction p i m : se_mode (results p) = BoundedSearch -> 0 < se_patternLength (results p) ->
  StronglySorted Z.lt (se_matches (results p)) -> se_matches (results p) !! i = Some m ->
  u_selectedOffset (p_ui p) = m -> 0 <= m ->
  exists m', se_matches (results p) !! Z.to_nat (neighbour direction i (length (se_matches (results p)))) = Some m' /\
    let j := neighbour direction i (length (se_matches (results p))) in
    navigateSearch encoding direction p =
      if negb (isVisibleRange m' (se_patternLength (results p)) (p_ui p))
      then (with_reveal (Some (RevealBounded j)) p, [GoToMatch m'])
      else (selectSearchMatch m' >>> says (GoToMatch m')) (with_results (with_index j (results p)) p).
Proof.
  intros Hm Hl Hs Hi Hsel H0. pose proof (lookup_lt_Some _ _ _ Hi) as Hlt.
  pose proof (neighbour_range direction i _ Hlt) as Hj. set (j := neighbour direction i (length (se_matches (results p)))) in *.
  destruct (lookup_lt_is_Some_2 (se_matches (results p)) (Z.to_nat j) ltac:(lia)) as [m' Hm'].
  exists m'. split; [done|]. unfold navigateSearch, hasSearchResults. rewrite Hm.
  rewrite (proj2 (Nat.ltb_lt 0 _)), (proj2 (Z.leb_gt _ _)) by lia. cbn [negb orb]. rewrite Hsel, (proj2 (Z.leb_le 0 m)) by done.
  rewrite (adjacent_index direction _ i m Hs Hi). fold j. by rewrite (proj2 (lookup_match j _ m')) by (split; [lia|done]).
Qed.

(** *** Replacing a match *)

Lemma without_index_at i l : forall k, 0 <= i - k ->
  without_index i k l = take (Z.to_nat (i - k)) l ++ drop (S (Z.to_nat (i - k))) l.
Proof.
  induction l as [|m l IH]; intros k Hk; [by rewrite take_nil, drop_nil|]. cbn [without_index].
  destruct (Z.eqb_spec k i) as [->|Hn].
  - rewrite Z.sub_diag. cbn [Z.to_nat take drop app]. destruct l as [|a l]; [done|].
    assert (Hlater : forall l k, i < k -> without_index i k l = l).
    { clear. induction l as [|a l IH]; intros k Hk; [done|]. cbn [without_index]. rewrite (proj2 (Z.eqb_neq _ _)) by lia.
      by rewrite IH by lia. }
    apply Hlater. lia.
  - rewrite IH by lia. replace (Z.to_nat (i - k)) with (S (Z.to_nat (i - (k + 1)))) by lia. done.
Qed.

Lemma shift_sorted r d l1 l2 : Forall (fun x => x < r) l1 -> Forall (fun x => r < x) l2 ->
  shift_matches r d (l1 ++ l2) = l1 ++ map (fun m => m + d) l2.
Proof.
  intros H1 H2. unfold shift_matches.
  assert (Hl : map (fun m => if r <? m then m + d else m) l1 = l1).
  { rewrite <- (map_id l1) at 2. apply map_ext_in. intros x Hx. apply list_elem_of_In in Hx. rewrite Forall_forall in H1.
    specialize (H1 x Hx). by rewrite (proj2 (Z.ltb_ge _ _)) by lia. }
  assert (Hr : map (fun m => if r <? m then m + d else m) l2 = map (fun m => m + d) l2).
  { apply map_ext_in. intros x Hx. apply list_elem_of_In in Hx. rewrite Forall_forall in H2.
    specialize (H2 x Hx). by rewrite (proj2 (Z.ltb_lt _ _)) by lia. }
  destruct (Z.eqb_spec d 0) as [->|Hd]; [|by rewrite map_app, Hl, Hr].
  f_equal. rewrite <- (map_id l2) at 1. apply map_ext. intros; lia.
Qed.

(** [pattern] stands at [m]. *)
Definition occurs (pattern doc : list Z) (m : Z) : Prop :=
  0 <= m /\ take (length pattern) (drop (Z.to_nat m) doc) = pattern.

Lemma occurs_in_file pattern doc m : pattern <> [] -> occurs pattern doc m ->
  m + Z.of_nat (length pattern) <= Z.of_nat (length doc).
Proof.
  intros Hp [H0 Ht]. assert (H : length (take (length pattern) (drop (Z.to_nat m) doc)) = length pattern) by by rewrite Ht.
  rewrite length_take, length_drop in H. destruct pattern; [done|]. cbn [length] in *. lia.
Qed.

(** The file after [data] has replaced [len] bytes. *)
Definition replaced (r len : Z) (data doc : list Z) : list Z :=
  apply_insert r data (apply_delete r len doc).

Lemma replaced_parts r len data doc : 0 <= r -> 0 <= len -> r + len <= Z.of_nat (length doc) ->
  replaced r len data doc = take (Z.to_nat r) doc ++ data ++ drop (Z.to_nat (r + len)) doc.
Proof.
  intros Hr Hl Hs. unfold replaced, apply_insert, apply_delete.
  assert (Ht : length (take (Z.to_nat r) doc) = Z.to_nat r) by (rewrite length_take; lia).
  rewrite take_app_length', drop_app_length' by done. replace (Z.to_nat (r + len)) with (Z.to_nat r + Z.to_nat len)%nat by lia. done.
Qed.

Lemma occurs_before pattern doc r len data m : 0 <= len -> r + len <= Z.of_nat (length doc) ->
  occurs pattern doc m -> m + Z.of_nat (length pattern) <= r -> occurs pattern (replaced r len data doc) m.
Proof.
  intros Hl Hs [H0 Ht] Hm. split; [done|]. rewrite replaced_parts by lia.
  rewrite drop_app_le by (rewrite length_take; lia). rewrite take_app_le by (rewrite length_drop, length_take; lia).
  rewrite skipn_firstn_comm, take_take. by rewrite Nat.min_l by lia.
Qed.

Lemma occurs_after pattern doc r len data m : 0 <= r -> 0 <= len -> r + len <= Z.of_nat (length doc) ->
  occurs pattern doc m -> r + len <= m -> occurs pattern (replaced r len data doc) (m + (Z.of_nat (length data) - len)).
Proof.
  intros Hr Hl Hs [H0 Ht] Hm. split; [lia|]. rewrite replaced_parts by lia.
  rewrite drop_app_ge by (rewrite length_take; lia). rewrite length_take, Nat.min_l by lia.
  rewrite drop_app_ge by lia. rewrite drop_drop. 
  replace (Z.to_nat (r + len) + _)%nat with (Z.to_nat m) by lia. done.
Qed.

(** Matches that do not reach into one another. *)
Definition apart (len : Z) (l : list Z) : Prop := StronglySorted (fun a b => a + len <= b) l.

Lemma apart_sorted len l : 0 < len -> apart len l -> StronglySorted Z.lt l.
Proof.
  intros Hl. unfold apart. induction 1 as [|a l _ IH Ha]; constructor; [done|]. eapply Forall_impl; [exact Ha|]. cbn. lia.
Qed.

Lemma apart_split len l i r : apart len l -> l !! i = Some r ->
  Forall (fun m => m + len <= r) (take i l) /\ Forall (fun m => r + len <= m) (drop (S i) l).
Proof.
  unfold apart. intros Hs Hi. rewrite <- (take_drop_middle l i r Hi) in Hs. split.
  - apply Forall_forall. intros x Hx. eapply (StronglySorted_app_1_elem_of (fun a b => a + len <= b)); [exact Hs|done|by left].
  - by apply StronglySorted_app_1_r, StronglySorted_cons in Hs as [? _].
Qed.

(** The matches that are left, where they are after the replacement. *)
Definition left_matches (i : nat) (delta : Z) (l : list Z) : list Z :=
  take i l ++ map (fun m => m + delta) (drop (S i) l).

Lemma left_matches_occur pattern doc data i l r : pattern <> [] -> apart (Z.of_nat (length pattern)) l ->
  Forall (occurs pattern doc) l -> l !! i = Some r ->
  Forall (occurs pattern (replaced r (Z.of_nat (length pattern)) data doc))
    (left_matches i (Z.of_nat (length data) - Z.of_nat (length pattern)) l).
Proof.
  intros Hp Ha Ho Hi. destruct (apart_split _ l i r Ha Hi) as [Hb Hl].
  assert (Hr : occurs pattern doc r) by (rewrite Forall_forall in Ho; apply Ho; by apply list_elem_of_lookup_2 in Hi).
  pose proof (occurs_in_file pattern doc r Hp Hr) as Hfit. destruct Hr as [Hr0 _].
  rewrite <- (take_drop i l), Forall_app in Ho. destruct Ho as [Ho1 Ho2]. apply Forall_app. split.
  - rewrite Forall_forall in *. intros m Hm. apply occurs_before; [lia|done|by apply Ho1|by apply Hb].
  - apply Forall_map. rewrite (drop_S l r i Hi) in Ho2. apply Forall_cons in Ho2 as [_ Ho2].
    rewrite Forall_forall in *. intros m Hm. apply occurs_after; [done|lia|done|by apply Ho2|by apply Hl].
Qed.

Lemma without_current i l r delta len : 0 < len -> apart len l -> l !! i = Some r ->
  shift_matches r delta (without_index (Z.of_nat i) 0 l) = left_matches i delta l /\
  length (without_index (Z.of_nat i) 0 l) = (length l - 1)%nat.
Proof.
  intros Hlen Ha Hi. pose proof (lookup_lt_Some _ _ _ Hi). rewrite without_index_at by lia. rewrite Z.sub_0_r, Nat2Z.id.
  destruct (sorted_split l i r (apart_sorted len l Hlen Ha) Hi) as (_ & Hb & Hl). split; [by apply shift_sorted|].
  rewrite length_app, length_take, length_drop. lia.
Qed.

(** ** Properties *)

(** C21 When the matches of a bounded search are listed in ascending order and
    are in the file, the next and the previous match go through all of them in their order and
    around: from the match that is selected the command goes to its
    neighbour, tells the host to show it, and selects it when it is visible;
    when it is not, it is selected by the first message that makes it
    visible.  A backward search lists its matches in descending order; those
    are not followed ([backward_search_skips_matches]). *)
Theorem navigation_follows_order encoding direction p (i : nat) :
  se_mode (results p) = BoundedSearch -> 0 < se_patternLength (results p) ->
  StronglySorted Z.lt (se_matches (results p)) ->
  Forall (match_in_file (se_patternLength (results p)) (u_fileSize (p_ui p))) (se_matches (results p)) ->
  shows p (Z.of_nat i) ->
  let j := neighbour direction i (length (se_matches (results p))) in
  let '(p', l) := navigateSearch encoding direction p in
  exists m, match_at j (se_matches (results p)) = Some m /\ last l = Some (GoToMatch m) /\
    se_matches (results p') = se_matches (results p) /\
    if isVisibleRange m (se_patternLength (results p)) (p_ui p) then shows p' j
    else p_ui p' = p_ui p /\
      forall u, u_search u = results p -> u_fileSize u = u_fileSize (p_ui p) ->
        isVisibleRange m (se_patternLength (results p)) u = true ->
        let p'' := (applyPendingSearchReveal (with_ui u p')).1 in shows p'' j /\ p_pending p'' = None.
Proof.
  intros Hmode Hlen Hs Hf (Hidx & m & Hm & Hsel & _). cbv zeta. apply lookup_match in Hm as [_ Hm]. rewrite Nat2Z.id in Hm.
  assert (H0 : 0 <= m) by (rewrite Forall_forall in Hf; apply (Hf m); by apply list_elem_of_lookup_2 in Hm).
  destruct (navigate_known encoding direction p i m Hmode Hlen Hs Hm Hsel H0) as (m' & Hm' & ->).
  set (j := neighbour direction i (length (se_matches (results p)))) in *.
  assert (Hj : match_at j (se_matches (results p)) = Some m').
  { apply lookup_match. split; [|done]. apply (neighbour_range direction i). by eapply lookup_lt_Some. }
  assert (Hin : match_in_file (se_patternLength (results p)) (u_fileSize (p_ui p)) m')
    by (rewrite Forall_forall in Hf; apply Hf; by apply list_elem_of_lookup_2 in Hm').
  assert (Hshow : forall q, results q = with_index j (results p) -> u_fileSize (p_ui q) = u_fileSize (p_ui p) ->
    exists u l, selectSearchMatch m' q = (with_ui u q, l) /\ shows (with_ui u q) j /\ u_search u = with_index j (results p)).
  { intros q Hq Hsize. destruct (select_match m' q) as (u & l & -> & Hu & Hu1 & Hu2 & Hu3 & Hu4);
      [by rewrite Hq|rewrite Hq, Hsize; done|].
    exists u, l. split; [done|]. rewrite Hq in *. split; [|done].
    unfold shows, results. cbn [p_ui with_ui]. rewrite Hu. split; [done|]. exists m'. by repeat split. }
  destruct (isVisibleRange m' (se_patternLength (results p)) (p_ui p)) eqn:Ev; cbn [negb].
  - unfold next_. destruct (Hshow (with_results (with_index j (results p)) p) eq_refl eq_refl) as (u & l & -> & Hu & Hsu).
    cbn [says]. exists m'. split; [done|]. split; [by rewrite last_app|]. rewrite Ev. split; [|done].
    unfold results at 1. cbn [p_ui with_ui]. by rewrite Hsu.
  - exists m'. split; [done|]. split; [done|]. split; [done|]. rewrite Ev. split; [done|]. intros u Hu Hsize Hv. cbv zeta.
    set (q0 := with_ui u (with_reveal (Some (RevealBounded j)) p)).
    assert (Hq : results q0 = results p) by exact Hu.
    set (q := with_results (with_index j (results p)) (with_reveal None q0)).
    assert (Hap : applyPendingSearchReveal q0 = selectSearchMatch m' q).
    { unfold applyPendingSearchReveal. change (p_pending q0) with (Some (RevealBounded j)). cbv iota beta.
      change (p_ui q0) with u. by rewrite Hq, Hj, Hv. }
    rewrite Hap. destruct (Hshow q) as (u' & l & -> & Hu' & _); [done|done|]. by split.
Qed.

(** C20 Replacing the selected match of a bounded search, all of whose matches
    are places of the pattern in the file, leaves the others matches, when the
    matches are in ascending order and do not reach into one another ([apart]; overlapping
    ones are not kept right, as [overlapping_match_stale] shows): every match
    that is kept is a place where the pattern stands in the file after the
    replacement, none of the others is lost, and the one behind the replaced
    match (the last one, when there is none behind) is selected and shown; the
    last match ends the search. *)
Theorem replacement_keeps_matches p pattern data doc (i : nat) r :
  se_mode (results p) = BoundedSearch -> pattern <> [] ->
  se_patternLength (results p) = Z.of_nat (length pattern) ->
  apart (Z.of_nat (length pattern)) (se_matches (results p)) ->
  Forall (occurs pattern doc) (se_matches (results p)) ->
  se_matches (results p) !! i = Some r -> se_matchIndex (results p) = Z.of_nat i ->
  let doc' := replaced r (Z.of_nat (length pattern)) data doc in
  u_fileSize (p_ui p) = Z.of_nat (length doc') ->
  let delta := Z.of_nat (length data) - Z.of_nat (length pattern) in
  let '(p', l, next) := applySingleReplaceToSearchMatches r delta p in
  se_matches (results p') = left_matches i delta (se_matches (results p)) /\
  Forall (occurs pattern doc') (se_matches (results p')) /\
  if (length (se_matches (results p)) =? 1)%nat then results p' = no_search /\ l = [] /\ next = -1
  else shows p' (Z.of_nat (Nat.min i (length (se_matches (results p)) - 2))) /\ last l = Some (GoToMatch next) /\
    match_at (Z.of_nat (Nat.min i (length (se_matches (results p)) - 2))) (se_matches (results p')) = Some next.
Proof.
  intros Hmode Hp Hlen Ha Ho Hi Hidx. cbv zeta. intros Hsize.
  assert (Hpl : 0 < Z.of_nat (length pattern)) by (destruct pattern; [done|cbn; lia]).
  pose proof (lookup_lt_Some _ _ _ Hi) as Hlt. pose proof (left_matches_occur pattern doc data i _ r Hp Ha Ho Hi) as Hocc.
  set (delta := Z.of_nat (length data) - Z.of_nat (length pattern)) in *.
  destruct (without_current i _ r delta _ Hpl Ha Hi) as [Hshift Hrest].
  unfold applySingleReplaceToSearchMatches. rewrite Hidx, (proj2 (Nat.eqb_neq _ _)), (proj2 (Z.ltb_ge _ _)) by lia.
  cbn [orb]. rewrite Hrest. set (n := length (se_matches (results p))) in *.
  assert (Hll : length (left_matches i delta (se_matches (results p))) = (n - 1)%nat).
  { unfold left_matches. rewrite length_app, length_map, length_take, length_drop. lia. }
  destruct (Nat.eqb_spec n 1) as [Hn|Hn].
  { rewrite (proj2 (Nat.eqb_eq _ _)) by lia.
    assert (He : left_matches i delta (se_matches (results p)) = []) by (apply nil_length_inv; lia).
    rewrite He in *. by repeat split. }
  rewrite (proj2 (Nat.eqb_neq _ _)) by lia. rewrite Hshift. set (ms := left_matches i delta (se_matches (results p))) in *.
  set (k := Nat.min i (n - 2)).
  replace (if Z.of_nat (n - 1) <=? Z.of_nat i then _ else _) with (Z.of_nat k) by (unfold k; case_match; bool_prop; lia).
  destruct (lookup_lt_is_Some_2 ms k ltac:(lia)) as [m Hm].
  assert (Hk : match_at (Z.of_nat k) ms = Some m) by (apply lookup_match; rewrite Nat2Z.id; split; [lia|done]).
  rewrite Hk. cbn [default from_option id]. rewrite Forall_forall in Hocc.
  assert (Hom : occurs pattern (replaced r (Z.of_nat (length pattern)) data doc) m)
    by (apply Hocc; by apply list_elem_of_lookup_2 in Hm).
  pose proof (occurs_in_file _ _ _ Hp Hom).
  unfold next_. match goal with |- context [selectSearchMatch _ ?q] =>
    destruct (select_match m q) as (u & l & -> & Hu & _ & Hu2 & Hu3 & Hu4) end.
  { cbn. lia. }
  { cbn. rewrite Hlen, Hsize. split; [apply Hom|done]. }
  cbn [says]. unfold shows, results in *. cbn [p_ui with_ui with_results] in *. rewrite Hu. cbn.
  split; [done|]. split; [by apply Forall_forall|]. split; [|by rewrite last_app]. split; [done|]. by exists m.
Qed.

(** A match that is longer than what the window shows is never visible: its
    results wait for ever, whatever the host sends. *)
Lemma long_match_not_visible offset len u : visibleByteCapacity u < len -> isVisibleRange offset len u = false.
Proof.
  intros Hl. unfold isVisibleRange, visibleByteCount. apply andb_false_intro1.
  destruct (u_visibleOffset u <=? offset) eqn:E; [|done]. bool_prop. cbn [andb]. lia.
Qed.

Lemma long_match_waits p message : p_pending p = Some (RevealResults message) -> 0 <= searchResultsOffset message ->
  visibleByteCapacity (p_ui p) < or_else (sr_patternLength message) (se_patternLength (results p)) ->
  applyPendingSearchReveal p = (p, []).
Proof.
  intros Hp H0 Hl. unfold applyPendingSearchReveal. rewrite Hp. cbv zeta.
  by rewrite long_match_not_visible, (proj2 (Z.ltb_ge _ _)) by done.
Qed.

(** *** Concrete inputs *)

(** A file of 32 bytes with [ab] at 2, 9 and 20. *)
Definition sample_doc : list Z :=
  [0; 0; 97; 98; 0; 0; 0; 0; 0; 97; 98; 0; 0; 0; 0; 0; 0; 0; 0; 0; 97; 98; 0; 0; 0; 0; 0; 0; 0; 0; 0; 0].

Definition sample_panel : panel :=
  mkPanel (mkUi 32 0 0 sample_doc 16 16 None ModeInsert Forward PaneHex None 0 0 false no_search)
    (js "ab") false false false [] None 1000 false [].

(** The panel with the answer of the controller of the client. *)
Definition searched (reverse : bool) : panel :=
  match (search (S := bytes) (mkSearchRequest (js "ab") false None (Some reverse)) (new_controller None, sample_doc)).2 with
  | Ok r => (handleSearchResults r (with_reverse reverse sample_panel)).1
  | _ => sample_panel
  end.

(** After a search backwards the matches are in descending order, which the
    search for a neighbour does not expect: the previous match of the last
    one is the first one, and the next match of the first is the last. *)
Example backward_search_skips_matches :
  se_matches (results (searched true)) = [20; 9; 2] /\ u_selectedOffset (p_ui (searched true)) = 20 /\
  (navigateSearch ascii Backward (searched true)).2 = [GoToMatch 2] /\
  (navigateSearch ascii Forward (navigateSearch ascii Backward (searched true)).1).2 = [GoToMatch 20].
Proof. vm_compute. done. Qed.

(** With the caret behind the last byte the host drops the command. *)
Example adjacent_at_end_dropped :
  let u := with_search (mkSearching LargeSearch [] (-1) 20 2 []) (with_selection (-1) 32 (p_ui sample_panel)) in
  let l := (navigateSearch ascii Backward (with_ui u sample_panel)).2 in
  match l with
  | [FindAdjacentMatch _ Backward 32 as m] => normalizeWebviewMessage (H := no_json) (mkContext 32 None) (message_value m) = None
  | _ => False
  end.
Proof. vm_compute. done. Qed.

(** Matches that overlap are kept although the bytes have changed. *)
Example overlapping_match_stale :
  let s := mkSearching BoundedSearch [0; 1] 0 (-1) 2 [] in
  let p := with_results s (with_ui (mkUi 3 0 0 [98; 98; 97] 16 16 None ModeInsert Forward PaneHex None 1 0 false s) sample_panel) in
  let '(p', _, next) := applySingleReplaceToSearchMatches 0 0 p in
  occurs [97; 97] [97; 97; 97] 1 /\ se_matches (results p') = [1] /\ next = 1 /\
  replaced 0 2 [98; 98] [97; 97; 97] = [98; 98; 97] /\ ~ occurs [97; 97] [98; 98; 97] 1.
Proof. vm_compute. repeat split; try discriminate. intros [_ H]. discriminate. Qed.

Lemma sample_sorted : StronglySorted Z.lt [2; 9; 20] /\ apart 2 [2; 9; 20].
Proof. split; repeat constructor; lia. Qed.

(** The panel after a search forwards. *)
Definition found : panel := Eval vm_compute in searched false.

Example found_by_search : searched false = found.
Proof. vm_compute. reflexivity. Qed.

(** From the first of the three matches to the last, around. *)
Lemma navigation_follows_order_witness :
  shows (found) 0 /\
  let '(p', l) := navigateSearch ascii Backward (found) in last l = Some (GoToMatch 20) /\ shows p' 2.
Proof.
  assert (Hs : shows (found) 0) by (split; [vm_compute; reflexivity|exists 2; vm_compute; done]).
  split; [exact Hs|].
  pose proof (navigation_follows_order ascii Backward (found) 0 eq_refl ltac:(vm_compute; reflexivity) (proj1 sample_sorted)
    ltac:(repeat constructor; vm_compute; discriminate) Hs) as Hn. cbv zeta in Hn.
  destruct (navigateSearch ascii Backward (found)) as [p' l]. destruct Hn as (m & Hm & Hl & _ & Hv).
  vm_compute in Hm. injection Hm as <-. split; [exact Hl|exact Hv].
Defined.

(** The first match becomes three bytes: the others move by one. *)
Definition after_replace : panel :=
  with_ui (with_size 33 (p_ui (found))) (found).

Lemma replacement_keeps_matches_witness :
  let '(p', _, next) := applySingleReplaceToSearchMatches 2 1 after_replace in
  se_matches (results p') = [10; 21] /\ shows p' 0 /\ next = 10.
Proof.
  pose proof (replacement_keeps_matches after_replace [97; 98] [120; 121; 122] sample_doc 0 2 eq_refl ltac:(done)
    ltac:(vm_compute; reflexivity) (proj2 sample_sorted) ltac:(repeat constructor; vm_compute; discriminate)
    eq_refl ltac:(vm_compute; reflexivity)) as Hr.
  cbv zeta in Hr. specialize (Hr ltac:(vm_compute; reflexivity)).
  change (Z.of_nat (length [120; 121; 122]) - Z.of_nat (length [97; 98])) with 1 in Hr.
  destruct (applySingleReplaceToSearchMatches 2 1 after_replace) as [[p' l] next].
  destruct Hr as (Hms & _ & Hs & _ & Hn). rewrite Hms in Hn. vm_compute in Hn. injection Hn as <-.
  split; [exact Hms|]. split; [exact Hs|reflexivity].
Defined.
