(* ===== verification/HostRecords.v ===== *)
(** * Change records of the extension ([hexEditorProvider.ts])

    The checks on values of type [unknown] at the head of
    [vscode-extension/src/hexEditorProvider.ts], the records it makes of the
    entries of a change log and of the changes of a session, and its two
    searches along the causes of an error.

    [WebviewProtocol] and [AiReplay] model functions of the same names in
    other files of the source; the lemmas [*_agrees] say where they agree. *)

From S2P Require Import Prelude SafeInt JsText JsValue EditDiff EditSession History SessionApi UnaryCalls SessionCalls ChangeLogCodec ChangeLogDocument ChangeLogFiles ChangeLogExportFile WebviewProtocol RangeMap AiToolkit AiReplay AiExport.

Open Scope call_scope.

(** ** Checks on values *)

(** [typeof value === 'object' && value !== null]: an array is one too; the
    only property of an array that has a name is its length. *)
Definition isRecord (value : jsval) : option jsobject :=
  match value with
  | JObject o => Some o
  | JArray l => Some [(js "length", JNumber (NInt (Z.of_nat (length l))))]
  | _ => None
  end.

Definition safeNonNegativeInteger (value : jsval) (max : Z) : option Z :=
  match value with
  | JNumber (NInt z) => if safeZ z && (0 <=? z) && (z <=? max) then Some z else None
  | _ => None
  end.

Definition not_int64 : exn := plain_error "must be a non-negative int64".

Definition parseNonNegativeInt64 (value : jsval) : result Z :=
  parsed ← match value with
    | JBigInt z => Ok z
    | JNumber n =>
        if isSafeInteger n then Ok (match n with NInt z => z | _ => 0 end)
        else Throw (plain_error "must be a non-negative safe integer or decimal int64 string")
    | JString s => if canonical_decimal s then Ok (decimal_value s) else Throw not_int64
    | _ => Throw not_int64
    end;
  if (parsed <? 0) || (MAX_INT64 <? parsed)
  then Throw (plain_error "must be in the non-negative int64 range") else Ok parsed.

Definition parsePositiveInt64 (value : jsval) : result Z :=
  parsed ← parseNonNegativeInt64 value;
  if parsed <=? 0 then Throw (plain_error "must be a positive int64") else Ok parsed.

Definition int64ToSafeNumber (value : Z) : result Z :=
  if MAX_SAFE_INTEGER <? value
  then Throw (plain_error "exceeds the current OmegaEdit TypeScript transport safe integer range")
  else Ok value.

Definition normalizeNonNegativeInt64ForClient (value : jsval) : result Z :=
  parsed ← parseNonNegativeInt64 value; int64ToSafeNumber parsed.

Definition normalizePositiveInt64ForClient (value : jsval) : result Z :=
  parsed ← parsePositiveInt64 value; int64ToSafeNumber parsed.

Definition int64ToDecimal (value : jsval) : result jsstring :=
  parsed ← parseNonNegativeInt64 value; Ok (decimal_string parsed).

Definition safeString (value : jsval) (maxLength : Z) (allowEmpty : bool) : option jsstring :=
  match value with
  | JString s =>
      let text := trim s in
      if (negb allowEmpty && (slen text =? 0)) || (maxLength <? slen text) then None else Some text
  | _ => None
  end.

(** [maxBytes] is [None] where the source passes [Infinity]. *)
Definition safeHexString (value : jsval) (maxBytes : option Z) (allowEmpty : bool) : option jsstring :=
  match value with
  | JString s =>
      let text := remove_spaces s in
      if (negb allowEmpty && (slen text =? 0)) ||
         match maxBytes with Some max => max * 2 <? slen text | None => false end then None
      else if negb (slen text mod 2 =? 0) || negb (forallb is_hex_unit text) then None
      else Some text
  | _ => None
  end.

(** ** Transforms *)

(** [JSON.stringify] of any value; [JsonRuntime] has it for objects. *)
Class JsonText `{JsonRuntime} := {
  stringify : jsval -> jsstring;
  stringify_object o : stringify (JObject o) = JSON_stringify o
}.

Section Transforms.
Context `{JsonText}.

Definition parseJsonObject (text : jsstring) (name : string) : result jsval :=
  match JSON_parse text with
  | None => Throw (plain_error (name ++ " must be valid JSON")%string)
  | Some parsed =>
      match isRecord parsed with
      | Some _ => Ok parsed
      | None => Throw (plain_error (name ++ " must be a JSON object")%string)
      end
  end.

(** The properties of a value that passed [isRecord]. *)
Definition props (v : jsval) : jsobject := default [] (isRecord v).

(** [Object.keys(args).length]; [length] is no key of an array. *)
Definition key_count (args : jsval) : nat :=
  match args with JObject o => length o | JArray l => length l | _ => O end.

Definition transformOptionsToJson (args : jsval) : option jsstring :=
  if (0 <? key_count args)%nat then Some (stringify args) else None.

Definition parseTransformOptionsJson (optionsJson : option jsstring) (name : string) : result jsval :=
  match optionsJson with
  | None | Some [] => Ok (JObject [])
  | Some text => parseJsonObject text name
  end.

Definition parseTransformPrimitiveDescriptor (dataHex : jsstring) (name : string)
  : result ChangeLogTransformDescriptor :=
  let data := hex_decode dataHex in
  if (length data =? 0)%nat then Throw (plain_error (name ++ " requires data")%string)
  else
    descriptor ← parseJsonObject (toString_utf8 data) name;
    match get (js "transformId") (props descriptor) with
    | JString tid =>
        if (length (trim tid) =? 0)%nat then Throw (plain_error (name ++ " requires transformId")%string)
        else
          let args := get (js "args") (props descriptor) in
          let args := if is_undefined args then JObject [] else args in
          match isRecord args with
          | None => Throw (plain_error (name ++ " args must be a JSON object")%string)
          | Some _ => Ok (mkDescriptor (trim tid) (transformOptionsToJson args))
          end
    | _ => Throw (plain_error (name ++ " requires transformId")%string)
    end.

(** [canonicalizeTransformDescriptorValue] and [normalizeJsonForComparison]
    are those of [AiExport], word for word. *)
Definition createTransformPrimitivePayload (transformId : jsstring) (optionsJson : option jsstring)
  : result (jsstring * jsval) :=
  args ← parseTransformOptionsJson optionsJson "transform options";
  Ok (trim transformId, canonicalizeTransformDescriptorValue args).

Definition createTransformPrimitiveDescriptorJson (transformId : jsstring) (optionsJson : option jsstring)
  : result jsstring :=
  payload ← createTransformPrimitivePayload transformId optionsJson;
  Ok (JSON_stringify [(js "transformId", JString payload.1); (js "args", payload.2)]).

Definition encodeTransformPrimitiveDataHex (transformId : jsstring) (optionsJson : option jsstring)
  : result jsstring :=
  text ← createTransformPrimitiveDescriptorJson transformId optionsJson;
  Ok (hex_encode (utf8_encode text)).

Definition jsonObjectsEqual (left right : jsval) : bool :=
  bool_decide (stringify (normalizeJsonForComparison left) = stringify (normalizeJsonForComparison right)).

Definition transformOptionsMatchDescriptor (optionsJson descriptorOptionsJson : option jsstring) (name : string)
  : result bool :=
  options ← parseTransformOptionsJson optionsJson name;
  descriptorOptions ← parseTransformOptionsJson descriptorOptionsJson name;
  Ok (jsonObjectsEqual options descriptorOptions).

(** ** Records *)

Record ParsedChangeRecord := mkRecord {
  r_serial : Z;
  r_kind : ChangeLogEntryKind;
  r_offset : Z;
  r_length : Z;
  r_data : jsstring;
  r_groupId : option jsstring;
  r_transformDescriptor : option ChangeLogTransformDescriptor
}.

(** [try { x = m } catch { return undefined }] *)
Definition or_undefined {A} (m : result A) : option A := match m with Ok a => Some a | Throw _ => None end.

Definition change_data (value : jsobject) (allowEmpty : bool) : option jsstring :=
  safeHexString (get (js "data") value) None allowEmpty.

Definition transform_fields : list string :=
  ["transformId"; "optionsJson"; "replacementLength"; "computedFileSizeBefore";
   "computedFileSizeAfter"]%string.

Definition safeChangeRecord (value : jsval) : option ParsedChangeRecord :=
  value ← isRecord value;
  offset ← or_undefined (normalizeNonNegativeInt64ForClient (get (js "offset") value));
  serial ← (if is_undefined (get (js "serial") value) then Some 0
            else or_undefined (normalizePositiveInt64ForClient (get (js "serial") value)));
  let groupId := safeString (get (js "groupId") value) MAX_LABEL_LENGTH false in
  if negb (is_undefined (get (js "groupId") value)) && bool_decide (groupId = None) then None
  else
    let len := or_undefined (normalizeNonNegativeInt64ForClient (get (js "length") value)) in
    match kind_of (get (js "kind") value) with
    | Some KINSERT =>
        data ← change_data value false;
        Some (mkRecord serial KINSERT offset 0 data groupId None)
    | Some KDELETE =>
        len ← or_undefined (normalizePositiveInt64ForClient (get (js "length") value));
        data ← change_data value false;
        if negb (slen data =? 2 * len) then None
        else Some (mkRecord serial KDELETE offset len data groupId None)
    | Some KOVERWRITE =>
        data ← change_data value false;
        Some (mkRecord serial KOVERWRITE offset (slen data / 2) data groupId None)
    | Some KREPLACE =>
        len ← len;
        data ← change_data value true;
        Some (mkRecord serial KREPLACE offset len data groupId None)
    | Some KTRANSFORM =>
        len ← len;
        data ← change_data value false;
        if existsb (fun f => negb (is_undefined (get (js f) value))) transform_fields then None
        else
          descriptor ← or_undefined (parseTransformPrimitiveDescriptor data "TRANSFORM change data");
          Some (mkRecord serial KTRANSFORM offset len data groupId (Some descriptor))
    | None => None
    end.

(** [entries()] of [preparedChangeLogToParsed]: what the reader yields, as
    records, up to the first that is not one. *)
Definition not_addressable : exn := plain_error "Validated change log entry is not client-addressable".

Fixpoint parsed_entries (l : list NormalizedChangeLogEntry) (ended : result unit)
  : list ParsedChangeRecord * result unit :=
  match l with
  | [] => ([], ended)
  | entry :: l =>
      match safeChangeRecord (entry_object (to_log_entry entry)) with
      | None => ([], Throw not_addressable)
      | Some change => let rest := parsed_entries l ended in (change :: rest.1, rest.2)
      end
  end.
End Transforms.

(** ** Agreement with the other files *)

Lemma int64_agrees v : parseNonNegativeInt64 v = AiReplay.parseNonNegativeInt64 v.
Proof. by destruct v as [| | |[z| | |]| | | |]. Qed.

Lemma safe_string_agrees v max b : safeString v max b = WebviewProtocol.safeString v max b.
Proof. by destruct v. Qed.

Lemma safe_hex_agrees v max b : safeHexString v (Some max) b = WebviewProtocol.safeHexString v max b.
Proof. by destruct v. Qed.

Lemma safe_integer_agrees v max : safeNonNegativeInteger v max = WebviewProtocol.safeNonNegativeInteger v max.
Proof. by destruct v as [| | |[]| | | |]. Qed.

(** ** Integers of normalized entries *)

Lemma int64_of_decimal n : 0 <= n <= MAX_INT64 -> parseNonNegativeInt64 (JString (decimal_string n)) = Ok n.
Proof.
  intros Hn. destruct (decimal_string_spec n ltac:(lia)) as [Hv Hc].
  unfold parseNonNegativeInt64. rewrite Hc, Hv. unfold mbind, result_bind.
  destruct (Z.ltb_spec n 0); [lia|]. destruct (Z.ltb_spec MAX_INT64 n); [lia|done].
Qed.

Lemma addressable_decimal n : 0 <= n <= MAX_INT64 ->
  or_undefined (normalizeNonNegativeInt64ForClient (JString (decimal_string n))) =
  if MAX_SAFE_INTEGER <? n then None else Some n.
Proof.
  intros Hn. unfold normalizeNonNegativeInt64ForClient. rewrite int64_of_decimal by done. cbn.
  unfold int64ToSafeNumber. by destruct (_ <? _).
Qed.

Lemma positive_decimal n : 0 <= n <= MAX_INT64 ->
  or_undefined (normalizePositiveInt64ForClient (JString (decimal_string n))) =
  if (n <=? 0) || (MAX_SAFE_INTEGER <? n) then None else Some n.
Proof.
  intros Hn. unfold normalizePositiveInt64ForClient, parsePositiveInt64. rewrite int64_of_decimal by done. cbn.
  destruct (n <=? 0); [done|]. cbn. unfold int64ToSafeNumber. by destruct (_ <? _).
Qed.

(** ** The entries the extension takes

    A log that the codec accepts has entries the extension cannot address:
    integers beyond the safe ones, labels of groups beyond its own limit, and
    transforms whose data it does not read as a descriptor. *)

Section Addressable.
Context `{JsonText}.

Definition value_of (s : jsstring) : Z := decimal_value s.

Definition serial_addressable (e : NormalizedChangeLogEntry) : bool :=
  match n_serial e with Some s => value_of s <=? MAX_SAFE_INTEGER | None => true end.

(** What the extension asks of an entry beyond the codec. *)
Definition client_addressable (e : NormalizedChangeLogEntry) : bool :=
  (value_of (n_offset e) <=? MAX_SAFE_INTEGER) &&
  serial_addressable e &&
  match n_groupId e with Some g => slen g <=? MAX_LABEL_LENGTH | None => true end &&
  match n_kind e with
  | KINSERT | KOVERWRITE => true
  | KDELETE | KREPLACE => value_of (n_length e) <=? MAX_SAFE_INTEGER
  | KTRANSFORM => (value_of (n_length e) <=? MAX_SAFE_INTEGER) && negb (bool_decide (n_data e = [])) &&
      is_ok (parseTransformPrimitiveDescriptor (n_data e) "TRANSFORM change data")
  end.

(** The record of an entry: an insert removes nothing, an overwrite removes
    what it writes, a serial that is missing is 0. *)
Definition record_of (e : NormalizedChangeLogEntry) : ParsedChangeRecord :=
  mkRecord (from_option value_of 0 (n_serial e)) (n_kind e) (value_of (n_offset e))
    (match n_kind e with
     | KINSERT => 0
     | KOVERWRITE => slen (n_data e) / 2
     | _ => value_of (n_length e)
     end)
    (n_data e) (n_groupId e)
    (match n_kind e with
     | KTRANSFORM => or_undefined (parseTransformPrimitiveDescriptor (n_data e) "TRANSFORM change data")
     | _ => None
     end).

Lemma value_of_decimal n : 0 <= n -> value_of (decimal_string n) = n.
Proof. intros Hn. by apply decimal_string_spec. Qed.

Lemma lower_hex_units s : forallb is_lower_hex s = true -> Forall (fun c => is_Some (hex_value c)) s.
Proof.
  rewrite forallb_forall, List.Forall_forall. intros Hs c Hc. apply Hs in Hc. clear Hs.
  unfold is_lower_hex, in_range in Hc. unfold hex_value.
  destruct ((48 <=? c) && (c <=? 57)); [by eexists|]. destruct ((97 <=? c) && (c <=? 102)); [by eexists|done].
Qed.
Lemma get_absent k (o : jsobject) : has_own k o = false -> get k o = JUndefined.
Proof.
  induction o as [|[k' v] o IH]; [done|]. unfold has_own in *. cbn. intros Hk.
  apply orb_false_iff in Hk as [Hne Hk]. rewrite Hne. by apply IH.
Qed.

Lemma hex_taken s max b : forallb is_lower_hex s = true -> Nat.even (length s) = true ->
  (b = false -> s <> []) -> max = None -> safeHexString (JString s) max b = Some s.
Proof.
  intros Hs He Hb ->. apply lower_hex_units in Hs. cbn. rewrite remove_spaces_hex by done.
  rewrite (proj2 (hex_digits_spec s)) by done.
  replace (slen s mod 2 =? 0) with true.
  2:{ symmetry. apply Z.eqb_eq. apply Nat.even_spec in He as [k Hk]. unfold slen. rewrite Hk.
      rewrite Nat2Z.inj_mul, Z.mul_comm. by apply Z_mod_mult. }
  destruct b; cbn; [done|]. destruct (Z.eqb_spec (slen s) 0) as [E|]; [|done].
  destruct s; [by destruct (Hb eq_refl)|]. unfold slen in E. cbn in E. lia.
Qed.

(** *** Fields *)

Lemma record_data_taken o s : get (js "data") o = JString s ->
  Nat.even (length s) = true /\ forallb is_lower_hex s = true ->
  change_data o false = (if bool_decide (s = []) then None else Some s) /\ change_data o true = Some s.
Proof.
  intros Hs [He Hx]. unfold change_data. rewrite Hs. split; [|by apply hex_taken].
  destruct (bool_decide_reflect (s = [])) as [->|Hne]; [done|]. by apply hex_taken.
Qed.

Lemma transform_fields_absent o : existsb (fun f => has_own (js f) o) legacy_fields = false ->
  existsb (fun f => negb (is_undefined (get (js f) o))) transform_fields = false.
Proof.
  unfold legacy_fields, transform_fields. cbn [existsb]. intros Hl.
  repeat (apply orb_false_iff in Hl as [? Hl]). by rewrite !get_absent.
Qed.

Lemma even_half (s : jsstring) : Nat.even (length s) = true ->
  slen s = 2 * (slen s / 2) /\ (s <> [] -> 0 < slen s / 2).
Proof.
  intros [k Hk]%Nat.even_spec. unfold slen. rewrite Hk, Nat2Z.inj_mul.
  rewrite (Z.mul_comm (Z.of_nat 2)), Z_div_mult by done. split; [lia|]. destruct s; [done|]. cbn in Hk. lia.
Qed.

Lemma group_taken limits e : normal_entry limits e ->
  safeString (from_option JString JUndefined (n_groupId e)) MAX_LABEL_LENGTH false =
  match n_groupId e with Some g => if slen g <=? MAX_LABEL_LENGTH then Some g else None | None => None end.
Proof.
  intros He. destruct (n_groupId e) as [g|] eqn:Eg; [|done]. destruct (ne_group _ _ He g Eg) as (Hne & Ht & _).
  cbn. rewrite Ht. destruct (Z.eqb_spec (slen g) 0) as [E|_]; [destruct g; [done|unfold slen in E; cbn in E; lia]|].
  cbn. rewrite Z.leb_antisym. by destruct (_ <? _).
Qed.

Lemma serial_taken limits e : normal_entry limits e ->
  (if is_undefined (from_option int64_value JUndefined (I64String <$> n_serial e)) then Some 0
   else or_undefined (normalizePositiveInt64ForClient
     (from_option int64_value JUndefined (I64String <$> n_serial e)))) =
  if serial_addressable e then Some (from_option value_of 0 (n_serial e)) else None.
Proof.
  intros He. unfold serial_addressable. destruct (n_serial e) as [s|] eqn:Es; [|done].
  destruct (ne_serial _ _ He s Es) as (n & -> & Hn). cbn [fmap option_fmap option_map from_option is_undefined int64_value].
  rewrite positive_decimal, value_of_decimal, (Z.leb_antisym MAX_SAFE_INTEGER) by lia.
  destruct (Z.leb_spec n 0); [lia|]. by destruct (_ <? _).
Qed.

Lemma records_taken_log limits e : normal_entry limits e ->
  safeChangeRecord (entry_object (to_log_entry e)) =
  if client_addressable e then Some (record_of e) else None.
Proof.
  intros He. destruct (entry_object_get (to_log_entry e)) as (o & Eo & Hkind & Ho & Hn & Hdata & Hs & Hg & Hl).
  rewrite Eo. unfold safeChangeRecord. cbn [isRecord]. unfold mbind at 1, option_bind at 1.
  rewrite Hkind, Ho, Hn, Hs, Hg. cbn [to_log_entry l_kind l_offset l_length l_serial l_groupId int64_value].
  destruct (ne_offset _ _ He) as (off & Eoff & Hoff), (ne_length _ _ He) as (n & En & Hlen & Hdel).
  unfold client_addressable, record_of. rewrite Eoff, En, !value_of_decimal, !addressable_decimal by lia.
  rewrite kind_of_name, !Z.leb_antisym.
  destruct (MAX_SAFE_INTEGER <? off); [done|]. cbn [negb andb]. unfold mbind at 1, option_bind at 1.
  rewrite (serial_taken _ _ He). destruct (serial_addressable e); [|done]. cbn [andb].
  unfold mbind at 1, option_bind at 1. rewrite (group_taken _ _ He).
  set (group := n_groupId e). set (serial := from_option value_of 0 (n_serial e)).
  replace (negb _ && _) with (negb match group with Some g => slen g <=? MAX_LABEL_LENGTH | None => true end).
  2:{ destruct group as [g|]; [|done]. cbn. by destruct (_ <=? _). }
  destruct (match group with Some g => slen g <=? MAX_LABEL_LENGTH | None => true end) eqn:Hgroup; [|done].
  replace (match group with Some g => if slen g <=? MAX_LABEL_LENGTH then Some g else None | None => None end)
    with group by (destruct group; [by rewrite Hgroup|done]).
  cbn [negb andb]. change (l_data (to_log_entry e)) with (n_data e) in Hdata.
  destruct (record_data_taken o _ Hdata (ne_data _ _ He)) as [-> ->].
  rewrite (transform_fields_absent o Hl).
  pose proof (ne_needs_data _ _ He) as Hneeds. destruct (n_kind e) eqn:Ek.
  - rewrite bool_decide_eq_false_2 by (by apply Hneeds). done.
  - rewrite bool_decide_eq_false_2 by (by apply Hneeds). rewrite positive_decimal by lia.
    destruct (even_half _ (proj1 (ne_data _ _ He))) as [Hhalf Hpos]. rewrite <- (Hdel eq_refl) in Hhalf, Hpos.
    rewrite (proj2 (Z.leb_gt n 0)) by (by apply Hpos, Hneeds). cbn [orb].
    destruct (MAX_SAFE_INTEGER <? n); [done|]. unfold mbind, option_bind.
    by rewrite Hhalf, Z.eqb_refl.
  - rewrite bool_decide_eq_false_2 by (by apply Hneeds). done.
  - by destruct (MAX_SAFE_INTEGER <? n).
  - destruct (MAX_SAFE_INTEGER <? n); [done|]. cbn [negb andb].
    destruct (bool_decide (n_data e = [])); [done|]. cbn [negb andb]. unfold mbind, option_bind.
    by destruct (parseTransformPrimitiveDescriptor (n_data e) "TRANSFORM change data").
Qed.
(** C16 The extension takes an entry that the codec has normalized exactly when
    its integers are safe, the label of its group has at most 128 characters
    and, for a transform, its data reads as a descriptor; the record says what
    the entry says. *)
Theorem records_taken_exactly limits e : normal_entry limits e ->
  safeChangeRecord (entry_object (to_log_entry e)) =
  if client_addressable e then Some (record_of e) else None.
Proof. apply records_taken_log. Qed.
End Addressable.

(** ** The changes of a session *)

Section Details.
Context `{JsonText}.

Definition transform_mismatch_error (what : string) : exn :=
  plain_error ("Transform metadata mismatch: " ++ what)%string.

(** The integers of the details are checked as they are read. *)
Definition details_record (change : ChangeDetails) (kind : ChangeLogEntryKind) : result ParsedChangeRecord :=
  serial ← change_getSerial change;
  offset ← change_getOffset change;
  len ← (if bool_decide (kind = KINSERT) then Ok 0 else change_getLength change);
  Ok (mkRecord serial kind offset len (hex_encode (change_getData change)) None None).

Definition changeDetailsToChangeRecord (change : ChangeDetails) : result ParsedChangeRecord :=
  match changeKindNames (ch_kind change) with
  | None => Throw (plain_error "Unsupported change kind")
  | Some KTRANSFORM =>
      descriptor ← parseTransformPrimitiveDescriptor (hex_encode (change_getData change)) "TRANSFORM change data";
      match ch_transform change with
      | Some ((_ :: _) as id, options) =>
          _ ← require (bool_decide (transformId descriptor = id)) (transform_mismatch_error "descriptor");
          same ← transformOptionsMatchDescriptor options (optionsJson descriptor) "transform options";
          _ ← require same (transform_mismatch_error "options");
          details_record change KTRANSFORM
      | _ => Throw (plain_error "Transform change is missing transform metadata")
      end
  | Some kind => details_record change kind
  end.

(** A record as the entry that is written. *)
Definition record_entry (r : ParsedChangeRecord) : ChangeLogEntry :=
  mkLogEntry (Some (I64Number (NInt (r_serial r)))) (r_kind r) (I64Number (NInt (r_offset r)))
    (I64Number (NInt (r_length r))) (r_data r) (r_groupId r).

Lemma safe_output v z : requireSafeIntegerOutput v = Ok z -> z <= MAX_SAFE_INTEGER.
Proof. intros [_ Hs]%requireSafeIntegerOutput_inv. apply safeZ_spec in Hs. lia. Qed.

Lemma details_record_safe change kind r : details_record change kind = Ok r ->
  r_kind r = kind /\ r_serial r <= MAX_SAFE_INTEGER /\ r_offset r <= MAX_SAFE_INTEGER /\
  r_length r <= MAX_SAFE_INTEGER /\ (kind = KINSERT -> r_length r = 0) /\
  r_data r = hex_encode (change_getData change) /\ r_groupId r = None /\ r_transformDescriptor r = None.
Proof.
  unfold details_record, change_getSerial, change_getOffset, change_getLength. intros Hr. ok_inv. subst. cbn.
  split; [done|]. split; [by eapply safe_output|]. split; [by eapply safe_output|].
  case_bool_decide as Ek.
  - ok_inv. subst. split; [unfold MAX_SAFE_INTEGER; lia|done].
  - split; [by eapply safe_output|]. split; [done|done].
Qed.
(** The descriptor a record of a transform comes with. *)
Definition described_record (r : ParsedChangeRecord) : ParsedChangeRecord :=
  mkRecord (r_serial r) (r_kind r) (r_offset r) (r_length r) (r_data r) (r_groupId r)
    (match r_kind r with
     | KTRANSFORM => or_undefined (parseTransformPrimitiveDescriptor (r_data r) "TRANSFORM change data")
     | _ => None
     end).

Lemma record_safe change r : changeDetailsToChangeRecord change = Ok r ->
  r_serial r <= MAX_SAFE_INTEGER /\ r_offset r <= MAX_SAFE_INTEGER /\ r_length r <= MAX_SAFE_INTEGER /\
  (r_kind r = KINSERT -> r_length r = 0) /\ r_data r = hex_encode (change_getData change) /\ r_groupId r = None /\
  (r_kind r = KTRANSFORM -> hex_encode (change_getData change) <> [] /\
     is_ok (parseTransformPrimitiveDescriptor (r_data r) "TRANSFORM change data") = true).
Proof.
  unfold changeDetailsToChangeRecord. destruct (changeKindNames (ch_kind change)) as [kind|] eqn:Ek; [|done].
  intros Hr.
  assert (Hd : details_record change kind = Ok r /\ (kind = KTRANSFORM ->
    is_ok (parseTransformPrimitiveDescriptor (hex_encode (change_getData change)) "TRANSFORM change data") = true)).
  { destruct kind; try (split; [exact Hr|done]).
    destruct (parseTransformPrimitiveDescriptor _ _) as [descriptor|]; [|done]. cbn [mbind result_bind] in Hr.
    destruct (ch_transform change) as [[[|c id] options]|]; [done| |done]. ok_inv. by split. }
  destruct Hd as [Hd Ht]. apply details_record_safe in Hd as (Hk & Hs & Ho & Hn & Hi & Edata & Hg & _).
  rewrite Hk, Edata. split_and!; auto. intros ->. split; [|by apply Ht]. intros E. specialize (Ht eq_refl).
  by rewrite E in Ht.
Qed.

Lemma record_integer_read (z n : Z) : parseChangeLogNonNegativeInt64 (JNumber (NInt z)) = Ok n -> n = z /\ 0 <= z.
Proof.
  unfold parseChangeLogNonNegativeInt64. destruct (safeZ z); [|done]. cbn [mbind result_bind].
  destruct ((z <? 0) || (MAX_INT64 <? z)) eqn:E; [done|]. intros [= ->]. bool_prop. by split.
Qed.

Lemma serial_read (z : Z) o : normalize_serial (JNumber (NInt z)) = Ok o ->
  o = Some (decimal_string z) /\ 0 < z.
Proof.
  intros Ho. apply normalize_serial_inv in Ho as [[? _]|(n & Hn & -> & Hpos)]; [done|].
  apply parse_positive_inv in Hn as [Hn _]. apply record_integer_read in Hn as [-> _]. split; [done|lia].
Qed.

(** What the extension exports it takes back: the record of a change of
    the session, written as an entry and read by the codec, is taken as the
    record it was, with the descriptor of a transform. *)
Theorem exported_record_taken limits change r x :
  changeDetailsToChangeRecord change = Ok r ->
  (r_kind r = KOVERWRITE -> r_length r = len (change_getData change)) ->
  normalizeChangeLogEntry (entry_object (record_entry r)) limits = Ok x ->
  safeChangeRecord (entry_object (to_log_entry x)) = Some (described_record r).
Proof.
  intros Hr Hover Hx. apply record_safe in Hr as (Hs & Ho & Hn & Hi & Edata & Hg & Ht).
  rewrite (records_taken_log limits) by (by eapply normalize_entry_normal).
  destruct (entry_object_get (record_entry r)) as (p & Ep & G1 & G2 & G3 & G4 & G5 & G6 & _). rewrite Ep in Hx.
  apply normalize_entry_inv in Hx as (q & off & n & [= <-] & _ & Hk & Hoff & Hlen & Eo & El & Hdata &
    _ & _ & Hserial & Hgroup & _).
  rewrite G1, kind_of_name in Hk. rewrite G2 in Hoff. rewrite G3 in Hlen. rewrite G4 in Hdata.
  rewrite G5 in Hserial. rewrite G6 in Hgroup.
  cbn [record_entry l_kind l_offset l_length l_data l_serial l_groupId int64_value from_option] in *.
  injection Hk as Hk. apply record_integer_read in Hoff as [-> Hpo], Hlen as [-> Hpn].
  apply serial_read in Hserial as [Es Hps]. rewrite Hg in Hgroup. cbn in Hgroup. apply Ok_inj in Hgroup.
  rewrite Edata, hex_normal in Hdata. injection Hdata as Hdata.
  assert (Hok : client_addressable x = true).
  { unfold client_addressable, serial_addressable. rewrite Eo, El, Es, <- Hgroup, <- Hk, <- Hdata, !value_of_decimal by lia.
    rewrite !(proj2 (Z.leb_le _ _)) by lia. cbn [andb]. destruct (r_kind r); try done.
    destruct (Ht eq_refl) as [Hne Hparse]. rewrite Edata in Hparse.
    by rewrite bool_decide_eq_false_2, Hparse. }
  rewrite Hok. f_equal. unfold record_of, described_record.
  rewrite Eo, El, Es, <- Hgroup, <- Hk, <- Hdata, Hg, Edata. cbn [from_option]. rewrite !value_of_decimal by lia.
  f_equal. destruct (r_kind r); try done; [by rewrite Hi|]. by rewrite Hover, hex_half.
Qed.
End Details.

(** ** Causes of errors

    Errors are objects on a heap, each with its cause: a chain of causes may
    lead back to an error that was met before. *)

Module ErrorChain.

Inductive ref :=
  | Primitive (truthy : bool)
  | Object (l : nat).

#[global] Instance ref_eq_dec : EqDecision ref.
Proof. solve_decision. Defined.

(** [c_cancelled]: the object is a [ChangeLogCancelledError]. *)
Record cell := mkCell { c_code : jsval; c_cause : ref; c_cancelled : bool }.
Abbreviation heap := (gmap nat cell).

Definition has_number (v : jsval) (code : Z) : bool :=
  match v with JNumber (NInt z) => z =? code | _ => false end.

Definition has_text (v : jsval) (text : string) : bool :=
  match v with JString s => bool_decide (s = js text) | _ => false end.

(** [None]: the loop is still running. *)
Fixpoint hasGrpcStatusCode (fuel : nat) (h : heap) (current : ref) (code : Z) : option bool :=
  match fuel with
  | O => None
  | S fuel =>
      match current with
      | Primitive _ => Some false
      | Object l =>
          match h !! l with
          | None => Some false
          | Some c => if has_number (c_code c) code then Some true else hasGrpcStatusCode fuel h (c_cause c) code
          end
      end
  end.

Definition GRPC_NOT_FOUND : Z := 5.

Definition isMissingChangeDetailsError (fuel : nat) (h : heap) (error : ref) : option bool :=
  hasGrpcStatusCode fuel h error GRPC_NOT_FOUND.

Definition cancelled (c : cell) : bool := c_cancelled c || has_text (c_code c) "CHANGE_LOG_CANCELLED".

Fixpoint cancellation_loop (fuel : nat) (h : heap) (seen : list ref) (current : ref) : option bool :=
  match fuel with
  | O => None
  | S fuel =>
      if bool_decide (current = Primitive false) || bool_decide (current ∈ seen) then Some false
      else
        match current with
        | Primitive _ => cancellation_loop fuel h (current :: seen) (Primitive false)
        | Object l =>
            match h !! l with
            | None => cancellation_loop fuel h (current :: seen) (Primitive false)
            | Some c =>
                if cancelled c then Some true else cancellation_loop fuel h (current :: seen) (c_cause c)
            end
        end
  end.

(** One turn for every error there is, and one each for a value that is no
    object, for the end of the chain and for an error met again. *)
Definition isChangeLogCancellationError (h : heap) (error : ref) : option bool :=
  cancellation_loop (size h + 3) h [] error.

(** *** What the search finds *)

Definition caused_by (h : heap) (a b : ref) : Prop :=
  exists l c, a = Object l /\ h !! l = Some c /\ b = c_cause c.

Definition is_cancelled (h : heap) (r : ref) : Prop :=
  exists l c, r = Object l /\ h !! l = Some c /\ cancelled c = true.

(** The errors a search has passed. *)
Record passed (h : heap) (seen : list ref) (current : ref) : Prop := {
  ps_distinct : NoDup seen;
  ps_clean r : r ∈ seen -> ~ is_cancelled h r;
  ps_closed r r' : r ∈ seen -> caused_by h r r' -> r' ∈ seen \/ r' = current
}.

Lemma passed_closed h seen current r :
  passed h seen current -> current ∈ seen -> rtc (caused_by h) current r -> ~ is_cancelled h r.
Proof.
  intros Hp Hc Hr. apply (ps_clean _ _ _ Hp).
  assert (Hin : forall a, rtc (caused_by h) a r -> a ∈ seen -> r ∈ seen); [|by eapply Hin].
  clear Hr. induction 1 as [|a b c Hab _ IH]; [done|]. intros Ha. apply IH.
  destruct (ps_closed _ _ _ Hp a b Ha Hab) as [?| ->]; done.
Qed.

Lemma passed_next h seen current next :
  passed h seen current -> current ∉ seen -> ~ is_cancelled h current ->
  (forall r, caused_by h current r -> r = next) -> passed h (current :: seen) next.
Proof.
  intros [Hd Hclean Hclosed] Hn Hc Hnext. split.
  - by constructor.
  - intros r [->|Hr]%elem_of_cons; [done|by apply Hclean].
  - intros r r' [->|Hr]%elem_of_cons Hrr'; [right; by apply Hnext|left].
    destruct (Hclosed r r' Hr Hrr') as [?| ->]; [by right|by left].
Qed.

Definition on_heap (h : heap) (r : ref) : Prop := exists l c, r = Object l /\ h !! l = Some c.

Lemma distinct_bounded h seen : NoDup seen -> Forall (on_heap h) seen -> (length seen <= size h)%nat.
Proof.
  intros Hd Hs. rewrite <- size_dom. unfold size, set_size. cbn.
  rewrite <- (length_map Object (elements (dom h))). apply submseteq_length, NoDup_submseteq; [done|].
  intros r Hr. rewrite Forall_forall in Hs. destruct (Hs r Hr) as (l & c & -> & Hl).
  apply list_elem_of_fmap. exists l. split; [done|]. apply elem_of_elements, elem_of_dom. by exists c.
Qed.

Lemma no_cause h r : ~ on_heap h r -> forall r', rtc (caused_by h) r r' -> r' = r.
Proof. intros Hn r' Hr. inversion Hr as [|x y z (l & c & -> & Hl & _)]; [done|]. exfalso. apply Hn. by exists l, c. Qed.

Lemma loop_found h n : forall seen current,
  passed h seen current -> Forall (on_heap h) seen -> (size h + 2 <= n + length seen)%nat ->
  exists b, cancellation_loop n h seen current = Some b /\
    (b = true <-> exists r, rtc (caused_by h) current r /\ is_cancelled h r).
Proof.
  induction n as [|n IH]; intros seen current Hp Hs Hfuel.
  { pose proof (distinct_bounded h seen (ps_distinct _ _ _ Hp) Hs). lia. }
  cbn. destruct (bool_decide_reflect (current = Primitive false)) as [->|Hend]; cbn [orb].
  { exists false. split; [done|]. split; [done|]. intros (r & Hr & (l & c & -> & _)).
    apply no_cause in Hr; [done|]. by intros (? & ? & ? & _). }
  destruct (bool_decide_reflect (current ∈ seen)) as [Hin|Hnew].
  { exists false. split; [done|]. split; [done|]. intros (r & Hr & Hc). by destruct (passed_closed h seen current r). }
  assert (Hoff : ~ on_heap h current -> exists b, cancellation_loop n h (current :: seen) (Primitive false) = Some b /\
    (b = true <-> exists r, rtc (caused_by h) current r /\ is_cancelled h r)).
  { intros Hoff. pose proof (distinct_bounded h seen (ps_distinct _ _ _ Hp) Hs). destruct n as [|n]; [lia|].
    exists false. split; [done|]. split; [done|]. intros (r & Hr & (l & c & -> & Hl & _)).
    apply no_cause in Hr; [|done]. exfalso. apply Hoff. rewrite <- Hr. by exists l, c. }
  destruct current as [t|l]; [apply Hoff; by intros (? & ? & ? & _)|].
  destruct (h !! l) as [c|] eqn:El.
  2:{ apply Hoff. intros (l' & c & [= <-] & Hl'). congruence. }
  destruct (cancelled c) eqn:Ec.
  { exists true. split; [done|]. split; [intros _|done]. exists (Object l). split; [done|]. by exists l, c. }
  assert (Hclean : ~ is_cancelled h (Object l)) by (intros (l' & c' & [= <-] & Hl & Hc); congruence).
  destruct (IH (Object l :: seen) (c_cause c)) as (b & E & Hb).
  - apply (passed_next _ _ (Object l)); try done. intros r (l' & c' & [= <-] & Hl & ->). congruence.
  - constructor; [by exists l, c|done].
  - cbn. lia.
  - exists b. split; [done|]. rewrite Hb. split.
    + intros (r & Hr & Hc). exists r. split; [|done]. eapply rtc_l; [|exact Hr]. by exists l, c.
    + intros (r & Hr & Hc). exists r. split; [|done].
      apply rtc_inv in Hr as [<-|(y & (l' & c' & E' & Hl & ->) & Hrest)]; [done|]. by simplify_eq.
Qed.

(** The search for a cancellation ends on every heap, whether or not an
    error is among its own causes, and finds a cancellation exactly when the
    error or one of its causes is one. *)
Theorem cancellation_found h error : exists b,
  isChangeLogCancellationError h error = Some b /\
  (b = true <-> exists r, rtc (caused_by h) error r /\ is_cancelled h r).
Proof.
  apply loop_found; [|constructor|cbn; lia].
  split; [apply NoDup_nil_2|by intros r Hr%not_elem_of_nil|by intros r r' Hr%not_elem_of_nil].
Qed.

(** *** The search for a status code

    It goes on as long as the causes do. *)

Definition self_caused : heap := {[ 0%nat := mkCell JUndefined (Object 0) false ]}.

Lemma status_search_endless fuel code : hasGrpcStatusCode fuel self_caused (Object 0) code = None.
Proof. induction fuel as [|fuel IH]; [done|]. exact IH. Qed.

Lemma cancellation_search_ends : isChangeLogCancellationError self_caused (Object 0) = Some false.
Proof. vm_compute. reflexivity. Qed.

(** An error of [UnaryCalls] as it lies on the heap. *)
Definition code_value (code : option Z) : jsval := from_option (fun z => JNumber (NInt z)) JUndefined code.

Inductive laid_out (h : heap) : js_error -> ref -> Prop :=
  | laid_last l name message code c t :
      h !! l = Some c -> c_code c = code_value code -> c_cause c = Primitive t ->
      laid_out h (JsError name message code None) (Object l)
  | laid_caused l name message code cause c :
      h !! l = Some c -> c_code c = code_value code -> laid_out h cause (c_cause c) ->
      laid_out h (JsError name message code (Some cause)) (Object l).

Lemma code_value_is code c : has_number (code_value c) code = bool_decide (c = Some code).
Proof. destruct c as [z|]; [|done]. cbn. destruct (Z.eqb_spec z code) as [->|]; case_bool_decide; congruence. Qed.

Fixpoint causes (e : js_error) : nat :=
  match e with JsError _ _ _ cause => S (match cause with Some e => causes e | None => O end) end.

(** Where the chain of causes ends, the loop is that of [UnaryCalls]. *)
Lemma status_search_agrees h code : forall n e r, (causes e <= n)%nat -> laid_out h e r ->
  hasGrpcStatusCode (S n) h r code = Some (UnaryCalls.hasGrpcStatusCode e code).
Proof.
  induction n as [|n IH]; intros e r Hn He;
    destruct He as [l name message c0 c t Hl Hc Hcause|l name message c0 cause c Hl Hc Hcause];
    cbn [causes] in Hn; try lia; cbn [hasGrpcStatusCode UnaryCalls.hasGrpcStatusCode];
    rewrite Hl, Hc, code_value_is; (case_bool_decide; [done|]); cbn [orb].
  - by rewrite Hcause.
  - apply IH; [lia|done].
Qed.

End ErrorChain.

(** ** Logs

    The entries of a log all reach the replay when each is one the extension
    takes; otherwise the reading ends with an error at the first that is
    not. *)

Fixpoint addressable_prefix `{JsonText} (es : list NormalizedChangeLogEntry) : list NormalizedChangeLogEntry :=
  match es with
  | [] => []
  | e :: es => if client_addressable e then e :: addressable_prefix es else []
  end.

Lemma entries_taken `{JsonText} limits es ended : Forall (normal_entry limits) es ->
  parsed_entries es ended =
  (map record_of (addressable_prefix es), if forallb client_addressable es then ended else Throw not_addressable).
Proof.
  induction 1 as [|e es He _ IH]; [done|]. cbn [parsed_entries]. rewrite (records_taken_log limits) by done.
  cbn. destruct (client_addressable e); [|done]. cbn. by rewrite IH.
Qed.

(** *** Examples *)

#[local] Existing Instance no_json.
#[local] Instance no_json_text : @JsonText no_json := {| stringify := fun _ => []; stringify_object _ := eq_refl |}.

Definition labelled (n : nat) : jsval :=
  entry_object (mkLogEntry None KINSERT (I64Number (NInt 0)) (I64Number (NInt 0)) (js "00") (Some (repeat 103 n))).

(** What the codec makes of it, and the extension of that. *)
Definition read_labelled (n : nat) : option (option (option jsstring)) :=
  match normalizeChangeLogEntry (labelled n) DEFAULT_CHANGE_LOG_CODEC_LIMITS with
  | Ok e => Some (r_groupId <$> safeChangeRecord (entry_object (to_log_entry e)))
  | Throw _ => None
  end.

(** A group label of 200 characters is valid in a change log and not taken
    by the extension; one of 128 is taken. *)
Example long_label_refused : read_labelled 200 = Some None.
Proof. vm_compute. reflexivity. Qed.

Example short_label_taken : read_labelled 128 = Some (Some (Some (repeat 103 128))).
Proof. vm_compute. reflexivity. Qed.

Definition plain_entry : NormalizedChangeLogEntry :=
  mkEntryN (Some (js "7")) KDELETE (js "12") (js "2") (js "a0b1") (Some (js "group")) None.

Lemma records_taken_exactly_witness :
  normal_entry DEFAULT_CHANGE_LOG_CODEC_LIMITS plain_entry /\
  safeChangeRecord (entry_object (to_log_entry plain_entry)) =
    Some (mkRecord 7 KDELETE 12 2 (js "a0b1") (Some (js "group")) None).
Proof.
  assert (Hn : normal_entry DEFAULT_CHANGE_LOG_CODEC_LIMITS plain_entry).
  { apply (normalize_entry_normal DEFAULT_CHANGE_LOG_CODEC_LIMITS (entry_object (to_log_entry plain_entry))).
    vm_compute. reflexivity. }
  split; [exact Hn|]. rewrite (records_taken_exactly DEFAULT_CHANGE_LOG_CODEC_LIMITS plain_entry Hn).
  vm_compute. reflexivity.
Defined.

Definition deleted_details : ChangeDetails := mkChangeDetails 1 (NInt 12) (NInt 2) (NInt 7) (Some [160; 177]) None.

Lemma exported_record_taken_witness :
  changeDetailsToChangeRecord deleted_details = Ok (mkRecord 7 KDELETE 12 2 (js "a0b1") None None) /\
  safeChangeRecord (entry_object (to_log_entry
    (mkEntryN (Some (js "7")) KDELETE (js "12") (js "2") (js "a0b1") None None))) =
  Some (mkRecord 7 KDELETE 12 2 (js "a0b1") None None).
Proof.
  assert (Hr : changeDetailsToChangeRecord deleted_details = Ok (mkRecord 7 KDELETE 12 2 (js "a0b1") None None))
    by (vm_compute; reflexivity).
  split; [exact Hr|].
  exact (exported_record_taken DEFAULT_CHANGE_LOG_CODEC_LIMITS deleted_details _
    (mkEntryN (Some (js "7")) KDELETE (js "12") (js "2") (js "a0b1") None None) Hr
    ltac:(discriminate) ltac:(vm_compute; reflexivity)).
Defined.
