(* ===== verification/HostReplay.v ===== *)
(** * Change logs in the extension ([hexEditorProvider.ts])

    How the extension applies a change log to a session:
    [applyChangeLogEntry] for one entry, [applyChangeLogEntries] with its
    batches and its roll-back, [createChangeLogPreview], and the command
    [applyChangeLog].

    The session behind the client is the one of [AiReplay], and its rules for
    calls that keep the past of a session are used here.  [hosting] adds what
    the extension keeps: the history of the editor and the number of changes
    it has told VS Code about, each of which is one step of VS Code's undo. *)

From stdpp Require Import sorting.
From S2P Require Import Prelude SafeInt JsText JsValue EditDiff EditSession History Search SessionApi UnaryCalls SessionCalls ChangeLogCodec ChangeLogDocument ChangeLogExportFile WebviewProtocol AiToolkit AiReplay AiExport HostRecords.

Open Scope call_scope.

(** ** The session in the extension *)

Record hosting (S : Type) := mkHosting {
  ho_calls : replaying S;
  ho_history : History.history;
  ho_documentChanges : nat
}.
Arguments mkHosting {S}. Arguments ho_calls {S}. Arguments ho_history {S}. Arguments ho_documentChanges {S}.

Definition record_kind (k : ChangeLogEntryKind) : EditorChangeRecordKind :=
  match k with
  | KINSERT => RINSERT | KDELETE => RDELETE | KOVERWRITE => ROVERWRITE
  | KREPLACE => RREPLACE | KTRANSFORM => RTRANSFORM
  end.

Definition history_record (r : ParsedChangeRecord) : EditorChangeRecord :=
  mkChange (r_serial r) (record_kind (r_kind r)) (r_offset r) (r_length r) (r_data r) (r_groupId r).

(** ** Calls *)

Definition INTERNAL_REPLACE_ALL_REPLAY_ID : jsstring := js "omega.internal.replace-all".

(** The member of [SearchCaseFolding] a number is. *)
Definition folding_of (v : number) : option SearchCaseFolding :=
  List.find (fun f => bool_decide (NInt (folding_code f) = v))
    [FOLD_NONE; FOLD_ASCII; FOLD_WINDOWS_1252; FOLD_CP437; FOLD_EBCDIC_037; FOLD_MAC_ROMAN].

Section Replay.
Context {S : Type} `{EditBackend S} `{Transport S} `{JsonText} (sessionId : jsstring).
(** [replace_other]: a checkpointed replacement that is asked for with a
    number that is no case folding. *)
Variable replace_other : bytes -> bytes -> number -> T S Z.
Abbreviation R := (replaying S).

#[local] Instance rpc : SessionRpc S := session_rpc sessionId.

Definition getChangeLogFingerprint (content : SessionFingerprintContent) (algorithm pluginId : jsstring)
  : T R NormalizedChangeLogFingerprint :=
  let+ response := via_call (client_getSessionFingerprint sessionId content algorithm pluginId) in
  checkedT
    (byteLength ← HostRecords.int64ToDecimal (JNumber (NInt response.1));
     Ok (mkFingerprint byteLength
       (mkDigest pluginId (toLowerCase (cd_algorithm response.2)) (toLowerCase (cd_value response.2))))).

(** A fingerprint of a log has its plugin. *)
Definition fingerprintsMatch (actual expected : NormalizedChangeLogFingerprint) : result bool :=
  a ← HostRecords.int64ToDecimal (JString (fp_byteLength actual));
  e ← HostRecords.int64ToDecimal (JString (fp_byteLength expected));
  Ok (bool_decide (a = e) &&
      bool_decide (d_pluginId (fp_digest actual) = d_pluginId (fp_digest expected)) &&
      bool_decide (d_algorithm (fp_digest actual) = d_algorithm (fp_digest expected)) &&
      bool_decide (d_value (fp_digest actual) = d_value (fp_digest expected))).

Definition fingerprint_like (expected : NormalizedChangeLogFingerprint) : T R NormalizedChangeLogFingerprint :=
  getChangeLogFingerprint FP_COMPUTED (d_algorithm (fp_digest expected)) (d_pluginId (fp_digest expected)).

Definition assertCurrentSessionFingerprint (expected : NormalizedChangeLogFingerprint) : T R unit :=
  let+ actual := fingerprint_like expected in
  let+ same := checkedT (fingerprintsMatch actual expected) in
  if same : bool then retT tt else throwT (new_error (js "Change log fingerprint mismatch")).

Definition rollbackSessionToChangeCount (target : Z) : T R bool :=
  let+ response := via_edit (SessionApi.restoreToChangeCount (NInt target)) in
  let+ count := outputT (rt_changeCount response) in
  if negb (count =? target) then throwT (new_error (js "Rollback ended at change count"))
  else
    let+ discarded := outputT (rt_discardedChangeCount response) in
    let+ undone := outputT (rt_discardedUndoCount response) in
    retT ((0 <? discarded) || (0 <? undone)).

(** ** One entry *)

Definition replay_error (what : string) : js_error := new_error (js what).

(** The counts of a checked response are integers. *)
Definition assertTransformReplayResponse (descriptor : ChangeLogTransformDescriptor)
  (offset len sizeBefore sizeAfter : Z) (response : ApplyTransformPluginResponse) : T R unit :=
  if negb (bool_decide (tr_pluginId response = transformId descriptor))
  then throwT (replay_error "Transform replay returned plugin")
  else
    let+ o := outputT (tr_offset response) in
    let+ n := outputT (tr_length response) in
    if negb (o =? offset) || negb (n =? len) then throwT (replay_error "Transform replay range mismatch")
    else
      let+ replacement := outputT (tr_replacementLength response) in
      let+ size := outputT (tr_computedFileSize response) in
      if negb (size =? sizeBefore - n + replacement) then throwT (replay_error "Transform replay size mismatch")
      else if negb (sizeAfter =? size) then throwT (replay_error "Transform replay session size mismatch")
      else retT tt.

Definition applyReplaceChange (offset len : Z) (dataHex : jsstring) (groupId : option jsstring)
  : T R (option ParsedChangeRecord) :=
  let+ originalSegment :=
    (if 0 <? len then via_edit (SessionApi.getSegment (NInt offset) (NInt len)) else retT []) in
  let+ changeSerial := via_edit (editSimple (NInt offset) originalSegment (hex_decode dataHex) false true) in
  if changeSerial <=? 0 then retT None
  else retT (Some (mkRecord changeSerial KREPLACE offset len dataHex groupId None)).

(** The replacement of a checkpointed replace-all, as it was recorded. *)
Definition replay_replace_all (descriptor : ChangeLogTransformDescriptor) (data : jsstring)
  : T R (option ParsedChangeRecord) :=
  let+ options := checkedT (HostRecords.parseTransformOptionsJson (optionsJson descriptor)
    "checkpointed replace-all replay") in
  match get (js "query") (props options), get (js "isHex") (props options),
        get (js "caseFolding") (props options), get (js "data") (props options) with
  | JString query, JBool isHex, JNumber caseFolding, JString replacement =>
      let pattern := if isHex then hex_decode query else utf8_encode query in
      let+ replacedCount :=
        match folding_of caseFolding with
        | Some folding => via_edit (SessionApi.replaceSessionCheckpointed pattern (hex_decode replacement)
            folding (NInt 0) (NInt 0))
        | None => via_call (replace_other pattern (hex_decode replacement) caseFolding)
        end in
      if replacedCount <=? 0
      then throwT (replay_error "Checkpointed replace-all replay produced no content change")
      else retT (Some (mkRecord 1 KTRANSFORM 0 0 data None None))
  | _, _, _, _ => throwT (replay_error "Checkpointed replace-all replay descriptor is invalid")
  end.

Definition applyChangeLogEntry (change : ParsedChangeRecord) : T R (option ParsedChangeRecord) :=
  let offset := r_offset change in
  let data := hex_decode (r_data change) in
  let applied serial len :=
    retT (Some (mkRecord serial (r_kind change) offset len (r_data change) (r_groupId change) None)) in
  match r_kind change with
  | KINSERT => let+ serial := via_edit (insert (NInt offset) data false) in applied serial 0
  | KDELETE =>
      let+ serial := via_edit (del (NInt offset) (NInt (r_length change)) false) in
      applied serial (r_length change)
  | KOVERWRITE =>
      let+ serial := via_edit (overwrite (NInt offset) data false) in
      applied serial (Z.of_nat (length data))
  | KREPLACE => applyReplaceChange offset (r_length change) (r_data change) (r_groupId change)
  | KTRANSFORM =>
      match r_transformDescriptor change with
      | None => throwT (replay_error "TRANSFORM change data was not normalized")
      | Some descriptor =>
          if bool_decide (transformId descriptor = INTERNAL_REPLACE_ALL_REPLAY_ID)
          then replay_replace_all descriptor (r_data change)
          else
            let+ sizeBefore := current_size sessionId in
            let+ response := via_call (client_applyTransformPlugin sessionId (transformId descriptor)
              (NInt offset) (NInt (r_length change)) (optionsJson descriptor) false) in
            if negb (tr_contentChanged response)
            then throwT (replay_error "Transform replay produced no content change")
            else
              match tr_serial response with
              | None => throwT (replay_error "Transform did not return a change serial")
              | Some serial =>
                  let+ sizeAfter := current_size sessionId in
                  let+ _ := assertTransformReplayResponse descriptor offset (r_length change)
                    sizeBefore sizeAfter response in
                  let+ serial := outputT serial in
                  let+ o := outputT (tr_offset response) in
                  let+ n := outputT (tr_length response) in
                  retT (Some (mkRecord serial KTRANSFORM o n (r_data change) (r_groupId change) None))
              end
      end
  end.

(** ** Batches *)

Definition maxReplayBatchEntries : nat := 1024.

(** The loop of [flushBatch]: what the entries became. *)
Fixpoint apply_batch (batch : list ParsedChangeRecord) : T R (list ParsedChangeRecord) :=
  match batch with
  | [] => retT []
  | change :: batch =>
      let+ applied := applyChangeLogEntry change in
      match applied with
      | None => apply_batch batch
      | Some record =>
          let+ _ := count_applied in
          let+ rest := apply_batch batch in
          retT (record :: rest)
      end
  end.

(** [appliedTransactions.push(appliedBatch)], if there is anything in it. *)
Definition transaction_of (batch : list ParsedChangeRecord) : list (list ParsedChangeRecord) :=
  match batch with [] => [] | _ => [batch] end.

Definition flushBatch (pendingBatch : list ParsedChangeRecord) : T R (list (list ParsedChangeRecord)) :=
  match pendingBatch with
  | [] => retT []
  | _ =>
      let+ _ := via_edit (bracket BeginSessionTransaction) in
      let+ appliedBatch := finallyT (apply_batch pendingBatch) (via_edit (bracket EndSessionTransaction)) in
      retT (transaction_of appliedBatch)
  end.

(** The loop over the entries with [pendingBatch]; it collects
    [appliedTransactions].  [ended] is how the reading ends. *)
Fixpoint replay_loop (changes : list ParsedChangeRecord) (ended : result unit)
  (pendingBatch : list ParsedChangeRecord) : T R (list (list ParsedChangeRecord)) :=
  match changes with
  | [] => let+ _ := checkedT ended in flushBatch pendingBatch
  | change :: changes =>
      if bool_decide (r_kind change = KTRANSFORM) then
        let+ flushed := flushBatch pendingBatch in
        let+ applied := applyChangeLogEntry change in
        match applied with
        | None => let+ rest := replay_loop changes ended [] in retT (flushed ++ rest)
        | Some record =>
            let+ _ := count_applied in
            let+ rest := replay_loop changes ended [] in
            retT (flushed ++ [record] :: rest)
        end
      else
        let pendingBatch := pendingBatch ++ [change] in
        if (maxReplayBatchEntries <=? length pendingBatch)%nat then
          let+ flushed := flushBatch pendingBatch in
          let+ rest := replay_loop changes ended [] in
          retT (flushed ++ rest)
        else replay_loop changes ended pendingBatch
  end.

(** The [try] of [applyChangeLogEntries]. *)
Definition replay_body (changes : list ParsedChangeRecord * result unit)
  (expectedAfter : option NormalizedChangeLogFingerprint) : T R (list (list ParsedChangeRecord)) :=
  let+ applied := replay_loop changes.1 changes.2 [] in
  let+ _ := match expectedAfter with
            | Some expected => assertCurrentSessionFingerprint expected
            | None => retT tt
            end in
  retT applied.

(** ** A replay

    What it ends in: the number of entries applied, or an error with details
    about the roll-back.  [replay_failed] has the message of the error and
    [changeLogReplay]. *)
Record failure_details := mkFailure {
  fd_appliedCount : Z;
  fd_rollback : rollback_report;
  fd_finalFingerprint : option NormalizedChangeLogFingerprint
}.

Inductive apply_outcome :=
  | Applied (count : Z)
  | ApplyFailed (message : jsstring) (details : failure_details).

Definition via_replay {A} (m : T R A) : T (hosting S) A := fun s =>
  let '(calls, r) := m (ho_calls s) in (mkHosting calls (ho_history s) (ho_documentChanges s), r).

Definition on_history (f : History.history -> History.history) : T (hosting S) unit := fun s =>
  (mkHosting (ho_calls s) (f (ho_history s)) (ho_documentChanges s), inr tt).

(** The event of [notifyDocumentChanged]. *)
Definition notifyDocumentChanged : T (hosting S) unit := fun s =>
  (mkHosting (ho_calls s) (ho_history s) (Datatypes.S (ho_documentChanges s)), inr tt).

Section Applying.
(** [waitForSync], the wait of [SessionModel] for the events of the server,
    and [sendViewportData], which asks for the bytes to show. *)
Variable waitForSessionSync : T S unit.
Variable sendViewportData : T S unit.

(** [recordAppliedChanges] *)
Definition recordAppliedChanges (appliedTransactions : list (list ParsedChangeRecord)) : T (hosting S) unit :=
  match appliedTransactions with
  | [] => retT tt
  | _ =>
      let+ _ := on_history (fun h =>
        foldl (fun h transaction => recordLocalChanges (map history_record transaction) h) h appliedTransactions) in
      let+ _ := notifyDocumentChanged in
      via_replay (via_call waitForSessionSync)
  end.

(** The [try] of the roll-back. *)
Definition roll_back (startChangeCount : Z) : T R bool :=
  let+ rolledBack := rollbackSessionToChangeCount startChangeCount in
  if rolledBack : bool then
    let+ _ := via_call waitForSessionSync in
    let+ _ := via_call sendViewportData in
    retT true
  else retT false.

Definition getFinalFingerprint (expectedAfter : option NormalizedChangeLogFingerprint)
  : T R (option NormalizedChangeLogFingerprint) :=
  match expectedAfter with
  | Some expected => caught (fingerprint_like expected)
  | None => retT None
  end.

(** The [catch] of [applyChangeLogEntries]; [appliedChangeCount] is what
    [count_applied] counts. *)
Definition replay_failed (startChangeCount : Z) (expectedAfter : option NormalizedChangeLogFingerprint)
  (error : js_error) : T R apply_outcome := fun s =>
  let appliedCount := rw_applied s in
  match roll_back startChangeCount s with
  | (s, inr rolledBack) =>
      (let+ fp := getFinalFingerprint expectedAfter in
       retT (ApplyFailed (err_message error) (mkFailure appliedCount
         (mkRollback true (Some true) (Some rolledBack) (Some startChangeCount) None) fp))) s
  | (s, inl rollbackError) =>
      (let+ fp := getFinalFingerprint expectedAfter in
       retT (ApplyFailed (combined_message error rollbackError) (mkFailure appliedCount
         (mkRollback true (Some false) None (Some startChangeCount) (Some (err_message rollbackError))) fp))) s
  end.

Definition reset_count : T R unit := fun s => (mkReplaying (rw_world s) 0, inr tt).

(** The [try] and [catch]: the transactions to record, or the outcome. *)
Definition replay_or_roll_back (changes : list ParsedChangeRecord * result unit)
  (expectedAfter : option NormalizedChangeLogFingerprint) (startChangeCount : Z)
  : T R (list (list ParsedChangeRecord) * Z + apply_outcome) := fun s =>
  match replay_body changes expectedAfter s with
  | (s, inr appliedTransactions) => (s, inr (inl (appliedTransactions, rw_applied s)))
  | (s, inl error) => (let+ out := replay_failed startChangeCount expectedAfter error in retT (inr out)) s
  end.

(** [mutable] is [navigating || ensureSessionCanMutate]. *)
Definition applyChangeLogEntries (mutable : bool) (changes : list ParsedChangeRecord * result unit)
  (expectedAfter : option NormalizedChangeLogFingerprint) : T (hosting S) apply_outcome :=
  if negb mutable then retT (Applied 0)
  else
    let+ startChangeCount := via_replay (current_count sessionId) in
    let+ _ := via_replay reset_count in
    let+ ended := via_replay (replay_or_roll_back changes expectedAfter startChangeCount) in
    match ended with
    | inr failed => retT failed
    | inl (appliedTransactions, appliedChangeCount) =>
        let+ _ := recordAppliedChanges appliedTransactions in
        retT (Applied appliedChangeCount)
    end.

(** ** The commands *)

(** [createChangeLogPreview]; the fingerprints, counts and plugins are asked
    for in this order.  All issues found have severity [error]. *)
Definition createChangeLogPreview (scan : ChangeLogScanResult) : T R ChangeLogPreview :=
  let before := h_before (sc_header scan) in
  let+ current := fingerprint_like before in
  let+ same := checkedT (fingerprintsMatch current before) in
  let+ targetChangeCount := current_count sessionId in
  let+ checkpointCount := getCheckpointCount sessionId in
  let+ plugins := via_call client_listTransformPlugins in
  let missing := List.filter (fun id => negb (bool_decide (id ∈ map pi_id plugins))) (sc_requiredPlugins scan) in
  let issues :=
    match h_unavailableChangeSerials (sc_header scan) with [] => [] | _ => [UnavailablePrimitives] end ++
    (if same : bool then [] else [BeforeFingerprintMismatch]) ++ map MissingTransformPlugin missing in
  let+ size := checkedT (createExpectedSizeDelta scan) in
  retT (mkLogPreview (length issues =? 0)%nat (Some current) size missing
    (mkProtection true (Some targetChangeCount) (Some checkpointCount)) issues).

(** What [applyChangeLog] reports. *)
Inductive command_outcome :=
  | LogCancelled                                     (* nothing was chosen *)
  | LogInvalid                                       (* the log was not opened *)
  | LogRefused (preview : ChangeLogPreview)          (* the preview has issues, or was declined *)
  | LogApplied (preview : ChangeLogPreview) (count : Z) (finalFingerprint : NormalizedChangeLogFingerprint)
  | LogFailed (preview : ChangeLogPreview) (message : jsstring) (details : failure_details).

(** [opened] is the answer of [openParsedChangeLog] for the log that was
    chosen; [accepted] the answer to the question, [true] where the command
    names the log; [mutable] and [still_mutable] whether the session may be
    changed at first and when the replay begins.  A log that was prepared yields its entries as
    [parsed_entries] gives them.

    [truncateCheckpointTimelineFuture] follows a replay that applied
    something. *)
Definition applyChangeLog (mutable still_mutable : bool) (chosen : option (result ParsedChangeLog)) (accepted : bool)
  (truncateCheckpointTimelineFuture : T S unit) : T (hosting S) (option command_outcome) :=
  if negb mutable then retT None
  else
    match chosen with
    | None => retT (Some LogCancelled)
    | Some (Throw _) => retT (Some LogInvalid)
    | Some (Ok parsed) =>
        let+ preview := via_replay (createChangeLogPreview (pl_scan parsed)) in
        if negb (lp_canApply preview) || negb accepted then retT (Some (LogRefused preview))
        else
          let after := h_after (sc_header (pl_scan parsed)) in
          let '(es, ended) := pl_entries parsed 0 in
          let+ outcome := applyChangeLogEntries still_mutable (parsed_entries es ended) (Some after) in
          match outcome with
          | ApplyFailed message details => retT (Some (LogFailed preview message details))
          | Applied appliedChangeCount =>
              let+ finalFingerprint := via_replay (fingerprint_like after) in
              let+ _ := (if 0 <? appliedChangeCount
                         then via_replay (via_call truncateCheckpointTimelineFuture) else retT tt) in
              retT (Some (LogApplied preview appliedChangeCount finalFingerprint))
          end
    end.
End Applying.
End Replay.

(** ** A replay keeps the past *)

Section Rollback.
Context {S : Type} `{EditBackend S} `{Transport S} `{JsonText} (sessionId : jsstring) `{!ChangeHistory sessionId}.
Context (replace_other : bytes -> bytes -> number -> T S Z).

(** Reading a segment changes nothing; a checkpointed replacement is a
    change like others. *)
Class HostCalls := {
  host_segment o n s : unchanged s (call_unary (GetSegment sessionId o n) s).1;
  host_replace_all rq s : past_kept s (call_unary (ReplaceSessionCheckpointed rq) s).1;
  host_replace_other p r f s : past_kept s (replace_other p r f s).1
}.
Context `{!HostCalls}.

#[local] Existing Instance past_kept_preorder.
#[local] Existing Instance unchanged_preorder.

Ltac still := first [apply within_ret | apply within_throw | apply within_checked | apply within_count]; apply _.
(** The next call keeps the relation by [t]. *)
Ltac step t := apply within_bind; [apply _|t|intros ?].

Lemma kept_replaceInternal o n d ws t : withinM past_kept (replaceInternal o n d ws t).
Proof.
  unfold replaceInternal. do 2 (apply withinM_bind; [apply _|apply withinM_lift; apply _|intros ?]).
  destruct (_ =? 0); [apply kept_insert|]. destruct (length d =? 0)%nat; [apply kept_del|].
  destruct (_ =? _); [apply kept_overwrite|]. destruct t; [apply kept_transaction|];
    (apply withinM_bind; [apply _|apply kept_del|intros _; apply kept_insert]).
Qed.

Lemma kept_for_each {A} (f : A -> M (world S) Z) l : (forall a, withinM past_kept (f a)) ->
  forall b, withinM past_kept (for_each f l b).
Proof.
  intros Hf. induction l as [|a l IH]; intros b; cbn; [apply withinM_ret; apply _|].
  apply withinM_bind; [apply _|apply Hf|intros r; apply IH].
Qed.

Lemma kept_editSimple o original edited ws t : withinM past_kept (editSimple o original edited ws t).
Proof.
  unfold editSimple. apply withinM_bind; [apply _|apply withinM_lift; apply _|intros [rs|]].
  2:{ apply withinM_ret. apply _. }
  destruct (t && _); [apply kept_transaction|]; apply kept_for_each; intros a; apply kept_replaceInternal.
Qed.

Lemma past_request {A} (rel : S -> S -> Prop) `{!PreOrder rel} (m : T S A) :
  (forall s, rel s (m s).1) -> withinM rel (request (as_request m)).
Proof.
  intros Hm. apply withinM_bind; [apply _|apply withinM_call|intros r; apply withinM_lift; apply _].
  intros s. specialize (Hm s). unfold as_request. by destruct (m s).
Qed.

Lemma segment_unchanged o n : within unchanged (via_edit (@SessionApi.getSegment S (session_rpc sessionId) o n)).
Proof.
  apply within_edit. do 2 (apply withinM_bind; [apply _|apply withinM_lift; apply _|intros ?]).
  apply past_request; [apply _|]. intros s. unfold UnaryCalls.getSegment, required.
  apply unary_rel; [apply _|apply hist_client|apply host_segment].
Qed.

Lemma kept_replace_all p r f :
  within past_kept (via_edit (@SessionApi.replaceSessionCheckpointed S (session_rpc sessionId) p r f (NInt 0) (NInt 0))).
Proof.
  apply within_edit. do 2 (apply withinM_bind; [apply _|apply withinM_lift; apply _|intros ?]).
  apply withinM_bind; [apply _| |intros ?; apply withinM_lift; apply _].
  apply past_request; [apply _|]. intros s. unfold UnaryCalls.replaceSessionCheckpointed, required.
  destruct (UnaryCalls.empty_pattern _); [cbn; reflexivity|].
  apply unary_rel; [apply _| |apply host_replace_all]. intros x. apply unchanged_kept, hist_client.
Qed.

Lemma kept_replace_descriptor descriptor data :
  within past_kept (replay_replace_all sessionId replace_other descriptor data).
Proof.
  unfold replay_replace_all. step still. repeat case_match; try still.
  all: step ltac:(first [apply kept_replace_all | apply within_call, host_replace_other]); case_match; still.
Qed.

Lemma kept_replace_change o n data g : within past_kept (applyReplaceChange sessionId o n data g).
Proof.
  unfold applyReplaceChange. step ltac:(destruct (0 <? n); [apply within_kept, segment_unchanged|still]).
  step ltac:(apply within_edit, kept_editSimple). destruct (_ <=? _); still.
Qed.

Lemma kept_entry change : within past_kept (applyChangeLogEntry sessionId replace_other change).
Proof.
  unfold applyChangeLogEntry. cbv zeta. destruct (r_kind change).
  - step ltac:(apply within_edit, kept_insert). still.
  - step ltac:(apply within_edit, kept_del). still.
  - step ltac:(apply within_edit, kept_overwrite). still.
  - apply kept_replace_change.
  - destruct (r_transformDescriptor change) as [d|]; [|still].
    case_match; [apply kept_replace_descriptor|].
    step ltac:(apply within_kept, size_unchanged). step ltac:(apply kept_transform).
    case_match; [still|]. case_match; [|still].
    step ltac:(apply within_kept, size_unchanged).
    step ltac:(idtac).
    { unfold assertTransformReplayResponse. case_match; [still|]. do 2 step still. case_match; [still|].
      do 2 step still. repeat case_match; still. }
    do 3 step still. still.
Qed.

Lemma kept_batch batch : within past_kept (apply_batch sessionId replace_other batch).
Proof.
  induction batch as [|change batch IH]; [still|]. cbn. step ltac:(apply kept_entry).
  case_match; [|done]. do 2 step ltac:(first [still|exact IH]). still.
Qed.

Lemma kept_flushed pending : within past_kept (flushBatch sessionId replace_other pending).
Proof.
  unfold flushBatch. destruct pending as [|p ps]; [still|].
  step ltac:(apply within_edit, kept_bracket). step ltac:(idtac); [|still].
  apply within_finally; [apply _|apply kept_batch|apply within_edit, kept_bracket].
Qed.

Lemma kept_replay changes ended : forall pending, within past_kept (replay_loop sessionId replace_other changes ended pending).
Proof.
  induction changes as [|change changes IH]; intros pending; cbn.
  - step still. apply kept_flushed.
  - case_match; [|case_match; [|apply IH]].
    + step ltac:(apply kept_flushed). step ltac:(apply kept_entry).
      case_match; [step still|]; (step ltac:(apply IH); still).
    + step ltac:(apply kept_flushed). step ltac:(apply IH). still.
Qed.

(** The calls of [AiReplay] that this file has again. *)
Lemma same_fingerprint expected : fingerprint_like sessionId expected = AiReplay.fingerprint_like sessionId expected.
Proof. reflexivity. Qed.

Lemma same_assert expected :
  assertCurrentSessionFingerprint sessionId expected = AiReplay.assertCurrentSessionFingerprint sessionId expected.
Proof. reflexivity. Qed.

Lemma same_rollback n : rollbackSessionToChangeCount sessionId n = AiReplay.rollbackSessionToChangeCount sessionId n.
Proof. reflexivity. Qed.

Lemma kept_replay_body changes expectedAfter :
  within past_kept (replay_body sessionId replace_other changes expectedAfter).
Proof.
  unfold replay_body. step ltac:(apply kept_replay). step ltac:(idtac); [|still].
  destruct expectedAfter; [|still]. rewrite same_assert. apply within_kept, assert_unchanged.
Qed.

(** *** Counting *)

Lemma uncounted_entry change : uncounted (applyChangeLogEntry sessionId replace_other change).
Proof.
  unfold applyChangeLogEntry, applyReplaceChange, replay_replace_all, assertTransformReplayResponse, current_size.
  cbv zeta. uncount.
Qed.

Definition changed (applied : list (list ParsedChangeRecord)) : Z := Z.of_nat (length (concat applied)).

Lemma adds_batch batch : adds (apply_batch sessionId replace_other batch) (fun l => Z.of_nat (length l)).
Proof.
  induction batch as [|change batch IH]; cbn; [by apply adds_ret|].
  silently ltac:(apply uncounted_entry). case_match.
  - eapply adds_bind; [apply adds_count|intros ?]. eapply adds_bind; [exact IH|intros rest].
    apply adds_ret. cbn. lia.
  - eapply adds_weaken; [exact IH|intros; lia].
Qed.

Lemma adds_flush pending : adds (flushBatch sessionId replace_other pending) changed.
Proof.
  unfold flushBatch. destruct pending as [|p ps]; [by apply adds_ret|].
  silently ltac:(apply uncounted_edit).
  eapply adds_bind; [apply adds_finally; [apply adds_batch|apply uncounted_edit]|intros batch].
  apply adds_ret. unfold changed. destruct batch; cbn; [lia|]. rewrite app_nil_r. cbn. lia.
Qed.

Lemma changed_app a b : changed (a ++ b) = changed a + changed b.
Proof. unfold changed. rewrite concat_app, length_app. lia. Qed.

Lemma adds_loop changes ended : forall pending, adds (replay_loop sessionId replace_other changes ended pending) changed.
Proof.
  induction changes as [|change changes IH]; intros pending; cbn.
  - silently ltac:(apply uncounted_lift). eapply adds_weaken; [apply adds_flush|intros; lia].
  - case_match; [|case_match; [|apply IH]].
    + eapply adds_bind; [apply adds_flush|intros flushed]. silently ltac:(apply uncounted_entry).
      case_match; [eapply adds_bind; [apply adds_count|intros ?]|];
        (eapply adds_bind; [apply IH|intros rest]; apply adds_ret; rewrite changed_app; unfold changed; cbn; lia).
    + eapply adds_bind; [apply adds_flush|intros flushed]. eapply adds_bind; [apply IH|intros rest].
      apply adds_ret. rewrite changed_app. lia.
Qed.

Lemma adds_body changes expectedAfter : adds (replay_body sessionId replace_other changes expectedAfter) changed.
Proof.
  unfold replay_body. eapply adds_bind; [apply adds_loop|intros applied].
  silently ltac:(destruct expectedAfter; [rewrite same_assert; apply uncounted_assert|apply uncounted_ret]). apply adds_ret. lia.
Qed.

(** *** The outcome of a replay *)

Section Outcome.
Context (waitForSessionSync sendViewportData : T S unit).
Context (Hwait : forall x, unchanged x (waitForSessionSync x).1).
Context (Hview : forall x, unchanged x (sendViewportData x).1).

Definition recorded (h : History.history) (applied : list (list ParsedChangeRecord)) : History.history :=
  foldl (fun h transaction => recordLocalChanges (map history_record transaction) h) h applied.

(** The session behind the extension. *)
Definition session (s : hosting S) : S := srv (ho_calls s).

Lemma bindT_either {X A B} (m : T X A) (f : A -> B) s s' r :
  bindT m (fun a => retT (f a)) s = (s', r) ->
  exists s1 r1, m s = (s1, r1) /\ (s1, match r1 with inl e => inl e | inr a => inr (f a) end) = (s', r).
Proof. unfold bindT. destruct (m s) as [s1 [e|a]]; intros [= <- <-]; by do 2 eexists. Qed.

Lemma rolled_to n s s' b :
  0 <= n <= change_count (srv s) ->
  roll_back sessionId waitForSessionSync sendViewportData n s = (s', inr b) ->
  content (srv s') = content_at (srv s) n.
Proof.
  intros Hn. unfold roll_back. rewrite same_rollback. intros (s1 & b1 & E1 & E2)%bindT_returns.
  rewrite <- (rolled_back sessionId n s s1 b1 Hn E1). destruct b1; [|by injection E2 as <- _].
  apply bindT_returns in E2 as (s2 & u & E2 & E3). apply bindT_returns in E3 as (s3 & v & E3 & E4).
  injection E4 as <- _.
  apply (within_run unchanged _ _ _ _ (within_call unchanged _ Hwait)) in E2 as [E2 _].
  apply (within_run unchanged _ _ _ _ (within_call unchanged _ Hview)) in E3 as [E3 _]. congruence.
Qed.

Lemma final_unchanged expectedAfter s :
  exists o, (getFinalFingerprint sessionId expectedAfter s).2 = inr o /\
    unchanged (srv s) (srv (getFinalFingerprint sessionId expectedAfter s).1).
Proof.
  destruct expectedAfter as [fp|]; cbn [getFinalFingerprint]; [|by exists None].
  rewrite same_fingerprint. destruct (caught_total (AiReplay.fingerprint_like sessionId fp) s) as [o Ho].
  exists o. split; [done|]. apply within_caught, fingerprint_unchanged.
Qed.

Definition reports_rollback (start : bytes) (now : bytes) (d : failure_details) : Prop :=
  rb_attempted (fd_rollback d) = true /\ (rb_succeeded (fd_rollback d) = Some true -> now = start).

Lemma failed_outcome start expectedAfter error s s' r :
  0 <= start <= change_count (srv s) ->
  replay_failed sessionId waitForSessionSync sendViewportData start expectedAfter error s = (s', r) ->
  exists m d, r = inr (ApplyFailed m d) /\ fd_appliedCount d = rw_applied s /\
    reports_rollback (content_at (srv s) start) (content (srv s')) d.
Proof.
  intros Hn. unfold replay_failed. cbv zeta.
  destruct (roll_back sessionId waitForSessionSync sendViewportData start s) as [s1 [e|b]] eqn:Er;
    unfold bindT; destruct (final_unchanged expectedAfter s1) as (o & Eo & Hu);
    destruct (getFinalFingerprint sessionId expectedAfter s1) as [s2 r2]; cbn in Eo, Hu; subst r2;
    intros [= <- <-]; do 2 eexists; (split; [reflexivity|]); (split; [reflexivity|]); (split; [reflexivity|]); [done|].
  intros _. apply (rolled_to start s s1 b Hn) in Er. destruct Hu as [Hu _]. congruence.
Qed.

(** The history has the transactions applied, and VS Code is told once that
    there are any. *)
Definition replayed (s s' : hosting S) (applied : list (list ParsedChangeRecord)) : Prop :=
  ho_history s' = recorded (ho_history s) applied /\
  ho_documentChanges s' = (ho_documentChanges s + (if bool_decide (applied = []) then 0 else 1))%nat.

Lemma recorded_outcome applied s :
  let '(s', r) := recordAppliedChanges waitForSessionSync applied s in
  replayed s s' applied /\ content (session s') = content (session s) /\ (applied = [] -> r = inr tt).
Proof.
  unfold recordAppliedChanges. destruct applied as [|t ts].
  { cbn. split; [|done]. split; [done|cbn; lia]. }
  unfold bindT, on_history, notifyDocumentChanged, via_replay. cbn [ho_calls ho_history ho_documentChanges].
  pose proof (within_call unchanged _ Hwait (ho_calls s)) as [Hc _].
  destruct (via_call waitForSessionSync (ho_calls s)) as [c r]. split; [|by split].
  split; [done|cbn; lia].
Qed.

(** The [try] and [catch] of a replay that began at the count of the session. *)
Lemma tried_outcome changes expectedAfter s s' r :
  replay_or_roll_back sessionId replace_other waitForSessionSync sendViewportData changes expectedAfter
    (change_count (srv s)) s = (s', r) ->
  match r with
  | inr (inl (applied, n)) => n = rw_applied s + changed applied
  | inr (inr (ApplyFailed _ d)) => reports_rollback (content (srv s)) (content (srv s')) d
  | _ => False
  end.
Proof.
  unfold replay_or_roll_back. destruct (replay_body sessionId replace_other changes expectedAfter s)
    as [s1 [error|applied]] eqn:Eb.
  - pose proof (kept_replay_body changes expectedAfter s) as Hk. rewrite Eb in Hk. cbn in Hk.
    intros (s2 & out & Ef & [= <- <-])%bindT_either.
    apply failed_outcome in Ef as (m & d & [= ->] & _ & Hd); [|pose proof (hist_nonneg (srv s)); destruct Hk; lia].
    destruct Hk as [_ Hk]. rewrite Hk, hist_now in Hd; [done|]. pose proof (hist_nonneg (srv s)). lia.
  - intros [= <- <-]. by apply adds_body in Eb.
Qed.
End Outcome.
End Rollback.

(** ** Replays that succeed

    Transforms are the server's and a REPLACE is planned by [editSimple]; the
    other kinds, which are those of an exported log, do what they say. *)

Definition replay_record (r : ParsedChangeRecord) (b : bytes) : option bytes :=
  let o := r_offset r in
  let n := r_length r in
  let data := hex_decode (r_data r) in
  let empty := (length data =? 0)%nat in
  let size := Z.of_nat (length b) in
  if (o <? 0) || (MAX_SAFE_INTEGER <? o) || (MAX_SAFE_INTEGER <? n) then None
  else
    match r_kind r with
    | KINSERT => if empty || (size <? o) then None else Some (apply_insert o data b)
    | KDELETE => if (n <=? 0) || (size <? o + n) then None else Some (apply_delete o n b)
    | KOVERWRITE =>
        if empty || (size <? o + Z.of_nat (length data)) then None else Some (apply_overwrite o data b)
    | KREPLACE | KTRANSFORM => None
    end.

Fixpoint replay_records (rs : list ParsedChangeRecord) (b : bytes) : option bytes :=
  match rs with
  | [] => Some b
  | r :: rs => match replay_record r b with Some b => replay_records rs b | None => None end
  end.

Lemma replay_records_app rs qs b b' :
  replay_records (rs ++ qs) b = Some b' <->
  exists b1, replay_records rs b = Some b1 /\ replay_records qs b1 = Some b'.
Proof.
  revert b. induction rs as [|r rs IH]; intros b; cbn.
  - split; [by eauto|]. by intros (b1 & [= ->] & H).
  - destruct (replay_record r b); [apply IH|]. split; [done|]. by intros (b1 & ? & _).
Qed.

(** What an entry that was applied is recorded as; the serial is the
    server's. *)
Definition applied_as (r applied : ParsedChangeRecord) : Prop :=
  applied = mkRecord (r_serial applied) (r_kind r) (r_offset r)
    (match r_kind r with
     | KINSERT => 0
     | KOVERWRITE => Z.of_nat (length (hex_decode (r_data r)))
     | _ => r_length r
     end) (r_data r) (r_groupId r) None.

(** The transactions that [n] entries make. *)
Definition batches (n : nat) : nat := ((n + 1023) / 1024)%nat.

(** ** What a replay that returns has done *)

Section Whole.
Context {S : Type} `{EditBackendLaws S} `{Transport S} `{JsonText} (sessionId : jsstring) `{!ChangeHistory sessionId}.
Context (replace_other : bytes -> bytes -> number -> T S Z) `{!HostCalls sessionId replace_other}.

(** What the session answers when the bytes that an entry replaces are read. *)
Definition segment_read (o n : Z) (b original : bytes) : Prop :=
  if 0 <? n
  then exists s s', content (srv s) = b /\
         via_edit (@SessionApi.getSegment S (session_rpc sessionId) (NInt o) (NInt n)) s = (s', inr original)
  else original = [].

(** One checkpointed replacement as the descriptor says, which replaced
    something. *)
Definition replaced_all (d : ChangeLogTransformDescriptor) (b b' : bytes) : Prop :=
  exists options query isHex folding replacement count s s',
    HostRecords.parseTransformOptionsJson (optionsJson d) "checkpointed replace-all replay" = Ok options /\
    get (js "query") (props options) = JString query /\ get (js "isHex") (props options) = JBool isHex /\
    get (js "caseFolding") (props options) = JNumber folding /\ get (js "data") (props options) = JString replacement /\
    content (srv s) = b /\ content (srv s') = b' /\ 0 < count /\
    let pattern := if isHex then hex_decode query else utf8_encode query in
    match folding_of folding with
    | Some f => via_edit (@SessionApi.replaceSessionCheckpointed S (session_rpc sessionId) pattern (hex_decode replacement)
                  f (NInt 0) (NInt 0)) s = (s', inr count)
    | None => via_call (replace_other pattern (hex_decode replacement) folding) s = (s', inr count)
    end.

(** What an entry does, and the record it leaves: edits make what they say of
    content they are in range of; a transform is the server's. *)
Definition record_effect (x : ParsedChangeRecord * option ParsedChangeRecord) (b b' : bytes) : Prop :=
  let '(r, made) := x in
  let data := hex_decode (r_data r) in
  match r_kind r with
  | KTRANSFORM => exists d, r_transformDescriptor r = Some d /\
      if bool_decide (transformId d = INTERNAL_REPLACE_ALL_REPLAY_ID)
      then replaced_all d b b' /\ made = Some (mkRecord 1 KTRANSFORM 0 0 (r_data r) None None)
      else transformed sessionId d (r_offset r) (r_length r) b b' /\
           exists a, made = Some a /\ applied_as r a
  | KREPLACE => exists original serial, segment_read (r_offset r) (r_length r) b original /\
      made = (if serial <=? 0 then None
              else Some (mkRecord serial KREPLACE (r_offset r) (r_length r) (r_data r) (r_groupId r) None)) /\
      forall pre post, b = pre ++ original ++ post -> Z.of_nat (length pre) = r_offset r ->
        Z.of_nat (length pre + length original) <= MAX_SAFE_INTEGER ->
        b' = pre ++ data ++ post /\ (original <> data -> serial <> 0)
  | _ => (exists a, made = Some a /\ applied_as r a) /\ forall b1, replay_record r b = Some b1 -> b' = b1
  end.

#[local] Existing Instance unchanged_preorder.

Lemma via_edit_performed {A} (m : M (world S) A) s s' a b1 Q :
  via_edit m s = (s', inr a) -> performs m (content (srv s)) b1 Q -> content (srv s') = b1 /\ Q a.
Proof.
  unfold via_edit. intros E Hp. destruct (Hp (rw_world s) eq_refl) as [Hs _].
  destruct (m (rw_world s)) as [w [r|x]]; [|done]. injection E as <- <-. by apply Hs.
Qed.

Lemma record_applied r s s' made : applyChangeLogEntry sessionId replace_other r s = (s', inr made) ->
  r_kind r <> KTRANSFORM -> record_effect (r, made) (content (srv s)) (content (srv s')).
Proof.
  unfold applyChangeLogEntry, record_effect. cbv zeta. intros E Hk.
  destruct (r_kind r) eqn:Ek; [..|done].
  1,2,3: returned E; injection E as <- <-; (split; [eexists; split; [reflexivity|unfold applied_as; by rewrite Ek]|]);
    intros b1; unfold replay_record; cbv zeta; rewrite Ek; (destruct (_ || _ || _) eqn:Er; [done|]); bool_prop;
    (destruct (_ || _) eqn:Eb; [done|]); intros Hb1; injection Hb1 as <-; bool_prop;
    refine (proj1 (via_edit_performed _ _ _ _ _ _ F _));
    first [apply performs_insert | apply performs_del | apply performs_overwrite];
    try lia; try (intros Hd; rewrite Hd in *; by cbn in *).
  unfold applyReplaceChange in E. returned E.
  assert (Hr : segment_read (r_offset r) (r_length r) (content (srv s)) a /\ content (srv t) = content (srv s)).
  { unfold segment_read. destruct (0 <? r_length r); [|by injection F as <- <-].
    split; [by exists s, t|]. by apply (within_run unchanged _ _ _ _ (segment_unchanged sessionId replace_other _ _)) in F as [F _]. }
  destruct Hr as [Hr Hc]. exists a, a0. split; [done|].
  split; [destruct (a0 <=? 0); by injection E as <- <-|].
  assert (srv s' = srv t0) as -> by (destruct (a0 <=? 0); by injection E as <- <-).
  intros pre post Hb Hpre Hmax. rewrite <- Hc in Hb.
  pose proof (performs_editSimple (S := S) pre post a (hex_decode (r_data r)) false true Hmax) as Hp.
  rewrite <- Hb, Hpre in Hp. exact (via_edit_performed _ _ _ _ _ _ F0 Hp).
Qed.

Lemma replace_all_applied d r s s' made :
  replay_replace_all sessionId replace_other d (r_data r) s = (s', inr made) ->
  replaced_all d (content (srv s)) (content (srv s')) /\
  made = Some (mkRecord 1 KTRANSFORM 0 0 (r_data r) None None).
Proof.
  unfold replay_replace_all. intros E. returned E. apply checkedT_returns in F as [-> Eo].
  destruct (get (js "query") _) as [| | | | |query| |] eqn:Eq; try done.
  destruct (get (js "isHex") _) as [| |isHex| | | | |] eqn:Eh; try done.
  destruct (get (js "caseFolding") _) as [| | |folding| | | |] eqn:Ef; try done.
  destruct (get (js "data") _) as [| | | | |replacement| |] eqn:Ed; try done.
  returned E. destruct (Z.leb_spec a0 0); [done|]. injection E as <- <-. split; [|done].
  exists a, query, isHex, folding, replacement, a0, s, t. split_and!; try done.
  cbv zeta. by destruct (folding_of folding).
Qed.

Lemma host_transform_applied r s s' made : applyChangeLogEntry sessionId replace_other r s = (s', inr made) ->
  r_kind r = KTRANSFORM -> record_effect (r, made) (content (srv s)) (content (srv s')).
Proof.
  unfold applyChangeLogEntry, record_effect. cbv zeta. intros E Hk. rewrite Hk in *.
  destruct (r_transformDescriptor r) as [d|]; [|done]. exists d. split; [done|].
  case_bool_decide; [by apply replace_all_applied|]. returned E.
  destruct (tr_contentChanged a0) eqn:Ec; [|done]. cbn [negb] in E.
  destruct (tr_serial a0) as [serial|]; [|done]. returned E.
  apply (size_answered sessionId) in F as [Hs Hc]. apply (size_answered sessionId) in F1 as [Hs1 Hc1].
  apply (transform_answered sessionId) in F0 as (x & Hx & Ex).
  injection E as <- <-.
  repeat match goal with F : outputT _ _ = _ |- _ => apply checkedT_returns in F as [-> [? _]%requireSafeIntegerOutput_inv] end.
  unfold assertTransformReplayResponse in F2. case_bool_decide as Ep; [|done]. cbn [negb] in F2. returned F2.
  apply checkedT_returns in F as [-> [Eo _]%requireSafeIntegerOutput_inv].
  apply checkedT_returns in F0 as [-> [En _]%requireSafeIntegerOutput_inv].
  destruct (negb (a6 =? r_offset r) || negb (a7 =? r_length r)) eqn:Eon; [done|].
  apply orb_false_iff in Eon as [Eo' En']. bool_prop. subst a6 a7. returned F2.
  apply checkedT_returns in F as [-> [Er _]%requireSafeIntegerOutput_inv]. apply checkedT_returns in F0 as [-> _].
  destruct (Z.eqb_spec a7 (a - r_length r + a6)); [|done]. cbn [negb] in F2.
  destruct (Z.eqb_spec a1 a7); [|done]. cbn [negb] in F2. injection F2 as <-.
  assert (a4 = r_offset r /\ a5 = r_length r) as [-> ->] by (split; congruence).
  split; [|eexists; split; [reflexivity|unfold applied_as; by rewrite Hk]].
  exists x, (srv t0), a0, a6, a. split_and!; try done; [congruence|]. by rewrite Hc1, <- e, <- e0.
Qed.

(** *** In order *)

(** What entries became. *)
Definition made_of (l : list (ParsedChangeRecord * option ParsedChangeRecord)) : list ParsedChangeRecord :=
  omap snd l.

Lemma made_length l : (length (made_of l) <= length l)%nat.
Proof. unfold made_of. induction l as [|[r [a|]] l IH]; cbn in *; lia. Qed.

Lemma leads_record r : leads record_effect (applyChangeLogEntry sessionId replace_other r) (fun o l => l = [(r, o)]).
Proof.
  intros s s' o E. exists [(r, o)]. split; [done|]. eexists. split; [|reflexivity].
  destruct (decide (r_kind r = KTRANSFORM)); [by apply host_transform_applied|by apply record_applied].
Qed.

Lemma quiet_count : quiet (@count_applied S).
Proof. done. Qed.

Lemma leads_batch batch : leads record_effect (apply_batch sessionId replace_other batch)
  (fun applied l => map fst l = batch /\ made_of l = applied).
Proof.
  induction batch as [|r batch IH]; cbn [apply_batch]; [by apply leads_ret|].
  eapply leads_bind; [apply leads_record|]. intros [a|] l ->.
  - eapply leads_bind; [apply leads_quiet, quiet_count|]. intros _ k ->.
    eapply leads_bind; [exact IH|]. intros rest k [Hk Hm]. apply leads_ret. rewrite app_nil_r.
    split; [cbn; by rewrite Hk|]. change (a :: made_of k = a :: rest). by rewrite Hm.
  - eapply leads_weaken; [exact IH|]. intros applied k [Hk Hm]. cbn. by rewrite Hk.
Qed.

(** Transactions hold something, and at most [n] records. *)
Definition sized (n : nat) (applied : list (list ParsedChangeRecord)) : Prop :=
  Forall (fun t => t <> [] /\ (length t <= n)%nat) applied.

Definition in_transactions (n : nat) (rs : list ParsedChangeRecord) (applied : list (list ParsedChangeRecord))
  (l : list (ParsedChangeRecord * option ParsedChangeRecord)) : Prop :=
  map fst l = rs /\ made_of l = concat applied /\ sized n applied.

Lemma in_transactions_app n rs qs a b l k :
  in_transactions n rs a l -> in_transactions n qs b k -> in_transactions n (rs ++ qs) (a ++ b) (l ++ k).
Proof.
  intros (<- & Hm & Hs) (<- & Hm' & Hs'). split; [apply map_app|]. split; [|by apply Forall_app].
  unfold made_of. by rewrite omap_app, concat_app, <- Hm, <- Hm'.
Qed.

Lemma leads_flushed pending n : (length pending <= n)%nat ->
  leads record_effect (flushBatch sessionId replace_other pending) (in_transactions n pending).
Proof.
  intros Hn. unfold flushBatch. destruct pending as [|p ps]; [apply leads_ret; split; [done|by split; [|constructor]]|].
  eapply leads_bind; [apply leads_quiet, quiet_bracket|]. intros _ l ->.
  eapply leads_bind; [apply leads_finally; [apply leads_batch|apply quiet_bracket]|].
  intros batch k [Hk Hm]. apply leads_ret. rewrite app_nil_r. cbn [app]. split; [done|].
  assert (Hlen : (length batch <= n)%nat).
  { rewrite <- Hm. etransitivity; [|exact Hn]. rewrite <- Hk, length_map. apply made_length. }
  rewrite Hm. destruct batch as [|a batch]; [by split; [|constructor]|]. cbn. rewrite app_nil_r.
  split; [done|]. constructor; [by split|constructor].
Qed.

Lemma leads_replay rs ended : forall pending, (length pending < 1024)%nat ->
  leads record_effect (replay_loop sessionId replace_other rs ended pending)
    (fun applied l => ended = Ok tt /\ in_transactions 1024 (pending ++ rs) applied l).
Proof.
  induction rs as [|r rs IH]; intros pending Hp; cbn [replay_loop].
  { eapply leads_bind; [apply leads_checked|]. intros [] l [-> ->]. rewrite app_nil_r.
    eapply leads_weaken; [apply (leads_flushed pending 1024); lia|]. by intros applied k. }
  assert (Hlen : length (pending ++ [r]) = Datatypes.S (length pending)) by (rewrite length_app; cbn; lia).
  rewrite (cons_middle r pending rs). case_match.
  - eapply leads_bind; [apply (leads_flushed pending 1024); lia|]. intros flushed l Hl.
    eapply leads_bind; [apply leads_record|]. intros [a|] k ->.
    + eapply leads_bind; [apply leads_quiet, quiet_count|]. intros _ k ->.
      eapply leads_bind; [by apply (IH []); cbn; lia|]. intros rest k [-> Hk]. apply leads_ret. split; [done|].
      rewrite app_nil_r. apply in_transactions_app; [done|]. apply (in_transactions_app 1024 [r] rs [[a]] rest [_] k); [|done].
      split; [done|]. split; [done|]. constructor; [split; [done|cbn; lia]|constructor].
    + eapply leads_bind; [by apply (IH []); cbn; lia|]. intros rest k [-> Hk]. apply leads_ret. split; [done|].
      rewrite app_nil_r. apply in_transactions_app; [done|]. apply (in_transactions_app 1024 [r] rs [] rest [_] k); [|done].
      split; [done|]. split; [done|constructor].
  - rewrite app_assoc. unfold maxReplayBatchEntries. destruct (Nat.leb_spec 1024 (length (pending ++ [r]))); [|by apply IH; lia].
    eapply leads_bind; [apply (leads_flushed (pending ++ [r]) 1024); lia|]. intros flushed l Hl.
    eapply leads_bind; [by apply (IH []); cbn; lia|]. intros rest k [-> Hk]. apply leads_ret. split; [done|].
    rewrite app_nil_r. by apply in_transactions_app.
Qed.

(** ** A log is applied or taken back *)

(** What [applied] tells of a replay of [changes] that takes [b] to [b']: the
    log was read to its end, its entries were applied in order, [applied] is
    what they left, in transactions of at most 1024 records, and the session
    answered the fingerprint expected of it. *)
Definition entries_applied (changes : list ParsedChangeRecord * result unit)
  (expectedAfter : option NormalizedChangeLogFingerprint) (applied : list (list ParsedChangeRecord))
  (b b' : bytes) : Prop :=
  changes.2 = Ok tt /\
  (exists l, in_transactions 1024 changes.1 applied l /\ chain record_effect l b b') /\
  match expectedAfter with Some fp => answers_fingerprint sessionId fp b' | None => True end.

Lemma body_applied changes expectedAfter s s' applied :
  replay_body sessionId replace_other changes expectedAfter s = (s', inr applied) ->
  entries_applied changes expectedAfter applied (content (srv s)) (content (srv s')).
Proof.
  unfold replay_body. intros E. returned E. injection E as <- <-.
  apply (leads_replay changes.1 changes.2 []) in F as (l & [He Hl] & Hc); [|cbn; lia].
  assert (Hf : match expectedAfter with
               | Some fp => answers_fingerprint sessionId fp (content (srv t))
               | None => True
               end /\ content (srv t0) = content (srv t)).
  { destruct expectedAfter as [fp|]; [|by injection F0 as <-]. destruct a0. rewrite same_assert in F0.
    by apply (fingerprint_asserted sessionId). }
  destruct Hf as [Hf Hs]. rewrite Hs. split; [done|]. split; [by exists l|done].
Qed.

Context (waitForSessionSync sendViewportData : T S unit).
Context (Hwait : forall x, unchanged x (waitForSessionSync x).1).
Context (Hview : forall x, unchanged x (sendViewportData x).1).

(** C8 A change log changes the session of the extension as a whole.  When
    entries are reported as applied, the log was read to its end without an
    error, every entry was applied in order - an edit makes what it says of
    the content it meets, where it is in range of it, a replacement puts its
    data where the bytes were that the session gave, a transform was run by
    the server, changed the content and accounts for its size - the session
    answered the expected fingerprint for what is left, the records of the
    entries are in the history, in transactions of at most 1024, VS Code is
    told once, and the number reported is that of the records; in a session
    that may not be changed nothing is done and the number is 0.  (Waiting for
    the session and showing its bytes are taken to leave it as it is.)  When the
    replay fails the history and what VS Code knows are as they were, the
    failure says whether it was rolled back, and what was rolled back has the
    content it had.  When it throws, nothing was done, or all of it was done
    and recorded and the wait for the session to follow has failed. *)
Theorem log_applied_or_rolled_back mutable changes expectedAfter s s' out :
  applyChangeLogEntries sessionId replace_other waitForSessionSync sendViewportData mutable changes expectedAfter s
    = (s', out) ->
  let whole applied := replayed s s' applied /\
    entries_applied changes expectedAfter applied (content (session s)) (content (session s')) in
  let nothing := ho_history s' = ho_history s /\ ho_documentChanges s' = ho_documentChanges s in
  match out with
  | inr (Applied n) =>
      if mutable then exists applied, n = changed applied /\ whole applied else n = 0 /\ s' = s
  | inr (ApplyFailed _ d) => nothing /\ reports_rollback (content (session s)) (content (session s')) d
  | inl _ => (nothing /\ content (session s') = content (session s)) \/
      exists applied, applied <> [] /\ whole applied
  end.
Proof.
  unfold applyChangeLogEntries. destruct mutable; cbn [negb]; [|by intros [= <- <-]].
  unfold bindT at 1, via_replay at 1. pose proof (count_unchanged sessionId (ho_calls s)) as Hc.
  destruct (current_count sessionId (ho_calls s)) as [c [e|start]] eqn:Ec; cbn in Hc; destruct Hc as (Hc & Hn & _).
  { intros [= <- <-]. by left. }
  apply (change_counted sessionId) in Ec as ->. unfold bindT at 1, via_replay at 1, reset_count.
  cbn [ho_calls ho_history ho_documentChanges].
  unfold bindT at 1, via_replay at 1. cbn [ho_calls ho_history ho_documentChanges].
  destruct (replay_or_roll_back _ _ _ _ _ _ _ _) as [c2 r] eqn:Er.
  rewrite <- Hn in Er. change (change_count (srv c)) with (change_count (srv (mkReplaying (rw_world c) 0))) in Er.
  pose proof Er as Et. apply (tried_outcome sessionId replace_other _ _ Hwait Hview) in Er.
  destruct r as [e|[[applied n]|failed]]; [done| |].
  - cbn in Er. subst n. unfold bindT.
    assert (Hl : entries_applied changes expectedAfter applied (content (session s)) (content (srv c2))).
    { unfold replay_or_roll_back in Et. destruct (replay_body _ _ _ _ _) as [c1 [x|l]] eqn:Eb.
      { by apply bindT_returns in Et as (? & ? & _ & [=]). }
      injection Et as -> ->. apply body_applied in Eb. unfold session. by rewrite <- Hc. }
    match goal with |- context [recordAppliedChanges _ _ ?t] =>
      pose proof (recorded_outcome sessionId waitForSessionSync Hwait applied t) as Ho;
      destruct (recordAppliedChanges waitForSessionSync applied t) as [s3 [e|u]] end;
      destruct Ho as (Hh & Hd & Hr); intros [= <- <-].
    + right. exists applied. split; [by intros Ha; discriminate (Hr Ha)|]. split; [exact Hh|].
      rewrite Hd. exact Hl.
    + exists applied. split; [done|]. split; [exact Hh|]. rewrite Hd. exact Hl.
  - destruct failed as [|m d]; [done|]. intros [= <- <-]. split; [done|].
    unfold session. cbn. unfold srv in *. cbn in *. by rewrite Hc in Er.
Qed.

End Whole.

Section Success.
Context {S : Type} (sessionId : jsstring) `{ReplayServerLaws S sessionId} `{JsonText}.
Context (replace_other : bytes -> bytes -> number -> T S Z).

Lemma yields_record r b b' : replay_record r b = Some b' ->
  yields (applyChangeLogEntry sessionId replace_other r) b b' 0 (fun o => exists a, o = Some a /\ applied_as r a).
Proof.
  unfold replay_record. cbv zeta. destruct (_ || _ || _) eqn:Er; [done|]. bool_prop. intros Hb.
  unfold applyChangeLogEntry. cbv zeta. set (data := hex_decode (r_data r)) in *.
  assert (Hdata : (length data =? 0)%nat = false -> data <> []) by (by intros ? ->).
  destruct (r_kind r) eqn:Ek; [..|done|done];
    (destruct (_ || _) eqn:Eb; [done|]); injection Hb as <-; bool_prop;
    (eapply (yields_bind _ _ b _ _ 0 0);
      [apply yields_edit; first [apply performs_insert | apply performs_del | apply performs_overwrite];
        try lia; try (apply Hdata; by apply Nat.eqb_neq)
      |intros serial _; apply yields_ret; eexists; split; [reflexivity|]; unfold applied_as; by rewrite Ek]).
Qed.

Lemma yields_batch rs : forall b b', replay_records rs b = Some b' ->
  yields (apply_batch sessionId replace_other rs) b b' (Z.of_nat (length rs)) (Forall2 applied_as rs).
Proof.
  induction rs as [|r rs IH]; intros b b' Hb; cbn in Hb.
  { injection Hb as <-. by apply yields_ret. }
  destruct (replay_record r b) as [b1|] eqn:E; [|done].
  replace (Z.of_nat (length (r :: rs))) with (0 + (1 + (Z.of_nat (length rs) + 0))) by (cbn; lia).
  cbn [apply_batch]. eapply yields_bind; [by apply yields_record|]. intros o (a & -> & Ha).
  eapply yields_bind; [apply yields_count|]. intros _ _. eapply yields_bind; [by apply IH|].
  intros l Hl. apply yields_ret. by constructor.
Qed.

(** One transaction, if there are entries. *)
Definition in_one (rs : list ParsedChangeRecord) (applied : list (list ParsedChangeRecord)) : Prop :=
  Forall2 applied_as rs (concat applied) /\ Forall (fun t => t <> [] /\ length t = length rs) applied /\
  length applied = (if (length rs =? 0)%nat then 0 else 1)%nat.

Lemma yields_flushed pending b b' : replay_records pending b = Some b' ->
  yields (flushBatch sessionId replace_other pending) b b' (Z.of_nat (length pending)) (in_one pending).
Proof.
  intros Hb. unfold flushBatch. destruct pending as [|r rs].
  { injection Hb as <-. apply yields_ret. by split; [constructor|split; [constructor|]]. }
  replace (Z.of_nat (length (r :: rs))) with (0 + (Z.of_nat (length (r :: rs)) + 0)) by lia.
  eapply yields_bind; [apply yields_bracket|]. intros _ _.
  eapply yields_bind; [apply yields_finally; [by apply yields_batch|apply yields_bracket]|].
  intros l Hl. apply yields_ret. destruct l as [|a l]; [by inversion Hl|].
  split; [cbn; by rewrite app_nil_r|]. split; [|done].
  constructor; [|constructor]. split; [done|]. symmetry. by apply (Forall2_length applied_as).
Qed.

(** In batches of at most 1024. *)
Definition in_batches (rs : list ParsedChangeRecord) (applied : list (list ParsedChangeRecord)) : Prop :=
  Forall2 applied_as rs (concat applied) /\ Forall (fun t => t <> [] /\ (length t <= 1024)%nat) applied /\
  length applied = batches (length rs).

Lemma one_batch rs applied : (length rs < 1024)%nat -> in_one rs applied -> in_batches rs applied.
Proof.
  intros Hn (Hf & Hne & Hl). split; [done|].
  split; [eapply Forall_impl; [exact Hne|]; intros t [? ->]; split; [done|lia]|]. rewrite Hl. unfold batches.
  destruct (Nat.eqb_spec (length rs) 0) as [->|]; [done|].
  apply Nat.div_unique with (r := (length rs - 1)%nat); lia.
Qed.

Lemma full_batch rs qs a b : length rs = 1024%nat -> in_one rs a -> in_batches qs b -> in_batches (rs ++ qs) (a ++ b).
Proof.
  intros Hn (Hf & Hne & Hl) (Hf' & Hne' & Hl'). split; [|split].
  - rewrite concat_app. by apply Forall2_app.
  - apply Forall_app. split; [|done]. eapply Forall_impl; [exact Hne|]. intros t [? ->]. split; [done|lia].
  - rewrite !length_app, Hl, Hl', Hn. cbn [Nat.eqb]. unfold batches.
    replace (1024 + length qs + 1023)%nat with (length qs + 1023 + 1 * 1024)%nat by lia.
    rewrite Nat.div_add by lia. lia.
Qed.

Lemma replay_record_kind r b b' : replay_record r b = Some b' -> r_kind r <> KTRANSFORM.
Proof. unfold replay_record. intros Hb Ek. rewrite Ek in Hb. by destruct (_ || _ || _). Qed.

Lemma yields_replay rs : forall pending b b', (length pending < 1024)%nat ->
  replay_records (pending ++ rs) b = Some b' ->
  yields (replay_loop sessionId replace_other rs (Ok tt) pending) b b'
    (Z.of_nat (length pending) + Z.of_nat (length rs)) (in_batches (pending ++ rs)).
Proof.
  induction rs as [|r rs IH]; intros pending b b' Hp Hb; cbn [replay_loop].
  { rewrite app_nil_r in *. rewrite Z.add_0_r. apply (yields_checked _ tt); [done|].
    eapply yields_weaken; [by apply yields_flushed|]. intros a. by apply one_batch. }
  rewrite bool_decide_eq_false_2.
  2:{ apply replay_records_app in Hb as (b1 & _ & Hb). cbn in Hb.
      destruct (replay_record r b1) eqn:E; [|done]. by apply replay_record_kind in E. }
  rewrite (cons_middle r pending rs), (app_assoc pending [r] rs) in Hb |- *. cbn [length].
  assert (Hlen : length (pending ++ [r]) = Datatypes.S (length pending)) by (rewrite length_app; cbn; lia).
  replace (Z.of_nat (length pending) + Z.of_nat (Datatypes.S (length rs)))
    with (Z.of_nat (length (pending ++ [r])) + Z.of_nat (length rs)) by lia.
  unfold maxReplayBatchEntries. destruct (Nat.leb_spec 1024 (length (pending ++ [r]))); [|by apply IH].
  apply replay_records_app in Hb as (b1 & Hb1 & Hb2).
  replace (Z.of_nat (length rs)) with (0 + Z.of_nat (length rs) + 0) by lia.
  eapply yields_bind; [by apply yields_flushed|]. intros flushed Hf.
  eapply yields_bind; [by apply (IH [] b1); [cbn; lia|]|]. intros rest Hr.
  apply yields_ret. apply full_batch; [lia|done|done].
Qed.

Lemma yields_host_body rs (after : NormalizedChangeLogFingerprint) (b b' : bytes) : replay_records rs b = Some b' -> describes sessionId after b' ->
  yields (replay_body sessionId replace_other (rs, Ok tt) (Some after)) b b' (Z.of_nat (length rs)) (in_batches rs).
Proof.
  intros Hb Hd. unfold replay_body. cbn [fst snd].
  replace (Z.of_nat (length rs)) with (0 + Z.of_nat (length rs) + (0 + 0)) by lia.
  eapply yields_bind; [apply (yields_replay rs []); [cbn; lia|done]|]. intros applied Ha.
  eapply yields_bind; [exact (yields_assert sessionId after b' Hd)|]. intros _ _. by apply yields_ret.
Qed.

(** The announcement is one, the transactions as many as the batches. *)
Lemma recorded_depth (bound : nat) applied : forall h, Forall (fun t => t <> [] /\ (length t <= bound)%nat) applied ->
  undoCount (getEditState (recorded h applied)) = undoCount (getEditState h) + Z.of_nat (length applied).
Proof.
  induction applied as [|t applied IH]; intros h Ha; cbn [recorded foldl length]; [lia|].
  apply Forall_cons in Ha as [[Ht _] Ha]. change (foldl _ ?x applied) with (recorded x applied). rewrite IH by done.
  assert (Hone : undoCount (getEditState (recordLocalChanges (map history_record t) h)) = undoCount (getEditState h) + 1).
  { unfold recordLocalChanges. destruct t as [|r t]; [done|]. cbn [map History.len].
    destruct (Z.eqb_spec (History.len (history_record r :: map history_record t)) 0) as [E|_];
      [unfold History.len in E; cbn in E; lia|].
    unfold getEditState, push_transaction, push_changes, discardRedoBranch, History.len.
    cbn [undoCount transactionLog]. rewrite length_app. cbn. lia. }
  rewrite Hone. lia.
Qed.

Lemma log_replayed waitForSessionSync sendViewportData rs after (s : hosting S) b' :
  let srv := server (rw_world (ho_calls s)) in
  (forall x, alive x -> waitForSessionSync x = (x, inr tt)) ->
  alive srv -> replay_records rs (content srv) = Some b' -> describes sessionId after b' ->
  exists s' applied,
    applyChangeLogEntries sessionId replace_other waitForSessionSync sendViewportData true (rs, Ok tt) (Some after) s
      = (s', inr (Applied (Z.of_nat (length rs)))) /\
    content (server (rw_world (ho_calls s'))) = b' /\
    ho_history s' = recorded (ho_history s) applied /\ in_batches rs applied /\
    ho_documentChanges s' = (ho_documentChanges s + (if bool_decide (rs = []) then 0 else 1))%nat.
Proof.
  intros srv0 Hwait Ha Hb Hd. unfold applyChangeLogEntries. cbn [negb].
  destruct (yields_current_count sessionId (content srv0) (ho_calls s) Ha eq_refl) as (c & start & Ec & Hac & Hbc & _).
  unfold bindT at 1, via_replay at 1. rewrite Ec.
  unfold bindT at 1, via_replay at 1, reset_count. cbn [ho_calls ho_history ho_documentChanges].
  unfold bindT at 1, via_replay at 1, replay_or_roll_back. cbn [ho_calls ho_history ho_documentChanges].
  destruct (yields_host_body rs after (content srv0) b' Hb Hd (mkReplaying (rw_world c) 0) Hac Hbc)
    as (c2 & applied & E2 & Ha2 & Hb2 & Hk & Hbatches). rewrite E2. cbn in Hk.
  destruct applied as [|t ts] eqn:Eapplied.
  - assert (rs = []) as -> by (destruct Hbatches as (Hf & _); by inversion Hf). cbn. eexists _, [].
    split; [rewrite Hk; reflexivity|]. cbn.
    split; [done|]. split; [reflexivity|]. split; [done|]. lia.
  - cbn [recordAppliedChanges]. unfold bindT, on_history, notifyDocumentChanged, via_replay, via_call.
    cbn [ho_calls ho_history ho_documentChanges]. rewrite Hwait by done. eexists _, (t :: ts).
    split; [rewrite Hk; reflexivity|]. cbn [ho_calls ho_history ho_documentChanges rw_world server].
    split; [done|]. split; [reflexivity|]. split; [done|].
    rewrite bool_decide_eq_false_2; [lia|]. intros ->. destruct Hbatches as (_ & _ & Hl). done.
Qed.

(** C15 A log in range whose fingerprint tells of what it makes is applied by
    the extension as a whole: the content is what the entries make one by
    one, all are counted, the history records them in order in transactions
    of at most 1024, each a step of its undo, and VS Code is told once. *)
Theorem log_recorded_in_batches waitForSessionSync sendViewportData rs after (s : hosting S) b' :
  let srv := server (rw_world (ho_calls s)) in
  (forall x, alive x -> waitForSessionSync x = (x, inr tt)) ->
  alive srv -> replay_records rs (content srv) = Some b' -> describes sessionId after b' ->
  exists s' applied,
    applyChangeLogEntries sessionId replace_other waitForSessionSync sendViewportData true (rs, Ok tt) (Some after) s
      = (s', inr (Applied (Z.of_nat (length rs)))) /\
    content (server (rw_world (ho_calls s'))) = b' /\
    ho_history s' = recorded (ho_history s) applied /\ Forall2 applied_as rs (concat applied) /\
    Forall (fun t => t <> [] /\ (length t <= 1024)%nat) applied /\
    undoCount (getEditState (ho_history s')) =
      undoCount (getEditState (ho_history s)) + Z.of_nat (batches (length rs)) /\
    ho_documentChanges s' = (ho_documentChanges s + (if bool_decide (rs = []) then 0 else 1))%nat.
Proof.
  intros srv0 Hwait Ha Hb Hd.
  destruct (log_replayed waitForSessionSync sendViewportData rs after s b' Hwait Ha Hb Hd)
    as (s' & applied & E & Hc & Hh & (Hf & Hne & Hl) & Hn).
  exists s', applied. split; [done|]. split; [done|]. split; [done|]. split; [done|]. split; [done|].
  split; [|done]. by rewrite Hh, (recorded_depth 1024), Hl.
Qed.

(** A log of more than 1024 entries takes more steps of the history back
    than VS Code has been told of. *)
Lemma undo_steps_not_announced waitForSessionSync sendViewportData rs after (s : hosting S) b' :
  (forall x, alive x -> waitForSessionSync x = (x, inr tt)) ->
  alive (server (rw_world (ho_calls s))) ->
  replay_records rs (content (server (rw_world (ho_calls s)))) = Some b' -> describes sessionId after b' ->
  (1024 < length rs)%nat ->
  let s' := (applyChangeLogEntries sessionId replace_other waitForSessionSync sendViewportData true (rs, Ok tt)
    (Some after) s).1 in
  Z.of_nat (ho_documentChanges s') - Z.of_nat (ho_documentChanges s) = 1 /\
  2 <= undoCount (getEditState (ho_history s')) - undoCount (getEditState (ho_history s)).
Proof.
  intros Hwait Ha Hb Hd Hlen.
  destruct (log_replayed waitForSessionSync sendViewportData rs after s b' Hwait Ha Hb Hd)
    as (s' & applied & E & _ & Hh & (_ & Hne & Hl) & Hn). rewrite E. cbn [fst].
  rewrite Hn, Hh, (recorded_depth 1024), Hl by done. rewrite bool_decide_eq_false_2 by (intros ->; cbn in Hlen; lia).
  split; [lia|]. unfold batches. pose proof (Nat.Div0.div_le_mono 2048 (length rs + 1023) 1024 ltac:(lia)) as Hd2.
  change (2048 / 1024)%nat with 2%nat in Hd2. lia.
Qed.
End Success.

(** ** Witnesses *)

#[local] Existing Instance no_json.
#[local] Existing Instance no_json_text.

Definition no_other {S} (pattern replacement : bytes) (folding : number) : T S Z :=
  throwT (new_error (js "unsupported")).

#[local] Instance history_calls : HostCalls (S := HistoryServer.t) (js "s") no_other.
Proof.
  split.
  - intros o n s. by split.
  - intros rq s. split; cbn; [lia|done].
  - intros p r f s. split; cbn; [lia|done].
Qed.

Definition insert_record : ParsedChangeRecord := mkRecord 0 KINSERT 1 0 (js "0708") None None.
Definition delete_record (offset : Z) : ParsedChangeRecord := mkRecord 0 KDELETE offset 1 (js "00") None None.

Definition example_host : hosting HistoryServer.t :=
  mkHosting (mkReplaying (mkWorld (HistoryServer.mk [1; 2; 3] []) new_stats) 0) new_history 0.

(** Two runs: the second entry of the first log is out of range and the first
    is taken back; the other log is applied. *)
Definition example_replay (offset : Z) : hosting HistoryServer.t * (js_error + apply_outcome) :=
  applyChangeLogEntries (js "s") no_other (retT tt) (retT tt) true ([insert_record; delete_record offset], Ok tt) None
    example_host.

Lemma log_applied_or_rolled_back_witness :
  (exists s' message d, example_replay 9 = (s', inr (ApplyFailed message d)) /\
    fd_appliedCount d = 1 /\ ho_history s' = new_history /\
    HistoryServer.now (server (rw_world (ho_calls s'))) = [1; 2; 3]) /\
  (exists s' applied, example_replay 1 = (s', inr (Applied 2)) /\
    ho_history s' = recorded new_history applied /\ length (concat applied) = 2%nat /\
    HistoryServer.now (server (rw_world (ho_calls s'))) = [1; 8; 2; 3]).
Proof.
  assert (Hrun : forall x : HistoryServer.t, unchanged (sessionId := js "s") x (retT (S := HistoryServer.t) tt x).1).
  { intros x. split; [reflexivity|split; [reflexivity|intros n Hn; reflexivity]]. }
  split.
  - destruct (example_replay 9) as [s' out] eqn:E. unfold example_replay in E.
    pose proof (log_applied_or_rolled_back (js "s") no_other (retT tt) (retT tt) Hrun Hrun _ _ _ _ s' out E) as H.
    cbv zeta in H. destruct out as [e|[n|m d]]; [by vm_compute in E|by vm_compute in E|].
    assert (Hd : rb_succeeded (fd_rollback d) = Some true /\ fd_appliedCount d = 1)
      by (revert E; vm_compute; by intros [= _ _ <-]).
    exists s', m, d. destruct H as ([Hh _] & _ & Hb). split; [reflexivity|]. split; [apply Hd|]. split; [exact Hh|].
    apply Hb, Hd.
  - destruct (example_replay 1) as [s' out] eqn:E. unfold example_replay in E.
    pose proof (log_applied_or_rolled_back (js "s") no_other (retT tt) (retT tt) Hrun Hrun _ _ _ _ s' out E) as H.
    cbv zeta iota in H. destruct out as [e|[n|m d]]; [by vm_compute in E| |by vm_compute in E].
    assert (n = 2) as -> by (revert E; vm_compute; by intros [= _ <-]).
    destruct H as (applied & Hn & [Hh _] & _ & (l & (Hl & Hm & Hs) & Hc) & _).
    exists s', applied. split; [reflexivity|]. split; [exact Hh|].
    destruct l as [|[r1 o1] [|[r2 o2] [|]]]; try discriminate Hl. injection Hl as -> ->.
    destruct Hc as (b1 & [_ H1] & b2 & [_ H2] & H3).
    specialize (H1 [1; 7; 8; 2; 3] eq_refl). subst b1. specialize (H2 [1; 8; 2; 3] eq_refl). subst b2.
    split; [|exact H3]. unfold changed in Hn. lia.
Defined.

Lemma log_recorded_in_batches_witness :
  exists s' applied,
    @applyChangeLogEntries _ _ BufferReplay.transport _ (js "s") no_other (retT tt) (retT tt) true
      ([insert_record; delete_record 1], Ok tt) (Some (spelled_fingerprint [1; 8; 2; 3]))
      (mkHosting (mkReplaying (BufferServer.init [1; 2; 3] []) 0) new_history 0) = (s', inr (Applied 2)) /\
    BufferServer.buf (server (rw_world (ho_calls s'))) = [1; 8; 2; 3] /\
    ho_history s' = recorded new_history applied /\ ho_documentChanges s' = 1%nat.
Proof.
  destruct (@log_recorded_in_batches _ (js "s") _ _ BufferReplay.transport (BufferReplay.laws (js "s")) _ no_other
    (retT tt) (retT tt) [insert_record; delete_record 1] (spelled_fingerprint [1; 8; 2; 3])
    (mkHosting (mkReplaying (BufferServer.init [1; 2; 3] []) 0) new_history 0) [1; 8; 2; 3])
    as (s' & applied & E & Hb & Hh & _ & _ & _ & Hn).
  - intros x _. reflexivity.
  - split; [constructor|]. vm_compute. split; discriminate.
  - vm_compute. reflexivity.
  - split; [vm_compute; discriminate|]. eexists. split; vm_compute; reflexivity.
  - exists s', applied. split; [exact E|]. split; [exact Hb|]. split; [exact Hh|exact Hn].
Defined.
