(* ===== verification/HostQueues.v ===== *)
(** * Tasks of an editor ([hexEditorProvider.ts])

    Three chains of work that calls of the extension join while others are
    under way: the saves of a session ([runSerializedSave]), the undo and redo
    commands ([enqueueHistoryCommand], [processHistoryCommandQueue]) and the
    profiles of the analysis ([enqueueAnalysisProfile],
    [processAnalysisProfileQueue], [postAnalysisProfile]).

    Each is a step relation over the fields of [EditorSession] that the
    methods share, one step for each stretch of code that runs without an
    [await], so that every interleaving of callers is a sequence of steps. *)

From stdpp Require Import sorting.
From S2P Require Import Prelude.

(** ** Saves *)

Module Saves.

(** What has become of a call: its task waits for the one before, runs its
    operation, has settled, and the [finally] of the call has run. *)
Inductive stage := Waiting | Running | Settled (ok : bool) | Returned (ok : bool).

#[global] Instance stage_eq_dec : EqDecision stage.
Proof. solve_decision. Defined.

(** The calls are numbered in the order they were made; [s_calls] has for
    each the call whose task it waits for.  [s_log] is the order in which the
    operations began. *)
Record call := mkCall { c_previous : option nat; c_stage : stage }.

Record state := mkState {
  s_calls : list call;
  s_saveTask : option nat;
  s_log : list nat
}.

Definition init : state := mkState [] None [].

Definition stage_of (s : state) (i : nat) : option stage := c_stage <$> s_calls s !! i.

Definition settled (st : stage) : bool := match st with Settled _ | Returned _ => true | _ => false end.
Definition returned (st : stage) : bool := match st with Returned _ => true | _ => false end.

(** [previous.catch(() => undefined)] has settled. *)
Definition previous_settled (s : state) (c : call) : bool :=
  match c_previous c with
  | None => true
  | Some j => match stage_of s j with Some st => settled st | None => false end
  end.

Definition set_stage (i : nat) (st : stage) (s : state) : state :=
  mkState (alter (fun c => mkCall (c_previous c) st) i (s_calls s)) (s_saveTask s) (s_log s).

(** The call up to its [await]. *)
Definition runSerializedSave (s : state) : state :=
  mkState (s_calls s ++ [mkCall (s_saveTask s) Waiting]) (Some (length (s_calls s))) (s_log s).

(** The task begins once the one before has settled; a cancelled one throws
    before its operation. *)
Definition begin_save (i : nat) (cancelled : bool) (s : state) : option state :=
  match s_calls s !! i with
  | Some c =>
      match c_stage c with
      | Waiting =>
          if previous_settled s c then
            Some (if cancelled then set_stage i (Settled false) s
                  else let s' := set_stage i Running s in mkState (s_calls s') (s_saveTask s') (s_log s ++ [i]))
          else None
      | _ => None
      end
  | None => None
  end.

Definition end_save (i : nat) (ok : bool) (s : state) : option state :=
  match stage_of s i with Some Running => Some (set_stage i (Settled ok) s) | _ => None end.

(** The [finally] of the call. *)
Definition return_save (i : nat) (s : state) : option state :=
  match stage_of s i with
  | Some (Settled ok) =>
      let s' := set_stage i (Returned ok) s in
      Some (if bool_decide (s_saveTask s = Some i) then mkState (s_calls s') None (s_log s') else s')
  | _ => None
  end.

Inductive step : state -> state -> Prop :=
  | step_call s : step s (runSerializedSave s)
  | step_begin s i cancelled s' : begin_save i cancelled s = Some s' -> step s s'
  | step_end s i ok s' : end_save i ok s = Some s' -> step s s'
  | step_return s i s' : return_save i s = Some s' -> step s s'.

Definition reachable (s : state) : Prop := rtc step init s.

(** *** The chain

    The calls that have not settled are the last ones, each waiting for the
    one before it, and operations began in the order of the calls. *)
Record chained (s : state) : Prop := {
  ch_previous i c : s_calls s !! i = Some c -> settled (c_stage c) = false ->
    match c_previous c with
    | Some j => S j = i
    | None => forall j st, (j < i)%nat -> stage_of s j = Some st -> settled st = true
    end;
  ch_order i j st st' : (i < j)%nat -> stage_of s i = Some st -> stage_of s j = Some st' ->
    settled st = false -> st' = Waiting;
  ch_log : StronglySorted lt (s_log s);
  ch_logged i : i ∈ s_log s -> exists st, stage_of s i = Some st /\ st <> Waiting
}.

(** The field holds the last call, unless it has returned. *)
Definition task_last (s : state) : Prop :=
  match s_saveTask s with
  | Some i => S i = length (s_calls s) /\ forall st, stage_of s i = Some st -> returned st = false
  | None => forall i st, stage_of s i = Some st -> settled st = true
  end.

Lemma stage_set i st s j : stage_of (set_stage i st s) j =
  if bool_decide (i = j) then (fun _ => st) <$> stage_of s j else stage_of s j.
Proof.
  unfold stage_of, set_stage. cbn. case_bool_decide as E.
  - subst. rewrite list_lookup_alter_eq. by destruct (s_calls s !! j).
  - by rewrite list_lookup_alter_ne.
Qed.

Lemma length_set i st s : length (s_calls (set_stage i st s)) = length (s_calls s).
Proof. unfold set_stage. cbn. by rewrite length_alter. Qed.

Lemma stage_known s i st : stage_of s i = Some st -> (i < length (s_calls s))%nat.
Proof. unfold stage_of. intros E. destruct (s_calls s !! i) eqn:El; [|done]. by eapply lookup_lt_Some. Qed.

(** Everything before a call that may begin has settled. *)
Lemma before_settled s i c : chained s -> s_calls s !! i = Some c -> c_stage c = Waiting ->
  previous_settled s c = true -> forall j st, (j < i)%nat -> stage_of s j = Some st -> settled st = true.
Proof.
  intros Hc Hi Hw Hp j st Hj Hs. pose proof (ch_previous _ Hc i c Hi ltac:(by rewrite Hw)) as Hprev.
  unfold previous_settled in Hp. destruct (c_previous c) as [k|]; [|by eapply Hprev].
  destruct (stage_of s k) as [sk|] eqn:Ek; [|done]. subst i.
  destruct (decide (j = k)) as [->|]; [congruence|].
  destruct (settled st) eqn:Est; [done|]. rewrite (ch_order _ Hc j k st sk) in Hp by (done || lia). done.
Qed.

(** Before a call that runs or has settled, everything has settled. *)
Lemma before_started s i st0 : chained s -> stage_of s i = Some st0 -> st0 <> Waiting ->
  forall j st, (j < i)%nat -> stage_of s j = Some st -> settled st = true.
Proof.
  intros Hc Hi Hw j st Hj Hs. destruct (settled st) eqn:Est; [done|].
  by destruct Hw; eapply (ch_order _ Hc j i).
Qed.

(** A call moves on. *)
Lemma chained_set s i st0 st : chained s -> stage_of s i = Some st0 -> st <> Waiting ->
  (forall j sj, (j < i)%nat -> stage_of s j = Some sj -> settled sj = true) ->
  (settled st0 = true -> settled st = true) -> chained (set_stage i st s).
Proof.
  intros Hc Hi Hw Hbefore Hset. split.
  - intros k c Hk Hns. unfold set_stage in Hk. cbn in Hk. rewrite list_lookup_alter in Hk.
    assert (Hold : exists c0, s_calls s !! k = Some c0 /\ c_previous c0 = c_previous c /\ settled (c_stage c0) = false).
    { destruct (decide (i = k)) as [<-|]; [|by exists c]. unfold stage_of in Hi.
      destruct (s_calls s !! i) as [c0|]; [|done]. injection Hi as Hi. injection Hk as <-. exists c0.
      split; [done|]. split; [done|]. cbn in Hns. rewrite Hi. destruct (settled st0); [|done].
      rewrite Hset in Hns; done. }
    destruct Hold as (c0 & Hk0 & Ep & Hns0). pose proof (ch_previous _ Hc k c0 Hk0 Hns0) as Hp. rewrite Ep in Hp.
    destruct (c_previous c); [done|]. intros j sj Hj. rewrite stage_set. case_bool_decide as E; [|by eapply Hp].
    subst j. rewrite Hi. intros [= <-]. apply Hset. by eapply Hp.
  - intros a b sa sb Hab Ha Hb Hns. rewrite stage_set in Ha, Hb.
    destruct (bool_decide_reflect (i = b)) as [->|].
    + rewrite bool_decide_eq_false_2 in Ha by lia. rewrite (Hbefore a sa) in Hns; done.
    + destruct (bool_decide_reflect (i = a)) as [->|]; [|by eapply (ch_order _ Hc a b)].
      rewrite Hi in Ha. injection Ha as <-. eapply (ch_order _ Hc a b); [done..|].
      destruct (settled st0); [|done]. rewrite Hset in Hns; done.
  - apply Hc.
  - intros k Hk. rewrite stage_set. destruct (ch_logged _ Hc k Hk) as (sk & Ek & Hsk). rewrite Ek.
    case_bool_decide; [by exists st|by exists sk].
Qed.

Lemma chained_relog s t l : chained s -> StronglySorted lt l ->
  (forall i, i ∈ l -> exists st, stage_of s i = Some st /\ st <> Waiting) -> chained (mkState (s_calls s) t l).
Proof. intros Hc Hl Hk. split; [apply Hc|apply Hc|done|done]. Qed.

Lemma sorted_snoc (l : list nat) i : StronglySorted lt l -> Forall (fun j => (j < i)%nat) l -> StronglySorted lt (l ++ [i]).
Proof.
  induction 1 as [|a l _ IH Ha]; intros Hi; cbn; [by repeat constructor|].
  apply Forall_cons in Hi as [Hai Hi]. constructor; [by apply IH|]. apply Forall_app. split; [done|by constructor].
Qed.

Lemma init_chained : chained init.
Proof.
  split; [done|done|constructor|]. by intros i Hi%elem_of_nil.
Qed.

Lemma step_chained s s' : step s s' -> chained s /\ task_last s -> chained s' /\ task_last s'.
Proof.
  intros Hs [Hc Ht]. destruct Hs as [s|s i cancelled s' E|s i ok s' E|s i s' E].
  - assert (Hold : forall i st, stage_of (runSerializedSave s) i = Some st ->
      stage_of s i = Some st \/ (i = length (s_calls s) /\ st = Waiting)).
    { intros i st. unfold stage_of, runSerializedSave. cbn. intros Hi.
      destruct (decide (i < length (s_calls s))%nat); [rewrite lookup_app_l in Hi by done; by left|right].
      rewrite lookup_app_r in Hi by lia. destruct (i - length (s_calls s))%nat as [|k] eqn:Ek; [|done].
      injection Hi as <-. split; [lia|done]. }
    split.
    + split.
      * intros i c Hi Hns. unfold runSerializedSave in Hi. cbn in Hi.
        destruct (decide (i < length (s_calls s))%nat) as [Hlt|].
        -- rewrite lookup_app_l in Hi by done. pose proof (ch_previous _ Hc i c Hi Hns) as Hp.
           destruct (c_previous c); [done|]. intros j st Hj Hsj.
           destruct (Hold j st Hsj) as [Hsj'|[-> _]]; [by eapply Hp|lia].
        -- rewrite lookup_app_r in Hi by lia. destruct (i - length (s_calls s))%nat eqn:Ek; [|done].
           injection Hi as <-. cbn. unfold task_last in Ht. destruct (s_saveTask s) as [j|]; [lia|].
           intros j st Hj Hsj. destruct (Hold j st Hsj) as [Hsj'|[-> _]]; [by eapply Ht|lia].
      * intros i j st st' Hij Hi Hj Hns. destruct (Hold j st' Hj) as [Hj'|[-> ->]]; [|done].
        destruct (Hold i st Hi) as [Hi'|[-> ->]]; [by eapply (ch_order _ Hc i j)|].
        apply stage_known in Hj'. lia.
      * apply Hc.
      * intros i Hi. destruct (ch_logged _ Hc i Hi) as (st & Es & Hst). exists st. split; [|done].
        pose proof (stage_known _ _ _ Es). unfold stage_of, runSerializedSave in *. cbn. by rewrite lookup_app_l.
    + unfold task_last. cbn. rewrite length_app. cbn. split; [lia|]. intros st Hst.
      destruct (Hold _ st Hst) as [Hk|[_ ->]]; [|done]. apply stage_known in Hk. lia.
  - unfold begin_save in E. destruct (s_calls s !! i) as [c|] eqn:Ei; [|done].
    destruct (c_stage c) eqn:Est; try done. destruct (previous_settled s c) eqn:Ep; [|done].
    pose proof (before_settled s i c Hc Ei Est Ep) as Hb.
    assert (Hi : stage_of s i = Some Waiting) by (unfold stage_of; rewrite Ei; cbn; by rewrite Est).
    assert (Htask : forall st, returned st = false -> forall l, task_last (mkState (s_calls (set_stage i st s)) (s_saveTask s) l)).
    { intros st Hst l. unfold task_last in *. cbn. destruct (s_saveTask s) as [k|].
      - destruct Ht as [Hk Hr]. change (alter _ _ _) with (s_calls (set_stage i st s)).
        rewrite length_set. split; [done|]. intros sk Hsk. change (stage_of (set_stage i st s) k = Some sk) in Hsk.
        rewrite stage_set in Hsk. case_bool_decide; [|by apply Hr]. destruct (stage_of s k); [|done].
        by injection Hsk as <-.
      - by specialize (Ht i _ Hi). }
    injection E as <-. destruct cancelled.
    + split; [by eapply chained_set|]. by apply (Htask (Settled false)).
    + split; [|by apply (Htask Running)]. apply (chained_relog (set_stage i Running s)); [by eapply chained_set| |].
      * apply sorted_snoc; [apply Hc|]. apply Forall_forall. intros j Hj.
        destruct (ch_logged _ Hc j Hj) as (sj & Ej & Hsj). destruct (decide (j = i)) as [->|]; [congruence|].
        destruct (decide (j < i)%nat); [done|]. exfalso. apply Hsj. eapply (ch_order _ Hc i j); [lia|done..].
      * intros j Hj. rewrite stage_set. apply elem_of_app in Hj as [Hj|Hj%list_elem_of_singleton].
        -- destruct (ch_logged _ Hc j Hj) as (sj & Ej & Hsj). rewrite Ej. case_bool_decide; [by exists Running|by exists sj].
        -- subst j. rewrite bool_decide_eq_true_2, Hi by done. by exists Running.
  - unfold end_save in E. destruct (stage_of s i) as [[]|] eqn:Ei; try done. injection E as <-. split.
    + eapply chained_set; try done. by apply (before_started s i Running).
    + unfold task_last in *. change (s_saveTask (set_stage i (Settled ok) s)) with (s_saveTask s).
      destruct (s_saveTask s) as [k|].
      * destruct Ht as [Hk Hr]. rewrite length_set. split; [done|]. intros sk. rewrite stage_set.
        case_bool_decide; [|apply Hr]. destruct (stage_of s k); [|done]. by intros [= <-].
      * by specialize (Ht i _ Ei).
  - unfold return_save in E. destruct (stage_of s i) as [[]|] eqn:Ei; try done.
    assert (Hset : chained (set_stage i (Returned ok) s)).
    { eapply chained_set; try done. by apply (before_started s i (Settled ok)). }
    injection E as <-. case_bool_decide as Etask.
    + split; [by apply (chained_relog (set_stage i (Returned ok) s)); [|apply Hset|apply Hset]|]. unfold task_last. cbn. intros j st.
      change (stage_of (set_stage i (Returned ok) s) j = Some st -> settled st = true). rewrite stage_set.
      intros Hj. case_bool_decide as E; [destruct (stage_of s j); [|done]; by injection Hj as <-|].
      unfold task_last in Ht. rewrite Etask in Ht. destruct Ht as [Hlast _]. pose proof (stage_known _ _ _ Hj).
      eapply (before_started s i (Settled ok)); [done|done|done| |done]. lia.
    + split; [done|]. unfold task_last in *. change (s_saveTask (set_stage i (Returned ok) s)) with (s_saveTask s).
      destruct (s_saveTask s) as [k|].
      * destruct Ht as [Hk Hr]. rewrite length_set. split; [done|]. intros sk. rewrite stage_set.
        rewrite bool_decide_eq_false_2 by congruence. apply Hr.
      * intros j st. rewrite stage_set. case_bool_decide; [|apply Ht]. destruct (stage_of s j); [|done].
        by intros [= <-].
Qed.

Lemma reachable_chained s : reachable s -> chained s /\ task_last s.
Proof.
  assert (H : forall a b, rtc step a b -> chained a /\ task_last a -> chained b /\ task_last b).
  { induction 1 as [|a b c Hab _ IH]; [done|]. intros Ha. apply IH. by eapply step_chained. }
  intros Hr. apply (H init s Hr). split; [apply init_chained|done].
Qed.

(** *** Every save returns

    The stretches of code that are left to run. *)
Definition left_of (st : stage) : nat :=
  match st with Waiting => 3 | Running => 2 | Settled _ => 1 | Returned _ => 0 end.

Definition work_left (s : state) : nat := list_sum (map (fun c => left_of (c_stage c)) (s_calls s)).

(** What runs without a new call; an operation that begins ends. *)
Inductive works : state -> state -> Prop :=
  | works_begin s i s' : begin_save i false s = Some s' -> works s s'
  | works_end s i s' : end_save i true s = Some s' -> works s s'
  | works_return s i s' : return_save i s = Some s' -> works s s'.

Lemma sum_alter i st0 st (l : list call) : c_stage <$> l !! i = Some st0 -> (left_of st < left_of st0)%nat ->
  (list_sum (map (fun c => left_of (c_stage c)) (alter (fun c => mkCall (c_previous c) st) i l)) <
   list_sum (map (fun c => left_of (c_stage c)) l))%nat.
Proof.
  revert i. induction l as [|c l IH]; intros [|i] Hi Hlt; try done; cbn in *.
  - injection Hi as Hi. rewrite Hi. lia.
  - apply Nat.add_lt_mono_l. exact (IH i Hi Hlt).
Qed.

Lemma work_done s s' : works s s' -> (work_left s' < work_left s)%nat.
Proof.
  intros [s0 i s1 E|s0 i s1 E|s0 i s1 E].
  - unfold begin_save in E. destruct (s_calls s0 !! i) as [c|] eqn:Ei; [|done].
    destruct (c_stage c) eqn:Ec; try done. destruct (previous_settled s0 c); [|done]. injection E as <-.
    unfold work_left. cbn. apply (sum_alter i Waiting); [by rewrite Ei; cbn; rewrite Ec|cbn; lia].
  - unfold end_save in E. destruct (stage_of s0 i) as [[]|] eqn:Ei; try done. injection E as <-.
    unfold work_left. cbn. apply (sum_alter i Running); [done|cbn; lia].
  - unfold return_save in E. destruct (stage_of s0 i) as [[]|] eqn:Ei; try done. injection E as <-.
    unfold work_left. case_bool_decide; cbn; (eapply (sum_alter i); [done|cbn; lia]).
Qed.

Definition all_returned (s : state) : Prop := forall i st, stage_of s i = Some st -> returned st = true.

(** The first call that has not returned can go on. *)
Lemma works_on s : chained s -> all_returned s \/ exists s', works s s'.
Proof.
  intros Hc.
  assert (Hfirst : forall n, (forall i st, (i < n)%nat -> stage_of s i = Some st -> returned st = true) \/
    exists s', works s s').
  { induction n as [|n [IH|IH]]; [left; lia| |by right]. destruct (stage_of s n) as [st|] eqn:En.
    2:{ left. intros i st Hi Hs. destruct (decide (i = n)) as [->|]; [congruence|]. eapply IH; [|done]. lia. }
    destruct st as [| |ok|ok].
    - right. unfold stage_of in En. destruct (s_calls s !! n) as [c|] eqn:El; [|done]. injection En as En.
      eexists. apply (works_begin s n). unfold begin_save. rewrite El, En.
      replace (previous_settled s c) with true; [done|]. symmetry. unfold previous_settled.
      pose proof (ch_previous _ Hc n c El ltac:(by rewrite En)) as Hp. destruct (c_previous c) as [j|]; [|done].
      subst n. destruct (stage_of s j) as [sj|] eqn:Ej.
      + specialize (IH j sj ltac:(lia) Ej). by destruct sj.
      + unfold stage_of in Ej. destruct (s_calls s !! j) eqn:Elj; [done|]. apply lookup_ge_None in Elj.
        apply lookup_lt_Some in El. lia.
    - right. eexists. apply (works_end s n). unfold end_save. by rewrite En.
    - right. eexists. apply (works_return s n). unfold return_save. by rewrite En.
    - left. intros i st Hi Hs. destruct (decide (i = n)) as [->|]; [by rewrite En in Hs; injection Hs as <-|].
      eapply IH; [|done]. lia. }
  destruct (Hfirst (length (s_calls s))) as [H|H]; [left|by right]. intros i st Hs. eapply H; [|done].
  by eapply stage_known.
Qed.

Lemma works_step s s' : works s s' -> step s s'.
Proof.
  intros [s0 i s1 E|s0 i s1 E|s0 i s1 E]; [by eapply step_begin|by eapply step_end|by eapply step_return].
Qed.

Lemma all_return s : chained s /\ task_last s -> exists s', rtc works s s' /\ all_returned s' /\ s_saveTask s' = None.
Proof.
  remember (work_left s) as n eqn:En. revert s En. induction n as [n IH] using lt_wf_ind. intros s -> [Hc Ht].
  destruct (works_on s Hc) as [Hall|[s' Hw]].
  - exists s. split; [done|]. split; [done|]. unfold task_last in Ht. destruct (s_saveTask s) as [i|]; [|done].
    destruct Ht as [Hi Hr]. destruct (stage_of s i) as [st|] eqn:Es.
    + specialize (Hall i st Es). by rewrite (Hr st) in Hall.
    + unfold stage_of in Es. destruct (s_calls s !! i) eqn:El; [done|]. apply lookup_ge_None in El. lia.
  - destruct (IH (work_left s') (work_done _ _ Hw) s' eq_refl) as (s'' & Hr & H).
    + eapply step_chained; [by apply works_step|done].
    + exists s''. split; [by eapply rtc_l|done].
Qed.

(** C34 The saves of a session run one at a time and begin in the order they
    were asked for, whatever the interleaving of calls, failures and
    cancellations; when operations end, every call returns and the field is
    free again. *)
Theorem saves_one_at_a_time s : reachable s ->
  (forall i j, stage_of s i = Some Running -> stage_of s j = Some Running -> i = j) /\
  (forall i j st, stage_of s i = Some Running -> (j < i)%nat -> stage_of s j = Some st -> settled st = true) /\
  StronglySorted lt (s_log s) /\
  exists s', rtc works s s' /\ all_returned s' /\ s_saveTask s' = None.
Proof.
  intros Hr. apply reachable_chained in Hr as [Hc Ht].
  assert (Hb : forall i j st, stage_of s i = Some Running -> (j < i)%nat -> stage_of s j = Some st -> settled st = true).
  { intros i j st Hi Hj Hs. by eapply (before_started s i Running). }
  split; [|split; [done|split; [apply Hc|by apply all_return]]].
  intros i j Hi Hj. destruct (Nat.lt_trichotomy i j) as [?|[?|?]]; [|done|].
  - by specialize (Hb j i _ Hj ltac:(done) Hi).
  - by specialize (Hb i j _ Hi ltac:(done) Hj).
Qed.

(** Two calls, the second made while the first runs. *)
Definition two_calls : state := default init (begin_save 0 false (runSerializedSave init)).

Lemma saves_one_at_a_time_witness :
  reachable (runSerializedSave two_calls) /\ begin_save 1 false (runSerializedSave two_calls) = None /\
  exists s', rtc works (runSerializedSave two_calls) s' /\ all_returned s' /\ s_saveTask s' = None.
Proof.
  assert (Hr : reachable (runSerializedSave two_calls)).
  { eapply rtc_l; [apply step_call|]. eapply rtc_l; [apply (step_begin _ 0 false two_calls); reflexivity|].
    eapply rtc_l; [apply step_call|apply rtc_refl]. }
  split; [exact Hr|]. split; [reflexivity|]. exact (proj2 (proj2 (proj2 (saves_one_at_a_time _ Hr)))).
Defined.

End Saves.

(** ** Undo and redo commands *)

Module Commands.

Inductive operation := Undo | Redo.

#[global] Instance operation_eq_dec : EqDecision operation.
Proof. solve_decision. Defined.

(** [historyCommandTask]: there is none; the loop waits for a command; the
    loop has ended and [finally] is still to come. *)
Inductive task := Idle | AtCommand (o : operation) | Ended.

#[global] Instance task_eq_dec : EqDecision task.
Proof. solve_decision. Defined.

(** [q_requested] and [q_issued] keep the requests that were taken and the
    commands that were executed, the last first. *)
Record state := mkState {
  q_operation : option operation;
  q_count : nat;
  q_task : task;
  q_requested : list operation;
  q_issued : list operation
}.

Definition init : state := mkState None 0 Idle [] [].

(** What the methods see of the session and the window. *)
Record env := mkEnv {
  e_mutable : bool;
  e_disposed : bool;
  e_active : bool;
  e_canUndo : bool;
  e_canRedo : bool
}.

Definition can (e : env) (o : operation) : bool := match o with Undo => e_canUndo e | Redo => e_canRedo e end.

(** [processHistoryCommandQueue] up to its next [await]: the fields and what
    it waits for. *)
Fixpoint process (e : env) (o : option operation) (count : nat) : option operation * nat * task :=
  match count with
  | O => (o, O, Ended)
  | S rest =>
      if e_disposed e then (o, count, Ended)
      else
        match o with
        | None => (o, count, Ended)
        | Some op =>
            if negb (e_active e) then (None, O, Ended)
            else if can e op then (o, rest, AtCommand op)
            else process e o rest
        end
  end.

Definition run_queue (e : env) (s : state) : state :=
  let '(o, count, t) := process e (q_operation s) (q_count s) in
  mkState o count t (q_requested s)
    (match t with AtCommand op => op :: q_issued s | _ => q_issued s end).

Definition enqueueHistoryCommand (e : env) (op : operation) (s : state) : state :=
  if negb (e_mutable e) then s
  else
    let count := if bool_decide (q_operation s = Some op) then q_count s else O in
    let s' := mkState (Some op) (S count) (q_task s) (op :: q_requested s) (q_issued s) in
    if bool_decide (q_task s = Idle) then run_queue e s' else s'.

(** The command has been executed, or has failed. *)
Definition command_done (e : env) (ok : bool) (s : state) : option state :=
  match q_task s with
  | AtCommand _ => Some (if ok then run_queue e s
      else mkState (q_operation s) (q_count s) Ended (q_requested s) (q_issued s))
  | _ => None
  end.

(** [finally] *)
Definition task_done (s : state) : option state :=
  match q_task s with
  | Ended => Some (mkState None 0 Idle (q_requested s) (q_issued s))
  | _ => None
  end.

Inductive step : state -> state -> Prop :=
  | step_request e op s : step s (enqueueHistoryCommand e op s)
  | step_command e ok s s' : command_done e ok s = Some s' -> step s s'
  | step_done s s' : task_done s = Some s' -> step s s'.

Definition count_of (op : operation) (l : list operation) : nat :=
  length (List.filter (fun o => bool_decide (o = op)) l).

(** Requests of one kind that are kept. *)
Definition kept (op : operation) (s : state) : nat :=
  if bool_decide (q_operation s = Some op) then q_count s else O.

Definition backed (s : state) : Prop :=
  forall op, (count_of op (q_issued s) + kept op s <= count_of op (q_requested s))%nat.

Lemma process_spec e o count o' count' t : process e o count = (o', count', t) ->
  match t with
  | AtCommand op => o = Some op /\ o' = o /\ (count' < count)%nat
  | Ended => (count' <= count)%nat /\ (o' = o \/ count' = O)
  | Idle => False
  end.
Proof.
  revert o' count' t. induction count as [|count IH]; intros o' count' t; cbn; [intros [= <- <- <-]; auto|].
  destruct (e_disposed e); [intros [= <- <- <-]; auto|]. destruct o as [op|]; [|intros [= <- <- <-]; auto].
  destruct (negb (e_active e)); [intros [= <- <- <-]; split; [lia|auto]|].
  destruct (can e op); [intros [= <- <- <-]; split; [done|split; [done|lia]]|].
  intros E. apply IH in E. destruct t as [|op'|]; [done|destruct E as (-> & -> & ?); split; [done|split; [done|lia]]|].
  destruct E as [? ?]. split; [lia|done].
Qed.

Lemma run_backed e s : backed s -> backed (run_queue e s).
Proof.
  intros Hb op. specialize (Hb op). unfold run_queue.
  destruct (process e (q_operation s) (q_count s)) as [[o' count'] t] eqn:E. apply process_spec in E.
  unfold kept in *. cbn. destruct t as [|op'|]; [done| |].
  - destruct E as (E1 & -> & Hc). rewrite E1 in Hb |- *. unfold count_of in *. cbn.
    destruct (decide (op' = op)) as [->|Hne].
    + rewrite !bool_decide_eq_true_2 in * by done. cbn. lia.
    + rewrite !bool_decide_eq_false_2 in * by congruence. cbn. lia.
  - unfold count_of in Hb. destruct E as [Hc [-> | ->]]; [destruct (bool_decide (q_operation s = Some op)); lia|].
    destruct (bool_decide (o' = Some op)); lia.
Qed.

Lemma step_backed s s' : step s s' -> backed s -> backed s'.
Proof.
  intros [e op s0|e ok s0 s1 E|s0 s1 E] Hb.
  - unfold enqueueHistoryCommand. destruct (negb (e_mutable e)); [done|]. cbv zeta.
    assert (Hnew : backed (mkState (Some op) (S (if bool_decide (q_operation s0 = Some op) then q_count s0 else O))
      (q_task s0) (op :: q_requested s0) (q_issued s0))).
    { intros op'. specialize (Hb op'). unfold kept, count_of in *. cbn. destruct (decide (op' = op)) as [->|Hne].
      - rewrite (bool_decide_eq_true_2 (op = op)), (bool_decide_eq_true_2 (Some op = Some op)) by done. cbn. lia.
      - rewrite (bool_decide_eq_false_2 (op = op')), (bool_decide_eq_false_2 (Some op = Some op')) by congruence.
        cbn. lia. }
    destruct (bool_decide (q_task s0 = Idle)); [by apply run_backed|done].
  - unfold command_done in E. destruct (q_task s0); try done. injection E as <-. destruct ok; [by apply run_backed|done].
  - unfold task_done in E. destruct (q_task s0); try done. injection E as <-. intros op. specialize (Hb op).
    unfold kept, count_of in *. cbn.
    destruct (bool_decide (None = Some op)), (bool_decide (q_operation s0 = Some op)); lia.
Qed.

(** *** Requests that are all carried out

    A stretch in which only [op] is asked for, it can be carried out, no
    command fails, and no request comes between the end of the loop and its
    [finally]. *)
Definition willing (op : operation) (e : env) : Prop :=
  e_mutable e = true /\ e_disposed e = false /\ e_active e = true /\ can e op = true.

Inductive calm_step (op : operation) : state -> state -> Prop :=
  | calm_request e s : willing op e -> q_task s <> Ended -> calm_step op s (enqueueHistoryCommand e op s)
  | calm_command e s s' : willing op e -> command_done e true s = Some s' -> calm_step op s s'
  | calm_done s s' : task_done s = Some s' -> calm_step op s s'.

Record in_step (op : operation) (s : state) : Prop := {
  is_balance : (count_of op (q_issued s) + kept op s)%nat = count_of op (q_requested s);
  is_operation : q_operation s = Some op \/ (q_operation s = None /\ q_count s = O);
  is_idle : q_task s <> AtCommand op -> q_count s = O;
  is_command o : q_task s = AtCommand o -> o = op
}.

Lemma process_willing op e count : willing op e ->
  process e (Some op) count = (Some op, pred count, if (count =? 0)%nat then Ended else AtCommand op).
Proof. intros (_ & Hd & Ha & Hc). destruct count; [done|]. cbn. by rewrite Hd, Ha, Hc. Qed.

Lemma run_in_step op e s : willing op e -> q_operation s = Some op ->
  (count_of op (q_issued s) + q_count s)%nat = count_of op (q_requested s) -> in_step op (run_queue e s).
Proof.
  intros Hw Ho Hb. unfold run_queue. rewrite Ho, process_willing by done.
  destruct (q_count s) as [|n]; cbn; split; cbn; auto; try done.
  - unfold kept. cbn. by rewrite bool_decide_eq_true_2.
  - unfold kept, count_of in *. cbn. rewrite !bool_decide_eq_true_2 by done. cbn. lia.
  - by intros o [= <-].
Qed.

Lemma calm_in_step op s s' : calm_step op s s' -> in_step op s -> in_step op s'.
Proof.
  intros [e s0 Hw Hne|e s0 s1 Hw E|s0 s1 E] Hi.
  - unfold enqueueHistoryCommand. rewrite (proj1 Hw). cbn [negb]. cbv zeta.
    assert (Hb : (count_of op (q_issued s0) + S (if bool_decide (q_operation s0 = Some op) then q_count s0 else 0))%nat
      = count_of op (op :: q_requested s0)).
    { pose proof (is_balance _ _ Hi) as Hb. unfold kept in Hb. unfold count_of in *. cbn.
      rewrite (bool_decide_eq_true_2 (op = op)) by done. cbn. lia. }
    destruct (bool_decide_reflect (q_task s0 = Idle)) as [Eidle|Eidle]; [by apply run_in_step|].
    destruct (q_task s0) as [|o|] eqn:Et; [done| |done]. pose proof (is_command _ _ Hi o Et). subst o.
    split; cbn; rewrite ?Et; auto; [|done|by intros o [= <-]].
    unfold kept. cbn. by rewrite (bool_decide_eq_true_2 (Some op = Some op)).
  - unfold command_done in E. destruct (q_task s0) as [|o|] eqn:Et; try done. injection E as <-.
    destruct (is_operation _ _ Hi) as [Ho|[Ho Hc]].
    + apply run_in_step; [done|done|]. pose proof (is_balance _ _ Hi) as Hb. unfold kept in Hb.
      by rewrite Ho, bool_decide_eq_true_2 in Hb.
    + unfold run_queue. rewrite Ho, Hc. cbn. pose proof (is_balance _ _ Hi) as Hb. unfold kept in Hb.
      rewrite Ho, bool_decide_eq_false_2 in Hb by done.
      split; cbn; auto; done.
  - unfold task_done in E. destruct (q_task s0) as [| |] eqn:Et; try done. injection E as <-.
    pose proof (is_balance _ _ Hi) as Hb. pose proof (is_idle _ _ Hi ltac:(by rewrite Et)) as Hc.
    unfold kept, count_of in Hb. rewrite Hc in Hb. split; cbn; auto; [|done]. unfold kept. cbn.
    destruct (bool_decide (q_operation s0 = Some op)), (bool_decide (None = Some op)); lia.
Qed.

(** Undo and redo commands: a command is executed only for a request of
    its kind, one at a time, in every interleaving; and as long as one kind is
    asked for and can be carried out, the requests that come while the queue
    works are all carried out by the time it is idle. *)
Theorem commands_match_requests :
  (forall s op, rtc step init s -> (count_of op (q_issued s) <= count_of op (q_requested s))%nat) /\
  (forall s op, rtc (calm_step op) init s -> q_task s = Idle ->
     count_of op (q_issued s) = count_of op (q_requested s)).
Proof.
  split.
  - intros s op Hr. assert (H : forall a b, rtc step a b -> backed a -> backed b).
    { induction 1 as [|a b c Hab _ IH]; [done|]. intros Ha. apply IH. by eapply step_backed. }
    specialize (H init s Hr ltac:(intros o; done) op). lia.
  - intros s op Hr Hidle. assert (H : forall a b, rtc (calm_step op) a b -> in_step op a -> in_step op b).
    { induction 1 as [|a b c Hab _ IH]; [done|]. intros Ha. apply IH. by eapply calm_in_step. }
    specialize (H init s Hr ltac:(split; cbn; auto; done)).
    pose proof (is_balance _ _ H) as Hb. rewrite <- Hb. unfold kept.
    rewrite (is_idle _ _ H) by (by rewrite Hidle). by destruct (bool_decide _).
Qed.

Definition ready : env := mkEnv true false true true true.

Lemma commands_match_requests_witness :
  exists s, rtc (calm_step Undo) init s /\ q_requested s = [Undo; Undo] /\ q_issued s = [Undo; Undo] /\
    count_of Undo (q_issued s) = count_of Undo (q_requested s).
Proof.
  assert (Hw : willing Undo ready) by (repeat split).
  assert (Hr : rtc (calm_step Undo) init (mkState None 0 Idle [Undo; Undo] [Undo; Undo])).
  { eapply rtc_l; [apply (calm_request Undo ready init); [exact Hw|discriminate]|].
    eapply rtc_l; [apply (calm_request Undo ready); [exact Hw|discriminate]|].
    eapply rtc_l; [eapply (calm_command Undo ready); [exact Hw|reflexivity]|].
    eapply rtc_l; [eapply (calm_command Undo ready); [exact Hw|reflexivity]|].
    eapply rtc_l; [apply calm_done; reflexivity|apply rtc_refl]. }
  eexists. split; [exact Hr|]. split; [reflexivity|]. split; [reflexivity|].
  exact (proj2 commands_match_requests _ Undo Hr eq_refl).
Defined.

(** *** Requests that are lost *)

(** A request between the end of the loop and its [finally]. *)
Example late_request_lost :
  (let s := enqueueHistoryCommand ready Undo init in
   s ← command_done ready true s;
   let s := enqueueHistoryCommand ready Undo s in
   task_done s) = Some (mkState None 0 Idle [Undo; Undo] [Undo]).
Proof. reflexivity. Qed.

(** A redo takes the place of the undos that wait. *)
Example waiting_undos_dropped :
  (let s := enqueueHistoryCommand ready Undo (enqueueHistoryCommand ready Undo (enqueueHistoryCommand ready Undo init)) in
   let s := enqueueHistoryCommand ready Redo s in
   s ← command_done ready true s;
   s ← command_done ready true s;
   task_done s) = Some (mkState None 0 Idle [Redo; Undo; Undo; Undo] [Redo; Undo]).
Proof. reflexivity. Qed.

(** A command that fails takes the requests behind it along. *)
Example failed_command_drops :
  (let s := enqueueHistoryCommand ready Undo (enqueueHistoryCommand ready Undo init) in
   s ← command_done ready false s;
   task_done s) = Some (mkState None 0 Idle [Undo; Undo] [Undo]).
Proof. reflexivity. Qed.

End Commands.

(** ** Profiles of the analysis *)

Module Analysis.

(** Requests are numbered in the order they were made.  The task: there is
    none; it waits for the profile or for the counts of a request; it returns
    from [postAnalysisProfile] to the loop; the loop has ended and [finally] is
    still to come. *)
Inductive task := Idle | AwaitProfile (r : nat) | AwaitCounts (r : nat) | Returning | Ended.

(** [a_posted] keeps what was posted, each with the number of requests made
    by then, the last first. *)
Record state := mkState {
  a_pending : option nat;
  a_task : task;
  a_made : nat;
  a_posted : list (nat * nat)
}.

Definition init : state := mkState None Idle 0 [].

(** [e_disposed] is the session's flag, [e_empty] tells whether the range of
    a request, clamped to the file, is empty. *)
Record env := mkEnv { e_scope_disposed : bool; e_disposed : bool; e_empty : nat -> bool }.

Definition wait_for (t : task) (s : state) : state := mkState (a_pending s) t (a_made s) (a_posted s).

(** [postWebviewMessage], which leaves a disposed session alone. *)
Definition post (e : env) (r : nat) (s : state) : state :=
  if e_disposed e then s else mkState (a_pending s) (a_task s) (a_made s) ((r, a_made s) :: a_posted s).

Definition superseded (e : env) (s : state) : bool :=
  match a_pending s with Some _ => true | None => e_scope_disposed e || e_disposed e end.

(** [processAnalysisProfileQueue] from the head of its loop up to its next
    [await]; the profile of an empty range is posted without a call. *)
Definition process (e : env) (s : state) : state :=
  match a_pending s with
  | Some r =>
      if e_scope_disposed e then wait_for Ended s
      else
        let taken := mkState None (a_task s) (a_made s) (a_posted s) in
        if e_empty e r then wait_for Returning (post e r taken) else wait_for (AwaitProfile r) taken
  | None => wait_for Ended s
  end.

Definition enqueueAnalysisProfile (e : env) (s : state) : state :=
  let s' := mkState (Some (a_made s)) (a_task s) (S (a_made s)) (a_posted s) in
  match a_task s with Idle => process e s' | _ => s' end.

(** What [postAnalysisProfile] waits for is there, or has failed. *)
Definition answered (e : env) (ok : bool) (s : state) : option state :=
  match a_task s with
  | AwaitProfile r =>
      Some (if negb ok then wait_for Ended s
            else if superseded e s then wait_for Returning s else wait_for (AwaitCounts r) s)
  | AwaitCounts r =>
      Some (if negb ok then wait_for Ended s
            else wait_for Returning (if superseded e s then s else post e r s))
  | _ => None
  end.

Definition resumed (e : env) (s : state) : option state :=
  match a_task s with Returning => Some (process e s) | _ => None end.

Definition task_done (s : state) : option state :=
  match a_task s with Ended => Some (wait_for Idle s) | _ => None end.

Inductive step : state -> state -> Prop :=
  | step_request e s : step s (enqueueAnalysisProfile e s)
  | step_answer e ok s s' : answered e ok s = Some s' -> step s s'
  | step_resume e s s' : resumed e s = Some s' -> step s s'
  | step_done s s' : task_done s = Some s' -> step s s'.

(** The request a task works on. *)
Definition working_on (t : task) : option nat :=
  match t with AwaitProfile r | AwaitCounts r => Some r | _ => None end.

(** A request that waits is the last one made; so is the one in work, unless
    another waits. *)
Record latest (s : state) : Prop := {
  la_pending r : a_pending s = Some r -> S r = a_made s;
  la_task r : working_on (a_task s) = Some r -> a_pending s = None -> S r = a_made s;
  la_posted r n : In (r, n) (a_posted s) -> S r = n
}.

Lemma latest_wait t s : latest s -> (forall r, working_on t = Some r -> working_on (a_task s) = Some r) ->
  latest (wait_for t s).
Proof. intros [Hp Ht Hposted] Hw. split; cbn; [done| |done]. intros r Hr. apply Ht. by apply Hw. Qed.

Lemma latest_post e r s : latest s -> S r = a_made s -> latest (post e r s).
Proof.
  intros [Hp Ht Hposted] Hr. unfold post. destruct (e_disposed e); split; cbn; try done.
  intros r' n [[= <- <-]|Hin]; [done|by apply Hposted].
Qed.

Lemma process_latest e s : latest s -> latest (process e s).
Proof.
  intros [Hp Ht Hposted]. unfold process. destruct (a_pending s) as [r|] eqn:Ep; cbv zeta.
  2:{ split; cbn; rewrite ?Ep; done. }
  destruct (e_scope_disposed e); [split; cbn; rewrite ?Ep; done|].
  destruct (e_empty e r).
  - unfold post. destruct (e_disposed e); split; cbn; try done.
    intros r' n [[= <- <-]|Hin]; [by apply Hp|by apply Hposted].
  - split; cbn; [done| |done]. intros r' [= <-] _. by apply Hp.
Qed.

Lemma step_latest s s' : step s s' -> latest s -> latest s'.
Proof.
  intros [e s0|e ok s0 s1 E|e s0 s1 E|s0 s1 E] Hl.
  - assert (Hnew : latest (mkState (Some (a_made s0)) (a_task s0) (S (a_made s0)) (a_posted s0))).
    { split; cbn; [by intros r [= <-]|done|apply Hl]. }
    unfold enqueueAnalysisProfile. destruct (a_task s0); [by apply process_latest|done..].
  - unfold answered in E. destruct (a_task s0) as [|r|r| |] eqn:Et; try done; injection E as <-;
      (destruct ok; cbn [negb]; [|by apply latest_wait]); unfold superseded; destruct (a_pending s0) eqn:Ep;
      try by apply latest_wait.
    + destruct (_ || _); [by apply latest_wait|]. apply latest_wait; [done|]. by rewrite Et.
    + destruct (_ || _); apply latest_wait; try done. apply latest_post; [done|].
      apply (la_task _ Hl); [by rewrite Et|done].
  - unfold resumed in E. destruct (a_task s0); try done. injection E as <-. by apply process_latest.
  - unfold task_done in E. destruct (a_task s0); try done. injection E as <-. by apply latest_wait.
Qed.

(** A profile is posted only for the request that is the last one made at
    that moment, in every interleaving: what was asked for before is never
    shown after it. *)
Theorem profile_of_last_request s r n : rtc step init s -> In (r, n) (a_posted s) -> S r = n.
Proof.
  intros Hr. assert (H : forall a b, rtc step a b -> latest a -> latest b).
  { induction 1 as [|a b c Hab _ IH]; [done|]. intros Ha. apply IH. by eapply step_latest. }
  apply (la_posted s). apply (H init s Hr). by split.
Qed.

Definition open_file : env := mkEnv false false (fun _ => false).

Lemma profile_of_last_request_witness :
  exists s, rtc step init s /\ a_posted s = [(1%nat, 2%nat)] /\ S 1 = 2%nat.
Proof.
  assert (Hr : rtc step init (mkState None Ended 2 [(1%nat, 2%nat)])).
  { eapply rtc_l; [apply (step_request open_file)|]. eapply rtc_l; [apply (step_request open_file)|].
    eapply rtc_l; [eapply (step_answer open_file true); reflexivity|].
    eapply rtc_l; [eapply (step_resume open_file); reflexivity|].
    eapply rtc_l; [eapply (step_answer open_file true); reflexivity|].
    eapply rtc_l; [eapply (step_answer open_file true); reflexivity|].
    eapply rtc_l; [eapply (step_resume open_file); reflexivity|apply rtc_refl]. }
  eexists. split; [exact Hr|]. split; [reflexivity|].
  exact (profile_of_last_request _ 1 2 Hr ltac:(left; reflexivity)).
Defined.

(** A request between the end of the loop and its [finally] waits with no
    task to take it, until the next one replaces it. *)
Example request_stranded :
  (let s := enqueueAnalysisProfile open_file init in
   s ← answered open_file true s;
   s ← answered open_file true s;
   s ← resumed open_file s;
   let s := enqueueAnalysisProfile open_file s in
   task_done s) = Some (mkState (Some 1%nat) Idle 2 [(0%nat, 1%nat)]).
Proof. reflexivity. Qed.

End Analysis.
