(* ===== verification/HostTimeline.v ===== *)
(** * The checkpoint timeline of an editor ([hexEditorProvider.ts])

    What a session of the extension keeps about its checkpoints and the
    operations on it: recording an interval when a checkpoint is made
    ([recordCheckpointTimelineEntry]), giving up the future when the session
    changes ([truncateCheckpointTimelineFuture]), creating, rolling back and
    restoring checkpoints, rolling back the session, and moving to a
    checkpoint with the way back when that fails
    ([checkoutHistoryCheckpoint]).

    The server is the one of [UnaryCalls]; [NativeCheckpoints] says what it
    does to the number of checkpoints.  What is kept on disk is the interface
    [TimelineStore], which [TimelineStorage] implements.  [operation], which
    others wait for, and [saveTask], which is waited for, order operations that
    overlap; the operations here run one after another. *)

From S2P Require Import Prelude SafeInt JsText JsValue EditDiff EditSession History SessionApi UnaryCalls SessionCalls ChangeLogCodec TimelineManifest AiReplay HostRecords HostReplay.
From S2P Require TimelineStorage.

Open Scope call_scope.

Abbreviation fingerprint := TimelineManifest.NormalizedTimelineFingerprint.
Abbreviation interval := TimelineManifest.CheckpointIntervalManifestEntryV1.

(** ** What is kept on disk *)

(** What the archive of an interval holds: changes the extension made up, no
    changes, or those the server exports. *)
Inductive interval_content :=
  | RecordedChanges (records : list EditorChangeRecord)
  | NoChanges
  | ExportedChanges (firstChangeSerial lastChangeSerial : Z).

Record capture_input := mkCaptureInput {
  ci_checkpoint : Z;
  ci_expectedGeneration : Z;
  ci_sourceChangeCount : Z;
  ci_before : fingerprint;
  ci_after : fingerprint;
  ci_boundaryKind : CheckpointBoundaryKind;
  ci_transformPluginIds : list jsstring;
  ci_history : EditorHistorySnapshot;
  ci_content : interval_content
}.

(** What a session asks of its storage. *)
Class TimelineStore (D : Type) := {
  store_nextGeneration : D -> Z;
  store_captureInterval : capture_input -> M D interval;
  store_recordUnavailable : capture_input -> jsstring -> jsstring -> M D interval;
  store_truncateFuture : Z -> M D unit;
  store_setCursor : Z -> M D unit;
  store_setSavedFingerprint : fingerprint -> M D unit
}.

(** [CheckpointTimelineState]; [tl_storage] tells whether there is a
    [storage].  An entry is its change count and its interval. *)
Record CheckpointTimelineState := mkTimeline {
  tl_entries : list (Z * interval);
  tl_storage : bool;
  tl_originalFingerprint : fingerprint;
  tl_lastArchivedChangeCount : Z;
  tl_cursor : Z;
  tl_savedChangeCount : Z;
  tl_savedFingerprint : fingerprint;
  tl_currentFingerprint : fingerprint;
  tl_navigating : bool
}.

Definition with_entries (l : list (Z * interval)) (t : CheckpointTimelineState) : CheckpointTimelineState :=
  mkTimeline l (tl_storage t) (tl_originalFingerprint t) (tl_lastArchivedChangeCount t) (tl_cursor t)
    (tl_savedChangeCount t) (tl_savedFingerprint t) (tl_currentFingerprint t) (tl_navigating t).
Definition without_storage (t : CheckpointTimelineState) : CheckpointTimelineState :=
  mkTimeline (tl_entries t) false (tl_originalFingerprint t) (tl_lastArchivedChangeCount t) (tl_cursor t)
    (tl_savedChangeCount t) (tl_savedFingerprint t) (tl_currentFingerprint t) (tl_navigating t).
Definition with_archived (n : Z) (t : CheckpointTimelineState) : CheckpointTimelineState :=
  mkTimeline (tl_entries t) (tl_storage t) (tl_originalFingerprint t) n (tl_cursor t)
    (tl_savedChangeCount t) (tl_savedFingerprint t) (tl_currentFingerprint t) (tl_navigating t).
Definition with_cursor (n : Z) (t : CheckpointTimelineState) : CheckpointTimelineState :=
  mkTimeline (tl_entries t) (tl_storage t) (tl_originalFingerprint t) (tl_lastArchivedChangeCount t) n
    (tl_savedChangeCount t) (tl_savedFingerprint t) (tl_currentFingerprint t) (tl_navigating t).
Definition with_saved (n : Z) (f : fingerprint) (t : CheckpointTimelineState) : CheckpointTimelineState :=
  mkTimeline (tl_entries t) (tl_storage t) (tl_originalFingerprint t) (tl_lastArchivedChangeCount t) (tl_cursor t)
    n f (tl_currentFingerprint t) (tl_navigating t).
Definition with_current (f : fingerprint) (t : CheckpointTimelineState) : CheckpointTimelineState :=
  mkTimeline (tl_entries t) (tl_storage t) (tl_originalFingerprint t) (tl_lastArchivedChangeCount t) (tl_cursor t)
    (tl_savedChangeCount t) (tl_savedFingerprint t) f (tl_navigating t).
Definition with_navigating (b : bool) (t : CheckpointTimelineState) : CheckpointTimelineState :=
  mkTimeline (tl_entries t) (tl_storage t) (tl_originalFingerprint t) (tl_lastArchivedChangeCount t) (tl_cursor t)
    (tl_savedChangeCount t) (tl_savedFingerprint t) (tl_currentFingerprint t) b.

(** [entries.splice(start)]: what is left. *)
Definition splice_from {A} (start : Z) (l : list A) : list A :=
  take (Z.to_nat (if start <? 0 then len l + start else start)) l.

(** [timeline.entries.at(-1)?.changeCount ?? 0] *)
Definition last_change_count (entries : list (Z * interval)) : Z := from_option fst 0 (last entries).

(** [timelineFingerprintsEqual] *)
Definition timelineFingerprintsEqual (left right : fingerprint) : bool :=
  bool_decide (tf_byteLength left = tf_byteLength right) &&
  bool_decide (default CHANGE_LOG_DEFAULT_DIGEST_PLUGIN_ID (tf_pluginId left)
    = default CHANGE_LOG_DEFAULT_DIGEST_PLUGIN_ID (tf_pluginId right)) &&
  bool_decide (tf_algorithm left = tf_algorithm right) &&
  bool_decide (tf_value left = tf_value right).

(** A fingerprint has the same fields as one of a change log. *)
Definition of_log (f : NormalizedChangeLogFingerprint) : fingerprint :=
  TimelineManifest.mkFingerprint (fp_byteLength f) (Some (d_pluginId (fp_digest f)))
    (d_algorithm (fp_digest f)) (d_value (fp_digest f)).
Definition to_log (f : fingerprint) : NormalizedChangeLogFingerprint :=
  ChangeLogCodec.mkFingerprint (tf_byteLength f)
    (mkDigest (default CHANGE_LOG_DEFAULT_DIGEST_PLUGIN_ID (tf_pluginId f)) (tf_algorithm f) (tf_value f)).

(** ** The state of a session

    [EditorSession], as far as it is about content and history. *)
Record editing (S D : Type) := mkEditing {
  ed_host : hosting S;
  ed_timeline : CheckpointTimelineState;
  ed_store : D;
  ed_restoredFromBackup : bool;
  ed_savedDiskFingerprint : option fingerprint
}.
Arguments mkEditing {S D}. Arguments ed_host {S D}. Arguments ed_timeline {S D}. Arguments ed_store {S D}.
Arguments ed_restoredFromBackup {S D}. Arguments ed_savedDiskFingerprint {S D}.

Section Timeline.
Context {S D : Type} `{EditBackend S} `{Transport S} `{TimelineStore D} (sessionId : jsstring).
Abbreviation E := (editing S D).

#[local] Instance rpc : SessionRpc S := session_rpc sessionId.

Definition via_host {A} (m : T (hosting S) A) : T E A := fun s =>
  let '(h, r) := m (ed_host s) in
  (mkEditing h (ed_timeline s) (ed_store s) (ed_restoredFromBackup s) (ed_savedDiskFingerprint s), r).

Definition via_store {A} (m : M D A) : T E A := fun s =>
  let '(d, r) := m (ed_store s) in
  (mkEditing (ed_host s) (ed_timeline s) d (ed_restoredFromBackup s) (ed_savedDiskFingerprint s),
   match r with Ok a => inr a | Throw e => inl (js_error_of e) end).

Definition on_timeline (f : CheckpointTimelineState -> CheckpointTimelineState) : T E unit := fun s =>
  (mkEditing (ed_host s) (f (ed_timeline s)) (ed_store s) (ed_restoredFromBackup s)
    (ed_savedDiskFingerprint s), inr tt).

Definition reading {A} (f : E -> A) : T E A := fun s => (s, inr (f s)).

Definition set_restored (b : bool) : T E unit := fun s =>
  (mkEditing (ed_host s) (ed_timeline s) (ed_store s) b (ed_savedDiskFingerprint s), inr tt).

Definition call {A} (m : T S A) : T E A := via_host (via_replay (via_call m)).
Definition client {A} (m : M (world S) A) : T E A := via_host (via_replay (via_edit m)).
Definition with_history (f : History.history -> History.history) : T E unit := via_host (HostReplay.on_history f).
Definition session_history (s : E) : History.history := ho_history (ed_host s).

(** [try { await m } catch]: what becomes of [m]. *)
Definition attempted {A} (m : T E A) : T E (js_error + A) := fun s => let '(s, r) := m s in (s, inr r).

(** [await storage?.m] *)
Definition stored (m : M D unit) : T E unit := fun s =>
  if tl_storage (ed_timeline s) then via_store m s else (s, inr tt).

(** ** Calls *)

Definition sha256_fingerprint : T E fingerprint :=
  let+ f := via_host (via_replay (getChangeLogFingerprint sessionId FP_COMPUTED (js "sha256")
    CHANGE_LOG_DEFAULT_DIGEST_PLUGIN_ID)) in
  retT (of_log f).

Definition assertFingerprint (expected : fingerprint) : T E unit :=
  via_host (via_replay (assertCurrentSessionFingerprint sessionId (to_log expected))).

Definition changeCount : T E Z := call (client_getChangeCount sessionId).

Definition getCheckpointCount : T E Z :=
  let+ counts := call (client_getCounts sessionId [CHECKPOINTS]) in
  match counts with
  | c :: _ => checkedT (getCount c)
  | [] => retT 0
  end.

Definition timeline_failure (code : string) : js_error := js_error_of (timeline_error code).

Definition assertCheckpointTimelineNativeAlignment : T E Z :=
  let+ nativeCheckpointCount := getCheckpointCount in
  let+ durableCursor := reading (fun s => tl_cursor (ed_timeline s)) in
  if negb (nativeCheckpointCount =? durableCursor)
  then throwT (timeline_failure "TIMELINE_CHECKPOINT_MISMATCH")
  else retT nativeCheckpointCount.

(** Waits and messages of the editor: [waitForSessionSync],
    [sendViewportData], [scrollTo] the beginning and
    [refreshSessionContentInfo]; [created_at] is the time in a manifest. *)
Context (waitForSessionSync sendViewportData scrollToStart refreshSessionContentInfo : T S unit).
Context (created_at : jsstring).

(** ** Intervals *)

(** An error's [code] is its message here. *)
Definition unavailable_code (e : js_error) : jsstring :=
  if bool_decide (err_name e = "TimelineStorageError"%string) then err_message e
  else js "TIMELINE_CAPTURE_FAILED".

Definition unavailable_interval (input : capture_input) (code message : jsstring) : interval :=
  mkInterval (ci_checkpoint input) (ci_expectedGeneration input) (ci_before input) (ci_after input)
    (decimal_string (ci_sourceChangeCount input)) created_at (ci_boundaryKind input)
    (sort_unique (ci_transformPluginIds input)) (Some (ci_history input)) Unavailable None
    (Some (mkErrorInfo code message)).

(** The capture, or an interval that says that there is none. *)
Definition captured (input : capture_input) : T E interval :=
  let+ storage := reading (fun s => tl_storage (ed_timeline s)) in
  let+ capture := (if storage : bool then attempted (via_store (store_captureInterval input))
                   else retT (inl (timeline_failure "TIMELINE_STORAGE_UNAVAILABLE"))) in
  match capture with
  | inr interval => retT interval
  | inl error =>
      let code := unavailable_code error in
      let unavailable := unavailable_interval input code (err_message error) in
      if storage then
        let+ recorded := attempted (via_store (store_recordUnavailable input code (err_message error))) in
        retT (match recorded with inr interval => interval | inl _ => unavailable end)
      else retT unavailable
  end.

Definition next_generation (s : E) : Z :=
  if tl_storage (ed_timeline s) then store_nextGeneration (ed_store s)
  else from_option (fun e => iv_generation e.2) 0 (last (tl_entries (ed_timeline s))) + 1.

Definition recordCheckpointTimelineEntry (checkpointCount : Z) (boundaryKind : CheckpointBoundaryKind)
  (transformPluginIds : list jsstring) (replayRecords : list EditorChangeRecord) : T E (option interval) :=
  let+ timeline := reading ed_timeline in
  if tl_navigating timeline then retT None
  else
    let previousChangeCount := tl_lastArchivedChangeCount timeline in
    let+ changeCount := changeCount in
    let+ after := sha256_fingerprint in
    let before := from_option (fun e => iv_after e.2) (tl_originalFingerprint timeline) (last (tl_entries timeline)) in
    let sourceChangeCount :=
      if 0 <? len replayRecords then len replayRecords else Z.max 0 (changeCount - previousChangeCount) in
    let+ generation := reading next_generation in
    let+ history := reading (fun s => snapshot (session_history s)) in
    let content :=
      if 0 <? len replayRecords then RecordedChanges replayRecords
      else if sourceChangeCount =? 0 then NoChanges
      else ExportedChanges (previousChangeCount + 1) changeCount in
    let+ interval := captured (mkCaptureInput checkpointCount generation sourceChangeCount before after
      boundaryKind transformPluginIds history content) in
    let+ _ := on_timeline (fun timeline =>
      with_current after (with_cursor checkpointCount (with_archived changeCount
        (with_entries (splice_from (checkpointCount - 1) (tl_entries timeline) ++ [(changeCount, interval)])
           timeline)))) in
    retT (Some interval).

(** A failure to truncate gives the storage up. *)
Definition truncate_stored (cursor : Z) : T E unit :=
  let+ truncated := attempted (stored (store_truncateFuture cursor)) in
  match truncated with inr _ => retT tt | inl _ => on_timeline without_storage end.

(** The entries up to a cursor, and what follows from them. *)
Definition cut_entries (cursor : Z) (timeline : CheckpointTimelineState) : CheckpointTimelineState :=
  let entries := splice_from cursor (tl_entries timeline) in
  with_archived (last_change_count entries) (with_cursor cursor (with_entries entries timeline)).

Definition rollbackUnusableTimelineBoundary (checkpoint : Z) (historyBefore : EditorHistorySnapshot) : T E unit :=
  let+ count := getCheckpointCount in
  let+ _ := (if checkpoint <=? count then let+ _ := client SessionApi.destroyLastCheckpoint in retT tt else retT tt) in
  let+ _ := truncate_stored (checkpoint - 1) in
  let+ _ := on_timeline (cut_entries (checkpoint - 1)) in
  let+ restored := checkedT (fromSnapshot historyBefore) in
  with_history (fun _ => restored).

Definition truncateCheckpointTimelineFuture (cursor : option Z) : T E unit :=
  let+ timeline := reading ed_timeline in
  let cursor := default (tl_cursor timeline) cursor in
  if tl_navigating timeline || (cursor <? 0) || (len (tl_entries timeline) <=? cursor) then retT tt
  else
    let+ discarded := client SessionApi.discardCheckpointFuture in
    let+ count := outputT (dc_checkpointCount discarded) in
    if count <? cursor then throwT (new_error (js "Native checkpoint branch is before timeline cursor"))
    else
      let+ _ := truncate_stored cursor in
      on_timeline (cut_entries cursor).

Definition markCheckpointTimelineChanged : T E unit :=
  on_timeline (fun timeline =>
    let saved := tl_savedFingerprint timeline in
    with_current (TimelineManifest.mkFingerprint (tf_byteLength saved) None (tf_algorithm saved)
      (js "changed:" ++ tf_value saved)) timeline).

(** [search] and the search state are new. *)
Definition resetSessionState (restoredFromBackup markDirty scroll preserveHistory : bool) : T E unit :=
  let+ _ := (if preserveHistory then retT tt else with_history (fun _ => new_history)) in
  let+ _ := set_restored restoredFromBackup in
  let+ _ := call (if scroll then scrollToStart else sendViewportData) in
  if markDirty then via_host notifyDocumentChanged else retT tt.

(** The current fingerprint is read, and whether it is not the saved one. *)
Definition refresh_current : T E bool :=
  let+ current := sha256_fingerprint in
  let+ _ := on_timeline (with_current current) in
  reading (fun s => negb (timelineFingerprintsEqual current (tl_savedFingerprint (ed_timeline s)))).

Definition is_ready (i : interval) : bool := match iv_state i with Ready => true | Unavailable => false end.

(** ** Checkpoints

    [mutable] is [ensureSessionCanMutate]. *)
Definition createSessionCheckpoint (mutable : bool) : T E (Z * bool) :=
  if negb mutable then let+ count := getCheckpointCount in retT (count, false)
  else
    let+ _ := assertCheckpointTimelineNativeAlignment in
    let+ wasDirty := reading (fun s => isDirty (getEditState (session_history s)) || ed_restoredFromBackup s) in
    let+ currentChangeCount := changeCount in
    let+ hasCheckpointableChanges := reading (fun s =>
      negb (currentChangeCount =? last_change_count (tl_entries (ed_timeline s))) || ed_restoredFromBackup s) in
    if negb hasCheckpointableChanges then let+ count := getCheckpointCount in retT (count, false)
    else
      let+ historyBefore := reading (fun s => snapshot (session_history s)) in
      let+ count := client SessionApi.createCheckpoint in
      let+ _ := with_history recordMilestone in
      let+ _ := call waitForSessionSync in
      let+ interval := recordCheckpointTimelineEntry count BoundaryPlain [] [] in
      if from_option is_ready false interval then
        let+ _ := resetSessionState wasDirty false false true in
        retT (count, true)
      else
        let+ _ := rollbackUnusableTimelineBoundary count historyBefore in
        throwT (JsError "TimelineStorageError" (from_option er_code (js "TIMELINE_CAPTURE_FAILED") (interval ≫= iv_error))
          None None).

Definition rollbackLastCheckpoint (mutable : bool) : T E bool :=
  if negb mutable then retT false
  else
    let+ checkpointCount := assertCheckpointTimelineNativeAlignment in
    if checkpointCount <=? 0 then retT false
    else
      let+ _ := client SessionApi.destroyLastCheckpoint in
      let+ _ := call waitForSessionSync in
      let+ isDirty := refresh_current in
      let+ _ := resetSessionState isDirty isDirty false false in
      let+ _ := truncateCheckpointTimelineFuture (Some (checkpointCount - 1)) in
      retT true.

(** Whether a checkpoint was restored, and the counts. *)
Definition restoreLastCheckpoint (mutable : bool) : T E (bool * Z * Z * Z) :=
  if negb mutable then
    let+ checkpointCount := getCheckpointCount in
    let+ changes := changeCount in
    retT (false, checkpointCount, changes, 0)
  else
    let+ checkpointCount := assertCheckpointTimelineNativeAlignment in
    if checkpointCount <=? 0 then
      let+ changes := changeCount in
      retT (false, checkpointCount, changes, 0)
    else
      let+ response := client SessionApi.restoreLastCheckpoint in
      let+ _ := call waitForSessionSync in
      let+ _ := call sendViewportData in
      let+ isDirty := refresh_current in
      let+ _ := resetSessionState isDirty isDirty false false in
      let+ count := outputT (rl_checkpointCount response) in
      let+ changes := outputT (rl_changeCount response) in
      let+ discarded := outputT (rl_discardedChangeCount response) in
      retT (true, count, changes, discarded).

(** The loop of [rollbackSession]. *)
Fixpoint destroy_checkpoints (count : nat) : T E unit :=
  match count with
  | O => retT tt
  | Datatypes.S count => let+ _ := client SessionApi.destroyLastCheckpoint in destroy_checkpoints count
  end.

Definition rollbackSession (mutable : bool) : T E unit :=
  if negb mutable then retT tt
  else
    let+ checkpointCount := getCheckpointCount in
    let+ _ := destroy_checkpoints (Z.to_nat checkpointCount) in
    let+ _ := client (EditSession.clear false) in
    let+ _ := call waitForSessionSync in
    let+ _ := on_timeline (fun timeline => with_current (tl_originalFingerprint timeline) timeline) in
    let+ isDirty := reading (fun s => negb (timelineFingerprintsEqual (tl_currentFingerprint (ed_timeline s))
      (tl_savedFingerprint (ed_timeline s)))) in
    let+ _ := resetSessionState isDirty isDirty true false in
    let+ _ := stored (store_truncateFuture 0) in
    on_timeline (fun timeline => with_archived 0 (with_cursor 0 (with_entries [] timeline))).

(** ** Moving to a checkpoint *)

Definition reconcileNativeHistory : T E bool :=
  let+ active := call (client_getChangeTransactionCount sessionId) in
  let+ undone := call (client_getUndoTransactionCount sessionId) in
  let+ current := sha256_fingerprint in
  let+ _ := on_timeline (with_current current) in
  let+ saved := reading (fun s => timelineFingerprintsEqual current (tl_savedFingerprint (ed_timeline s))) in
  fun s =>
    let '(h, r) := reconcileNativeTransactionCounts (NInt active) (NInt undone) saved (session_history s) in
    let '(s, _) := with_history (fun _ => h) s in
    (s, match r with Ok b => inr b | Throw e => inl (js_error_of e) end).

(** The fingerprint of a checkpoint; checkpoint zero is the original. *)
Definition checkpoint_fingerprint (timeline : CheckpointTimelineState) (checkpoint : Z) : option fingerprint :=
  if checkpoint =? 0 then Some (tl_originalFingerprint timeline)
  else (fun e => iv_after e.2) <$> tl_entries timeline !! Z.to_nat (checkpoint - 1).

(** [entries[checkpoint - 1]?.interval.history?.transactionLog.length ?? 0] *)
Definition history_depth_at (timeline : CheckpointTimelineState) (checkpoint : Z) : Z :=
  match (if 0 <? checkpoint then tl_entries timeline !! Z.to_nat (checkpoint - 1) ≫= (fun e => iv_history e.2)
         else None) with
  | Some history => len (s_transactionLog history)
  | None => 0
  end.

(** The history at a checkpoint, from that of the last entry. *)
Definition history_at (timeline : CheckpointTimelineState) (checkpoint : Z) : result History.history :=
  match last (tl_entries timeline) ≫= (fun e => iv_history e.2) with
  | Some tip => fromSnapshotAtDepth tip (NInt (history_depth_at timeline checkpoint))
  | None => Ok new_history
  end.

Definition misaligned_checkout : js_error := new_error (js "Native checkpoint checkout reached another checkpoint").

(** The [try] of [checkoutHistoryCheckpoint]; [expected] is the fingerprint
    of the target.  First the move itself and what follows it. *)
Definition arrive_at_checkpoint (target : Z) (expected : fingerprint) : T E unit :=
  let+ response := client (SessionApi.checkoutCheckpoint (NInt target)) in
  let+ reached := outputT (co_checkpointCount response) in
  let+ future := outputT (co_futureCheckpointCount response) in
  let+ entries := reading (fun s => len (tl_entries (ed_timeline s))) in
  if negb (reached =? target) || (entries - target <? future) then throwT misaligned_checkout
  else
    let+ _ := assertFingerprint expected in
    let+ _ := on_timeline (with_cursor target) in
    let+ _ := stored (store_setCursor target) in
    let+ _ := call waitForSessionSync in
    let+ isDirty := refresh_current in
    let+ history := reading (fun s => history_at (ed_timeline s) target) in
    let+ history := checkedT history in
    let+ _ := with_history (fun _ => history) in
    let+ _ := reconcileNativeHistory in
    let+ _ := resetSessionState isDirty isDirty false true in
    call refreshSessionContentInfo.

(** A session that is at the target, with changes, goes one back first. *)
Definition move_to_checkpoint (target : Z) (expected : fingerprint) (resetCurrentCheckpoint : bool) : T E unit :=
  let+ _ := (if resetCurrentCheckpoint then
      if target <=? 0 then throwT (new_error (js "The original checkpoint cannot be reset"))
      else let+ _ := client (SessionApi.checkoutCheckpoint (NInt (target - 1))) in retT tt
    else retT tt) in
  arrive_at_checkpoint target expected.

(** The way back to the checkpoint the session was at. *)
Definition move_back (originalCursor : Z) : T E unit :=
  let+ _ := client (SessionApi.checkoutCheckpoint (NInt originalCursor)) in
  let+ expected := reading (fun s => checkpoint_fingerprint (ed_timeline s) originalCursor) in
  let+ _ := match expected with Some f => assertFingerprint f | None => throwT (new_error (js "TypeError")) end in
  let+ _ := on_timeline (with_cursor originalCursor) in
  let+ _ := stored (store_setCursor originalCursor) in
  let+ _ := refresh_current in
  retT tt.

Definition restored_message (failure : jsstring) (originalCursor : Z) : jsstring :=
  failure ++ js "; restored checkpoint " ++ decimal_string originalCursor.

(** The [catch]: back, and the error that says whether that was possible. *)
Definition move_failed (originalCursor : Z) (error : js_error) : T E unit :=
  let+ back := attempted (move_back originalCursor) in
  match back with
  | inr _ =>
      let+ _ := attempted (call sendViewportData) in
      throwT (new_error (restored_message (err_message error) originalCursor))
  | inl rollbackError =>
      let+ counted := attempted getCheckpointCount in
      let+ _ := match counted with inr count => on_timeline (with_cursor count) | inl _ => retT tt end in
      let+ _ := attempted (call sendViewportData) in
      throwT (new_error (err_message error ++ js "; rollback to checkpoint " ++ decimal_string originalCursor ++
        js " also failed: " ++ err_message rollbackError))
  end.

(** The number of checkpoints, and whether the session moved. *)
Definition checkoutHistoryCheckpoint (target : Z) : T E (Z * bool) :=
  let+ timeline := reading ed_timeline in
  match (if (target <? 0) || (len (tl_entries timeline) <? target) then None
         else checkpoint_fingerprint timeline target) with
  | None => throwT (JsError "RangeError" (js "Checkpoint target is outside the timeline") None None)
  | Some targetFingerprint =>
      let+ stays := (if target =? tl_cursor timeline then
          let+ current := sha256_fingerprint in retT (timelineFingerprintsEqual current targetFingerprint)
        else retT false) in
      if stays : bool then retT (len (tl_entries timeline), false)
      else
        let+ _ := assertCheckpointTimelineNativeAlignment in
        let+ _ := on_timeline (with_navigating true) in
        let+ originalCursor := reading (fun s => tl_cursor (ed_timeline s)) in
        let+ moved := attempted (
          let+ moved := attempted (move_to_checkpoint target targetFingerprint (target =? tl_cursor timeline)) in
          match moved with inr _ => retT tt | inl error => move_failed originalCursor error end) in
        let+ _ := on_timeline (with_navigating false) in
        let+ _ := liftT moved in
        retT (target, true)
  end.
End Timeline.

(** ** The number of checkpoints of a server

    What the calls of the timeline do to it, also when their answer is an
    error or is lost; the calls that only ask change nothing. *)
Section Native.
Context {S : Type} `{EditBackend S} `{Transport S} (sessionId : jsstring).

Class NativeCheckpoints := {
  native : S -> Z;
  native_nonneg s : 0 <= native s;
  native_client s : native (get_client s).1 = native s;
  native_query {A} (rq : UnaryCalls.rpc A) s : is_query rq = true -> native (call_unary rq s).1 = native s;
  native_clear s : native (rpc_clear s).1 = native s;
  native_count s s' counts :
    call_unary (GetCount sessionId [CHECKPOINTS]) s = (s', CallReplied (Some counts)) ->
    map ct_count counts = [NInt (native s)];
  native_create s s' o : call_unary (CreateCheckpoint sessionId) s = (s', o) ->
    match o with
    | CallReplied (Some count) => native s' = native s + 1 /\ count = NInt (native s')
    | _ => native s' = native s \/ native s' = native s + 1
    end;
  native_destroy s s' o : call_unary (DestroyLastCheckpoint sessionId) s = (s', o) ->
    match o with
    | CallReplied (Some _) => native s' = native s - 1
    | _ => native s' = native s \/ native s' = native s - 1
    end;
  native_restore s s' o : call_unary (RestoreLastCheckpoint sessionId) s = (s', o) -> native s' = native s;
  native_checkout n s s' o : call_unary (CheckoutCheckpoint sessionId n) s = (s', o) ->
    match o with
    | CallReplied (Some _) => native s' = n
    | _ => native s' = native s \/ native s' = n
    end;
  native_discard s s' o : call_unary (DiscardCheckpointFuture sessionId) s = (s', o) -> native s' = native s
}.
End Native.

(** The cursor is at one of the entries or before them, and the last archived
    change is that of the last entry; a timeline is in order when nobody is
    moving through it, too. *)
Definition placed (t : CheckpointTimelineState) : Prop :=
  0 <= tl_cursor t <= len (tl_entries t) /\
  tl_lastArchivedChangeCount t = last_change_count (tl_entries t).

Definition in_order (t : CheckpointTimelineState) : Prop := tl_navigating t = false /\ placed t.

Create HintDb silent.

Section Alignment.
Context {S D : Type} `{EditBackend S} `{Transport S} `{TimelineStore D} (sessionId : jsstring)
  `{!NativeCheckpoints sessionId}.
Context (waitForSessionSync sendViewportData scrollToStart refreshSessionContentInfo : T S unit) (created_at : jsstring).
Abbreviation E := (editing S D).

(** The messages of the editor leave the checkpoints alone. *)
Class QuietCalls := {
  quiet_wait s : native sessionId (waitForSessionSync s).1 = native sessionId s;
  quiet_send s : native sessionId (sendViewportData s).1 = native sessionId s;
  quiet_scroll s : native sessionId (scrollToStart s).1 = native sessionId s;
  quiet_refresh s : native sessionId (refreshSessionContentInfo s).1 = native sessionId s
}.
Context `{!QuietCalls}.

Definition checkpoints_of (s : E) : Z := native sessionId (srv (ho_calls (ed_host s))).

(** From a timeline [t] and [n] checkpoints of the server, [m] ends as [Q]
    says, or in an error as [R] says. *)
Definition wp {A} (m : T E A) (Q : A -> CheckpointTimelineState -> Z -> Prop)
  (R : CheckpointTimelineState -> Z -> Prop) (t : CheckpointTimelineState) (n : Z) : Prop :=
  forall s, ed_timeline s = t -> checkpoints_of s = n ->
    match m s with
    | (s', inr a) => Q a (ed_timeline s') (checkpoints_of s')
    | (s', inl _) => R (ed_timeline s') (checkpoints_of s')
    end.

Definition silent {A} (m : T E A) : Prop := forall s,
  ed_timeline (m s).1 = ed_timeline s /\ checkpoints_of (m s).1 = checkpoints_of s.

Lemma wp_bind {A B} (m : T E A) (f : A -> T E B) Q R t n :
  wp m (fun a => wp (f a) Q R) R t n -> wp (bindT m f) Q R t n.
Proof.
  intros Hm s Ht Hn. specialize (Hm s Ht Hn). unfold bindT. destruct (m s) as [s' [e|a]]; [done|].
  by apply Hm.
Qed.

Lemma wp_ret {A} (a : A) (Q : A -> _ -> _ -> Prop) R t n : Q a t n -> wp (retT a) Q R t n.
Proof. by intros HQ s <- <-. Qed.

Lemma wp_throw {A} e (Q : A -> _ -> _ -> Prop) (R : _ -> _ -> Prop) t n : R t n -> wp (throwT e) Q R t n.
Proof. by intros HR s <- <-. Qed.

Lemma wp_silent {A} (m : T E A) (Q : A -> _ -> _ -> Prop) (R : _ -> _ -> Prop) t n :
  silent m -> (forall a, Q a t n) -> R t n -> wp m Q R t n.
Proof.
  intros Hm HQ HR s <- <-. specialize (Hm s) as [Ht Hn]. destruct (m s) as [s' [e|a]]; cbn in *; rewrite Ht, Hn; [done|apply HQ].
Qed.

Lemma wp_timeline f (Q : unit -> _ -> _ -> Prop) R t n : Q tt (f t) n -> wp (on_timeline f) Q R t n.
Proof. by intros HQ s <- <-. Qed.

Lemma wp_reading {A} (g : E -> A) (Q : A -> _ -> _ -> Prop) R t n :
  (forall s, ed_timeline s = t -> Q (g s) t n) -> wp (reading g) Q R t n.
Proof. intros HQ s <- <-. by apply HQ. Qed.

Lemma wp_weaken {A} (m : T E A) (Q Q' : A -> _ -> _ -> Prop) (R R' : _ -> _ -> Prop) t n :
  wp m Q R t n -> (forall a t n, Q a t n -> Q' a t n) -> (forall t n, R t n -> R' t n) -> wp m Q' R' t n.
Proof.
  intros Hm HQ HR s Ht Hn. specialize (Hm s Ht Hn). destruct (m s) as [s' [e|a]]; [by apply HR|by apply HQ].
Qed.

(** *** Calls that change neither *)

Lemma silent_bind {A B} (m : T E A) (f : A -> T E B) : silent m -> (forall a, silent (f a)) -> silent (bindT m f).
Proof.
  intros Hm Hf s. specialize (Hm s) as [Ht Hn]. unfold bindT. destruct (m s) as [s' [e|a]]; [done|].
  specialize (Hf a s') as [Ht' Hn']. cbn in *. split; congruence.
Qed.

Lemma silent_ret {A} (a : A) : silent (retT a).
Proof. done. Qed.
Lemma silent_lift {A} (r : js_error + A) : silent (liftT r).
Proof. done. Qed.
Lemma silent_throw {A} e : silent (throwT (A := A) e).
Proof. done. Qed.
Lemma silent_reading {A} (g : E -> A) : silent (reading g).
Proof. done. Qed.
Lemma silent_restored b : silent (set_restored b).
Proof. done. Qed.
Lemma silent_history f : silent (with_history f).
Proof. done. Qed.
Lemma silent_notify : silent (via_host notifyDocumentChanged).
Proof. done. Qed.

Lemma silent_store {A} (m : M D A) : silent (via_store m).
Proof. intros s. unfold via_store. by destruct (m _) as [d [a|e]]. Qed.

Lemma silent_stored (m : M D unit) : silent (stored m).
Proof. intros s. unfold stored. destruct (tl_storage _); [apply silent_store|done]. Qed.

Lemma silent_replay {A} (m : T (replaying S) A) :
  (forall s, native sessionId (srv (m s).1) = native sessionId (srv s)) -> silent (via_host (via_replay m)).
Proof.
  intros Hm s. specialize (Hm (ho_calls (ed_host s))). unfold via_host, via_replay, checkpoints_of.
  by destruct (m _) as [s' r].
Qed.

Definition same_native (s s' : S) : Prop := native sessionId s' = native sessionId s.

#[local] Instance same_native_preorder : PreOrder same_native.
Proof. split; [done|]. intros a b c Hab Hbc. unfold same_native in *. congruence. Qed.

Lemma silent_attempted {A} (m : T E A) : silent m -> silent (attempted m).
Proof. intros Hm s. specialize (Hm s). unfold attempted. by destruct (m s). Qed.

Lemma wp_attempted {A} (m : T E A) (Q : (js_error + A) -> _ -> _ -> Prop) R t n :
  wp m (fun a => Q (inr a)) (fun t n => forall e, Q (inl e) t n) t n -> wp (attempted m) Q R t n.
Proof. intros Hm s Ht Hn. specialize (Hm s Ht Hn). unfold attempted. by destruct (m s) as [s' [e|a]]. Qed.

Lemma silent_call {A} (m : T S A) : (forall s, same_native s (m s).1) -> silent (call m).
Proof. intros Hm. apply silent_replay. intros s. by apply (within_call same_native). Qed.

Lemma silent_client {A} (m : M (world S) A) : withinM same_native m -> silent (client m).
Proof. intros Hm. apply silent_replay. intros s. by apply (within_edit same_native). Qed.

Lemma query_native {A B} (rq : UnaryCalls.rpc A) (callback : outcome A -> js_error + B) s :
  is_query rq = true -> same_native s (unary rq callback s).1.
Proof. intros Hq. apply unary_rel; [apply _|intros ?; apply native_client|intros ?; by apply native_query]. Qed.

Lemma counts_native kinds fn s : same_native s (requestCounts sessionId kinds fn s).1.
Proof. by apply query_native. Qed.

Lemma count_native kind fn s : same_native s (checked_count (getSingleCount sessionId kind fn) s).1.
Proof.
  unfold checked_count, getSingleCount. revert s. apply bind_rel; [apply _|apply bind_rel; [apply _|intros s; apply counts_native|]|].
  - intros [|c l] s; cbn; reflexivity.
  - intros count s. cbn. reflexivity.
Qed.

Lemma fingerprint_native content algorithm plugin s :
  same_native s (client_getSessionFingerprint sessionId content algorithm plugin s).1.
Proof.
  unfold client_getSessionFingerprint. revert s. apply bind_rel; [apply _|intros s; by apply query_native|].
  intros response. destruct (fr_fingerprint response) as [[byteLength [digest|]]|]; try (intros s; cbn; reflexivity).
  apply bind_rel; [apply _|intros s; cbn; reflexivity|intros n s; cbn; reflexivity].
Qed.

Lemma silent_changeCount : silent (changeCount sessionId (D := D)).
Proof. apply silent_call. intros s. apply count_native. Qed.

Lemma within_fingerprint content algorithm plugin :
  within same_native (getChangeLogFingerprint sessionId content algorithm plugin).
Proof.
  apply within_bind; [apply _|apply within_call; intros s; apply fingerprint_native|].
  intros response. apply within_checked. apply _.
Qed.

Lemma silent_sha256 : silent (sha256_fingerprint sessionId (D := D)).
Proof.
  apply silent_bind; [|intros f; apply silent_ret]. apply silent_replay. intros s. apply within_fingerprint.
Qed.

Lemma silent_assert expected : silent (assertFingerprint sessionId (D := D) expected).
Proof.
  apply silent_replay. intros s. unfold assertCurrentSessionFingerprint. revert s.
  change (within same_native (let+ actual := fingerprint_like sessionId (to_log expected) in
    let+ same := checkedT (fingerprintsMatch actual (to_log expected)) in
    if same : bool then retT tt else throwT (new_error (js "Change log fingerprint mismatch")))).
  apply within_bind; [apply _|apply within_fingerprint|intros actual].
  apply within_bind; [apply _|apply within_checked; apply _|intros []]; [apply within_ret|apply within_throw]; apply _.
Qed.

Lemma wp_count (Q : Z -> _ -> _ -> Prop) (R : _ -> _ -> Prop) t n :
  Q n t n -> R t n -> wp (getCheckpointCount sessionId) Q R t n.
Proof.
  intros HQ HR s <- <-. unfold getCheckpointCount, bindT, call, via_host, via_replay, via_call, client_getCounts, getCounts,
    requestCounts, required, unary, bindT, checkpoints_of, srv in *.
  set (x := server _) in *. pose proof (native_client sessionId x) as Hc.
  destruct (get_client x) as [x1 [e|[]]]; cbn in *; [by rewrite Hc|].
  pose proof (native_query sessionId (GetCount sessionId [CHECKPOINTS]) x1 eq_refl) as Hq.
  destruct (call_unary _ x1) as [x2 o] eqn:E. cbn in *.
  destruct o as [e|[counts|]]; cbn; [by rewrite Hq, Hc| |by rewrite Hq, Hc].
  apply (native_count sessionId) in E. destruct counts as [|c [|]]; try done. cbn in E. injection E as E.
  unfold checkedT, liftT, getCount. rewrite E, Hc. cbn -[requireSafeIntegerOutput].
  destruct (requireSafeIntegerOutput _) as [z|e] eqn:Hz; cbn; rewrite Hq, Hc; [|done].
  apply requireSafeIntegerOutput_inv in Hz as [[= <-] _]. done.
Qed.

Lemma wp_aligned (Q : Z -> _ -> _ -> Prop) (R : _ -> _ -> Prop) t n :
  (tl_cursor t = n -> Q n t n) -> R t n -> wp (assertCheckpointTimelineNativeAlignment sessionId) Q R t n.
Proof.
  intros HQ HR. apply wp_bind, wp_count; [|done]. apply wp_bind, wp_reading. intros s ->.
  destruct (Z.eqb_spec n (tl_cursor t)); cbn; [by apply wp_ret, HQ|by apply wp_throw].
Qed.

(** *** Calls of the client *)

Definition wpM {A} (m : M (world S) A) (Q : A -> Z -> Prop) (R : Z -> Prop) (n : Z) : Prop :=
  forall w, native sessionId (server w) = n ->
    match m w with
    | (w', Ok a) => Q a (native sessionId (server w'))
    | (w', Throw _) => R (native sessionId (server w'))
    end.

Lemma wpM_bind {A B} (m : M (world S) A) (f : A -> M (world S) B) Q R n :
  wpM m (fun a => wpM (f a) Q R) R n -> wpM (bindM m f) Q R n.
Proof.
  intros Hm w Hn. specialize (Hm w Hn). unfold bindM. destruct (m w) as [w' [a|e]]; [by apply Hm|done].
Qed.

Lemma wpM_ret {A} (a : A) (Q : A -> Z -> Prop) R n : Q a n -> wpM (retM a) Q R n.
Proof. by intros HQ w <-. Qed.

Lemma wpM_lift {A} (r : result A) (Q : A -> Z -> Prop) (R : Z -> Prop) n :
  (forall a, r = Ok a -> Q a n) -> R n -> wpM (liftM r) Q R n.
Proof. intros HQ HR w <-. unfold liftM. destruct r as [a|e]; [by apply HQ|done]. Qed.

Lemma wp_client {A} (m : M (world S) A) (Q : A -> _ -> _ -> Prop) (R : _ -> _ -> Prop) t n :
  wpM m (fun a => Q a t) (R t) n -> wp (client m) Q R t n.
Proof.
  intros Hm s Ht Hn. specialize (Hm (rw_world (ho_calls (ed_host s))) Hn).
  unfold client, via_host, via_replay, via_edit, checkpoints_of, srv in *.
  destruct (m _) as [w' [a|e]]; cbn; by rewrite Ht.
Qed.

Lemma wpM_request {A} fn (rq : UnaryCalls.rpc A) (Q : A -> Z -> Prop) (R : Z -> Prop) n :
  (forall s s' o, native sessionId s = n -> call_unary rq s = (s', o) ->
    match o with CallReplied (Some r) => Q r (native sessionId s') | _ => R (native sessionId s') end) ->
  R n -> wpM (request (as_request (required fn rq))) Q R n.
Proof.
  intros Hq HR. apply wpM_bind. intros w Hn. unfold EditSession.call, as_request, required, unary, bindT.
  pose proof (native_client sessionId (server w)) as Hc.
  destruct (get_client (server w)) as [s1 [e|[]]]; cbn in *.
  { intros w' Hw. cbn. by rewrite Hw, Hc, Hn. }
  destruct (call_unary rq s1) as [s2 o] eqn:E. specialize (Hq s1 s2 o ltac:(congruence) E).
  destruct o as [e|[r|]]; cbn; intros w' Hw; cbn; by rewrite Hw.
Qed.

Lemma wp_create (Q : Z -> _ -> _ -> Prop) (R : _ -> _ -> Prop) t n :
  Q (n + 1) t (n + 1) -> R t n -> R t (n + 1) ->
  wp (client (@SessionApi.createCheckpoint S (rpc sessionId))) Q R t n.
Proof.
  intros HQ HR HR1. apply wp_client, wpM_bind, wpM_request; [|done].
  intros s s' o Hn E. apply (native_create sessionId) in E. rewrite Hn in E.
  destruct o as [e|[r|]]; [destruct E as [-> | ->]; done| |destruct E as [-> | ->]; done].
  destruct E as [-> ->]. apply wpM_lift; [|done]. intros a Ha. by apply requireSafeIntegerOutput_inv in Ha as [[= <-] _].
Qed.

Lemma wp_destroy (Q : Z -> _ -> _ -> Prop) (R : _ -> _ -> Prop) t n :
  (forall a, Q a t (n - 1)) -> R t n -> R t (n - 1) ->
  wp (client (@SessionApi.destroyLastCheckpoint S (rpc sessionId))) Q R t n.
Proof.
  intros HQ HR HR1. apply wp_client, wpM_bind, wpM_request; [|done].
  intros s s' o Hn E. apply (native_destroy sessionId) in E. rewrite Hn in E.
  destruct o as [e|[r|]]; [destruct E as [-> | ->]; done| |destruct E as [-> | ->]; done].
  rewrite E. apply wpM_lift; [|done]. intros a _. apply HQ.
Qed.

(** Checks of the counts of a reply. *)
Ltac outputs := repeat (apply wpM_bind, wpM_lift; [intros ? _|done]); apply wpM_ret.

Lemma wp_restore (Q : RestoreLastCheckpointResponse -> _ -> _ -> Prop) (R : _ -> _ -> Prop) t n :
  (forall r, Q r t n) -> R t n -> wp (client (@SessionApi.restoreLastCheckpoint S (rpc sessionId))) Q R t n.
Proof.
  intros HQ HR. apply wp_client, wpM_bind, wpM_request; [|done].
  intros s s' o Hn E. apply (native_restore sessionId) in E. rewrite E, Hn.
  destruct o as [e|[r|]]; [done| |done]. by outputs.
Qed.

Lemma wp_checkout k (Q : CheckoutCheckpointResponse -> _ -> _ -> Prop) (R : _ -> _ -> Prop) t n :
  (forall r, Q r t k) -> R t n -> R t k ->
  wp (client (@SessionApi.checkoutCheckpoint S (rpc sessionId) (NInt k))) Q R t n.
Proof.
  intros HQ HR HRk. apply wp_client, wpM_bind, wpM_lift; [|done].
  intros a Ha. apply requireSafeIntegerInput_inv in Ha as [[= ->] _].
  apply wpM_bind, wpM_request; [|done].
  intros s s' o Hn E. apply (native_checkout sessionId) in E. rewrite Hn in E.
  destruct o as [e|[r|]]; [destruct E as [-> | ->]; done| |destruct E as [-> | ->]; done].
  rewrite E. by outputs.
Qed.

Lemma wp_discard (Q : DiscardCheckpointFutureResponse -> _ -> _ -> Prop) (R : _ -> _ -> Prop) t n :
  (forall r, Q r t n) -> R t n -> wp (client (@SessionApi.discardCheckpointFuture S (rpc sessionId))) Q R t n.
Proof.
  intros HQ HR. apply wp_client, wpM_bind, wpM_request; [|done].
  intros s s' o Hn E. apply (native_discard sessionId) in E. rewrite E, Hn.
  destruct o as [e|[r|]]; [done| |done]. by outputs.
Qed.

Lemma silent_clear : silent (client (EditSession.clear false) (D := D)).
Proof.
  apply silent_client, withinM_bind; [apply _|apply withinM_call; intros s; apply native_clear|].
  intros [| |id]; intros w; cbn; reflexivity.
Qed.

(** *** Operations *)

Lemma silent_captured input : silent (captured created_at input).
Proof.
  apply silent_bind; [apply silent_reading|intros storage].
  apply silent_bind; [destruct storage; [apply silent_attempted, silent_store|apply silent_ret]|].
  intros [e|i]; [|apply silent_ret]. destruct storage; [|apply silent_ret].
  apply silent_bind; [apply silent_attempted, silent_store|intros r; apply silent_ret].
Qed.

Lemma silent_wait : silent (call waitForSessionSync (D := D)).
Proof. apply silent_call. intros s. apply quiet_wait. Qed.
Lemma silent_send : silent (call sendViewportData (D := D)).
Proof. apply silent_call. intros s. apply quiet_send. Qed.
Lemma silent_refresh : silent (call refreshSessionContentInfo (D := D)).
Proof. apply silent_call. intros s. apply quiet_refresh. Qed.

Lemma silent_reset a b c d :
  silent (resetSessionState sendViewportData scrollToStart a b c d).
Proof.
  apply silent_bind; [destruct d; [apply silent_ret|apply silent_history]|intros _].
  apply silent_bind; [apply silent_restored|intros _].
  apply silent_bind; [apply silent_call; intros s; destruct c; [apply quiet_scroll|apply quiet_send]|intros _].
  destruct b; [apply silent_notify|apply silent_ret].
Qed.

#[local] Hint Resolve silent_ret silent_throw silent_lift silent_reading silent_restored silent_history silent_notify
  silent_store silent_stored silent_changeCount silent_sha256 silent_assert silent_clear silent_captured
  silent_wait silent_send silent_refresh silent_reset silent_bind : silent.

(** The next call changes neither the timeline nor the checkpoints. *)
Ltac quiet := apply wp_bind, wp_silent; [eauto with silent|intros ?|try done].

(** What a call reads of the timeline. *)
Ltac look := apply wp_bind, wp_reading; intros ? ->.

Lemma splice_whole {A} (l : list A) : splice_from (len l) l = l.
Proof.
  unfold splice_from. destruct (Z.ltb_spec (len l) 0); [unfold len in *; lia|].
  apply firstn_all2. unfold len. lia.
Qed.

Lemma splice_length {A} c (l : list A) : 0 <= c <= len l -> len (splice_from c l) = c.
Proof.
  intros Hc. unfold splice_from. destruct (Z.ltb_spec c 0); [lia|]. unfold len in *. rewrite length_take. lia.
Qed.

Lemma cut_placed c t : 0 <= c <= len (tl_entries t) -> placed (cut_entries c t).
Proof. intros Hc. split; [|done]. cbn. rewrite splice_length by done. lia. Qed.

Lemma wp_truncate_stored c (Q : unit -> _ -> _ -> Prop) R t n :
  Q tt t n -> Q tt (without_storage t) n -> wp (truncate_stored c) Q R t n.
Proof.
  intros HQ HQ'. apply wp_bind, wp_attempted, wp_silent; [apply silent_stored|intros _; by apply wp_ret|].
  intros e. by apply wp_timeline.
Qed.

(** A timeline that is in order, with its cursor at [c]. *)
Definition ordered_at (c : Z) (t : CheckpointTimelineState) : Prop := in_order t /\ tl_cursor t = c.

Lemma wp_truncate c (Q : unit -> _ -> _ -> Prop) t n :
  in_order t -> (forall c', c = Some c' -> 0 <= c' < len (tl_entries t)) ->
  (forall t', ordered_at (default (tl_cursor t) c) t' -> Q tt t' n) ->
  wp (truncateCheckpointTimelineFuture sessionId c) Q (fun t _ => in_order t) t n.
Proof.
  intros Ho Hc HQ. pose proof Ho as [Hnav Hp]. look. rewrite Hnav. cbn [orb].
  destruct Hp as [Hcur Harch]. set (k := default (tl_cursor t) c) in *.
  assert (Hk : 0 <= k <= len (tl_entries t)).
  { unfold k. destruct c as [c'|]; cbn; [|done]. specialize (Hc c' eq_refl). lia. }
  destruct (Z.ltb_spec k 0); [lia|]. cbn [orb]. destruct (Z.leb_spec (len (tl_entries t)) k).
  { apply wp_ret, HQ. split; [done|]. unfold k in *. destruct c as [c'|]; cbn in *; [|done].
    specialize (Hc c' eq_refl). lia. }
  apply wp_bind, wp_discard; [intros r|done]. quiet.
  destruct (_ <? k); [by apply wp_throw|].
  apply wp_bind, wp_truncate_stored; apply wp_timeline, HQ; (split; [split; [done|by apply cut_placed]|done]).
Qed.

Lemma pushed_placed count e t :
  1 <= count <= len (tl_entries t) + 1 ->
  let entries := splice_from (count - 1) (tl_entries t) ++ [e] in
  len entries = count /\ last_change_count entries = e.1.
Proof.
  intros Hc entries. unfold entries, last_change_count. rewrite last_snoc. split; [|done].
  unfold len. rewrite length_app, Nat2Z.inj_add. fold (len (splice_from (count - 1) (tl_entries t))).
  rewrite splice_length by lia. cbn. lia.
Qed.

Lemma wp_record count kind ids records (Q : option interval -> _ -> _ -> Prop) t n :
  in_order t -> 1 <= count <= len (tl_entries t) + 1 ->
  (forall i t', ordered_at count t' -> len (tl_entries t') = count -> Q (Some i) t' n) ->
  wp (recordCheckpointTimelineEntry sessionId created_at count kind ids records) Q (fun t _ => in_order t) t n.
Proof.
  intros Ho Hc HQ. pose proof Ho as [Hnav [Hcur Harch]]. look. rewrite Hnav. cbv zeta.
  do 5 quiet. apply wp_bind, wp_timeline, wp_ret.
  pose proof (pushed_placed count (a, a3) t Hc) as [Hl He]. cbv zeta in Hl, He.
  apply HQ; [|exact Hl]. split; [|done]. split; [done|]. split; cbn -[splice_from len last_change_count].
  - rewrite Hl. lia.
  - by rewrite He.
Qed.

Lemma wp_unusable checkpoint before t n :
  in_order t -> 1 <= checkpoint <= len (tl_entries t) ->
  wp (rollbackUnusableTimelineBoundary sessionId checkpoint before) (fun _ t _ => in_order t) (fun t _ => in_order t) t n.
Proof.
  intros Ho Hc. pose proof Ho as [Hnav _]. apply wp_bind, wp_count; [|done]. apply wp_bind.
  assert (Hrest : forall n, wp (let+ _ := truncate_stored (checkpoint - 1) in
      let+ _ := on_timeline (cut_entries (checkpoint - 1)) in
      let+ restored := checkedT (fromSnapshot before) in with_history (fun _ => restored))
    (fun _ t _ => in_order t) (fun t _ => in_order t) t n).
  { intros n'. apply wp_bind, wp_truncate_stored; apply wp_bind, wp_timeline;
      (assert (in_order (cut_entries (checkpoint - 1) t)) by (split; [done|apply cut_placed; lia]);
       apply wp_silent; [unfold checkedT; eauto with silent|intros _; exact H3|exact H3]). }
  destruct (checkpoint <=? n); [apply wp_bind, wp_destroy; try done; intros a|]; by apply wp_ret.
Qed.

(** *** Alignment *)

Definition succeeds {A} (r : js_error + A) : Prop := match r with inr _ => True | inl _ => False end.

(** Where an operation leads from a timeline in order: in order again, and
    aligned when it succeeds. *)
Definition keeps_order {A} (m : T E A) : Prop := forall t n, in_order t ->
  wp m (fun _ t' n' => in_order t' /\ (tl_cursor t = n -> tl_cursor t' = n')) (fun t' _ => in_order t') t n.

(** Once the timeline is known to be aligned. *)
Ltac aligned_then := apply wp_bind, wp_aligned; [intros Hn|done].

Lemma create_keeps mutable :
  keeps_order (createSessionCheckpoint sessionId waitForSessionSync sendViewportData scrollToStart created_at mutable).
Proof.
  intros t n Ho. unfold createSessionCheckpoint. destruct mutable; cbn [negb].
  2:{ apply wp_bind, wp_count; [|done]. by apply wp_ret. }
  aligned_then. do 3 quiet. destruct (negb _).
  { apply wp_bind, wp_count; [|done]. by apply wp_ret. }
  quiet. apply wp_bind, wp_create; [|done|done]. do 2 quiet.
  pose proof Ho as [_ [Hcur _]]. apply wp_bind, wp_record; [done|lia|]. intros i t' [Ho' Hcur'] Hl.
  destruct (from_option _ _ _).
  - quiet. by apply wp_ret.
  - apply wp_bind. eapply wp_weaken; [apply wp_unusable; [done|lia]| |done].
    intros u t'' n'' Ho''. by apply wp_throw.
Qed.

Lemma rollback_keeps mutable :
  keeps_order (rollbackLastCheckpoint sessionId waitForSessionSync sendViewportData scrollToStart mutable).
Proof.
  intros t n Ho. unfold rollbackLastCheckpoint. destruct mutable; cbn [negb]; [|by apply wp_ret].
  aligned_then. destruct (Z.leb_spec n 0); [by apply wp_ret|].
  apply wp_bind, wp_destroy; [intros a|done|done]. quiet.
  apply wp_bind, wp_bind, wp_silent; [eauto with silent|intros f|done].
  apply wp_bind, wp_timeline, wp_silent; [eauto with silent|intros b|done].
  quiet. pose proof Ho as [_ [Hcur _]]. apply wp_bind, wp_truncate; [done|intros c' [= <-]; cbn; lia|].
  intros t' [Ho' Hc']. apply wp_ret. split; [done|]. intros _. exact Hc'.
Qed.

Lemma wp_refresh (Q : bool -> _ -> _ -> Prop) (R : _ -> _ -> Prop) t n :
  (forall b f, Q b (with_current f t) n) -> R t n -> wp (refresh_current sessionId) Q R t n.
Proof.
  intros HQ HR. apply wp_bind, wp_silent; [apply silent_sha256|intros f|done].
  apply wp_bind, wp_timeline, wp_reading. intros s _. apply HQ.
Qed.

Lemma restore_keeps mutable :
  keeps_order (restoreLastCheckpoint sessionId waitForSessionSync sendViewportData scrollToStart mutable).
Proof.
  intros t n Ho. unfold restoreLastCheckpoint. destruct mutable; cbn [negb].
  2:{ apply wp_bind, wp_count; [|done]. quiet. by apply wp_ret. }
  aligned_then. destruct (n <=? 0); [quiet; by apply wp_ret|].
  apply wp_bind, wp_restore; [intros r|done]. do 2 quiet.
  apply wp_bind, wp_refresh; [intros b f|done]. quiet.
  do 3 (apply wp_bind, wp_silent; [apply silent_lift|intros ?|done]). by apply wp_ret.
Qed.

Lemma wp_destroy_all k (Q : unit -> _ -> _ -> Prop) (R : _ -> _ -> Prop) t : forall n,
  Q tt t (n - Z.of_nat k) -> (forall n, R t n) -> wp (destroy_checkpoints sessionId k) Q R t n.
Proof.
  induction k as [|k IH]; intros n HQ HR; cbn [destroy_checkpoints].
  - apply wp_ret. by replace n with (n - Z.of_nat 0) by lia.
  - apply wp_bind, wp_destroy; [intros a|done|done]. apply IH; [|done].
    by replace (n - 1 - Z.of_nat k) with (n - Z.of_nat (Datatypes.S k)) by lia.
Qed.

Lemma wp_nonneg {A} (m : T E A) Q R t n : (0 <= n -> wp m Q R t n) -> wp m Q R t n.
Proof. intros Hm s Ht Hn. apply Hm; [|done|done]. rewrite <- Hn. apply native_nonneg. Qed.

Lemma rollbackSession_keeps mutable :
  keeps_order (rollbackSession sessionId waitForSessionSync sendViewportData scrollToStart mutable).
Proof.
  intros t n Ho. unfold rollbackSession. destruct mutable; cbn [negb]; [|by apply wp_ret].
  apply wp_nonneg. intros Hn. apply wp_bind, wp_count; [|done].
  apply wp_bind, wp_destroy_all; [|done]. replace (n - Z.of_nat (Z.to_nat n)) with 0 by lia.
  do 2 quiet. apply wp_bind, wp_timeline. look. do 2 quiet. apply wp_timeline.
  pose proof Ho as [Hnav _]. split; [|done]. split; [done|]. split; [|done]. cbn. unfold len. cbn. lia.
Qed.

Lemma truncate_keeps : keeps_order (truncateCheckpointTimelineFuture sessionId None).
Proof.
  intros t n Ho. apply wp_truncate; [done|done|]. intros t' [Ho' Hc]. split; [done|]. intros Ha. cbn in Hc. congruence.
Qed.

(** *** Moving *)

(** On the way between checkpoints of the timeline. *)
Definition moving (entries : list (Z * interval)) (t : CheckpointTimelineState) (n : Z) : Prop :=
  tl_navigating t = true /\ placed t /\ tl_entries t = entries /\ 0 <= n <= len entries.

Lemma moving_cursor entries c t n : 0 <= c <= len entries -> moving entries t n -> moving entries (with_cursor c t) n.
Proof. intros Hc (Hnav & [_ Ha] & He & Hn). repeat split; cbn; try done; rewrite ?He; lia. Qed.

Lemma moving_checkout entries k t n : 0 <= k <= len entries -> moving entries t n -> moving entries t k.
Proof. by intros Hk (Hnav & Hp & He & Hn). Qed.

Lemma wp_reconcile (Q : bool -> _ -> _ -> Prop) (R : _ -> _ -> Prop) t n :
  (forall b f, Q b (with_current f t) n) -> (forall f, R (with_current f t) n) -> R t n ->
  wp (reconcileNativeHistory sessionId) Q R t n.
Proof.
  intros HQ HRf HR. do 2 (apply wp_bind, wp_silent; [apply silent_call; intros s; apply count_native|intros ?|done]).
  quiet. apply wp_bind, wp_timeline. look. intros s1 Ht Hn.
  destruct (reconcileNativeTransactionCounts _ _ _ _) as [h r].
  destruct (silent_history (fun _ => h) s1) as [Ht' Hn']. destruct (with_history _ s1) as [s' u]. cbn in Ht', Hn'.
  rewrite Ht in Ht'. rewrite Hn in Hn'. destruct r; cbn; rewrite Ht', Hn'; [apply HQ|apply HRf].
Qed.

Definition arrived (entries : list (Z * interval)) (c : Z) (t : CheckpointTimelineState) (n : Z) : Prop :=
  moving entries t n /\ tl_cursor t = c /\ n = c.

Lemma wp_arrive entries target expected t n :
  moving entries t n -> 0 <= target <= len entries ->
  wp (arrive_at_checkpoint sessionId waitForSessionSync sendViewportData scrollToStart refreshSessionContentInfo
        target expected) (fun _ => arrived entries target) (moving entries) t n.
Proof.
  intros Hm Ht. pose proof (moving_checkout _ target _ _ Ht Hm) as Hk.
  apply wp_bind, wp_checkout; [intros response|done|done].
  do 2 (apply wp_bind, wp_silent; [apply silent_lift|intros ?|done]). look.
  destruct (_ || _); [by apply wp_throw|]. quiet. apply wp_bind, wp_timeline.
  pose proof (moving_cursor _ _ _ _ Ht Hk) as Hc. do 2 quiet.
  apply wp_bind, wp_refresh; [intros b f|done]. look.
  apply wp_bind, wp_silent; [apply silent_lift|intros history|done]. quiet.
  apply wp_bind, wp_reconcile; [intros b' f'|done|done]. quiet.
  by apply wp_silent; [eauto with silent|intros _|].
Qed.

Lemma wp_move_to entries target expected reset t n :
  moving entries t n -> 0 <= target <= len entries ->
  wp (move_to_checkpoint sessionId waitForSessionSync sendViewportData scrollToStart refreshSessionContentInfo
        target expected reset) (fun _ => arrived entries target) (moving entries) t n.
Proof.
  intros Hm Ht. apply wp_bind. destruct reset; [|by apply wp_ret, wp_arrive].
  destruct (Z.leb_spec target 0); [by apply wp_throw|].
  assert (0 <= target - 1 <= len entries) as Ht1 by lia.
  apply wp_bind, wp_checkout; [intros r; apply wp_ret, wp_arrive; [|done]|done|];
    by apply (moving_checkout _ _ t n Ht1).
Qed.

Lemma wp_move_back entries c t n :
  moving entries t n -> 0 <= c <= len entries ->
  wp (move_back sessionId c) (fun _ => arrived entries c) (moving entries) t n.
Proof.
  intros Hm Hc. pose proof (moving_checkout _ c _ _ Hc Hm) as Hk.
  apply wp_bind, wp_checkout; [intros r|done|done]. look. apply wp_bind.
  destruct (checkpoint_fingerprint t c); [|by apply wp_throw].
  apply wp_silent; [eauto with silent|intros _|done].
  pose proof (moving_cursor _ _ _ _ Hc Hk) as Hk'. apply wp_bind, wp_timeline. quiet.
  apply wp_bind, wp_refresh; [intros b f|done]. apply wp_ret. by split.
Qed.

(** The server tells how many checkpoints there are when it is asked. *)
Definition answers_counts : Prop := forall s : E, succeeds (getCheckpointCount sessionId s).2.

Lemma wp_asked (Q : (js_error + Z) -> _ -> _ -> Prop) R t n :
  Q (inr n) t n -> (forall e, (answers_counts -> False) -> Q (inl e) t n) ->
  wp (attempted (getCheckpointCount sessionId)) Q R t n.
Proof.
  intros HQ HR s Ht Hn. pose proof (fun Ha : answers_counts => Ha s) as Hans.
  pose proof (wp_count (fun c t' n' => c = n /\ t' = t /\ n' = n) (fun t' n' => t' = t /\ n' = n) t n
    ltac:(done) ltac:(done) s Ht Hn) as Hc. unfold attempted.
  destruct (getCheckpointCount sessionId s) as [s' [e|c]].
  - destruct Hc as [-> ->]. by apply HR.
  - by destruct Hc as (-> & -> & ->).
Qed.

Lemma wp_at {A} (m : T E A) (Q : A -> _ -> _ -> Prop) (R : _ -> _ -> Prop) s :
  wp m Q R (ed_timeline s) (checkpoints_of s) ->
  match m s with
  | (s', inr a) => Q a (ed_timeline s') (checkpoints_of s')
  | (s', inl _) => R (ed_timeline s') (checkpoints_of s')
  end.
Proof. intros Hm. by apply (Hm s). Qed.

Lemma wp_move_failed entries c error (Q : unit -> _ -> _ -> Prop) t n :
  moving entries t n -> 0 <= c <= len entries ->
  wp (move_failed sessionId sendViewportData c error) Q
    (fun t' n' => moving entries t' n' /\ (answers_counts -> tl_cursor t' = n')) t n.
Proof.
  intros Hm Hc.
  assert (Hsent : forall e t n, moving entries t n -> (answers_counts -> tl_cursor t = n) ->
    wp (let+ _ := attempted (call sendViewportData) in throwT e) Q
      (fun t' n' => moving entries t' n' /\ (answers_counts -> tl_cursor t' = n')) t n).
  { intros e t' n' Hm' Ha. apply wp_bind, wp_silent; [apply silent_attempted, silent_send|intros ?|done]. by apply wp_throw. }
  apply wp_bind, wp_attempted. eapply wp_weaken; [by apply wp_move_back| |].
  - intros u t' n' (Hm' & Hc' & Hn'). apply Hsent; [done|]. intros _. congruence.
  - intros t' n' Hm' e. apply wp_bind, wp_asked.
    + apply wp_bind, wp_timeline, Hsent; [|done]. apply moving_cursor; [|done]. by destruct Hm' as (_ & _ & _ & ?).
    + intros e' Ha. apply wp_bind, wp_ret, Hsent; [done|]. intros Hans. by destruct (Ha Hans).
Qed.

(** A move, in every way it may end. *)
Lemma wp_checkout_history target t n :
  in_order t ->
  wp (checkoutHistoryCheckpoint sessionId waitForSessionSync sendViewportData scrollToStart refreshSessionContentInfo target)
    (fun r t' n' => in_order t' /\ tl_entries t' = tl_entries t /\
       if r.2 then tl_cursor t' = target /\ n' = target else t' = t /\ n' = n)
    (fun t' n' => in_order t' /\ tl_entries t' = tl_entries t /\
       (answers_counts -> tl_cursor t = n -> tl_cursor t' = n')) t n.
Proof.
  intros Ho. unfold checkoutHistoryCheckpoint. look.
  assert (Hend : in_order t /\ tl_entries t = tl_entries t /\ (answers_counts -> tl_cursor t = n -> tl_cursor t = n)) by done.
  destruct (_ || _) eqn:Hr; [by apply wp_throw|].
  apply orb_false_iff in Hr as [Hr0 Hr1]. apply Z.ltb_ge in Hr0, Hr1.
  destruct (checkpoint_fingerprint t target) as [targetFingerprint|]; [|by apply wp_throw].
  apply wp_bind, wp_silent; [destruct (_ =? _); eauto with silent|intros stays|done].
  destruct stays; [by apply wp_ret|].
  apply wp_bind, wp_aligned; [intros Hn|done]. apply wp_bind, wp_timeline. look.
  destruct Ho as [Hnav [Hcur Harch]].
  assert (Hm : moving (tl_entries t) (with_navigating true t) n) by (repeat split; cbn; try done; lia).
  apply wp_bind, wp_attempted, wp_bind, wp_attempted. eapply wp_weaken; [apply wp_move_to; [exact Hm|lia]| |].
  - intros u t' n' ((Hnav' & [Hcur' Harch'] & He' & Hn') & Hc & ->). apply wp_ret, wp_bind, wp_timeline, wp_bind, wp_ret, wp_ret.
    repeat split; cbn; try done; lia.
  - intros t' n' Hm' e. eapply wp_weaken; [apply wp_move_failed; [exact Hm'|cbn; lia]| |]; [intros u1 t1 n1 Q1; exact Q1|].
    intros t'' n'' [(Hnav'' & [Hcur'' Harch''] & He'' & Hn'') Ha] e'. apply wp_bind, wp_timeline, wp_bind, wp_throw.
    repeat split; cbn; try done; [lia|lia|]. intros Hans _. by apply Ha.
Qed.

(** *** Every operation *)

Inductive timeline_operation :=
  | CreateCheckpointOp (mutable : bool)
  | RollbackCheckpointOp (mutable : bool)
  | RestoreCheckpointOp (mutable : bool)
  | RollbackSessionOp (mutable : bool)
  | MoveToOp (target : Z)
  | TruncateOp.

Definition forget {A} (m : T E A) : T E unit := let+ _ := m in retT tt.

Definition run_timeline (op : timeline_operation) : T E unit :=
  match op with
  | CreateCheckpointOp mutable =>
      forget (createSessionCheckpoint sessionId waitForSessionSync sendViewportData scrollToStart created_at mutable)
  | RollbackCheckpointOp mutable =>
      forget (rollbackLastCheckpoint sessionId waitForSessionSync sendViewportData scrollToStart mutable)
  | RestoreCheckpointOp mutable =>
      forget (restoreLastCheckpoint sessionId waitForSessionSync sendViewportData scrollToStart mutable)
  | RollbackSessionOp mutable =>
      rollbackSession sessionId waitForSessionSync sendViewportData scrollToStart mutable
  | MoveToOp target =>
      forget (checkoutHistoryCheckpoint sessionId waitForSessionSync sendViewportData scrollToStart
        refreshSessionContentInfo target)
  | TruncateOp => truncateCheckpointTimelineFuture sessionId None
  end.

(** The server has as many checkpoints as the cursor says. *)
Definition aligned (s : E) : Prop := tl_cursor (ed_timeline s) = checkpoints_of s.

(** Only questions have been asked. *)
Definition untouched (s s' : E) : Prop :=
  ed_timeline s' = ed_timeline s /\ ed_store s' = ed_store s /\ checkpoints_of s' = checkpoints_of s /\
  session_history s' = session_history s /\ ho_documentChanges (ed_host s') = ho_documentChanges (ed_host s) /\
  ed_restoredFromBackup s' = ed_restoredFromBackup s.

(** The operations that look before they do anything. *)
Definition guarded (op : timeline_operation) (s : E) : Prop :=
  match op with
  | CreateCheckpointOp mutable | RollbackCheckpointOp mutable | RestoreCheckpointOp mutable => mutable = true
  | MoveToOp target => target <> tl_cursor (ed_timeline s)
  | _ => False
  end.

Lemma forget_kept {A} (m : T E A) : keeps_order m -> keeps_order (forget m).
Proof.
  intros Hm t n Ho. apply wp_bind. eapply wp_weaken; [by apply Hm| |done].
  intros a t' n' Hq. by apply wp_ret.
Qed.

Lemma move_keeps target : keeps_order (checkoutHistoryCheckpoint sessionId waitForSessionSync sendViewportData
  scrollToStart refreshSessionContentInfo target).
Proof.
  intros t n Ho. eapply wp_weaken; [by apply wp_checkout_history| |].
  - intros [k moved] t' n' (Ho' & _ & Hr). split; [done|]. cbn in Hr. destruct moved; destruct Hr as [-> ->]; done.
  - by intros t' n' [Ho' _].
Qed.

Lemma run_keeps op : keeps_order (run_timeline op).
Proof.
  destruct op as [m|m|m|m|target|]; cbn [run_timeline].
  - apply forget_kept, create_keeps.
  - apply forget_kept, rollback_keeps.
  - apply forget_kept, restore_keeps.
  - apply rollbackSession_keeps.
  - apply forget_kept, move_keeps.
  - apply truncate_keeps.
Qed.

Lemma count_untouched s : untouched s (getCheckpointCount sessionId s).1.
Proof.
  assert (Hw : wp (getCheckpointCount sessionId) (fun _ t n => t = ed_timeline s /\ n = checkpoints_of s)
    (fun t n => t = ed_timeline s /\ n = checkpoints_of s) (ed_timeline s) (checkpoints_of s)) by by apply wp_count.
  pose proof (wp_at _ _ _ s Hw) as Hc.
  assert (ed_timeline (getCheckpointCount sessionId s).1 = ed_timeline s /\
    checkpoints_of (getCheckpointCount sessionId s).1 = checkpoints_of s) as [Ht Hn].
  { destruct (getCheckpointCount sessionId s) as [s' [e|a]]; exact Hc. }
  clear Hc Hw. split; [exact Ht|]. clear Ht. revert Hn. unfold getCheckpointCount, bindT, call, via_host, via_replay.
  destruct (via_call _ _) as [c [e|[|k l]]]; cbn; by intros Hn.
Qed.

(** A step after which an operation has failed and has only asked. *)
Definition refuses {A} (m : T E A) (s : E) : Prop := (succeeds (m s).2 -> False) /\ untouched s (m s).1.

Lemma refuses_bind {A B} (m : T E A) (f : A -> T E B) s : refuses m s -> refuses (bindT m f) s.
Proof. intros [Hf Hu]. unfold refuses, bindT. destruct (m s) as [s' [e|a]]; [done|]. by destruct (Hf I). Qed.

Lemma refuses_read {A B} (g : E -> A) (f : A -> T E B) s : refuses (f (g s)) s -> refuses (bindT (reading g) f) s.
Proof. done. Qed.

Lemma throw_refuses {A} e s : refuses (throwT (A := A) e) s.
Proof. split; [intros []|]. unfold untouched. by repeat split. Qed.

Lemma assert_refuses s : (aligned s -> False) -> refuses (assertCheckpointTimelineNativeAlignment sessionId) s.
Proof.
  intros Ha. assert (Hw : wp (assertCheckpointTimelineNativeAlignment sessionId) (fun _ _ _ => False) (fun _ _ => True)
    (ed_timeline s) (checkpoints_of s)) by by apply wp_aligned.
  apply wp_at in Hw. pose proof (count_untouched s) as Hu.
  unfold refuses, assertCheckpointTimelineNativeAlignment, bindT, reading in *.
  destruct (getCheckpointCount sessionId s) as [s' [e|count]]; [done|].
  destruct (negb _); [done|]. by cbn in Hw.
Qed.

Lemma misaligned_refused op s : guarded op s -> (aligned s -> False) -> refuses (run_timeline op) s.
Proof.
  intros Hg Ha. pose proof (assert_refuses s Ha) as Hr.
  destruct op as [[]|[]|[]|m|target|]; cbn in Hg; try done; cbn [run_timeline]; apply refuses_bind;
    try by apply refuses_bind.
  change (refuses (checkoutHistoryCheckpoint sessionId waitForSessionSync sendViewportData scrollToStart
    refreshSessionContentInfo target) s).
  unfold checkoutHistoryCheckpoint. apply (refuses_read ed_timeline).
  destruct (_ || _); [by apply throw_refuses|]. destruct (checkpoint_fingerprint _ _); [|by apply throw_refuses].
  rewrite (proj2 (Z.eqb_neq _ _) Hg). by apply (refuses_bind (assertCheckpointTimelineNativeAlignment sessionId)).
Qed.

(** C7 Whatever an operation on the checkpoints of a session does and
    wherever it fails, a timeline that was in order is in order: the cursor is
    at one of its entries or before them, and the archived changes are those
    of its last entry.  Where the server had as many checkpoints as the cursor
    says, an operation that succeeds leaves it so, and so does a move that
    fails, if the server can be asked.  Where they disagreed, creating,
    rolling back and restoring a checkpoint of a session that may be changed,
    and moving to a checkpoint other than the one at the cursor, fail before
    they change anything; rolling back the whole session and truncating the
    future do not look, and nothing of the kind is said of them. *)
Theorem timeline_stays_aligned op s :
  in_order (ed_timeline s) ->
  let '(s', r) := run_timeline op s in
  in_order (ed_timeline s') /\ (aligned s -> succeeds r -> aligned s') /\
  (forall target, op = MoveToOp target -> answers_counts -> aligned s -> aligned s') /\
  (guarded op s -> (aligned s -> False) -> (succeeds r -> False) /\ untouched s s').
Proof.
  intros Ho. pose proof (wp_at (run_timeline op) _ _ s (run_keeps op _ _ Ho)) as Hk.
  pose proof (misaligned_refused op s) as Hm. unfold refuses in Hm.
  assert (Hmove : forall target, op = MoveToOp target -> answers_counts -> aligned s -> aligned (run_timeline op s).1).
  { intros target -> Hans Ha. pose proof (wp_at _ _ _ s (wp_checkout_history target _ _ Ho)) as Hw.
    cbn [run_timeline]. unfold forget, bindT.
    destruct (checkoutHistoryCheckpoint _ _ _ _ _ target s) as [s' [e|[k moved]]]; cbn.
    - destruct Hw as (_ & _ & Hw). by apply Hw.
    - destruct Hw as (_ & _ & Hw). unfold aligned. cbn in Hw. destruct moved; destruct Hw as [-> ->]; done. }
  destruct (run_timeline op s) as [s' [e|u]]; cbn in *.
  - split; [done|]. split; [done|]. by split.
  - destruct Hk as [Ho' Ha']. split; [done|]. split; [by intros Ha _; apply Ha'|]. by split.
Qed.
End Alignment.
