(* ===== verification/HostHistory.v ===== *)
(** * Editing, undo and redo in the extension ([hexEditorProvider.ts])

    What an accepted edit leaves in the session ([handleWebviewMessage],
    [applyReplace]), the executor that drives the history of
    [editor_history.ts] through the checkpoints of a timeline
    ([makeHistoryExecutor]), undo and redo ([performUndoOnSession],
    [performRedoOnSession]), and moving to a number of changes
    ([nearestCheckpointForChangeCount],
    [navigateActionJournalToChangeCount]).

    The state is the one of [HostTimeline]; [History.undo] and [History.redo]
    run on it through an executor whose errors are kept beside the state,
    since the history knows other errors. *)

From stdpp Require Import sorting.
From S2P Require Import Prelude SafeInt JsText JsValue EditDiff EditSession History Search SessionApi UnaryCalls SessionCalls ChangeLogCodec TimelineManifest AiReplay HostRecords HostReplay HostTimeline.

Open Scope call_scope.

Section Editing.
Context {S D : Type} `{EditBackend S} `{Transport S} `{TimelineStore D} (sessionId : jsstring).
Abbreviation E := (editing S D).

#[local] Instance rpc : SessionRpc S := session_rpc sessionId.

Context (waitForSessionSync sendViewportData scrollToStart refreshSessionContentInfo : T S unit).

(** ** Edits *)

(** What follows an edit that the server has accepted. *)
Definition edit_accepted (change : EditorChangeRecord) : T E unit :=
  let+ _ := truncateCheckpointTimelineFuture sessionId None in
  let+ _ := markCheckpointTimelineChanged in
  let+ _ := with_history (recordLocalChange change) in
  via_host notifyDocumentChanged.

Definition insert_bytes (offset : Z) (dataHex : jsstring) : T E unit :=
  let+ serial := client (EditSession.insert (NInt offset) (hex_decode dataHex) false) in
  let+ _ := edit_accepted (mkChange serial RINSERT offset 0 dataHex None) in
  call waitForSessionSync.

Definition delete_bytes (offset length : Z) : T E unit :=
  let+ serial := client (EditSession.del (NInt offset) (NInt length) false) in
  let+ _ := edit_accepted (mkChange serial RDELETE offset length [] None) in
  call waitForSessionSync.

Definition overwrite_bytes (offset : Z) (dataHex : jsstring) : T E unit :=
  let+ serial := client (EditSession.overwrite (NInt offset) (hex_decode dataHex) false) in
  let+ _ := edit_accepted (mkChange serial ROVERWRITE offset (slen dataHex / 2) dataHex None) in
  call waitForSessionSync.

Definition applyReplace (offset length : Z) (dataHex : jsstring) (groupId : option jsstring) : T E bool :=
  let+ change := via_host (via_replay (applyReplaceChange sessionId offset length dataHex groupId)) in
  match change with
  | Some change => let+ _ := edit_accepted (history_record change) in retT true
  | None => retT false
  end.

(** ** The executor *)

(** The state and the error that was thrown. *)
Abbreviation X := (E * option js_error)%type.

Definition executes {A} (m : T E A) : M X unit := fun '(s, _) =>
  match m s with
  | (s', inr _) => ((s', None), Ok tt)
  | (s', inl e) => ((s', Some e), Throw (plain_error "executor"))
  end.

(** A call of the history: an error of the executor is thrown as it is. *)
Definition on_controller (m : M (History.history * X) bool) : T E bool := fun s =>
  let '((h, (s', thrown)), r) := m (session_history s, (s, None)) in
  let '(s', _) := with_history (fun _ => h) s' in
  (s', match r with Ok b => inr b | Throw e => inl (default (js_error_of e) thrown) end).

Definition hasTimelineEntries : T E bool := reading (fun s => 0 <? len (tl_entries (ed_timeline s))).

Definition checkoutTimelineMilestone (direction : Z) : T E unit :=
  let+ timeline := reading ed_timeline in
  let targetCheckpoint := tl_cursor timeline + direction in
  if (targetCheckpoint <? 0) || (len (tl_entries timeline) <? targetCheckpoint)
  then throwT (new_error (js "Checkpoint milestone target is outside the materialized timeline"))
  else let+ _ := client (SessionApi.checkoutCheckpoint (NInt targetCheckpoint)) in retT tt.

(** The binary search for the checkpoint at a depth of the history; each
    turn halves what is left, so as many turns as there are entries do. *)
Fixpoint depth_search (fuel : nat) (entries : list (Z * interval)) (historyDepth low high : Z) : js_error + Z :=
  if low <? high then
    match fuel with
    | O => inr low
    | Datatypes.S fuel =>
        let middle := low + (high - low) / 2 in
        match entries !! Z.to_nat middle with
        | None => inl (new_error (js "Checkpoint timeline entry is unexpectedly missing"))
        | Some entry =>
            match iv_history entry.2 with
            | None => inl (new_error (js "Checkpoint is missing editor history metadata"))
            | Some checkpointHistory =>
                if len (s_transactionLog checkpointHistory) <=? historyDepth
                then depth_search fuel entries historyDepth (middle + 1) high
                else depth_search fuel entries historyDepth low middle
            end
        end
    end
  else inr low.

Definition checkpoint_at_depth (entries : list (Z * interval)) (historyDepth : Z) : js_error + Z :=
  depth_search (length entries) entries historyDepth 0 (len entries).

Definition checkoutTimelineAtHistoryDepth (historyDepth : Z) : T E unit :=
  let+ timeline := reading ed_timeline in
  let+ targetCheckpoint := liftT (checkpoint_at_depth (tl_entries timeline) historyDepth) in
  if targetCheckpoint <=? tl_cursor timeline then retT tt
  else let+ _ := client (SessionApi.checkoutCheckpoint (NInt targetCheckpoint)) in retT tt.

(** The member of [SearchCaseFolding] of a replacement, and the bytes it was
    asked for. *)
Definition transaction_folding (transaction : CheckpointReplaceAll) : SearchCaseFolding :=
  default FOLD_NONE (folding_of (NInt (k_caseFolding transaction))).
Definition transaction_pattern (transaction : CheckpointReplaceAll) : bytes :=
  if k_isHex transaction then hex_decode (k_query transaction) else utf8_encode (k_query transaction).

(** Crossing a milestone forwards happens when the history has moved already:
    its depth is that of the state before, moved. *)
Definition depth_after_redo (s : E) : Z := undoCount (getEditState (shift_redo (session_history s))).

Definition makeHistoryExecutor : EditorHistoryExecutor X := {|
  undoLocal := executes (client (EditSession.undo false));
  redoLocal := executes (client (EditSession.redo false));
  undoMilestone := Some (executes (
    let+ entries := hasTimelineEntries in
    if entries : bool then retT tt else let+ _ := client SessionApi.destroyLastCheckpoint in retT tt));
  redoMilestone := Some (executes (
    let+ entries := hasTimelineEntries in
    if entries : bool then let+ depth := reading depth_after_redo in checkoutTimelineAtHistoryDepth depth
    else let+ _ := client SessionApi.createCheckpoint in retT tt));
  undoCheckpoint := fun _ => executes (
    let+ entries := hasTimelineEntries in
    if entries : bool then checkoutTimelineMilestone (-1)
    else let+ _ := client SessionApi.destroyLastCheckpoint in retT tt);
  redoCheckpoint := fun transaction => executes (
    let+ entries := hasTimelineEntries in
    if entries : bool then checkoutTimelineMilestone 1
    else
      let+ _ := client (SessionApi.replaceSessionCheckpointed (transaction_pattern transaction)
        (hex_decode (k_data transaction)) (transaction_folding transaction) (NInt 0) (NInt 0)) in
      retT tt)
|}.

(** ** Undo and redo *)

(** The timeline follows the server. *)
Definition follow_server : T E unit :=
  let+ _ := call waitForSessionSync in
  let+ count := getCheckpointCount sessionId in
  let+ _ := on_timeline (fun timeline => with_cursor (Z.min count (len (tl_entries timeline))) timeline) in
  let+ cursor := reading (fun s => tl_cursor (ed_timeline s)) in
  let+ _ := stored (store_setCursor cursor) in
  let+ current := sha256_fingerprint sessionId in
  on_timeline (with_current current).

Definition performUndoOnSession (mutable : bool) : T E unit :=
  if negb mutable then retT tt
  else
    let+ didUndo := on_controller (History.undo makeHistoryExecutor) in
    if didUndo : bool then follow_server else retT tt.

Definition performRedoOnSession (mutable : bool) : T E unit :=
  if negb mutable then retT tt
  else
    let+ didRedo := on_controller (History.redo makeHistoryExecutor) in
    if didRedo : bool then follow_server else retT tt.

(** ** Moving to a number of changes *)

(** One turn of the loop over the entries: the nearest checkpoint so far with
    its change count. *)
Definition nearer (targetChangeCount : Z) (nearest : Z * Z) (checkpoint changeCount : Z) : Z * Z :=
  let distance := Z.abs (changeCount - targetChangeCount) in
  let nearestDistance := Z.abs (nearest.2 - targetChangeCount) in
  if (distance <? nearestDistance) || ((distance =? nearestDistance) && (changeCount <? nearest.2))
  then (checkpoint, changeCount) else nearest.

(** Whether the server can go to the entry at an index: where its future is
    shorter than the timeline's, not to those in the future from the first
    transform on. *)
Definition available (cursor : Z) (gap : bool) (firstUnavailableTransform : option Z) (index : Z) : bool :=
  negb ((cursor <? index + 1) && gap &&
    match firstUnavailableTransform with None => true | Some first => first <=? index end).

Fixpoint nearest_entry (targetChangeCount cursor : Z) (gap : bool) (first : option Z) (index : Z)
  (entries : list (Z * interval)) (nearest : Z * Z) : Z * Z :=
  match entries with
  | [] => nearest
  | entry :: entries =>
      nearest_entry targetChangeCount cursor gap first (index + 1) entries
        (if available cursor gap first index then nearer targetChangeCount nearest (index + 1) entry.1 else nearest)
  end.

(** [findIndex] from an index on. *)
Fixpoint first_transform (cursor index : Z) (entries : list (Z * interval)) : option Z :=
  match entries with
  | [] => None
  | entry :: entries =>
      if (cursor <=? index) && match iv_boundaryKind entry.2 with BoundaryTransform => true | _ => false end
      then Some index else first_transform cursor (index + 1) entries
  end.

Definition nearest_checkpoint (timeline : CheckpointTimelineState) (nativeFuture targetChangeCount : Z) : Z * Z :=
  let logicalFutureCount := len (tl_entries timeline) - tl_cursor timeline in
  let gap := nativeFuture <? logicalFutureCount in
  let first := if gap then first_transform (tl_cursor timeline) 0 (tl_entries timeline) else None in
  nearest_entry targetChangeCount (tl_cursor timeline) gap first 0 (tl_entries timeline) (0, 0).

Definition nearestCheckpointForChangeCount (targetChangeCount : Z) : T E (Z * Z) :=
  let+ timeline := reading ed_timeline in
  let+ native := client (SessionApi.checkoutCheckpoint (NInt (tl_cursor timeline))) in
  let+ count := outputT (co_checkpointCount native) in
  let+ future := outputT (co_futureCheckpointCount native) in
  if negb (count =? tl_cursor timeline) || (len (tl_entries timeline) - tl_cursor timeline <? future)
  then throwT (new_error (js "Native checkpoint timeline is misaligned"))
  else retT (nearest_checkpoint timeline future targetChangeCount).

(** [session.changeCount], the count the model of the session has. *)
Variable modelChangeCount : S -> Z.

Definition position (s : E) : Z := modelChangeCount (srv (ho_calls (ed_host s))).

(** The loop; [false] when [fuel] turns were not enough. *)
Fixpoint navigate_loop (fuel : nat) (mutable : bool) (targetChangeCount : Z) : T E bool :=
  let+ before := reading position in
  if before =? targetChangeCount then retT true
  else
    match fuel with
    | O => retT false
    | Datatypes.S fuel =>
        let back := targetChangeCount <? before in
        let+ editState := reading (fun s => getEditState (session_history s)) in
        if (back && negb (canUndo editState)) || (negb back && negb (canRedo editState))
        then throwT (new_error (js "Change count is not available in retained history"))
        else
          let+ _ := (if back then performUndoOnSession mutable else performRedoOnSession mutable) in
          let+ after := reading position in
          if after =? before then throwT (new_error (js "History made no progress"))
          else if (back && (after <? targetChangeCount)) || (negb back && (targetChangeCount <? after))
          then throwT (new_error (js "Change count is inside an atomic transaction and cannot be checked out"))
          else navigate_loop fuel mutable targetChangeCount
    end.

(** From where [navigating] is set, to its [finally]. *)
Definition navigate_body (fuel : nat) (mutable : bool) (targetChangeCount : Z) : T E bool :=
  let+ nearest := nearestCheckpointForChangeCount targetChangeCount in
  let+ timeline := reading ed_timeline in
  let+ count := reading position in
  let+ _ := (if negb (nearest.1 =? tl_cursor timeline) && negb (nearest.2 =? count) then
      let+ _ := checkoutHistoryCheckpoint sessionId waitForSessionSync sendViewportData scrollToStart
        refreshSessionContentInfo nearest.1 in retT tt
    else retT tt) in
  let+ _ := on_timeline (with_navigating true) in
  navigate_loop fuel mutable targetChangeCount.

(** [navigating] is the flag of the action journal. *)
Definition navigateActionJournalToChangeCount (fuel : nat) (navigating mutable : bool) (targetChangeCount : Z)
  : T E bool :=
  if navigating then retT true
  else
    let+ count := reading position in
    if targetChangeCount =? count then retT true
    else if negb mutable then retT true
    else
      let+ moved := attempted (navigate_body fuel mutable targetChangeCount) in
      let+ _ := on_timeline (with_navigating false) in
      liftT moved.
End Editing.

(** ** The binary search *)

Definition entry_depth (entry : Z * interval) : option Z :=
  (fun h => len (s_transactionLog h)) <$> iv_history entry.2.

(** Every entry has its history, and they are in order. *)
Definition depths (entries : list (Z * interval)) (ds : list Z) : Prop :=
  Forall2 (fun e d => entry_depth e = Some d) entries ds /\ StronglySorted Z.le ds.

Lemma depth_lookup entries ds i e : depths entries ds -> entries !! i = Some e ->
  exists d h, ds !! i = Some d /\ iv_history e.2 = Some h /\ len (s_transactionLog h) = d.
Proof.
  intros [Hf _] He. destruct (Forall2_lookup_l _ _ _ _ _ Hf He) as (d & Hd & Hed).
  unfold entry_depth in Hed. destruct (iv_history e.2) as [h|]; [|done]. injection Hed as Hed. by exists d, h.
Qed.

Lemma sorted_lookup ds i j a b : StronglySorted Z.le ds -> ds !! i = Some a -> ds !! j = Some b -> (i <= j)%nat -> a <= b.
Proof.
  intros Hs. revert i j. induction Hs as [|d ds Hs IH Hd]; intros i j Ha Hb Hij; [done|].
  destruct i as [|i], j as [|j]; cbn in *; try lia.
  - injection Ha as ->. injection Hb as ->. lia.
  - injection Ha as ->. rewrite Forall_forall in Hd. apply Hd. by eapply list_elem_of_lookup_2.
  - apply (IH i j); [done|done|lia].
Qed.

(** What is below [low] is within the depth, what is from [high] on beyond
    it. *)
Lemma depth_search_spec entries ds historyDepth : depths entries ds -> forall fuel low high,
  0 <= low <= high -> high <= len entries -> high - low <= Z.of_nat fuel ->
  (forall i d, ds !! i = Some d -> Z.of_nat i < low -> d <= historyDepth) ->
  (forall i d, ds !! i = Some d -> high <= Z.of_nat i -> historyDepth < d) ->
  exists k, depth_search fuel entries historyDepth low high = inr k /\ low <= k <= high /\
    forall i d, ds !! i = Some d -> (Z.of_nat i < k <-> d <= historyDepth).
Proof.
  intros Hds. induction fuel as [|fuel IH]; intros low high Hl Hh Hfuel Hlow Hhigh; cbn [depth_search].
  all: destruct (Z.ltb_spec low high) as [Hlt|Hge].
  1: lia.
  1, 3: exists low; split; [done|]; split; [lia|]; intros i d Hi; split; intros Hd;
    [by apply (Hlow i)|destruct (Z.lt_ge_cases (Z.of_nat i) low); [done|]; specialize (Hhigh i d Hi); lia].
  pose proof (Z.div_pos (high - low) 2 ltac:(lia) ltac:(lia)) as Hp.
  pose proof (Z.div_lt (high - low) 2 ltac:(lia) ltac:(lia)) as Hd2.
  set (middle := low + (high - low) / 2) in *.
  destruct (lookup_lt_is_Some_2 entries (Z.to_nat middle)) as [e He]; [unfold len in Hh; lia|].
  rewrite He. destruct (depth_lookup _ _ _ _ Hds He) as (d & h & Hdm & -> & Hhd).
  destruct (Z.leb_spec (len (s_transactionLog h)) historyDepth) as [Hle|Hgt].
  - destruct (IH (middle + 1) high) as (k & -> & Hk & Hspec); [lia|lia|lia| |done|].
    { intros i d' Hi Him. pose proof (sorted_lookup ds i (Z.to_nat middle) d' d (proj2 Hds) Hi Hdm). lia. }
    exists k. split; [done|]. split; [lia|done].
  - destruct (IH low middle) as (k & -> & Hk & Hspec); [lia|lia|lia|done| |].
    { intros i d' Hi Him. pose proof (sorted_lookup ds (Z.to_nat middle) i d d' (proj2 Hds) Hdm Hi). lia. }
    exists k. split; [done|]. split; [lia|done].
Qed.

Lemma count_prefix (ds : list Z) bound k :
  0 <= k <= len ds -> (forall i d, ds !! i = Some d -> (Z.of_nat i < k <-> d <= bound)) ->
  len (List.filter (fun d => d <=? bound) ds) = k.
Proof.
  intros Hk Hspec. rewrite <- (firstn_skipn (Z.to_nat k) ds), List.filter_app.
  assert (Hin : List.filter (fun d => d <=? bound) (take (Z.to_nat k) ds) = take (Z.to_nat k) ds).
  { apply forallb_filter_id, forallb_forall. intros d Hd. apply list_elem_of_In, list_elem_of_lookup_1 in Hd as [i Hi].
    apply lookup_take_Some in Hi as [Hi Hlt]. apply Z.leb_le, (Hspec i); [done|lia]. }
  assert (Hout : List.filter (fun d => d <=? bound) (drop (Z.to_nat k) ds) = []).
  { destruct (List.filter _ (drop _ ds)) as [|d l] eqn:E; [done|].
    assert (Hd : In d (List.filter (fun d => d <=? bound) (drop (Z.to_nat k) ds))) by (rewrite E; by left).
    apply filter_In in Hd as [Hd Hle]. apply list_elem_of_In, list_elem_of_lookup_1 in Hd as [i Hi].
    rewrite lookup_drop in Hi. apply Z.leb_le, (Hspec _ _ Hi) in Hle. lia. }
  rewrite Hin, Hout, app_nil_r. unfold len in *. rewrite length_take. lia.
Qed.

(** C29 Where every checkpoint has its history and the depths of the
    histories do not descend, the binary search for the checkpoint at a depth
    ends with the number of checkpoints that are not deeper.  Depths may
    descend: rolling a checkpoint back empties the history and keeps the
    checkpoints before it, as [depths_may_descend] of [HostServer] shows; then
    nothing is said. *)
Theorem depth_search_counts entries ds historyDepth :
  depths entries ds ->
  checkpoint_at_depth entries historyDepth = inr (len (List.filter (fun d => d <=? historyDepth) ds)).
Proof.
  intros Hds. pose proof (Forall2_length _ _ _ (proj1 Hds)) as Hlen.
  destruct (depth_search_spec entries ds historyDepth Hds (length entries) 0 (len entries)) as (k & E & Hk & Hspec).
  - unfold len. lia.
  - lia.
  - unfold len. lia.
  - lia.
  - intros i d Hi Hge. apply lookup_lt_Some in Hi. unfold len in Hge. lia.
  - unfold checkpoint_at_depth. rewrite E. f_equal. symmetry. apply count_prefix; [unfold len in *; lia|done].
Qed.

(** ** The nearest checkpoint *)

Definition distance (target : Z) (c : Z) : Z := Z.abs (c - target).

Lemma nearer_spec target nearest k c :
  (nearer target nearest k c = nearest \/ nearer target nearest k c = (k, c)) /\
  distance target (nearer target nearest k c).2 <= distance target nearest.2 /\
  distance target (nearer target nearest k c).2 <= distance target c.
Proof.
  unfold nearer, distance. destruct (Z.ltb_spec (Z.abs (c - target)) (Z.abs (nearest.2 - target))); cbn [orb].
  - split; [by right|]. cbn. lia.
  - destruct (Z.eqb_spec (Z.abs (c - target)) (Z.abs (nearest.2 - target))), (Z.ltb_spec c nearest.2); cbn [andb];
      (split; [first [by left|by right]|cbn; lia]).
Qed.

Lemma nearest_entry_spec target cursor gap first entries : forall index nearest,
  let r := nearest_entry target cursor gap first index entries nearest in
  (r = nearest \/ exists i e, entries !! i = Some e /\ available cursor gap first (index + Z.of_nat i) = true /\
    r = (index + Z.of_nat i + 1, e.1)) /\
  distance target r.2 <= distance target nearest.2 /\
  forall i e, entries !! i = Some e -> available cursor gap first (index + Z.of_nat i) = true ->
    distance target r.2 <= distance target e.1.
Proof.
  induction entries as [|e entries IH]; intros index nearest r; [split; [by left|split; [done|by intros [|i]]]|].
  unfold r. cbn [nearest_entry]. clear r. set (next := if available _ _ _ _ then _ else _).
  destruct (IH (index + 1) next) as (Hin & Hdist & Hall). cbv zeta in *.
  assert (Hshift : forall i, index + 1 + Z.of_nat i = index + Z.of_nat (Datatypes.S i)) by lia.
  assert (Hnext : (next = nearest \/ available cursor gap first index = true /\ next = (index + 1, e.1)) /\
    distance target next.2 <= distance target nearest.2 /\
    (available cursor gap first index = true -> distance target next.2 <= distance target e.1)).
  { unfold next. destruct (available cursor gap first index); [|by split; [left|split]].
    destruct (nearer_spec target nearest (index + 1) e.1) as ([Hn|Hn] & ? & ?); (split; [|done]); [by left|by right]. }
  destruct Hnext as (Hcase & Hd & He). split; [|split; [lia|]].
  - destruct Hin as [Hin|(i & e' & Hi & Ha & Hr)].
    + destruct Hcase as [Hc|[Ha Hc]]; [left; congruence|right]. exists 0%nat, e. rewrite Hin, Hc. cbn.
      rewrite Z.add_0_r. by split.
    + right. exists (Datatypes.S i), e'. rewrite <- Hshift. done.
  - intros [|i] e' Hi Ha; cbn in Hi.
    + injection Hi as <-. rewrite Z.add_0_r in Ha. specialize (He Ha). lia.
    + apply (Hall i e' Hi). by rewrite Hshift.
Qed.

(** The checkpoint a move to a number of changes starts from is the
    beginning or one the server can go to, and none of those is nearer. *)
Theorem nearest_checkpoint_nearest timeline nativeFuture target :
  let gap := nativeFuture <? len (tl_entries timeline) - tl_cursor timeline in
  let first := if gap then first_transform (tl_cursor timeline) 0 (tl_entries timeline) else None in
  let reachable i e := tl_entries timeline !! i = Some e /\
    available (tl_cursor timeline) gap first (Z.of_nat i) = true in
  let '(checkpoint, count) := nearest_checkpoint timeline nativeFuture target in
  (checkpoint = 0 /\ count = 0 \/ exists i e, reachable i e /\ checkpoint = Z.of_nat i + 1 /\ count = e.1) /\
  distance target count <= distance target 0 /\
  (forall i e, reachable i e -> distance target count <= distance target e.1).
Proof.
  intros gap first reachable. unfold nearest_checkpoint. fold gap. fold first.
  pose proof (nearest_entry_spec target (tl_cursor timeline) gap first (tl_entries timeline) 0 (0, 0)) as Hs.
  cbv zeta in Hs. destruct (nearest_entry _ _ _ _ _ _ _) as [checkpoint count]. cbn [fst snd] in Hs.
  destruct Hs as ([[= -> ->]|(i & e & Hi & Ha & [= -> ->])] & Hd & Hall).
  - split; [by left|]. split; [done|]. intros i e [Hi Ha]. by apply (Hall i e).
  - split; [right; exists i, e; by repeat split|]. split; [done|]. intros j e' [Hj Ha']. by apply (Hall j e').
Qed.

(** ** Undo and redo keep the timeline *)

Section Following.
Context {S D : Type} `{EditBackend S} `{Transport S} `{TimelineStore D} (sessionId : jsstring)
  `{!NativeCheckpoints sessionId}.
Context (waitForSessionSync sendViewportData scrollToStart refreshSessionContentInfo : T S unit)
  `{!QuietCalls sessionId waitForSessionSync sendViewportData scrollToStart refreshSessionContentInfo}.
Abbreviation E := (editing S D).
Abbreviation X := (E * option js_error)%type.
Abbreviation timeline_of := (fun st : History.history * X => ed_timeline st.2.1).

(** Computations that leave the timeline alone, of the session and of the
    history with its executor. *)
Definition kept {A} (m : T E A) : Prop := forall s, ed_timeline (m s).1 = ed_timeline s.
Definition keptM {A} (m : M (History.history * X) A) : Prop := forall st, timeline_of (m st).1 = timeline_of st.

Lemma kept_bind {A B} (m : T E A) (f : A -> T E B) : kept m -> (forall a, kept (f a)) -> kept (bindT m f).
Proof.
  intros Hm Hf s. specialize (Hm s). unfold bindT. destruct (m s) as [s' [e|a]]; [done|].
  specialize (Hf a s'). cbn in *. congruence.
Qed.

Lemma kept_ret {A} (a : A) : kept (retT a).
Proof. done. Qed.
Lemma kept_throw {A} e : kept (throwT (A := A) e).
Proof. done. Qed.
Lemma kept_client {A} (m : M (world S) A) : kept (client m).
Proof. intros s. unfold client, via_host. by destruct (via_replay _ _). Qed.
Lemma kept_reading {A} (g : E -> A) : kept (reading g).
Proof. done. Qed.
Lemma kept_lift {A} (r : js_error + A) : kept (liftT r).
Proof. done. Qed.

Create HintDb kept.

#[local] Hint Resolve kept_bind kept_ret kept_throw kept_client kept_reading kept_lift : kept.
#[local] Hint Extern 1 (kept (if ?b then _ else _)) => destruct b : kept.

Lemma keptM_bind {A B} (m : M (History.history * X) A) (f : A -> M (History.history * X) B) :
  keptM m -> (forall a, keptM (f a)) -> keptM (bindM m f).
Proof.
  intros Hm Hf st. specialize (Hm st). unfold bindM. destruct (m st) as [st' [a|e]]; [|done].
  specialize (Hf a st'). cbn in *. congruence.
Qed.

Lemma keptM_executes {A} (m : T E A) : kept m -> keptM (on_executor (executes m)).
Proof.
  intros Hm [h [s e]]. specialize (Hm s). unfold on_executor, executes. by destruct (m s) as [s' [e'|a]].
Qed.

Lemma keptM_history f : keptM (History.on_history f).
Proof. by intros [h x]. Qed.
Lemma keptM_ret {A} (a : A) : keptM (retM a).
Proof. done. Qed.
Lemma keptM_get {A} (g : History.history * X -> A) : keptM (getM g).
Proof. done. Qed.

#[local] Hint Resolve keptM_bind keptM_executes keptM_history keptM_ret keptM_get : kept.

Abbreviation executor := (makeHistoryExecutor (D := D) sessionId).

Lemma executor_kept :
  keptM (on_executor (undoLocal executor)) /\ keptM (on_executor (redoLocal executor)) /\
  keptM (cross (undoMilestone executor)) /\ keptM (cross (redoMilestone executor)) /\
  (forall c, keptM (on_executor (undoCheckpoint executor c))) /\ (forall c, keptM (on_executor (redoCheckpoint executor c))).
Proof.
  repeat split; intros; cbn [makeHistoryExecutor cross undoLocal redoLocal undoMilestone redoMilestone undoCheckpoint redoCheckpoint];
    apply keptM_executes; unfold hasTimelineEntries, checkoutTimelineMilestone, checkoutTimelineAtHistoryDepth; eauto 12 with kept.
Qed.

Lemma undo_kept : keptM (History.undo executor).
Proof.
  destruct executor_kept as (Hu & _ & Hm & _ & Hc & _). unfold History.undo. apply keptM_bind; [apply keptM_get|intros log].
  destruct (last log) as [tx|]; [|apply keptM_ret]. apply keptM_bind; [apply keptM_get|intros crosses].
  apply keptM_bind; [destruct crosses; eauto with kept|intros _].
  apply keptM_bind; [destruct tx; eauto with kept|intros _]. eauto with kept.
Qed.

Lemma redo_kept : keptM (History.redo executor).
Proof.
  destruct executor_kept as (_ & Hr & _ & Hm & _ & Hc). unfold History.redo. apply keptM_bind; [apply keptM_get|intros log].
  destruct (last log) as [tx|]; [|apply keptM_ret].
  apply keptM_bind; [destruct tx; eauto with kept|intros _]. apply keptM_bind; [apply keptM_history|intros _].
  apply keptM_bind; [apply keptM_get|intros crosses]. apply keptM_bind; [destruct crosses; eauto with kept|intros _]. eauto with kept.
Qed.

Lemma controller_kept m : keptM m -> kept (on_controller (D := D) m).
Proof.
  intros Hm s. specialize (Hm (session_history s, (s, None))). unfold on_controller.
  destruct (m _) as [[h [s' thrown]] r]. cbn in Hm. destruct r; cbn; exact Hm.
Qed.

(** *** The timeline after an undo or a redo *)

Definition follows (t t' : CheckpointTimelineState) : Prop :=
  tl_entries t' = tl_entries t /\ tl_navigating t' = tl_navigating t /\ (placed t -> placed t').

Lemma follows_in_bounds t c f : 0 <= c -> follows t (with_current f (with_cursor (Z.min c (len (tl_entries t))) t)) /\
  follows t (with_cursor (Z.min c (len (tl_entries t))) t).
Proof.
  intros Hc. assert (0 <= len (tl_entries t)) by (unfold len; lia).
  split; (split; [done|split; [done|]]); intros [_ Ha]; (split; [cbn; lia|exact Ha]).
Qed.

Lemma wp_follow t n : wp sessionId (follow_server sessionId waitForSessionSync)
  (fun _ t' n' => follows t t' /\ tl_cursor t' = Z.min n' (len (tl_entries t))) (fun t' _ => follows t t') t n.
Proof.
  assert (Hid : follows t t) by done.
  apply wp_nonneg. intros Hn. apply wp_bind, wp_silent; [by apply (silent_wait sessionId waitForSessionSync sendViewportData scrollToStart refreshSessionContentInfo)|intros _|done].
  apply wp_bind, wp_count; [|done]. apply wp_bind, wp_timeline.
  destruct (follows_in_bounds t n (tl_currentFingerprint t) Hn) as [_ Hc].
  apply wp_bind, wp_reading. intros s _. apply wp_bind, wp_silent; [apply silent_stored|intros _|done].
  apply wp_bind, wp_silent; [apply silent_sha256|intros f|done]. apply wp_timeline.
  destruct (follows_in_bounds t n f Hn) as [Hf _]. by split.
Qed.

Lemma wp_kept {A} (m : T E A) (Q : A -> _ -> _ -> Prop) (R : _ -> _ -> Prop) t n :
  kept m -> (forall a n, Q a t n) -> (forall n, R t n) -> wp sessionId m Q R t n.
Proof.
  intros Hm HQ HR s <- _. specialize (Hm s). destruct (m s) as [s' [e|a]]; cbn in *; rewrite Hm; [apply HR|apply HQ].
Qed.

Lemma wp_perform m t n : keptM m ->
  wp sessionId (let+ moved := on_controller m in if moved : bool then follow_server sessionId waitForSessionSync else retT tt)
    (fun _ t' _ => follows t t') (fun t' _ => follows t t') t n.
Proof.
  intros Hm. apply wp_bind, wp_kept; [by apply controller_kept| |done]. intros [] n'.
  - eapply wp_weaken; [apply wp_follow| |done]. by intros a t' n1 [Hf _].
  - by apply wp_ret.
Qed.

(** Whether there is anything to undo, or to redo. *)
Definition can_move (forward : bool) (s : E) : bool :=
  if forward then canRedo (getEditState (session_history s)) else canUndo (getEditState (session_history s)).

Definition history_move (forward : bool) : T E bool :=
  on_controller (if forward then History.redo executor else History.undo executor).

Lemma bindM_returns {X A B} (m : M X A) (f : A -> M X B) st st' b :
  bindM m f st = (st', Ok b) -> exists st1 a, m st = (st1, Ok a) /\ f a st1 = (st', Ok b).
Proof. unfold bindM. destruct (m st) as [st1 [a|e]]; [|done]. eauto. Qed.

Lemma nonempty_depth {A} (l : list A) : (0 <? len l) = match last l with Some _ => true | None => false end.
Proof. destruct l as [|x l]; [done|]. rewrite last_cons. unfold len. by destruct (last l). Qed.

(** With nothing to move the history and its executor are left alone. *)
Lemma controller_idle forward s : can_move forward s = false -> history_move forward s = (s, inr false).
Proof.
  assert (Hs : (with_history (fun _ => session_history s) s).1 = s) by (by destruct s as [[] ? ? ? ?]).
  unfold can_move, history_move, on_controller, getEditState. destruct forward; cbn [canUndo canRedo];
    rewrite nonempty_depth; unfold History.undo, History.redo, bindM, getM; cbn [fst];
    (destruct (last _); [done|]); intros _; unfold retM;
    (destruct (with_history (fun _ => session_history s) s) as [s' u]); cbn in Hs; by subst.
Qed.

(** A move that returns has moved when there was something to move. *)
Lemma undo_moves st st' b : (0 <? len (transactionLog st.1)) = true -> History.undo executor st = (st', Ok b) -> b = true.
Proof.
  rewrite nonempty_depth. unfold History.undo. intros Hc (st1 & log & [= <- <-] & E)%bindM_returns.
  destruct (last _); [|done]. do 4 apply bindM_returns in E as (? & ? & _ & E). by injection E as _ <-.
Qed.

Lemma redo_moves st st' b : (0 <? len (undoneTransactionLog st.1)) = true -> History.redo executor st = (st', Ok b) -> b = true.
Proof.
  rewrite nonempty_depth. unfold History.redo. intros Hc (st1 & log & [= <- <-] & E)%bindM_returns.
  destruct (last _); [|done]. do 4 apply bindM_returns in E as (? & ? & _ & E). by injection E as _ <-.
Qed.

Lemma controller_moves forward s s' b : can_move forward s = true -> history_move forward s = (s', inr b) -> b = true.
Proof.
  unfold can_move, history_move, on_controller, getEditState. destruct forward; cbn [canUndo canRedo]; intros Hc.
  - destruct (History.redo executor _) as [[h [s1 thrown]] [b'|e]] eqn:Em;
      (destruct (with_history _ s1) as [s2 u]); intros [= _ <-]. by apply redo_moves in Em.
  - destruct (History.undo executor _) as [[h [s1 thrown]] [b'|e]] eqn:Em;
      (destruct (with_history _ s1) as [s2 u]); intros [= _ <-]. by apply undo_moves in Em.
Qed.

(** C11 An undo or a redo, however it ends, keeps the entries of the timeline
    and leaves its cursor among them.  In a session that may not be changed,
    or with nothing to undo or redo, it does nothing at all.  Otherwise, when
    it ends without an error, the cursor is at the checkpoint that the server
    is at, or at the last entry if the server has more checkpoints. *)
Theorem history_moves_follow_server (forward mutable : bool) s :
  let m := if forward then performRedoOnSession sessionId waitForSessionSync mutable
           else performUndoOnSession sessionId waitForSessionSync mutable in
  let '(s', r) := m s in
  follows (ed_timeline s) (ed_timeline s') /\
  (mutable && can_move forward s = false -> s' = s /\ r = inr tt) /\
  (mutable && can_move forward s = true -> succeeds r ->
     tl_cursor (ed_timeline s') = Z.min (checkpoints_of sessionId s') (len (tl_entries (ed_timeline s)))).
Proof.
  intros m.
  assert (Hw : wp sessionId m (fun _ t' _ => follows (ed_timeline s) t')
    (fun t' _ => follows (ed_timeline s) t') (ed_timeline s) (checkpoints_of sessionId s)).
  { unfold m, performUndoOnSession, performRedoOnSession. destruct mutable; cbn [negb].
    - destruct forward; [apply wp_perform, redo_kept|apply wp_perform, undo_kept].
    - destruct forward; by apply wp_ret. }
  assert (Hm : m s = (if mutable then bindT (history_move forward)
      (fun moved => if moved : bool then follow_server sessionId waitForSessionSync else retT tt) else retT tt) s)
    by (unfold m, history_move; by destruct forward, mutable).
  apply wp_at in Hw. destruct (m s) as [s' r]. split; [by destruct r|]. destruct mutable; cbn [andb].
  2:{ injection Hm as -> ->. by split. }
  split; intros Hc.
  - unfold bindT in Hm. rewrite controller_idle in Hm by done. by injection Hm as -> ->.
  - intros Hr. destruct r as [e|u]; [done|]. symmetry in Hm. apply bindT_returns in Hm as (s1 & b & E1 & E2).
    rewrite (controller_moves _ _ _ _ Hc E1) in E2.
    assert (Ht : ed_timeline s1 = ed_timeline s).
    { assert (Hk : kept (history_move forward)) by (unfold history_move; destruct forward;
        [apply controller_kept, redo_kept|apply controller_kept, undo_kept]).
      specialize (Hk s). by rewrite E1 in Hk. }
    pose proof (wp_follow (ed_timeline s1) (checkpoints_of sessionId s1)) as Hf. apply wp_at in Hf.
    rewrite E2 in Hf. destruct Hf as [_ Hf]. by rewrite Hf, Ht.
Qed.
End Following.

(** ** Edits are recorded when they are announced *)

Section Edits.
Context {S D : Type} `{EditBackend S} `{Transport S} `{TimelineStore D} (sessionId : jsstring).
Context (waitForSessionSync : T S unit).
Abbreviation E := (editing S D).

Inductive edit :=
  | InsertEdit (offset : Z) (dataHex : jsstring)
  | DeleteEdit (offset length : Z)
  | OverwriteEdit (offset : Z) (dataHex : jsstring)
  | ReplaceEdit (offset length : Z) (dataHex : jsstring) (groupId : option jsstring).

Definition run_edit (e : edit) : T E unit :=
  match e with
  | InsertEdit offset dataHex => insert_bytes sessionId waitForSessionSync offset dataHex
  | DeleteEdit offset length => delete_bytes sessionId waitForSessionSync offset length
  | OverwriteEdit offset dataHex => overwrite_bytes sessionId waitForSessionSync offset dataHex
  | ReplaceEdit offset length dataHex groupId =>
      let+ _ := applyReplace sessionId offset length dataHex groupId in retT tt
  end.

(** The change that an edit records has its kind and data. *)
Definition change_of (e : edit) (serial : Z) : EditorChangeRecord :=
  match e with
  | InsertEdit offset dataHex => mkChange serial RINSERT offset 0 dataHex None
  | DeleteEdit offset length => mkChange serial RDELETE offset length [] None
  | OverwriteEdit offset dataHex => mkChange serial ROVERWRITE offset (slen dataHex / 2) dataHex None
  | ReplaceEdit offset length dataHex groupId => mkChange serial RREPLACE offset length dataHex groupId
  end.

(** Nothing is recorded and nobody is told. *)
Definition unrecorded (s s' : E) : Prop :=
  session_history s' = session_history s /\ ho_documentChanges (ed_host s') = ho_documentChanges (ed_host s).

Definition plain {A} (m : T E A) : Prop := forall s, unrecorded s (m s).1.

Lemma plain_bind {A B} (m : T E A) (f : A -> T E B) : plain m -> (forall a, plain (f a)) -> plain (bindT m f).
Proof.
  intros Hm Hf s. specialize (Hm s) as [Hh Hd]. unfold bindT. destruct (m s) as [s' [e|a]]; [done|].
  specialize (Hf a s') as [Hh' Hd']. cbn in *. split; congruence.
Qed.

Lemma plain_replay {A} (m : T (replaying S) A) : plain (via_host (via_replay m)).
Proof. intros s. unfold via_host, via_replay, unrecorded, session_history. by destruct (m _). Qed.
Lemma plain_client {A} (m : M (world S) A) : plain (client m).
Proof. apply plain_replay. Qed.
Lemma plain_call {A} (m : T S A) : plain (HostTimeline.call m).
Proof. apply plain_replay. Qed.
Lemma plain_ret {A} (a : A) : plain (retT a).
Proof. done. Qed.
Lemma plain_throw {A} e : plain (throwT (A := A) e).
Proof. done. Qed.
Lemma plain_lift {A} (r : js_error + A) : plain (liftT r).
Proof. done. Qed.
Lemma plain_timeline f : plain (on_timeline f).
Proof. done. Qed.
Lemma plain_reading {A} (g : E -> A) : plain (reading g).
Proof. done. Qed.
Lemma plain_stored m : plain (stored m).
Proof. intros s. unfold stored. destruct (tl_storage _); [|done]. unfold via_store. by destruct (m _). Qed.
Lemma plain_attempted {A} (m : T E A) : plain m -> plain (attempted m).
Proof. intros Hm s. specialize (Hm s). unfold attempted. by destruct (m s). Qed.

Lemma plain_truncate c : plain (truncateCheckpointTimelineFuture sessionId c).
Proof.
  apply plain_bind; [apply plain_reading|intros t]. cbv zeta. case_match; [apply plain_ret|].
  apply plain_bind; [apply plain_client|intros r]. apply plain_bind; [apply plain_lift|intros n].
  case_match; [apply plain_throw|]. apply plain_bind; [|intros _; apply plain_timeline].
  apply plain_bind; [apply plain_attempted, plain_stored|intros [e|u]]; [apply plain_timeline|apply plain_ret].
Qed.

(** A change is recorded and told, or neither. *)
Definition recorded_as (c : EditorChangeRecord) (s s' : E) : Prop :=
  session_history s' = recordLocalChange c (session_history s) /\
  ho_documentChanges (ed_host s') = Datatypes.S (ho_documentChanges (ed_host s)).

Lemma unrecorded_trans s1 s2 s3 : unrecorded s1 s2 -> unrecorded s2 s3 -> unrecorded s1 s3.
Proof. intros [? ?] [? ?]. split; congruence. Qed.

Lemma accepted_recorded c s :
  let '(s', r) := edit_accepted sessionId c s in
  match r with inr _ => recorded_as c s s' | inl _ => unrecorded s s' end.
Proof.
  unfold edit_accepted. unfold bindT at 1. pose proof (plain_truncate None s) as Hp.
  destruct (truncateCheckpointTimelineFuture sessionId None s) as [s1 [e|u]]; [exact Hp|].
  destruct Hp as [Hh Hd]. cbn in Hh, Hd. unfold bindT, markCheckpointTimelineChanged, on_timeline, with_history, via_host,
    HostReplay.on_history, notifyDocumentChanged, recorded_as, session_history in *. cbn.
  by rewrite Hh, Hd.
Qed.

(** An edit after the server has answered. *)
Lemma edit_outcome {A} (m : T E Z) (change : Z -> EditorChangeRecord) (k : T E A) s : plain m -> plain k ->
  let '(s', r) := (let+ serial := m in let+ _ := edit_accepted sessionId (change serial) in k) s in
  (exists serial, recorded_as (change serial) s s') \/ (unrecorded s s' /\ exists e, r = inl e).
Proof.
  intros Hm Hk. unfold bindT at 1. specialize (Hm s). destruct (m s) as [s1 [e|serial]]; [right; split; [exact Hm|by exists e]|].
  cbn in Hm. unfold bindT. pose proof (accepted_recorded (change serial) s1) as Ha.
  destruct (edit_accepted sessionId (change serial) s1) as [s2 [e|u]].
  - right. split; [by eapply unrecorded_trans|by exists e].
  - specialize (Hk s2). destruct (k s2) as [s3 r]. cbn in Hk. left. exists serial.
    destruct Hm as [Hh Hd], Ha as [Hh' Hd'], Hk as [Hh'' Hd'']. split; congruence.
Qed.

Lemma replaced_record o n d g s s' c : applyReplaceChange sessionId o n d g s = (s', inr (Some c)) ->
  exists serial, history_record c = mkChange serial RREPLACE o n d g.
Proof.
  unfold applyReplaceChange, bindT. set (segment := if 0 <? n then _ else _).
  destruct (segment s) as [s1 [e|seg]]; [done|].
  destruct (via_edit _ s1) as [s2 [e|serial]]; [done|]. destruct (serial <=? 0); intros [= <- <-]. by exists serial.
Qed.

(** C12 However an edit ends, it is in the history, last, with its kind and
    data, exactly when VS Code has been told of one more change; and it is in
    the history when it ends without an error, other than a replacement whose
    call gave no serial, as when its bytes are those that are there. *)
Theorem edit_recorded_and_announced e s :
  let '(s', r) := run_edit e s in
  (exists serial, recorded_as (change_of e serial) s s') \/
  (unrecorded s s' /\
    ((exists error, r = inl error) \/
     exists o n d g calls, e = ReplaceEdit o n d g /\
       applyReplaceChange sessionId o n d g (ho_calls (ed_host s)) = (calls, inr None))).
Proof.
  assert (Hout : forall (m : T E Z) change, plain m ->
    let '(s', r) := (let+ serial := m in let+ _ := edit_accepted sessionId (change serial) in
                     HostTimeline.call waitForSessionSync) s in
    (exists serial, recorded_as (change serial) s s') \/ (unrecorded s s' /\ exists e, r = inl e)).
  { intros m change Hm. apply edit_outcome; [done|apply plain_call]. }
  destruct e as [o d|o n|o d|o n d g]; cbn [run_edit change_of].
  - specialize (Hout (client (EditSession.insert (NInt o) (hex_decode d) false))
      (fun serial => mkChange serial RINSERT o 0 d None) (plain_client _)).
    unfold insert_bytes, delete_bytes, overwrite_bytes. destruct (bindT _ _ s) as [s' r]. destruct Hout as [?|[? ?]]; [by left|right; split; [done|by left]].
  - specialize (Hout (client (EditSession.del (NInt o) (NInt n) false))
      (fun serial => mkChange serial RDELETE o n [] None) (plain_client _)).
    unfold insert_bytes, delete_bytes, overwrite_bytes. destruct (bindT _ _ s) as [s' r]. destruct Hout as [?|[? ?]]; [by left|right; split; [done|by left]].
  - specialize (Hout (client (EditSession.overwrite (NInt o) (hex_decode d) false))
      (fun serial => mkChange serial ROVERWRITE o (slen d / 2) d None) (plain_client _)).
    unfold insert_bytes, delete_bytes, overwrite_bytes. destruct (bindT _ _ s) as [s' r]. destruct Hout as [?|[? ?]]; [by left|right; split; [done|by left]].
  - clear Hout. unfold applyReplace. unfold bindT at 1 2.
    pose proof (plain_replay (applyReplaceChange sessionId o n d g) s) as Hp. unfold via_host, via_replay in *.
    destruct (applyReplaceChange sessionId o n d g (ho_calls (ed_host s))) as [calls [e|[c|]]] eqn:E; cbn in Hp |- *.
    + right. split; [exact Hp|]. left. by exists e.
    + destruct (replaced_record _ _ _ _ _ _ _ E) as [serial Hserial]. rewrite Hserial. unfold bindT at 1.
      match goal with |- context [edit_accepted sessionId ?c ?s1] => pose proof (accepted_recorded c s1) as Ha;
        destruct (edit_accepted sessionId c s1) as [s2 [e|u]] end; cbn.
      * right. split; [by eapply unrecorded_trans|]. left. by exists e.
      * left. exists serial. destruct Hp as [Hh Hd], Ha as [Hh' Hd']. split; congruence.
    + right. split; [exact Hp|]. right. by exists o, n, d, g, calls.
Qed.
End Edits.

(** ** The loop ends *)

Section Navigation.
Context {S D : Type} `{EditBackend S} `{Transport S} `{TimelineStore D} (sessionId : jsstring).
Context (waitForSessionSync : T S unit) (modelChangeCount : S -> Z).
Abbreviation E := (editing S D).

Definition count_of (s : E) : Z := position modelChangeCount s.

(** An undo that leaves the session with more changes, or a redo that leaves
    it with fewer. *)
Definition goes_astray (mutable : bool) (targetChangeCount : Z) (s : E) : Prop :=
  (targetChangeCount < count_of s /\
    count_of s < count_of (performUndoOnSession sessionId waitForSessionSync mutable s).1) \/
  (count_of s < targetChangeCount /\
    count_of (performRedoOnSession sessionId waitForSessionSync mutable s).1 < count_of s).

Abbreviation loop := (navigate_loop (D := D) sessionId waitForSessionSync modelChangeCount).

(** What one turn of the loop runs. *)
Definition navigation_turn (mutable : bool) (targetChangeCount : Z) (s : E) : T E unit :=
  if targetChangeCount <? count_of s then performUndoOnSession sessionId waitForSessionSync mutable
  else performRedoOnSession sessionId waitForSessionSync mutable.

(** So many turns lead from a session to another. *)
Inductive turns (mutable : bool) (targetChangeCount : Z) : nat -> E -> E -> Prop :=
  | no_turn s : turns mutable targetChangeCount O s s
  | one_turn k s s1 s2 : count_of s <> targetChangeCount -> navigation_turn mutable targetChangeCount s s = (s1, inr tt) ->
      turns mutable targetChangeCount k s1 s2 -> turns mutable targetChangeCount (Datatypes.S k) s s2.

(** One turn that goes on. *)
Lemma turn_taken fuel mutable target s s' r : count_of s <> target -> loop (Datatypes.S fuel) mutable target s = (s', inr r) ->
  exists s1, navigation_turn mutable target s s = (s1, inr tt) /\ loop fuel mutable target s1 = (s', inr r) /\
    (goes_astray mutable target s \/ Z.abs (target - count_of s1) < Z.abs (target - count_of s)).
Proof.
  intros Hne. cbn [navigate_loop]. unfold bindT at 1, reading at 1. fold (count_of s).
  destruct (Z.eqb_spec (count_of s) target) as [|_]; [done|]. unfold bindT at 1, reading at 1.
  destruct (_ || _); [done|]. unfold bindT at 1. unfold goes_astray, navigation_turn.
  destruct (Z.ltb_spec target (count_of s)) as [Hback|Hforth].
  - destruct (performUndoOnSession _ _ mutable s) as [s1 [e|[]]]; [done|]. cbn [fst].
    unfold bindT at 1, reading at 1. fold (count_of s1).
    destruct (Z.eqb_spec (count_of s1) (count_of s)); [done|]. cbn [andb orb negb].
    destruct (Z.ltb_spec (count_of s1) target); [done|]. cbn [orb]. intros E. exists s1. split; [done|]. split; [exact E|]. lia.
  - destruct (performRedoOnSession _ _ mutable s) as [s1 [e|[]]]; [done|]. cbn [fst].
    unfold bindT at 1, reading at 1. fold (count_of s1).
    destruct (Z.eqb_spec (count_of s1) (count_of s)); [done|]. cbn [andb orb negb].
    destruct (Z.ltb_spec target (count_of s1)); [done|]. cbn [orb]. intros E. exists s1. split; [done|]. split; [exact E|]. lia.
Qed.

Lemma loop_there fuel mutable target s : count_of s = target -> loop fuel mutable target s = (s, inr true).
Proof. intros <-. unfold count_of. destruct fuel; cbn; unfold bindT, reading; by rewrite Z.eqb_refl. Qed.

(** C28 The loop that moves to a number of changes ends at that number when
    it succeeds.  As many turns as there are changes between are enough for
    it to end, with that number or an error, unless one of its own turns led
    the other way: an undo that left the session with more changes or a redo
    that left it with fewer. *)
Theorem navigation_ends fuel mutable target s s' r :
  Z.abs (target - count_of s) <= Z.of_nat fuel ->
  loop fuel mutable target s = (s', inr r) ->
  (r = true -> count_of s' = target) /\
  (r = false -> exists k s0, (k < fuel)%nat /\ turns mutable target k s s0 /\ goes_astray mutable target s0).
Proof.
  intros Hd E. split.
  - intros ->. clear Hd. revert s E. induction fuel as [|fuel IH]; intros s E.
    all: destruct (Z.eq_dec (count_of s) target) as [Heq|Hne]; [rewrite loop_there in E by done; by injection E as <-|].
    + revert E. cbn. unfold bindT, reading. fold (count_of s). by rewrite (proj2 (Z.eqb_neq _ _) Hne).
    + destruct (turn_taken _ _ _ _ _ _ Hne E) as (s1 & _ & E1 & _). by apply (IH s1).
  - intros ->. revert s Hd E. induction fuel as [|fuel IH]; intros s Hd E.
    all: destruct (Z.eq_dec (count_of s) target) as [Heq|Hne]; [by rewrite loop_there in E|].
    + lia.
    + destruct (turn_taken _ _ _ _ _ _ Hne E) as (s1 & Et & E1 & [Ha|Hless]).
      { exists 0%nat, s. split; [lia|]. split; [constructor|done]. }
      destruct (IH s1) as (k & s0 & Hk & Hs & Ha); [lia|done|].
      exists (Datatypes.S k), s0. split; [lia|]. split; [by econstructor|done].
Qed.
End Navigation.
