(* ===== verification/HostSaves.v ===== *)
(** * Saving a session of the extension ([hexEditorProvider.ts])

    A save hands the server the fingerprint that the file had when the session
    last read or wrote it ([saveSessionWithKnownDiskVersion]); once the server
    has written the file, the history is marked as saved and the fingerprints
    are those of what was written ([recordSuccessfulSave]).  [HostQueues.Saves]
    has the order of the saves of a session; here is what one of them does,
    with a server whose files can be seen ([FileServer]). *)

From S2P Require Import Prelude SafeInt JsText JsValue EditDiff EditSession History SessionApi UnaryCalls SessionCalls ChangeLogCodec TimelineManifest ActionJournal AiReplay HostRecords HostReplay HostTimeline.

Open Scope call_scope.
Open Scope list_scope.
Open Scope Z_scope.

Definition IO_OVERWRITE : Z := 1.
Definition SAVE_SUCCESS : Z := 0.
Definition SAVE_MODIFIED : Z := -100.

Definition status_is (status : number) (expected : Z) : bool :=
  match status with NInt z => z =? expected | _ => false end.

Definition SAVE_CONFLICT_FINGERPRINT_ALGORITHMS : list jsstring :=
  [js "sha224"; js "sha256"; js "sha384"; js "sha512"; js "sha3-256"; js "sha3-512";
   js "blake2b-512"; js "blake2s-256"].

(** The setting, when it is one of the algorithms. *)
Definition resolveSaveConflictFingerprintAlgorithm (configured : jsstring) : jsstring :=
  let configured := toLowerCase configured in
  if bool_decide (configured ∈ SAVE_CONFLICT_FINGERPRINT_ALGORITHMS) then configured else js "sha256".

Section Saving.
Context {S D : Type} `{EditBackend S} `{Transport S} `{TimelineStore D} (sessionId : jsstring).
Abbreviation E := (editing S D).

#[local] Instance rpc : SessionRpc S := session_rpc sessionId.

(** ** One save *)

Definition describeSaveStatus (status : number) : jsstring :=
  if status_is status SAVE_MODIFIED then js "original file was modified outside OmegaEdit"
  else js "status " ++ match status with NInt z => signed_string z | _ => [] end.

Definition save_failed (path : jsstring) (status : number) : js_error :=
  new_error (js "OmegaEdit save failed for " ++ path ++ js ": " ++ describeSaveStatus status).

(** The call and the look at its status. *)
Definition save_or_throw (path : jsstring) (expected : option SessionContentFingerprint) : T E unit :=
  let+ response := call (saveSession sessionId path IO_OVERWRITE (NInt 0) (NInt 0) expected false) in
  if status_is (sd_saveStatus response) SAVE_SUCCESS then retT tt
  else throwT (save_failed path (sd_saveStatus response)).

Definition saveSessionOrThrow (path : jsstring) : T E unit := save_or_throw path None.

Definition cancellation : js_error := JsError "CancellationError" (js "Canceled") None None.

(** The fingerprint the file is known to have. *)
Definition known_fingerprint (s : E) : fingerprint :=
  default (tl_savedFingerprint (ed_timeline s)) (ed_savedDiskFingerprint s).

(** [Number(byteLength)], of a decimal string, when that is safe. *)
Definition expected_of (f : fingerprint) : option SessionContentFingerprint :=
  let expectedByteLength := decimal_value (tf_byteLength f) in
  if canonical_decimal (tf_byteLength f) && (expectedByteLength <=? MAX_SAFE_INTEGER) then
    Some (mkContentFingerprint (NInt expectedByteLength)
      (Some (mkContentDigest (default CHANGE_LOG_DEFAULT_DIGEST_PLUGIN_ID (tf_pluginId f)) (tf_algorithm f) (tf_value f))))
  else None.

Definition saveSessionWithKnownDiskVersion (filePath : jsstring) (cancelled : bool) : T E unit :=
  if cancelled then throwT cancellation
  else
    let+ known := reading known_fingerprint in
    match expected_of known with
    | None => throwT (new_error (js "Saved file fingerprint has an invalid byte length"))
    | Some expected => save_or_throw filePath (Some expected)
    end.

(** ** What a save leaves behind *)

Definition set_disk (f : option fingerprint) : T E unit := fun s =>
  (mkEditing (ed_host s) (ed_timeline s) (ed_store s) (ed_restoredFromBackup s) f, inr tt).

Definition fingerprint_with (algorithm : jsstring) : T E fingerprint :=
  let+ f := via_host (via_replay (getChangeLogFingerprint sessionId FP_COMPUTED algorithm
    CHANGE_LOG_DEFAULT_DIGEST_PLUGIN_ID)) in
  retT (of_log f).

Definition mark_saved : T E unit :=
  let+ _ := set_restored false in
  with_history markSaved.

(** The fingerprint of the file: that of the algorithm of the setting, if there
    is one. *)
Definition record_disk (configured : jsstring) (updateOriginalDiskFingerprint : bool) (f : fingerprint) : T E unit :=
  if updateOriginalDiskFingerprint then
    let algorithm := resolveSaveConflictFingerprintAlgorithm configured in
    if bool_decide (tf_algorithm f = algorithm) then set_disk (Some f)
    else
      let+ other := attempted (fingerprint_with algorithm) in
      set_disk (match other with inr f => Some f | inl _ => None end)
  else retT tt.

(** [configured] is the setting of the algorithm. *)
Definition record_fingerprints (configured : jsstring) (updateOriginalDiskFingerprint : bool) : T E unit :=
  let+ count := changeCount sessionId in
  let+ _ := on_timeline (fun timeline => with_saved count (tl_savedFingerprint timeline) timeline) in
  let+ fingerprint := sha256_fingerprint sessionId in
  let+ _ := on_timeline (fun timeline => with_current fingerprint (with_saved count fingerprint timeline)) in
  let+ _ := record_disk configured updateOriginalDiskFingerprint fingerprint in
  stored (store_setSavedFingerprint fingerprint).

(** The first part runs as soon as the save is answered, the second over
    several calls. *)
Definition recordSuccessfulSave (configured : jsstring) (updateOriginalDiskFingerprint : bool) : T E unit :=
  let+ _ := mark_saved in
  record_fingerprints configured updateOriginalDiskFingerprint.

(** ** The commands of the editor

    [cancelled] is the token at the turn of the save
    ([HostQueues.Saves.begin_save] looks at it, too). *)
Definition saveCustomDocument (configured filePath : jsstring) (cancelled : bool) : T E unit :=
  let+ _ := saveSessionWithKnownDiskVersion filePath cancelled in
  recordSuccessfulSave configured true.

Definition saveCustomDocumentAs (configured destination : jsstring) (local cancelled : bool) : T E unit :=
  if negb local then throwT (new_error (js "OmegaEdit Data Editor can only save to local files"))
  else if cancelled then throwT cancellation
  else
    let+ _ := saveSessionOrThrow destination in
    recordSuccessfulSave configured false.

(** [createDirectory] is that of the editor; a document without a session has
    no content to back up. *)
Definition backupCustomDocument (createDirectory : T S unit) (open : bool) (destination : jsstring) : T E unit :=
  if open then
    let+ _ := call createDirectory in
    saveSessionOrThrow destination
  else retT tt.
End Saving.

(** ** A server with files

    [file] has the files by their paths, [touched] says that the session's own
    file was changed by somebody else since the session read or wrote it, and
    [matches] that content has a fingerprint.  A save that is answered with
    success has written the file; one that is guarded by a fingerprint does not
    touch a file that was changed and does not have it. *)
Class FileServer (S : Type) `{EditBackend S} `{Transport S} (sessionId : jsstring) := {
  shown : S -> bytes;
  file : S -> jsstring -> option bytes;
  touched : S -> jsstring -> bool;
  matches : SessionContentFingerprint -> bytes -> bool;
  same_files (s s' : S) : Prop := shown s' = shown s /\ file s' = file s /\ touched s' = touched s;
  conflicting (expected : option SessionContentFingerprint) (path : jsstring) (s : S) : Prop :=
    exists f b, expected = Some f /\ file s path = Some b /\ touched s path = true /\ matches f b = false;
  files_client s : same_files s (get_client s).1;
  files_query {A} (rq : UnaryCalls.rpc A) s : is_query rq = true -> same_files s (call_unary rq s).1;
  files_print algorithm s s' r n d :
    call_unary (GetSessionFingerprint sessionId FP_COMPUTED (nonempty algorithm)
      (nonempty CHANGE_LOG_DEFAULT_DIGEST_PLUGIN_ID)) s = (s', CallReplied (Some r)) ->
    fr_fingerprint r = Some (mkContentFingerprint (NInt n) (Some d)) ->
    matches (mkContentFingerprint (NInt n) (Some (mkContentDigest CHANGE_LOG_DEFAULT_DIGEST_PLUGIN_ID
      (toLowerCase (cd_algorithm d)) (toLowerCase (cd_value d))))) (shown s) = true;
  files_save path expected s s' o :
    call_unary (SaveSession (save_request sessionId path IO_OVERWRITE 0 0 expected)) s = (s', o) ->
    shown s' = shown s /\
    (forall other, other <> path -> file s' other = file s other) /\
    (file s' path = file s path \/ file s' path = Some (shown s)) /\
    (forall r, o = CallReplied (Some r) -> status_is (sd_saveStatus r) SAVE_SUCCESS = true -> file s' path = Some (shown s)) /\
    (conflicting expected path s -> file s' path = file s path /\
      forall r, o = CallReplied (Some r) -> status_is (sd_saveStatus r) SAVE_SUCCESS = false)
}.

Section Tracking.
Context {S D : Type} `{EditBackend S} `{Transport S} `{TimelineStore D} (sessionId : jsstring)
  `{!FileServer S sessionId}.
Abbreviation E := (editing S D).

Definition server_at (s : E) : S := srv (ho_calls (ed_host s)).

(** What the editor remembers of a session is the same. *)
Definition same_record (s s' : E) : Prop :=
  session_history s' = session_history s /\ ed_timeline s' = ed_timeline s /\ ed_store s' = ed_store s /\
  ed_restoredFromBackup s' = ed_restoredFromBackup s /\ ed_savedDiskFingerprint s' = ed_savedDiskFingerprint s.

Definition only_asked (s s' : E) : Prop := same_record s s' /\ same_files (server_at s) (server_at s').

(** [m] ends as [Q] says, or in an error as [R] says. *)
Definition ends {A} (m : T E A) (Q : A -> E -> Prop) (R : E -> Prop) (s : E) : Prop :=
  match m s with
  | (s', inr a) => Q a s'
  | (s', inl _) => R s'
  end.

Lemma ends_bind {A B} (m : T E A) (f : A -> T E B) Q R s :
  ends m (fun a => ends (f a) Q R) R s -> ends (bindT m f) Q R s.
Proof. unfold ends, bindT. destruct (m s) as [s' [e|a]]; done. Qed.

Lemma ends_weaken {A} (m : T E A) (Q Q' : A -> E -> Prop) (R R' : E -> Prop) s :
  ends m Q R s -> (forall a s, Q a s -> Q' a s) -> (forall s, R s -> R' s) -> ends m Q' R' s.
Proof. unfold ends. intros Hm HQ HR. destruct (m s) as [s' [e|a]]; [by apply HR|by apply HQ]. Qed.

Lemma ends_attempted {A} (m : T E A) (Q : (js_error + A) -> E -> Prop) R s :
  ends m (fun a => Q (inr a)) (fun s => forall e, Q (inl e) s) s -> ends (attempted m) Q R s.
Proof. unfold ends, attempted. destruct (m s) as [s' [e|a]]; [by intros He|done]. Qed.

Lemma same_files_refl x : same_files (S := S) x x.
Proof. done. Qed.
Lemma same_files_trans (x y z : S) : same_files x y -> same_files y z -> same_files x z.
Proof. intros (A1 & A2 & A3) (B1 & B2 & B3). unfold same_files. split; [|split]; congruence. Qed.

#[local] Instance same_files_preorder : PreOrder (same_files (S := S)).
Proof. split; [exact same_files_refl|exact same_files_trans]. Qed.

Lemma only_asked_refl s : only_asked s s.
Proof. by repeat split. Qed.

Lemma ends_replay {A} (m : T (replaying S) A) (Q : A -> E -> Prop) R s :
  (forall c, same_files (srv c) (srv (m c).1)) ->
  (forall s', only_asked s s' -> (forall c' a, m (ho_calls (ed_host s)) = (c', inr a) ->
     srv c' = server_at s' -> Q a s') /\ R s') ->
  ends (via_host (via_replay m)) Q R s.
Proof.
  intros Hm HQ. specialize (Hm (ho_calls (ed_host s))). unfold ends, via_host, via_replay.
  destruct (m (ho_calls (ed_host s))) as [c' r] eqn:E. cbn in Hm.
  set (s' := mkEditing _ _ _ _ _). specialize (HQ s' (conj (conj eq_refl (conj eq_refl (conj eq_refl (conj eq_refl eq_refl)))) Hm)) as [HQ HR].
  destruct r as [e|a]; [exact HR|by apply (HQ c')].
Qed.

Lemma ends_call {A} (m : T S A) (Q : A -> E -> Prop) R s :
  (forall x, same_files x (m x).1) ->
  (forall s', only_asked s s' -> (forall a, Q a s') /\ R s') -> ends (call m) Q R s.
Proof.
  intros Hm HQ. apply ends_replay; [intros c; by apply (within_call same_files)|].
  intros s' Hs. split; [intros; by apply HQ|by apply HQ].
Qed.

Lemma query_files {A B} (rq : UnaryCalls.rpc A) (callback : outcome A -> js_error + B) x :
  is_query rq = true -> same_files x (unary rq callback x).1.
Proof. intros Hq. apply unary_rel; [apply _|intros ?; apply files_client|intros ?; by apply files_query]. Qed.

Lemma count_files kind fn x : same_files x (checked_count (getSingleCount sessionId kind fn) x).1.
Proof.
  unfold checked_count, getSingleCount. revert x. apply bind_rel; [apply _| |intros count x; reflexivity].
  apply bind_rel; [apply _|intros x; by apply query_files|]. by intros [|c l] x.
Qed.

Lemma ends_changeCount (Q : Z -> E -> Prop) R s :
  (forall s', only_asked s s' -> (forall a, Q a s') /\ R s') -> ends (changeCount sessionId) Q R s.
Proof. apply ends_call. intros x. apply count_files. Qed.

(** A fingerprint that content has, one a save can be guarded by. *)
Definition print_of (f : fingerprint) (b : bytes) : Prop :=
  exists expected, expected_of f = Some expected /\ matches expected b = true.

Lemma fingerprint_files content algorithm plugin x :
  same_files x (client_getSessionFingerprint sessionId content algorithm plugin x).1.
Proof.
  unfold client_getSessionFingerprint. revert x. apply bind_rel; [apply _|intros x; by apply query_files|].
  intros response. destruct (fr_fingerprint response) as [[n [d|]]|]; [|done..].
  by apply bind_rel; [apply _|..].
Qed.

Lemma read_fingerprint algorithm x x' n d :
  client_getSessionFingerprint sessionId FP_COMPUTED algorithm CHANGE_LOG_DEFAULT_DIGEST_PLUGIN_ID x = (x', inr (n, d)) ->
  matches (mkContentFingerprint (NInt n) (Some (mkContentDigest CHANGE_LOG_DEFAULT_DIGEST_PLUGIN_ID
    (toLowerCase (cd_algorithm d)) (toLowerCase (cd_value d))))) (shown x) = true /\ safeZ n = true.
Proof.
  unfold client_getSessionFingerprint, getSessionFingerprint, required, unary, bindT.
  pose proof (files_client x) as (Hs & _). destruct (get_client x) as [x1 [e|u]]; [done|]. cbn in Hs.
  destruct (call_unary _ x1) as [x2 o] eqn:E. destruct o as [e|[r|]]; cbn; [done| |done].
  destruct (fr_fingerprint r) as [[m [d'|]]|] eqn:Hf; [|done..].
  unfold outputT, checkedT, liftT. destruct (requireSafeIntegerOutput m) as [z|e] eqn:Hz; cbn; [|done].
  apply requireSafeIntegerOutput_inv in Hz as [-> Hz].
  intros [= _ <- <-]. rewrite <- Hs. split; [|done]. by eapply files_print.
Qed.

Lemma decimal_count n text : HostRecords.int64ToDecimal (JNumber (NInt n)) = Ok text -> text = decimal_string n /\ 0 <= n.
Proof.
  unfold HostRecords.int64ToDecimal, HostRecords.parseNonNegativeInt64. destruct (isSafeInteger _); [|done].
  destruct ((n <? 0) || (MAX_INT64 <? n)) eqn:Hr; cbn -[MAX_INT64]; rewrite Hr; [done|]. intros [= <-]. bool_prop. split; [done|lia].
Qed.

Lemma printed_expected n d b : safeZ n = true -> 0 <= n ->
  matches (mkContentFingerprint (NInt n) (Some (mkContentDigest CHANGE_LOG_DEFAULT_DIGEST_PLUGIN_ID
    (toLowerCase (cd_algorithm d)) (toLowerCase (cd_value d))))) b = true ->
  print_of (of_log (ChangeLogCodec.mkFingerprint (decimal_string n) (mkDigest CHANGE_LOG_DEFAULT_DIGEST_PLUGIN_ID
    (toLowerCase (cd_algorithm d)) (toLowerCase (cd_value d))))) b.
Proof.
  intros Hz Hn Hm. destruct (decimal_string_spec n Hn) as [Hv Hc]. eexists. split; [|exact Hm].
  unfold expected_of, of_log.
  cbn [tf_byteLength tf_pluginId tf_algorithm tf_value fp_byteLength fp_digest d_pluginId d_algorithm d_value default].
  rewrite Hc, Hv. unfold safeZ in Hz. bool_prop.
  by rewrite (proj2 (Z.leb_le n MAX_SAFE_INTEGER)) by lia.
Qed.

Lemma ends_print algorithm (Q : fingerprint -> E -> Prop) R s :
  (forall s', only_asked s s' -> (forall f, print_of f (shown (server_at s)) -> Q f s') /\ R s') ->
  ends (fingerprint_with sessionId algorithm) Q R s.
Proof.
  intros HQ. apply ends_bind, ends_replay.
  { intros c. unfold getChangeLogFingerprint. revert c.
    change (within (same_files (S := S)) (getChangeLogFingerprint sessionId FP_COMPUTED algorithm CHANGE_LOG_DEFAULT_DIGEST_PLUGIN_ID)).
    apply within_bind; [apply _|apply within_call; intros x; apply fingerprint_files|].
    intros response. apply within_checked. apply _. }
  intros s' Hs. specialize (HQ s' Hs) as [HQ HR]. split; [|exact HR].
  intros c f Hf _. apply HQ. revert Hf. unfold getChangeLogFingerprint, bindT, via_call, server_at.
  set (x := srv _). destruct (client_getSessionFingerprint _ _ _ _ _) as [x' [e|[n d]]] eqn:E; [done|].
  apply read_fingerprint in E as [Hm Hz]. unfold checkedT, liftT. cbn [fst snd].
  destruct (HostRecords.int64ToDecimal _) as [text|] eqn:Et; [|done]. apply decimal_count in Et as [-> Hn].
  intros [= _ <-]. by apply printed_expected.
Qed.

Lemma ends_count_print (Q : fingerprint -> E -> Prop) R s :
  (forall s', only_asked s s' -> (forall f, print_of f (shown (server_at s)) -> Q f s') /\ R s') ->
  ends (sha256_fingerprint sessionId) Q R s.
Proof. exact (ends_print (js "sha256") Q R s). Qed.

(** *** The save *)

(** Only the server has changed, and its content not. *)
Definition only_saved (s s' : E) : Prop :=
  same_record s s' /\ shown (server_at s') = shown (server_at s).

Definition file_at (s : E) : jsstring -> option bytes := file (server_at s).

Lemma conflicting_same expected path (x x' : S) :
  same_files x x' -> conflicting expected path x -> conflicting expected path x'.
Proof. intros (Hs & Hf & Ht) (f & b & ? & ? & ? & ?). exists f, b. by rewrite Hf, Ht. Qed.

Lemma save_call path expected (x x' : S) r :
  saveSession sessionId path IO_OVERWRITE (NInt 0) (NInt 0) expected false x = (x', r) ->
  shown x' = shown x /\
  (forall other, other <> path -> file x' other = file x other) /\
  (file x' path = file x path \/ file x' path = Some (shown x)) /\
  (forall a, r = inr a -> status_is (sd_saveStatus a) SAVE_SUCCESS = true -> file x' path = Some (shown x)) /\
  (conflicting expected path x -> file x' path = file x path /\
    forall a, r = inr a -> status_is (sd_saveStatus a) SAVE_SUCCESS = false).
Proof.
  unfold saveSession, unless_aborted, required, unary, inputT. unfold bindT at 1 2 3. unfold checkedT, liftT.
  change (requireSafeIntegerInput (NInt 0)) with (Ok 0). cbv beta iota.
  pose proof (files_client x) as Hc. destruct (get_client x) as [x1 [e|u]]; cbn [fst] in Hc.
  - destruct Hc as (Hs & Hf & _). intros [= <- <-]. rewrite Hs, Hf. repeat split; try done. by left.
  - destruct (call_unary _ x1) as [x2 o] eqn:E. intros [= <- <-].
    apply files_save in E as (Hs & Ho & Hw & Hok & Hno). pose proof Hc as (Hs1 & Hf1 & _). rewrite Hs1, Hf1 in *.
    assert (Hr : forall a, settle "saveSession" (requireResponse "saveSession") o = inr a -> o = CallReplied (Some a)).
    { intros a. by destruct o as [e|[a'|]]; cbn; [|intros [= ->]|]. }
    split; [done|]. split; [done|]. split; [done|]. split; [intros a Ha; by apply Hok, Hr|].
    intros Hx. destruct (Hno (conflicting_same _ _ _ _ Hc Hx)) as [Hn Hst]. split; [done|].
    intros a Ha. by apply Hst, Hr.
Qed.

Lemma ends_save path expected (Q : unit -> E -> Prop) R s :
  (forall s', only_saved s s' -> (forall other, other <> path -> file_at s' other = file_at s other) ->
    (conflicting expected path (server_at s) -> file_at s' path = file_at s path) ->
    ((conflicting expected path (server_at s) -> False) -> file_at s' path = Some (shown (server_at s)) -> Q tt s') /\
    ((file_at s' path = file_at s path \/ file_at s' path = Some (shown (server_at s))) -> R s')) ->
  ends (save_or_throw sessionId path expected) Q R s.
Proof.
  intros HQ. unfold save_or_throw. apply ends_bind. unfold ends at 1, call, via_host, via_replay, via_call.
  destruct (saveSession _ _ _ _ _ _ _ _) as [x r] eqn:E. apply save_call in E as (Hs & Ho & Hw & Hok & Hno).
  set (s' := mkEditing _ _ _ _ _).
  destruct (HQ s') as [HQs HR]; [by repeat split|done|intros Hx; by apply Hno|].
  destruct r as [e|a]; [by apply HR|]. unfold ends. destruct (status_is _ _) eqn:Est; cbn; [|by apply HR].
  apply HQs; [|by eapply Hok]. intros Hx. apply Hno in Hx as [_ Hx]. rewrite (Hx a eq_refl) in Est. done.
Qed.

(** *** What is recorded *)

Lemma same_record_trans s s1 s2 : same_record s s1 -> same_record s1 s2 -> same_record s s2.
Proof.
  intros (A1 & A2 & A3 & A4 & A5) (B1 & B2 & B3 & B4 & B5). unfold same_record.
  rewrite B1, B2, B3, B4, B5. by repeat split.
Qed.

Lemma only_asked_trans s s1 s2 : only_asked s s1 -> only_asked s1 s2 -> only_asked s s2.
Proof. intros [Ha Hf] [Hb Hg]. split; [by eapply same_record_trans|by eapply same_files_trans]. Qed.

(** From [s], the fingerprints of the content at it are recorded. *)
Record recorded (updated : bool) (s s' : E) : Prop := {
  rc_history : session_history s' = session_history s;
  rc_restored : ed_restoredFromBackup s' = ed_restoredFromBackup s;
  rc_files : same_files (server_at s) (server_at s');
  rc_timeline : exists n f, ed_timeline s' = with_current f (with_saved n f (ed_timeline s)) /\
    print_of f (shown (server_at s));
  rc_disk : if updated then forall g, ed_savedDiskFingerprint s' = Some g -> print_of g (shown (server_at s))
            else ed_savedDiskFingerprint s' = ed_savedDiskFingerprint s
}.

Definition still (s s' : E) : Prop :=
  session_history s' = session_history s /\ ed_restoredFromBackup s' = ed_restoredFromBackup s /\
  same_files (server_at s) (server_at s').

Lemma still_stored (m : M D unit) s : still s (stored m s).1 /\ ed_timeline (stored m s).1 = ed_timeline s /\
  ed_savedDiskFingerprint (stored m s).1 = ed_savedDiskFingerprint s.
Proof.
  unfold stored, via_store. destruct (tl_storage _); [|by repeat split]. destruct (m _) as [d [a|e]]; by repeat split.
Qed.

Lemma ends_stored m (Q : unit -> E -> Prop) R s :
  (forall s', still s s' -> ed_timeline s' = ed_timeline s -> ed_savedDiskFingerprint s' = ed_savedDiskFingerprint s ->
    Q tt s' /\ R s') -> ends (stored m) Q R s.
Proof.
  intros HQ. pose proof (still_stored m s) as (Hs & Ht & Hd). specialize (HQ _ Hs Ht Hd) as [HQ HR].
  unfold ends. by destruct (stored m s) as [s' [e|[]]].
Qed.

Lemma still_asked s s' : only_asked s s' -> still s s'.
Proof. intros [(Hh & _ & _ & Hr & _) Hf]. by repeat split; try apply Hf. Qed.

Lemma still_trans s s1 s2 : still s s1 -> still s1 s2 -> still s s2.
Proof.
  intros (A1 & A2 & A3) (B1 & B2 & B3). unfold still. rewrite B1, B2. split; [done|]. split; [done|].
  by eapply same_files_trans.
Qed.

Lemma ends_disk configured updated f (Q : unit -> E -> Prop) R s :
  print_of f (shown (server_at s)) ->
  (forall s', still s s' -> ed_timeline s' = ed_timeline s ->
    (if updated : bool then forall g, ed_savedDiskFingerprint s' = Some g -> print_of g (shown (server_at s))
     else ed_savedDiskFingerprint s' = ed_savedDiskFingerprint s) -> Q tt s') ->
  ends (record_disk sessionId configured updated f) Q R s.
Proof.
  intros Hf HQ. unfold record_disk. destruct updated; [|by apply HQ].
  destruct (bool_decide _); [apply HQ; [by repeat split|done|by intros g [= <-]]|].
  apply ends_bind, ends_attempted, ends_print. intros s' Ha. pose proof (still_asked _ _ Ha) as Hs.
  destruct Ha as [(_ & Ht & _) _]. split.
  - intros g Hg. apply HQ; [done|exact Ht|by intros g' [= <-]].
  - intros e. by apply HQ.
Qed.

Lemma record_ends configured updated s :
  ends (record_fingerprints sessionId configured updated) (fun _ s' => recorded updated s s') (still s) s.
Proof.
  unfold record_fingerprints. apply ends_bind, ends_changeCount. intros s1 A1. split; [|by apply still_asked].
  intros n. apply ends_bind. unfold ends at 1. cbn [on_timeline].
  set (s2 := mkEditing _ _ _ _ _). assert (A2 : still s s2) by exact (still_asked _ _ A1).
  apply ends_bind, ends_count_print. intros s3 A3.
  assert (A23 : still s s3) by (eapply still_trans; [exact A2|by apply still_asked]).
  split; [|exact A23]. intros f Hf. apply ends_bind. unfold ends at 1. cbn [on_timeline]. set (s4 := mkEditing _ _ _ _ _).
  assert (A4 : still s s4) by exact A23.
  assert (Hsh : shown (server_at s4) = shown (server_at s)) by apply A4.
  assert (Hf4 : print_of f (shown (server_at s))) by by rewrite <- (proj1 (proj2 (proj2 A2))).
  apply ends_bind, ends_disk; [by rewrite Hsh|]. intros s5 A5 Ht5 Hd5. apply ends_stored. intros s6 A6 Ht6 Hd6.
  assert (As : still s s6) by (eapply still_trans; [exact A4|by eapply still_trans]). split; [|exact As].
  destruct As as (Hh & Hr & Hfiles). split; try done.
  - exists n, f. split; [|done]. rewrite Ht6, Ht5. destruct A3 as [(_ & Ht3 & _) _], A1 as [(_ & Ht1 & _) _].
    subst s4 s2. cbn in *. by rewrite Ht3, <- Ht1.
  - rewrite Hd6, <- Hsh. destruct updated; [exact Hd5|]. rewrite Hd5. destruct A3 as [(_ & _ & _ & _ & E3) _], A1 as [(_ & _ & _ & _ & E1) _].
    subst s4 s2. cbn in *. by rewrite E3, <- E1.
Qed.

(** ** Saves *)

(** Nothing is unsaved: the history is where it was saved, and the content
    has the saved fingerprint. *)
Definition clean (s : E) : Prop :=
  isDirty (getEditState (session_history s)) = false /\ ed_restoredFromBackup s = false /\
  timelineFingerprintsEqual (tl_currentFingerprint (ed_timeline s)) (tl_savedFingerprint (ed_timeline s)) = true /\
  print_of (tl_savedFingerprint (ed_timeline s)) (shown (server_at s)).

(** A save is published from [s] to [s'] when it ended well. *)
Record published (path : jsstring) (updated : bool) (s s' : E) : Prop := {
  pb_file : file_at s' path = Some (shown (server_at s));
  pb_others : forall other, other <> path -> file_at s' other = file_at s other;
  pb_content : shown (server_at s') = shown (server_at s);
  pb_clean : clean s';
  pb_disk : if updated then forall g, ed_savedDiskFingerprint s' = Some g -> print_of g (shown (server_at s))
            else ed_savedDiskFingerprint s' = ed_savedDiskFingerprint s
}.

(** It failed: either nothing is recorded, or the file is written. *)
Definition unpublished (path : jsstring) (s s' : E) : Prop :=
  shown (server_at s') = shown (server_at s) /\
  (forall other, other <> path -> file_at s' other = file_at s other) /\
  (same_record s s' \/ file_at s' path = Some (shown (server_at s))).

Lemma fingerprints_equal_refl f : timelineFingerprintsEqual f f = true.
Proof. unfold timelineFingerprintsEqual. by rewrite !bool_decide_eq_true_2. Qed.

Lemma marked_clean h : isDirty (getEditState (markSaved h)) = false.
Proof. unfold getEditState, markSaved. cbn. by rewrite Z.eqb_refl. Qed.

Lemma save_ends configured path expected updated s :
  ends (let+ _ := save_or_throw sessionId path expected in recordSuccessfulSave sessionId configured updated)
    (fun _ s' => published path updated s s' /\ (conflicting expected path (server_at s) -> False))
    (fun s' => unpublished path s s' /\
       (conflicting expected path (server_at s) -> same_record s s' /\ file_at s' path = file_at s path)) s.
Proof.
  apply ends_bind, ends_save. intros s1 (Hr & Hs) Ho Hno. split.
  - intros Hx Hf. unfold recordSuccessfulSave. apply ends_bind. unfold ends at 1. cbn [mark_saved].
    set (s2 := (mark_saved s1).1). change (mark_saved s1) with (s2, inr tt : js_error + unit).
    eapply ends_weaken; [apply record_ends| |].
    + intros u s' Hrec. cbn beta in Hrec. split; [|exact Hx]. destruct Hrec as [Hh Hre (Hsh & Hfi & _) (n & f & Ht & Hp) Hd].
      change (server_at s2) with (server_at s1) in *. rewrite Hs in Hp, Hsh.
      split; try done.
      * unfold file_at. rewrite Hfi. exact Hf.
      * intros other Hne. unfold file_at. rewrite Hfi. by apply Ho.
      * unfold clean. rewrite Hh, Hre, Ht, Hsh. cbn. rewrite fingerprints_equal_refl. split; [|done]. apply marked_clean.
      * destruct updated; [by rewrite Hs in Hd|]. rewrite Hd. apply Hr.
    + intros s' (_ & _ & Hsh & Hfi & _). change (server_at s2) with (server_at s1) in *.
      split; [|intros Hc; by destruct (Hx Hc)]. split; [by rewrite Hsh|]. split.
      * intros other Hne. unfold file_at. rewrite Hfi. by apply Ho.
      * right. unfold file_at. rewrite Hfi. exact Hf.
  - intros Hw. split; [split; [exact Hs|split; [exact Ho|by left]]|]. intros Hc. split; [exact Hr|by apply Hno].
Qed.

(** Somebody else has changed the file, and it is not what the session knows. *)
Definition changed_outside (path : jsstring) (s : E) : Prop :=
  exists f, expected_of (known_fingerprint s) = Some f /\ conflicting (Some f) path (server_at s).

(** C13 While nothing but the requests of the save itself reaches the session
    and its files: a save that succeeds has written the content of the
    session, leaves it clean, and the fingerprint that guards the next save is
    one the file has; a save that fails has recorded nothing or written the
    file; and a file that somebody else had changed when the save began, so
    that it no longer has the guarding fingerprint, is not written over.  An
    edit between the answer of the save and the reading of the fingerprint
    breaks the guard ([overtaken_save_refused] of [HostServer]); and the
    server, which does not lock the file between its guard and the writing,
    is taken to do both in one step. *)
Theorem save_tracks_file configured path cancelled s :
  let '(s', r) := saveCustomDocument sessionId configured path cancelled s in
  match r with
  | inr _ => published path true s s' /\ print_of (known_fingerprint s') (shown (server_at s)) /\
             (changed_outside path s -> False)
  | inl _ => unpublished path s s' /\
             (changed_outside path s -> same_record s s' /\ file_at s' path = file_at s path)
  end.
Proof.
  change (ends (saveCustomDocument sessionId configured path cancelled)
    (fun _ s' => published path true s s' /\ print_of (known_fingerprint s') (shown (server_at s)) /\
             (changed_outside path s -> False))
    (fun s' => unpublished path s s' /\
             (changed_outside path s -> same_record s s' /\ file_at s' path = file_at s path)) s).
  assert (Hnone : unpublished path s s /\ (changed_outside path s -> same_record s s /\ file_at s path = file_at s path)).
  { split; [|intros _; by repeat split]. split; [done|]. split; [done|]. left. by repeat split. }
  unfold saveCustomDocument, saveSessionWithKnownDiskVersion. destruct cancelled; [exact Hnone|].
  unfold ends, bindT at 1 2, reading. destruct (expected_of (known_fingerprint s)) as [f|] eqn:Ef; [|exact Hnone].
  pose proof (save_ends configured path (Some f) true s) as H'. unfold ends, bindT at 1 in H'.
  assert (Hc : changed_outside path s -> conflicting (Some f) path (server_at s)).
  { intros (g & Eg & Hg). rewrite Ef in Eg. injection Eg as <-. exact Hg. }
  destruct (save_or_throw _ _ _ _) as [s1 [e|u]].
  - destruct H' as [Hu Hx]. split; [exact Hu|]. intros Ho. by apply Hx, Hc.
  - destruct (recordSuccessfulSave _ _ _ s1) as [s' [e|u']].
    + destruct H' as [Hu Hx]. split; [exact Hu|]. intros Ho. by apply Hx, Hc.
    + destruct H' as [Hp Hx]. split; [exact Hp|]. split; [|by intros Ho; apply Hx, Hc].
      unfold known_fingerprint. destruct (ed_savedDiskFingerprint s') as [g|] eqn:Eg; [by apply (pb_disk _ _ _ _ Hp)|].
      cbn. destruct (pb_clean _ _ _ _ Hp) as (_ & _ & _ & Hpr). by rewrite (pb_content _ _ _ _ Hp) in Hpr.
Qed.
End Tracking.
