(* ===== verification/HostServer.v ===== *)
(** * A server and a store for the timeline of [HostTimeline]

    [DiskStore] makes the storage of [checkpointTimelineStorage.ts], as
    [TimelineStorage] has it, the store of a session of the extension.
    [CheckpointServer] is a server that keeps every content it had, undoes and
    redoes, and moves between checkpoints; it has the laws of
    [NativeCheckpoints].  The witness of [timeline_stays_aligned] and the
    examples of what goes wrong run on both. *)

From S2P Require Import Prelude SafeInt JsText JsValue EditDiff EditSession History Search SessionApi UnaryCalls SessionCalls ChangeLogCodec TimelineManifest TimelineStorage ChangeLogExportFile AiReplay HostRecords HostReplay HostTimeline HostHistory HostSaves.

Open Scope call_scope.

(** ** The storage of a session *)

Module DiskStore.
Section Store.
Context `{Environment} (limits : CheckpointHistoryLimits) (instanceId : jsstring).

(** The writer of an interval, for the archive as it is and the optimised
    one: [writeCandidate(optimize)]. *)
Variable write_candidate : capture_input -> bool -> Z -> archive_writer.

Definition options_of (input : capture_input) : capture_options :=
  mkCapture (ci_checkpoint input) (ci_expectedGeneration input) (I64Number (NInt (ci_sourceChangeCount input)))
    (as_raw (ci_before input)) (as_raw (ci_after input)) (ci_boundaryKind input)
    (Some (ci_transformPluginIds input)) (Some (ci_history input))
    (write_candidate input false) (Some (write_candidate input true)).

Definition disk_store : TimelineStore TimelineStorage.state := {|
  store_nextGeneration d := mf_nextGeneration (st_value d);
  store_captureInterval input := captureInterval limits instanceId (options_of input);
  store_recordUnavailable input code message := recordUnavailable limits (options_of input) code message;
  store_truncateFuture cursor := bindM (truncateFuture limits (NInt cursor)) (fun _ => retM tt);
  store_setCursor cursor := setCursor (NInt cursor);
  store_setSavedFingerprint f := setSavedFingerprint (as_raw f)
|}.
End Store.
End DiskStore.

(** ** A server with checkpoints *)

Module CheckpointServer.

(** The contents before the present one, the oldest first, and those that
    were undone, the next first; the numbers of changes at which the
    checkpoints were made, those in the future apart. *)
Record t := mk {
  past : list bytes;
  now : bytes;
  undone : list bytes;
  models : list nat;
  future : list nat
}.

Definition contents (s : t) : list bytes := past s ++ now s :: undone s.
Definition changes (s : t) : nat := length (past s).

(** The session at another of its contents. *)
Definition at_change (n : nat) (s : t) : t :=
  mk (take n (contents s)) (default [] (contents s !! n)) (drop (S n) (contents s)) (models s) (future s).

Definition with_models (m f : list nat) (s : t) : t := mk (past s) (now s) (undone s) m f.

Definition submit (rq : SubmitChangeRequest) (s : t) : t * rpc_outcome Z :=
  if BufferServer.in_range_b rq (now s)
  then (mk (past s ++ [now s]) (apply_request rq (now s)) [] (models s) (future s),
        RpcReply (Z.of_nat (S (changes s))))
  else (s, RpcReply 0).

(** Undoing a change before which there is no checkpoint moves those after
    it to the future. *)
Definition undo (s : t) : t * rpc_outcome Z :=
  match changes s with
  | O => (s, RpcReply 0)
  | S n =>
      let '(kept, moved) := (List.filter (fun m => (m <=? n)%nat) (models s), List.filter (fun m => (n <? m)%nat) (models s)) in
      (with_models kept (moved ++ future s) (at_change n s), RpcReply (- Z.of_nat (S n)))
  end.

(** Checkpoints that were made where the session is come back first. *)
Fixpoint resumed (n : nat) (f : list nat) : nat :=
  match f with m :: f => if (m <=? n)%nat then S (resumed n f) else O | [] => O end.

Definition redo (s : t) : t * rpc_outcome Z :=
  match undone s with
  | [] => (s, RpcReply 0)
  | _ =>
      let k := resumed (S (changes s)) (future s) in
      (with_models (models s ++ take k (future s)) (drop k (future s)) (at_change (S (changes s)) s),
       RpcReply (Z.of_nat (S (changes s))))
  end.

#[global] Instance backend : EditBackend t := {
  content := now;
  rpc_submitChange := submit;
  rpc_undo := undo;
  rpc_redo := redo;
  rpc_clear s := (with_models (models s) (future s) (mk [] (default [] (contents s !! 0%nat)) [] [] []), RpcReply []);
  rpc_bracket b s := (s, Ok tt)
}.

Definition count (s : t) : number := NInt (len (models s)).

Definition counted (k : CountKind) (s : t) : number :=
  match k with
  | CHANGES | CHANGE_TRANSACTIONS => NInt (Z.of_nat (changes s))
  | UNDO_TRANSACTIONS => NInt (len (undone s))
  | CHECKPOINTS => count s
  | _ => NInt 0
  end.

Definition checkout (n : Z) (s : t) : t * outcome CheckoutCheckpointResponse :=
  let all := models s ++ future s in
  if n =? len (models s) then
    (s, CallReplied (Some (mkCheckout (NInt n) (NInt (len (future s))) (NInt (Z.of_nat (changes s))))))
  else if (0 <=? n) && (n <=? len all) then
    let k := Z.to_nat n in
    let s' := with_models (take k all) (drop k all) (at_change (default O (last (take k all))) s) in
    (s', CallReplied (Some (mkCheckout (NInt n) (NInt (len (future s'))) (NInt (Z.of_nat (changes s'))))))
  else (s, CallFailed BufferWire.unavailable).

Definition answer {R} (rq : UnaryCalls.rpc R) (s : t) : t * outcome R :=
  match rq in UnaryCalls.rpc R return t * outcome R with
  | GetSessionFingerprint id content algorithm plugin => (s, spelled_response (now s) id content algorithm plugin)
  | GetCount _ kinds => (s, CallReplied (Some (map (fun k => mkSingleCount k (counted k s)) kinds)))
  | CreateCheckpoint _ =>
      (with_models (models s ++ [changes s]) [] s, CallReplied (Some (NInt (len (models s) + 1))))
  | DestroyLastCheckpoint _ =>
      match last (models s) with
      | None => (s, CallFailed BufferWire.unavailable)
      | Some n =>
          (with_models (take (length (models s) - 1) (models s)) [] (at_change n s),
           CallReplied (Some (NInt (len (models s) - 1))))
      end
  | RestoreLastCheckpoint _ =>
      match last (models s) with
      | None => (s, CallFailed BufferWire.unavailable)
      | Some n => (with_models (models s) [] (at_change n s),
          CallReplied (Some (mkRestoreLast (count s) (NInt (Z.of_nat n)) (NInt (Z.of_nat (changes s - n))))))
      end
  | CheckoutCheckpoint _ n => checkout n s
  | DiscardCheckpointFuture _ =>
      (with_models (models s) [] s, CallReplied (Some (mkDiscard (NInt (len (future s))) (count s))))
  | _ => (s, CallFailed BufferWire.unavailable)
  end.

#[global] Instance transport : Transport t := {
  get_client s := (s, inr tt);
  call_unary R rq s := answer rq s
}.

Lemma len_take_last (l : list nat) n : last l = Some n -> len (take (length l - 1) l) = len l - 1.
Proof. intros Hl. destruct l; [done|]. unfold len. rewrite length_take. cbn. lia. Qed.

#[global] Instance native_checkpoints sessionId : NativeCheckpoints (S := t) sessionId.
Proof.
  refine {| native s := len (models s) |}.
  - intros s. unfold len. lia.
  - done.
  - intros A rq s Hq. by destruct rq.
  - done.
  - by intros s s' counts [= <- <-].
  - intros s s' o [= <- <-]. cbn. unfold len. rewrite length_app. cbn. split; [lia|]. f_equal. lia.
  - intros s s' o. cbn. destruct (last (models s)) as [k|] eqn:El; intros [= <- <-]; [|by left]. cbn. by apply (len_take_last _ k).
  - intros s s' o. cbn. destruct (last (models s)); by intros [= <- <-].
  - intros n s s' o. cbn. unfold checkout. destruct (Z.eqb_spec n (len (models s))); [by intros [= <- <-]|].
    destruct (_ && _) eqn:E; intros [= <- <-]; [|by left].
    apply andb_true_iff in E as [E1 E2]. apply Z.leb_le in E1, E2. cbn. unfold len in *. rewrite length_take. lia.
  - by intros s s' o [= <- <-].
Defined.
End CheckpointServer.

(** ** A server with files *)

Module DiskServer.

(** The session's own file is at [own]; [foreign] when somebody else changed
    it since the session read or wrote it. *)
Record t := mk {
  inner : CheckpointServer.t;
  own : jsstring;
  files : jsstring -> option bytes;
  foreign : bool
}.

Definition on_inner {A} (s : t) (r : CheckpointServer.t * A) : t * A := (mk r.1 (own s) (files s) (foreign s), r.2).

#[global] Instance backend : EditBackend t := {
  content s := content (inner s);
  rpc_submitChange rq s := on_inner s (rpc_submitChange rq (inner s));
  rpc_undo s := on_inner s (rpc_undo (inner s));
  rpc_redo s := on_inner s (rpc_redo (inner s));
  rpc_clear s := on_inner s (rpc_clear (inner s));
  rpc_bracket b s := on_inner s (rpc_bracket b (inner s))
}.

Definition has_print (f : SessionContentFingerprint) (b : bytes) : bool :=
  bool_decide (cf_byteLength f = NInt (len b)) &&
  match cf_digest f with
  | Some d =>
    bool_decide (cd_value d = toLowerCase (hex_encode b)) || bool_decide (cd_value d = toLowerCase (hex_encode (0 :: b)))
  | None => false
  end.

(** A file that was changed is written over only when it has the fingerprint
    that guards the save. *)
Definition refused (rq : SaveSessionRequest) (s : t) : bool :=
  foreign s && bool_decide (sv_filePath rq = own s) &&
  match sv_expectedOriginalFingerprint rq, files s (own s) with
  | Some f, Some b => negb (has_print f b)
  | _, _ => true
  end.

Definition written (path : jsstring) (s : t) : t :=
  mk (inner s) (own s) (fun p => if bool_decide (p = path) then Some (content (inner s)) else files s p)
    (foreign s && negb (bool_decide (path = own s))).

Definition save (rq : SaveSessionRequest) (s : t) : t * outcome SaveSessionResponse :=
  let answer status := CallReplied (Some (UnaryCalls.mkSaved (sv_sessionId rq) (sv_filePath rq) (NInt status))) in
  if refused rq s then (s, answer SAVE_MODIFIED) else (written (sv_filePath rq) s, answer SAVE_SUCCESS).

Definition answer {R} (rq : UnaryCalls.rpc R) (s : t) : t * outcome R :=
  match rq in UnaryCalls.rpc R return t * outcome R with
  | SaveSession rq => save rq s
  | rq => on_inner s (CheckpointServer.answer rq (inner s))
  end.

#[global] Instance transport : Transport t := {
  get_client s := (s, inr tt);
  call_unary R rq s := answer rq s
}.

#[global] Instance file_server sessionId : FileServer t sessionId.
Proof.
  refine {| shown s := content (inner s); file := files;
    touched s path := foreign s && bool_decide (path = own s); matches := has_print |}.
  - by repeat split.
  - intros A rq s Hq. by destruct rq.
  - intros algorithm s s' r n d. cbn. intros [= <- <-] [= <- <-]. unfold has_print, spelled, spelled_value. cbn [cf_byteLength cf_digest cd_value].
    rewrite bool_decide_eq_true_2 by done. cbn [andb].
    destruct (bool_decide (_ = js "md5")); rewrite orb_true_iff, !bool_decide_eq_true; [by right|by left].
  - intros path expected s s' o. cbn. unfold save. cbn. destruct (refused _ s) eqn:Er; intros [= <- <-].
    + split; [done|]. split; [done|]. split; [by left|]. split; [by intros r [= <-]|].
      intros _. split; [done|]. by intros r [= <-].
    + cbn. split; [done|]. rewrite bool_decide_eq_true_2 by done.
      split; [intros other Hne; by rewrite bool_decide_eq_false_2|]. split; [by right|]. split; [done|].
      intros (f & b & -> & Hb & Ht & Hm). unfold refused in Er. cbn in Er. rewrite Ht in Er. cbn in Er.
      apply andb_true_iff in Ht as [_ Hp]. apply bool_decide_eq_true_1 in Hp as ->. rewrite Hb, Hm in Er. done.
Defined.

(** Somebody else writes the session's file. *)
Definition overwritten (b : bytes) (s : t) : t :=
  mk (inner s) (own s) (fun p => if bool_decide (p = own s) then Some b else files s p) true.
End DiskServer.

(** ** A session on them *)

Module Example.

(** An archive spells the fingerprints it leads from and to and ends in the
    number of its changes. *)
Definition separator : Z := -1.

Fixpoint up_to_separator (l : list Z) : list Z * list Z :=
  match l with
  | [] => ([], [])
  | c :: l => if c =? separator then ([], l) else let '(a, b) := up_to_separator l in (c :: a, b)
  end.

Definition content_print (value : jsstring) : fingerprint :=
  TimelineManifest.mkFingerprint (decimal_string (slen value / 2)) (Some CHANGE_LOG_DEFAULT_DIGEST_PLUGIN_ID)
    (js "sha256") value.

Definition open_archive (content : list Z) : result log_summary :=
  let '(before, rest) := up_to_separator content in
  let '(after, count) := up_to_separator rest in
  Ok (mkLogSummary true (js "0") (content_print before) (content_print after) count count [] (slen content)
        (repeat 48 64)).

Definition archive (input : capture_input) (optimize : bool) (maxBytes : Z) : archive_writer :=
  mkWriter [] (tf_value (ci_before input) ++ separator :: tf_value (ci_after input) ++
    separator :: decimal_string (ci_sourceChangeCount input)) (Ok tt).

#[export] Instance environment : Environment := example_environment (fun _ => None) open_archive.
#[export] Instance store : TimelineStore TimelineStorage.state :=
  DiskStore.disk_store CHECKPOINT_HISTORY_DEFAULTS (js "i") archive.

Definition opened (content : bytes) : TimelineStorage.state :=
  (createSession CHECKPOINT_HISTORY_DEFAULTS (js "i") (js "k") (js "u") None
     (as_raw (content_print (hex_encode content))) example_start).1.

Abbreviation session := (editing CheckpointServer.t TimelineStorage.state).

(** An editor that has just opened a file. *)
Definition start_on {S} (server : S) (content : bytes) : editing S TimelineStorage.state :=
  let print := content_print (hex_encode content) in
  mkEditing (mkHosting (mkReplaying (mkWorld server new_stats) 0) new_history 0)
    (mkTimeline [] true print 0 0 0 print print false) (opened content) false (Some print).

Definition start (content : bytes) : session := start_on (CheckpointServer.mk [] content [] [] []) content.

Definition quiet : T CheckpointServer.t unit := retT tt.
Definition insert_at (offset : Z) (data : string) : T session unit := insert_bytes (js "s") quiet offset (js data).
Definition checkpoint : T session (Z * bool) :=
  createSessionCheckpoint (js "s") quiet quiet quiet (js "now") true.
Definition move_to (target : Z) : T session (Z * bool) :=
  checkoutHistoryCheckpoint (js "s") quiet quiet quiet quiet target.
Definition rollback : T session bool := rollbackLastCheckpoint (js "s") quiet quiet quiet true.

Definition server_of (s : session) : CheckpointServer.t := srv (ho_calls (ed_host s)).
Definition shown (s : session) : bytes * Z * list Z * Z :=
  (CheckpointServer.now (server_of s), tl_cursor (ed_timeline s), map fst (tl_entries (ed_timeline s)),
   len (mf_intervals (st_value (ed_store s)))).

Definition undo : T session unit := performUndoOnSession (js "s") quiet true.
Definition redo : T session unit := performRedoOnSession (js "s") quiet true.
Definition server_changes (s : CheckpointServer.t) : Z := Z.of_nat (CheckpointServer.changes s).
Definition move_to_count (n : Z) : T session bool :=
  navigateActionJournalToChangeCount (js "s") quiet quiet quiet quiet server_changes 10 false true n.

(** Two inserts, each with a checkpoint. *)
Definition two_checkpoints : T session unit :=
  let+ _ := insert_at 0 "61" in let+ _ := checkpoint in let+ _ := insert_at 1 "62" in let+ _ := checkpoint in retT tt.

(** What a session that began with [12] shows, and how it ended. *)
Definition after {A} (m : T session A) : (bytes * Z * list Z * Z) * (js_error + A) :=
  let '(s, r) := m (start [49; 50]) in (shown s, r).

(** The editor, its history, the storage and the server go through
    checkpoints, undo and redo together. *)
Example made_two : after two_checkpoints = (([97; 98; 49; 50], 2, [1; 2], 2), inr tt).
Proof. vm_compute. reflexivity. Qed.

Example undone_both : after (let+ _ := two_checkpoints in let+ _ := undo in undo) = (([49; 50], 0, [1; 2], 2), inr tt).
Proof. vm_compute. reflexivity. Qed.

Example redone_both :
  after (let+ _ := two_checkpoints in let+ _ := undo in let+ _ := undo in let+ _ := redo in redo)
    = (([97; 98; 49; 50], 2, [1; 2], 2), inr tt).
Proof. vm_compute. reflexivity. Qed.

(** The depths of the checkpoints may descend: one is made at a depth of two,
    the next is rolled back, which empties the history, and another is made
    at a depth of one.  The search at a depth of one then counts both. *)
Definition descending : T session (list (option Z) * (js_error + Z)) :=
  let+ _ := insert_at 0 "61" in let+ _ := insert_at 1 "62" in let+ _ := checkpoint in
  let+ _ := insert_at 2 "63" in let+ _ := checkpoint in let+ _ := rollback in
  let+ _ := insert_at 2 "64" in let+ _ := checkpoint in
  reading (fun s => let entries := tl_entries (ed_timeline s) in (map entry_depth entries, checkpoint_at_depth entries 1)).

Example depths_may_descend : (after descending).2 = inr ([Some 2; Some 1], inr 2).
Proof. vm_compute. reflexivity. Qed.

Example moved_to_first : after (let+ _ := two_checkpoints in move_to 1) = (([97; 49; 50], 1, [1; 2], 2), inr (1, true)).
Proof. vm_compute. reflexivity. Qed.

Example moved_by_count : after (let+ _ := two_checkpoints in let+ _ := move_to_count 0 in move_to_count 2)
  = (([97; 98; 49; 50], 2, [1; 2], 2), inr true).
Proof. vm_compute. reflexivity. Qed.

(** An edit at an earlier checkpoint gives the later ones up. *)
Example edit_cuts_future :
  after (let+ _ := two_checkpoints in let+ _ := move_to 1 in insert_at 0 "63") = (([99; 97; 49; 50], 1, [1], 1), inr tt).
Proof. vm_compute. reflexivity. Qed.

(** ** What goes wrong *)

(** Making a checkpoint while the session is at an earlier one fails, for the
    storage expects the number after its last, and the later checkpoint is
    gone, from the timeline and from the disk. *)
Example earlier_checkpoint_destroys_later :
  after (let+ _ := two_checkpoints in let+ _ := move_to 1 in checkpoint) =
    (([97; 49; 50], 1, [1], 1),
     inl (JsError "TimelineStorageError" (js "TIMELINE_CHECKPOINT_LIMIT") None None)).
Proof. vm_compute. reflexivity. Qed.

(** Rolling a checkpoint back forgets the history, not the checkpoints before:
    once another is made, after fewer edits, the session cannot go back to
    them. *)
Definition rolled_back_and_on : T session unit :=
  let+ _ := insert_at 0 "61" in let+ _ := insert_at 0 "62" in let+ _ := checkpoint in
  let+ _ := insert_at 1 "62" in let+ _ := checkpoint in
  let+ _ := rollback in let+ _ := insert_at 0 "63" in let+ _ := checkpoint in retT tt.

Example rolled_back_timeline_stuck :
  (after rolled_back_and_on).2 = inr tt /\
  after (let+ _ := rolled_back_and_on in move_to 1) =
    (([99; 98; 98; 97; 49; 50], 2, [2; 4], 2),
     inl (new_error (js "Editor history depth is outside the timeline; restored checkpoint 2"))).
Proof. vm_compute. by split. Qed.

(** ** Saves *)

Abbreviation saving := (editing DiskServer.t TimelineStorage.state).

Definition own : jsstring := js "/f".

(** An editor whose file has the content. *)
Definition open_file (content : bytes) : saving :=
  start_on (DiskServer.mk (CheckpointServer.mk [] content [] [] []) own
    (fun p => if bool_decide (p = own) then Some content else None) false) content.

Definition insert_in (offset : Z) (data : string) : T saving unit :=
  insert_bytes (js "s") (retT tt) offset (js data).
Definition save : T saving unit := saveCustomDocument (js "s") (js "SHA256") own false.

(** Somebody else writes the file. *)
Definition overwrite_file (b : bytes) : T saving unit := fun s =>
  let h := ed_host s in let c := ho_calls h in let w := rw_world c in
  (mkEditing (mkHosting (mkReplaying (mkWorld (DiskServer.overwritten b (server w)) (stats w)) (rw_applied c))
     (ho_history h) (ho_documentChanges h)) (ed_timeline s) (ed_store s) (ed_restoredFromBackup s)
     (ed_savedDiskFingerprint s), inr tt).

(** The file, whether the session has unsaved changes, and the end. *)
Definition ending (m : T saving unit) : option bytes * bool * (js_error + unit) :=
  let '(s, r) := m (open_file [49; 50]) in
  (DiskServer.files (server_at s) own, isDirty (getEditState (session_history s)), r).

Example saved_twice :
  ending (let+ _ := insert_in 0 "61" in let+ _ := save in let+ _ := insert_in 0 "62" in save)
    = (Some [98; 97; 49; 50], false, inr tt).
Proof. vm_compute. reflexivity. Qed.

Example refused_when_changed :
  ending (let+ _ := insert_in 0 "61" in let+ _ := overwrite_file [120] in save)
    = (Some [120], true, inl (save_failed own (NInt SAVE_MODIFIED))).
Proof. vm_compute. reflexivity. Qed.

(** An edit that comes between the answer of a save and the reading of the
    fingerprint is taken for saved: the guard of the next save is a
    fingerprint that the file never had, and a file that was only touched is
    reported as changed. *)
Definition save_overtaken : T saving unit :=
  let+ _ := insert_in 0 "61" in
  let+ _ := saveSessionWithKnownDiskVersion (js "s") own false in
  let+ _ := mark_saved in
  let+ _ := insert_in 0 "62" in
  record_fingerprints (js "s") (js "SHA256") true.

Example overtaken_save_refused :
  ending save_overtaken = (Some [97; 49; 50], true, inr tt) /\
  ending (let+ _ := save_overtaken in let+ _ := overwrite_file [97; 49; 50] in save)
    = (Some [97; 49; 50], true, inl (save_failed own (NInt SAVE_MODIFIED))).
Proof. vm_compute. by split. Qed.

(** ** Witnesses *)

#[export] Instance quiet_calls : QuietCalls (S := CheckpointServer.t) (js "s") quiet quiet quiet quiet.
Proof. by split. Defined.

Abbreviation run := (run_timeline (D := TimelineStorage.state) (js "s") quiet quiet quiet quiet (js "now")).

Definition edited : session := (insert_at 0 "61" (start [49; 50])).1.
End Example.

Import Example.

Lemma timeline_stays_aligned_witness :
  exists s', run (CreateCheckpointOp true) edited = (s', inr tt) /\ in_order (ed_timeline s') /\
    tl_cursor (ed_timeline s') = 1 /\ aligned (js "s") s'.
Proof.
  pose proof (timeline_stays_aligned (js "s") quiet quiet quiet quiet (js "now") (CreateCheckpointOp true) edited) as H.
  assert (Ho : in_order (ed_timeline edited)) by (vm_compute; repeat split; discriminate).
  specialize (H Ho). exists (run (CreateCheckpointOp true) edited).1.
  assert (Hr : (run (CreateCheckpointOp true) edited).2 = inr tt) by (vm_compute; reflexivity).
  assert (Hc : tl_cursor (ed_timeline (run (CreateCheckpointOp true) edited).1) = 1) by (vm_compute; reflexivity).
  destruct (run (CreateCheckpointOp true) edited) as [s' r]. cbn [fst snd] in *. subst r.
  destruct H as (Hin & Ha & _). split; [reflexivity|]. split; [exact Hin|]. split; [exact Hc|].
  apply Ha; [vm_compute; reflexivity|exact I].
Defined.

(** The undo of the change that led to the second checkpoint. *)
Definition at_second : session := (two_checkpoints (start [49; 50])).1.

Lemma history_moves_follow_server_witness :
  exists s', undo at_second = (s', inr tt) /\ CheckpointServer.now (server_of s') = [97; 49; 50] /\
    follows (ed_timeline at_second) (ed_timeline s') /\
    tl_cursor (ed_timeline s') = Z.min (checkpoints_of (js "s") s') (len (tl_entries (ed_timeline at_second))).
Proof.
  assert (H : forall s s' r, undo s = (s', r) -> follows (ed_timeline s) (ed_timeline s') /\
    (can_move false s = true -> succeeds r ->
      tl_cursor (ed_timeline s') = Z.min (checkpoints_of (js "s") s') (len (tl_entries (ed_timeline s))))).
  { intros s s' r E.
    pose proof (history_moves_follow_server (D := TimelineStorage.state) (js "s") quiet quiet quiet quiet false true s) as H.
    cbv beta iota zeta in H. unfold undo in E. rewrite E in H. destruct H as (Hf & _ & Hm). by split. }
  assert (Hr : (undo at_second).2 = inr tt) by (vm_compute; reflexivity).
  assert (Hc : can_move false at_second = true) by (vm_compute; reflexivity).
  assert (Hn : CheckpointServer.now (server_of (undo at_second).1) = [97; 49; 50]) by (vm_compute; reflexivity).
  exists (undo at_second).1. specialize (H at_second). destruct (undo at_second) as [s' r]. cbn [fst snd] in *. subst r.
  destruct (H s' (inr tt) eq_refl) as [Hf Hm].
  split; [reflexivity|]. split; [exact Hn|]. split; [exact Hf|]. exact (Hm Hc I).
Defined.

Lemma navigation_ends_witness :
  exists s', navigate_loop (D := TimelineStorage.state) (js "s") quiet server_changes 1 true 0 edited = (s', inr true) /\
    position server_changes s' = 0.
Proof.
  exists (navigate_loop (D := TimelineStorage.state) (js "s") quiet server_changes 1 true 0 edited).1.
  assert (Hr : (navigate_loop (D := TimelineStorage.state) (js "s") quiet server_changes 1 true 0 edited).2 = inr true)
    by (vm_compute; reflexivity).
  assert (Hd : Z.abs (0 - count_of server_changes edited) <= Z.of_nat 1) by (vm_compute; discriminate).
  pose proof (fun s' r => navigation_ends (js "s") quiet server_changes 1 true 0 edited s' r Hd) as H.
  destruct (navigate_loop _ _ _ _ _ _ _) as [s' r]. cbn [fst snd] in *. subst r. split; [reflexivity|].
  destruct (H s' true eq_refl) as [Hp _]. exact (Hp eq_refl).
Defined.

Definition with_two : session := (two_checkpoints (start [49; 50])).1.

Lemma depth_search_counts_witness :
  depths (tl_entries (ed_timeline with_two)) [1; 2] /\
  checkpoint_at_depth (tl_entries (ed_timeline with_two)) 1 = inr 1.
Proof.
  assert (H : depths (tl_entries (ed_timeline with_two)) [1; 2]).
  { split.
    - apply Forall2_same_length_lookup. split; [vm_compute; reflexivity|].
      intros i e d He Hd. destruct i as [|[|i]]; [| |by destruct i].
      + injection Hd as <-. revert He. vm_compute. intros [= <-]. reflexivity.
      + injection Hd as <-. revert He. vm_compute. intros [= <-]. reflexivity.
    - repeat constructor; lia. }
  split; [exact H|]. rewrite (depth_search_counts _ _ 1 H). reflexivity.
Defined.
